(* ===== verification/_CoqProject ===== *)
-Q . S2P
Prelude.v
QtraceDefs.v
IContext.v
Requests.v
IContextHeap.v
Plugins.v
DebugChannel.v
Interpret.v
X86.v
TcgOut.v
TcgEnc.v
TcgEmit.v
TcgCond.v
TcgOpDefs.v
TcgSem.v
TcgLabel.v
TlbLoad.v
QemuLdSt.v
MemTrace.v
SlowPath.v
InstrCall.v
TbExit.v
TcgOp.v
TcgAlu.v
TcgWide.v
TcgMemOp.v
Prologue.v
TcgIR.v
Optimize.v
OptCopies.v
OptValues.v
OptSound.v
OptStages.v
OptFold.v
OptRound.v
OptProgram.v
Liveness.v
LivenessSound.v
MiddleEnd.v
RegAlloc.v
RegAllocLogic.v
LinearCode.v
RegAllocSpill.v
RegAllocOps.v
RegAllocStep.v
RegAllocTable.v
RegAllocInsn.v
RegAllocMov.v
RegAllocCall.v
RegAllocSim.v
RegAllocNotes.v
RegAllocTrack.v
RegAllocFacts.v
RegAllocBlock.v
RegAllocProgram.v
TbState.v
TbPages.v
Tlb.v
TbCache.v
TbLogic.v
TbLinks.v
TbInv.v
TbJumps.v
TbInvalidate.v
TlbInv.v
TbGen.v
TbLinkPage.v
TbGenCode.v
TbFind.v
TbFlush.v
TbBitmap.v
TbRange.v
TbPhys.v
TbTwice.v
TbStore.v
TbWrite.v
TbStoreInv.v
TbExample.v
TbTheorems.v
