(* ===== verification/Prelude.v ===== *)
(** * QTRACE: instrumentation of translated code

    QTRACE extends QEMU 1.7.1 with dynamic instrumentation of an x86 guest on an
    x86-64 host.  A plugin module asks, for every guest instruction, for functions
    to be called before or after it, with values of registers and properties of
    memory accesses as parameters.  The development follows a request through the
    program:

    - a plugin is loaded and its callbacks are registered (qtrace.c);
    - while an instruction is translated, the callbacks pass request words to the
      parser, which builds a list of instrumentation contexts (qtrace.c);
    - the translator interprets the newest context: it resolves the requests to
      offsets of the CPU state, emits operations that save registers to the shadow
      CPU state, and packs the memory requests into the index operand of the guest
      memory operations (target-i386/translate.c, tcg/tcg.c);
    - the operations of the block are optimized (tcg/optimize.c), operations
      without use are removed and registers are allocated (tcg/tcg.c);
    - the back end generates host code for the operations: guest loads and stores
      that record what was asked for, and calls of the instrumentation functions at
      the end of the block (tcg/i386/tcg-target.c, tcg/tcg-be-ldst.h);
    - translated blocks are kept in a cache, found by the address of the guest
      code, and retired when that code is written to; writes are noticed by
      the software TLB (translate-all.c, cpu-exec.c, cputlb.c, exec.c,
      include/exec/softmmu_template.h);
    - an external tool sends commands to the running emulator through shared
      memory (qemu-adebug.c, cpu-exec.c).

    ** Files

    - [Prelude]: results of code that can fail, machine integers, little-endian
      byte strings, tactics.
    - [QtraceDefs]: the constants and macros of qtrace.h.
    - [IContext], [Requests], [IContextHeap]: instrumentation contexts.  The model
      of qtrace.c is a state of heap, root table and counters ([qstate]) with one
      function per C function; [Requests] is the abstract meaning of a plugin's
      call and the refinement; [IContextHeap] the representation invariant.
    - [Plugins]: [qtrace_instrument_setup] and the callback lists.
    - [DebugChannel]: the client tool, the poll of the CPU loop and their
      interleaving as a step relation.
    - [Interpret]: [qtrace_interpret_instrument_requirements] and the emission of
      guest memory operations.
    - [X86]: decoder and semantics of the host instructions that the back end uses.
    - [TcgOut]: the emitters of tcg/i386/tcg-target.c in a state and error monad.
    - [TcgEnc], [TcgEmit], [TcgCond], [TcgLabel]: what the emitted bytes decode to
      and do: encodings, effects of single emitters, comparisons, labels.
    - [TcgOpDefs]: operations, operand constraints and their parser and sorting.
    - [TcgSem]: the values of the operations, as functions of their operands.
    - [TlbLoad], [QemuLdSt], [MemTrace], [SlowPath]: guest loads and stores.
    - [InstrCall], [TbExit]: calls of instrumentation functions and block exits.
    - [TcgOp], [TcgAlu], [TcgWide], [TcgMemOp]: [tcg_out_op] and the meaning of the
      code for each operation.
    - [Prologue]: entering and leaving translated code.
    - [TcgIR]: the operations of a block as a program: temporaries, arguments and a
      transition system over the values of [TcgSem].
    - [Optimize]: the whole of tcg/optimize.c, one function per C function and one
      per stage of the loop in [tcg_constant_folding].
    - [OptCopies]: the lists of copies are circular and terminate, and the meaning
      of the optimizer's knowledge ([known]); [OptValues]: constant folding and
      bit masks against the values; [OptSound]: well-formed programs, what it means
      to replace an operation ([refined]), copy propagation; [OptStages]: operand
      order and operations that stay; [OptFold], [OptRound]: every simplification,
      one round of the loop; [OptProgram]: runs of whole programs.
    - [Liveness]: [tcg_liveness_analysis] of tcg/tcg.c; [LivenessSound]: what it
      does to one operation, as a simulation between values that agree on the
      temporaries in use; [MiddleEnd]: whole programs, and optimizer and liveness
      analysis one after the other.
    - [RegAlloc]: the register allocator and the loop of [tcg_gen_code_common], in a
      monad of state, errors and calls of the back end ([lop]), one function per C
      function.  [LinearCode]: the meaning of such calls on registers and memory.
      [RegAllocLogic]: the invariant of the allocator ([ra_inv]), what it says about
      the host ([values]) and a weakest-precondition calculus ([wp]).
      [RegAllocSpill], [RegAllocOps], [RegAllocStep], [RegAllocMov], [RegAllocCall]:
      one lemma per function; [RegAllocTable], [RegAllocInsn]: the constraint table
      leaves a register for every operand.  [RegAllocSim]: one operation of the code
      against one of the block; [RegAllocNotes], [RegAllocTrack], [RegAllocFacts]:
      what the notes of the liveness analysis tell the allocator, and a check that
      temporaries are written before they are read, and that no operand of add2 or
      sub2 can share the register of a result that is written too early
      ([alloc_check]);
      [RegAllocBlock], [RegAllocProgram]: whole blocks.
    - [TbState]: the state of the translation cache, the TLBs and memory, and a
      monad of state, errors and siglongjmp.  [TbPages]: the map from physical pages
      to page descriptors.  [Tlb]: cputlb.c and the dirty flags of exec.c.
      [TbCache]: translate-all.c and the lookup of cpu-exec.c.  [TbStore]: the slow
      path of stores and the writes of devices.  One function per C function.
    - [TbLogic]: a weakest-precondition calculus ([wpc]), and what the lists
      of the cache have in common, as a class ([ListsOf]) with an instance for each
      kind of list in [TbLinks]; [TbInv]: the invariant of the cache ([cache_inv])
      and frames; [TlbInv]: the invariant of the TLBs ([tlbs_ok]).
    - One lemma per operation: [TbJumps], [TbInvalidate], [TbGen], [TbLinkPage],
      [TbGenCode], [TbFind], [TbFlush], [TbBitmap], [TbRange], [TbPhys], [TbTwice],
      [TbWrite], [TbStoreInv].  [TbExample]: a small machine.  [TbTheorems]: the
      theorems and their instances on that machine.

    ** Host and configuration

    The host is x86-64 with Linux calling conventions, the guest is x86-64 in
    system emulation.  Layout offsets of the CPU state are a class ([CPULayout]);
    the page and TLB sizes are those of the sources.  Instruction memory is apart
    from data memory, so generated code does not change while it runs.  A theorem
    about generated code has the form: the emitter succeeds and appends bytes; in
    any machine state in which these bytes are at the emitter's address, execution
    ([steps]) reaches the stated address in the stated state.

    ** What the theorems show

    - Requests: the parser implements the abstract requests
      ([parser_implements_requests]); the contexts of a block are the lists that
      the plugins' calls denote ([block_contexts_correct]); freeing releases every
      context once ([free_all_releases_everything]); the table bound is exact
      ([root_table_bound]); interpretation resolves every request
      ([client_module_resolves]); packing is undone ([memtrace_roundtrip]).
    - Modules and channel: [setup_registers_module] (a lemma),
      [reset_requests_reach_modules], [channel_delivers].
    - Memory accesses: [guest_load_correct] and [guest_store_correct], from the
      operation to the recorded values, on TLB hit and miss.
    - Calls: [instrument_call_correct], [block_exit_instrumented],
      [prologue_epilogue].
    - Operations: [binop_correct], [unop_correct], [setcond_correct],
      [movcond_correct], [brcond_backward], [sum2_correct], [mul2_correct],
      [div2_correct], [deposit_correct], [ld_correct], [st_correct],
      [forward_jump_reaches], under the contract of the constraint table, whose
      entries are well formed ([op_defs_accepted], [sort_constraints_sorts],
      [double_word_cond], [invert_swap_cond]).
    - Optimizer: it terminates without a failing assertion ([optimizer_total]),
      every run of its result is a run of the program ([optimizer_refines]), its
      result stops only where the program does ([optimizer_stops]), and labels,
      exits and instrumentation operations stay in place ([optimizer_keeps]).  A
      program is well formed ([wf_program]) if temporaries, types, conditions and
      fields are as tcg/tcg-op.h produces them for this host.
    - Optimizer and liveness analysis together ([middle_end_correct]): both
      terminate, and a block that reaches an exit does so as the program does, with
      the same memory and globals.  The class [suppressible] states what the removal
      of operations relies on: loads of host memory and helpers declared without
      side effects can be left out.
    - Register allocator ([allocation_correct]): on a block after the liveness
      analysis that passes [alloc_check] it terminates without a failing assertion,
      the operands of its code satisfy the constraint table, every run of its code is
      a run of the block, exits agree and so do the globals there, and the code stops
      only where the block does.  With the passes before
      it: [code_generation_correct].  Globals are in memory, in places apart from
      each other and from the frame, or in the reserved register ([start_ok]).
    - Translation cache: a set of live blocks is exactly what the hash table and the
      lists of pages hold, jumps go where the lists of jumps say, code of live blocks
      does not overlap, jump caches hold live blocks on the pages that their processor
      executes, bitmaps cover all code, and no TLB entry allows a direct write to a
      page with code ([full_inv]).  Every operation keeps this:
      [lookup_finds_block], [generation_links_block], [invalidation_retires_block],
      [range_invalidation_exact], [bitmap_check_exact], [chaining_links_jump],
      [page_flush_unmaps], [host_address_finds_block].  Writes keep the code of live
      blocks unchanged: [guest_store_coherent], [device_write_coherent],
      [unmap_invalidates].  The invariant is one for a mapping of virtual to physical
      pages ([Mapping]).  Operations that walk through the page tables need that these
      agree with the mapping ([walks]); when a guest has changed its page tables and
      flushes the page or the TLB, the invariant holds for the new mapping
      ([flush_adopts_mapping]).  Invalidation needs that no block has one physical page
      twice ([pages_apart]), which new blocks keep whose two pages are mapped to
      different places, and crashes otherwise ([range_twice_crashes]).
    - Defects of the code: [instrument_call_leaks_stack],
      [after_call_runs_before], [exit_requested_out_of_bounds],
      [muluh_folding_truncates], [adebug_wait_inverted], [const_mov_fails],
      [sum2_reads_result] and [add2_shares_register], [range_twice_crashes],
      [unmap_leaves_code], [before_call_misses_memory], [upid_erases_request]; what is
      recorded as a physical address is none ([never_physical] of [MemTrace]).

    ** Bounds

    Recursion over the heap of contexts uses the size of the heap as fuel, which
    bounds every list in it; the loop over request words uses the number of words.
    The walk along a list of copies has the number of temporaries as fuel: the
    list is circular, so that it returns to its start within that many steps.
    Loops over lists of the translation cache have twice the number of blocks as
    fuel: a block is at most twice in a list.  The binary search has the number of
    blocks, the loops over pages the number of pages of the range.
    The theorems state success, so the fuel is enough wherever they apply.
    Programs have at most [TCG_MAX_TEMPS] temporaries, as the sources allow.  The frame
    has to have room for all temporaries of the block that are not globals: 128 in
    the frame of the prologue, past which the allocator can abort.

    ** Not modelled

    The decoder of guest instructions and its helpers, the buffer of operations,
    other hosts and guests, devices, block layer, networking, user interface and
    monitor.  The dynamic loader, shared-memory system calls and
    the plugins' functions are parameters; so are, for the generated code, the MMU
    helpers.  For the translation cache the parameters are the code that is generated
    for a block and the guest state that is restored at a place in it
    ([Translator], [translator_ok], [restored_ok]), the memory map and the walk through
    the page tables of the guest, which may read memory ([Machine], [machine_ok]), and
    writes to device registers, ROM and pages with watchpoints ([Devices]), of which
    nothing is assumed: the theorem on stores is about RAM.  Counted execution (-icount),
    the accessed and dirty bits that the walk writes, calls into Xen and statistics
    counters are left out; the C code tries the RAM block used last first, the model
    looks a block up by its range.  Block chaining is modelled although cpu_exec has it
    switched off.  In the programs of [TcgIR] the memory operations and helper functions
    are relations of the environment ([environment]), about which nothing but [suppressible] is assumed.  An operation
    in the code of the allocator reads its operands before it writes its results, but
    for add2 and sub2 ([two_steps]); that the bytes of an operation do the same is what
    the theorems on operations state, for operands as [op_fits] says they are. *)

From stdpp Require Export prelude gmap strings.
From Stdlib Require Export ZArith Lia ZifyBool.

#[global] Open Scope Z_scope.

(** ** Results of C code that can go wrong

    Every operation that the C code can leave through an assertion, an
    out-of-range array access, an access to freed memory or an abort is a
    function into [res]. *)

Inductive cerror :=
  | OutOfBounds       (* an array is indexed past its end *)
  | NullDeref         (* a NULL pointer is dereferenced *)
  | BadPointer        (* an address that is no object is dereferenced *)
  | UseAfterFree      (* a freed or never allocated object is accessed *)
  | AssertFailed      (* assert() does not hold *)
  | TcgAbort          (* tcg_abort() *)
  | VaArgExhausted    (* va_arg() reads past the arguments passed *)
  | Exited            (* exit(-1) *)
  | OutOfFuel.        (* the bound on the number of steps is too small *)

#[export] Instance cerror_eq_dec : EqDecision cerror.
Proof. solve_decision. Defined.

Inductive res (A : Type) :=
  | Ok (a : A)
  | Err (e : cerror).
Arguments Ok {_} _.
Arguments Err {_} _.

#[export] Instance res_ret : MRet res := fun A a => Ok a.
#[export] Instance res_bind : MBind res :=
  fun A B f m => match m with Ok a => f a | Err e => Err e end.
#[export] Instance res_fmap : FMap res :=
  fun A B f m => match m with Ok a => Ok (f a) | Err e => Err e end.

Definition of_option {A} (e : cerror) (o : option A) : res A :=
  match o with Some a => Ok a | None => Err e end.

Definition guard_res (b : bool) (e : cerror) : res unit :=
  if b then Ok tt else Err e.

Lemma bind_Ok {A B} (m : res A) (f : A -> res B) b :
  (m ≫= f) = Ok b <-> exists a, m = Ok a /\ f a = Ok b.
Proof.
  destruct m as [a|e]; cbn; split; intros H.
  - eauto.
  - by destruct H as (a' & [= ->] & ?).
  - done.
  - by destruct H as (? & ? & _).
Qed.

Lemma of_option_Ok {A} e (o : option A) a : of_option e o = Ok a <-> o = Some a.
Proof. destruct o; cbn; split; congruence. Qed.

Lemma guard_res_Ok b e u : guard_res b e = Ok u <-> b = true.
Proof. destruct b, u; cbn; split; congruence. Qed.

(** [inv_res] turns every hypothesis that a monadic computation succeeded into
    the equations of its steps. *)
Ltac inv_res :=
  repeat match goal with
  | H : Ok _ = Ok _ |- _ => injection H as H; subst
  | H : Err _ = Ok _ |- _ => discriminate H
  | H : Ok _ = Err _ |- _ => discriminate H
  | H : mret _ = Ok _ |- _ => injection H as H; subst
  | H : (_ ≫= _) = Ok _ |- _ =>
      apply bind_Ok in H; let a := fresh "a" in let E := fresh "E" in
      destruct H as (a & E & H)
  | H : of_option _ _ = Ok _ |- _ => apply of_option_Ok in H
  | H : guard_res _ _ = Ok _ |- _ => apply guard_res_Ok in H
  end.

(** ** Machine integers

    A w-bit unsigned integer is an integer in [0 .. 2^w); [wrap w] is the
    conversion to it, [swrap w] the conversion to the signed type of the same
    width (two's complement, as on every host the sources support). *)

Definition wrap (w z : Z) : Z := z mod 2 ^ w.
Definition swrap (w z : Z) : Z := (z + 2 ^ (w - 1)) mod 2 ^ w - 2 ^ (w - 1).

Abbreviation u8 := (wrap 8).
Abbreviation u16 := (wrap 16).
Abbreviation u32 := (wrap 32).
Abbreviation u64 := (wrap 64).
Abbreviation s8 := (swrap 8).
Abbreviation s16 := (swrap 16).
Abbreviation s32 := (swrap 32).
Abbreviation s64 := (swrap 64).

Arguments wrap : simpl never.
Arguments swrap : simpl never.

Definition in_u (w z : Z) : Prop := 0 <= z < 2 ^ w.
Definition in_s (w z : Z) : Prop := - 2 ^ (w - 1) <= z < 2 ^ (w - 1).

Lemma wrap_range w z : 0 <= w -> in_u w (wrap w z).
Proof. intros. apply Z.mod_pos_bound. lia. Qed.

Lemma wrap_id w z : in_u w z -> wrap w z = z.
Proof. apply Z.mod_small. Qed.

Lemma swrap_id w z : 0 < w -> in_s w z -> swrap w z = z.
Proof.
  unfold in_s, swrap. intros ? ?.
  assert (2 ^ w = 2 * 2 ^ (w - 1)) as E
    by (rewrite <- Z.pow_succ_r by lia; f_equal; lia).
  rewrite Z.mod_small; lia.
Qed.

Lemma swrap_range w z : 0 < w -> in_s w (swrap w z).
Proof.
  unfold in_s, swrap. intros ?.
  assert (2 ^ w = 2 * 2 ^ (w - 1)) as E
    by (rewrite <- Z.pow_succ_r by lia; f_equal; lia).
  pose proof (Z.mod_pos_bound (z + 2 ^ (w - 1)) (2 ^ w)). lia.
Qed.

Lemma wrap_swrap w z : 0 < w -> wrap w (swrap w z) = wrap w z.
Proof.
  unfold wrap, swrap. intros ?.
  rewrite Zminus_mod_idemp_l. f_equal. lia.
Qed.

Lemma swrap_wrap w z : 0 < w -> swrap w (wrap w z) = swrap w z.
Proof. intros Hw. unfold swrap, wrap. by rewrite Zplus_mod_idemp_l. Qed.

Lemma swrap_fits w z : 0 < w -> (z =? swrap w z) = true <-> in_s w z.
Proof.
  intros Hw. rewrite Z.eqb_eq. split.
  - intros ->. by apply swrap_range.
  - intros H. by rewrite swrap_id.
Qed.

Lemma wrap_wrap w z : wrap w (wrap w z) = wrap w z.
Proof. unfold wrap. apply Z.mod_mod_divide. apply Z.divide_refl. Qed.

Lemma wrap_add_l w a b : wrap w (wrap w a + b) = wrap w (a + b).
Proof. unfold wrap. apply Zplus_mod_idemp_l. Qed.

Lemma wrap_add_r w a b : wrap w (a + wrap w b) = wrap w (a + b).
Proof. unfold wrap. apply Zplus_mod_idemp_r. Qed.

Lemma wrap_sub_l w a b : wrap w (wrap w a - b) = wrap w (a - b).
Proof. unfold wrap. apply Zminus_mod_idemp_l. Qed.

Lemma wrap_sub_r w a b : wrap w (a - wrap w b) = wrap w (a - b).
Proof. unfold wrap. apply Zminus_mod_idemp_r. Qed.

Lemma testbit_above w z n : in_u w z -> 0 <= w <= n -> Z.testbit z n = false.
Proof.
  unfold in_u. intros H Hn. rewrite <- (Z.mod_small z (2 ^ w)) by done.
  apply Z.mod_pow2_bits_high. lia.
Qed.

(** A field below bit [n] and one from bit [n] on do not overlap. *)
Lemma lor_shiftl_add n a b :
  0 <= n -> in_u n a -> Z.lor a (Z.shiftl b n) = a + b * 2 ^ n.
Proof.
  intros Hn Ha. rewrite <- Z.shiftl_mul_pow2 by done.
  rewrite (Z.add_nocarry_lxor a (Z.shiftl b n)).
  - rewrite Z.lxor_lor; [done|]. apply Z.bits_inj'. intros i Hi.
    rewrite Z.land_spec, Z.bits_0, Z.shiftl_spec by done.
    destruct (Z.lt_ge_cases i n).
    + rewrite (Z.testbit_neg_r b) by lia. apply andb_false_r.
    + by rewrite (testbit_above n).
  - apply Z.bits_inj'. intros i Hi.
    rewrite Z.land_spec, Z.bits_0, Z.shiftl_spec by done.
    destruct (Z.lt_ge_cases i n).
    + rewrite (Z.testbit_neg_r b) by lia. apply andb_false_r.
    + by rewrite (testbit_above n).
Qed.

(** A number whose bits from [w] on are clear is a [w]-bit number. *)
Lemma in_u_bits w z :
  0 <= w -> (forall n, w <= n -> Z.testbit z n = false) -> in_u w z.
Proof.
  intros Hw H. replace z with (wrap w z); [by apply wrap_range|].
  unfold wrap. rewrite <- Z.land_ones by done. apply Z.bits_inj'. intros n Hn.
  rewrite Z.land_spec. destruct (Z.lt_ge_cases n w).
  - rewrite Z.ones_spec_low by lia. apply andb_true_r.
  - by rewrite H by done.
Qed.

Lemma lor_in_u w a b : 0 <= w -> in_u w a -> in_u w b -> in_u w (Z.lor a b).
Proof.
  intros Hw Ha Hb. apply in_u_bits; [done|]. intros n Hn.
  by rewrite Z.lor_spec, !(testbit_above w) by done.
Qed.

Lemma land_in_u w a b : 0 <= w -> in_u w b -> in_u w (Z.land a b).
Proof.
  intros Hw Hb. apply in_u_bits; [done|]. intros n Hn.
  rewrite Z.land_spec, (testbit_above w b) by done. apply andb_false_r.
Qed.

(** [testb flags f] is C's [flags & f] used as a condition. *)
Definition testb (x f : Z) : bool := negb (Z.land x f =? 0).

Lemma land_pow2 z k : 0 <= k -> Z.land z (2 ^ k) = if Z.testbit z k then 2 ^ k else 0.
Proof.
  intros Hk. apply Z.bits_inj'. intros n Hn. rewrite Z.land_spec, Z.pow2_bits_eqb by done.
  destruct (Z.eqb_spec k n) as [->|Hne].
  - rewrite andb_true_r. destruct (Z.testbit z n); [by rewrite Z.pow2_bits_true|].
    by rewrite Z.bits_0.
  - rewrite andb_false_r. destruct (Z.testbit z k); [|by rewrite Z.bits_0].
    by rewrite Z.pow2_bits_false.
Qed.

Lemma testb_pow2 x k : 0 <= k -> testb x (2 ^ k) = Z.testbit x k.
Proof.
  intros Hk. unfold testb. rewrite land_pow2 by done. destruct (Z.testbit x k); [|done].
  pose proof (Z.pow_pos_nonneg 2 k). destruct (Z.eqb_spec (2 ^ k) 0); [lia|done].
Qed.

(** ** Little-endian byte sequences *)

Fixpoint bytes_le (n : nat) (z : Z) : list Z :=
  match n with
  | O => []
  | S n => u8 z :: bytes_le n (z / 2 ^ 8)
  end.

Fixpoint of_bytes_le (l : list Z) : Z :=
  match l with
  | [] => 0
  | b :: l => b + 2 ^ 8 * of_bytes_le l
  end.

Lemma length_bytes_le n z : length (bytes_le n z) = n.
Proof. revert z. induction n; cbn; auto. Qed.

Lemma of_bytes_le_bytes_le n z :
  of_bytes_le (bytes_le n z) = wrap (8 * Z.of_nat n) z.
Proof.
  revert z. induction n as [|n IH]; intros z; cbn [bytes_le of_bytes_le].
  - unfold wrap. change (2 ^ (8 * Z.of_nat 0)) with 1. by rewrite Z.mod_1_r.
  - rewrite IH. unfold wrap.
    replace (8 * Z.of_nat (S n)) with (8 + 8 * Z.of_nat n) by lia.
    rewrite Z.pow_add_r by lia. rewrite Z.rem_mul_r by lia. lia.
Qed.

Lemma bytes_le_byte n z : Forall (in_u 8) (bytes_le n z).
Proof.
  revert z. induction n; intros z; cbn; constructor; auto.
  by apply wrap_range.
Qed.

Lemma of_bytes_le_range l :
  Forall (in_u 8) l -> in_u (8 * Z.of_nat (length l)) (of_bytes_le l).
Proof.
  unfold in_u. induction 1 as [|b l Hb Hl IH]; cbn [of_bytes_le length]; [lia|].
  replace (8 * Z.of_nat (S (length l))) with (8 + 8 * Z.of_nat (length l)) by lia.
  rewrite Z.pow_add_r by lia. nia.
Qed.

Lemma bytes_le_of_bytes_le l :
  Forall (in_u 8) l -> bytes_le (length l) (of_bytes_le l) = l.
Proof.
  induction 1 as [|b l Hb Hl IH]; cbn [of_bytes_le length bytes_le]; [done|].
  unfold in_u in Hb. rewrite (Z.mul_comm (2 ^ 8)). f_equal.
  - unfold wrap. rewrite Z_mod_plus_full. by apply Z.mod_small.
  - rewrite Z.div_add by lia. rewrite Z.div_small by lia. apply IH.
Qed.

(** ** Lists *)

Lemma foldr_lor_testbit (f : Z -> Z) l n :
  0 <= n ->
  Z.testbit (foldr (fun x acc => Z.lor (f x) acc) 0 l) n =
  existsb (fun x => Z.testbit (f x) n) l.
Proof.
  intros Hn. induction l as [|x l IH]; cbn [foldr existsb].
  - apply Z.testbit_0_l.
  - by rewrite Z.lor_spec, IH.
Qed.

(** Rewriting databases of the development. *)
Create Rewrite HintDb mach.
#[export] Hint Rewrite wrap_wrap wrap_add_l wrap_add_r length_bytes_le
  of_bytes_le_bytes_le : mach.

Create HintDb qtrace discriminated.
#[export] Hint Resolve wrap_range swrap_range bytes_le_byte : qtrace.
