(* ===== verification/QtraceDefs.v ===== *)
(** * Flags and macros of qtrace.h

    The instruction-type flags a plugin tests, the codes a plugin passes to
    [qtrace_instrument_parser], and the packing of the memory-trace request
    into the [mem_index] operand of a TCG memory operation.  Every [unsigned]
    of the macros is a 32-bit integer, [int] its signed counterpart. *)

From S2P Require Import Prelude.

(** ** Instruction types (qtrace.h, QTRACE_IS_x and QTRACE_TEST_x) *)

Inductive insn_type :=
  | QTRACE_IS_USER | QTRACE_IS_KERN | QTRACE_IS_FETCH | QTRACE_IS_STORE | QTRACE_IS_JMP
  | QTRACE_IS_CALL | QTRACE_IS_RETURN | QTRACE_IS_SYSENTER | QTRACE_IS_SYSEXIT
  | QTRACE_IS_SYSCALL | QTRACE_IS_SYSRET | QTRACE_IS_CPUID | QTRACE_IS_HLT
  | QTRACE_IS_INVLPGA | QTRACE_IS_MONITOR | QTRACE_IS_MWAIT | QTRACE_IS_INVD
  | QTRACE_IS_PREFETCH | QTRACE_IS_NOP | QTRACE_IS_MEMFENCE | QTRACE_IS_CLFLUSH
  | QTRACE_IS_RDTSC | QTRACE_IS_SSE | QTRACE_IS_FLOAT | QTRACE_IS_COND
  | QTRACE_IS_ARITHLOGIC | QTRACE_IS_INDIRECT.

#[export] Instance insn_type_eq_dec : EqDecision insn_type.
Proof. solve_decision. Defined.

(** The bit of a type: 1 shifted by its place in the list of the header. *)
Definition insn_type_bit (x : insn_type) : Z :=
  match x with
  | QTRACE_IS_USER => 0 | QTRACE_IS_KERN => 1 | QTRACE_IS_FETCH => 2
  | QTRACE_IS_STORE => 3 | QTRACE_IS_JMP => 4 | QTRACE_IS_CALL => 5
  | QTRACE_IS_RETURN => 6 | QTRACE_IS_SYSENTER => 7 | QTRACE_IS_SYSEXIT => 8
  | QTRACE_IS_SYSCALL => 9 | QTRACE_IS_SYSRET => 10 | QTRACE_IS_CPUID => 11
  | QTRACE_IS_HLT => 12 | QTRACE_IS_INVLPGA => 13 | QTRACE_IS_MONITOR => 14
  | QTRACE_IS_MWAIT => 15 | QTRACE_IS_INVD => 16 | QTRACE_IS_PREFETCH => 17
  | QTRACE_IS_NOP => 18 | QTRACE_IS_MEMFENCE => 19 | QTRACE_IS_CLFLUSH => 20
  | QTRACE_IS_RDTSC => 21 | QTRACE_IS_SSE => 22 | QTRACE_IS_FLOAT => 23
  | QTRACE_IS_COND => 24 | QTRACE_IS_ARITHLOGIC => 25 | QTRACE_IS_INDIRECT => 26
  end.
Definition insn_type_flag (x : insn_type) : Z := Z.shiftl 1 (insn_type_bit x).

(** The macros QTRACE_TEST_x; there is none for QTRACE_IS_FLOAT. *)
Definition QTRACE_TEST (x : insn_type) (X : Z) : Z := Z.land X (insn_type_flag x).

(** The flag word [qtrace_insnflags] of the disassembly context. *)
Definition QTRACE_RESET_INST_TYPE_FLAG (insnflags : Z) : Z := 0.
Definition QTRACE_ADD_INST_TYPE_FLAG (insnflags flg : Z) : Z :=
  Z.lor insnflags flg.
Definition QTRACE_SUB_INST_TYPE_FLAG (insnflags flg : Z) : Z :=
  Z.land insnflags (Z.lnot flg).
Definition QTRACE_ADD_COND_INST_TYPE_FLAG (insnflags flg : Z) (c : bool) : Z :=
  if c then QTRACE_ADD_INST_TYPE_FLAG insnflags flg else insnflags.
Definition QTRACE_SUB_COND_INST_TYPE_FLAG (insnflags flg : Z) (c : bool) : Z :=
  if c then QTRACE_SUB_INST_TYPE_FLAG insnflags flg else insnflags.

(** A flag is tested apart from the others. *)
Lemma insn_type_bit_inj x y : insn_type_bit x = insn_type_bit y -> x = y.
Proof. by destruct x, y. Qed.

Lemma insn_type_bit_pos x : 0 <= insn_type_bit x.
Proof. by destruct x. Qed.

Lemma flag_testbit x k : Z.testbit (insn_type_flag x) k = (k =? insn_type_bit x).
Proof.
  unfold insn_type_flag. rewrite Z.shiftl_1_l, Z.pow2_bits_eqb by apply insn_type_bit_pos. apply Z.eqb_sym.
Qed.

Lemma test_bit x w : QTRACE_TEST x w = if Z.testbit w (insn_type_bit x) then insn_type_flag x else 0.
Proof.
  unfold QTRACE_TEST. apply Z.bits_inj. intros k. rewrite Z.land_spec, flag_testbit.
  destruct (Z.eqb_spec k (insn_type_bit x)) as [->|Hne].
  - destruct (Z.testbit w (insn_type_bit x)); [by rewrite flag_testbit, Z.eqb_refl|by rewrite Z.bits_0].
  - rewrite andb_false_r. destruct (Z.testbit w (insn_type_bit x)); [|by rewrite Z.bits_0].
    by rewrite flag_testbit, (proj2 (Z.eqb_neq _ _) Hne).
Qed.

Lemma bit_eqb x y : (insn_type_bit x =? insn_type_bit y) = bool_decide (x = y).
Proof.
  case_bool_decide as E; [subst; apply Z.eqb_refl|]. apply Z.eqb_neq. intros E'. by apply E, insn_type_bit_inj.
Qed.

Lemma test_add x y w :
  QTRACE_TEST x (QTRACE_ADD_INST_TYPE_FLAG w (insn_type_flag y)) =
  if bool_decide (x = y) then insn_type_flag x else QTRACE_TEST x w.
Proof.
  unfold QTRACE_ADD_INST_TYPE_FLAG. rewrite !test_bit, Z.lor_spec, flag_testbit, bit_eqb.
  destruct (bool_decide (x = y)); [by rewrite orb_true_r|by rewrite orb_false_r].
Qed.

Lemma test_sub x y w :
  QTRACE_TEST x (QTRACE_SUB_INST_TYPE_FLAG w (insn_type_flag y)) =
  if bool_decide (x = y) then 0 else QTRACE_TEST x w.
Proof.
  unfold QTRACE_SUB_INST_TYPE_FLAG. rewrite !test_bit, Z.land_spec, Z.lnot_spec, flag_testbit, bit_eqb by apply insn_type_bit_pos.
  destruct (bool_decide (x = y)); [by rewrite andb_false_r|by rewrite andb_true_r].
Qed.

(** ** Instrumentation requests *)

Definition QTRACE_IFUN : Z := Z.shiftl 1 0.
Definition QTRACE_IPOINT_BEFORE : Z := Z.shiftl 1 1.
Definition QTRACE_IPOINT_AFTER : Z := Z.shiftl 1 2.
Definition QTRACE_PROCESS_UPID : Z := Z.shiftl 1 3.
Definition QTRACE_END_ARG : Z := Z.shiftl 1 4.
Definition QTRACE_MAX_ARGS : Z := 128.

Definition QTRACE_MEMTRACE_FETCH_VMA : Z := Z.shiftl 1 5.
Definition QTRACE_MEMTRACE_FETCH_PMA : Z := Z.shiftl 1 6.
Definition QTRACE_MEMTRACE_FETCH_MSIZE : Z := Z.shiftl 1 7.
Definition QTRACE_MEMTRACE_FETCH_VALUE : Z := Z.shiftl 1 8.
Definition QTRACE_MEMTRACE_FETCH_VPMA : Z :=
  Z.lor QTRACE_MEMTRACE_FETCH_VMA QTRACE_MEMTRACE_FETCH_PMA.
Definition QTRACE_MEMTRACE_STORE_VMA : Z := Z.shiftl 1 9.
Definition QTRACE_MEMTRACE_STORE_PMA : Z := Z.shiftl 1 10.
Definition QTRACE_MEMTRACE_STORE_MSIZE : Z := Z.shiftl 1 11.
Definition QTRACE_MEMTRACE_STORE_VALUE : Z := Z.shiftl 1 12.
Definition QTRACE_MEMTRACE_STORE_VPMA : Z :=
  Z.lor QTRACE_MEMTRACE_STORE_VMA QTRACE_MEMTRACE_STORE_PMA.
Definition QTRACE_MEMTRACE_FETCH_PREOP_VALUE : Z := Z.shiftl 1 13.
Definition QTRACE_MEMTRACE_FETCH_PSTOP_VALUE : Z := Z.shiftl 1 14.
Definition QTRACE_MEMTRACE_STORE_PREOP_VALUE : Z := Z.shiftl 1 15.
Definition QTRACE_MEMTRACE_STORE_PSTOP_VALUE : Z := Z.shiftl 1 16.
Definition QTRACE_REGTRACE_VALUE : Z := Z.shiftl 1 17.
Definition QTRACE_BRANCHTRACE_TARGET : Z := Z.shiftl 1 18.
Definition QTRACE_BRANCHTRACE_TAKEN : Z := Z.shiftl 1 19.
Definition QTRACE_BRANCHTRACE_NOTTAKEN : Z := Z.shiftl 1 20.
Definition QTRACE_PCTRACE_VMA : Z := Z.shiftl 1 21.

(** ** Memory-trace requests in the MMU index of a memory operation

    target-i386/qtrace-target.h sets [NB_MMU_MODES] to 3; the request occupies
    the bits above the ones QEMU needs for the MMU index. *)

Definition NB_MMU_MODES : Z := 3.
Definition QTRACE_MEMTRACE_BITS : Z := Z.log2_up NB_MMU_MODES.

(** [index] is an [int] and [x] an [unsigned]: the shift and the disjunction
    are computed at [unsigned] and the result is passed on as an [int]. *)
Definition QTRACE_ADD_MEMTRACE (index x : Z) : Z :=
  s32 (Z.lor (u32 index) (u32 (Z.shiftl x QTRACE_MEMTRACE_BITS))).
Definition QTRACE_EXT_MEMTRACE (index : Z) : Z :=
  Z.shiftr index QTRACE_MEMTRACE_BITS.
Definition QTRACE_EXT_MEMINDEX (index : Z) : Z :=
  Z.land index (Z.shiftl 1 QTRACE_MEMTRACE_BITS - 1).

(** The extraction macros return the requested bits and clear them in their
    argument: the second component is the argument afterwards. *)
Definition QTRACE_RESET_MEMTRACE_FETCH_ADDRS (x : Z) : Z :=
  Z.land x (Z.lnot QTRACE_MEMTRACE_FETCH_VPMA).
Definition QTRACE_RESET_MEMTRACE_FETCH_MSIZE (x : Z) : Z :=
  Z.land x (Z.lnot QTRACE_MEMTRACE_FETCH_MSIZE).
Definition QTRACE_RESET_MEMTRACE_FETCH_PREOP_VALUE (x : Z) : Z :=
  Z.land x (Z.lnot QTRACE_MEMTRACE_FETCH_PREOP_VALUE).
Definition QTRACE_RESET_MEMTRACE_FETCH_PSTOP_VALUE (x : Z) : Z :=
  Z.land x (Z.lnot QTRACE_MEMTRACE_FETCH_PSTOP_VALUE).
Definition QTRACE_RESET_MEMTRACE_STORE_ADDRS (x : Z) : Z :=
  Z.land x (Z.lnot QTRACE_MEMTRACE_STORE_VPMA).
Definition QTRACE_RESET_MEMTRACE_STORE_MSIZE (x : Z) : Z :=
  Z.land x (Z.lnot QTRACE_MEMTRACE_STORE_MSIZE).
Definition QTRACE_RESET_MEMTRACE_STORE_PREOP_VALUE (x : Z) : Z :=
  Z.land x (Z.lnot QTRACE_MEMTRACE_STORE_PREOP_VALUE).
Definition QTRACE_RESET_MEMTRACE_STORE_PSTOP_VALUE (x : Z) : Z :=
  Z.land x (Z.lnot QTRACE_MEMTRACE_STORE_PSTOP_VALUE).

Definition QTRACE_MEMTRACE_FETCH_EXT_ADDRS (x : Z) : Z * Z :=
  (Z.land x QTRACE_MEMTRACE_FETCH_VPMA, QTRACE_RESET_MEMTRACE_FETCH_ADDRS x).
Definition QTRACE_MEMTRACE_FETCH_EXT_MSIZE (x : Z) : Z * Z :=
  (Z.land x QTRACE_MEMTRACE_FETCH_MSIZE, QTRACE_RESET_MEMTRACE_FETCH_MSIZE x).
Definition QTRACE_MEMTRACE_FETCH_EXT_PREOP_VALUE (x : Z) : Z * Z :=
  (Z.land x QTRACE_MEMTRACE_FETCH_PREOP_VALUE,
   QTRACE_RESET_MEMTRACE_FETCH_PREOP_VALUE x).
Definition QTRACE_MEMTRACE_FETCH_EXT_PSTOP_VALUE (x : Z) : Z * Z :=
  (Z.land x QTRACE_MEMTRACE_FETCH_PSTOP_VALUE,
   QTRACE_RESET_MEMTRACE_FETCH_PSTOP_VALUE x).
Definition QTRACE_MEMTRACE_STORE_EXT_ADDRS (x : Z) : Z * Z :=
  (Z.land x QTRACE_MEMTRACE_STORE_VPMA, QTRACE_RESET_MEMTRACE_STORE_ADDRS x).
Definition QTRACE_MEMTRACE_STORE_EXT_MSIZE (x : Z) : Z * Z :=
  (Z.land x QTRACE_MEMTRACE_STORE_MSIZE, QTRACE_RESET_MEMTRACE_STORE_MSIZE x).
Definition QTRACE_MEMTRACE_STORE_EXT_PREOP_VALUE (x : Z) : Z * Z :=
  (Z.land x QTRACE_MEMTRACE_STORE_PREOP_VALUE,
   QTRACE_RESET_MEMTRACE_STORE_PREOP_VALUE x).
Definition QTRACE_MEMTRACE_STORE_EXT_PSTOP_VALUE (x : Z) : Z * Z :=
  (Z.land x QTRACE_MEMTRACE_STORE_PSTOP_VALUE,
   QTRACE_RESET_MEMTRACE_STORE_PSTOP_VALUE x).

(** ** Properties *)

Lemma add_memtrace_eq index x :
  0 <= index < NB_MMU_MODES -> in_u 29 x ->
  QTRACE_ADD_MEMTRACE index x = index + x * 4.
Proof.
  unfold QTRACE_ADD_MEMTRACE, NB_MMU_MODES, in_u. intros Hi Hx.
  change QTRACE_MEMTRACE_BITS with 2.
  rewrite (wrap_id 32 index) by (unfold in_u; lia).
  assert (Z.shiftl x 2 = x * 4) as E by (by rewrite Z.shiftl_mul_pow2).
  rewrite (wrap_id 32) by (unfold in_u; lia).
  rewrite lor_shiftl_add by (unfold in_u; lia).
  apply swrap_id; unfold in_s; lia.
Qed.

Lemma ext_add_memtrace index x :
  0 <= index < NB_MMU_MODES -> in_u 29 x ->
  QTRACE_EXT_MEMTRACE (QTRACE_ADD_MEMTRACE index x) = x.
Proof.
  intros Hi Hx. rewrite add_memtrace_eq by done.
  unfold QTRACE_EXT_MEMTRACE, NB_MMU_MODES in *. change QTRACE_MEMTRACE_BITS with 2.
  rewrite Z.shiftr_div_pow2 by lia. change (2 ^ 2) with 4.
  rewrite Z.div_add, Z.div_small by lia. lia.
Qed.

Lemma ext_add_memindex index x :
  0 <= index < NB_MMU_MODES -> in_u 29 x ->
  QTRACE_EXT_MEMINDEX (QTRACE_ADD_MEMTRACE index x) = index.
Proof.
  intros Hi Hx. rewrite add_memtrace_eq by done.
  unfold QTRACE_EXT_MEMINDEX, NB_MMU_MODES in *. change QTRACE_MEMTRACE_BITS with 2.
  change (Z.shiftl 1 2 - 1) with (Z.ones 2). rewrite Z.land_ones by lia.
  change (2 ^ 2) with 4. rewrite Z.mod_add, Z.mod_small by lia. lia.
Qed.

(** The memory-trace request that the translator packs into the MMU index
    of a guest memory operation is the request the code generator unpacks, and
    the MMU index survives the packing. *)
Theorem memtrace_roundtrip (index x : Z) :
  0 <= index < NB_MMU_MODES -> in_u 29 x ->
  QTRACE_EXT_MEMTRACE (QTRACE_ADD_MEMTRACE index x) = x /\
  QTRACE_EXT_MEMINDEX (QTRACE_ADD_MEMTRACE index x) = index.
Proof.
  auto using ext_add_memtrace, ext_add_memindex.
Qed.

Lemma memtrace_roundtrip_witness :
  QTRACE_EXT_MEMTRACE (QTRACE_ADD_MEMTRACE 2 QTRACE_MEMTRACE_FETCH_VPMA)
    = QTRACE_MEMTRACE_FETCH_VPMA /\
  QTRACE_EXT_MEMINDEX (QTRACE_ADD_MEMTRACE 2 QTRACE_MEMTRACE_FETCH_VPMA) = 2.
Proof. apply memtrace_roundtrip; vm_compute; split; discriminate || reflexivity. Defined.
