(* ===== verification/IContext.v ===== *)
(** * Instrumentation contexts (qtrace.c, include/qtrace-common.h)

    For every guest instruction the plugins' callbacks may call
    [qtrace_instrument_parser] any number of times.  The first call for an
    instruction (the global [uiid] differs from [last_uiid]) opens a new root
    in [rootarray]; every call pushes one heap-allocated [InstrumentContext] on
    the list of the current root and fills it from the request words that the
    plugin passed as variable arguments.

    The state below is that of qtrace.c: the objects handed out by malloc, the
    root table and its fill count, the two instruction counters, and what was
    printed. *)

From S2P Require Import Prelude QtraceDefs.

Definition NULL : Z := 0.

(** include/qtrace-common.h *)
Definition QTRACE_MAX_IARGS : nat := 256.

(** qtrace.c: [MAX_ICONTEXT_ROOT] is [CF_COUNT_MASK]. *)
Definition CF_COUNT_MASK : Z := 0x7fff.
Definition MAX_ICONTEXT_ROOT : Z := CF_COUNT_MASK.

Record InstrumentContext := mkInstrumentContext {
  ifun : Z;            (* instrumentation function *)
  ipoint : Z;          (* insertion point *)
  ciarg : Z;           (* current iarg *)
  iargs : list Z;      (* instrumentation args, QTRACE_MAX_IARGS of them *)
  memfext : Z;         (* this context has memory instrumentation *)
  pcfext : Z;          (* this context has program counter instrumentation *)
  btarget : Z;         (* this context has branch instrumentation *)
  next : Z             (* next context of the same instruction *)
}.

Definition set_ifun (v : Z) (c : InstrumentContext) : InstrumentContext :=
  mkInstrumentContext v c.(ipoint) c.(ciarg) c.(iargs) c.(memfext) c.(pcfext)
    c.(btarget) c.(next).
Definition set_ipoint (v : Z) (c : InstrumentContext) : InstrumentContext :=
  mkInstrumentContext c.(ifun) v c.(ciarg) c.(iargs) c.(memfext) c.(pcfext)
    c.(btarget) c.(next).
Definition set_iargs (n : Z) (l : list Z) (c : InstrumentContext)
    : InstrumentContext :=
  mkInstrumentContext c.(ifun) c.(ipoint) n l c.(memfext) c.(pcfext)
    c.(btarget) c.(next).
Definition set_memfext (v : Z) (c : InstrumentContext) : InstrumentContext :=
  mkInstrumentContext c.(ifun) c.(ipoint) c.(ciarg) c.(iargs) v c.(pcfext)
    c.(btarget) c.(next).
Definition set_next (v : Z) (c : InstrumentContext) : InstrumentContext :=
  mkInstrumentContext c.(ifun) c.(ipoint) c.(ciarg) c.(iargs) c.(memfext)
    c.(pcfext) c.(btarget) v.

(** The object after [memset(newhead, 0, sizeof(InstrumentContext))]. *)
Definition zero_icontext : InstrumentContext :=
  mkInstrumentContext 0 0 0 (replicate QTRACE_MAX_IARGS 0) 0 0 0 NULL.

Record qstate := mkQstate {
  heap : gmap Z InstrumentContext;   (* live objects, by address *)
  rootcount : Z;                     (* unsigned *)
  rootarray : list Z;                (* MAX_ICONTEXT_ROOT pointers *)
  uiid : Z;                          (* unsigned long long *)
  last_uiid : Z;
  output : list string               (* what QTRACE_ERROR printed *)
}.

Definition set_heap (h : gmap Z InstrumentContext) (s : qstate) : qstate :=
  mkQstate h s.(rootcount) s.(rootarray) s.(uiid) s.(last_uiid) s.(output).
Definition set_roots (n : Z) (l : list Z) (s : qstate) : qstate :=
  mkQstate s.(heap) n l s.(uiid) s.(last_uiid) s.(output).
Definition set_uiid (v : Z) (s : qstate) : qstate :=
  mkQstate s.(heap) s.(rootcount) s.(rootarray) v s.(last_uiid) s.(output).
Definition set_last_uiid (v : Z) (s : qstate) : qstate :=
  mkQstate s.(heap) s.(rootcount) s.(rootarray) s.(uiid) v s.(output).
Definition QTRACE_ERROR (msg : string) (s : qstate) : qstate :=
  mkQstate s.(heap) s.(rootcount) s.(rootarray) s.(uiid) s.(last_uiid)
    (s.(output) ++ [msg]).

(** Static storage starts zeroed. *)
Definition init_qstate : qstate :=
  mkQstate ∅ 0 (replicate (Z.to_nat MAX_ICONTEXT_ROOT) NULL) 0 0 [].

(** ** Operations *)

Definition qtrace_increment_uiid (s : qstate) : qstate :=
  set_uiid (u64 (s.(uiid) + 1)) s.

(** Array accesses with C's undefined behaviour out of range made an error. *)
Definition array_get (l : list Z) (i : Z) : res Z :=
  if (0 <=? i) && (i <? Z.of_nat (length l))
  then of_option OutOfBounds (l !! Z.to_nat i) else Err OutOfBounds.
Definition array_set (l : list Z) (i v : Z) : res (list Z) :=
  if (0 <=? i) && (i <? Z.of_nat (length l))
  then Ok (<[Z.to_nat i := v]> l) else Err OutOfBounds.

Definition qtrace_allocate_icontext_root (s : qstate) : res qstate :=
  l ← array_set s.(rootarray) s.(rootcount) NULL;
  let n := u32 (s.(rootcount) + 1) in
  _ ← guard_res (n <? MAX_ICONTEXT_ROOT) AssertFailed;
  Ok (set_roots n l s).

Definition qtrace_get_current_icontext_list (s : qstate) : res Z :=
  if s.(rootcount) =? 0 then Ok NULL
  else array_get s.(rootarray) (u32 (s.(rootcount) - 1)).

(** malloc() hands out an address that no live object has.  *)
Definition malloc_addr (h : gmap Z InstrumentContext) : Z :=
  fresh ({[NULL]} ∪ dom h : gset Z).

(** The argument of the C function is the address of a root: the index. *)
Definition qtrace_allocate_new_icontext (root : Z) (s : qstate) : res qstate :=
  let newhead := malloc_addr s.(heap) in
  old ← array_get s.(rootarray) root;
  l ← array_set s.(rootarray) root newhead;
  Ok (set_roots s.(rootcount) l
       (set_heap (<[newhead := set_next old zero_icontext]> s.(heap)) s)).

(** Releases the list at [root]; the loop runs once per object. *)
Fixpoint free_icontext_list (fuel : nat) (root : Z)
    (h : gmap Z InstrumentContext) : res (gmap Z InstrumentContext) :=
  if root =? NULL then Ok h
  else match fuel with
  | O => Err OutOfFuel
  | S fuel =>
      c ← of_option UseAfterFree (h !! root);
      free_icontext_list fuel c.(next) (delete root h)
  end.

Definition qtrace_free_icontext_root (root : Z) (s : qstate) : res qstate :=
  h ← free_icontext_list (size s.(heap)) root s.(heap);
  Ok (set_heap h s).

Fixpoint free_roots (n : nat) (idx : Z) (s : qstate) : res qstate :=
  match n with
  | O => Ok s
  | S n =>
      root ← array_get s.(rootarray) idx;
      s1 ← qtrace_free_icontext_root root s;
      l ← array_set s1.(rootarray) idx NULL;
      free_roots n (u32 (idx + 1)) (set_roots s1.(rootcount) l s1)
  end.

Definition qtrace_free_all_icontexts (s : qstate) : res qstate :=
  s1 ← free_roots (Z.to_nat s.(rootcount)) 0 s;
  Ok (set_roots 0 s1.(rootarray) s1).

Definition qtrace_icontext_sanity_check (ictx : InstrumentContext) (s : qstate)
    : qstate :=
  if ictx.(ifun) =? 0 then QTRACE_ERROR "icontext ifun is NULL
" s else s.

(** [ictx->iargs[ictx->ciarg++] = v] *)
Definition push_iarg (v : Z) (c : InstrumentContext) : res InstrumentContext :=
  l ← array_set c.(iargs) c.(ciarg) v;
  Ok (set_iargs (u32 (c.(ciarg) + 1)) l c).

Definition RESERVE_INSTRUMENT_CONTEXT_ARGUMENT (c : InstrumentContext)
    : res InstrumentContext := push_iarg 0 c.

(** A memory-trace word: the code, a reserved slot, and the code's bits in
    [memfext]. *)
Definition push_memtrace (arg : Z) (c : InstrumentContext)
    : res InstrumentContext :=
  c1 ← push_iarg arg c;
  c2 ← RESERVE_INSTRUMENT_CONTEXT_ARGUMENT c1;
  Ok (set_memfext (Z.lor c2.(memfext) arg) c2).

(** The variable arguments: one 64-bit slot each (System V x86-64 ABI), of
    which [va_arg(_, unsigned)] takes the low half. *)
Definition va_unsigned (va : list Z) : res (Z * list Z) :=
  match va with [] => Err VaArgExhausted | a :: va => Ok (u32 a, va) end.
Definition va_uintptr (va : list Z) : res (Z * list Z) :=
  match va with [] => Err VaArgExhausted | a :: va => Ok (u64 a, va) end.

Definition is_mem_code (arg : Z) : bool :=
  (arg =? QTRACE_MEMTRACE_FETCH_VMA) || (arg =? QTRACE_MEMTRACE_FETCH_PMA) ||
  (arg =? QTRACE_MEMTRACE_FETCH_VPMA) || (arg =? QTRACE_MEMTRACE_FETCH_MSIZE) ||
  (arg =? QTRACE_MEMTRACE_STORE_VMA) || (arg =? QTRACE_MEMTRACE_STORE_PMA) ||
  (arg =? QTRACE_MEMTRACE_STORE_VPMA) || (arg =? QTRACE_MEMTRACE_STORE_MSIZE).

Definition fetch_value_code (point : Z) : Z :=
  if QTRACE_IPOINT_BEFORE =? point then QTRACE_MEMTRACE_FETCH_PREOP_VALUE
  else QTRACE_MEMTRACE_FETCH_PSTOP_VALUE.
Definition store_value_code (point : Z) : Z :=
  if QTRACE_IPOINT_BEFORE =? point then QTRACE_MEMTRACE_STORE_PREOP_VALUE
  else QTRACE_MEMTRACE_STORE_PSTOP_VALUE.

(** What one iteration of the parsing loop does with the word [arg]: stop at
    [QTRACE_END_ARG], or go on with the updated context and the remaining
    arguments, having advanced [idx] once more or not. *)
Inductive parse_step :=
  | ParseEnd
  | ParseNext (c : InstrumentContext) (va : list Z) (extra : bool).

Definition parse_word (arg : Z) (va : list Z) (c : InstrumentContext)
    : res parse_step :=
  if (arg =? QTRACE_IPOINT_BEFORE) || (arg =? QTRACE_IPOINT_AFTER) then
    Ok (ParseNext (set_ipoint arg c) va false)
  else if arg =? QTRACE_IFUN then
    '(f, va) ← va_uintptr va;
    Ok (ParseNext (set_ifun f c) va true)
  else if is_mem_code arg then
    c ← push_memtrace arg c;
    Ok (ParseNext c va false)
  else if arg =? QTRACE_REGTRACE_VALUE then
    c ← push_iarg arg c;
    '(r, va) ← va_unsigned va;
    c ← push_iarg r c;
    Ok (ParseNext c va true)
  else if arg =? QTRACE_PROCESS_UPID then
    c ← push_iarg arg c;
    Ok (ParseNext c va false)
  else if arg =? QTRACE_MEMTRACE_FETCH_VALUE then
    c ← push_memtrace (fetch_value_code c.(ipoint)) c;
    Ok (ParseNext c va false)
  else if arg =? QTRACE_MEMTRACE_STORE_VALUE then
    c ← push_memtrace (store_value_code c.(ipoint)) c;
    Ok (ParseNext c va false)
  else if arg =? QTRACE_END_ARG then Ok ParseEnd
  else
    c ← push_iarg arg c;
    Ok (ParseNext c va false).

(** The loop; [n] is [pos - idx], the number of words still to look at. *)
Fixpoint parse_args (n : nat) (va : list Z) (c : InstrumentContext)
    : res InstrumentContext :=
  match n with
  | O => Ok c
  | S n1 =>
      '(arg, va) ← va_unsigned va;
      st ← parse_word arg va c;
      match st with
      | ParseEnd => Ok c
      | ParseNext c va false => parse_args n1 va c
      | ParseNext c va true =>
          match n1 with O => Ok c | S n2 => parse_args n2 va c end
      end
  end.

(** [pos] and the arguments after it. *)
Definition qtrace_instrument_parser (pos : Z) (va : list Z) (s : qstate)
    : res qstate :=
  s ← (if s.(last_uiid) =? s.(uiid) then Ok s
       else qtrace_allocate_icontext_root s);
  let current := u32 (s.(rootcount) - 1) in
  s ← qtrace_allocate_new_icontext current s;
  p ← array_get s.(rootarray) current;
  c ← of_option UseAfterFree (s.(heap) !! p);
  c ← parse_args (Z.to_nat pos) va c;
  let s := set_heap (<[p := c]> s.(heap)) s in
  let s := set_last_uiid s.(uiid) s in
  Ok (qtrace_icontext_sanity_check c s).
