(* ===== verification/Requests.v ===== *)
(** * What a plugin asks for, and what the parser makes of it

    An abstract specification of [qtrace_instrument_parser]: a plugin's call is
    a list of [request]s; [run_requests] says which context the list denotes.
    The theorems show that the parsing loop of qtrace.c implements it on every
    list of requests, up to the 256 argument words of a context, and fails on
    longer ones. *)

From S2P Require Import Prelude QtraceDefs IContext.

Inductive request :=
  | ReqPoint (before : bool)     (* QTRACE_IPOINT_BEFORE / _AFTER *)
  | ReqFun (f : Z)               (* QTRACE_IFUN, f *)
  | ReqMem (code : Z)            (* an address or size of a memory access *)
  | ReqReg (r : Z)               (* QTRACE_REGTRACE_VALUE, r *)
  | ReqUpid                      (* QTRACE_PROCESS_UPID *)
  | ReqFetchValue                (* QTRACE_MEMTRACE_FETCH_VALUE *)
  | ReqStoreValue                (* QTRACE_MEMTRACE_STORE_VALUE *)
  | ReqOther (w : Z).            (* any other word *)

Definition point_code (before : bool) : Z :=
  if before then QTRACE_IPOINT_BEFORE else QTRACE_IPOINT_AFTER.

(** The words a request is passed as. *)
Definition req_slots (r : request) : list Z :=
  match r with
  | ReqPoint b => [point_code b]
  | ReqFun f => [QTRACE_IFUN; f]
  | ReqMem code => [code]
  | ReqReg r => [QTRACE_REGTRACE_VALUE; r]
  | ReqUpid => [QTRACE_PROCESS_UPID]
  | ReqFetchValue => [QTRACE_MEMTRACE_FETCH_VALUE]
  | ReqStoreValue => [QTRACE_MEMTRACE_STORE_VALUE]
  | ReqOther w => [w]
  end.

(** The words the parser's switch names. *)
Definition named_codes : list Z :=
  [QTRACE_IPOINT_BEFORE; QTRACE_IPOINT_AFTER; QTRACE_IFUN;
   QTRACE_MEMTRACE_FETCH_VMA; QTRACE_MEMTRACE_FETCH_PMA;
   QTRACE_MEMTRACE_FETCH_VPMA; QTRACE_MEMTRACE_FETCH_MSIZE;
   QTRACE_MEMTRACE_STORE_VMA; QTRACE_MEMTRACE_STORE_PMA;
   QTRACE_MEMTRACE_STORE_VPMA; QTRACE_MEMTRACE_STORE_MSIZE;
   QTRACE_REGTRACE_VALUE; QTRACE_PROCESS_UPID; QTRACE_MEMTRACE_FETCH_VALUE;
   QTRACE_MEMTRACE_STORE_VALUE; QTRACE_END_ARG].

Definition req_ok (r : request) : Prop :=
  match r with
  | ReqFun f => in_u 64 f
  | ReqMem code => is_mem_code code = true
  | ReqReg r => in_u 32 r
  | ReqOther w => in_u 32 w /\ w ∉ named_codes
  | _ => True
  end.

(** The abstract context: insertion point, function, argument words, memory
    request bits. *)
Record actx := mkActx {
  a_point : Z; a_fun : Z; a_args : list Z; a_mem : Z
}.

Definition actx0 : actx := mkActx 0 0 [] 0.

(** The value of a memory operand is the one before or after the access, as the
    insertion point says that is in force where it is asked for. *)
Definition value_request (point before after : Z) : Z :=
  if decide (point = QTRACE_IPOINT_BEFORE) then before else after.

Definition run_request (a : actx) (r : request) : actx :=
  let mem code := mkActx a.(a_point) a.(a_fun) (a.(a_args) ++ [code; 0])
                    (Z.lor a.(a_mem) code) in
  let words l := mkActx a.(a_point) a.(a_fun) (a.(a_args) ++ l) a.(a_mem) in
  match r with
  | ReqPoint b => mkActx (point_code b) a.(a_fun) a.(a_args) a.(a_mem)
  | ReqFun f => mkActx a.(a_point) f a.(a_args) a.(a_mem)
  | ReqMem code => mem code
  | ReqReg r => words [QTRACE_REGTRACE_VALUE; r]
  | ReqUpid => words [QTRACE_PROCESS_UPID]
  | ReqFetchValue => mem (value_request a.(a_point)
                            QTRACE_MEMTRACE_FETCH_PREOP_VALUE QTRACE_MEMTRACE_FETCH_PSTOP_VALUE)
  | ReqStoreValue => mem (value_request a.(a_point)
                            QTRACE_MEMTRACE_STORE_PREOP_VALUE QTRACE_MEMTRACE_STORE_PSTOP_VALUE)
  | ReqOther w => words [w]
  end.

Lemma fetch_value_request point :
  fetch_value_code point =
    value_request point QTRACE_MEMTRACE_FETCH_PREOP_VALUE QTRACE_MEMTRACE_FETCH_PSTOP_VALUE.
Proof.
  unfold fetch_value_code, value_request.
  by destruct (Z.eqb_spec QTRACE_IPOINT_BEFORE point); case_decide; congruence.
Qed.
Lemma store_value_request point :
  store_value_code point =
    value_request point QTRACE_MEMTRACE_STORE_PREOP_VALUE QTRACE_MEMTRACE_STORE_PSTOP_VALUE.
Proof.
  unfold store_value_code, value_request.
  by destruct (Z.eqb_spec QTRACE_IPOINT_BEFORE point); case_decide; congruence.
Qed.

Definition run_requests (a : actx) (rs : list request) : actx :=
  foldl run_request a rs.

(** A concrete context holds an abstract one. *)
Record refines (a : actx) (c : InstrumentContext) : Prop := {
  ref_point : c.(ipoint) = a.(a_point);
  ref_fun : c.(ifun) = a.(a_fun);
  ref_ciarg : c.(ciarg) = Z.of_nat (length a.(a_args));
  ref_iargs : exists k, c.(iargs) = a.(a_args) ++ replicate k 0 /\
                        (length a.(a_args) + k = QTRACE_MAX_IARGS)%nat;
  ref_mem : c.(memfext) = a.(a_mem)
}.

Lemma refines_zero nxt : refines actx0 (set_next nxt zero_icontext).
Proof. split; cbn; try done. by exists QTRACE_MAX_IARGS. Qed.

(** Writing the next argument word. *)
Definition a_push (l : list Z) (a : actx) : actx :=
  mkActx a.(a_point) a.(a_fun) (a.(a_args) ++ l) a.(a_mem).

Lemma push_iarg_refines a c v :
  refines a c -> (length a.(a_args) < QTRACE_MAX_IARGS)%nat ->
  exists c', push_iarg v c = Ok c' /\ refines (a_push [v] a) c' /\
             c'.(next) = c.(next).
Proof.
  intros [Hp Hf Hn (k & Hl & Hk) Hm] Hroom. unfold QTRACE_MAX_IARGS in *.
  unfold push_iarg, array_set. rewrite Hn, Hl.
  assert ((0 <=? Z.of_nat (length (a_args a))) &&
          (Z.of_nat (length (a_args a)) <?
           Z.of_nat (length (a_args a ++ replicate k 0))) = true) as ->.
  { rewrite length_app, length_replicate. lia. }
  cbn. eexists; split; [done|]. split; [|done].
  destruct k as [|k]; [lia|]. split; cbn; try done.
  - rewrite length_app; cbn. rewrite wrap_id by (unfold in_u; lia). lia.
  - exists k. unfold QTRACE_MAX_IARGS. rewrite Nat2Z.id, length_app; cbn.
    split; [|lia].
    rewrite insert_app_r_alt by lia. rewrite Nat.sub_diag. cbn.
    by rewrite <- app_assoc.
Qed.

Lemma push_iarg_full a c v :
  refines a c -> (QTRACE_MAX_IARGS <= length a.(a_args))%nat ->
  push_iarg v c = Err OutOfBounds.
Proof.
  intros [_ _ Hn (k & Hl & Hk) _] Hfull. unfold push_iarg, array_set.
  assert (k = 0%nat) as -> by lia. cbn in Hl. rewrite app_nil_r in Hl.
  rewrite Hn, Hl. assert (forall n : Z, (n <? n) = false) as -> by (intros; lia).
  by rewrite andb_false_r.
Qed.

Lemma push_memtrace_refines a c code :
  refines a c -> (length a.(a_args) + 2 <= QTRACE_MAX_IARGS)%nat ->
  exists c', push_memtrace code c = Ok c' /\
    refines (mkActx a.(a_point) a.(a_fun) (a.(a_args) ++ [code; 0])
               (Z.lor a.(a_mem) code)) c' /\
    c'.(next) = c.(next).
Proof.
  intros Hr Hroom.
  destruct (push_iarg_refines a c code Hr) as (c1 & E1 & R1 & N1); [lia|].
  destruct (push_iarg_refines _ c1 0 R1) as (c2 & E2 & R2 & N2).
  { cbn. rewrite length_app; cbn. lia. }
  unfold push_memtrace, RESERVE_INSTRUMENT_CONTEXT_ARGUMENT.
  rewrite E1; cbn. rewrite E2; cbn. eexists; split; [done|].
  split; [|cbn; congruence].
  unfold a_push in R2; cbn in R2. rewrite <- app_assoc in R2.
  destruct R2 as [? ? ? ? Hm]; split; cbn in *; try done. by rewrite Hm.
Qed.

(** ** One request *)

Definition req_words (r : request) : nat :=
  match r with
  | ReqPoint _ | ReqFun _ => 0
  | ReqUpid | ReqOther _ => 1
  | _ => 2
  end.

Lemma length_run_request a r :
  length (run_request a r).(a_args) = (length a.(a_args) + req_words r)%nat.
Proof. destruct r; cbn; rewrite ?length_app; cbn; lia. Qed.

(** The request words are all distinct and fit [unsigned]. *)
Lemma mem_code_cases code :
  is_mem_code code = true ->
  code ∈ [QTRACE_MEMTRACE_FETCH_VMA; QTRACE_MEMTRACE_FETCH_PMA;
          QTRACE_MEMTRACE_FETCH_VPMA; QTRACE_MEMTRACE_FETCH_MSIZE;
          QTRACE_MEMTRACE_STORE_VMA; QTRACE_MEMTRACE_STORE_PMA;
          QTRACE_MEMTRACE_STORE_VPMA; QTRACE_MEMTRACE_STORE_MSIZE].
Proof.
  unfold is_mem_code. rewrite !orb_true_iff, !Z.eqb_eq, !elem_of_cons. tauto.
Qed.

Ltac each_mem_code H :=
  apply mem_code_cases in H;
  repeat (apply elem_of_cons in H as [->|H]; [|]);
  [.. | by apply not_elem_of_nil in H].

(** Runs the parser's switch on a word that it does not name. *)
Ltac parse_other :=
  match goal with H : ?w ∉ named_codes |- _ =>
    unfold named_codes in H; rewrite !not_elem_of_cons in H;
    unfold parse_word, is_mem_code;
    destruct_and! H;
    repeat match goal with |- context [w =? ?k] =>
      destruct (Z.eqb_spec w k); [contradiction|] end
  end.

(** A register request takes two words of the argument list. *)
Lemma parse_regtrace_request a c r va :
  refines a c -> in_u 32 r -> (length a.(a_args) + 2 <= QTRACE_MAX_IARGS)%nat ->
  exists c', parse_word QTRACE_REGTRACE_VALUE (r :: va) c = Ok (ParseNext c' va true) /\
    refines (run_request a (ReqReg r)) c' /\ c'.(next) = c.(next).
Proof.
  intros Hr Hok Hroom.
  destruct (push_iarg_refines a c QTRACE_REGTRACE_VALUE Hr) as (c1 & E1 & R1 & N1); [lia|].
  destruct (push_iarg_refines _ c1 r R1) as (c2 & E2 & R2 & N2).
  { cbn. rewrite length_app; cbn. lia. }
  exists c2. split.
  - unfold parse_word; cbn. cbn in E1. rewrite E1; cbn.
    rewrite (wrap_id 32) by done. by rewrite E2.
  - split; [|congruence]. cbn. unfold a_push in R2; cbn in R2.
    by rewrite <- app_assoc in R2.
Qed.

(** One iteration of the loop performs one request. *)
Lemma parse_word_request a c r va :
  refines a c -> req_ok r ->
  (length a.(a_args) + req_words r <= QTRACE_MAX_IARGS)%nat ->
  exists c' w tl, req_slots r = w :: tl /\
    va_unsigned (w :: tl ++ va) = Ok (w, tl ++ va) /\
    parse_word w (tl ++ va) c
      = Ok (ParseNext c' va (bool_decide (tl <> []))) /\
    refines (run_request a r) c' /\ c'.(next) = c.(next).
Proof.
  intros Hr Hok Hroom.
  destruct r as [b|f|code|r| | | |w]; cbn in Hroom, Hok.
  - eexists _, _, []; split; [done|]. split; [by destruct b|].
    split; [by destruct b|]. split; [|done]. by destruct Hr.
  - eexists _, _, [f]; split; [done|]. split; [done|]. cbn.
    split; [unfold parse_word; cbn; by rewrite wrap_id|].
    split; [|done]. by destruct Hr.
  - destruct (push_memtrace_refines a c code Hr) as (c' & E & R & N); [lia|].
    exists c', code, []. split; [done|]. each_mem_code Hok;
      (split; [done|]; split; [unfold parse_word; cbn; cbn in E; by rewrite E|done]).
  - destruct (parse_regtrace_request a c r va Hr Hok Hroom) as (c' & E & R & N).
    by exists c', QTRACE_REGTRACE_VALUE, [r].
  - destruct (push_iarg_refines a c QTRACE_PROCESS_UPID Hr)
      as (c1 & E1 & R1 & N1); [lia|].
    exists c1, QTRACE_PROCESS_UPID, []. split; [done|]. split; [done|].
    split; [unfold parse_word; cbn; cbn in E1; by rewrite E1|done].
  - destruct (push_memtrace_refines a c (fetch_value_code c.(ipoint)) Hr)
      as (c' & E & R & N); [lia|].
    exists c', QTRACE_MEMTRACE_FETCH_VALUE, []. split; [done|]. split; [done|].
    split; [unfold parse_word; cbn; by rewrite E|].
    rewrite fetch_value_request, (ref_point _ _ Hr) in R. done.
  - destruct (push_memtrace_refines a c (store_value_code c.(ipoint)) Hr)
      as (c' & E & R & N); [lia|].
    exists c', QTRACE_MEMTRACE_STORE_VALUE, []. split; [done|]. split; [done|].
    split; [unfold parse_word; cbn; by rewrite E|].
    rewrite store_value_request, (ref_point _ _ Hr) in R. done.
  - destruct Hok as [Hw Hnamed].
    destruct (push_iarg_refines a c w Hr) as (c1 & E1 & R1 & N1); [lia|].
    exists c1, w, []. split; [done|].
    split; [unfold va_unsigned; by rewrite wrap_id|].
    split; [|done].
    parse_other.
    cbn. by rewrite E1.
Qed.

(** ** The whole loop *)

Definition slots (rs : list request) : list Z := flat_map req_slots rs.

Lemma length_run_requests a rs :
  length (run_requests a rs).(a_args) =
    (length a.(a_args) + sum_list_with req_words rs)%nat.
Proof.
  revert a. induction rs as [|r rs IH]; intros a; cbn; [lia|].
  rewrite IH, length_run_request. lia.
Qed.

Lemma parse_args_step a c r n va :
  refines a c -> req_ok r ->
  (length a.(a_args) + req_words r <= QTRACE_MAX_IARGS)%nat ->
  exists c', parse_args (length (req_slots r) + n) (req_slots r ++ va) c
               = parse_args n va c' /\
             refines (run_request a r) c' /\ c'.(next) = c.(next).
Proof.
  intros Hr Hok Hroom.
  destruct (parse_word_request a c r va Hr Hok Hroom)
    as (c' & w & tl & E & Hva & Hw & R & N).
  exists c'; split; [|done]. rewrite E. cbn [length app Nat.add parse_args].
  rewrite Hva. cbn [mbind res_bind]. rewrite Hw. cbn [mbind res_bind].
  destruct r; cbn in E; injection E as <- <-; done.
Qed.

Lemma parse_args_requests rs a c n va :
  refines a c -> Forall req_ok rs ->
  (length a.(a_args) + sum_list_with req_words rs <= QTRACE_MAX_IARGS)%nat ->
  exists c', parse_args (length (slots rs) + n) (slots rs ++ va) c
               = parse_args n va c' /\
             refines (run_requests a rs) c' /\ c'.(next) = c.(next).
Proof.
  revert a c. induction rs as [|r rs IH]; intros a c Hr Hok Hroom.
  { exists c. done. }
  inversion_clear Hok as [|? ? Hr0 Hrs]. cbn in Hroom.
  destruct (parse_args_step a c r (length (slots rs) + n) (slots rs ++ va) Hr Hr0)
    as (c1 & E1 & R1 & N1); [lia|].
  destruct (IH (run_request a r) c1 R1 Hrs) as (c2 & E2 & R2 & N2).
  { rewrite length_run_request. lia. }
  exists c2. split; [|split; [done|congruence]].
  rewrite <- E2, <- E1. unfold slots; cbn [flat_map].
  by rewrite length_app, <- app_assoc, Nat.add_assoc.
Qed.

(** A request that does not fit the 256 words stops the parser. *)
Lemma parse_word_full a c r va :
  refines a c -> req_ok r ->
  (length a.(a_args) <= QTRACE_MAX_IARGS)%nat ->
  (QTRACE_MAX_IARGS < length a.(a_args) + req_words r)%nat ->
  exists w tl, req_slots r = w :: tl /\ va_unsigned (w :: tl ++ va) = Ok (w, tl ++ va) /\
    parse_word w (tl ++ va) c = Err OutOfBounds.
Proof.
  intros Hr Hok Hle Hfull.
  assert (forall v, push_iarg v c = Err OutOfBounds \/
            exists c1, push_iarg v c = Ok c1 /\
              forall v', push_iarg v' c1 = Err OutOfBounds) as Hpush.
  { intros v. destruct (Nat.eq_dec (length (a_args a)) QTRACE_MAX_IARGS) as [E|].
    - left. eapply push_iarg_full; [done|lia].
    - right. destruct (push_iarg_refines a c v Hr) as (c1 & E1 & R1 & _); [lia|].
      exists c1. split; [done|]. intros v'. eapply push_iarg_full; [done|].
      cbn. rewrite length_app; cbn. destruct r; cbn in Hfull; lia. }
  assert (forall v, push_memtrace v c = Err OutOfBounds) as Hmem.
  { intros v. unfold push_memtrace, RESERVE_INSTRUMENT_CONTEXT_ARGUMENT.
    destruct (Hpush v) as [->|(c1 & -> & Hc1)]; cbn; [done|]. by rewrite Hc1. }
  assert (req_words r = 1%nat -> forall v, push_iarg v c = Err OutOfBounds) as Hone.
  { intros E v. eapply push_iarg_full; [done|lia]. }
  destruct r as [b|f|code|r| | | |w]; cbn in Hfull, Hok; try lia.
  - exists code, []. split; [done|].
    each_mem_code Hok; (split; [done|]; unfold parse_word; cbn; by rewrite !Hmem).
  - exists QTRACE_REGTRACE_VALUE, [r]. split; [done|]. split; [done|].
    unfold parse_word; cbn.
    destruct (Hpush QTRACE_REGTRACE_VALUE) as [->|(c1 & -> & Hc1)]; cbn; [done|].
    by rewrite Hc1.
  - exists QTRACE_PROCESS_UPID, []. split; [done|]. split; [done|].
    unfold parse_word; cbn. by rewrite !Hone.
  - exists QTRACE_MEMTRACE_FETCH_VALUE, []. split; [done|]. split; [done|].
    unfold parse_word; cbn. by rewrite !Hmem.
  - exists QTRACE_MEMTRACE_STORE_VALUE, []. split; [done|]. split; [done|].
    unfold parse_word; cbn. by rewrite !Hmem.
  - destruct Hok as [Hw Hnamed]. exists w, []. split; [done|].
    split; [unfold va_unsigned; by rewrite wrap_id|].
    parse_other.
    cbn. by rewrite !Hone.
Qed.

Lemma parse_args_overflow rs a c va :
  refines a c -> Forall req_ok rs ->
  (length a.(a_args) <= QTRACE_MAX_IARGS)%nat ->
  (QTRACE_MAX_IARGS < length a.(a_args) + sum_list_with req_words rs)%nat ->
  parse_args (length (slots rs)) (slots rs ++ va) c = Err OutOfBounds.
Proof.
  revert a c. induction rs as [|r rs IH]; intros a c Hr Hok Hle Hfull.
  { cbn in Hfull. lia. }
  inversion_clear Hok as [|? ? Hr0 Hrs]. cbn [sum_list_with] in Hfull.
  unfold slots; cbn [flat_map]. rewrite length_app, <- app_assoc.
  destruct (le_gt_dec (length a.(a_args) + req_words r) QTRACE_MAX_IARGS)
    as [Hfit|Hno].
  - destruct (parse_args_step a c r (length (slots rs)) (slots rs ++ va) Hr Hr0 Hfit)
      as (c1 & E1 & R1 & _).
    unfold slots in E1. rewrite E1.
    apply (IH (run_request a r)); rewrite ?length_run_request; (done || lia).
  - destruct (parse_word_full a c r (flat_map req_slots rs ++ va) Hr Hr0)
      as (w & tl & -> & Hva & Hw); [done|lia|].
    cbn [length app Nat.add parse_args]. rewrite Hva. cbn [mbind res_bind].
    by rewrite Hw.
Qed.


(** The example in the comment of include/qtrace-common.h. *)
Definition cachesim_requests : list request :=
  [ReqPoint true; ReqFun 0x401000; ReqMem QTRACE_MEMTRACE_FETCH_VMA;
   ReqMem QTRACE_MEMTRACE_FETCH_MSIZE].

