(* ===== verification/IContextHeap.v ===== *)
(** * The heap of instrumentation contexts

    The representation invariant of qtrace.c: every root points to a
    NULL-terminated list of live contexts, no context is on two lists, and
    every live context is on a list.  Each operation keeps it, so no operation
    touches freed memory, [qtrace_free_all_icontexts] frees every context
    exactly once, and the contexts of a translation block are those that the
    plugins' calls denote. *)

From S2P Require Import Prelude QtraceDefs IContext Requests.

(** [holds h p l]: the list at [p] consists of the objects [l.*1], which hold
    the abstract contexts [l.*2]. *)
Fixpoint holds (h : gmap Z InstrumentContext) (p : Z) (l : list (Z * actx))
    : Prop :=
  match l with
  | [] => p = NULL
  | (a, x) :: l =>
      p = a /\ a <> NULL /\
      exists c, h !! a = Some c /\ refines x c /\ holds h c.(next) l
  end.

Record root_inv (s : qstate) (ls : list (list (Z * actx))) : Prop := {
  ri_array : length s.(rootarray) = Z.to_nat MAX_ICONTEXT_ROOT;
  ri_count : s.(rootcount) = Z.of_nat (length ls);
  ri_max : s.(rootcount) < MAX_ICONTEXT_ROOT;
  ri_lists : forall i l, ls !! i = Some l ->
    exists p, s.(rootarray) !! i = Some p /\ holds s.(heap) p l;
  ri_nodup : NoDup (concat ls).*1;
  ri_live : forall a, a ∈ (concat ls).*1 <-> is_Some (s.(heap) !! a)
}.

Lemma root_inv_init : root_inv init_qstate [].
Proof.
  split; cbn [init_qstate rootarray rootcount heap].
  - by rewrite length_replicate.
  - done.
  - done.
  - done.
  - constructor.
  - intros a. rewrite lookup_empty. split; [by intros ?%elem_of_nil|by intros []].
Qed.

(** ** Frame properties *)

Lemma holds_insert h p l a c :
  a ∉ l.*1 -> holds h p l -> holds (<[a := c]> h) p l.
Proof.
  revert p. induction l as [|[b x] l IH]; intros p Ha; cbn; [done|].
  intros (-> & Hb & d & Hd & Hr & Hl). cbn in Ha.
  rewrite not_elem_of_cons in Ha. destruct Ha as [Hne Ha].
  split; [done|]. split; [done|]. exists d.
  rewrite lookup_insert_ne by done. auto.
Qed.

Lemma holds_delete h p l a :
  a ∉ l.*1 -> holds h p l -> holds (delete a h) p l.
Proof.
  revert p. induction l as [|[b x] l IH]; intros p Ha; cbn; [done|].
  intros (-> & Hb & d & Hd & Hr & Hl). cbn in Ha.
  rewrite not_elem_of_cons in Ha. destruct Ha as [Hne Ha].
  split; [done|]. split; [done|]. exists d.
  rewrite lookup_delete_ne by done. auto.
Qed.

Lemma array_get_Ok l i v :
  l !! i = Some v -> array_get l (Z.of_nat i) = Ok v.
Proof.
  intros H. unfold array_get. pose proof (lookup_lt_Some _ _ _ H).
  replace ((0 <=? Z.of_nat i) && (Z.of_nat i <? Z.of_nat (length l))) with true by lia.
  by rewrite Nat2Z.id, H.
Qed.

Lemma array_set_Ok l i v :
  (i < length l)%nat -> array_set l (Z.of_nat i) v = Ok (<[i := v]> l).
Proof.
  intros H. unfold array_set.
  replace ((0 <=? Z.of_nat i) && (Z.of_nat i <? Z.of_nat (length l))) with true by lia.
  by rewrite Nat2Z.id.
Qed.

Lemma malloc_addr_fresh h : malloc_addr h <> NULL /\ h !! malloc_addr h = None.
Proof.
  pose proof (is_fresh ({[NULL]} ∪ dom h : gset Z)) as H.
  rewrite not_elem_of_union, not_elem_of_singleton, not_elem_of_dom in H. exact H.
Qed.

(** ** Opening a root *)

Lemma allocate_root_spec s ls :
  root_inv s ls -> s.(rootcount) + 1 < MAX_ICONTEXT_ROOT ->
  exists s', qtrace_allocate_icontext_root s = Ok s' /\
    root_inv s' (ls ++ [[]]) /\ s'.(heap) = s.(heap) /\
    s'.(uiid) = s.(uiid) /\ s'.(last_uiid) = s.(last_uiid) /\
    s'.(output) = s.(output).
Proof.
  intros [Ha Hc Hm Hl Hn Hv] Hroom. unfold MAX_ICONTEXT_ROOT, CF_COUNT_MASK in *.
  unfold qtrace_allocate_icontext_root.
  rewrite Hc, array_set_Ok by lia. cbn [mbind res_bind].
  rewrite (wrap_id 32) by (unfold in_u; lia).
  replace (guard_res _ _) with (@Ok unit tt)
    by (unfold guard_res, MAX_ICONTEXT_ROOT, CF_COUNT_MASK; case_match; [done|lia]).
  cbn. eexists; split; [done|]. split; [|done].
  split; cbn; unfold MAX_ICONTEXT_ROOT, CF_COUNT_MASK.
  - by rewrite length_insert.
  - rewrite length_app; cbn. lia.
  - lia.
  - intros i l Hi. apply lookup_app_Some in Hi as [Hi|[Hle Hi]].
    + destruct (Hl i l Hi) as (p & Hp & Hh). exists p. split; [|done].
      pose proof (lookup_lt_Some _ _ _ Hi). rewrite list_lookup_insert_ne by lia.
      done.
    + destruct (i - length ls)%nat eqn:E; [|by destruct n].
      injection Hi as <-. replace i with (length ls) by lia. exists NULL.
      split; [|done]. apply list_lookup_insert_eq. lia.
  - by rewrite concat_app, app_nil_r.
  - intros a. rewrite concat_app, app_nil_r. apply Hv.
Qed.

Lemma allocate_root_full s ls :
  root_inv s ls -> MAX_ICONTEXT_ROOT <= s.(rootcount) + 1 ->
  qtrace_allocate_icontext_root s = Err AssertFailed.
Proof.
  intros [Ha Hc Hm Hl Hn Hv] Hroom. unfold MAX_ICONTEXT_ROOT, CF_COUNT_MASK in *.
  unfold qtrace_allocate_icontext_root.
  rewrite Hc, array_set_Ok by lia. cbn [mbind res_bind].
  rewrite (wrap_id 32) by (unfold in_u; lia).
  unfold guard_res, MAX_ICONTEXT_ROOT, CF_COUNT_MASK. case_match; [lia|done].
Qed.

(** ** Pushing a parsed context on the current root *)

Definition parse_current (pos : Z) (va : list Z) (s : qstate) : res qstate :=
  let current := u32 (s.(rootcount) - 1) in
  s ← qtrace_allocate_new_icontext current s;
  p ← array_get s.(rootarray) current;
  c ← of_option UseAfterFree (s.(heap) !! p);
  c ← parse_args (Z.to_nat pos) va c;
  let s := set_heap (<[p := c]> s.(heap)) s in
  let s := set_last_uiid s.(uiid) s in
  Ok (qtrace_icontext_sanity_check c s).

Lemma root_inv_push s ls l h' p c x nxt :
  root_inv s (ls ++ [l]) ->
  s.(heap) !! p = None -> p <> NULL -> s.(rootarray) !! length ls = Some nxt ->
  refines x c -> c.(next) = nxt ->
  h' = <[p := c]> s.(heap) ->
  root_inv (set_roots s.(rootcount) (<[length ls := p]> s.(rootarray)) (set_heap h' s))
    (ls ++ [(p, x) :: l]).
Proof.
  intros [Ha Hc Hm Hl Hn Hv] Hfresh Hp Hnxt Hx Hnext ->.
  assert (forall a, a ∈ (concat (ls ++ [(p, x) :: l])).*1 <->
            a = p \/ a ∈ (concat (ls ++ [l])).*1) as Hin.
  { intros a. rewrite !concat_app, !fmap_app, !elem_of_app; cbn.
    rewrite elem_of_cons. tauto. }
  assert (p ∉ (concat (ls ++ [l])).*1) as Hnew.
  { intros Hp'%Hv. rewrite Hfresh in Hp'. by destruct Hp'. }
  split; cbn [set_roots set_heap heap rootarray rootcount]; try done.
  - by rewrite length_insert.
  - rewrite Hc, !length_app. done.
  - intros i l' Hi. apply lookup_app_Some in Hi as [Hi|[Hle Hi]].
    + destruct (Hl i l') as (q & Hq & Hh); [by apply lookup_app_l_Some|].
      exists q. pose proof (lookup_lt_Some _ _ _ Hi).
      rewrite list_lookup_insert_ne by lia. split; [done|].
      apply holds_insert; [|done]. intros Hp'. apply Hnew.
      rewrite concat_app, fmap_app, elem_of_app. left.
      apply list_elem_of_fmap in Hp' as ([b y] & -> & Hb). apply list_elem_of_fmap.
      exists (b, y). split; [done|]. apply list_elem_of_In, in_concat. exists l'.
      split; apply list_elem_of_In; [by eapply list_elem_of_lookup_2|done].
    + destruct (i - length ls)%nat eqn:E; [|by destruct n].
      injection Hi as <-. replace i with (length ls) by lia. exists p.
      split.
      { apply list_lookup_insert_eq. rewrite Ha. rewrite length_app in Hc; cbn in Hc.
        lia. }
      cbn. split; [done|]. split; [done|]. exists c. rewrite lookup_insert_eq.
      split; [done|]. split; [done|]. apply holds_insert.
      { intros Hp'. apply Hnew. rewrite concat_app, fmap_app, elem_of_app. right.
        cbn. by rewrite app_nil_r. }
      destruct (Hl (length ls) l) as (q & Hq & Hh).
      { by rewrite lookup_app_r, Nat.sub_diag. }
      congruence.
  - rewrite !concat_app, !fmap_app in *. cbn in *. rewrite app_nil_r in *.
    apply NoDup_app in Hn as (H1 & H2 & H3).
    rewrite elem_of_app in Hnew. apply NoDup_app. split; [done|]. split.
    + intros a Ha' [->|Hl']%elem_of_cons; [tauto|]. by eapply H2.
    + constructor; [tauto|done].
  - intros a. rewrite Hin. destruct (decide (a = p)) as [->|Hne].
    + rewrite lookup_insert_eq. split; [by eexists|by left].
    + rewrite lookup_insert_ne by done. rewrite <- Hv. tauto.
Qed.

(** A call whose requests fit the context. *)
Definition call_ok (rs : list request) : Prop :=
  Forall req_ok rs /\
  (length (run_requests actx0 rs).(a_args) <= QTRACE_MAX_IARGS)%nat.

(** The plugin-side call: the number of words, then the words. *)
Definition parser_call (rs : list request) (s : qstate) : res qstate :=
  qtrace_instrument_parser (Z.of_nat (length (slots rs))) (slots rs) s.

Lemma parse_call_context rs nxt :
  call_ok rs ->
  exists c, parse_args (length (slots rs)) (slots rs) (set_next nxt zero_icontext) = Ok c /\
            refines (run_requests actx0 rs) c /\ c.(next) = nxt.
Proof.
  intros [Hok Hfit]. rewrite length_run_requests in Hfit.
  destruct (parse_args_requests rs actx0 _ 0 [] (refines_zero nxt) Hok)
    as (c & E & R & N); [done|].
  rewrite Nat.add_0_r, app_nil_r in E. by exists c.
Qed.

Lemma sanity_check_frame c s :
  (qtrace_icontext_sanity_check c s).(heap) = s.(heap) /\
  (qtrace_icontext_sanity_check c s).(rootcount) = s.(rootcount) /\
  (qtrace_icontext_sanity_check c s).(rootarray) = s.(rootarray) /\
  (qtrace_icontext_sanity_check c s).(uiid) = s.(uiid) /\
  (qtrace_icontext_sanity_check c s).(last_uiid) = s.(last_uiid).
Proof. unfold qtrace_icontext_sanity_check. by case_match. Qed.

Lemma root_inv_ext s s' ls :
  root_inv s ls -> s'.(heap) = s.(heap) -> s'.(rootcount) = s.(rootcount) ->
  s'.(rootarray) = s.(rootarray) -> root_inv s' ls.
Proof. intros [] Hh Hc Ha. split; by rewrite ?Hh, ?Hc, ?Ha. Qed.

Lemma parse_current_spec rs s ls l :
  call_ok rs -> root_inv s (ls ++ [l]) ->
  exists s' a, parse_current (Z.of_nat (length (slots rs))) (slots rs) s = Ok s' /\
    root_inv s' (ls ++ [(a, run_requests actx0 rs) :: l]) /\
    s'.(uiid) = s.(uiid) /\ s'.(last_uiid) = s.(uiid).
Proof.
  intros Hok Hinv. pose proof Hinv as [Ha Hc Hm Hl Hn Hv].
  rewrite length_app in Hc; cbn in Hc.
  unfold MAX_ICONTEXT_ROOT, CF_COUNT_MASK in *.
  destruct (Hl (length ls) l) as (nxt & Hnxt & Hh).
  { by rewrite lookup_app_r, Nat.sub_diag. }
  destruct (malloc_addr_fresh s.(heap)) as [Hnn Hfresh].
  set (p := malloc_addr s.(heap)) in *.
  destruct (parse_call_context rs nxt Hok) as (c & Ec & Rc & Nc).
  unfold parse_current.
  replace (u32 (rootcount s - 1)) with (Z.of_nat (length ls))
    by (rewrite wrap_id; unfold in_u; lia).
  unfold qtrace_allocate_new_icontext. fold p.
  rewrite (array_get_Ok _ _ _ Hnxt). cbn [mbind res_bind].
  rewrite array_set_Ok by lia. cbn [mbind res_bind set_roots set_heap rootarray heap].
  rewrite (array_get_Ok _ _ p) by (apply list_lookup_insert_eq; lia).
  cbn [mbind res_bind]. rewrite lookup_insert_eq. cbn [of_option mbind res_bind].
  rewrite Nat2Z.id, Ec. cbn [mbind res_bind].
  eexists _, p. split; [done|].
  match goal with |- root_inv (qtrace_icontext_sanity_check c ?s0) _ /\ _ =>
    destruct (sanity_check_frame c s0) as (F1 & F2 & F3 & F4 & F5) end.
  rewrite F4, F5. split; [|done].
  apply (root_inv_ext (set_roots (rootcount s) (<[length ls := p]> (rootarray s))
                         (set_heap (<[p := c]> (heap s)) s)));
    [by eapply root_inv_push| |by rewrite F2|by rewrite F3].
  rewrite F1; cbn. by rewrite insert_insert_eq.
Qed.

(** C-level composition: a call opens a root when it is the first of its
    instruction. *)
Lemma parser_call_eq rs s :
  parser_call rs s =
    (s ← (if s.(last_uiid) =? s.(uiid) then Ok s
          else qtrace_allocate_icontext_root s);
     parse_current (Z.of_nat (length (slots rs))) (slots rs) s).
Proof. reflexivity. Qed.

Lemma parser_call_again rs s ls l :
  call_ok rs -> root_inv s (ls ++ [l]) -> s.(last_uiid) = s.(uiid) ->
  exists s' a, parser_call rs s = Ok s' /\
    root_inv s' (ls ++ [(a, run_requests actx0 rs) :: l]) /\
    s'.(uiid) = s.(uiid) /\ s'.(last_uiid) = s.(uiid).
Proof.
  intros Hok Hinv Hu. rewrite parser_call_eq, Hu, Z.eqb_refl. cbn [mbind res_bind].
  by apply parse_current_spec.
Qed.

Lemma parser_call_first rs s ls :
  call_ok rs -> root_inv s ls -> s.(last_uiid) <> s.(uiid) ->
  s.(rootcount) + 1 < MAX_ICONTEXT_ROOT ->
  exists s' a, parser_call rs s = Ok s' /\
    root_inv s' (ls ++ [[(a, run_requests actx0 rs)]]) /\
    s'.(uiid) = s.(uiid) /\ s'.(last_uiid) = s.(uiid).
Proof.
  intros Hok Hinv Hu Hroom. rewrite parser_call_eq.
  destruct (Z.eqb_spec s.(last_uiid) s.(uiid)); [done|].
  destruct (allocate_root_spec s ls Hinv Hroom) as (s1 & -> & I1 & _ & U1 & _).
  cbn [mbind res_bind]. rewrite <- U1. by apply parse_current_spec.
Qed.

Lemma holds_ext h h' p l :
  (forall a, a ∈ l.*1 -> h' !! a = h !! a) -> holds h p l -> holds h' p l.
Proof.
  revert p. induction l as [|[b x] l IH]; intros p Heq; cbn; [done|].
  intros (-> & Hb & c & Hc & Hr & Hl). split; [done|]. split; [done|].
  exists c. rewrite Heq by (cbn; apply list_elem_of_here). split; [done|].
  split; [done|]. apply IH; [|done]. intros a Ha. apply Heq. cbn.
  by apply list_elem_of_further.
Qed.

(** ** Releasing all contexts *)

Lemma holds_NULL h l : holds h NULL l -> l = [].
Proof. destruct l as [|[a x] l]; [done|]. cbn. intros (E & Hn & _). by symmetry in E. Qed.

Lemma free_list_spec fuel h p l :
  (length l <= fuel)%nat -> NoDup l.*1 -> holds h p l ->
  exists h', free_icontext_list fuel p h = Ok h' /\
    forall a, h' !! a = if decide (a ∈ l.*1) then None else h !! a.
Proof.
  revert fuel h p. induction l as [|[a x] l IH]; intros fuel h p Hf Hnd Hh; cbn in Hh.
  - subst p. exists h. split; [by destruct fuel|]. intros a.
    case_decide as Ha; [by apply elem_of_nil in Ha|done].
  - destruct Hh as (-> & Hnn & c & Hc & _ & Hl). destruct fuel as [|fuel]; [cbn in Hf; lia|].
    cbn in Hnd. apply NoDup_cons in Hnd as [Hna Hnd].
    cbn [free_icontext_list]. destruct (Z.eqb_spec a NULL); [done|].
    rewrite Hc. cbn [of_option mbind res_bind].
    destruct (IH fuel (delete a h) c.(next)) as (h' & -> & Hh').
    { cbn in Hf. lia. } { done. } { by apply holds_delete. }
    exists h'. split; [done|]. intros b. rewrite Hh'. cbn.
    destruct (decide (b = a)) as [->|Hne].
    + rewrite lookup_delete_eq, (decide_True (P := a ∈ a :: l.*1))
        by apply list_elem_of_here.
      by case_decide.
    + rewrite lookup_delete_ne by done.
      apply decide_ext. rewrite elem_of_cons. tauto.
Qed.

Lemma holds_live h p l a : holds h p l -> a ∈ l.*1 -> is_Some (h !! a).
Proof.
  revert p. induction l as [|[b x] l IH]; intros p; cbn; [by intros _ ?%elem_of_nil|].
  intros (-> & _ & c & Hc & _ & Hl) [->|Ha]%elem_of_cons; eauto.
Qed.

Lemma holds_size h p l : NoDup l.*1 -> holds h p l -> (length l <= size h)%nat.
Proof.
  intros Hnd Hh. rewrite <- (length_fmap fst), <- (size_dom h).
  rewrite <- (size_list_to_set (C := gset Z)) by done.
  apply subseteq_size. intros a Ha%elem_of_list_to_set. apply elem_of_dom.
  by eapply holds_live.
Qed.

Lemma elem_of_concat_fst (ls : list (list (Z * actx))) l a :
  l ∈ ls -> a ∈ l.*1 -> a ∈ (concat ls).*1.
Proof.
  intros Hl ([b x] & -> & Hb)%list_elem_of_fmap. apply list_elem_of_fmap.
  exists (b, x). split; [done|]. apply list_elem_of_In, in_concat. exists l.
  split; by apply list_elem_of_In.
Qed.

Lemma free_roots_spec ls idx s :
  (idx + length ls <= length s.(rootarray))%nat ->
  Z.of_nat (length s.(rootarray)) < 2 ^ 32 ->
  (forall i l, ls !! i = Some l ->
     exists p, s.(rootarray) !! (idx + i)%nat = Some p /\ holds s.(heap) p l) ->
  NoDup (concat ls).*1 ->
  (forall a, a ∈ (concat ls).*1 <-> is_Some (s.(heap) !! a)) ->
  exists s', free_roots (length ls) (Z.of_nat idx) s = Ok s' /\
    s'.(heap) = ∅ /\
    s'.(rootarray) = take idx s.(rootarray) ++ replicate (length ls) NULL ++ drop (idx + length ls) s.(rootarray) /\
    s'.(uiid) = s.(uiid) /\ s'.(last_uiid) = s.(last_uiid).
Proof.
  revert idx s. induction ls as [|l ls IH]; intros idx s Hlen Hbig Hl Hnd Hv.
  { exists s. split; [done|]. split; [|split; [cbn; by rewrite Nat.add_0_r, take_drop|done]]. apply map_empty. intros a.
    destruct (heap s !! a) eqn:E; [|done]. exfalso.
    assert (a ∈ (concat (A := Z * actx) []).*1) as []%elem_of_nil by (apply Hv; eauto). }
  cbn [length free_roots]. cbn in Hlen.
  destruct (Hl 0%nat l) as (p & Hp & Hh); [done|]. rewrite Nat.add_0_r in Hp.
  rewrite (array_get_Ok _ _ _ Hp). cbn [mbind res_bind].
  cbn [concat] in Hnd, Hv. rewrite fmap_app in Hnd.
  apply NoDup_app in Hnd as (Hnd1 & Hdisj & Hnd2).
  destruct (free_list_spec (size s.(heap)) s.(heap) p l) as (h' & Eh & Hh').
  { by eapply holds_size. } { done. } { done. }
  unfold qtrace_free_icontext_root. rewrite Eh. cbn [mbind res_bind set_heap rootarray].
  rewrite array_set_Ok by lia. cbn [mbind res_bind].
  replace (u32 (Z.of_nat idx + 1)) with (Z.of_nat (S idx))
    by (rewrite wrap_id; unfold in_u; lia).
  match goal with |- context [free_roots _ _ ?s1] => set (s' := s1) end.
  destruct (IH (S idx) s') as (s2 & -> & H2 & H3 & H4).
  - cbn. rewrite length_insert. lia.
  - cbn. by rewrite length_insert.
  - intros i m Hi. destruct (Hl (S i) m) as (q & Hq & Hm); [done|].
    exists q. cbn. split.
    + rewrite list_lookup_insert_ne by lia. by rewrite <- Hq, Nat.add_succ_r.
    + eapply (holds_ext); [|exact Hm]. intros a Ha. cbn. rewrite Hh'.
      rewrite decide_False; [done|]. intros Ha'. eapply Hdisj; [done|].
      eapply elem_of_concat_fst; [by eapply list_elem_of_lookup_2|done].
  - done.
  - intros a. cbn. rewrite Hh'. rewrite fmap_app in Hv.
    specialize (Hv a). rewrite elem_of_app in Hv. case_decide as Ha.
    + split; [by intros ?; exfalso; eapply Hdisj|by intros []].
    + tauto.
  - exists s2. split; [done|]. split; [done|]. rewrite H3. cbn [s' set_roots set_heap rootarray]. split; [|done].
    rewrite (take_S_r _ _ NULL) by (apply list_lookup_insert_eq; lia).
    rewrite take_insert_ge, drop_insert_lt, <- app_assoc by lia. cbn [app length replicate].
    by replace (S idx + length ls)%nat with (idx + S (length ls))%nat by lia.
Qed.

Lemma free_all_spec s ls :
  root_inv s ls ->
  exists s', qtrace_free_all_icontexts s = Ok s' /\ root_inv s' [] /\
    s'.(heap) = ∅ /\ s'.(uiid) = s.(uiid) /\ s'.(last_uiid) = s.(last_uiid) /\
    s'.(rootarray) = replicate (length ls) NULL ++ drop (length ls) s.(rootarray).
Proof.
  intros [Ha Hc Hm Hl Hn Hv]. unfold MAX_ICONTEXT_ROOT, CF_COUNT_MASK in *.
  unfold qtrace_free_all_icontexts. rewrite Hc, Nat2Z.id.
  destruct (free_roots_spec ls 0 s) as (s1 & E & H1 & H2 & H3 & H4);
    [lia|lia|done|done|done|].
  change (Z.of_nat 0) with 0 in E. rewrite E. cbn [mbind res_bind].
  eexists; split; [done|].
  split; [|done]. split; cbn [set_roots heap rootcount rootarray]; try done.
  - rewrite H2, take_0. cbn [app]. rewrite length_app, length_replicate, length_drop. transitivity (length s.(rootarray)); [lia|exact Ha].
  - constructor.
  - intros a. rewrite H1, lookup_empty. split; [by intros ?%elem_of_nil|by intros []].
Qed.

(** ** A translation block

    [cpu_gen_code] releases the contexts of the previous block; the translator
    then increments [uiid] before each instruction and the plugins' callbacks
    call the parser. *)

Fixpoint parser_calls (calls : list (list request)) (s : qstate) : res qstate :=
  match calls with
  | [] => Ok s
  | rs :: calls => s ← parser_call rs s; parser_calls calls s
  end.

Fixpoint instrument_insns (insns : list (list (list request))) (s : qstate)
    : res qstate :=
  match insns with
  | [] => Ok s
  | calls :: insns =>
      s ← parser_calls calls (qtrace_increment_uiid s);
      instrument_insns insns s
  end.

Definition instrument_block (insns : list (list (list request))) (s : qstate)
    : res qstate :=
  s ← qtrace_free_all_icontexts s; instrument_insns insns s.

Lemma parser_calls_app c1 c2 s :
  parser_calls (c1 ++ c2) s = (s ← parser_calls c1 s; parser_calls c2 s).
Proof.
  revert s. induction c1 as [|rs c1 IH]; intros s; [done|].
  cbn. destruct (parser_call rs s); cbn; auto.
Qed.

(** The contexts an instruction's calls denote, last call first, and those of
    a block: one list per instruction with at least one call. *)
Definition insn_contexts (calls : list (list request)) : list actx :=
  reverse (run_requests actx0 <$> calls).
Definition block_contexts (insns : list (list (list request))) : list (list actx) :=
  filter (.≠ []) (insn_contexts <$> insns).

Definition ctxs (ls : list (list (Z * actx))) : list (list actx) :=
  (fun l : list (Z * actx) => l.*2) <$> ls.

Lemma ctxs_snoc ls l : ctxs (ls ++ [l]) = ctxs ls ++ [l.*2].
Proof. unfold ctxs. by rewrite fmap_app. Qed.

Lemma length_ctxs ls : length (ctxs ls) = length ls.
Proof. apply length_fmap. Qed.

Lemma insn_contexts_cons rs calls :
  insn_contexts (rs :: calls) = insn_contexts calls ++ [run_requests actx0 rs].
Proof. unfold insn_contexts. cbn. apply reverse_cons. Qed.

Lemma parser_calls_again calls s ls l :
  Forall call_ok calls -> root_inv s (ls ++ [l]) -> s.(last_uiid) = s.(uiid) ->
  exists s' l', parser_calls calls s = Ok s' /\ root_inv s' (ls ++ [l']) /\
    l'.*2 = insn_contexts calls ++ l.*2 /\
    s'.(uiid) = s.(uiid) /\ s'.(last_uiid) = s.(uiid).
Proof.
  revert s l. induction calls as [|rs calls IH]; intros s l Hok Hinv Hu.
  { by exists s, l. }
  inversion_clear Hok as [|? ? Hrs Hcalls].
  destruct (parser_call_again rs s ls l Hrs Hinv Hu) as (s1 & a & E1 & I1 & U1 & V1).
  destruct (IH s1 _ Hcalls I1) as (s2 & l2 & E2 & I2 & C2 & U2 & V2); [congruence|].
  exists s2, l2. cbn [parser_calls]. rewrite E1. cbn [mbind res_bind].
  split; [done|]. split; [done|]. rewrite C2, insn_contexts_cons, <- app_assoc.
  split; [done|]. split; congruence.
Qed.

Lemma parser_calls_insn calls s ls :
  Forall call_ok calls -> root_inv s ls -> s.(last_uiid) <> s.(uiid) ->
  s.(rootcount) + 1 < MAX_ICONTEXT_ROOT ->
  exists s' ls', parser_calls calls s = Ok s' /\ root_inv s' ls' /\
    ctxs ls' = ctxs ls ++ filter (.≠ []) [insn_contexts calls] /\
    s'.(uiid) = s.(uiid) /\ (s'.(last_uiid) = s.(uiid) \/ s'.(last_uiid) = s.(last_uiid)).
Proof.
  intros Hok Hinv Hu Hroom. destruct calls as [|rs calls].
  { exists s, ls. split_and!; auto. cbn. by rewrite app_nil_r. }
  inversion_clear Hok as [|? ? Hrs Hcalls].
  destruct (parser_call_first rs s ls Hrs Hinv Hu Hroom)
    as (s1 & a & E1 & I1 & U1 & V1).
  destruct (parser_calls_again calls s1 ls _ Hcalls I1)
    as (s2 & l2 & E2 & I2 & C2 & U2 & V2); [congruence|].
  exists s2, (ls ++ [l2]). cbn [parser_calls]. rewrite E1. cbn [mbind res_bind].
  split; [done|]. split; [done|]. split.
  - rewrite ctxs_snoc, insn_contexts_cons; cbn. rewrite C2.
    rewrite decide_True; [done|]. by destruct (insn_contexts calls).
  - split; [congruence|left; congruence].
Qed.

Lemma instrument_insns_spec insns s ls :
  Forall (Forall call_ok) insns -> root_inv s ls ->
  0 <= s.(last_uiid) <= s.(uiid) ->
  s.(uiid) + Z.of_nat (length insns) < 2 ^ 64 ->
  s.(rootcount) + Z.of_nat (length insns) < MAX_ICONTEXT_ROOT ->
  exists s' ls', instrument_insns insns s = Ok s' /\ root_inv s' ls' /\
    ctxs ls' = ctxs ls ++ block_contexts insns /\
    s'.(uiid) = s.(uiid) + Z.of_nat (length insns) /\
    0 <= s'.(last_uiid) <= s'.(uiid).
Proof.
  revert s ls. induction insns as [|calls insns IH]; intros s ls Hok Hinv Hu Hb Hroom.
  { exists s, ls. unfold block_contexts; cbn. rewrite app_nil_r. split_and!; (done || lia). }
  inversion_clear Hok as [|? ? Hcalls Hinsns]. cbn [length] in Hb, Hroom.
  assert (u64 (s.(uiid) + 1) = s.(uiid) + 1) as Hinc
    by (apply wrap_id; unfold in_u; lia).
  assert (root_inv (qtrace_increment_uiid s) ls) as Hinv0 by (by eapply root_inv_ext).
  destruct (parser_calls_insn calls (qtrace_increment_uiid s) ls Hcalls Hinv0)
    as (s1 & ls1 & E1 & I1 & C1 & U1 & V1).
  { cbn. lia. } { cbn. lia. }
  cbn [qtrace_increment_uiid set_uiid uiid last_uiid rootcount] in *.
  assert (s1.(rootcount) <= s.(rootcount) + 1) as Hrc.
  { rewrite (ri_count _ _ I1), (ri_count _ _ Hinv).
    rewrite <- (length_ctxs ls1), C1, length_app, length_ctxs.
    cbn. case_decide; cbn; lia. }
  destruct (IH s1 ls1 Hinsns I1) as (s2 & ls2 & E2 & I2 & C2 & U2 & V2);
    [lia|lia|lia|].
  exists s2, ls2. cbn [instrument_insns]. rewrite E1. cbn [mbind res_bind].
  split; [done|]. split; [done|]. split.
  - rewrite C2, C1, <- app_assoc. f_equal. unfold block_contexts. cbn.
    by case_decide.
  - cbn [length]. lia.
Qed.

(** ** Properties *)

(** C7: Instrumenting a translation block.  From any state that satisfies the
    representation invariant, translating a block whose plugin calls are
    well-formed succeeds, keeps the invariant, and leaves exactly one root per
    instruction with a call, whose list holds the contexts that the calls of
    the instruction denote, the last call first. *)
Theorem block_contexts_correct (insns : list (list (list request))) (s : qstate)
    (ls : list (list (Z * actx))) :
  Forall (Forall call_ok) insns -> root_inv s ls ->
  0 <= s.(last_uiid) <= s.(uiid) ->
  s.(uiid) + Z.of_nat (length insns) < 2 ^ 64 ->
  Z.of_nat (length insns) < MAX_ICONTEXT_ROOT ->
  exists s' ls', instrument_block insns s = Ok s' /\ root_inv s' ls' /\
    ctxs ls' = block_contexts insns.
Proof.
  intros Hok Hinv Hu Hb Hmax. unfold instrument_block.
  destruct (free_all_spec s ls Hinv) as (s1 & -> & I1 & _ & U1 & V1 & _).
  cbn [mbind res_bind].
  destruct (instrument_insns_spec insns s1 [] Hok I1)
    as (s2 & ls2 & E2 & I2 & C2 & _); [lia|lia| |by exists s2, ls2].
  rewrite (ri_count _ _ I1). cbn. lia.
Qed.

Definition demo_insns : list (list (list request)) :=
  [[cachesim_requests; [ReqPoint false; ReqFun 0x402000; ReqReg 3]]; [];
   [[ReqFun 0x403000; ReqUpid]]].

Lemma demo_insns_ok : Forall (Forall call_ok) demo_insns.
Proof.
  repeat constructor; try done; vm_compute; try done;
    (discriminate || (split; (discriminate || reflexivity)) || lia).
Qed.

Lemma block_contexts_correct_witness :
  exists s' ls', instrument_block demo_insns init_qstate = Ok s' /\
    root_inv s' ls' /\ ctxs ls' = block_contexts demo_insns.
Proof.
  apply (block_contexts_correct demo_insns init_qstate []).
  - exact demo_insns_ok.
  - exact root_inv_init.
  - cbn; lia.
  - cbn; lia.
  - reflexivity.
Defined.

(** C31: Releasing the contexts of a block.  Whenever the representation
    invariant holds, qtrace_free_all_icontexts terminates without touching
    freed memory, frees every live context, sets every root that was in use to
    NULL and leaves the rest of the table alone, and the number of roots is 0. *)
Theorem free_all_releases_everything (s : qstate) (ls : list (list (Z * actx))) :
  root_inv s ls ->
  exists s', qtrace_free_all_icontexts s = Ok s' /\ s'.(heap) = ∅ /\
    s'.(rootcount) = 0 /\ root_inv s' [] /\
    (forall i, Z.of_nat i < s.(rootcount) -> s'.(rootarray) !! i = Some NULL) /\
    (forall i, s.(rootcount) <= Z.of_nat i -> s'.(rootarray) !! i = s.(rootarray) !! i).
Proof.
  intros Hinv. destruct (free_all_spec s ls Hinv) as (s' & E & I & H & _ & _ & R).
  exists s'. rewrite (ri_count _ _ Hinv), R. split_and!; [exact E|exact H|exact (ri_count _ _ I)|exact I|..]; intros i Hi.
  - rewrite lookup_app_l by (rewrite length_replicate; lia). apply lookup_replicate_2. lia.
  - rewrite lookup_app_r, length_replicate, lookup_drop by (rewrite length_replicate; lia). f_equal. lia.
Qed.

Lemma free_all_releases_everything_witness :
  exists s1 s2, instrument_block demo_insns init_qstate = Ok s1 /\
    s1.(heap) <> ∅ /\ qtrace_free_all_icontexts s1 = Ok s2 /\ s2.(heap) = ∅ /\
    forall i, Z.of_nat i < s1.(rootcount) -> s2.(rootarray) !! i = Some NULL.
Proof.
  destruct (instrument_insns_spec demo_insns init_qstate [] demo_insns_ok root_inv_init)
    as (s1 & ls1 & E & I & C & _); [cbn; lia|cbn; lia|reflexivity|].
  destruct (free_all_releases_everything s1 ls1 I) as (s2 & E2 & H2 & _ & _ & R & _).
  exists s1, s2. split; [exact E|]. split; [|exact (conj E2 (conj H2 R))].
  intros Hemp. destruct ls1 as [|[|[a x] l] ls]; [discriminate C|discriminate C|].
  destruct (proj1 (ri_live _ _ I a)) as [c Hc]; [apply list_elem_of_here|].
  by rewrite Hemp, lookup_empty in Hc.
Defined.

(** The table of roots has a fixed size: opening a root when 32766 are in
    use stops at the assertion, before any of the other roots is lost. *)
Theorem root_table_bound (s : qstate) (ls : list (list (Z * actx))) :
  root_inv s ls ->
  qtrace_allocate_icontext_root s =
    if s.(rootcount) + 1 <? MAX_ICONTEXT_ROOT
    then Ok (set_roots (s.(rootcount) + 1)
               (<[Z.to_nat s.(rootcount) := NULL]> s.(rootarray)) s)
    else Err AssertFailed.
Proof.
  intros Hinv. destruct (Z.ltb_spec (s.(rootcount) + 1) MAX_ICONTEXT_ROOT) as [Hlt|Hge].
  - pose proof Hinv as [Ha Hc Hm _ _ _]. unfold MAX_ICONTEXT_ROOT, CF_COUNT_MASK in *.
    unfold qtrace_allocate_icontext_root. rewrite Hc, array_set_Ok by lia.
    cbn [mbind res_bind]. rewrite (wrap_id 32) by (unfold in_u; lia).
    unfold guard_res, MAX_ICONTEXT_ROOT, CF_COUNT_MASK.
    case_match; [by rewrite Nat2Z.id|lia].
  - by eapply allocate_root_full.
Qed.

Lemma root_table_bound_witness :
  exists s', qtrace_allocate_icontext_root init_qstate = Ok s' /\ s'.(rootcount) = 1.
Proof. rewrite (root_table_bound init_qstate [] root_inv_init). by eexists. Defined.
