(* ===== verification/Plugins.v ===== *)
(** * Plugin modules (qtrace.c)

    [qtrace_instrument_setup] loads a plugin, appends its callbacks to the
    five global lists and hands it the parser; the translator and the debug
    channel later run the functions of a list.

    The dynamic loader is not part of the sources: [dlopen] and [dlsym] are
    parameters.  The plugin's own functions are parameters too: calling one is
    recorded, and a callback may call the parser. *)

From S2P Require Import Prelude QtraceDefs IContext Requests IContextHeap.

(** One node of a list of callbacks; the linked lists of the sources only grow
    at their end and are read from their head. *)
Record GenericRtnContainer := mkRtn {
  rtn : Z;             (* pointer to the function *)
  fname : string;      (* name of the function *)
  mname : string       (* name of the module the function belongs to *)
}.

Record plugin_lists := mkLists {
  resetstats_list : list GenericRtnContainer;
  printstats_list : list GenericRtnContainer;
  userdefine_list : list GenericRtnContainer;
  instruction_list : list GenericRtnContainer;
  ibasicblock_list : list GenericRtnContainer
}.

Definition no_plugins : plugin_lists := mkLists [] [] [] [] [].

Definition ResetStatsNameString : string := "ResetStats".
Definition PrintStatsNameString : string := "PrintStats".

(** [add_function_to_list]: a module may leave a callback undefined. *)
Definition add_function_to_list (f : Z) (mname fname : string)
    (l : list GenericRtnContainer) : list GenericRtnContainer :=
  if f =? 0 then l else l ++ [mkRtn f fname mname].

Definition register_function_to_list := add_function_to_list.

(** [qtrace_invoke_client_from_list]: the functions it calls, in order. *)
Fixpoint qtrace_invoke_client_from_list (mn : option string) (fn : string)
    (l : list GenericRtnContainer) : list Z :=
  match l with
  | [] => []
  | r :: l =>
      let rest := qtrace_invoke_client_from_list mn fn l in
      if String.eqb fn r.(fname) then
        if (match mn with None => true | Some m => String.eqb m r.(mname) end)
        then r.(rtn) :: rest else rest
      else rest
  end.

(** ** Loading a module *)

(** What [dlsym] finds in a loaded module: arrays of containers, counts,
    functions. *)
Record symbols := mkSymbols {
  sym_array : string -> option (list GenericRtnContainer);
  sym_int : string -> option Z;
  sym_fun : string -> option Z
}.

Definition InstructionCBArrayName : string := "InstructionCallBackArray".
Definition InstructionCBNumName : string := "InstructionCallBackNum".
Definition BasicBlockCBArrayName : string := "BasicBlockCallBackArray".
Definition BasicBlockCBNumName : string := "BasicBlockCallBackNum".
Definition UserDefineCBArrayName : string := "UserDefineCallBackArray".
Definition UserDefineCBNumName : string := "UserDefineCallBackNum".
Definition ResetStatsCBArrayName : string := "ResetStatsCallBackArray".
Definition ResetStatsCBNumName : string := "ResetStatsCallBackNum".
Definition PrintStatsCBArrayName : string := "PrintStatsCallBackArray".
Definition PrintStatsCBNumName : string := "PrintStatsCallBackNum".
Definition InitInsInstrumentName : string := "InitializeInstructionInstrument".

(** [ *(int * )dlsym(handle, name) ] *)
Definition deref_int (h : symbols) (name : string) : res Z :=
  of_option NullDeref (h.(sym_int) name).

(** [Array[idx]], where [Array] is what dlsym returned. *)
Definition array_elem (arr : option (list GenericRtnContainer)) (idx : nat)
    : res GenericRtnContainer :=
  l ← of_option NullDeref arr;
  of_option OutOfBounds (l !! idx).

(** The loop [for (idx = 0; idx < num; ++idx)] that registers an array. *)
Fixpoint register_array (n idx : nat) (arr : option (list GenericRtnContainer))
    (module : string) (l : list GenericRtnContainer)
    : res (list GenericRtnContainer) :=
  match n with
  | O => Ok l
  | S n =>
      r ← array_elem arr idx;
      register_array n (S idx) arr module
        (register_function_to_list r.(rtn) module r.(fname) l)
  end.

Definition register_first (num : Z) (arr : option (list GenericRtnContainer))
    (module name : string) (l : list GenericRtnContainer)
    : res (list GenericRtnContainer) :=
  if num =? 0 then Ok l
  else r ← array_elem arr 0;
       Ok (register_function_to_list r.(rtn) module name l).

Section Setup.
(** The dynamic loader. *)
Variable dlopen : string -> option symbols.

(** Returns the lists and the address of the module's initialisation
    function, which is called with the parser. *)
Definition qtrace_instrument_setup (module : string) (p : plugin_lists)
    : res (plugin_lists * Z) :=
  h ← of_option Exited (dlopen module);
  n ← deref_int h InstructionCBNumName;
  il ← register_array (Z.to_nat n) 0 (h.(sym_array) InstructionCBArrayName)
         module p.(instruction_list);
  n ← deref_int h BasicBlockCBNumName;
  bl ← register_array (Z.to_nat n) 0 (h.(sym_array) BasicBlockCBArrayName)
         module p.(ibasicblock_list);
  n ← deref_int h UserDefineCBNumName;
  ul ← register_array (Z.to_nat n) 0 (h.(sym_array) UserDefineCBArrayName)
         module p.(userdefine_list);
  n ← deref_int h ResetStatsCBNumName;
  rl ← register_first n (h.(sym_array) ResetStatsCBArrayName) module
         ResetStatsNameString p.(resetstats_list);
  n ← deref_int h PrintStatsCBNumName;
  pl ← register_first n (h.(sym_array) PrintStatsCBArrayName) module
         PrintStatsNameString p.(printstats_list);
  finit ← of_option AssertFailed (h.(sym_fun) InitInsInstrumentName);
  Ok (mkLists rl pl ul il bl, finit).
End Setup.

(** ** Running the callbacks *)

Section Callbacks.
(** What a plugin's callback does to the state of qtrace.c. *)
Variable callback : Z -> Z -> qstate -> res qstate.

(** The macro [qtrace_invoke_callback]. *)
Fixpoint qtrace_invoke_callback (l : list GenericRtnContainer) (arg : Z)
    (s : qstate) : res qstate :=
  match l with
  | [] => Ok s
  | b :: l => s ← callback b.(rtn) arg s; qtrace_invoke_callback l arg s
  end.

Definition qtrace_invoke_instruction_callback (p : plugin_lists) :=
  qtrace_invoke_callback p.(instruction_list).
Definition qtrace_invoke_ibasicblock_callback (p : plugin_lists) :=
  qtrace_invoke_callback p.(ibasicblock_list).
End Callbacks.

(** ** Properties *)

(** The containers that registering [arr] for [module] adds. *)
Definition registered (module : string) (arr : list GenericRtnContainer)
    : list GenericRtnContainer :=
  (fun r => mkRtn r.(rtn) r.(fname) module) <$> filter (fun r => r.(rtn) <> 0) arr.

Lemma add_function_registered r module l :
  add_function_to_list r.(rtn) module r.(fname) l = l ++ registered module [r].
Proof.
  unfold add_function_to_list, registered. destruct (Z.eqb_spec r.(rtn) 0) as [E|E].
  - rewrite filter_cons_False by (by intros ?). by rewrite app_nil_r.
  - by rewrite filter_cons_True.
Qed.

Lemma registered_app module a b :
  registered module (a ++ b) = registered module a ++ registered module b.
Proof. unfold registered. by rewrite filter_app, fmap_app. Qed.

Lemma register_array_spec arr module n idx l :
  (idx + n <= length arr)%nat ->
  register_array n idx (Some arr) module l =
    Ok (l ++ registered module (take n (drop idx arr))).
Proof.
  revert idx l. induction n as [|n IH]; intros idx l Hn; cbn [register_array].
  { rewrite take_0. unfold registered; cbn. by rewrite app_nil_r. }
  destruct (lookup_lt_is_Some_2 arr idx) as [r Hr]; [lia|].
  unfold array_elem. cbn [of_option mbind res_bind]. rewrite Hr. cbn [of_option].
  cbn [mbind res_bind]. rewrite IH by lia. unfold register_function_to_list.
  rewrite add_function_registered, <- app_assoc, <- registered_app.
  by rewrite (drop_S _ _ _ Hr).
Qed.

(** A module as the plugin build produces it: every count is the length of its
    array, at most one reset and one print function. *)
Record module_desc := mkModule {
  d_instruction : list GenericRtnContainer;
  d_basicblock : list GenericRtnContainer;
  d_userdefine : list GenericRtnContainer;
  d_reset : list GenericRtnContainer;
  d_print : list GenericRtnContainer;
  d_init : Z
}.

Definition module_symbols (d : module_desc) : symbols :=
  let arrays := [(InstructionCBArrayName, d.(d_instruction));
                 (BasicBlockCBArrayName, d.(d_basicblock));
                 (UserDefineCBArrayName, d.(d_userdefine));
                 (ResetStatsCBArrayName, d.(d_reset));
                 (PrintStatsCBArrayName, d.(d_print))] in
  let counts := [(InstructionCBNumName, d.(d_instruction));
                 (BasicBlockCBNumName, d.(d_basicblock));
                 (UserDefineCBNumName, d.(d_userdefine));
                 (ResetStatsCBNumName, d.(d_reset));
                 (PrintStatsCBNumName, d.(d_print))] in
  let find {A} (l : list (string * A)) (n : string) :=
    option_map snd (List.find (fun p => String.eqb n p.1) l) in
  mkSymbols (find arrays)
    (fun n => option_map (fun l => Z.of_nat (length l)) (find counts n))
    (fun n => if String.eqb n InitInsInstrumentName then Some d.(d_init) else None).

(** The reset (or print) entry of a module, under the fixed name. *)
Definition registered_first (module name : string) (arr : list GenericRtnContainer)
    : list GenericRtnContainer :=
  match arr with
  | [] => []
  | r :: _ => if r.(rtn) =? 0 then [] else [mkRtn r.(rtn) name module]
  end.

Lemma register_first_spec arr module name l :
  register_first (Z.of_nat (length arr)) (Some arr) module name l =
    Ok (l ++ registered_first module name arr).
Proof.
  unfold register_first, registered_first. destruct arr as [|r arr]; cbn.
  { by rewrite app_nil_r. }
  unfold register_function_to_list, add_function_to_list.
  destruct (r.(rtn) =? 0); by rewrite ?app_nil_r.
Qed.

Lemma setup_spec dlopen module d p :
  dlopen module = Some (module_symbols d) ->
  qtrace_instrument_setup dlopen module p =
    Ok (mkLists
          (p.(resetstats_list) ++
             registered_first module ResetStatsNameString d.(d_reset))
          (p.(printstats_list) ++
             registered_first module PrintStatsNameString d.(d_print))
          (p.(userdefine_list) ++ registered module d.(d_userdefine))
          (p.(instruction_list) ++ registered module d.(d_instruction))
          (p.(ibasicblock_list) ++ registered module d.(d_basicblock)),
        d.(d_init)).
Proof.
  intros E. unfold qtrace_instrument_setup. rewrite E.
  cbn -[register_array register_first registered registered_first Z.of_nat Z.to_nat].
  rewrite !Nat2Z.id, !register_array_spec by (cbn; lia).
  cbn -[register_first registered registered_first Z.of_nat].
  rewrite !register_first_spec, !drop_0, !firstn_all. done.
Qed.

(** Loading a plugin.  When the loader finds the module, setup appends the
    module's non-NULL callbacks, in the order of its arrays and tagged with the
    module's name, to the global lists, leaves earlier plugins' entries in
    place and in front, and passes the parser to the module's initialiser;
    when the loader fails, the process exits. *)
Theorem setup_registers_module (dlopen : string -> option symbols)
    (module : string) (d : module_desc) (p : plugin_lists) :
  (dlopen module = Some (module_symbols d) ->
   qtrace_instrument_setup dlopen module p =
     Ok (mkLists
           (p.(resetstats_list) ++
              registered_first module ResetStatsNameString d.(d_reset))
           (p.(printstats_list) ++
              registered_first module PrintStatsNameString d.(d_print))
           (p.(userdefine_list) ++ registered module d.(d_userdefine))
           (p.(instruction_list) ++ registered module d.(d_instruction))
           (p.(ibasicblock_list) ++ registered module d.(d_basicblock)),
         d.(d_init))) /\
  (dlopen module = None ->
   qtrace_instrument_setup dlopen module p = Err Exited).
Proof.
  split; [apply setup_spec|]. intros E. unfold qtrace_instrument_setup. by rewrite E.
Qed.

Definition demo_module (base : Z) : module_desc :=
  mkModule [mkRtn (base + 1) "Insn" ""; mkRtn 0 "Unused" ""] []
    [mkRtn (base + 2) "Dump" ""] [mkRtn (base + 3) "r" ""] [] base.

Definition demo_loader (m : string) : option symbols :=
  if String.eqb m "memsim.so" then Some (module_symbols (demo_module 0x1000))
  else if String.eqb m "regsim.so" then Some (module_symbols (demo_module 0x2000))
  else None.

Lemma setup_registers_module_witness :
  exists p, qtrace_instrument_setup demo_loader "memsim.so" no_plugins = Ok (p, 0x1000) /\
    p.(instruction_list) = [mkRtn 0x1001 "Insn" "memsim.so"] /\
    qtrace_instrument_setup demo_loader "none.so" p = Err Exited.
Proof.
  eexists. split.
  - exact (proj1 (setup_registers_module demo_loader "memsim.so"
                    (demo_module 0x1000) no_plugins) eq_refl).
  - split; [reflexivity|].
    exact (proj2 (setup_registers_module demo_loader "none.so"
                    (demo_module 0) _) eq_refl).
Defined.

(** Which entries a request of the debug channel selects. *)
Definition selects (mn : option string) (fn : string) (r : GenericRtnContainer) : Prop :=
  r.(fname) = fn /\ match mn with None => True | Some m => r.(mname) = m end.

#[export] Instance selects_dec mn fn r : Decision (selects mn fn r).
Proof. unfold selects. destruct mn; apply _. Defined.

Lemma invoke_client_filter mn fn l :
  qtrace_invoke_client_from_list mn fn l = rtn <$> filter (selects mn fn) l.
Proof.
  induction l as [|r l IH]; [done|].
  cbn [qtrace_invoke_client_from_list]. rewrite filter_cons, IH. unfold selects.
  destruct (String.eqb_spec fn r.(fname)) as [->|Hne].
  - destruct mn as [m|].
    + destruct (String.eqb_spec m r.(mname)) as [->|Hm].
      * by rewrite decide_True.
      * rewrite decide_False; [done|]. intros [_ ?]; congruence.
    + by rewrite decide_True.
  - rewrite decide_False; [done|]. intros [? _]; congruence.
Qed.

(** Loading several modules in the order of the command line. *)
Fixpoint setup_modules (dlopen : string -> option symbols) (ms : list string)
    (p : plugin_lists) : res plugin_lists :=
  match ms with
  | [] => Ok p
  | m :: ms => '(p, _) ← qtrace_instrument_setup dlopen m p;
               setup_modules dlopen ms p
  end.

Lemma filter_registered_first m m' name arr :
  filter (selects (Some m) name) (registered_first m' name arr) =
    if decide (m = m') then registered_first m' name arr else [].
Proof.
  unfold registered_first. destruct arr as [|r arr]; [by case_decide|].
  destruct (rtn r =? 0); [by case_decide|].
  case_decide as E.
  - rewrite filter_cons_True; [done|]. by split.
  - rewrite filter_cons_False; [done|]. intros [_ E']. by symmetry in E'.
Qed.

Lemma setup_modules_reset dlopen (descr : string -> module_desc) ms p :
  (forall m, m ∈ ms -> dlopen m = Some (module_symbols (descr m))) ->
  exists p', setup_modules dlopen ms p = Ok p' /\
    p'.(resetstats_list) = p.(resetstats_list) ++
      (ms ≫= fun m => registered_first m ResetStatsNameString (descr m).(d_reset)).
Proof.
  revert p. induction ms as [|m ms IH]; intros p Hload.
  { exists p. cbn. by rewrite app_nil_r. }
  cbn [setup_modules].
  rewrite (setup_spec dlopen m (descr m) p)
    by (apply Hload, list_elem_of_here).
  cbn [mbind res_bind].
  edestruct IH as (p' & E & H); [intros; apply Hload; by apply list_elem_of_further|].
  exists p'. split; [exact E|]. rewrite H. cbn. by rewrite <- app_assoc.
Qed.

Lemma filter_resets_all (descr : string -> module_desc) ms :
  filter (selects None ResetStatsNameString)
    (ms ≫= fun m => registered_first m ResetStatsNameString (descr m).(d_reset)) =
  ms ≫= fun m => registered_first m ResetStatsNameString (descr m).(d_reset).
Proof.
  induction ms as [|m ms IH]; [done|]. cbn. rewrite filter_app, IH. f_equal.
  unfold registered_first. destruct (d_reset (descr m)) as [|r l]; [done|].
  by destruct (rtn r =? 0).
Qed.

Lemma filter_resets_module (descr : string -> module_desc) ms m :
  NoDup ms ->
  filter (selects (Some m) ResetStatsNameString)
    (ms ≫= fun m => registered_first m ResetStatsNameString (descr m).(d_reset)) =
  if decide (m ∈ ms) then registered_first m ResetStatsNameString (descr m).(d_reset)
  else [].
Proof.
  induction 1 as [|m' ms Hm' _ IH]; [done|]. cbn. rewrite filter_app, IH.
  rewrite filter_registered_first. destruct (decide (m = m')) as [->|Hne].
  - rewrite decide_False by done. rewrite decide_True by apply list_elem_of_here.
    by rewrite app_nil_r.
  - cbn. apply decide_ext. rewrite elem_of_cons. tauto.
Qed.

(** C32: Requests of the debug channel reach the right plugins.  After loading
    any list of distinct modules, a reset request naming a loaded module calls
    that module's reset function and no other, one naming an unknown module
    calls nothing, and a reset-all request calls every module's reset function
    once, in load order. *)
Theorem reset_requests_reach_modules (dlopen : string -> option symbols)
    (descr : string -> module_desc) (ms : list string) (m : string) :
  (forall m, m ∈ ms -> dlopen m = Some (module_symbols (descr m))) -> NoDup ms ->
  exists p, setup_modules dlopen ms no_plugins = Ok p /\
    qtrace_invoke_client_from_list (Some m) ResetStatsNameString p.(resetstats_list) =
      (if decide (m ∈ ms)
       then rtn <$> registered_first m ResetStatsNameString (descr m).(d_reset) else []) /\
    qtrace_invoke_client_from_list None ResetStatsNameString p.(resetstats_list) =
      (ms ≫= fun m =>
         rtn <$> registered_first m ResetStatsNameString (descr m).(d_reset)).
Proof.
  intros Hload Hnd. destruct (setup_modules_reset dlopen descr ms no_plugins Hload)
    as (p & E & H).
  exists p. split; [exact E|]. rewrite !invoke_client_filter, H. cbn [no_plugins resetstats_list app].
  rewrite filter_resets_module, filter_resets_all by done. split; [by case_decide|].
  clear. induction ms as [|m ms IH]; [done|]. cbn. by rewrite fmap_app, IH.
Qed.

Lemma reset_requests_reach_modules_witness :
  exists p, setup_modules demo_loader ["memsim.so"; "regsim.so"] no_plugins = Ok p /\
    qtrace_invoke_client_from_list (Some "regsim.so") ResetStatsNameString
      p.(resetstats_list) = [0x2003] /\
    qtrace_invoke_client_from_list None ResetStatsNameString p.(resetstats_list)
      = [0x1003; 0x2003].
Proof.
  apply (reset_requests_reach_modules demo_loader
           (fun m => demo_module (if String.eqb m "memsim.so" then 0x1000 else 0x2000))
           ["memsim.so"; "regsim.so"] "regsim.so").
  - intros m. rewrite !elem_of_cons. intros [->|[->|[]%elem_of_nil]]; reflexivity.
  - apply (bool_decide_unpack _). vm_compute. exact I.
Defined.

(** The callbacks of a list make their parser calls one after the other. *)
Lemma invoke_callback_calls (calls : Z -> Z -> list (list request)) l arg s :
  qtrace_invoke_callback (fun f a => parser_calls (calls f a)) l arg s =
  parser_calls (l ≫= fun r => calls r.(rtn) arg) s.
Proof.
  revert s. induction l as [|r l IH]; intros s; [done|].
  cbn [qtrace_invoke_callback]. cbn [mbind list_bind].
  rewrite parser_calls_app. destruct (parser_calls (calls (rtn r) arg) s); cbn; auto.
Qed.
