(* ===== verification/DebugChannel.v ===== *)
(** * The asynchronous debug channel (qemu-adebug.c, cpu-exec.c, vl.c)

    qemu-adebug writes a request into a [DebugChannel] in shared memory; the
    CPU loop polls the channel before it looks up a translation block, runs
    what is requested and clears the channel. *)

From S2P Require Import Prelude QtraceDefs IContext Requests IContextHeap Plugins.
From Stdlib Require Import Ascii.

Definition NAME_SIZE : nat := 128.

Record DebugChannel := mkChannel {
  client_userd : Z;        (* user defined function request *)
  client_reset : Z;        (* reset stats function request *)
  client_print : Z;        (* print stats function request *)
  client_reset_all : Z;
  client_print_all : Z;
  flushcc : Z;
  ch_fname : list ascii;   (* char fname[128] *)
  ch_mname : list ascii    (* char mname[128] *)
}.

(** The channel after [memset(channel, 0, sizeof(DebugChannel))]. *)
Definition cleared_channel : DebugChannel :=
  mkChannel 0 0 0 0 0 0 (replicate NAME_SIZE zero) (replicate NAME_SIZE zero).

(** The request flags of the channel, one per command. *)
Inductive command :=
  CmdFlushcc | CmdUserd | CmdReset | CmdPrint | CmdResetAll | CmdPrintAll.

#[export] Instance command_eq_dec : EqDecision command.
Proof. solve_decision. Defined.

Definition get_flag (c : command) (ch : DebugChannel) : Z :=
  match c with
  | CmdFlushcc => ch.(flushcc)
  | CmdUserd => ch.(client_userd)
  | CmdReset => ch.(client_reset)
  | CmdPrint => ch.(client_print)
  | CmdResetAll => ch.(client_reset_all)
  | CmdPrintAll => ch.(client_print_all)
  end.

Definition set_flag (c : command) (v : Z) (ch : DebugChannel) : DebugChannel :=
  let '(mkChannel ud rs pr ra pa fl f m) := ch in
  match c with
  | CmdFlushcc => mkChannel ud rs pr ra pa v f m
  | CmdUserd => mkChannel v rs pr ra pa fl f m
  | CmdReset => mkChannel ud v pr ra pa fl f m
  | CmdPrint => mkChannel ud rs v ra pa fl f m
  | CmdResetAll => mkChannel ud rs pr v pa fl f m
  | CmdPrintAll => mkChannel ud rs pr ra v fl f m
  end.

Definition set_names (f m : list ascii) (ch : DebugChannel) : DebugChannel :=
  mkChannel ch.(client_userd) ch.(client_reset) ch.(client_print)
    ch.(client_reset_all) ch.(client_print_all) ch.(flushcc) f m.

(** ** C strings in a buffer *)

Fixpoint chars (s : string) : list ascii :=
  match s with EmptyString => [] | String c s => c :: chars s end.

(** [memcpy(dst, s, strlen(s))]: no terminating NUL is written. *)
Definition memcpy_name (dst : list ascii) (s : string) : res (list ascii) :=
  if (length (chars s) <=? length dst)%nat
  then Ok (chars s ++ drop (length (chars s)) dst) else Err OutOfBounds.

(** [!strcmp(buf, s)]: reads the buffer up to the first difference or NUL. *)
Fixpoint strcmp_eq (buf : list ascii) (s : string) : res bool :=
  match buf with
  | [] => Err OutOfBounds
  | c :: buf =>
      match s with
      | EmptyString => Ok (bool_decide (c = zero))
      | String d s => if decide (c = d) then strcmp_eq buf s else Ok false
      end
  end.

(** A name argument of [qtrace_invoke_client_from_list]: a string constant or
    a buffer of the channel. *)
Inductive nameref := NameConst (s : string) | NameBuf (buf : list ascii).

Definition name_eq (n : nameref) (s : string) : res bool :=
  match n with
  | NameConst t => Ok (String.eqb t s)
  | NameBuf buf => strcmp_eq buf s
  end.

(** ** The client: qemu-adebug *)

(** [handle_connection_<cmd>] up to its wait loop; [None] is a NULL name. *)
Definition handle_connection (c : command) (fname mname : option string)
    (ch : DebugChannel) : res DebugChannel :=
  f ← match fname with
      | Some s => memcpy_name ch.(ch_fname) s | None => Ok ch.(ch_fname) end;
  m ← match mname with
      | Some s => memcpy_name ch.(ch_mname) s | None => Ok ch.(ch_mname) end;
  Ok (set_flag c 1 (set_names f m ch)).

(** [QTRACE_WAIT_COMMAND_HANDLED(channel->var)], that is [while(!var);]: one
    evaluation of the loop condition. *)
Definition wait_loops (c : command) (ch : DebugChannel) : bool :=
  get_flag c ch =? 0.

(** ** The server: the CPU loop *)

(** What handling a request does: flush the code cache, or call a function of
    a plugin. *)
Inductive action := FlushCode | CallPlugin (f : Z).

Definition when (flag : Z) (acts : list action) : list action :=
  if flag =? 0 then [] else acts.

(** [qtrace_invoke_client_from_list] with a module name given; the module is
    compared only when the function's name matches. *)
Fixpoint invoke_named (mn fn : nameref) (l : list GenericRtnContainer)
    : res (list action) :=
  match l with
  | [] => Ok []
  | r :: l =>
      bf ← name_eq fn r.(fname);
      bm ← (if bf : bool then name_eq mn r.(mname) else Ok false);
      rest ← invoke_named mn fn l;
      Ok (if bm : bool then CallPlugin r.(rtn) :: rest else rest)
  end.

Definition when_res (flag : Z) (acts : res (list action)) : res (list action) :=
  if flag =? 0 then Ok [] else acts.

Definition qtrace_cpu_handle_cmds (p : plugin_lists) (ch : DebugChannel)
    : res (list action * DebugChannel) :=
  let mn := NameBuf ch.(ch_mname) in
  let fn := NameBuf ch.(ch_fname) in
  let a0 := when ch.(flushcc) [FlushCode] in
  let a1 := when ch.(client_reset_all)
              (CallPlugin <$> qtrace_invoke_client_from_list None
                 ResetStatsNameString p.(resetstats_list)) in
  let a2 := when ch.(client_print_all)
              (CallPlugin <$> qtrace_invoke_client_from_list None
                 PrintStatsNameString p.(printstats_list)) in
  a3 ← when_res ch.(client_userd) (invoke_named mn fn p.(userdefine_list));
  a4 ← when_res ch.(client_reset)
         (invoke_named mn (NameConst ResetStatsNameString) p.(resetstats_list));
  a5 ← when_res ch.(client_print)
         (invoke_named mn (NameConst PrintStatsNameString) p.(printstats_list));
  Ok (a0 ++ a1 ++ a2 ++ a3 ++ a4 ++ a5, cleared_channel).

(** ** Command line of qemu-adebug *)

Definition cmd_name (c : command) : string :=
  match c with
  | CmdFlushcc => "--flushcc"
  | CmdUserd => "--client-userd"
  | CmdReset => "--client-reset"
  | CmdPrint => "--client-print"
  | CmdResetAll => "--client-reset-all"
  | CmdPrintAll => "--client-print-all"
  end.

(** [argv[i]] with the NULL that ends argv. *)
Definition argv_get (argv : list string) (i : nat) : res (option string) :=
  if decide (i = length argv) then Ok None
  else s ← of_option OutOfBounds (argv !! i); Ok (Some s).

(** [!strcmp(argv[i], name)]: NULL is dereferenced. *)
Definition argv_is (argv : list string) (i : nat) (name : string) : res bool :=
  a ← argv_get argv i;
  match a with None => Err NullDeref | Some s => Ok (String.eqb s name) end.

(** A request as written to the channel. *)
Record sent := mkSent { s_cmd : command; s_fname : option string; s_mname : option string }.

(** One [if (!strcmp(argv[i], ...)) handle_connection_...] of the loop body.
    For --client-userd the two [argv[++i]] are unsequenced in C: [fname_first]
    says which the compiler evaluates first. *)
Definition try_command (fname_first : bool) (argv : list string) (c : command)
    (i : nat) : res (nat * list sent) :=
  b ← argv_is argv i (cmd_name c);
  if negb b then Ok (i, []) else
  match c with
  | CmdUserd =>
      x ← argv_get argv (S i);
      y ← argv_get argv (S (S i));
      Ok (S (S i), [if fname_first then mkSent c x y else mkSent c y x])
  | CmdReset | CmdPrint =>
      x ← argv_get argv (S i);
      Ok (S i, [mkSent c None x])
  | _ => Ok (i, [mkSent c None None])
  end.

(** The body of the loop: the six tests in order, each on the current [i]. *)
Fixpoint try_commands (fname_first : bool) (argv : list string) (cs : list command)
    (i : nat) : res (nat * list sent) :=
  match cs with
  | [] => Ok (i, [])
  | c :: cs =>
      '(i, s1) ← try_command fname_first argv c i;
      '(i, s2) ← try_commands fname_first argv cs i;
      Ok (i, s1 ++ s2)
  end.

Definition all_commands : list command :=
  [CmdFlushcc; CmdUserd; CmdReset; CmdPrint; CmdResetAll; CmdPrintAll].

(** [handle_connection_success]: the requests sent, and whether the loop ended
    with exit(-1) on an invalid command. *)
Fixpoint handle_args (fuel : nat) (fname_first : bool) (argv : list string) (i : nat)
    : res (list sent * bool) :=
  if (length argv <=? i)%nat then Ok ([], false)
  else match fuel with
  | O => Err OutOfFuel
  | S fuel =>
      '(i, s) ← try_commands fname_first argv all_commands i;
      if decide (s = []) then Ok ([], true)
      else '(rest, bad) ← handle_args fuel fname_first argv (S i);
           Ok (s ++ rest, bad)
  end.

Definition handle_connection_success (fname_first : bool) (argv : list string)
    : res (list sent * bool) :=
  handle_args (length argv) fname_first argv 1.

(** [main] of qemu-adebug: [shmat] is the address of the attached segment.  On
    failure shmat returns [(void * )-1]. *)
Definition connect (shmat : option Z) : Z := default (2 ^ 64 - 1) shmat.

Inductive adebug_result :=
  | AdebugHelp                                (* printed the help text *)
  | AdebugNoChannel                           (* "unable to connect to shm" *)
  | AdebugSent (reqs : list sent) (bad : bool).

Definition adebug_main (shmat : option Z) (fname_first : bool) (argv : list string)
    : res adebug_result :=
  if (length argv =? 2)%nat &&
     (bool_decide (argv !! 1%nat = Some "-h") ||
      bool_decide (argv !! 1%nat = Some "--help"))
  then Ok AdebugHelp
  else if connect shmat =? NULL then Ok AdebugNoChannel
  else
    '(reqs, bad) ← handle_connection_success fname_first argv;
    match shmat, reqs with
    | None, _ :: _ => Err BadPointer       (* the first store to the channel *)
    | _, _ => Ok (AdebugSent reqs bad)
    end.

(** ** The channel between client and server *)

(** A name as a C string: no NUL inside, room for the terminator. *)
Definition name_ok (s : string) : Prop :=
  (zero ∉ chars s) /\ (length (chars s) < NAME_SIZE)%nat.

Lemma strcmp_eq_buffer s t k :
  zero ∉ chars s -> zero ∉ chars t ->
  strcmp_eq (chars s ++ zero :: replicate k zero) t = Ok (String.eqb s t).
Proof.
  revert t. induction s as [|c s IH]; intros [|d t] Hs Ht; cbn in Hs, Ht |- *.
  - done.
  - rewrite not_elem_of_cons in Ht. rewrite decide_False by tauto. done.
  - rewrite not_elem_of_cons in Hs. rewrite bool_decide_eq_false_2; [done|].
    intros ->. tauto.
  - rewrite not_elem_of_cons in Hs, Ht. destruct (decide (c = d)) as [->|Hne].
    + rewrite IH by tauto. by rewrite Ascii.eqb_refl.
    + by rewrite (proj2 (Ascii.eqb_neq c d)).
Qed.

Lemma memcpy_cleared s :
  name_ok s ->
  exists k, memcpy_name (replicate NAME_SIZE zero) s
              = Ok (chars s ++ zero :: replicate k zero).
Proof.
  intros [_ Hlen]. unfold memcpy_name. rewrite length_replicate.
  rewrite (proj2 (Nat.leb_le _ _)) by lia. rewrite drop_replicate.
  assert (0 < NAME_SIZE - length (chars s))%nat by lia.
  exists (NAME_SIZE - length (chars s) - 1)%nat. do 2 f_equal.
  destruct (NAME_SIZE - length (chars s))%nat as [|k]; [lia|]. cbn.
  by rewrite Nat.sub_0_r.
Qed.

(** Plugins' names are C strings. *)
Definition entry_ok (r : GenericRtnContainer) : Prop :=
  (zero ∉ chars r.(fname)) /\ (zero ∉ chars r.(mname)).

(** [name_is n s]: the reference denotes the string [s]. *)
Definition name_is (n : nameref) (s : string) : Prop :=
  n = NameConst s \/
  ((zero ∉ chars s) /\ exists k, n = NameBuf (chars s ++ zero :: replicate k zero)).

Lemma name_is_eq n s t : name_is n s -> zero ∉ chars t -> name_eq n t = Ok (String.eqb s t).
Proof.
  intros [->|(Hs & k & ->)] Ht; cbn; [done|]. by apply strcmp_eq_buffer.
Qed.

Lemma invoke_named_spec mn fn m f l :
  name_is mn m -> name_is fn f -> Forall entry_ok l ->
  invoke_named mn fn l = Ok (CallPlugin <$> qtrace_invoke_client_from_list (Some m) f l).
Proof.
  intros Hm Hf. induction 1 as [|r l [Hrf Hrm] _ IH]; [done|].
  cbn [invoke_named qtrace_invoke_client_from_list].
  rewrite (name_is_eq fn f) by done. cbn [mbind res_bind].
  destruct (f =? fname r)%string; [rewrite (name_is_eq mn m) by done|];
    cbn [mbind res_bind]; rewrite IH; cbn [mbind res_bind]; [|done].
  by destruct (m =? mname r)%string.
Qed.

(** What each command asks the CPU loop to do. *)
Definition cmd_actions (p : plugin_lists) (c : command) (f m : string) : list action :=
  match c with
  | CmdFlushcc => [FlushCode]
  | CmdUserd => CallPlugin <$> qtrace_invoke_client_from_list (Some m) f p.(userdefine_list)
  | CmdReset => CallPlugin <$> qtrace_invoke_client_from_list (Some m)
                  ResetStatsNameString p.(resetstats_list)
  | CmdPrint => CallPlugin <$> qtrace_invoke_client_from_list (Some m)
                  PrintStatsNameString p.(printstats_list)
  | CmdResetAll => CallPlugin <$> qtrace_invoke_client_from_list None
                     ResetStatsNameString p.(resetstats_list)
  | CmdPrintAll => CallPlugin <$> qtrace_invoke_client_from_list None
                     PrintStatsNameString p.(printstats_list)
  end.

(** The names the client passes with a command. *)
Definition cmd_fname (c : command) (f : string) : option string :=
  match c with CmdUserd => Some f | _ => None end.
Definition cmd_mname (c : command) (m : string) : option string :=
  match c with CmdUserd | CmdReset | CmdPrint => Some m | _ => None end.

Definition lists_ok (p : plugin_lists) : Prop :=
  Forall entry_ok p.(userdefine_list) /\ Forall entry_ok p.(resetstats_list) /\
  Forall entry_ok p.(printstats_list).

Lemma channel_delivers_aux (p : plugin_lists) (c : command) (f m : string) :
  lists_ok p -> name_ok f -> name_ok m ->
  exists ch, handle_connection c (cmd_fname c f) (cmd_mname c m) cleared_channel = Ok ch /\
    qtrace_cpu_handle_cmds p ch = Ok (cmd_actions p c f m, cleared_channel).
Proof.
  intros (Hu & Hr & Hp) Hf Hm.
  destruct (memcpy_cleared f Hf) as (kf & Ef), (memcpy_cleared m Hm) as (km & Em).
  assert (name_is (NameBuf (chars f ++ zero :: replicate kf zero)) f) as If
    by (right; split; [apply Hf|by exists kf]).
  assert (name_is (NameBuf (chars m ++ zero :: replicate km zero)) m) as Im
    by (right; split; [apply Hm|by exists km]).
  unfold handle_connection, cleared_channel. cbn [ch_fname ch_mname].
  destruct c; cbn [cmd_fname cmd_mname]; rewrite ?Ef, ?Em; cbn [mbind res_bind];
    (eexists; split; [reflexivity|]); unfold qtrace_cpu_handle_cmds, when, when_res;
    cbn -[invoke_named qtrace_invoke_client_from_list replicate NAME_SIZE fmap];
    rewrite ?(invoke_named_spec _ _ m f), ?(invoke_named_spec _ _ m ResetStatsNameString),
      ?(invoke_named_spec _ _ m PrintStatsNameString) by (done || by left);
    cbn -[qtrace_invoke_client_from_list replicate NAME_SIZE fmap];
    by rewrite ?app_nil_r.
Qed.

(** C33: A request sent over a cleared channel is performed exactly.  Whatever
    the command and its (NUL-free, shorter than 128 bytes) names, once the client
    tool has written all of it the CPU loop's next poll performs the actions of
    that command, nothing else, and clears the channel. *)
Theorem channel_delivers (p : plugin_lists) (c : command) (f m : string) :
  lists_ok p -> name_ok f -> name_ok m ->
  exists ch, handle_connection c (cmd_fname c f) (cmd_mname c m) cleared_channel = Ok ch /\
    qtrace_cpu_handle_cmds p ch = Ok (cmd_actions p c f m, cleared_channel).
Proof. apply channel_delivers_aux. Qed.

Definition demo_lists : plugin_lists :=
  mkLists [mkRtn 0x1003 ResetStatsNameString "memsim.so"] [] [] [] [].

Lemma channel_delivers_witness :
  exists ch, handle_connection CmdReset None (Some "memsim.so") cleared_channel = Ok ch /\
    qtrace_cpu_handle_cmds demo_lists ch = Ok ([CallPlugin 0x1003], cleared_channel).
Proof.
  apply (channel_delivers demo_lists CmdReset "" "memsim.so");
    [split_and!; repeat constructor | split | split];
    try (apply (bool_decide_unpack _); vm_compute; exact I); vm_compute; lia.
Defined.

(** ** Client and server running concurrently

    The client copies the names, sets the flag and waits; the CPU loop polls
    whenever it is about to look up a translation block.  Each copy, the store
    of the flag, each test of the wait loop and each poll is one step. *)

Inductive client_pc :=
  | AtFname (c : command) (f m : option string)
  | AtMname (c : command) (m : option string)
  | AtFlag (c : command)
  | AtWait (c : command)
  | AtDone.

Record system := mkSystem { sys_pc : client_pc; sys_ch : DebugChannel; sys_log : list action }.

Definition copy_name (buf : list ascii) (s : option string) : res (list ascii) :=
  match s with Some s => memcpy_name buf s | None => Ok buf end.

Inductive sys_step (p : plugin_lists) : system -> system -> Prop :=
  | step_fname c f m ch log buf :
      copy_name ch.(ch_fname) f = Ok buf ->
      sys_step p (mkSystem (AtFname c f m) ch log)
                 (mkSystem (AtMname c m) (set_names buf ch.(ch_mname) ch) log)
  | step_mname c m ch log buf :
      copy_name ch.(ch_mname) m = Ok buf ->
      sys_step p (mkSystem (AtMname c m) ch log)
                 (mkSystem (AtFlag c) (set_names ch.(ch_fname) buf ch) log)
  | step_flag c ch log :
      sys_step p (mkSystem (AtFlag c) ch log) (mkSystem (AtWait c) (set_flag c 1 ch) log)
  | step_wait c ch log :
      sys_step p (mkSystem (AtWait c) ch log)
                 (mkSystem (if wait_loops c ch then AtWait c else AtDone) ch log)
  | step_poll pc ch ch' log acts :
      qtrace_cpu_handle_cmds p ch = Ok (acts, ch') ->
      sys_step p (mkSystem pc ch log) (mkSystem pc ch' (log ++ acts)).

Definition client_start (c : command) (f m : option string) : system :=
  mkSystem (AtFname c f m) cleared_channel [].

Lemma poll_cleared p : qtrace_cpu_handle_cmds p cleared_channel = Ok ([], cleared_channel).
Proof. reflexivity. Qed.

Lemma wait_cleared_stuck p c log st :
  rtc (sys_step p) (mkSystem (AtWait c) cleared_channel log) st ->
  st = mkSystem (AtWait c) cleared_channel log.
Proof.
  intros H. remember (mkSystem (AtWait c) cleared_channel log) as st0 eqn:E.
  induction H as [|st0 st1 st2 Hstep _ IH]; [done|]. subst st0.
  enough (st1 = mkSystem (AtWait c) cleared_channel log) as E by (by rewrite IH).
  inversion Hstep as [| | |c' ch' log'|pc ch ch' log' acts Hp]; subst.
  - by destruct c.
  - rewrite poll_cleared in Hp. injection Hp as <- <-. by rewrite app_nil_r.
Qed.

(** C40: The client's wait is the wrong way round.  qemu-adebug is meant to
    return when its command has been handled, but
    QTRACE_WAIT_COMMAND_HANDLED(x) loops while the flag is zero: whatever the
    command, the client can return while the request is still pending and
    nothing has been done, and once the CPU loop has handled the request and
    cleared the channel, the client never returns. *)
Theorem adebug_wait_inverted (p : plugin_lists) (c : command) (f m : string) :
  lists_ok p -> name_ok f -> name_ok m ->
  (exists ch, rtc (sys_step p) (client_start c (cmd_fname c f) (cmd_mname c m))
                (mkSystem AtDone ch []) /\ get_flag c ch = 1) /\
  (exists st, rtc (sys_step p) (client_start c (cmd_fname c f) (cmd_mname c m)) st /\
     st.(sys_log) = cmd_actions p c f m /\
     forall st', rtc (sys_step p) st st' -> st' = st /\ st'.(sys_pc) <> AtDone).
Proof.
  intros Hl Hf Hm.
  destruct (channel_delivers_aux p c f m Hl Hf Hm) as (ch & Hs & Hh).
  unfold handle_connection in Hs.
  apply bind_Ok in Hs as (bf & Ef & Hs). apply bind_Ok in Hs as (bm & Em & Hs).
  injection Hs as <-.
  assert (rtc (sys_step p) (client_start c (cmd_fname c f) (cmd_mname c m))
            (mkSystem (AtWait c) (set_flag c 1 (set_names bf bm cleared_channel)) []))
    as Hsent.
  { eapply rtc_l; [by apply step_fname|]. eapply rtc_l; [by apply step_mname|].
    eapply rtc_l; [by apply step_flag|]. apply rtc_refl. }
  split.
  - exists (set_flag c 1 (set_names bf bm cleared_channel)). split; [|by destruct c].
    eapply rtc_r; [exact Hsent|].
    replace AtDone with
      (if wait_loops c (set_flag c 1 (set_names bf bm cleared_channel))
       then AtWait c else AtDone) by (by destruct c).
    apply step_wait.
  - exists (mkSystem (AtWait c) cleared_channel (cmd_actions p c f m)). split.
    + eapply rtc_r; [exact Hsent|]. by apply (step_poll p _ _ _ []).
    + split; [done|]. intros st' H%wait_cleared_stuck. by subst.
Qed.

Lemma adebug_wait_inverted_witness :
  (exists ch, rtc (sys_step demo_lists) (client_start CmdReset None (Some "memsim.so"))
                (mkSystem AtDone ch []) /\ get_flag CmdReset ch = 1) /\
  (exists st, rtc (sys_step demo_lists) (client_start CmdReset None (Some "memsim.so")) st /\
     st.(sys_log) = [CallPlugin 0x1003] /\
     forall st', rtc (sys_step demo_lists) st st' -> st' = st /\ st'.(sys_pc) <> AtDone).
Proof.
  apply (adebug_wait_inverted demo_lists CmdReset "" "memsim.so");
    [split_and!; repeat constructor | split | split];
    try (apply (bool_decide_unpack _); vm_compute; exact I); vm_compute; lia.
Defined.

(** A poll between the copy of the module name and the store of the flag
    erases the name: the request is then performed for no module. *)
Lemma request_name_lost :
  exists st, rtc (sys_step demo_lists) (client_start CmdReset None (Some "memsim.so")) st /\
    st.(sys_pc) = AtWait CmdReset /\
    st.(sys_ch) = set_flag CmdReset 1 cleared_channel /\
    qtrace_cpu_handle_cmds demo_lists st.(sys_ch) = Ok ([], cleared_channel).
Proof.
  eexists. split.
  - eapply rtc_l; [by apply step_fname|]. eapply rtc_l; [by apply step_mname|].
    eapply rtc_l; [by apply (step_poll _ _ _ cleared_channel _ [])|].
    eapply rtc_l; [by apply step_flag|]. apply rtc_refl.
  - by vm_compute.
Qed.
