(* ===== verification/Interpret.v ===== *)
(** * From requests to TCG operations (target-i386/translate.c)

    After the plugins' callbacks have run for an instruction the translator
    interprets the newest context: register requests become offsets into
    [CPUX86State] (and, for a context that runs before the instruction,
    operations that copy the register to the shadow CPU state), memory requests
    become offsets of the shadow area and are collected in [instrument_memory],
    which is packed into the MMU index of the guest memory operations emitted
    later. *)

From S2P Require Import Prelude QtraceDefs IContext Requests IContextHeap Plugins.

(** ** Layout of CPUX86State

    Offsets of the fields of [CPUX86State] that QTRACE uses; they are chosen by
    the C compiler.  [target_ulong] and [uint64_t] are 8 bytes wide. *)
Class CPULayout := {
  ofs_regs : Z;               (* target_ulong regs[CPU_NB_REGS] *)
  ofs_eip : Z;
  ofs_cr : Z;                 (* target_ulong cr[5] *)
  ofs_tsc : Z;
  ofs_shadowcpu_offset : Z;
  ofs_fetch_shadow : Z;       (* CPUFetchStoreShadow fetch_shadow *)
  ofs_store_shadow : Z;
  ofs_tlb_table : Z           (* CPUTLBEntry tlb_table[NB_MMU_MODES][CPU_TLB_SIZE] *)
}.

(** include/exec/cpu-defs.h: the fields of [CPUFetchStoreShadow]. *)
Inductive shadow_field := sf_vaddr | sf_paddr | sf_bsize | sf_prevalue | sf_pstvalue.

Definition shadow_field_ofs (f : shadow_field) : Z :=
  match f with
  | sf_vaddr => 0 | sf_paddr => 8 | sf_bsize => 16 | sf_prevalue => 24
  | sf_pstvalue => 32
  end.

(** ** Registers (target-i386/qtrace-target.h) *)
Definition R_R15 : Z := 15.
Definition R_RIP : Z := 16.
Definition R_CR0 : Z := 17.
Definition R_CR4 : Z := 21.
Definition R_TSC : Z := 22.

(** ** TCG operations that QTRACE emits *)
Inductive tcg_op :=
  | op_qtrace_instrumentation (ictx : Z)
  | op_qtrace_shadow_register (rmsize offset : Z)
  | op_qemu_ld_i64 (val addr memop idx : Z)
  | op_qemu_st_i64 (val addr memop idx : Z).

Section Interpret.
Context `{L : CPULayout}.

Definition fetch_shadow (f : shadow_field) : Z := ofs_fetch_shadow + shadow_field_ofs f.
Definition store_shadow (f : shadow_field) : Z := ofs_store_shadow + shadow_field_ofs f.

(** [qtrace_get_register_size_and_offset]; an unknown register leaves
    [*rmsize] and [*offset] as they were. *)
Definition qtrace_get_register_size_and_offset (regnum rmsize offset : Z) : Z * Z :=
  if (0 <=? regnum) && (regnum <=? R_R15) then (64, u32 (ofs_regs + 8 * regnum))
  else if regnum =? R_RIP then (64, u32 ofs_eip)
  else if (R_CR0 <=? regnum) && (regnum <=? R_CR4) then
    (64, u32 (ofs_cr + 8 * (regnum - R_RIP - 1)))
  else if regnum =? R_TSC then (64, u32 ofs_tsc)
  else (rmsize, offset).

(** The offset that replaces the reserved word of a memory request. *)
Definition mem_code_offset (code : Z) : option Z :=
  if code =? QTRACE_MEMTRACE_FETCH_VMA then Some (fetch_shadow sf_vaddr)
  else if code =? QTRACE_MEMTRACE_FETCH_PMA then Some (fetch_shadow sf_paddr)
  else if code =? QTRACE_MEMTRACE_FETCH_MSIZE then Some (fetch_shadow sf_bsize)
  else if code =? QTRACE_MEMTRACE_FETCH_PREOP_VALUE then Some (fetch_shadow sf_prevalue)
  else if code =? QTRACE_MEMTRACE_FETCH_PSTOP_VALUE then Some (fetch_shadow sf_pstvalue)
  else if code =? QTRACE_MEMTRACE_STORE_VMA then Some (store_shadow sf_vaddr)
  else if code =? QTRACE_MEMTRACE_STORE_PMA then Some (store_shadow sf_paddr)
  else if code =? QTRACE_MEMTRACE_STORE_MSIZE then Some (store_shadow sf_bsize)
  else if code =? QTRACE_MEMTRACE_STORE_PREOP_VALUE then Some (store_shadow sf_prevalue)
  else if code =? QTRACE_MEMTRACE_STORE_PSTOP_VALUE then Some (store_shadow sf_pstvalue)
  else None.

(** The state of the interpretation loop: the argument words of the context,
    [s->instrument_memory], the operations emitted, and the C locals that
    keep their values from one iteration to the next. *)
Record istate := mkIstate {
  i_args : list Z; i_mem : Z; i_ops : list tcg_op; i_rmsize : Z; i_offset : Z
}.

Definition QTRACE_PREINST (c : InstrumentContext) : bool :=
  c.(ipoint) =? QTRACE_IPOINT_BEFORE.
Definition QTRACE_PSTINST (c : InstrumentContext) : bool :=
  c.(ipoint) =? QTRACE_IPOINT_AFTER.

(** One iteration: the new [idx] and the new state. *)
Definition interpret_arg (pre : bool) (idx : Z) (st : istate) : res (Z * istate) :=
  code ← array_get st.(i_args) idx;
  if code =? QTRACE_REGTRACE_VALUE then
    let idx := idx + 1 in
    regidx ← array_get st.(i_args) idx;
    let '(rmsize, offset) :=
      qtrace_get_register_size_and_offset regidx st.(i_rmsize) st.(i_offset) in
    let ops := if pre then st.(i_ops) ++ [op_qtrace_shadow_register rmsize offset]
               else st.(i_ops) in
    l ← array_set st.(i_args) idx offset;
    Ok (idx + 1, mkIstate l st.(i_mem) ops rmsize offset)
  else match mem_code_offset code with
  | Some ofs =>
      let mem := Z.lor st.(i_mem) code in
      let idx := idx + 1 in
      l ← array_set st.(i_args) idx (u32 ofs);
      Ok (idx + 1, mkIstate l mem st.(i_ops) st.(i_rmsize) st.(i_offset))
  | None =>
      if code =? QTRACE_PROCESS_UPID then
        let idx := idx + 1 in
        l ← array_set st.(i_args) idx (u32 (ofs_cr + 8 * 3));
        Ok (idx + 1, mkIstate l st.(i_mem) st.(i_ops) st.(i_rmsize) st.(i_offset))
      else Ok (idx + 1, st)
  end.

(** [while (idx < ciarg)]: every iteration advances [idx]. *)
Fixpoint interpret_args (fuel : nat) (pre : bool) (ciarg idx : Z) (st : istate)
    : res istate :=
  if idx <? ciarg then
    match fuel with
    | O => Err OutOfFuel
    | S fuel =>
        '(idx, st) ← interpret_arg pre idx st;
        interpret_args fuel pre ciarg idx st
    end
  else Ok st.

(** The QTRACE fields of [DisasContext] and the operations emitted so far. *)
Record DisasContext := mkDisas {
  qtrace_insnflags : Z;
  qtrace_insncb : bool;
  qtrace_verified : bool;
  instrument_memory : Z;      (* unsigned long long *)
  gen_ops : list tcg_op
}.

Definition interpret_icontext (c : InstrumentContext) (d : DisasContext)
    : res (InstrumentContext * DisasContext) :=
  st ← interpret_args (Z.to_nat c.(ciarg)) (QTRACE_PREINST c) c.(ciarg) 0
         (mkIstate c.(iargs) d.(instrument_memory) d.(gen_ops) 0 0);
  Ok (set_iargs c.(ciarg) st.(i_args) c,
      mkDisas d.(qtrace_insnflags) d.(qtrace_insncb) d.(qtrace_verified)
        st.(i_mem) st.(i_ops)).

Definition qtrace_interpret_instrument_requirements (s : qstate) (d : DisasContext)
    : res (qstate * DisasContext) :=
  p ← qtrace_get_current_icontext_list s;
  if p =? NULL then Ok (s, d)
  else
    c ← of_option UseAfterFree (s.(heap) !! p);
    '(c, d) ← interpret_icontext c d;
    Ok (set_heap (<[p := c]> s.(heap)) s, d).

(** QTRACE_INSTRUMENT_RESET_DISASCTX *)
Definition QTRACE_INSTRUMENT_RESET_DISASCTX (d : DisasContext) : DisasContext :=
  mkDisas (QTRACE_RESET_INST_TYPE_FLAG d.(qtrace_insnflags)) d.(qtrace_insncb)
    d.(qtrace_verified) 0 d.(gen_ops).

Definition QTRACE_INSTRUMENT_VERIFIED (d : DisasContext) : DisasContext :=
  mkDisas d.(qtrace_insnflags) d.(qtrace_insncb) true d.(instrument_memory) d.(gen_ops).
Definition QTRACE_INSTRUMENT_UNVERIFIED (d : DisasContext) : DisasContext :=
  mkDisas d.(qtrace_insnflags) d.(qtrace_insncb) false d.(instrument_memory) d.(gen_ops).

(** QTRACE_CLIENT_MODULE: run the plugins' callbacks, then interpret. *)
Definition QTRACE_CLIENT_MODULE (callback : Z -> Z -> qstate -> res qstate)
    (p : plugin_lists) (s : qstate) (d : DisasContext) : res (qstate * DisasContext) :=
  s ← qtrace_invoke_instruction_callback callback p d.(qtrace_insnflags) s;
  let d := mkDisas d.(qtrace_insnflags) true d.(qtrace_verified)
             d.(instrument_memory) d.(gen_ops) in
  qtrace_interpret_instrument_requirements s (QTRACE_INSTRUMENT_UNVERIFIED d).

(** QTRACE_MATERIALIZE_INSTRUCTION_INSTRUMENT *)
Definition QTRACE_MATERIALIZE_INSTRUCTION_INSTRUMENT (s : qstate) (d : DisasContext)
    : res DisasContext :=
  p ← qtrace_get_current_icontext_list s;
  Ok (mkDisas d.(qtrace_insnflags) d.(qtrace_insncb) d.(qtrace_verified)
        d.(instrument_memory) (d.(gen_ops) ++ [op_qtrace_instrumentation p])).

Definition emit (o : tcg_op) (d : DisasContext) : DisasContext :=
  mkDisas d.(qtrace_insnflags) d.(qtrace_insncb) d.(qtrace_verified)
    d.(instrument_memory) (d.(gen_ops) ++ [o]).
End Interpret.

(** ** Guest memory operations *)

(** tcg/tcg.h; on a little-endian host with a little-endian guest MO_TE is 0. *)
Definition MO_8 : Z := 0.
Definition MO_16 : Z := 1.
Definition MO_32 : Z := 2.
Definition MO_64 : Z := 3.
Definition MO_SIZE : Z := 3.
Definition MO_SIGN : Z := 4.
Definition MO_BSWAP : Z := 8.
Definition MO_SSIZE : Z := Z.lor MO_SIZE MO_SIGN.
Definition MO_UB : Z := MO_8.
Definition MO_UW : Z := MO_16.
Definition MO_UL : Z := MO_32.
Definition MO_SB : Z := Z.lor MO_SIGN MO_8.
Definition MO_SW : Z := Z.lor MO_SIGN MO_16.
Definition MO_SL : Z := Z.lor MO_SIGN MO_32.
Definition MO_Q : Z := MO_64.

(** tcg/tcg.c, for 64-bit values ([is64] is true). *)
Definition tcg_canonicalize_memop (op : Z) (st : bool) : Z :=
  let op := if Z.land op MO_SIZE =? MO_8 then Z.land op (Z.lnot MO_BSWAP) else op in
  if st then Z.land op (Z.lnot MO_SIGN) else op.

Definition tcg_gen_qemu_ld_i64 (val addr idx memop : Z) (d : DisasContext) : DisasContext :=
  emit (op_qemu_ld_i64 val addr (tcg_canonicalize_memop memop false) idx) d.
Definition tcg_gen_qemu_st_i64 (val addr idx memop : Z) (d : DisasContext) : DisasContext :=
  emit (op_qemu_st_i64 val addr (tcg_canonicalize_memop memop true) idx) d.

(** Operand sizes of the translator. *)
Definition OT_BYTE : Z := 0.
Definition OT_WORD : Z := 1.
Definition OT_LONG : Z := 2.

(** The [idx] operand: the MMU index with the requests of this instruction. *)
Definition traced_index (idx : Z) (d : DisasContext) : Z :=
  QTRACE_ADD_MEMTRACE (Z.shiftr idx 2 - 1) (u32 d.(instrument_memory)).

Definition gen_op_lds_T0_A0 (t0 a0 idx : Z) (d : DisasContext) : DisasContext :=
  let ot := Z.land idx 3 in
  let memop := if ot =? OT_BYTE then MO_SB else if ot =? OT_WORD then MO_SW else MO_SL in
  tcg_gen_qemu_ld_i64 t0 a0 (traced_index idx d) memop d.

Definition gen_op_ld_v (idx t0 a0 : Z) (d : DisasContext) : DisasContext :=
  let ot := Z.land idx 3 in
  let memop := if ot =? OT_BYTE then MO_UB else if ot =? OT_WORD then MO_UW
               else if ot =? OT_LONG then MO_UL else MO_Q in
  tcg_gen_qemu_ld_i64 t0 a0 (traced_index idx d) memop d.

Definition gen_op_st_v (idx t0 a0 : Z) (d : DisasContext) : DisasContext :=
  let ot := Z.land idx 3 in
  let memop := if ot =? OT_BYTE then MO_UB else if ot =? OT_WORD then MO_UW
               else if ot =? OT_LONG then MO_UL else MO_Q in
  tcg_gen_qemu_st_i64 t0 a0 (traced_index idx d) memop d.

(** ** The parameters of an instrumentation function

    What a plugin asks for is a list of parameters: the value of a register or
    a property of the instruction's memory access. *)

Inductive param := PReg (r : Z) | PMem (code : Z).

(** The fields that values are asked for. *)
Inductive cpu_field :=
  | GeneralRegister (i : nat) | InstructionPointer | ControlRegister (i : nat) | TimeStampCounter
  | FetchShadow (f : shadow_field) | StoreShadow (f : shadow_field).

(** The registers in the order of their numbers: RAX to R15, RIP, CR0 to CR4, TSC. *)
Definition register_fields : list cpu_field :=
  (GeneralRegister <$> seq 0 16) ++ [InstructionPointer] ++ (ControlRegister <$> seq 0 5) ++ [TimeStampCounter].

(** What the memory requests ask for. *)
Definition memory_fields : list (Z * cpu_field) :=
  [(QTRACE_MEMTRACE_FETCH_VMA, FetchShadow sf_vaddr);
   (QTRACE_MEMTRACE_FETCH_PMA, FetchShadow sf_paddr);
   (QTRACE_MEMTRACE_FETCH_MSIZE, FetchShadow sf_bsize);
   (QTRACE_MEMTRACE_FETCH_PREOP_VALUE, FetchShadow sf_prevalue);
   (QTRACE_MEMTRACE_FETCH_PSTOP_VALUE, FetchShadow sf_pstvalue);
   (QTRACE_MEMTRACE_STORE_VMA, StoreShadow sf_vaddr);
   (QTRACE_MEMTRACE_STORE_PMA, StoreShadow sf_paddr);
   (QTRACE_MEMTRACE_STORE_MSIZE, StoreShadow sf_bsize);
   (QTRACE_MEMTRACE_STORE_PREOP_VALUE, StoreShadow sf_prevalue);
   (QTRACE_MEMTRACE_STORE_PSTOP_VALUE, StoreShadow sf_pstvalue)].
Definition find_code (code : Z) (l : list (Z * cpu_field)) : option (Z * cpu_field) :=
  List.find (fun x => bool_decide (x.1 = code)) l.

Section Params.
Context `{L : CPULayout}.

(** The members of an array of 64-bit words follow each other. *)
Definition field_offset (f : cpu_field) : Z :=
  match f with
  | GeneralRegister i => ofs_regs + 8 * Z.of_nat i
  | InstructionPointer => ofs_eip
  | ControlRegister i => ofs_cr + 8 * Z.of_nat i
  | TimeStampCounter => ofs_tsc
  | FetchShadow f => ofs_fetch_shadow + shadow_field_ofs f
  | StoreShadow f => ofs_store_shadow + shadow_field_ofs f
  end.

(** The two words of a parameter after parsing and after interpretation. *)
Definition param_words (p : param) : list Z :=
  match p with
  | PReg r => [QTRACE_REGTRACE_VALUE; r]
  | PMem code => [code; 0]
  end.

(** The field of [CPUX86State] that holds what a parameter asks for, by the
    numbers of qtrace-target.h and the request codes of qtrace-opts.h. *)
Definition param_field (p : param) : option cpu_field :=
  match p with
  | PReg r => if decide (0 <= r) then register_fields !! Z.to_nat r else None
  | PMem code => snd <$> find_code code memory_fields
  end.

(** The offset of that field, as an [unsigned]. *)
Definition param_offset (p : param) : Z := u32 (default 0 (field_offset <$> param_field p)).

Definition param_code (p : param) : Z :=
  match p with PReg _ => QTRACE_REGTRACE_VALUE | PMem code => code end.
Definition param_resolved (p : param) : list Z := [param_code p; param_offset p].
Definition param_mem (p : param) : Z := match p with PReg _ => 0 | PMem code => code end.

Definition param_shadow (p : param) : list tcg_op :=
  match p with
  | PReg r => [op_qtrace_shadow_register 64 (param_offset p)]
  | PMem _ => []
  end.

Definition param_ok (p : param) : Prop := is_Some (param_field p).

(** The functions of the translator find the fields. *)
Lemma get_register_known r a b :
  param_ok (PReg r) -> qtrace_get_register_size_and_offset r a b = (64, param_offset (PReg r)).
Proof.
  intros [f Hf]. unfold param_offset. rewrite Hf. cbn [param_field] in Hf. case_decide as H0; [|done].
  pose proof (lookup_lt_Some _ _ _ Hf) as Hl. cbn in Hl.
  assert (exists n, r = Z.of_nat n /\ (n < 23)%nat) as (n & -> & Hn) by (exists (Z.to_nat r); lia).
  rewrite Nat2Z.id in Hf. do 23 (destruct n as [|n]; [cbn in Hf; injection Hf as <-; cbn; do 2 f_equal; lia|]). lia.
Qed.

Lemma mem_code_known code :
  mem_code_offset code = field_offset <$> param_field (PMem code).
Proof.
  unfold mem_code_offset, param_field, find_code, memory_fields. cbn [List.find fst].
  repeat (case_bool_decide as E; [subst code; vm_compute; reflexivity|apply not_eq_sym, Z.eqb_neq in E; rewrite E; clear E]).
  done.
Qed.

Lemma interpret_arg_param pre p dn rest st :
  param_ok p -> st.(i_args) = dn ++ param_words p ++ rest ->
  exists rm ofs,
  interpret_arg pre (Z.of_nat (length dn)) st =
    Ok (Z.of_nat (length dn) + 2,
        mkIstate (dn ++ param_resolved p ++ rest)
          (Z.lor st.(i_mem) (param_mem p))
          (st.(i_ops) ++ if pre then param_shadow p else []) rm ofs).
Proof.
  intros Hok Ha. unfold interpret_arg. rewrite Ha.
  assert (forall w0 w1 w, array_set (dn ++ [w0; w1] ++ rest) (Z.of_nat (length dn) + 1) w
            = Ok (dn ++ [w0; w] ++ rest)) as Hset.
  { intros. replace (Z.of_nat (length dn) + 1) with (Z.of_nat (length dn + 1)) by lia.
    rewrite array_set_Ok by (rewrite length_app; cbn; lia).
    rewrite insert_app_r_alt by lia.
    by replace (length dn + 1 - length dn)%nat with 1%nat by lia. }
  assert (forall w0 w1, array_get (dn ++ [w0; w1] ++ rest) (Z.of_nat (length dn)) = Ok w0)
    as Hget0.
  { intros. apply array_get_Ok. by rewrite lookup_app_r, Nat.sub_diag. }
  assert (forall w0 w1, array_get (dn ++ [w0; w1] ++ rest) (Z.of_nat (length dn) + 1) = Ok w1)
    as Hget1.
  { intros. replace (Z.of_nat (length dn) + 1) with (Z.of_nat (length dn + 1)) by lia.
    apply array_get_Ok. rewrite lookup_app_r by lia.
    by replace (length dn + 1 - length dn)%nat with 1%nat by lia. }
  destruct p as [r|code]; cbn [param_words] in *.
  - rewrite Hget0. cbn [mbind res_bind]. rewrite Z.eqb_refl, Hget1. cbn [mbind res_bind].
    rewrite get_register_known by done. rewrite Hset. cbn [mbind res_bind].
    do 2 eexists. do 2 f_equal; [lia|]. cbn. rewrite Z.lor_0_r.
    destruct pre; by rewrite ?app_nil_r.
  - rewrite Hget0. cbn [mbind res_bind]. destruct Hok as [ofs Hofs].
    destruct (Z.eqb_spec code QTRACE_REGTRACE_VALUE) as [->|_]; [by vm_compute in Hofs|].
    rewrite mem_code_known, Hofs. cbn [fmap option_fmap option_map]. rewrite Hset. cbn [mbind res_bind]. do 2 eexists. do 2 f_equal; [lia|].
    unfold param_resolved, param_offset. rewrite Hofs; cbn. destruct pre; by rewrite app_nil_r.
Qed.

(** The loop over parameters, followed by other words or not. *)
Lemma interpret_args_prefix pre ps dn rest fuel n st :
  Forall param_ok ps -> st.(i_args) = dn ++ flat_map param_words ps ++ rest ->
  Z.of_nat (length dn + 2 * length ps) <= n ->
  exists rm ofs,
  interpret_args (length ps + fuel) pre n (Z.of_nat (length dn)) st =
    interpret_args fuel pre n (Z.of_nat (length dn + 2 * length ps))
      (mkIstate (dn ++ flat_map param_resolved ps ++ rest)
          (foldl Z.lor st.(i_mem) (param_mem <$> ps))
          (st.(i_ops) ++ if pre then flat_map param_shadow ps else []) rm ofs).
Proof.
  revert dn st. induction ps as [|p ps IH]; intros dn st Hok Ha Hn.
  { exists st.(i_rmsize), st.(i_offset). cbn in *. rewrite Nat.add_0_r. destruct st as [a m o r k]; cbn in *. subst a.
    destruct pre; by rewrite app_nil_r. }
  inversion_clear Hok as [|? ? Hp Hps]. cbn [length] in Hn. cbn [flat_map] in Ha |- *. cbn [length Nat.add interpret_args].
  rewrite (proj2 (Z.ltb_lt _ _)) by lia. rewrite <- app_assoc in Ha.
  destruct (interpret_arg_param pre p dn (flat_map param_words ps ++ rest) st Hp Ha)
    as (rm & ofs & ->). cbn [mbind res_bind].
  destruct (IH (dn ++ param_resolved p)
              (mkIstate (dn ++ param_resolved p ++ flat_map param_words ps ++ rest)
                 (Z.lor st.(i_mem) (param_mem p))
                 (st.(i_ops) ++ if pre then param_shadow p else []) rm ofs))
    as (rm' & ofs' & E); [done|cbn; by rewrite <- app_assoc|rewrite length_app; cbn; lia|].
  exists rm', ofs'.
  replace (Z.of_nat (length (dn ++ param_resolved p))) with (Z.of_nat (length dn) + 2)
    in E by (rewrite length_app; cbn; lia).
  rewrite E. rewrite length_app. cbn [length param_resolved i_mem i_ops fmap list_fmap foldl]. rewrite <- !app_assoc.
  replace (length dn + 2 + 2 * length ps)%nat with (length dn + 2 * S (length ps))%nat by lia.
  destruct pre; by rewrite ?app_nil_r, <- ?app_assoc.
Qed.

Lemma interpret_args_done fuel pre n st : interpret_args fuel pre n n st = Ok st.
Proof. destruct fuel; cbn; by rewrite Z.ltb_irrefl. Qed.

(** The parameters that a request list asks for; [point] is the insertion point
    in force, which selects the value before or after the access. *)
Fixpoint params (point : Z) (rs : list request) : list param :=
  match rs with
  | [] => []
  | ReqPoint b :: rs => params (point_code b) rs
  | ReqMem code :: rs => PMem code :: params point rs
  | ReqReg r :: rs => PReg r :: params point rs
  | ReqFetchValue :: rs =>
      PMem (value_request point QTRACE_MEMTRACE_FETCH_PREOP_VALUE QTRACE_MEMTRACE_FETCH_PSTOP_VALUE) :: params point rs
  | ReqStoreValue :: rs =>
      PMem (value_request point QTRACE_MEMTRACE_STORE_PREOP_VALUE QTRACE_MEMTRACE_STORE_PSTOP_VALUE) :: params point rs
  | _ :: rs => params point rs
  end.

(** The requests that the interpreter resolves. *)
Definition resolvable (r : request) : Prop :=
  match r with
  | ReqMem code => param_ok (PMem code)
  | ReqReg r => param_ok (PReg r)
  | ReqUpid | ReqOther _ => False
  | _ => True
  end.

Lemma value_request_ok point :
  param_ok (PMem (value_request point QTRACE_MEMTRACE_FETCH_PREOP_VALUE QTRACE_MEMTRACE_FETCH_PSTOP_VALUE)) /\
  param_ok (PMem (value_request point QTRACE_MEMTRACE_STORE_PREOP_VALUE QTRACE_MEMTRACE_STORE_PSTOP_VALUE)).
Proof. unfold value_request. case_decide; by split; eexists. Qed.

Lemma params_ok point rs : Forall resolvable rs -> Forall param_ok (params point rs).
Proof.
  intros H. revert point. induction H as [|r rs Hr _ IH]; intros point; [by constructor|].
  destruct (value_request_ok point).
  destruct r; cbn in *; try done; try apply IH; by constructor.
Qed.

Lemma run_requests_params a rs :
  Forall resolvable rs ->
  let ps := params a.(a_point) rs in
  (run_requests a rs).(a_args) = a.(a_args) ++ flat_map param_words ps /\
  (run_requests a rs).(a_mem) = foldl Z.lor a.(a_mem) (param_mem <$> ps).
Proof.
  intros H. revert a. induction H as [|r rs Hr _ IH]; intros a; cbn.
  { by rewrite app_nil_r. }
  change (foldl run_request (run_request a r) rs) with (run_requests (run_request a r) rs).
  destruct (IH (run_request a r)) as [-> ->].
  destruct r; cbn in *; try done; by rewrite ?Z.lor_0_r, <- ?app_assoc.
Qed.

Lemma foldl_lor_acc m l : foldl Z.lor m l = Z.lor m (foldl Z.lor 0 l).
Proof.
  revert m. induction l as [|x l IH]; intros m; cbn [foldl];
    [by rewrite Z.lor_0_r|].
  rewrite Z.lor_0_l, IH, (IH x). by rewrite Z.lor_assoc.
Qed.

Lemma length_param_words ps : length (flat_map param_words ps) = (2 * length ps)%nat.
Proof. induction ps as [|p ps IH]; [done|]. destruct p; cbn; rewrite IH; lia. Qed.

Lemma length_param_resolved ps : length (flat_map param_resolved ps) = (2 * length ps)%nat.
Proof. induction ps as [|p ps IH]; [done|]. cbn. rewrite IH. lia. Qed.

(** Interpreting a context that holds a resolvable request list. *)
Lemma interpret_icontext_spec rs c d :
  Forall resolvable rs -> refines (run_requests actx0 rs) c ->
  exists c' d' k, interpret_icontext c d = Ok (c', d') /\
    c' = set_iargs c.(ciarg) (flat_map param_resolved (params 0 rs) ++ replicate k 0) c /\
    d'.(instrument_memory)
      = Z.lor d.(instrument_memory) (run_requests actx0 rs).(a_mem) /\
    d'.(gen_ops) = d.(gen_ops) ++
      (if QTRACE_PREINST c then flat_map param_shadow (params 0 rs) else []) /\
    d'.(qtrace_insnflags) = d.(qtrace_insnflags).
Proof.
  intros Hrs [Hp Hf Hn (k & Hl & Hk) Hm].
  destruct (run_requests_params actx0 rs Hrs) as [Ea Em]. cbn in Ea, Em.
  rewrite Ea in *. rewrite Em.
  pose proof (params_ok 0 rs Hrs) as Hok. set (ps := params 0 rs) in *.
  unfold interpret_icontext.
  assert (Z.to_nat c.(ciarg) = length ps + length ps)%nat as -> by (rewrite Hn, length_param_words; lia).
  destruct (interpret_args_prefix (QTRACE_PREINST c) ps [] (replicate k 0) (length ps) c.(ciarg)
              (mkIstate c.(iargs) d.(instrument_memory) d.(gen_ops) 0 0))
    as (rm & ofs & E); [done|done|rewrite Hn, length_param_words; cbn; lia|].
  cbn [length app Nat.add] in E. change (Z.of_nat 0) with 0 in E. rewrite E.
  replace c.(ciarg) with (Z.of_nat (2 * length ps)) by (rewrite Hn, length_param_words; lia).
  rewrite interpret_args_done. cbn [mbind res_bind].
  do 3 eexists. split; [done|]. cbn. split_and!; try done. apply foldl_lor_acc.
Qed.

(** QTRACE_PROCESS_UPID is parsed to one word, but the interpreter writes the
    offset of CR3 to the word after it. *)
Lemma interpret_upid fuel pre dn w rest st n :
  st.(i_args) = dn ++ QTRACE_PROCESS_UPID :: w :: rest -> Z.of_nat (length dn) < n ->
  interpret_args (S fuel) pre n (Z.of_nat (length dn)) st =
    interpret_args fuel pre n (Z.of_nat (length dn) + 2)
      (mkIstate (dn ++ QTRACE_PROCESS_UPID :: u32 (ofs_cr + 8 * 3) :: rest) st.(i_mem) st.(i_ops) st.(i_rmsize) st.(i_offset)).
Proof.
  intros Ha Hn. cbn [interpret_args]. rewrite (proj2 (Z.ltb_lt _ _)) by lia. unfold interpret_arg. rewrite Ha.
  rewrite (array_get_Ok _ _ QTRACE_PROCESS_UPID) by (by rewrite lookup_app_r, Nat.sub_diag).
  replace (Z.of_nat (length dn) + 1) with (Z.of_nat (length dn + 1)) by lia. cbn [mbind res_bind].
  change (QTRACE_PROCESS_UPID =? QTRACE_REGTRACE_VALUE) with false. change (mem_code_offset QTRACE_PROCESS_UPID) with (@None Z).
  rewrite Z.eqb_refl, array_set_Ok by (rewrite length_app; cbn; lia). cbn [mbind res_bind].
  rewrite insert_app_r_alt by lia. replace (length dn + 1 - length dn)%nat with 1%nat by lia.
  by replace (Z.of_nat (length dn + 1) + 1) with (Z.of_nat (length dn) + 2) by lia.
Qed.

(** A word of zeros is no request. *)
Lemma interpret_zero fuel pre dn rest st n i :
  st.(i_args) = dn ++ 0 :: rest -> i = Z.of_nat (length dn) -> i < n ->
  interpret_args (S fuel) pre n i st = interpret_args fuel pre n (i + 1) st.
Proof.
  intros Ha -> Hn. cbn [interpret_args]. rewrite (proj2 (Z.ltb_lt _ _)) by lia. unfold interpret_arg. rewrite Ha.
  by rewrite (array_get_Ok _ _ 0) by (by rewrite lookup_app_r, Nat.sub_diag).
Qed.

(** The newest context of the current instruction. *)
Lemma current_context s ls a x l :
  root_inv s (ls ++ [(a, x) :: l]) ->
  qtrace_get_current_icontext_list s = Ok a /\
  exists c, s.(heap) !! a = Some c /\ refines x c /\ a <> NULL.
Proof.
  intros [Ha Hc Hm Hl _ _]. rewrite length_app in Hc; cbn in Hc.
  destruct (Hl (length ls) ((a, x) :: l)) as (p & Hp & Hh).
  { by rewrite lookup_app_r, Nat.sub_diag. }
  cbn in Hh. destruct Hh as (-> & Hnz & c & Hx & Hr & _).
  split; [|by exists c]. unfold qtrace_get_current_icontext_list.
  unfold MAX_ICONTEXT_ROOT, CF_COUNT_MASK in *.
  destruct (Z.eqb_spec s.(rootcount) 0); [lia|].
  replace (s.(rootcount) - 1) with (Z.of_nat (length ls)) by lia.
  rewrite wrap_id by (unfold in_u; lia). by apply array_get_Ok.
Qed.

(** Every bit that a request list can set is below bit 17. *)
Lemma params_mem_range ps : Forall param_ok ps -> in_u 29 (foldl Z.lor 0 (param_mem <$> ps)).
Proof.
  intros H. induction H as [|p ps Hp _ IH]; [unfold in_u; cbn; lia|].
  cbn [fmap list_fmap foldl]. rewrite Z.lor_0_l, foldl_lor_acc. apply lor_in_u; [lia| |done].
  destruct p as [r|code]; [unfold in_u; cbn; lia|]. destruct Hp as [f Hf]. cbn [param_mem]. cbn [param_field] in Hf.
  unfold find_code, memory_fields in Hf. cbn [List.find fst] in Hf.
  repeat (case_bool_decide as E; [subst code; split; [discriminate|reflexivity]|clear E]). done.
Qed.

(** The calls of an instruction put the context of the last one in front. *)
Lemma parser_calls_newest older rs s ls :
  Forall call_ok (older ++ [rs]) -> root_inv s ls -> s.(last_uiid) <> s.(uiid) ->
  s.(rootcount) + 1 < MAX_ICONTEXT_ROOT ->
  exists s' a l, parser_calls (older ++ [rs]) s = Ok s' /\
    root_inv s' (ls ++ [(a, run_requests actx0 rs) :: l]) /\ l.*2 = insn_contexts older.
Proof.
  intros Hok Hinv Hu Hroom. destruct older as [|r0 older]; inversion_clear Hok as [|? ? H0 Hrs].
  { destruct (parser_call_first rs s ls H0 Hinv Hu Hroom) as (s1 & a & E & I1 & _).
    exists s1, a, []. cbn. by rewrite E. }
  destruct (parser_call_first r0 s ls H0 Hinv Hu Hroom) as (s1 & a & E1 & I1 & U1 & V1).
  destruct (parser_calls_again (older ++ [rs]) s1 ls _ Hrs I1) as (s2 & l2 & E2 & I2 & C2 & _); [congruence|].
  rewrite insn_contexts_cons. unfold insn_contexts in C2 |- *. rewrite fmap_app, reverse_app in C2. cbn in C2.
  destruct l2 as [|[b x] l2]; cbn in C2; [discriminate C2|]. injection C2 as -> C2.
  exists s2, b, l2. cbn [app parser_calls]. rewrite E1. cbn [mbind res_bind]. by rewrite E2.
Qed.


(** A request for the process id in front of a request for memory.  The parser
    reserves one word for it, the interpreter uses two: the code of the next request is
    overwritten with the offset of CR3, and its bit does not reach the memory
    operations, although the context says that it is asked for. *)
Theorem upid_erases_request (rs : list request) (code : Z) (c : InstrumentContext) (d : DisasContext) :
  Forall resolvable rs -> param_ok (PMem code) ->
  refines (run_requests actx0 (rs ++ [ReqUpid; ReqMem code])) c ->
  exists c' d' k, interpret_icontext c d = Ok (c', d') /\
    c.(iargs) = flat_map param_words (params 0 rs) ++ [QTRACE_PROCESS_UPID; code; 0] ++ replicate k 0 /\
    c'.(iargs) = flat_map param_resolved (params 0 rs) ++ [QTRACE_PROCESS_UPID; u32 (ofs_cr + 8 * 3); 0] ++ replicate k 0 /\
    d'.(instrument_memory) = Z.lor d.(instrument_memory) (run_requests actx0 rs).(a_mem) /\
    c.(memfext) = Z.lor (run_requests actx0 rs).(a_mem) code.
Proof.
  intros Hrs Hcode [Hp Hf Hn (k & Hl & Hk) Hm]. unfold run_requests in *. rewrite foldl_app in *.
  fold (run_requests actx0 rs) in *. destruct (run_requests_params actx0 rs Hrs) as [Ea Em].
  cbn [foldl run_request a_args a_mem actx0 a_point app] in *. rewrite Ea, <- !app_assoc in *. cbn [app] in *.
  pose proof (params_ok 0 rs Hrs) as Hok. set (ps := params 0 rs) in *. rewrite length_app, length_param_words in Hn. cbn [length] in Hn.
  unfold interpret_icontext. assert (Z.to_nat c.(ciarg) = length ps + S (S (S (length ps))))%nat as -> by lia.
  destruct (interpret_args_prefix (QTRACE_PREINST c) ps [] (QTRACE_PROCESS_UPID :: code :: 0 :: replicate k 0) (S (S (S (length ps)))) c.(ciarg)
              (mkIstate c.(iargs) d.(instrument_memory) d.(gen_ops) 0 0))
    as (rm & ofs & E); [done|by rewrite Hl|cbn; lia|].
  cbn [length app Nat.add] in E. change (Z.of_nat 0) with 0 in E. rewrite E.
  assert (length (flat_map param_resolved ps) = 2 * length ps)%nat as Hlr by apply length_param_resolved.
  rewrite <- Hlr, (interpret_upid _ _ _ code (0 :: replicate k 0)) by (cbn; done || lia).
  rewrite (interpret_zero _ _ (flat_map param_resolved ps ++ [QTRACE_PROCESS_UPID; u32 (ofs_cr + 8 * 3)]) (replicate k 0));
    [|cbn; by rewrite <- app_assoc|rewrite length_app; cbn; lia|lia].
  rewrite <- Z.add_assoc.
  replace c.(ciarg) with (Z.of_nat (length (flat_map param_resolved ps)) + 3) by lia.
  rewrite interpret_args_done. cbn [mbind res_bind].
  do 3 eexists. split; [done|]. cbn [set_iargs iargs instrument_memory i_mem i_args]. split_and!; try done.
  rewrite Em. apply foldl_lor_acc.
Qed.
End Params.

(** A layout to evaluate the definitions with. *)
#[export] Instance demo_layout : CPULayout := {
  ofs_regs := 0; ofs_eip := 128; ofs_cr := 1400; ofs_tsc := 1600;
  ofs_shadowcpu_offset := 40000; ofs_fetch_shadow := 40016; ofs_store_shadow := 40056;
  ofs_tlb_table := 1808
}.

Definition demo_requests : list request :=
  [ReqFun 0x401000; ReqPoint true; ReqMem QTRACE_MEMTRACE_FETCH_VMA; ReqReg 3;
   ReqFetchValue].

Definition demo_older : list request := [ReqFun 0x402000; ReqReg 17].
Lemma demo_calls_ok : Forall call_ok [demo_older; demo_requests].
Proof. repeat constructor; vm_compute; lia || done. Qed.
Lemma demo_resolvable : Forall resolvable demo_requests.
Proof. repeat constructor; by eexists. Qed.


Lemma upid_erases_request_witness : exists c c' d' k,
  parse_args 4 (slots [ReqReg 3; ReqUpid; ReqMem QTRACE_MEMTRACE_FETCH_VMA]) zero_icontext = Ok c /\
  interpret_icontext c (mkDisas 0 true false 0 []) = Ok (c', d') /\
  c.(iargs) = flat_map param_words [PReg 3] ++ [QTRACE_PROCESS_UPID; QTRACE_MEMTRACE_FETCH_VMA; 0] ++ replicate k 0 /\
  c'.(iargs) = flat_map param_resolved [PReg 3] ++ [QTRACE_PROCESS_UPID; u32 (ofs_cr + 8 * 3); 0] ++ replicate k 0 /\
  d'.(instrument_memory) = Z.lor 0 0 /\ c.(memfext) = Z.lor 0 QTRACE_MEMTRACE_FETCH_VMA.
Proof.
  destruct (parse_args_requests [ReqReg 3; ReqUpid; ReqMem QTRACE_MEMTRACE_FETCH_VMA] actx0 _ 0 [] (refines_zero 0))
    as (c & E & R & _); [constructor; [by vm_compute|by do 2 (constructor; [done|])]|by apply Nat.leb_le|].
  exists c. destruct (upid_erases_request [ReqReg 3] QTRACE_MEMTRACE_FETCH_VMA c (mkDisas 0 true false 0 []))
    as (c' & d' & k & H); [by repeat constructor; eexists|by eexists|exact R|].
  exists c', d', k. exact (conj E H).
Defined.

(** ** Contexts that are not resolved *)

(** Only the newest context of an instruction is interpreted: every other one
    keeps its unresolved words. *)
Lemma interpret_newest_only `{CPULayout} s d s' d' a b :
  qtrace_interpret_instrument_requirements s d = Ok (s', d') ->
  qtrace_get_current_icontext_list s = Ok a -> b <> a ->
  s'.(heap) !! b = s.(heap) !! b.
Proof.
  unfold qtrace_interpret_instrument_requirements. intros E Ea Hne. rewrite Ea in E.
  cbn [mbind res_bind] in E. destruct (Z.eqb_spec a NULL); [congruence|].
  apply bind_Ok in E as (c & _ & E). apply bind_Ok in E as ([c' d2] & _ & E).
  injection E as <- _. by apply lookup_insert_ne.
Qed.
