(* ===== verification/X86.v ===== *)
(** * The host machine: a subset of x86-64

    The instructions that tcg/i386/tcg-target.c emits, as a decoder from bytes
    and an execution function.  The decoder is written from the architecture's
    encoding rules (legacy prefixes, REX, opcode, ModRM, SIB, displacement,
    immediate), independently of the emitters of [TcgOut], whose theorems relate
    the two.  Flags that an instruction leaves undefined, or that the model does
    not compute, are [None]; an instruction that depends on one of them does not
    execute. *)

From S2P Require Import Prelude.

(** ** Instructions *)

(** [W8H] is the second byte (%ah, %ch, %dh, %bh) of registers 0 to 3. *)
Inductive width := W8 | W8H | W16 | W32 | W64.

Definition wbits (w : width) : Z :=
  match w with W8 | W8H => 8 | W16 => 16 | W32 => 32 | W64 => 64 end.
Definition wbytes (w : width) : nat :=
  match w with W8 | W8H => 1 | W16 => 2 | W32 => 4 | W64 => 8 end.

Inductive aop := Add | Or | Adc | Sbb | And | Sub | Xor | Cmp.
Inductive sop := Rol | Ror | Shl | Shr | Sar.

(** A register or memory operand; the index comes with its shift. *)
Inductive ea :=
  | EReg (r : Z)
  | EMem (base : option Z) (index : option (Z * Z)) (disp : Z)
  | ERip (disp : Z).

Inductive instr :=
  | IArithRM (op : aop) (w : width) (r : Z) (e : ea)       (* r op= e *)
  | IArithI (op : aop) (w : width) (e : ea) (imm : Z)
  | ITest (w : width) (e : ea) (r : Z)
  | IMovRM (w : width) (r : Z) (e : ea)                    (* r := e *)
  | IMovMR (w : width) (e : ea) (r : Z)                    (* e := r *)
  | IMovMI (w : width) (e : ea) (imm : Z)
  | IMovI (w : width) (r : Z) (imm : Z)
  | ILea (w : width) (r : Z) (e : ea)
  | IMovzx (from : width) (r : Z) (e : ea)
  | IMovsx (to from : width) (r : Z) (e : ea)
  | IShift (op : sop) (w : width) (e : ea) (count : option Z)  (* None: %cl *)
  | IBswap (w : width) (r : Z)
  | IInc (w : width) (e : ea)
  | IDec (w : width) (e : ea)
  | INot (w : width) (e : ea)
  | INeg (w : width) (e : ea)
  | IMul2 (signed : bool) (w : width) (e : ea)             (* rdx:rax := rax * e *)
  | IDiv2 (signed : bool) (w : width) (e : ea)
  | IImul (w : width) (r : Z) (e : ea)
  | IImulI (w : width) (r : Z) (e : ea) (imm : Z)
  | ISetcc (cc : Z) (w : width) (e : ea)
  | ICmov (cc : Z) (w : width) (r : Z) (e : ea)
  | IPush (r : Z)
  | IPop (r : Z)
  | IPushI (imm : Z)
  | IJcc (cc : Z) (rel : Z)
  | IJmp (rel : Z)
  | ICall (rel : Z)
  | IJmpE (e : ea)
  | ICallE (e : ea)
  | IRet.

(** ** Decoding *)

(** Prefixes and opcode of an instruction. *)
Record head := mkHead {
  h_data16 : bool;       (* 66 *)
  h_rex : bool;          (* a REX prefix is present *)
  h_w : bool; h_r : bool; h_x : bool; h_b : bool;
  h_ext : bool;          (* 0F escape *)
  h_op : Z
}.

Definition dec_opcode (d16 rex : bool) (rx : Z) (l : list Z) : option (head * list Z) :=
  let mk := mkHead d16 rex (Z.testbit rx 3) (Z.testbit rx 2) (Z.testbit rx 1)
              (Z.testbit rx 0) in
  match l with
  | b :: l =>
      if b =? 0x0f then
        match l with b :: l => Some (mk true b, l) | [] => None end
      else Some (mk false b, l)
  | [] => None
  end.

(** A REX prefix comes directly before the opcode. *)
Definition dec_rex (d16 : bool) (l : list Z) : option (head * list Z) :=
  match l with
  | b :: l' =>
      if Z.shiftr b 4 =? 4 then dec_opcode d16 true b l' else dec_opcode d16 false 0 l
  | [] => None
  end.

Definition dec_head (l : list Z) : option (head * list Z) :=
  match l with
  | b :: l' => if b =? 0x66 then dec_rex true l' else dec_rex false l
  | [] => None
  end.

(** The r/m operand without its displacement: a register, or a memory operand
    with the size of the displacement that follows. *)
Inductive rmform :=
  | RmReg (r : Z)
  | RmMem (base : option Z) (index : option (Z * Z)) (dsize : nat)
  | RmRip.

Definition bit8 (b : bool) (r : Z) : Z := if b then r + 8 else r.

Definition dec_modrm (h : head) (l : list Z) : option (Z * rmform * list Z) :=
  match l with
  | [] => None
  | m :: l =>
      let md := Z.shiftr m 6 in
      let reg := bit8 h.(h_r) (Z.land (Z.shiftr m 3) 7) in
      let rm := Z.land m 7 in
      let dsize := if md =? 0 then 0%nat else if md =? 1 then 1%nat else 4%nat in
      if md =? 3 then Some (reg, RmReg (bit8 h.(h_b) rm), l)
      else if rm =? 4 then
        match l with
        | [] => None
        | sib :: l =>
            let index := bit8 h.(h_x) (Z.land (Z.shiftr sib 3) 7) in
            let idx := if index =? 4 then None else Some (index, Z.shiftr sib 6) in
            let low := Z.land sib 7 in
            if (md =? 0) && (low =? 5) then Some (reg, RmMem None idx 4, l)
            else Some (reg, RmMem (Some (bit8 h.(h_b) low)) idx dsize, l)
        end
      else if (md =? 0) && (rm =? 5) then Some (reg, RmRip, l)
      else Some (reg, RmMem (Some (bit8 h.(h_b) rm)) None dsize, l)
  end.

(** A little-endian signed number of [n] bytes. *)
Definition dec_num (n : nat) (l : list Z) : option (Z * list Z) :=
  if (n <=? length l)%nat then
    Some (swrap (8 * Z.of_nat n) (of_bytes_le (take n l)), drop n l)
  else None.

Definition dec_ea (f : rmform) (l : list Z) : option (ea * list Z) :=
  match f with
  | RmReg r => Some (EReg r, l)
  | RmMem b i O => Some (EMem b i 0, l)
  | RmMem b i n => '(d, l) ← dec_num n l; Some (EMem b i d, l)
  | RmRip => '(d, l) ← dec_num 4 l; Some (ERip d, l)
  end.

(** The r/m instructions: how many immediate bytes follow, and the instruction. *)
Definition opwidth (h : head) : width :=
  if h.(h_w) then W64 else if h.(h_data16) then W16 else W32.

(** Without a REX prefix byte registers 4 to 7 are the high bytes. *)
Definition bytereg (h : head) (r : Z) : width * Z :=
  if negb h.(h_rex) && (4 <=? r) then (W8H, r - 4) else (W8, r).
Definition byteea (h : head) (e : ea) : width * ea :=
  match e with EReg r => let '(w, r) := bytereg h r in (w, EReg r) | _ => (W8, e) end.

Definition arith_op (n : Z) : option aop :=
  [Add; Or; Adc; Sbb; And; Sub; Xor; Cmp] !! Z.to_nat n.
Definition shift_op (n : Z) : option sop :=
  match n with
  | 0 => Some Rol | 1 => Some Ror | 4 => Some Shl | 5 => Some Shr | 7 => Some Sar
  | _ => None
  end.

Definition imm_size (h : head) : nat :=
  if h.(h_ext) then 0%nat else
  match h.(h_op) with
  | 0x83 | 0xc1 | 0xc6 | 0x6b => 1%nat
  | 0x81 | 0xc7 | 0x69 => if h.(h_data16) then 2%nat else 4%nat
  | _ => 0%nat
  end.

Definition mk_modrm (h : head) (reg : Z) (e : ea) (imm : Z) : option instr :=
  let w := opwidth h in
  let op := h.(h_op) in
  let reg7 := Z.land reg 7 in
  if h.(h_ext) then
    match op with
    | 0xaf => Some (IImul w reg e)
    | 0xb6 => let '(w8, e) := byteea h e in Some (IMovzx w8 reg e)
    | 0xb7 => Some (IMovzx W16 reg e)
    | 0xbe => let '(w8, e) := byteea h e in Some (IMovsx w w8 reg e)
    | 0xbf => Some (IMovsx w W16 reg e)
    | _ =>
        if Z.shiftr op 4 =? 4 then Some (ICmov (Z.land op 15) w reg e)
        else if Z.shiftr op 4 =? 9 then
          let '(w8, e) := byteea h e in Some (ISetcc (Z.land op 15) w8 e)
        else None
    end
  else
    match op with
    | 0x63 => Some (IMovsx w W32 reg e)
    | 0x69 | 0x6b => Some (IImulI w reg e imm)
    | 0x81 | 0x83 => o ← arith_op reg7; Some (IArithI o w e imm)
    | 0x85 => Some (ITest w e reg)
    | 0x88 =>
        let '(wr, r) := bytereg h reg in
        let '(we, e) := byteea h e in
        match e with
        | EReg _ =>
            match wr, we with
            | W8, W8 => Some (IMovMR W8 e r)
            | W8, W8H => Some (IMovMR W8H e r)  (* mov %low, %high *)
            | _, _ => None
            end
        | _ => match wr with W8 => Some (IMovMR W8 e r) | _ => None end
        end
    | 0x89 => Some (IMovMR w e reg)
    | 0x8b => Some (IMovRM w reg e)
    | 0x8d => match e with EReg _ => None | _ => Some (ILea w reg e) end
    | 0xc6 => match e with
              | EReg _ => None
              | _ => if reg7 =? 0 then Some (IMovMI W8 e imm) else None
              end
    | 0xc7 => if reg7 =? 0 then Some (IMovMI w e imm) else None
    | 0xc1 => o ← shift_op reg7; Some (IShift o w e (Some imm))
    | 0xd1 => o ← shift_op reg7; Some (IShift o w e (Some 1))
    | 0xd3 => o ← shift_op reg7; Some (IShift o w e None)
    | 0xf7 =>
        match reg7 with
        | 2 => Some (INot w e) | 3 => Some (INeg w e)
        | 4 => Some (IMul2 false w e) | 5 => Some (IMul2 true w e)
        | 6 => Some (IDiv2 false w e) | 7 => Some (IDiv2 true w e)
        | _ => None
        end
    | 0xff =>
        match reg7 with
        | 0 => Some (IInc w e) | 1 => Some (IDec w e)
        | 2 => Some (ICallE e) | 4 => Some (IJmpE e)
        | _ => None
        end
    | _ => if (op <? 0x40) && (Z.land op 7 =? 3) then
             o ← arith_op (Z.shiftr op 3); Some (IArithRM o w reg e)
           else None
    end.

(** The instructions without ModRM byte. *)
Definition dec_plain (h : head) (l : list Z) : option (option (instr * list Z)) :=
  let op := h.(h_op) in
  let r := bit8 h.(h_b) (Z.land op 7) in
  if h.(h_ext) then
    if Z.shiftr op 3 =? 0x19 then
      Some (Some (IBswap (opwidth h) r, l))
    else if Z.shiftr op 4 =? 8 then
      Some ('(d, l) ← dec_num 4 l; Some (IJcc (Z.land op 15) d, l))
    else None
  else if Z.shiftr op 3 =? 0x17 then
    Some (if h.(h_w) then '(i, l) ← dec_num 8 l; Some (IMovI W64 r i, l)
          else if h.(h_data16) then None
          else '(i, l) ← dec_num 4 l; Some (IMovI W32 r i, l))
  else if Z.shiftr op 3 =? 10 then Some (Some (IPush r, l))
  else if Z.shiftr op 3 =? 11 then Some (Some (IPop r, l))
  else if Z.shiftr op 4 =? 7 then
    Some ('(d, l) ← dec_num 1 l; Some (IJcc (Z.land op 15) d, l))
  else
    match op with
    | 0x68 => Some ('(i, l) ← dec_num 4 l; Some (IPushI i, l))
    | 0x6a => Some ('(i, l) ← dec_num 1 l; Some (IPushI i, l))
    | 0xc3 => Some (Some (IRet, l))
    | 0xe8 => Some ('(d, l) ← dec_num 4 l; Some (ICall d, l))
    | 0xe9 => Some ('(d, l) ← dec_num 4 l; Some (IJmp d, l))
    | 0xeb => Some ('(d, l) ← dec_num 1 l; Some (IJmp d, l))
    | _ => None
    end.

(** The operand and immediate of an instruction with a ModRM byte. *)
Definition dec_operands (h : head) (reg : Z) (f : rmform) (l : list Z)
    : option (instr * list Z) :=
  '(e, l) ← dec_ea f l;
  match imm_size h with
  | O => i ← mk_modrm h reg e 0; Some (i, l)
  | n => '(imm, l) ← dec_num n l; i ← mk_modrm h reg e imm; Some (i, l)
  end.

Definition decode (l : list Z) : option (instr * list Z) :=
  '(h, l) ← dec_head l;
  match dec_plain h l with
  | Some r => r
  | None => '(reg, f, l) ← dec_modrm h l; dec_operands h reg f l
  end.

(** ** Execution *)

Record dstate := mkD {
  regs : Z -> Z;
  dmem : Z -> Z;               (* one byte per address *)
  CF : option bool; ZF : option bool; SF : option bool; OF : option bool
}.

Definition wf (d : dstate) : Prop :=
  (forall r, in_u 64 (regs d r)) /\ (forall a, in_u 8 (dmem d a)).

Definition upd (f : Z -> Z) (k v : Z) : Z -> Z := fun x => if x =? k then v else f x.

Definition set_reg (r v : Z) (d : dstate) : dstate :=
  mkD (upd d.(regs) r v) d.(dmem) d.(CF) d.(ZF) d.(SF) d.(OF).
Definition set_mem (m : Z -> Z) (d : dstate) : dstate :=
  mkD d.(regs) m d.(CF) d.(ZF) d.(SF) d.(OF).
Definition set_flags (c z s o : option bool) (d : dstate) : dstate :=
  mkD d.(regs) d.(dmem) c z s o.

Definition read_reg (w : width) (r : Z) (d : dstate) : Z :=
  match w with
  | W8H => u8 (d.(regs) r / 2 ^ 8)
  | _ => wrap (wbits w) (d.(regs) r)
  end.

(** Writing 32 bits clears the upper half; writing 8 or 16 keeps the rest. *)
Definition write_reg (w : width) (r v : Z) (d : dstate) : dstate :=
  let old := d.(regs) r in
  set_reg r
    match w with
    | W64 => u64 v
    | W32 => u32 v
    | W16 => old - u16 old + u16 v
    | W8 => old - u8 old + u8 v
    | W8H => old - 2 ^ 8 * u8 (old / 2 ^ 8) + 2 ^ 8 * u8 v
    end d.

Fixpoint load_bytes (n : nat) (a : Z) (m : Z -> Z) : list Z :=
  match n with O => [] | S n => m (u64 a) :: load_bytes n (a + 1) m end.
Definition load (n : nat) (a : Z) (m : Z -> Z) : Z := of_bytes_le (load_bytes n a m).

Fixpoint store_bytes (a : Z) (l : list Z) (m : Z -> Z) : Z -> Z :=
  match l with [] => m | b :: l => store_bytes (a + 1) l (upd m (u64 a) b) end.
Definition store (n : nat) (a v : Z) (m : Z -> Z) : Z -> Z := store_bytes a (bytes_le n v) m.

(** Address of a memory operand; [pc] is the address of the next instruction. *)
Definition addr_of (pc : Z) (e : ea) (d : dstate) : Z :=
  match e with
  | EReg _ => 0
  | EMem base index disp =>
      u64 (match base with Some b => d.(regs) b | None => 0 end +
           match index with Some (i, s) => d.(regs) i * 2 ^ s | None => 0 end + disp)
  | ERip disp => u64 (pc + disp)
  end.

Definition read_ea (w : width) (pc : Z) (e : ea) (d : dstate) : Z :=
  match e with
  | EReg r => read_reg w r d
  | _ => load (wbytes w) (addr_of pc e d) d.(dmem)
  end.
Definition write_ea (w : width) (pc : Z) (e : ea) (v : Z) (d : dstate) : dstate :=
  match e with
  | EReg r => write_reg w r v d
  | _ => set_mem (store (wbytes w) (addr_of pc e d) v d.(dmem)) d
  end.

(** Result and flags of an arithmetic operation on [n]-bit operands. *)
Definition arith_result (op : aop) (n a b : Z) (c : bool) : Z :=
  match op with
  | Add => wrap n (a + b)
  | Adc => wrap n (a + b + Z.b2z c)
  | Sub | Cmp => wrap n (a - b)
  | Sbb => wrap n (a - b - Z.b2z c)
  | And => Z.land a b
  | Or => Z.lor a b
  | Xor => Z.lxor a b
  end.
Definition arith_cf (op : aop) (n a b : Z) (c : bool) : bool :=
  match op with
  | Add => 2 ^ n <=? a + b
  | Adc => 2 ^ n <=? a + b + Z.b2z c
  | Sub | Cmp => a <? b
  | Sbb => a <? b + Z.b2z c
  | _ => false
  end.
Definition arith_of (op : aop) (n a b : Z) (c : bool) : bool :=
  let over x := negb (swrap n x =? x) in
  match op with
  | Add => over (swrap n a + swrap n b)
  | Adc => over (swrap n a + swrap n b + Z.b2z c)
  | Sub | Cmp => over (swrap n a - swrap n b)
  | Sbb => over (swrap n a - swrap n b - Z.b2z c)
  | _ => false
  end.
Definition uses_carry (op : aop) : bool := match op with Adc | Sbb => true | _ => false end.
Definition writes_result (op : aop) : bool := match op with Cmp => false | _ => true end.

(** [op] on the values [a] and [b]: the flags, then the result written by [wr]. *)
Definition do_arith (op : aop) (w : width) (a b : Z) (wr : Z -> dstate -> dstate)
    (d : dstate) : option dstate :=
  let n := wbits w in
  c ← (if uses_carry op then d.(CF) else Some false);
  let r := arith_result op n a b c in
  let d := set_flags (Some (arith_cf op n a b c)) (Some (r =? 0))
             (Some (swrap n r <? 0)) (Some (arith_of op n a b c)) d in
  Some (if writes_result op then wr r d else d).

Definition shift_result (op : sop) (n a c : Z) : Z :=
  match op with
  | Shl => wrap n (Z.shiftl a c)
  | Shr => Z.shiftr a c
  | Sar => wrap n (Z.shiftr (swrap n a) c)
  | Rol => wrap n (Z.lor (Z.shiftl a (c mod n)) (Z.shiftr a (n - c mod n)))
  | Ror => wrap n (Z.lor (Z.shiftr a (c mod n)) (Z.shiftl a (n - c mod n)))
  end.
Definition shift_flags (op : sop) (c : Z) (d : dstate) : dstate :=
  if c =? 0 then d else
  match op with
  | Rol | Ror => set_flags None d.(ZF) d.(SF) None d
  | _ => set_flags None None None None d
  end.

Definition bswap_value (n : nat) (v : Z) : Z := of_bytes_le (rev (bytes_le n v)).

(** The condition of a condition code; the low bit negates. *)
Definition cond_holds (cc : Z) (d : dstate) : option bool :=
  b ← match Z.shiftr cc 1 with
      | 0 => d.(OF)
      | 1 => d.(CF)
      | 2 => d.(ZF)
      | 3 => c ← d.(CF); z ← d.(ZF); Some (c || z)
      | 4 => d.(SF)
      | 6 => s ← d.(SF); o ← d.(OF); Some (xorb s o)
      | 7 => z ← d.(ZF); s ← d.(SF); o ← d.(OF); Some (z || xorb s o)
      | _ => None
      end;
  Some (xorb (Z.testbit cc 0) b).

Definition RAX : Z := 0.
Definition RCX : Z := 1.
Definition RDX : Z := 2.
Definition RSP : Z := 4.

Definition no_flags : dstate -> dstate := set_flags None None None None.

Definition push64 (v : Z) (d : dstate) : dstate :=
  let sp := u64 (d.(regs) RSP - 8) in
  set_mem (store 8 sp v d.(dmem)) (set_reg RSP sp d).

(** Instructions that continue with the next one at [pc]. *)
Definition exec_plain (pc : Z) (i : instr) (d : dstate) : option dstate :=
  match i with
  | IArithRM op w r e =>
      do_arith op w (read_reg w r d) (read_ea w pc e d) (write_reg w r) d
  | IArithI op w e imm =>
      do_arith op w (read_ea w pc e d) (wrap (wbits w) imm)
        (fun v d' => write_ea w pc e v d') d
  | ITest w e r => do_arith And w (read_ea w pc e d) (read_reg w r d) (fun _ d => d) d
  | IMovRM w r e => Some (write_reg w r (read_ea w pc e d) d)
  | IMovMR w e r =>
      Some (write_ea w pc e (match w with W8H => read_reg W8 r d | _ => read_reg w r d end) d)
  | IMovMI w e imm => Some (write_ea w pc e imm d)
  | IMovI w r imm => Some (write_reg w r imm d)
  | ILea w r e => Some (write_reg w r (addr_of pc e d) d)
  | IMovzx from r e => Some (write_reg W64 r (read_ea from pc e d) d)
  | IMovsx to from r e =>
      Some (write_reg to r (swrap (wbits from) (read_ea from pc e d)) d)
  | IShift op w e count =>
      let c := Z.land (match count with Some c => c | None => d.(regs) RCX end)
                 (match w with W64 => 63 | _ => 31 end) in
      Some (shift_flags op c (write_ea w pc e
              (shift_result op (wbits w) (read_ea w pc e d) c) d))
  | IBswap w r =>
      match w with
      | W32 | W64 => Some (write_reg w r (bswap_value (wbytes w) (read_reg w r d)) d)
      | _ => None
      end
  | IInc w e =>
      do_arith Add w (read_ea w pc e d) 1
        (fun v d' => write_ea w pc e v (set_flags d.(CF) d'.(ZF) d'.(SF) d'.(OF) d')) d
  | IDec w e =>
      do_arith Sub w (read_ea w pc e d) 1
        (fun v d' => write_ea w pc e v (set_flags d.(CF) d'.(ZF) d'.(SF) d'.(OF) d')) d
  | INot w e => Some (write_ea w pc e (wrap (wbits w) (Z.lnot (read_ea w pc e d))) d)
  | INeg w e => do_arith Sub w 0 (read_ea w pc e d) (fun v d' => write_ea w pc e v d') d
  | IMul2 signed w e =>
      let conv := if signed then swrap (wbits w) else wrap (wbits w) in
      let p := conv (read_reg w RAX d) * conv (read_ea w pc e d) in
      Some (no_flags (write_reg w RDX (p / 2 ^ wbits w) (write_reg w RAX p d)))
  | IDiv2 signed w e =>
      let n := wbits w in
      let v := read_ea w pc e d in
      let num := read_reg w RDX d * 2 ^ n + read_reg w RAX d in
      if v =? 0 then None
      else if signed then
        let a := swrap (2 * n) num in
        let q := Z.quot a (swrap n v) in
        if swrap n q =? q then
          Some (no_flags (write_reg w RDX (Z.rem a (swrap n v)) (write_reg w RAX q d)))
        else None
      else
        let q := num / v in
        if wrap n q =? q then
          Some (no_flags (write_reg w RDX (num mod v) (write_reg w RAX q d)))
        else None
  | IImul w r e => Some (no_flags (write_reg w r (read_reg w r d * read_ea w pc e d) d))
  | IImulI w r e imm => Some (no_flags (write_reg w r (read_ea w pc e d * imm) d))
  | ISetcc cc w e => b ← cond_holds cc d; Some (write_ea w pc e (Z.b2z b) d)
  | ICmov cc w r e =>
      b ← cond_holds cc d;
      Some (write_reg w r (if b : bool then read_ea w pc e d else read_reg w r d) d)
  | IPush r => Some (push64 (d.(regs) r) d)
  | IPushI imm => Some (push64 imm d)
  | IPop r =>
      let sp := d.(regs) RSP in
      Some (set_reg r (load 8 sp d.(dmem)) (set_reg RSP (u64 (sp + 8)) d))
  | _ => None
  end.

(** One instruction; [pc] is the address of the next one. *)
Definition exec (pc : Z) (i : instr) (d : dstate) : option (Z * dstate) :=
  match i with
  | IJmp rel => Some (u64 (pc + rel), d)
  | IJcc cc rel => b ← cond_holds cc d; Some (if b : bool then u64 (pc + rel) else pc, d)
  | ICall rel => Some (u64 (pc + rel), push64 pc d)
  | IJmpE e => Some (read_ea W64 pc e d, d)
  | ICallE e => Some (read_ea W64 pc e d, push64 pc d)
  | IRet =>
      let sp := d.(regs) RSP in
      Some (load 8 sp d.(dmem), set_reg RSP (u64 (sp + 8)) d)
  | _ => d ← exec_plain pc i d; Some (pc, d)
  end.

(** An instruction is at most 15 bytes long.  Instruction memory is separate
    from data memory: generated code does not change while it runs. *)
Definition fetch (code : Z -> Z) (pc : Z) : list Z :=
  (fun i => code (pc + Z.of_nat i)) <$> seq 0 15.

Definition step (code : Z -> Z) (x y : Z * dstate) : Prop :=
  exists i rest, decode (fetch code x.1) = Some (i, rest) /\
    exec (x.1 + Z.of_nat (15 - length rest)) i x.2 = Some y.

Abbreviation steps code := (rtc (step code)).

Definition step_exec (code : Z -> Z) (x : Z * dstate) : option (Z * dstate) :=
  '(i, rest) ← decode (fetch code x.1);
  exec (x.1 + Z.of_nat (15 - length rest)) i x.2.

(** [step] is the graph of [step_exec]: execution is deterministic. *)
Lemma step_exec_iff code x y : step code x y <-> step_exec code x = Some y.
Proof.
  unfold step, step_exec. split.
  - intros (i & rest & -> & E). done.
  - destruct (decode _) as [[i rest]|]; [|done]. intros E. by exists i, rest.
Qed.

(** ** Decoding a prefix of the instruction stream *)


Lemma dec_opcode_app d16 rex rx l h rest k :
  dec_opcode d16 rex rx l = Some (h, rest) ->
  dec_opcode d16 rex rx (l ++ k) = Some (h, rest ++ k).
Proof.
  unfold dec_opcode. intros H. destruct l as [|b l]; [done|]. cbn [app].
  destruct (b =? 0x0f); [|by simplify_eq]. destruct l as [|b' l]; [done|].
  by simplify_eq.
Qed.

Lemma dec_rex_app d16 l h rest k :
  dec_rex d16 l = Some (h, rest) -> dec_rex d16 (l ++ k) = Some (h, rest ++ k).
Proof.
  unfold dec_rex. intros H. destruct l as [|b l]; [done|]. cbn [app].
  destruct (Z.shiftr b 4 =? 4); [by apply dec_opcode_app|].
  by apply (dec_opcode_app _ _ _ (b :: l)).
Qed.

Lemma dec_head_app l h rest k :
  dec_head l = Some (h, rest) -> dec_head (l ++ k) = Some (h, rest ++ k).
Proof.
  unfold dec_head. intros H. destruct l as [|b l]; [done|]. cbn [app].
  destruct (b =? 0x66); [by apply dec_rex_app|]. by apply (dec_rex_app _ (b :: l)).
Qed.

Lemma dec_modrm_app h l reg f rest k :
  dec_modrm h l = Some (reg, f, rest) -> dec_modrm h (l ++ k) = Some (reg, f, rest ++ k).
Proof.
  unfold dec_modrm. intros H. destruct l as [|m l]; [done|]. cbn [app].
  destruct (Z.shiftr m 6 =? 3); [by simplify_eq|].
  destruct (Z.land m 7 =? 4).
  - destruct l as [|sib l]; [done|]. cbn [app]. by destruct (_ && _); simplify_eq.
  - by destruct (_ && _); simplify_eq.
Qed.

Lemma dec_num_app n l d rest k :
  dec_num n l = Some (d, rest) -> dec_num n (l ++ k) = Some (d, rest ++ k).
Proof.
  unfold dec_num. destruct (Nat.leb_spec n (length l)); [|done]. intros ?; simplify_eq.
  rewrite (proj2 (Nat.leb_le _ _)) by (rewrite length_app; lia).
  by rewrite take_app_le, drop_app_le by done.
Qed.

Lemma dec_num_bytes n z k :
  (0 < n)%nat -> dec_num n (bytes_le n z ++ k) = Some (swrap (8 * Z.of_nat n) z, k).
Proof.
  intros Hn. unfold dec_num. rewrite (proj2 (Nat.leb_le _ _))
    by (rewrite length_app, length_bytes_le; lia).
  rewrite take_app_le, take_ge, drop_app_le, drop_ge by (rewrite length_bytes_le; lia).
  rewrite of_bytes_le_bytes_le, app_nil_l. do 2 f_equal.
  unfold swrap, wrap. by rewrite Zplus_mod_idemp_l.
Qed.


Lemma dec_ea_app f l e rest k :
  dec_ea f l = Some (e, rest) -> dec_ea f (l ++ k) = Some (e, rest ++ k).
Proof.
  destruct f as [r|b i [|n]|]; cbn [dec_ea]; intros H; [by simplify_eq..| |].
  all: match type of H with context [dec_num ?n ?l] =>
         destruct (dec_num n l) as [[d l']|] eqn:E; [|done] end.
  all: rewrite (dec_num_app _ _ _ _ k E); cbn in *; by simplify_eq.
Qed.

Lemma dec_operands_app h reg f l i rest k :
  dec_operands h reg f l = Some (i, rest) ->
  dec_operands h reg f (l ++ k) = Some (i, rest ++ k).
Proof.
  unfold dec_operands. intros H.
  destruct (dec_ea f l) as [[e l']|] eqn:E; [|done]. rewrite (dec_ea_app _ _ _ _ k E).
  cbn [mbind option_bind] in *. destruct (imm_size h) as [|n].
  - destruct (mk_modrm _ _ _ _); cbn in *; by simplify_eq.
  - destruct (dec_num (S n) l') as [[im l2]|] eqn:E2; [|done].
    rewrite (dec_num_app _ _ _ _ k E2). cbn in *.
    destruct (mk_modrm _ _ _ _); cbn in *; by simplify_eq.
Qed.

Lemma dec_plain_app h l r k :
  dec_plain h l = Some r ->
  exists r', dec_plain h (l ++ k) = Some r' /\
    (forall i rest, r = Some (i, rest) -> r' = Some (i, rest ++ k)).
Proof.
  assert (forall (mk : Z -> instr) n i rest,
    ('(d, l) ← dec_num n l; Some (mk d, l)) = Some (i, rest) ->
    ('(d, l) ← dec_num n (l ++ k); Some (mk d, l)) = Some (i, rest ++ k)) as Hnum.
  { intros mk n i rest H. destruct (dec_num n l) as [[d l']|] eqn:E; [|done].
    rewrite (dec_num_app _ _ _ _ k E). cbn in *. by simplify_eq. }
  unfold dec_plain. intros H.
  repeat (case_match; try discriminate H);
    (eexists; split; [reflexivity|]); simplify_eq; intros i rest Hr;
    solve [by simplify_eq | by apply Hnum | done].
Qed.

Lemma dec_plain_none h l k : dec_plain h l = None -> dec_plain h (l ++ k) = None.
Proof.
  unfold dec_plain. intros H. repeat (case_match; try discriminate H); done.
Qed.

Lemma decode_app l i rest k :
  decode l = Some (i, rest) -> decode (l ++ k) = Some (i, rest ++ k).
Proof.
  unfold decode. intros H.
  destruct (dec_head l) as [[h l1]|] eqn:E; [|done]. rewrite (dec_head_app _ _ _ k E).
  cbn [mbind option_bind] in *. destruct (dec_plain h l1) as [r|] eqn:Ep.
  - destruct (dec_plain_app _ _ _ k Ep) as (r' & -> & Hr). by apply Hr.
  - rewrite (dec_plain_none _ _ k Ep).
    destruct (dec_modrm h l1) as [[[reg f] l2]|] eqn:Em; [|done].
    rewrite (dec_modrm_app _ _ _ _ _ k Em). cbn in *. by apply dec_operands_app.
Qed.

(** ** Code in memory *)

Definition code_at (code : Z -> Z) (a : Z) (bs : list Z) : Prop :=
  forall i b, bs !! i = Some b -> code (a + Z.of_nat i) = b.

Lemma code_at_app code a b1 b2 :
  code_at code a (b1 ++ b2) <->
  code_at code a b1 /\ code_at code (a + Z.of_nat (length b1)) b2.
Proof.
  unfold code_at. split.
  - intros H. split; intros i b Hi.
    + apply H. by apply lookup_app_l_Some.
    + rewrite <- Z.add_assoc, <- Nat2Z.inj_add. apply H.
      rewrite lookup_app_r by lia. by replace (length b1 + i - length b1)%nat with i by lia.
  - intros [H1 H2] i b [Hi|[Hl Hi]]%lookup_app_Some; [by apply H1|].
    apply H2 in Hi. rewrite <- Hi. f_equal. lia.
Qed.

Lemma fetch_code_at code a bs :
  (length bs <= 15)%nat -> code_at code a bs ->
  exists rest, fetch code a = bs ++ rest /\ length rest = (15 - length bs)%nat.
Proof.
  intros Hl Hc. exists (drop (length bs) (fetch code a)).
  assert (length (fetch code a) = 15%nat) as Hf by (unfold fetch; by rewrite length_fmap).
  split; [|rewrite length_drop; lia].
  rewrite <- (take_drop (length bs) (fetch code a)) at 1. f_equal.
  apply list_eq_same_length with (length bs); [done|rewrite length_take; lia|].
  intros i x y Hi Hx Hy. rewrite lookup_take_lt in Hx by done.
  unfold fetch in Hx. rewrite list_lookup_fmap, lookup_seq_lt in Hx by lia.
  cbn in Hx. simplify_eq. by apply Hc.
Qed.

(** [bs] is the encoding of [i]. *)
Definition encodes (bs : list Z) (i : instr) : Prop :=
  (length bs <= 15)%nat /\ decode bs = Some (i, []).

Lemma step_encoded code a bs i d pc' d' :
  encodes bs i -> code_at code a bs ->
  exec (a + Z.of_nat (length bs)) i d = Some (pc', d') ->
  step code (a, d) (pc', d').
Proof.
  intros [Hl Hd] Hc He. destruct (fetch_code_at code a bs Hl Hc) as (rest & Hf & Hr).
  exists i, rest. cbn [fst snd]. rewrite Hf. split; [by apply (decode_app _ _ [])|].
  rewrite Hr. by replace (15 - (15 - length bs))%nat with (length bs) by lia.
Qed.

(** An encoded instruction is the only one that can execute. *)
Lemma step_encoded_inv code a bs i d y :
  encodes bs i -> code_at code a bs -> step code (a, d) y ->
  exec (a + Z.of_nat (length bs)) i d = Some y.
Proof.
  intros [Hl Hd] Hc (i' & rest' & Hf' & He). destruct (fetch_code_at code a bs Hl Hc) as (rest & Hf & Hr).
  cbn [fst snd] in *. rewrite Hf, (decode_app _ _ [] rest Hd) in Hf'. injection Hf' as <- <-.
  cbn [app] in He. rewrite Hr in He. by replace (15 - (15 - length bs))%nat with (length bs) in He by lia.
Qed.

Lemma step_plain code a bs i d d' :
  encodes bs i -> code_at code a bs ->
  exec_plain (a + Z.of_nat (length bs)) i d = Some d' ->
  step code (a, d) (a + Z.of_nat (length bs), d').
Proof.
  intros He Hc Hx. eapply step_encoded; [done..|].
  destruct i; cbn [exec]; try (by rewrite Hx); discriminate Hx.
Qed.

(** ** Registers and memory *)

Lemma regs_set_same r v d : regs (set_reg r v d) r = v.
Proof. cbn. unfold upd. by rewrite Z.eqb_refl. Qed.
Lemma regs_set_other r r' v d : r' <> r -> regs (set_reg r v d) r' = regs d r'.
Proof. intros. cbn. unfold upd. by destruct (Z.eqb_spec r' r). Qed.

Lemma regs_write_other w r r' v d : r' <> r -> regs (write_reg w r v d) r' = regs d r'.
Proof. intros. unfold write_reg. by rewrite regs_set_other. Qed.

Lemma dmem_write_reg w r v d : dmem (write_reg w r v d) = dmem d.
Proof. done. Qed.

(** Two byte ranges that do not meet modulo 2^64. *)
Definition sep (n : nat) (a : Z) (k : nat) (b : Z) : Prop :=
  Z.of_nat n <= u64 (b - a) /\ Z.of_nat k <= u64 (a - b).

Lemma sep_sym n a k b : sep n a k b -> sep k b n a.
Proof. intros []. by split. Qed.

Lemma sep_lookup n a k b i j :
  sep n a k b -> 0 <= i < Z.of_nat n -> 0 <= j < Z.of_nat k -> u64 (a + i) <> u64 (b + j).
Proof.
  unfold sep, wrap. intros [H1 H2] Hi Hj E.
  assert ((a + i - (b + j)) mod 2 ^ 64 = 0) as E0.
  { rewrite Zminus_mod, E, Z.sub_diag. done. }
  apply Z.mod_divide in E0 as [q Hq]; [|lia].
  destruct (Z.lt_ge_cases j i).
  - replace (b - a) with (i - j + (-q) * 2 ^ 64) in H1 by lia.
    rewrite Z_mod_plus_full in H1.
    pose proof (Z.mod_le (i - j) (2 ^ 64)). lia.
  - replace (a - b) with (j - i + q * 2 ^ 64) in H2 by lia.
    rewrite Z_mod_plus_full in H2.
    pose proof (Z.mod_le (j - i) (2 ^ 64)). lia.
Qed.

Lemma store_bytes_other a l m x :
  (forall i, 0 <= i < Z.of_nat (length l) -> x <> u64 (a + i)) ->
  store_bytes a l m x = m x.
Proof.
  revert a m. induction l as [|b l IH]; intros a m Hx; cbn [store_bytes]; [done|].
  rewrite IH.
  - unfold upd. destruct (Z.eqb_spec x (u64 a)) as [E|]; [|done].
    exfalso. apply (Hx 0); [cbn; lia|]. by rewrite Z.add_0_r.
  - intros i Hi. rewrite <- Z.add_assoc. apply Hx. cbn. lia.
Qed.

Lemma load_bytes_ext n a m m' :
  (forall i, 0 <= i < Z.of_nat n -> m (u64 (a + i)) = m' (u64 (a + i))) ->
  load_bytes n a m = load_bytes n a m'.
Proof.
  revert a. induction n as [|n IH]; intros a H; cbn; [done|]. f_equal.
  - pose proof (H 0) as H0. rewrite Z.add_0_r in H0. apply H0. lia.
  - apply IH. intros i Hi. rewrite <- Z.add_assoc. apply H. lia.
Qed.

Lemma load_store_other n a k b v m :
  sep n a k b -> load n a (store k b v m) = load n a m.
Proof.
  intros Hs. unfold load, store. f_equal. apply load_bytes_ext. intros i Hi.
  apply store_bytes_other. rewrite length_bytes_le. intros j Hj.
  by apply (sep_lookup n a k b).
Qed.

Lemma load_bytes_store_bytes a l m :
  Z.of_nat (length l) <= 2 ^ 64 -> load_bytes (length l) a (store_bytes a l m) = l.
Proof.
  revert a m. induction l as [|b l IH]; intros a m Hl; cbn [store_bytes load_bytes length];
    [done|]. cbn [length] in Hl. f_equal; [|apply IH; lia].
  rewrite store_bytes_other.
  - unfold upd. by rewrite Z.eqb_refl.
  - intros i Hi E. unfold wrap in E.
    assert ((a + 1 + i - a) mod 2 ^ 64 = 0) as E0.
    { by rewrite Zminus_mod, <- E, Z.sub_diag. }
    rewrite Z.mod_small in E0; lia.
Qed.

Lemma load_store_same n a v m :
  Z.of_nat n <= 2 ^ 64 -> load n a (store n a v m) = wrap (8 * Z.of_nat n) v.
Proof.
  intros Hn. unfold load, store. rewrite <- of_bytes_le_bytes_le. f_equal.
  rewrite <- (length_bytes_le n v) at 1.
  apply load_bytes_store_bytes. by rewrite length_bytes_le.
Qed.

(** ** Well-formed states *)

Lemma wf_set_reg r v d : wf d -> in_u 64 v -> wf (set_reg r v d).
Proof.
  intros [Hr Hm] Hv. split; [|done]. intros r'. cbn. unfold upd. by case_match.
Qed.

Lemma in_u_mono n k v : 0 <= n <= k -> in_u n v -> in_u k v.
Proof. unfold in_u. intros ? ?. pose proof (Z.pow_le_mono_r 2 n k). lia. Qed.

Lemma wf_write_reg w r v d : wf d -> wf (write_reg w r v d).
Proof.
  intros Hwf. apply wf_set_reg; [done|]. destruct Hwf as [Hr _]. specialize (Hr r).
  unfold in_u, wrap in *. set (old := regs d r) in *.
  change (2 ^ 8) with 256; change (2 ^ 16) with 65536; change (2 ^ 32) with 4294967296.
  change (2 ^ 64) with 18446744073709551616 in *.
  destruct w; Z.to_euclidean_division_equations; lia.
Qed.

Lemma wf_set_flags c z s o d : wf d -> wf (set_flags c z s o d).
Proof. by intros []. Qed.

Lemma store_bytes_range a l m :
  Forall (in_u 8) l -> (forall x, in_u 8 (m x)) -> forall x, in_u 8 (store_bytes a l m x).
Proof.
  intros Hl. revert a m. induction Hl as [|b l Hb _ IH]; intros a m Hm x; cbn; [done|].
  apply IH. intros y. unfold upd. by case_match.
Qed.

Lemma wf_store n a v d : wf d -> wf (set_mem (store n a v (dmem d)) d).
Proof.
  intros [Hr Hm]. split; [done|]. apply store_bytes_range; [apply bytes_le_byte|done].
Qed.

Lemma wf_write_ea w pc e v d : wf d -> wf (write_ea w pc e v d).
Proof. destruct e; [apply wf_write_reg|apply wf_store..]. Qed.

Lemma length_load_bytes n a m : length (load_bytes n a m) = n.
Proof. revert a. induction n; intros; cbn; auto. Qed.

Lemma load_range n a d : wf d -> in_u (8 * Z.of_nat n) (load n a (dmem d)).
Proof.
  intros [_ Hm]. unfold load. rewrite <- (length_load_bytes n a (dmem d)) at 1.
  apply of_bytes_le_range. revert a. induction n; intros a; cbn; constructor; auto.
Qed.

Lemma read_reg_range w r d : wf d -> in_u (wbits w) (read_reg w r d).
Proof. intros _. destruct w; apply wrap_range; cbn; lia. Qed.

Lemma read_ea_range w pc e d : wf d -> in_u (wbits w) (read_ea w pc e d).
Proof.
  intros Hwf. destruct e; [by apply read_reg_range|..]; cbn [read_ea];
  pose proof (fun a => load_range (wbytes w) a d Hwf) as H; destruct w; apply H.
Qed.

Lemma wf_push64 v d : wf d -> wf (push64 v d).
Proof.
  intros Hwf. unfold push64. apply (wf_store 8 _ v (set_reg RSP _ d)).
  apply wf_set_reg; [done|]. by apply wrap_range.
Qed.

#[export] Hint Resolve wf_set_reg wf_write_reg wf_set_flags wf_store wf_write_ea
  wf_push64 : qtrace.

Lemma wf_do_arith op w a b wr d d' :
  wf d -> (forall v x, wf x -> wf (wr v x)) -> do_arith op w a b wr d = Some d' -> wf d'.
Proof.
  intros Hwf Hwr H. unfold do_arith in H.
  destruct (if uses_carry op then _ else _); [|done]. cbn in H. simplify_eq.
  case_match; auto with qtrace.
Qed.

Lemma wf_exec_plain pc i d d' : wf d -> exec_plain pc i d = Some d' -> wf d'.
Proof.
  intros Hwf H. destruct i; cbn [exec_plain] in H; try discriminate H;
    repeat match type of H with
    | do_arith _ _ _ _ _ _ = _ => eapply wf_do_arith in H; eauto with qtrace
    | (match ?x with _ => _ end) = _ => destruct x; try discriminate H
    | (?x ≫= _) = _ => destruct x; cbn in H; try discriminate H
    end; simplify_eq; unfold no_flags, shift_flags; repeat case_match;
    eauto 8 with qtrace.
  apply wf_set_reg; [|by apply load_range].
  apply wf_set_reg; [done|]. by apply wrap_range.
Qed.

(** ** Addresses modulo 2^64 *)

Lemma u64_succ a b : u64 a = u64 b -> u64 (a + 1) = u64 (b + 1).
Proof. intros E. rewrite <- (wrap_add_l 64 a), E. by rewrite wrap_add_l. Qed.

Lemma load_bytes_cong n a b m : u64 a = u64 b -> load_bytes n a m = load_bytes n b m.
Proof.
  revert a b. induction n as [|n IH]; intros a b E; cbn [load_bytes]; [done|].
  rewrite E. f_equal. by apply IH, u64_succ.
Qed.

Lemma store_bytes_cong l a b m : u64 a = u64 b -> store_bytes a l m = store_bytes b l m.
Proof.
  revert a b m. induction l as [|x l IH]; intros a b m E; cbn [store_bytes]; [done|].
  rewrite E. by apply IH, u64_succ.
Qed.

Lemma load_u64 n a m : load n (u64 a) m = load n a m.
Proof. unfold load. f_equal. apply load_bytes_cong, wrap_wrap. Qed.

Lemma store_u64 n a v m : store n (u64 a) v m = store n a v m.
Proof. unfold store. apply store_bytes_cong, wrap_wrap. Qed.

Lemma store_wrap n a v m : store n a (wrap (8 * Z.of_nat n) v) m = store n a v m.
Proof.
  unfold store. f_equal.
  assert (length (bytes_le n v) = n) as Hl by apply length_bytes_le.
  rewrite <- of_bytes_le_bytes_le, <- Hl at 1. rewrite Hl.
  rewrite <- Hl at 1. apply bytes_le_of_bytes_le, bytes_le_byte.
Qed.

(** Fields at fixed offsets from one base. *)
Lemma sep_offsets e a n b k :
  a + Z.of_nat n <= b -> b + Z.of_nat k <= a + 2 ^ 64 -> (0 < n)%nat -> (0 < k)%nat ->
  sep n (e + a) k (e + b).
Proof.
  intros H1 H2 Hn Hk. unfold sep.
  replace (e + b - (e + a)) with (b - a) by lia.
  replace (e + a - (e + b)) with (a - b) by lia.
  unfold wrap. rewrite (Z.mod_small (b - a)) by lia. split; [lia|].
  rewrite <- (Z.mod_unique (a - b) (2 ^ 64) (-1) (a - b + 2 ^ 64)); lia.
Qed.

Lemma sep_u64_l n a k b : sep n (u64 a) k b <-> sep n a k b.
Proof.
  unfold sep. rewrite wrap_sub_r, wrap_sub_l. done.
Qed.
