(* ===== verification/TcgOut.v ===== *)
(** * Emitting host code (tcg/tcg.c, tcg/i386/tcg-target.c)

    The code buffer of [TCGContext] and the emitters that write x86-64
    instructions to it, for a 64-bit host. *)

From S2P Require Import Prelude X86.

(** ** The code generator's state *)

Definition R_386_PC8 : Z := 23.
Definition R_386_PC32 : Z := 2.

Record TCGRelocation := mkReloc { r_type : Z; r_ptr : Z; r_addend : Z }.

(** A label has a value, or the relocations that wait for it (newest first). *)
Inductive TCGLabel := LValue (value : Z) | LRelocs (first_reloc : list TCGRelocation).

(** tcg/tcg-be-ldst.h *)
Record TCGLabelQemuLdst := mkLdst {
  is_ld : bool; l_opc : Z; datalo_reg : Z; datahi_reg : Z; addrlo_reg : Z;
  addrhi_reg : Z; l_mem_index : Z; raddr : Z; label_ptr : Z
}.

(** [code] holds the bytes from [code_buf] to [code_ptr]; [stale] is what the
    buffer holds beyond. *)
Record TCGContext := mkTCG {
  code_buf : Z;
  code : list Z;
  stale : Z -> Z;
  labels : list TCGLabel;
  ldst_labels : list TCGLabelQemuLdst;
  qtrace_next_offset : list Z;
  tb_jmp_offset : list Z;
  tb_next_offset : list Z
}.

Definition code_ptr (s : TCGContext) : Z := s.(code_buf) + Z.of_nat (length s.(code)).

Definition set_code (l : list Z) (s : TCGContext) : TCGContext :=
  mkTCG s.(code_buf) l s.(stale) s.(labels) s.(ldst_labels) s.(qtrace_next_offset)
    s.(tb_jmp_offset) s.(tb_next_offset).
Definition add_code (l : list Z) (s : TCGContext) : TCGContext :=
  set_code (s.(code) ++ l) s.
Definition set_labels (l : list TCGLabel) (s : TCGContext) : TCGContext :=
  mkTCG s.(code_buf) s.(code) s.(stale) l s.(ldst_labels) s.(qtrace_next_offset)
    s.(tb_jmp_offset) s.(tb_next_offset).
Definition set_ldst_labels (l : list TCGLabelQemuLdst) (s : TCGContext) : TCGContext :=
  mkTCG s.(code_buf) s.(code) s.(stale) s.(labels) l s.(qtrace_next_offset)
    s.(tb_jmp_offset) s.(tb_next_offset).
Definition set_qtrace_next_offset (l : list Z) (s : TCGContext) : TCGContext :=
  mkTCG s.(code_buf) s.(code) s.(stale) s.(labels) s.(ldst_labels) l
    s.(tb_jmp_offset) s.(tb_next_offset).
Definition set_tb_offsets (j n : list Z) (s : TCGContext) : TCGContext :=
  mkTCG s.(code_buf) s.(code) s.(stale) s.(labels) s.(ldst_labels)
    s.(qtrace_next_offset) j n.

(** Emitters change the state of the code generator and can abort. *)
Definition out (A : Type) : Type := TCGContext -> res (A * TCGContext).
#[export] Instance out_ret : MRet out := fun A a s => Ok (a, s).
#[export] Instance out_bind : MBind out :=
  fun A B f m s => match m s with Ok (a, s) => f a s | Err e => Err e end.
Definition fail {A} (e : cerror) : out A := fun _ => Err e.
Definition get_ptr : out Z := fun s => Ok (code_ptr s, s).
Definition modify (f : TCGContext -> TCGContext) : out unit := fun s => Ok (tt, f s).
Definition skip : out unit := mret tt.
Definition when_out (b : bool) (m : out unit) : out unit := if b then m else skip.

(** ** tcg/tcg.c *)

Definition tcg_out8 (v : Z) : out unit := modify (add_code [u8 v]).
Definition tcg_out16 (v : Z) : out unit := modify (add_code (bytes_le 2 v)).
Definition tcg_out32 (v : Z) : out unit := modify (add_code (bytes_le 4 v)).
Definition tcg_out64 (v : Z) : out unit := modify (add_code (bytes_le 8 v)).

(** [s->code_ptr += n]: the bytes keep what the buffer held. *)
Definition advance (n : nat) : out unit :=
  modify (fun s => add_code ((fun i => s.(stale) (code_ptr s + Z.of_nat i)) <$> seq 0 n) s).

(** Writing [n] bytes at an address below [code_ptr]. *)
Definition patch_code (p : Z) (l : list Z) : out unit := fun s =>
  let i := p - s.(code_buf) in
  if (0 <=? i) && (i + Z.of_nat (length l) <=? Z.of_nat (length s.(code))) then
    Ok (tt, set_code (list_inserts (Z.to_nat i) l s.(code)) s)
  else Err OutOfBounds.

Definition patch_reloc (ptr type value addend : Z) : out unit :=
  let value := s64 (value + addend) in
  if type =? R_386_PC32 then
    let value := s64 (value - ptr) in
    if value =? s32 value then patch_code ptr (bytes_le 4 value) else fail TcgAbort
  else if type =? R_386_PC8 then
    let value := s64 (value - ptr) in
    if value =? s8 value then patch_code ptr (bytes_le 1 value) else fail TcgAbort
  else fail TcgAbort.

Definition get_label (index : Z) : out TCGLabel := fun s =>
  match s.(labels) !! Z.to_nat index with
  | Some l => if 0 <=? index then Ok (l, s) else Err OutOfBounds
  | None => Err OutOfBounds
  end.
Definition set_label (index : Z) (l : TCGLabel) : out unit :=
  modify (fun s => set_labels (<[Z.to_nat index := l]> s.(labels)) s).

Definition tcg_out_reloc (ptr type label_index addend : Z) : out unit :=
  l ← get_label label_index;
  match l with
  | LValue v => patch_reloc ptr type v addend
  | LRelocs rs => set_label label_index (LRelocs (mkReloc type ptr addend :: rs))
  end.

Fixpoint patch_relocs (rs : list TCGRelocation) (value : Z) : out unit :=
  match rs with
  | [] => skip
  | r :: rs =>
      patch_reloc r.(r_ptr) r.(r_type) value r.(r_addend) ;; patch_relocs rs value
  end.

Definition tcg_out_label (label_index ptr : Z) : out unit :=
  l ← get_label label_index;
  match l with
  | LValue _ => fail TcgAbort
  | LRelocs rs => patch_relocs rs ptr ;; set_label label_index (LValue ptr)
  end.

Definition TCG_MAX_LABELS : Z := 512.

Definition gen_new_label : out Z := fun s =>
  let idx := Z.of_nat (length s.(labels)) in
  if TCG_MAX_LABELS <=? idx then Err TcgAbort
  else Ok (idx, set_labels (s.(labels) ++ [LRelocs []]) s).

(** ** Constants of tcg/i386/tcg-target.c *)

Definition TCG_REG_RAX : Z := 0.
Definition TCG_REG_RCX : Z := 1.
Definition TCG_REG_RDX : Z := 2.
Definition TCG_REG_RBX : Z := 3.
Definition TCG_REG_ESP : Z := 4.
Definition TCG_REG_EBP : Z := 5.
Definition TCG_REG_RBP : Z := TCG_REG_EBP.
Definition TCG_REG_RSI : Z := 6.
Definition TCG_REG_RDI : Z := 7.
Definition TCG_REG_R8 : Z := 8.
Definition TCG_REG_R9 : Z := 9.
Definition TCG_REG_R10 : Z := 10.
Definition TCG_REG_R11 : Z := 11.
Definition TCG_REG_R12 : Z := 12.
Definition TCG_REG_R13 : Z := 13.
Definition TCG_REG_R14 : Z := 14.
Definition TCG_REG_R15 : Z := 15.
Definition TCG_AREG0 : Z := TCG_REG_R14.

Definition tcg_target_call_iarg_regs : list Z :=
  [TCG_REG_RDI; TCG_REG_RSI; TCG_REG_RDX; TCG_REG_RCX; TCG_REG_R8; TCG_REG_R9].
Definition TCG_REG_L0 : Z := TCG_REG_RDI.
Definition TCG_REG_L1 : Z := TCG_REG_RSI.

Definition P_EXT : Z := 0x100.
Definition P_DATA16 : Z := 0x200.
Definition P_ADDR32 : Z := 0x400.
Definition P_REXW : Z := 0x800.
Definition P_REXB_R : Z := 0x1000.
Definition P_REXB_RM : Z := 0x2000.
Definition P_GS : Z := 0x4000.

Definition ARITH_ADD : Z := 0.
Definition ARITH_OR : Z := 1.
Definition ARITH_ADC : Z := 2.
Definition ARITH_SBB : Z := 3.
Definition ARITH_AND : Z := 4.
Definition ARITH_SUB : Z := 5.
Definition ARITH_XOR : Z := 6.
Definition ARITH_CMP : Z := 7.

Definition OPC_ARITH_EvIz : Z := 0x81.
Definition OPC_ARITH_EvIb : Z := 0x83.
Definition OPC_ARITH_GvEv : Z := 0x03.
Definition OPC_ADD_GvEv : Z := Z.lor OPC_ARITH_GvEv (Z.shiftl ARITH_ADD 3).
Definition OPC_BSWAP : Z := Z.lor 0xc8 P_EXT.
Definition OPC_CALL_Jz : Z := 0xe8.
Definition OPC_CMOVCC : Z := Z.lor 0x40 P_EXT.
Definition OPC_CMP_GvEv : Z := Z.lor OPC_ARITH_GvEv (Z.shiftl ARITH_CMP 3).
Definition OPC_IMUL_GvEv : Z := Z.lor 0xaf P_EXT.
Definition OPC_IMUL_GvEvIb : Z := 0x6b.
Definition OPC_IMUL_GvEvIz : Z := 0x69.
Definition OPC_JCC_long : Z := Z.lor 0x80 P_EXT.
Definition OPC_JCC_short : Z := 0x70.
Definition OPC_JMP_long : Z := 0xe9.
Definition OPC_JMP_short : Z := 0xeb.
Definition OPC_LEA : Z := 0x8d.
Definition OPC_MOVB_EvGv : Z := 0x88.
Definition OPC_MOVL_EvGv : Z := 0x89.
Definition OPC_MOVL_GvEv : Z := 0x8b.
Definition OPC_MOVB_EvIz : Z := 0xc6.
Definition OPC_MOVL_EvIz : Z := 0xc7.
Definition OPC_MOVL_Iv : Z := 0xb8.
Definition OPC_MOVSBL : Z := Z.lor 0xbe P_EXT.
Definition OPC_MOVSWL : Z := Z.lor 0xbf P_EXT.
Definition OPC_MOVSLQ : Z := Z.lor 0x63 P_REXW.
Definition OPC_MOVZBL : Z := Z.lor 0xb6 P_EXT.
Definition OPC_MOVZWL : Z := Z.lor 0xb7 P_EXT.
Definition OPC_POP_r32 : Z := 0x58.
Definition OPC_PUSH_r32 : Z := 0x50.
Definition OPC_PUSH_Iv : Z := 0x68.
Definition OPC_PUSH_Ib : Z := 0x6a.
Definition OPC_RET : Z := 0xc3.
Definition OPC_SETCC : Z := Z.lor (Z.lor 0x90 P_EXT) P_REXB_RM.
Definition OPC_SHIFT_1 : Z := 0xd1.
Definition OPC_SHIFT_Ib : Z := 0xc1.
Definition OPC_SHIFT_cl : Z := 0xd3.
Definition OPC_TESTL : Z := 0x85.
Definition OPC_GRP3_Ev : Z := 0xf7.
Definition OPC_GRP5 : Z := 0xff.

Definition SHIFT_ROL : Z := 0.
Definition SHIFT_ROR : Z := 1.
Definition SHIFT_SHL : Z := 4.
Definition SHIFT_SHR : Z := 5.
Definition SHIFT_SAR : Z := 7.
Definition EXT3_NOT : Z := 2.
Definition EXT3_NEG : Z := 3.
Definition EXT3_MUL : Z := 4.
Definition EXT3_IMUL : Z := 5.
Definition EXT3_DIV : Z := 6.
Definition EXT3_IDIV : Z := 7.
Definition EXT5_INC_Ev : Z := 0.
Definition EXT5_DEC_Ev : Z := 1.
Definition EXT5_CALLN_Ev : Z := 2.
Definition EXT5_JMPN_Ev : Z := 4.

Definition JCC_JMP : Z := -1.
Definition JCC_JB : Z := 0x2.
Definition JCC_JAE : Z := 0x3.
Definition JCC_JE : Z := 0x4.
Definition JCC_JNE : Z := 0x5.
Definition JCC_JBE : Z := 0x6.
Definition JCC_JA : Z := 0x7.
Definition JCC_JL : Z := 0xc.
Definition JCC_JGE : Z := 0xd.
Definition JCC_JLE : Z := 0xe.
Definition JCC_JG : Z := 0xf.

(** tcg/tcg.h; the two trivial conditions have no entry in the table. *)
Inductive TCGCond :=
  | TCG_COND_NEVER | TCG_COND_ALWAYS | TCG_COND_EQ | TCG_COND_NE
  | TCG_COND_LT | TCG_COND_GE | TCG_COND_LE | TCG_COND_GT
  | TCG_COND_LTU | TCG_COND_GEU | TCG_COND_LEU | TCG_COND_GTU.

Definition tcg_cond_to_jcc (c : TCGCond) : Z :=
  match c with
  | TCG_COND_EQ => JCC_JE | TCG_COND_NE => JCC_JNE
  | TCG_COND_LT => JCC_JL | TCG_COND_GE => JCC_JGE
  | TCG_COND_LE => JCC_JLE | TCG_COND_GT => JCC_JG
  | TCG_COND_LTU => JCC_JB | TCG_COND_GEU => JCC_JAE
  | TCG_COND_LEU => JCC_JBE | TCG_COND_GTU => JCC_JA
  | TCG_COND_NEVER | TCG_COND_ALWAYS => 0
  end.

Inductive TCGType := TCG_TYPE_I32 | TCG_TYPE_I64.
Definition TCG_TYPE_PTR : TCGType := TCG_TYPE_I64.
Definition rexw_of (t : TCGType) : Z :=
  match t with TCG_TYPE_I64 => P_REXW | TCG_TYPE_I32 => 0 end.

(** ** Instruction emitters *)

Definition LOWREGMASK (x : Z) : Z := Z.land x 7.

(** The REX prefix: the low byte is the prefix, higher bits only say that one
    is needed. *)
Definition opc_rex (opc r rm x : Z) : Z :=
  let rex := Z.shiftr (Z.land opc P_REXW) 8 in
  let rex := Z.lor rex (Z.shiftr (Z.land r 8) 1) in
  let rex := Z.lor rex (Z.shiftr (Z.land x 8) 2) in
  let rex := Z.lor rex (Z.shiftr (Z.land rm 8) 3) in
  let rex := Z.lor rex (Z.land opc (if 4 <=? r then P_REXB_R else 0)) in
  Z.lor rex (Z.land opc (if 4 <=? rm then P_REXB_RM else 0)).

Definition tcg_out_opc (opc r rm x : Z) : out unit :=
  when_out (testb opc P_GS) (tcg_out8 0x65) ;;
  when_out (testb opc P_DATA16)
    ((if Z.land opc P_REXW =? 0 then skip else fail AssertFailed) ;; tcg_out8 0x66) ;;
  when_out (testb opc P_ADDR32) (tcg_out8 0x67) ;;
  let rex := opc_rex opc r rm x in
  when_out (negb (rex =? 0)) (tcg_out8 (u8 (Z.lor rex 0x40))) ;;
  when_out (testb opc P_EXT) (tcg_out8 0x0f) ;;
  tcg_out8 opc.

Definition tcg_out_modrm (opc r rm : Z) : out unit :=
  tcg_out_opc opc r rm 0 ;;
  tcg_out8 (Z.lor (Z.lor 0xc0 (Z.shiftl (LOWREGMASK r) 3)) (LOWREGMASK rm)).

(** The part of [tcg_out_modrm_sib_offset] without base and index register:
    RIP-relative if the address is near, else absolute. *)
Definition tcg_out_modrm_absolute (opc r rm offset : Z) : out unit :=
  ptr ← get_ptr;
  let pc := s64 (ptr + 5 + Z.lnot rm) in
  let disp := s64 (offset - pc) in
  if disp =? s32 disp then
    tcg_out_opc opc r 0 0 ;;
    tcg_out8 (Z.lor (Z.shiftl (LOWREGMASK r) 3) 5) ;;
    tcg_out32 disp
  else if offset =? s32 offset then
    tcg_out_opc opc r 0 0 ;;
    tcg_out8 (Z.lor (Z.shiftl (LOWREGMASK r) 3) 4) ;;
    tcg_out8 (Z.lor (Z.shiftl 4 3) 5) ;;
    tcg_out32 offset
  else fail TcgAbort.

Definition tcg_out_modrm_sib_offset (opc r rm index shift offset : Z) : out unit :=
  if (index <? 0) && (rm <? 0) then tcg_out_modrm_absolute opc r rm offset
  else
    let '(md, len, rm) :=
      if rm <? 0 then (0, 4, 5)
      else if (offset =? 0) && negb (LOWREGMASK rm =? TCG_REG_EBP) then (0, 0, rm)
      else if offset =? s8 offset then (0x40, 1, rm)
      else (0x80, 4, rm) in
    (if (index <? 0) && negb (LOWREGMASK rm =? TCG_REG_ESP) then
       tcg_out_opc opc r rm 0 ;;
       tcg_out8 (Z.lor (Z.lor md (Z.shiftl (LOWREGMASK r) 3)) (LOWREGMASK rm))
     else
       index ← (if index <? 0 then mret 4
                else if index =? TCG_REG_ESP then fail AssertFailed else mret index);
       tcg_out_opc opc r rm index ;;
       tcg_out8 (Z.lor (Z.lor md (Z.shiftl (LOWREGMASK r) 3)) 4) ;;
       tcg_out8 (Z.lor (Z.lor (Z.shiftl shift 6) (Z.shiftl (LOWREGMASK index) 3))
                   (LOWREGMASK rm))) ;;
    (if len =? 1 then tcg_out8 offset
     else if len =? 4 then tcg_out32 offset else skip).

Definition tcg_out_modrm_offset (opc r rm offset : Z) : out unit :=
  tcg_out_modrm_sib_offset opc r rm (-1) 0 offset.

Definition tgen_arithr (subop dest src : Z) : out unit :=
  let ext := Z.land subop (Z.lnot 7) in
  let subop := Z.land subop 7 in
  tcg_out_modrm (OPC_ARITH_GvEv + Z.shiftl subop 3 + ext) dest src.

Definition tcg_out_mov (type : TCGType) (ret arg : Z) : out unit :=
  when_out (negb (arg =? ret)) (tcg_out_modrm (OPC_MOVL_GvEv + rexw_of type) ret arg).

Definition is_I32 (t : TCGType) : bool :=
  match t with TCG_TYPE_I32 => true | TCG_TYPE_I64 => false end.

Definition tcg_out_movi (type : TCGType) (ret arg : Z) : out unit :=
  if arg =? 0 then tgen_arithr ARITH_XOR ret ret
  else if (arg =? u32 arg) || is_I32 type then
    tcg_out_opc (OPC_MOVL_Iv + LOWREGMASK ret) 0 ret 0 ;;
    tcg_out32 arg
  else if arg =? s32 arg then
    tcg_out_modrm (OPC_MOVL_EvIz + P_REXW) 0 ret ;;
    tcg_out32 arg
  else
    ptr ← get_ptr;
    let diff := s64 (arg - (ptr + 7)) in
    if diff =? s32 diff then
      tcg_out_opc (Z.lor OPC_LEA P_REXW) ret 0 0 ;;
      tcg_out8 (Z.lor (Z.shiftl (LOWREGMASK ret) 3) 5) ;;
      tcg_out32 diff
    else
      tcg_out_opc (OPC_MOVL_Iv + P_REXW + LOWREGMASK ret) 0 ret 0 ;;
      tcg_out64 arg.

Definition tcg_out_pushi (val : Z) : out unit :=
  if val =? s8 val then
    tcg_out_opc OPC_PUSH_Ib 0 0 0 ;; tcg_out8 val
  else if val =? s32 val then
    tcg_out_opc OPC_PUSH_Iv 0 0 0 ;; tcg_out32 val
  else fail TcgAbort.

Definition tcg_out_push (reg : Z) : out unit :=
  tcg_out_opc (OPC_PUSH_r32 + LOWREGMASK reg) 0 reg 0.
Definition tcg_out_pop (reg : Z) : out unit :=
  tcg_out_opc (OPC_POP_r32 + LOWREGMASK reg) 0 reg 0.

Definition tcg_out_ld (type : TCGType) (ret arg1 arg2 : Z) : out unit :=
  tcg_out_modrm_offset (OPC_MOVL_GvEv + rexw_of type) ret arg1 arg2.
Definition tcg_out_st (type : TCGType) (arg arg1 arg2 : Z) : out unit :=
  tcg_out_modrm_offset (OPC_MOVL_EvGv + rexw_of type) arg arg1 arg2.
Definition tcg_out_sti (type : TCGType) (base ofs val : Z) : out unit :=
  tcg_out_modrm_offset (OPC_MOVL_EvIz + rexw_of type) 0 base ofs ;;
  tcg_out32 val.

Definition tcg_out_shifti (subopc reg count : Z) : out unit :=
  let ext := Z.land subopc (Z.lnot 7) in
  let subopc := Z.land subopc 7 in
  if count =? 1 then tcg_out_modrm (OPC_SHIFT_1 + ext) subopc reg
  else tcg_out_modrm (OPC_SHIFT_Ib + ext) subopc reg ;; tcg_out8 count.

Definition tcg_out_bswap32 (reg : Z) : out unit :=
  tcg_out_opc (OPC_BSWAP + LOWREGMASK reg) 0 reg 0.
Definition tcg_out_rolw_8 (reg : Z) : out unit :=
  tcg_out_shifti (SHIFT_ROL + P_DATA16) reg 8.
Definition tcg_out_ext8u (dest src : Z) : out unit :=
  tcg_out_modrm (OPC_MOVZBL + P_REXB_RM) dest src.
Definition tcg_out_ext8s (dest src rexw : Z) : out unit :=
  tcg_out_modrm (OPC_MOVSBL + P_REXB_RM + rexw) dest src.
Definition tcg_out_ext16u (dest src : Z) : out unit :=
  tcg_out_modrm OPC_MOVZWL dest src.
Definition tcg_out_ext16s (dest src rexw : Z) : out unit :=
  tcg_out_modrm (OPC_MOVSWL + rexw) dest src.
Definition tcg_out_ext32u (dest src : Z) : out unit :=
  tcg_out_modrm OPC_MOVL_GvEv dest src.
Definition tcg_out_ext32s (dest src : Z) : out unit :=
  tcg_out_modrm OPC_MOVSLQ dest src.
Definition tcg_out_bswap64 (reg : Z) : out unit :=
  tcg_out_opc (OPC_BSWAP + P_REXW + LOWREGMASK reg) 0 reg 0.

Definition tgen_arithi (c r0 val : Z) (cf : bool) : out unit :=
  let rexw := Z.land c (-8) in
  let c := Z.land c 7 in
  if negb cf && ((c =? ARITH_ADD) || (c =? ARITH_SUB)) && ((val =? 1) || (val =? -1)) then
    let is_inc := xorb (c =? ARITH_ADD) (val <? 0) in
    tcg_out_modrm (OPC_GRP5 + rexw) (if is_inc then EXT5_INC_Ev else EXT5_DEC_Ev) r0
  else if (c =? ARITH_AND) && (val =? 0xffffffff) then tcg_out_ext32u r0 r0
  else
    let rexw := if (c =? ARITH_AND) && (val =? u32 val) then 0 else rexw in
    if (c =? ARITH_AND) && (val =? 0xff) then tcg_out_ext8u r0 r0
    else if (c =? ARITH_AND) && (val =? 0xffff) then tcg_out_ext16u r0 r0
    else if val =? s8 val then
      tcg_out_modrm (OPC_ARITH_EvIb + rexw) c r0 ;; tcg_out8 val
    else if (rexw =? 0) || (val =? s32 val) then
      tcg_out_modrm (OPC_ARITH_EvIz + rexw) c r0 ;; tcg_out32 val
    else fail TcgAbort.

Definition tcg_out_addi (reg val : Z) : out unit :=
  when_out (negb (val =? 0)) (tgen_arithi (ARITH_ADD + P_REXW) reg val false).

Definition tcg_out_jxx (opc label_index : Z) (small : bool) : out unit :=
  l ← get_label label_index;
  match l with
  | LValue value =>
      ptr ← get_ptr;
      let val := s32 (value - ptr) in
      let val1 := s32 (val - 2) in
      if s8 val1 =? val1 then
        (if opc =? -1 then tcg_out8 OPC_JMP_short else tcg_out8 (OPC_JCC_short + opc)) ;;
        tcg_out8 val1
      else if small then fail TcgAbort
      else if opc =? -1 then tcg_out8 OPC_JMP_long ;; tcg_out32 (val - 5)
      else tcg_out_opc (OPC_JCC_long + opc) 0 0 0 ;; tcg_out32 (val - 6)
  | LRelocs _ =>
      if small then
        (if opc =? -1 then tcg_out8 OPC_JMP_short else tcg_out8 (OPC_JCC_short + opc)) ;;
        ptr ← get_ptr;
        tcg_out_reloc ptr R_386_PC8 label_index (-1) ;;
        advance 1
      else
        (if opc =? -1 then tcg_out8 OPC_JMP_long
         else tcg_out_opc (OPC_JCC_long + opc) 0 0 0) ;;
        ptr ← get_ptr;
        tcg_out_reloc ptr R_386_PC32 label_index (-4) ;;
        advance 4
  end.

Definition tcg_out_cmp (arg1 arg2 : Z) (const_arg2 : bool) (rexw : Z) : out unit :=
  if const_arg2 then
    if arg2 =? 0 then tcg_out_modrm (OPC_TESTL + rexw) arg1 arg1
    else tgen_arithi (ARITH_CMP + rexw) arg1 arg2 false
  else tgen_arithr (ARITH_CMP + rexw) arg1 arg2.

Definition tcg_out_brcond32 (cond : TCGCond) (arg1 arg2 : Z) (const_arg2 : bool)
    (label_index : Z) (small : bool) : out unit :=
  tcg_out_cmp arg1 arg2 const_arg2 0 ;;
  tcg_out_jxx (tcg_cond_to_jcc cond) label_index small.
Definition tcg_out_brcond64 (cond : TCGCond) (arg1 arg2 : Z) (const_arg2 : bool)
    (label_index : Z) (small : bool) : out unit :=
  tcg_out_cmp arg1 arg2 const_arg2 P_REXW ;;
  tcg_out_jxx (tcg_cond_to_jcc cond) label_index small.

Definition tcg_out_setcond32 (cond : TCGCond) (dest arg1 arg2 : Z) (const_arg2 : bool)
    : out unit :=
  tcg_out_cmp arg1 arg2 const_arg2 0 ;;
  tcg_out_modrm (Z.lor OPC_SETCC (tcg_cond_to_jcc cond)) 0 dest ;;
  tcg_out_ext8u dest dest.
Definition tcg_out_setcond64 (cond : TCGCond) (dest arg1 arg2 : Z) (const_arg2 : bool)
    : out unit :=
  tcg_out_cmp arg1 arg2 const_arg2 P_REXW ;;
  tcg_out_modrm (Z.lor OPC_SETCC (tcg_cond_to_jcc cond)) 0 dest ;;
  tcg_out_ext8u dest dest.

(** [have_cmov] is 1 on a 64-bit host. *)
Definition tcg_out_movcond32 (cond : TCGCond) (dest c1 c2 : Z) (const_c2 : bool) (v1 : Z)
    : out unit :=
  tcg_out_cmp c1 c2 const_c2 0 ;;
  tcg_out_modrm (Z.lor OPC_CMOVCC (tcg_cond_to_jcc cond)) dest v1.
Definition tcg_out_movcond64 (cond : TCGCond) (dest c1 c2 : Z) (const_c2 : bool) (v1 : Z)
    : out unit :=
  tcg_out_cmp c1 c2 const_c2 P_REXW ;;
  tcg_out_modrm (Z.lor (Z.lor OPC_CMOVCC (tcg_cond_to_jcc cond)) P_REXW) dest v1.

Definition tcg_out_branch (call : bool) (dest : Z) : out unit :=
  ptr ← get_ptr;
  let disp := s64 (dest - ptr - 5) in
  if disp =? s32 disp then
    tcg_out_opc (if call then OPC_CALL_Jz else OPC_JMP_long) 0 0 0 ;;
    tcg_out32 disp
  else
    tcg_out_movi TCG_TYPE_PTR TCG_REG_R10 (s64 dest) ;;
    tcg_out_modrm OPC_GRP5 (if call then EXT5_CALLN_Ev else EXT5_JMPN_Ev) TCG_REG_R10.

Definition tcg_out_calli (dest : Z) : out unit := tcg_out_branch true dest.
Definition tcg_out_jmp (dest : Z) : out unit := tcg_out_branch false dest.

(** An empty code buffer to evaluate the emitters with. *)
Definition demo_ctx : TCGContext :=
  mkTCG 0x10000 [] (fun _ => 0) [] [] [0; 0; 0; 0] [0; 0] [0; 0].
