(* ===== verification/TcgEnc.v ===== *)
(** * What the emitters encode

    The bytes written by the emitters of [TcgOut] decode to the intended
    instruction: first the opcode with its prefixes, then the address forms,
    then every emitter as straight-line code with its effect on registers,
    memory and flags. *)

From S2P Require Import Prelude X86 TcgOut.

(** ** Emitted bytes *)

Definition emitted (m : out unit) (s : TCGContext) (bs : list Z) : Prop :=
  m s = Ok (tt, add_code bs s).

Lemma add_code_nil s : add_code [] s = s.
Proof. destruct s. unfold add_code, set_code. cbn. by rewrite app_nil_r. Qed.

Lemma add_code_app a b s : add_code (a ++ b) s = add_code b (add_code a s).
Proof. unfold add_code, set_code. cbn. by rewrite app_assoc. Qed.

Lemma code_ptr_add bs s : code_ptr (add_code bs s) = code_ptr s + Z.of_nat (length bs).
Proof. unfold code_ptr. cbn. rewrite length_app. lia. Qed.

Lemma emitted_seq m1 m2 s b1 b2 :
  emitted m1 s b1 -> emitted m2 (add_code b1 s) b2 -> emitted (m1 ;; m2) s (b1 ++ b2).
Proof.
  unfold emitted. intros H1 H2. unfold mbind, out_bind. rewrite H1, add_code_app. done.
Qed.

Lemma emitted_skip s : emitted skip s [].
Proof. unfold emitted. rewrite add_code_nil. done. Qed.

Lemma emitted_when b m s bs :
  (b = true -> emitted m s bs) -> emitted (when_out b m) s (if b then bs else []).
Proof. destruct b; cbn; [auto|]. intros _. apply emitted_skip. Qed.

Lemma emitted_out8 v s : emitted (tcg_out8 v) s [u8 v].
Proof. done. Qed.
Lemma emitted_out32 v s : emitted (tcg_out32 v) s (bytes_le 4 v).
Proof. done. Qed.
Lemma emitted_out64 v s : emitted (tcg_out64 v) s (bytes_le 8 v).
Proof. done. Qed.

Lemma emitted_get_ptr m s bs :
  emitted (m (code_ptr s)) s bs -> emitted (ptr ← get_ptr; m ptr) s bs.
Proof. done. Qed.

(** ** Opcodes *)

Definition reg_ok (r : Z) : Prop := 0 <= r < 16.

Lemma reg_ok_0 : reg_ok 0.
Proof. unfold reg_ok. lia. Qed.
#[export] Hint Resolve reg_ok_0 : core.

(** A check over all registers. *)
Definition all_regs : list Z := seqZ 0 16.

Lemma all_regs_forall (P : Z -> bool) r :
  forallb P all_regs = true -> reg_ok r -> P r = true.
Proof.
  intros H Hr. rewrite forallb_forall in H. apply H.
  apply list_elem_of_In. unfold all_regs. rewrite elem_of_seqZ. unfold reg_ok in Hr. lia.
Qed.

Definition opc_bytes (opc r rm x : Z) : list Z :=
  let rex := opc_rex opc r rm x in
  (if testb opc P_DATA16 then [0x66] else []) ++
  (if rex =? 0 then [] else [u8 (Z.lor rex 0x40)]) ++
  (if testb opc P_EXT then [0x0f] else []) ++ [u8 opc].

(** The opcodes used with guest memory reached through the software MMU: no
    segment override, no 32-bit addresses. *)
Definition opc_ok (opc : Z) : Prop :=
  testb opc P_GS = false /\ testb opc P_ADDR32 = false /\
  (testb opc P_DATA16 = false \/ testb opc P_REXW = false).

Lemma emitted_opc opc r rm x s :
  opc_ok opc -> emitted (tcg_out_opc opc r rm x) s (opc_bytes opc r rm x).
Proof.
  intros (Hg & Ha & Hd). unfold tcg_out_opc, opc_bytes. rewrite Hg, Ha.
  apply (emitted_seq _ _ s []); [apply emitted_skip|].
  apply emitted_seq.
  { apply emitted_when. intros Ht. destruct Hd as [Hd|Hd]; [congruence|].
    unfold testb in Hd. apply negb_false_iff in Hd. rewrite Hd.
    apply (emitted_seq skip (tcg_out8 0x66) _ []); [apply emitted_skip|done]. }
  apply (emitted_seq _ _ _ []); [apply emitted_skip|].
  replace (if opc_rex opc r rm x =? 0 then [] else [u8 (Z.lor (opc_rex opc r rm x) 64)])
    with (if negb (opc_rex opc r rm x =? 0) then [u8 (Z.lor (opc_rex opc r rm x) 64)] else [])
    by (by destruct (opc_rex opc r rm x =? 0)).
  apply emitted_seq; [apply emitted_when; intros _; unfold emitted, tcg_out8, modify|].
  { by rewrite wrap_wrap. }
  apply emitted_seq; [by apply emitted_when|done].
Qed.

(** What the decoder sees of an opcode. *)
Definition has_rex (opc r rm x : Z) : bool := negb (opc_rex opc r rm x =? 0).
Definition head_of (opc r rm x : Z) : head :=
  mkHead (testb opc P_DATA16) (has_rex opc r rm x) (testb opc P_REXW)
    (8 <=? r) (8 <=? x) (8 <=? rm) (testb opc P_EXT) (u8 opc).

(** An opcode byte that is not a prefix. *)
Definition opc_plain (opc : Z) : bool :=
  testb opc P_EXT ||
  (negb (u8 opc =? 0x66) && negb (u8 opc =? 0x0f) && negb (Z.shiftr (u8 opc) 4 =? 4)).

(** The REX byte as a function of three flags and the registers. *)
Definition rex_bits (w br brm : bool) (r rm x : Z) : Z :=
  let rex := if w then 8 else 0 in
  let rex := Z.lor rex (Z.shiftr (Z.land r 8) 1) in
  let rex := Z.lor rex (Z.shiftr (Z.land x 8) 2) in
  let rex := Z.lor rex (Z.shiftr (Z.land rm 8) 3) in
  let rex := Z.lor rex (if br then P_REXB_R else 0) in
  Z.lor rex (if brm then P_REXB_RM else 0).

Definition rex_check (w br brm : bool) (r rm x : Z) : bool :=
  let rex := rex_bits w br brm r rm x in
  let b := u8 (Z.lor rex 0x40) in
  (Z.shiftr b 4 =? 4) && negb (b =? 0x66) &&
  eqb (Z.testbit b 3) w && eqb (Z.testbit b 2) (8 <=? r) &&
  eqb (Z.testbit b 1) (8 <=? x) && eqb (Z.testbit b 0) (8 <=? rm) &&
  (negb (rex =? 0) || (negb w && negb (8 <=? r) && negb (8 <=? x) && negb (8 <=? rm))).

Lemma rex_check_all w br brm r rm x :
  reg_ok r -> reg_ok rm -> reg_ok x -> rex_check w br brm r rm x = true.
Proof.
  intros Hr Hrm Hx.
  assert (forallb (fun r => forallb (fun rm => forallb (rex_check w br brm r rm) all_regs)
            all_regs) all_regs = true) as H
    by (destruct w, br, brm; vm_compute; reflexivity).
  apply (all_regs_forall _ r) in H; [|done]. apply (all_regs_forall _ rm) in H; [|done].
  by apply (all_regs_forall _ x) in H.
Qed.

Lemma opc_rex_bits opc r rm x :
  opc_rex opc r rm x =
  rex_bits (testb opc P_REXW) (testb opc P_REXB_R && (4 <=? r))
    (testb opc P_REXB_RM && (4 <=? rm)) r rm x.
Proof.
  unfold opc_rex, rex_bits, testb.
  change P_REXW with (2 ^ 11). change P_REXB_R with (2 ^ 12). change P_REXB_RM with (2 ^ 13).
  rewrite !land_pow2 by lia.
  destruct (Z.testbit opc 11), (4 <=? r), (4 <=? rm); rewrite ?land_pow2, ?Z.land_0_r by lia;
    destruct (Z.testbit opc 12), (Z.testbit opc 13); reflexivity.
Qed.

Lemma dec_opcode_plain d16 rex rx ext b :
  ext || negb (b =? 0x0f) = true ->
  dec_opcode d16 rex rx ((if ext : bool then [0x0f] else []) ++ [b]) =
    Some (mkHead d16 rex (Z.testbit rx 3) (Z.testbit rx 2) (Z.testbit rx 1)
            (Z.testbit rx 0) ext b, []).
Proof. destruct ext; cbn; [done|]. intros ->%negb_true_iff. done. Qed.

Lemma dec_rex_none d16 ext b :
  ext || (negb (b =? 0x0f) && negb (Z.shiftr b 4 =? 4)) = true ->
  dec_rex d16 ((if ext : bool then [0x0f] else []) ++ [b]) =
    Some (mkHead d16 false false false false false ext b, []).
Proof.
  intros H. destruct ext; [done|]. cbn [orb] in H.
  apply andb_true_iff in H as [H1 H2%negb_true_iff].
  unfold dec_rex. cbn [app]. rewrite H2.
  by apply (dec_opcode_plain d16 false 0 false b).
Qed.

Lemma dec_head_opc opc r rm x k :
  opc_plain opc = true -> reg_ok r -> reg_ok rm -> reg_ok x ->
  dec_head (opc_bytes opc r rm x ++ k) = Some (head_of opc r rm x, k).
Proof.
  intros Hp Hr Hrm Hx. apply (dec_head_app _ _ []).
  unfold opc_bytes, head_of, has_rex. rewrite opc_rex_bits.
  pose proof (rex_check_all (testb opc P_REXW) (testb opc P_REXB_R && (4 <=? r))
    (testb opc P_REXB_RM && (4 <=? rm)) r rm x Hr Hrm Hx) as Hc.
  unfold rex_check in Hc. set (rex := rex_bits _ _ _ _ _ _) in *.
  unfold opc_plain in Hp. set (b := u8 opc) in *. set (p := u8 (Z.lor rex 0x40)) in *.
  rewrite !andb_true_iff in Hc. destruct Hc as ((((((H1 & H2) & H3) & H4) & H5) & H6) & H7).
  apply negb_true_iff in H2. apply eqb_prop in H3, H4, H5, H6.
  set (ext := testb opc P_EXT) in *.
  assert (ext || negb (b =? 0x0f) = true) as Hop.
  { destruct ext; [done|]. cbn in *. destruct (b =? 0x0f); [|done].
    by rewrite andb_false_r in Hp. }
  assert (ext || (negb (b =? 0x0f) && negb (Z.shiftr b 4 =? 4)) = true) as Hnr.
  { destruct ext; [done|]. cbn in *. destruct (b =? 0x66); done. }
  destruct (rex =? 0); cbn [negb orb app] in H7 |- *.
  - rewrite !andb_true_iff, !negb_true_iff in H7. destruct H7 as (((-> & ->) & ->) & ->).
    rewrite <- (dec_rex_none _ ext b) by done.
    destruct (testb opc P_DATA16); [done|]. cbn [app]. unfold dec_head.
    destruct ext; cbn [app orb negb andb] in *; [done|].
    destruct (b =? 0x66); [done|]. done.
  - rewrite <- H3, <- H4, <- H5, <- H6, <- dec_opcode_plain by done.
    destruct (testb opc P_DATA16); cbn [app dec_head].
    + change (0x66 =? 0x66) with true. cbn iota. unfold dec_rex. by rewrite H1.
    + rewrite H2. unfold dec_rex. by rewrite H1.
Qed.

(** ** ModRM and SIB bytes *)

Definition modrm_byte (md r rm : Z) : Z :=
  Z.lor (Z.lor md (Z.shiftl (LOWREGMASK r) 3)) (LOWREGMASK rm).

Definition modrm_check (md r rm : Z) : bool :=
  let m := modrm_byte md r rm in
  (u8 m =? m) && (Z.shiftr m 6 =? Z.shiftr md 6) &&
  (bit8 (8 <=? r) (Z.land (Z.shiftr m 3) 7) =? r) && (Z.land m 7 =? LOWREGMASK rm) &&
  (bit8 (8 <=? rm) (LOWREGMASK rm) =? rm).

Lemma modrm_fields md r rm :
  md ∈ [0; 0x40; 0x80; 0xc0] -> reg_ok r -> reg_ok rm ->
  let m := modrm_byte md r rm in
  u8 m = m /\ Z.shiftr m 6 = Z.shiftr md 6 /\
  bit8 (8 <=? r) (Z.land (Z.shiftr m 3) 7) = r /\ Z.land m 7 = LOWREGMASK rm /\
  bit8 (8 <=? rm) (LOWREGMASK rm) = rm.
Proof.
  intros Hmd Hr Hrm m.
  assert (forallb (fun md => forallb (fun r => forallb (modrm_check md r) all_regs) all_regs)
            [0; 0x40; 0x80; 0xc0] = true) as H by (vm_compute; reflexivity).
  rewrite forallb_forall in H. specialize (H md). rewrite <- list_elem_of_In in H.
  specialize (H Hmd). apply (all_regs_forall _ r) in H; [|done].
  apply (all_regs_forall _ rm) in H; [|done]. unfold modrm_check in H.
  rewrite !andb_true_iff, !Z.eqb_eq in H. fold m in H. tauto.
Qed.

Definition sib_byte (shift index rm : Z) : Z :=
  Z.lor (Z.lor (Z.shiftl shift 6) (Z.shiftl (LOWREGMASK index) 3)) (LOWREGMASK rm).

Definition sib_check (shift index rm : Z) : bool :=
  let m := sib_byte shift index rm in
  (u8 m =? m) && (Z.shiftr m 6 =? shift) &&
  (bit8 (8 <=? index) (Z.land (Z.shiftr m 3) 7) =? index) &&
  (Z.land m 7 =? LOWREGMASK rm).

Lemma sib_fields shift index rm :
  0 <= shift < 4 -> reg_ok index -> reg_ok rm ->
  let m := sib_byte shift index rm in
  u8 m = m /\ Z.shiftr m 6 = shift /\
  bit8 (8 <=? index) (Z.land (Z.shiftr m 3) 7) = index /\ Z.land m 7 = LOWREGMASK rm.
Proof.
  intros Hs Hi Hrm m.
  assert (forallb (fun s => forallb (fun i => forallb (sib_check s i) all_regs) all_regs)
            (seqZ 0 4) = true) as H by (vm_compute; reflexivity).
  rewrite forallb_forall in H. specialize (H shift).
  rewrite <- list_elem_of_In, elem_of_seqZ in H. specialize (H ltac:(lia)).
  apply (all_regs_forall _ index) in H; [|done].
  apply (all_regs_forall _ rm) in H; [|done]. unfold sib_check in H.
  rewrite !andb_true_iff, !Z.eqb_eq in H. fold m in H. tauto.
Qed.

(** The rest of an instruction after its operand. *)
Definition finish (h : head) (reg : Z) (e : ea) (k : list Z) : option (instr * list Z) :=
  match imm_size h with
  | O => i ← mk_modrm h reg e 0; Some (i, k)
  | n => '(imm, k) ← dec_num n k; i ← mk_modrm h reg e imm; Some (i, k)
  end.

Definition is_modrm (opc : Z) : bool :=
  opc_plain opc && match dec_plain (head_of opc 0 0 0) [] with None => true | _ => false end.

Lemma dec_plain_modrm opc r rm x l :
  is_modrm opc = true -> dec_plain (head_of opc r rm x) l = None.
Proof.
  unfold is_modrm. intros [_ H]%andb_true_iff. revert H. unfold dec_plain, head_of.
  cbn [h_ext h_op h_b h_w h_data16]. repeat case_match; try done.
Qed.

(** [bs] encodes the opcode [opc] with register field [r] and operand [e], up
    to an immediate. *)
Definition encodes_ea (bs : list Z) (opc r rm x : Z) (e : ea) : Prop :=
  (length bs <= 10)%nat /\
  forall k, decode (bs ++ k) = finish (head_of opc r rm x) r e k.

Lemma length_opc_bytes opc r rm x : (length (opc_bytes opc r rm x) <= 4)%nat.
Proof. unfold opc_bytes. repeat case_match; cbn; lia. Qed.

(** From the fields after the opcode to the whole instruction. *)
Lemma encodes_ea_intro opc r rm x tl f e ds :
  is_modrm opc = true -> reg_ok r -> reg_ok rm -> reg_ok x ->
  (length tl + length ds <= 6)%nat ->
  (forall k, dec_modrm (head_of opc r rm x) (tl ++ k) = Some (r, f, k)) ->
  (forall k, dec_ea f (ds ++ k) = Some (e, k)) ->
  encodes_ea (opc_bytes opc r rm x ++ tl ++ ds) opc r rm x e.
Proof.
  intros Hm Hr Hrm Hx Hl Hd He. split.
  { rewrite !length_app. pose proof (length_opc_bytes opc r rm x). lia. }
  intros k. rewrite <- !app_assoc. unfold decode. rewrite dec_head_opc; try done;
    [|by unfold is_modrm in Hm; apply andb_true_iff in Hm as []].
  cbn [mbind option_bind]. rewrite dec_plain_modrm by done.
  rewrite Hd. cbn [mbind option_bind]. unfold dec_operands. by rewrite He.
Qed.

Lemma emitted_modrm opc r rm s :
  opc_ok opc -> is_modrm opc = true -> reg_ok r -> reg_ok rm ->
  exists bs, emitted (tcg_out_modrm opc r rm) s bs /\ encodes_ea bs opc r rm 0 (EReg rm).
Proof.
  intros Hok Hm Hr Hrm.
  destruct (modrm_fields 0xc0 r rm) as (E0 & E1 & E2 & E3 & E4); [rewrite !elem_of_cons; tauto|done..|].
  exists (opc_bytes opc r rm 0 ++ [modrm_byte 0xc0 r rm] ++ []). split.
  - apply emitted_seq; [by apply emitted_opc|]. rewrite app_nil_r, <- E0. done.
  - apply (encodes_ea_intro _ _ _ _ _ (RmReg rm)); try done; [cbn; lia|].
    intros k. cbn [app]. unfold dec_modrm. rewrite E1. cbn [head_of h_r h_b]. rewrite E2, E3, E4. done.
Qed.

Lemma md_memory md : md ∈ [0; 0x40; 0x80] -> md ∈ [0; 0x40; 0x80; 0xc0].
Proof. rewrite !elem_of_cons. tauto. Qed.

(** Membership of a literal in a literal list. *)
Ltac in_list := rewrite ?elem_of_cons; tauto.

Definition disp_size (md : Z) : nat :=
  if Z.shiftr md 6 =? 0 then 0%nat else if Z.shiftr md 6 =? 1 then 1%nat else 4%nat.

(** The displacement forms: the mod bits, the bytes and how they are read. *)
Record disp_form (rm offset md len : Z) (n : nat) (ds : list Z) : Prop := {
  df_md : md ∈ [0; 0x40; 0x80];
  df_n : n = disp_size md;
  df_len : (length ds <= 4)%nat;
  df_emit : forall s, emitted (if len =? 1 then tcg_out8 offset
                               else if len =? 4 then tcg_out32 offset else skip) s ds;
  df_dec : forall b i k, dec_ea (RmMem b i n) (ds ++ k) = Some (EMem b i (s32 offset), k);
  df_base : md = 0 -> LOWREGMASK rm <> 5
}.

Lemma disp_form_exists rm offset :
  0 <= rm ->
  exists md len n ds, disp_form rm offset md len n ds /\
    (if rm <? 0 then (0, 4, 5)
     else if (offset =? 0) && negb (LOWREGMASK rm =? TCG_REG_EBP) then (0, 0, rm)
     else if offset =? s8 offset then (0x40, 1, rm)
     else (0x80, 4, rm)) = (md, len, rm).
Proof.
  intros Hrm. rewrite (proj2 (Z.ltb_ge rm 0)) by done.
  destruct (_ && _) eqn:E1; [|destruct (Z.eqb_spec offset (s8 offset)) as [E2|E2]].
  - apply andb_true_iff in E1 as [->%Z.eqb_eq E%negb_true_iff%Z.eqb_neq].
    exists 0, 0, 0%nat, []. split; [|done].
    split; [in_list|done|cbn; lia|intros; apply emitted_skip|done|done].
  - exists 0x40, 1, 1%nat, (bytes_le 1 offset). split; [|done].
    split; [in_list|done|rewrite length_bytes_le; lia|done| |done].
    intros b i k. cbn [dec_ea]. rewrite dec_num_bytes by lia. cbn [mbind option_bind].
    change (8 * Z.of_nat 1) with 8. rewrite <- E2. rewrite (swrap_id 32 offset); [done|lia|].
    pose proof (swrap_range 8 offset ltac:(lia)). rewrite <- E2 in *. unfold in_s in *. lia.
  - exists 0x80, 4, 4%nat, (bytes_le 4 offset). split; [|done].
    split; [in_list|done|rewrite length_bytes_le; lia|done| |done].
    intros b i k. cbn [dec_ea]. rewrite dec_num_bytes by lia. cbn [mbind option_bind].
    by change (8 * Z.of_nat 4) with 32.
Qed.

(** ModRM without SIB. *)
Lemma dec_modrm_base opc r rm x md n k :
  reg_ok r -> reg_ok rm -> LOWREGMASK rm <> 4 ->
  md ∈ [0; 0x40; 0x80] ->
  n = disp_size md ->
  (md = 0 -> LOWREGMASK rm <> 5) ->
  dec_modrm (head_of opc r rm x) (modrm_byte md r rm :: k) =
    Some (r, RmMem (Some rm) None n, k).
Proof.
  intros Hr Hrm H4 Hmd -> H5.
  destruct (modrm_fields md r rm) as (_ & E1 & E2 & E3 & E4); [by apply md_memory|done..|].
  unfold dec_modrm. rewrite E1. cbn [head_of h_r h_b]. rewrite E2, E3, E4.
  rewrite (proj2 (Z.eqb_neq _ 4)) by done.
  rewrite !elem_of_cons in Hmd. destruct Hmd as [->|[->|[->|[]%elem_of_nil]]]; [|done..].
  cbn [Z.shiftr Z.shiftl Z.eqb andb]. rewrite (proj2 (Z.eqb_neq _ 5)) by auto. done.
Qed.

(** ModRM with SIB. *)
Lemma dec_modrm_sib opc r rm index shift md n k :
  reg_ok r -> reg_ok rm -> reg_ok index -> 0 <= shift < 4 ->
  md ∈ [0; 0x40; 0x80] ->
  n = disp_size md ->
  (md = 0 -> LOWREGMASK rm <> 5) ->
  dec_modrm (head_of opc r rm index)
    (modrm_byte md r 4 :: sib_byte shift index rm :: k) =
    Some (r, RmMem (Some rm) (if index =? 4 then None else Some (index, shift)) n, k).
Proof.
  intros Hr Hrm Hi Hs Hmd -> H5.
  destruct (modrm_fields md r 4) as (_ & E1 & E2 & E3 & _); [by apply md_memory|done|done|].
  destruct (sib_fields shift index rm) as (_ & F1 & F2 & F3); [done..|].
  destruct (modrm_fields 0 r rm) as (_ & _ & _ & _ & E5); [in_list|done..|].
  unfold dec_modrm. rewrite E1. cbn [head_of h_r h_b h_x].
  rewrite E2, E3, F1, F2, F3, E5.
  rewrite !elem_of_cons in Hmd. destruct Hmd as [->|[->|[->|[]%elem_of_nil]]]; [|done..].
  cbn [Z.shiftr Z.shiftl Z.eqb andb]. rewrite (proj2 (Z.eqb_neq _ 5)) by auto. done.
Qed.

(** The operand without SIB byte. *)
Lemma emitted_base opc r rm offset md len n ds s :
  opc_ok opc -> is_modrm opc = true -> reg_ok r -> reg_ok rm ->
  disp_form rm offset md len n ds -> LOWREGMASK rm <> 4 ->
  let bs := opc_bytes opc r rm 0 ++ [modrm_byte md r rm] ++ ds in
  emitted ((tcg_out_opc opc r rm 0 ;;
            tcg_out8 (Z.lor (Z.lor md (Z.shiftl (LOWREGMASK r) 3)) (LOWREGMASK rm))) ;;
           (if len =? 1 then tcg_out8 offset
            else if len =? 4 then tcg_out32 offset else skip)) s bs /\
  encodes_ea bs opc r rm 0 (EMem (Some rm) None (s32 offset)).
Proof.
  intros Hok Hm Hr Hrm [] Hl bs. split.
  - unfold bs. rewrite app_assoc. apply emitted_seq; [|done].
    apply emitted_seq; [by apply emitted_opc|].
    destruct (modrm_fields md r rm) as (E0 & _); [by apply md_memory|done..|]. by rewrite <- E0.
  - eapply encodes_ea_intro; try done; [cbn; lia|]. intros k. by apply dec_modrm_base.
Qed.

(** The operand with SIB byte; index 4 is none. *)
Lemma emitted_sib opc r rm x shift offset md len n ds s :
  opc_ok opc -> is_modrm opc = true -> reg_ok r -> reg_ok rm -> reg_ok x -> 0 <= shift < 4 ->
  disp_form rm offset md len n ds ->
  let bs := opc_bytes opc r rm x ++ [modrm_byte md r 4; sib_byte shift x rm] ++ ds in
  emitted ((tcg_out_opc opc r rm x ;;
            tcg_out8 (Z.lor (Z.lor md (Z.shiftl (LOWREGMASK r) 3)) 4) ;;
            tcg_out8 (Z.lor (Z.lor (Z.shiftl shift 6) (Z.shiftl (LOWREGMASK x) 3))
                        (LOWREGMASK rm))) ;;
           (if len =? 1 then tcg_out8 offset
            else if len =? 4 then tcg_out32 offset else skip)) s bs /\
  encodes_ea bs opc r rm x
    (EMem (Some rm) (if x =? 4 then None else Some (x, shift)) (s32 offset)).
Proof.
  intros Hok Hm Hr Hrm Hx Hs [] bs. split.
  - unfold bs. rewrite app_assoc. apply emitted_seq; [|done].
    apply emitted_seq; [by apply emitted_opc|]. apply (emitted_seq _ _ _ [_] [_]).
    + destruct (modrm_fields md r 4) as (E0 & _); [by apply md_memory|done..|]. by rewrite <- E0.
    + destruct (sib_fields shift x rm) as (E0 & _); [done..|]. by rewrite <- E0.
  - apply (encodes_ea_intro _ _ _ _ _
      (RmMem (Some rm) (if x =? 4 then None else Some (x, shift)) n)); try done; [cbn; lia|].
    intros k. by apply dec_modrm_sib.
Qed.

(** A displacement is truncated to 32 bits. *)
Lemma emitted_modrm_sib_offset opc r rm index shift offset s :
  opc_ok opc -> is_modrm opc = true -> reg_ok r -> reg_ok rm ->
  index < 0 \/ (reg_ok index /\ index <> 4) -> 0 <= shift < 4 ->
  exists bs, emitted (tcg_out_modrm_sib_offset opc r rm index shift offset) s bs /\
    encodes_ea bs opc r rm (Z.max 0 index)
      (EMem (Some rm) (if index <? 0 then None else Some (index, shift)) (s32 offset)).
Proof.
  intros Hok Hm Hr Hrm Hi Hs.
  destruct (disp_form_exists rm offset) as (md & len & n & ds & Hdf & E); [apply Hrm|].
  unfold tcg_out_modrm_sib_offset. rewrite (proj2 (Z.ltb_ge rm 0)) in * by apply Hrm.
  rewrite andb_false_r, E. clear E.
  destruct (Z.ltb_spec index 0) as [Hneg|Hpos]; cbn [andb].
  - replace (Z.max 0 index) with 0 by lia.
    destruct (Z.eqb_spec (LOWREGMASK rm) TCG_REG_ESP) as [E4|E4]; cbn [negb].
    + destruct (emitted_sib opc r rm 4 shift offset md len n ds s) as [He Hd]; try done.
      eexists. split; [exact He|]. exact Hd.
    + destruct (emitted_base opc r rm offset md len n ds s) as [He Hd]; try done. by eexists.
  - destruct Hi as [|[Hx H4]]; [lia|]. replace (Z.max 0 index) with index by lia.
    rewrite (proj2 (Z.eqb_neq index TCG_REG_ESP)) by done.
    destruct (emitted_sib opc r rm index shift offset md len n ds s) as [He Hd]; try done.
    rewrite (proj2 (Z.eqb_neq _ 4)) in Hd by done. by eexists.
Qed.

Lemma emitted_modrm_offset opc r rm offset s :
  opc_ok opc -> is_modrm opc = true -> reg_ok r -> reg_ok rm -> in_s 32 offset ->
  exists bs, emitted (tcg_out_modrm_offset opc r rm offset) s bs /\
    encodes_ea bs opc r rm 0 (EMem (Some rm) None offset).
Proof.
  intros Hok Hm Hr Hrm Ho.
  destruct (emitted_modrm_sib_offset opc r rm (-1) 0 offset s) as (bs & He & Hd); try done; [lia|].
  rewrite (swrap_id 32 offset) in Hd by (done || lia). by exists bs.
Qed.

(** ** Straight-line code *)

(** Code that runs from its first byte to its end with the effect [f]. *)
Definition straight (m : out unit) (f : dstate -> option dstate) : Prop :=
  forall s, exists bs, emitted m s bs /\
    forall cd d d', wf d -> code_at cd (code_ptr s) bs -> f d = Some d' ->
      steps cd (code_ptr s, d) (code_ptr (add_code bs s), d').

Lemma wf_exec pc i d pc' d' : wf d -> exec pc i d = Some (pc', d') -> wf d'.
Proof.
  intros Hwf H. destruct i; cbn [exec] in H;
    try (match type of H with (?x ≫= _) = _ => destruct x eqn:E end; cbn in H;
         try discriminate H; simplify_eq; try (by eapply wf_exec_plain); done);
    simplify_eq; auto with qtrace.
  apply wf_set_reg; [done|]. by apply wrap_range.
Qed.

Lemma wf_steps cd x y : wf x.2 -> steps cd x y -> wf y.2.
Proof.
  intros Hwf H. induction H as [x|x y z (i & rest & _ & E) _ IH]; [done|].
  apply IH. destruct y. by eapply wf_exec.
Qed.

Lemma straight_seq m1 m2 f g :
  straight m1 f -> straight m2 g -> straight (m1 ;; m2) (fun d => f d ≫= g).
Proof.
  intros H1 H2 s. destruct (H1 s) as (b1 & E1 & S1).
  destruct (H2 (add_code b1 s)) as (b2 & E2 & S2).
  exists (b1 ++ b2). split; [by apply emitted_seq|].
  intros cd d d' Hwf [Hc1 Hc2]%code_at_app Hf.
  apply bind_Some in Hf as (d1 & Hf & Hg).
  specialize (S1 cd d d1 Hwf Hc1 Hf). rewrite add_code_app.
  etrans; [exact S1|]. apply S2; [|by rewrite code_ptr_add|done].
  by apply (wf_steps cd (code_ptr s, d) _ Hwf) in S1.
Qed.

Lemma straight_skip : straight skip Some.
Proof.
  intros s. exists []. split; [apply emitted_skip|]. intros cd d d' _ _ ?; simplify_eq.
  by rewrite add_code_nil.
Qed.

Lemma straight_when b m f :
  straight m f -> straight (when_out b m) (fun d => if b then f d else Some d).
Proof. destruct b; [done|]. intros _. apply straight_skip. Qed.

Lemma straight_ext m f g : straight m f -> (forall d, wf d -> f d = g d) -> straight m g.
Proof.
  intros H E s. destruct (H s) as (bs & He & Hs). exists bs. split; [done|].
  intros cd d d' Hwf Hc Hg. apply Hs; [done..|]. by rewrite E.
Qed.

(** Instructions whose effect does not depend on where they are. *)
Definition pc_free_ea (e : ea) : bool := match e with ERip _ => false | _ => true end.
Definition pc_free (i : instr) : bool :=
  match i with
  | IArithRM _ _ _ e | IArithI _ _ e _ | ITest _ e _ | IMovRM _ _ e | IMovMR _ e _
  | IMovMI _ e _ | ILea _ _ e | IMovzx _ _ e | IMovsx _ _ _ e | IShift _ _ e _
  | IInc _ e | IDec _ e | INot _ e | INeg _ e | IMul2 _ _ e | IDiv2 _ _ e
  | IImul _ _ e | IImulI _ _ e _ | ISetcc _ _ e | ICmov _ _ _ e => pc_free_ea e
  | _ => true
  end.

Definition run1 (i : instr) : dstate -> option dstate := exec_plain 0 i.

Lemma exec_plain_pc i pc d : pc_free i = true -> exec_plain pc i d = run1 i d.
Proof. unfold run1. destruct i; try done; destruct e; done. Qed.

Lemma straight_instr m i :
  pc_free i = true -> (forall s, exists bs, emitted m s bs /\ encodes bs i) ->
  straight m (run1 i).
Proof.
  intros Hp H s. destruct (H s) as (bs & He & Hi). exists bs. split; [done|].
  intros cd d d' Hwf Hc Hf. rewrite code_ptr_add. apply rtc_once.
  eapply step_plain; [done..|]. by rewrite exec_plain_pc.
Qed.

Lemma encodes_noimm bs opc r rm x e i :
  encodes_ea bs opc r rm x e -> imm_size (head_of opc r rm x) = 0%nat ->
  mk_modrm (head_of opc r rm x) r e 0 = Some i -> encodes bs i.
Proof.
  intros [Hl Hd] Hi Hm. split; [lia|]. rewrite <- (app_nil_r bs), Hd.
  unfold finish. by rewrite Hi, Hm.
Qed.

Lemma encodes_imm bs opc r rm x e n v i :
  encodes_ea bs opc r rm x e -> imm_size (head_of opc r rm x) = n -> (0 < n <= 4)%nat ->
  mk_modrm (head_of opc r rm x) r e (swrap (8 * Z.of_nat n) v) = Some i ->
  encodes (bs ++ bytes_le n v) i.
Proof.
  intros [Hl Hd] Hi Hn Hm. split; [rewrite length_app, length_bytes_le; lia|].
  rewrite Hd. unfold finish. rewrite Hi. destruct n as [|n]; [lia|].
  rewrite <- (app_nil_r (bytes_le _ _)), dec_num_bytes by lia. cbn [mbind option_bind].
  by rewrite Hm.
Qed.

Lemma straight_modrm opc r rm i :
  opc_ok opc -> is_modrm opc = true -> reg_ok r -> reg_ok rm ->
  imm_size (head_of opc r rm 0) = 0%nat ->
  mk_modrm (head_of opc r rm 0) r (EReg rm) 0 = Some i -> pc_free i = true ->
  straight (tcg_out_modrm opc r rm) (run1 i).
Proof.
  intros. apply straight_instr; [done|]. intros s.
  destruct (emitted_modrm opc r rm s) as (bs & He & Hi); [done..|].
  exists bs. split; [done|]. by eapply encodes_noimm.
Qed.

Lemma straight_modrm_imm8 opc r rm v i :
  opc_ok opc -> is_modrm opc = true -> reg_ok r -> reg_ok rm ->
  imm_size (head_of opc r rm 0) = 1%nat ->
  mk_modrm (head_of opc r rm 0) r (EReg rm) (s8 v) = Some i -> pc_free i = true ->
  straight (tcg_out_modrm opc r rm ;; tcg_out8 v) (run1 i).
Proof.
  intros. apply straight_instr; [done|]. intros s.
  destruct (emitted_modrm opc r rm s) as (bs & He & Hi); [done..|].
  exists (bs ++ bytes_le 1 v). split; [by apply emitted_seq|].
  eapply encodes_imm; [done..|lia|done].
Qed.

Lemma straight_modrm_imm32 opc r rm v i :
  opc_ok opc -> is_modrm opc = true -> reg_ok r -> reg_ok rm ->
  imm_size (head_of opc r rm 0) = 4%nat ->
  mk_modrm (head_of opc r rm 0) r (EReg rm) (s32 v) = Some i -> pc_free i = true ->
  straight (tcg_out_modrm opc r rm ;; tcg_out32 v) (run1 i).
Proof.
  intros. apply straight_instr; [done|]. intros s.
  destruct (emitted_modrm opc r rm s) as (bs & He & Hi); [done..|].
  exists (bs ++ bytes_le 4 v). split; [by apply emitted_seq|].
  eapply encodes_imm; [done..|lia|done].
Qed.

Lemma straight_modrm_offset opc r rm offset i :
  opc_ok opc -> is_modrm opc = true -> reg_ok r -> reg_ok rm -> in_s 32 offset ->
  imm_size (head_of opc r rm 0) = 0%nat ->
  mk_modrm (head_of opc r rm 0) r (EMem (Some rm) None offset) 0 = Some i ->
  pc_free i = true ->
  straight (tcg_out_modrm_offset opc r rm offset) (run1 i).
Proof.
  intros. apply straight_instr; [done|]. intros s.
  destruct (emitted_modrm_offset opc r rm offset s) as (bs & He & Hi); [done..|].
  exists bs. split; [done|]. by eapply encodes_noimm.
Qed.
