(* ===== verification/TcgEmit.v ===== *)
(** * The emitters as straight-line code

    Each emitter of tcg/i386/tcg-target.c with the effect of the code it
    writes: moves, constants, arithmetic, shifts, extensions, loads and stores,
    comparisons with the conditions that follow them. *)

From S2P Require Import Prelude X86 TcgOut TcgEnc.

(** ** Operations and their codes *)

Definition aop_code (op : aop) : Z :=
  match op with
  | Add => ARITH_ADD | Or => ARITH_OR | Adc => ARITH_ADC | Sbb => ARITH_SBB
  | And => ARITH_AND | Sub => ARITH_SUB | Xor => ARITH_XOR | Cmp => ARITH_CMP
  end.
Definition sop_code (op : sop) : Z :=
  match op with
  | Rol => SHIFT_ROL | Ror => SHIFT_ROR | Shl => SHIFT_SHL | Shr => SHIFT_SHR
  | Sar => SHIFT_SAR
  end.

(** The operand size of a TCG type, and the type of the code's [rexw]. *)
Definition twidth (t : TCGType) : width :=
  match t with TCG_TYPE_I32 => W32 | TCG_TYPE_I64 => W64 end.

(** Side conditions on concrete opcodes. *)
Ltac opc_side :=
  lazymatch goal with
  | |- opc_ok _ =>
      unfold opc_ok; split_and!; solve [reflexivity | left; reflexivity | right; reflexivity]
  | |- reg_ok _ => first [assumption | unfold reg_ok; cbv; split; congruence]
  | |- in_s _ _ => assumption
  | |- in_u _ _ => assumption
  | |- _ => reflexivity
  end.

(** ** Registers *)

Lemma straight_arithr op t dest src :
  reg_ok dest -> reg_ok src ->
  straight (tgen_arithr (aop_code op + rexw_of t) dest src)
    (run1 (IArithRM op (twidth t) dest (EReg src))).
Proof. intros. unfold tgen_arithr. destruct op, t; apply straight_modrm; opc_side. Qed.

Definition mov_effect (t : TCGType) (ret arg : Z) (d : dstate) : option dstate :=
  if negb (arg =? ret) then run1 (IMovRM (twidth t) ret (EReg arg)) d else Some d.

Lemma straight_mov t ret arg :
  reg_ok ret -> reg_ok arg -> straight (tcg_out_mov t ret arg) (mov_effect t ret arg).
Proof.
  intros. unfold tcg_out_mov. apply straight_when.
  destruct t; apply straight_modrm; opc_side.
Qed.

Lemma straight_ld t ret base ofs :
  reg_ok ret -> reg_ok base -> in_s 32 ofs ->
  straight (tcg_out_ld t ret base ofs)
    (run1 (IMovRM (twidth t) ret (EMem (Some base) None ofs))).
Proof. intros. destruct t; apply straight_modrm_offset; opc_side. Qed.

Lemma straight_st t arg base ofs :
  reg_ok arg -> reg_ok base -> in_s 32 ofs ->
  straight (tcg_out_st t arg base ofs)
    (run1 (IMovMR (twidth t) (EMem (Some base) None ofs) arg)).
Proof. intros. destruct t; apply straight_modrm_offset; opc_side. Qed.

Lemma straight_shifti op t reg count :
  reg_ok reg -> in_s 8 count ->
  straight (tcg_out_shifti (sop_code op + rexw_of t) reg count)
    (run1 (IShift op (twidth t) (EReg reg) (Some count))).
Proof.
  intros Hr Hc. unfold tcg_out_shifti. destruct (Z.eqb_spec count 1) as [->|Hne].
  - destruct op, t; apply straight_modrm; opc_side.
  - assert (s8 count = count) as E by (by apply swrap_id).
    destruct op, t; apply straight_modrm_imm8; try opc_side;
      cbn -[swrap]; by rewrite E.
Qed.

Lemma straight_rolw_8 reg :
  reg_ok reg ->
  straight (tcg_out_rolw_8 reg) (run1 (IShift Rol W16 (EReg reg) (Some 8))).
Proof. intros. apply straight_modrm_imm8; opc_side. Qed.

(** ** Instructions without ModRM byte *)

Lemma encodes_plain opc rm tl i :
  opc_plain opc = true -> reg_ok rm -> (length tl <= 8)%nat ->
  dec_plain (head_of opc 0 rm 0) tl = Some (Some (i, [])) ->
  encodes (opc_bytes opc 0 rm 0 ++ tl) i.
Proof.
  intros Hp Hrm Hl Hd. pose proof (length_opc_bytes opc 0 rm 0).
  split; [rewrite length_app; lia|].
  unfold decode. rewrite dec_head_opc by auto. cbn [mbind option_bind]. by rewrite Hd.
Qed.

(** [each_reg H] splits the goal into the sixteen registers. *)
Ltac each_reg r H :=
  let E := fresh in
  assert (r = 0 \/ r = 1 \/ r = 2 \/ r = 3 \/ r = 4 \/ r = 5 \/ r = 6 \/ r = 7 \/
          r = 8 \/ r = 9 \/ r = 10 \/ r = 11 \/ r = 12 \/ r = 13 \/ r = 14 \/ r = 15) as E
    by (unfold reg_ok in H; lia);
  repeat (destruct E as [->|E]); [..|subst r].

(** Opcodes that carry the register in their low bits. *)
Lemma straight_opcreg opc (mk : Z -> instr) reg :
  opc_ok (opc + LOWREGMASK reg) -> reg_ok reg ->
  opc_plain (opc + LOWREGMASK reg) = true ->
  dec_plain (head_of (opc + LOWREGMASK reg) 0 reg 0) [] = Some (Some (mk reg, [])) ->
  pc_free (mk reg) = true ->
  straight (tcg_out_opc (opc + LOWREGMASK reg) 0 reg 0) (run1 (mk reg)).
Proof.
  intros Hok Hr Hp Hd Hf. apply straight_instr; [done|]. intros s.
  exists (opc_bytes (opc + LOWREGMASK reg) 0 reg 0 ++ []). rewrite app_nil_r at 1.
  split; [by apply emitted_opc|]. apply encodes_plain; try done; cbn; lia.
Qed.

Lemma straight_bswap32 reg :
  reg_ok reg -> straight (tcg_out_bswap32 reg) (run1 (IBswap W32 reg)).
Proof. intros H. each_reg reg H; apply (straight_opcreg _ (IBswap W32)); opc_side. Qed.

Lemma straight_bswap64 reg :
  reg_ok reg -> straight (tcg_out_bswap64 reg) (run1 (IBswap W64 reg)).
Proof. intros H. each_reg reg H; apply (straight_opcreg _ (IBswap W64)); opc_side. Qed.

Lemma straight_push reg : reg_ok reg -> straight (tcg_out_push reg) (run1 (IPush reg)).
Proof. intros H. each_reg reg H; apply (straight_opcreg _ IPush); opc_side. Qed.

Lemma straight_pop reg : reg_ok reg -> straight (tcg_out_pop reg) (run1 (IPop reg)).
Proof. intros H. each_reg reg H; apply (straight_opcreg _ IPop); opc_side. Qed.

(** ** Constants *)

(** Clearing a register changes the flags, the other forms do not. *)
Definition movi_effect (t : TCGType) (ret arg : Z) (d : dstate) : option dstate :=
  if arg =? 0 then run1 (IArithRM Xor W32 ret (EReg ret)) d
  else Some (set_reg ret (wrap (wbits (twidth t)) arg) d).

Lemma straight_mov_imm32 ret arg :
  reg_ok ret ->
  straight (tcg_out_opc (OPC_MOVL_Iv + LOWREGMASK ret) 0 ret 0 ;; tcg_out32 arg)
    (run1 (IMovI W32 ret (s32 arg))).
Proof.
  intros Hr. apply straight_instr; [done|]. intros s.
  exists (opc_bytes (OPC_MOVL_Iv + LOWREGMASK ret) 0 ret 0 ++ bytes_le 4 arg).
  split.
  - apply emitted_seq; [|done]. apply emitted_opc. each_reg ret Hr; opc_side.
  - apply encodes_plain; [each_reg ret Hr; reflexivity|done|cbn; lia|].
    each_reg ret Hr; unfold dec_plain; cbn -[dec_num bytes_le swrap];
        rewrite <- (app_nil_r (bytes_le 4 arg)), dec_num_bytes by lia; reflexivity.
Qed.

Lemma straight_mov_imm64 ret arg :
  reg_ok ret ->
  straight (tcg_out_opc (OPC_MOVL_Iv + P_REXW + LOWREGMASK ret) 0 ret 0 ;; tcg_out64 arg)
    (run1 (IMovI W64 ret (s64 arg))).
Proof.
  intros Hr. apply straight_instr; [done|]. intros s.
  exists (opc_bytes (OPC_MOVL_Iv + P_REXW + LOWREGMASK ret) 0 ret 0 ++ bytes_le 8 arg).
  split.
  - apply emitted_seq; [|done]. apply emitted_opc. each_reg ret Hr; opc_side.
  - apply encodes_plain; [each_reg ret Hr; reflexivity|done|cbn; lia|].
    each_reg ret Hr; unfold dec_plain; cbn -[dec_num bytes_le swrap];
        rewrite <- (app_nil_r (bytes_le 8 arg)), dec_num_bytes by lia; reflexivity.
Qed.

(** RIP-relative operands. *)
Lemma dec_modrm_rip opc r k :
  reg_ok r ->
  dec_modrm (head_of opc r 0 0) (modrm_byte 0 r 5 :: k) = Some (r, RmRip, k).
Proof.
  intros Hr.
  destruct (modrm_fields 0 r 5) as (_ & E1 & E2 & E3 & _);
    [in_list|done|unfold reg_ok; lia|].
  unfold dec_modrm. rewrite E1. cbn [head_of h_r h_b]. by rewrite E2, E3.
Qed.

Lemma emitted_rip opc r disp s :
  opc_ok opc -> is_modrm opc = true -> reg_ok r -> in_s 32 disp ->
  exists bs, emitted (tcg_out_opc opc r 0 0 ;;
                      tcg_out8 (Z.lor (Z.shiftl (LOWREGMASK r) 3) 5) ;; tcg_out32 disp) s bs /\
    encodes_ea bs opc r 0 0 (ERip disp) /\
    length bs = (length (opc_bytes opc r 0 0) + 5)%nat.
Proof.
  intros Hok Hm Hr Hd.
  exists (opc_bytes opc r 0 0 ++ [modrm_byte 0 r 5] ++ bytes_le 4 disp). split_and!.
  - apply emitted_seq; [by apply emitted_opc|]. apply emitted_seq; [|done].
    destruct (modrm_fields 0 r 5) as (E0 & _); [in_list|done|unfold reg_ok; lia|].
    rewrite <- E0. done.
  - apply (encodes_ea_intro _ _ _ _ _ RmRip); try done; [cbn; lia| |].
    + intros k. by apply dec_modrm_rip.
    + intros k. cbn [dec_ea]. rewrite dec_num_bytes by lia. cbn [mbind option_bind].
      change (8 * Z.of_nat 4) with 32. by rewrite swrap_id.
  - rewrite !length_app, length_bytes_le. done.
Qed.

Lemma straight_lea_rip ret arg s :
  let diff := s64 (arg - (code_ptr s + 7)) in
  reg_ok ret -> diff = s32 diff ->
  exists bs, emitted (tcg_out_opc (Z.lor OPC_LEA P_REXW) ret 0 0 ;;
      tcg_out8 (Z.lor (Z.shiftl (LOWREGMASK ret) 3) 5) ;; tcg_out32 diff) s bs /\
    forall cd d, code_at cd (code_ptr s) bs ->
      steps cd (code_ptr s, d) (code_ptr (add_code bs s), set_reg ret (u64 arg) d).
Proof.
  intros diff Hr Hd.
  destruct (emitted_rip (Z.lor OPC_LEA P_REXW) ret diff s) as (bs & He & Hi & Hl);
    try opc_side.
  { rewrite Hd. by apply swrap_range. }
  exists bs. split; [done|]. intros cd d Hc. rewrite code_ptr_add. apply rtc_once.
  eapply step_plain; [by eapply encodes_noimm|done|]. cbn [exec_plain addr_of].
  replace (Z.of_nat (length bs)) with 7.
  2:{ rewrite Hl. by each_reg ret Hr. }
  unfold write_reg. unfold diff. do 2 f_equal.
  rewrite wrap_wrap, <- wrap_add_r, wrap_swrap, wrap_add_r by lia. f_equal. lia.
Qed.

Lemma straight_movi t ret arg :
  reg_ok ret -> straight (tcg_out_movi t ret arg) (movi_effect t ret arg).
Proof.
  intros Hr. unfold tcg_out_movi, movi_effect. destruct (Z.eqb_spec arg 0) as [->|Hnz].
  { apply (straight_arithr Xor TCG_TYPE_I32); done. }
  destruct ((arg =? u32 arg) || is_I32 t) eqn:E32.
  { eapply straight_ext; [by apply straight_mov_imm32|]. intros d _. cbn.
    unfold write_reg. rewrite wrap_swrap by lia. do 2 f_equal.
    apply orb_true_iff in E32 as [E%Z.eqb_eq|E]; destruct t; try done.
    rewrite <- E. symmetry. apply wrap_id. rewrite E.
    apply (in_u_mono 32); [cbn; lia|]. by apply wrap_range. }
  apply orb_false_iff in E32 as [_ Et]. destruct t; [done|].
  destruct (Z.eqb_spec arg (s32 arg)) as [E|_].
  { eapply straight_ext; [apply straight_modrm_imm32; opc_side|].
    intros d _. cbn. unfold write_reg. by rewrite <- E. }
  intros s. set (diff := s64 (arg - (code_ptr s + 7))).
  destruct (Z.eqb_spec diff (s32 diff)) as [E|E].
  - destruct (straight_lea_rip ret arg s Hr E) as (bs & He & Hs).
    exists bs. split.
    + apply emitted_get_ptr. fold diff. by rewrite (proj2 (Z.eqb_eq _ _) E).
    + intros cd d d' _ Hc ?; simplify_eq. by apply Hs.
  - destruct (straight_mov_imm64 ret arg Hr s) as (bs & He & Hs). exists bs. split.
    + apply emitted_get_ptr. fold diff. by rewrite (proj2 (Z.eqb_neq _ _) E).
    + intros cd d d' Hwf Hc Hd. apply Hs; try done.
      rewrite <- Hd. cbn. unfold write_reg. by rewrite wrap_swrap by lia.
Qed.

Lemma movi_effect_some t ret arg d :
  exists d', movi_effect t ret arg d = Some d' /\
    d'.(dmem) = d.(dmem) /\ (forall r, r <> ret -> regs d' r = regs d r) /\
    regs d' ret = wrap (wbits (twidth t)) arg.
Proof.
  unfold movi_effect. destruct (Z.eqb_spec arg 0) as [->|Hnz].
  - eexists; split; [reflexivity|]. cbn. split_and!; [done| |].
    + intros r Hr. unfold upd. by destruct (Z.eqb_spec r ret).
    + unfold upd. rewrite Z.eqb_refl, Z.lxor_nilpotent. by destruct t.
  - eexists; split; [reflexivity|]. split_and!; [done| |].
    + intros r Hr. by apply regs_set_other.
    + apply regs_set_same.
Qed.

(** ** Extensions *)

(** With P_REXB_RM a byte operand is always the low byte of the register. *)
Lemma byteea_rm opc r rm x :
  testb opc P_REXB_RM = true -> byteea (head_of opc r rm x) (EReg rm) = (W8, EReg rm).
Proof.
  intros H. unfold byteea, bytereg, head_of. cbn [h_rex]. unfold has_rex.
  destruct (4 <=? rm) eqn:E; [|by rewrite andb_false_r].
  rewrite opc_rex_bits, H, E. cbn [andb]. unfold rex_bits.
  destruct (Z.eqb_spec (Z.lor (Z.lor (Z.lor (Z.lor (Z.lor
    (if testb opc P_REXW then 8 else 0) (Z.shiftr (Z.land r 8) 1)) (Z.shiftr (Z.land x 8) 2))
    (Z.shiftr (Z.land rm 8) 3)) (if testb opc P_REXB_R && (4 <=? r) then P_REXB_R else 0))
    P_REXB_RM) 0) as [E0|]; [|done].
  apply Z.lor_eq_0_iff in E0 as [_ E0]. discriminate E0.
Qed.

(** Likewise with P_REXB_R for the register field. *)
Lemma bytereg_r opc r rm x :
  testb opc P_REXB_R = true -> bytereg (head_of opc r rm x) r = (W8, r).
Proof.
  intros H. unfold bytereg, head_of. cbn [h_rex]. unfold has_rex.
  destruct (4 <=? r) eqn:E; [|by rewrite andb_false_r].
  rewrite opc_rex_bits, H, E. cbn [andb]. unfold rex_bits.
  destruct (Z.eqb_spec (Z.lor (Z.lor (Z.lor (Z.lor (Z.lor
    (if testb opc P_REXW then 8 else 0) (Z.shiftr (Z.land r 8) 1)) (Z.shiftr (Z.land x 8) 2))
    (Z.shiftr (Z.land rm 8) 3)) P_REXB_R)
    (if testb opc P_REXB_RM && (4 <=? rm) then P_REXB_RM else 0)) 0) as [E0|]; [|done].
  apply Z.lor_eq_0_iff in E0 as [E0 _]. apply Z.lor_eq_0_iff in E0 as [_ E0].
  discriminate E0.
Qed.

Lemma straight_ext8u dest src :
  reg_ok dest -> reg_ok src ->
  straight (tcg_out_ext8u dest src) (run1 (IMovzx W8 dest (EReg src))).
Proof.
  intros. apply straight_modrm; try opc_side.
  transitivity (let '(w8, e) := byteea (head_of (OPC_MOVZBL + P_REXB_RM) dest src 0)
                                  (EReg src) in Some (IMovzx w8 dest e)); [reflexivity|].
  by rewrite byteea_rm.
Qed.

Lemma straight_ext8s t dest src :
  reg_ok dest -> reg_ok src ->
  straight (tcg_out_ext8s dest src (rexw_of t)) (run1 (IMovsx (twidth t) W8 dest (EReg src))).
Proof.
  intros. destruct t; apply straight_modrm; try opc_side.
  - transitivity (let '(w8, e) := byteea (head_of (OPC_MOVSBL + P_REXB_RM + 0) dest src 0)
                                  (EReg src) in Some (IMovsx W32 w8 dest e)); [reflexivity|].
    by rewrite byteea_rm.
  - transitivity (let '(w8, e) := byteea (head_of (OPC_MOVSBL + P_REXB_RM + P_REXW) dest src 0)
                                  (EReg src) in Some (IMovsx W64 w8 dest e)); [reflexivity|].
    by rewrite byteea_rm.
Qed.

Lemma straight_ext16u dest src :
  reg_ok dest -> reg_ok src ->
  straight (tcg_out_ext16u dest src) (run1 (IMovzx W16 dest (EReg src))).
Proof. intros. apply straight_modrm; opc_side. Qed.

Lemma straight_ext16s t dest src :
  reg_ok dest -> reg_ok src ->
  straight (tcg_out_ext16s dest src (rexw_of t))
    (run1 (IMovsx (twidth t) W16 dest (EReg src))).
Proof. intros. destruct t; apply straight_modrm; opc_side. Qed.

Lemma straight_ext32u dest src :
  reg_ok dest -> reg_ok src ->
  straight (tcg_out_ext32u dest src) (run1 (IMovRM W32 dest (EReg src))).
Proof. intros. apply straight_modrm; opc_side. Qed.

Lemma straight_ext32s dest src :
  reg_ok dest -> reg_ok src ->
  straight (tcg_out_ext32s dest src) (run1 (IMovsx W64 W32 dest (EReg src))).
Proof. intros. apply straight_modrm; opc_side. Qed.

(** ** Arithmetic with constants *)

Definition is_addsub (op : aop) : bool := match op with Add | Sub => true | _ => false end.
Definition is_add (op : aop) : bool := match op with Add => true | _ => false end.
Definition is_and (op : aop) : bool := match op with And => true | _ => false end.

(** The effect of [tgen_arithi], branch by branch. *)
Definition arithi_instr (op : aop) (t : TCGType) (r0 val : Z) (cf : bool) : instr :=
  if negb cf && is_addsub op && ((val =? 1) || (val =? -1)) then
    (if xorb (is_add op) (val <? 0) then IInc else IDec) (twidth t) (EReg r0)
  else if is_and op && (val =? 0xffffffff) then IMovRM W32 r0 (EReg r0)
  else if is_and op && (val =? 0xff) then IMovzx W8 r0 (EReg r0)
  else if is_and op && (val =? 0xffff) then IMovzx W16 r0 (EReg r0)
  else IArithI op (if is_and op && (val =? u32 val) then W32 else twidth t) (EReg r0)
         (if val =? s8 val then val else s32 val).

(** The constants that [tgen_arithi] can encode. *)
Definition arithi_ok (op : aop) (t : TCGType) (val : Z) : bool :=
  is_I32 t || (val =? s32 val) || (is_and op && (val =? u32 val)).

Lemma straight_arithi_imm op t r0 val :
  reg_ok r0 -> is_I32 t || (val =? s32 val) = true ->
  straight (if val =? s8 val then
              tcg_out_modrm (OPC_ARITH_EvIb + rexw_of t) (aop_code op) r0 ;; tcg_out8 val
            else if (rexw_of t =? 0) || (val =? s32 val) then
              tcg_out_modrm (OPC_ARITH_EvIz + rexw_of t) (aop_code op) r0 ;; tcg_out32 val
            else fail TcgAbort)
    (run1 (IArithI op (twidth t) (EReg r0) (if val =? s8 val then val else s32 val))).
Proof.
  intros Hr Hok. destruct (Z.eqb_spec val (s8 val)) as [E|_].
  - destruct op, t; apply straight_modrm_imm8; try opc_side; rewrite <- E; reflexivity.
  - assert ((rexw_of t =? 0) || (val =? s32 val) = true) as -> by (by destruct t).
    destruct op, t; apply straight_modrm_imm32; opc_side.
Qed.

Lemma straight_arithi op t r0 val cf :
  reg_ok r0 -> arithi_ok op t val = true ->
  straight (tgen_arithi (aop_code op + rexw_of t) r0 val cf)
    (run1 (arithi_instr op t r0 val cf)).
Proof.
  intros Hr Hok. unfold tgen_arithi, arithi_instr, arithi_ok in *.
  replace (Z.land (aop_code op + rexw_of t) (-8)) with (rexw_of t) by (by destruct op, t).
  replace (Z.land (aop_code op + rexw_of t) 7) with (aop_code op) by (by destruct op, t).
  replace ((aop_code op =? ARITH_ADD) || (aop_code op =? ARITH_SUB)) with (is_addsub op)
    by (by destruct op).
  replace (aop_code op =? ARITH_AND) with (is_and op) by (by destruct op).
  replace (aop_code op =? ARITH_ADD) with (is_add op) by (by destruct op).
  destruct (negb cf && is_addsub op && _).
  { destruct (xorb _ _), t; apply straight_modrm; opc_side. }
  destruct (is_and op && (val =? 0xffffffff)); [by apply straight_ext32u|].
  destruct (is_and op && (val =? 0xff)); [by apply straight_ext8u|].
  destruct (is_and op && (val =? 0xffff)); [by apply straight_ext16u|].
  destruct (is_and op && (val =? u32 val)) eqn:E.
  - by apply (straight_arithi_imm op TCG_TYPE_I32).
  - rewrite orb_false_r in Hok. by apply straight_arithi_imm.
Qed.

(** Outside those constants the code generator aborts. *)
Lemma arithi_abort op t r0 val cf s :
  arithi_ok op t val = false ->
  tgen_arithi (aop_code op + rexw_of t) r0 val cf s = Err TcgAbort.
Proof.
  unfold arithi_ok. intros [[Ht H32]%orb_false_iff Hu]%orb_false_iff.
  destruct t; [done|]. unfold tgen_arithi.
  assert ((val =? s8 val) = false) as E8.
  { apply Z.eqb_neq. intros E. apply Z.eqb_neq in H32. apply H32. symmetry.
    apply swrap_id; [lia|]. rewrite E. pose proof (swrap_range 8 val). unfold in_s in *. lia. }
  assert ((val =? 1) || (val =? -1) = false) as E1.
  { apply Z.eqb_neq in E8. apply orb_false_iff. split; apply Z.eqb_neq; intros ->; by apply E8. }
  rewrite E1, E8, andb_false_r. cbn [orb]. rewrite H32.
  replace (Z.land (aop_code op + rexw_of TCG_TYPE_I64) 7 =? ARITH_AND) with (is_and op)
    by (by destruct op).
  destruct (is_and op) eqn:Ea; cbn [andb].
  - cbn [andb] in Hu. rewrite Hu. apply Z.eqb_neq in Hu.
    assert (forall k, u32 k = k -> (val =? k) = false) as Hk.
    { intros k Ek. apply Z.eqb_neq. intros ->. by rewrite Ek in Hu. }
    rewrite !Hk by reflexivity. by destruct op.
  - by destruct op.
Qed.

Lemma wrap_land n a : 0 <= n -> wrap n a = Z.land a (Z.ones n).
Proof. intros. unfold wrap. by rewrite Z.land_ones. Qed.

Lemma land_wrap n a v : 0 <= n -> in_u n v -> Z.land (wrap n a) v = Z.land a v.
Proof.
  intros Hn Hv. rewrite wrap_land by done. rewrite <- Z.land_assoc. f_equal.
  rewrite Z.land_comm, <- wrap_land by done. by apply wrap_id.
Qed.

Lemma wrap_wrap_le n k a : 0 <= n <= k -> wrap n (wrap k a) = wrap n a.
Proof.
  intros H. unfold wrap. apply Z.mod_mod_divide.
  exists (2 ^ (k - n)). rewrite <- Z.pow_add_r by lia. f_equal. lia.
Qed.

Lemma wrap_swrap_le n k a : 0 < n <= k -> wrap n (swrap k a) = wrap n a.
Proof. intros H. by rewrite <- (wrap_wrap_le n k), wrap_swrap, wrap_wrap_le by lia. Qed.

(** The value of a register operation at the width of [t]: 32-bit results are
    zero-extended. *)
Lemma regs_write_same t r v d :
  regs (write_reg (twidth t) r v d) r = wrap (wbits (twidth t)) v.
Proof. destruct t; cbn; unfold upd; by rewrite Z.eqb_refl. Qed.

Lemma arith_result_range op n a b c :
  0 <= n -> in_u n a -> in_u n b -> in_u n (arith_result op n a b c).
Proof.
  intros. destruct op; cbn; try (by apply wrap_range).
  - by apply lor_in_u.
  - by apply land_in_u.
  - apply in_u_bits; [done|]. intros i Hi. by rewrite Z.lxor_spec, !(testbit_above n).
Qed.

(** What a state with one changed register looks like. *)
Definition sets_reg (r v : Z) (d d' : dstate) : Prop :=
  regs d' r = v /\ (forall r', r' <> r -> regs d' r' = regs d r') /\ dmem d' = dmem d.

(** Registers that an instruction does not write. *)
Ltac regs_other := intros; cbn [write_ea]; rewrite ?regs_write_other by done; done.

Lemma sets_reg_write w r v d : sets_reg r (regs (write_reg w r v d) r) d (write_reg w r v d).
Proof. split_and!; [done| |done]. intros. by apply regs_write_other. Qed.

Lemma do_arith_reg op t r a b wr d :
  writes_result op = true -> uses_carry op = false ->
  in_u (wbits (twidth t)) a -> in_u (wbits (twidth t)) b ->
  (forall v x, sets_reg r (wrap (wbits (twidth t)) v) x (wr v x)) ->
  exists d', do_arith op (twidth t) a b wr d = Some d' /\
    sets_reg r (arith_result op (wbits (twidth t)) a b false) d d'.
Proof.
  intros Hw Hc Ha Hb Hwr. unfold do_arith. rewrite Hw, Hc. cbn [mbind option_bind].
  eexists; split; [reflexivity|].
  edestruct Hwr as (E1 & E2 & E3). split_and!; [etrans; [exact E1|]| |exact E3].
  { apply wrap_id, arith_result_range; [by destruct t|done..]. }
  intros r' Hr. by rewrite E2.
Qed.

Lemma sets_reg_t t r v d : sets_reg r (wrap (wbits (twidth t)) v) d (write_reg (twidth t) r v d).
Proof.
  rewrite <- regs_write_same with (r := r) (d := d). apply sets_reg_write.
Qed.

Lemma read_reg_t t r d : read_reg (twidth t) r d = wrap (wbits (twidth t)) (regs d r).
Proof. by destruct t. Qed.

(** Increment and decrement. *)
Lemma incdec_result (inc : bool) t r d :
  let n := wbits (twidth t) in
  exists d', run1 ((if inc then IInc else IDec) (twidth t) (EReg r)) d = Some d' /\
    sets_reg r (wrap n (wrap n (regs d r) + (if inc then 1 else -1))) d d'.
Proof.
  cbn zeta. unfold run1. rewrite <- read_reg_t.
  destruct inc; [apply (do_arith_reg Add)|apply (do_arith_reg Sub)]; try done;
    try (rewrite ?read_reg_t; by destruct t; apply wrap_range); try (by destruct t);
    intros v x; by destruct (sets_reg_t t r v (set_flags (CF d) (ZF x) (SF x) (OF x) x)).
Qed.

(** Masking with 8, 16 or 32 ones. *)
Lemma mask_result i k r d :
  wf d -> (i, k) ∈ [(IMovzx W8 r (EReg r), 8); (IMovzx W16 r (EReg r), 16);
                   (IMovRM W32 r (EReg r), 32)] ->
  exists d', run1 i d = Some d' /\ sets_reg r (wrap k (regs d r)) d d'.
Proof.
  intros Hwf Hin. rewrite !elem_of_cons, elem_of_nil in Hin.
  destruct Hin as [Hin|[Hin|[Hin|[]]]]; simplify_eq; (eexists; split; [reflexivity|]);
    (split_and!; [|regs_other|done]);
    cbn [regs write_reg set_reg read_ea read_reg wbits]; unfold upd; rewrite Z.eqb_refl;
    [rewrite wrap_id; [done|]; eapply in_u_mono; [|by apply wrap_range]; lia..|].
  apply wrap_wrap.
Qed.

(** Operations with an immediate. *)
Lemma arithI_result op t r v d :
  writes_result op = true -> uses_carry op = false ->
  let n := wbits (twidth t) in
  exists d', run1 (IArithI op (twidth t) (EReg r) v) d = Some d' /\
    sets_reg r (arith_result op n (wrap n (regs d r)) (wrap n v) false) d d'.
Proof.
  intros Hw Hc n. unfold run1. cbn [exec_plain read_ea]. rewrite read_reg_t.
  assert (0 <= n) by (unfold n; by destruct t).
  apply do_arith_reg; [done|done|by apply wrap_range..|]. intros. apply sets_reg_t.
Qed.

Lemma sets_reg_eq r v v' d d' : sets_reg r v d d' -> v = v' -> sets_reg r v' d d'.
Proof. by intros ? <-. Qed.

(** A conjunction with 32-bit constants at 64 bits is the 32-bit one. *)
Lemma and_narrow t r val d :
  wf d -> in_u 32 val ->
  let n := wbits (twidth t) in
  Z.land (wrap 32 (regs d r)) val = Z.land (wrap n (regs d r)) (wrap n val).
Proof.
  intros Hwf Hv n. rewrite land_wrap by (done || lia).
  assert (0 <= n) by (unfold n; by destruct t).
  assert (in_u n val) as Hvn by (unfold n; destruct t; [done|]; by apply (in_u_mono 32)).
  by rewrite (wrap_id n val), land_wrap.
Qed.

Definition mask_instrs (r : Z) : list (instr * Z) :=
  [(IMovzx W8 r (EReg r), 8); (IMovzx W16 r (EReg r), 16); (IMovRM W32 r (EReg r), 32)].

Lemma arithi_mask i k op t r0 val d :
  wf d -> (i, k) ∈ mask_instrs r0 -> is_and op && (val =? Z.ones k) = true -> 0 <= k <= 32 ->
  let n := wbits (twidth t) in
  exists d', run1 i d = Some d' /\
    sets_reg r0 (arith_result op n (wrap n (regs d r0)) (wrap n val) false) d d'.
Proof.
  intros Hwf Hin [Hop ->%Z.eqb_eq]%andb_true_iff Hk n. destruct op; try discriminate Hop.
  destruct (mask_result i k r0 d Hwf Hin) as (d' & E & S). exists d'. split; [done|].
  eapply sets_reg_eq; [exact S|]. cbn [arith_result].
  assert (in_u k (Z.ones k)) as Hones by (unfold in_u; rewrite Z.ones_equiv; lia).
  assert (in_u 32 (Z.ones k)) as H32 by (by eapply in_u_mono).
  unfold n. rewrite <- (and_narrow t r0 (Z.ones k) d), wrap_land, land_wrap by (done || lia).
  done.
Qed.

(** Whatever form [tgen_arithi] chooses, the destination holds the result. *)
Lemma arithi_result op t r0 val cf d :
  wf d -> writes_result op = true -> uses_carry op = false -> arithi_ok op t val = true ->
  let n := wbits (twidth t) in
  exists d', run1 (arithi_instr op t r0 val cf) d = Some d' /\
    sets_reg r0 (arith_result op n (wrap n (regs d r0)) (wrap n val) false) d d'.
Proof.
  intros Hwf Hw Hc Hok n. unfold arithi_instr.
  destruct (negb cf && is_addsub op && ((val =? 1) || (val =? -1))) eqn:E1.
  { apply andb_true_iff in E1 as [E1 Ev]. apply andb_true_iff in E1 as [_ Eop].
    apply orb_true_iff in Ev. rewrite !Z.eqb_eq in Ev.
    destruct (incdec_result (xorb (is_add op) (val <? 0)) t r0 d) as (d' & E & S).
    exists d'. split; [exact E|]. eapply sets_reg_eq; [exact S|]. fold n.
    destruct op; try discriminate Eop; destruct Ev as [-> | ->]; cbn [arith_result];
      cbn [is_add xorb Z.ltb Z.compare]; by rewrite ?wrap_add_r, ?wrap_sub_r. }
  destruct (is_and op && (val =? 0xffffffff)) eqn:E2;
    [apply (arithi_mask _ 32); [done|unfold mask_instrs; in_list|done|lia]|].
  destruct (is_and op && (val =? 0xff)) eqn:E3;
    [apply (arithi_mask _ 8); [done|unfold mask_instrs; in_list|done|lia]|].
  destruct (is_and op && (val =? 0xffff)) eqn:E4;
    [apply (arithi_mask _ 16); [done|unfold mask_instrs; in_list|done|lia]|].
  set (imm := if val =? s8 val then val else s32 val).
  assert (u32 imm = u32 val) as Eimm.
  { unfold imm. case_match; [done|]. by apply wrap_swrap. }
  destruct (is_and op && (val =? u32 val)) eqn:E5.
  - apply andb_true_iff in E5 as [Ea E5%Z.eqb_eq]. destruct op; try discriminate Ea.
    destruct (arithI_result And TCG_TYPE_I32 r0 imm d) as (d' & E & S); [done..|].
    exists d'. split; [done|]. eapply sets_reg_eq; [exact S|]. cbn [arith_result twidth wbits].
    rewrite Eimm, <- E5. apply and_narrow; [done|]. rewrite E5. by apply wrap_range.
  - destruct (arithI_result op t r0 imm d) as (d' & E & S); [done..|].
    exists d'. split; [done|]. eapply sets_reg_eq; [exact S|]. fold n. f_equal.
    unfold arithi_ok in Hok. rewrite E5, orb_false_r in Hok. unfold n.
    destruct t; [exact Eimm|]. cbn [is_I32 orb] in Hok. apply Z.eqb_eq in Hok.
    unfold imm. by rewrite <- Hok; destruct (val =? s8 val).
Qed.
