(* ===== verification/TcgCond.v ===== *)
(** * Comparisons, conditional code and branches

    [tcg_out_cmp] with the condition codes of [tcg_cond_to_jcc] computes the
    TCG conditions; branches reach their destination whatever form they take;
    relocations make a forward jump reach its label. *)

From S2P Require Import Prelude X86 TcgOut TcgEnc TcgEmit.

(** ** Conditions *)

Definition flags_cmp (n a b : Z) (d : dstate) : dstate :=
  set_flags (Some (a <? b)) (Some (wrap n (a - b) =? 0))
    (Some (swrap n (wrap n (a - b)) <? 0)) (Some (arith_of Cmp n a b false)) d.

(** The meaning of a TCG condition on [n]-bit values. *)
Definition eval_cond (c : TCGCond) (n a b : Z) : bool :=
  match c with
  | TCG_COND_NEVER => false
  | TCG_COND_ALWAYS => true
  | TCG_COND_EQ => a =? b
  | TCG_COND_NE => negb (a =? b)
  | TCG_COND_LT => swrap n a <? swrap n b
  | TCG_COND_GE => swrap n b <=? swrap n a
  | TCG_COND_LE => swrap n a <=? swrap n b
  | TCG_COND_GT => swrap n b <? swrap n a
  | TCG_COND_LTU => a <? b
  | TCG_COND_GEU => b <=? a
  | TCG_COND_LEU => a <=? b
  | TCG_COND_GTU => b <? a
  end.

Definition nontrivial (c : TCGCond) : bool :=
  match c with TCG_COND_NEVER | TCG_COND_ALWAYS => false | _ => true end.

Lemma swrap_cong n a b : wrap n a = wrap n b -> swrap n a = swrap n b.
Proof.
  unfold wrap, swrap. intros E. by rewrite <- Zplus_mod_idemp_l, E, Zplus_mod_idemp_l.
Qed.

(** Two's complement at half the modulus. *)
Lemma swrap_cases n x :
  0 < n -> - 2 ^ n < x < 2 ^ n ->
  swrap n x = x \/ (swrap n x = x - 2 ^ n /\ 2 ^ (n - 1) <= x) \/
  (swrap n x = x + 2 ^ n /\ x < - 2 ^ (n - 1)).
Proof.
  intros Hn Hx.
  assert (2 ^ n = 2 * 2 ^ (n - 1)) as E by (rewrite <- Z.pow_succ_r by lia; f_equal; lia).
  set (h := 2 ^ (n - 1)) in *. unfold swrap. fold h. rewrite E in *.
  destruct (Z.lt_ge_cases (x + h) 0).
  - right; right. rewrite <- (Z.mod_unique (x + h) (2 * h) (-1) (x + h + 2 * h)); lia.
  - destruct (Z.lt_ge_cases (x + h) (2 * h)).
    + left. rewrite Z.mod_small; lia.
    + right; left. rewrite <- (Z.mod_unique (x + h) (2 * h) 1 (x + h - 2 * h)); lia.
Qed.

Lemma swrap_of_u n a :
  0 < n -> in_u n a -> swrap n a = if a <? 2 ^ (n - 1) then a else a - 2 ^ n.
Proof.
  intros Hn Ha. unfold in_u in Ha.
  destruct (Z.ltb_spec a (2 ^ (n - 1))).
  - apply swrap_id; [done|]. unfold in_s. lia.
  - destruct (swrap_cases n a) as [E|[[E _]|[E ?]]]; [done|lia| |done|lia].
    pose proof (swrap_range n a Hn) as Hr. unfold in_s in Hr. lia.
Qed.

(** Sign and overflow of a difference decide the signed comparison. *)
Lemma signed_less n a b :
  0 < n -> in_u n a -> in_u n b ->
  xorb (swrap n (wrap n (a - b)) <? 0) (arith_of Cmp n a b false) =
  (swrap n a <? swrap n b).
Proof.
  intros Hn Ha Hb. cbn [arith_of]. set (x := swrap n a - swrap n b).
  assert (swrap n (wrap n (a - b)) = swrap n x) as E.
  { apply swrap_cong. rewrite wrap_wrap. unfold x, wrap, swrap.
    set (h := 2 ^ (n - 1)). set (m := 2 ^ n).
    replace ((a + h) mod m - h - ((b + h) mod m - h)) with ((a + h) mod m - (b + h) mod m)
      by lia.
    rewrite <- Zminus_mod. f_equal. lia. }
  rewrite E.
  assert (2 ^ n = 2 * 2 ^ (n - 1)) as E2 by (rewrite <- Z.pow_succ_r by lia; f_equal; lia).
  pose proof (swrap_range n a Hn) as Hra. pose proof (swrap_range n b Hn) as Hrb.
  unfold in_s in *.
  destruct (swrap_cases n x Hn) as [Ex|[[Ex ?]|[Ex ?]]]; [unfold x; lia|..];
    rewrite Ex; unfold x in *; lia.
Qed.

Lemma wrap_sub_zero n a b :
  0 < n -> in_u n a -> in_u n b -> (wrap n (a - b) =? 0) = (a =? b).
Proof.
  intros Hn Ha Hb. unfold in_u, wrap in *. apply eq_bool_prop_intro.
  rewrite !Is_true_true, !Z.eqb_eq. split; [|intros ->; by rewrite Z.sub_diag].
  intros E. apply Z.mod_divide in E as [q Hq]; [|lia].
  assert (q = 0) by nia. lia.
Qed.

(** The condition codes compute the TCG conditions. *)
Lemma cond_holds_cmp c n a b d :
  0 < n -> nontrivial c = true -> in_u n a -> in_u n b ->
  cond_holds (tcg_cond_to_jcc c) (flags_cmp n a b d) = Some (eval_cond c n a b).
Proof.
  intros Hn Hc Ha Hb. pose proof (signed_less n a b Hn Ha Hb) as Hs.
  pose proof (wrap_sub_zero n a b Hn Ha Hb) as Hz.
  assert ((a =? b) = (swrap n a =? swrap n b)) as Hse.
  { apply eq_bool_prop_intro. rewrite !Is_true_true, !Z.eqb_eq. split; [congruence|].
    intros E. rewrite !swrap_of_u in E by done. unfold in_u in *.
    destruct (Z.ltb_spec a (2 ^ (n - 1))), (Z.ltb_spec b (2 ^ (n - 1))); lia. }
  destruct c; try discriminate Hc; unfold cond_holds, flags_cmp;
    match goal with |- context [Z.shiftr ?x 1] =>
      let v := eval vm_compute in (Z.shiftr x 1) in change (Z.shiftr x 1) with v end;
    cbn -[wrap swrap arith_of Z.ltb Z.leb Z.eqb xorb]; f_equal;
    rewrite ?Hz, ?Hs, ?xorb_true_l, ?xorb_false_l; lia.
Qed.

(** ** Compare *)

(** The immediate of [tgen_arithi] stands for the constant. *)
Lemma arithi_imm_wrap op t val :
  arithi_ok op t val = true -> is_and op = false ->
  wrap (wbits (twidth t)) (if val =? s8 val then val else s32 val) =
  wrap (wbits (twidth t)) val.
Proof.
  unfold arithi_ok. intros Hok Hand. rewrite Hand in Hok. cbn [andb] in Hok.
  rewrite orb_false_r in Hok. destruct (val =? s8 val); [done|].
  destruct t; [by apply wrap_swrap|]. cbn [is_I32 orb] in Hok.
  apply Z.eqb_eq in Hok. by rewrite <- Hok.
Qed.

(** Comparing with zero is done by a test of the register with itself. *)
Lemma flags_test w a d :
  in_u (wbits w) a ->
  do_arith And w a a (fun _ d => d) d = Some (flags_cmp (wbits w) a 0 d).
Proof.
  intros Ha. unfold do_arith, flags_cmp. cbn [uses_carry mbind option_bind writes_result].
  assert (0 < wbits w) as Hn by (by destruct w).
  unfold arith_result, arith_cf, arith_of. rewrite Z.land_diag, Z.sub_0_r.
  rewrite (wrap_id (wbits w) a) by done. do 2 f_equal.
  - f_equal. unfold in_u in Ha. lia.
  - f_equal. rewrite (swrap_id _ 0); [|done|unfold in_s; lia]. rewrite Z.sub_0_r.
    rewrite (swrap_id _ (swrap _ _)) by (done || by apply swrap_range). lia.
Qed.

Lemma straight_cmp t arg1 arg2 const_arg2 :
  let n := wbits (twidth t) in
  reg_ok arg1 -> (if const_arg2 : bool then arithi_ok Cmp t arg2 = true else reg_ok arg2) ->
  straight (tcg_out_cmp arg1 arg2 const_arg2 (rexw_of t))
    (fun d => Some (flags_cmp n (wrap n (regs d arg1))
                      (wrap n (if const_arg2 then arg2 else regs d arg2)) d)).
Proof.
  intros n Hr1 H2. unfold tcg_out_cmp. destruct const_arg2.
  - destruct (Z.eqb_spec arg2 0) as [->|Hnz].
    + eapply straight_ext;
        [apply (straight_modrm _ _ _ (ITest (twidth t) (EReg arg1) arg1));
         destruct t; opc_side|].
      intros d Hwf. unfold run1. cbn [exec_plain read_ea]. rewrite read_reg_t.
      apply flags_test. apply wrap_range. by destruct t.
    + eapply straight_ext; [by apply (straight_arithi Cmp)|].
      intros d Hwf. unfold run1, arithi_instr. cbn [is_addsub is_and andb].
      rewrite andb_false_r. cbn [andb exec_plain read_ea]. rewrite read_reg_t.
      rewrite (arithi_imm_wrap Cmp) by done. reflexivity.
  - eapply straight_ext; [by apply (straight_arithr Cmp)|].
    intros d Hwf. unfold run1. cbn [exec_plain read_ea]. rewrite !read_reg_t. reflexivity.
Qed.

(** ** Code with a relational effect *)

Definition computes (m : out unit) (R : dstate -> dstate -> Prop) : Prop :=
  forall s, exists bs, emitted m s bs /\
    forall cd d, wf d -> code_at cd (code_ptr s) bs ->
      exists d', steps cd (code_ptr s, d) (code_ptr (add_code bs s), d') /\ R d d'.

Lemma straight_computes m f (R : dstate -> dstate -> Prop) :
  straight m f -> (forall d, wf d -> exists d', f d = Some d' /\ R d d') -> computes m R.
Proof.
  intros H HR s. destruct (H s) as (bs & He & Hs). exists bs. split; [done|].
  intros cd d Hwf Hc. destruct (HR d Hwf) as (d' & Hf & Hr). exists d'. eauto.
Qed.

Lemma computes_seq m1 m2 (R1 R2 R : dstate -> dstate -> Prop) :
  computes m1 R1 -> computes m2 R2 ->
  (forall d d1 d2, wf d -> R1 d d1 -> R2 d1 d2 -> R d d2) -> computes (m1 ;; m2) R.
Proof.
  intros H1 H2 HR s. destruct (H1 s) as (b1 & E1 & S1).
  destruct (H2 (add_code b1 s)) as (b2 & E2 & S2).
  exists (b1 ++ b2). split; [by apply emitted_seq|].
  intros cd d Hwf [Hc1 Hc2]%code_at_app.
  destruct (S1 cd d Hwf Hc1) as (d1 & St1 & Hr1).
  destruct (S2 cd d1) as (d2 & St2 & Hr2).
  { by apply (wf_steps cd (code_ptr s, d) _ Hwf) in St1. }
  { by rewrite code_ptr_add. }
  exists d2. rewrite add_code_app. split; [by etrans|]. by eapply HR.
Qed.

(** ** Conditional set and move *)

Definition wsize (t : TCGType) : Z := wbits (twidth t).

(** The second operand of a comparison. *)
Definition cmp_operand (const_arg2 : bool) (arg2 : Z) (d : dstate) : Z :=
  if const_arg2 then arg2 else regs d arg2.

Definition operand_ok (op : aop) (t : TCGType) (const_arg2 : bool) (arg2 : Z) : Prop :=
  if const_arg2 then arithi_ok op t arg2 = true else reg_ok arg2.

Lemma straight_setcc c dest :
  nontrivial c = true -> reg_ok dest ->
  straight (tcg_out_modrm (Z.lor OPC_SETCC (tcg_cond_to_jcc c)) 0 dest)
    (run1 (ISetcc (tcg_cond_to_jcc c) W8 (EReg dest))).
Proof.
  intros Hc Hr. destruct c; try discriminate Hc; apply straight_modrm; try opc_side.
  all: match goal with |- mk_modrm (head_of ?o _ _ _) _ _ _ = Some (ISetcc ?cc _ _) =>
         transitivity (let '(w8, e) := byteea (head_of o 0 dest 0) (EReg dest) in
                       Some (ISetcc cc w8 e)); [reflexivity|] end.
  all: by rewrite byteea_rm.
Qed.

(** Writing the low [n] bits of a register. *)
Lemma wrap_low n a v : 0 <= n -> wrap n (a - wrap n a + wrap n v) = wrap n v.
Proof.
  intros Hn. rewrite wrap_add_r. unfold wrap.
  replace (a - a mod 2 ^ n + v) with (v + a / 2 ^ n * 2 ^ n)
    by (pose proof (Z.div_mod a (2 ^ n)); lia).
  by rewrite Z.mod_add by lia.
Qed.

Lemma read_write_byte r v d : read_reg W8 r (write_reg W8 r v d) = u8 v.
Proof. cbn. unfold upd. rewrite Z.eqb_refl. by apply wrap_low. Qed.

Definition tcg_out_setcond (t : TCGType) :=
  match t with TCG_TYPE_I32 => tcg_out_setcond32 | TCG_TYPE_I64 => tcg_out_setcond64 end.

Lemma setcond_effect c t dest arg1 arg2 const_arg2 :
  nontrivial c = true -> reg_ok dest -> reg_ok arg1 -> operand_ok Cmp t const_arg2 arg2 ->
  computes (tcg_out_setcond t c dest arg1 arg2 const_arg2) (fun d d' =>
    sets_reg dest (Z.b2z (eval_cond c (wsize t) (wrap (wsize t) (regs d arg1))
                     (wrap (wsize t) (cmp_operand const_arg2 arg2 d)))) d d').
Proof.
  intros Hc Hd H1 H2. set (n := wsize t).
  assert (tcg_out_setcond t c dest arg1 arg2 const_arg2 =
    (tcg_out_cmp arg1 arg2 const_arg2 (rexw_of t) ;;
     (tcg_out_modrm (Z.lor OPC_SETCC (tcg_cond_to_jcc c)) 0 dest ;;
      tcg_out_ext8u dest dest))) as -> by (by destruct t).
  eapply straight_computes.
  { apply straight_seq; [by apply straight_cmp|].
    apply straight_seq; [by apply straight_setcc|by apply straight_ext8u]. }
  intros d Hwf. cbn [mbind option_bind].
  assert (0 < n) as Hn by (unfold n; by destruct t).
  unfold run1. cbn [exec_plain read_ea write_ea].
  change (wbits (twidth t)) with n.
  change (if const_arg2 then arg2 else regs d arg2) with (cmp_operand const_arg2 arg2 d).
  rewrite cond_holds_cmp by (done || apply wrap_range; lia). cbn [mbind option_bind].
  set (b := eval_cond _ _ _ _). eexists; split; [reflexivity|].
  split_and!; [|regs_other|done].
  rewrite (regs_write_same TCG_TYPE_I64). cbn [read_ea]. rewrite read_write_byte.
  by destruct b.
Qed.

Lemma straight_cmov c t dest v1 :
  nontrivial c = true -> reg_ok dest -> reg_ok v1 ->
  straight (tcg_out_modrm (match t with
                           | TCG_TYPE_I32 => Z.lor OPC_CMOVCC (tcg_cond_to_jcc c)
                           | TCG_TYPE_I64 => Z.lor (Z.lor OPC_CMOVCC (tcg_cond_to_jcc c)) P_REXW
                           end) dest v1)
    (run1 (ICmov (tcg_cond_to_jcc c) (twidth t) dest (EReg v1))).
Proof.
  intros Hc Hr Hv. destruct t, c; try discriminate Hc; apply straight_modrm; opc_side.
Qed.

Definition tcg_out_movcond (t : TCGType) :=
  match t with TCG_TYPE_I32 => tcg_out_movcond32 | TCG_TYPE_I64 => tcg_out_movcond64 end.

Lemma movcond_effect c t dest c1 c2 const_c2 v1 :
  nontrivial c = true -> reg_ok dest -> reg_ok c1 -> operand_ok Cmp t const_c2 c2 ->
  reg_ok v1 ->
  computes (tcg_out_movcond t c dest c1 c2 const_c2 v1) (fun d d' =>
    sets_reg dest (wrap (wsize t)
      (if eval_cond c (wsize t) (wrap (wsize t) (regs d c1))
            (wrap (wsize t) (cmp_operand const_c2 c2 d))
       then regs d v1 else regs d dest)) d d').
Proof.
  intros Hc Hd H1 H2 Hv. set (n := wsize t).
  assert (tcg_out_movcond t c dest c1 c2 const_c2 v1 =
    (tcg_out_cmp c1 c2 const_c2 (rexw_of t) ;;
     tcg_out_modrm (match t with
                    | TCG_TYPE_I32 => Z.lor OPC_CMOVCC (tcg_cond_to_jcc c)
                    | TCG_TYPE_I64 => Z.lor (Z.lor OPC_CMOVCC (tcg_cond_to_jcc c)) P_REXW
                    end) dest v1)) as -> by (by destruct t).
  eapply straight_computes.
  { apply straight_seq; [by apply straight_cmp|by apply straight_cmov]. }
  intros d Hwf. cbn [mbind option_bind]. unfold run1. cbn [exec_plain read_ea].
  assert (0 < n) as Hn by (unfold n; by destruct t).
  change (wbits (twidth t)) with n.
  change (if const_c2 then c2 else regs d c2) with (cmp_operand const_c2 c2 d).
  rewrite cond_holds_cmp by (done || apply wrap_range; lia). cbn [mbind option_bind].
  eexists; split; [reflexivity|]. split_and!; [|regs_other|done].
  rewrite regs_write_same. fold n. rewrite !read_reg_t. change (wbits (twidth t)) with n.
  case_match; by rewrite wrap_wrap.
Qed.

(** ** Branches and calls *)

(** The state when a branch has reached its destination: only the scratch
    register %r10 may change, and a call has pushed its return address. *)
Definition branch_state (call : bool) (ret : Z) (d d' : dstate) : Prop :=
  (forall r, r <> TCG_REG_R10 -> r <> RSP -> regs d' r = regs d r) /\
  if call then
    regs d' RSP = u64 (regs d RSP - 8) /\
    dmem d' = store 8 (u64 (regs d RSP - 8)) ret (dmem d)
  else regs d' RSP = regs d RSP /\ dmem d' = dmem d.

Lemma encodes_rel32 (call : bool) v :
  encodes (opc_bytes (if call then OPC_CALL_Jz else OPC_JMP_long) 0 0 0 ++ bytes_le 4 v)
    ((if call then ICall else IJmp) (s32 v)).
Proof.
  destruct call; (apply encodes_plain; [done|done|cbn; lia|]);
    unfold dec_plain; cbn -[dec_num bytes_le swrap];
    rewrite <- (app_nil_r (bytes_le 4 v)), dec_num_bytes by lia; reflexivity.
Qed.

Lemma encodes_ind (call : bool) s :
  exists bs, emitted (tcg_out_modrm OPC_GRP5 (if call then EXT5_CALLN_Ev else EXT5_JMPN_Ev)
                        TCG_REG_R10) s bs /\
    encodes bs ((if call : bool then ICallE else IJmpE) (EReg TCG_REG_R10)).
Proof.
  destruct (emitted_modrm OPC_GRP5 (if call then EXT5_CALLN_Ev else EXT5_JMPN_Ev)
              TCG_REG_R10 s) as (bs & He & Hi); [opc_side|done|by destruct call|opc_side|].
  exists bs. split; [done|]. by destruct call; eapply encodes_noimm.
Qed.

(** A destination within 2 GB is reached by one instruction. *)
Lemma branch_near call dest s :
  in_u 64 dest -> in_s 32 (s64 (dest - code_ptr s - 5)) ->
  exists bs, emitted (tcg_out_branch call dest) s bs /\
    forall cd d, code_at cd (code_ptr s) bs ->
      steps cd (code_ptr s, d) (dest, if call then push64 (code_ptr (add_code bs s)) d else d).
Proof.
  intros Hdest E%swrap_fits%Z.eqb_eq; [|lia]. set (disp := s64 (dest - code_ptr s - 5)) in *.
  set (opc := if call then OPC_CALL_Jz else OPC_JMP_long).
  exists (opc_bytes opc 0 0 0 ++ bytes_le 4 disp). split.
  { apply emitted_get_ptr. fold disp. rewrite (proj2 (Z.eqb_eq _ _) E).
    apply emitted_seq; [|done]. apply emitted_opc. destruct call; opc_side. }
  intros cd d Hc. rewrite code_ptr_add.
  set (ret := code_ptr s + Z.of_nat (length (opc_bytes opc 0 0 0 ++ bytes_le 4 disp))).
  assert (u64 (ret + s32 disp) = dest) as Hto.
  { rewrite <- E. unfold disp. rewrite <- wrap_add_r, wrap_swrap, wrap_add_r by lia.
    replace ret with (code_ptr s + 5) by (unfold ret, opc; by destruct call).
    rewrite <- (wrap_id 64 dest) at 2 by done. f_equal. lia. }
  apply rtc_once. eapply step_encoded; [apply encodes_rel32|done|].
  fold opc. fold ret. destruct call; cbn [exec]; by rewrite Hto.
Qed.

(** Other destinations are reached through %r10. *)
Lemma branch_far call dest s :
  in_u 64 dest -> ~ in_s 32 (s64 (dest - code_ptr s - 5)) ->
  exists bs, emitted (tcg_out_branch call dest) s bs /\
    forall cd d, wf d -> code_at cd (code_ptr s) bs ->
      exists d', steps cd (code_ptr s, d) (dest, d') /\
        branch_state call (code_ptr (add_code bs s)) d d'.
Proof.
  intros Hdest Hfar.
  assert ((s64 (dest - code_ptr s - 5) =? s32 (s64 (dest - code_ptr s - 5))) = false) as E.
  { apply not_true_is_false. rewrite swrap_fits by lia. done. }
  destruct (straight_movi TCG_TYPE_I64 TCG_REG_R10 (s64 dest)) with (s := s)
    as (b1 & E1 & S1); [opc_side|].
  destruct (encodes_ind call (add_code b1 s)) as (b2 & E2 & H2).
  exists (b1 ++ b2). split; [apply emitted_get_ptr; rewrite E; by apply emitted_seq|].
  intros cd d Hwf [Hc1 Hc2]%code_at_app.
  destruct (movi_effect_some TCG_TYPE_I64 TCG_REG_R10 (s64 dest) d) as (d1 & Ef & Em & Eo & Er).
  specialize (S1 cd d d1 Hwf Hc1 Ef).
  assert (regs d1 TCG_REG_R10 = dest) as Er10.
  { rewrite Er. cbn [twidth wbits]. rewrite wrap_swrap by lia. by apply wrap_id. }
  assert (regs d1 RSP = regs d RSP) as Esp by (by apply Eo).
  rewrite add_code_app.
  exists (if call then push64 (code_ptr (add_code b2 (add_code b1 s))) d1 else d1). split.
  - etrans; [exact S1|]. apply rtc_once.
    eapply step_encoded; [exact H2|by rewrite code_ptr_add|]. rewrite <- code_ptr_add.
    destruct call; cbn [exec read_ea read_reg wbits]; rewrite Er10; by rewrite wrap_id.
  - destruct call.
    + split; [intros r Hr1 Hr2; etrans; [by apply regs_set_other|by apply Eo]|].
      cbn [push64 set_mem regs dmem set_reg]. rewrite Esp, Em. split; [|done].
      apply regs_set_same.
    + split; [|done]. intros r Hr _. by apply Eo.
Qed.

Lemma branch_reaches call dest s :
  in_u 64 dest ->
  exists bs, emitted (tcg_out_branch call dest) s bs /\
    forall cd d, wf d -> code_at cd (code_ptr s) bs ->
      exists d', steps cd (code_ptr s, d) (dest, d') /\
        branch_state call (code_ptr (add_code bs s)) d d' /\
        (in_s 32 (s64 (dest - code_ptr s - 5)) -> regs d' TCG_REG_R10 = regs d TCG_REG_R10).
Proof.
  intros Hdest. destruct (s64 (dest - code_ptr s - 5) =? s32 (s64 (dest - code_ptr s - 5))) eqn:E.
  - destruct (branch_near call dest s Hdest) as (bs & He & Hs); [by apply swrap_fits|].
    exists bs. split; [done|]. intros cd d Hwf Hc.
    exists (if call then push64 (code_ptr (add_code bs s)) d else d). split; [by apply Hs|].
    destruct call; [|done]. split; [|done]. split; [|done]. intros r _ Hr. by apply regs_set_other.
  - assert (~ in_s 32 (s64 (dest - code_ptr s - 5))) as Hf
      by (rewrite <- swrap_fits by lia; congruence).
    destruct (branch_far call dest s Hdest Hf) as (bs & He & Hs). exists bs. split; [done|].
    intros cd d Hwf Hc. destruct (Hs cd d Hwf Hc) as (d' & T & Q). by exists d'.
Qed.

(** ** Sequences of emitters *)

Definition seq_out {A} (ms : list (out unit)) (k : out A) : out A :=
  foldr (fun m k => m ;; k) k ms.

Fixpoint run_all (fs : list (dstate -> option dstate)) (d : dstate) : option dstate :=
  match fs with [] => Some d | f :: fs => f d ≫= run_all fs end.

Lemma straight_list ms fs :
  Forall2 straight ms fs -> forall s, exists bs,
    (forall A (k : out A), seq_out ms k s = k (add_code bs s)) /\
    forall cd d d', wf d -> code_at cd (code_ptr s) bs -> run_all fs d = Some d' ->
      steps cd (code_ptr s, d) (code_ptr (add_code bs s), d').
Proof.
  induction 1 as [|m f ms fs Hm Hms IH]; intros s.
  { exists []. split; [intros; by rewrite add_code_nil|].
    intros cd d d' _ _ [= <-]. by rewrite add_code_nil. }
  destruct (Hm s) as (b1 & E1 & S1). destruct (IH (add_code b1 s)) as (b2 & E2 & S2).
  exists (b1 ++ b2). split.
  - intros A k. cbn [seq_out foldr]. unfold mbind, out_bind. rewrite E1, add_code_app.
    apply E2.
  - intros cd d d' Hwf [Hc1 Hc2]%code_at_app Hf. cbn [run_all] in Hf.
    apply bind_Some in Hf as (d1 & Hf & Hg). specialize (S1 cd d d1 Hwf Hc1 Hf).
    rewrite add_code_app. etrans; [exact S1|]. apply S2; [|by rewrite code_ptr_add|done].
    by apply (wf_steps cd (code_ptr s, d) _ Hwf) in S1.
Qed.

(** ** Effects used by the memory access code *)

(** A step that changes memory only. *)
Definition sets_mem (m : Z -> Z) (d d' : dstate) : Prop :=
  (forall r, regs d' r = regs d r) /\ dmem d' = m.

Lemma mov64_sets ret arg d :
  wf d -> exists d', mov_effect TCG_TYPE_I64 ret arg d = Some d' /\
    sets_reg ret (regs d arg) d d' /\ ZF d' = ZF d.
Proof.
  intros Hwf. unfold mov_effect. destruct (Z.eqb_spec arg ret) as [->|Hne]; cbn [negb].
  - exists d. done.
  - eexists; split; [reflexivity|]. split; [|done]. split_and!; [|regs_other|done].
    rewrite (regs_write_same TCG_TYPE_I64). cbn. rewrite wrap_wrap. by apply wrap_id, Hwf.
Qed.

Lemma shr_sets r c d :
  wf d -> 0 < c < 64 ->
  exists d', run1 (IShift Shr W64 (EReg r) (Some c)) d = Some d' /\
    sets_reg r (Z.shiftr (regs d r) c) d d'.
Proof.
  intros Hwf Hc. pose proof (proj1 Hwf r) as Hr.
  assert (Z.land c 63 = c) as Ec.
  { change 63 with (Z.ones 6). rewrite Z.land_ones by lia. apply Z.mod_small. lia. }
  eexists; split; [reflexivity|]. unfold shift_flags. rewrite Ec.
  rewrite (proj2 (Z.eqb_neq c 0)) by lia.
  split_and!; [|intros; cbn [set_flags regs]; by apply regs_write_other|done].
  cbn [set_flags regs write_ea]. rewrite (regs_write_same TCG_TYPE_I64).
  cbn [shift_result read_ea twidth wbits]. change (read_reg W64 r d) with (u64 (regs d r)).
  rewrite (wrap_id 64 (regs d r)) by done. apply wrap_id. rewrite Z.shiftr_div_pow2 by lia.
  unfold in_u in *. pose proof (Z.pow_pos_nonneg 2 c). split; [apply Z.div_pos; lia|].
  apply Z.div_lt_upper_bound; nia.
Qed.

Lemma st_sets b ofs r d :
  wf d -> exists d', run1 (IMovMR W64 (EMem (Some b) None ofs) r) d = Some d' /\
    sets_mem (store 8 (u64 (regs d b + ofs)) (regs d r) (dmem d)) d d'.
Proof.
  intros Hwf. eexists; split; [reflexivity|]. split; [done|].
  cbn [write_ea set_mem dmem addr_of wbytes]. rewrite Z.add_0_r.
  change (read_reg W64 r d) with (u64 (regs d r)). by rewrite (wrap_id 64 (regs d r)) by apply Hwf.
Qed.

Lemma ld_sets r b ofs d :
  wf d -> exists d', run1 (IMovRM W64 r (EMem (Some b) None ofs)) d = Some d' /\
    sets_reg r (load 8 (u64 (regs d b + ofs)) (dmem d)) d d'.
Proof.
  intros Hwf. eexists; split; [reflexivity|]. split_and!; [|regs_other|done].
  rewrite (regs_write_same TCG_TYPE_I64). cbn [read_ea addr_of wbytes twidth wbits].
  rewrite Z.add_0_r. apply wrap_id. by apply (load_range 8).
Qed.

Lemma lea_sets r b i ofs d :
  exists d', run1 (ILea W64 r (EMem (Some b) (Some (i, 0)) ofs)) d = Some d' /\
    sets_reg r (u64 (regs d b + regs d i + ofs)) d d'.
Proof.
  eexists; split; [reflexivity|]. split_and!; [|regs_other|done].
  rewrite (regs_write_same TCG_TYPE_I64). cbn [addr_of twidth wbits].
  by rewrite wrap_wrap, Z.mul_1_r.
Qed.

Lemma cmpm_sets r b d :
  wf d -> exists d', run1 (IArithRM Cmp W64 r (EMem (Some b) None 0)) d = Some d' /\
    sets_mem (dmem d) d d' /\
    ZF d' = Some (regs d r =? load 8 (u64 (regs d b)) (dmem d)).
Proof.
  intros Hwf. pose proof (proj1 Hwf r) as Hr.
  eexists; split; [reflexivity|]. split; [done|].
  cbn [set_flags ZF arith_result read_ea addr_of wbytes wbits].
  rewrite !Z.add_0_r. change (read_reg W64 r d) with (u64 (regs d r)).
  rewrite (wrap_id 64 (regs d r)) by done.
  by rewrite (wrap_sub_zero 64) by (lia || done || by apply (load_range 8)).
Qed.

Lemma addm_sets r b ofs d :
  wf d -> exists d', run1 (IArithRM Add W64 r (EMem (Some b) None ofs)) d = Some d' /\
    sets_reg r (u64 (regs d r + load 8 (u64 (regs d b + ofs)) (dmem d))) d d'.
Proof.
  intros Hwf. pose proof (proj1 Hwf r) as Hr.
  destruct (do_arith_reg Add TCG_TYPE_I64 r (read_reg W64 r d)
    (read_ea W64 0 (EMem (Some b) None ofs) d) (write_reg W64 r) d) as (d' & E & S);
    [done|done|by apply (read_reg_range W64)|by apply (read_ea_range W64)|
     intros; apply (sets_reg_t TCG_TYPE_I64)|].
  exists d'. split; [exact E|]. eapply sets_reg_eq; [exact S|].
  cbn [arith_result twidth wbits read_ea addr_of wbytes]. rewrite Z.add_0_r.
  change (read_reg W64 r d) with (u64 (regs d r)). by rewrite (wrap_id 64 (regs d r)).
Qed.

Lemma wf_run1 i d d' : wf d -> run1 i d = Some d' -> wf d'.
Proof. apply wf_exec_plain. Qed.

Lemma wf_mov_effect t ret arg d d' : wf d -> mov_effect t ret arg d = Some d' -> wf d'.
Proof.
  unfold mov_effect. destruct (negb _); [apply wf_run1|]. intros ? [= <-]. done.
Qed.

Lemma wf_movi_effect t ret arg d d' : wf d -> movi_effect t ret arg d = Some d' -> wf d'.
Proof.
  unfold movi_effect. destruct (arg =? 0); [apply wf_run1|]. intros Hwf [= <-].
  apply wf_set_reg; [done|]. apply (in_u_mono (wbits (twidth t)));
    [by destruct t|apply wrap_range; by destruct t].
Qed.

(** [eff lem] runs the next effect of [run_all] with the lemma [lem], which says
    that it succeeds; [eff_facts] names the new state and its facts. *)
Ltac eff lem d E S :=
  let W := fresh "W" in
  destruct lem as (d & E & S); [try done..|];
  cbn [run_all]; rewrite E; cbn [mbind option_bind];
  assert (wf d) as W by
    (lazymatch type of E with
     | run1 _ _ = _ => eapply wf_run1; [|exact E]; assumption
     | mov_effect _ _ _ _ = _ => eapply wf_mov_effect; [|exact E]; assumption
     | movi_effect _ _ _ _ = _ => eapply wf_movi_effect; [|exact E]; assumption
     end).

Lemma run_all_app fs gs d : run_all (fs ++ gs) d = run_all fs d ≫= run_all gs.
Proof.
  revert d. induction fs as [|f fs IH]; intros d; cbn [run_all app]; [done|].
  destruct (f d); cbn; [apply IH|done].
Qed.
