(* ===== verification/TcgOpDefs.v ===== *)
(** * The operations of the code generator and their operands

    tcg/tcg-opc.h and tcg/tcg.h: the operations and conditions; the table of
    operand constraints of tcg/i386/tcg-target.c, how tcg/tcg.c reads it
    ([tcg_add_target_add_op_defs]), and the order in which the register allocator
    serves the operands ([sort_constraints]). *)

From Stdlib Require Import Ascii.
From S2P Require Import Prelude X86 TcgOut TcgEnc TcgEmit TcgCond.

(** ** Conditions *)

Definition cond_code (c : TCGCond) : Z :=
  match c with
  | TCG_COND_NEVER => 0 | TCG_COND_ALWAYS => 1 | TCG_COND_EQ => 8 | TCG_COND_NE => 9
  | TCG_COND_LT => 2 | TCG_COND_GE => 3 | TCG_COND_LE => 10 | TCG_COND_GT => 11
  | TCG_COND_LTU => 4 | TCG_COND_GEU => 5 | TCG_COND_LEU => 12 | TCG_COND_GTU => 13
  end.

Definition cond_of (z : Z) : option TCGCond :=
  match z with
  | 0 => Some TCG_COND_NEVER | 1 => Some TCG_COND_ALWAYS | 8 => Some TCG_COND_EQ
  | 9 => Some TCG_COND_NE | 2 => Some TCG_COND_LT | 3 => Some TCG_COND_GE
  | 10 => Some TCG_COND_LE | 11 => Some TCG_COND_GT | 4 => Some TCG_COND_LTU
  | 5 => Some TCG_COND_GEU | 12 => Some TCG_COND_LEU | 13 => Some TCG_COND_GTU
  | _ => None
  end.

Definition tcg_invert_cond (c : Z) : Z := Z.lxor c 1.
Definition tcg_swap_cond (c : Z) : Z := if testb c 6 then Z.lxor c 9 else c.
Definition tcg_unsigned_cond (c : Z) : Z := if testb c 2 then Z.lxor c 6 else c.
Definition is_unsigned_cond (c : Z) : bool := testb c 4.
Definition tcg_high_cond (c : Z) : Z :=
  if (c =? cond_code TCG_COND_GE) || (c =? cond_code TCG_COND_LE) ||
     (c =? cond_code TCG_COND_GEU) || (c =? cond_code TCG_COND_LEU) then Z.lxor c 8 else c.

(** ** Operations *)

(** The operations of tcg/tcg-opc.h.  An operation that exists for both types has
    its type as argument, as in the macros OP_32_64 and CASE_OP_32_64.  The old
    guest memory operations do not exist on a host with TCG_TARGET_HAS_new_ldst. *)
Inductive TCGOpcode :=
  | INDEX_op_end | INDEX_op_nop | INDEX_op_nop1 | INDEX_op_nop2 | INDEX_op_nop3 | INDEX_op_nopn
  | INDEX_op_discard | INDEX_op_set_label | INDEX_op_debug_insn_start
  | INDEX_op_qtrace_instrumentation | INDEX_op_qtrace_shadow_register
  | INDEX_op_exit_tb | INDEX_op_goto_tb | INDEX_op_call | INDEX_op_br
  | INDEX_op_mov (t : TCGType) | INDEX_op_movi (t : TCGType)
  | INDEX_op_ld8u (t : TCGType) | INDEX_op_ld8s (t : TCGType)
  | INDEX_op_ld16u (t : TCGType) | INDEX_op_ld16s (t : TCGType)
  | INDEX_op_ld32u_i64 | INDEX_op_ld32s_i64 | INDEX_op_ld (t : TCGType)
  | INDEX_op_st8 (t : TCGType) | INDEX_op_st16 (t : TCGType)
  | INDEX_op_st32_i64 | INDEX_op_st (t : TCGType)
  | INDEX_op_add (t : TCGType) | INDEX_op_sub (t : TCGType) | INDEX_op_mul (t : TCGType)
  | INDEX_op_div (t : TCGType) | INDEX_op_divu (t : TCGType)
  | INDEX_op_rem (t : TCGType) | INDEX_op_remu (t : TCGType)
  | INDEX_op_div2 (t : TCGType) | INDEX_op_divu2 (t : TCGType)
  | INDEX_op_and (t : TCGType) | INDEX_op_or (t : TCGType) | INDEX_op_xor (t : TCGType)
  | INDEX_op_andc (t : TCGType) | INDEX_op_orc (t : TCGType) | INDEX_op_eqv (t : TCGType)
  | INDEX_op_nand (t : TCGType) | INDEX_op_nor (t : TCGType)
  | INDEX_op_shl (t : TCGType) | INDEX_op_shr (t : TCGType) | INDEX_op_sar (t : TCGType)
  | INDEX_op_rotl (t : TCGType) | INDEX_op_rotr (t : TCGType)
  | INDEX_op_brcond (t : TCGType) | INDEX_op_setcond (t : TCGType)
  | INDEX_op_movcond (t : TCGType)
  | INDEX_op_bswap16 (t : TCGType) | INDEX_op_bswap32 (t : TCGType) | INDEX_op_bswap64_i64
  | INDEX_op_neg (t : TCGType) | INDEX_op_not (t : TCGType)
  | INDEX_op_ext8s (t : TCGType) | INDEX_op_ext16s (t : TCGType)
  | INDEX_op_ext8u (t : TCGType) | INDEX_op_ext16u (t : TCGType)
  | INDEX_op_ext32s_i64 | INDEX_op_ext32u_i64
  | INDEX_op_qemu_ld (t : TCGType) | INDEX_op_qemu_st (t : TCGType)
  | INDEX_op_mulu2 (t : TCGType) | INDEX_op_muls2 (t : TCGType)
  | INDEX_op_muluh (t : TCGType) | INDEX_op_mulsh (t : TCGType)
  | INDEX_op_add2 (t : TCGType) | INDEX_op_sub2 (t : TCGType)
  | INDEX_op_brcond2_i32 | INDEX_op_setcond2_i32
  | INDEX_op_deposit (t : TCGType).

#[export] Instance TCGType_eq_dec : EqDecision TCGType.
Proof. solve_decision. Defined.
#[export] Instance TCGOpcode_eq_dec : EqDecision TCGOpcode.
Proof. solve_decision. Defined.

(** The numbers of outputs, inputs and constants. *)
Definition op_args (op : TCGOpcode) : nat * nat * nat :=
  match op with
  | INDEX_op_end | INDEX_op_nop => (0, 0, 0)
  | INDEX_op_nop1 | INDEX_op_nopn | INDEX_op_set_label | INDEX_op_debug_insn_start => (0, 0, 1)
  | INDEX_op_nop2 => (0, 0, 2)
  | INDEX_op_nop3 => (0, 0, 3)
  | INDEX_op_discard => (1, 0, 0)
  | INDEX_op_qtrace_instrumentation => (0, 0, 1)
  | INDEX_op_qtrace_shadow_register => (0, 0, 2)
  | INDEX_op_exit_tb | INDEX_op_goto_tb | INDEX_op_br => (0, 0, 1)
  | INDEX_op_call => (0, 1, 2)
  | INDEX_op_mov _ => (1, 1, 0)
  | INDEX_op_movi _ => (1, 0, 1)
  | INDEX_op_ld8u _ | INDEX_op_ld8s _ | INDEX_op_ld16u _ | INDEX_op_ld16s _
  | INDEX_op_ld32u_i64 | INDEX_op_ld32s_i64 | INDEX_op_ld _ => (1, 1, 1)
  | INDEX_op_st8 _ | INDEX_op_st16 _ | INDEX_op_st32_i64 | INDEX_op_st _ => (0, 2, 1)
  | INDEX_op_add _ | INDEX_op_sub _ | INDEX_op_mul _
  | INDEX_op_div _ | INDEX_op_divu _ | INDEX_op_rem _ | INDEX_op_remu _
  | INDEX_op_and _ | INDEX_op_or _ | INDEX_op_xor _
  | INDEX_op_andc _ | INDEX_op_orc _ | INDEX_op_eqv _ | INDEX_op_nand _ | INDEX_op_nor _
  | INDEX_op_shl _ | INDEX_op_shr _ | INDEX_op_sar _
  | INDEX_op_rotl _ | INDEX_op_rotr _ | INDEX_op_muluh _ | INDEX_op_mulsh _ => (1, 2, 0)
  | INDEX_op_div2 _ | INDEX_op_divu2 _ => (2, 3, 0)
  | INDEX_op_brcond _ => (0, 2, 2)
  | INDEX_op_setcond _ => (1, 2, 1)
  | INDEX_op_movcond _ => (1, 4, 1)
  | INDEX_op_bswap16 _ | INDEX_op_bswap32 _ | INDEX_op_bswap64_i64
  | INDEX_op_neg _ | INDEX_op_not _
  | INDEX_op_ext8s _ | INDEX_op_ext16s _ | INDEX_op_ext8u _ | INDEX_op_ext16u _
  | INDEX_op_ext32s_i64 | INDEX_op_ext32u_i64 => (1, 1, 0)
  | INDEX_op_qemu_ld _ => (1, 1, 2)
  | INDEX_op_qemu_st _ => (0, 2, 2)
  | INDEX_op_mulu2 _ | INDEX_op_muls2 _ => (2, 2, 0)
  | INDEX_op_add2 _ | INDEX_op_sub2 _ => (2, 4, 0)
  | INDEX_op_brcond2_i32 => (0, 4, 2)
  | INDEX_op_setcond2_i32 => (1, 4, 1)
  | INDEX_op_deposit _ => (1, 2, 2)
  end%nat.
Definition nb_oargs (op : TCGOpcode) : nat := (op_args op).1.1.
Definition nb_iargs (op : TCGOpcode) : nat := (op_args op).1.2.
Definition nb_cargs (op : TCGOpcode) : nat := (op_args op).2.
Definition nb_args (op : TCGOpcode) : nat := (nb_oargs op + nb_iargs op + nb_cargs op)%nat.

(** The flags, on a 64-bit host with the TCG_TARGET_HAS macros of
    tcg/i386/tcg-target.h; the macro IMPL64 is TCG_OPF_64BIT. *)
Definition TCG_OPF_BB_END : Z := 0x01.
Definition TCG_OPF_CALL_CLOBBER : Z := 0x02.
Definition TCG_OPF_SIDE_EFFECTS : Z := 0x04.
Definition TCG_OPF_64BIT : Z := 0x08.
Definition TCG_OPF_NOT_PRESENT : Z := 0x10.

Definition IMPL64 (t : TCGType) : Z := match t with TCG_TYPE_I64 => TCG_OPF_64BIT | TCG_TYPE_I32 => 0 end.

Definition op_flags (op : TCGOpcode) : Z :=
  match op with
  | INDEX_op_end | INDEX_op_nop | INDEX_op_nop1 | INDEX_op_nop2 | INDEX_op_nop3 | INDEX_op_nopn
  | INDEX_op_discard | INDEX_op_debug_insn_start => TCG_OPF_NOT_PRESENT
  | INDEX_op_set_label => Z.lor TCG_OPF_BB_END TCG_OPF_NOT_PRESENT
  | INDEX_op_call => TCG_OPF_CALL_CLOBBER
  | INDEX_op_br | INDEX_op_exit_tb | INDEX_op_goto_tb => TCG_OPF_BB_END
  | INDEX_op_brcond t => Z.lor TCG_OPF_BB_END (IMPL64 t)
  | INDEX_op_qemu_ld t | INDEX_op_qemu_st t =>
      Z.lor (Z.lor TCG_OPF_CALL_CLOBBER TCG_OPF_SIDE_EFFECTS) (IMPL64 t)
  | INDEX_op_qtrace_instrumentation | INDEX_op_qtrace_shadow_register =>
      Z.lor TCG_OPF_CALL_CLOBBER TCG_OPF_SIDE_EFFECTS
  | INDEX_op_div t | INDEX_op_divu t | INDEX_op_rem t | INDEX_op_remu t
  | INDEX_op_andc t | INDEX_op_orc t | INDEX_op_eqv t | INDEX_op_nand t | INDEX_op_nor t =>
      Z.lor TCG_OPF_NOT_PRESENT (IMPL64 t)
  | INDEX_op_muluh _ | INDEX_op_mulsh _ => TCG_OPF_NOT_PRESENT
  | INDEX_op_brcond2_i32 => Z.lor TCG_OPF_BB_END TCG_OPF_NOT_PRESENT
  | INDEX_op_setcond2_i32 => TCG_OPF_NOT_PRESENT
  | INDEX_op_ld32u_i64 | INDEX_op_ld32s_i64 | INDEX_op_st32_i64 | INDEX_op_bswap64_i64
  | INDEX_op_ext32s_i64 | INDEX_op_ext32u_i64 => TCG_OPF_64BIT
  | INDEX_op_mov t | INDEX_op_movi t | INDEX_op_ld8u t | INDEX_op_ld8s t
  | INDEX_op_ld16u t | INDEX_op_ld16s t | INDEX_op_ld t
  | INDEX_op_st8 t | INDEX_op_st16 t | INDEX_op_st t
  | INDEX_op_add t | INDEX_op_sub t | INDEX_op_mul t | INDEX_op_div2 t | INDEX_op_divu2 t
  | INDEX_op_and t | INDEX_op_or t | INDEX_op_xor t
  | INDEX_op_shl t | INDEX_op_shr t | INDEX_op_sar t | INDEX_op_rotl t | INDEX_op_rotr t
  | INDEX_op_setcond t | INDEX_op_movcond t | INDEX_op_bswap16 t | INDEX_op_bswap32 t
  | INDEX_op_neg t | INDEX_op_not t
  | INDEX_op_ext8s t | INDEX_op_ext16s t | INDEX_op_ext8u t | INDEX_op_ext16u t
  | INDEX_op_mulu2 t | INDEX_op_muls2 t | INDEX_op_add2 t | INDEX_op_sub2 t
  | INDEX_op_deposit t => IMPL64 t
  end.

(** The operands of the operations on a 64-bit host.  Operations that the host
    does not have and the instrumentation operations are not in the table. *)
Definition x86_op_defs (op : TCGOpcode) : option (list string) :=
  match op with
  | INDEX_op_exit_tb | INDEX_op_goto_tb | INDEX_op_br => Some []
  | INDEX_op_call => Some ["ri"]
  | INDEX_op_mov _ => Some ["r"; "r"]
  | INDEX_op_movi _ => Some ["r"]
  | INDEX_op_ld8u _ | INDEX_op_ld8s _ | INDEX_op_ld16u _ | INDEX_op_ld16s _
  | INDEX_op_ld32u_i64 | INDEX_op_ld32s_i64 | INDEX_op_ld _ => Some ["r"; "r"]
  | INDEX_op_st8 TCG_TYPE_I32 => Some ["qi"; "r"]
  | INDEX_op_st8 TCG_TYPE_I64 | INDEX_op_st16 _ | INDEX_op_st32_i64 => Some ["ri"; "r"]
  | INDEX_op_st TCG_TYPE_I32 => Some ["ri"; "r"]
  | INDEX_op_st TCG_TYPE_I64 => Some ["re"; "r"]
  | INDEX_op_add TCG_TYPE_I32 => Some ["r"; "r"; "ri"]
  | INDEX_op_add TCG_TYPE_I64 => Some ["r"; "r"; "re"]
  | INDEX_op_sub TCG_TYPE_I32 | INDEX_op_mul TCG_TYPE_I32 | INDEX_op_and TCG_TYPE_I32
  | INDEX_op_or TCG_TYPE_I32 | INDEX_op_xor TCG_TYPE_I32 => Some ["r"; "0"; "ri"]
  | INDEX_op_sub TCG_TYPE_I64 | INDEX_op_mul TCG_TYPE_I64
  | INDEX_op_or TCG_TYPE_I64 | INDEX_op_xor TCG_TYPE_I64 => Some ["r"; "0"; "re"]
  | INDEX_op_and TCG_TYPE_I64 => Some ["r"; "0"; "reZ"]
  | INDEX_op_div2 _ | INDEX_op_divu2 _ => Some ["a"; "d"; "0"; "1"; "r"]
  | INDEX_op_shl _ | INDEX_op_shr _ | INDEX_op_sar _
  | INDEX_op_rotl _ | INDEX_op_rotr _ => Some ["r"; "0"; "ci"]
  | INDEX_op_brcond TCG_TYPE_I32 => Some ["r"; "ri"]
  | INDEX_op_brcond TCG_TYPE_I64 => Some ["r"; "re"]
  | INDEX_op_setcond TCG_TYPE_I32 => Some ["q"; "r"; "ri"]
  | INDEX_op_setcond TCG_TYPE_I64 => Some ["r"; "r"; "re"]
  | INDEX_op_movcond TCG_TYPE_I32 => Some ["r"; "r"; "ri"; "r"; "0"]
  | INDEX_op_movcond TCG_TYPE_I64 => Some ["r"; "r"; "re"; "r"; "0"]
  | INDEX_op_bswap16 _ | INDEX_op_bswap32 _ | INDEX_op_bswap64_i64
  | INDEX_op_neg _ | INDEX_op_not _ => Some ["r"; "0"]
  | INDEX_op_ext8s TCG_TYPE_I32 | INDEX_op_ext8u TCG_TYPE_I32 => Some ["r"; "q"]
  | INDEX_op_ext8s TCG_TYPE_I64 | INDEX_op_ext8u TCG_TYPE_I64
  | INDEX_op_ext16s _ | INDEX_op_ext16u _
  | INDEX_op_ext32s_i64 | INDEX_op_ext32u_i64 => Some ["r"; "r"]
  | INDEX_op_qemu_ld _ => Some ["r"; "L"]
  | INDEX_op_qemu_st _ => Some ["L"; "L"]
  | INDEX_op_mulu2 _ | INDEX_op_muls2 _ => Some ["a"; "d"; "a"; "r"]
  | INDEX_op_add2 TCG_TYPE_I32 | INDEX_op_sub2 TCG_TYPE_I32 =>
      Some ["r"; "r"; "0"; "1"; "ri"; "ri"]
  | INDEX_op_add2 TCG_TYPE_I64 | INDEX_op_sub2 TCG_TYPE_I64 =>
      Some ["r"; "r"; "0"; "1"; "re"; "re"]
  | INDEX_op_deposit _ => Some ["Q"; "0"; "Q"]
  | _ => None
  end%string.

(** ** Constraints *)

Definition TCG_CT_ALIAS : Z := 0x80.
Definition TCG_CT_IALIAS : Z := 0x40.
Definition TCG_CT_REG : Z := 0x01.
Definition TCG_CT_CONST : Z := 0x02.
Definition TCG_CT_CONST_S32 : Z := 0x100.
Definition TCG_CT_CONST_U32 : Z := 0x200.
Definition TCG_TARGET_NB_REGS : nat := 16.

(** A set of registers is a bit mask. *)
Record TCGArgConstraint := mkCt { ct : Z; ct_alias : Z; ct_regs : Z }.

Definition or_ct (f : Z) (c : TCGArgConstraint) : TCGArgConstraint :=
  mkCt (Z.lor c.(ct) f) c.(ct_alias) c.(ct_regs).
Definition ct_set_reg (r : Z) (c : TCGArgConstraint) : TCGArgConstraint :=
  mkCt c.(ct) c.(ct_alias) (Z.lor c.(ct_regs) (Z.shiftl 1 r)).
Definition ct_reset_reg (r : Z) (c : TCGArgConstraint) : TCGArgConstraint :=
  mkCt c.(ct) c.(ct_alias) (Z.land c.(ct_regs) (Z.lnot (Z.shiftl 1 r))).
Definition ct_set32 (val : Z) (c : TCGArgConstraint) : TCGArgConstraint :=
  mkCt c.(ct) c.(ct_alias) val.

(** One letter; [None] for a letter that is no constraint. *)
Definition target_parse_constraint (ch : ascii) (c : TCGArgConstraint)
    : option TCGArgConstraint :=
  match ch with
  | "a" => Some (ct_set_reg TCG_REG_RAX (or_ct TCG_CT_REG c))
  | "b" => Some (ct_set_reg TCG_REG_RBX (or_ct TCG_CT_REG c))
  | "c" => Some (ct_set_reg TCG_REG_RCX (or_ct TCG_CT_REG c))
  | "d" => Some (ct_set_reg TCG_REG_RDX (or_ct TCG_CT_REG c))
  | "S" => Some (ct_set_reg TCG_REG_RSI (or_ct TCG_CT_REG c))
  | "D" => Some (ct_set_reg TCG_REG_RDI (or_ct TCG_CT_REG c))
  | "q" => Some (ct_set32 0xffff (or_ct TCG_CT_REG c))
  | "Q" => Some (ct_set32 0xf (or_ct TCG_CT_REG c))
  | "r" => Some (ct_set32 0xffff (or_ct TCG_CT_REG c))
  | "L" => Some (ct_reset_reg TCG_REG_L1 (ct_reset_reg TCG_REG_L0
                   (ct_set32 0xffff (or_ct TCG_CT_REG c))))
  | "e" => Some (or_ct TCG_CT_CONST_S32 c)
  | "Z" => Some (or_ct TCG_CT_CONST_U32 c)
  | _ => None
  end%char.

Definition tcg_target_const_match (val : Z) (arg_ct : TCGArgConstraint) : bool :=
  testb arg_ct.(ct) TCG_CT_CONST ||
  (testb arg_ct.(ct) TCG_CT_CONST_S32 && (val =? s32 val)) ||
  (testb arg_ct.(ct) TCG_CT_CONST_U32 && (val =? u32 val)).

(** The letters of one operand. *)
Fixpoint parse_letters (s : string) (c : TCGArgConstraint) : res TCGArgConstraint :=
  match s with
  | EmptyString => Ok c
  | String "i" s => parse_letters s (or_ct TCG_CT_CONST c)
  | String ch s => c ← of_option Exited (target_parse_constraint ch c); parse_letters s c
  end.

Definition digit_value (ch : ascii) : option nat :=
  let n := nat_of_ascii ch in
  if (48 <=? n)%nat && (n <=? 57)%nat then Some (n - 48)%nat else None.

(** Operand [i] after the operands [acc]: a digit makes it an alias of an
    output, whose constraint then is the alias. *)
Definition parse_operand (oargs : nat) (s : string) (acc : list TCGArgConstraint)
    : res (list TCGArgConstraint) :=
  let i := length acc in
  let letters := c ← parse_letters s (mkCt 0 0 0); Ok (acc ++ [c]) in
  match s with
  | String ch _ =>
      match digit_value ch with
      | Some oarg =>
          _ ← guard_res (oarg <? oargs)%nat AssertFailed;
          c ← of_option OutOfBounds (acc !! oarg);
          _ ← guard_res (testb c.(ct) TCG_CT_REG) AssertFailed;
          Ok (<[oarg := mkCt TCG_CT_ALIAS (Z.of_nat i) c.(ct_regs)]> acc ++
              [mkCt (Z.lor c.(ct) TCG_CT_IALIAS) (Z.of_nat oarg) c.(ct_regs)])
      | None => letters
      end
  | EmptyString => letters
  end.

Fixpoint parse_operands (oargs : nat) (l : list string) (acc : list TCGArgConstraint)
    : res (list TCGArgConstraint) :=
  match l with
  | [] => Ok acc
  | s :: l => acc ← parse_operand oargs s acc; parse_operands oargs l acc
  end.

(** One entry of the table: [tcg_add_target_add_op_defs] without the sorting. *)
Definition parse_op_def (op : TCGOpcode) (l : list string) : res (list TCGArgConstraint) :=
  let nb := (nb_oargs op + nb_iargs op)%nat in
  _ ← guard_res (nb <=? length l)%nat AssertFailed;
  _ ← guard_res (length l <=? nb)%nat AssertFailed;
  parse_operands (nb_oargs op) l [].

(** [get_constraint_priority] *)
Definition regs_count (regs : Z) : Z :=
  foldr (fun i n => if Z.testbit regs (Z.of_nat i) then n + 1 else n) 0 (seq 0 TCG_TARGET_NB_REGS).

Definition get_constraint_priority (args_ct : list TCGArgConstraint) (k : nat) : res Z :=
  arg_ct ← of_option OutOfBounds (args_ct !! k);
  if testb arg_ct.(ct) TCG_CT_ALIAS then Ok (Z.of_nat TCG_TARGET_NB_REGS - 1 + 1)
  else if testb arg_ct.(ct) TCG_CT_REG then
    Ok (Z.of_nat TCG_TARGET_NB_REGS - regs_count arg_ct.(ct_regs) + 1)
  else Ok 0.

(** [sort_constraints]: the operand at place [i] is exchanged with each later one
    of higher priority. *)
Definition swap_at {A} (i j : nat) (l : list A) : list A :=
  match l !! i, l !! j with Some x, Some y => <[i := y]> (<[j := x]> l) | _, _ => l end.

Fixpoint sort_inner (p : nat -> Z) (i : nat) (js : list nat) (l : list nat) : list nat :=
  match js with
  | [] => l
  | j :: js =>
      sort_inner p i js
        (match l !! i, l !! j with
         | Some a, Some b => if p a <? p b then swap_at i j l else l
         | _, _ => l
         end)
  end.

Fixpoint sort_outer (p : nat -> Z) (n : nat) (todo : list nat) (l : list nat) : list nat :=
  match todo with
  | [] => l
  | i :: todo => sort_outer p n todo (sort_inner p i (seq (S i) (n - S i)) l)
  end.

(** The places [start], ..., [start + n - 1] of [sorted_args]. *)
Definition sort_constraints (p : nat -> Z) (start n : nat) : list nat :=
  sort_outer p n (seq 0 (n - 1)) (seq start n).

Definition constraint_priority (args_ct : list TCGArgConstraint) (k : nat) : Z :=
  match get_constraint_priority args_ct k with Ok v => v | Err _ => 0 end.

(** ** Sorting *)

Section Sort.
Context (p : nat -> Z).

(** [l] is a rearrangement of [l0] that keeps the places below [i]; every bound
    on the places from [i] on is kept, too. *)
Record rearranged (i : nat) (l0 l : list nat) : Prop := {
  ra_perm : l ≡ₚ l0;
  ra_prefix : forall k, (k < i)%nat -> l !! k = l0 !! k;
  ra_bound : forall M, (forall k x, (i <= k)%nat -> l0 !! k = Some x -> p x <= M) ->
               forall k x, (i <= k)%nat -> l !! k = Some x -> p x <= M
}.

Lemma rearranged_refl i l : rearranged i l l.
Proof. by split. Qed.

Lemma rearranged_trans i l0 l1 l2 : rearranged i l0 l1 -> rearranged i l1 l2 -> rearranged i l0 l2.
Proof.
  intros [P1 F1 B1] [P2 F2 B2]. split.
  - by etrans.
  - intros k Hk. by rewrite F2, F1.
  - intros M HM. by apply B2, B1.
Qed.

Lemma swap_at_lookup i j (l : list nat) a b k :
  l !! i = Some a -> l !! j = Some b ->
  swap_at i j l !! k = if decide (k = i) then Some b else if decide (k = j) then Some a else l !! k.
Proof.
  intros Hi Hj. unfold swap_at. rewrite Hi, Hj.
  destruct (decide (k = i)) as [->|Hki].
  { apply list_lookup_insert_eq. rewrite length_insert. by eapply lookup_lt_Some. }
  rewrite list_lookup_insert_ne by done. destruct (decide (k = j)) as [->|Hkj].
  - apply list_lookup_insert_eq. by eapply lookup_lt_Some.
  - by rewrite list_lookup_insert_ne.
Qed.

Lemma swap_at_perm i j (l : list nat) : swap_at i j l ≡ₚ l.
Proof.
  destruct (l !! i) as [a|] eqn:Hi; [|unfold swap_at; by rewrite Hi].
  destruct (l !! j) as [b|] eqn:Hj; [|unfold swap_at; by rewrite Hi, Hj].
  apply Permutation_inj. split; [unfold swap_at; rewrite Hi, Hj; by rewrite !length_insert|].
  exists (fun k => if decide (k = i) then j else if decide (k = j) then i else k). split.
  - intros x y. repeat case_decide; congruence.
  - intros k. rewrite (swap_at_lookup i j l a b k Hi Hj). repeat case_decide; congruence.
Qed.

(** One comparison of the inner loop. *)
Definition sort_step (i j : nat) (l : list nat) : list nat :=
  match l !! i, l !! j with
  | Some a, Some b => if p a <? p b then swap_at i j l else l
  | _, _ => l
  end.

Lemma sort_step_rearranged i j l : (i < j)%nat -> rearranged i l (sort_step i j l).
Proof.
  intros Hij. unfold sort_step. destruct (l !! i) as [a|] eqn:Hi; [|apply rearranged_refl].
  destruct (l !! j) as [b|] eqn:Hj; [|apply rearranged_refl].
  destruct (Z.ltb_spec (p a) (p b)); [|apply rearranged_refl]. split.
  - apply swap_at_perm.
  - intros k Hk. rewrite (swap_at_lookup i j l a b k Hi Hj). by repeat (case_decide; [lia|]).
  - intros M HM k x Hk. rewrite (swap_at_lookup i j l a b k Hi Hj).
    repeat case_decide; intros ?; simplify_eq; eapply HM; [|done| |done| |done]; lia.
Qed.

(** The place [i] is the largest of those seen. *)
Definition largest (i j : nat) (l : list nat) : Prop :=
  forall k a x, (i < k < j)%nat -> l !! i = Some a -> l !! k = Some x -> p x <= p a.

Lemma sort_step_largest i j l :
  (i < j)%nat -> largest i j l -> largest i (S j) (sort_step i j l).
Proof.
  intros Hij Hl k a x Hk. unfold sort_step.
  destruct (l !! i) as [u|] eqn:Hi; [|intros; simplify_eq].
  destruct (l !! j) as [v|] eqn:Hj.
  2:{ intros ? Hx. assert (k <> j) by congruence. simplify_eq. eapply Hl; eauto. lia. }
  destruct (Z.ltb_spec (p u) (p v)) as [Hlt|Hge].
  - rewrite !(swap_at_lookup i j l u v _ Hi Hj), decide_True by done. rewrite decide_False by lia.
    intros [= <-] Hx. case_decide; simplify_eq; [lia|].
    assert (p x <= p u) by (eapply Hl; eauto; lia). lia.
  - intros ? Hx. simplify_eq. destruct (decide (k = j)) as [->|]; [by simplify_eq|].
    eapply Hl; eauto. lia.
Qed.

Lemma sort_inner_spec i j m l :
  (i < j)%nat -> largest i j l ->
  rearranged i l (sort_inner p i (seq j m) l) /\ largest i (j + m) (sort_inner p i (seq j m) l).
Proof.
  revert j l. induction m as [|m IH]; intros j l Hij Hl; cbn [seq sort_inner].
  { rewrite Nat.add_0_r. split; [apply rearranged_refl|done]. }
  fold (sort_step i j l). destruct (IH (S j) (sort_step i j l)) as [IH1 IH2];
    [lia|by apply sort_step_largest|].
  split; [eapply rearranged_trans; [by apply sort_step_rearranged|done]|].
  by rewrite Nat.add_succ_r.
Qed.

(** The places below [i] are in order and not below the rest. *)
Definition ordered_to (i : nat) (l : list nat) : Prop :=
  forall a b x y, (a < b)%nat -> (a < i)%nat -> l !! a = Some x -> l !! b = Some y -> p y <= p x.

Lemma rearranged_ordered i l0 l : rearranged i l0 l -> ordered_to i l0 -> ordered_to i l.
Proof.
  intros [_ F B] H a b x y Hab Hi Ha Hb. rewrite F in Ha by done.
  destruct (decide (b < i)%nat) as [Hbi|Hbi].
  - rewrite F in Hb by done. by eapply (H a b).
  - refine (B (p x) _ b y ltac:(lia) Hb). intros k z Hk Hz. eapply (H a k); [lia|done..].
Qed.

Lemma sort_outer_spec n m i l :
  length l = n -> (i + m = n - 1)%nat -> ordered_to i l ->
  sort_outer p n (seq i m) l ≡ₚ l /\ ordered_to (i + m) (sort_outer p n (seq i m) l).
Proof.
  revert i l. induction m as [|m IH]; intros i l Hn Hm Ho; cbn [seq sort_outer].
  { rewrite Nat.add_0_r. done. }
  set (l1 := sort_inner p i (seq (S i) (n - S i)) l).
  destruct (sort_inner_spec i (S i) (n - S i) l) as [Hr Hl]; [lia|intros k ???; lia|]. fold l1 in Hr, Hl.
  destruct (IH (S i) l1) as [IH1 IH2].
  - by rewrite (ra_perm _ _ _ Hr).
  - lia.
  - intros a b x y Hab Ha Hx Hy. destruct (decide (a = i)) as [->|].
    + eapply (Hl b); [|done..]. pose proof (lookup_lt_Some _ _ _ Hy).
      rewrite (ra_perm _ _ _ Hr) in *. lia.
    + apply (rearranged_ordered i l l1 Hr Ho a b); [done|lia|done|done].
  - split; [etrans; [exact IH1|apply Hr]|]. by rewrite Nat.add_succ_r.
Qed.
End Sort.

(** The register allocator serves the operands in order of their priority.
    Sorting rearranges the operands and puts an operand with a smaller choice of
    registers before one with a larger choice. *)
Theorem sort_constraints_sorts args_ct start n :
  let p := constraint_priority args_ct in
  let l := sort_constraints p start n in
  l ≡ₚ seq start n /\
  forall a b x y, (a < b)%nat -> l !! a = Some x -> l !! b = Some y -> p y <= p x.
Proof.
  intros p l. unfold l, sort_constraints.
  destruct (sort_outer_spec p n (n - 1) 0 (seq start n)) as [H1 H2];
    [apply length_seq|lia|intros a b x y ??; lia|].
  split; [done|]. intros a b x y Hab Hx Hy. eapply (H2 a b); [done| |done|done].
  pose proof (lookup_lt_Some _ _ _ Hy). rewrite H1, length_seq in *. lia.
Qed.

(** ** Reading the table *)

(** The table of constraints is accepted.  For every operation in it the
    operands are as many as the operation has, every letter is a constraint, and
    every alias refers to an output with a register. *)
Theorem op_defs_accepted op l :
  x86_op_defs op = Some l ->
  exists cts, parse_op_def op l = Ok cts /\ length cts = (nb_oargs op + nb_iargs op)%nat.
Proof.
  intros H. destruct op; try match goal with t : TCGType |- _ => destruct t end;
    cbn [x86_op_defs] in H; simplify_eq; eexists; (split; [vm_compute; reflexivity|reflexivity]).
Qed.

(** ** Conditions *)

Lemma cond_of_code c : cond_of (cond_code c) = Some c.
Proof. by destruct c. Qed.

(** The inverted condition is the negation, the swapped condition compares the
    operands the other way round. *)
Theorem invert_swap_cond c n a b :
  (exists c', cond_of (tcg_invert_cond (cond_code c)) = Some c' /\
     eval_cond c' n a b = negb (eval_cond c n a b)) /\
  (exists c', cond_of (tcg_swap_cond (cond_code c)) = Some c' /\
     eval_cond c' n a b = eval_cond c n b a).
Proof.
  split; destruct c; (eexists; split; [reflexivity|]); cbn [eval_cond];
    rewrite ?negb_involutive; try done; lia.
Qed.

Lemma swrap_double n h l :
  0 < n -> in_u n h -> in_u n l -> swrap (2 * n) (h * 2 ^ n + l) = swrap n h * 2 ^ n + l.
Proof.
  intros Hn Hh Hl. unfold in_u in *. assert (2 ^ (2 * n) = 2 ^ n * 2 ^ n) as E2.
  { rewrite <- Z.pow_add_r by lia. f_equal. lia. }
  assert (2 ^ (2 * n - 1) = 2 ^ (n - 1) * 2 ^ n) as E3.
  { rewrite <- Z.pow_add_r by lia. f_equal. lia. }
  assert (2 ^ n = 2 * 2 ^ (n - 1)) as E4.
  { rewrite <- (Z.pow_succ_r 2 (n - 1)) by lia. f_equal. lia. }
  rewrite !swrap_of_u by (unfold in_u; try lia; rewrite ?E2; nia).
  rewrite E2, E3. destruct (Z.ltb_spec h (2 ^ (n - 1))), (Z.ltb_spec (h * 2 ^ n + l) (2 ^ (n - 1) * 2 ^ n));
    nia.
Qed.

Lemma lex_lt B x y l m :
  0 <= l < B -> 0 <= m < B -> (x * B + l <? y * B + m) = (x <? y) || (x =? y) && (l <? m).
Proof.
  intros Hl Hm. destruct (Z.lt_trichotomy x y) as [H|[<-|H]].
  - rewrite (proj2 (Z.ltb_lt x y) H). apply Z.ltb_lt. nia.
  - rewrite Z.ltb_irrefl, Z.eqb_refl. cbn. lia.
  - rewrite (proj2 (Z.ltb_ge x y)), (proj2 (Z.eqb_neq x y)) by lia. apply Z.ltb_ge. nia.
Qed.

Lemma lex_le B x y l m :
  0 <= l < B -> 0 <= m < B -> (x * B + l <=? y * B + m) = (x <? y) || (x =? y) && (l <=? m).
Proof.
  intros Hl Hm. rewrite Z.leb_antisym, lex_lt by done. destruct (Z.lt_trichotomy x y) as [H|[<-|H]].
  - rewrite (proj2 (Z.ltb_lt x y)), (proj2 (Z.ltb_ge y x)), (proj2 (Z.eqb_neq y x)) by lia. done.
  - rewrite Z.ltb_irrefl, Z.eqb_refl. cbn. lia.
  - rewrite (proj2 (Z.ltb_lt y x)), (proj2 (Z.ltb_ge x y)), (proj2 (Z.eqb_neq x y)) by lia. done.
Qed.

Lemma swrap_eqb n a b : 0 < n -> in_u n a -> in_u n b -> (swrap n a =? swrap n b) = (a =? b).
Proof.
  intros Hn Ha Hb. apply eq_bool_prop_intro. rewrite !Is_true_true, !Z.eqb_eq.
  split; [|by intros ->]. intros E. rewrite <- (wrap_id n a), <- (wrap_id n b) by done.
  by rewrite <- (wrap_swrap n a), <- (wrap_swrap n b), E by done.
Qed.

(** Comparing two words at once.  An ordering of double words is the strict
    ordering of the upper words or, if they are equal, the unsigned ordering of the
    lower ones, with the conditions [tcg_high_cond] and [tcg_unsigned_cond]. *)
Theorem double_word_cond c n ah al bh bl :
  nontrivial c = true -> c <> TCG_COND_EQ -> c <> TCG_COND_NE -> 0 < n ->
  in_u n ah -> in_u n al -> in_u n bh -> in_u n bl ->
  exists ch cl, cond_of (tcg_high_cond (cond_code c)) = Some ch /\
    cond_of (tcg_unsigned_cond (cond_code c)) = Some cl /\
    eval_cond c (2 * n) (ah * 2 ^ n + al) (bh * 2 ^ n + bl) =
    eval_cond ch n ah bh || (ah =? bh) && eval_cond cl n al bl.
Proof.
  intros Hc He Hne Hn Hah Hal Hbh Hbl.
  destruct c; try done; do 2 eexists; (split; [reflexivity|]); (split; [reflexivity|]);
    cbn [eval_cond]; rewrite ?swrap_double, ?lex_lt, ?lex_le, ?swrap_eqb by done; try done;
    by rewrite (Z.eqb_sym bh).
Qed.

Lemma double_word_cond_witness :
  eval_cond TCG_COND_GE (2 * 32) (5 * 2 ^ 32 + 7) (5 * 2 ^ 32 + 7) = true.
Proof.
  destruct (double_word_cond TCG_COND_GE 32 5 7 5 7) as (ch & cl & Eh & El & E); [done..|].
  vm_compute in Eh, El. simplify_eq. rewrite E. reflexivity.
Defined.

(** ** Operands of an operation in code *)

(** The registers that a mask allows; the stack pointer is reserved. *)
Definition in_mask (m v : Z) : bool := (0 <=? v) && Z.testbit m v && negb (v =? TCG_REG_ESP).

(** What the register allocator guarantees: a constant matches its constraint, a
    register is one of those allowed, and an aliased output is the register of its
    input. *)
Definition operand_fits (args : list Z) (arg_ct : TCGArgConstraint) (const : bool) (v : Z) : bool :=
  if const then tcg_target_const_match (s64 v) arg_ct
  else if testb arg_ct.(ct) TCG_CT_ALIAS then
    match args !! Z.to_nat arg_ct.(ct_alias) with Some w => v =? w | None => false end
  else in_mask arg_ct.(ct_regs) v.

Fixpoint operands_fit (args : list Z) (cts : list TCGArgConstraint) (consts : list bool)
    (vs : list Z) : bool :=
  match cts, consts, vs with
  | [], _, _ => true
  | c :: cts, k :: consts, v :: vs => operand_fits args c k v && operands_fit args cts consts vs
  | _, _, _ => false
  end.

Definition op_cts (op : TCGOpcode) : option (list TCGArgConstraint) :=
  match x86_op_defs op with
  | None => None
  | Some l => match parse_op_def op l with Ok cts => Some cts | Err _ => None end
  end.

Definition allocated (op : TCGOpcode) (args : list Z) (const_args : list bool) : bool :=
  match op_cts op with Some cts => operands_fit args cts const_args args | None => false end.

Lemma in_mask_any v : in_mask 0xffff v = true -> reg_ok v /\ v <> 4.
Proof.
  unfold in_mask, reg_ok. change 0xffff with (Z.ones 16). intros H.
  apply andb_true_iff in H as [[H0 H1]%andb_true_iff H2].
  change TCG_REG_ESP with 4 in H2. destruct (Z.ltb_spec v 16); [lia|].
  rewrite Z.ones_spec_high in H1 by lia. discriminate H1.
Qed.

Lemma in_mask_Q v : in_mask 0xf v = true -> 0 <= v < 4.
Proof.
  unfold in_mask. change 0xf with (Z.ones 4). intros H.
  apply andb_true_iff in H as [[H0 H1]%andb_true_iff _]. destruct (Z.ltb_spec v 4); [lia|].
  rewrite Z.ones_spec_high in H1 by lia. discriminate H1.
Qed.

Lemma in_mask_one r v : 0 <= r -> in_mask (2 ^ r) v = true -> v = r.
Proof.
  unfold in_mask. intros Hr H. apply andb_true_iff in H as [[_ H1]%andb_true_iff _].
  rewrite Z.pow2_bits_eqb in H1 by done. by apply Z.eqb_eq in H1.
Qed.

(** [fits H] turns the condition [H] that the operands of a given operation are
    allocated into conditions on its registers and constants. *)
Ltac fits H :=
  unfold allocated in H;
  match type of H with
  | context [op_cts ?op] => let c := eval vm_compute in (op_cts op) in change (op_cts op) with c in H
  end;
  cbn [operands_fit operand_fits ct ct_alias ct_regs] in H;
  repeat match type of H with
  | context [testb ?c TCG_CT_ALIAS] =>
      let b := eval vm_compute in (testb c TCG_CT_ALIAS) in change (testb c TCG_CT_ALIAS) with b in H
  end; cbv iota in H;
  repeat match type of H with
  | context [?l !! Z.to_nat ?n] =>
      let v := eval compute in (l !! Z.to_nat n) in change (l !! Z.to_nat n) with v in H
  end; cbv iota in H;
  rewrite ?andb_true_iff, ?Z.eqb_eq in H.
