(* ===== verification/TcgSem.v ===== *)
(** * What the operations mean

    tcg/README describes the operations of tcg/tcg-opc.h; here their values are
    functions of the operands.  Both the code generator and the optimizer are
    related to these values. *)

From S2P Require Import Prelude X86 TcgOut TcgEnc TcgEmit TcgCond TcgOpDefs.

Lemma wsize_pos t : 0 < wsize t.
Proof. by destruct t. Qed.

(** ** Two operands *)

Inductive binop := BAdd | BSub | BMul | BAnd | BOr | BXor | BShl | BShr | BSar | BRotl | BRotr.

Definition binop_opc (o : binop) : TCGType -> TCGOpcode :=
  match o with
  | BAdd => INDEX_op_add | BSub => INDEX_op_sub | BMul => INDEX_op_mul
  | BAnd => INDEX_op_and | BOr => INDEX_op_or | BXor => INDEX_op_xor
  | BShl => INDEX_op_shl | BShr => INDEX_op_shr | BSar => INDEX_op_sar
  | BRotl => INDEX_op_rotl | BRotr => INDEX_op_rotr
  end.

(** The value of an operation on [n]-bit words. *)
Definition binop_value (o : binop) (n x y : Z) : Z :=
  match o with
  | BAdd => wrap n (x + y)
  | BSub => wrap n (x - y)
  | BMul => wrap n (x * y)
  | BAnd => Z.land x y
  | BOr => Z.lor x y
  | BXor => Z.lxor x y
  | BShl => wrap n (Z.shiftl x y)
  | BShr => Z.shiftr x y
  | BSar => wrap n (Z.shiftr (swrap n x) y)
  | BRotl => wrap n (Z.lor (Z.shiftl x y) (Z.shiftr x (n - y)))
  | BRotr => wrap n (Z.lor (Z.shiftr x y) (Z.shiftl x (n - y)))
  end.

(** A shift by the width or more has no defined value. *)
Definition is_shift (o : binop) : bool :=
  match o with BShl | BShr | BSar | BRotl | BRotr => true | _ => false end.
Definition binop_defined (o : binop) (n y : Z) : bool := negb (is_shift o) || (y <? n).

(** ** One operand *)

Inductive unop :=
  | UNeg (t : TCGType) | UNot (t : TCGType)
  | UBswap16 (t : TCGType) | UBswap32 (t : TCGType) | UBswap64
  | UExt8s (t : TCGType) | UExt16s (t : TCGType) | UExt8u (t : TCGType) | UExt16u (t : TCGType)
  | UExt32s | UExt32u.

Definition unop_opc (u : unop) : TCGOpcode :=
  match u with
  | UNeg t => INDEX_op_neg t | UNot t => INDEX_op_not t
  | UBswap16 t => INDEX_op_bswap16 t | UBswap32 t => INDEX_op_bswap32 t
  | UBswap64 => INDEX_op_bswap64_i64
  | UExt8s t => INDEX_op_ext8s t | UExt16s t => INDEX_op_ext16s t
  | UExt8u t => INDEX_op_ext8u t | UExt16u t => INDEX_op_ext16u t
  | UExt32s => INDEX_op_ext32s_i64 | UExt32u => INDEX_op_ext32u_i64
  end.

Definition unop_type (u : unop) : TCGType :=
  match u with
  | UNeg t | UNot t | UBswap16 t | UBswap32 t | UExt8s t | UExt16s t | UExt8u t | UExt16u t => t
  | UBswap64 | UExt32s | UExt32u => TCG_TYPE_I64
  end.

Definition unop_value (u : unop) (n x : Z) : Z :=
  match u with
  | UNeg _ => wrap n (- x)
  | UNot _ => wrap n (Z.lnot x)
  | UBswap16 _ => bswap_value 2 x
  | UBswap32 _ => bswap_value 4 x
  | UBswap64 => bswap_value 8 x
  | UExt8s _ => wrap n (swrap 8 x)
  | UExt16s _ => wrap n (swrap 16 x)
  | UExt8u _ => wrap 8 x
  | UExt16u _ => wrap 16 x
  | UExt32s => wrap n (swrap 32 x)
  | UExt32u => wrap 32 x
  end.

(** The byte swaps assume that the upper bytes are zero. *)
Definition unop_defined (u : unop) (x : Z) : bool :=
  match u with
  | UBswap16 _ => x <? 2 ^ 16
  | UBswap32 _ => x <? 2 ^ 32
  | _ => true
  end.

(** ** Double words *)

Definition mul2_opc (signed : bool) : TCGType -> TCGOpcode :=
  if signed then INDEX_op_muls2 else INDEX_op_mulu2.

(** An operand as a signed or unsigned number. *)
Definition number (signed : bool) (t : TCGType) (v : Z) : Z :=
  if signed then swrap (wsize t) v else v.

Definition div2_opc (signed : bool) : TCGType -> TCGOpcode :=
  if signed then INDEX_op_div2 else INDEX_op_divu2.

(** The dividend is a double word. *)
Definition dividend (signed : bool) (t : TCGType) (lo hi : Z) : Z :=
  (if signed then swrap else wrap) (2 * wsize t) (hi * 2 ^ wsize t + lo).

(** Division is defined for a divisor other than zero and a quotient that fits. *)
Definition div_defined (signed : bool) (t : TCGType) (a v : Z) : bool :=
  negb (v =? 0) &&
  let q := Z.quot a (number signed t v) in
  ((if signed then swrap else wrap) (wsize t) q =? q).

Definition sum2_opc (sub : bool) : TCGType -> TCGOpcode :=
  if sub then INDEX_op_sub2 else INDEX_op_add2.

Definition sum2 (sub : bool) (x y : Z) : Z := if sub then x - y else x + y.

(** ** Bit fields *)

(** The field of [len] bits at [pos] of [x] replaced by the low bits of [y]. *)
Definition field (pos len x : Z) : Z := wrap len (x / 2 ^ pos).
Definition deposit_value (pos len x y : Z) : Z :=
  x - 2 ^ pos * field pos len x + 2 ^ pos * wrap len y.
