(* ===== verification/TcgLabel.v ===== *)
(** * Labels and relocations

    [tcg_out_jxx] to a label that already has a value, and forward jumps: the
    relocations that [tcg_out_reloc] records are resolved by [tcg_out_label],
    after which every jump reaches the label. *)

From S2P Require Import Prelude X86 TcgOut TcgEnc TcgEmit TcgCond.

(** ** Jump encodings *)

(** The condition of a jump: [JCC_JMP] always jumps. *)
Definition jcc_ok (opc : Z) : Prop := opc = JCC_JMP \/ 0 <= opc < 16.
Definition jcc_holds (opc : Z) (d : dstate) : option bool :=
  if opc =? -1 then Some true else cond_holds opc d.
Definition jcc_instr (opc rel : Z) : instr := if opc =? -1 then IJmp rel else IJcc opc rel.

Lemma exec_jcc pc opc rel d b :
  jcc_holds opc d = Some b ->
  exec pc (jcc_instr opc rel) d = Some (if b then u64 (pc + rel) else pc, d).
Proof.
  unfold jcc_holds, jcc_instr. destruct (opc =? -1); cbn [exec]; [|by intros ->].
  intros [= <-]. done.
Qed.

(** Opcode bytes of a jump. *)
Definition jcc_opcode (opc : Z) (small : bool) : list Z :=
  if small then [if opc =? -1 then OPC_JMP_short else u8 (OPC_JCC_short + opc)]
  else if opc =? -1 then [OPC_JMP_long] else [0x0f; u8 (OPC_JCC_long + opc)].

(** A relative jump with opcode [o]. *)
Ltac plain_jump o v :=
  apply (encodes_plain o 0);
  [done|done|cbn; lia|unfold dec_plain; cbn -[dec_num bytes_le swrap];
   rewrite <- (app_nil_r (bytes_le _ v)), dec_num_bytes by lia; reflexivity].

Lemma encodes_jcc opc (small : bool) v :
  jcc_ok opc ->
  encodes (jcc_opcode opc small ++ bytes_le (if small then 1 else 4) v)
    (jcc_instr opc (if small then s8 v else s32 v)).
Proof.
  intros [->|Hr].
  - destruct small; [plain_jump OPC_JMP_short v|plain_jump OPC_JMP_long v].
  - destruct small; each_reg opc Hr;
      match goal with
      | |- encodes (jcc_opcode ?o true ++ _) _ => plain_jump (OPC_JCC_short + o) v
      | |- encodes (jcc_opcode ?o false ++ _) _ => plain_jump (OPC_JCC_long + o) v
      end.
Qed.

Lemma emitted_jcc_opcode opc (small : bool) s :
  jcc_ok opc ->
  emitted (if small then (if opc =? -1 then tcg_out8 OPC_JMP_short
                          else tcg_out8 (OPC_JCC_short + opc))
           else (if opc =? -1 then tcg_out8 OPC_JMP_long
                 else tcg_out_opc (OPC_JCC_long + opc) 0 0 0)) s (jcc_opcode opc small).
Proof.
  intros [->|Hr]; [by destruct small|]. unfold jcc_opcode.
  rewrite (proj2 (Z.eqb_neq opc (-1))) by lia. destruct small; [done|].
  each_reg opc Hr; apply emitted_opc; opc_side.
Qed.

Lemma length_jcc_opcode opc small :
  length (jcc_opcode opc small) = if small then 1%nat else if opc =? -1 then 1%nat else 2%nat.
Proof. unfold jcc_opcode. by destruct small, (opc =? -1). Qed.

(** Where a jump at [s] with displacement [v] goes. *)
Lemma jcc_reaches cd a opc small v d b :
  jcc_ok opc -> code_at cd a (jcc_opcode opc small ++ bytes_le (if small : bool then 1 else 4) v) ->
  jcc_holds opc d = Some b ->
  let next := a + Z.of_nat (length (jcc_opcode opc small)) + (if small then 1 else 4) in
  steps cd (a, d) (if b then u64 (next + (if small then s8 v else s32 v)) else next, d).
Proof.
  intros Ho Hc Hb next. apply rtc_once.
  eapply step_encoded; [by apply encodes_jcc|done|].
  rewrite length_app, length_bytes_le, (exec_jcc _ _ _ _ b) by done.
  replace (a + Z.of_nat (length (jcc_opcode opc small) + (if small then 1 else 4))) with next
    by (unfold next; destruct small; lia).
  done.
Qed.

(** ** Backward jumps *)

(** A jump to a label with a value: it fails only if a short jump is required
    and the label is out of its reach. *)
Lemma jxx_backward opc idx (small : bool) s value :
  jcc_ok opc -> 0 <= idx -> s.(labels) !! Z.to_nat idx = Some (LValue value) ->
  in_u 64 value -> - 2 ^ 31 + 6 <= value - code_ptr s < 2 ^ 31 ->
  (small = true -> - 2 ^ 7 <= value - code_ptr s - 2 < 2 ^ 7) ->
  exists bs, emitted (tcg_out_jxx opc idx small) s bs /\
    forall cd d b, code_at cd (code_ptr s) bs -> jcc_holds opc d = Some b ->
      steps cd (code_ptr s, d) (if b then value else code_ptr (add_code bs s), d).
Proof.
  intros Ho Hi Hl Hv Hr Hs. set (val := value - code_ptr s) in *.
  assert (s32 val = val) as E1 by (apply swrap_id; [lia|unfold in_s; lia]).
  assert (s32 (val - 2) = val - 2) as E2 by (apply swrap_id; [lia|unfold in_s; lia]).
  set (short := s8 (val - 2) =? val - 2).
  assert (short = false -> small = false) as Hsmall.
  { unfold short. intros E. destruct small; [|done]. apply Z.eqb_neq in E. exfalso.
    apply E, swrap_id; [lia|]. unfold in_s. specialize (Hs eq_refl). lia. }
  set (len := length (jcc_opcode opc short)).
  set (v := if short then val - 2 else if opc =? -1 then val - 5 else val - 6).
  exists (jcc_opcode opc short ++ bytes_le (if short then 1 else 4) v). split.
  - unfold emitted, tcg_out_jxx, mbind, out_bind, get_label, get_ptr. rewrite Hl.
    rewrite (proj2 (Z.leb_le 0 idx)) by done. fold val. rewrite E1, E2. fold short.
    pose proof (emitted_jcc_opcode opc short s Ho) as He. unfold emitted in He.
    unfold v. destruct short.
    + rewrite He, add_code_app. reflexivity.
    + rewrite Hsmall by done. destruct (opc =? -1) eqn:Eo; rewrite He, add_code_app; reflexivity.
  - intros cd d b Hc Hb. pose proof (jcc_reaches cd _ opc short v d b Ho Hc Hb) as Hst.
    cbn zeta in Hst. rewrite code_ptr_add, length_app, length_bytes_le.
    replace (code_ptr s + Z.of_nat (length (jcc_opcode opc short) + (if short then 1 else 4)))
      with (code_ptr s + Z.of_nat (length (jcc_opcode opc short)) + (if short then 1 else 4))
      by (destruct short; lia).
    destruct b; [|exact Hst].
    replace value with (u64 (code_ptr s + Z.of_nat (length (jcc_opcode opc short)) +
      (if short then 1 else 4) + (if short then s8 v else s32 v))); [exact Hst|].
    rewrite <- (wrap_id 64 value) by done. f_equal. rewrite length_jcc_opcode. unfold v.
    destruct short eqn:Es.
    + unfold short in Es. apply Z.eqb_eq in Es. rewrite Es. unfold val. lia.
    + destruct (opc =? -1); (rewrite swrap_id; [unfold val; lia|lia|unfold in_s; lia]).
Qed.

(** ** Relocations *)

Definition reloc_size (r : TCGRelocation) : nat := if r.(r_type) =? R_386_PC8 then 1 else 4.

(** The byte range of a relocation as positions in the code buffer. *)
Definition reloc_pos (s : TCGContext) (r : TCGRelocation) : nat :=
  Z.to_nat (r.(r_ptr) - s.(code_buf)).

Record reloc_ok (s : TCGContext) (value : Z) (r : TCGRelocation) : Prop := {
  ro_type : r.(r_type) = R_386_PC8 \/ r.(r_type) = R_386_PC32;
  ro_low : s.(code_buf) <= r.(r_ptr);
  ro_high : (reloc_pos s r + reloc_size r <= length s.(code))%nat;
  ro_fits : in_s (8 * Z.of_nat (reloc_size r)) (value + r.(r_addend) - r.(r_ptr))
}.

Definition reloc_disjoint (s : TCGContext) (r1 r2 : TCGRelocation) : Prop :=
  (reloc_pos s r1 + reloc_size r1 <= reloc_pos s r2)%nat \/
  (reloc_pos s r2 + reloc_size r2 <= reloc_pos s r1)%nat.

Definition reloc_bytes (value : Z) (r : TCGRelocation) : list Z :=
  bytes_le (reloc_size r) (value + r.(r_addend) - r.(r_ptr)).

(** The bytes of [c] from position [i] on. *)
Definition slice (i n : nat) (c : list Z) : list Z := take n (drop i c).

Lemma slice_inserts_same i l c :
  (i + length l <= length c)%nat -> slice i (length l) (list_inserts i l c) = l.
Proof.
  intros H. unfold slice. apply list_eq. intros k.
  destruct (Nat.lt_ge_cases k (length l)).
  - rewrite lookup_take_lt, lookup_drop by lia. rewrite list_lookup_inserts by lia.
    f_equal. lia.
  - rewrite !lookup_ge_None_2; [done|lia|].
    rewrite length_take, length_drop, length_inserts. lia.
Qed.

Lemma slice_inserts_other i n j l c :
  (i + n <= j \/ j + length l <= i)%nat -> slice i n (list_inserts j l c) = slice i n c.
Proof.
  intros H. unfold slice. apply list_eq. intros k.
  destruct (Nat.lt_ge_cases k n).
  - rewrite !lookup_take_lt, !lookup_drop by lia.
    destruct H; [apply list_lookup_inserts_lt; lia|apply list_lookup_inserts_ge; lia].
  - rewrite !lookup_take_ge by lia. done.
Qed.

Lemma swrap_64_fits n x : 0 < n <= 64 -> in_s n x -> s64 x = x.
Proof.
  intros Hn Hx. apply swrap_id; [lia|]. unfold in_s in *.
  pose proof (Z.pow_le_mono_r 2 (n - 1) (64 - 1)). lia.
Qed.

Lemma patch_reloc_ok s value r :
  reloc_ok s value r -> in_s 64 (value + r.(r_addend)) ->
  patch_reloc r.(r_ptr) r.(r_type) value r.(r_addend) s =
    Ok (tt, set_code (list_inserts (reloc_pos s r) (reloc_bytes value r) s.(code)) s).
Proof.
  intros [Ht Hl Hh Hf] Hv. unfold patch_reloc. rewrite (swrap_id 64 (_ + _)) by (done || lia).
  unfold reloc_bytes, reloc_size, reloc_pos in *. set (x := value + _ - _) in *.
  assert (s64 x = x) as Ex.
  { destruct Ht as [E|E]; rewrite E in Hf; eapply swrap_64_fits; [|exact Hf| |exact Hf];
      cbn; lia. }
  rewrite Ex.
  assert (forall l, (Z.to_nat (r.(r_ptr) - s.(code_buf)) + length l <= length s.(code))%nat ->
    patch_code r.(r_ptr) l s = Ok (tt, set_code
      (list_inserts (Z.to_nat (r.(r_ptr) - s.(code_buf))) l s.(code)) s)) as Hp.
  { intros l Hlen. unfold patch_code. rewrite (proj2 (andb_true_iff _ _)); [done|].
    split; lia. }
  destruct Ht as [Et|Et]; rewrite Et in *; cbn [Z.eqb Pos.eqb R_386_PC8 R_386_PC32] in *.
  - rewrite (swrap_id 8 x), Z.eqb_refl by (done || lia). apply Hp.
    by rewrite length_bytes_le.
  - rewrite (swrap_id 32 x), Z.eqb_refl by (done || lia). apply Hp.
    by rewrite length_bytes_le.
Qed.

Lemma reloc_ok_set_code s value r c :
  length c = length s.(code) -> reloc_ok s value r -> reloc_ok (set_code c s) value r.
Proof. intros E []. split; [done|done|unfold reloc_pos in *; cbn; lia|done]. Qed.

(** All relocations of a label are patched, and nothing else is. *)
Lemma patch_relocs_spec rs value s :
  Forall (reloc_ok s value) rs -> ForallOrdPairs (reloc_disjoint s) rs ->
  Forall (fun r => in_s 64 (value + r.(r_addend))) rs ->
  exists c, patch_relocs rs value s = Ok (tt, set_code c s) /\
    length c = length s.(code) /\
    Forall (fun r => slice (reloc_pos s r) (reloc_size r) c = reloc_bytes value r) rs /\
    (forall i n, Forall (fun r => (i + n <= reloc_pos s r)%nat \/
                                  (reloc_pos s r + reloc_size r <= i)%nat) rs ->
       slice i n c = slice i n s.(code)).
Proof.
  revert s. induction rs as [|r rs IH]; intros s Hok Hd Hv.
  { exists s.(code). split; [by destruct s|]. done. }
  inversion_clear Hok as [|? ? Hr Hrs]. inversion_clear Hd as [|? ? Hdr Hds].
  inversion_clear Hv as [|? ? Hvr Hvs]. cbn [patch_relocs].
  unfold mbind, out_bind. rewrite patch_reloc_ok by done.
  set (c1 := list_inserts _ _ _). set (s1 := set_code c1 s).
  assert (length c1 = length s.(code)) as Hlen by apply length_inserts.
  assert (length (reloc_bytes value r) = reloc_size r) as Hlr by apply length_bytes_le.
  destruct (IH s1) as (c & E & Hl & Hp & Hf); [|exact Hds|done|].
  { eapply Forall_impl; [exact Hrs|]. intros. by apply reloc_ok_set_code. }
  exists c. rewrite E. split; [by destruct s|]. split; [by etrans|]. split.
  - constructor; [|exact Hp]. rewrite Hf.
    + unfold s1, c1. cbn. rewrite <- Hlr at 1. apply slice_inserts_same.
      rewrite Hlr. apply Hr.
    + eapply Forall_impl; [exact Hdr|]. intros r' [H|H]; unfold reloc_pos in *; cbn; lia.
  - intros i n Hn. inversion_clear Hn as [|? ? Hnr Hns]. rewrite Hf by done.
    apply slice_inserts_other. rewrite Hlr. lia.
Qed.

(** ** Forward jumps *)

(** The relocation of a jump emitted at [s]. *)
Definition jump_reloc (opc : Z) (small : bool) (s : TCGContext) : TCGRelocation :=
  mkReloc (if small then R_386_PC8 else R_386_PC32)
    (code_ptr s + Z.of_nat (length (jcc_opcode opc small))) (if small then -1 else -4).

Lemma jxx_forward opc idx (small : bool) s rs :
  jcc_ok opc -> 0 <= idx -> s.(labels) !! Z.to_nat idx = Some (LRelocs rs) ->
  exists s1 hole, tcg_out_jxx opc idx small s = Ok (tt, s1) /\
    length hole = reloc_size (jump_reloc opc small s) /\
    s1.(code) = s.(code) ++ jcc_opcode opc small ++ hole /\ s1.(code_buf) = s.(code_buf) /\
    s1.(labels) = <[Z.to_nat idx := LRelocs (jump_reloc opc small s :: rs)]> s.(labels).
Proof.
  intros Ho Hi Hl. pose proof (emitted_jcc_opcode opc small s Ho) as He.
  unfold emitted in He. unfold tcg_out_jxx. unfold mbind at 1, out_bind at 1, get_label.
  rewrite Hl, (proj2 (Z.leb_le 0 idx)) by done.
  assert (code_ptr (add_code (jcc_opcode opc small) s) =
    code_ptr s + Z.of_nat (length (jcc_opcode opc small))) as Ep by apply code_ptr_add.
  destruct small; unfold tcg_out_reloc, get_label; unfold mbind, out_bind, get_ptr; rewrite He;
    cbn [add_code set_code labels]; rewrite Hl, (proj2 (Z.leb_le 0 idx)) by done;
    (eexists; eexists; split; [reflexivity|]); cbn; rewrite <- app_assoc;
    (split_and!; [|reflexivity|done|]).
  all: try done; unfold jump_reloc; rewrite <- Ep; done.
Qed.

Lemma code_at_slice cd a c i n :
  code_at cd a c -> code_at cd (a + Z.of_nat i) (slice i n c).
Proof.
  intros H k b Hk. unfold slice in Hk. apply lookup_take_Some in Hk as [Hk _].
  rewrite lookup_drop in Hk. apply H in Hk. rewrite <- Hk. f_equal. lia.
Qed.

Lemma slice_app_mid (a b c : list Z) : slice (length a) (length b) (a ++ b ++ c) = b.
Proof. unfold slice. rewrite drop_app_length. apply take_app_length. Qed.

Section ForwardJump.
Context (opc : Z) (small : bool) (s s2 : TCGContext) (hole more c : list Z) (cd : Z -> Z).
Local Abbreviation op := (jcc_opcode opc small).
Local Abbreviation r := (jump_reloc opc small s).
Local Abbreviation disp := (code_ptr s2 + r.(r_addend) - r.(r_ptr)).
(** The displacement leads to the label. *)
Lemma patched_target :
  in_u 64 (code_ptr s2) -> in_s (8 * Z.of_nat (reloc_size r)) disp ->
  u64 (code_ptr s + Z.of_nat (length op) + (if small then 1 else 4) +
       (if small then s8 disp else s32 disp)) = code_ptr s2.
Proof.
  intros Hu Hfit. rewrite <- (wrap_id 64 (code_ptr s2)) at 3 by done. f_equal.
  assert ((if small then s8 disp else s32 disp) = disp) as ->.
  { destruct small; apply swrap_id; [lia|exact Hfit|lia|exact Hfit]. }
  cbn. destruct small; lia.
Qed.
Hypothesis Hc2 : s2.(code) = s.(code) ++ op ++ hole ++ more.
Hypothesis Hbuf : s2.(code_buf) = s.(code_buf).

(** The jump with its displacement, in code whose relocations are patched. *)
Lemma patched_jump_at rs :
  Forall (reloc_ok s2 (code_ptr s2)) rs -> r ∈ rs ->
  Forall (fun r => slice (reloc_pos s2 r) (reloc_size r) c = reloc_bytes (code_ptr s2) r) rs ->
  (forall i n, Forall (fun r => (i + n <= reloc_pos s2 r)%nat \/
                                (reloc_pos s2 r + reloc_size r <= i)%nat) rs ->
     slice i n c = slice i n s2.(code)) ->
  Forall (fun r => code_ptr s + Z.of_nat (length op) <= r.(r_ptr) \/
            r.(r_ptr) + Z.of_nat (reloc_size r) <= code_ptr s) rs ->
  code_at cd s2.(code_buf) c ->
  code_at cd (code_ptr s) (op ++ bytes_le (if small then 1 else 4) disp).
Proof.
  intros Hok Hin Hp Hf Hop Hcd.
  assert (code_ptr s = s2.(code_buf) + Z.of_nat (length s.(code))) as Eptr
    by (unfold code_ptr; by rewrite Hbuf).
  apply code_at_app. split.
  - replace op with (slice (length s.(code)) (length op) c) at 1.
    + rewrite Eptr. by apply code_at_slice.
    + rewrite Hf, Hc2; [apply slice_app_mid|]. rewrite Forall_forall in Hop, Hok |- *.
      intros r' Hr'. specialize (Hop r' Hr'). destruct (Hok r' Hr') as [_ ? ? _].
      unfold reloc_pos in *. lia.
  - rewrite Forall_forall in Hp. specialize (Hp r Hin).
    replace (reloc_pos s2 r) with (length s.(code) + length op)%nat in Hp
      by (unfold reloc_pos; cbn; lia).
    replace (bytes_le _ _) with (reloc_bytes (code_ptr s2) r) by (by destruct small).
    rewrite <- Hp, Eptr, <- Z.add_assoc, <- Nat2Z.inj_add. by apply code_at_slice.
Qed.

End ForwardJump.

(** Relocations that wait for a label: they lie in the code from [lo] on, and
    apart from each other. *)
Record pending (lo : Z) (s : TCGContext) (rs : list TCGRelocation) : Prop := {
  pe_type : Forall (fun r => r.(r_type) = R_386_PC8 \/ r.(r_type) = R_386_PC32) rs;
  pe_low : Forall (fun r => s.(code_buf) <= lo <= r.(r_ptr)) rs;
  pe_high : Forall (fun r => r.(r_ptr) + Z.of_nat (reloc_size r) <= code_ptr s) rs;
  pe_disjoint : ForallOrdPairs (reloc_disjoint s) rs
}.

(** The distance from a relocation to [value] fits its field. *)
Definition reloc_fits (value : Z) (r : TCGRelocation) : Prop :=
  in_s (8 * Z.of_nat (reloc_size r)) (value + r.(r_addend) - r.(r_ptr)) /\
  in_s 64 (value + r.(r_addend)).

Lemma pending_ok lo s value rs :
  pending lo s rs -> Forall (reloc_fits value) rs -> Forall (reloc_ok s value) rs.
Proof.
  intros [Ht Hl Hh _] Hf. rewrite !Forall_forall in *. intros r Hr.
  specialize (Hl r Hr). specialize (Hh r Hr). unfold code_ptr in Hh.
  split; [by apply Ht|lia|unfold reloc_pos; lia|by apply Hf].
Qed.

(** Relocations of later code, added to those of earlier code. *)
Lemma pending_app lo s1 s2 later rs :
  s2.(code_buf) = s1.(code_buf) -> code_ptr s1 <= code_ptr s2 ->
  pending lo s1 rs -> s1.(code_buf) <= lo <= code_ptr s1 -> pending (code_ptr s1) s2 later ->
  pending lo s2 (later ++ rs).
Proof.
  intros Hb Hp [Ht Hl Hh Hd] Hlo [Ht' Hl' Hh' Hd']. split.
  - by apply Forall_app.
  - apply Forall_app. split; [eapply Forall_impl; [exact Hl'|]|eapply Forall_impl; [exact Hl|]];
      cbn; intros; lia.
  - apply Forall_app. split; [done|]. eapply Forall_impl; [exact Hh|]. cbn. intros. lia.
  - clear Ht' Hh'. induction Hd' as [|r rs' Hr _ IH]; cbn.
    + clear -Hd Hb. induction Hd as [|r rs Hr _ IH]; constructor; [|done].
      eapply Forall_impl; [exact Hr|]. intros r'.
      unfold reloc_disjoint, reloc_pos. by rewrite Hb.
    + inversion_clear Hl' as [|? ? Hl1 Hl2]. constructor; [|by apply IH].
      apply Forall_app. split; [done|]. rewrite Forall_forall in Hl, Hh |- *. intros r' Hr'.
      specialize (Hl r' Hr'). specialize (Hh r' Hr'). right. unfold reloc_pos. lia.
Qed.

(** A jump to the label adds its relocation to those that wait. *)
Lemma pending_jump opc (small : bool) s s1 hole rs :
  s1.(code) = s.(code) ++ jcc_opcode opc small ++ hole ->
  length hole = reloc_size (jump_reloc opc small s) -> s1.(code_buf) = s.(code_buf) ->
  pending s.(code_buf) s rs -> pending s.(code_buf) s1 (jump_reloc opc small s :: rs).
Proof.
  intros Hc Hh Hb Hp.
  assert (code_ptr s1 = (jump_reloc opc small s).(r_ptr) +
    Z.of_nat (reloc_size (jump_reloc opc small s))) as E.
  { unfold code_ptr at 1. rewrite Hc, Hb, !length_app, Hh. unfold jump_reloc, code_ptr. cbn. lia. }
  assert (code_ptr s <= (jump_reloc opc small s).(r_ptr)) by (cbn; lia).
  assert (s.(code_buf) <= code_ptr s) by (unfold code_ptr; lia).
  change (jump_reloc opc small s :: rs) with ([jump_reloc opc small s] ++ rs).
  apply (pending_app _ s); [done|lia|done|lia|].
  split; (constructor; [|constructor]); [|lia|lia|constructor].
  unfold jump_reloc. cbn. destruct small; auto.
Qed.

(** No relocation that waits for the label lies in the opcode of the jump. *)
Lemma waiting_apart opc (small : bool) s s2 later rs lo :
  pending s.(code_buf) s rs -> Forall (fun r => s2.(code_buf) <= lo <= r.(r_ptr)) later ->
  code_ptr s + Z.of_nat (length (jcc_opcode opc small)) <= lo ->
  Forall (fun r => code_ptr s + Z.of_nat (length (jcc_opcode opc small)) <= r.(r_ptr) \/
            r.(r_ptr) + Z.of_nat (reloc_size r) <= code_ptr s)
    (later ++ jump_reloc opc small s :: rs).
Proof.
  intros [_ _ Hh _] Hl Hlo. apply Forall_app. split; [|constructor].
  - eapply Forall_impl; [exact Hl|]. cbn. intros. lia.
  - left. cbn. lia.
  - eapply Forall_impl; [exact Hh|]. cbn. intros. lia.
Qed.

(** C28: A forward jump reaches its label.  [tcg_out_jxx] to a label without a
    value records the place of the displacement.  Code follows, which may add
    jumps of its own to the same label.  When [tcg_out_label] then places the
    label, it patches every jump that waits for it; running the finished code
    from the jump reaches the label if the condition holds, and the instruction
    after the jump otherwise.  The distances must fit the fields that the jumps
    have for them. *)
Theorem forward_jump_reaches opc idx (small : bool) s s1 s2 rs rs1 later more :
  jcc_ok opc -> 0 <= idx -> s.(labels) !! Z.to_nat idx = Some (LRelocs rs) ->
  pending s.(code_buf) s rs ->
  tcg_out_jxx opc idx small s = Ok (tt, s1) ->
  s1.(labels) !! Z.to_nat idx = Some (LRelocs rs1) ->
  s2.(code) = s1.(code) ++ more -> s2.(code_buf) = s1.(code_buf) ->
  s2.(labels) !! Z.to_nat idx = Some (LRelocs (later ++ rs1)) ->
  pending (code_ptr s1) s2 later ->
  Forall (reloc_fits (code_ptr s2)) (later ++ rs1) -> in_u 64 (code_ptr s2) ->
  exists s3, tcg_out_label idx (code_ptr s2) s2 = Ok (tt, s3) /\
    s3.(labels) !! Z.to_nat idx = Some (LValue (code_ptr s2)) /\
    forall cd d b, code_at cd s3.(code_buf) s3.(code) -> jcc_holds opc d = Some b ->
      steps cd (code_ptr s, d) (if b then code_ptr s2 else code_ptr s1, d).
Proof.
  intros Ho Hi Hl Hpe Hj Hl1 Hc2 Hb2 Hl2 Hlt Hfit Hu.
  destruct (jxx_forward opc idx small s rs Ho Hi Hl) as (s1' & hole & E & Hh & Hc & Hb & El).
  rewrite Hj in E. injection E as <-.
  rewrite El, list_lookup_insert_eq in Hl1 by (by eapply lookup_lt_Some). injection Hl1 as <-.
  pose proof (pending_jump _ _ _ _ _ _ Hc Hh Hb Hpe) as Hp1.
  assert (code_ptr s1 = code_ptr s + Z.of_nat (length (jcc_opcode opc small)) +
          (if small then 1 else 4)) as E1.
  { unfold code_ptr. rewrite Hc, Hb, !length_app, Hh. destruct small; cbn; lia. }
  pose proof (waiting_apart opc small s s2 later rs (code_ptr s1) Hpe (pe_low _ _ _ Hlt)
    ltac:(rewrite E1; destruct small; lia)) as Hop.
  assert (pending s.(code_buf) s2 (later ++ jump_reloc opc small s :: rs)) as Hp2.
  { apply (pending_app _ s1); [done| |done| |done];
      unfold code_ptr; rewrite ?Hc2, ?Hb2, ?length_app, ?Hb; lia. }
  destruct (patch_relocs_spec (later ++ jump_reloc opc small s :: rs) (code_ptr s2) s2)
    as (c & Ep & Hlc & Hp & Hf).
  { by eapply pending_ok. } { apply Hp2. } { eapply Forall_impl; [exact Hfit|]. by intros ? []. }
  exists (set_labels (<[Z.to_nat idx := LValue (code_ptr s2)]> s2.(labels)) (set_code c s2)).
  split.
  { unfold tcg_out_label, mbind, out_bind, get_label.
    rewrite Hl2, (proj2 (Z.leb_le 0 idx)), Ep by done. reflexivity. }
  split; [cbn; by apply list_lookup_insert_eq, (lookup_lt_Some _ _ _ Hl2)|].
  cbn [set_labels set_code code_buf code]. intros cd d b Hcd Hb'.
  rewrite Hc, <- !app_assoc in Hc2. rewrite Hb in Hb2.
  pose proof (patched_jump_at opc small s s2 hole more c cd Hc2 Hb2 _
    (pending_ok _ _ _ _ Hp2 Hfit) ltac:(apply elem_of_app; right; left) Hp Hf Hop Hcd) as Hat.
  pose proof (jcc_reaches cd _ opc small _ d b Ho Hat Hb') as Hst. cbn zeta in Hst.
  rewrite patched_target, <- E1 in Hst; [exact Hst|done|].
  rewrite Forall_forall in Hfit. apply Hfit. apply elem_of_app. right. left.
Qed.

(** A conditional forward jump over two bytes of code. *)
Definition demo_jump : TCGContext := set_labels [LRelocs []] demo_ctx.

Lemma forward_jump_reaches_witness :
  exists s1 s3, tcg_out_jxx JCC_JE 0 true demo_jump = Ok (tt, s1) /\
    tcg_out_label 0 (code_ptr (add_code [0x89; 0xc3] s1)) (add_code [0x89; 0xc3] s1) = Ok (tt, s3) /\
    s3.(code) = [0x74; 2; 0x89; 0xc3].
Proof.
  eexists. eexists. split; [reflexivity|].
  match goal with |- tcg_out_label _ _ (add_code _ ?x) = _ /\ _ => set (s1 := x) end.
  destruct (forward_jump_reaches JCC_JE 0 true demo_jump s1 (add_code [0x89; 0xc3] s1) []
    [jump_reloc JCC_JE true demo_jump] [] [0x89; 0xc3]) as (s3 & E & _);
    [vm_compute; intuition congruence|done|done|repeat constructor|done|done|done|done|done|
     repeat constructor| |by vm_compute|].
  - repeat constructor; vm_compute; congruence.
  - vm_compute in E. injection E as <-. done.
Defined.
