(* ===== verification/TlbLoad.v ===== *)
(** * Reaching guest memory through the software TLB

    [tcg_out_tlb_load] and its three tracing variants: the code that looks up a
    guest address in [CPUArchState.tlb_table], branches to the slow path on a
    miss and leaves the host address in the second argument register on a hit;
    the variants also record the virtual address, the "physical" address, or
    both, in the shadow area of the CPU state. *)

From S2P Require Import Prelude QtraceDefs IContext Interpret X86 TcgOut TcgEnc TcgEmit TcgCond.

(** ** include/exec/cpu-defs.h, for the x86_64 guest *)
Definition TARGET_PAGE_BITS : Z := 12.
Definition TARGET_PAGE_MASK : Z := Z.lnot (Z.shiftl 1 TARGET_PAGE_BITS - 1).
Definition CPU_TLB_BITS : Z := 8.
Definition CPU_TLB_SIZE : Z := Z.shiftl 1 CPU_TLB_BITS.
Definition CPU_TLB_ENTRY_BITS : Z := 5.
Definition ofs_addr_read : Z := 0.
Definition ofs_addr_write : Z := 8.
Definition ofs_addend : Z := 24.

Section TlbLoad.
Context `{L : CPULayout}.

(** offsetof(CPUArchState, tlb_table[mem_index][0]) *)
Definition ofs_tlb (mem_index : Z) : Z :=
  ofs_tlb_table + mem_index * (CPU_TLB_SIZE * Z.shiftl 1 CPU_TLB_ENTRY_BITS).

Definition tcg_out_tlb_load (addrlo mem_index s_bits which : Z) : out Z :=
  let r0 := TCG_REG_L0 in
  let r1 := TCG_REG_L1 in
  tcg_out_mov TCG_TYPE_I64 r0 addrlo ;;
  tcg_out_mov TCG_TYPE_I64 r1 addrlo ;;
  tcg_out_shifti (SHIFT_SHR + P_REXW) r0 (TARGET_PAGE_BITS - CPU_TLB_ENTRY_BITS) ;;
  tgen_arithi (ARITH_AND + P_REXW) r1
    (Z.lor TARGET_PAGE_MASK (Z.shiftl 1 s_bits - 1)) false ;;
  tgen_arithi (ARITH_AND + P_REXW) r0
    (Z.shiftl (CPU_TLB_SIZE - 1) CPU_TLB_ENTRY_BITS) false ;;
  tcg_out_modrm_sib_offset (OPC_LEA + P_REXW) r0 TCG_AREG0 r0 0 (ofs_tlb mem_index + which) ;;
  tcg_out_modrm_offset (OPC_CMP_GvEv + P_REXW) r1 r0 0 ;;
  tcg_out_mov TCG_TYPE_I64 r1 addrlo ;;
  tcg_out_opc (OPC_JCC_long + JCC_JNE) 0 0 0 ;;
  label_ptr ← get_ptr;
  advance 4 ;;
  tcg_out_modrm_offset (OPC_ADD_GvEv + P_REXW) r1 r0 (ofs_addend - which) ;;
  mret label_ptr.

Definition isfetch (which : Z) : bool := which =? ofs_addr_read.
Definition ofs_vaddr (which : Z) : Z :=
  u32 (if isfetch which then fetch_shadow sf_vaddr else store_shadow sf_vaddr).
Definition ofs_paddr (which : Z) : Z :=
  u32 (if isfetch which then fetch_shadow sf_paddr else store_shadow sf_paddr).

Definition tcg_out_tlb_load_trace_vma (addrlo mem_index s_bits which : Z) : out Z :=
  let r0 := TCG_REG_L0 in
  let r1 := TCG_REG_L1 in
  tcg_out_mov TCG_TYPE_I64 r0 addrlo ;;
  tcg_out_mov TCG_TYPE_I64 r1 addrlo ;;
  tcg_out_modrm_offset (OPC_MOVL_EvGv + P_REXW) r0 TCG_AREG0 (ofs_vaddr which) ;;
  tcg_out_shifti (SHIFT_SHR + P_REXW) r0 (TARGET_PAGE_BITS - CPU_TLB_ENTRY_BITS) ;;
  tgen_arithi (ARITH_AND + P_REXW) r1
    (Z.lor TARGET_PAGE_MASK (Z.shiftl 1 s_bits - 1)) false ;;
  tgen_arithi (ARITH_AND + P_REXW) r0
    (Z.shiftl (CPU_TLB_SIZE - 1) CPU_TLB_ENTRY_BITS) false ;;
  tcg_out_modrm_sib_offset (OPC_LEA + P_REXW) r0 TCG_AREG0 r0 0 (ofs_tlb mem_index + which) ;;
  tcg_out_modrm_offset (OPC_CMP_GvEv + P_REXW) r1 r0 0 ;;
  tcg_out_mov TCG_TYPE_I64 r1 addrlo ;;
  tcg_out_opc (OPC_JCC_long + JCC_JNE) 0 0 0 ;;
  label_ptr ← get_ptr;
  advance 4 ;;
  tcg_out_modrm_offset (OPC_ADD_GvEv + P_REXW) r1 r0 (ofs_addend - which) ;;
  mret label_ptr.

Definition tcg_out_tlb_load_trace_pma (addrlo mem_index s_bits which : Z) : out Z :=
  let r0 := TCG_REG_L0 in
  let r1 := TCG_REG_L1 in
  tcg_out_mov TCG_TYPE_I64 r0 addrlo ;;
  tcg_out_mov TCG_TYPE_I64 r1 addrlo ;;
  tcg_out_shifti (SHIFT_SHR + P_REXW) r0 (TARGET_PAGE_BITS - CPU_TLB_ENTRY_BITS) ;;
  tgen_arithi (ARITH_AND + P_REXW) r1
    (Z.lor TARGET_PAGE_MASK (Z.shiftl 1 s_bits - 1)) false ;;
  tgen_arithi (ARITH_AND + P_REXW) r0
    (Z.shiftl (CPU_TLB_SIZE - 1) CPU_TLB_ENTRY_BITS) false ;;
  tcg_out_modrm_sib_offset (OPC_LEA + P_REXW) r0 TCG_AREG0 r0 0 (ofs_tlb mem_index + which) ;;
  tcg_out_modrm_offset (OPC_CMP_GvEv + P_REXW) r1 r0 0 ;;
  tcg_out_mov TCG_TYPE_I64 r1 addrlo ;;
  tcg_out_opc (OPC_JCC_long + JCC_JNE) 0 0 0 ;;
  label_ptr ← get_ptr;
  advance 4 ;;
  tcg_out_modrm_offset (OPC_ADD_GvEv + P_REXW) r1 r0 (ofs_addend - which) ;;
  tcg_out_mov TCG_TYPE_I64 r0 r1 ;;
  tcg_out_addi r0 10000 ;;
  tcg_out_modrm_offset (OPC_MOVL_EvGv + P_REXW) r0 TCG_AREG0 (ofs_paddr which) ;;
  mret label_ptr.

Definition tcg_out_tlb_load_trace_vpma (addrlo mem_index s_bits which : Z) : out Z :=
  let r0 := TCG_REG_L0 in
  let r1 := TCG_REG_L1 in
  tcg_out_mov TCG_TYPE_I64 r0 addrlo ;;
  tcg_out_mov TCG_TYPE_I64 r1 addrlo ;;
  tcg_out_modrm_offset (OPC_MOVL_EvGv + P_REXW) r0 TCG_AREG0 (ofs_vaddr which) ;;
  tcg_out_shifti (SHIFT_SHR + P_REXW) r0 (TARGET_PAGE_BITS - CPU_TLB_ENTRY_BITS) ;;
  tgen_arithi (ARITH_AND + P_REXW) r1
    (Z.lor TARGET_PAGE_MASK (Z.shiftl 1 s_bits - 1)) false ;;
  tgen_arithi (ARITH_AND + P_REXW) r0
    (Z.shiftl (CPU_TLB_SIZE - 1) CPU_TLB_ENTRY_BITS) false ;;
  tcg_out_modrm_sib_offset (OPC_LEA + P_REXW) r0 TCG_AREG0 r0 0 (ofs_tlb mem_index + which) ;;
  tcg_out_modrm_offset (OPC_CMP_GvEv + P_REXW) r1 r0 0 ;;
  tcg_out_mov TCG_TYPE_I64 r1 addrlo ;;
  tcg_out_opc (OPC_JCC_long + JCC_JNE) 0 0 0 ;;
  label_ptr ← get_ptr;
  advance 4 ;;
  tcg_out_modrm_offset (OPC_ADD_GvEv + P_REXW) r1 r0 (ofs_addend - which) ;;
  tcg_out_mov TCG_TYPE_I64 r0 r1 ;;
  tcg_out_addi r0 10000 ;;
  tcg_out_modrm_offset (OPC_MOVL_EvGv + P_REXW) r0 TCG_AREG0 (ofs_paddr which) ;;
  mret label_ptr.

(** ** The lookup, common to the four functions *)

(** The emitters before the branch to the slow path; [vma] records the virtual
    address. *)
Definition tlb_pre (vma : bool) (addrlo mem_index s_bits which : Z) : list (out unit) :=
  [tcg_out_mov TCG_TYPE_I64 TCG_REG_L0 addrlo; tcg_out_mov TCG_TYPE_I64 TCG_REG_L1 addrlo] ++
  (if vma then [tcg_out_modrm_offset (OPC_MOVL_EvGv + P_REXW) TCG_REG_L0 TCG_AREG0
                  (ofs_vaddr which)] else []) ++
  [tcg_out_shifti (SHIFT_SHR + P_REXW) TCG_REG_L0 (TARGET_PAGE_BITS - CPU_TLB_ENTRY_BITS);
   tgen_arithi (ARITH_AND + P_REXW) TCG_REG_L1
     (Z.lor TARGET_PAGE_MASK (Z.shiftl 1 s_bits - 1)) false;
   tgen_arithi (ARITH_AND + P_REXW) TCG_REG_L0
     (Z.shiftl (CPU_TLB_SIZE - 1) CPU_TLB_ENTRY_BITS) false;
   tcg_out_modrm_sib_offset (OPC_LEA + P_REXW) TCG_REG_L0 TCG_AREG0 TCG_REG_L0 0
     (ofs_tlb mem_index + which);
   tcg_out_modrm_offset (OPC_CMP_GvEv + P_REXW) TCG_REG_L1 TCG_REG_L0 0;
   tcg_out_mov TCG_TYPE_I64 TCG_REG_L1 addrlo].

(** The emitters after the branch; [pma] records the "physical" address. *)
Definition tlb_post (pma : bool) (which : Z) : list (out unit) :=
  tcg_out_modrm_offset (OPC_ADD_GvEv + P_REXW) TCG_REG_L1 TCG_REG_L0 (ofs_addend - which) ::
  (if pma then
     [tcg_out_mov TCG_TYPE_I64 TCG_REG_L0 TCG_REG_L1; tcg_out_addi TCG_REG_L0 10000;
      tcg_out_modrm_offset (OPC_MOVL_EvGv + P_REXW) TCG_REG_L0 TCG_AREG0 (ofs_paddr which)]
   else []).

Definition tlb_code (vma pma : bool) (addrlo mem_index s_bits which : Z) : out Z :=
  seq_out (tlb_pre vma addrlo mem_index s_bits which)
    (tcg_out_opc (OPC_JCC_long + JCC_JNE) 0 0 0 ;;
     label_ptr ← get_ptr;
     advance 4 ;;
     seq_out (tlb_post pma which) (mret label_ptr)).

(** The four functions are the four cases of [tlb_code]. *)
Lemma tlb_load_code addrlo mem_index s_bits which :
  tcg_out_tlb_load addrlo mem_index s_bits which =
    tlb_code false false addrlo mem_index s_bits which /\
  tcg_out_tlb_load_trace_vma addrlo mem_index s_bits which =
    tlb_code true false addrlo mem_index s_bits which /\
  tcg_out_tlb_load_trace_pma addrlo mem_index s_bits which =
    tlb_code false true addrlo mem_index s_bits which /\
  tcg_out_tlb_load_trace_vpma addrlo mem_index s_bits which =
    tlb_code true true addrlo mem_index s_bits which.
Proof. split_and!; reflexivity. Qed.

(** ** What the lookup means *)

(** The bits of an address that are compared: the page, and the bits that must
    be zero for an aligned access. *)
Definition tlb_tag (s_bits addr : Z) : Z :=
  Z.land addr (u64 (Z.lor TARGET_PAGE_MASK (Z.shiftl 1 s_bits - 1))).

(** &env->tlb_table[mem_index][(addr >> TARGET_PAGE_BITS) & (CPU_TLB_SIZE - 1)] *)
Definition tlb_entry (env mem_index addr : Z) : Z :=
  env + ofs_tlb mem_index + 32 * ((addr / 2 ^ TARGET_PAGE_BITS) mod CPU_TLB_SIZE).

Definition tlb_hit (m : Z -> Z) (env mem_index s_bits which addr : Z) : bool :=
  tlb_tag s_bits addr =? load 8 (tlb_entry env mem_index addr + which) m.

Definition host_addr (m : Z -> Z) (env mem_index addr : Z) : Z :=
  u64 (addr + load 8 (tlb_entry env mem_index addr + ofs_addend) m).

(** Shifting once and masking computes the offset of the entry. *)
Lemma tlb_index addr :
  Z.land (Z.shiftr addr (TARGET_PAGE_BITS - CPU_TLB_ENTRY_BITS))
    (Z.shiftl (CPU_TLB_SIZE - 1) CPU_TLB_ENTRY_BITS) =
  32 * ((addr / 2 ^ TARGET_PAGE_BITS) mod CPU_TLB_SIZE).
Proof.
  change (TARGET_PAGE_BITS - CPU_TLB_ENTRY_BITS) with 7.
  change (CPU_TLB_SIZE - 1) with (Z.ones 8). change CPU_TLB_ENTRY_BITS with 5.
  change TARGET_PAGE_BITS with 12. change CPU_TLB_SIZE with (2 ^ 8).
  rewrite <- Z.land_ones, <- Z.shiftr_div_pow2 by lia.
  change 32 with (2 ^ 5). rewrite Z.mul_comm, <- Z.shiftl_mul_pow2 by lia.
  apply Z.bits_inj'. intros n Hn.
  rewrite Z.land_spec, Z.shiftr_spec, !Z.shiftl_spec by lia.
  destruct (Z.lt_ge_cases n 5).
  - rewrite !(Z.testbit_neg_r _ (n - 5)) by lia. apply andb_false_r.
  - rewrite Z.land_spec, Z.shiftr_spec by lia. do 2 f_equal. lia.
Qed.
(** ** Correctness of the lookup *)

(** Offsets as they are in [CPUX86State]: small, and the shadow areas apart
    from the TLB. *)
Record layout_ok : Prop := {
  lo_tlb : 0 <= ofs_tlb_table < 2 ^ 30;
  lo_fetch : 0 <= ofs_fetch_shadow < 2 ^ 30;
  lo_store : 0 <= ofs_store_shadow < 2 ^ 30;
  lo_fetch_tlb : ofs_fetch_shadow + 40 <= ofs_tlb_table \/
                 ofs_tlb_table + 3 * 8192 <= ofs_fetch_shadow;
  lo_store_tlb : ofs_store_shadow + 40 <= ofs_tlb_table \/
                 ofs_tlb_table + 3 * 8192 <= ofs_store_shadow;
  lo_fetch_store : ofs_fetch_shadow + 40 <= ofs_store_shadow \/
                   ofs_store_shadow + 40 <= ofs_fetch_shadow
}.

Definition tlb_mask (s_bits : Z) : Z := Z.lor TARGET_PAGE_MASK (Z.shiftl 1 s_bits - 1).

Definition tlb_pre_effects (vma : bool) (addrlo mem_index s_bits which : Z)
    : list (dstate -> option dstate) :=
  [mov_effect TCG_TYPE_I64 TCG_REG_L0 addrlo; mov_effect TCG_TYPE_I64 TCG_REG_L1 addrlo] ++
  (if vma then [run1 (IMovMR W64 (EMem (Some TCG_AREG0) None (ofs_vaddr which)) TCG_REG_L0)]
   else []) ++
  [run1 (IShift Shr W64 (EReg TCG_REG_L0) (Some 7));
   run1 (arithi_instr And TCG_TYPE_I64 TCG_REG_L1 (tlb_mask s_bits) false);
   run1 (arithi_instr And TCG_TYPE_I64 TCG_REG_L0 8160 false);
   run1 (ILea W64 TCG_REG_L0 (EMem (Some TCG_AREG0) (Some (TCG_REG_L0, 0))
           (ofs_tlb mem_index + which)));
   run1 (IArithRM Cmp W64 TCG_REG_L1 (EMem (Some TCG_REG_L0) None 0));
   mov_effect TCG_TYPE_I64 TCG_REG_L1 addrlo].

Record access_ok (addrlo mem_index s_bits which : Z) : Prop := {
  ao_addr : reg_ok addrlo;
  ao_L0 : addrlo <> TCG_REG_L0;
  ao_L1 : addrlo <> TCG_REG_L1;
  ao_index : 0 <= mem_index < 3;
  ao_bits : 0 <= s_bits <= 3;
  ao_which : which = ofs_addr_read \/ which = ofs_addr_write
}.

Lemma tlb_mask_ok s_bits :
  0 <= s_bits <= 3 -> arithi_ok And TCG_TYPE_I64 (tlb_mask s_bits) = true.
Proof.
  intros H. assert (s_bits = 0 \/ s_bits = 1 \/ s_bits = 2 \/ s_bits = 3) as Hs by lia.
  by destruct Hs as [->|[->|[->| ->]]].
Qed.

Lemma tlb_offset_range mem_index which :
  layout_ok -> 0 <= mem_index < 3 -> which = ofs_addr_read \/ which = ofs_addr_write ->
  in_s 32 (ofs_tlb mem_index + which).
Proof.
  intros [] Hm Hw. unfold in_s, ofs_tlb. change (CPU_TLB_SIZE * Z.shiftl 1 CPU_TLB_ENTRY_BITS)
    with 8192. destruct Hw as [->| ->]; unfold ofs_addr_read, ofs_addr_write; lia.
Qed.

Lemma shadow_ofs_range f :
  layout_ok -> 0 <= fetch_shadow f < 2 ^ 31 /\ 0 <= store_shadow f < 2 ^ 31.
Proof. intros []. unfold fetch_shadow, store_shadow. destruct f; cbn; lia. Qed.

(** The offset of a shadow field as the emitters use it. *)
Definition shadow_of (which : Z) (f : shadow_field) : Z :=
  if isfetch which then fetch_shadow f else store_shadow f.

Lemma shadow_of_range which f : layout_ok -> 0 <= shadow_of which f < 2 ^ 31.
Proof. intros Hl. unfold shadow_of. by destruct (isfetch which); apply shadow_ofs_range. Qed.

Lemma ofs_vaddr_eq which : layout_ok -> ofs_vaddr which = shadow_of which sf_vaddr.
Proof.
  intros Hl. pose proof (shadow_of_range which sf_vaddr Hl) as H. unfold ofs_vaddr.
  fold (shadow_of which sf_vaddr). apply wrap_id. unfold in_u. lia.
Qed.

Lemma ofs_paddr_eq which : layout_ok -> ofs_paddr which = shadow_of which sf_paddr.
Proof.
  intros Hl. pose proof (shadow_of_range which sf_paddr Hl) as H. unfold ofs_paddr.
  fold (shadow_of which sf_paddr). apply wrap_id. unfold in_u. lia.
Qed.

Lemma tlb_pre_straight vma addrlo mem_index s_bits which :
  layout_ok -> access_ok addrlo mem_index s_bits which ->
  Forall2 straight (tlb_pre vma addrlo mem_index s_bits which)
    (tlb_pre_effects vma addrlo mem_index s_bits which).
Proof.
  intros Hl [Ha H0 H1 Hm Hb Hw]. unfold tlb_pre, tlb_pre_effects.
  assert (in_s 32 (ofs_vaddr which)) as Hv.
  { rewrite ofs_vaddr_eq by done. pose proof (shadow_of_range which sf_vaddr Hl).
    unfold in_s. lia. }
  pose proof (tlb_offset_range mem_index which Hl Hm Hw) as Ht.
  repeat apply Forall2_app.
  - repeat constructor; apply straight_mov; opc_side.
  - destruct vma; [|constructor]. constructor; [|constructor].
    apply straight_modrm_offset; opc_side.
  - constructor; [apply (straight_shifti Shr TCG_TYPE_I64); [opc_side|by vm_compute]|].
    constructor; [apply (straight_arithi And TCG_TYPE_I64); [opc_side|by apply tlb_mask_ok]|].
    constructor; [apply (straight_arithi And TCG_TYPE_I64); [opc_side|done]|].
    constructor.
    { apply straight_instr; [done|]. intros s.
      destruct (emitted_modrm_sib_offset (OPC_LEA + P_REXW) TCG_REG_L0 TCG_AREG0 TCG_REG_L0 0
                  (ofs_tlb mem_index + which) s) as (bs & He & Hi); try opc_side; [|lia|].
      - right. split; [opc_side|done].
      - rewrite swrap_id in Hi by (done || lia). exists bs. split; [done|]. by eapply encodes_noimm. }
    constructor; [apply straight_modrm_offset; opc_side || by vm_compute|].
    constructor; [apply straight_mov; opc_side|constructor].
Qed.
Definition sh_addr (env which : Z) (f : shadow_field) : Z := env + shadow_of which f.

(** Memory after the virtual address has been recorded. *)
Definition mem_vma (vma : bool) (env which addr : Z) (m : Z -> Z) : Z -> Z :=
  if vma then store 8 (sh_addr env which sf_vaddr) addr m else m.

(** The shadow areas do not overlap the TLB entries. *)
Lemma shadow_tlb_sep env mem_index addr which f o :
  layout_ok -> 0 <= mem_index < 3 -> 0 <= o <= 24 ->
  sep 8 (tlb_entry env mem_index addr + o) 8 (sh_addr env which f).
Proof.
  intros [] Hm Ho. unfold tlb_entry, sh_addr, ofs_tlb.
  change (CPU_TLB_SIZE * Z.shiftl 1 CPU_TLB_ENTRY_BITS) with 8192.
  set (i := (addr / 2 ^ TARGET_PAGE_BITS) mod CPU_TLB_SIZE).
  assert (0 <= i < 256) as Hi by (apply Z.mod_pos_bound; done).
  set (x := ofs_tlb_table + mem_index * 8192 + 32 * i + o).
  replace (env + (ofs_tlb_table + mem_index * 8192) + 32 * i + o) with (env + x)
    by (unfold x; lia).
  assert (ofs_tlb_table <= x /\ x + 8 <= ofs_tlb_table + 3 * 8192) as Hx
    by (unfold x; lia).
  assert (shadow_of which f + 8 <= ofs_tlb_table /\ 0 <= shadow_of which f \/
          ofs_tlb_table + 3 * 8192 <= shadow_of which f < 2 ^ 31) as [Hs|Hs].
  { unfold shadow_of, fetch_shadow, store_shadow. destruct (isfetch which), f; cbn; lia. }
  - apply sep_sym, sep_offsets; lia.
  - apply sep_offsets; lia.
Qed.

(** Copying the address and recording it. *)
Lemma tlb_copy_run (vma : bool) addrlo which d :
  layout_ok -> addrlo <> TCG_REG_L0 -> wf d ->
  let env := regs d TCG_AREG0 in let addr := regs d addrlo in
  exists d', run_all
      ([mov_effect TCG_TYPE_I64 TCG_REG_L0 addrlo; mov_effect TCG_TYPE_I64 TCG_REG_L1 addrlo] ++
       (if vma then [run1 (IMovMR W64 (EMem (Some TCG_AREG0) None (ofs_vaddr which)) TCG_REG_L0)]
        else [])) d = Some d' /\ wf d' /\
    regs d' TCG_REG_L0 = addr /\ regs d' TCG_REG_L1 = addr /\
    (forall r, r <> TCG_REG_L0 -> r <> TCG_REG_L1 -> regs d' r = regs d r) /\
    dmem d' = mem_vma vma env which addr (dmem d).
Proof.
  intros Hl H0 Hwf env addr. cbn [app].
  eff (mov64_sets TCG_REG_L0 addrlo d) d1 E1 S1.
  eff (mov64_sets TCG_REG_L1 addrlo d1) d2 E2 S2.
  destruct S1 as ((R1 & O1 & M1) & _). destruct S2 as ((R2 & O2 & M2) & _).
  assert (regs d2 TCG_REG_L0 = addr /\ regs d2 TCG_REG_L1 = addr) as [Ra Rb].
  { rewrite R2, O2, R1, O1 by done. done. }
  assert (forall r, r <> TCG_REG_L0 -> r <> TCG_REG_L1 -> regs d2 r = regs d r) as Ho.
  { intros r Hr0 Hr1. by rewrite O2, O1. }
  unfold mem_vma. destruct vma.
  - eff (st_sets TCG_AREG0 (ofs_vaddr which) TCG_REG_L0 d2) d3 E3 S3.
    destruct S3 as [O3 M3]. exists d3. split_and!; [done|done|by rewrite O3..| |].
    + intros r Hr0 Hr1. rewrite O3. by apply Ho.
    + rewrite M3, store_u64, Ho, Ra, M2, M1 by done. by rewrite ofs_vaddr_eq.
  - exists d2. split_and!; try done. congruence.
Qed.

(** From the address to the comparison with the entry. *)
Lemma tlb_compare_run addrlo mem_index s_bits which d :
  layout_ok -> access_ok addrlo mem_index s_bits which -> wf d ->
  regs d TCG_REG_L0 = regs d addrlo -> regs d TCG_REG_L1 = regs d addrlo ->
  let env := regs d TCG_AREG0 in let addr := regs d addrlo in
  exists d', run_all
      [run1 (IShift Shr W64 (EReg TCG_REG_L0) (Some 7));
       run1 (arithi_instr And TCG_TYPE_I64 TCG_REG_L1 (tlb_mask s_bits) false);
       run1 (arithi_instr And TCG_TYPE_I64 TCG_REG_L0 8160 false);
       run1 (ILea W64 TCG_REG_L0 (EMem (Some TCG_AREG0) (Some (TCG_REG_L0, 0))
               (ofs_tlb mem_index + which)));
       run1 (IArithRM Cmp W64 TCG_REG_L1 (EMem (Some TCG_REG_L0) None 0));
       mov_effect TCG_TYPE_I64 TCG_REG_L1 addrlo] d = Some d' /\
    wf d' /\ regs d' TCG_REG_L1 = addr /\
    regs d' TCG_REG_L0 = u64 (tlb_entry env mem_index addr + which) /\
    (forall r, r <> TCG_REG_L0 -> r <> TCG_REG_L1 -> regs d' r = regs d r) /\
    dmem d' = dmem d /\ ZF d' = Some (tlb_hit (dmem d) env mem_index s_bits which addr).
Proof.
  intros Hl [Ha H0 H1 Hm Hb Hw] Hwf Ra Rb env addr.
  eff (shr_sets TCG_REG_L0 7 d Hwf ltac:(lia)) d1 E1 S1. destruct S1 as (R1 & O1 & M1).
  eff (arithi_result And TCG_TYPE_I64 TCG_REG_L1 (tlb_mask s_bits) false d1 ltac:(done)
         eq_refl eq_refl (tlb_mask_ok s_bits Hb)) d2 E2 S2. destruct S2 as (R2 & O2 & M2).
  eff (arithi_result And TCG_TYPE_I64 TCG_REG_L0 8160 false d2 ltac:(done)
         eq_refl eq_refl eq_refl) d3 E3 S3. destruct S3 as (R3 & O3 & M3).
  eff (lea_sets TCG_REG_L0 TCG_AREG0 TCG_REG_L0 (ofs_tlb mem_index + which) d3) d4 E4 S4.
  destruct S4 as (R4 & O4 & M4).
  eff (cmpm_sets TCG_REG_L1 TCG_REG_L0 d4) d5 E5 S5. destruct S5 as ((O5 & M5) & Z5).
  eff (mov64_sets TCG_REG_L1 addrlo d5) d6 E6 S6. destruct S6 as ((R6 & O6 & M6) & Z6).
  assert (forall r, r <> TCG_REG_L0 -> r <> TCG_REG_L1 -> regs d5 r = regs d r) as Ho.
  { intros r Hr0 Hr1. by rewrite O5, O4, O3, O2, O1. }
  assert (u64 addr = addr) as Eaddr by (by apply wrap_id, Hwf).
  assert (regs d4 TCG_REG_L0 = u64 (tlb_entry env mem_index addr + which)) as Hr0.
  { rewrite R4, R3. cbn [arith_result twidth wbits].
    rewrite (O2 TCG_REG_L0), R1, Ra by done. fold addr.
    rewrite (O3 TCG_AREG0), (O2 TCG_AREG0), (O1 TCG_AREG0) by done. fold env.
    change 7 with (TARGET_PAGE_BITS - CPU_TLB_ENTRY_BITS).
    change (u64 8160) with (Z.shiftl (CPU_TLB_SIZE - 1) CPU_TLB_ENTRY_BITS).
    rewrite land_wrap by (lia || by vm_compute). rewrite tlb_index. f_equal.
    unfold tlb_entry. lia. }
  assert (regs d4 TCG_REG_L1 = tlb_tag s_bits addr) as Hr1.
  { rewrite (O4 TCG_REG_L1), (O3 TCG_REG_L1), R2 by done. cbn [arith_result twidth wbits].
    rewrite (O1 TCG_REG_L1), Rb by done. fold addr. by rewrite Eaddr. }
  exists d6. split; [done|]. split; [done|]. split_and!.
  - rewrite R6. by apply Ho.
  - rewrite (O6 TCG_REG_L0), (O5 TCG_REG_L0) by done. done.
  - intros r Hr0' Hr1'. rewrite O6 by done. by apply Ho.
  - congruence.
  - rewrite Z6, Z5, Hr1, Hr0, wrap_wrap, load_u64, M4, M3, M2, M1. done.
Qed.

Lemma tlb_pre_run vma addrlo mem_index s_bits which d :
  layout_ok -> access_ok addrlo mem_index s_bits which -> wf d ->
  let env := regs d TCG_AREG0 in let addr := regs d addrlo in
  exists d', run_all (tlb_pre_effects vma addrlo mem_index s_bits which) d = Some d' /\
    wf d' /\ regs d' TCG_REG_L1 = addr /\
    regs d' TCG_REG_L0 = u64 (tlb_entry env mem_index addr + which) /\
    (forall r, r <> TCG_REG_L0 -> r <> TCG_REG_L1 -> regs d' r = regs d r) /\
    dmem d' = mem_vma vma env which addr (dmem d) /\
    ZF d' = Some (tlb_hit (dmem d) env mem_index s_bits which addr).
Proof.
  intros Hl Hacc Hwf env addr. pose proof Hacc as [Ha H0 H1 Hm Hb Hw].
  destruct (tlb_copy_run vma addrlo which d Hl H0 Hwf) as (d1 & E1 & W1 & R0 & R1 & O1 & M1).
  destruct (tlb_compare_run addrlo mem_index s_bits which d1 Hl Hacc W1)
    as (d2 & E2 & W2 & R1' & R0' & O2 & M2 & Z2).
  { by rewrite R0, O1. }
  { by rewrite R1, O1. }
  exists d2. unfold tlb_pre_effects. rewrite app_assoc, run_all_app, E1. cbn [mbind option_bind].
  rewrite (O1 addrlo), (O1 TCG_AREG0) in * by done. fold env addr in R1', R0', Z2, M1.
  split_and!; [done|done|done|done| |congruence|].
  - intros r Hr0 Hr1. rewrite O2 by done. by apply O1.
  - rewrite Z2, M1. f_equal. unfold tlb_hit, mem_vma. destruct vma; [|done].
    rewrite load_store_other; [done|]. apply shadow_tlb_sep; [done|done|].
    destruct Hw as [->| ->]; cbv; split; congruence.
Qed.

(** ** After the branch *)

Definition tlb_post_effects (pma : bool) (which : Z) : list (dstate -> option dstate) :=
  run1 (IArithRM Add W64 TCG_REG_L1 (EMem (Some TCG_REG_L0) None (ofs_addend - which))) ::
  (if pma then
     [mov_effect TCG_TYPE_I64 TCG_REG_L0 TCG_REG_L1;
      run1 (arithi_instr Add TCG_TYPE_I64 TCG_REG_L0 10000 false);
      run1 (IMovMR W64 (EMem (Some TCG_AREG0) None (ofs_paddr which)) TCG_REG_L0)]
   else []).

Lemma tlb_post_straight pma which :
  layout_ok -> which = ofs_addr_read \/ which = ofs_addr_write ->
  Forall2 straight (tlb_post pma which) (tlb_post_effects pma which).
Proof.
  intros Hl Hw. unfold tlb_post, tlb_post_effects.
  assert (in_s 32 (ofs_addend - which)) by (destruct Hw as [->| ->]; by vm_compute).
  assert (in_s 32 (ofs_paddr which)) as Hp.
  { rewrite ofs_paddr_eq by done. pose proof (shadow_of_range which sf_paddr Hl).
    unfold in_s. lia. }
  constructor; [apply straight_modrm_offset; opc_side|]. destruct pma; [|constructor].
  constructor; [apply straight_mov; opc_side|].
  constructor; [apply (straight_arithi Add TCG_TYPE_I64); [opc_side|done]|].
  constructor; [apply straight_modrm_offset; opc_side|constructor].
Qed.

(** Memory after the "physical" address has been recorded: the host address
    plus 10000. *)
Definition mem_pma (pma : bool) (env which host : Z) (m : Z -> Z) : Z -> Z :=
  if pma then store 8 (sh_addr env which sf_paddr) (u64 (host + 10000)) m else m.

Lemma tlb_post_run pma mem_index which addr d :
  layout_ok -> which = ofs_addr_read \/ which = ofs_addr_write -> wf d ->
  let env := regs d TCG_AREG0 in
  regs d TCG_REG_L1 = addr ->
  regs d TCG_REG_L0 = u64 (tlb_entry env mem_index addr + which) ->
  let host := host_addr (dmem d) env mem_index addr in
  exists d', run_all (tlb_post_effects pma which) d = Some d' /\ wf d' /\
    regs d' TCG_REG_L1 = host /\
    (forall r, r <> TCG_REG_L0 -> r <> TCG_REG_L1 -> regs d' r = regs d r) /\
    dmem d' = mem_pma pma env which host (dmem d).
Proof.
  intros Hl Hw Hwf env R1 R0 host. unfold tlb_post_effects.
  eff (addm_sets TCG_REG_L1 TCG_REG_L0 (ofs_addend - which) d) d1 E1 S1.
  destruct S1 as (R1' & O1 & M1).
  assert (regs d1 TCG_REG_L1 = host) as Rh.
  { rewrite R1', R1, R0, wrap_add_l, load_u64. unfold host, host_addr. do 3 f_equal. lia. }
  unfold mem_pma. destruct pma; [|exists d1; split_and!; auto].
  eff (mov64_sets TCG_REG_L0 TCG_REG_L1 d1) d2 E2 S2. destruct S2 as ((R2 & O2 & M2) & _).
  eff (arithi_result Add TCG_TYPE_I64 TCG_REG_L0 10000 false d2 ltac:(done)
         eq_refl eq_refl eq_refl) d3 E3 S3. destruct S3 as (R3 & O3 & M3).
  eff (st_sets TCG_AREG0 (ofs_paddr which) TCG_REG_L0 d3) d4 E4 S4. destruct S4 as (O4 & M4).
  exists d4. split; [done|]. split; [done|]. split_and!.
  - rewrite O4, O3, O2 by done. done.
  - intros r Hr0 Hr1. by rewrite O4, O3, O2, O1.
  - rewrite M4, store_u64, (O3 TCG_AREG0), (O2 TCG_AREG0), (O1 TCG_AREG0), M3, M2, M1 by done.
    rewrite ofs_paddr_eq by done. unfold sh_addr. fold env. f_equal.
    rewrite R3. cbn [arith_result twidth wbits]. rewrite R2, Rh.
    by rewrite wrap_add_l, wrap_add_r.
Qed.

(** ** The whole lookup *)

Lemma encodes_jne rel : encodes ([0x0f; 0x85] ++ bytes_le 4 rel) (IJcc JCC_JNE (s32 rel)).
Proof.
  apply (encodes_plain (OPC_JCC_long + JCC_JNE) 0); [done|done|cbn; lia|].
  unfold dec_plain; cbn -[dec_num bytes_le swrap].
  rewrite <- (app_nil_r (bytes_le 4 rel)), dec_num_bytes by lia. reflexivity.
Qed.

(** The branch to the slow path. *)
Lemma jne_step cd p rel d z :
  ZF d = Some z -> code_at cd p ([0x0f; 0x85] ++ bytes_le 4 rel) ->
  step cd (p, d) (if z then p + 6 else u64 (p + 6 + s32 rel), d).
Proof.
  intros Hz Hc. eapply step_encoded; [apply encodes_jne|exact Hc|].
  rewrite length_app, length_bytes_le. cbn [length exec].
  unfold cond_holds. change (Z.shiftr JCC_JNE 1) with 2. cbn iota. rewrite Hz.
  cbn [mbind option_bind]. change (Z.testbit JCC_JNE 0) with true. rewrite xorb_true_l.
  by destruct z.
Qed.

(** Recording the virtual address does not change the TLB. *)
Lemma host_addr_vma vma env which addr mem_index m :
  layout_ok -> 0 <= mem_index < 3 ->
  host_addr (mem_vma vma env which addr m) env mem_index addr = host_addr m env mem_index addr.
Proof.
  intros Hl Hm. unfold mem_vma. destruct vma; [|done]. unfold host_addr.
  rewrite load_store_other; [done|]. apply shadow_tlb_sep; [done|done|]. cbv; split; congruence.
Qed.

(** The code: up to the branch, the hole for its displacement, and the rest. *)
Lemma tlb_code_emitted vma pma addrlo mem_index s_bits which s :
  layout_ok -> access_ok addrlo mem_index s_bits which ->
  exists b1 hole b2, length hole = 4%nat /\
    let label := code_ptr s + Z.of_nat (length b1) + 2 in
    tlb_code vma pma addrlo mem_index s_bits which s =
      Ok (label, add_code (b1 ++ [0x0f; 0x85] ++ hole ++ b2) s) /\
    (forall cd d d', wf d -> code_at cd (code_ptr s) b1 ->
       run_all (tlb_pre_effects vma addrlo mem_index s_bits which) d = Some d' ->
       steps cd (code_ptr s, d) (code_ptr s + Z.of_nat (length b1), d')) /\
    (forall cd d d', wf d -> code_at cd (label + 4) b2 ->
       run_all (tlb_post_effects pma which) d = Some d' ->
       steps cd (label + 4, d) (label + 4 + Z.of_nat (length b2), d')).
Proof.
  intros Hl Hacc. pose proof Hacc as [_ _ _ _ _ Hw].
  destruct (straight_list _ _ (tlb_pre_straight vma addrlo mem_index s_bits which Hl Hacc) s)
    as (b1 & E1 & S1).
  set (s1 := add_code [0x0f; 0x85] (add_code b1 s)).
  set (hole := (fun i => s1.(stale) (code_ptr s1 + Z.of_nat i)) <$> seq 0 4).
  destruct (straight_list _ _ (tlb_post_straight pma which Hl Hw) (add_code hole s1))
    as (b2 & E2 & S2).
  assert (length hole = 4%nat) as Hhole by (unfold hole; by rewrite length_fmap).
  assert (code_ptr s1 = code_ptr s + Z.of_nat (length b1) + 2) as Ep
    by (unfold s1; rewrite !code_ptr_add; cbn [length]; lia).
  exists b1, hole, b2. split; [done|]. cbn zeta. rewrite <- Ep. split_and!.
  - unfold tlb_code. rewrite E1. unfold mbind, out_bind, get_ptr.
    rewrite (emitted_opc (OPC_JCC_long + JCC_JNE) 0 0 0) by opc_side.
    change (opc_bytes (OPC_JCC_long + JCC_JNE) 0 0 0) with [0x0f; 0x85]. fold s1.
    unfold advance, modify. fold hole. by rewrite E2, !add_code_app.
  - intros cd d d' Hwf Hc Hr. specialize (S1 cd d d' Hwf Hc Hr). by rewrite code_ptr_add in S1.
  - intros cd d d' Hwf Hc Hr. rewrite !code_ptr_add, Hhole in S2. by apply S2.
Qed.

Lemma tlb_code_spec vma pma addrlo mem_index s_bits which s :
  layout_ok -> access_ok addrlo mem_index s_bits which ->
  exists b1 hole b2, length hole = 4%nat /\
    let label := code_ptr s + Z.of_nat (length b1) + 2 in
    tlb_code vma pma addrlo mem_index s_bits which s =
      Ok (label, add_code (b1 ++ [0x0f; 0x85] ++ hole ++ b2) s) /\
    forall cd d rel, wf d ->
      code_at cd (code_ptr s) (b1 ++ [0x0f; 0x85] ++ bytes_le 4 rel ++ b2) ->
      let env := regs d TCG_AREG0 in let addr := regs d addrlo in
      let host := host_addr (dmem d) env mem_index addr in
      exists pc' d', steps cd (code_ptr s, d) (pc', d') /\ wf d' /\
        (forall r, r <> TCG_REG_L0 -> r <> TCG_REG_L1 -> regs d' r = regs d r) /\
        if tlb_hit (dmem d) env mem_index s_bits which addr then
          pc' = label + 4 + Z.of_nat (length b2) /\ regs d' TCG_REG_L1 = host /\
          dmem d' = mem_pma pma env which host (mem_vma vma env which addr (dmem d))
        else
          pc' = u64 (label + 4 + s32 rel) /\ regs d' TCG_REG_L1 = addr /\
          dmem d' = mem_vma vma env which addr (dmem d).
Proof.
  intros Hl Hacc. pose proof Hacc as [Ha H0 H1 Hm Hb Hw].
  destruct (tlb_code_emitted vma pma addrlo mem_index s_bits which s Hl Hacc)
    as (b1 & hole & b2 & Hhole & E & S1 & S2). cbn zeta in *.
  exists b1, hole, b2. split; [done|]. cbn zeta. split; [exact E|]. intros cd d rel Hwf Hc.
  set (env := regs d TCG_AREG0). set (addr := regs d addrlo).
  apply code_at_app in Hc as [Hc1 Hc]. rewrite app_assoc in Hc.
  apply code_at_app in Hc as [Hcj Hc2].
  destruct (tlb_pre_run vma addrlo mem_index s_bits which d Hl Hacc Hwf)
    as (d1 & F1 & W1 & R1 & R0 & O1 & M1 & Z1). fold env addr in R1, R0, M1, Z1.
  specialize (S1 cd d d1 Hwf Hc1 F1). pose proof (jne_step cd _ rel d1 _ Z1 Hcj) as Hj.
  replace (code_ptr s + Z.of_nat (length b1) + 6) with (code_ptr s + Z.of_nat (length b1) + 2 + 4)
    in Hj by lia.
  set (label := code_ptr s + Z.of_nat (length b1) + 2) in *.
  destruct (tlb_hit (dmem d) env mem_index s_bits which addr) eqn:Ehit.
  - destruct (tlb_post_run pma mem_index which addr d1 Hl Hw W1) as (d2 & F2 & W2 & R2 & O2 & M2);
      [done|by rewrite (O1 TCG_AREG0)|].
    rewrite (O1 TCG_AREG0) in R2, M2 by done. fold env in R2, M2.
    rewrite M1, host_addr_vma in R2, M2 by done. exists (label + 4 + Z.of_nat (length b2)), d2.
    split; [|split; [done|]]; [|split; [|split_and!; [done|done|congruence]]].
    + etrans; [exact S1|]. eapply rtc_l; [exact Hj|]. apply S2; [done| |done].
      rewrite length_app, length_bytes_le in Hc2.
      eapply (eq_ind _ (fun x => code_at cd x b2) Hc2). unfold label. cbn [length]. lia.
    + intros r Hr0 Hr1. rewrite O2 by done. by apply O1.
  - exists (u64 (label + 4 + s32 rel)), d1. split; [|split; [done|]].
    + etrans; [exact S1|]. by apply rtc_once.
    + split; [done|]. split_and!; done.
Qed.
End TlbLoad.
