(* ===== verification/QemuLdSt.v ===== *)
(** * Guest loads and stores (tcg/i386/tcg-target.c)

    [tcg_out_qemu_ld] and [tcg_out_qemu_st] with QTRACE's recording of sizes,
    addresses and values, and the slow paths behind the translation block. *)

From S2P Require Import Prelude QtraceDefs IContext Interpret X86 TcgOut TcgEnc TcgEmit TcgCond.
From S2P Require Import TlbLoad.

(** ** Definitions *)

(** On a 64-bit host [datahi] is not used and [seg] is 0. *)
Definition tcg_out_qemu_ld_direct (datalo base ofs memop : Z) : out unit :=
  let bswap := testb memop MO_BSWAP in
  let op := Z.land memop MO_SSIZE in
  if op =? MO_UB then tcg_out_modrm_offset OPC_MOVZBL datalo base ofs
  else if op =? MO_SB then tcg_out_modrm_offset (OPC_MOVSBL + P_REXW) datalo base ofs
  else if op =? MO_UW then
    tcg_out_modrm_offset OPC_MOVZWL datalo base ofs ;;
    when_out bswap (tcg_out_rolw_8 datalo)
  else if op =? MO_SW then
    if bswap then
      tcg_out_modrm_offset OPC_MOVZWL datalo base ofs ;;
      tcg_out_rolw_8 datalo ;;
      tcg_out_modrm (OPC_MOVSWL + P_REXW) datalo datalo
    else tcg_out_modrm_offset (OPC_MOVSWL + P_REXW) datalo base ofs
  else if op =? MO_UL then
    tcg_out_modrm_offset OPC_MOVL_GvEv datalo base ofs ;;
    when_out bswap (tcg_out_bswap32 datalo)
  else if op =? MO_SL then
    if bswap then
      tcg_out_modrm_offset OPC_MOVL_GvEv datalo base ofs ;;
      tcg_out_bswap32 datalo ;;
      tcg_out_ext32s datalo datalo
    else tcg_out_modrm_offset OPC_MOVSLQ datalo base ofs
  else if op =? MO_Q then
    tcg_out_modrm_offset (OPC_MOVL_GvEv + P_REXW) datalo base ofs ;;
    when_out bswap (tcg_out_bswap64 datalo)
  else fail TcgAbort.

Definition tcg_out_qemu_st_direct (datalo base ofs memop : Z) : out unit :=
  let bswap := testb memop MO_BSWAP in
  let scratch := TCG_REG_L0 in
  let size := Z.land memop MO_SIZE in
  if size =? MO_8 then tcg_out_modrm_offset (OPC_MOVB_EvGv + P_REXB_R) datalo base ofs
  else if size =? MO_16 then
    when_out bswap (tcg_out_mov TCG_TYPE_I32 scratch datalo ;; tcg_out_rolw_8 scratch) ;;
    tcg_out_modrm_offset (OPC_MOVL_EvGv + P_DATA16) (if bswap then scratch else datalo) base ofs
  else if size =? MO_32 then
    when_out bswap (tcg_out_mov TCG_TYPE_I32 scratch datalo ;; tcg_out_bswap32 scratch) ;;
    tcg_out_modrm_offset OPC_MOVL_EvGv (if bswap then scratch else datalo) base ofs
  else
    when_out bswap (tcg_out_mov TCG_TYPE_I64 scratch datalo ;; tcg_out_bswap64 scratch) ;;
    tcg_out_modrm_offset (OPC_MOVL_EvGv + P_REXW) (if bswap then scratch else datalo) base ofs.

Definition TCG_MAX_QEMU_LDST : Z := 640.

(** [new_ldst_label] and [add_qemu_ldst_label]; [addrhi] and [datahi] are 0. *)
Definition add_qemu_ldst_label (ld : bool) (opc datalo addrlo mem_index raddr ptr : Z)
    : out unit := fun s =>
  if Z.of_nat (length s.(ldst_labels)) <? TCG_MAX_QEMU_LDST then
    Ok (tt, set_ldst_labels (s.(ldst_labels) ++
              [mkLdst ld opc datalo 0 addrlo 0 mem_index raddr ptr]) s)
  else Err AssertFailed.

Section LdSt.
Context `{L : CPULayout}.

(** Recording a value that the emitted code has in a register. *)
Definition out_shadow (r ofs : Z) : out unit :=
  tcg_out_modrm_offset (OPC_MOVL_EvGv + P_REXW) r TCG_AREG0 ofs.

Definition tcg_out_qemu_ld (datalo addrlo opc idx : Z) : out unit :=
  let mem_trace := QTRACE_EXT_MEMTRACE idx in
  let mem_index := QTRACE_EXT_MEMINDEX idx in
  let s_bits := Z.land opc MO_SIZE in
  let '(msize, mem_trace) := QTRACE_MEMTRACE_FETCH_EXT_MSIZE mem_trace in
  when_out (negb (msize =? 0))
    (tcg_out_movi TCG_TYPE_I32 TCG_REG_L0 (Z.shiftl 1 s_bits) ;;
     out_shadow TCG_REG_L0 (fetch_shadow sf_bsize)) ;;
  let '(maddrs, mem_trace) := QTRACE_MEMTRACE_FETCH_EXT_ADDRS mem_trace in
  label_ptr ←
    (if negb (maddrs =? 0) then
       if maddrs =? QTRACE_MEMTRACE_FETCH_VMA then
         tcg_out_tlb_load_trace_vma addrlo mem_index s_bits ofs_addr_read
       else if maddrs =? QTRACE_MEMTRACE_FETCH_PMA then
         tcg_out_tlb_load_trace_pma addrlo mem_index s_bits ofs_addr_read
       else if maddrs =? QTRACE_MEMTRACE_FETCH_VPMA then
         tcg_out_tlb_load_trace_vpma addrlo mem_index s_bits ofs_addr_read
       else mret 0
     else tcg_out_tlb_load addrlo mem_index s_bits ofs_addr_read);
  tcg_out_qemu_ld_direct datalo TCG_REG_L1 0 opc ;;
  let '(pre, mem_trace) := QTRACE_MEMTRACE_FETCH_EXT_PREOP_VALUE mem_trace in
  when_out (negb (pre =? 0)) (out_shadow datalo (fetch_shadow sf_prevalue)) ;;
  let '(pst, mem_trace) := QTRACE_MEMTRACE_FETCH_EXT_PSTOP_VALUE mem_trace in
  when_out (negb (pst =? 0)) (out_shadow datalo (fetch_shadow sf_pstvalue)) ;;
  raddr ← get_ptr;
  add_qemu_ldst_label true opc datalo addrlo mem_index raddr label_ptr.

Definition tcg_out_qemu_st (datalo addrlo opc idx : Z) : out unit :=
  let mem_trace := QTRACE_EXT_MEMTRACE idx in
  let mem_index := QTRACE_EXT_MEMINDEX idx in
  let s_bits := Z.land opc MO_SIZE in
  let '(msize, mem_trace) := QTRACE_MEMTRACE_STORE_EXT_MSIZE mem_trace in
  when_out (negb (msize =? 0))
    (tcg_out_movi TCG_TYPE_I32 TCG_REG_L0 (Z.shiftl 1 s_bits) ;;
     out_shadow TCG_REG_L0 (store_shadow sf_bsize)) ;;
  let '(maddrs, mem_trace) := QTRACE_MEMTRACE_STORE_EXT_ADDRS mem_trace in
  label_ptr ←
    (if negb (maddrs =? 0) then
       if maddrs =? QTRACE_MEMTRACE_STORE_VMA then
         tcg_out_tlb_load_trace_vma addrlo mem_index s_bits ofs_addr_write
       else if maddrs =? QTRACE_MEMTRACE_STORE_PMA then
         tcg_out_tlb_load_trace_pma addrlo mem_index s_bits ofs_addr_write
       else if maddrs =? QTRACE_MEMTRACE_STORE_VPMA then
         tcg_out_tlb_load_trace_vpma addrlo mem_index s_bits ofs_addr_write
       else mret 0
     else tcg_out_tlb_load addrlo mem_index s_bits ofs_addr_write);
  let '(pre, mem_trace) := QTRACE_MEMTRACE_STORE_EXT_PREOP_VALUE mem_trace in
  when_out (negb (pre =? 0))
    (tcg_out_qemu_ld_direct TCG_REG_L0 TCG_REG_L1 0 opc ;;
     tcg_out_qemu_st_direct TCG_REG_L0 TCG_AREG0 (store_shadow sf_prevalue) opc) ;;
  tcg_out_qemu_st_direct datalo TCG_REG_L1 0 opc ;;
  let '(pst, mem_trace) := QTRACE_MEMTRACE_STORE_EXT_PSTOP_VALUE mem_trace in
  when_out (negb (pst =? 0))
    (tcg_out_qemu_st_direct datalo TCG_AREG0 (store_shadow sf_pstvalue) opc) ;;
  raddr ← get_ptr;
  add_qemu_ldst_label false opc datalo addrlo mem_index raddr label_ptr.

(** The addresses of the helper functions of softmmu_template.h. *)
Variable qemu_ld_helpers : Z -> Z.
Variable qemu_st_helpers : Z -> Z.

(** Filling in the displacement of the branch to the slow path. *)
Definition resolve_label (l : TCGLabelQemuLdst) : out unit :=
  ptr ← get_ptr;
  patch_code l.(label_ptr) (bytes_le 4 (u32 (ptr - l.(label_ptr) - 4))).

Definition tcg_out_qemu_ld_slow_path (l : TCGLabelQemuLdst) : out unit :=
  let opc := l.(l_opc) in
  resolve_label l ;;
  tcg_out_mov TCG_TYPE_PTR TCG_REG_RDI TCG_AREG0 ;;
  tcg_out_movi TCG_TYPE_I32 TCG_REG_RDX l.(l_mem_index) ;;
  tcg_out_movi TCG_TYPE_PTR TCG_REG_RCX (s64 l.(raddr)) ;;
  tcg_out_calli (qemu_ld_helpers (Z.land opc (Z.lnot MO_SIGN))) ;;
  let data_reg := l.(datalo_reg) in
  let op := Z.land opc MO_SSIZE in
  (if op =? MO_SB then tcg_out_ext8s data_reg TCG_REG_RAX P_REXW
   else if op =? MO_SW then tcg_out_ext16s data_reg TCG_REG_RAX P_REXW
   else if op =? MO_SL then tcg_out_ext32s data_reg TCG_REG_RAX
   else if (op =? MO_UB) || (op =? MO_UW) || (op =? MO_UL) then
     tcg_out_mov TCG_TYPE_I32 data_reg TCG_REG_RAX
   else if op =? MO_Q then tcg_out_mov TCG_TYPE_I64 data_reg TCG_REG_RAX
   else fail TcgAbort) ;;
  tcg_out_jmp l.(raddr).

Definition tcg_out_qemu_st_slow_path (l : TCGLabelQemuLdst) : out unit :=
  let opc := l.(l_opc) in
  let s_bits := Z.land opc MO_SIZE in
  resolve_label l ;;
  tcg_out_mov TCG_TYPE_PTR TCG_REG_RDI TCG_AREG0 ;;
  tcg_out_mov (if s_bits =? MO_64 then TCG_TYPE_I64 else TCG_TYPE_I32) TCG_REG_RDX
    l.(datalo_reg) ;;
  tcg_out_movi TCG_TYPE_I32 TCG_REG_RCX l.(l_mem_index) ;;
  let retaddr := TCG_REG_R8 in
  tcg_out_movi TCG_TYPE_PTR retaddr (s64 l.(raddr)) ;;
  tcg_out_push retaddr ;;
  tcg_out_jmp (qemu_st_helpers opc).

(** tcg/tcg-be-ldst.h *)
Fixpoint finalize_labels (lb : list TCGLabelQemuLdst) : out unit :=
  match lb with
  | [] => skip
  | l :: lb =>
      (if l.(is_ld) then tcg_out_qemu_ld_slow_path l else tcg_out_qemu_st_slow_path l) ;;
      finalize_labels lb
  end.
Definition tcg_out_tb_finalize : out unit := fun s => finalize_labels s.(ldst_labels) s.

Definition tcg_out_tb_init : out unit := modify (set_ldst_labels []).

(** INDEX_op_qtrace_shadow_register: copy a register of the CPU state to the
    shadow CPU state, [shadowcpu_offset] bytes further. *)
Definition out_qtrace_shadow_register (rmsize offset : Z) : out unit :=
  let memop := Z.log2 rmsize - 3 in
  tcg_out_qemu_ld_direct TCG_REG_L0 TCG_AREG0 ofs_shadowcpu_offset MO_Q ;;
  tgen_arithr (ARITH_ADD + P_REXW) TCG_REG_L0 TCG_AREG0 ;;
  tcg_out_qemu_ld_direct TCG_REG_L1 TCG_AREG0 offset memop ;;
  tcg_out_qemu_st_direct TCG_REG_L1 TCG_REG_L0 offset memop.
End LdSt.

(** ** Values in guest memory *)

Definition mo_bytes (memop : Z) : nat := Z.to_nat (Z.shiftl 1 (Z.land memop MO_SIZE)).

Definition mo_bswap (memop v : Z) : Z :=
  if testb memop MO_BSWAP then bswap_value (mo_bytes memop) v else v.

(** The value of a guest load at host address [a]. *)
Definition ld_value (memop : Z) (m : Z -> Z) (a : Z) : Z :=
  let v := mo_bswap memop (load (mo_bytes memop) a m) in
  if testb memop MO_SIGN then u64 (swrap (8 * Z.of_nat (mo_bytes memop)) v) else v.

(** Memory after a guest store. *)
Definition st_mem (memop a v : Z) (m : Z -> Z) : Z -> Z :=
  store (mo_bytes memop) a (mo_bswap memop v) m.

Definition memop_ok (memop : Z) : Prop := 0 <= memop < 16 /\ Z.land memop MO_SSIZE <> 7.

(** Swapping the two bytes of a word is a rotation by 8. *)
Lemma rol8_bswap v : in_u 16 v -> shift_result Rol 16 v 8 = bswap_value 2 v.
Proof.
  intros Hv. cbn [shift_result]. change (8 mod 16) with 8. change (16 - 8) with 8.
  unfold in_u in Hv. rewrite Z.lor_comm, Z.shiftr_div_pow2 by lia.
  rewrite lor_shiftl_add;
    [|lia|unfold in_u; split; [apply Z.div_pos; lia|apply Z.div_lt_upper_bound; lia]].
  unfold bswap_value, wrap. cbn [bytes_le rev app of_bytes_le]. unfold wrap.
  change (2 ^ 8) with 256. change (2 ^ 16) with 65536 in *.
  Z.to_euclidean_division_equations; lia.
Qed.

Lemma bswap_range n v : in_u (8 * Z.of_nat n) (bswap_value n v).
Proof.
  unfold bswap_value. rewrite <- (length_bytes_le n v) at 1. rewrite <- length_rev.
  apply of_bytes_le_range. apply Forall_rev, bytes_le_byte.
Qed.

Lemma bswap_wrap n v : bswap_value n (wrap (8 * Z.of_nat n) v) = bswap_value n v.
Proof.
  unfold bswap_value. do 2 f_equal. rewrite <- of_bytes_le_bytes_le.
  rewrite <- (length_bytes_le n v) at 1. apply bytes_le_of_bytes_le, bytes_le_byte.
Qed.

(** Swapping twice gives the value back. *)
Lemma bswap_involutive n v : bswap_value n (bswap_value n v) = wrap (8 * Z.of_nat n) v.
Proof.
  unfold bswap_value at 1. unfold bswap_value.
  replace n with (length (rev (bytes_le n v))) at 1 by (by rewrite length_rev, length_bytes_le).
  rewrite bytes_le_of_bytes_le by (apply Forall_rev, bytes_le_byte).
  by rewrite rev_involutive, of_bytes_le_bytes_le.
Qed.

(** *** Effects of single instructions *)

Lemma movzxm_sets w r b ofs d :
  wf d -> w ∈ [W8; W16] ->
  exists d', run1 (IMovzx w r (EMem (Some b) None ofs)) d = Some d' /\
    sets_reg r (load (wbytes w) (u64 (regs d b + ofs)) (dmem d)) d d'.
Proof.
  intros Hwf Hw. eexists; split; [reflexivity|]. split_and!; [|regs_other|done].
  rewrite (regs_write_same TCG_TYPE_I64). cbn [read_ea addr_of twidth wbits].
  rewrite Z.add_0_r. apply wrap_id. eapply in_u_mono; [|by apply load_range].
  rewrite !elem_of_cons, elem_of_nil in Hw. destruct Hw as [->|[->|[]]]; cbn; lia.
Qed.

Lemma movl_sets r b ofs d :
  wf d -> exists d', run1 (IMovRM W32 r (EMem (Some b) None ofs)) d = Some d' /\
    sets_reg r (load 4 (u64 (regs d b + ofs)) (dmem d)) d d'.
Proof.
  intros Hwf. eexists; split; [reflexivity|]. split_and!; [|regs_other|done].
  rewrite (regs_write_same TCG_TYPE_I32). cbn [read_ea addr_of twidth wbits wbytes].
  rewrite Z.add_0_r. apply wrap_id. by apply (load_range 4).
Qed.

Lemma movsxm_sets w r b ofs d :
  wf d -> exists d', run1 (IMovsx W64 w r (EMem (Some b) None ofs)) d = Some d' /\
    sets_reg r (u64 (swrap (wbits w) (load (wbytes w) (u64 (regs d b + ofs)) (dmem d)))) d d'.
Proof.
  intros Hwf. eexists; split; [reflexivity|]. split_and!; [|regs_other|done].
  rewrite (regs_write_same TCG_TYPE_I64). cbn [read_ea addr_of twidth wbits].
  by rewrite Z.add_0_r.
Qed.

Lemma movsx_sets w r d :
  wf d -> w ∈ [W8; W16; W32] -> in_u (wbits w) (regs d r) ->
  exists d', run1 (IMovsx W64 w r (EReg r)) d = Some d' /\
    sets_reg r (u64 (swrap (wbits w) (regs d r))) d d'.
Proof.
  intros Hwf Hw Hr. eexists; split; [reflexivity|]. split_and!; [|regs_other|done].
  rewrite (regs_write_same TCG_TYPE_I64). cbn [read_ea twidth wbits].
  rewrite !elem_of_cons, elem_of_nil in Hw.
  destruct Hw as [->|[->|[->|[]]]]; cbn [read_reg]; by rewrite (wrap_id _ (regs d r)).
Qed.

(** A rotation of the low word keeps the rest, which is zero here. *)
Lemma rolw_sets r d :
  in_u 16 (regs d r) ->
  exists d', run1 (IShift Rol W16 (EReg r) (Some 8)) d = Some d' /\
    sets_reg r (bswap_value 2 (regs d r)) d d'.
Proof.
  intros Hr. eexists; split; [reflexivity|]. unfold shift_flags.
  change (Z.land 8 31) with 8. cbn [Z.eqb].
  split_and!; [|intros; cbn [set_flags regs]; by apply regs_write_other|done].
  cbn [set_flags regs write_ea write_reg set_reg read_ea read_reg wbits]. unfold upd.
  rewrite Z.eqb_refl, (wrap_id 16 (regs d r)), Z.sub_diag, rol8_bswap by done.
  rewrite Z.add_0_l. apply wrap_id. apply (bswap_range 2).
Qed.

Lemma bswap_sets t r d :
  in_u (wbits (twidth t)) (regs d r) ->
  exists d', run1 (IBswap (twidth t) r) d = Some d' /\
    sets_reg r (bswap_value (wbytes (twidth t)) (regs d r)) d d'.
Proof.
  intros Hr. destruct t; (eexists; split; [reflexivity|]);
    (split_and!; [|regs_other|done]).
  - rewrite (regs_write_same TCG_TYPE_I32). cbn [read_reg twidth wbits wbytes].
    rewrite (wrap_id 32 (regs d r)) by done. apply wrap_id, (bswap_range 4).
  - rewrite (regs_write_same TCG_TYPE_I64). cbn [read_reg twidth wbits wbytes].
    rewrite (wrap_id 64 (regs d r)) by done. apply wrap_id, (bswap_range 8).
Qed.

(** ** Direct loads *)

Definition loads (datalo base ofs memop : Z) (d d' : dstate) : Prop :=
  sets_reg datalo (ld_value memop (dmem d) (regs d base + ofs)) d d'.

Lemma computes_ext m (R R' : dstate -> dstate -> Prop) :
  computes m R -> (forall d d', wf d -> R d d' -> R' d d') -> computes m R'.
Proof.
  intros H HR s. destruct (H s) as (bs & He & Hs). exists bs. split; [done|].
  intros cd d Hwf Hc. destruct (Hs cd d Hwf Hc) as (d' & St & Hr). eauto.
Qed.

Lemma computes_one m i (R : dstate -> dstate -> Prop) :
  straight m (run1 i) -> (forall d, wf d -> exists d', run1 i d = Some d' /\ R d d') ->
  computes m R.
Proof. intros Hs HR. by eapply straight_computes. Qed.

Lemma sets_reg_trans r v1 v2 d d1 d2 :
  sets_reg r v1 d d1 -> sets_reg r v2 d1 d2 -> sets_reg r v2 d d2.
Proof.
  intros (R1 & O1 & M1) (R2 & O2 & M2). split_and!; [done| |congruence].
  intros r' Hr. by rewrite O2, O1.
Qed.

(** Transforming a register that holds an [n]-bit value. *)
Definition on_reg (n : Z) (g : Z -> Z) (r : Z) (d d' : dstate) : Prop :=
  in_u n (regs d r) -> sets_reg r (g (regs d r)) d d'.

Lemma on_reg_intro m i n g r :
  straight m (run1 i) -> (forall d, exists d', run1 i d = Some d') ->
  (forall d, wf d -> in_u n (regs d r) ->
     exists d', run1 i d = Some d' /\ sets_reg r (g (regs d r)) d d') ->
  computes m (on_reg n g r).
Proof.
  intros Hs He Hg. eapply straight_computes; [exact Hs|]. intros d Hwf.
  destruct (He d) as [d' E]. exists d'. split; [done|]. intros Hr.
  destruct (Hg d Hwf Hr) as (d2 & E2 & S). rewrite E in E2. by injection E2 as ->.
Qed.

Lemma load_then m1 m2 n (v : dstate -> Z) g r :
  computes m1 (fun d d' => sets_reg r (v d) d d') -> (forall d, wf d -> in_u n (v d)) ->
  computes m2 (on_reg n g r) ->
  computes (m1 ;; m2) (fun d d' => sets_reg r (g (v d)) d d').
Proof.
  intros H1 Hv H2. eapply computes_seq; [exact H1|exact H2|].
  intros d d1 d2 Hwf S1 S2. eapply sets_reg_trans; [exact S1|].
  destruct S1 as (R1 & _ & _). rewrite <- R1. apply S2. rewrite R1. by apply Hv.
Qed.

(** The pieces: a zero- or sign-extending load, and a load followed by a swap of
    its bytes. *)
Section Pieces.
Context (datalo base ofs : Z).
Hypothesis Hd : reg_ok datalo.
Hypothesis Hb : reg_ok base.
Hypothesis Ho : in_s 32 ofs.

Lemma load_zx_computes w :
  w ∈ [W8; W16] ->
  computes (tcg_out_modrm_offset (match w with W8 => OPC_MOVZBL | _ => OPC_MOVZWL end)
              datalo base ofs)
    (fun d d' => sets_reg datalo (load (wbytes w) (regs d base + ofs) (dmem d)) d d').
Proof.
  intros Hw. apply computes_one with (i := IMovzx w datalo (EMem (Some base) None ofs)).
  - rewrite !elem_of_cons, elem_of_nil in Hw. destruct Hw as [->|[->|[]]];
      apply straight_modrm_offset; opc_side.
  - intros d Hwf. destruct (movzxm_sets w datalo base ofs d Hwf Hw) as (d' & E & S).
    exists d'. by rewrite load_u64 in S.
Qed.

Lemma load_sx_computes w :
  w ∈ [W8; W16; W32] ->
  computes (tcg_out_modrm_offset (match w with W8 => OPC_MOVSBL + P_REXW
                                  | W16 => OPC_MOVSWL + P_REXW | _ => OPC_MOVSLQ end)
              datalo base ofs)
    (fun d d' => sets_reg datalo
       (u64 (swrap (wbits w) (load (wbytes w) (regs d base + ofs) (dmem d)))) d d').
Proof.
  intros Hw. apply computes_one with (i := IMovsx W64 w datalo (EMem (Some base) None ofs)).
  - rewrite !elem_of_cons, elem_of_nil in Hw. destruct Hw as [->|[->|[->|[]]]];
      apply straight_modrm_offset; opc_side.
  - intros d Hwf. destruct (movsxm_sets w datalo base ofs d Hwf) as (d' & E & S).
    exists d'. by rewrite load_u64 in S.
Qed.

Lemma load_long_computes t :
  computes (tcg_out_modrm_offset (OPC_MOVL_GvEv + rexw_of t) datalo base ofs)
    (fun d d' => sets_reg datalo
       (load (wbytes (twidth t)) (regs d base + ofs) (dmem d)) d d').
Proof.
  apply computes_one with (i := IMovRM (twidth t) datalo (EMem (Some base) None ofs)).
  - destruct t; apply straight_modrm_offset; opc_side.
  - intros d Hwf. destruct t; [destruct (movl_sets datalo base ofs d Hwf) as (d' & E & S)
      |destruct (ld_sets datalo base ofs d Hwf) as (d' & E & S)];
      exists d'; by rewrite load_u64 in S.
Qed.

(** An instruction that transforms the value of a register of [n] bits. *)
Lemma rolw_computes : computes (tcg_out_rolw_8 datalo) (on_reg 16 (bswap_value 2) datalo).
Proof.
  apply on_reg_intro with (i := IShift Rol W16 (EReg datalo) (Some 8));
    [by apply straight_rolw_8|by eexists|]. intros d Hwf. apply rolw_sets.
Qed.

Lemma bswap32_computes :
  computes (tcg_out_bswap32 datalo) (on_reg 32 (bswap_value 4) datalo).
Proof.
  apply on_reg_intro with (i := IBswap W32 datalo);
    [by apply straight_bswap32|by eexists|]. intros d Hwf. apply (bswap_sets TCG_TYPE_I32).
Qed.

Lemma bswap64_computes :
  computes (tcg_out_bswap64 datalo) (on_reg 64 (bswap_value 8) datalo).
Proof.
  apply on_reg_intro with (i := IBswap W64 datalo);
    [by apply straight_bswap64|by eexists|]. intros d Hwf. apply (bswap_sets TCG_TYPE_I64).
Qed.

Lemma ext16s_computes :
  computes (tcg_out_modrm (OPC_MOVSWL + P_REXW) datalo datalo)
    (on_reg 16 (fun v => u64 (s16 v)) datalo).
Proof.
  apply on_reg_intro with (i := IMovsx W64 W16 datalo (EReg datalo));
    [by apply (straight_ext16s TCG_TYPE_I64)|by eexists|].
  intros d Hwf. by apply (movsx_sets W16); [|in_list].
Qed.

Lemma ext32s_computes :
  computes (tcg_out_ext32s datalo datalo) (on_reg 32 (fun v => u64 (s32 v)) datalo).
Proof.
  apply on_reg_intro with (i := IMovsx W64 W32 datalo (EReg datalo));
    [by apply straight_ext32s|by eexists|].
  intros d Hwf. by apply (movsx_sets W32); [|in_list].
Qed.
End Pieces.

Lemma computes_skip m R : computes m R -> computes (m ;; when_out false skip) R.
Proof.
  intros H. eapply computes_seq; [exact H|eapply straight_computes with (R := eq);
    [apply straight_skip|by intros d _; exists d]|]. by intros d d1 d2 _ H1 <-.
Qed.

(** Splits [memop_ok] into the fourteen operations. *)
Lemma memop_cases memop :
  memop_ok memop -> memop ∈ [0; 1; 2; 3; 4; 5; 6; 8; 9; 10; 11; 12; 13; 14].
Proof.
  intros [Hr H7]. rewrite !elem_of_cons.
  assert (memop = 7 \/ memop = 15 \/ (memop <> 7 /\ memop <> 15)) as [->|[->|[? ?]]] by lia;
    [done|done|lia].
Qed.

Ltac each_memop memop H :=
  apply memop_cases in H; rewrite !elem_of_cons, elem_of_nil in H;
  repeat destruct H as [->|H]; [..|destruct H].

Lemma bswap_one v : in_u 8 v -> bswap_value 1 v = v.
Proof. intros H. unfold bswap_value. cbn. rewrite wrap_id by done. lia. Qed.

Lemma ld_direct_computes datalo base ofs memop :
  reg_ok datalo -> reg_ok base -> in_s 32 ofs -> memop_ok memop ->
  computes (tcg_out_qemu_ld_direct datalo base ofs memop) (loads datalo base ofs memop).
Proof.
  intros Hd Hb Ho Hm.
  pose proof (load_zx_computes datalo base ofs Hd Hb Ho W8 ltac:(in_list)) as Zb.
  pose proof (load_zx_computes datalo base ofs Hd Hb Ho W16 ltac:(in_list)) as Zw.
  pose proof (load_sx_computes datalo base ofs Hd Hb Ho W8 ltac:(in_list)) as Sb.
  pose proof (load_sx_computes datalo base ofs Hd Hb Ho W16 ltac:(in_list)) as Sw.
  pose proof (load_sx_computes datalo base ofs Hd Hb Ho W32 ltac:(in_list)) as Sl.
  pose proof (load_long_computes datalo base ofs Hd Hb Ho TCG_TYPE_I32) as Ml.
  pose proof (load_long_computes datalo base ofs Hd Hb Ho TCG_TYPE_I64) as Mq.
  assert (forall n d, wf d -> in_u (8 * Z.of_nat n) (load n (regs d base + ofs) (dmem d)))
    as Hl by (intros; by apply load_range).
  each_memop memop Hm; [exact Zb|by apply computes_skip..|exact Sb|exact Sw|exact Sl| | | | | | |].
  - eapply computes_ext; [exact Zb|]. intros d d' Hwf S. eapply sets_reg_eq; [exact S|].
    symmetry. apply bswap_one. by apply (Hl 1%nat).
  - exact (load_then _ _ 16 _ _ _ Zw (Hl 2%nat) (rolw_computes datalo Hd)).
  - exact (load_then _ _ 32 _ _ _ Ml (Hl 4%nat) (bswap32_computes datalo Hd)).
  - exact (load_then _ _ 64 _ _ _ Mq (Hl 8%nat) (bswap64_computes datalo Hd)).
  - eapply computes_ext; [exact Sb|]. intros d d' Hwf S. eapply sets_reg_eq; [exact S|].
    unfold ld_value, mo_bswap. f_equal. apply (f_equal (swrap 8)). symmetry. apply bswap_one.
    by apply (Hl 1%nat).
  - apply (load_then _ _ 16 (fun d => load 2 (regs d base + ofs) (dmem d))
             (fun v => u64 (s16 (bswap_value 2 v)))); [exact Zw|exact (Hl 2%nat)|].
    eapply computes_seq; [exact (rolw_computes datalo Hd)|exact (ext16s_computes datalo Hd)|].
    intros d d1 d2 Hwf S1 S2 Hr. specialize (S1 Hr). eapply sets_reg_trans; [exact S1|].
    destruct S1 as (R1 & _ & _). unfold on_reg in S2. rewrite R1 in S2. apply S2.
    apply (bswap_range 2).
  - apply (load_then _ _ 32 (fun d => load 4 (regs d base + ofs) (dmem d))
             (fun v => u64 (s32 (bswap_value 4 v)))); [exact Ml|exact (Hl 4%nat)|].
    eapply computes_seq; [exact (bswap32_computes datalo Hd)|exact (ext32s_computes datalo Hd)|].
    intros d d1 d2 Hwf S1 S2 Hr. specialize (S1 Hr). eapply sets_reg_trans; [exact S1|].
    destruct S1 as (R1 & _ & _). unfold on_reg in S2. rewrite R1 in S2. apply S2.
    apply (bswap_range 4).
Qed.

(** ** Direct stores *)

Definition same_but (r : Z) (d d' : dstate) : Prop :=
  (forall r', r' <> r -> regs d' r' = regs d r') /\ dmem d' = dmem d.

Definition stores (datalo base ofs memop : Z) (d d' : dstate) : Prop :=
  (forall r, r <> TCG_REG_L0 \/ testb memop MO_BSWAP = false -> regs d' r = regs d r) /\
  dmem d' = st_mem memop (regs d base + ofs) (regs d datalo) (dmem d).

(** Stores of a register at the four sizes. *)
Lemma store_computes w r base ofs :
  reg_ok r -> reg_ok base -> in_s 32 ofs -> w ∈ [W8; W16; W32; W64] ->
  computes (tcg_out_modrm_offset
              (match w with W8 => OPC_MOVB_EvGv + P_REXB_R | W16 => OPC_MOVL_EvGv + P_DATA16
               | W32 => OPC_MOVL_EvGv | _ => OPC_MOVL_EvGv + P_REXW end) r base ofs)
    (fun d d' => sets_mem (store (wbytes w) (regs d base + ofs) (regs d r) (dmem d)) d d').
Proof.
  intros Hr Hb Ho Hw. rewrite !elem_of_cons, elem_of_nil in Hw.
  apply computes_one with (i := IMovMR w (EMem (Some base) None ofs) r).
  - destruct Hw as [->|[->|[->|[->|[]]]]]; apply straight_modrm_offset; try opc_side.
    transitivity (let '(wr, r') := bytereg (head_of (OPC_MOVB_EvGv + P_REXB_R) r base 0) r in
      match wr with W8 => Some (IMovMR W8 (EMem (Some base) None ofs) r') | _ => None end);
      [reflexivity|]. by rewrite bytereg_r.
  - intros d Hwf. eexists; split; [reflexivity|]. split; [done|].
    cbn [write_ea set_mem dmem addr_of]. rewrite Z.add_0_r, store_u64.
    destruct Hw as [->|[->|[->|[->|[]]]]]; cbn [read_reg wbits wbytes].
    + exact (store_wrap 1 _ _ _).
    + exact (store_wrap 2 _ _ _).
    + exact (store_wrap 4 _ _ _).
    + exact (store_wrap 8 _ _ _).
Qed.

(** Copying to the scratch register and swapping its low bytes. *)
Definition swaps_low (n : nat) (src dst : Z) (d d' : dstate) : Prop :=
  wrap (8 * Z.of_nat n) (regs d' dst) = bswap_value n (regs d src) /\ same_but dst d d'.

Lemma mov_computes t ret arg :
  reg_ok ret -> reg_ok arg ->
  computes (tcg_out_mov t ret arg) (fun d d' =>
    wrap (wsize t) (regs d' ret) = wrap (wsize t) (regs d arg) /\ same_but ret d d').
Proof.
  intros Hr Ha. eapply straight_computes; [by apply straight_mov|]. intros d Hwf.
  unfold mov_effect. destruct (Z.eqb_spec arg ret) as [->|Hne]; cbn [negb].
  - by exists d.
  - eexists; split; [reflexivity|]. split; [|split; [regs_other|done]].
    rewrite regs_write_same, wrap_wrap. cbn [read_ea]. by rewrite read_reg_t, wrap_wrap.
Qed.

Lemma rolw_low_computes r :
  reg_ok r -> computes (tcg_out_rolw_8 r) (swaps_low 2 r r).
Proof.
  intros Hr. apply computes_one with (i := IShift Rol W16 (EReg r) (Some 8));
    [by apply straight_rolw_8|]. intros d Hwf. eexists; split; [reflexivity|].
  unfold shift_flags. change (Z.land 8 31) with 8. cbn [Z.eqb].
  split; [|split; [intros; cbn [set_flags regs]; by apply regs_write_other|done]].
  cbn [set_flags regs write_ea write_reg set_reg read_ea read_reg wbits]. unfold upd.
  change (8 * Z.of_nat 2) with 16. rewrite Z.eqb_refl, wrap_low by lia.
  rewrite rol8_bswap by (by apply wrap_range).
  rewrite wrap_id by apply (bswap_range 2). apply (bswap_wrap 2).
Qed.

Lemma bswap_low_computes t r :
  reg_ok r ->
  computes (match t with TCG_TYPE_I32 => tcg_out_bswap32 | TCG_TYPE_I64 => tcg_out_bswap64 end r)
    (swaps_low (wbytes (twidth t)) r r).
Proof.
  intros Hr. destruct t;
    [apply computes_one with (i := IBswap W32 r); [by apply straight_bswap32|]
    |apply computes_one with (i := IBswap W64 r); [by apply straight_bswap64|]];
    (intros d Hwf; eexists; split; [reflexivity|]; split; [|split; [regs_other|done]]).
  - rewrite (regs_write_same TCG_TYPE_I32). cbn [read_reg twidth wbits wbytes].
    change (8 * Z.of_nat 4) with 32. rewrite wrap_wrap, (bswap_wrap 4).
    apply wrap_id, (bswap_range 4).
  - rewrite (regs_write_same TCG_TYPE_I64). cbn [read_reg twidth wbits wbytes].
    change (8 * Z.of_nat 8) with 64. rewrite wrap_wrap, (bswap_wrap 8).
    apply wrap_id, (bswap_range 8).
Qed.

Lemma swap_seq_computes m n t src dst :
  reg_ok src -> reg_ok dst -> 0 < 8 * Z.of_nat n <= wsize t ->
  computes m (swaps_low n dst dst) ->
  computes (tcg_out_mov t dst src ;; m) (swaps_low n src dst).
Proof.
  intros Hs Hd Hn Hm. eapply computes_seq; [by apply mov_computes|exact Hm|].
  intros d d1 d2 _ [E1 [O1 M1]] [E2 [O2 M2]]. split; [|split; [|congruence]].
  - rewrite E2, <- bswap_wrap, <- (bswap_wrap n (regs d src)). f_equal.
    rewrite <- (wrap_wrap_le _ (wsize t)), E1, wrap_wrap_le by lia. done.
  - intros r' Hr'. by rewrite O2, O1.
Qed.

(** A store of swapped bytes through the scratch register. *)
Lemma swap_store_computes w t m datalo base ofs memop :
  reg_ok datalo -> reg_ok base -> in_s 32 ofs -> base <> TCG_REG_L0 ->
  w ∈ [W16; W32; W64] -> testb memop MO_BSWAP = true -> mo_bytes memop = wbytes w ->
  8 * Z.of_nat (wbytes w) <= wsize t ->
  computes m (swaps_low (wbytes w) TCG_REG_L0 TCG_REG_L0) ->
  computes ((tcg_out_mov t TCG_REG_L0 datalo ;; m) ;;
            tcg_out_modrm_offset
              (match w with W8 => OPC_MOVB_EvGv + P_REXB_R | W16 => OPC_MOVL_EvGv + P_DATA16
               | W32 => OPC_MOVL_EvGv | _ => OPC_MOVL_EvGv + P_REXW end) TCG_REG_L0 base ofs)
    (stores datalo base ofs memop).
Proof.
  intros Hd Hb Ho Hne Hw Hsw Hn Ht Hm.
  assert (0 < Z.of_nat (wbytes w)) as Hpos by (destruct w; cbn; lia).
  eapply computes_seq.
  - apply (swap_seq_computes m (wbytes w) t); [done|opc_side|lia|exact Hm].
  - apply (store_computes w TCG_REG_L0 base ofs); [opc_side|done|done|].
    rewrite elem_of_cons. by right.
  - intros d d1 d2 _ [E1 [O1 M1]] [O2 M2]. split.
    + intros r [Hr|Hr]; [|congruence]. rewrite O2. by apply O1.
    + rewrite M2, <- store_wrap, E1, (O1 base), M1 by done. unfold st_mem, mo_bswap.
      by rewrite Hsw, Hn.
Qed.

Lemma plain_store_computes w datalo base ofs memop :
  reg_ok datalo -> reg_ok base -> in_s 32 ofs ->
  w ∈ [W8; W16; W32; W64] -> testb memop MO_BSWAP = false \/ w = W8 ->
  mo_bytes memop = wbytes w ->
  computes (tcg_out_modrm_offset
              (match w with W8 => OPC_MOVB_EvGv + P_REXB_R | W16 => OPC_MOVL_EvGv + P_DATA16
               | W32 => OPC_MOVL_EvGv | _ => OPC_MOVL_EvGv + P_REXW end) datalo base ofs)
    (stores datalo base ofs memop).
Proof.
  intros Hd Hb Ho Hw Hsw Hn.
  eapply computes_ext; [by apply (store_computes w datalo base ofs)|].
  intros d d' Hwf [O M]. split; [intros r _; apply O|]. rewrite M. unfold st_mem, mo_bswap.
  rewrite Hn. destruct (testb memop MO_BSWAP); [|done]. destruct Hsw as [?| ->]; [done|].
  cbn [wbytes]. rewrite <- (store_wrap 1), <- (bswap_wrap 1).
  by rewrite bswap_one by (by apply wrap_range).
Qed.

Lemma computes_skip_l m R : computes m R -> computes (when_out false skip ;; m) R.
Proof.
  intros H. eapply computes_seq; [eapply straight_computes with (R := eq);
    [apply straight_skip|by intros d _; exists d]|exact H|]. by intros d d1 d2 _ <- H1.
Qed.

Lemma st_direct_computes datalo base ofs memop :
  reg_ok datalo -> reg_ok base -> in_s 32 ofs -> 0 <= memop < 16 ->
  (testb memop MO_BSWAP = true -> base <> TCG_REG_L0) ->
  computes (tcg_out_qemu_st_direct datalo base ofs memop) (stores datalo base ofs memop).
Proof.
  intros Hd Hb Ho Hm Hne.
  assert (Hp : forall w, w ∈ [W8; W16; W32; W64] -> _) by
    (intros w Hw; exact (plain_store_computes w datalo base ofs memop Hd Hb Ho Hw)).
  assert (Hs : forall w t m, w ∈ [W16; W32; W64] -> testb memop MO_BSWAP = true -> _) by
    (intros w t m Hw Hx;
     exact (swap_store_computes w t m datalo base ofs memop Hd Hb Ho (Hne Hx) Hw Hx)).
  pose proof (rolw_low_computes TCG_REG_L0 ltac:(opc_side)) as Rw.
  pose proof (bswap_low_computes TCG_TYPE_I32 TCG_REG_L0 ltac:(opc_side)) as Bl.
  pose proof (bswap_low_computes TCG_TYPE_I64 TCG_REG_L0 ltac:(opc_side)) as Bq.
  each_reg memop Hm;
    first [ apply (Hp W8); [in_list|by right|done]
          | apply computes_skip_l, (Hp W16); [in_list|by left|done]
          | apply computes_skip_l, (Hp W32); [in_list|by left|done]
          | apply computes_skip_l, (Hp W64); [in_list|by left|done]
          | apply (Hs W16 TCG_TYPE_I32 _); [in_list|done|done|cbn; lia|exact Rw]
          | apply (Hs W32 TCG_TYPE_I32 _); [in_list|done|done|cbn; lia|exact Bl]
          | apply (Hs W64 TCG_TYPE_I64 _); [in_list|done|done|cbn; lia|exact Bq] ].
Qed.
