(* ===== verification/MemTrace.v ===== *)
(** * Tracing of guest loads and stores

    Which requests [tcg_out_qemu_ld] and [tcg_out_qemu_st] honour: on a TLB hit
    the access happens as without tracing and every requested property of it is
    in the shadow area of the CPU state; nothing else changes.  On a miss the
    code continues at the slow path, with the guest address in the second
    argument register. *)

From S2P Require Import Prelude QtraceDefs IContext Interpret X86 TcgOut TcgEnc TcgEmit TcgCond.
From S2P Require Import TlbLoad QemuLdSt.

(** ** Requests in the index operand *)

(** Clearing one request leaves another. *)
Lemma land_cleared x a b : Z.land a b = 0 -> Z.land (Z.land x (Z.lnot a)) b = Z.land x b.
Proof.
  intros H. apply Z.bits_inj'. intros n Hn. rewrite !Z.land_spec, Z.lnot_spec by done.
  assert (Z.testbit a n && Z.testbit b n = false) as E
    by (rewrite <- Z.land_spec, H; apply Z.bits_0).
  destruct (Z.testbit x n), (Z.testbit a n), (Z.testbit b n); done.
Qed.

Section Trace.
Context `{L : CPULayout}.

(** The four lookups, by the address bits of the request. *)
Definition tlb_select (a p ap maddrs addrlo mem_index s_bits which : Z) : out Z :=
  if negb (maddrs =? 0) then
    if maddrs =? a then tcg_out_tlb_load_trace_vma addrlo mem_index s_bits which
    else if maddrs =? p then tcg_out_tlb_load_trace_pma addrlo mem_index s_bits which
    else if maddrs =? ap then tcg_out_tlb_load_trace_vpma addrlo mem_index s_bits which
    else mret 0
  else tcg_out_tlb_load addrlo mem_index s_bits which.

Lemma tlb_select_code i t addrlo mem_index s_bits which :
  i = 5 \/ i = 9 ->
  tlb_select (2 ^ i) (2 ^ (i + 1)) (Z.lor (2 ^ i) (2 ^ (i + 1)))
    (Z.land t (Z.lor (2 ^ i) (2 ^ (i + 1)))) addrlo mem_index s_bits which =
  tlb_code (Z.testbit t i) (Z.testbit t (i + 1)) addrlo mem_index s_bits which.
Proof.
  intros Hi. destruct (tlb_load_code addrlo mem_index s_bits which) as (E1 & E2 & E3 & E4).
  unfold tlb_select. rewrite E1, E2, E3, E4.
  rewrite Z.land_lor_distr_r, !land_pow2 by lia.
  destruct (Z.testbit t i), (Z.testbit t (i + 1)), Hi as [->| ->]; reflexivity.
Qed.
(** ** The shadow area *)

Definition shadow_base (env which : Z) : Z :=
  env + (if isfetch which then ofs_fetch_shadow else ofs_store_shadow).

Lemma sh_addr_base env which f :
  sh_addr env which f = shadow_base env which + shadow_field_ofs f.
Proof.
  unfold sh_addr, shadow_base, shadow_of, fetch_shadow, store_shadow.
  destruct (isfetch which); lia.
Qed.

Lemma shadow_field_range f : 0 <= shadow_field_ofs f <= 32.
Proof. destruct f; cbn; lia. Qed.

#[export] Instance shadow_field_eq_dec : EqDecision shadow_field.
Proof. solve_decision. Defined.

(** Different fields do not overlap. *)
Lemma fields_sep env which f g n k :
  f <> g -> (0 < n <= 8)%nat -> (0 < k <= 8)%nat ->
  sep n (sh_addr env which f) k (sh_addr env which g).
Proof.
  intros Hne Hn Hk. rewrite !sh_addr_base.
  assert (shadow_field_ofs f + 8 <= shadow_field_ofs g \/
          shadow_field_ofs g + 8 <= shadow_field_ofs f) as [H|H]
    by (destruct f, g; cbn; congruence || lia).
  - pose proof (shadow_field_range f). pose proof (shadow_field_range g).
    apply sep_offsets; lia.
  - pose proof (shadow_field_range f). pose proof (shadow_field_range g).
    apply sep_sym, sep_offsets; lia.
Qed.

(** A range that avoids the shadow area avoids its fields. *)
Lemma sep_field n a env which f :
  (0 < n)%nat -> sep n a 40 (shadow_base env which) -> sep n a 8 (sh_addr env which f).
Proof.
  intros Hn [H1 H2]. rewrite sh_addr_base. pose proof (shadow_field_range f) as Hf.
  set (b := shadow_base env which) in *. set (o := shadow_field_ofs f) in *.
  unfold sep, wrap in *.
  set (D := (b - a) mod 2 ^ 64) in *.
  assert ((a - b) mod 2 ^ 64 = 2 ^ 64 - D) as E2.
  { replace (a - b) with (- (b - a)) by lia. rewrite Z.mod_opp_l_nz; [done|lia|].
    fold D. lia. }
  rewrite E2 in H2.
  assert (0 <= D < 2 ^ 64) as HD by (apply Z.mod_pos_bound; lia).
  split.
  - replace (b + o - a) with (b - a + o) by lia. rewrite Zplus_mod. fold D.
    rewrite (Z.mod_small o) by lia. rewrite Z.mod_small by lia. lia.
  - replace (a - (b + o)) with (a - b - o) by lia. rewrite Zminus_mod, E2.
    rewrite (Z.mod_small o) by lia. rewrite Z.mod_small by lia. lia.
Qed.

(** The recorded values; [None] for a property that is not requested. *)
Definition shadow_write (env which : Z) (rec : shadow_field -> option Z) (f : shadow_field)
    (m : Z -> Z) : Z -> Z :=
  match rec f with Some v => store 8 (sh_addr env which f) v m | None => m end.

Definition shadow_order : list shadow_field :=
  [sf_bsize; sf_vaddr; sf_paddr; sf_prevalue; sf_pstvalue].

Definition shadow_writes (env which : Z) (rec : shadow_field -> option Z) (m : Z -> Z)
    : Z -> Z :=
  foldl (fun m f => shadow_write env which rec f m) m shadow_order.

Lemma load_shadow_write n a env which rec f m :
  sep n a 8 (sh_addr env which f) -> load n a (shadow_write env which rec f m) = load n a m.
Proof. intros H. unfold shadow_write. destruct (rec f); [|done]. by apply load_store_other. Qed.

Lemma load_shadow_write_same env which rec f m :
  load 8 (sh_addr env which f) (shadow_write env which rec f m) =
  match rec f with Some v => u64 v | None => load 8 (sh_addr env which f) m end.
Proof. unfold shadow_write. destruct (rec f); [|done]. by apply (load_store_same 8). Qed.

Lemma load_shadow_write_field env which rec f g m :
  load 8 (sh_addr env which f) (shadow_write env which rec g m) =
  match (if decide (f = g) then rec g else None) with
  | Some v => u64 v
  | None => load 8 (sh_addr env which f) m
  end.
Proof.
  destruct (decide (f = g)) as [->|Hne]; [apply load_shadow_write_same|].
  apply load_shadow_write, fields_sep; [done|lia|lia].
Qed.

(** What the shadow area holds afterwards. *)
Lemma load_shadow_writes env which rec f m :
  load 8 (sh_addr env which f) (shadow_writes env which rec m) =
  match rec f with Some v => u64 v | None => load 8 (sh_addr env which f) m end.
Proof.
  unfold shadow_writes, shadow_order. cbn [foldl].
  rewrite !load_shadow_write_field. destruct f; cbn [decide shadow_field_eq_dec];
    repeat case_decide; try congruence; by destruct (rec _).
Qed.

Lemma load_shadow_writes_none n env which rec f m :
  (0 < n <= 8)%nat -> rec f = None ->
  load n (sh_addr env which f) (shadow_writes env which rec m) =
  load n (sh_addr env which f) m.
Proof.
  intros Hn Hf. unfold shadow_writes, shadow_order. cbn [foldl].
  assert (forall g m, load n (sh_addr env which f) (shadow_write env which rec g m) =
            load n (sh_addr env which f) m) as H; [|by rewrite !H].
  intros g m'. destruct (decide (f = g)) as [<-|Hne]; [unfold shadow_write; by rewrite Hf|].
  apply load_shadow_write, fields_sep; [done|lia|lia].
Qed.

Lemma load_shadow_writes_other n a env which rec m :
  (0 < n)%nat -> sep n a 40 (shadow_base env which) ->
  load n a (shadow_writes env which rec m) = load n a m.
Proof.
  intros Hn Hs. unfold shadow_writes, shadow_order. cbn [foldl].
  by rewrite !load_shadow_write by (by apply sep_field).
Qed.

(** ** Code with one branch to the slow path *)

(** [m] emits code with a hole for the displacement of a branch and returns the
    address of the hole.  With a displacement in the hole, the code runs to its
    end if [hit] holds of the first state, and to the target of the branch
    otherwise. *)
Definition branches (m : out Z) (hit : dstate -> bool) (Rhit Rmiss : dstate -> dstate -> Prop)
    : Prop :=
  forall s, exists b1 hole b2, length hole = 4%nat /\
    let label := code_ptr s + Z.of_nat (length b1) in
    m s = Ok (label, add_code (b1 ++ hole ++ b2) s) /\
    forall cd d rel, wf d -> code_at cd (code_ptr s) (b1 ++ bytes_le 4 rel ++ b2) ->
      exists pc' d', steps cd (code_ptr s, d) (pc', d') /\ wf d' /\
        if hit d then pc' = label + 4 + Z.of_nat (length b2) /\ Rhit d d'
        else pc' = u64 (label + 4 + s32 rel) /\ Rmiss d d'.

Lemma wf_reached cd pc d pc' d' : steps cd (pc, d) (pc', d') -> wf d -> wf d'.
Proof. intros H Hwf. exact (wf_steps cd (pc, d) (pc', d') Hwf H). Qed.

(** Straight code before. *)
Lemma computes_branches m1 (m : out Z) hit R1 (Rh Rm R Rmiss : dstate -> dstate -> Prop) :
  computes m1 R1 -> branches m hit Rh Rm ->
  (forall d d1, wf d -> R1 d d1 -> hit d1 = hit d) ->
  (forall d d1 d2, wf d -> wf d1 -> R1 d d1 -> Rh d1 d2 -> R d d2) ->
  (forall d d1 d2, wf d -> wf d1 -> R1 d d1 -> Rm d1 d2 -> Rmiss d d2) ->
  branches (m1 ;; m) hit R Rmiss.
Proof.
  intros H1 Hm Hinv HR HRm s.
  destruct (H1 s) as (c1 & E1 & S1).
  destruct (Hm (add_code c1 s)) as (b1 & hole & b2 & Hh & E & S).
  exists (c1 ++ b1), hole, b2. split; [done|]. cbn zeta in *.
  rewrite !code_ptr_add in *. rewrite length_app, Nat2Z.inj_add, Z.add_assoc. split.
  { unfold mbind, out_bind. rewrite E1, E. by rewrite <- !add_code_app, <- !app_assoc. }
  intros cd d rel Hwf Hc. rewrite <- !app_assoc in Hc. apply code_at_app in Hc as [Hc1 Hc].
  destruct (S1 cd d Hwf Hc1) as (d1 & T1 & Q1). pose proof (wf_reached _ _ _ _ _ T1 Hwf) as W1.
  destruct (S cd d1 rel W1 Hc) as (pc2 & d2 & T2 & W2 & Q2). rewrite (Hinv d d1) in Q2 by done.
  exists pc2, d2. split; [by etrans|]. split; [done|].
  destruct (hit d); destruct Q2 as [-> Q2]; eauto.
Qed.

(** Straight code behind. *)
Lemma branches_computes m (m2 : out unit) hit R2 (Rh Rm R : dstate -> dstate -> Prop) :
  branches m hit Rh Rm -> computes m2 R2 ->
  (forall d d1 d2, wf d -> wf d1 -> Rh d d1 -> R2 d1 d2 -> R d d2) ->
  branches (label ← m; m2 ;; mret label) hit R Rm.
Proof.
  intros Hm H2 HR s. destruct (Hm s) as (b1 & hole & b2 & Hh & E & S).
  destruct (H2 (add_code (b1 ++ hole ++ b2) s)) as (c2 & E2 & S2).
  exists b1, hole, (b2 ++ c2). split; [done|]. cbn zeta in *. split.
  { unfold mbind, out_bind. rewrite E, E2. by rewrite <- !add_code_app, <- !app_assoc. }
  intros cd d rel Hwf Hc. rewrite !app_assoc in Hc.
  apply code_at_app in Hc as [Hcb Hc2]. rewrite <- !app_assoc in Hcb.
  destruct (S cd d rel Hwf Hcb) as (pc1 & d1 & T1 & W1 & Q1).
  destruct (hit d) eqn:Hhit; destruct Q1 as [-> Q1];
    [|exists (u64 (code_ptr s + Z.of_nat (length b1) + 4 + s32 rel)), d1; done].
  rewrite !code_ptr_add in S2.
  assert (Z.of_nat (length (b1 ++ hole ++ b2)) =
          Z.of_nat (length b1) + 4 + Z.of_nat (length b2)) as El
    by (rewrite !length_app, Hh; lia).
  rewrite El, !Z.add_assoc in S2. destruct (S2 cd d1 W1) as (d2 & T2 & Q2).
  { eapply (eq_ind _ (fun x => code_at cd x c2) Hc2).
    rewrite !length_app, length_bytes_le. lia. }
  exists (code_ptr s + Z.of_nat (length b1) + 4 + Z.of_nat (length (b2 ++ c2))), d2.
  split; [|split; [by eapply wf_reached|split; [done|by eapply HR]]].
  etrans; [exact T1|]. rewrite length_app, Nat2Z.inj_add, Z.add_assoc. exact T2.
Qed.

Definition guest_hit (addrlo mem_index s_bits which : Z) (d : dstate) : bool :=
  tlb_hit (dmem d) (regs d TCG_AREG0) mem_index s_bits which (regs d addrlo).

Definition guest_host (addrlo mem_index : Z) (d : dstate) : Z :=
  host_addr (dmem d) (regs d TCG_AREG0) mem_index (regs d addrlo).

Lemma tlb_branches vma pma addrlo mem_index s_bits which :
  layout_ok -> access_ok addrlo mem_index s_bits which ->
  branches (tlb_code vma pma addrlo mem_index s_bits which)
    (guest_hit addrlo mem_index s_bits which)
    (fun d d' =>
       (forall r, r <> TCG_REG_L0 -> r <> TCG_REG_L1 -> regs d' r = regs d r) /\
       regs d' TCG_REG_L1 = guest_host addrlo mem_index d /\
       dmem d' = mem_pma pma (regs d TCG_AREG0) which (guest_host addrlo mem_index d)
                   (mem_vma vma (regs d TCG_AREG0) which (regs d addrlo) (dmem d)))
    (fun d d' =>
       (forall r, r <> TCG_REG_L0 -> r <> TCG_REG_L1 -> regs d' r = regs d r) /\
       regs d' TCG_REG_L1 = regs d addrlo /\
       dmem d' = mem_vma vma (regs d TCG_AREG0) which (regs d addrlo) (dmem d)).
Proof.
  intros Hl Ha s.
  destruct (tlb_code_spec vma pma addrlo mem_index s_bits which s Hl Ha)
    as (b1 & hole & b2 & Hh & E & S). cbn zeta in *.
  exists (b1 ++ [0x0f; 0x85]), hole, b2. split; [done|].
  rewrite length_app, Nat2Z.inj_add, Z.add_assoc. cbn [length]. rewrite <- !app_assoc.
  split; [exact E|]. intros cd d rel Hwf Hc.
  rewrite <- app_assoc in Hc.
  destruct (S cd d rel Hwf Hc) as (pc' & d' & T & W & O & Q). exists pc', d'.
  split; [exact T|]. split; [done|]. unfold guest_hit, guest_host.
  destruct (tlb_hit _ _ _ _ _ _); destruct Q as (Q1 & Q2 & Q3); split_and!; done.
Qed.

(** ** Recording a value *)

Definition keeps_regs (rs : list Z) (d d' : dstate) : Prop :=
  forall r, r ∉ rs -> regs d' r = regs d r.

Lemma computes_when b m (R : dstate -> dstate -> Prop) :
  computes m R -> computes (when_out b m) (fun d d' => if b then R d d' else d' = d).
Proof.
  intros H. destruct b; [exact H|]. eapply straight_computes; [apply straight_skip|].
  intros d _. by exists d.
Qed.

Lemma movi_computes t ret arg :
  reg_ok ret ->
  computes (tcg_out_movi t ret arg) (sets_reg ret (wrap (wbits (twidth t)) arg)).
Proof.
  intros Hr. eapply straight_computes; [by apply straight_movi|].
  intros d _. destruct (movi_effect_some t ret arg d) as (d' & E & M & O & R). by exists d'.
Qed.

(** Recording a register in a field of the shadow area. *)
Lemma out_shadow_computes b r which f :
  layout_ok -> reg_ok r ->
  computes (when_out b (out_shadow r (shadow_of which f)))
    (fun d d' => (forall r', regs d' r' = regs d r') /\
       dmem d' = shadow_write (regs d TCG_AREG0) which
                   (fun _ => if b then Some (regs d r) else None) f (dmem d)).
Proof.
  intros Hl Hr. eapply computes_ext; [apply computes_when|].
  - apply (computes_one _ (IMovMR W64 (EMem (Some TCG_AREG0) None (shadow_of which f)) r)
      (fun d d' => sets_mem (store 8 (u64 (regs d TCG_AREG0 + shadow_of which f))
         (regs d r) (dmem d)) d d')).
    + pose proof (shadow_of_range which f Hl). apply straight_modrm_offset; try opc_side.
      unfold in_s. lia.
    + intros d Hwf. by apply st_sets.
  - cbv beta. intros d d' _. unfold shadow_write. destruct b; [|by intros ->].
    intros [O M]. by rewrite store_u64 in M.
Qed.

(** Recording the size of the access. *)
Lemma out_bsize_computes b s_bits which :
  layout_ok -> 0 <= s_bits <= 3 ->
  computes (when_out b (tcg_out_movi TCG_TYPE_I32 TCG_REG_L0 (Z.shiftl 1 s_bits) ;;
                        out_shadow TCG_REG_L0 (shadow_of which sf_bsize)))
    (fun d d' => keeps_regs [TCG_REG_L0] d d' /\
       dmem d' = shadow_write (regs d TCG_AREG0) which
                   (fun _ => if b then Some (2 ^ s_bits) else None) sf_bsize (dmem d)).
Proof.
  intros Hl Hb. eapply computes_ext; [apply computes_when; eapply computes_seq|].
  - apply (movi_computes TCG_TYPE_I32 TCG_REG_L0). opc_side.
  - apply (out_shadow_computes true TCG_REG_L0 which sf_bsize Hl). opc_side.
  - intros d d1 d2 _ (R1 & O1 & M1) (O2 & M2).
    assert (keeps_regs [TCG_REG_L0] d d2 /\
            dmem d2 = shadow_write (regs d TCG_AREG0) which
                        (fun _ => Some (2 ^ s_bits)) sf_bsize (dmem d)) as H; [|exact H].
    split; [intros r Hr; rewrite O2; apply O1; by intros ->; apply Hr, list_elem_of_here|].
    rewrite M2, R1, M1, O1 by done.
    assert (s_bits = 0 \/ s_bits = 1 \/ s_bits = 2 \/ s_bits = 3) as Hs by lia.
    by destruct Hs as [->|[->|[->| ->]]].
  - cbv beta. intros d d' _. destruct b; [done|]. by intros ->.
Qed.

(** ** Loads *)

(** What the shadow area of an access records. *)
Definition recorded (sz vma pma pre pst : bool) (s_bits addr host v0 v1 : Z)
    (f : shadow_field) : option Z :=
  match f with
  | sf_bsize => if sz then Some (2 ^ s_bits) else None
  | sf_vaddr => if vma then Some addr else None
  | sf_paddr => if pma then Some (u64 (host + 10000)) else None
  | sf_prevalue => if pre then Some v0 else None
  | sf_pstvalue => if pst then Some v1 else None
  end.

(** The lookup is not affected by what has been recorded. *)
Lemma guest_hit_frame addrlo mem_index s_bits which rec f d d1 :
  layout_ok -> access_ok addrlo mem_index s_bits which -> keeps_regs [TCG_REG_L0] d d1 ->
  dmem d1 = shadow_write (regs d TCG_AREG0) which rec f (dmem d) ->
  guest_hit addrlo mem_index s_bits which d1 = guest_hit addrlo mem_index s_bits which d /\
  guest_host addrlo mem_index d1 = guest_host addrlo mem_index d.
Proof.
  intros Hl [Ha H0 H1 Hm Hb Hw] Hk M. unfold guest_hit, guest_host, tlb_hit, host_addr.
  rewrite M, !(Hk _) by (rewrite elem_of_cons, elem_of_nil; intros [?|[]]; done).
  rewrite !load_shadow_write; [done| |]; apply shadow_tlb_sep; try done.
  destruct Hw as [->| ->]; cbv; split; congruence.
Qed.

(** The part of [tcg_out_qemu_ld] and [tcg_out_qemu_st] before the access. *)
Definition access_start (sz vma pma : bool) (addrlo mem_index s_bits which : Z) : out Z :=
  when_out sz (tcg_out_movi TCG_TYPE_I32 TCG_REG_L0 (Z.shiftl 1 s_bits) ;;
               out_shadow TCG_REG_L0 (shadow_of which sf_bsize)) ;;
  tlb_code vma pma addrlo mem_index s_bits which.

Definition started (sz vma pma : bool) (addrlo mem_index s_bits which : Z) (l1 : dstate -> Z)
    (d d' : dstate) : Prop :=
  keeps_regs [TCG_REG_L0; TCG_REG_L1] d d' /\ regs d' TCG_REG_L1 = l1 d /\
  dmem d' = shadow_writes (regs d TCG_AREG0) which
              (recorded sz vma pma false false s_bits (regs d addrlo)
                 (guest_host addrlo mem_index d) 0 0) (dmem d).

Lemma access_start_branches sz vma pma addrlo mem_index s_bits which :
  layout_ok -> access_ok addrlo mem_index s_bits which ->
  branches (access_start sz vma pma addrlo mem_index s_bits which)
    (guest_hit addrlo mem_index s_bits which)
    (started sz vma pma addrlo mem_index s_bits which (guest_host addrlo mem_index))
    (started sz vma false addrlo mem_index s_bits which (fun d => regs d addrlo)).
Proof.
  intros Hl Ha. pose proof Ha as [_ H0 H1 _ Hb _].
  assert (forall r, r ∉ [TCG_REG_L0; TCG_REG_L1] -> r <> TCG_REG_L0 /\ r <> TCG_REG_L1 /\
            r ∉ [TCG_REG_L0]) as Hn.
  { intros r. rewrite !elem_of_cons, elem_of_nil. tauto. }
  assert (forall r, r <> TCG_REG_L0 -> r ∉ [TCG_REG_L0]) as Hn0.
  { intros r Hr. rewrite elem_of_cons, elem_of_nil. tauto. }
  eapply computes_branches; [by apply (out_bsize_computes sz s_bits which)
    |by apply (tlb_branches vma pma)|..]; cbv beta.
  - intros d d1 _ [O1 M1]. by eapply guest_hit_frame.
  - intros d d1 d2 _ _ [O1 M1] (O2 & R2 & M2).
    destruct (guest_hit_frame addrlo mem_index s_bits which _ _ d d1 Hl Ha O1 M1) as [_ Eh].
    rewrite Eh in R2, M2. split_and!; [|done|].
    + intros r (Hr0 & Hr1 & Hr)%Hn. rewrite O2 by done. by apply O1.
    + rewrite M2, !(O1 _), M1 by (by apply Hn0). by destruct sz, vma, pma.
  - intros d d1 d2 _ _ [O1 M1] (O2 & R2 & M2). rewrite (O1 addrlo) in R2, M2 by (by apply Hn0).
    split_and!; [|done|].
    + intros r (Hr0 & Hr1 & Hr)%Hn. rewrite O2 by done. by apply O1.
    + rewrite M2, !(O1 _), M1 by (by apply Hn0). by destruct sz, vma.
Qed.

Definition rcomp (R1 R2 : dstate -> dstate -> Prop) (d d2 : dstate) : Prop :=
  exists d1, R1 d d1 /\ R2 d1 d2.

Lemma computes_comp m1 m2 R1 R2 :
  computes m1 R1 -> computes m2 R2 -> computes (m1 ;; m2) (rcomp R1 R2).
Proof. intros H1 H2. eapply computes_seq; [exact H1|exact H2|]. intros d d1 d2 _. by exists d1. Qed.

Definition ld_body (pre pst : bool) (datalo opc : Z) : out unit :=
  tcg_out_qemu_ld_direct datalo TCG_REG_L1 0 opc ;;
  when_out pre (out_shadow datalo (shadow_of ofs_addr_read sf_prevalue)) ;;
  when_out pst (out_shadow datalo (shadow_of ofs_addr_read sf_pstvalue)).

Lemma ld_body_computes pre pst datalo opc :
  layout_ok -> reg_ok datalo -> datalo <> TCG_AREG0 -> memop_ok opc ->
  computes (ld_body pre pst datalo opc)
    (fun d d' =>
       let v := ld_value opc (dmem d) (regs d TCG_REG_L1) in
       let env := regs d TCG_AREG0 in
       keeps_regs [datalo] d d' /\ regs d' datalo = v /\
       dmem d' = shadow_write env ofs_addr_read (fun _ => if pst then Some v else None) sf_pstvalue
                   (shadow_write env ofs_addr_read (fun _ => if pre then Some v else None)
                      sf_prevalue (dmem d))).
Proof.
  intros Hl Hd Hne Hm. eapply computes_ext.
  - apply computes_comp; [|apply computes_comp; by apply out_shadow_computes].
    apply ld_direct_computes; [done|opc_side|by vm_compute|done].
  - cbv beta zeta. intros d d3 _ (d1 & (R1 & O1 & M1) & d2 & (O2 & M2) & O3 & M3).
    rewrite Z.add_0_r in R1. split_and!.
    + intros r Hr. rewrite O3, O2. apply O1. by intros ->; apply Hr, list_elem_of_here.
    + by rewrite O3, O2.
    + rewrite M3, M2, !O2, R1, (O1 TCG_AREG0), M1 by done. done.
Qed.

(** The emitters of an access, grouped in two ways. *)
Lemma access_regroup (m1 : out unit) (m2 : out Z) (m3 m4 m5 : out unit)
    (k : Z -> Z -> out unit) s :
  (m1 ;; label ← m2; m3 ;; m4 ;; m5 ;; raddr ← get_ptr; k raddr label) s =
  (label ← (label ← (m1 ;; m2); (m3 ;; m4 ;; m5) ;; mret label);
   raddr ← get_ptr; k raddr label) s.
Proof.
  unfold mbind, out_bind. destruct (m1 s) as [[? s1]|]; [|done].
  destruct (m2 s1) as [[? s2]|]; [|done]. destruct (m3 s2) as [[? s3]|]; [|done].
  destruct (m4 s3) as [[? s4]|]; [|done]. by destruct (m5 s4) as [[? s5]|].
Qed.

(** The whole load, up to the bookkeeping for the slow path. *)
Definition ld_fast (sz vma pma pre pst : bool) (datalo addrlo mem_index opc : Z) : out Z :=
  label ← access_start sz vma pma addrlo mem_index (Z.land opc MO_SIZE) ofs_addr_read;
  ld_body pre pst datalo opc ;; mret label.

Definition fetch_bit (t : Z) (f : shadow_field) : bool :=
  match f with
  | sf_vaddr => testb t QTRACE_MEMTRACE_FETCH_VMA
  | sf_paddr => testb t QTRACE_MEMTRACE_FETCH_PMA
  | sf_bsize => testb t QTRACE_MEMTRACE_FETCH_MSIZE
  | sf_prevalue => testb t QTRACE_MEMTRACE_FETCH_PREOP_VALUE
  | sf_pstvalue => testb t QTRACE_MEMTRACE_FETCH_PSTOP_VALUE
  end.

(** [tcg_out_qemu_ld] honours each request bit separately. *)
Lemma qemu_ld_code datalo addrlo opc idx s :
  let t := QTRACE_EXT_MEMTRACE idx in let mem_index := QTRACE_EXT_MEMINDEX idx in
  tcg_out_qemu_ld datalo addrlo opc idx s =
  (label ← ld_fast (fetch_bit t sf_bsize) (fetch_bit t sf_vaddr) (fetch_bit t sf_paddr)
             (fetch_bit t sf_prevalue) (fetch_bit t sf_pstvalue) datalo addrlo mem_index opc;
   raddr ← get_ptr;
   add_qemu_ldst_label true opc datalo addrlo mem_index raddr label) s.
Proof.
  cbn zeta. unfold tcg_out_qemu_ld, ld_fast, access_start, ld_body.
  set (t := QTRACE_EXT_MEMTRACE idx).
  unfold QTRACE_MEMTRACE_FETCH_EXT_MSIZE, QTRACE_MEMTRACE_FETCH_EXT_ADDRS,
    QTRACE_MEMTRACE_FETCH_EXT_PREOP_VALUE, QTRACE_MEMTRACE_FETCH_EXT_PSTOP_VALUE,
    QTRACE_RESET_MEMTRACE_FETCH_ADDRS, QTRACE_RESET_MEMTRACE_FETCH_MSIZE,
    QTRACE_RESET_MEMTRACE_FETCH_PREOP_VALUE.
  cbv beta iota zeta. rewrite !land_cleared by done.
  pose proof (tlb_select_code 5 t addrlo (QTRACE_EXT_MEMINDEX idx) (Z.land opc MO_SIZE)
    ofs_addr_read ltac:(by left)) as Et.
  rewrite <- !testb_pow2 in Et by done.
  change (tlb_code (fetch_bit t sf_vaddr) (fetch_bit t sf_paddr)) with
    (tlb_code (testb t (2 ^ 5)) (testb t (2 ^ (5 + 1)))).
  rewrite <- Et. clear Et. exact (access_regroup _ _ _ _ _ (fun raddr label =>
    add_qemu_ldst_label true opc datalo addrlo (QTRACE_EXT_MEMINDEX idx) raddr label) s).
Qed.

(** Paging keeps the offset in the page: [x] is no physical address of [vaddr], if the page is
    at a page of the host. *)
Definition never_physical (vaddr host x : Z) : Prop :=
  host mod 2 ^ TARGET_PAGE_BITS = vaddr mod 2 ^ TARGET_PAGE_BITS ->
  forall pa, pa mod 2 ^ TARGET_PAGE_BITS = vaddr mod 2 ^ TARGET_PAGE_BITS -> x <> pa.

(** The address that is recorded as the physical one. *)
Lemma recorded_never_physical vaddr host : never_physical vaddr host (u64 (host + 10000)).
Proof.
  unfold never_physical, TARGET_PAGE_BITS, wrap. intros Hh pa Hpa E. rewrite <- Hh, <- E in Hpa.
  rewrite Z.mod_mod_divide in Hpa by (by exists (2 ^ 52)).
  change (2 ^ 12) with 4096 in Hpa. Z.to_euclidean_division_equations. lia.
Qed.

(** The state in which a load that hits ends: what was asked for is recorded, but for the
    physical address, where the host address plus 10000 is recorded. *)
Record ld_hit_post (t mem_index datalo addrlo opc : Z) (d d' : dstate) : Prop := {
  lh_value : regs d' datalo = ld_value opc (dmem d) (guest_host addrlo mem_index d);
  lh_regs : keeps_regs [TCG_REG_L0; TCG_REG_L1; datalo] d d';
  lh_shadow : forall f, f <> sf_paddr ->
    load 8 (sh_addr (regs d TCG_AREG0) ofs_addr_read f) (dmem d') =
    if fetch_bit t f then
      match f with
      | sf_bsize => Z.of_nat (mo_bytes opc)
      | sf_vaddr => regs d addrlo
      | _ => regs d' datalo
      end
    else load 8 (sh_addr (regs d TCG_AREG0) ofs_addr_read f) (dmem d);
  lh_paddr : let x := load 8 (sh_addr (regs d TCG_AREG0) ofs_addr_read sf_paddr) (dmem d') in
    if fetch_bit t sf_paddr then
      x = u64 (guest_host addrlo mem_index d + 10000) /\ never_physical (regs d addrlo) (guest_host addrlo mem_index d) x
    else x = load 8 (sh_addr (regs d TCG_AREG0) ofs_addr_read sf_paddr) (dmem d);
  lh_frame : forall n a, (0 < n)%nat ->
    sep n a 40 (shadow_base (regs d TCG_AREG0) ofs_addr_read) ->
    load n a (dmem d') = load n a (dmem d)
}.

Lemma memop_size opc : 0 <= Z.land opc MO_SIZE <= 3.
Proof.
  change MO_SIZE with (Z.ones 2). rewrite Z.land_ones by lia.
  pose proof (Z.mod_pos_bound opc (2 ^ 2)). lia.
Qed.

Lemma mo_bytes_pow opc :
  2 ^ Z.land opc MO_SIZE = Z.of_nat (mo_bytes opc) /\ (0 < mo_bytes opc <= 8)%nat.
Proof.
  pose proof (memop_size opc) as Hs. unfold mo_bytes.
  rewrite Z.shiftl_mul_pow2, Z.mul_1_l by lia.
  set (b := Z.land opc MO_SIZE) in *.
  assert (b = 0 \/ b = 1 \/ b = 2 \/ b = 3) as Hb by lia.
  destruct Hb as [->|[->|[->| ->]]]; cbn; lia.
Qed.

Definition ram_apart (which addrlo mem_index opc : Z) (d : dstate) : Prop :=
  sep (mo_bytes opc) (guest_host addrlo mem_index d) 40 (shadow_base (regs d TCG_AREG0) which).

Lemma ld_fast_branches t datalo addrlo mem_index opc :
  layout_ok -> reg_ok datalo -> datalo <> TCG_AREG0 -> memop_ok opc ->
  access_ok addrlo mem_index (Z.land opc MO_SIZE) ofs_addr_read ->
  branches (ld_fast (fetch_bit t sf_bsize) (fetch_bit t sf_vaddr) (fetch_bit t sf_paddr)
              (fetch_bit t sf_prevalue) (fetch_bit t sf_pstvalue) datalo addrlo mem_index opc)
    (guest_hit addrlo mem_index (Z.land opc MO_SIZE) ofs_addr_read)
    (fun d d' => wf d' -> ram_apart ofs_addr_read addrlo mem_index opc d ->
       ld_hit_post t mem_index datalo addrlo opc d d')
    (started (fetch_bit t sf_bsize) (fetch_bit t sf_vaddr) false addrlo mem_index
       (Z.land opc MO_SIZE) ofs_addr_read (fun d => regs d addrlo)).
Proof.
  intros Hl Hd Hne Hm Ha. destruct (mo_bytes_pow opc) as [Hpow Hn].
  eapply branches_computes; [by apply access_start_branches|by apply ld_body_computes|].
  cbv beta zeta. intros d d1 d2 Hwf _ (O1 & R1 & M1) (O2 & R2 & M2) W2 Hsep.
  assert (regs d1 TCG_AREG0 = regs d TCG_AREG0) as Ee
    by (by apply O1; rewrite !elem_of_cons, elem_of_nil; intros [?|[?|[]]]).
  rewrite Ee, R1 in *.
  assert (ld_value opc (dmem d1) (guest_host addrlo mem_index d) =
          ld_value opc (dmem d) (guest_host addrlo mem_index d)) as Ev.
  { unfold ld_value. rewrite M1, load_shadow_writes_other; [done|lia|exact Hsep]. }
  rewrite Ev in *. set (v := ld_value opc (dmem d) (guest_host addrlo mem_index d)) in *.
  assert (dmem d2 = shadow_writes (regs d TCG_AREG0) ofs_addr_read
            (recorded (fetch_bit t sf_bsize) (fetch_bit t sf_vaddr) (fetch_bit t sf_paddr)
               (fetch_bit t sf_prevalue) (fetch_bit t sf_pstvalue) (Z.land opc MO_SIZE)
               (regs d addrlo) (guest_host addrlo mem_index d) v v) (dmem d)) as M.
  { rewrite M2, M1. reflexivity. }
  split; [done| | | |].
  - intros r Hr. rewrite O2; [apply O1|]; intros Hin; apply Hr; rewrite !elem_of_cons in *; tauto.
  - intros f Hf. rewrite M, load_shadow_writes. clear M M1 M2.
    pose proof (wrap_id 64 _ (proj1 W2 datalo)) as Hv. rewrite R2 in Hv.
    destruct f; cbn [recorded]; destruct (fetch_bit t _); rewrite ?R2; try done.
    + apply wrap_id, Hwf.
    + rewrite Hpow. apply wrap_id. unfold in_u. lia.
  - rewrite M, load_shadow_writes. cbn [recorded]. destruct (fetch_bit t sf_paddr); [|done].
    rewrite wrap_wrap. split; [done|apply recorded_never_physical].
  - intros n a Hn0 Hs. rewrite M. by apply load_shadow_writes_other.
Qed.

(** The code of an access with the bookkeeping for its slow path. *)
Definition accesses (m : out unit) (s : TCGContext) (ld : bool)
    (opc datalo addrlo mem_index : Z) (hit : dstate -> bool)
    (Rhit Rmiss : dstate -> dstate -> Prop) : Prop :=
  exists b1 hole b2, length hole = 4%nat /\
    let label := code_ptr s + Z.of_nat (length b1) in
    let raddr := label + 4 + Z.of_nat (length b2) in
    m s = Ok (tt, set_ldst_labels
                (s.(ldst_labels) ++ [mkLdst ld opc datalo 0 addrlo 0 mem_index raddr label])
                (add_code (b1 ++ hole ++ b2) s)) /\
    forall cd d rel, wf d -> code_at cd (code_ptr s) (b1 ++ bytes_le 4 rel ++ b2) ->
      exists pc' d', steps cd (code_ptr s, d) (pc', d') /\ wf d' /\
        if hit d then pc' = raddr /\ Rhit d d'
        else pc' = u64 (label + 4 + s32 rel) /\ Rmiss d d'.

Lemma branches_accesses (m : out unit) (fast : out Z) s ld opc datalo addrlo mem_index hit
    (Rhit Rhit' Rmiss : dstate -> dstate -> Prop) :
  m s = (label ← fast; raddr ← get_ptr;
         add_qemu_ldst_label ld opc datalo addrlo mem_index raddr label) s ->
  branches fast hit Rhit Rmiss -> Z.of_nat (length s.(ldst_labels)) < TCG_MAX_QEMU_LDST ->
  (forall d d', wf d' -> Rhit d d' -> Rhit' d d') ->
  accesses m s ld opc datalo addrlo mem_index hit Rhit' Rmiss.
Proof.
  intros E Hb Hn HR. destruct (Hb s) as (b1 & hole & b2 & Hh & Ef & Hs). cbn zeta in *.
  exists b1, hole, b2. split; [done|]. cbn zeta. split.
  - rewrite E. unfold mbind, out_bind, get_ptr. rewrite Ef. unfold add_qemu_ldst_label.
    cbn [add_code set_code ldst_labels]. rewrite (proj2 (Z.ltb_lt _ _) Hn).
    rewrite code_ptr_add, !length_app, Hh. do 6 f_equal. lia.
  - intros cd d rel Hwf Hc. destruct (Hs cd d rel Hwf Hc) as (pc' & d' & T & W & Q).
    exists pc', d'. split; [done|]. split; [done|].
    destruct (hit d); destruct Q; split; eauto.
Qed.

(** A traced guest load.  On a TLB hit the emitted code continues at the
    return address recorded for the slow path, with the value of the load in
    [datalo]; every property the client asked for is in the fetch shadow area,
    the other fields of the area and all other memory are unchanged, and only
    [datalo] and the two scratch registers change.  On a miss it takes the branch
    whose displacement is at the recorded place, with the guest address in the
    second argument register. *)
Lemma qemu_ld_traced datalo addrlo opc idx s :
  let t := QTRACE_EXT_MEMTRACE idx in let mem_index := QTRACE_EXT_MEMINDEX idx in
  let s_bits := Z.land opc MO_SIZE in
  layout_ok -> reg_ok datalo -> datalo <> TCG_AREG0 -> memop_ok opc ->
  access_ok addrlo mem_index s_bits ofs_addr_read ->
  Z.of_nat (length s.(ldst_labels)) < TCG_MAX_QEMU_LDST ->
  accesses (tcg_out_qemu_ld datalo addrlo opc idx) s true opc datalo addrlo mem_index
    (guest_hit addrlo mem_index s_bits ofs_addr_read)
    (fun d d' => ram_apart ofs_addr_read addrlo mem_index opc d ->
       ld_hit_post t mem_index datalo addrlo opc d d')
    (started (fetch_bit t sf_bsize) (fetch_bit t sf_vaddr) false addrlo mem_index s_bits
       ofs_addr_read (fun d => regs d addrlo)).
Proof.
  cbn zeta. intros Hl Hd Hne Hm Ha Hn.
  eapply branches_accesses; [apply qemu_ld_code|by apply ld_fast_branches|done|].
  cbv beta. intros d d' W H Hr. by apply H.
Qed.

(** ** Stores *)

Definition st_body (pre pst : bool) (datalo opc : Z) : out unit :=
  when_out pre
    (tcg_out_qemu_ld_direct TCG_REG_L0 TCG_REG_L1 0 opc ;;
     tcg_out_qemu_st_direct TCG_REG_L0 TCG_AREG0 (shadow_of ofs_addr_write sf_prevalue) opc) ;;
  tcg_out_qemu_st_direct datalo TCG_REG_L1 0 opc ;;
  when_out pst
    (tcg_out_qemu_st_direct datalo TCG_AREG0 (shadow_of ofs_addr_write sf_pstvalue) opc).

(** The memory after a store with its two recordings, which have the width and
    the byte order of the access. *)
Definition st_body_mem (pre pst : bool) (opc env host v : Z) (m : Z -> Z) : Z -> Z :=
  let m := if pre then st_mem opc (sh_addr env ofs_addr_write sf_prevalue)
                         (ld_value opc m host) m else m in
  let m := st_mem opc host v m in
  if pst then st_mem opc (sh_addr env ofs_addr_write sf_pstvalue) v m else m.

Lemma st_body_computes pre pst datalo opc :
  layout_ok -> reg_ok datalo -> datalo <> TCG_REG_L0 -> memop_ok opc ->
  computes (st_body pre pst datalo opc)
    (fun d d' => keeps_regs [TCG_REG_L0] d d' /\
       dmem d' = st_body_mem pre pst opc (regs d TCG_AREG0) (regs d TCG_REG_L1)
                   (regs d datalo) (dmem d)).
Proof.
  intros Hl Hd Hne Hm. pose proof (proj1 Hm) as Hm'.
  pose proof (shadow_of_range ofs_addr_write sf_prevalue Hl) as Hpre.
  pose proof (shadow_of_range ofs_addr_write sf_pstvalue Hl) as Hpst.
  assert (forall r, r ∉ [TCG_REG_L0] -> r <> TCG_REG_L0) as Hn by (intros r Hr ->; apply Hr; in_list).
  eapply computes_ext.
  - apply computes_comp; [apply computes_when, computes_comp
                         |apply computes_comp; [|apply computes_when]].
    + apply ld_direct_computes; [opc_side|opc_side|by vm_compute|done].
    + apply st_direct_computes; [opc_side|opc_side|unfold in_s; lia|done|done].
    + apply st_direct_computes; [done|opc_side|by vm_compute|done|done].
    + apply st_direct_computes; [done|opc_side|unfold in_s; lia|done|done].
  - intros d d3 _ (d1 & H1 & d2 & (O2 & M2) & H3).
    assert (keeps_regs [TCG_REG_L0] d d1 /\
      dmem d1 = if pre then st_mem opc (sh_addr (regs d TCG_AREG0) ofs_addr_write sf_prevalue)
                  (ld_value opc (dmem d) (regs d TCG_REG_L1)) (dmem d) else dmem d) as [O1 M1].
    { destruct pre; [|by subst]. destruct H1 as (d0 & (R0 & O0 & M0) & O1 & M1).
      rewrite Z.add_0_r in R0. split; [intros r Hr%Hn; rewrite O1, O0; auto|].
      rewrite M1, R0, M0, O0 by done. reflexivity. }
    rewrite Z.add_0_r, M1, !(O1 _) in M2 by (rewrite elem_of_cons, elem_of_nil; intros [?|[]]; done).
    assert (keeps_regs [TCG_REG_L0] d d2) as O2'
      by (intros r Hr; rewrite O2 by (left; auto); auto).
    destruct pst; [destruct H3 as (O3 & M3)|subst; by split].
    split; [intros r Hr; rewrite O3 by (left; auto); auto|].
    rewrite M3, M2, !(O2' _) by (rewrite elem_of_cons, elem_of_nil; intros [?|[]]; done).
    reflexivity.
Qed.

Lemma load_st_mem_same opc a v m :
  load (mo_bytes opc) a (st_mem opc a v m) = wrap (8 * Z.of_nat (mo_bytes opc)) (mo_bswap opc v).
Proof. apply load_store_same. pose proof (mo_bytes_pow opc). lia. Qed.

(** Storing what has been loaded copies the bytes. *)
Lemma ld_st_bytes opc d a :
  wf d ->
  wrap (8 * Z.of_nat (mo_bytes opc)) (mo_bswap opc (ld_value opc (dmem d) a)) =
  load (mo_bytes opc) a (dmem d).
Proof.
  intros Hwf. unfold ld_value. set (n := mo_bytes opc). unfold mo_bswap. fold n.
  pose proof (load_range n a d Hwf) as Hr.
  assert (forall v, (0 < n <= 8)%nat ->
    wrap (8 * Z.of_nat n) (u64 (swrap (8 * Z.of_nat n) v)) = wrap (8 * Z.of_nat n) v) as Hs.
  { intros v Hn. rewrite wrap_wrap_le by lia. apply wrap_swrap. lia. }
  pose proof (proj2 (mo_bytes_pow opc)) as Hn. fold n in Hn.
  destruct (testb opc MO_BSWAP).
  - rewrite (wrap_id _ (bswap_value n _)) by apply bswap_range.
    destruct (testb opc MO_SIGN); [rewrite <- bswap_wrap, Hs, bswap_wrap by done|];
      rewrite bswap_involutive; by apply wrap_id.
  - destruct (testb opc MO_SIGN); rewrite ?Hs by done; by apply wrap_id.
Qed.

Definition store_bit (t : Z) (f : shadow_field) : bool :=
  match f with
  | sf_vaddr => testb t QTRACE_MEMTRACE_STORE_VMA
  | sf_paddr => testb t QTRACE_MEMTRACE_STORE_PMA
  | sf_bsize => testb t QTRACE_MEMTRACE_STORE_MSIZE
  | sf_prevalue => testb t QTRACE_MEMTRACE_STORE_PREOP_VALUE
  | sf_pstvalue => testb t QTRACE_MEMTRACE_STORE_PSTOP_VALUE
  end.

Definition is_value (f : shadow_field) : bool :=
  match f with sf_prevalue | sf_pstvalue => true | _ => false end.

(** The state in which a store that hits ends. *)
Record st_hit_post (t mem_index datalo addrlo opc : Z) (d d' : dstate) : Prop := {
  sh_value : load (mo_bytes opc) (guest_host addrlo mem_index d) (dmem d') =
    wrap (8 * Z.of_nat (mo_bytes opc)) (mo_bswap opc (regs d datalo));
  sh_regs : keeps_regs [TCG_REG_L0; TCG_REG_L1] d d';
  sh_shadow : forall f, f = sf_bsize \/ f = sf_vaddr ->
    load 8 (sh_addr (regs d TCG_AREG0) ofs_addr_write f) (dmem d') =
    if store_bit t f then
      match f with
      | sf_bsize => Z.of_nat (mo_bytes opc)
      | _ => regs d addrlo
      end
    else load 8 (sh_addr (regs d TCG_AREG0) ofs_addr_write f) (dmem d);
  sh_paddr : let x := load 8 (sh_addr (regs d TCG_AREG0) ofs_addr_write sf_paddr) (dmem d') in
    if store_bit t sf_paddr then
      x = u64 (guest_host addrlo mem_index d + 10000) /\ never_physical (regs d addrlo) (guest_host addrlo mem_index d) x
    else x = load 8 (sh_addr (regs d TCG_AREG0) ofs_addr_write sf_paddr) (dmem d);
  sh_values : forall f, is_value f = true ->
    load (mo_bytes opc) (sh_addr (regs d TCG_AREG0) ofs_addr_write f) (dmem d') =
    if store_bit t f then
      load (mo_bytes opc) (guest_host addrlo mem_index d)
        (dmem (match f with sf_prevalue => d | _ => d' end))
    else load (mo_bytes opc) (sh_addr (regs d TCG_AREG0) ofs_addr_write f) (dmem d);
  sh_frame : forall n a, (0 < n)%nat ->
    sep n a (mo_bytes opc) (guest_host addrlo mem_index d) ->
    sep n a 40 (shadow_base (regs d TCG_AREG0) ofs_addr_write) ->
    load n a (dmem d') = load n a (dmem d)
}.

Lemma sep_shrink n a k b k' : sep n a k b -> (k' <= k)%nat -> sep n a k' b.
Proof. unfold sep. lia. Qed.

Section StBody.
Context (pre pst : bool) (opc env host v : Z) (d : dstate).
Hypothesis Hwf : wf d.
Hypothesis Hsep : sep (mo_bytes opc) host 40 (shadow_base env ofs_addr_write).

Local Abbreviation field := (sh_addr env ofs_addr_write).
Local Abbreviation n := (mo_bytes opc).
Local Abbreviation m' := (st_body_mem pre pst opc env host v (dmem d)).

Lemma value_sep f g : f <> g -> sep n (field f) n (field g).
Proof. intros H. pose proof (mo_bytes_pow opc). apply fields_sep; [done|lia|lia]. Qed.

Lemma host_field_sep f : sep n host n (field f).
Proof.
  pose proof (mo_bytes_pow opc). eapply sep_shrink; [apply sep_field; [lia|exact Hsep]|lia].
Qed.

Lemma st_body_frame k a :
  sep k a n host -> sep k a n (field sf_prevalue) -> sep k a n (field sf_pstvalue) ->
  load k a m' = load k a (dmem d).
Proof.
  intros Hh Hp Hq. unfold st_body_mem, st_mem.
  destruct pre, pst; by rewrite ?load_store_other.
Qed.

Lemma st_body_host : load n host m' = wrap (8 * Z.of_nat n) (mo_bswap opc v).
Proof.
  unfold st_body_mem. pose proof (host_field_sep sf_pstvalue).
  destruct pst; [unfold st_mem at 1; rewrite load_store_other by done|]; apply load_st_mem_same.
Qed.

Lemma st_body_prevalue :
  load n (field sf_prevalue) m' =
  if pre then load n host (dmem d) else load n (field sf_prevalue) (dmem d).
Proof.
  pose proof (sep_sym _ _ _ _ (host_field_sep sf_prevalue)).
  pose proof (value_sep sf_prevalue sf_pstvalue ltac:(done)).
  unfold st_body_mem, st_mem.
  destruct pre, pst; rewrite ?load_store_other by done; try done;
    (etrans; [apply load_st_mem_same|by apply ld_st_bytes]).
Qed.

Lemma st_body_pstvalue :
  load n (field sf_pstvalue) m' =
  if pst then load n host m' else load n (field sf_pstvalue) (dmem d).
Proof.
  pose proof (sep_sym _ _ _ _ (host_field_sep sf_pstvalue)).
  pose proof (value_sep sf_pstvalue sf_prevalue ltac:(done)).
  destruct pst eqn:E; rewrite <- E.
  - rewrite st_body_host. unfold st_body_mem. rewrite E. apply load_st_mem_same.
  - unfold st_body_mem, st_mem. rewrite E. destruct pre; by rewrite !load_store_other.
Qed.
End StBody.

(** The whole store, up to the bookkeeping for the slow path. *)
Definition st_fast (sz vma pma pre pst : bool) (datalo addrlo mem_index opc : Z) : out Z :=
  label ← access_start sz vma pma addrlo mem_index (Z.land opc MO_SIZE) ofs_addr_write;
  st_body pre pst datalo opc ;; mret label.

(** [tcg_out_qemu_st] honours each request bit separately. *)
Lemma qemu_st_code datalo addrlo opc idx s :
  let t := QTRACE_EXT_MEMTRACE idx in let mem_index := QTRACE_EXT_MEMINDEX idx in
  tcg_out_qemu_st datalo addrlo opc idx s =
  (label ← st_fast (store_bit t sf_bsize) (store_bit t sf_vaddr) (store_bit t sf_paddr)
             (store_bit t sf_prevalue) (store_bit t sf_pstvalue) datalo addrlo mem_index opc;
   raddr ← get_ptr;
   add_qemu_ldst_label false opc datalo addrlo mem_index raddr label) s.
Proof.
  cbn zeta. unfold tcg_out_qemu_st, st_fast, access_start, st_body.
  set (t := QTRACE_EXT_MEMTRACE idx).
  unfold QTRACE_MEMTRACE_STORE_EXT_MSIZE, QTRACE_MEMTRACE_STORE_EXT_ADDRS,
    QTRACE_MEMTRACE_STORE_EXT_PREOP_VALUE, QTRACE_MEMTRACE_STORE_EXT_PSTOP_VALUE,
    QTRACE_RESET_MEMTRACE_STORE_ADDRS, QTRACE_RESET_MEMTRACE_STORE_MSIZE,
    QTRACE_RESET_MEMTRACE_STORE_PREOP_VALUE.
  cbv beta iota zeta. rewrite !land_cleared by done.
  pose proof (tlb_select_code 9 t addrlo (QTRACE_EXT_MEMINDEX idx) (Z.land opc MO_SIZE)
    ofs_addr_write ltac:(by right)) as Et.
  rewrite <- !testb_pow2 in Et by done.
  change (tlb_code (store_bit t sf_vaddr) (store_bit t sf_paddr)) with
    (tlb_code (testb t (2 ^ 9)) (testb t (2 ^ (9 + 1)))).
  rewrite <- Et. clear Et. exact (access_regroup _ _ _ _ _ (fun raddr label =>
    add_qemu_ldst_label false opc datalo addrlo (QTRACE_EXT_MEMINDEX idx) raddr label) s).
Qed.

Lemma st_fast_branches t datalo addrlo mem_index opc :
  layout_ok -> reg_ok datalo -> datalo <> TCG_REG_L0 -> datalo <> TCG_REG_L1 -> memop_ok opc ->
  access_ok addrlo mem_index (Z.land opc MO_SIZE) ofs_addr_write ->
  branches (st_fast (store_bit t sf_bsize) (store_bit t sf_vaddr) (store_bit t sf_paddr)
              (store_bit t sf_prevalue) (store_bit t sf_pstvalue) datalo addrlo mem_index opc)
    (guest_hit addrlo mem_index (Z.land opc MO_SIZE) ofs_addr_write)
    (fun d d' => wf d -> ram_apart ofs_addr_write addrlo mem_index opc d ->
       st_hit_post t mem_index datalo addrlo opc d d')
    (started (store_bit t sf_bsize) (store_bit t sf_vaddr) false addrlo mem_index
       (Z.land opc MO_SIZE) ofs_addr_write (fun d => regs d addrlo)).
Proof.
  intros Hl Hd Hne0 Hne1 Hm Ha. destruct (mo_bytes_pow opc) as [Hpow Hn].
  eapply branches_computes; [by apply access_start_branches|by apply st_body_computes|].
  cbv beta zeta. intros d d1 d2 Hwf W1 (O1 & R1 & M1) (O2 & M2) _ Hsep.
  rewrite R1, !(O1 _) in M2 by (rewrite !elem_of_cons, elem_of_nil; intros [?|[?|[]]]; done).
  set (env := regs d TCG_AREG0) in *. set (host := guest_host addrlo mem_index d) in *.
  assert (forall k a, (0 < k)%nat -> sep k a 40 (shadow_base env ofs_addr_write) ->
            load k a (dmem d1) = load k a (dmem d)) as Hold.
  { intros k a Hk Hs. rewrite M1. by apply load_shadow_writes_other. }
  assert (forall f, is_value f = false -> load 8 (sh_addr env ofs_addr_write f) (dmem d2) =
    load 8 (sh_addr env ofs_addr_write f) (dmem d1)) as Hother.
  { intros f Hf. rewrite M2, st_body_frame; [done|apply sep_sym, sep_field; [lia|exact Hsep]
      |apply fields_sep; [by destruct f|lia|lia]..]. }
  split.
  - rewrite M2. by apply st_body_host.
  - intros r Hr. rewrite O2; [by apply O1|]. intros Hin. apply Hr. rewrite !elem_of_cons in *. tauto.
  - intros f Hf. rewrite Hother by (by destruct Hf as [-> | ->]). rewrite M1, load_shadow_writes. clear M1 M2 Hother.
    destruct Hf as [-> | ->]; cbn [recorded]; destruct (store_bit t _); try done.
    + rewrite Hpow. apply wrap_id. unfold in_u. lia.
    + apply wrap_id, Hwf.
  - rewrite Hother by done. rewrite M1, load_shadow_writes. cbn [recorded]. destruct (store_bit t sf_paddr); [|done].
    rewrite wrap_wrap. split; [done|apply recorded_never_physical].
  - intros f Hf. assert (load (mo_bytes opc) (sh_addr env ofs_addr_write f) (dmem d1) =
      load (mo_bytes opc) (sh_addr env ofs_addr_write f) (dmem d)) as Hkeep.
    { rewrite M1. apply load_shadow_writes_none; [lia|]. by destruct f. }
    fold env. destruct f; try discriminate Hf.
    + rewrite M2, st_body_prevalue by done. rewrite Hkeep, (Hold _ host) by (lia || exact Hsep). done.
    + rewrite M2, st_body_pstvalue, Hkeep by exact Hsep. done.
  - intros k a Hk Hh Hs. rewrite M2, st_body_frame; [by apply Hold|done|..];
      (eapply sep_shrink; [by apply sep_field|lia]).
Qed.

(** A traced guest store.  On a TLB hit the emitted code continues at the
    return address recorded for the slow path, and guest memory holds the value of
    [datalo]; the requested addresses and size are in the store shadow area, the
    old and the new bytes of guest memory are in its value fields, and all other
    memory is unchanged, as are the registers but the two scratch registers.  On
    a miss it takes the branch, as a load does. *)
Lemma qemu_st_traced datalo addrlo opc idx s :
  let t := QTRACE_EXT_MEMTRACE idx in let mem_index := QTRACE_EXT_MEMINDEX idx in
  let s_bits := Z.land opc MO_SIZE in
  layout_ok -> reg_ok datalo -> datalo <> TCG_REG_L0 -> datalo <> TCG_REG_L1 -> memop_ok opc ->
  access_ok addrlo mem_index s_bits ofs_addr_write ->
  Z.of_nat (length s.(ldst_labels)) < TCG_MAX_QEMU_LDST ->
  accesses (tcg_out_qemu_st datalo addrlo opc idx) s false opc datalo addrlo mem_index
    (guest_hit addrlo mem_index s_bits ofs_addr_write)
    (fun d d' => wf d -> ram_apart ofs_addr_write addrlo mem_index opc d ->
       st_hit_post t mem_index datalo addrlo opc d d')
    (started (store_bit t sf_bsize) (store_bit t sf_vaddr) false addrlo mem_index s_bits
       ofs_addr_write (fun d => regs d addrlo)).
Proof.
  cbn zeta. intros Hl Hd Hne0 Hne1 Hm Ha Hn.
  eapply branches_accesses; [apply qemu_st_code|by apply st_fast_branches|done|].
  cbv beta. intros d d' W H Hwf Hr. by apply H.
Qed.
End Trace.
