(* ===== verification/SlowPath.v ===== *)
(** * The slow path of guest memory accesses

    Code that [tcg_out_tb_finalize] appends behind a translation block for every
    access of the block: it completes the branch of the access and calls the
    helper of the MMU with its four arguments.  A load takes its value from the
    helper's result and jumps back; a store passes the return address on the
    stack and lets the helper return to it. *)

From S2P Require Import Prelude QtraceDefs IContext Interpret X86 TcgOut TcgEnc TcgEmit TcgCond.
From S2P Require Import TcgLabel TlbLoad QemuLdSt MemTrace.

(** ** The value of a load *)

(** The helpers return the value with zeros above it. *)
Definition helper_result (opc v : Z) : Z :=
  if testb opc MO_SIGN then u64 (swrap (8 * Z.of_nat (mo_bytes opc)) v) else v.

Definition out_ld_result (opc data_reg : Z) : out unit :=
  let op := Z.land opc MO_SSIZE in
  if op =? MO_SB then tcg_out_ext8s data_reg TCG_REG_RAX P_REXW
  else if op =? MO_SW then tcg_out_ext16s data_reg TCG_REG_RAX P_REXW
  else if op =? MO_SL then tcg_out_ext32s data_reg TCG_REG_RAX
  else if (op =? MO_UB) || (op =? MO_UW) || (op =? MO_UL) then
    tcg_out_mov TCG_TYPE_I32 data_reg TCG_REG_RAX
  else if op =? MO_Q then tcg_out_mov TCG_TYPE_I64 data_reg TCG_REG_RAX
  else fail TcgAbort.

Lemma movsx_computes m w dst src :
  straight m (run1 (IMovsx W64 w dst (EReg src))) -> w ∈ [W8; W16; W32] ->
  computes m (fun d d' => sets_reg dst (u64 (swrap (wbits w) (regs d src))) d d').
Proof.
  intros Hs Hw. eapply computes_one; [exact Hs|]. intros d Hwf. eexists; split; [reflexivity|].
  split_and!; [|regs_other|done]. rewrite (regs_write_same TCG_TYPE_I64).
  cbn [read_ea twidth wbits]. rewrite !elem_of_cons, elem_of_nil in Hw.
  destruct Hw as [->|[->|[->|[]]]]; cbn [read_reg wbits]; by rewrite swrap_wrap by lia.
Qed.

Lemma ld_result_computes opc data_reg :
  reg_ok data_reg -> memop_ok opc ->
  computes (out_ld_result opc data_reg)
    (fun d d' => in_u (8 * Z.of_nat (mo_bytes opc)) (regs d TCG_REG_RAX) ->
       sets_reg data_reg (helper_result opc (regs d TCG_REG_RAX)) d d').
Proof.
  intros Hd Hm.
  assert (forall t, computes (tcg_out_mov t data_reg TCG_REG_RAX)
    (fun d d' => in_u (wsize t) (regs d TCG_REG_RAX) ->
       sets_reg data_reg (regs d TCG_REG_RAX) d d')) as Hmov.
  { intros t. eapply straight_computes; [apply straight_mov; opc_side|]. intros d Hwf.
    unfold mov_effect. destruct (Z.eqb_spec TCG_REG_RAX data_reg) as [<-|Hne]; cbn [negb].
    - by exists d.
    - eexists; split; [reflexivity|]. intros Hr. split_and!; [|regs_other|done].
      rewrite regs_write_same. cbn [read_ea]. rewrite read_reg_t.
      rewrite !(wrap_id _ (regs d TCG_REG_RAX)); done. }
  assert (forall t, 8 * Z.of_nat (mo_bytes opc) <= wsize t -> testb opc MO_SIGN = false ->
    computes (tcg_out_mov t data_reg TCG_REG_RAX)
      (fun d d' => in_u (8 * Z.of_nat (mo_bytes opc)) (regs d TCG_REG_RAX) ->
         sets_reg data_reg (helper_result opc (regs d TCG_REG_RAX)) d d')) as Hz.
  { intros t Ht Hs. eapply computes_ext; [apply (Hmov t)|]. intros d d' _ H Hr.
    unfold helper_result. rewrite Hs. apply H. eapply in_u_mono; [|exact Hr]. lia. }
  assert (forall m w, straight m (run1 (IMovsx W64 w data_reg (EReg TCG_REG_RAX))) ->
    w ∈ [W8; W16; W32] -> 8 * Z.of_nat (mo_bytes opc) = wbits w -> testb opc MO_SIGN = true ->
    computes m (fun d d' => in_u (8 * Z.of_nat (mo_bytes opc)) (regs d TCG_REG_RAX) ->
      sets_reg data_reg (helper_result opc (regs d TCG_REG_RAX)) d d')) as Hx.
  { intros m w Hm' Hw Hn Hs. eapply computes_ext; [by apply (movsx_computes m w)|].
    intros d d' _ H _. unfold helper_result. by rewrite Hs, Hn. }
  pose proof (straight_ext8s TCG_TYPE_I64 data_reg TCG_REG_RAX Hd ltac:(opc_side)) as X8.
  pose proof (straight_ext16s TCG_TYPE_I64 data_reg TCG_REG_RAX Hd ltac:(opc_side)) as X16.
  pose proof (straight_ext32s data_reg TCG_REG_RAX Hd ltac:(opc_side)) as X32.
  each_memop opc Hm;
    [apply (Hz TCG_TYPE_I32)..|apply (Hz TCG_TYPE_I64)
    |apply (Hx _ W8 X8)|apply (Hx _ W16 X16)|apply (Hx _ W32 X32)
    |apply (Hz TCG_TYPE_I32)|apply (Hz TCG_TYPE_I32)|apply (Hz TCG_TYPE_I32)
    |apply (Hz TCG_TYPE_I64)
    |apply (Hx _ W8 X8)|apply (Hx _ W16 X16)|apply (Hx _ W32 X32)];
    solve [reflexivity | in_list | cbv; congruence].
Qed.

(** ** Calling the helper *)

(** The state at the entry of a load helper: env, address (already in place),
    MMU index and return address into the block. *)
Record ld_helper_entry (l : TCGLabelQemuLdst) (ret : Z) (d d' : dstate) : Prop := {
  lhe_env : regs d' TCG_REG_RDI = regs d TCG_AREG0;
  lhe_addr : regs d' TCG_REG_RSI = regs d TCG_REG_RSI;
  lhe_index : regs d' TCG_REG_RDX = u32 l.(l_mem_index);
  lhe_raddr : regs d' TCG_REG_RCX = l.(raddr);
  lhe_rsp : regs d' RSP = u64 (regs d RSP - 8);
  lhe_ret : dmem d' = store 8 (u64 (regs d RSP - 8)) ret (dmem d);
  lhe_regs : keeps_regs [TCG_REG_RDI; TCG_REG_RDX; TCG_REG_RCX; TCG_REG_R10; RSP] d d'
}.

Definition ld_args (l : TCGLabelQemuLdst) : list (out unit) :=
  [tcg_out_mov TCG_TYPE_PTR TCG_REG_RDI TCG_AREG0;
   tcg_out_movi TCG_TYPE_I32 TCG_REG_RDX l.(l_mem_index);
   tcg_out_movi TCG_TYPE_PTR TCG_REG_RCX (s64 l.(raddr))].

Definition ld_args_effects (l : TCGLabelQemuLdst) : list (dstate -> option dstate) :=
  [mov_effect TCG_TYPE_I64 TCG_REG_RDI TCG_AREG0;
   movi_effect TCG_TYPE_I32 TCG_REG_RDX l.(l_mem_index);
   movi_effect TCG_TYPE_I64 TCG_REG_RCX (s64 l.(raddr))].

Lemma ld_args_straight l : Forall2 straight (ld_args l) (ld_args_effects l).
Proof.
  repeat constructor;
    [apply straight_mov; opc_side|apply straight_movi; opc_side..].
Qed.

Lemma ld_args_run l d :
  wf d -> in_u 64 l.(raddr) ->
  exists d', run_all (ld_args_effects l) d = Some d' /\
    regs d' TCG_REG_RDI = regs d TCG_AREG0 /\ regs d' TCG_REG_RDX = u32 l.(l_mem_index) /\
    regs d' TCG_REG_RCX = l.(raddr) /\ dmem d' = dmem d /\
    keeps_regs [TCG_REG_RDI; TCG_REG_RDX; TCG_REG_RCX] d d'.
Proof.
  intros Hwf Hr. unfold ld_args_effects. cbn [run_all].
  destruct (mov64_sets TCG_REG_RDI TCG_AREG0 d Hwf) as (d1 & E1 & (R1 & O1 & M1) & _).
  destruct (movi_effect_some TCG_TYPE_I32 TCG_REG_RDX (l_mem_index l) d1) as (d2 & E2 & M2 & O2 & R2).
  destruct (movi_effect_some TCG_TYPE_I64 TCG_REG_RCX (s64 (raddr l)) d2) as (d3 & E3 & M3 & O3 & R3).
  exists d3. rewrite E1. cbn [mbind option_bind]. rewrite E2. cbn [mbind option_bind].
  rewrite E3. split; [done|]. split_and!.
  - by rewrite O3, O2.
  - by rewrite O3, R2.
  - rewrite R3. cbn [twidth wbits]. rewrite wrap_swrap by lia. by apply wrap_id.
  - congruence.
  - intros r Hn. rewrite !elem_of_cons in Hn. rewrite O3, O2, O1; tauto.
Qed.

(** The state at the entry of a store helper.  The return address on the stack is
    the one into the block: the helper returns straight to it. *)
Record st_helper_entry (l : TCGLabelQemuLdst) (d d' : dstate) : Prop := {
  she_env : regs d' TCG_REG_RDI = regs d TCG_AREG0;
  she_addr : regs d' TCG_REG_RSI = regs d TCG_REG_RSI;
  she_value : let w := 8 * Z.of_nat (mo_bytes l.(l_opc)) in
    wrap w (regs d' TCG_REG_RDX) = wrap w (regs d l.(datalo_reg));
  she_index : regs d' TCG_REG_RCX = u32 l.(l_mem_index);
  she_raddr : regs d' TCG_REG_R8 = l.(raddr);
  she_rsp : regs d' RSP = u64 (regs d RSP - 8);
  she_ret : dmem d' = store 8 (u64 (regs d RSP - 8)) l.(raddr) (dmem d);
  she_regs : keeps_regs [TCG_REG_RDI; TCG_REG_RDX; TCG_REG_RCX; TCG_REG_R8; TCG_REG_R10; RSP] d d'
}.

Definition st_type (opc : Z) : TCGType :=
  if Z.land opc MO_SIZE =? MO_64 then TCG_TYPE_I64 else TCG_TYPE_I32.

Definition st_args (l : TCGLabelQemuLdst) : list (out unit) :=
  [tcg_out_mov TCG_TYPE_PTR TCG_REG_RDI TCG_AREG0;
   tcg_out_mov (st_type l.(l_opc)) TCG_REG_RDX l.(datalo_reg);
   tcg_out_movi TCG_TYPE_I32 TCG_REG_RCX l.(l_mem_index);
   tcg_out_movi TCG_TYPE_PTR TCG_REG_R8 (s64 l.(raddr));
   tcg_out_push TCG_REG_R8].

Definition st_args_effects (l : TCGLabelQemuLdst) : list (dstate -> option dstate) :=
  [mov_effect TCG_TYPE_I64 TCG_REG_RDI TCG_AREG0;
   mov_effect (st_type l.(l_opc)) TCG_REG_RDX l.(datalo_reg);
   movi_effect TCG_TYPE_I32 TCG_REG_RCX l.(l_mem_index);
   movi_effect TCG_TYPE_I64 TCG_REG_R8 (s64 l.(raddr));
   run1 (IPush TCG_REG_R8)].

Lemma st_args_straight l :
  reg_ok l.(datalo_reg) -> Forall2 straight (st_args l) (st_args_effects l).
Proof.
  intros Hd. repeat constructor;
    [apply straight_mov; opc_side..|apply straight_movi; opc_side|apply straight_movi; opc_side
    |apply straight_push; opc_side].
Qed.

Lemma mov_some t ret arg d :
  wf d -> exists d', mov_effect t ret arg d = Some d' /\
    wrap (wsize t) (regs d' ret) = wrap (wsize t) (regs d arg) /\ same_but ret d d'.
Proof.
  intros Hwf. unfold mov_effect. destruct (Z.eqb_spec arg ret) as [->|Hne]; cbn [negb].
  - by exists d.
  - eexists; split; [reflexivity|]. split; [|split; [regs_other|done]].
    rewrite regs_write_same. cbn [read_ea]. rewrite read_reg_t. fold (wsize t). by rewrite !wrap_wrap.
Qed.

Lemma st_type_size opc : 8 * Z.of_nat (mo_bytes opc) <= wsize (st_type opc).
Proof.
  destruct (mo_bytes_pow opc) as [H _]. pose proof (memop_size opc) as Hs. rewrite <- H.
  unfold st_type. set (b := Z.land opc MO_SIZE) in *.
  assert (b = 0 \/ b = 1 \/ b = 2 \/ b = 3) as Hb by lia.
  destruct Hb as [->|[->|[->| ->]]]; cbv; congruence.
Qed.

Lemma st_args_run l d :
  wf d -> in_u 64 l.(raddr) -> l.(datalo_reg) <> TCG_REG_RDI ->
  exists d', run_all (st_args_effects l) d = Some d' /\ st_helper_entry l d d'.
Proof.
  intros Hwf Hr Hne. unfold st_args_effects. cbn [run_all].
  destruct (mov64_sets TCG_REG_RDI TCG_AREG0 d Hwf) as (d1 & E1 & (R1 & O1 & M1) & _).
  destruct (mov_some (st_type (l_opc l)) TCG_REG_RDX (datalo_reg l) d1)
    as (d2 & E2 & R2 & O2 & M2); [by eapply wf_mov_effect|].
  destruct (movi_effect_some TCG_TYPE_I32 TCG_REG_RCX (l_mem_index l) d2) as (d3 & E3 & M3 & O3 & R3).
  destruct (movi_effect_some TCG_TYPE_I64 TCG_REG_R8 (s64 (raddr l)) d3) as (d4 & E4 & M4 & O4 & R4).
  rewrite E1. cbn [mbind option_bind]. rewrite E2. cbn [mbind option_bind].
  rewrite E3. cbn [mbind option_bind]. rewrite E4. cbn [mbind option_bind].
  cbn [twidth wbits] in R4. rewrite wrap_swrap, (wrap_id _ (raddr l)) in R4 by (done || lia).
  assert (regs d4 RSP = regs d RSP) as Esp by (rewrite O4, O3, O2, O1; done).
  exists (push64 (raddr l) d4). split; [by rewrite <- R4|].
  assert (forall r, r <> RSP -> regs (push64 (raddr l) d4) r = regs d4 r) as Op
    by (intros r Hn; by apply regs_set_other).
  split; rewrite ?Op by done.
  - rewrite O4, O3, O2 by done. exact R1.
  - by rewrite O4, O3, O2, O1.
  - cbn zeta. rewrite O4, O3 by done. pose proof (st_type_size (l_opc l)).
    rewrite <- (wrap_wrap_le _ (wsize (st_type (l_opc l)))), R2, wrap_wrap_le, O1 by (done || lia).
    done.
  - rewrite O4 by done. exact R3.
  - exact R4.
  - rewrite <- Esp. apply regs_set_same.
  - cbn [push64 set_mem dmem set_reg]. rewrite Esp, M4, M3, M2, M1. done.
  - intros r Hn. rewrite !elem_of_cons in Hn. rewrite Op, O4, O3, O2, O1; tauto.
Qed.

(** Jumps from anywhere in the range fit in 32 bits. *)
Definition near (dest lo hi : Z) : Prop :=
  forall p, lo <= p <= hi -> in_s 32 (s64 (dest - p - 5)).

(** Straight code followed by a jump. *)
Lemma computes_then_jmp m R dest s :
  computes m R -> in_u 64 dest ->
  exists bs, emitted (m ;; tcg_out_jmp dest) s bs /\
    forall cd d, wf d -> code_at cd (code_ptr s) bs ->
      exists d1 d', R d d1 /\ steps cd (code_ptr s, d) (dest, d') /\
        keeps_regs [TCG_REG_R10] d1 d' /\ dmem d' = dmem d1 /\
        (near dest (code_ptr s) (code_ptr (add_code bs s)) ->
           regs d' TCG_REG_R10 = regs d1 TCG_REG_R10).
Proof.
  intros Hm Hd. destruct (Hm s) as (b1 & E1 & S1).
  destruct (branch_reaches false dest (add_code b1 s) Hd) as (b2 & E2 & S2).
  exists (b1 ++ b2). split; [by apply emitted_seq|].
  intros cd d Hwf [Hc1 Hc2]%code_at_app. destruct (S1 cd d Hwf Hc1) as (d1 & T1 & Q1).
  rewrite <- code_ptr_add in Hc2.
  destruct (S2 cd d1 (wf_reached _ _ _ _ _ T1 Hwf) Hc2) as (d2 & T2 & (O2 & R2 & M2) & N2).
  exists d1, d2. split; [done|]. split; [by etrans|]. split; [|split; [done|]].
  - intros r Hr. rewrite elem_of_cons in Hr. destruct (decide (r = RSP)) as [->|]; [done|].
    apply O2; tauto.
  - intros Hn. apply N2, Hn. rewrite !code_ptr_add, length_app. lia.
Qed.

Definition patched (l : TCGLabelQemuLdst) (s : TCGContext) : TCGContext :=
  set_code (list_inserts (Z.to_nat (l.(label_ptr) - s.(code_buf)))
              (bytes_le 4 (u32 (code_ptr s - l.(label_ptr) - 4))) s.(code)) s.

Definition label_inside (l : TCGLabelQemuLdst) (s : TCGContext) : Prop :=
  s.(code_buf) <= l.(label_ptr) /\ l.(label_ptr) + 4 <= code_ptr s.

Lemma resolve_label_patched l s :
  label_inside l s -> resolve_label l s = Ok (tt, patched l s) /\ code_ptr (patched l s) = code_ptr s.
Proof.
  intros [H1 H2]. split.
  - unfold resolve_label, mbind, out_bind, get_ptr, patch_code.
    rewrite length_bytes_le, (proj2 (Z.leb_le 0 _)), (proj2 (Z.leb_le _ (Z.of_nat _)));
      [done|unfold code_ptr in H2; cbn; lia|lia].
  - unfold code_ptr, patched. cbn [set_code code code_buf]. by rewrite length_inserts.
Qed.

Section SlowPath.
Context `{L : CPULayout}.

(** The slow path of a load: the code before the helper call and the code after
    it. *)
Lemma ld_slow_path_spec (ld_helper : Z -> Z) l s :
  label_inside l s -> reg_ok l.(datalo_reg) -> memop_ok l.(l_opc) -> in_u 64 l.(raddr) ->
  in_u 64 (ld_helper (Z.land l.(l_opc) (Z.lnot MO_SIGN))) ->
  exists b1 b2, tcg_out_qemu_ld_slow_path ld_helper l s = Ok (tt, add_code (b1 ++ b2) (patched l s)) /\
    let ret := code_ptr s + Z.of_nat (length b1) in
    (forall cd d, wf d -> code_at cd (code_ptr s) b1 ->
       exists d', steps cd (code_ptr s, d) (ld_helper (Z.land l.(l_opc) (Z.lnot MO_SIGN)), d') /\
         ld_helper_entry l ret d d') /\
    (forall cd d, wf d -> code_at cd ret b2 ->
       in_u (8 * Z.of_nat (mo_bytes l.(l_opc))) (regs d TCG_REG_RAX) ->
       near l.(raddr) ret (ret + Z.of_nat (length b2)) ->
       exists d', steps cd (ret, d) (l.(raddr), d') /\
         sets_reg l.(datalo_reg) (helper_result l.(l_opc) (regs d TCG_REG_RAX)) d d').
Proof.
  intros Hin Hd Hm Hr Hh. destruct (resolve_label_patched l s Hin) as [E0 Ep].
  destruct (straight_list _ _ (ld_args_straight l) (patched l s)) as (a1 & E1 & S1).
  destruct (branch_reaches true _ (add_code a1 (patched l s)) Hh) as (a2 & E2 & S2).
  destruct (computes_then_jmp _ _ l.(raddr) (add_code a2 (add_code a1 (patched l s)))
              (ld_result_computes l.(l_opc) l.(datalo_reg) Hd Hm) Hr) as (b2 & E3 & S3).
  exists (a1 ++ a2), b2. cbn zeta. rewrite !code_ptr_add, !Ep in *.
  rewrite length_app, Nat2Z.inj_add, Z.add_assoc. split_and!.
  - unfold tcg_out_qemu_ld_slow_path, mbind at 1, out_bind at 1. rewrite E0.
    etrans; [apply (E1 _ (tcg_out_calli _ ;; out_ld_result _ _ ;; tcg_out_jmp _))|].
    unfold mbind at 1, out_bind at 1. unfold emitted in E2, E3. unfold tcg_out_calli.
    rewrite E2, E3, <- !add_code_app, !app_assoc. done.
  - intros cd d Hwf [Hc1 Hc2]%code_at_app.
    destruct (ld_args_run l d Hwf Hr) as (d1 & F1 & R1 & R2 & R3 & M1 & O1).
    specialize (S1 cd d d1 Hwf Hc1 F1).
    destruct (S2 cd d1 (wf_reached _ _ _ _ _ S1 Hwf) Hc2) as (d2 & T2 & (O2 & R4 & M2) & _).
    exists d2. split; [by etrans|].
    assert (regs d1 RSP = regs d RSP) as Esp by (apply O1; rewrite !elem_of_cons, elem_of_nil;
      intros [?|[?|[?|[]]]]; done).
    rewrite Esp in *. split; rewrite ?O2 by done; try done; [|congruence|].
    + apply O1. rewrite !elem_of_cons, elem_of_nil. intros [?|[?|[?|[]]]]; done.
    + intros r Hn. rewrite !elem_of_cons in Hn. rewrite O2 by tauto. apply O1.
      rewrite !elem_of_cons. tauto.
  - intros cd d Hwf Hc Hv Hn. destruct (S3 cd d Hwf Hc) as (d1 & d2 & Q1 & T & O & M & N).
    exists d2. split; [done|]. destruct (Q1 Hv) as (R1 & O1 & M1).
    assert (forall r, regs d2 r = regs d1 r) as Hall.
    { intros r. destruct (decide (r = TCG_REG_R10)) as [->|]; [by apply N|]. apply O.
      rewrite elem_of_cons, elem_of_nil. tauto. }
    split_and!; [by rewrite Hall|intros r' Hr'; rewrite Hall; by apply O1|congruence].
Qed.

(** The slow path of a store. *)
Lemma st_slow_path_spec (st_helper : Z -> Z) l s :
  label_inside l s -> reg_ok l.(datalo_reg) -> l.(datalo_reg) <> TCG_REG_RDI ->
  in_u 64 l.(raddr) -> in_u 64 (st_helper l.(l_opc)) ->
  exists bs, tcg_out_qemu_st_slow_path st_helper l s = Ok (tt, add_code bs (patched l s)) /\
    forall cd d, wf d -> code_at cd (code_ptr s) bs ->
      exists d', steps cd (code_ptr s, d) (st_helper l.(l_opc), d') /\ st_helper_entry l d d'.
Proof.
  intros Hin Hd Hne Hr Hh. destruct (resolve_label_patched l s Hin) as [E0 Ep].
  destruct (straight_list _ _ (st_args_straight l Hd) (patched l s)) as (b1 & E1 & S1).
  destruct (branch_reaches false _ (add_code b1 (patched l s)) Hh) as (b2 & E2 & S2).
  exists (b1 ++ b2). split.
  - unfold tcg_out_qemu_st_slow_path, mbind at 1, out_bind at 1. rewrite E0.
    etrans; [apply (E1 _ (tcg_out_jmp _))|]. unfold tcg_out_jmp.
    unfold emitted in E2. by rewrite E2, add_code_app.
  - rewrite !code_ptr_add, !Ep in *. intros cd d Hwf [Hc1 Hc2]%code_at_app.
    destruct (st_args_run l d Hwf Hr Hne) as (d1 & F1 & [H1 H2 H3 H4 H5 H6 H7 H8]).
    specialize (S1 cd d d1 Hwf Hc1 F1).
    destruct (S2 cd d1 (wf_reached _ _ _ _ _ S1 Hwf) Hc2) as (d2 & T2 & (O2 & R2 & M2) & _).
    exists d2. split; [by etrans|]. split; rewrite ?O2 by done; try done; [congruence..|].
    intros r Hn. pose proof (H8 r Hn). rewrite !elem_of_cons in Hn.
    rewrite O2; tauto.
Qed.
(** ** An access and its slow path together *)

Lemma inserts_mid {A} (a b b' c : list A) :
  length b' = length b -> list_inserts (length a) b' (a ++ b ++ c) = a ++ b' ++ c.
Proof.
  intros Hl. rewrite <- (Nat.add_0_r (length a)), list_inserts_app_r. f_equal.
  by apply list_inserts_0_r.
Qed.

Section Resolved.
Context (m : out unit) (s s1 s2 : TCGContext) (ld : bool) (opc datalo addrlo mem_index : Z)
  (hit : dstate -> bool) (Rhit Rmiss : dstate -> dstate -> Prop) (l : TCGLabelQemuLdst)
  (more : list Z).
Hypothesis Hacc : accesses m s ld opc datalo addrlo mem_index hit Rhit Rmiss.
Hypothesis Hm : m s = Ok (tt, s1).
Hypothesis Hl : s1.(ldst_labels) = s.(ldst_labels) ++ [l].

Lemma access_label :
  l = mkLdst ld opc datalo 0 addrlo 0 mem_index l.(raddr) l.(label_ptr) /\
  code_ptr s <= l.(label_ptr) /\ l.(label_ptr) + 4 <= l.(raddr) /\ l.(raddr) = code_ptr s1.
Proof.
  destruct Hacc as (b1 & hole & b2 & Hh & E & _). cbn zeta in E. rewrite Hm in E.
  injection E as E1. rewrite E1 in Hl. cbn in Hl. apply app_inj_tail in Hl as [_ <-]. cbn.
  split; [done|]. split; [lia|]. split; [lia|]. rewrite E1.
  change (code_ptr (set_ldst_labels ?x ?y)) with (code_ptr y).
  rewrite code_ptr_add, !length_app, Hh. lia.
Qed.

(** The rest of the block follows. *)
Hypothesis Hcode : s2.(code) = s1.(code) ++ more.
Hypothesis Hbuf : s2.(code_buf) = s1.(code_buf).

Lemma access_label_inside : label_inside l s2.
Proof.
  destruct Hacc as (b1 & hole & b2 & Hh & E & _). cbn zeta in E.
  rewrite Hm in E. injection E as E1. rewrite E1 in Hl. cbn in Hl.
  apply app_inj_tail in Hl as [_ <-]. unfold label_inside, code_ptr. rewrite Hcode, Hbuf, E1.
  cbn. rewrite !length_app, Hh. lia.
Qed.

Hypothesis Hptr : in_u 64 (code_ptr s2).
Hypothesis Hnear : code_ptr s2 < l.(label_ptr) + 2 ^ 31.

(** Once its branch is resolved, the access continues at the return address or
    at its slow path. *)
Lemma access_resolved bs cd d :
  code_at cd s2.(code_buf) (code (add_code bs (patched l s2))) -> wf d ->
  code_at cd (code_ptr s2) bs /\
  exists pc' d', steps cd (code_ptr s, d) (pc', d') /\ wf d' /\
    if hit d then pc' = l.(raddr) /\ Rhit d d' else pc' = code_ptr s2 /\ Rmiss d d'.
Proof.
  intros Hc Hwf. pose proof access_label_inside as [_ Hin]. 
  destruct Hacc as (b1 & hole & b2 & Hh & E & Hs). cbn zeta in E, Hs.
  rewrite Hm in E. injection E as E1. pose proof Hl as Hl'. rewrite E1 in Hl'. cbn in Hl'.
  apply app_inj_tail in Hl' as [_ El].
  assert (s2.(code) = (s.(code) ++ b1) ++ hole ++ b2 ++ more) as Ec
    by (rewrite Hcode, E1; cbn; by rewrite <- !app_assoc).
  assert (s2.(code_buf) = s.(code_buf)) as Eb by (rewrite Hbuf, E1; done).
  set (rel := u32 (code_ptr s2 - l.(label_ptr) - 4)).
  assert (code (add_code bs (patched l s2)) =
          s.(code) ++ (b1 ++ bytes_le 4 rel ++ b2) ++ more ++ bs) as Ec2.
  { unfold patched. cbn [add_code set_code code]. fold rel.
    replace (Z.to_nat (label_ptr l - code_buf s2)) with (length (s.(code) ++ b1))
      by (rewrite <- El, Eb; unfold code_ptr; cbn; rewrite length_app; lia).
    rewrite Ec, inserts_mid by (by rewrite length_bytes_le). by rewrite <- !app_assoc. }
  rewrite Ec2 in Hc. apply code_at_app in Hc as [_ Hc]. rewrite Eb in Hc.
  apply code_at_app in Hc as [Ha Hc]. apply code_at_app in Hc as [_ Hb]. split.
  - eapply (eq_ind _ (fun x => code_at cd x bs) Hb). unfold code_ptr.
    rewrite Eb, Ec, !length_app, length_bytes_le, Hh. lia.
  - destruct (Hs cd d rel Hwf Ha) as (pc' & d' & T & W & Q). exists pc', d'.
    split; [done|]. split; [done|]. rewrite <- El in *. cbn [raddr label_ptr] in *.
    destruct (hit d); [exact Q|]. destruct Q as [-> Q]. split; [|done].
    unfold rel. rewrite <- El. cbn [label_ptr].
    rewrite swrap_wrap, swrap_id by (lia || (unfold in_s; lia)).
    rewrite <- (wrap_id 64 (code_ptr s2)) at 2 by done. f_equal. lia.
Qed.
End Resolved.

Lemma near_jump dest lo hi :
  in_u 64 dest -> dest <= lo -> hi + 5 <= dest + 2 ^ 31 -> near dest lo hi.
Proof.
  intros Hd Hlo Hhi p Hp. rewrite swrap_id; unfold in_u, in_s in *; lia.
Qed.

(** Everything about an access but its helper call. *)
Lemma access_placed m s ld opc datalo addrlo mem_index hit Rhit Rmiss :
  accesses m s ld opc datalo addrlo mem_index hit Rhit Rmiss -> 0 <= s.(code_buf) ->
  exists s1 l, m s = Ok (tt, s1) /\ s1.(ldst_labels) = s.(ldst_labels) ++ [l] /\
    l.(l_opc) = opc /\ l.(datalo_reg) = datalo /\ l.(raddr) = code_ptr s1 /\
    l.(l_mem_index) = mem_index /\
    forall s2 more, s2.(code) = s1.(code) ++ more -> s2.(code_buf) = s1.(code_buf) ->
      in_u 64 (code_ptr s2) -> code_ptr s2 < l.(label_ptr) + 2 ^ 31 ->
      label_inside l s2 /\ in_u 64 (code_ptr s1) /\ code_ptr s1 <= code_ptr s2 /\
      forall bs cd d,
        code_at cd s2.(code_buf) (code (add_code bs (patched l s2))) -> wf d ->
        code_at cd (code_ptr s2) bs /\
        exists pc' d', steps cd (code_ptr s, d) (pc', d') /\ wf d' /\
          if hit d then pc' = code_ptr s1 /\ Rhit d d' else pc' = code_ptr s2 /\ Rmiss d d'.
Proof.
  intros Hacc Hb0. pose proof Hacc as (b1 & hole & b2 & Hhole & E & _). cbn zeta in E.
  eexists _, _. split; [exact E|]. split; [reflexivity|].
  match type of E with _ = Ok (tt, ?x) => set (s1 := x) in * end.
  set (l := mkLdst _ _ _ _ _ _ _ _ (code_ptr s + Z.of_nat (length b1))).
  destruct (access_label m s s1 ld opc datalo addrlo mem_index hit Rhit Rmiss l Hacc E eq_refl)
    as (_ & Hlp & Hlr & Hra).
  do 4 (split; [done|]). intros s2 more Hc2 Hbuf2 Hp Hnear.
  split; [by eapply access_label_inside|]. rewrite <- Hra.
  assert (code_ptr s1 <= code_ptr s2) as H12
    by (unfold code_ptr; rewrite Hc2, Hbuf2, length_app; lia).
  assert (0 <= code_ptr s) as H0 by (unfold code_ptr; lia).
  split; [unfold in_u in *; lia|]. split; [lia|]. intros bs cd d Hc Hwf.
  by eapply (access_resolved _ s s1 s2).
Qed.

(** C1: A guest load is correct, traced or not.  The load and, at any place
    behind it in the block, its slow path are emitted; running the finished code
    from the load ends, on a TLB hit, behind it, with the value in [datalo], the
    requested ones of address, size and value in the fetch shadow area and nothing else
    changed, but that for the physical address the host address plus 10000 is recorded,
    which is no physical address of the access.  On a miss it reaches the MMU helper with env, the guest address, the
    MMU index and the address behind the load as arguments; when the helper
    returns, the code continues behind the load with the helper's result, sign
    extended if the load is, in [datalo].  On a miss only the address and the size
    have been recorded, whatever is asked for. *)
Theorem guest_load_correct (ld_helper : Z -> Z) datalo addrlo opc idx s :
  let t := QTRACE_EXT_MEMTRACE idx in let mem_index := QTRACE_EXT_MEMINDEX idx in
  let s_bits := Z.land opc MO_SIZE in let helper := ld_helper (Z.land opc (Z.lnot MO_SIGN)) in
  layout_ok -> reg_ok datalo -> datalo <> TCG_AREG0 -> memop_ok opc ->
  access_ok addrlo mem_index s_bits ofs_addr_read ->
  Z.of_nat (length s.(ldst_labels)) < TCG_MAX_QEMU_LDST -> 0 <= s.(code_buf) -> in_u 64 helper ->
  exists s1 l, tcg_out_qemu_ld datalo addrlo opc idx s = Ok (tt, s1) /\
    s1.(ldst_labels) = s.(ldst_labels) ++ [l] /\ l.(raddr) = code_ptr s1 /\
    forall s2 more, s2.(code) = s1.(code) ++ more -> s2.(code_buf) = s1.(code_buf) ->
      in_u 64 (code_ptr s2) -> code_ptr s2 < l.(label_ptr) + 2 ^ 31 ->
      exists s3 ret, tcg_out_qemu_ld_slow_path ld_helper l s2 = Ok (tt, s3) /\
        forall cd d, code_at cd s3.(code_buf) s3.(code) -> wf d ->
          if guest_hit addrlo mem_index s_bits ofs_addr_read d then
            exists d', steps cd (code_ptr s, d) (code_ptr s1, d') /\
              (ram_apart ofs_addr_read addrlo mem_index opc d ->
                 ld_hit_post t mem_index datalo addrlo opc d d')
          else
            exists d1 d', steps cd (code_ptr s, d) (helper, d') /\
              started (fetch_bit t sf_bsize) (fetch_bit t sf_vaddr) false addrlo mem_index
                s_bits ofs_addr_read (fun d => regs d addrlo) d d1 /\
              ld_helper_entry l ret d1 d' /\
              forall d2, wf d2 -> in_u (8 * Z.of_nat (mo_bytes opc)) (regs d2 TCG_REG_RAX) ->
                code_ptr s3 + 5 <= code_ptr s1 + 2 ^ 31 ->
                exists d3, steps cd (ret, d2) (code_ptr s1, d3) /\
                  sets_reg datalo (helper_result opc (regs d2 TCG_REG_RAX)) d2 d3.
Proof.
  cbn zeta. intros Hl Hd Hne Hm Ha Hn Hb0 Hh.
  destruct (access_placed _ _ _ _ _ _ _ _ _ _
    (qemu_ld_traced datalo addrlo opc idx s Hl Hd Hne Hm Ha Hn) Hb0)
    as (s1 & l & E & El & Eo & Ed & Er & _ & Hplaced).
  exists s1, l. split; [done|]. split; [done|]. split; [done|].
  intros s2 more Hc2 Hbuf2 Hp Hnear.
  destruct (Hplaced s2 more Hc2 Hbuf2 Hp Hnear) as (Hin & Hr & H12 & Hres).
  destruct (ld_slow_path_spec ld_helper l s2 Hin) as (c1 & c2 & E3 & Scall & Sret);
    rewrite ?Eo, ?Ed, ?Er in *; try done.
  exists (add_code (c1 ++ c2) (patched l s2)), (code_ptr s2 + Z.of_nat (length c1)).
  split; [done|]. intros cd d Hc Hwf.
  destruct (Hres _ cd d Hc Hwf) as ([Hc1 Hcr]%code_at_app & pc' & d1 & T1 & W1 & Q).
  destruct (guest_hit _ _ _ _ d); destruct Q as [-> Q]; [by exists d1|].
  destruct (Scall cd d1 W1 Hc1) as (d2 & T2 & Q2). exists d1, d2.
  split; [by etrans|]. split; [done|]. split; [done|]. intros d3 W3 Hv Hfar.
  apply Sret; [done|done|done|].
  rewrite code_ptr_add, (proj2 (resolve_label_patched l s2 Hin)), length_app in Hfar.
  apply near_jump; [done|lia|lia].
Qed.

(** C2: A guest store is correct, traced or not.  As for loads: on a TLB hit the
    code ends behind the store with the value of [datalo] in guest memory, the
    requested ones of address, size, old and new bytes in the store shadow area,
    and nothing else changed, but that for the physical address the host address plus 10000
    is recorded; on a miss it reaches the MMU helper with its
    arguments and with the address behind the store as its return address. *)
Theorem guest_store_correct (st_helper : Z -> Z) datalo addrlo opc idx s :
  let t := QTRACE_EXT_MEMTRACE idx in let mem_index := QTRACE_EXT_MEMINDEX idx in
  let s_bits := Z.land opc MO_SIZE in
  layout_ok -> reg_ok datalo -> datalo <> TCG_REG_L0 -> datalo <> TCG_REG_L1 -> memop_ok opc ->
  access_ok addrlo mem_index s_bits ofs_addr_write ->
  Z.of_nat (length s.(ldst_labels)) < TCG_MAX_QEMU_LDST -> 0 <= s.(code_buf) ->
  in_u 64 (st_helper opc) ->
  exists s1 l, tcg_out_qemu_st datalo addrlo opc idx s = Ok (tt, s1) /\
    s1.(ldst_labels) = s.(ldst_labels) ++ [l] /\ l.(raddr) = code_ptr s1 /\
    forall s2 more, s2.(code) = s1.(code) ++ more -> s2.(code_buf) = s1.(code_buf) ->
      in_u 64 (code_ptr s2) -> code_ptr s2 < l.(label_ptr) + 2 ^ 31 ->
      exists s3, tcg_out_qemu_st_slow_path st_helper l s2 = Ok (tt, s3) /\
        forall cd d, code_at cd s3.(code_buf) s3.(code) -> wf d ->
          if guest_hit addrlo mem_index s_bits ofs_addr_write d then
            exists d', steps cd (code_ptr s, d) (code_ptr s1, d') /\
              (ram_apart ofs_addr_write addrlo mem_index opc d ->
                 st_hit_post t mem_index datalo addrlo opc d d')
          else
            exists d1 d', steps cd (code_ptr s, d) (st_helper opc, d') /\
              started (store_bit t sf_bsize) (store_bit t sf_vaddr) false addrlo mem_index
                s_bits ofs_addr_write (fun d => regs d addrlo) d d1 /\
              st_helper_entry l d1 d'.
Proof.
  cbn zeta. intros Hl Hd Hne0 Hne1 Hm Ha Hn Hb0 Hh.
  destruct (access_placed _ _ _ _ _ _ _ _ _ _
    (qemu_st_traced datalo addrlo opc idx s Hl Hd Hne0 Hne1 Hm Ha Hn) Hb0)
    as (s1 & l & E & El & Eo & Ed & Er & _ & Hplaced).
  exists s1, l. split; [done|]. split; [done|]. split; [done|].
  intros s2 more Hc2 Hbuf2 Hp Hnear.
  destruct (Hplaced s2 more Hc2 Hbuf2 Hp Hnear) as (Hin & Hr & H12 & Hres).
  destruct (st_slow_path_spec st_helper l s2 Hin) as (bs & E3 & Scall); rewrite ?Eo, ?Ed, ?Er in *; try done.
  exists (add_code bs (patched l s2)). split; [done|]. intros cd d Hc Hwf.
  destruct (Hres _ cd d Hc Hwf) as (Hcs & pc' & d1 & T1 & W1 & Q).
  destruct (guest_hit _ _ _ _ d); destruct Q as [-> Q].
  - exists d1. split; [done|]. intros Hram. by apply Q.
  - destruct (Scall cd d1 W1 Hcs) as (d2 & T2 & Q2). exists d1, d2. split; [by etrans|]. done.
Qed.
End SlowPath.

Lemma demo_layout_ok : layout_ok.
Proof. split; cbn; lia. Qed.

Lemma guest_load_correct_witness :
  exists s1 l, tcg_out_qemu_ld TCG_REG_RBX TCG_REG_EBP MO_UL
      (QTRACE_ADD_MEMTRACE 1 (Z.lor QTRACE_MEMTRACE_FETCH_VMA QTRACE_MEMTRACE_FETCH_PREOP_VALUE))
      demo_ctx = Ok (tt, s1) /\ s1.(ldst_labels) = [l] /\ l.(raddr) = code_ptr s1.
Proof.
  destruct (guest_load_correct (fun opc => 0x400000 + opc) TCG_REG_RBX TCG_REG_EBP MO_UL
    (QTRACE_ADD_MEMTRACE 1 (Z.lor QTRACE_MEMTRACE_FETCH_VMA QTRACE_MEMTRACE_FETCH_PREOP_VALUE))
    demo_ctx) as (s1 & l & E & El & Er & _);
    [exact demo_layout_ok|opc_side|done|by vm_compute| |done|done|by vm_compute
    |exists s1, l; done].
  split; [opc_side|done|done|by vm_compute|by vm_compute|by left].
Defined.

Lemma guest_store_correct_witness :
  exists s1 l, tcg_out_qemu_st TCG_REG_RBX TCG_REG_EBP MO_UW
      (QTRACE_ADD_MEMTRACE 2 (Z.lor QTRACE_MEMTRACE_STORE_VPMA QTRACE_MEMTRACE_STORE_PSTOP_VALUE))
      demo_ctx = Ok (tt, s1) /\ s1.(ldst_labels) = [l] /\ l.(raddr) = code_ptr s1.
Proof.
  destruct (guest_store_correct (fun opc => 0x400000 + opc) TCG_REG_RBX TCG_REG_EBP MO_UW
    (QTRACE_ADD_MEMTRACE 2 (Z.lor QTRACE_MEMTRACE_STORE_VPMA QTRACE_MEMTRACE_STORE_PSTOP_VALUE))
    demo_ctx) as (s1 & l & E & El & Er & _);
    [exact demo_layout_ok|opc_side|done|done|by vm_compute| |done|done|by vm_compute
    |exists s1, l; done].
  split; [opc_side|done|done|by vm_compute|by vm_compute|by right].
Defined.
