(* ===== verification/InstrCall.v ===== *)
(** * Calls of instrumentation functions

    tcg/i386/tcg-target.c: the code that loads the parameters of an
    instrumentation function from the CPU state and calls it, and the operations
    at the end of a translation block that lead to this code. *)

From S2P Require Import Prelude QtraceDefs IContext Interpret X86 TcgOut TcgEnc TcgEmit.
From S2P Require Import TcgCond TcgLabel TlbLoad QemuLdSt MemTrace SlowPath.

(** ** Model *)

Definition lift {A} (r : res A) : out A := fun s =>
  match r with Ok a => Ok (a, s) | Err e => Err e end.

Section Model.
Context `{L : CPULayout}.

Definition iarg_reg (k : nat) : Z := default 0 (tcg_target_call_iarg_regs !! k).

(** The common part of the two functions below: the value at [offset] of the CPU
    state, or of the shadow CPU state for calls before the instruction. *)
Definition qtrace_reg_instrument (icontext : InstrumentContext) (rm : nat) (offset : Z) : out unit :=
  if QTRACE_PREINST icontext then
    tcg_out_qemu_ld_direct TCG_REG_RAX TCG_AREG0 ofs_shadowcpu_offset MO_Q ;;
    tgen_arithr (ARITH_ADD + P_REXW) TCG_REG_RAX TCG_AREG0 ;;
    tcg_out_modrm_offset (OPC_MOVL_GvEv + P_REXW) (iarg_reg rm) TCG_REG_RAX offset
  else tcg_out_modrm_offset (OPC_MOVL_GvEv + P_REXW) (iarg_reg rm) TCG_AREG0 offset.

Definition qtrace_stk_instrument (icontext : InstrumentContext) (offset : Z) : out unit :=
  if QTRACE_PREINST icontext then
    tcg_out_qemu_ld_direct TCG_REG_RAX TCG_AREG0 ofs_shadowcpu_offset MO_Q ;;
    tgen_arithr (ARITH_ADD + P_REXW) TCG_REG_RAX TCG_AREG0 ;;
    tcg_out_modrm_offset (OPC_MOVL_GvEv + P_REXW) TCG_REG_RAX TCG_REG_RAX offset ;;
    tcg_out_push TCG_REG_RAX
  else
    tcg_out_modrm_offset (OPC_MOVL_GvEv + P_REXW) TCG_REG_RAX TCG_AREG0 offset ;;
    tcg_out_push TCG_REG_RAX.

Definition regcount : nat := length tcg_target_call_iarg_regs.
Definition STACK_OFFSETS : nat := 128.

Definition mem_args : list Z :=
  [QTRACE_MEMTRACE_FETCH_VMA; QTRACE_MEMTRACE_FETCH_PMA; QTRACE_MEMTRACE_FETCH_MSIZE;
   QTRACE_MEMTRACE_FETCH_PREOP_VALUE; QTRACE_MEMTRACE_FETCH_PSTOP_VALUE;
   QTRACE_MEMTRACE_STORE_VMA; QTRACE_MEMTRACE_STORE_PMA; QTRACE_MEMTRACE_STORE_MSIZE;
   QTRACE_MEMTRACE_STORE_PREOP_VALUE; QTRACE_MEMTRACE_STORE_PSTOP_VALUE].

(** The switch: the offset of a parameter, the index of its last word and the
    count of parameters. *)
Definition instr_arg (icontext : InstrumentContext) (idx paramcount : Z) : res (Z * Z * Z) :=
  code ← array_get icontext.(iargs) idx;
  if code =? QTRACE_REGTRACE_VALUE then
    offset ← array_get icontext.(iargs) (idx + 1); mret (offset, idx + 1, u32 (paramcount + 1))
  else if existsb (Z.eqb code) mem_args then
    offset ← array_get icontext.(iargs) (idx + 1); mret (offset, idx + 1, paramcount)
  else if code =? QTRACE_PROCESS_UPID then mret (ofs_cr + 8 * 3, idx, paramcount)
  else mret (0, idx, paramcount).

(** The loop over the arguments; [stack_offset] collects the parameters that do
    not fit into registers. *)
Fixpoint instr_args (fuel : nat) (icontext : InstrumentContext) (idx : Z) (currreg : nat)
    (paramcount : Z) (stack_offset : list Z) : out (Z * list Z) :=
  if idx <? icontext.(ciarg) then
    match fuel with
    | O => fail OutOfFuel
    | S fuel =>
        '(offset, idx, paramcount) ← lift (instr_arg icontext idx paramcount);
        if (currreg <? regcount)%nat then
          qtrace_reg_instrument icontext currreg (s32 offset) ;;
          instr_args fuel icontext (idx + 1) (S currreg) paramcount stack_offset
        else if (length stack_offset <? STACK_OFFSETS)%nat then
          instr_args fuel icontext (idx + 1) currreg paramcount (stack_offset ++ [offset])
        else fail OutOfBounds
    end
  else mret (paramcount, stack_offset).

(** The parameters on the stack, the last one first. *)
Fixpoint instr_stack (icontext : InstrumentContext) (offsets : list Z) : out unit :=
  match offsets with
  | [] => skip
  | offset :: offsets =>
      qtrace_stk_instrument icontext (s32 offset) ;; instr_stack icontext offsets
  end.

Definition tcg_qtrace_instrument_call (icontext : InstrumentContext) : out unit :=
  '(paramcount, stack_offset) ←
    instr_args (Z.to_nat icontext.(ciarg)) icontext 0 0 0 [];
  instr_stack icontext (reverse stack_offset) ;;
  (if icontext.(ifun) =? 0 then fail AssertFailed else skip) ;;
  tcg_out_calli icontext.(ifun) ;;
  when_out (Z.of_nat regcount <? paramcount)
    (tcg_out_addi TCG_REG_ESP (8 * (paramcount - Z.of_nat regcount))).

(** The contexts of an instruction; [h] is the heap of contexts. *)
Fixpoint out_instrumentation_call (fuel : nat) (h : gmap Z InstrumentContext) (ictx select : Z)
    (instrumented : bool) : out bool :=
  if ictx =? NULL then mret instrumented
  else match fuel with
       | O => fail OutOfFuel
       | S fuel =>
           match h !! ictx with
           | None => fail UseAfterFree
           | Some c =>
               if c.(ipoint) =? select then
                 tcg_qtrace_instrument_call c ;;
                 out_instrumentation_call fuel h c.(next) select true
               else out_instrumentation_call fuel h c.(next) select instrumented
           end
       end.

Definition tcg_qtrace_out_instrumentation_call (h : gmap Z InstrumentContext) (ictx select : Z)
    : out bool := out_instrumentation_call (size h) h ictx select false.
End Model.

(** ** Parameters *)

Section Calls.
Context `{L : CPULayout}.

(** The base of the CPU state that a parameter is read from. *)
Definition arg_base (pre : bool) (d : dstate) : Z :=
  let env := regs d TCG_AREG0 in
  if pre then u64 (load 8 (env + ofs_shadowcpu_offset) (dmem d) + env) else env.

Definition arg_value (pre : bool) (d : dstate) (offset : Z) : Z :=
  load 8 (arg_base pre d + offset) (dmem d).

Lemma load64_computes r b ofs :
  reg_ok r -> reg_ok b -> in_s 32 ofs ->
  computes (tcg_out_modrm_offset (OPC_MOVL_GvEv + P_REXW) r b ofs)
    (fun d d' => sets_reg r (load 8 (regs d b + ofs) (dmem d)) d d').
Proof.
  intros Hr Hb Ho. apply computes_one with (i := IMovRM W64 r (EMem (Some b) None ofs)).
  - apply straight_modrm_offset; opc_side.
  - intros d Hwf. destruct (ld_sets r b ofs d Hwf) as (d' & E & S). exists d'.
    by rewrite load_u64 in S.
Qed.

Lemma addr_computes dst src :
  reg_ok dst -> reg_ok src ->
  computes (tgen_arithr (ARITH_ADD + P_REXW) dst src)
    (fun d d' => sets_reg dst (u64 (regs d dst + regs d src)) d d').
Proof.
  intros Hd Hs. eapply straight_computes; [by apply (straight_arithr Add TCG_TYPE_I64)|].
  intros d Hwf. unfold run1. cbn [exec_plain twidth].
  destruct (do_arith_reg Add TCG_TYPE_I64 dst (read_reg W64 dst d) (read_ea W64 0 (EReg src) d)
    (fun v d => write_reg W64 dst v d) d) as (d' & E & S); try done.
  - apply wrap_range; cbn; lia.
  - apply wrap_range; cbn; lia.
  - intros v x. apply (sets_reg_t TCG_TYPE_I64).
  - exists d'. split; [exact E|]. eapply sets_reg_eq; [exact S|].
    cbn [arith_result twidth wbits read_ea read_reg]. by rewrite wrap_add_l, wrap_add_r.
Qed.

(** The address of the CPU state a parameter is read from, in %rax. *)
Lemma shadow_base_computes :
  in_s 32 ofs_shadowcpu_offset ->
  computes (tcg_out_qemu_ld_direct TCG_REG_RAX TCG_AREG0 ofs_shadowcpu_offset MO_Q ;;
            tgen_arithr (ARITH_ADD + P_REXW) TCG_REG_RAX TCG_AREG0)
    (fun d d' => sets_reg TCG_REG_RAX (arg_base true d) d d').
Proof.
  intros Ho. eapply computes_ext; [apply computes_comp|].
  - apply ld_direct_computes; [opc_side|opc_side|done|by vm_compute].
  - apply addr_computes; opc_side.
  - cbv beta. intros d d2 _ (d1 & (R1 & O1 & M1) & R2 & O2 & M2). split_and!; [|auto|congruence].
    + rewrite R2, R1, (O1 TCG_AREG0) by done. reflexivity.
    + intros r Hr. by rewrite O2, O1.
Qed.

Lemma iarg_reg_ok k : (k < regcount)%nat -> reg_ok (iarg_reg k) /\ iarg_reg k <> TCG_AREG0 /\
  iarg_reg k <> TCG_REG_RAX /\ iarg_reg k <> RSP.
Proof.
  intros Hk. do 6 (destruct k as [|k]; [vm_compute; intuition congruence|]).
  exfalso. vm_compute in Hk. lia.
Qed.

Lemma iarg_reg_inj i j :
  (i < regcount)%nat -> (j < regcount)%nat -> iarg_reg i = iarg_reg j -> i = j.
Proof.
  intros Hi Hj. do 6 (destruct i as [|i];
    [do 6 (destruct j as [|j]; [by vm_compute|]); exfalso; vm_compute in Hj; lia|]).
  exfalso. vm_compute in Hi. lia.
Qed.

Lemma computes_assoc (a b c : out unit) R : computes ((a ;; b) ;; c) R -> computes (a ;; b ;; c) R.
Proof.
  intros H s. destruct (H s) as (bs & E & S). exists bs. split; [|done].
  unfold emitted, mbind, out_bind in *. by destruct (a s) as [[? s1]|].
Qed.

(** A parameter in a register. *)
Lemma reg_param_computes c k ofs :
  in_s 32 ofs_shadowcpu_offset -> in_s 32 ofs -> (k < regcount)%nat ->
  computes (qtrace_reg_instrument c k ofs)
    (fun d d' => regs d' (iarg_reg k) = arg_value (QTRACE_PREINST c) d ofs /\
       keeps_regs [TCG_REG_RAX; iarg_reg k] d d' /\ dmem d' = dmem d).
Proof.
  intros Hs Ho Hk. destruct (iarg_reg_ok k Hk) as (Hr & _ & Hne & _).
  unfold qtrace_reg_instrument. destruct (QTRACE_PREINST c).
  - apply computes_assoc. eapply computes_ext; [apply computes_comp|].
    + by apply shadow_base_computes.
    + apply load64_computes; [done|opc_side|done].
    + cbv beta. intros d d2 _ (d1 & (R1 & O1 & M1) & R2 & O2 & M2).
      split_and!; [by rewrite R2, R1, M1| |congruence].
      intros r Hn. rewrite !elem_of_cons in Hn. rewrite O2, O1; tauto.
  - eapply computes_ext; [apply load64_computes; [done|opc_side|done]|].
    cbv beta. intros d d' _ (R & O & M). split_and!; [done| |done].
    intros r Hn. rewrite !elem_of_cons in Hn. apply O. tauto.
Qed.

(** A parameter on the stack. *)
Definition pushes (pre : bool) (ofs : Z) (d d' : dstate) : Prop :=
  regs d' RSP = u64 (regs d RSP - 8) /\
  dmem d' = store 8 (regs d RSP - 8) (arg_value pre d ofs) (dmem d) /\
  keeps_regs [TCG_REG_RAX; RSP] d d'.

Lemma push_rax_computes :
  computes (tcg_out_push TCG_REG_RAX)
    (fun d d' => regs d' RSP = u64 (regs d RSP - 8) /\
       dmem d' = store 8 (regs d RSP - 8) (regs d TCG_REG_RAX) (dmem d) /\ keeps_regs [RSP] d d').
Proof.
  eapply computes_one; [apply straight_push; opc_side|]. intros d Hwf.
  eexists; split; [reflexivity|]. split_and!.
  - apply regs_set_same.
  - cbn [push64 set_mem dmem set_reg]. by rewrite store_u64.
  - intros r Hn. apply regs_set_other. intros ->. apply Hn. in_list.
Qed.

Lemma stk_param_computes c ofs :
  in_s 32 ofs_shadowcpu_offset -> in_s 32 ofs ->
  computes (qtrace_stk_instrument c ofs) (pushes (QTRACE_PREINST c) ofs).
Proof.
  intros Hs Ho. unfold qtrace_stk_instrument. destruct (QTRACE_PREINST c).
  - apply computes_assoc. eapply computes_ext; [apply computes_comp; [|apply computes_comp]|].
    + by apply shadow_base_computes.
    + apply load64_computes; [opc_side|opc_side|done].
    + apply push_rax_computes.
    + cbv beta. intros d d3 _ (d1 & (R1 & O1 & M1) & d2 & (R2 & O2 & M2) & R3 & M3 & O3).
      assert (regs d2 RSP = regs d RSP) as Esp by (rewrite O2, O1; done).
      split_and!; [by rewrite R3, Esp|by rewrite M3, M2, Esp, R2, R1, M1|].
      intros r Hn. rewrite !elem_of_cons in Hn. rewrite O3, O2, O1;
        rewrite ?elem_of_cons, ?elem_of_nil; tauto.
  - eapply computes_ext; [apply computes_comp|].
    + apply load64_computes; [opc_side|opc_side|done].
    + apply push_rax_computes.
    + cbv beta. intros d d2 _ (d1 & (R1 & O1 & M1) & R2 & M2 & O2).
      split_and!; [by rewrite R2, O1|by rewrite M2, R1, M1, O1|].
      intros r Hn. rewrite !elem_of_cons in Hn. rewrite O2, O1;
        rewrite ?elem_of_cons, ?elem_of_nil; tauto.
Qed.

(** ** Parameters in registers *)

Fixpoint load_regs (c : InstrumentContext) (k : nat) (offs : list Z) : out unit :=
  match offs with
  | [] => skip
  | o :: offs => qtrace_reg_instrument c k o ;; load_regs c (S k) offs
  end.

Definition regs_loaded (pre : bool) (k : nat) (offs : list Z) (d d' : dstate) : Prop :=
  (forall i o, offs !! i = Some o -> regs d' (iarg_reg (k + i)) = arg_value pre d o) /\
  (forall r, r <> TCG_REG_RAX ->
     (forall i, (k <= i < k + length offs)%nat -> r <> iarg_reg i) -> regs d' r = regs d r) /\
  dmem d' = dmem d.

Lemma computes_skip_eq : computes skip (fun d d' => d' = d).
Proof. eapply straight_computes; [apply straight_skip|]. intros d _. by exists d. Qed.

Lemma load_regs_computes c offs k :
  in_s 32 ofs_shadowcpu_offset -> Forall (in_s 32) offs -> (k + length offs <= regcount)%nat ->
  computes (load_regs c k offs) (regs_loaded (QTRACE_PREINST c) k offs).
Proof.
  intros Hs. revert k. induction offs as [|o offs IH]; intros k Ho Hk; cbn [load_regs].
  { eapply computes_ext; [apply computes_skip_eq|]. cbv beta. intros d d' _ ->. done. }
  inversion_clear Ho as [|? ? Ho1 Ho2]. cbn [length] in Hk.
  eapply computes_ext; [apply computes_comp; [apply reg_param_computes|apply IH]|];
    [done|done|lia|done|lia|].
  cbv beta. intros d d2 _ (d1 & (R1 & O1 & M1) & R2 & O2 & M2).
  assert (forall r, r <> TCG_REG_RAX -> r <> iarg_reg k -> regs d1 r = regs d r) as O1'.
  { intros r H1 H2. apply O1. rewrite !elem_of_cons, elem_of_nil. tauto. }
  assert (forall o', arg_value (QTRACE_PREINST c) d1 o' = arg_value (QTRACE_PREINST c) d o') as Ev.
  { intros o'. unfold arg_value, arg_base. destruct (iarg_reg_ok k) as (_ & H1 & _ & _); [lia|].
    by rewrite M1, (O1' TCG_AREG0) by (done || congruence). }
  split_and!; [| |congruence].
  - intros [|i] o' E; cbn in E.
    + injection E as <-. rewrite Nat.add_0_r, O2; [done| |].
      * apply iarg_reg_ok. lia.
      * intros i Hi E. apply iarg_reg_inj in E; lia.
    + rewrite <- Ev. replace (k + S i)%nat with (S k + i)%nat by lia. by apply R2.
  - intros r H1 H2. cbn [length] in H2. rewrite O2; [apply O1'|done|]; [done| |].
    + apply H2. lia.
    + intros i Hi. apply H2. lia.
Qed.

(** ** Parameters on the stack *)

(** The addresses that the parameters are read from. *)
Definition arg_addrs (pre : bool) (offs : list Z) (d : dstate) : list Z :=
  (if pre then [regs d TCG_AREG0 + ofs_shadowcpu_offset] else []) ++
  ((fun o => arg_base pre d + o) <$> offs).

(** The [n] words below the stack pointer are not among them. *)
Definition stack_apart (pre : bool) (offs : list Z) (n : nat) (d : dstate) : Prop :=
  forall a i, a ∈ arg_addrs pre offs d -> (i < n)%nat ->
    sep 8 a 8 (regs d RSP - 8 * (Z.of_nat i + 1)).

Record pushed (pre : bool) (offs : list Z) (d d' : dstate) : Prop := {
  pu_rsp : regs d' RSP = u64 (regs d RSP - 8 * Z.of_nat (length offs));
  pu_slots : forall i o, offs !! i = Some o ->
    load 8 (regs d RSP - 8 * (Z.of_nat i + 1)) (dmem d') = arg_value pre d o;
  pu_frame : forall n a, (forall i, (i < length offs)%nat ->
      sep n a 8 (regs d RSP - 8 * (Z.of_nat i + 1))) ->
    load n a (dmem d') = load n a (dmem d);
  pu_regs : keeps_regs [TCG_REG_RAX; RSP] d d'
}.

Lemma sep_cong n a k b b' : u64 b = u64 b' -> sep n a k b -> sep n a k b'.
Proof.
  unfold sep. intros E [H1 H2].
  rewrite <- (wrap_sub_l 64 b' a), <- E, wrap_sub_l.
  rewrite <- (wrap_sub_r 64 a b'), <- E, wrap_sub_r. done.
Qed.

Lemma load_cong n a b m : u64 a = u64 b -> load n a m = load n b m.
Proof. intros E. rewrite <- (load_u64 n a), E. apply load_u64. Qed.

Lemma slot_cong d d1 i :
  regs d1 RSP = u64 (regs d RSP - 8) ->
  u64 (regs d1 RSP - 8 * (Z.of_nat i + 1)) = u64 (regs d RSP - 8 * (Z.of_nat (S i) + 1)).
Proof. intros ->. rewrite wrap_sub_l. f_equal. lia. Qed.

Section Push.
Context (pre : bool) (o : Z) (offs : list Z) (d d1 d2 : dstate).
Hypothesis Hwf : wf d.
Hypothesis Hpush : pushes pre o d d1.
Hypothesis Hap : stack_apart pre (o :: offs) (S (length offs)) d.

Lemma push_frame n a : sep n a 8 (regs d RSP - 8) -> load n a (dmem d1) = load n a (dmem d).
Proof. intros Hn. destruct Hpush as (_ & M & _). rewrite M. by apply load_store_other. Qed.

Lemma push_first a : a ∈ arg_addrs pre (o :: offs) d -> load 8 a (dmem d1) = load 8 a (dmem d).
Proof. intros Ha. apply push_frame. apply (Hap a 0%nat Ha). lia. Qed.

Lemma push_base : regs d1 TCG_AREG0 = regs d TCG_AREG0 /\ arg_base pre d1 = arg_base pre d.
Proof.
  assert (regs d1 TCG_AREG0 = regs d TCG_AREG0) as E.
  { destruct Hpush as (_ & _ & O). apply O. rewrite !elem_of_cons, elem_of_nil.
    intros [?|[?|[]]]; done. }
  split; [done|]. pose proof push_first as Hf. unfold arg_base, arg_addrs in *. rewrite E.
  destruct pre; [|done]. rewrite Hf; [done|]. apply elem_of_app. left. in_list.
Qed.

Lemma push_value o' : o' ∈ o :: offs -> arg_value pre d1 o' = arg_value pre d o'.
Proof.
  intros Ho. unfold arg_value. rewrite (proj2 push_base). apply push_first.
  apply elem_of_app. right. apply list_elem_of_fmap. by exists o'.
Qed.

Lemma push_apart : stack_apart pre offs (length offs) d1.
Proof.
  intros a i Ha Hi. destruct Hpush as (R & _). eapply sep_cong; [symmetry; by apply slot_cong|].
  apply Hap; [|lia]. destruct push_base as [E1 E2]. unfold arg_addrs in *. rewrite E1, E2 in Ha.
  rewrite fmap_cons. apply elem_of_app. apply elem_of_app in Ha as [Ha|Ha]; [by left|right].
  rewrite elem_of_cons. by right.
Qed.

Lemma pushed_cons :
  (length offs <= 1000)%nat -> pushed pre offs d1 d2 -> pushed pre (o :: offs) d d2.
Proof.
  intros Hlen [R2 S2 F2 O2]. pose proof push_value as Hv. destruct Hpush as (R1 & M1 & O1).
  assert (forall i, (i < length offs)%nat ->
    sep 8 (regs d RSP - 8) 8 (regs d1 RSP - 8 * (Z.of_nat i + 1))) as Hslots.
  { intros i Hi. eapply sep_cong; [symmetry; by apply slot_cong|].
    replace (regs d RSP - 8 * (Z.of_nat (S i) + 1)) with (regs d RSP + - 8 * (Z.of_nat (S i) + 1))
      by lia. apply sep_sym, sep_offsets; lia. }
  split.
  - rewrite R2, R1, wrap_sub_l. cbn [length]. f_equal. lia.
  - intros [|i] o' E; cbn in E.
    + injection E as <-. rewrite F2 by done. rewrite M1, (load_store_same 8) by lia.
      apply wrap_id. by apply (load_range 8).
    + rewrite <- (load_cong _ _ _ _ (slot_cong d d1 i R1)), (S2 i o' E). apply Hv.
      rewrite elem_of_cons. right. by eapply list_elem_of_lookup_2.
  - intros n a Hn. rewrite F2; [apply push_frame|].
    + apply (Hn 0%nat). cbn. lia.
    + intros i Hi. eapply sep_cong; [symmetry; by apply slot_cong|]. apply (Hn (S i)). cbn. lia.
  - intros r Hr. rewrite O2 by done. by apply O1.
Qed.
End Push.

Lemma instr_stack_computes c offs :
  in_s 32 ofs_shadowcpu_offset -> (length offs <= 1000)%nat ->
  computes (instr_stack c offs)
    (fun d d' => stack_apart (QTRACE_PREINST c) (s32 <$> offs) (length offs) d ->
       pushed (QTRACE_PREINST c) (s32 <$> offs) d d').
Proof.
  intros Hs. induction offs as [|o offs IH]; intros Hlen.
  { eapply computes_ext; [apply computes_skip_eq|]. cbv beta. intros d d' Hwf -> _.
    split; [|done..]. cbn. rewrite Z.sub_0_r. symmetry. apply wrap_id, Hwf. }
  cbn [instr_stack]. cbn [length] in Hlen.
  eapply computes_ext; [apply computes_comp; [apply stk_param_computes|apply IH; lia]|].
  { done. }
  { apply swrap_range. lia. }
  cbv beta. intros d d2 Hwf (d1 & H1 & H2) Hap. rewrite fmap_cons in *.
  cbn [length] in Hap. rewrite <- (length_fmap s32 offs) in Hap, H2.
  eapply pushed_cons; [done|done|exact Hap|rewrite length_fmap; lia|].
  apply H2. eapply push_apart; done.
Qed.

(** ** The argument loop on an interpreted context *)

Definition is_reg (p : param) : Z := match p with PReg _ => 1 | PMem _ => 0 end.
Definition nregs (ps : list param) : Z := foldr (fun p n => is_reg p + n) 0 ps.

Lemma nregs_range ps : 0 <= nregs ps <= Z.of_nat (length ps).
Proof.
  induction ps as [|p ps IH]; [done|]. change (nregs (p :: ps)) with (is_reg p + nregs ps).
  cbn [length]. destruct p; cbn [is_reg]; lia.
Qed.

Lemma mem_code_arg code :
  param_ok (PMem code) ->
  (code =? QTRACE_REGTRACE_VALUE) = false /\ existsb (Z.eqb code) mem_args = true.
Proof.
  intros [f Hf]. assert (exists o, mem_code_offset code = Some o) as [o H] by (exists (field_offset f); by rewrite mem_code_known, Hf).
  unfold mem_code_offset in H.
  repeat (match type of H with (if ?code =? ?k then _ else _) = _ =>
    destruct (Z.eqb_spec code k) as [->|]; [by split|] end). discriminate H.
Qed.

Lemma array_get_app dn x rest : array_get (dn ++ x :: rest) (Z.of_nat (length dn)) = Ok x.
Proof.
  unfold array_get. rewrite (proj2 (andb_true_iff _ _)), Nat2Z.id, list_lookup_middle; [done|done|].
  rewrite length_app. cbn [length]. lia.
Qed.

Lemma instr_arg_param c p dn rest pc :
  param_ok p -> c.(iargs) = dn ++ param_resolved p ++ rest -> in_u 32 (pc + 1) ->
  instr_arg c (Z.of_nat (length dn)) pc =
    Ok (param_offset p, Z.of_nat (length dn) + 1, pc + is_reg p).
Proof.
  intros Hp Hi Hpc. unfold instr_arg. rewrite Hi. cbn [param_resolved app].
  rewrite array_get_app. cbn [mbind res_bind].
  assert (array_get (dn ++ param_code p :: param_offset p :: rest) (Z.of_nat (length dn) + 1) =
          Ok (param_offset p)) as Eo.
  { change (dn ++ param_code p :: param_offset p :: rest) with
      (dn ++ [param_code p] ++ param_offset p :: rest). rewrite app_assoc.
    replace (Z.of_nat (length dn) + 1) with (Z.of_nat (length (dn ++ [param_code p])))
      by (rewrite length_app; cbn; lia). apply array_get_app. }
  destruct p as [r|code]; cbn [param_code is_reg] in *.
  - rewrite Z.eqb_refl, Eo. cbn [mbind res_bind]. by rewrite (wrap_id 32 (pc + 1)).
  - destruct (mem_code_arg code Hp) as [-> ->]. rewrite Eo. cbn [mbind res_bind].
    by rewrite Z.add_0_r.
Qed.

Lemma instr_args_params c ps rest : forall fuel dn k pc stk s,
  Forall param_ok ps -> c.(iargs) = dn ++ flat_map param_resolved ps ++ rest ->
  c.(ciarg) = Z.of_nat (length dn) + 2 * Z.of_nat (length ps) -> (length ps <= fuel)%nat ->
  (k <= regcount)%nat -> (length stk + length ps <= STACK_OFFSETS + (regcount - k))%nat ->
  (stk <> [] -> k = regcount) ->
  0 <= pc -> pc + Z.of_nat (length ps) < 2 ^ 32 ->
  let offs := param_offset <$> ps in
  instr_args fuel c (Z.of_nat (length dn)) k pc stk s =
  (load_regs c k (s32 <$> take (regcount - k) offs) ;;
   mret (pc + nregs ps, stk ++ drop (regcount - k) offs)) s.
Proof.
  induction ps as [|p ps IH]; intros fuel dn k pc stk s Hok Hi Hn Hf Hk Hlen Hstk Hpc Hpc'.
  { cbn zeta. rewrite fmap_nil, take_nil, drop_nil, fmap_nil, app_nil_r.
    cbn [load_regs nregs foldr]. unfold mbind, out_bind, skip, mret, out_ret.
    destruct fuel; cbn [instr_args]; rewrite Hn, (proj2 (Z.ltb_ge _ _)), Z.add_0_r by (cbn; lia); done. }
  cbn zeta. inversion_clear Hok as [|? ? Hp Hps]. cbn [length] in *.
  destruct fuel as [|fuel]; [lia|]. cbn [instr_args]. rewrite Hn, (proj2 (Z.ltb_lt _ _)) by lia.
  cbn [flat_map] in Hi. rewrite <- app_assoc in Hi.
  unfold mbind at 1, out_bind at 1, lift.
  rewrite (instr_arg_param c p dn _ pc Hp Hi) by (unfold in_u; lia).
  change (nregs (p :: ps)) with (is_reg p + nregs ps).
  assert (Z.of_nat (length dn) + 1 + 1 = Z.of_nat (length (dn ++ param_resolved p))) as En
    by (rewrite length_app; cbn; lia).
  assert (0 <= is_reg p <= 1) as Hr by (destruct p; cbn; lia).
  destruct (Nat.ltb_spec k regcount) as [Hlt|Hge].
  - assert (stk = []) as -> by (destruct stk; [done|]; specialize (Hstk ltac:(done)); lia).
    replace (regcount - k)%nat with (S (regcount - S k)) by lia.
    rewrite fmap_cons. cbn [take drop]. rewrite fmap_cons. cbn [load_regs].
    unfold mbind, out_bind.
    destruct (qtrace_reg_instrument c k (s32 (param_offset p)) s) as [[[] s1]|]; [|done].
    rewrite En, (IH fuel (dn ++ param_resolved p) (S k) _ [] s1); try done; try lia.
    + cbn zeta. unfold mbind, out_bind. by rewrite Z.add_assoc.
    + by rewrite <- app_assoc.
  - replace (regcount - k)%nat with 0%nat in * by lia. cbn [take drop] in *.
    rewrite (proj2 (Nat.ltb_lt _ _)) by lia.
    rewrite En, (IH fuel (dn ++ param_resolved p) k _ (stk ++ [param_offset p]) s); try done; try lia.
    + cbn zeta. replace (regcount - k)%nat with 0%nat by lia. rewrite fmap_cons. cbn [take drop].
      rewrite <- app_assoc, Z.add_assoc. done.
    + by rewrite <- app_assoc.
    + rewrite length_app. cbn [length]. lia.
Qed.

(** ** The call *)

Definition stack_params (ps : list param) : nat := (length ps - regcount)%nat.

(** The state in which all parameters are in place. *)
Record args_ready (pre : bool) (ps : list param) (d d' : dstate) : Prop := {
  ar_regs : forall i p, ps !! i = Some p -> (i < regcount)%nat ->
    regs d' (iarg_reg i) = arg_value pre d (param_offset p);
  ar_stack : forall i p, ps !! i = Some p -> (regcount <= i)%nat ->
    load 8 (regs d RSP - 8 * Z.of_nat (length ps - i)) (dmem d') =
    arg_value pre d (param_offset p);
  ar_rsp : regs d' RSP = u64 (regs d RSP - 8 * Z.of_nat (stack_params ps));
  ar_keep : keeps_regs (TCG_REG_RAX :: RSP :: tcg_target_call_iarg_regs) d d';
  ar_frame : forall n a, (forall i, (i < stack_params ps)%nat ->
      sep n a 8 (regs d RSP - 8 * (Z.of_nat i + 1))) ->
    load n a (dmem d') = load n a (dmem d)
}.

Definition offsets_ok (ps : list param) : Prop :=
  in_s 32 ofs_shadowcpu_offset /\ Forall (fun p => in_s 32 (param_offset p)) ps.

Lemma s32_offsets (l : list param) :
  Forall (fun p => in_s 32 (param_offset p)) l -> s32 <$> (param_offset <$> l) = param_offset <$> l.
Proof.
  induction 1 as [|p l Hp _ IH]; [done|]. rewrite !fmap_cons, IH, swrap_id by (done || lia). done.
Qed.

Lemma iarg_reg_elem i : (i < regcount)%nat -> iarg_reg i ∈ tcg_target_call_iarg_regs.
Proof.
  intros Hi. unfold iarg_reg. destruct (tcg_target_call_iarg_regs !! i) eqn:E.
  - by eapply list_elem_of_lookup_2.
  - apply lookup_ge_None in E. unfold regcount in Hi. lia.
Qed.

Lemma args_ready_intro pre ps d d1 d2 :
  let offs := param_offset <$> ps in
  regs_loaded pre 0 (take regcount offs) d d1 -> stack_apart pre offs (stack_params ps) d ->
  (stack_apart pre (reverse (drop regcount offs)) (stack_params ps) d1 ->
   pushed pre (reverse (drop regcount offs)) d1 d2) ->
  args_ready pre ps d d2.
Proof.
  intros offs (R1 & O1 & M1) Hap H2.
  assert (length offs = length ps) as Hlo by apply length_fmap.
  assert (forall r, r <> TCG_REG_RAX -> r ∉ tcg_target_call_iarg_regs -> regs d1 r = regs d r) as O1'.
  { intros r Hr Hn. apply O1; [done|]. intros i Hi ->. apply Hn, iarg_reg_elem.
    rewrite length_take in Hi. lia. }
  assert (regs d1 RSP = regs d RSP /\ regs d1 TCG_AREG0 = regs d TCG_AREG0) as [Esp Eenv]
    by (split; (apply O1'; [done|by apply (bool_decide_unpack (_ ∉ _))])).
  assert (arg_base pre d1 = arg_base pre d) as Eb by (unfold arg_base; by rewrite Eenv, M1).
  assert (forall o, arg_value pre d1 o = arg_value pre d o) as Ev
    by (intros o; unfold arg_value; by rewrite Eb, M1).
  destruct H2 as [R2 S2 F2 O2].
  { intros a i Ha Hi. rewrite Esp. apply Hap; [|done]. unfold arg_addrs in *.
    rewrite Eenv, Eb in Ha. apply elem_of_app. apply elem_of_app in Ha as [Ha|Ha]; [by left|right].
    apply list_elem_of_fmap in Ha as (o & -> & Ho). apply list_elem_of_fmap. exists o.
    split; [done|]. rewrite elem_of_reverse in Ho.
    rewrite <- (take_drop regcount offs), elem_of_app. by right. }
  rewrite length_reverse, length_drop, Hlo in *. rewrite Esp in *.
  assert (forall i p, ps !! i = Some p -> offs !! i = Some (param_offset p)) as El
    by (intros i p H; unfold offs; by rewrite list_lookup_fmap, H).
  split; [| |done| |].
  - intros i p Hp Hi. rewrite O2.
    + apply (R1 i (param_offset p)). rewrite lookup_take_lt by done. by apply El.
    + destruct (iarg_reg_ok i Hi) as (_ & _ & H3 & H4). rewrite !elem_of_cons, elem_of_nil. tauto.
  - intros i p Hp Hi. rewrite <- Ev. pose proof (lookup_lt_Some _ _ _ Hp).
    rewrite <- (S2 (length ps - S i)%nat); [f_equal; lia|].
    rewrite reverse_lookup by (rewrite length_drop; lia). rewrite length_drop, lookup_drop.
    rewrite <- (El i p Hp). f_equal. lia.
  - intros r Hr. rewrite !elem_of_cons in Hr. rewrite O2; [apply O1'; tauto|].
    rewrite !elem_of_cons, elem_of_nil. tauto.
  - intros n a Hn. rewrite F2, M1; done.
Qed.

Lemma call_args_computes c ps :
  offsets_ok ps -> (stack_params ps <= STACK_OFFSETS)%nat ->
  let offs := param_offset <$> ps in
  computes (load_regs c 0 (s32 <$> take regcount offs) ;;
            instr_stack c (reverse (drop regcount offs)))
    (fun d d' => stack_apart (QTRACE_PREINST c) offs (stack_params ps) d ->
       args_ready (QTRACE_PREINST c) ps d d').
Proof.
  intros [Hs Ho] Hn offs. set (pre := QTRACE_PREINST c).
  assert (length offs = length ps) as Hlo by apply length_fmap.
  assert (s32 <$> take regcount offs = take regcount offs) as Et.
  { unfold offs. rewrite <- fmap_take. apply s32_offsets. by apply Forall_take. }
  assert (s32 <$> reverse (drop regcount offs) = reverse (drop regcount offs)) as Ed.
  { unfold offs. rewrite <- fmap_drop, <- fmap_reverse. apply s32_offsets.
    apply Forall_reverse. by apply Forall_drop. }
  assert (length (reverse (drop regcount offs)) = stack_params ps) as Hm
    by (rewrite length_reverse, length_drop, Hlo; done).
  eapply computes_ext; [apply computes_comp;
    [apply load_regs_computes|apply instr_stack_computes]|]; try done.
  { rewrite Et. unfold offs. rewrite <- fmap_take, Forall_fmap. by apply Forall_take. }
  { rewrite length_fmap, length_take. lia. }
  { rewrite Hm. unfold STACK_OFFSETS in Hn. lia. }
  cbv beta. fold pre. rewrite Et, Ed, Hm. intros d d2 _ (d1 & H1 & H2) Hap.
  by eapply args_ready_intro.
Qed.

Lemma addi_computes r val :
  reg_ok r -> in_s 32 val ->
  computes (tcg_out_addi r val) (fun d d' => sets_reg r (u64 (regs d r + val)) d d').
Proof.
  intros Hr Hv. unfold tcg_out_addi. eapply computes_ext; [apply computes_when|].
  - eapply straight_computes; [apply (straight_arithi Add TCG_TYPE_I64 r val false Hr)|].
    + unfold arithi_ok. rewrite (proj2 (swrap_fits 32 val ltac:(lia)) Hv). done.
    + intros d Hwf. apply (arithi_result Add TCG_TYPE_I64 r val false d); try done.
      unfold arithi_ok. rewrite (proj2 (swrap_fits 32 val ltac:(lia)) Hv). done.
  - cbv beta. intros d d' Hwf. destruct (Z.eqb_spec val 0) as [->|Hne]; cbn [negb].
    + intros ->. split_and!; [|done|done]. rewrite Z.add_0_r. symmetry. apply wrap_id, Hwf.
    + intros H. eapply sets_reg_eq; [exact H|]. cbn [arith_result twidth wbits].
      by rewrite wrap_add_l, wrap_add_r.
Qed.

(** The word that is passed for a parameter. *)
Definition passed (pre : bool) (d : dstate) (p : param) : Z := arg_value pre d (param_offset p).

(** The state at the entry of the instrumentation function: the parameters, with the values
    [value], in the registers and stack slots of the calling convention. *)
Record call_entry (value : param -> Z) (ps : list param) (ret : Z) (d d' : dstate) : Prop := {
  ce_regs : forall i p, ps !! i = Some p -> (i < regcount)%nat ->
    regs d' (iarg_reg i) = value p;
  ce_stack : forall i p, ps !! i = Some p -> (regcount <= i)%nat ->
    load 8 (regs d' RSP + 8 * Z.of_nat (S (i - regcount))) (dmem d') = value p;
  ce_rsp : regs d' RSP = u64 (regs d RSP - 8 * Z.of_nat (S (stack_params ps)));
  ce_ret : load 8 (regs d' RSP) (dmem d') = u64 ret;
  ce_keep : keeps_regs (TCG_REG_RAX :: TCG_REG_R10 :: RSP :: tcg_target_call_iarg_regs) d d';
  ce_frame : forall n a, (forall i, (i < S (stack_params ps))%nat ->
      sep n a 8 (regs d RSP - 8 * (Z.of_nat i + 1))) ->
    load n a (dmem d') = load n a (dmem d)
}.

Lemma call_entry_intro pre ps ret d d1 d2 :
  (stack_params ps <= STACK_OFFSETS)%nat ->
  args_ready pre ps d d1 -> branch_state true ret d1 d2 -> call_entry (passed pre d) ps ret d d2.
Proof.
  intros Hn [R1 S1 P1 O1 F1] (O2 & P2 & M2). unfold STACK_OFFSETS in Hn.
  set (m := stack_params ps) in *. rewrite P1, wrap_sub_l in P2, M2. rewrite store_u64 in M2.
  replace (regs d RSP - 8 * Z.of_nat m - 8) with (regs d RSP + - 8 * Z.of_nat (S m))
    in P2, M2 by lia.
  assert (forall j, (1 <= j <= m)%nat ->
    sep 8 (regs d RSP + - 8 * Z.of_nat j) 8 (regs d RSP + - 8 * Z.of_nat (S m))) as Hs.
  { intros j Hj. apply sep_sym, sep_offsets; lia. }
  split.
  - intros i p Hp Hi. destruct (iarg_reg_ok i Hi) as (Ha & Hb & Hc & Hd).
    rewrite O2; [by apply R1|by do 6 (destruct i as [|i]; [done|]); vm_compute in Hi; lia|done].
  - intros i p Hp Hi. unfold passed. rewrite <- (S1 i p Hp Hi). pose proof (lookup_lt_Some _ _ _ Hp) as Hlt.
    assert (m = length ps - regcount)%nat as Em by done.
    rewrite M2, P2, (load_cong _ _ (regs d RSP + -8 * Z.of_nat (length ps - i)))
      by (rewrite wrap_add_l; f_equal; lia).
    rewrite load_store_other by (apply Hs; lia). f_equal. lia.
  - rewrite P2. f_equal; lia.
  - rewrite P2, load_u64, M2. by apply (load_store_same 8).
  - intros r Hr. rewrite !elem_of_cons in Hr. rewrite O2; [apply O1|..];
      rewrite ?elem_of_cons; tauto.
  - intros n a Hn'. rewrite M2, load_store_other; [apply F1; intros i Hi; apply Hn'; lia|].
    replace (regs d RSP + -8 * Z.of_nat (S m)) with (regs d RSP - 8 * (Z.of_nat m + 1)) by lia.
    apply Hn'. lia.
Qed.

(** A context after interpretation, as [client_module_resolves] leaves it. *)
Record resolved (c : InstrumentContext) (ps : list param) : Prop := {
  rc_ok : Forall param_ok ps;
  rc_args : exists rest, c.(iargs) = flat_map param_resolved ps ++ rest;
  rc_count : c.(ciarg) = 2 * Z.of_nat (length ps);
  rc_offsets : offsets_ok ps;
  rc_stack : (stack_params ps <= STACK_OFFSETS)%nat;
  rc_fun : 0 < c.(ifun) < 2 ^ 64
}.

Definition stack_fixup (ps : list param) : Z := 8 * Z.max 0 (nregs ps - Z.of_nat regcount).

Lemma fixup_computes ps :
  (stack_params ps <= STACK_OFFSETS)%nat ->
  computes (when_out (Z.of_nat regcount <? nregs ps)
              (tcg_out_addi TCG_REG_ESP (8 * (nregs ps - Z.of_nat regcount))))
    (fun d d' => sets_reg RSP (u64 (regs d RSP + stack_fixup ps)) d d').
Proof.
  intros Hn. pose proof (nregs_range ps) as Hr. unfold stack_params, STACK_OFFSETS in Hn.
  change regcount with 6%nat in *. unfold stack_fixup. change regcount with 6%nat.
  destruct (Z.ltb_spec (Z.of_nat 6) (nregs ps)) as [Hlt|Hge].
  - cbn [when_out]. eapply computes_ext; [apply addi_computes; [opc_side|unfold in_s; lia]|].
    cbv beta. intros d d' _ H. rewrite Z.max_r by lia. exact H.
  - cbn [when_out]. eapply computes_ext; [apply computes_skip_eq|]. cbv beta.
    intros d d' Hwf ->. rewrite Z.max_l, Z.mul_0_r, Z.add_0_r by lia.
    split_and!; [|done|done]. symmetry. apply wrap_id, Hwf.
Qed.

Lemma instrument_call_code c ps s :
  resolved c ps ->
  let offs := param_offset <$> ps in
  tcg_qtrace_instrument_call c s =
  ((load_regs c 0 (s32 <$> take regcount offs) ;; instr_stack c (reverse (drop regcount offs))) ;;
   tcg_out_calli c.(ifun) ;;
   when_out (Z.of_nat regcount <? nregs ps)
     (tcg_out_addi TCG_REG_ESP (8 * (nregs ps - Z.of_nat regcount)))) s.
Proof.
  intros [Hok [rest Ha] Hc Ho Hn Hf] offs. unfold tcg_qtrace_instrument_call.
  unfold mbind at 1, out_bind at 1. unfold stack_params in Hn.
  pose proof (instr_args_params c ps rest (Z.to_nat (ciarg c)) [] 0 0 [] s) as Ei.
  cbn zeta in Ei. cbn [length] in Ei. change (Z.of_nat 0) with 0 in Ei.
  rewrite Ei; [|done|done|lia|lia|lia|lia|done|lia|unfold STACK_OFFSETS, regcount in Hn; cbn in Hn; lia].
  rewrite Nat.sub_0_r, Z.add_0_l, app_nil_l. fold offs. unfold mbind, out_bind.
  destruct (load_regs c 0 (s32 <$> take regcount offs) s) as [[[] s1]|]; [|done].
  unfold mret, out_ret. destruct (instr_stack c _ s1) as [[[] s2]|]; [|done].
  by rewrite (proj2 (Z.eqb_neq _ _)) by lia.
Qed.

Lemma instrument_call_spec c ps s :
  resolved c ps ->
  exists b1 b2, emitted (tcg_qtrace_instrument_call c) s (b1 ++ b2) /\
    let ret := code_ptr s + Z.of_nat (length b1) in
    (forall cd d, wf d -> code_at cd (code_ptr s) b1 ->
       stack_apart (QTRACE_PREINST c) (param_offset <$> ps) (stack_params ps) d ->
       exists d', steps cd (code_ptr s, d) (c.(ifun), d') /\ wf d' /\
         call_entry (passed (QTRACE_PREINST c) d) ps ret d d') /\
    (forall cd d, wf d -> code_at cd ret b2 ->
       exists d', steps cd (ret, d) (ret + Z.of_nat (length b2), d') /\
         sets_reg RSP (u64 (regs d RSP + stack_fixup ps)) d d').
Proof.
  intros [Hok [rest Ha] Hc Ho Hn Hf].
  destruct (call_args_computes c ps Ho Hn s) as (a1 & E1 & S1). cbn zeta in E1, S1.
  destruct (branch_reaches true c.(ifun) (add_code a1 s)) as (a2 & E2 & S2); [exact ltac:(unfold in_u; lia)|].
  destruct (fixup_computes ps Hn (add_code a2 (add_code a1 s))) as (b2 & E3 & S3).
  exists (a1 ++ a2), b2. cbn zeta. rewrite !code_ptr_add in *.
  rewrite length_app, Nat2Z.inj_add, Z.add_assoc. split_and!.
  - unfold emitted. rewrite (instrument_call_code c ps s) by (split; eauto). cbn zeta.
    rewrite <- !app_assoc. apply emitted_seq; [exact E1|]. by apply emitted_seq.
  - intros cd d Hwf [Hc1 Hc2]%code_at_app Hap. destruct (S1 cd d Hwf Hc1) as (d1 & T1 & Q1).
    pose proof (wf_reached _ _ _ _ _ T1 Hwf) as W1.
    destruct (S2 cd d1 W1 Hc2) as (d2 & T2 & Q2 & _). exists d2.
    split; [by etrans|]. split; [by eapply wf_reached|].
    eapply call_entry_intro; [done|by apply Q1|exact Q2].
  - exact S3.
Qed.

(** What the call leaves on the stack, when the instrumentation function returns
    as the calling convention says. *)
Definition stack_left (ps : list param) : Z :=
  8 * Z.of_nat (stack_params ps) - stack_fixup ps.

Lemma stack_left_zero ps :
  (length ps <= regcount)%nat \/ nregs ps = Z.of_nat (length ps) -> stack_left ps = 0.
Proof.
  pose proof (nregs_range ps). unfold stack_left, stack_fixup, stack_params.
  change regcount with 6%nat. lia.
Qed.

Lemma stack_left_pos ps :
  (regcount < length ps)%nat -> nregs ps < Z.of_nat (length ps) -> 0 < stack_left ps.
Proof.
  pose proof (nregs_range ps). unfold stack_left, stack_fixup, stack_params.
  change regcount with 6%nat. lia.
Qed.

Lemma call_stack_left value ps ret d d1 d2 :
  call_entry value ps ret d d1 -> regs d2 RSP = u64 (regs d1 RSP + 8) ->
  u64 (regs d2 RSP + stack_fixup ps) = u64 (regs d RSP - stack_left ps).
Proof.
  intros Hce Hr. rewrite Hr, (ce_rsp _ _ _ _ _ Hce), wrap_add_l, <- Z.add_assoc, wrap_add_l.
  f_equal. unfold stack_left. lia.
Qed.

(** What a parameter asks for: the value of a register, for a call before the instruction its
    copy in the shadow CPU state; or a property of the memory access, which the code of the
    access records in the shadow areas of the CPU state itself. *)
Definition requested (pre : bool) (d : dstate) (p : param) : Z :=
  match p with
  | PReg _ => arg_value pre d (param_offset p)
  | PMem _ => arg_value false d (param_offset p)
  end.

(** The contexts for which these are passed: those that are called after the instruction, and
    those that ask for registers only. *)
Definition delivered (c : InstrumentContext) (ps : list param) : Prop :=
  QTRACE_PREINST c = true -> Forall (fun p => is_reg p = 1) ps.

Lemma passed_requested c ps d p : delivered c ps -> p ∈ ps -> passed (QTRACE_PREINST c) d p = requested (QTRACE_PREINST c) d p.
Proof.
  unfold delivered. intros Hd Hp. destruct p as [r|code]; [done|]. destruct (QTRACE_PREINST c); [|done].
  specialize (Hd eq_refl). rewrite Forall_forall in Hd. by specialize (Hd _ Hp).
Qed.

Lemma call_entry_ext f g ps ret d d' : (forall p, p ∈ ps -> f p = g p) -> call_entry f ps ret d d' -> call_entry g ps ret d d'.
Proof.
  intros E [C1 C2 C3 C4 C5 C6]. split; try done; intros i p Hp Hi; rewrite <- E by (by eapply list_elem_of_lookup_2); auto.
Qed.

(** C4: An instrumentation call passes its parameters.  For an interpreted
    context that is called after the instruction or asks for registers only, the emitted code
    calls the instrumentation function with the value of
    every requested register or memory property, in the order of the requests: the
    first six in the argument registers, the rest on the stack; the
    other memory and registers are unchanged.  When the function returns, the code
    continues to its end, and the stack pointer has its first value again if at
    most six parameters or only register values are passed. *)
Theorem instrument_call_correct c ps s :
  resolved c ps -> delivered c ps ->
  exists bs ret, emitted (tcg_qtrace_instrument_call c) s bs /\
    forall cd d, wf d -> code_at cd (code_ptr s) bs ->
      stack_apart (QTRACE_PREINST c) (param_offset <$> ps) (stack_params ps) d ->
      exists d1, steps cd (code_ptr s, d) (c.(ifun), d1) /\
        call_entry (requested (QTRACE_PREINST c) d) ps ret d d1 /\
        forall d2, wf d2 -> regs d2 RSP = u64 (regs d1 RSP + 8) ->
          exists d3, steps cd (ret, d2) (code_ptr (add_code bs s), d3) /\
            keeps_regs [RSP] d2 d3 /\ dmem d3 = dmem d2 /\
            ((length ps <= regcount)%nat \/ nregs ps = Z.of_nat (length ps) ->
             regs d3 RSP = regs d RSP).
Proof.
  intros Hc Hdl. destruct (instrument_call_spec c ps s Hc) as (b1 & b2 & E & Scall & Sret).
  cbn zeta in *. exists (b1 ++ b2), (code_ptr s + Z.of_nat (length b1)). split; [exact E|].
  intros cd d Hwf [Hc1 Hc2]%code_at_app Hap.
  destruct (Scall cd d Hwf Hc1 Hap) as (d1 & T1 & W1 & Hce). exists d1. split; [done|].
  split; [revert Hce; apply call_entry_ext; intros p Hp; by apply (passed_requested c ps)|].
  intros d2 W2 Hr. destruct (Sret cd d2 W2 Hc2) as (d3 & T3 & R3 & O3 & M3).
  exists d3. rewrite code_ptr_add, length_app, Nat2Z.inj_add, Z.add_assoc.
  split; [done|]. split; [|split; [done|]].
  - intros r Hn. apply O3. intros ->. apply Hn. in_list.
  - intros H%stack_left_zero. rewrite R3, (call_stack_left _ _ _ _ _ _ Hce Hr), H, Z.sub_0_r.
    apply wrap_id, Hwf.
Qed.

(** A call before the instruction does not pass what is recorded of its memory access: for
    a memory property it passes the word of the shadow CPU state, so that the function gets
    another value whenever this word is not the recorded one; and no operation copies the
    recorded one there, since the interpreter emits copies of registers only. *)
Theorem before_call_misses_memory c ps s i code :
  resolved c ps -> QTRACE_PREINST c = true -> ps !! i = Some (PMem code) -> (i < regcount)%nat ->
  param_shadow (PMem code) = [] /\
  exists bs, emitted (tcg_qtrace_instrument_call c) s bs /\
    forall cd d, wf d -> code_at cd (code_ptr s) bs ->
      stack_apart true (param_offset <$> ps) (stack_params ps) d ->
      exists d1, steps cd (code_ptr s, d) (c.(ifun), d1) /\
        regs d1 (iarg_reg i) = arg_value true d (param_offset (PMem code)) /\
        (arg_value true d (param_offset (PMem code)) <> requested true d (PMem code) ->
         regs d1 (iarg_reg i) <> requested true d (PMem code)).
Proof.
  intros Hc Hpre Hp Hi. split; [done|]. destruct (instrument_call_spec c ps s Hc) as (b1 & b2 & E & Scall & _).
  cbn zeta in *. rewrite Hpre in *. exists (b1 ++ b2). split; [exact E|]. intros cd d Hwf [Hc1 _]%code_at_app Hap.
  destruct (Scall cd d Hwf Hc1 Hap) as (d1 & T1 & W1 & Hce). exists d1. split; [done|].
  pose proof (ce_regs _ _ _ _ _ Hce i _ Hp Hi) as Hr. unfold passed in Hr. split; [done|]. by rewrite Hr.
Qed.

(** C34: The stack is not always rebalanced.  Only register values are counted
    when the parameters are popped: with more than six parameters of which at
    least one is not a register value, the stack pointer is lower after the call
    than before it. *)
Theorem instrument_call_leaks_stack c ps s :
  resolved c ps -> (regcount < length ps)%nat -> nregs ps < Z.of_nat (length ps) ->
  exists bs ret k, emitted (tcg_qtrace_instrument_call c) s bs /\ 0 < k /\
    forall cd d, wf d -> code_at cd (code_ptr s) bs ->
      stack_apart (QTRACE_PREINST c) (param_offset <$> ps) (stack_params ps) d ->
      exists d1, steps cd (code_ptr s, d) (c.(ifun), d1) /\
        load 8 (regs d1 RSP) (dmem d1) = u64 ret /\
        forall d2, wf d2 -> regs d2 RSP = u64 (regs d1 RSP + 8) ->
          exists d3, steps cd (ret, d2) (code_ptr (add_code bs s), d3) /\
            regs d3 RSP = u64 (regs d RSP - k).
Proof.
  intros Hc H6 Hmem. destruct (instrument_call_spec c ps s Hc) as (b1 & b2 & E & Scall & Sret).
  cbn zeta in *. exists (b1 ++ b2), (code_ptr s + Z.of_nat (length b1)), (stack_left ps).
  split; [exact E|]. split; [by apply stack_left_pos|].
  intros cd d Hwf [Hc1 Hc2]%code_at_app Hap.
  destruct (Scall cd d Hwf Hc1 Hap) as (d1 & T1 & W1 & Hce). exists d1. split; [done|].
  split; [by apply Hce|]. intros d2 W2 Hr. destruct (Sret cd d2 W2 Hc2) as (d3 & T3 & R3 & _).
  exists d3. rewrite code_ptr_add, length_app, Nat2Z.inj_add, Z.add_assoc.
  split; [done|]. rewrite R3. by eapply call_stack_left.
Qed.
End Calls.

(** A context with eight parameters, one of them a memory property. *)
Definition demo_params : list param :=
  [PReg 0; PMem QTRACE_MEMTRACE_FETCH_VMA; PReg 1; PReg 2; PReg 3; PReg 4; PReg 5; PReg 6].

Definition demo_context_at (point : Z) (ps : list param) : InstrumentContext :=
  mkInstrumentContext 0x401000 point (2 * Z.of_nat (length ps))
    (flat_map param_resolved ps) 0 0 0 NULL.

Definition demo_context : list param -> InstrumentContext := demo_context_at QTRACE_IPOINT_AFTER.

Lemma demo_resolved_at point n :
  (n <= 8)%nat -> resolved (demo_context_at point (take n demo_params)) (take n demo_params).
Proof.
  intros Hn. assert (Forall param_ok demo_params) as Hok.
  { repeat constructor; try (vm_compute; congruence); by eexists. }
  assert (Forall (fun p => in_s 32 (param_offset p)) demo_params) as Ho.
  { repeat constructor; vm_compute; congruence. }
  split.
  - by apply Forall_take.
  - exists []. by rewrite app_nil_r.
  - done.
  - split; [by vm_compute|by apply Forall_take].
  - unfold stack_params, STACK_OFFSETS. rewrite length_take. lia.
  - done.
Qed.

Lemma demo_resolved n : (n <= 8)%nat -> resolved (demo_context (take n demo_params)) (take n demo_params).
Proof. apply demo_resolved_at. Qed.

Lemma instrument_call_correct_witness :
  exists bs, emitted (tcg_qtrace_instrument_call (demo_context (take 3 demo_params))) demo_ctx bs.
Proof.
  destruct (instrument_call_correct _ _ demo_ctx (demo_resolved 3 ltac:(lia))) as (bs & ret & E & _); [done|].
  by exists bs.
Defined.

Lemma before_call_misses_memory_witness : exists bs,
  emitted (tcg_qtrace_instrument_call (demo_context_at QTRACE_IPOINT_BEFORE (take 3 demo_params))) demo_ctx bs.
Proof.
  destruct (before_call_misses_memory _ _ demo_ctx 1 QTRACE_MEMTRACE_FETCH_VMA (demo_resolved_at QTRACE_IPOINT_BEFORE 3 ltac:(lia)))
    as (_ & bs & E & _); [done|done|vm_compute; lia|].
  by exists bs.
Defined.

Lemma instrument_call_leaks_stack_witness :
  exists bs k, emitted (tcg_qtrace_instrument_call (demo_context demo_params)) demo_ctx bs /\ 0 < k.
Proof.
  destruct (instrument_call_leaks_stack _ _ demo_ctx (demo_resolved 8 ltac:(lia)))
    as (bs & ret & k & E & Hk & _); [vm_compute; lia|by vm_compute|].
  by exists bs, k.
Defined.
