(* ===== verification/TbExit.v ===== *)
(** * The end of a translation block

    tcg/i386/tcg-target.c, the first cases of [tcg_out_op]: the operations that
    leave a translation block and the operation that generates the
    instrumentation calls of an instruction.  Leaving a block contains two jumps
    to the next instruction, whose places are kept in [qtrace_next_offset]; the
    instrumentation operation, which comes later, turns them into calls. *)

From S2P Require Import Prelude QtraceDefs IContext Interpret X86 TcgOut TcgEnc TcgEmit.
From S2P Require Import TcgCond TcgLabel TlbLoad QemuLdSt MemTrace SlowPath InstrCall.

(** ** Model *)

Definition PREINST_INDEX (x : Z) : Z := 0 + x * 2.
Definition PSTINST_INDEX (x : Z) : Z := 1 + x * 2.

Definition get_next_offset (index : Z) : out Z := fun s =>
  v ← array_get s.(qtrace_next_offset) index; mret (v, s).
Definition set_next_offset (index v : Z) : out unit := fun s =>
  l ← array_set s.(qtrace_next_offset) index v; mret (tt, set_qtrace_next_offset l s).

(** A jump to the next instruction whose displacement is at the recorded place. *)
Definition out_qtrace_jump (index : Z) : out unit :=
  tcg_out8 OPC_JMP_long ;;
  ptr ← get_ptr;
  set_next_offset index ptr ;;
  tcg_out32 0.

(** INDEX_op_exit_tb *)
Definition out_exit_tb (tb_ret_addr arg : Z) : out unit :=
  pre ← get_next_offset (PREINST_INDEX (Z.land arg 3));
  when_out (pre =? 0) (out_qtrace_jump (PREINST_INDEX (Z.land arg 3))) ;;
  pst ← get_next_offset (PSTINST_INDEX (Z.land arg 3));
  when_out (pst =? 0) (out_qtrace_jump (PSTINST_INDEX (Z.land arg 3))) ;;
  tcg_out_movi TCG_TYPE_PTR TCG_REG_RAX (s64 arg) ;;
  tcg_out_jmp tb_ret_addr.

(** The offsets of the jump to the next block and of the code behind it are 16
    bits wide. *)
Definition set_tb_jmp_offset (arg : Z) : out unit := fun s =>
  l ← array_set s.(tb_jmp_offset) arg (wrap 16 (code_ptr s - s.(code_buf)));
  mret (tt, set_tb_offsets l s.(tb_next_offset) s).
Definition set_tb_next_offset (arg : Z) : out unit := fun s =>
  l ← array_set s.(tb_next_offset) arg (wrap 16 (code_ptr s - s.(code_buf)));
  mret (tt, set_tb_offsets s.(tb_jmp_offset) l s).

(** INDEX_op_goto_tb, with direct jumps. *)
Definition out_goto_tb (arg : Z) : out unit :=
  out_qtrace_jump (PREINST_INDEX arg) ;;
  out_qtrace_jump (PSTINST_INDEX arg) ;;
  tcg_out8 OPC_JMP_long ;;
  set_tb_jmp_offset arg ;;
  tcg_out32 0 ;;
  set_tb_next_offset arg.

(** INDEX_op_qtrace_instrumentation *)

Definition patch_call (p target : Z) : out unit :=
  patch_code (p - 1) [OPC_CALL_Jz] ;;
  patch_code p (bytes_le 4 (u32 (target - p - 4))).

Fixpoint patch_calls (instrumented : bool) (indices : list Z) (target : Z) : out unit :=
  match indices with
  | [] => skip
  | index :: indices =>
      p ← get_next_offset index;
      when_out (instrumented && negb (p =? 0)) (patch_call p target ;; tcg_out8 OPC_RET) ;;
      patch_calls instrumented indices target
  end.

Section Op.
Context `{L : CPULayout}.

Definition out_qtrace_instrumentation (h : gmap Z InstrumentContext) (ictx : Z) : out unit :=
  preinst_code_ptr ← get_ptr;
  preinst ← tcg_qtrace_out_instrumentation_call h ictx QTRACE_IPOINT_BEFORE;
  patch_calls preinst [0; 2] preinst_code_ptr ;;
  pstinst_code_ptr ← get_ptr;
  pstinst ← tcg_qtrace_out_instrumentation_call h ictx QTRACE_IPOINT_AFTER;
  (* the target is [preinst_code_ptr] here, too *)
  patch_calls pstinst [1; 3] preinst_code_ptr.
End Op.

(** translate-all.c, [cpu_gen_code]: the offsets at the start of a block. *)
Definition init_next_offset (l : list Z) : list Z := <[0%nat := 0]> (<[1%nat := 0]> l).

(** ** Leaving a block *)

Definition jump_bytes : list Z := 0xe9 :: bytes_le 4 0.
Definition call_bytes (p target : Z) : list Z := 0xe8 :: bytes_le 4 (u32 (target - p - 4)).

Lemma next_offset_get i v s :
  s.(qtrace_next_offset) !! i = Some v -> get_next_offset (Z.of_nat i) s = Ok (v, s).
Proof.
  intros H. unfold get_next_offset, array_get. pose proof (lookup_lt_Some _ _ _ H).
  rewrite (proj2 (andb_true_iff _ _)), Nat2Z.id, H by lia. done.
Qed.

Lemma qtrace_jump_emitted i s :
  (i < length s.(qtrace_next_offset))%nat ->
  out_qtrace_jump (Z.of_nat i) s =
    Ok (tt, set_qtrace_next_offset (<[i := code_ptr s + 1]> s.(qtrace_next_offset))
              (add_code jump_bytes s)).
Proof.
  intros Hi. unfold out_qtrace_jump, tcg_out8, tcg_out32, get_ptr, set_next_offset, modify.
  unfold mbind, out_bind. cbn [add_code set_code qtrace_next_offset]. unfold array_set.
  rewrite (proj2 (andb_true_iff _ _)) by lia. cbn [res_bind mret res_ret].
  rewrite Nat2Z.id, code_ptr_add. unfold add_code, set_code, set_qtrace_next_offset. cbn.
  by rewrite <- app_assoc.
Qed.

Lemma jump_skips cd p d :
  in_u 64 (p + 5) -> code_at cd p jump_bytes -> steps cd (p, d) (p + 5, d).
Proof.
  intros Hp Hc. apply rtc_once. eapply step_encoded; [apply (encodes_rel32 false 0)|exact Hc|].
  cbn [exec length opc_bytes]. change (s32 0) with 0. rewrite Z.add_0_r, wrap_id by done. done.
Qed.

Lemma call_goes cd p target d :
  in_u 64 target -> in_s 32 (target - p - 4) -> code_at cd (p - 1) (call_bytes p target) ->
  steps cd (p - 1, d) (target, push64 (p + 4) d).
Proof.
  intros Ht Hd Hc. apply rtc_once.
  eapply step_encoded; [apply (encodes_rel32 true)|exact Hc|]. cbn [exec].
  change (length (opc_bytes OPC_CALL_Jz 0 0 0 ++ bytes_le 4 (u32 (target - p - 4)))) with 5%nat.
  rewrite swrap_wrap, swrap_id by (done || lia).
  replace (p - 1 + Z.of_nat 5) with (p + 4) by lia. do 2 f_equal.
  rewrite <- (wrap_id 64 target) at 2 by done. f_equal. lia.
Qed.

Lemma ret_goes cd p d :
  code_at cd p [0xc3] -> steps cd (p, d) (load 8 (regs d RSP) (dmem d), set_reg RSP (u64 (regs d RSP + 8)) d).
Proof.
  intros Hc. apply rtc_once. eapply (step_encoded cd p [0xc3] IRet); [|exact Hc|done].
  apply (encodes_plain OPC_RET 0); [done|done|cbn; lia|reflexivity].
Qed.

(** The offsets after leaving a block for the first time. *)
Definition exit_offsets (i : nat) (s : TCGContext) : list Z :=
  <[S (2 * i)%nat := code_ptr s + 6]> (<[(2 * i)%nat := code_ptr s + 1]> s.(qtrace_next_offset)).

Definition after_jumps (i : nat) (s : TCGContext) : TCGContext :=
  set_qtrace_next_offset (exit_offsets i s) (add_code (jump_bytes ++ jump_bytes) s).

Lemma after_jumps_ptr i s : code_ptr (after_jumps i s) = code_ptr s + 10.
Proof.
  change (code_ptr (after_jumps i s)) with (code_ptr (add_code (jump_bytes ++ jump_bytes) s)).
  by rewrite code_ptr_add.
Qed.

Lemma exit_tb_jumps tb_ret_addr arg i s :
  Z.land arg 3 = Z.of_nat i ->
  s.(qtrace_next_offset) !! (2 * i)%nat = Some 0 ->
  s.(qtrace_next_offset) !! S (2 * i) = Some 0 ->
  out_exit_tb tb_ret_addr arg s =
  (tcg_out_movi TCG_TYPE_PTR TCG_REG_RAX (s64 arg) ;; tcg_out_jmp tb_ret_addr) (after_jumps i s).
Proof.
  intros Hi H0 H1.
  assert (PREINST_INDEX (Z.land arg 3) = Z.of_nat (2 * i) /\
          PSTINST_INDEX (Z.land arg 3) = Z.of_nat (S (2 * i))) as [Ep Eq]
    by (unfold PREINST_INDEX, PSTINST_INDEX; lia).
  set (s1 := set_qtrace_next_offset (<[(2 * i)%nat := code_ptr s + 1]> s.(qtrace_next_offset))
               (add_code jump_bytes s)).
  unfold out_exit_tb. rewrite Ep, Eq. unfold mbind at 1, out_bind at 1.
  rewrite (next_offset_get _ 0) by done. cbn [Z.eqb when_out].
  unfold mbind at 1, out_bind at 1. rewrite qtrace_jump_emitted by (by eapply lookup_lt_Some).
  fold s1. unfold mbind at 1, out_bind at 1. rewrite (next_offset_get _ 0 s1)
    by (unfold s1; cbn; rewrite list_lookup_insert_ne by lia; done). cbn [Z.eqb when_out].
  unfold mbind at 1, out_bind at 1. rewrite qtrace_jump_emitted
    by (unfold s1; cbn; rewrite length_insert; by eapply lookup_lt_Some).
  f_equal. unfold after_jumps, exit_offsets, s1.
  change (code_ptr (set_qtrace_next_offset ?l ?x)) with (code_ptr x).
  rewrite code_ptr_add, add_code_app. change (Z.of_nat (length jump_bytes)) with 5.
  by replace (code_ptr s + 5 + 1) with (code_ptr s + 6) by lia.
Qed.

(** The code of INDEX_op_exit_tb: two jumps and the code that returns to the
    execution loop. *)
Lemma exit_tb_emitted tb_ret_addr arg i s :
  Z.land arg 3 = Z.of_nat i ->
  s.(qtrace_next_offset) !! (2 * i)%nat = Some 0 ->
  s.(qtrace_next_offset) !! S (2 * i) = Some 0 -> in_u 64 arg -> in_u 64 tb_ret_addr ->
  exists b, out_exit_tb tb_ret_addr arg s = Ok (tt, add_code b (after_jumps i s)) /\
    forall cd d, wf d -> code_at cd (code_ptr s + 10) b ->
      exists d', steps cd (code_ptr s + 10, d) (tb_ret_addr, d') /\
        regs d' TCG_REG_RAX = arg /\ keeps_regs [TCG_REG_RAX; TCG_REG_R10] d d' /\
        dmem d' = dmem d.
Proof.
  intros Hi H0 H1 Ha Ht. rewrite (exit_tb_jumps _ _ i) by done.
  destruct (computes_then_jmp _ _ tb_ret_addr (after_jumps i s)
    (movi_computes TCG_TYPE_PTR TCG_REG_RAX (s64 arg) ltac:(opc_side)) Ht) as (b & Eb & Sb).
  exists b. split; [exact Eb|]. rewrite <- (after_jumps_ptr i). intros cd d Hwf Hc.
  destruct (Sb cd d Hwf Hc) as (d1 & d' & (R1 & O1 & M1) & T & O & M & _).
  exists d'. split; [done|]. split_and!; [| |congruence].
  - rewrite O, R1 by (rewrite elem_of_cons, elem_of_nil; intros [?|[]]; done).
    change (wbits (twidth TCG_TYPE_PTR)) with 64. rewrite wrap_swrap by lia. by apply wrap_id.
  - intros r Hr. rewrite !elem_of_cons in Hr. rewrite O, O1; rewrite ?elem_of_cons; tauto.
Qed.

(** ** Turning the jumps into calls *)

Lemma patch_code_mid a b b' c p s :
  s.(code) = a ++ b ++ c -> length b' = length b -> p = s.(code_buf) + Z.of_nat (length a) ->
  patch_code p b' s = Ok (tt, set_code (a ++ b' ++ c) s).
Proof.
  intros Hc Hl ->. unfold patch_code.
  replace (code_buf s + Z.of_nat (length a) - code_buf s) with (Z.of_nat (length a)) by lia.
  rewrite (proj2 (andb_true_iff _ _)), Nat2Z.id, Hc, inserts_mid; [done|done|].
  rewrite Hc, !length_app. lia.
Qed.

Lemma patch_call_code a b c p target s :
  s.(code) = a ++ b ++ c -> length b = 5%nat -> p = s.(code_buf) + Z.of_nat (length a) + 1 ->
  patch_call p target s = Ok (tt, set_code (a ++ call_bytes p target ++ c) s).
Proof.
  intros Hc Hl Hp. destruct b as [|x b]; [done|]. unfold patch_call, mbind, out_bind.
  rewrite (patch_code_mid a [x] [OPC_CALL_Jz] (b ++ c)) by (done || lia).
  rewrite (patch_code_mid (a ++ [OPC_CALL_Jz]) b _ c);
    [|cbn; by rewrite <- app_assoc|rewrite length_bytes_le; cbn in Hl; lia
     |cbn; rewrite length_app; cbn; lia].
  cbn. by rewrite <- app_assoc.
Qed.

Section Instrumented.
Context `{L : CPULayout}.

(** The contexts of an instruction that are called at [select]. *)
Lemma out_call_null h select s :
  tcg_qtrace_out_instrumentation_call h NULL select s = Ok (false, s).
Proof. unfold tcg_qtrace_out_instrumentation_call. by destruct (size h). Qed.

Lemma size_lookup (h : gmap Z InstrumentContext) k c : h !! k = Some c -> exists n, size h = S n.
Proof.
  intros H. destruct (size h) as [|n] eqn:E; [|by exists n].
  apply map_size_empty_inv in E. subst h. rewrite lookup_empty in H. discriminate H.
Qed.

Lemma out_call_single h ictx c select s :
  ictx <> NULL -> h !! ictx = Some c -> c.(next) = NULL ->
  tcg_qtrace_out_instrumentation_call h ictx select s =
  if c.(ipoint) =? select then (tcg_qtrace_instrument_call c ;; mret true) s else Ok (false, s).
Proof.
  intros Hn Hc Hnext. unfold tcg_qtrace_out_instrumentation_call.
  destruct (size_lookup h ictx c Hc) as [n ->]. cbn [out_instrumentation_call].
  rewrite (proj2 (Z.eqb_neq _ _)), Hc, Hnext by done.
  destruct (c.(ipoint) =? select); by destruct n.
Qed.

(** The state of the code generator behind a block exit. *)
Record left_block (i : nat) (s s1 s2 : TCGContext) (b more : list Z) : Prop := {
  lb_exit : s1 = add_code b (after_jumps i s);
  lb_code : s2.(code) = s1.(code) ++ more;
  lb_buf : s2.(code_buf) = s1.(code_buf);
  lb_offsets : s2.(qtrace_next_offset) = s1.(qtrace_next_offset)
}.

(** The slots of exit [i], and those of the other exit. *)
Lemma left_block_code i s s1 s2 b more :
  s.(qtrace_next_offset) = [0; 0; 0; 0] -> (i < 2)%nat -> left_block i s s1 s2 b more ->
  s2.(code) = s.(code) ++ jump_bytes ++ jump_bytes ++ b ++ more /\
  s2.(code_buf) = s.(code_buf) /\ length s2.(qtrace_next_offset) = 4%nat /\
  s2.(qtrace_next_offset) !! (0 + 2 * i)%nat = Some (code_ptr s + 1) /\
  s2.(qtrace_next_offset) !! (1 + 2 * i)%nat = Some (code_ptr s + 6) /\
  s2.(qtrace_next_offset) !! (0 + 2 * (1 - i))%nat = Some 0 /\
  s2.(qtrace_next_offset) !! (1 + 2 * (1 - i))%nat = Some 0.
Proof.
  intros Hz Hi [-> Hc Hb Ho]. rewrite Hc, Hb, Ho.
  unfold after_jumps, exit_offsets, add_code, set_code, set_qtrace_next_offset.
  cbn [code code_buf qtrace_next_offset]. rewrite Hz, <- !app_assoc. by destruct i as [|[|i]]; [| |lia].
Qed.

(** Of two slots that of exit [i] is patched, the other is not used. *)
Lemma patch_calls_slot k i p target a x c s :
  (i < 2)%nat -> s.(qtrace_next_offset) !! (k + 2 * i)%nat = Some p ->
  s.(qtrace_next_offset) !! (k + 2 * (1 - i))%nat = Some 0 ->
  s.(code) = a ++ x ++ c -> length x = 5%nat -> p = s.(code_buf) + Z.of_nat (length a) + 1 ->
  0 < p ->
  patch_calls true [Z.of_nat k; Z.of_nat (k + 2)] target s =
    Ok (tt, set_code (a ++ call_bytes p target ++ c ++ [0xc3]) s).
Proof.
  intros Hi2 Hi Hj Hc Hx Hp Hpos. cbn [patch_calls]. unfold mbind at 1, out_bind at 1.
  assert (forall s', (patch_call p target ;; tcg_out8 OPC_RET) s = Ok (tt, s') ->
    s' = set_code (a ++ call_bytes p target ++ c ++ [0xc3]) s) as Hpatch.
  { intros s'. unfold mbind at 1, out_bind at 1. rewrite (patch_call_code a x c) by done. unfold tcg_out8, modify.
    intros [= <-]. unfold add_code, set_code. cbn. by rewrite <- !app_assoc. }
  destruct ((patch_call p target ;; tcg_out8 OPC_RET) s) as [[[] s']|] eqn:E;
    [|unfold mbind, out_bind in E; rewrite (patch_call_code a x c) in E by done; discriminate E].
  specialize (Hpatch s' eq_refl). destruct i as [|[|i]]; [| |lia]; cbn [Nat.mul Nat.add Nat.sub] in Hi, Hj.
  - rewrite Nat.add_0_r in Hi. rewrite (next_offset_get k p) by done. rewrite (proj2 (Z.eqb_neq p 0)) by lia.
    cbn [negb andb when_out]. unfold mbind at 1, out_bind at 1. rewrite E. unfold mbind at 1, out_bind at 1.
    rewrite (next_offset_get (k + 2) 0) by (rewrite Hpatch; done). cbn [Z.eqb negb andb when_out]. by rewrite Hpatch.
  - rewrite Nat.add_0_r in Hj. rewrite (next_offset_get k 0) by done. cbn [Z.eqb negb andb when_out]. unfold mbind at 1, out_bind at 1. unfold skip at 1, mret at 1, out_ret at 1.
    unfold mbind at 1, out_bind at 1. rewrite (next_offset_get (k + 2) p) by done. rewrite (proj2 (Z.eqb_neq p 0)) by lia.
    cbn [negb andb when_out]. unfold mbind at 1, out_bind at 1. rewrite E. by rewrite Hpatch.
Qed.

Lemma patch_calls_none s (i j : nat) target :
  (i < length s.(qtrace_next_offset))%nat -> (j < length s.(qtrace_next_offset))%nat ->
  patch_calls false [Z.of_nat i; Z.of_nat j] target s = Ok (tt, s).
Proof.
  intros [p Hp]%lookup_lt_is_Some [q Hq]%lookup_lt_is_Some. cbn [patch_calls].
  unfold mbind at 1, out_bind at 1. rewrite (next_offset_get i p) by done.
  cbn [andb when_out]. unfold mbind at 1, out_bind at 1. unfold skip at 1, mret at 1, out_ret at 1.
  unfold mbind at 1, out_bind at 1. by rewrite (next_offset_get j q) by done.
Qed.

(** The code after the instrumentation operation for one context that is called
    before the instruction. *)
Lemma instrumentation_pre h ictx c i s s1 s2 b more bs :
  (i < 2)%nat ->
  ictx <> NULL -> h !! ictx = Some c -> c.(next) = NULL -> c.(ipoint) = QTRACE_IPOINT_BEFORE ->
  s.(qtrace_next_offset) = [0; 0; 0; 0] -> 0 <= s.(code_buf) -> left_block i s s1 s2 b more ->
  emitted (tcg_qtrace_instrument_call c) s2 bs ->
  out_qtrace_instrumentation h ictx s2 =
    Ok (tt, set_code (s.(code) ++ call_bytes (code_ptr s + 1) (code_ptr s2) ++
              (jump_bytes ++ b ++ more ++ bs) ++ [0xc3]) s2).
Proof.
  intros Hi Hn Hc Hnext Hp Hz Hb0 Hlb He.
  destruct (left_block_code _ _ _ _ _ _ Hz Hi Hlb) as (Hcode & Hbuf & Hlen & O0 & O1 & O2 & O3).
  unfold out_qtrace_instrumentation. unfold mbind at 1, out_bind at 1, get_ptr.
  unfold mbind at 1, out_bind at 1. rewrite (out_call_single h ictx c) by done.
  rewrite Hp, Z.eqb_refl. unfold mbind at 1, out_bind at 1. rewrite He.
  unfold mret at 1, out_ret at 1. unfold mbind at 1, out_bind at 1.
  change (patch_calls true [0; 2]) with (patch_calls true [Z.of_nat 0; Z.of_nat (0 + 2)]).
  rewrite (patch_calls_slot 0 i (code_ptr s + 1) (code_ptr s2) s.(code) jump_bytes
    (jump_bytes ++ b ++ more ++ bs));
    [|done|done|done|cbn; by rewrite Hcode, <- !app_assoc|done
     |cbn; rewrite Hbuf; unfold code_ptr; lia|unfold code_ptr; lia].
  unfold mbind at 1, out_bind at 1. unfold mbind at 1, out_bind at 1.
  rewrite (out_call_single h ictx c) by done. rewrite Hp.
  change (QTRACE_IPOINT_BEFORE =? QTRACE_IPOINT_AFTER) with false.
  apply (patch_calls_none _ 1 3); cbn [set_code add_code qtrace_next_offset]; rewrite Hlen; lia.
Qed.

(** The same for a context that is called after the instruction: the second jump
    becomes the call. *)
Lemma instrumentation_pst h ictx c i s s1 s2 b more bs :
  (i < 2)%nat ->
  ictx <> NULL -> h !! ictx = Some c -> c.(next) = NULL -> c.(ipoint) = QTRACE_IPOINT_AFTER ->
  s.(qtrace_next_offset) = [0; 0; 0; 0] -> 0 <= s.(code_buf) -> left_block i s s1 s2 b more ->
  emitted (tcg_qtrace_instrument_call c) s2 bs ->
  out_qtrace_instrumentation h ictx s2 =
    Ok (tt, set_code ((s.(code) ++ jump_bytes) ++ call_bytes (code_ptr s + 6) (code_ptr s2) ++
              (b ++ more ++ bs) ++ [0xc3]) s2).
Proof.
  intros Hi Hn Hc Hnext Hp Hz Hb0 Hlb He.
  destruct (left_block_code _ _ _ _ _ _ Hz Hi Hlb) as (Hcode & Hbuf & Hlen & O0 & O1 & O2 & O3).
  unfold out_qtrace_instrumentation. unfold mbind at 1, out_bind at 1, get_ptr.
  unfold mbind at 1, out_bind at 1. rewrite (out_call_single h ictx c) by done.
  rewrite Hp. change (QTRACE_IPOINT_AFTER =? QTRACE_IPOINT_BEFORE) with false.
  cbv beta iota. unfold mbind at 1, out_bind at 1.
  rewrite (patch_calls_none s2 0 2 (code_ptr s2) : _ -> _ -> patch_calls false [0; 2] _ s2 = _)
    by (rewrite Hlen; lia).
  unfold mbind at 1, out_bind at 1. unfold mbind at 1, out_bind at 1.
  rewrite (out_call_single h ictx c) by done. rewrite Hp, Z.eqb_refl.
  unfold mbind at 1, out_bind at 1. rewrite He. unfold mret at 1, out_ret at 1.
  etrans; [apply (patch_calls_slot 1 i (code_ptr s + 6) (code_ptr s2) (s.(code) ++ jump_bytes)
    jump_bytes (b ++ more ++ bs))|done]; [done..|cbn; by rewrite Hcode, <- !app_assoc|done| |].
  - cbn. rewrite Hbuf, length_app. change (length jump_bytes) with 5%nat. unfold code_ptr. lia.
  - unfold code_ptr. lia.
Qed.

(** The instrumentation code called from the block exit, up to its return. *)
Lemma instrument_call_returns c ps bs s2 ret_addr :
  resolved c ps -> (length ps <= regcount)%nat -> emitted (tcg_qtrace_instrument_call c) s2 bs ->
  exists ret, forall cd d, wf d -> code_at cd (code_ptr s2) (bs ++ [0xc3]) ->
    exists d1, steps cd (code_ptr s2, push64 ret_addr d) (c.(ifun), d1) /\
      call_entry (passed (QTRACE_PREINST c) (push64 ret_addr d)) ps ret (push64 ret_addr d) d1 /\
      forall d2, wf d2 -> regs d2 RSP = u64 (regs d1 RSP + 8) ->
        load 8 (regs d RSP - 8) (dmem d2) = ret_addr ->
        exists d3, steps cd (ret, d2) (ret_addr, d3) /\ wf d3 /\ regs d3 RSP = regs d RSP /\
          keeps_regs [RSP] d2 d3 /\ dmem d3 = dmem d2.
Proof.
  intros Hres Hle He.
  destruct (instrument_call_spec c ps s2 Hres) as (b1 & b2 & E & Scall & Sret). cbn zeta in *.
  assert (bs = b1 ++ b2) as ->.
  { unfold emitted in He, E. rewrite He in E. injection E as E.
    by apply app_inv_head in E. }
  exists (code_ptr s2 + Z.of_nat (length b1)).
  intros cd d Hwf Hc. rewrite <- app_assoc in Hc. apply code_at_app in Hc as [Hc1 Hc].
  apply code_at_app in Hc as [Hc2 Hc3].
  pose proof (wf_push64 ret_addr d Hwf) as Wp.
  destruct (Scall cd (push64 ret_addr d) Wp Hc1) as (d1 & T1 & W1 & Hce).
  { intros a i _ Hi. unfold stack_params in Hi. lia. }
  exists d1. split; [done|]. split; [done|]. intros d2 W2 Hr Hret.
  destruct (Sret cd d2 W2 Hc2) as (d3 & T3 & R3 & O3 & M3).
  rewrite (call_stack_left _ _ _ _ _ _ Hce Hr), (stack_left_zero ps ltac:(by left)), Z.sub_0_r in R3.
  change (regs (push64 ret_addr d) RSP) with (regs (set_reg RSP (u64 (regs d RSP - 8)) d) RSP) in R3.
  rewrite regs_set_same, wrap_wrap in R3.
  exists (set_reg RSP (u64 (regs d3 RSP + 8)) d3). split_and!.
  - etrans; [exact T3|]. pose proof (ret_goes cd _ d3 Hc3) as Hgo.
    assert (load 8 (regs d3 RSP) (dmem d3) = ret_addr) as Er by (by rewrite R3, M3, load_u64).
    by rewrite Er in Hgo.
  - apply wf_set_reg; [by eapply wf_reached|]. apply wrap_range. lia.
  - rewrite regs_set_same, R3, wrap_add_l. replace (regs d RSP - 8 + 8) with (regs d RSP) by lia.
    apply wrap_id, Hwf.
  - intros r Hn. rewrite regs_set_other; [apply O3|]; intros ->; apply Hn; in_list.
  - exact M3.
Qed.

(** The parts of the finished code. *)
Lemma left_block_placed i s s1 s2 b more x y l cd :
  s.(qtrace_next_offset) = [0; 0; 0; 0] -> (i < 2)%nat -> left_block i s s1 s2 b more ->
  length x = 5%nat -> length y = 5%nat ->
  code_at cd s.(code_buf) (s.(code) ++ x ++ y ++ b ++ more ++ l) ->
  code_at cd (code_ptr s) x /\ code_at cd (code_ptr s + 5) y /\
  code_at cd (code_ptr s + 10) b /\ code_at cd (code_ptr s2) l /\ code_ptr s + 10 <= code_ptr s2.
Proof.
  intros Hz Hi Hlb Hx Hy Hc. destruct (left_block_code _ _ _ _ _ _ Hz Hi Hlb) as (Ec & Eb & _).
  assert (code_ptr s2 = code_ptr s + 10 + Z.of_nat (length b) + Z.of_nat (length more)) as ->.
  { unfold code_ptr. rewrite Ec, Eb, !length_app. change (length jump_bytes) with 5%nat. lia. }
  apply code_at_app in Hc as [_ Hc]. fold (code_ptr s) in Hc.
  apply code_at_app in Hc as [H1 Hc]. apply code_at_app in Hc as [H2 Hc].
  apply code_at_app in Hc as [H3 Hc]. apply code_at_app in Hc as [_ H4].
  rewrite Hx in *. rewrite Hy in *.
  replace (code_ptr s + Z.of_nat 5 + Z.of_nat 5) with (code_ptr s + 10) in * by lia.
  split_and!; [done|done|done|done|lia].
Qed.

(** The place of the call in the code that leaves the block, and its return
    address. *)
Definition call_slot (c : InstrumentContext) (s : TCGContext) : Z :=
  if c.(ipoint) =? QTRACE_IPOINT_BEFORE then code_ptr s else code_ptr s + 5.

(** The finished code for one context: the part before the call falls through to
    it, the part behind its return address leaves the block. *)
Lemma instrumentation_code h ictx c i s s1 s2 b more bs :
  (i < 2)%nat ->
  ictx <> NULL -> h !! ictx = Some c -> c.(next) = NULL ->
  c.(ipoint) = QTRACE_IPOINT_BEFORE \/ c.(ipoint) = QTRACE_IPOINT_AFTER ->
  s.(qtrace_next_offset) = [0; 0; 0; 0] -> 0 <= s.(code_buf) -> left_block i s s1 s2 b more ->
  emitted (tcg_qtrace_instrument_call c) s2 bs -> in_u 64 (code_ptr s2) ->
  exists s3, out_qtrace_instrumentation h ictx s2 = Ok (tt, s3) /\
    forall cd d, code_at cd s3.(code_buf) s3.(code) ->
      let p := call_slot c s + 1 in
      steps cd (code_ptr s, d) (p - 1, d) /\ code_at cd (p - 1) (call_bytes p (code_ptr s2)) /\
      steps cd (p + 4, d) (code_ptr s + 10, d) /\ code_at cd (code_ptr s + 10) b /\
      code_at cd (code_ptr s2) (bs ++ [0xc3]) /\ 0 <= code_ptr s /\ code_ptr s + 10 <= code_ptr s2.
Proof.
  intros Hi Hn Hc Hnext Hpt Hz Hb0 Hlb He Hp2. cbn zeta. unfold call_slot.
  assert (0 <= code_ptr s) as Hp0 by (unfold code_ptr; lia).
  pose proof (left_block_code _ _ _ _ _ _ Hz Hi Hlb) as (_ & Hbuf & _).
  destruct Hpt as [Hp|Hp]; rewrite Hp; eexists;
    (split; [first [by eapply instrumentation_pre|by eapply instrumentation_pst]|]);
    cbn [set_code code code_buf]; rewrite Hbuf; intros cd d Hcd; rewrite <- !app_assoc in Hcd.
  - rewrite Z.eqb_refl, Z.add_simpl_r.
    destruct (left_block_placed i s s1 s2 b more (call_bytes (code_ptr s + 1) (code_ptr s2))
      jump_bytes _ cd Hz Hi Hlb eq_refl eq_refl Hcd) as (Hx & Hj & Hb & Hins & Hle).
    split_and!; try done. replace (code_ptr s + 1 + 4) with (code_ptr s + 5) by lia.
    replace (code_ptr s + 10) with (code_ptr s + 5 + 5) by lia.
    apply jump_skips; [unfold in_u in *; lia|done].
  - change (QTRACE_IPOINT_AFTER =? QTRACE_IPOINT_BEFORE) with false. cbv iota.
    rewrite Z.add_simpl_r. replace (code_ptr s + 5 + 1) with (code_ptr s + 6) by lia.
    replace (code_ptr s + 6 + 4) with (code_ptr s + 10) by lia.
    destruct (left_block_placed i s s1 s2 b more jump_bytes
      (call_bytes (code_ptr s + 6) (code_ptr s2)) _ cd Hz Hi Hlb eq_refl eq_refl Hcd)
      as (Hj & Hx & Hb & Hins & Hle).
    split_and!; try done. apply jump_skips; [unfold in_u in *; lia|done].
Qed.

(** C5: Leaving a block calls the client.  The first exit of a block, with exit code 0 or
    1, is emitted while all four instrumentation offsets are zero and, later,
    the instrumentation operation for one context of at most six parameters, which is
    called after the instruction, or before it with register parameters only.  Running the finished code from the
    exit calls the instrumentation function with the requested values; when the function
    returns with its caller's frame intact, the code returns to the execution loop
    with the exit value in %rax and the stack pointer as before. *)
Theorem block_exit_instrumented h ictx c ps tb_ret_addr arg s :
  ictx <> NULL -> h !! ictx = Some c -> c.(next) = NULL ->
  c.(ipoint) = QTRACE_IPOINT_BEFORE \/ c.(ipoint) = QTRACE_IPOINT_AFTER ->
  resolved c ps -> delivered c ps -> (length ps <= regcount)%nat -> Z.land arg 3 < 2 -> in_u 64 arg ->
  in_u 64 tb_ret_addr -> s.(qtrace_next_offset) = [0; 0; 0; 0] -> 0 <= s.(code_buf) ->
  exists s1, out_exit_tb tb_ret_addr arg s = Ok (tt, s1) /\
    forall s2 more, s2.(code) = s1.(code) ++ more -> s2.(code_buf) = s1.(code_buf) ->
      s2.(qtrace_next_offset) = s1.(qtrace_next_offset) -> in_u 64 (code_ptr s2) ->
      code_ptr s2 < code_ptr s + 2 ^ 31 ->
      exists s3 ret, out_qtrace_instrumentation h ictx s2 = Ok (tt, s3) /\
        forall cd d, wf d -> code_at cd s3.(code_buf) s3.(code) ->
          let back := call_slot c s + 5 in
          exists d1, steps cd (code_ptr s, d) (c.(ifun), d1) /\
            call_entry (requested (QTRACE_PREINST c) (push64 back d)) ps ret (push64 back d) d1 /\
            forall d2, wf d2 -> regs d2 RSP = u64 (regs d1 RSP + 8) ->
              load 8 (regs d RSP - 8) (dmem d2) = back ->
              exists d3, steps cd (ret, d2) (tb_ret_addr, d3) /\ regs d3 TCG_REG_RAX = arg /\
                regs d3 RSP = regs d RSP /\
                keeps_regs [TCG_REG_RAX; TCG_REG_R10; RSP] d2 d3 /\ dmem d3 = dmem d2.
Proof.
  intros Hn Hc Hnext Hp Hres Hdl Hle H3 Ha Ht Hz Hb0.
  assert (exists i, Z.land arg 3 = Z.of_nat i /\ (i < 2)%nat) as (i & Ei & Hi2).
  { exists (Z.to_nat (Z.land arg 3)). assert (0 <= Z.land arg 3) by (apply Z.land_nonneg; by right). lia. }
  destruct (exit_tb_emitted tb_ret_addr arg i s) as (b & Ee & Se);
    [done|rewrite Hz; by destruct i as [|[|i]]; [| |lia]..|done|done|].
  eexists. split; [exact Ee|]. intros s2 more Hcode Hbuf Hoff Hp2 Hnear.
  assert (left_block i s (add_code b (after_jumps i s)) s2 b more) as Hlb by done.
  destruct (instrument_call_spec c ps s2 Hres) as (c1 & c2 & E & _).
  destruct (instrument_call_returns c ps (c1 ++ c2) s2 (call_slot c s + 5) Hres Hle E) as (ret & Hcall).
  destruct (instrumentation_code h ictx c i s _ s2 b more (c1 ++ c2) Hi2 Hn Hc Hnext Hp Hz Hb0 Hlb E Hp2)
    as (s3 & E3 & Hs3).
  exists s3, ret. split; [exact E3|]. intros cd d Hwf Hcd. cbn zeta.
  destruct (Hs3 cd d Hcd) as (T0 & Hx & _ & Hb & Hi & Hp0 & Hle2).
  destruct (Hcall cd d Hwf Hi) as (d1 & T1 & Hce & Hret). exists d1.
  split; [|split; [revert Hce; apply call_entry_ext; intros p Hp'; by apply (passed_requested c ps)|]].
  - etrans; [exact T0|]. etrans; [|exact T1].
    replace (call_slot c s + 5) with (call_slot c s + 1 + 4) by lia.
    apply call_goes; [done| |exact Hx]. unfold call_slot, in_s. case_match; lia.
  - intros d2 W2 Hr Hl. destruct (Hret d2 W2 Hr Hl) as (d3 & T3 & W3 & R3 & O3 & M3).
    destruct (Se cd d3 W3 Hb) as (d4 & T4 & A4 & O4 & M4). exists d4. split_and!.
    + etrans; [exact T3|]. etrans; [|exact T4].
      replace (call_slot c s + 5) with (call_slot c s + 1 + 4) by lia. by apply Hs3.
    + exact A4.
    + rewrite O4; [exact R3|]. by apply (bool_decide_unpack (_ ∉ _)).
    + intros r Hr'. rewrite !elem_of_cons in Hr'. rewrite O4, O3; rewrite ?elem_of_cons; tauto.
    + congruence.
Qed.
(** ** Two contexts *)

Lemma size_two (h : gmap Z InstrumentContext) k1 k2 c1 c2 :
  h !! k1 = Some c1 -> h !! k2 = Some c2 -> k1 <> k2 -> exists n, size h = S (S n).
Proof.
  intros H1 H2 Hne. destruct (size_lookup (delete k1 h) k2 c2) as [n Hn];
    [by rewrite lookup_delete_ne|].
  rewrite map_size_delete_Some in Hn by eauto. exists n. lia.
Qed.

(** The chain of a context called before the instruction and one called after it. *)
Record both_points (h : gmap Z InstrumentContext) (k1 k2 : Z) (c1 c2 : InstrumentContext) : Prop := {
  bp_ptr1 : k1 <> NULL;
  bp_ptr2 : k2 <> NULL;
  bp_first : h !! k1 = Some c1;
  bp_second : h !! k2 = Some c2;
  bp_next : c1.(next) = k2;
  bp_last : c2.(next) = NULL;
  bp_before : c1.(ipoint) = QTRACE_IPOINT_BEFORE;
  bp_after : c2.(ipoint) = QTRACE_IPOINT_AFTER
}.

Lemma out_call_both h k1 k2 c1 c2 s :
  both_points h k1 k2 c1 c2 ->
  tcg_qtrace_out_instrumentation_call h k1 QTRACE_IPOINT_BEFORE s =
    (tcg_qtrace_instrument_call c1 ;; mret true) s /\
  tcg_qtrace_out_instrumentation_call h k1 QTRACE_IPOINT_AFTER s =
    (tcg_qtrace_instrument_call c2 ;; mret true) s.
Proof.
  intros [H1 H2 F1 F2 N1 N2 B A]. assert (k1 <> k2) as Hne.
  { intros <-. rewrite F1 in F2. injection F2 as ->. rewrite B in A. discriminate A. }
  unfold tcg_qtrace_out_instrumentation_call.
  destruct (size_two h k1 k2 c1 c2 F1 F2 Hne) as [n ->]. cbn [out_instrumentation_call].
  rewrite !(proj2 (Z.eqb_neq k1 _)), F1, N1, !(proj2 (Z.eqb_neq k2 _)), F2, N2, B, A by done.
  by destruct n.
Qed.

(** One slot of a list whose second slot is unused, with the code behind it kept. *)
Lemma instrumentation_both h k1 k2 c1 c2 s s1 s2 b more bs1 bs2 :
  both_points h k1 k2 c1 c2 ->
  s.(qtrace_next_offset) = [0; 0; 0; 0] -> 0 <= s.(code_buf) -> left_block 0 s s1 s2 b more ->
  emitted (tcg_qtrace_instrument_call c1) s2 bs1 ->
  let s' := set_code (s.(code) ++ call_bytes (code_ptr s + 1) (code_ptr s2) ++
                      (jump_bytes ++ b ++ more ++ bs1) ++ [0xc3]) s2 in
  emitted (tcg_qtrace_instrument_call c2) s' bs2 ->
  out_qtrace_instrumentation h k1 s2 =
    Ok (tt, set_code ((s.(code) ++ call_bytes (code_ptr s + 1) (code_ptr s2)) ++
              call_bytes (code_ptr s + 6) (code_ptr s2) ++
              (b ++ more ++ bs1 ++ [0xc3] ++ bs2) ++ [0xc3]) s2).
Proof.
  intros Hboth Hz Hb0 Hlb He1 s' He2.
  destruct (left_block_code _ _ _ _ _ _ Hz Nat.lt_0_2 Hlb) as (Hcode & Hbuf & _ & O0 & O1 & O2 & O3).
  unfold out_qtrace_instrumentation. unfold mbind at 1, out_bind at 1, get_ptr.
  unfold mbind at 1, out_bind at 1. rewrite (proj1 (out_call_both _ _ _ _ _ _ Hboth)).
  unfold mbind at 1, out_bind at 1. rewrite He1.
  unfold mret at 1, out_ret at 1. unfold mbind at 1, out_bind at 1.
  change (patch_calls true [0; 2]) with (patch_calls true [Z.of_nat 0; Z.of_nat (0 + 2)]).
  rewrite (patch_calls_slot 0 0 (code_ptr s + 1) (code_ptr s2) s.(code) jump_bytes
    (jump_bytes ++ b ++ more ++ bs1));
    [|lia|done|done|cbn; by rewrite Hcode, <- !app_assoc|done
     |cbn; rewrite Hbuf; unfold code_ptr; lia|unfold code_ptr; lia].
  change (set_code _ (add_code bs1 s2)) with s'.
  unfold mbind at 1, out_bind at 1. unfold mbind at 1, out_bind at 1.
  rewrite (proj2 (out_call_both _ _ _ _ _ _ Hboth)). unfold mbind at 1, out_bind at 1.
  rewrite He2. unfold mret at 1, out_ret at 1.
  etrans; [apply (patch_calls_slot 1 0 (code_ptr s + 6) (code_ptr s2)
    (s.(code) ++ call_bytes (code_ptr s + 1) (code_ptr s2)) jump_bytes
    (b ++ more ++ bs1 ++ [0xc3] ++ bs2))|done]; [lia|done|done| |done| |].
  - unfold s'. cbn [add_code set_code code]. by rewrite <- !app_assoc.
  - unfold s'. cbn [add_code set_code code_buf]. rewrite Hbuf, length_app.
    change (length (call_bytes _ _)) with 5%nat. unfold code_ptr. lia.
  - unfold code_ptr. lia.
Qed.

(** C35: With contexts at both points, the call after the instruction goes to the
    wrong code.  The second jump is turned into a call of the code generated for
    the context that is called before the instruction; that function is called
    twice, and the one that should be called after the instruction never is. *)
Theorem after_call_runs_before h k1 k2 c1 c2 ps1 ps2 tb_ret_addr arg s :
  both_points h k1 k2 c1 c2 -> resolved c1 ps1 -> resolved c2 ps2 ->
  (length ps1 <= regcount)%nat -> Z.land arg 3 = 0 -> in_u 64 arg ->
  in_u 64 tb_ret_addr -> s.(qtrace_next_offset) = [0; 0; 0; 0] -> 0 <= s.(code_buf) ->
  exists s1, out_exit_tb tb_ret_addr arg s = Ok (tt, s1) /\
    forall s2 more, s2.(code) = s1.(code) ++ more -> s2.(code_buf) = s1.(code_buf) ->
      s2.(qtrace_next_offset) = s1.(qtrace_next_offset) -> in_u 64 (code_ptr s2) ->
      code_ptr s2 < code_ptr s + 2 ^ 31 ->
      exists s3 ret, out_qtrace_instrumentation h k1 s2 = Ok (tt, s3) /\
        forall cd d, wf d -> code_at cd s3.(code_buf) s3.(code) ->
          exists d1, steps cd (call_slot c2 s, d) (c1.(ifun), d1) /\
            call_entry (passed true (push64 (call_slot c2 s + 5) d)) ps1 ret (push64 (call_slot c2 s + 5) d) d1.
Proof.
  intros Hboth Hr1 Hr2 Hle H3 Ha Ht Hz Hb0.
  destruct (exit_tb_emitted tb_ret_addr arg 0 s) as (b & Ee & _); [by rewrite H3|by rewrite Hz..|done|done|].
  eexists. split; [exact Ee|]. intros s2 more Hcode Hbuf Hoff Hp2 Hnear.
  assert (left_block 0 s (add_code b (after_jumps 0 s)) s2 b more) as Hlb by done.
  destruct (instrument_call_spec c1 ps1 s2 Hr1) as (x1 & y1 & E1 & _).
  edestruct (instrument_call_spec c2 ps2) as (x2 & y2 & E2 & _); [exact Hr2|].
  destruct (instrument_call_returns c1 ps1 _ s2 (call_slot c2 s + 5) Hr1 Hle E1) as (ret & Hcall).
  eexists. exists ret. split; [by eapply instrumentation_both|].
  cbn [set_code code code_buf]. rewrite Hbuf. intros cd d Hwf Hcd.
  rewrite <- !app_assoc in Hcd. rewrite (app_assoc x1), (app_assoc (x1 ++ y1)) in Hcd.
  destruct (left_block_placed 0 s (add_code b (after_jumps 0 s)) s2 b more
    (call_bytes (code_ptr s + 1) (code_ptr s2)) (call_bytes (code_ptr s + 6) (code_ptr s2))
    _ cd Hz Nat.lt_0_2 Hlb eq_refl eq_refl Hcd) as (_ & Hx & _ & [Hi _]%code_at_app & Hle2).
  destruct (Hcall cd d Hwf Hi) as (d1 & T1 & Hce & _).
  unfold QTRACE_PREINST in Hce. rewrite (bp_before _ _ _ _ _ Hboth) in Hce.
  exists d1. split; [|exact Hce]. etrans; [|exact T1]. unfold call_slot.
  rewrite (bp_after _ _ _ _ _ Hboth).
  change (QTRACE_IPOINT_AFTER =? QTRACE_IPOINT_BEFORE) with false. cbv iota.
  replace (code_ptr s + 5 + 5) with (code_ptr s + 6 + 4) by lia.
  replace (code_ptr s + 5) with (code_ptr s + 6 - 1) by lia.
  assert (0 <= code_ptr s) by (unfold code_ptr; lia).
  apply call_goes; [done|unfold in_s; lia|].
  by replace (code_ptr s + 6 - 1) with (code_ptr s + 5) by lia.
Qed.
End Instrumented.

(** C36: The exits of a block that stop it early have no slots.  [exit_tb] with one
    of the codes TB_EXIT_ICOUNT_EXPIRED (2) and TB_EXIT_REQUESTED (3), with which
    every block ends, reads past the four offsets. *)
Theorem exit_requested_out_of_bounds tb_ret_addr arg s :
  length s.(qtrace_next_offset) = 4%nat -> 2 <= Z.land arg 3 ->
  out_exit_tb tb_ret_addr arg s = Err OutOfBounds.
Proof.
  intros Hl H. unfold out_exit_tb, mbind, out_bind, get_next_offset, array_get, PREINST_INDEX.
  rewrite Hl. assert ((0 <=? 0 + Z.land arg 3 * 2) && (0 + Z.land arg 3 * 2 <? Z.of_nat 4) = false)
    as -> by (apply andb_false_iff; lia). done.
Qed.

(** ** Examples *)

Definition demo_heap : gmap Z InstrumentContext := {[ 0x1000 := demo_context (take 3 demo_params) ]}.

Definition demo_before : InstrumentContext :=
  set_ipoint QTRACE_IPOINT_BEFORE (set_next 0x1000 (demo_context (take 3 demo_params))).
Definition demo_chain : gmap Z InstrumentContext := <[0x2000 := demo_before]> demo_heap.

Lemma block_exit_instrumented_witness :
  exists s1, out_exit_tb 0x20000 0x7f00 demo_ctx = Ok (tt, s1) /\
  exists s3, out_qtrace_instrumentation demo_heap 0x1000 s1 = Ok (tt, s3).
Proof.
  destruct (block_exit_instrumented demo_heap 0x1000 (demo_context (take 3 demo_params))
    (take 3 demo_params) 0x20000 0x7f00 demo_ctx) as (s1 & E & H);
    [done|done|done|by right|apply demo_resolved; lia|done|cbn; unfold regcount; lia|done|done|done|done|done|].
  exists s1. split; [done|]. assert (s1.(code_buf) = 0x10000 /\ length s1.(code) = 20%nat) as [Hb Hl]
    by (vm_compute in E; injection E as <-; done).
  destruct (H s1 []) as (s3 & _ & E3 & _); [by rewrite app_nil_r|done|done| | |by exists s3];
    unfold code_ptr; rewrite Hb, Hl; done.
Defined.

Lemma after_call_runs_before_witness :
  exists s1, out_exit_tb 0x20000 0x7f00 demo_ctx = Ok (tt, s1) /\
  exists s3, out_qtrace_instrumentation demo_chain 0x2000 s1 = Ok (tt, s3).
Proof.
  destruct (after_call_runs_before demo_chain 0x2000 0x1000 demo_before
    (demo_context (take 3 demo_params)) (take 3 demo_params) (take 3 demo_params) 0x20000 0x7f00
    demo_ctx) as (s1 & E & H);
    [by split| |apply demo_resolved; lia|cbn; unfold regcount; lia|done|done|done|done|done|].
  { destruct (demo_resolved 3 ltac:(lia)) as []. by split. }
  exists s1. split; [done|]. assert (s1.(code_buf) = 0x10000 /\ length s1.(code) = 20%nat) as [Hb Hl]
    by (vm_compute in E; injection E as <-; done).
  destruct (H s1 []) as (s3 & _ & E3 & _); [by rewrite app_nil_r|done|done| | |by exists s3];
    unfold code_ptr; rewrite Hb, Hl; done.
Defined.

Lemma exit_requested_out_of_bounds_witness :
  out_exit_tb 0x20000 0x7f03 demo_ctx = Err OutOfBounds.
Proof. by apply exit_requested_out_of_bounds. Defined.
