(* ===== verification/TcgOp.v ===== *)
(** * Generating code for one operation

    tcg/i386/tcg-target.c, [tcg_out_op]: the operation's arguments (registers and
    constants, as the register allocator placed them) select the instructions. *)

From S2P Require Import Prelude QtraceDefs IContext Interpret X86 TcgOut TcgEnc TcgEmit.
From S2P Require Import TcgCond TcgOpDefs TcgLabel TlbLoad QemuLdSt MemTrace SlowPath InstrCall TbExit.

(** ** Model *)

(** [args[i]] and [const_args[i]].  Arguments are 64-bit words. *)
Definition get_arg (args : list Z) (i : nat) : out Z :=
  match args !! i with Some v => mret v | None => fail OutOfBounds end.
Definition get_const (const_args : list bool) (i : nat) : out bool :=
  match const_args !! i with Some b => mret b | None => fail OutOfBounds end.
Definition get_cond (v : Z) : out TCGCond :=
  match cond_of v with Some c => mret c | None => fail OutOfBounds end.

Section Cases.
Context (t : TCGType) (args : list Z) (const_args : list bool).

Local Abbreviation arg := (get_arg args).
Local Abbreviation const_arg := (get_const const_args).

Definition op_call : out unit :=
  c0 ← const_arg 0; a0 ← arg 0;
  if c0 : bool then tcg_out_calli a0 else tcg_out_modrm OPC_GRP5 EXT5_CALLN_Ev a0.

(** A load with the opcode [opc]. *)
Definition op_ld (opc : Z) : out unit :=
  a0 ← arg 0; a1 ← arg 1; a2 ← arg 2; tcg_out_modrm_offset opc a0 a1 (s64 a2).

Definition op_st8 : out unit :=
  c0 ← const_arg 0; a0 ← arg 0; a1 ← arg 1; a2 ← arg 2;
  if c0 : bool then tcg_out_modrm_offset OPC_MOVB_EvIz 0 a1 (s64 a2) ;; tcg_out8 a0
  else tcg_out_modrm_offset (Z.lor OPC_MOVB_EvGv P_REXB_R) a0 a1 (s64 a2).
Definition op_st16 : out unit :=
  c0 ← const_arg 0; a0 ← arg 0; a1 ← arg 1; a2 ← arg 2;
  if c0 : bool then
    tcg_out_modrm_offset (Z.lor OPC_MOVL_EvIz P_DATA16) 0 a1 (s64 a2) ;; tcg_out16 a0
  else tcg_out_modrm_offset (Z.lor OPC_MOVL_EvGv P_DATA16) a0 a1 (s64 a2).
Definition op_st32 : out unit :=
  c0 ← const_arg 0; a0 ← arg 0; a1 ← arg 1; a2 ← arg 2;
  if c0 : bool then tcg_out_modrm_offset OPC_MOVL_EvIz 0 a1 (s64 a2) ;; tcg_out32 a0
  else tcg_out_st TCG_TYPE_I32 a0 a1 (s64 a2).
Definition op_st64 : out unit :=
  c0 ← const_arg 0; a0 ← arg 0; a1 ← arg 1; a2 ← arg 2;
  if c0 : bool then
    tcg_out_modrm_offset (Z.lor OPC_MOVL_EvIz P_REXW) 0 a1 (s64 a2) ;; tcg_out32 a0
  else tcg_out_st TCG_TYPE_I64 a0 a1 (s64 a2).

Definition gen_arith (c : Z) : out unit :=
  c2 ← const_arg 2; a0 ← arg 0; a2 ← arg 2;
  if c2 : bool then tgen_arithi (c + rexw_of t) a0 (s64 a2) false
  else tgen_arithr (c + rexw_of t) a0 a2.

(** An addition with a different destination is a LEA. *)
Definition op_add : out unit :=
  a0 ← arg 0; a1 ← arg 1;
  if negb (a0 =? a1) then
    a2 ← arg 2; c2 ← const_arg 2;
    if c2 : bool then
      tcg_out_modrm_sib_offset (OPC_LEA + rexw_of t) a0 a1 (-1) 0 (s64 a2)
    else if a0 =? a2 then tgen_arithr (ARITH_ADD + rexw_of t) a0 a1
    else tcg_out_modrm_sib_offset (OPC_LEA + rexw_of t) a0 a1 a2 0 0
  else gen_arith ARITH_ADD.

Definition op_mul : out unit :=
  c2 ← const_arg 2; a0 ← arg 0; a2 ← arg 2;
  if c2 : bool then
    let val := s32 a2 in
    if val =? s8 val then tcg_out_modrm (OPC_IMUL_GvEvIb + rexw_of t) a0 a0 ;; tcg_out8 val
    else tcg_out_modrm (OPC_IMUL_GvEvIz + rexw_of t) a0 a0 ;; tcg_out32 val
  else tcg_out_modrm (OPC_IMUL_GvEv + rexw_of t) a0 a2.

(** An instruction of the third group on argument [i]. *)
Definition op_grp3 (ext : Z) (i : nat) : out unit :=
  a ← arg i; tcg_out_modrm (OPC_GRP3_Ev + rexw_of t) ext a.

Definition gen_shift (c : Z) : out unit :=
  c2 ← const_arg 2; a0 ← arg 0; a2 ← arg 2;
  if c2 : bool then tcg_out_shifti (c + rexw_of t) a0 (s32 a2)
  else tcg_out_modrm (OPC_SHIFT_cl + rexw_of t) c a0.

Definition op_brcond : out unit :=
  a0 ← arg 0; a1 ← arg 1; a2 ← arg 2; a3 ← arg 3; c1 ← const_arg 1; cond ← get_cond a2;
  (match t with TCG_TYPE_I32 => tcg_out_brcond32 | TCG_TYPE_I64 => tcg_out_brcond64 end)
    cond a0 (if c1 : bool then s64 a1 else a1) c1 a3 false.
Definition op_setcond : out unit :=
  a0 ← arg 0; a1 ← arg 1; a2 ← arg 2; a3 ← arg 3; c2 ← const_arg 2; cond ← get_cond a3;
  tcg_out_setcond t cond a0 a1 (if c2 : bool then s64 a2 else a2) c2.
Definition op_movcond : out unit :=
  a0 ← arg 0; a1 ← arg 1; a2 ← arg 2; a3 ← arg 3; a5 ← arg 5; c2 ← const_arg 2;
  cond ← get_cond a5;
  tcg_out_movcond t cond a0 a1 (if c2 : bool then s64 a2 else a2) c2 a3.

(** Double-word addition and subtraction. *)
Definition op_arith2 (lo hi : Z) : out unit :=
  c4 ← const_arg 4; a0 ← arg 0; a4 ← arg 4;
  (if c4 : bool then tgen_arithi (lo + rexw_of t) a0 (s64 a4) true
   else tgen_arithr (lo + rexw_of t) a0 a4) ;;
  c5 ← const_arg 5; a1 ← arg 1; a5 ← arg 5;
  if c5 : bool then tgen_arithi (hi + rexw_of t) a1 (s64 a5) true
  else tgen_arithr (hi + rexw_of t) a1 a5.

Definition op_deposit : out unit :=
  a0 ← arg 0; a2 ← arg 2; a3 ← arg 3; a4 ← arg 4;
  if (a3 =? 0) && (a4 =? 8) then
    tcg_out_modrm (Z.lor (Z.lor OPC_MOVB_EvGv P_REXB_R) P_REXB_RM) a2 a0
  else if (a3 =? 8) && (a4 =? 8) then tcg_out_modrm OPC_MOVB_EvGv a2 (a0 + 4)
  else if (a3 =? 0) && (a4 =? 16) then
    tcg_out_modrm (Z.lor OPC_MOVL_EvGv P_DATA16) a2 a0
  else fail TcgAbort.

(** One register changed in place, or set from another one. *)
Definition op_unary (f : Z -> out unit) : out unit := a0 ← arg 0; f a0.
Definition op_binary (f : Z -> Z -> out unit) : out unit := a0 ← arg 0; a1 ← arg 1; f a0 a1.
End Cases.

(** [tcg_out_op] for a heap of instrumentation contexts and the address of the
    epilogue. *)
Definition tcg_out_op `{L : CPULayout} (h : gmap Z InstrumentContext) (tb_ret_addr : Z)
    (opc : TCGOpcode) (args : list Z) (const_args : list bool) : out unit :=
  match opc with
  | INDEX_op_qtrace_instrumentation => a0 ← get_arg args 0; out_qtrace_instrumentation h a0
  | INDEX_op_qtrace_shadow_register =>
      op_binary args (fun a0 a1 => out_qtrace_shadow_register (u32 a0) (u32 a1))
  | INDEX_op_exit_tb => op_unary args (out_exit_tb tb_ret_addr)
  | INDEX_op_goto_tb => op_unary args out_goto_tb
  | INDEX_op_call => op_call args const_args
  | INDEX_op_br => op_unary args (fun a0 => tcg_out_jxx JCC_JMP a0 false)
  | INDEX_op_movi t => op_binary args (fun a0 a1 => tcg_out_movi t a0 (s64 a1))
  | INDEX_op_ld8u _ => op_ld args OPC_MOVZBL
  | INDEX_op_ld8s t => op_ld args (OPC_MOVSBL + rexw_of t)
  | INDEX_op_ld16u _ => op_ld args OPC_MOVZWL
  | INDEX_op_ld16s t => op_ld args (OPC_MOVSWL + rexw_of t)
  | INDEX_op_ld32u_i64 | INDEX_op_ld TCG_TYPE_I32 => op_ld args OPC_MOVL_GvEv
  | INDEX_op_ld32s_i64 => op_ld args OPC_MOVSLQ
  | INDEX_op_ld TCG_TYPE_I64 => op_ld args (OPC_MOVL_GvEv + P_REXW)
  | INDEX_op_st8 _ => op_st8 args const_args
  | INDEX_op_st16 _ => op_st16 args const_args
  | INDEX_op_st32_i64 | INDEX_op_st TCG_TYPE_I32 => op_st32 args const_args
  | INDEX_op_st TCG_TYPE_I64 => op_st64 args const_args
  | INDEX_op_add t => op_add t args const_args
  | INDEX_op_sub t => gen_arith t args const_args ARITH_SUB
  | INDEX_op_and t => gen_arith t args const_args ARITH_AND
  | INDEX_op_or t => gen_arith t args const_args ARITH_OR
  | INDEX_op_xor t => gen_arith t args const_args ARITH_XOR
  | INDEX_op_mul t => op_mul t args const_args
  | INDEX_op_div2 t => op_grp3 t args EXT3_IDIV 4
  | INDEX_op_divu2 t => op_grp3 t args EXT3_DIV 4
  | INDEX_op_shl t => gen_shift t args const_args SHIFT_SHL
  | INDEX_op_shr t => gen_shift t args const_args SHIFT_SHR
  | INDEX_op_sar t => gen_shift t args const_args SHIFT_SAR
  | INDEX_op_rotl t => gen_shift t args const_args SHIFT_ROL
  | INDEX_op_rotr t => gen_shift t args const_args SHIFT_ROR
  | INDEX_op_brcond t => op_brcond t args const_args
  | INDEX_op_setcond t => op_setcond t args const_args
  | INDEX_op_movcond t => op_movcond t args const_args
  | INDEX_op_bswap16 _ => op_unary args tcg_out_rolw_8
  | INDEX_op_bswap32 _ => op_unary args tcg_out_bswap32
  | INDEX_op_bswap64_i64 => op_unary args tcg_out_bswap64
  | INDEX_op_neg t => op_grp3 t args EXT3_NEG 0
  | INDEX_op_not t => op_grp3 t args EXT3_NOT 0
  | INDEX_op_ext8s t => op_binary args (fun a0 a1 => tcg_out_ext8s a0 a1 (rexw_of t))
  | INDEX_op_ext16s t => op_binary args (fun a0 a1 => tcg_out_ext16s a0 a1 (rexw_of t))
  | INDEX_op_ext8u _ => op_binary args tcg_out_ext8u
  | INDEX_op_ext16u _ => op_binary args tcg_out_ext16u
  | INDEX_op_ext32u_i64 => op_binary args tcg_out_ext32u
  | INDEX_op_ext32s_i64 => op_binary args tcg_out_ext32s
  | INDEX_op_qemu_ld _ =>
      a0 ← get_arg args 0; a1 ← get_arg args 1; a2 ← get_arg args 2; a3 ← get_arg args 3;
      tcg_out_qemu_ld a0 a1 a2 a3
  | INDEX_op_qemu_st _ =>
      a0 ← get_arg args 0; a1 ← get_arg args 1; a2 ← get_arg args 2; a3 ← get_arg args 3;
      tcg_out_qemu_st a0 a1 a2 a3
  | INDEX_op_mulu2 t => op_grp3 t args EXT3_MUL 3
  | INDEX_op_muls2 t => op_grp3 t args EXT3_IMUL 3
  | INDEX_op_add2 t => op_arith2 t args const_args ARITH_ADD ARITH_ADC
  | INDEX_op_sub2 t => op_arith2 t args const_args ARITH_SUB ARITH_SBB
  | INDEX_op_deposit _ => op_deposit args
  | _ => fail TcgAbort
  end.
