(* ===== verification/TcgAlu.v ===== *)
(** * Arithmetic operations

    The code that [tcg_out_op] generates for the arithmetic, logical, shift,
    extension and comparison operations computes what the operation means, for
    operands that satisfy the constraint table. *)

From S2P Require Import Prelude QtraceDefs IContext Interpret X86 TcgOut TcgEnc TcgEmit.
From S2P Require Import TcgCond TcgOpDefs TcgLabel TlbLoad QemuLdSt MemTrace SlowPath InstrCall TbExit.
From S2P Require Import TcgSem TcgOp.

(** ** Operands *)

(** The value of an input operand. *)
Definition operand_value (t : TCGType) (const : bool) (v : Z) (d : dstate) : Z :=
  wrap (wsize t) (if const then v else regs d v).

Lemma wrap_s64 t v : wrap (wsize t) (s64 v) = wrap (wsize t) v.
Proof. apply wrap_swrap_le. by destruct t. Qed.

(** ** One instruction *)

Lemma arithr_sets op t dest src d :
  writes_result op = true -> uses_carry op = false ->
  let n := wsize t in
  exists d', run1 (IArithRM op (twidth t) dest (EReg src)) d = Some d' /\
    sets_reg dest (arith_result op n (wrap n (regs d dest)) (wrap n (regs d src)) false) d d'.
Proof.
  intros Hw Hc n. unfold run1. cbn [exec_plain read_ea]. rewrite !read_reg_t.
  assert (0 <= n) by (unfold n; by destruct t).
  apply do_arith_reg; [done|done|by apply wrap_range..|]. intros. apply sets_reg_t.
Qed.

(** An instruction that writes one register and perhaps the flags. *)
Lemma no_flags_sets r v d d' : sets_reg r v d d' -> sets_reg r v d (no_flags d').
Proof. done. Qed.

Lemma shift_flags_sets op c r v d d' : sets_reg r v d d' -> sets_reg r v d (shift_flags op c d').
Proof. unfold shift_flags. by destruct (c =? 0), op. Qed.

Definition gen_op (o : binop) : option aop :=
  match o with
  | BAdd => Some Add | BSub => Some Sub | BAnd => Some And | BOr => Some Or | BXor => Some Xor
  | _ => None
  end.

Lemma gen_op_result o op n x y : gen_op o = Some op ->
  arith_result op n x y false = binop_value o n x y /\ writes_result op = true /\
  uses_carry op = false.
Proof. destruct o; intros [= <-]; done. Qed.

(** The effect of an operation on the register [a0] that holds the first operand. *)
Definition binop_effect (o : binop) (t : TCGType) (a0 a1 a2 : Z) (k2 : bool) (d d' : dstate) : Prop :=
  let y := operand_value t k2 a2 d in
  binop_defined o (wsize t) y = true ->
  sets_reg a0 (binop_value o (wsize t) (operand_value t false a1 d) y) d d'.

Lemma gen_arith_computes o op t a0 a2 k2 a1' :
  gen_op o = Some op -> reg_ok a0 ->
  (if k2 : bool then arithi_ok op t (s64 a2) = true else reg_ok a2) ->
  computes (gen_arith t [a0; a1'; a2] [false; false; k2] (aop_code op))
    (binop_effect o t a0 a0 a2 k2).
Proof.
  intros Ho Hr H2. change (gen_arith t [a0; a1'; a2] [false; false; k2] (aop_code op)) with
    (if k2 then tgen_arithi (aop_code op + rexw_of t) a0 (s64 a2) false
     else tgen_arithr (aop_code op + rexw_of t) a0 a2).
  assert (forall n x y, arith_result op n x y false = binop_value o n x y) as Er
    by (intros; by apply gen_op_result).
  destruct (gen_op_result o op 0 0 0 Ho) as (_ & Hw & Hc). unfold binop_effect, operand_value.
  destruct k2.
  - eapply straight_computes; [by apply straight_arithi|]. intros d Hwf.
    destruct (arithi_result op t a0 (s64 a2) false d Hwf Hw Hc H2) as (d' & E & S).
    exists d'. split; [done|]. intros _. eapply sets_reg_eq; [exact S|].
    fold (wsize t). by rewrite Er, wrap_s64.
  - eapply straight_computes; [by apply straight_arithr|]. intros d Hwf.
    destruct (arithr_sets op t a0 a2 d Hw Hc) as (d' & E & S).
    exists d'. split; [done|]. intros _. eapply sets_reg_eq; [exact S|]. by rewrite Er.
Qed.

(** Addition with LEA. *)
Lemma straight_lea t a0 a1 index off :
  reg_ok a0 -> reg_ok a1 -> index < 0 \/ (reg_ok index /\ index <> 4) ->
  straight (tcg_out_modrm_sib_offset (OPC_LEA + rexw_of t) a0 a1 index 0 off)
    (run1 (ILea (twidth t) a0
             (EMem (Some a1) (if index <? 0 then None else Some (index, 0)) (s32 off)))).
Proof.
  intros H0 H1 Hi. apply straight_instr; [done|]. intros s.
  destruct (emitted_modrm_sib_offset (OPC_LEA + rexw_of t) a0 a1 index 0 off s)
    as (bs & He & Hd); try done; [destruct t; opc_side|by destruct t|].
  exists bs. split; [done|]. destruct t; by eapply encodes_noimm.
Qed.

Lemma lea_operation t a0 a1 index off d :
  sets_reg a0 (wrap (wsize t) (regs d a1 + (if index <? 0 then 0 else regs d index) + s32 off)) d
    (write_reg (twidth t) a0
       (addr_of 0 (EMem (Some a1) (if index <? 0 then None else Some (index, 0)) (s32 off)) d) d).
Proof.
  eapply sets_reg_eq; [apply sets_reg_t|]. fold (wsize t). cbn [addr_of].
  rewrite wrap_wrap_le by (destruct t; cbn; lia). destruct (index <? 0); [done|].
  by rewrite Z.pow_0_r, Z.mul_1_r.
Qed.

Lemma op_add_computes t a0 a1 a2 k2 :
  reg_ok a0 -> reg_ok a1 ->
  (if k2 : bool then arithi_ok Add t (s64 a2) = true else reg_ok a2 /\ a2 <> 4) ->
  computes (op_add t [a0; a1; a2] [false; false; k2]) (binop_effect BAdd t a0 a1 a2 k2).
Proof.
  intros H0 H1 H2. unfold op_add. cbn [get_arg lookup list_lookup].
  change (computes (if negb (a0 =? a1) then
      (if k2 then tcg_out_modrm_sib_offset (OPC_LEA + rexw_of t) a0 a1 (-1) 0 (s64 a2)
       else if a0 =? a2 then tgen_arithr (ARITH_ADD + rexw_of t) a0 a1
       else tcg_out_modrm_sib_offset (OPC_LEA + rexw_of t) a0 a1 a2 0 0)
      else gen_arith t [a0; a1; a2] [false; false; k2] ARITH_ADD) (binop_effect BAdd t a0 a1 a2 k2)).
  destruct (Z.eqb_spec a0 a1) as [<-|Hne]; cbn [negb].
  { apply (gen_arith_computes BAdd Add); [done|done|]. destruct k2; [done|apply H2]. }
  unfold binop_effect, operand_value. cbn [binop_value]. destruct k2.
  - eapply straight_computes; [apply straight_lea; [done|done|lia]|].
    intros d Hwf. eexists. split; [reflexivity|]. intros _.
    eapply sets_reg_eq; [apply lea_operation|]. cbn [Z.ltb Z.compare]. rewrite Z.add_0_r.
    rewrite wrap_add_l, wrap_add_r.
    unfold arithi_ok in H2. rewrite orb_false_r in H2. destruct t; cbn [is_I32 orb] in H2.
    + change (wsize TCG_TYPE_I32) with 32. rewrite <- wrap_add_r, wrap_swrap by lia.
      rewrite (wrap_swrap_le 32 64) by lia. apply wrap_add_r.
    + apply Z.eqb_eq in H2. rewrite <- H2. change (wsize TCG_TYPE_I64) with 64.
      rewrite <- wrap_add_r, wrap_swrap by lia. apply wrap_add_r.
  - destruct H2 as [H2 H4]. destruct (Z.eqb_spec a0 a2) as [<-|Hn2].
    + eapply straight_computes; [by apply (straight_arithr Add)|]. intros d Hwf.
      destruct (arithr_sets Add t a0 a1 d) as (d' & E & S); [done..|].
      exists d'. split; [done|]. intros _. eapply sets_reg_eq; [exact S|].
      cbn [arith_result]. by rewrite Z.add_comm.
    + eapply straight_computes; [apply straight_lea; [done|done|by right]|].
      intros d Hwf. eexists. split; [reflexivity|]. intros _.
      eapply sets_reg_eq; [apply lea_operation|]. unfold reg_ok in H2.
      rewrite (proj2 (Z.ltb_ge a2 0)) by lia. change (s32 0) with 0.
      by rewrite Z.add_0_r, wrap_add_l, wrap_add_r.
Qed.

(** Multiplication. *)
Lemma wrap_mul_l n a b : wrap n (wrap n a * b) = wrap n (a * b).
Proof. unfold wrap. apply Zmult_mod_idemp_l. Qed.
Lemma wrap_mul_r n a b : wrap n (a * wrap n b) = wrap n (a * b).
Proof. unfold wrap. apply Zmult_mod_idemp_r. Qed.

Lemma straight_imul_const t a0 v :
  reg_ok a0 -> in_s 32 v ->
  straight (if v =? s8 v then
      tcg_out_modrm (OPC_IMUL_GvEvIb + rexw_of t) a0 a0 ;; tcg_out8 v
      else tcg_out_modrm (OPC_IMUL_GvEvIz + rexw_of t) a0 a0 ;; tcg_out32 v)
    (run1 (IImulI (twidth t) a0 (EReg a0) v)).
Proof.
  intros H0 Hv. destruct (Z.eqb_spec v (s8 v)) as [E|E].
  - destruct t; apply straight_modrm_imm8; try opc_side; rewrite <- E; reflexivity.
  - assert (s32 v = v) as E32 by (by apply swrap_id).
    destruct t; apply straight_modrm_imm32; try opc_side; rewrite E32; reflexivity.
Qed.

Lemma straight_imul t a0 a2 :
  reg_ok a0 -> reg_ok a2 ->
  straight (tcg_out_modrm (OPC_IMUL_GvEv + rexw_of t) a0 a2)
    (run1 (IImul (twidth t) a0 (EReg a2))).
Proof. intros. destruct t; apply straight_modrm; opc_side. Qed.

Lemma op_mul_computes t a0 a2 k2 a1' :
  reg_ok a0 -> (if k2 : bool then is_I32 t || (s64 a2 =? s32 (s64 a2)) = true else reg_ok a2) ->
  computes (op_mul t [a0; a1'; a2] [false; false; k2]) (binop_effect BMul t a0 a0 a2 k2).
Proof.
  intros H0 H2. change (op_mul t [a0; a1'; a2] [false; false; k2]) with
    (if k2 then
       (if s32 a2 =? s8 (s32 a2) then
          tcg_out_modrm (OPC_IMUL_GvEvIb + rexw_of t) a0 a0 ;; tcg_out8 (s32 a2)
        else tcg_out_modrm (OPC_IMUL_GvEvIz + rexw_of t) a0 a0 ;; tcg_out32 (s32 a2))
     else tcg_out_modrm (OPC_IMUL_GvEv + rexw_of t) a0 a2).
  unfold binop_effect, operand_value. cbn [binop_value]. destruct k2.
  - assert (wrap (wsize t) (s32 a2) = wrap (wsize t) a2) as Ew.
    { destruct t; [by apply wrap_swrap|]. apply Z.eqb_eq in H2.
      rewrite <- (wrap_s64 TCG_TYPE_I64 a2), H2. f_equal.
      symmetry. apply swrap_cong, wrap_swrap_le. lia. }
    eapply straight_computes; [apply straight_imul_const; [done|by apply swrap_range]|].
    intros d Hwf. eexists. split; [reflexivity|]. intros _.
    apply no_flags_sets. eapply sets_reg_eq; [apply sets_reg_t|]. fold (wsize t).
    cbn [read_ea]. rewrite read_reg_t. fold (wsize t).
    by rewrite <- wrap_mul_r, Ew.
  - eapply straight_computes; [by apply straight_imul|]. intros d Hwf.
    eexists. split; [reflexivity|]. intros _. apply no_flags_sets.
    eapply sets_reg_eq; [apply sets_reg_t|]. cbn [read_ea]. by rewrite !read_reg_t.
Qed.

(** Shifts and rotations. *)
Definition shift_sop (o : binop) : option sop :=
  match o with
  | BShl => Some Shl | BShr => Some Shr | BSar => Some Sar | BRotl => Some Rol | BRotr => Some Ror
  | _ => None
  end.

Lemma shift_count t y : 0 <= y < wsize t ->
  Z.land y (match twidth t with W64 => 63 | _ => 31 end) = y.
Proof.
  intros Hy. destruct t; [change 31 with (Z.ones 5)|change 63 with (Z.ones 6)];
    cbn [twidth]; rewrite Z.land_ones by lia; apply Z.mod_small; exact Hy.
Qed.

Lemma shift_result_value o op n x y :
  shift_sop o = Some op -> 0 <= y < n -> shift_result op n x y = binop_value o n x y.
Proof.
  intros Ho Hy. destruct o; try discriminate Ho; injection Ho as <-;
    cbn [shift_result binop_value]; rewrite ?(Z.mod_small y n) by done; done.
Qed.

Lemma straight_shift_cl op t a0 :
  reg_ok a0 ->
  straight (tcg_out_modrm (OPC_SHIFT_cl + rexw_of t) (sop_code op) a0)
    (run1 (IShift op (twidth t) (EReg a0) None)).
Proof. intros. destruct op, t; apply straight_modrm; opc_side. Qed.

(** The count is taken modulo 256 by the encoding. *)
Lemma straight_shift_imm op t reg count :
  reg_ok reg ->
  straight (tcg_out_shifti (sop_code op + rexw_of t) reg count)
    (run1 (IShift op (twidth t) (EReg reg) (Some (s8 count)))).
Proof.
  intros Hr. unfold tcg_out_shifti. destruct (Z.eqb_spec count 1) as [->|Hne].
  - destruct op, t; apply straight_modrm; opc_side.
  - destruct op, t; apply straight_modrm_imm8; opc_side.
Qed.

Lemma shift_sets o op t a0 count c d :
  shift_sop o = Some op -> 0 <= c < wsize t ->
  Z.land (match count with Some c => c | None => regs d RCX end)
    (match twidth t with W64 => 63 | _ => 31 end) = c ->
  exists d', run1 (IShift op (twidth t) (EReg a0) count) d = Some d' /\
    sets_reg a0 (binop_value o (wsize t) (wrap (wsize t) (regs d a0)) c) d d'.
Proof.
  intros Ho Hc E. eexists. split; [reflexivity|]. rewrite E. apply shift_flags_sets.
  eapply sets_reg_eq; [apply sets_reg_t|]. cbn [read_ea]. rewrite read_reg_t. fold (wsize t).
  rewrite (shift_result_value o op) by done. pose proof (wrap_range (wsize t) (regs d a0)) as Hx.
  destruct o; try discriminate Ho; try (by cbn [binop_value]; rewrite wrap_wrap).
  cbn [binop_value]. apply wrap_id. destruct (Hx ltac:(by destruct t)) as [Hx0 Hx1].
  split; [by apply Z.shiftr_nonneg|]. rewrite Z.shiftr_div_pow2 by lia.
  eapply Z.le_lt_trans; [|exact Hx1]. apply Z.div_le_upper_bound; [lia|].
  pose proof (Z.pow_pos_nonneg 2 c). nia.
Qed.

(** The count of a shift whose value is defined. *)
Lemma shift_operand t k2 a2 d :
  (if k2 : bool then True else a2 = RCX) -> operand_value t k2 a2 d < wsize t ->
  Z.land (match (if k2 then Some (s8 (s32 a2)) else None) with Some c => c | None => regs d RCX end)
    (match twidth t with W64 => 63 | _ => 31 end) = operand_value t k2 a2 d.
Proof.
  intros H2 Hy. set (y := operand_value t k2 a2 d) in *.
  assert (0 <= y < wsize t) as Hr.
  { split; [|done]. unfold y, operand_value. apply wrap_range. by destruct t. }
  destruct k2.
  - assert (s32 a2 = y) as ->.
    { assert (s32 a2 = s32 y) as ->.
      { apply swrap_cong. unfold y, operand_value. rewrite wrap_wrap_le; [done|by destruct t]. }
      apply swrap_id; [lia|]. unfold in_s. destruct t; cbn in Hr; lia. }
    rewrite swrap_id; [by apply shift_count|lia|]. unfold in_s. destruct t; cbn in Hr; lia.
  - subst a2. rewrite <- (shift_count t y) by done. unfold y, operand_value.
    destruct t; cbn [twidth wsize wbits]; by rewrite land_wrap.
Qed.

Lemma gen_shift_computes o op t a0 a2 k2 a1' :
  shift_sop o = Some op -> reg_ok a0 -> (if k2 : bool then True else a2 = RCX) ->
  computes (gen_shift t [a0; a1'; a2] [false; false; k2] (sop_code op))
    (binop_effect o t a0 a0 a2 k2).
Proof.
  intros Ho H0 H2. change (gen_shift t [a0; a1'; a2] [false; false; k2] (sop_code op)) with
    (if k2 then tcg_out_shifti (sop_code op + rexw_of t) a0 (s32 a2)
     else tcg_out_modrm (OPC_SHIFT_cl + rexw_of t) (sop_code op) a0).
  assert (forall y, binop_defined o (wsize t) y = (y <? wsize t)) as Hdef
    by (intros; destruct o; done || discriminate Ho).
  set (count := if k2 then Some (s8 (s32 a2)) else None).
  assert (straight (if k2 then tcg_out_shifti (sop_code op + rexw_of t) a0 (s32 a2)
     else tcg_out_modrm (OPC_SHIFT_cl + rexw_of t) (sop_code op) a0)
    (run1 (IShift op (twidth t) (EReg a0) count))) as Hs
    by (destruct k2; [by apply straight_shift_imm|by apply straight_shift_cl]).
  eapply straight_computes; [exact Hs|]. intros d Hwf. unfold binop_effect.
  rewrite Hdef. set (y := operand_value t k2 a2 d).
  destruct (Z.ltb_spec y (wsize t)) as [Hy|Hy]; [|by eexists].
  destruct (shift_sets o op t a0 count y d Ho) as (d' & E & S); [| |by exists d'].
  - split; [|done]. apply wrap_range. by destruct t.
  - by apply shift_operand.
Qed.

(** ** Two operands *)

Section Ops.
Context `{L : CPULayout} (h : gmap Z InstrumentContext) (tb_ret_addr : Z).

(** What the constraint table says of the operands. *)
Definition const_fits (o : binop) (t : TCGType) (v : Z) : Prop :=
  match gen_op o with
  | Some op => arithi_ok op t v = true
  | None => is_shift o || is_I32 t || (v =? s32 v) = true
  end.

Lemma binop_operands o t a0 a1 a2 k2 :
  allocated (binop_opc o t) [a0; a1; a2] [false; false; k2] = true ->
  reg_ok a0 /\ reg_ok a1 /\ (o = BAdd \/ a0 = a1) /\
  if k2 then const_fits o t (s64 a2)
  else reg_ok a2 /\ a2 <> 4 /\ (is_shift o = true -> a2 = RCX).
Proof.
  intros H. destruct o, t, k2; fits H;
    destruct H as (H0 & H1%in_mask_any & H2 & _); try apply in_mask_any in H0; subst;
    (split; [tauto|]); (split; [tauto|]); (split; [tauto|]);
    try (apply (in_mask_one 1) in H2; [|done]; subst; done);
    try (apply in_mask_any in H2; destruct H2; done);
    unfold const_fits, arithi_ok; cbn [gen_op is_and is_I32 is_shift orb andb];
    try reflexivity; unfold tcg_target_const_match in H2; cbn -[swrap wrap] in H2;
    rewrite ?orb_false_r in *; exact H2.
Qed.

(** C27: The arithmetic, logical and shift operations compute their value.  With
    operands that satisfy the constraint table, the generated code leaves in the
    destination the value of the operation at its width, zero-extended, changes no
    other register and no memory, whichever instruction was chosen: LEA, INC, DEC,
    a zero extension, or the operation itself with a short or a long constant. *)
Theorem binop_correct o t a0 a1 a2 k2 :
  allocated (binop_opc o t) [a0; a1; a2] [false; false; k2] = true ->
  computes (tcg_out_op h tb_ret_addr (binop_opc o t) [a0; a1; a2] [false; false; k2])
    (binop_effect o t a0 a1 a2 k2).
Proof.
  intros (H0 & H1 & H01 & H2)%binop_operands.
  assert (forall op, gen_op o = Some op ->
    (if k2 then arithi_ok op t (s64 a2) = true else reg_ok a2)) as Hgen.
  { intros op E. destruct k2; [|tauto]. unfold const_fits in H2. by rewrite E in H2. }
  assert (forall op, shift_sop o = Some op -> (if k2 then True else a2 = RCX)) as Hsh.
  { intros op E. destruct k2; [done|]. apply H2. by destruct o. }
  destruct H01 as [->|<-].
  { apply op_add_computes; [done|done|]. destruct k2; [by apply Hgen|tauto]. }
  destruct o; cbn [binop_opc tcg_out_op].
  - apply op_add_computes; [done|done|]. destruct k2; [by apply Hgen|tauto].
  - by apply (gen_arith_computes BSub Sub); [| |apply Hgen].
  - apply op_mul_computes; [done|]. destruct k2; [exact H2|tauto].
  - by apply (gen_arith_computes BAnd And); [| |apply Hgen].
  - by apply (gen_arith_computes BOr Or); [| |apply Hgen].
  - by apply (gen_arith_computes BXor Xor); [| |apply Hgen].
  - by apply (gen_shift_computes BShl Shl); [| |apply (Hsh Shl)].
  - by apply (gen_shift_computes BShr Shr); [| |apply (Hsh Shr)].
  - by apply (gen_shift_computes BSar Sar); [| |apply (Hsh Sar)].
  - by apply (gen_shift_computes BRotl Rol); [| |apply (Hsh Rol)].
  - by apply (gen_shift_computes BRotr Ror); [| |apply (Hsh Ror)].
Qed.
(** ** One operand *)

(** The register [r] holds [v] at the width of [t]; nothing else has changed. *)
Definition sets_value (t : TCGType) (r v : Z) (d d' : dstate) : Prop :=
  (wrap (wsize t) (regs d' r) = v) /\ (forall r', r' <> r -> regs d' r' = regs d r') /\
  dmem d' = dmem d.

Definition unop_effect (u : unop) (a0 a1 : Z) (d d' : dstate) : Prop :=
  let t := unop_type u in
  let x := operand_value t false a1 d in
  unop_defined u x = true -> sets_value t a0 (unop_value u (wsize t) x) d d'.

Definition in_place (u : unop) : bool :=
  match u with UNeg _ | UNot _ | UBswap16 _ | UBswap32 _ | UBswap64 => true | _ => false end.

Lemma unop_operands u a0 a1 :
  allocated (unop_opc u) [a0; a1] [false; false] = true ->
  reg_ok a0 /\ reg_ok a1 /\ (in_place u = true -> a0 = a1).
Proof.
  intros H. destruct u as [t|t|t|t| |t|t|t|t| |]; try destruct t; fits H;
    destruct H as (H0 & H1%in_mask_any & _); try apply in_mask_any in H0; subst;
    (split; [tauto|]); (split; [tauto|]); intros; done.
Qed.
End Ops.

(** The instruction of a unary operation. *)
Definition unop_instr (u : unop) (a0 a1 : Z) : instr :=
  match u with
  | UNeg t => INeg (twidth t) (EReg a0)
  | UNot t => INot (twidth t) (EReg a0)
  | UBswap16 _ => IShift Rol W16 (EReg a0) (Some 8)
  | UBswap32 _ => IBswap W32 a0
  | UBswap64 => IBswap W64 a0
  | UExt8s t => IMovsx (twidth t) W8 a0 (EReg a1)
  | UExt16s t => IMovsx (twidth t) W16 a0 (EReg a1)
  | UExt8u _ => IMovzx W8 a0 (EReg a1)
  | UExt16u _ => IMovzx W16 a0 (EReg a1)
  | UExt32s => IMovsx W64 W32 a0 (EReg a1)
  | UExt32u => IMovRM W32 a0 (EReg a1)
  end.

Lemma straight_grp3 (mk : width -> ea -> instr) ext t r :
  reg_ok r -> (ext, mk) ∈ [(EXT3_NEG, INeg); (EXT3_NOT, INot); (EXT3_MUL, IMul2 false);
     (EXT3_IMUL, IMul2 true); (EXT3_DIV, IDiv2 false); (EXT3_IDIV, IDiv2 true)] ->
  straight (tcg_out_modrm (OPC_GRP3_Ev + rexw_of t) ext r) (run1 (mk (twidth t) (EReg r))).
Proof.
  intros Hr Hin. rewrite !elem_of_cons, elem_of_nil in Hin.
  destruct Hin as [E|[E|[E|[E|[E|[E|[]]]]]]]; injection E as -> ->;
    destruct t; apply straight_modrm; opc_side.
Qed.

Section Unary.
Context `{L : CPULayout} (h : gmap Z InstrumentContext) (tb_ret_addr : Z).

Lemma unop_straight u a0 a1 :
  reg_ok a0 -> reg_ok a1 -> (in_place u = true -> a0 = a1) ->
  straight (tcg_out_op h tb_ret_addr (unop_opc u) [a0; a1] [false; false])
    (run1 (unop_instr u a0 a1)).
Proof.
  intros H0 H1 _. destruct u; cbn [unop_opc unop_instr tcg_out_op].
  - by apply (straight_grp3 INeg); [|in_list].
  - by apply (straight_grp3 INot); [|in_list].
  - by apply straight_rolw_8.
  - by apply straight_bswap32.
  - by apply straight_bswap64.
  - by apply straight_ext8s.
  - by apply straight_ext16s.
  - by apply straight_ext8u.
  - by apply straight_ext16u.
  - by apply straight_ext32s.
  - by apply straight_ext32u.
Qed.

Lemma sets_reg_value t r v v' d d' :
  sets_reg r v d d' -> wrap (wsize t) v = v' -> sets_value t r v' d d'.
Proof. intros (E & O & M) <-. split; [by rewrite E|done]. Qed.

(** Narrow values are those of the operand at its width. *)
Lemma wrap_operand t k r d :
  0 <= k <= wsize t -> wrap k (operand_value t false r d) = wrap k (regs d r).
Proof. intros. unfold operand_value. by rewrite wrap_wrap_le. Qed.
Lemma swrap_operand t k r d :
  0 < k <= wsize t -> swrap k (operand_value t false r d) = swrap k (regs d r).
Proof. intros. apply swrap_cong, wrap_operand. lia. Qed.

(** The rotation of a 16-bit value leaves the bits above as they are. *)
Lemma bswap16_result t r d :
  operand_value t false r d < 2 ^ 16 ->
  exists d', run1 (IShift Rol W16 (EReg r) (Some 8)) d = Some d' /\
    sets_value t r (bswap_value 2 (operand_value t false r d)) d d'.
Proof.
  intros Hx. set (x := operand_value t false r d) in *.
  assert (in_u 16 x) as Hx16.
  { split; [|done]. unfold x, operand_value. apply wrap_range. by destruct t. }
  eexists. split; [reflexivity|]. split; [|split; [intros; by apply regs_write_other|done]].
  change (wrap (wsize t) (regs (write_reg W16 r (shift_result Rol 16 (u16 (regs d r)) 8) d) r) =
          bswap_value 2 x).
  unfold write_reg. rewrite regs_set_same. assert (u16 (regs d r) = x) as E16.
  { rewrite <- (wrap_operand t 16 r d) by (by destruct t). by apply wrap_id. }
  rewrite E16, rol8_bswap by done. pose proof (bswap_range 2 x) as Hb. change (8 * Z.of_nat 2) with 16 in Hb.
  rewrite (wrap_id 16) by done.
  assert (in_u (wsize t) (bswap_value 2 x)) as Hbt by (eapply in_u_mono; [|exact Hb]; by destruct t).
  rewrite <- (wrap_id (wsize t) (bswap_value 2 x)) at 1 by done.
  unfold x at 1, operand_value. rewrite wrap_low; [by apply wrap_id|by destruct t].
Qed.

Lemma bswap_result t k r d :
  k = wbytes (twidth t) ->
  exists d', run1 (IBswap (twidth t) r) d = Some d' /\
    sets_reg r (bswap_value k (wrap (wsize t) (regs d r))) d d'.
Proof.
  intros ->. destruct t; (eexists; split; [reflexivity|]); cbn [twidth wbytes wbits].
  - eapply sets_reg_eq; [apply (sets_reg_t TCG_TYPE_I32)|]. apply wrap_id, (bswap_range 4).
  - eapply sets_reg_eq; [apply (sets_reg_t TCG_TYPE_I64)|]. apply wrap_id, (bswap_range 8).
Qed.

(** Extensions. *)
Lemma movsx_result t w a0 a1 d :
  0 < wbits w <= wsize t -> w <> W8H ->
  exists d', run1 (IMovsx (twidth t) w a0 (EReg a1)) d = Some d' /\
    sets_value t a0 (wrap (wsize t) (swrap (wbits w) (operand_value t false a1 d))) d d'.
Proof.
  intros Hw Hh. eexists. split; [reflexivity|]. eapply sets_reg_value; [apply sets_reg_t|].
  fold (wsize t). rewrite wrap_wrap, swrap_operand by done. f_equal. cbn [read_ea].
  apply swrap_cong. destruct w; (done || (cbn [read_reg wbits]; by rewrite wrap_wrap)).
Qed.

Lemma movzx_result t w a0 a1 d :
  0 < wbits w <= wsize t -> w <> W8H ->
  exists d', run1 (IMovzx w a0 (EReg a1)) d = Some d' /\
    sets_value t a0 (wrap (wbits w) (operand_value t false a1 d)) d d'.
Proof.
  intros Hw Hh. eexists. split; [reflexivity|].
  eapply sets_reg_value; [apply (sets_reg_t TCG_TYPE_I64)|]. change (wbits (twidth TCG_TYPE_I64)) with 64.
  rewrite wrap_operand by lia. cbn [read_ea].
  replace (read_reg w a1 d) with (wrap (wbits w) (regs d a1)) by (by destruct w).
  rewrite wrap_wrap_le by (by destruct t). apply wrap_id.
  eapply in_u_mono; [|apply wrap_range]; lia.
Qed.

Lemma unop_result u a0 a1 d :
  wf d -> (in_place u = true -> a0 = a1) -> unop_defined u (operand_value (unop_type u) false a1 d) = true ->
  exists d', run1 (unop_instr u a0 a1) d = Some d' /\
    sets_value (unop_type u) a0
      (unop_value u (wsize (unop_type u)) (operand_value (unop_type u) false a1 d)) d d'.
Proof.
  intros Hwf Hin Hdef.
  destruct u as [t|t|t|t| |t|t|t|t| |];
    cbn [in_place unop_instr unop_type unop_defined unop_value] in *;
    try (rewrite <- Hin in * by done).
  - destruct (do_arith_reg Sub t a0 0 (operand_value t false a0 d)
      (fun v d' => write_reg (twidth t) a0 v d') d) as (d' & E & S); try done;
      [by destruct t|apply wrap_range; by destruct t|intros; apply sets_reg_t|].
    exists d'. split; [by destruct t|]. eapply sets_reg_value; [exact S|].
    cbn [arith_result]. by rewrite wrap_wrap, Z.sub_0_l.
  - eexists. split; [reflexivity|]. eapply sets_reg_value; [apply sets_reg_t|].
    cbn [read_ea]. by rewrite !wrap_wrap, read_reg_t.
  - apply bswap16_result. lia.
  - destruct (bswap_result TCG_TYPE_I32 4 a0 d eq_refl) as (d' & E & S). exists d'. split; [done|].
    eapply sets_reg_value; [exact S|]. change (wsize TCG_TYPE_I32) with 32.
    assert (in_u 32 (operand_value t false a0 d)) as Hr
      by (split; [apply wrap_range; by destruct t|lia]).
    rewrite <- (wrap_operand t 32) by (by destruct t). rewrite (wrap_id 32) by done.
    apply wrap_id. eapply in_u_mono; [|apply (bswap_range 4)]. by destruct t.
  - destruct (bswap_result TCG_TYPE_I64 8 a0 d eq_refl) as (d' & E & S). exists d'. split; [done|].
    eapply sets_reg_value; [exact S|]. apply wrap_id, (bswap_range 8).
  - by apply (movsx_result t W8); [destruct t|].
  - by apply (movsx_result t W16); [destruct t|].
  - by apply (movzx_result t W8); [destruct t|].
  - by apply (movzx_result t W16); [destruct t|].
  - by apply (movsx_result TCG_TYPE_I64 W32).
  - eexists. split; [reflexivity|].
    eapply sets_reg_value; [apply (sets_reg_t TCG_TYPE_I32)|]. cbn [twidth wbits read_ea].
    rewrite (wrap_operand TCG_TYPE_I64) by done. change (wsize TCG_TYPE_I64) with 64.
    cbn [read_reg wbits]. rewrite wrap_wrap. apply wrap_id.
    eapply in_u_mono; [|by apply wrap_range]. lia.
Qed.

(** The unary operations compute their value: negation, complement, byte
    swaps of 2, 4 and 8 bytes, sign and zero extensions of 8, 16 and 32 bits. *)
Theorem unop_correct u a0 a1 :
  allocated (unop_opc u) [a0; a1] [false; false] = true ->
  computes (tcg_out_op h tb_ret_addr (unop_opc u) [a0; a1] [false; false]) (unop_effect u a0 a1).
Proof.
  intros (H0 & H1 & Hin)%unop_operands.
  eapply straight_computes; [by apply unop_straight|]. intros d Hwf. unfold unop_effect.
  destruct (unop_defined u (operand_value (unop_type u) false a1 d)) eqn:E.
  - destruct (unop_result u a0 a1 d Hwf Hin E) as (d' & F & S). by exists d'.
  - destruct u; try discriminate E; by eexists.
Qed.
End Unary.

(** ** Examples *)

Lemma binop_correct_witness :
  exists bs, emitted (tcg_out_op ∅ 0x20000 (INDEX_op_add TCG_TYPE_I32)
    [0; 3; 0xffffffff] [false; false; true]) demo_ctx bs.
Proof.
  destruct (binop_correct ∅ 0x20000 BAdd TCG_TYPE_I32 0 3 0xffffffff true eq_refl demo_ctx)
    as (bs & E & _). by exists bs.
Defined.

Lemma unop_correct_witness :
  exists bs, emitted (tcg_out_op ∅ 0x20000 (INDEX_op_ext8s TCG_TYPE_I64) [12; 5] [false; false])
    demo_ctx bs.
Proof.
  destruct (unop_correct ∅ 0x20000 (UExt8s TCG_TYPE_I64) 12 5 eq_refl demo_ctx) as (bs & E & _).
  by exists bs.
Defined.
