(* ===== verification/TcgWide.v ===== *)
(** * Comparisons, two-word arithmetic and bit fields

    The code that [tcg_out_op] generates for the operations with conditions, with
    two results, and for the insertion of a bit field. *)

From S2P Require Import Prelude QtraceDefs IContext Interpret X86 TcgOut TcgEnc TcgEmit.
From S2P Require Import TcgCond TcgOpDefs TcgLabel TlbLoad QemuLdSt MemTrace SlowPath InstrCall TbExit.
From S2P Require Import TcgSem TcgOp TcgAlu.

(** tcg/i386/tcg-target.h *)
Definition TCG_TARGET_deposit_i32_valid (ofs len : Z) : bool :=
  ((ofs =? 0) && (len =? 8)) || ((ofs =? 8) && (len =? 8)) || ((ofs =? 0) && (len =? 16)).

Section Ops.
Context `{L : CPULayout} (h : gmap Z InstrumentContext) (tb_ret_addr : Z).

(** ** Conditions *)

Lemma cmp_const t v :
  tcg_target_const_match v (mkCt (if is_I32 t then 3 else 0x101) 0 0xffff) = true ->
  arithi_ok Cmp t v = true.
Proof.
  unfold tcg_target_const_match, arithi_ok. destruct t; [done|].
  cbn -[swrap wrap]. by rewrite !orb_false_r.
Qed.

Lemma cond_operands c t a0 a1 a2 k2 :
  (a0 = None -> allocated (INDEX_op_brcond t) [a1; a2; cond_code c; 0] [false; k2] = true) ->
  (forall r, a0 = Some r ->
     allocated (INDEX_op_setcond t) [r; a1; a2; cond_code c] [false; false; k2] = true) ->
  (forall r, a0 = Some r -> reg_ok r) /\ reg_ok a1 /\
  operand_ok Cmp t k2 (if k2 then s64 a2 else a2).
Proof.
  intros Hb Hs. destruct a0 as [r|].
  - specialize (Hs r eq_refl). destruct t, k2; fits Hs;
      destruct Hs as (H0%in_mask_any & H1%in_mask_any & H2 & _);
      (split; [intros ? [= <-]; tauto|]); (split; [tauto|]); cbn [operand_ok];
      first [apply (cmp_const TCG_TYPE_I32); done|apply (cmp_const TCG_TYPE_I64); done
            |by apply in_mask_any in H2 as []].
  - specialize (Hb eq_refl). destruct t, k2; fits Hb;
      destruct Hb as (H1%in_mask_any & H2 & _);
      (split; [done|]); (split; [tauto|]); cbn [operand_ok];
      first [apply (cmp_const TCG_TYPE_I32); done|apply (cmp_const TCG_TYPE_I64); done
            |by apply in_mask_any in H2 as []].
Qed.

Lemma cmp_operand_value t k2 a2 d :
  wrap (wsize t) (cmp_operand k2 (if k2 then s64 a2 else a2) d) = operand_value t k2 a2 d.
Proof. unfold operand_value, cmp_operand. destruct k2; [apply wrap_s64|done]. Qed.

(** The comparison of a register with a register or constant. *)
Definition compares (c : TCGCond) (t : TCGType) (k : bool) (a b : Z) (d : dstate) : bool :=
  eval_cond c (wsize t) (operand_value t false a d) (operand_value t k b d).

(** C29: setcond leaves 1 or 0 in its destination, the value of the comparison at
    the operation's width, also where the destination is one of the operands. *)
Theorem setcond_correct c t a0 a1 a2 k2 :
  nontrivial c = true ->
  allocated (INDEX_op_setcond t) [a0; a1; a2; cond_code c] [false; false; k2] = true ->
  computes (tcg_out_op h tb_ret_addr (INDEX_op_setcond t) [a0; a1; a2; cond_code c]
              [false; false; k2])
    (fun d d' => sets_reg a0 (Z.b2z (compares c t k2 a1 a2 d)) d d').
Proof.
  intros Hc Ha. destruct (cond_operands c t (Some a0) a1 a2 k2) as (H0 & H1 & H2);
    [done|by intros ? [= <-]|].
  assert (tcg_out_op h tb_ret_addr (INDEX_op_setcond t) [a0; a1; a2; cond_code c]
    [false; false; k2] = tcg_out_setcond t c a0 a1 (if k2 then s64 a2 else a2) k2) as ->
    by (by destruct c).
  eapply computes_ext; [apply setcond_effect; [done|by apply H0|done|done]|].
  cbv beta. intros d d' _ Hs. by rewrite cmp_operand_value in Hs.
Qed.

(** movcond selects its third input where the comparison of the first two
    holds, and its fourth one otherwise. *)
Theorem movcond_correct c t a0 a1 a2 a3 a4 k2 :
  nontrivial c = true ->
  allocated (INDEX_op_movcond t) [a0; a1; a2; a3; a4; cond_code c]
    [false; false; k2; false; false] = true ->
  computes (tcg_out_op h tb_ret_addr (INDEX_op_movcond t) [a0; a1; a2; a3; a4; cond_code c]
              [false; false; k2; false; false])
    (fun d d' => sets_reg a0
       (if compares c t k2 a1 a2 d
        then operand_value t false a3 d else operand_value t false a4 d) d d').
Proof.
  intros Hc Ha.
  assert (reg_ok a0 /\ reg_ok a1 /\ operand_ok Cmp t k2 (if k2 then s64 a2 else a2) /\
          reg_ok a3 /\ a0 = a4) as (H0 & H1 & H2 & H3 & <-).
  { destruct t, k2; fits Ha; destruct Ha as (H0 & H1%in_mask_any & H2 & H3%in_mask_any & H4%in_mask_any & _);
      subst; (split; [tauto|]); (split; [tauto|]); (split; [|tauto]); cbn [operand_ok];
      first [apply (cmp_const TCG_TYPE_I32); done|apply (cmp_const TCG_TYPE_I64); done
            |by apply in_mask_any in H2 as []]. }
  assert (tcg_out_op h tb_ret_addr (INDEX_op_movcond t) [a0; a1; a2; a3; a0; cond_code c]
    [false; false; k2; false; false] =
    tcg_out_movcond t c a0 a1 (if k2 then s64 a2 else a2) k2 a3) as -> by (by destruct c).
  eapply computes_ext; [by apply movcond_effect|].
  cbv beta. intros d d' _ Hs. rewrite cmp_operand_value in Hs. unfold compares, operand_value.
  by destruct (eval_cond _ _ _ _).
Qed.

(** ** Two results *)

(** The two results are in [r0] and [r1]; nothing else has changed. *)
Definition sets_pair (r0 v0 r1 v1 : Z) (d d' : dstate) : Prop :=
  regs d' r0 = v0 /\ regs d' r1 = v1 /\
  (forall r, r <> r0 -> r <> r1 -> regs d' r = regs d r) /\ dmem d' = dmem d.

Lemma write_pair t r0 v0 r1 v1 d :
  r0 <> r1 ->
  sets_pair r0 (wrap (wsize t) v0) r1 (wrap (wsize t) v1) d
    (write_reg (twidth t) r1 v1 (write_reg (twidth t) r0 v0 d)).
Proof.
  intros Hne. split_and!.
  - rewrite regs_write_other by done. apply regs_write_same.
  - apply regs_write_same.
  - intros. by rewrite !regs_write_other.
  - done.
Qed.

(** The double-word product.  mulu2 and muls2 leave the lower and the upper
    word of the product of their inputs in their two outputs. *)
Theorem mul2_correct signed t a0 a1 a2 a3 :
  allocated (mul2_opc signed t) [a0; a1; a2; a3] [false; false; false; false] = true ->
  computes (tcg_out_op h tb_ret_addr (mul2_opc signed t) [a0; a1; a2; a3]
              [false; false; false; false])
    (fun d d' => exists p,
       p = number signed t (operand_value t false a2 d) * number signed t (operand_value t false a3 d) /\
       sets_pair a0 (wrap (wsize t) p) a1 (wrap (wsize t) (p / 2 ^ wsize t)) d d').
Proof.
  intros Ha. assert (a0 = RAX /\ a1 = RDX /\ a2 = RAX /\ reg_ok a3) as (-> & -> & -> & H3).
  { destruct signed, t; fits Ha; destruct Ha as (H0 & H1 & H2 & H3%in_mask_any & _);
      apply (in_mask_one 0) in H0; try done; apply (in_mask_one 2) in H1; try done;
      apply (in_mask_one 0) in H2; try done; tauto. }
  eapply straight_computes; [destruct signed; apply straight_grp3; [done|in_list|done|in_list]|].
  intros d Hwf. destruct signed; (eexists; split; [reflexivity|]); eexists; (split; [reflexivity|]);
    cbn [number]; unfold operand_value; rewrite <- ?read_reg_t;
    unfold no_flags; cbn [read_ea]; rewrite ?read_reg_t, ?wrap_wrap; apply write_pair; done.
Qed.

Lemma grp3_encoded (mk : width -> ea -> instr) ext t r s :
  reg_ok r -> (ext, mk) ∈ [(EXT3_DIV, IDiv2 false); (EXT3_IDIV, IDiv2 true)] ->
  exists bs, emitted (tcg_out_modrm (OPC_GRP3_Ev + rexw_of t) ext r) s bs /\
    encodes bs (mk (twidth t) (EReg r)).
Proof.
  intros Hr Hin. rewrite !elem_of_cons, elem_of_nil in Hin.
  destruct (emitted_modrm (OPC_GRP3_Ev + rexw_of t) ext r s) as (bs & He & Hi);
    [destruct t; opc_side|by destruct t|destruct Hin as [E|[E|[]]]; injection E as -> ->; opc_side|done|].
  exists bs. split; [done|].
  destruct Hin as [E|[E|[]]]; injection E as -> ->; destruct t; by eapply encodes_noimm.
Qed.

(** What the instruction does. *)
Lemma div2_run signed t r d :
  let v := operand_value t false r d in
  let a := dividend signed t (operand_value t false RAX d) (operand_value t false RDX d) in
  run1 (IDiv2 signed (twidth t) (EReg r)) d =
  if div_defined signed t a v then
    Some (no_flags (write_reg (twidth t) RDX (Z.rem a (number signed t v))
                      (write_reg (twidth t) RAX (Z.quot a (number signed t v)) d)))
  else None.
Proof.
  cbn zeta. unfold run1, div_defined. cbn [exec_plain read_ea]. rewrite !read_reg_t. fold (wsize t).
  unfold operand_value, dividend, number.
  set (x := wrap (wsize t) (regs d RAX)). set (y := wrap (wsize t) (regs d RDX)).
  set (v := wrap (wsize t) (regs d r)). destruct (Z.eqb_spec v 0) as [|Hv]; [done|].
  cbn [negb andb]. destruct signed; [done|].
  assert (forall z, 0 <= wrap (wsize t) z < 2 ^ wsize t) as Hr
    by (intros; apply wrap_range; by destruct t).
  pose proof (Hr (regs d RAX)) as Hx. pose proof (Hr (regs d RDX)) as Hy.
  pose proof (Hr (regs d r)) as Hv0. fold x in Hx. fold y in Hy. fold v in Hv0.
  assert (2 ^ (2 * wsize t) = 2 ^ wsize t * 2 ^ wsize t) as E2 by (by destruct t).
  rewrite (wrap_id (2 * wsize t)) by (unfold in_u; rewrite E2; nia).
  rewrite Z.quot_div_nonneg, Z.rem_mod_nonneg by nia. done.
Qed.

(** C30: The division of a double word.  Where the divisor is not zero and the
    quotient fits in a word, div2 and divu2 leave the quotient and the remainder of
    the truncated division in their outputs; otherwise the processor raises an
    exception. *)
Theorem div2_correct signed t a0 a1 a2 a3 a4 s :
  allocated (div2_opc signed t) [a0; a1; a2; a3; a4] [false; false; false; false; false] = true ->
  exists bs, emitted (tcg_out_op h tb_ret_addr (div2_opc signed t) [a0; a1; a2; a3; a4]
                        [false; false; false; false; false]) s bs /\
    forall cd d, wf d -> code_at cd (code_ptr s) bs ->
      let v := operand_value t false a4 d in
      let a := dividend signed t (operand_value t false a2 d) (operand_value t false a3 d) in
      if div_defined signed t a v then
        exists d', steps cd (code_ptr s, d) (code_ptr (add_code bs s), d') /\
          sets_pair a0 (wrap (wsize t) (Z.quot a (number signed t v)))
                    a1 (wrap (wsize t) (Z.rem a (number signed t v))) d d'
      else forall y, ~ step cd (code_ptr s, d) y.
Proof.
  intros Ha. assert (a0 = RAX /\ a1 = RDX /\ a2 = RAX /\ a3 = RDX /\ reg_ok a4)
    as (-> & -> & -> & -> & H4).
  { destruct signed, t; fits Ha; destruct Ha as (H0 & H1 & H2 & H3 & H4%in_mask_any & _);
      apply (in_mask_one 0) in H2; try done; apply (in_mask_one 2) in H3; try done;
      subst; tauto. }
  destruct (grp3_encoded (IDiv2 signed) (if signed then EXT3_IDIV else EXT3_DIV) t a4 s H4)
    as (bs & He & Hi); [destruct signed; in_list|].
  exists bs. split; [by destruct signed|]. intros cd d Hwf Hc. cbn zeta.
  pose proof (div2_run signed t a4 d) as Hrun. cbn zeta in Hrun.
  destruct (div_defined _ _ _ _).
  - eexists. split.
    + rewrite code_ptr_add. apply rtc_once. eapply step_plain; [exact Hi|done|].
      rewrite exec_plain_pc by done. exact Hrun.
    + by apply (write_pair t).
  - intros y Hs. apply (step_encoded_inv _ _ _ _ _ _ Hi Hc) in Hs.
    unfold exec in Hs. rewrite exec_plain_pc, Hrun in Hs by done. discriminate Hs.
Qed.

(** ** Double-word sums *)

(** The operations of the two words. *)
Definition lo_op (sub : bool) : aop := if sub then Sub else Add.
Definition hi_op (sub : bool) : aop := if sub then Sbb else Adc.

Lemma do_arith_carry op t r a b c d :
  (if uses_carry op then CF d else Some false) = Some c -> writes_result op = true ->
  in_u (wsize t) a -> in_u (wsize t) b ->
  exists d', do_arith op (twidth t) a b (write_reg (twidth t) r) d = Some d' /\
    sets_reg r (arith_result op (wsize t) a b c) d d' /\
    CF d' = Some (arith_cf op (wsize t) a b c).
Proof.
  intros Hc Hw Ha Hb. unfold do_arith. rewrite Hc, Hw. cbn [mbind option_bind].
  eexists. split; [reflexivity|]. split; [|by destruct t].
  fold (wsize t). set (v := arith_result op (wsize t) a b c).
  destruct (sets_reg_t t r v (set_flags (Some (arith_cf op (wsize t) a b c)) (Some (v =? 0))
    (Some (swrap (wsize t) v <? 0)) (Some (arith_of op (wsize t) a b c)) d)) as (E & O & M).
  split_and!; [|exact O|exact M]. rewrite E. apply wrap_id, arith_result_range; [by destruct t|done..].
Qed.

(** One word: a register or a constant, without the short forms that lose the carry. *)
Definition word_instr (op : aop) (t : TCGType) (r : Z) (k : bool) (v : Z) : instr :=
  if k then arithi_instr op t r (s64 v) true else IArithRM op (twidth t) r (EReg v).

Lemma word_sets op t r k v c d :
  is_and op = false -> writes_result op = true ->
  (if k : bool then arithi_ok op t (s64 v) = true else reg_ok v) ->
  (if uses_carry op then CF d else Some false) = Some c ->
  exists d', run1 (word_instr op t r k v) d = Some d' /\
    sets_reg r (arith_result op (wsize t) (operand_value t false r d) (operand_value t k v d) c) d d' /\
    CF d' = Some (arith_cf op (wsize t) (operand_value t false r d) (operand_value t k v d) c).
Proof.
  intros Ha Hw Hv Hc. assert (forall z, in_u (wsize t) (wrap (wsize t) z)) as Hr
    by (intros; apply wrap_range; by destruct t).
  unfold word_instr, arithi_instr, operand_value. rewrite Ha. cbn [negb andb].
  destruct k; unfold run1; cbn [exec_plain read_ea]; rewrite !read_reg_t; fold (wsize t).
  - pose proof (arithi_imm_wrap op t (s64 v) Hv Ha) as Ei. fold (wsize t) in Ei.
    rewrite Ei, wrap_s64. by apply do_arith_carry.
  - by apply do_arith_carry.
Qed.

Lemma straight_word op t r k v :
  reg_ok r -> (if k : bool then arithi_ok op t (s64 v) = true else reg_ok v) ->
  straight (if k then tgen_arithi (aop_code op + rexw_of t) r (s64 v) true
            else tgen_arithr (aop_code op + rexw_of t) r v) (run1 (word_instr op t r k v)).
Proof. intros Hr Hv. destruct k; [by apply straight_arithi|by apply straight_arithr]. Qed.



(** Carrying from the lower to the upper word. *)
Lemma words_sum sub n al ah bl bh :
  0 < n -> in_u n al -> in_u n ah -> in_u n bl -> in_u n bh ->
  let c := arith_cf (lo_op sub) n al bl false in
  arith_result (hi_op sub) n ah bh c * 2 ^ n + arith_result (lo_op sub) n al bl false =
  wrap (2 * n) (sum2 sub (ah * 2 ^ n + al) (bh * 2 ^ n + bl)).
Proof.
  intros Hn Hal Hah Hbl Hbh c. unfold in_u in *. set (B := 2 ^ n) in *.
  assert (2 ^ (2 * n) = B * B) as E2 by (unfold B; rewrite <- Z.pow_add_r by lia; f_equal; lia).
  unfold wrap. rewrite E2. set (v0 := arith_result (lo_op sub) n al bl false).
  set (v1 := arith_result (hi_op sub) n ah bh c).
  assert (0 <= v0 < B /\ sum2 sub al bl = v0 + (if sub then -1 else 1) * Z.b2z c * B) as [H0 E0].
  { unfold v0, c. destruct sub; cbn [lo_op arith_result arith_cf sum2]; unfold wrap; fold B;
      (split; [apply Z.mod_pos_bound; lia|]);
      [destruct (Z.ltb_spec al bl)|destruct (Z.leb_spec B (al + bl))]; cbn [Z.b2z];
      [rewrite <- (Z.mod_unique_pos (al - bl) B (-1) (al - bl + B))
      |rewrite <- (Z.mod_unique_pos (al - bl) B 0 (al - bl))
      |rewrite <- (Z.mod_unique_pos (al + bl) B 1 (al + bl - B))
      |rewrite <- (Z.mod_unique_pos (al + bl) B 0 (al + bl))]; lia. }
  set (cc := (if sub then -1 else 1) * Z.b2z c) in *.
  assert (exists k, 0 <= v1 < B /\ sum2 sub ah bh + cc = v1 + k * B) as (k & H1 & E1).
  { exists ((sum2 sub ah bh + cc) / B). unfold v1, cc.
    destruct sub; cbn [hi_op arith_result sum2]; unfold wrap; fold B;
      (split; [apply Z.mod_pos_bound; lia|]);
      [replace (ah - bh - Z.b2z c) with (ah - bh + -1 * Z.b2z c) by lia
      |replace (ah + bh + Z.b2z c) with (ah + bh + 1 * Z.b2z c) by lia];
      rewrite (Z.div_mod (_ + _) B) at 1 by lia; lia. }
  apply (Z.mod_unique_pos _ _ k); [nia|]. destruct sub; cbn [sum2] in *; nia.
Qed.

Lemma arith_const op t v :
  is_and op = false ->
  tcg_target_const_match v (mkCt (if is_I32 t then 3 else 0x101) 0 0xffff) = true ->
  arithi_ok op t v = true.
Proof.
  intros Ho. unfold tcg_target_const_match, arithi_ok. rewrite Ho. destruct t; [done|].
  cbn -[swrap wrap]. by rewrite !orb_false_r.
Qed.

Lemma sum2_operands sub t a0 a1 a2 a3 a4 a5 k4 k5 :
  allocated (sum2_opc sub t) [a0; a1; a2; a3; a4; a5] [false; false; false; false; k4; k5] = true ->
  reg_ok a0 /\ reg_ok a1 /\ a0 = a2 /\ a1 = a3 /\
  (if k4 then arithi_ok (lo_op sub) t (s64 a4) = true else reg_ok a4) /\
  (if k5 then arithi_ok (hi_op sub) t (s64 a5) = true else reg_ok a5).
Proof.
  intros Ha. destruct sub, t, k4, k5; fits Ha;
    destruct Ha as (H0 & H1 & H2%in_mask_any & H3%in_mask_any & H4 & H5 & _); subst;
    (split; [tauto|]); (split; [tauto|]); (split; [done|]); (split; [done|]);
    split; first [by apply in_mask_any in H4 as []|by apply in_mask_any in H5 as []|reflexivity
                 |by apply (arith_const _ TCG_TYPE_I64)].
Qed.

(** An operand when [r] has been set to [v]. *)
Lemma word_operand t k a r d d1 v :
  sets_reg r v d d1 -> in_u (wsize t) v ->
  operand_value t k a d1 = if negb k && (a =? r) then v else operand_value t k a d.
Proof.
  intros (R & O & _) Hv. unfold operand_value. destruct k; [done|]. cbn [negb andb].
  destruct (Z.eqb_spec a r) as [->|Hne]; [by rewrite R, wrap_id|by rewrite O].
Qed.

(** The code of add2 and sub2: the upper word of the second operand is read when the
    lower result has been written. *)
Lemma sum2_run sub t a0 a1 a2 a3 a4 a5 k4 k5 :
  allocated (sum2_opc sub t) [a0; a1; a2; a3; a4; a5] [false; false; false; false; k4; k5] = true ->
  a0 <> a1 ->
  computes (tcg_out_op h tb_ret_addr (sum2_opc sub t) [a0; a1; a2; a3; a4; a5]
              [false; false; false; false; k4; k5])
    (fun d d' => exists v0 v1, sets_pair a0 v0 a1 v1 d d' /\
       in_u (wsize t) v0 /\ in_u (wsize t) v1 /\
       v1 * 2 ^ wsize t + v0 = wrap (2 * wsize t)
         (sum2 sub (operand_value t false a3 d * 2 ^ wsize t + operand_value t false a2 d)
                   ((if negb k5 && (a5 =? a0) then v0 else operand_value t k5 a5 d) * 2 ^ wsize t +
                    operand_value t k4 a4 d))).
Proof.
  intros Ha Hne.
  assert (reg_ok a0 /\ reg_ok a1 /\ a0 = a2 /\ a1 = a3 /\
    (if k4 then arithi_ok (lo_op sub) t (s64 a4) = true else reg_ok a4) /\
    (if k5 then arithi_ok (hi_op sub) t (s64 a5) = true else reg_ok a5))
    as (H0 & H1 & <- & <- & H4 & H5) by (by apply sum2_operands).
  assert (tcg_out_op h tb_ret_addr (sum2_opc sub t) [a0; a1; a0; a1; a4; a5]
    [false; false; false; false; k4; k5] =
    ((if k4 then tgen_arithi (aop_code (lo_op sub) + rexw_of t) a0 (s64 a4) true
      else tgen_arithr (aop_code (lo_op sub) + rexw_of t) a0 a4) ;;
     (if k5 then tgen_arithi (aop_code (hi_op sub) + rexw_of t) a1 (s64 a5) true
      else tgen_arithr (aop_code (hi_op sub) + rexw_of t) a1 a5))) as -> by (by destruct sub).
  eapply straight_computes; [apply straight_seq; by apply straight_word|]. intros d Hwf.
  destruct (word_sets (lo_op sub) t a0 k4 a4 false d) as (d1 & E1 & S1 & C1);
    [by destruct sub..|done|by destruct sub|]. pose proof S1 as (R1 & O1 & M1).
  destruct (word_sets (hi_op sub) t a1 k5 a5 (arith_cf (lo_op sub) (wsize t)
    (operand_value t false a0 d) (operand_value t k4 a4 d) false) d1)
    as (d2 & E2 & (R2 & O2 & M2) & _); [by destruct sub..|done|by destruct sub|].
  exists d2. split; [cbv beta; by rewrite E1|].
  assert (forall k v d, in_u (wsize t) (operand_value t k v d)) as Hr
    by (intros; apply wrap_range; by destruct t).
  pose proof (arith_result_range (lo_op sub) (wsize t) (operand_value t false a0 d)
    (operand_value t k4 a4 d) false ltac:(by destruct t) (Hr _ _ _) (Hr _ _ _)) as Hlo.
  rewrite (word_operand t k5 a5 a0 d d1 _ S1 Hlo), (word_operand t false a1 a0 d d1 _ S1 Hlo) in R2.
  rewrite (proj2 (Z.eqb_neq a1 a0)) in R2 by auto. cbn [negb andb] in R2.
  do 2 eexists. split_and!.
  - split_and!; [rewrite O2 by done; exact R1|exact R2|intros; by rewrite O2, O1|congruence].
  - exact Hlo.
  - apply arith_result_range; [by destruct t|apply Hr|by destruct (_ && _); [exact Hlo|apply Hr]].
  - apply words_sum; [by destruct t|apply Hr|apply Hr|apply Hr|by destruct (_ && _); [exact Hlo|apply Hr]].
Qed.

(** Double-word addition and subtraction.  add2 and sub2 leave in their two
    outputs the sum or difference of two double words, with the carry or borrow
    passed between the words, for any mixture of register and constant operands.
    The outputs are different registers and the upper second operand is not the
    register of the lower result. *)
Theorem sum2_correct sub t a0 a1 a2 a3 a4 a5 k4 k5 :
  allocated (sum2_opc sub t) [a0; a1; a2; a3; a4; a5] [false; false; false; false; k4; k5] = true ->
  a0 <> a1 -> (k5 = false -> a5 <> a0) ->
  computes (tcg_out_op h tb_ret_addr (sum2_opc sub t) [a0; a1; a2; a3; a4; a5]
              [false; false; false; false; k4; k5])
    (fun d d' => exists v0 v1, sets_pair a0 v0 a1 v1 d d' /\
       in_u (wsize t) v0 /\ in_u (wsize t) v1 /\
       v1 * 2 ^ wsize t + v0 = wrap (2 * wsize t)
         (sum2 sub (operand_value t false a3 d * 2 ^ wsize t + operand_value t false a2 d)
                   (operand_value t k5 a5 d * 2 ^ wsize t + operand_value t k4 a4 d))).
Proof.
  intros Ha Hne H50. pose proof (sum2_run sub t a0 a1 a2 a3 a4 a5 k4 k5 Ha Hne) as Hrun.
  replace (negb k5 && (a5 =? a0)) with false in Hrun; [exact Hrun|].
  destruct k5; [done|]. symmetry. by apply Z.eqb_neq, H50.
Qed.

(** C39: add2 and sub2 write the lower result before they read the upper word of the
    second operand.  Where the allocator has put that word into the register of the
    lower result, which the constraints permit, the upper result is computed from
    the lower result in its place. *)
Theorem sum2_reads_result sub t a0 a1 a2 a3 a4 k4 :
  allocated (sum2_opc sub t) [a0; a1; a2; a3; a4; a0] [false; false; false; false; k4; false] = true ->
  a0 <> a1 ->
  computes (tcg_out_op h tb_ret_addr (sum2_opc sub t) [a0; a1; a2; a3; a4; a0]
              [false; false; false; false; k4; false])
    (fun d d' => exists v0 v1, sets_pair a0 v0 a1 v1 d d' /\
       in_u (wsize t) v0 /\ in_u (wsize t) v1 /\
       v1 * 2 ^ wsize t + v0 = wrap (2 * wsize t)
         (sum2 sub (operand_value t false a3 d * 2 ^ wsize t + operand_value t false a2 d)
                   (v0 * 2 ^ wsize t + operand_value t k4 a4 d))).
Proof.
  intros Ha Hne. pose proof (sum2_run sub t a0 a1 a2 a3 a4 a0 k4 false Ha Hne) as Hrun.
  by rewrite Z.eqb_refl in Hrun.
Qed.

(** ** Bit fields *)

Lemma field_wrap n pos len x :
  0 <= pos -> 0 <= len -> pos + len <= n -> field pos len (wrap n x) = field pos len x.
Proof.
  intros Hp Hl Hn. unfold field, wrap. rewrite (Z.div_mod x (2 ^ n)) at 2 by lia.
  replace (2 ^ n) with (2 ^ (n - pos) * 2 ^ pos) at 2 by (rewrite <- Z.pow_add_r by lia; f_equal; lia).
  rewrite <- Z.mul_assoc, (Z.mul_comm (2 ^ pos)), Z.mul_assoc, Z.div_add_l by lia.
  replace (2 ^ (n - pos)) with (2 ^ (n - pos - len) * 2 ^ len) at 1
    by (rewrite <- Z.pow_add_r by lia; f_equal; lia).
  replace (2 ^ (n - pos - len) * 2 ^ len * (x / 2 ^ n)) with (2 ^ (n - pos - len) * (x / 2 ^ n) * 2 ^ len)
    by lia.
  by rewrite Z.add_comm, Z.mod_add by lia.
Qed.

Lemma deposit_range n pos len x y :
  0 <= pos -> 0 <= len -> pos + len <= n -> in_u n x -> in_u n (deposit_value pos len x y).
Proof.
  intros Hp Hl Hn Hx. unfold deposit_value, field, wrap, in_u in *.
  assert (2 ^ n = 2 ^ pos * 2 ^ len * 2 ^ (n - pos - len)) as E
    by (rewrite <- !Z.pow_add_r by lia; f_equal; lia).
  rewrite E in *. set (A := 2 ^ pos) in *. set (B := 2 ^ len) in *. set (C := 2 ^ (n - pos - len)) in *.
  assert (0 < A /\ 0 < B /\ 0 < C) as (HA & HB & HC) by (unfold A, B, C; lia).
  pose proof (Z.mod_pos_bound y B HB). pose proof (Z.mod_pos_bound x A HA).
  pose proof (Z.div_mod x A). pose proof (Z.div_mod (x / A) B).
  assert (0 <= x / A / B < C) as Hh.
  { split; [apply Z.div_pos; [apply Z.div_pos|]; lia|].
    apply Z.div_lt_upper_bound; [done|]. apply Z.div_lt_upper_bound; lia. }
  set (h' := x / A / B) in *. set (f := (x / A) mod B) in *. set (w := y mod B) in *.
  replace (x - A * f) with (A * B * h' + x mod A) by nia.
  assert (0 <= A * B * h' <= A * B * (C - 1)) by nia. nia.
Qed.

(** The instructions that write a part of a register. *)
Definition part_width (pos len : Z) : width :=
  if pos =? 8 then W8H else if len =? 8 then W8 else W16.

Lemma part_sets t pos len a0 a2 d :
  TCG_TARGET_deposit_i32_valid pos len = true ->
  exists d', run1 (IMovMR (part_width pos len) (EReg a0) a2) d = Some d' /\
    sets_value t a0 (deposit_value pos len (operand_value t false a0 d) (operand_value t false a2 d)) d d'.
Proof.
  intros Hv. eexists. split; [reflexivity|]. split; [|split; [intros; by apply regs_write_other|done]].
  set (n := wsize t). set (x := operand_value t false a0 d).
  assert (16 <= n) as Hn by (unfold n; by destruct t).
  assert (0 <= pos /\ 0 <= len /\ pos + len <= 16 /\
    regs (write_ea (part_width pos len) 0 (EReg a0)
      (match part_width pos len with
       | W8H => read_reg W8 a2 d
       | _ => read_reg (part_width pos len) a2 d
       end) d) a0 =
    regs d a0 - 2 ^ pos * field pos len (regs d a0) + 2 ^ pos * wrap len (regs d a2)) as (Hp & Hl & Hpl & E).
  { unfold TCG_TARGET_deposit_i32_valid in Hv.
    assert ((pos = 0 /\ len = 8) \/ (pos = 8 /\ len = 8) \/ (pos = 0 /\ len = 16))
      as [[-> ->]|[[-> ->]|[-> ->]]] by lia; (split; [lia|]); (split; [lia|]); (split; [lia|]);
      cbn [part_width Z.eqb Pos.eqb write_ea]; unfold write_reg; rewrite regs_set_same;
      unfold field; rewrite ?Z.pow_0_r, ?Z.div_1_r, ?Z.mul_1_l; cbn [read_reg wbits];
      by rewrite ?wrap_wrap. }
  unfold sets_value. cbn zeta in *. etrans; [apply (f_equal (wrap n)), E|].
  unfold x, operand_value. fold n.
  rewrite <- (wrap_id n (deposit_value _ _ _ _)).
  2:{ apply deposit_range; [done|done|lia|]. apply wrap_range. lia. }
  unfold deposit_value. rewrite field_wrap, (wrap_wrap_le len n) by lia.
  rewrite <- (wrap_add_l n (wrap n (regs d a0) - _)), wrap_sub_l, wrap_add_l. done.
Qed.

(** Byte moves between registers 0 to 3 need no REX prefix. *)
Lemma straight_part pos len a0 a2 :
  TCG_TARGET_deposit_i32_valid pos len = true -> 0 <= a0 < 4 -> 0 <= a2 < 4 ->
  straight (op_deposit [a0; a0; a2; pos; len]) (run1 (IMovMR (part_width pos len) (EReg a0) a2)).
Proof.
  intros Hv H0 H2. unfold TCG_TARGET_deposit_i32_valid in Hv.
  assert (a0 = 0 \/ a0 = 1 \/ a0 = 2 \/ a0 = 3) as Ha0 by lia.
  assert (a2 = 0 \/ a2 = 1 \/ a2 = 2 \/ a2 = 3) as Ha2 by lia.
  assert ((pos = 0 /\ len = 8) \/ (pos = 8 /\ len = 8) \/ (pos = 0 /\ len = 16))
    as [[-> ->]|[[-> ->]|[-> ->]]] by lia.
  - change (op_deposit [a0; a0; a2; 0; 8]) with
      (tcg_out_modrm (Z.lor (Z.lor OPC_MOVB_EvGv P_REXB_R) P_REXB_RM) a2 a0).
    destruct Ha0 as [->|[->|[->| ->]]], Ha2 as [->|[->|[->| ->]]]; apply straight_modrm; opc_side.
  - change (op_deposit [a0; a0; a2; 8; 8]) with (tcg_out_modrm OPC_MOVB_EvGv a2 (a0 + 4)).
    destruct Ha0 as [->|[->|[->| ->]]], Ha2 as [->|[->|[->| ->]]]; apply straight_modrm; opc_side.
  - change (op_deposit [a0; a0; a2; 0; 16]) with
      (tcg_out_modrm (Z.lor OPC_MOVL_EvGv P_DATA16) a2 a0).
    destruct Ha0 as [->|[->|[->| ->]]], Ha2 as [->|[->|[->| ->]]]; apply straight_modrm; opc_side.
Qed.

(** deposit replaces a bit field of its first input by the low bits of the
    second one for the fields that the backend declares valid, and aborts for all
    others. *)
Theorem deposit_correct t a0 a1 a2 pos len :
  allocated (INDEX_op_deposit t) [a0; a1; a2; pos; len] [false; false; false] = true ->
  if TCG_TARGET_deposit_i32_valid pos len then
    computes (tcg_out_op h tb_ret_addr (INDEX_op_deposit t) [a0; a1; a2; pos; len]
                [false; false; false])
      (fun d d' => sets_value t a0
         (deposit_value pos len (operand_value t false a1 d) (operand_value t false a2 d)) d d')
  else forall s, tcg_out_op h tb_ret_addr (INDEX_op_deposit t) [a0; a1; a2; pos; len]
                   [false; false; false] s = Err TcgAbort.
Proof.
  intros Ha. assert (0 <= a1 < 4 /\ 0 <= a2 < 4 /\ a0 = a1) as (H1 & H2 & ->).
  { destruct t; fits Ha; destruct Ha as (-> & H1%in_mask_Q & H2%in_mask_Q & _); done. }
  destruct (TCG_TARGET_deposit_i32_valid pos len) eqn:Hv.
  - eapply straight_computes; [by apply straight_part|]. intros d Hwf. by apply part_sets.
  - intros s. unfold TCG_TARGET_deposit_i32_valid in Hv.
    apply orb_false_iff in Hv as [[Hv1 Hv2]%orb_false_iff Hv3].
    change (op_deposit [a1; a1; a2; pos; len] s = Err TcgAbort).
    unfold op_deposit, mbind, out_bind. cbn [get_arg lookup list_lookup mret out_ret].
    unfold mret, out_ret. by rewrite Hv1, Hv2, Hv3.
Qed.
End Ops.

(** ** Examples *)

Lemma setcond_correct_witness :
  exists bs, emitted (tcg_out_op ∅ 0x20000 (INDEX_op_setcond TCG_TYPE_I32)
    [3; 3; 0xffffffff; cond_code TCG_COND_LT] [false; false; true]) demo_ctx bs.
Proof.
  destruct (setcond_correct ∅ 0x20000 TCG_COND_LT TCG_TYPE_I32 3 3 0xffffffff true eq_refl eq_refl demo_ctx)
    as (bs & E & _). by exists bs.
Defined.

Lemma movcond_correct_witness :
  exists bs, emitted (tcg_out_op ∅ 0x20000 (INDEX_op_movcond TCG_TYPE_I64)
    [0; 1; 2; 3; 0; cond_code TCG_COND_GTU] [false; false; false; false; false]) demo_ctx bs.
Proof.
  destruct (movcond_correct ∅ 0x20000 TCG_COND_GTU TCG_TYPE_I64 0 1 2 3 0 false eq_refl eq_refl demo_ctx)
    as (bs & E & _). by exists bs.
Defined.

Lemma mul2_correct_witness :
  exists bs, emitted (tcg_out_op ∅ 0x20000 (INDEX_op_muls2 TCG_TYPE_I64)
    [0; 2; 0; 9] [false; false; false; false]) demo_ctx bs.
Proof.
  destruct (mul2_correct ∅ 0x20000 true TCG_TYPE_I64 0 2 0 9 eq_refl demo_ctx) as (bs & E & _).
  by exists bs.
Defined.

Lemma div2_correct_witness :
  exists bs, emitted (tcg_out_op ∅ 0x20000 (INDEX_op_divu2 TCG_TYPE_I32)
    [0; 2; 0; 2; 6] [false; false; false; false; false]) demo_ctx bs.
Proof.
  destruct (div2_correct ∅ 0x20000 false TCG_TYPE_I32 0 2 0 2 6 demo_ctx eq_refl) as (bs & E & _).
  by exists bs.
Defined.

Lemma sum2_correct_witness :
  exists bs, emitted (tcg_out_op ∅ 0x20000 (INDEX_op_sub2 TCG_TYPE_I64)
    [3; 5; 3; 5; 1; 8] [false; false; false; false; true; false]) demo_ctx bs.
Proof.
  destruct (sum2_correct ∅ 0x20000 true TCG_TYPE_I64 3 5 3 5 1 8 true false eq_refl) with demo_ctx
    as (bs & E & _); [done|done|]. by exists bs.
Defined.

Lemma sum2_reads_result_witness :
  exists bs, emitted (tcg_out_op ∅ 0x20000 (INDEX_op_add2 TCG_TYPE_I64)
    [5; 3; 5; 3; 12; 5] [false; false; false; false; false; false]) demo_ctx bs.
Proof.
  destruct (sum2_reads_result ∅ 0x20000 false TCG_TYPE_I64 5 3 5 3 12 false eq_refl) with demo_ctx
    as (bs & E & _); [done|]. by exists bs.
Defined.

Lemma deposit_correct_witness :
  exists bs, emitted (tcg_out_op ∅ 0x20000 (INDEX_op_deposit TCG_TYPE_I32)
    [1; 1; 3; 8; 8] [false; false; false]) demo_ctx bs.
Proof.
  destruct (deposit_correct ∅ 0x20000 TCG_TYPE_I32 1 1 3 8 8 eq_refl demo_ctx) as (bs & E & _).
  by exists bs.
Defined.
