(* ===== verification/TcgMemOp.v ===== *)
(** * Host memory accesses and branches

    The code that [tcg_out_op] generates for the loads and stores of the CPU state
    and of spilled values, and for conditional branches. *)

From S2P Require Import Prelude QtraceDefs IContext Interpret X86 TcgOut TcgEnc TcgEmit.
From S2P Require Import TcgCond TcgOpDefs TcgLabel TlbLoad QemuLdSt MemTrace SlowPath InstrCall TbExit.
From S2P Require Import TcgSem TcgOp TcgAlu TcgWide.

(** ** Loads *)

Inductive ldop :=
  | LD8u (t : TCGType) | LD8s (t : TCGType) | LD16u (t : TCGType) | LD16s (t : TCGType)
  | LD32u | LD32s | LD (t : TCGType).

Definition ldop_opc (o : ldop) : TCGOpcode :=
  match o with
  | LD8u t => INDEX_op_ld8u t | LD8s t => INDEX_op_ld8s t
  | LD16u t => INDEX_op_ld16u t | LD16s t => INDEX_op_ld16s t
  | LD32u => INDEX_op_ld32u_i64 | LD32s => INDEX_op_ld32s_i64 | LD t => INDEX_op_ld t
  end.

Definition ldop_instr (o : ldop) (r base ofs : Z) : instr :=
  let e := EMem (Some base) None ofs in
  match o with
  | LD8u _ => IMovzx W8 r e
  | LD8s t => IMovsx (twidth t) W8 r e
  | LD16u _ => IMovzx W16 r e
  | LD16s t => IMovsx (twidth t) W16 r e
  | LD32u => IMovRM W32 r e
  | LD32s => IMovsx W64 W32 r e
  | LD t => IMovRM (twidth t) r e
  end.

(** Type, bytes and sign of a load. *)
Definition ldop_type (o : ldop) : TCGType :=
  match o with
  | LD8u t | LD8s t | LD16u t | LD16s t | LD t => t
  | LD32u | LD32s => TCG_TYPE_I64
  end.
Definition ldop_bytes (o : ldop) : nat :=
  match o with
  | LD8u _ | LD8s _ => 1
  | LD16u _ | LD16s _ => 2
  | LD32u | LD32s => 4
  | LD t => wbytes (twidth t)
  end.
Definition ldop_signed (o : ldop) : bool :=
  match o with LD8s _ | LD16s _ | LD32s => true | _ => false end.

(** The value of a load: little-endian bytes, extended to the type. *)
Definition ldop_value (o : ldop) (a : Z) (m : Z -> Z) : Z :=
  let v := load (ldop_bytes o) a m in
  if ldop_signed o then wrap (wsize (ldop_type o)) (swrap (8 * Z.of_nat (ldop_bytes o)) v) else v.

Section Ops.
Context `{L : CPULayout} (h : gmap Z InstrumentContext) (tb_ret_addr : Z).

Lemma ldop_straight o a0 a1 ofs :
  reg_ok a0 -> reg_ok a1 -> in_s 32 (s64 ofs) ->
  straight (tcg_out_op h tb_ret_addr (ldop_opc o) [a0; a1; ofs] [false; false])
    (run1 (ldop_instr o a0 a1 (s64 ofs))).
Proof.
  intros H0 H1 Ho. destruct o; try destruct t; apply straight_modrm_offset; opc_side.
Qed.

Lemma load_sets t v r d :
  in_u (wsize t) v -> sets_reg r v d (write_reg (twidth t) r v d).
Proof. intros Hv. eapply sets_reg_eq; [apply sets_reg_t|]. by apply wrap_id. Qed.

Lemma ldop_sets o a0 a1 ofs d :
  wf d -> exists d', run1 (ldop_instr o a0 a1 ofs) d = Some d' /\
    sets_reg a0 (ldop_value o (regs d a1 + ofs) (dmem d)) d d'.
Proof.
  intros Hwf. assert (forall n, load n (u64 (regs d a1 + 0 + ofs)) (dmem d) =
    load n (regs d a1 + ofs) (dmem d)) as El by (intros; by rewrite load_u64, Z.add_0_r).
  assert (forall n k, 8 * Z.of_nat n <= k -> in_u k (load n (regs d a1 + ofs) (dmem d))) as Hr.
  { intros n k Hn. eapply in_u_mono; [|by apply load_range]. lia. }
  destruct o as [t|t|t|t| | |t]; cbn [ldop_instr]; (eexists; split; [reflexivity|]);
    cbn [read_ea addr_of wbytes]; rewrite El; unfold ldop_value; cbn [ldop_signed ldop_bytes ldop_type].
  - apply (load_sets TCG_TYPE_I64), Hr. by vm_compute.
  - apply sets_reg_t.
  - apply (load_sets TCG_TYPE_I64), Hr. by vm_compute.
  - apply sets_reg_t.
  - apply (load_sets TCG_TYPE_I32), Hr. by vm_compute.
  - apply (sets_reg_t TCG_TYPE_I64).
  - apply load_sets, Hr. by destruct t.
Qed.

(** Loads of host memory.  The load operations leave the bytes at base and
    offset, sign- or zero-extended as the operation says, in the destination and
    change nothing else. *)
Theorem ld_correct o a0 a1 ofs :
  allocated (ldop_opc o) [a0; a1; ofs] [false; false] = true -> in_s 32 (s64 ofs) ->
  computes (tcg_out_op h tb_ret_addr (ldop_opc o) [a0; a1; ofs] [false; false])
    (fun d d' => sets_reg a0 (ldop_value o (regs d a1 + s64 ofs) (dmem d)) d d').
Proof.
  intros Ha Ho. assert (reg_ok a0 /\ reg_ok a1) as [H0 H1].
  { destruct o as [t|t|t|t| | |t]; try destruct t; fits Ha;
      destruct Ha as (H0%in_mask_any & H1%in_mask_any & _); tauto. }
  eapply straight_computes; [by apply ldop_straight|]. intros d Hwf. by apply ldop_sets.
Qed.

(** ** Stores *)

Inductive stop := ST8 (t : TCGType) | ST16 (t : TCGType) | ST32 | ST (t : TCGType).

Definition stop_opc (o : stop) : TCGOpcode :=
  match o with
  | ST8 t => INDEX_op_st8 t | ST16 t => INDEX_op_st16 t | ST32 => INDEX_op_st32_i64
  | ST t => INDEX_op_st t
  end.
Definition stop_width (o : stop) : width :=
  match o with ST8 _ => W8 | ST16 _ => W16 | ST32 => W32 | ST t => twidth t end.

(** A store with an immediate of [n] bytes. *)
Lemma straight_store_imm opc n base ofs v w (emit : out unit) :
  opc_ok opc -> is_modrm opc = true -> reg_ok base -> in_s 32 ofs ->
  (forall s, emitted emit s (bytes_le n v)) -> (0 < n <= 4)%nat ->
  imm_size (head_of opc 0 base 0) = n ->
  mk_modrm (head_of opc 0 base 0) 0 (EMem (Some base) None ofs) (swrap (8 * Z.of_nat n) v) =
    Some (IMovMI w (EMem (Some base) None ofs) (swrap (8 * Z.of_nat n) v)) ->
  straight (tcg_out_modrm_offset opc 0 base ofs ;; emit)
    (run1 (IMovMI w (EMem (Some base) None ofs) (swrap (8 * Z.of_nat n) v))).
Proof.
  intros Hok Hm Hb Ho He Hn Hs Hmk. apply straight_instr; [done|]. intros s.
  destruct (emitted_modrm_offset opc 0 base ofs s) as (bs & Hbs & Hi); [done..|].
  exists (bs ++ bytes_le n v). split; [by apply emitted_seq|]. by eapply encodes_imm.
Qed.

(** The value of a stored operand does not depend on bits above the width. *)
Lemma store_cong n a v v' m :
  wrap (8 * Z.of_nat n) v = wrap (8 * Z.of_nat n) v' -> store n a v m = store n a v' m.
Proof. intros E. by rewrite <- (store_wrap n a v), <- (store_wrap n a v'), E. Qed.

Lemma store_imm_computes opc n base ofs v w (emit : out unit) v' :
  straight (tcg_out_modrm_offset opc 0 base ofs ;; emit)
    (run1 (IMovMI w (EMem (Some base) None ofs) v)) ->
  wbytes w = n -> wrap (8 * Z.of_nat n) v = wrap (8 * Z.of_nat n) v' ->
  computes (tcg_out_modrm_offset opc 0 base ofs ;; emit)
    (fun d d' => sets_mem (store n (regs d base + ofs) v' (dmem d)) d d').
Proof.
  intros Hs Hn Hv. eapply straight_computes; [exact Hs|]. intros d Hwf.
  eexists. split; [reflexivity|]. split; [done|]. cbn [write_ea set_mem dmem addr_of].
  rewrite Z.add_0_r, store_u64, Hn. by apply store_cong.
Qed.

(** Stores to host memory.  The store operations write the low bytes of a
    register or constant at base and offset and change nothing else. *)
Theorem st_correct o k a0 a1 ofs :
  allocated (stop_opc o) [a0; a1; ofs] [k; false] = true -> in_s 32 (s64 ofs) ->
  computes (tcg_out_op h tb_ret_addr (stop_opc o) [a0; a1; ofs] [k; false])
    (fun d d' => sets_mem (store (wbytes (stop_width o)) (regs d a1 + s64 ofs)
                             (if k then a0 else regs d a0) (dmem d)) d d').
Proof.
  intros Ha Ho.
  assert ((k = false -> reg_ok a0) /\ reg_ok a1 /\
    (k = true -> o = ST TCG_TYPE_I64 -> s64 a0 = s32 (s64 a0))) as (H0 & H1 & H64).
  { destruct o as [t|t| |t]; try destruct t; destruct k; fits Ha;
      destruct Ha as (H0 & H1%in_mask_any & _); try apply in_mask_any in H0;
      (split; [intros; (done || tauto)|]); (split; [tauto|]); intros; try done.
    unfold tcg_target_const_match in H0. cbn -[swrap wrap] in H0.
    rewrite orb_false_r in H0. by apply Z.eqb_eq. }
  destruct k.
  - assert (forall n, 0 < n -> wrap n (swrap n a0) = wrap n a0) as Hw by (intros; by apply wrap_swrap).
    destruct o as [t|t| |[|]].
    + apply (store_imm_computes OPC_MOVB_EvIz 1 _ _ (s8 a0) W8); [|done|by apply Hw].
      apply (straight_store_imm OPC_MOVB_EvIz 1); try opc_side; try lia; done.
    + apply (store_imm_computes (Z.lor OPC_MOVL_EvIz P_DATA16) 2 _ _ (s16 a0) W16); [|done|by apply Hw].
      apply (straight_store_imm (Z.lor OPC_MOVL_EvIz P_DATA16) 2); try opc_side; try lia; done.
    + apply (store_imm_computes OPC_MOVL_EvIz 4 _ _ (s32 a0) W32); [|done|by apply Hw].
      apply (straight_store_imm OPC_MOVL_EvIz 4); try opc_side; try lia; done.
    + apply (store_imm_computes OPC_MOVL_EvIz 4 _ _ (s32 a0) W32); [|done|by apply Hw].
      apply (straight_store_imm OPC_MOVL_EvIz 4); try opc_side; try lia; done.
    + apply (store_imm_computes (Z.lor OPC_MOVL_EvIz P_REXW) 8 _ _ (s32 a0) W64); [|done|].
      * apply (straight_store_imm (Z.lor OPC_MOVL_EvIz P_REXW) 4); try opc_side; try lia; done.
      * change (8 * Z.of_nat 8) with 64. rewrite <- (wrap_swrap 64 a0), H64 by done. f_equal.
        symmetry. apply swrap_cong, wrap_swrap_le. lia.
  - specialize (H0 eq_refl). destruct o as [t|t| |[|]].
    + apply (store_computes W8); [done|done|done|in_list].
    + apply (store_computes W16); [done|done|done|in_list].
    + apply (store_computes W32); [done|done|done|in_list].
    + apply (store_computes W32); [done|done|done|in_list].
    + apply (store_computes W64); [done|done|done|in_list].
Qed.

(** ** Branches *)

(** A comparison is one instruction. *)
Lemma modrm_length opc r rm s bs :
  opc_ok opc -> is_modrm opc = true -> reg_ok r -> reg_ok rm ->
  emitted (tcg_out_modrm opc r rm) s bs -> (length bs <= 10)%nat.
Proof.
  intros H1 H2 H3 H4 He. destruct (emitted_modrm opc r rm s) as (bs' & He' & Hl & _); [done..|].
  unfold emitted in *. rewrite He in He'. injection He' as E. apply app_inv_head in E. by subst.
Qed.

Lemma emitted_seq_inv m1 m2 s b1 bs :
  emitted m1 s b1 -> emitted (m1 ;; m2) s bs ->
  (forall s', exists b2, emitted m2 s' b2 /\ (length b2 <= 4)%nat) ->
  (length bs <= length b1 + 4)%nat.
Proof.
  intros H1 H H2. destruct (H2 (add_code b1 s)) as (b2 & E2 & Hl).
  pose proof (emitted_seq _ _ _ _ _ H1 E2) as H'. unfold emitted in *.
  rewrite H in H'. injection H' as E. apply app_inv_head in E. subst. rewrite length_app. lia.
Qed.

Lemma cmp_length t arg1 arg2 k s bs :
  reg_ok arg1 -> operand_ok Cmp t k arg2 ->
  emitted (tcg_out_cmp arg1 arg2 k (rexw_of t)) s bs -> (length bs <= 14)%nat.
Proof.
  intros H1 H2 He. unfold tcg_out_cmp in He.
  destruct k; [destruct (arg2 =? 0)|].
  - assert (length bs <= 10)%nat; [|lia]. destruct t;
      eapply modrm_length; [..|exact He| | | | |exact He]; opc_side.
  - unfold tgen_arithi in He.
    replace (Z.land (ARITH_CMP + rexw_of t) (-8)) with (rexw_of t) in He by (by destruct t).
    replace (Z.land (ARITH_CMP + rexw_of t) 7) with ARITH_CMP in He by (by destruct t).
    cbn [negb andb orb Z.eqb ARITH_CMP ARITH_ADD ARITH_SUB ARITH_AND Pos.eqb] in He.
    assert (forall o (m : out unit), o = OPC_ARITH_EvIb \/ o = OPC_ARITH_EvIz ->
      (forall s', exists b2, emitted m s' b2 /\ (length b2 <= 4)%nat) ->
      emitted (tcg_out_modrm (o + rexw_of t) ARITH_CMP arg1 ;; m) s bs -> (length bs <= 14)%nat) as Hi.
    { intros o m Ho Hm Hem.
      destruct (emitted_modrm (o + rexw_of t) ARITH_CMP arg1 s) as (b1 & E1 & Hl & _);
        [destruct Ho as [->| ->], t; opc_side..|opc_side|done|].
      pose proof (emitted_seq_inv _ _ _ _ _ E1 Hem Hm). lia. }
    destruct (arg2 =? s8 arg2);
      [eapply Hi; [by left| |exact He]; intros; by exists [u8 arg2]; split; [|cbn; lia]|].
    destruct (_ || _); [|discriminate He].
    eapply Hi; [by right| |exact He]. intros; exists (bytes_le 4 arg2). by split; [|rewrite length_bytes_le].
  - unfold tgen_arithr in He. assert (length bs <= 10)%nat; [|lia].
    destruct t; eapply modrm_length; [..|exact He| | | | |exact He]; opc_side.
Qed.

(** Where a conditional branch continues. *)
Definition branch_target (c : TCGCond) (t : TCGType) (k : bool) (a b label next : Z) (d : dstate) : Z :=
  if compares c t k a b d then label else next.

(** A conditional branch backwards.  brcond to a label that is already placed
    compares the operands at the operation's width and continues at the label if
    the condition holds, and behind the branch otherwise, with registers and memory
    unchanged. *)
Theorem brcond_backward c t a0 a1 k1 idx value s :
  nontrivial c = true ->
  allocated (INDEX_op_brcond t) [a0; a1; cond_code c; idx] [false; k1] = true ->
  0 <= idx -> s.(labels) !! Z.to_nat idx = Some (LValue value) -> in_u 64 value ->
  - 2 ^ 31 + 32 <= value - code_ptr s <= 0 ->
  exists bs, emitted (tcg_out_op h tb_ret_addr (INDEX_op_brcond t) [a0; a1; cond_code c; idx]
                        [false; k1]) s bs /\
    forall cd d, wf d -> code_at cd (code_ptr s) bs ->
      exists d', steps cd (code_ptr s, d)
        (branch_target c t k1 a0 a1 value (code_ptr (add_code bs s)) d, d') /\
        (forall r, regs d' r = regs d r) /\ dmem d' = dmem d.
Proof.
  intros Hc Ha Hi Hl Hv Hr.
  assert (reg_ok a0 /\ operand_ok Cmp t k1 (if k1 then s64 a1 else a1)) as [H0 H1].
  { destruct t, k1; fits Ha; destruct Ha as (H0%in_mask_any & H1 & _);
      (split; [tauto|]); cbn [operand_ok];
      first [apply (cmp_const TCG_TYPE_I32); done|apply (cmp_const TCG_TYPE_I64); done
            |by apply in_mask_any in H1 as []]. }
  set (v1 := if k1 then s64 a1 else a1) in *.
  assert (tcg_out_op h tb_ret_addr (INDEX_op_brcond t) [a0; a1; cond_code c; idx] [false; k1] =
    (tcg_out_cmp a0 v1 k1 (rexw_of t) ;; tcg_out_jxx (tcg_cond_to_jcc c) idx false)) as ->
    by (by destruct t, c).
  destruct (straight_cmp t a0 v1 k1 H0) with s as (b1 & E1 & S1); [by destruct k1|].
  pose proof (cmp_length t a0 v1 k1 s b1 H0 H1 E1) as Hlen.
  destruct (jxx_backward (tcg_cond_to_jcc c) idx false (add_code b1 s) value) as (b2 & E2 & S2);
    [right; by destruct c|done|done|done|rewrite code_ptr_add; lia|done|].
  exists (b1 ++ b2). split; [by apply emitted_seq|]. intros cd d Hwf [Hc1 Hc2]%code_at_app.
  specialize (S1 cd d _ Hwf Hc1 eq_refl). fold (wsize t) in S1.
  assert (wrap (wsize t) (if k1 then v1 else regs d v1) = operand_value t k1 a1 d) as Ev.
  { unfold v1, operand_value. destruct k1; [apply wrap_s64|done]. }
  rewrite Ev in S1. rewrite add_code_app.
  match type of S1 with steps _ _ (_, ?x) => exists x end. split; [etrans; [exact S1|]|done].
  apply S2; [by rewrite code_ptr_add|]. unfold jcc_holds.
  rewrite (proj2 (Z.eqb_neq _ (-1))) by (by destruct c).
  apply cond_holds_cmp; [by destruct t|done|apply wrap_range; by destruct t..].
Qed.
End Ops.

(** ** Examples *)

Lemma ld_correct_witness :
  exists bs, emitted (tcg_out_op ∅ 0x20000 (INDEX_op_ld16s TCG_TYPE_I64) [0; 14; 0x20]
    [false; false]) demo_ctx bs.
Proof.
  destruct (ld_correct ∅ 0x20000 (LD16s TCG_TYPE_I64) 0 14 0x20 eq_refl) with demo_ctx
    as (bs & E & _); [by vm_compute|]. by exists bs.
Defined.

Lemma st_correct_witness :
  exists bs, emitted (tcg_out_op ∅ 0x20000 (INDEX_op_st TCG_TYPE_I64) [0xfffffffffffffff0; 14; 0x20]
    [true; false]) demo_ctx bs.
Proof.
  destruct (st_correct ∅ 0x20000 (ST TCG_TYPE_I64) true 0xfffffffffffffff0 14 0x20 eq_refl) with demo_ctx
    as (bs & E & _); [by vm_compute|]. by exists bs.
Defined.

Lemma brcond_backward_witness :
  let s := set_labels [LValue 0x10000] demo_ctx in
  exists bs, emitted (tcg_out_op ∅ 0x20000 (INDEX_op_brcond TCG_TYPE_I32)
    [3; 5; cond_code TCG_COND_LE; 0] [false; true]) s bs.
Proof.
  destruct (brcond_backward ∅ 0x20000 TCG_COND_LE TCG_TYPE_I32 3 5 true 0 0x10000
    (set_labels [LValue 0x10000] demo_ctx)) as (bs & E & _); [done..| |by exists bs].
  by vm_compute.
Defined.
