(* ===== verification/Prologue.v ===== *)
(** * Entering and leaving translated code

    tcg/i386/tcg-target.c: the prologue through which [tcg_qemu_tb_exec] enters a
    translation block and the epilogue that every block leaves through. *)

From S2P Require Import Prelude QtraceDefs IContext Interpret X86 TcgOut TcgEnc TcgEmit.
From S2P Require Import TcgCond TcgLabel TlbLoad QemuLdSt MemTrace SlowPath InstrCall TbExit.

(** ** Model *)

Definition TCG_REG_CALL_STACK : Z := TCG_REG_ESP.
Definition TCG_TARGET_STACK_ALIGN : Z := 16.
Definition TCG_STATIC_CALL_ARGS_SIZE : Z := 128.
Definition CPU_TEMP_BUF_NLONGS : Z := 128.

Definition tcg_target_callee_save_regs : list Z :=
  [TCG_REG_RBP; TCG_REG_RBX; TCG_REG_R12; TCG_REG_R13; TCG_REG_R14; TCG_REG_R15].

Definition PUSH_SIZE : Z := (1 + Z.of_nat (length tcg_target_callee_save_regs)) * (64 / 8).
Definition FRAME_SIZE : Z :=
  Z.land (PUSH_SIZE + TCG_STATIC_CALL_ARGS_SIZE + CPU_TEMP_BUF_NLONGS * 8 +
          TCG_TARGET_STACK_ALIGN - 1)
    (Z.lnot (TCG_TARGET_STACK_ALIGN - 1)).

(** The part of the code generator's state that [tcg_set_frame] writes. *)
Record tcg_frame := mkFrame { frame_start : Z; frame_end : Z; frame_reg : Z }.

Definition tcg_set_frame (reg start size : Z) : tcg_frame := mkFrame start (start + size) reg.

Fixpoint out_each (f : Z -> out unit) (rs : list Z) : out unit :=
  match rs with [] => skip | r :: rs => f r ;; out_each f rs end.

Definition stack_addend : Z := FRAME_SIZE - PUSH_SIZE.

(** The frame and [tb_ret_addr] are what the function leaves in the globals. *)
Definition tcg_target_qemu_prologue : out (tcg_frame * Z) :=
  let frame := tcg_set_frame TCG_REG_CALL_STACK TCG_STATIC_CALL_ARGS_SIZE (CPU_TEMP_BUF_NLONGS * 8) in
  out_each tcg_out_push tcg_target_callee_save_regs ;;
  tcg_out_mov TCG_TYPE_PTR TCG_AREG0 (iarg_reg 0) ;;
  tcg_out_addi TCG_REG_ESP (- stack_addend) ;;
  tcg_out_modrm OPC_GRP5 EXT5_JMPN_Ev (iarg_reg 1) ;;
  tb_ret_addr ← get_ptr;
  tcg_out_addi TCG_REG_CALL_STACK stack_addend ;;
  out_each tcg_out_pop (reverse tcg_target_callee_save_regs) ;;
  tcg_out_opc OPC_RET 0 0 0 ;;
  mret (frame, tb_ret_addr).

(** ** Saving registers *)

(** The [i]-th register saved is in the [i]-th word below the old stack pointer. *)
Definition slot (d : dstate) (i : nat) : Z := regs d RSP - 8 * (Z.of_nat i + 1).

Record saved (rs : list Z) (d d' : dstate) : Prop := {
  sv_rsp : regs d' RSP = u64 (regs d RSP - 8 * Z.of_nat (length rs));
  sv_slots : forall i r, rs !! i = Some r -> load 8 (slot d i) (dmem d') = regs d r;
  sv_frame : forall n a, (forall i, (i < length rs)%nat -> sep n a 8 (slot d i)) ->
    load n a (dmem d') = load n a (dmem d);
  sv_regs : keeps_regs [RSP] d d'
}.

Definition pushes_reg (r : Z) (d d' : dstate) : Prop :=
  regs d' RSP = u64 (regs d RSP - 8) /\ dmem d' = store 8 (regs d RSP - 8) (regs d r) (dmem d) /\
  keeps_regs [RSP] d d'.

Lemma push_computes r : reg_ok r -> computes (tcg_out_push r) (pushes_reg r).
Proof.
  intros Hr. eapply computes_one; [by apply straight_push|]. intros d Hwf.
  eexists; split; [reflexivity|]. split_and!.
  - apply regs_set_same.
  - cbn [push64 set_mem dmem set_reg]. by rewrite store_u64.
  - intros r' Hn. apply regs_set_other. intros ->. apply Hn. in_list.
Qed.

Lemma saved_cons r rs d d1 d2 :
  wf d -> (length rs <= 1000)%nat -> RSP ∉ r :: rs ->
  pushes_reg r d d1 -> saved rs d1 d2 -> saved (r :: rs) d d2.
Proof.
  intros Hwf Hlen Hsp (R1 & M1 & O1) [R2 S2 F2 O2].
  assert (forall i, u64 (slot d1 i) = u64 (slot d (S i))) as Hslot by (intros; by apply slot_cong).
  assert (forall i, (i < length rs)%nat -> sep 8 (slot d 0) 8 (slot d1 i)) as Hap.
  { intros i Hi. eapply sep_cong; [symmetry; apply Hslot|]. unfold slot.
    replace (regs d RSP - 8 * (Z.of_nat (S i) + 1)) with (regs d RSP + - 8 * (Z.of_nat (S i) + 1))
      by lia. apply sep_sym, sep_offsets; lia. }
  split.
  - rewrite R2, R1, wrap_sub_l. cbn [length]. f_equal. lia.
  - intros [|i] r' E; cbn in E.
    + injection E as <-. rewrite F2 by done. change (slot d 0) with (regs d RSP - 8).
      rewrite M1, (load_store_same 8) by lia. apply wrap_id, Hwf.
    + rewrite <- (load_cong _ _ _ _ (Hslot i)), (S2 i r' E). apply O1.
      rewrite elem_of_cons, elem_of_nil. intros [->|[]]. apply Hsp, elem_of_cons. right.
      by eapply list_elem_of_lookup_2.
  - intros n a Hn. rewrite F2; [rewrite M1; apply load_store_other; apply (Hn 0%nat); cbn; lia|].
    intros i Hi. eapply sep_cong; [symmetry; apply Hslot|]. apply (Hn (S i)). cbn. lia.
  - intros r' Hr. rewrite O2 by done. by apply O1.
Qed.

Lemma saves_computes rs :
  Forall reg_ok rs -> RSP ∉ rs -> (length rs <= 1000)%nat ->
  computes (out_each tcg_out_push rs) (saved rs).
Proof.
  induction rs as [|r rs IH]; intros Hok Hsp Hlen; cbn [out_each].
  { eapply computes_ext; [apply computes_skip_eq|]. intros d d' Hwf ->.
    split; [|done..]. cbn. rewrite Z.sub_0_r. symmetry. apply wrap_id, Hwf. }
  apply Forall_cons in Hok as [Hr Hok]. cbn [length] in Hlen.
  eapply computes_seq; [by apply push_computes|apply IH; [done| |lia]|].
  { intros Hin. by apply Hsp, elem_of_cons; right. }
  intros d d1 d2 Hwf H1 H2. eapply saved_cons; [done|lia|done|done|done].
Qed.

(** ** Restoring them *)

Record restored (rs : list Z) (d d' : dstate) : Prop := {
  rs_rsp : regs d' RSP = u64 (regs d RSP + 8 * Z.of_nat (length rs));
  rs_slots : forall i r, rs !! i = Some r ->
    regs d' r = load 8 (regs d RSP + 8 * Z.of_nat i) (dmem d);
  rs_regs : keeps_regs (RSP :: rs) d d';
  rs_mem : dmem d' = dmem d
}.

Definition pops_reg (r : Z) (d d' : dstate) : Prop :=
  regs d' RSP = u64 (regs d RSP + 8) /\ regs d' r = load 8 (regs d RSP) (dmem d) /\
  keeps_regs [RSP; r] d d' /\ dmem d' = dmem d.

Lemma pop_computes r : reg_ok r -> r <> RSP -> computes (tcg_out_pop r) (pops_reg r).
Proof.
  intros Hr Hne. eapply computes_one; [by apply straight_pop|]. intros d Hwf.
  eexists; split; [reflexivity|]. split_and!; [| | |done].
  - rewrite regs_set_other by done. apply regs_set_same.
  - apply regs_set_same.
  - intros r' Hn. rewrite !regs_set_other; [done|..]; intros ->; apply Hn; in_list.
Qed.

Lemma restored_cons r rs d d1 d2 :
  r ∉ rs -> r <> RSP -> pops_reg r d d1 -> restored rs d1 d2 -> restored (r :: rs) d d2.
Proof.
  intros Hr Hne (R1 & V1 & O1 & M1) [R2 S2 O2 M2]. split; [| | |congruence].
  - rewrite R2, R1, wrap_add_l. cbn [length]. f_equal. lia.
  - intros [|i] r' E; cbn in E.
    + injection E as <-. rewrite Z.mul_0_r, Z.add_0_r, <- V1. apply O2.
      rewrite elem_of_cons. tauto.
    + rewrite (S2 i r' E), M1. apply load_cong. rewrite R1, wrap_add_l. f_equal. lia.
  - intros r' Hn. rewrite !elem_of_cons in Hn. rewrite O2, O1;
      rewrite ?elem_of_cons, ?elem_of_nil; tauto.
Qed.

Lemma restores_computes rs :
  Forall reg_ok rs -> RSP ∉ rs -> NoDup rs ->
  computes (out_each tcg_out_pop rs) (restored rs).
Proof.
  induction rs as [|r rs IH]; intros Hok Hsp Hnd; cbn [out_each].
  { eapply computes_ext; [apply computes_skip_eq|]. intros d d' Hwf ->.
    split; [|done..]. cbn. rewrite Z.add_0_r. symmetry. apply wrap_id, Hwf. }
  apply Forall_cons in Hok as [Hr Hok]. apply NoDup_cons in Hnd as [Hin Hnd].
  rewrite elem_of_cons in Hsp.
  eapply computes_seq; [apply (pop_computes r); [done|naive_solver]|apply IH; [done|tauto|done]|].
  intros d d1 d2 Hwf. apply restored_cons; [done|naive_solver].
Qed.

(** ** Entering and leaving a block *)

Definition saved_regs : nat := length tcg_target_callee_save_regs.

(** The state that the code of a block starts in.  Its frame lies above the
    words that hold the return address and the saved registers. *)
Record entered (frame : tcg_frame) (d d1 : dstate) : Prop := {
  en_env : regs d1 TCG_AREG0 = regs d TCG_REG_RDI;
  en_rsp : regs d1 RSP = u64 (regs d RSP + 8 - FRAME_SIZE);
  en_align : regs d RSP mod TCG_TARGET_STACK_ALIGN = 8 -> regs d1 RSP mod TCG_TARGET_STACK_ALIGN = 0;
  en_regs : keeps_regs [RSP; TCG_AREG0] d d1;
  en_mem : forall n a, (forall i, (i < saved_regs)%nat -> sep n a 8 (slot d i)) ->
    load n a (dmem d1) = load n a (dmem d);
  en_frame : frame_reg frame = RSP /\
    forall n o i, (0 < n)%nat -> 0 <= o -> o + Z.of_nat n <= frame_end frame -> (i <= saved_regs)%nat ->
      sep n (regs d1 RSP + o) 8 (regs d RSP - 8 * Z.of_nat i)
}.

(** The block keeps the stack pointer, the return address and the saved registers. *)
Definition stack_intact (d d1 d2 : dstate) : Prop :=
  regs d2 RSP = regs d1 RSP /\
  forall i, (i <= saved_regs)%nat ->
    load 8 (regs d RSP - 8 * Z.of_nat i) (dmem d2) = load 8 (regs d RSP - 8 * Z.of_nat i) (dmem d1).

(** The state that the caller of the prologue gets back. *)
Record caller_restored (d d2 d3 : dstate) : Prop := {
  lv_rsp : regs d3 RSP = u64 (regs d RSP + 8);
  lv_saved : forall r, r ∈ tcg_target_callee_save_regs -> regs d3 r = regs d r;
  lv_regs : keeps_regs (RSP :: tcg_target_callee_save_regs) d2 d3;
  lv_mem : dmem d3 = dmem d2
}.

Definition prologue_frame : tcg_frame := mkFrame 128 1152 RSP.

Lemma callee_save_ok :
  Forall reg_ok tcg_target_callee_save_regs /\ (RSP ∉ tcg_target_callee_save_regs) /\
  NoDup tcg_target_callee_save_regs.
Proof.
  split_and!.
  - repeat (apply Forall_cons; split; [opc_side|]). apply Forall_nil. done.
  - by apply (bool_decide_unpack (_ ∉ _)).
  - by apply (bool_decide_unpack (NoDup _)).
Qed.

Lemma sep_below d n o i :
  (0 < n)%nat -> 0 <= o -> o + Z.of_nat n <= 1160 -> (i <= saved_regs)%nat ->
  sep n (regs d RSP - 1208 + o) 8 (regs d RSP - 8 * Z.of_nat i).
Proof.
  intros Hn Ho Hf Hi. change saved_regs with 6%nat in Hi.
  replace (regs d RSP - 1208 + o) with (regs d RSP + (o - 1208)) by lia.
  replace (regs d RSP - 8 * Z.of_nat i) with (regs d RSP + - (8 * Z.of_nat i)) by lia.
  apply sep_offsets; lia.
Qed.

Lemma mov64_computes ret arg :
  reg_ok ret -> reg_ok arg ->
  computes (tcg_out_mov TCG_TYPE_PTR ret arg) (fun d d' => sets_reg ret (regs d arg) d d').
Proof.
  intros Hr Ha. eapply straight_computes; [by apply straight_mov|]. intros d Hwf.
  destruct (mov64_sets ret arg d Hwf) as (d' & E & S & _). by exists d'.
Qed.

Definition enter_code : out unit :=
  out_each tcg_out_push tcg_target_callee_save_regs ;;
  tcg_out_mov TCG_TYPE_PTR TCG_AREG0 (iarg_reg 0) ;;
  tcg_out_addi TCG_REG_ESP (- stack_addend).

Definition enters (d d1 : dstate) : Prop :=
  entered prologue_frame d d1 /\
  (forall i r, tcg_target_callee_save_regs !! i = Some r -> load 8 (slot d i) (dmem d1) = regs d r).

Lemma enter_computes : computes enter_code enters.
Proof.
  destruct callee_save_ok as (Hok & Hsp & _).
  eapply computes_ext; [apply computes_comp; [by apply saves_computes; [..|cbn; lia]|
    apply computes_comp; [apply mov64_computes; opc_side|apply addi_computes; [opc_side|done]]]|].
  intros d d3 Hwf (d1 & [R1 S1 F1 O1] & d2 & (R2 & O2 & M2) & R3 & O3 & M3).
  change TCG_REG_ESP with RSP in *. change (iarg_reg 0) with TCG_REG_RDI in *.
  assert (regs d3 RSP = u64 (regs d RSP - 1208)) as Esp.
  { rewrite R3, O2, R1, wrap_add_l by done. f_equal. change stack_addend with 1160.
    change (length tcg_target_callee_save_regs) with 6%nat. lia. }
  split; [split|].
  - rewrite O3, R2, O1; [done|by apply (bool_decide_unpack (_ ∉ _))|done].
  - rewrite Esp. f_equal. change FRAME_SIZE with 1216. lia.
  - intros Ha. rewrite Esp. unfold TCG_TARGET_STACK_ALIGN, wrap in *.
    rewrite Z.mod_mod_divide by (by exists (2 ^ 60)). Z.to_euclidean_division_equations; lia.
  - intros r Hr. rewrite !elem_of_cons in Hr. rewrite O3, O2, O1;
      rewrite ?elem_of_cons; tauto.
  - intros n a Hn. rewrite M3, M2. by apply F1.
  - split; [done|]. intros n o i Hn Ho Hf Hi. cbn in Hf. apply sep_sym.
    eapply sep_cong; [|apply sep_sym, (sep_below d n o i); [done..|lia|done]].
    by rewrite Esp, wrap_add_l.
  - intros i r E. rewrite M3, M2. by apply S1.
Qed.

Definition leave_code : out unit :=
  tcg_out_addi TCG_REG_CALL_STACK stack_addend ;;
  out_each tcg_out_pop (reverse tcg_target_callee_save_regs).

Definition leaves (d d' : dstate) : Prop :=
  exists d1, sets_reg RSP (u64 (regs d RSP + stack_addend)) d d1 /\
    restored (reverse tcg_target_callee_save_regs) d1 d'.

Lemma leave_computes : computes leave_code leaves.
Proof.
  destruct callee_save_ok as (Hok & Hsp & Hnd).
  apply computes_comp; [by apply addi_computes; [opc_side|]|].
  apply restores_computes; [by apply Forall_reverse|by rewrite elem_of_reverse|
    by rewrite reverse_Permutation].
Qed.

Lemma leave_restores d d1 d2 d3 :
  wf d -> enters d d1 -> stack_intact d d1 d2 -> leaves d2 d3 ->
  regs d3 RSP = regs d RSP /\
  (forall r, r ∈ tcg_target_callee_save_regs -> regs d3 r = regs d r) /\
  keeps_regs (RSP :: tcg_target_callee_save_regs) d2 d3 /\ dmem d3 = dmem d2.
Proof.
  intros Hwf [En Hs] [Hsp Hm] (d' & (R & O & M) & [R2 S2 O2 M2]).
  assert (forall k, u64 (regs d' RSP + k) = u64 (regs d RSP - 48 + k)) as Hk.
  { intros k. rewrite R, Hsp, (en_rsp _ _ _ En), wrap_add_l, <- Z.add_assoc, wrap_add_l. f_equal.
    change FRAME_SIZE with 1216. change stack_addend with 1160. lia. }
  rewrite length_reverse in R2. split_and!; [| | |congruence].
  - rewrite R2, Hk. rewrite <- (wrap_id 64 (regs d RSP)) by apply Hwf. f_equal.
    rewrite wrap_id by apply Hwf. cbn. lia.
  - intros r [j E]%list_elem_of_lookup. pose proof (lookup_lt_Some _ _ _ E) as Hj.
    assert (reverse tcg_target_callee_save_regs !! (5 - j)%nat = Some r) as E'.
    { rewrite reverse_lookup; change (length tcg_target_callee_save_regs) with 6%nat in *; [|lia].
      by replace (6 - S (5 - j))%nat with j by lia. }
    change (length tcg_target_callee_save_regs) with 6%nat in Hj.
    rewrite (S2 _ r E'), <- (Hs j r E), M. unfold slot.
    replace (Z.of_nat j + 1) with (Z.of_nat (S j)) by lia.
    rewrite <- Hm by (change saved_regs with 6%nat; lia). apply load_cong. rewrite Hk. f_equal. lia.
  - intros r Hn. rewrite !elem_of_cons in Hn. rewrite O2, O; [done|naive_solver|].
    rewrite elem_of_cons, elem_of_reverse. done.
Qed.

Lemma return_address_kept f d d1 d2 :
  entered f d d1 -> stack_intact d d1 d2 ->
  load 8 (regs d RSP) (dmem d2) = load 8 (regs d RSP) (dmem d).
Proof.
  intros En [_ Hm]. specialize (Hm 0%nat ltac:(lia)). rewrite Z.mul_0_r, Z.sub_0_r in Hm.
  rewrite Hm. apply (en_mem _ _ _ En). intros i Hi. change saved_regs with 6%nat in Hi.
  unfold slot. rewrite <- (Z.add_0_r (regs d RSP)) at 1.
  replace (regs d RSP - 8 * (Z.of_nat i + 1)) with (regs d RSP + - (8 * (Z.of_nat i + 1))) by lia.
  apply sep_sym, sep_offsets; lia.
Qed.

Lemma jmp_reg_goes s r :
  reg_ok r -> exists bs, emitted (tcg_out_modrm OPC_GRP5 EXT5_JMPN_Ev r) s bs /\
    forall cd d, wf d -> code_at cd (code_ptr s) bs -> steps cd (code_ptr s, d) (regs d r, d).
Proof.
  intros Hr. destruct (emitted_modrm OPC_GRP5 EXT5_JMPN_Ev r s) as (bs & He & Hi);
    [opc_side|done|done|done|].
  exists bs. split; [done|]. intros cd d Hwf Hc. apply rtc_once.
  eapply step_encoded; [by eapply encodes_noimm|exact Hc|]. cbn [exec read_ea].
  do 2 f_equal. cbn. apply wrap_id, Hwf.
Qed.

Lemma out_bind_eq {A B} (m : out A) (f : A -> out B) s a s' : m s = Ok (a, s') -> (m ≫= f) s = f a s'.
Proof. intros E. unfold mbind, out_bind. by rewrite E. Qed.

Lemma ret_emitted s : emitted (tcg_out_opc OPC_RET 0 0 0) s [0xc3].
Proof. apply (emitted_opc OPC_RET 0 0 0 s). opc_side. Qed.

Lemma prologue_parts s b1 b2 b3 :
  emitted enter_code s b1 ->
  emitted (tcg_out_modrm OPC_GRP5 EXT5_JMPN_Ev TCG_REG_RSI) (add_code b1 s) b2 ->
  emitted leave_code (add_code (b1 ++ b2) s) b3 ->
  tcg_target_qemu_prologue s =
    Ok (prologue_frame, code_ptr (add_code (b1 ++ b2) s), add_code ((b1 ++ b2) ++ b3 ++ [0xc3]) s).
Proof.
  intros E1 E2 E3.
  transitivity ((enter_code ;; tcg_out_modrm OPC_GRP5 EXT5_JMPN_Ev TCG_REG_RSI ;;
    p ← get_ptr; leave_code ;; tcg_out_opc OPC_RET 0 0 0 ;; mret (prologue_frame, p)) s).
  { unfold tcg_target_qemu_prologue, enter_code, leave_code. change (iarg_reg 1) with TCG_REG_RSI.
    unfold mbind, out_bind. by repeat case_match; simplify_eq. }
  rewrite (out_bind_eq _ _ _ _ _ E1), (out_bind_eq _ _ _ _ _ E2).
  rewrite <- add_code_app. unfold get_ptr. rewrite (out_bind_eq _ _ (add_code (b1 ++ b2) s) _ _ eq_refl).
  rewrite (out_bind_eq _ _ _ _ _ E3), (out_bind_eq _ _ _ _ _ (ret_emitted _)).
  by rewrite <- !add_code_app, <- app_assoc.
Qed.

(** C6: The prologue and the epilogue.  The generated code saves the registers that
    the caller owns, moves the CPU state into the register reserved for it,
    reserves the frame and jumps to the block; the block starts with an aligned
    stack and a frame apart from the saved words.  Whatever the block does, if it
    keeps the stack pointer and those words, the code at [tb_ret_addr] returns to
    the caller with its registers and stack pointer restored; the other registers,
    the value returned among them, are those of the block. *)
Theorem prologue_epilogue s :
  exists enter leave ret,
    tcg_target_qemu_prologue s = Ok (prologue_frame, ret, add_code (enter ++ leave) s) /\
    forall cd d, wf d -> code_at cd (code_ptr s) (enter ++ leave) ->
      exists d1, steps cd (code_ptr s, d) (regs d TCG_REG_RSI, d1) /\
        entered prologue_frame d d1 /\
        forall d2, wf d2 -> stack_intact d d1 d2 ->
          exists d3, steps cd (ret, d2) (load 8 (regs d RSP) (dmem d), d3) /\ caller_restored d d2 d3.
Proof.
  destruct (enter_computes s) as (b1 & E1 & S1).
  destruct (jmp_reg_goes (add_code b1 s) TCG_REG_RSI) as (b2 & E2 & S2); [opc_side|].
  set (s2 := add_code (b1 ++ b2) s). destruct (leave_computes s2) as (b3 & E3 & S3).
  exists (b1 ++ b2), (b3 ++ [0xc3]), (code_ptr s2). split; [by apply prologue_parts|].
  intros cd d Hwf [[Hc1 Hc2]%code_at_app [Hc3 Hc4]%code_at_app]%code_at_app.
  destruct (S1 cd d Hwf Hc1) as (d1 & St1 & H1).
  pose proof (wf_steps cd (_, d) _ Hwf St1) as Hwf1. rewrite code_ptr_add in St1, S2.
  exists d1. split_and!; [|by apply H1|].
  { etrans; [exact St1|]. rewrite <- (en_regs _ _ _ (proj1 H1) TCG_REG_RSI)
      by (by apply (bool_decide_unpack (_ ∉ _))). by apply S2. }
  intros d2 Hwf2 Hi. unfold s2 in *. rewrite code_ptr_add in *.
  destruct (S3 cd d2 Hwf2 Hc3) as (d' & St3 & H3). rewrite !code_ptr_add in St3.
  destruct (leave_restores d d1 d2 d' Hwf H1 Hi H3) as (Rsp & Rs & Ro & Rm).
  eexists. split; [etrans; [exact St3|]|].
  { rewrite <- (return_address_kept _ _ _ _ (proj1 H1) Hi), <- Rm, <- Rsp. by apply ret_goes. }
  split; [| | |done].
  - by rewrite <- Rsp, regs_set_same.
  - intros r Hr. rewrite regs_set_other; [by apply Rs|]. intros ->. by apply callee_save_ok.
  - intros r Hr. rewrite regs_set_other; [by apply Ro|]. intros ->. apply Hr. in_list.
Qed.
