(* ===== verification/TcgIR.v ===== *)
(** * Programs of the intermediate representation

    What the translator hands to the back end: operations on temporaries
    (tcg/tcg.h, [TCGTemp], [gen_opc_buf], [gen_opparam_buf]), and what they mean
    as a transition system.  Temporaries are 32 or 64 bits wide; a value is read
    at the width of its temporary.  Where tcg/README leaves a result undefined,
    any value is possible; at the end of a basic block the temporaries that are
    neither global nor local take any value. *)

From S2P Require Import Prelude X86 TcgOut TcgEnc TcgEmit TcgCond TcgOpDefs TcgSem.

(** ** Temporaries *)

#[export] Instance TCGType_inhabited : Inhabited TCGType := populate TCG_TYPE_I64.

Record TCGTemp := mkTemp { type : TCGType; temp_local : bool }.
#[export] Instance TCGTemp_inhabited : Inhabited TCGTemp := populate (mkTemp TCG_TYPE_I64 false).

(** The temporaries of a block, globals first. *)
Record tcg_temps := mkTemps { nb_globals : Z; temps : list TCGTemp }.

(** Arrays indexed by a temporary. *)
Definition tget {A} `{Inhabited A} (l : list A) (t : Z) : A := l !!! Z.to_nat t.
Definition tset {A} (t : Z) (x : A) (l : list A) : list A := <[Z.to_nat t := x]> l.

Definition nb_temps (s : tcg_temps) : Z := Z.of_nat (length s.(temps)).
Definition tsize (s : tcg_temps) (t : Z) : Z := wsize (tget s.(temps) t).(type).

(** An operation with its arguments: outputs, inputs and constants. *)
Record insn := mkInsn { opc : TCGOpcode; args : list Z }.

(** The arguments of a call are preceded by their numbers and followed by flags
    and the number of words. *)
Definition oargs (i : insn) : list Z :=
  match i.(opc) with
  | INDEX_op_call => take (Z.to_nat (Z.shiftr (i.(args) !!! 0%nat) 16)) (drop 1 i.(args))
  | op => take (nb_oargs op) i.(args)
  end.
Definition iargs (i : insn) : list Z :=
  match i.(opc) with
  | INDEX_op_call =>
      take (Z.to_nat (Z.land (i.(args) !!! 0%nat) 0xffff))
        (drop (1 + Z.to_nat (Z.shiftr (i.(args) !!! 0%nat) 16)) i.(args))
  | op => take (nb_iargs op) (drop (nb_oargs op) i.(args))
  end.
Definition cargs (i : insn) : list Z :=
  match i.(opc) with
  | INDEX_op_call => drop (1 + length (oargs i) + length (iargs i)) i.(args)
  | op => drop (nb_oargs op + nb_iargs op) i.(args)
  end.

Definition TCG_CALL_NO_READ_GLOBALS : Z := 0x0010.
Definition TCG_CALL_NO_WRITE_GLOBALS : Z := 0x0020.
Definition TCG_CALL_NO_SIDE_EFFECTS : Z := 0x0040.

Definition call_flags (i : insn) : Z := cargs i !!! 0%nat.

(** ** Values *)

Definition binop_of (op : TCGOpcode) : option (binop * TCGType) :=
  match op with
  | INDEX_op_add t => Some (BAdd, t) | INDEX_op_sub t => Some (BSub, t)
  | INDEX_op_mul t => Some (BMul, t) | INDEX_op_and t => Some (BAnd, t)
  | INDEX_op_or t => Some (BOr, t) | INDEX_op_xor t => Some (BXor, t)
  | INDEX_op_shl t => Some (BShl, t) | INDEX_op_shr t => Some (BShr, t)
  | INDEX_op_sar t => Some (BSar, t) | INDEX_op_rotl t => Some (BRotl, t)
  | INDEX_op_rotr t => Some (BRotr, t)
  | _ => None
  end.

Definition unop_of (op : TCGOpcode) : option unop :=
  match op with
  | INDEX_op_neg t => Some (UNeg t) | INDEX_op_not t => Some (UNot t)
  | INDEX_op_bswap16 t => Some (UBswap16 t) | INDEX_op_bswap32 t => Some (UBswap32 t)
  | INDEX_op_bswap64_i64 => Some UBswap64
  | INDEX_op_ext8s t => Some (UExt8s t) | INDEX_op_ext16s t => Some (UExt16s t)
  | INDEX_op_ext8u t => Some (UExt8u t) | INDEX_op_ext16u t => Some (UExt16u t)
  | INDEX_op_ext32s_i64 => Some UExt32s | INDEX_op_ext32u_i64 => Some UExt32u
  | _ => None
  end.

Definition defined (b : bool) (v : Z) : option Z := if b then Some v else None.

(** The outputs of an operation on values; [None] for an output is an undefined
    value, [None] for the whole an operation without a value. *)
Definition eval_op (op : TCGOpcode) (cs xs : list Z) : option (list (option Z)) :=
  match op, xs, cs with
  | (INDEX_op_nop | INDEX_op_nop1 | INDEX_op_nop2 | INDEX_op_nop3 | INDEX_op_nopn
     | INDEX_op_debug_insn_start), [], _ => Some []
  | INDEX_op_discard, [], _ => Some [None]
  | INDEX_op_movi t, [], [v] => Some [Some (wrap (wsize t) v)]
  | INDEX_op_mov t, [x], [] => Some [Some (wrap (wsize t) x)]
  | INDEX_op_setcond t, [x; y], [c] =>
      c ← cond_of c;
      Some [Some (Z.b2z (eval_cond c (wsize t) (wrap (wsize t) x) (wrap (wsize t) y)))]
  | INDEX_op_movcond t, [x; y; a; b], [c] =>
      c ← cond_of c;
      Some [Some (if eval_cond c (wsize t) (wrap (wsize t) x) (wrap (wsize t) y)
                  then wrap (wsize t) a else wrap (wsize t) b)]
  | INDEX_op_deposit t, [x; y], [pos; len] =>
      Some [Some (deposit_value pos len (wrap (wsize t) x) (wrap (wsize t) y))]
  | (INDEX_op_add2 t | INDEX_op_sub2 t), [xl; xh; yl; yh], [] =>
      let n := wsize t in
      let r := sum2 (match op with INDEX_op_sub2 _ => true | _ => false end)
                 (wrap n xh * 2 ^ n + wrap n xl) (wrap n yh * 2 ^ n + wrap n yl) in
      Some [Some (wrap n r); Some (wrap n (r / 2 ^ n))]
  | (INDEX_op_mulu2 t | INDEX_op_muls2 t), [x; y], [] =>
      let n := wsize t in
      let signed := match op with INDEX_op_muls2 _ => true | _ => false end in
      let r := number signed t (wrap n x) * number signed t (wrap n y) in
      Some [Some (wrap n r); Some (wrap n (r / 2 ^ n))]
  | (INDEX_op_div2 t | INDEX_op_divu2 t), [lo; hi; y], [] =>
      let n := wsize t in
      let signed := match op with INDEX_op_div2 _ => true | _ => false end in
      let a := dividend signed t (wrap n lo) (wrap n hi) in
      let v := wrap n y in
      if div_defined signed t a v then
        Some [Some (wrap n (Z.quot a (number signed t v)));
              Some (wrap n (Z.rem a (number signed t v)))]
      else None
  | _, [x; y], [] =>
      '(o, t) ← binop_of op;
      let n := wsize t in
      Some [defined (binop_defined o n (wrap n y)) (binop_value o n (wrap n x) (wrap n y))]
  | _, [x], [] =>
      u ← unop_of op;
      let n := wsize (unop_type u) in
      Some [defined (unop_defined u (wrap n x)) (unop_value u n (wrap n x))]
  | _, _, _ => None
  end.

(** ** The transition system *)

(** The operations that the semantics takes as given: memory accesses, direct
    jumps to other blocks and the instrumentation operations. *)
Definition is_primitive (op : TCGOpcode) : bool :=
  match op with
  | INDEX_op_ld8u _ | INDEX_op_ld8s _ | INDEX_op_ld16u _ | INDEX_op_ld16s _
  | INDEX_op_ld32u_i64 | INDEX_op_ld32s_i64 | INDEX_op_ld _
  | INDEX_op_st8 _ | INDEX_op_st16 _ | INDEX_op_st32_i64 | INDEX_op_st _
  | INDEX_op_qemu_ld _ | INDEX_op_qemu_st _ | INDEX_op_goto_tb
  | INDEX_op_qtrace_instrumentation | INDEX_op_qtrace_shadow_register => true
  | _ => false
  end.

Record config (W : Type) := mkConfig { ip : nat; vals : list Z; world : W }.
Arguments mkConfig {W}. Arguments ip {W}. Arguments vals {W}. Arguments world {W}.

(** What happens outside of the temporaries: the memory, the primitives and the
    helper functions, which may read and write the globals.  A helper is called for
    a number of results. *)
Record environment (W : Type) := mkEnv {
  primitive : TCGOpcode -> list Z -> list Z -> list Z -> W -> list Z -> W -> Prop;
  helper : nat -> list Z -> list Z -> list Z -> W -> list Z -> list Z -> W -> Prop
}.
Arguments mkEnv {W}. Arguments primitive {W}. Arguments helper {W}.

Section Semantics.
Context {W : Type} (E : environment W) (s : tcg_temps).

Definition rd (v : list Z) (t : Z) : Z := wrap (tsize s t) (tget v t).
Definition globals (v : list Z) : list Z :=
  (fun i => rd v (Z.of_nat i)) <$> seq 0 (Z.to_nat s.(nb_globals)).

Fixpoint writes (ts : list Z) (rs : list (option Z)) (v v' : list Z) : Prop :=
  match ts, rs with
  | [], [] => v' = v
  | t :: ts, r :: rs =>
      exists u, (forall x, r = Some x -> wrap (tsize s t) u = wrap (tsize s t) x) /\
        writes ts rs (tset t u v) v'
  | _, _ => False
  end.

Definition survives (t : Z) : bool := (t <? s.(nb_globals)) || (tget s.(temps) t).(temp_local).

Definition clobbered (v v' : list Z) : Prop :=
  length v' = length v /\ forall t, 0 <= t -> survives t = true -> tget v' t = tget v t.

Definition bb_end (op : TCGOpcode) : bool := testb (op_flags op) TCG_OPF_BB_END.

(** The primitives that see the globals: those that leave the block or can raise
    an exception. *)
Definition reads_globals (op : TCGOpcode) : bool :=
  testb (op_flags op) (Z.lor TCG_OPF_BB_END TCG_OPF_SIDE_EFFECTS).

(** The value of a condition of brcond. *)
Definition taken (i : insn) (v : list Z) : option bool :=
  match i.(opc), rd v <$> iargs i, cargs i with
  | INDEX_op_brcond t, [x; y], [c; _] =>
      c ← cond_of c; Some (eval_cond c (wsize t) (wrap (wsize t) x) (wrap (wsize t) y))
  | _, _, _ => None
  end.

Inductive insn_step (label : Z -> option nat) (i : insn) : config W -> config W -> Prop :=
  | step_value n v w rs v' :
      eval_op i.(opc) (cargs i) (rd v <$> iargs i) = Some rs ->
      writes (oargs i) rs v v' ->
      insn_step label i (mkConfig n v w) (mkConfig (S n) v' w)
  | step_label n v w v' :
      i.(opc) = INDEX_op_set_label -> clobbered v v' ->
      insn_step label i (mkConfig n v w) (mkConfig (S n) v' w)
  | step_br n v w v' l n' :
      i.(opc) = INDEX_op_br -> cargs i = [l] -> label l = Some n' -> clobbered v v' ->
      insn_step label i (mkConfig n v w) (mkConfig n' v' w)
  | step_brcond n v w v' b n' :
      taken i v = Some b -> (if b : bool then label (cargs i !!! 1%nat) else Some (S n)) = Some n' ->
      clobbered v v' ->
      insn_step label i (mkConfig n v w) (mkConfig n' v' w)
  | step_call n v w us g w' v1 v' :
      i.(opc) = INDEX_op_call ->
      E.(helper) (length (oargs i)) (cargs i) (rd v <$> iargs i)
        (if testb (call_flags i) TCG_CALL_NO_READ_GLOBALS then [] else globals v) w us g w' ->
      (if testb (call_flags i) (Z.lor TCG_CALL_NO_READ_GLOBALS TCG_CALL_NO_WRITE_GLOBALS)
       then v1 = v else length g = Z.to_nat s.(nb_globals) /\ v1 = g ++ drop (length g) v) ->
      writes (oargs i) (Some <$> us) v1 v' ->
      insn_step label i (mkConfig n v w) (mkConfig (S n) v' w')
  | step_primitive n v w us w' v1 v' :
      is_primitive i.(opc) = true ->
      E.(primitive) i.(opc) (cargs i) (rd v <$> iargs i)
        (if reads_globals i.(opc) then globals v else []) w us w' ->
      writes (oargs i) (Some <$> us) v v1 ->
      (if bb_end i.(opc) then clobbered v1 v' else v' = v1) ->
      insn_step label i (mkConfig n v w) (mkConfig (S n) v' w').

(** A label stands for the place behind it. *)
Fixpoint find_label (p : list insn) (l : Z) : option nat :=
  match p with
  | [] => None
  | i :: p =>
      match i.(opc), i.(args) with
      | INDEX_op_set_label, [l'] => if l' =? l then Some 1%nat else S <$> find_label p l
      | _, _ => S <$> find_label p l
      end
  end.

Definition ir_step (p : list insn) (c c' : config W) : Prop :=
  exists i, p !! c.(ip) = Some i /\ insn_step (find_label p) i c c'.
End Semantics.
