(* ===== verification/Optimize.v ===== *)
(** * The optimizer (tcg/optimize.c)

    [tcg_constant_folding] walks over the operations of a block once.  For every
    temporary it keeps whether the value is a known constant, which other
    temporaries hold the same value (a doubly linked circular list) and which bits
    can be set, and replaces operations by simpler ones.  The arguments of an
    operation are a list of their own here; in the C code they are consecutive in
    one buffer, which is compacted in place. *)

From S2P Require Import Prelude X86 TcgOut TcgEnc TcgEmit TcgCond TcgOpDefs TcgSem TcgIR.

(** ** State *)

Inductive tcg_temp_state := TCG_TEMP_UNDEF | TCG_TEMP_CONST | TCG_TEMP_COPY.
#[export] Instance tcg_temp_state_eq_dec : EqDecision tcg_temp_state.
Proof. solve_decision. Defined.

Record tcg_temp_info := mkInfo {
  state : tcg_temp_state; prev_copy : Z; next_copy : Z; val : Z; mask : Z
}.
#[export] Instance tcg_temp_info_inhabited : Inhabited tcg_temp_info :=
  populate (mkInfo TCG_TEMP_UNDEF 0 0 0 0).

Definition infos : Type := list tcg_temp_info.

Definition set_state (x : tcg_temp_state) (i : tcg_temp_info) : tcg_temp_info :=
  mkInfo x i.(prev_copy) i.(next_copy) i.(val) i.(mask).
Definition set_prev (x : Z) (i : tcg_temp_info) : tcg_temp_info :=
  mkInfo i.(state) x i.(next_copy) i.(val) i.(mask).
Definition set_next_copy (x : Z) (i : tcg_temp_info) : tcg_temp_info :=
  mkInfo i.(state) i.(prev_copy) x i.(val) i.(mask).
Definition set_val (x : Z) (i : tcg_temp_info) : tcg_temp_info :=
  mkInfo i.(state) i.(prev_copy) i.(next_copy) x i.(mask).
Definition set_mask (x : Z) (i : tcg_temp_info) : tcg_temp_info :=
  mkInfo i.(state) i.(prev_copy) i.(next_copy) i.(val) x.

Definition tupd (t : Z) (f : tcg_temp_info -> tcg_temp_info) (l : infos) : infos :=
  tset t (f (tget l t)) l.

(** (tcg_target_ulong)-1 and the complement of a word. *)
Definition ones : Z := 2 ^ 64 - 1.
Definition not64 (x : Z) : Z := u64 (Z.lnot x).

Definition is_copy (l : infos) (t : Z) : bool := bool_decide ((tget l t).(state) = TCG_TEMP_COPY).
Definition is_const (l : infos) (t : Z) : bool := bool_decide ((tget l t).(state) = TCG_TEMP_CONST).
Definition is_zero (l : infos) (t : Z) : bool := is_const l t && ((tget l t).(val) =? 0).

Definition reset_temp (temp : Z) (l : infos) : infos :=
  let i := tget l temp in
  let l :=
    if is_copy l temp then
      if i.(prev_copy) =? i.(next_copy) then tupd i.(next_copy) (set_state TCG_TEMP_UNDEF) l
      else tupd i.(prev_copy) (set_next_copy i.(next_copy))
             (tupd i.(next_copy) (set_prev i.(prev_copy)) l)
    else l in
  tupd temp (fun i => set_mask ones (set_state TCG_TEMP_UNDEF i)) l.

Definition reset_all_temps (nb_temps : Z) (l : infos) : infos :=
  let n := Z.to_nat nb_temps in
  ((fun i => set_mask ones (set_state TCG_TEMP_UNDEF i)) <$> take n l) ++ drop n l.

(** [for (i = first; i != temp; i = temps[i].next_copy)] with the test [f]; the
    fuel is the number of temporaries. *)
Fixpoint find_copy (fuel : nat) (f : Z -> bool) (temp i : Z) (l : infos) : res (option Z) :=
  if i =? temp then Ok None
  else match fuel with
       | O => Err OutOfFuel
       | S fuel => if f i then Ok (Some i) else find_copy fuel f temp (tget l i).(next_copy) l
       end.

Section Optimizer.
Context (s : tcg_temps).

Definition search (f : Z -> bool) (temp : Z) (l : infos) : res (option Z) :=
  find_copy (length l) f temp (tget l temp).(next_copy) l.

Definition find_better_copy (temp : Z) (l : infos) : res Z :=
  if temp <? s.(nb_globals) then Ok temp
  else
    g ← search (fun i => i <? s.(nb_globals)) temp l;
    match g with
    | Some i => Ok i
    | None =>
        if (tget s.(temps) temp).(temp_local) then Ok temp
        else
          t ← search (fun i => (tget s.(temps) i).(temp_local)) temp l;
          Ok (default temp t)
    end.

Definition temps_are_copies (arg1 arg2 : Z) (l : infos) : res bool :=
  if arg1 =? arg2 then Ok true
  else if negb (is_copy l arg1) || negb (is_copy l arg2) then Ok false
  else r ← search (fun i => i =? arg2) arg1 l; Ok (bool_decide (is_Some r)).

Definition same_type (a b : Z) : bool :=
  bool_decide ((tget s.(temps) a).(type) = (tget s.(temps) b).(type)).

(** The two functions return the arguments of the new operation. *)
Definition tcg_opt_gen_mov (dst src : Z) (l : infos) : res (list Z * infos) :=
  let l := reset_temp dst l in
  let l := tupd dst (set_mask (tget l src).(mask)) l in
  _ ← guard_res (negb (is_const l src)) AssertFailed;
  let l :=
    if same_type src dst then
      let l :=
        if is_copy l src then l
        else tupd src (fun i => set_prev src (set_next_copy src (set_state TCG_TEMP_COPY i))) l in
      let next := (tget l src).(next_copy) in
      let l := tupd dst (fun i => set_prev src (set_next_copy next (set_state TCG_TEMP_COPY i))) l in
      tupd src (set_next_copy dst) (tupd next (set_prev dst) l)
    else l in
  Ok ([dst; src], l).

Definition tcg_opt_gen_movi (dst v : Z) (l : infos) : list Z * infos :=
  ([dst; v],
   tupd dst (fun i => set_mask v (set_val v (set_state TCG_TEMP_CONST i))) (reset_temp dst l)).

Definition op_bits (op : TCGOpcode) : Z := if testb (op_flags op) TCG_OPF_64BIT then 64 else 32.
Definition op_type (op : TCGOpcode) : TCGType := if op_bits op =? 32 then TCG_TYPE_I32 else TCG_TYPE_I64.
Definition op_to_movi (op : TCGOpcode) : TCGOpcode := INDEX_op_movi (op_type op).
Definition op_to_mov (op : TCGOpcode) : TCGOpcode := INDEX_op_mov (op_type op).

(** ** Folding constants *)

(** Shifts of [n]-bit words.  C leaves a count of [n] or more undefined; the
    host's instructions use its low bits. *)
Definition cshl (n x y : Z) : Z := wrap n (Z.shiftl x (y mod n)).
Definition cshr (n x y : Z) : Z := Z.shiftr (wrap n x) (y mod n).
Definition csar (n x y : Z) : Z := Z.shiftr (swrap n x) (y mod n).
Definition ror (n x y : Z) : Z := Z.lor (cshr n x y) (cshl n x (n - y)).
Definition rol (n x y : Z) : Z := Z.lor (cshl n x y) (cshr n x (n - y)).

(** [y ? : 1] *)
Definition or_one (y : Z) : Z := if y =? 0 then 1 else y.

(** A division whose quotient does not fit raises an exception. *)
Definition cdiv (n x y : Z) : res Z :=
  if (x =? - 2 ^ (n - 1)) && (y =? -1) then Err Exited else Ok (Z.quot x y).
Definition crem (n x y : Z) : res Z :=
  if (x =? - 2 ^ (n - 1)) && (y =? -1) then Err Exited else Ok (Z.rem x y).

Definition do_constant_folding_2 (op : TCGOpcode) (x y : Z) : res Z :=
  match op with
  | INDEX_op_add _ => Ok (u64 (x + y))
  | INDEX_op_sub _ => Ok (u64 (x - y))
  | INDEX_op_mul _ => Ok (u64 (x * y))
  | INDEX_op_and _ => Ok (Z.land x y)
  | INDEX_op_or _ => Ok (Z.lor x y)
  | INDEX_op_xor _ => Ok (Z.lxor x y)
  | INDEX_op_shl t => Ok (cshl (wsize t) x (wrap (wsize t) y))
  | INDEX_op_shr t => Ok (cshr (wsize t) x (wrap (wsize t) y))
  | INDEX_op_sar t => Ok (u64 (csar (wsize t) x (wrap (wsize t) y)))
  | INDEX_op_rotr t => Ok (ror (wsize t) x (u32 y))
  | INDEX_op_rotl t => Ok (rol (wsize t) x (u32 y))
  | INDEX_op_not _ => Ok (not64 x)
  | INDEX_op_neg _ => Ok (u64 (- x))
  | INDEX_op_andc _ => Ok (Z.land x (not64 y))
  | INDEX_op_orc _ => Ok (Z.lor x (not64 y))
  | INDEX_op_eqv _ => Ok (not64 (Z.lxor x y))
  | INDEX_op_nand _ => Ok (not64 (Z.land x y))
  | INDEX_op_nor _ => Ok (not64 (Z.lor x y))
  | INDEX_op_ext8s _ => Ok (u64 (s8 x))
  | INDEX_op_ext16s _ => Ok (u64 (s16 x))
  | INDEX_op_ext8u _ => Ok (u8 x)
  | INDEX_op_ext16u _ => Ok (u16 x)
  | INDEX_op_ext32s_i64 => Ok (u64 (s32 x))
  | INDEX_op_ext32u_i64 => Ok (u32 x)
  | INDEX_op_muluh TCG_TYPE_I32 => Ok (Z.shiftr (u32 x * u32 y) 32)
  | INDEX_op_mulsh TCG_TYPE_I32 => Ok (u64 (Z.shiftr (s32 x * s32 y) 32))
  | INDEX_op_muluh TCG_TYPE_I64 => Ok (Z.shiftr (x * y) 64)
  | INDEX_op_mulsh TCG_TYPE_I64 => Ok (u64 (Z.shiftr (s64 x * s64 y) 64))
  | INDEX_op_div t => r ← cdiv (wsize t) (swrap (wsize t) x) (or_one (swrap (wsize t) y)); Ok (u64 r)
  | INDEX_op_divu t => Ok (Z.quot (wrap (wsize t) x) (or_one (wrap (wsize t) y)))
  | INDEX_op_rem t => r ← crem (wsize t) (swrap (wsize t) x) (or_one (swrap (wsize t) y)); Ok (u64 r)
  | INDEX_op_remu t => Ok (Z.rem (wrap (wsize t) x) (or_one (wrap (wsize t) y)))
  | _ => Err TcgAbort
  end.

Definition do_constant_folding (op : TCGOpcode) (x y : Z) : res Z :=
  r ← do_constant_folding_2 op x y;
  Ok (if op_bits op =? 32 then Z.land r 0xffffffff else r).

(** [do_constant_folding_cond_32] and [do_constant_folding_cond_64] *)
Definition folding_cond (n x y : Z) (c : TCGCond) : res bool :=
  match c with
  | TCG_COND_EQ => Ok (x =? y) | TCG_COND_NE => Ok (negb (x =? y))
  | TCG_COND_LT => Ok (swrap n x <? swrap n y) | TCG_COND_GE => Ok (swrap n y <=? swrap n x)
  | TCG_COND_LE => Ok (swrap n x <=? swrap n y) | TCG_COND_GT => Ok (swrap n y <? swrap n x)
  | TCG_COND_LTU => Ok (x <? y) | TCG_COND_GEU => Ok (y <=? x)
  | TCG_COND_LEU => Ok (x <=? y) | TCG_COND_GTU => Ok (y <? x)
  | _ => Err TcgAbort
  end.

Definition do_constant_folding_cond_eq (c : TCGCond) : res bool :=
  match c with
  | TCG_COND_GT | TCG_COND_LTU | TCG_COND_LT | TCG_COND_GTU | TCG_COND_NE => Ok false
  | TCG_COND_GE | TCG_COND_GEU | TCG_COND_LE | TCG_COND_LEU | TCG_COND_EQ => Ok true
  | _ => Err TcgAbort
  end.

(** A condition argument; other numbers are no conditions. *)
Definition as_cond (c : Z) : res TCGCond := of_option TcgAbort (cond_of c).

(** [None] stands for 2: not simplified. *)
Definition do_constant_folding_cond (op : TCGOpcode) (x y c : Z) (l : infos) : res (option bool) :=
  let vx := (tget l x).(val) in
  let vy := (tget l y).(val) in
  if is_const l x && is_const l y then
    c ← as_cond c; b ← folding_cond (op_bits op) (wrap (op_bits op) vx) (wrap (op_bits op) vy) c;
    Ok (Some b)
  else
    copies ← temps_are_copies x y l;
    if copies : bool then c ← as_cond c; b ← do_constant_folding_cond_eq c; Ok (Some b)
    else if is_zero l y then
      if c =? cond_code TCG_COND_LTU then Ok (Some false)
      else if c =? cond_code TCG_COND_GEU then Ok (Some true) else Ok None
    else Ok None.

Definition double (hi lo : Z) : Z := Z.lor (u64 (Z.shiftl hi 32)) (u32 lo).

Definition do_constant_folding_cond2 (al ah bl bh c : Z) (l : infos) : res (option bool) :=
  let v t := (tget l t).(val) in
  let b := double (v bh) (v bl) in
  let both := is_const l bl && is_const l bh in
  if both && is_const l al && is_const l ah then
    c ← as_cond c; r ← folding_cond 64 (double (v ah) (v al)) b c; Ok (Some r)
  else if both && (b =? 0) && (c =? cond_code TCG_COND_LTU) then Ok (Some false)
  else if both && (b =? 0) && (c =? cond_code TCG_COND_GEU) then Ok (Some true)
  else
    lo ← temps_are_copies al bl l;
    if lo : bool then
      hi ← temps_are_copies ah bh l;
      if hi : bool then c ← as_cond c; r ← do_constant_folding_cond_eq c; Ok (Some r)
      else Ok None
    else Ok None.

(** ** Order of the operands *)

(** [args[k]], and what is known about it. *)
Definition arg (a : list Z) (k : nat) : Z := a !!! k.
Arguments arg _ _%_nat.
Definition arg_info (l : infos) (a : list Z) (k : nat) : tcg_temp_info := tget l (arg a k).
Arguments arg_info _ _ _%_nat.
Definition const_arg (l : infos) (a : list Z) (k : nat) : bool := is_const l (arg a k).
Arguments const_arg _ _ _%_nat.

Definition b2z (b : bool) : Z := if b then 1 else 0.

(** Whether the operands [p1] and [p2] are to be exchanged. *)
Definition swap_commutative (dest p1 p2 : Z) (l : infos) : bool :=
  let sum := b2z (is_const l p1) - b2z (is_const l p2) in
  (0 <? sum) || ((sum =? 0) && (dest =? p2)).

Definition swap_commutative2 (p1l p1h p2l p2h : Z) (l : infos) : bool :=
  0 <? b2z (is_const l p1l) + b2z (is_const l p1h) - b2z (is_const l p2l) - b2z (is_const l p2h).

Definition swap_args (i j : nat) (a : list Z) : list Z :=
  <[i := arg a j]> (<[j := arg a i]> a).
Definition map_arg (k : nat) (f : Z -> Z) (a : list Z) : list Z := <[k := f (arg a k)]> a.

(** -1 as a destination is no temporary. *)
Definition canonical (op : TCGOpcode) (a : list Z) (l : infos) : list Z :=
  match op with
  | INDEX_op_add _ | INDEX_op_mul _ | INDEX_op_and _ | INDEX_op_or _ | INDEX_op_xor _
  | INDEX_op_eqv _ | INDEX_op_nand _ | INDEX_op_nor _ | INDEX_op_muluh _ | INDEX_op_mulsh _ =>
      if swap_commutative (arg a 0) (arg a 1) (arg a 2) l then swap_args 1 2 a else a
  | INDEX_op_brcond _ =>
      if swap_commutative (-1) (arg a 0) (arg a 1) l
      then map_arg 2 tcg_swap_cond (swap_args 0 1 a) else a
  | INDEX_op_setcond _ =>
      if swap_commutative (arg a 0) (arg a 1) (arg a 2) l
      then map_arg 3 tcg_swap_cond (swap_args 1 2 a) else a
  | INDEX_op_movcond _ =>
      let a := if swap_commutative (-1) (arg a 1) (arg a 2) l
               then map_arg 5 tcg_swap_cond (swap_args 1 2 a) else a in
      if swap_commutative (arg a 0) (arg a 4) (arg a 3) l
      then map_arg 5 tcg_invert_cond (swap_args 4 3 a) else a
  | INDEX_op_add2 _ =>
      let a := if swap_commutative (arg a 0) (arg a 2) (arg a 4) l then swap_args 2 4 a else a in
      if swap_commutative (arg a 1) (arg a 3) (arg a 5) l then swap_args 3 5 a else a
  | INDEX_op_mulu2 _ | INDEX_op_muls2 _ =>
      if swap_commutative (arg a 0) (arg a 2) (arg a 3) l then swap_args 2 3 a else a
  | INDEX_op_brcond2_i32 =>
      if swap_commutative2 (arg a 0) (arg a 1) (arg a 2) (arg a 3) l
      then map_arg 4 tcg_swap_cond (swap_args 1 3 (swap_args 0 2 a)) else a
  | INDEX_op_setcond2_i32 =>
      if swap_commutative2 (arg a 1) (arg a 2) (arg a 3) (arg a 4) l
      then map_arg 5 tcg_swap_cond (swap_args 2 4 (swap_args 1 3 a)) else a
  | _ => a
  end.

(** ** Known bits *)

(** The bits that the first output can have, and the bits that the operation
    changes in its first input; -1 where nothing is known. *)
Definition op_mask (op : TCGOpcode) (a : list Z) (l : infos) : Z * Z :=
  let m1 := (arg_info l a 1).(mask) in
  let m2 := (arg_info l a 2).(mask) in
  let and_const c := (Z.land m1 c, Z.land m1 (not64 c)) in
  let v2 := (arg_info l a 2).(val) in
  match op with
  | INDEX_op_ext8s _ => if testb m1 0x80 then (ones, ones) else and_const 0xff
  | INDEX_op_ext8u _ => and_const 0xff
  | INDEX_op_ext16s _ => if testb m1 0x8000 then (ones, ones) else and_const 0xffff
  | INDEX_op_ext16u _ => and_const 0xffff
  | INDEX_op_ext32s_i64 => if testb m1 0x80000000 then (ones, ones) else and_const 0xffffffff
  | INDEX_op_ext32u_i64 => and_const 0xffffffff
  | INDEX_op_and _ =>
      if const_arg l a 2 then and_const m2 else (Z.land m1 m2, ones)
  | INDEX_op_sar t =>
      (if const_arg l a 2 then u64 (csar (wsize t) m1 v2) else ones, ones)
  | INDEX_op_shr t => (if const_arg l a 2 then cshr (wsize t) m1 v2 else ones, ones)
  | INDEX_op_shl _ => (if const_arg l a 2 then cshl 64 m1 v2 else ones, ones)
  | INDEX_op_neg _ => (u64 (- Z.land m1 (u64 (- m1))), ones)
  | INDEX_op_deposit _ =>
      let tmp := u64 (cshl 64 1 (arg a 4) - 1) in
      (Z.lor (Z.land m1 (not64 (cshl 64 tmp (arg a 3))))
             (cshl 64 (Z.land m2 tmp) (arg a 3)), ones)
  | INDEX_op_or _ | INDEX_op_xor _ => (Z.lor m1 m2, ones)
  | INDEX_op_setcond _ => (1, ones)
  | INDEX_op_movcond _ => (Z.lor (arg_info l a 3).(mask) (arg_info l a 4).(mask), ones)
  | _ => (ones, ones)
  end.

(** ** One operation *)

(** The operations that replace an operation, and the new knowledge. *)
Definition folded : Type := list insn * infos.

Definition to_movi (op : TCGOpcode) (dst v : Z) (l : infos) : folded :=
  let '(a, l) := tcg_opt_gen_movi dst v l in ([mkInsn (op_to_movi op) a], l).
Definition to_mov (op : TCGOpcode) (dst src : Z) (l : infos) : res folded :=
  '(a, l) ← tcg_opt_gen_mov dst src l; Ok ([mkInsn (op_to_mov op) a], l).
Definition to_nop (l : infos) : folded := ([mkInsn INDEX_op_nop []], l).

(** A copy of [src] in [dst], if it is not there already. *)
Definition mov_or_nop (op : TCGOpcode) (dst src : Z) (l : infos) : res folded :=
  copies ← temps_are_copies dst src l;
  if copies : bool then Ok (to_nop l) else to_mov op dst src l.

Definition mov_or_movi (op : TCGOpcode) (dst src : Z) (l : infos) : res folded :=
  copies ← temps_are_copies dst src l;
  if copies : bool then Ok (to_nop l)
  else if is_const l src then Ok (to_movi op dst (tget l src).(val) l)
  else to_mov op dst src l.

(** "shift/rot r, 0, a => movi r, 0" and "sub r, 0, a => neg r, a" *)
Definition fold_zero_first (op : TCGOpcode) (a : list Z) (l : infos) : option folded :=
  match op with
  | INDEX_op_shl _ | INDEX_op_shr _ | INDEX_op_sar _ | INDEX_op_rotl _ | INDEX_op_rotr _ =>
      if is_zero l (arg a 1) then Some (to_movi op (arg a 0) 0 l) else None
  | INDEX_op_sub t =>
      if is_const l (arg a 2) then None
      else if is_zero l (arg a 1)
      then Some ([mkInsn (INDEX_op_neg t) [arg a 0; arg a 2]], reset_temp (arg a 0) l)
      else None
  | _ => None
  end.

(** "op r, a, 0 => mov r, a" *)
Definition fold_zero_second (op : TCGOpcode) (a : list Z) (l : infos) : res (option folded) :=
  match op with
  | INDEX_op_add _ | INDEX_op_sub _ | INDEX_op_shl _ | INDEX_op_shr _ | INDEX_op_sar _
  | INDEX_op_rotl _ | INDEX_op_rotr _ | INDEX_op_or _ | INDEX_op_xor _ =>
      if is_const l (arg a 1) then Ok None
      else if is_zero l (arg a 2) then r ← mov_or_nop op (arg a 0) (arg a 1) l; Ok (Some r)
      else Ok None
  | _ => Ok None
  end.

(** Simplification with the known bits. *)
Definition fold_mask (op : TCGOpcode) (a : list Z) (l : infos) : res (option folded) :=
  let '(mask, affected) := op_mask op a l in
  if mask =? 0 then
    _ ← guard_res (nb_oargs op =? 1)%nat AssertFailed;
    Ok (Some (to_movi op (arg a 0) 0 l))
  else if affected =? 0 then
    _ ← guard_res (nb_oargs op =? 1)%nat AssertFailed;
    r ← mov_or_movi op (arg a 0) (arg a 1) l; Ok (Some r)
  else Ok None.

(** "op r, a, 0 => movi r, 0" *)
Definition fold_absorbing (op : TCGOpcode) (a : list Z) (l : infos) : option folded :=
  match op with
  | INDEX_op_and _ | INDEX_op_mul _ | INDEX_op_muluh _ | INDEX_op_mulsh _ =>
      if is_zero l (arg a 2) then Some (to_movi op (arg a 0) 0 l) else None
  | _ => None
  end.

(** "op r, a, a => mov r, a" and "op r, a, a => movi r, 0" *)
Definition fold_same (op : TCGOpcode) (a : list Z) (l : infos) : res (option folded) :=
  match op with
  | INDEX_op_or _ | INDEX_op_and _ =>
      copies ← temps_are_copies (arg a 1) (arg a 2) l;
      if copies : bool then r ← mov_or_nop op (arg a 0) (arg a 1) l; Ok (Some r) else Ok None
  | INDEX_op_sub _ | INDEX_op_xor _ =>
      copies ← temps_are_copies (arg a 1) (arg a 2) l;
      if copies : bool then Ok (Some (to_movi op (arg a 0) 0 l)) else Ok None
  | _ => Ok None
  end.

(** Nothing is known about the outputs. *)
Definition reset_outputs (outs : list Z) (l : infos) : infos :=
  foldl (fun l t => reset_temp t l) l outs.

Definition do_default (op : TCGOpcode) (a : list Z) (l : infos) : folded :=
  ([mkInsn op a],
   if bb_end op then reset_all_temps (nb_temps s) l
   else reset_outputs (take (nb_oargs op) a) l).

Definition fold_call (a : list Z) (l : infos) : folded :=
  let nb_oargs := Z.shiftr (arg a 0) 16 in
  let nb_call_args := nb_oargs + Z.land (arg a 0) 0xffff in
  let flags := arg a (Z.to_nat (nb_call_args + 1)) in
  let l :=
    if testb flags (Z.lor TCG_CALL_NO_READ_GLOBALS TCG_CALL_NO_WRITE_GLOBALS) then l
    else reset_outputs (Z.of_nat <$> seq 0 (Z.to_nat s.(nb_globals))) l in
  ([mkInsn INDEX_op_call a], reset_outputs (take (Z.to_nat nb_oargs) (drop 1 a)) l).

(** Two constants for the double-word operations of 32 bits. *)
Definition fold_pair (rl rh v : Z) (l : infos) : folded :=
  let '(a1, l) := tcg_opt_gen_movi rl (u32 v) l in
  let '(a2, l) := tcg_opt_gen_movi rh (u32 (Z.shiftr v 32)) l in
  ([mkInsn (INDEX_op_movi TCG_TYPE_I32) a1; mkInsn (INDEX_op_movi TCG_TYPE_I32) a2], l).

Definition fold_op (op : TCGOpcode) (a : list Z) (l : infos) : res folded :=
  match op with
  | INDEX_op_mov _ => mov_or_movi op (arg a 0) (arg a 1) l
  | INDEX_op_movi _ => Ok (to_movi op (arg a 0) (arg a 1) l)
  | INDEX_op_not _ | INDEX_op_neg _ | INDEX_op_ext8s _ | INDEX_op_ext8u _
  | INDEX_op_ext16s _ | INDEX_op_ext16u _ | INDEX_op_ext32s_i64 | INDEX_op_ext32u_i64 =>
      if const_arg l a 1 then r ← do_constant_folding op (arg_info l a 1).(val) 0; Ok (to_movi op (arg a 0) r l)
      else Ok (do_default op a l)
  | INDEX_op_add _ | INDEX_op_sub _ | INDEX_op_mul _ | INDEX_op_or _ | INDEX_op_and _
  | INDEX_op_xor _ | INDEX_op_shl _ | INDEX_op_shr _ | INDEX_op_sar _ | INDEX_op_rotl _
  | INDEX_op_rotr _ | INDEX_op_andc _ | INDEX_op_orc _ | INDEX_op_eqv _ | INDEX_op_nand _
  | INDEX_op_nor _ | INDEX_op_muluh _ | INDEX_op_mulsh _ | INDEX_op_div _ | INDEX_op_divu _
  | INDEX_op_rem _ | INDEX_op_remu _ =>
      if const_arg l a 1 && const_arg l a 2 then
        r ← do_constant_folding op (arg_info l a 1).(val) (arg_info l a 2).(val); Ok (to_movi op (arg a 0) r l)
      else Ok (do_default op a l)
  | INDEX_op_deposit _ =>
      if const_arg l a 1 && const_arg l a 2 then
        let tmp := u64 (cshl 64 1 (arg a 4) - 1) in
        Ok (to_movi op (arg a 0)
              (Z.lor (Z.land (arg_info l a 1).(val) (not64 (cshl 64 tmp (arg a 3))))
                     (cshl 64 (Z.land (arg_info l a 2).(val) tmp) (arg a 3))) l)
      else Ok (do_default op a l)
  | INDEX_op_setcond _ =>
      r ← do_constant_folding_cond op (arg a 1) (arg a 2) (arg a 3) l;
      match r with
      | Some b => Ok (to_movi op (arg a 0) (b2z b) l)
      | None => Ok (do_default op a l)
      end
  | INDEX_op_brcond _ =>
      r ← do_constant_folding_cond op (arg a 0) (arg a 1) (arg a 2) l;
      match r with
      | Some true => Ok ([mkInsn INDEX_op_br [arg a 3]], reset_all_temps (nb_temps s) l)
      | Some false => Ok (to_nop l)
      | None => Ok (do_default op a l)
      end
  | INDEX_op_movcond _ =>
      r ← do_constant_folding_cond op (arg a 1) (arg a 2) (arg a 5) l;
      match r with
      | Some b => mov_or_movi op (arg a 0) (if b : bool then arg a 3 else arg a 4) l
      | None => Ok (do_default op a l)
      end
  | INDEX_op_add2 TCG_TYPE_I32 | INDEX_op_sub2 TCG_TYPE_I32 =>
      if const_arg l a 2 && const_arg l a 3 && const_arg l a 4 && const_arg l a 5 then
        let x := double (u32 (arg_info l a 3).(val)) (arg_info l a 2).(val) in
        let y := double (u32 (arg_info l a 5).(val)) (arg_info l a 4).(val) in
        let r := match op with INDEX_op_add2 _ => u64 (x + y) | _ => u64 (x - y) end in
        Ok (fold_pair (arg a 0) (arg a 1) r l)
      else Ok (do_default op a l)
  | INDEX_op_mulu2 TCG_TYPE_I32 =>
      if const_arg l a 2 && const_arg l a 3 then
        Ok (fold_pair (arg a 0) (arg a 1) (u32 (arg_info l a 2).(val) * u32 (arg_info l a 3).(val)) l)
      else Ok (do_default op a l)
  | INDEX_op_brcond2_i32 =>
      r ← do_constant_folding_cond2 (arg a 0) (arg a 1) (arg a 2) (arg a 3) (arg a 4) l;
      match r with
      | Some true => Ok ([mkInsn INDEX_op_br [arg a 5]], reset_all_temps (nb_temps s) l)
      | Some false => Ok (to_nop l)
      | None =>
          if ((arg a 4 =? cond_code TCG_COND_LT) || (arg a 4 =? cond_code TCG_COND_GE)) &&
             is_zero l (arg a 2) && is_zero l (arg a 3) then
            Ok ([mkInsn (INDEX_op_brcond TCG_TYPE_I32) [arg a 1; arg a 3; arg a 4; arg a 5]],
                reset_all_temps (nb_temps s) l)
          else Ok (do_default op a l)
      end
  | INDEX_op_setcond2_i32 =>
      r ← do_constant_folding_cond2 (arg a 1) (arg a 2) (arg a 3) (arg a 4) (arg a 5) l;
      match r with
      | Some b => Ok (to_movi (INDEX_op_movi TCG_TYPE_I32) (arg a 0) (b2z b) l)
      | None =>
          if ((arg a 5 =? cond_code TCG_COND_LT) || (arg a 5 =? cond_code TCG_COND_GE)) &&
             is_zero l (arg a 3) && is_zero l (arg a 4) then
            Ok ([mkInsn (INDEX_op_setcond TCG_TYPE_I32) [arg a 0; arg a 2; arg a 4; arg a 5]],
                reset_temp (arg a 0) l)
          else Ok (do_default op a l)
      end
  | INDEX_op_call => Ok (fold_call a l)
  | _ => Ok (do_default op a l)
  end.

(** Replacing inputs by better copies; [n] inputs from place [k]. *)
Fixpoint propagate (k n : nat) (a : list Z) (l : infos) : res (list Z) :=
  match n with
  | O => Ok a
  | S n =>
      x ← (if is_copy l (arg a k) then find_better_copy (arg a k) l else Ok (arg a k));
      propagate (S k) n (<[k := x]> a) l
  end.

Definition propagate_copies (op : TCGOpcode) (a : list Z) (l : infos) : res (list Z) :=
  match op with
  | INDEX_op_call =>
      propagate (Z.to_nat (Z.shiftr (arg a 0) 16 + 1)) (Z.to_nat (Z.land (arg a 0) 0xffff)) a l
  | _ => propagate (nb_oargs op) (nb_iargs op) a l
  end.

(** [continue] where a simplification applies. *)
Definition or_else (r : res (option folded)) (k : res folded) : res folded :=
  r ← r; match r with Some x => Ok x | None => k end.

Definition fold_insn (i : insn) (l : infos) : res folded :=
  let op := i.(opc) in
  a ← propagate_copies op i.(args) l;
  let a := canonical op a l in
  or_else (Ok (fold_zero_first op a l))
    (or_else (fold_zero_second op a l)
      (or_else (fold_mask op a l)
        (or_else (Ok (fold_absorbing op a l))
          (or_else (fold_same op a l)
            (fold_op op a l))))).

(** The loop.  Two operations take the place of an operation and of the nop
    behind it. *)
Fixpoint fold_insns (p : list insn) (l : infos) : res (list insn) :=
  match p with
  | [] => Ok []
  | i :: p =>
      '(r, l) ← fold_insn i l;
      match r, p with
      | [_; _], n :: p' =>
          _ ← guard_res (bool_decide (n.(opc) = INDEX_op_nop)) AssertFailed;
          q ← fold_insns p' l; Ok (r ++ q)
      | [_; _], [] => Err AssertFailed
      | _, _ => q ← fold_insns p l; Ok (r ++ q)
      end
  end.

Definition tcg_constant_folding (p : list insn) (l : infos) : res (list insn) :=
  fold_insns p (reset_all_temps (nb_temps s) l).

Definition tcg_optimize (p : list insn) (l : infos) : res (list insn) := tcg_constant_folding p l.
End Optimizer.
