(* ===== verification/OptCopies.v ===== *)
(** * What the optimizer knows

    The invariant between the optimizer's knowledge and the values of the
    temporaries: constants have their value, the temporaries on a circular list
    have the same value, and no bit outside of its mask is set in a value.  Each
    operation on the knowledge keeps the invariant, and following a circular list
    ends. *)

From S2P Require Import Prelude X86 TcgOut TcgEnc TcgEmit TcgCond TcgOpDefs TcgSem TcgIR Optimize.

(** ** Arrays indexed by temporaries *)

Lemma length_tset {A} t (x : A) l : length (tset t x l) = length l.
Proof. apply length_insert. Qed.

Lemma tget_tset_same {A} `{Inhabited A} t (x : A) l :
  0 <= t < Z.of_nat (length l) -> tget (tset t x l) t = x.
Proof. intros Ht. apply list_lookup_total_insert_eq. lia. Qed.

Lemma tget_tset_other {A} `{Inhabited A} t t' (x : A) l :
  0 <= t -> 0 <= t' -> t <> t' -> tget (tset t x l) t' = tget l t'.
Proof. intros. apply list_lookup_total_insert_ne. lia. Qed.

Lemma tset_same {A} `{Inhabited A} t (l : list A) :
  0 <= t < Z.of_nat (length l) -> tset t (tget l t) l = l.
Proof.
  intros Ht. apply list_insert_id. unfold tget. rewrite list_lookup_lookup_total_lt; [done|lia].
Qed.

Lemma length_tupd t f l : length (tupd t f l) = length l.
Proof. apply length_tset. Qed.

Lemma tget_tupd t f l t' :
  0 <= t < Z.of_nat (length l) -> 0 <= t' ->
  tget (tupd t f l) t' = if t' =? t then f (tget l t) else tget l t'.
Proof.
  intros Ht Ht'. unfold tupd. destruct (Z.eqb_spec t' t) as [->|Hne].
  - by apply tget_tset_same.
  - apply tget_tset_other; lia.
Qed.

Section Known.
Context (s : tcg_temps).

Definition valid (t : Z) : Prop := 0 <= t < nb_temps s.

(** ** Circular lists *)

Definition copy (l : infos) (t : Z) : Prop := (tget l t).(state) = TCG_TEMP_COPY.

Record ring (l : infos) (t : Z) : Prop := {
  rg_next : valid (tget l t).(next_copy) /\ copy l (tget l t).(next_copy);
  rg_prev : valid (tget l t).(prev_copy) /\ copy l (tget l t).(prev_copy);
  rg_next_prev : (tget l (tget l t).(next_copy)).(prev_copy) = t;
  rg_prev_next : (tget l (tget l t).(prev_copy)).(next_copy) = t;
  rg_other : (tget l t).(next_copy) <> t;
  rg_type : (tget s.(temps) (tget l t).(next_copy)).(type) = (tget s.(temps) t).(type)
}.

Definition linked (l : infos) : Prop :=
  length l = length s.(temps) /\ forall t, valid t -> copy l t -> ring l t.

Definition nth_copy (l : infos) (t : Z) (k : nat) : Z :=
  Nat.iter k (fun t => (tget l t).(next_copy)) t.

Lemma nth_copy_S l t k : nth_copy l t (S k) = (tget l (nth_copy l t k)).(next_copy).
Proof. done. Qed.

Lemma nth_copy_valid l t k :
  linked l -> valid t -> copy l t -> valid (nth_copy l t k) /\ copy l (nth_copy l t k).
Proof.
  intros [_ Hl] Ht Hc. induction k as [|k [Hv Hk]]; [done|].
  rewrite nth_copy_S. apply (rg_next _ _ (Hl _ Hv Hk)).
Qed.

Lemma nth_copy_type l t k :
  linked l -> valid t -> copy l t ->
  (tget s.(temps) (nth_copy l t k)).(type) = (tget s.(temps) t).(type).
Proof.
  intros Hl Ht Hc. induction k as [|k IH]; [done|].
  destruct (nth_copy_valid l t k Hl Ht Hc) as [Hv Hk].
  rewrite nth_copy_S, (rg_type _ _ (proj2 Hl _ Hv Hk)). done.
Qed.

(** A step back on the list. *)
Lemma nth_copy_back l t i j :
  linked l -> valid t -> copy l t -> nth_copy l t (S i) = nth_copy l t (S j) ->
  nth_copy l t i = nth_copy l t j.
Proof.
  intros Hl Ht Hc E.
  destruct (nth_copy_valid l t i Hl Ht Hc) as [Vi Ci].
  destruct (nth_copy_valid l t j Hl Ht Hc) as [Vj Cj].
  rewrite <- (rg_next_prev _ _ (proj2 Hl _ Vi Ci)), <- (rg_next_prev _ _ (proj2 Hl _ Vj Cj)).
  rewrite !nth_copy_S in E. by rewrite E.
Qed.

Lemma nth_copy_period l t i k :
  linked l -> valid t -> copy l t -> nth_copy l t i = nth_copy l t (i + k) -> nth_copy l t k = t.
Proof.
  intros Hl Ht Hc. induction i as [|i IH]; intros E; [done|].
  apply IH. by apply nth_copy_back.
Qed.

(** The list is closed: it comes back to its start. *)
Lemma nth_copy_returns l t :
  linked l -> valid t -> copy l t ->
  exists k, (1 <= k <= length l)%nat /\ nth_copy l t k = t.
Proof.
  intros Hl Ht Hc.
  destruct (decide (t ∈ (nth_copy l t <$> seq 1 (length l)))) as [Hin|Hin].
  { apply list_elem_of_fmap in Hin as (k & E & Hk). apply elem_of_seq in Hk. exists k.
    split; [lia|done]. }
  exfalso. set (ks := nth_copy l t <$> seq 0 (S (length l))).
  assert (NoDup ks) as Hnd.
  { apply NoDup_fmap_2_strong; [|apply NoDup_seq]. intros i j Hi Hj E.
    apply elem_of_seq in Hi, Hj. destruct (lt_eq_lt_dec i j) as [[Hlt|Heq]|Hlt]; [|done|];
      exfalso; apply Hin; apply list_elem_of_fmap.
    - exists (j - i)%nat. split; [|apply elem_of_seq; lia]. symmetry.
      apply (nth_copy_period l t i); [done..|]. by replace (i + (j - i))%nat with j by lia.
    - exists (i - j)%nat. split; [|apply elem_of_seq; lia]. symmetry.
      apply (nth_copy_period l t j); [done..|]. by replace (j + (i - j))%nat with i by lia. }
  assert (ks ⊆+ (Z.of_nat <$> seq 0 (length l))) as Hsub.
  { apply NoDup_submseteq; [done|]. intros x Hx.
    apply list_elem_of_fmap in Hx as (k & -> & _).
    destruct (nth_copy_valid l t k Hl Ht Hc) as [Hv _]. unfold valid, nb_temps in Hv.
    apply list_elem_of_fmap. exists (Z.to_nat (nth_copy l t k)). split; [lia|].
    apply elem_of_seq. rewrite (proj1 Hl). lia. }
  apply submseteq_length in Hsub. unfold ks in Hsub. rewrite !length_fmap, !length_seq in Hsub. lia.
Qed.

(** The search over the other copies of a temporary ends. *)
Lemma find_copy_spec l f t fuel j m :
  nth_copy l t (j + m) = t -> (m <= fuel)%nat ->
  exists r, find_copy fuel f t (nth_copy l t j) l = Ok r /\
    forall i, r = Some i -> f i = true /\ exists k, i = nth_copy l t k.
Proof.
  revert j m. induction fuel as [|fuel IH]; intros j m E Hm; cbn [find_copy];
    destruct (Z.eqb_spec (nth_copy l t j) t) as [|Hne]; try by (exists None; split).
  { assert (m = 0)%nat as -> by lia. rewrite Nat.add_0_r in E. done. }
  destruct (f (nth_copy l t j)) eqn:Hf.
  { exists (Some (nth_copy l t j)). split; [done|]. intros i [= <-]. split; [done|]. by exists j. }
  destruct m as [|m]; [rewrite Nat.add_0_r in E; done|].
  rewrite <- nth_copy_S. apply (IH (S j) m); [|lia]. by rewrite Nat.add_succ_comm.
Qed.

Lemma search_spec l f t :
  linked l -> valid t -> copy l t ->
  exists r, search f t l = Ok r /\
    forall i, r = Some i -> f i = true /\ exists k, i = nth_copy l t k.
Proof.
  intros Hl Ht Hc. destruct (nth_copy_returns l t Hl Ht Hc) as (k & Hk & E).
  apply (find_copy_spec l f t (length l) 1 (k - 1)); [|lia].
  by replace (1 + (k - 1))%nat with k by lia.
Qed.

(** ** Forgetting a temporary *)

Section Reset.
Context (l : infos) (t : Z).
Hypothesis Hl : linked l.
Hypothesis Ht : valid t.

Local Abbreviation nx := ((tget l t).(next_copy)).
Local Abbreviation pv := ((tget l t).(prev_copy)).

(** A list of two temporaries disappears. *)
Definition last_copy (x : Z) : bool := is_copy l t && (pv =? nx) && (x =? nx).

Lemma valid_bound x : valid x -> 0 <= x < Z.of_nat (length l).
Proof. unfold valid, nb_temps. rewrite (proj1 Hl). done. Qed.

Lemma length_reset : length (reset_temp t l) = length l.
Proof.
  unfold reset_temp. rewrite length_tupd. destruct (is_copy l t); [|done].
  destruct (pv =? nx); by rewrite !length_tupd.
Qed.

Lemma reset_self :
  (tget (reset_temp t l) t).(state) = TCG_TEMP_UNDEF /\ (tget (reset_temp t l) t).(mask) = ones.
Proof.
  unfold reset_temp. rewrite tget_tupd, Z.eqb_refl; [done| |apply Ht].
  apply valid_bound in Ht. destruct (is_copy l t); [|done]. destruct (pv =? nx); by rewrite !length_tupd.
Qed.

Lemma copy_ring : copy l t -> ring l t.
Proof. by apply Hl. Qed.

Lemma reset_other x :
  valid x -> x <> t ->
  tget (reset_temp t l) x =
    if is_copy l t then
      if pv =? nx then (if x =? nx then set_state TCG_TEMP_UNDEF (tget l x) else tget l x)
      else if x =? pv then set_next_copy nx (tget l x)
      else if x =? nx then set_prev pv (tget l x) else tget l x
    else tget l x.
Proof.
  intros Hx Hne. pose proof (valid_bound t Ht) as Bt. pose proof (valid_bound x Hx) as Bx.
  unfold reset_temp. destruct (is_copy l t) eqn:Ec.
  2: { rewrite tget_tupd by lia. by rewrite (proj2 (Z.eqb_neq _ _)). }
  apply bool_decide_eq_true in Ec. destruct (copy_ring Ec) as [[Vn _] [Vp _] _ _ _ _].
  apply valid_bound in Vn, Vp. destruct (Z.eqb_spec pv nx) as [E|E].
  - rewrite tget_tupd by (rewrite ?length_tupd; lia). rewrite (proj2 (Z.eqb_neq x t)) by done.
    rewrite tget_tupd by lia. by destruct (Z.eqb_spec x nx) as [->|].
  - rewrite tget_tupd by (rewrite ?length_tupd; lia). rewrite (proj2 (Z.eqb_neq x t)) by done.
    rewrite tget_tupd by (rewrite ?length_tupd; lia).
    destruct (Z.eqb_spec x pv) as [->|Hp].
    + rewrite tget_tupd by lia. by rewrite (proj2 (Z.eqb_neq pv nx)).
    + rewrite tget_tupd by lia. by destruct (Z.eqb_spec x nx) as [->|].
Qed.

Lemma reset_state x :
  valid x -> x <> t ->
  (tget (reset_temp t l) x).(state) = (if last_copy x then TCG_TEMP_UNDEF else (tget l x).(state)) /\
  (tget (reset_temp t l) x).(val) = (tget l x).(val) /\
  (tget (reset_temp t l) x).(mask) = (tget l x).(mask).
Proof.
  intros Hx Hne. rewrite reset_other by done. unfold last_copy.
  destruct (is_copy l t); [|done]. destruct (pv =? nx); cbn [andb].
  - by destruct (x =? nx).
  - by destruct (x =? pv), (x =? nx).
Qed.

(** A copy that remains is linked past [t]. *)
Lemma reset_links x :
  valid x -> copy (reset_temp t l) x ->
  x <> t /\ copy l x /\ last_copy x = false /\
  (tget (reset_temp t l) x).(next_copy) = (if (tget l x).(next_copy) =? t then nx else (tget l x).(next_copy)) /\
  (tget (reset_temp t l) x).(prev_copy) = (if (tget l x).(prev_copy) =? t then pv else (tget l x).(prev_copy)).
Proof.
  intros Hx Hc. assert (x <> t) as Hne.
  { intros ->. unfold copy in Hc. by rewrite (proj1 reset_self) in Hc. }
  assert (copy l x /\ last_copy x = false) as [Hcx Hlc].
  { unfold copy in *. rewrite (proj1 (reset_state x Hx Hne)) in Hc. by destruct (last_copy x). }
  split_and!; [done..| |]; pose proof (proj2 Hl x Hx Hcx) as [[_ Cn] [_ Cp] NP PN _ _];
    rewrite reset_other by done; unfold last_copy in Hlc; destruct (is_copy l t) eqn:Ec.
  - apply bool_decide_eq_true in Ec. destruct (copy_ring Ec) as [_ _ NPt PNt _ _].
    destruct (Z.eqb_spec pv nx) as [E|E]; cbn [andb] in Hlc.
    + rewrite Hlc. destruct (Z.eqb_spec (tget l x).(next_copy) t) as [Et|]; [|done].
      rewrite Et in NP. apply Z.eqb_neq in Hlc. congruence.
    + destruct (Z.eqb_spec x pv) as [->|Hp].
      { cbn [set_next_copy next_copy]. by rewrite PNt, Z.eqb_refl. }
      destruct (Z.eqb_spec (tget l x).(next_copy) t) as [Et|]; [rewrite Et in NP; congruence|].
      by destruct (Z.eqb_spec x nx) as [->|].
  - destruct (Z.eqb_spec (tget l x).(next_copy) t) as [Et|]; [|done].
    rewrite Et in Cn. by apply bool_decide_eq_false in Ec.
  - apply bool_decide_eq_true in Ec. destruct (copy_ring Ec) as [_ _ NPt PNt _ _].
    destruct (Z.eqb_spec pv nx) as [E|E]; cbn [andb] in Hlc.
    + rewrite Hlc. destruct (Z.eqb_spec (tget l x).(prev_copy) t) as [Et|]; [|done].
      rewrite Et in PN. apply Z.eqb_neq in Hlc. congruence.
    + destruct (Z.eqb_spec (tget l x).(prev_copy) t) as [Et|Et].
      * rewrite Et in PN. subst x. rewrite Z.eqb_refl.
        by rewrite (proj2 (Z.eqb_neq nx pv)).
      * destruct (Z.eqb_spec x pv) as [->|]; [done|].
        destruct (Z.eqb_spec x nx) as [->|]; [|done]. by rewrite NPt in Et.
  - destruct (Z.eqb_spec (tget l x).(prev_copy) t) as [Et|]; [|done].
    rewrite Et in Cp. by apply bool_decide_eq_false in Ec.
Qed.
End Reset.

Lemma reset_copy l t x :
  linked l -> valid t -> valid x -> x <> t -> copy l x -> last_copy l t x = false ->
  copy (reset_temp t l) x.
Proof.
  intros Hl Ht Hx Hne Hc Hlc. unfold copy in *. rewrite (proj1 (reset_state l t Hl Ht x Hx Hne)).
  by rewrite Hlc.
Qed.

(** The neighbours of a copy that remains. *)
Lemma reset_next l t x :
  linked l -> valid t -> valid x -> copy (reset_temp t l) x ->
  let n := (tget (reset_temp t l) x).(next_copy) in
  valid n /\ copy (reset_temp t l) n /\ (tget (reset_temp t l) n).(prev_copy) = x /\ n <> x /\
  (tget s.(temps) n).(type) = (tget s.(temps) x).(type).
Proof.
  intros Hl Ht Hx Hc. cbn zeta.
  destruct (reset_links l t Hl Ht x Hx Hc) as (Hne & Hcx & Hlx & -> & _).
  destruct (proj2 Hl x Hx Hcx) as [[Vn Cn] _ NP _ Ot Ty]. unfold last_copy in Hlx.
  destruct (Z.eqb_spec (tget l x).(next_copy) t) as [Et|Et].
  - rewrite Et in *. destruct (proj2 Hl t Ht Cn) as [[Vn' Cn'] _ NP' PN' Ot' Ty'].
    rewrite (bool_decide_eq_true_2 _ Cn : is_copy l t = true), NP in Hlx. cbn [andb] in Hlx.
    assert (x <> (tget l t).(next_copy)) as Hxn by (intros E; rewrite <- E, !Z.eqb_refl in Hlx; done).
    assert (copy (reset_temp t l) (tget l t).(next_copy)) as Hcn.
    { apply reset_copy; [done..|]. unfold last_copy.
      rewrite (bool_decide_eq_true_2 _ Cn : is_copy l t = true), NP, (proj2 (Z.eqb_neq x _)); done. }
    split_and!; [done..| |done|congruence].
    destruct (reset_links l t Hl Ht _ Vn' Hcn) as (_ & _ & _ & _ & ->). by rewrite NP', Z.eqb_refl.
  - assert (copy (reset_temp t l) (tget l x).(next_copy)) as Hcn.
    { apply reset_copy; [done..|]. unfold last_copy. destruct (is_copy l t) eqn:Ec; [|done].
      apply bool_decide_eq_true in Ec. destruct (proj2 Hl t Ht Ec) as [_ _ NP' _ _ _].
      destruct (Z.eqb_spec (tget l x).(next_copy) (tget l t).(next_copy)) as [E|];
        [|by rewrite andb_false_r]. congruence. }
    split_and!; [done..| |done|done].
    destruct (reset_links l t Hl Ht _ Vn Hcn) as (_ & _ & _ & _ & ->).
    by rewrite NP, (proj2 (Z.eqb_neq x t)).
Qed.

Lemma reset_prev l t x :
  linked l -> valid t -> valid x -> copy (reset_temp t l) x ->
  let p := (tget (reset_temp t l) x).(prev_copy) in
  valid p /\ copy (reset_temp t l) p /\ (tget (reset_temp t l) p).(next_copy) = x.
Proof.
  intros Hl Ht Hx Hc. cbn zeta.
  destruct (reset_links l t Hl Ht x Hx Hc) as (Hne & Hcx & Hlx & _ & ->).
  destruct (proj2 Hl x Hx Hcx) as [_ [Vp Cp] _ PN _ _]. unfold last_copy in Hlx.
  destruct (Z.eqb_spec (tget l x).(prev_copy) t) as [Et|Et].
  - rewrite Et in *. destruct (proj2 Hl t Ht Cp) as [_ [Vp' Cp'] NP' PN' _ _].
    rewrite (bool_decide_eq_true_2 _ Cp : is_copy l t = true), PN in Hlx. cbn [andb] in Hlx.
    assert ((tget l t).(prev_copy) <> x) as Hxp
      by (intros E; rewrite <- E in Hlx; rewrite Z.eqb_refl in Hlx; done).
    assert (copy (reset_temp t l) (tget l t).(prev_copy)) as Hcn.
    { apply reset_copy; [done..|intros E; rewrite E in PN'; congruence|done|]. unfold last_copy.
      rewrite (bool_decide_eq_true_2 _ Cp : is_copy l t = true), PN, (proj2 (Z.eqb_neq _ x)); done. }
    split_and!; [done..|].
    destruct (reset_links l t Hl Ht _ Vp' Hcn) as (_ & _ & _ & -> & _).
    by rewrite PN', Z.eqb_refl.
  - assert (copy (reset_temp t l) (tget l x).(prev_copy)) as Hcn.
    { apply reset_copy; [done..|]. unfold last_copy. destruct (is_copy l t) eqn:Ec; [|done].
      apply bool_decide_eq_true in Ec. destruct (proj2 Hl t Ht Ec) as [_ _ _ PN' _ _].
      destruct (Z.eqb_spec (tget l t).(prev_copy) (tget l t).(next_copy)) as [E|]; [|done].
      destruct (Z.eqb_spec (tget l x).(prev_copy) (tget l t).(next_copy)) as [E'|]; [|done].
      cbn. congruence. }
    split_and!; [done..|].
    destruct (reset_links l t Hl Ht _ Vp Hcn) as (_ & _ & _ & -> & _).
    by rewrite PN, (proj2 (Z.eqb_neq x t)).
Qed.

Lemma linked_reset l t : linked l -> valid t -> linked (reset_temp t l).
Proof.
  intros Hl Ht. split; [rewrite length_reset; apply Hl|]. intros x Hx Hc.
  destruct (reset_next l t x Hl Ht Hx Hc) as (? & ? & ? & ? & ?).
  destruct (reset_prev l t x Hl Ht Hx Hc) as (? & ? & ?). by split.
Qed.

(** ** Adding a copy *)

Definition link (dst src : Z) (l : infos) : infos :=
  let l :=
    if is_copy l src then l
    else tupd src (fun i => set_prev src (set_next_copy src (set_state TCG_TEMP_COPY i))) l in
  let next := (tget l src).(next_copy) in
  let l := tupd dst (fun i => set_prev src (set_next_copy next (set_state TCG_TEMP_COPY i))) l in
  tupd src (set_next_copy dst) (tupd next (set_prev dst) l).

Section Link.
Context (l : infos) (dst src : Z).
Hypothesis Hl : linked l.
Hypothesis Hd : valid dst.
Hypothesis Hs : valid src.
Hypothesis Hne : dst <> src.
Hypothesis Hcd : ~ copy l dst.

(** The temporary behind the new one. *)
Definition behind : Z := if is_copy l src then (tget l src).(next_copy) else src.

Lemma behind_valid : valid behind /\ behind <> dst.
Proof.
  unfold behind. destruct (is_copy l src) eqn:Ec; [|done].
  apply bool_decide_eq_true in Ec. destruct (proj2 Hl src Hs Ec) as [[V C] _ _ _ _ _].
  split; [done|]. intros E. by rewrite E in C.
Qed.

Lemma length_link : length (link dst src l) = length l.
Proof. unfold link. rewrite !length_tupd. destruct (is_copy l src); by rewrite ?length_tupd. Qed.

Lemma tget_link x :
  valid x ->
  tget (link dst src l) x =
    if x =? src then
      mkInfo TCG_TEMP_COPY (if is_copy l src then (tget l src).(prev_copy) else dst) dst
        (tget l src).(val) (tget l src).(mask)
    else if x =? dst then mkInfo TCG_TEMP_COPY src behind (tget l dst).(val) (tget l dst).(mask)
    else if x =? behind then set_prev dst (tget l x) else tget l x.
Proof.
  intros Hx. pose proof (valid_bound l Hl _ Hd) as Bd. pose proof (valid_bound l Hl _ Hs) as Bs.
  pose proof (valid_bound l Hl _ Hx) as Bx. destruct behind_valid as [Vb Nb].
  apply (valid_bound l Hl) in Vb. unfold link, behind in *. destruct (is_copy l src) eqn:Ec.
  - apply bool_decide_eq_true in Ec. destruct (proj2 Hl src Hs Ec) as [_ _ _ _ Ot _].
    rewrite !tget_tupd by (rewrite ?length_tupd; lia). rewrite (proj2 (Z.eqb_neq src _)) by done.
    rewrite (proj2 (Z.eqb_neq src dst)), (proj2 (Z.eqb_neq (tget l src).(next_copy) dst)) by done.
    destruct (Z.eqb_spec x src) as [->|Hxs].
    { destruct (tget l src). cbn in *. by subst. }
    destruct (Z.eqb_spec x (tget l src).(next_copy)) as [->|]; [|done].
    by rewrite (proj2 (Z.eqb_neq _ dst)).
  - assert ((tget (tupd src (fun i => set_prev src (set_next_copy src (set_state TCG_TEMP_COPY i))) l)
      src).(next_copy) = src) as -> by (rewrite tget_tupd, Z.eqb_refl by lia; done).
    rewrite !tget_tupd by (rewrite ?length_tupd; lia).
    rewrite !Z.eqb_refl, (proj2 (Z.eqb_neq src dst)), (proj2 (Z.eqb_neq dst src)) by done.
    destruct (Z.eqb_spec x src) as [->|Hxs]; [done|]. by destruct (Z.eqb_spec x dst) as [->|].
Qed.

(** The temporaries that are copies afterwards. *)
Lemma copy_link x : valid x -> copy (link dst src l) x <-> x = src \/ x = dst \/ copy l x.
Proof.
  intros Hx. unfold copy. rewrite tget_link by done.
  destruct (Z.eqb_spec x src) as [->|]; [by split; auto|].
  destruct (Z.eqb_spec x dst) as [->|]; [by split; auto|].
  destruct (x =? behind); (split; [by auto|]); intros [?|[?|?]]; done.
Qed.

Hypothesis Hty : (tget s.(temps) src).(type) = (tget s.(temps) dst).(type).

Lemma ring_link_src : ring (link dst src l) src.
Proof.
  assert (tget (link dst src l) src = mkInfo TCG_TEMP_COPY
    (if is_copy l src then (tget l src).(prev_copy) else dst) dst (tget l src).(val) (tget l src).(mask))
    as E by (by rewrite tget_link, Z.eqb_refl).
  assert (tget (link dst src l) dst = mkInfo TCG_TEMP_COPY src behind (tget l dst).(val) (tget l dst).(mask))
    as E' by (by rewrite tget_link, (proj2 (Z.eqb_neq dst src)), Z.eqb_refl).
  assert (copy (link dst src l) dst) as Cd by (apply copy_link; auto).
  split; rewrite E; cbn [next_copy prev_copy]; [done| |by rewrite E'| |done|done].
  - destruct (is_copy l src) eqn:Ec; [|done]. apply bool_decide_eq_true in Ec.
    destruct (proj2 Hl src Hs Ec) as [_ [V C] _ _ _ _]. split; [done|]. apply copy_link; auto.
  - destruct (is_copy l src) eqn:Ec; [|by rewrite E'; cbn [next_copy]; unfold behind; rewrite Ec].
    apply bool_decide_eq_true in Ec. destruct (proj2 Hl src Hs Ec) as [_ [V C] _ PN Ot _].
    assert ((tget l src).(prev_copy) <> src) as Hps by (intros Eq; rewrite Eq in PN; done).
    rewrite tget_link, (proj2 (Z.eqb_neq _ src)), (proj2 (Z.eqb_neq _ dst));
      [|intros Eq; by rewrite Eq in C|done..].
    by destruct (_ =? behind).
Qed.

Lemma ring_link_dst : ring (link dst src l) dst.
Proof.
  destruct behind_valid as [Vb Nb].
  assert (tget (link dst src l) dst = mkInfo TCG_TEMP_COPY src behind (tget l dst).(val) (tget l dst).(mask))
    as E' by (by rewrite tget_link, (proj2 (Z.eqb_neq dst src)), Z.eqb_refl).
  assert (copy (link dst src l) src) as Cs by (apply copy_link; auto).
  assert (tget (link dst src l) src = mkInfo TCG_TEMP_COPY
    (if is_copy l src then (tget l src).(prev_copy) else dst) dst (tget l src).(val) (tget l src).(mask))
    as E by (by rewrite tget_link, Z.eqb_refl).
  split; rewrite E'; cbn [next_copy prev_copy]; [|done| |by rewrite E|done|].
  - split; [done|]. apply copy_link; [done|]. unfold behind. destruct (is_copy l src) eqn:Ec; [|auto].
    apply bool_decide_eq_true in Ec. right; right. apply (rg_next _ _ (proj2 Hl src Hs Ec)).
  - unfold behind in *. destruct (is_copy l src) eqn:Ec; [|by rewrite E].
    apply bool_decide_eq_true in Ec. destruct (proj2 Hl src Hs Ec) as [_ _ _ _ Ot _].
    rewrite tget_link, (proj2 (Z.eqb_neq _ src)), (proj2 (Z.eqb_neq _ dst)) by done.
    unfold behind. by rewrite (bool_decide_eq_true_2 _ Ec : is_copy l src = true), Z.eqb_refl.
  - unfold behind. destruct (is_copy l src) eqn:Ec; [|done]. apply bool_decide_eq_true in Ec.
    rewrite <- Hty. apply (rg_type _ _ (proj2 Hl src Hs Ec)).
Qed.

Lemma ring_link_other x : valid x -> x <> src -> x <> dst -> copy l x -> ring (link dst src l) x.
Proof.
  intros Hx Nxs Nxd Hc. destruct (proj2 Hl x Hx Hc) as [[Vn Cn] [Vp Cp] NP PN Ot Ty].
  assert ((tget (link dst src l) x).(next_copy) = (tget l x).(next_copy)) as En.
  { rewrite tget_link, (proj2 (Z.eqb_neq x src)), (proj2 (Z.eqb_neq x dst)) by done.
    by destruct (x =? behind). }
  assert ((tget l x).(next_copy) <> dst) as Nnd by (by intros E; rewrite E in Cn).
  assert ((tget l x).(prev_copy) <> dst) as Npd by (by intros E; rewrite E in Cp).
  assert (forall y, copy l y -> is_copy l y = true) as Hic by (intros y Hy; by apply bool_decide_eq_true_2).
  split.
  - rewrite En. split; [done|]. apply copy_link; auto.
  - rewrite tget_link, (proj2 (Z.eqb_neq x src)), (proj2 (Z.eqb_neq x dst)) by done.
    destruct (x =? behind); cbn; (split; [done|apply copy_link; auto]).
  - rewrite En, tget_link by done. rewrite (proj2 (Z.eqb_neq _ dst)) by done.
    destruct (Z.eqb_spec (tget l x).(next_copy) src) as [Es|Es].
    { rewrite Es in Cn, NP. by rewrite (Hic src Cn). }
    destruct (Z.eqb_spec (tget l x).(next_copy) behind) as [Eb|]; [|done].
    unfold behind in Eb. destruct (is_copy l src) eqn:Ec; [|done]. apply bool_decide_eq_true in Ec.
    pose proof (rg_next_prev _ _ (proj2 Hl src Hs Ec)) as Q. rewrite <- Eb, NP in Q. done.
  - destruct (Z.eqb_spec x behind) as [Eb|Nb].
    + rewrite (tget_link x), (proj2 (Z.eqb_neq x src)), (proj2 (Z.eqb_neq x dst)), <- Eb, Z.eqb_refl by done.
      cbn [set_prev prev_copy]. rewrite tget_link, (proj2 (Z.eqb_neq dst src)), Z.eqb_refl by done. done.
    + rewrite (tget_link x), (proj2 (Z.eqb_neq x src)), (proj2 (Z.eqb_neq x dst)), (proj2 (Z.eqb_neq x behind)) by done.
      rewrite tget_link by done. rewrite (proj2 (Z.eqb_neq _ dst)) by done.
      destruct (Z.eqb_spec (tget l x).(prev_copy) src) as [Es|Es].
      * exfalso. apply Nb. unfold behind. rewrite Es in Cp, PN. by rewrite (Hic src Cp).
      * by destruct (_ =? behind).
  - by rewrite En.
  - by rewrite En.
Qed.

Lemma linked_link : linked (link dst src l).
Proof.
  split; [rewrite length_link; apply Hl|]. intros x Hx Hc.
  destruct (decide (x = src)) as [->|Ns]; [apply ring_link_src|].
  destruct (decide (x = dst)) as [->|Nd]; [apply ring_link_dst|].
  apply ring_link_other; [done..|]. apply copy_link in Hc; [|done]. by destruct Hc as [?|[?|?]].
Qed.
End Link.

(** Changing a temporary that is no copy. *)
Lemma linked_tupd l t f :
  linked l -> valid t -> ~ copy l t -> (f (tget l t)).(state) <> TCG_TEMP_COPY -> linked (tupd t f l).
Proof.
  intros Hl Ht Hc Hf. split; [rewrite length_tupd; apply Hl|].
  pose proof (valid_bound l Hl _ Ht) as Bt.
  assert (forall x, valid x -> copy l x -> tget (tupd t f l) x = tget l x) as Ho.
  { intros x Hx Cx. rewrite tget_tupd; [|done|apply Hx]. destruct (Z.eqb_spec x t) as [->|]; done. }
  intros x Hx Cx. assert (copy l x) as Cx'.
  { unfold copy in Cx. rewrite tget_tupd in Cx; [|done|apply Hx].
    destruct (Z.eqb_spec x t) as [->|]; done. }
  destruct (proj2 Hl x Hx Cx') as [[Vn Cn] [Vp Cp] NP PN Ot Ty].
  split; rewrite (Ho x) by done; try done.
  - split; [done|]. unfold copy. by rewrite Ho.
  - split; [done|]. unfold copy. by rewrite Ho.
  - by rewrite Ho.
  - by rewrite Ho.
Qed.

(** ** Knowledge about values *)

(** The mask says no more than the value of a constant. *)
Definition mask_of (i : tcg_temp_info) : Z :=
  match i.(state) with TCG_TEMP_CONST => i.(val) | _ => ones end.

Record known (l : infos) (v : list Z) : Prop := {
  kn_linked : linked l;
  kn_length : length v = length s.(temps);
  kn_const : forall t, valid t -> (tget l t).(state) = TCG_TEMP_CONST ->
    rd s v t = wrap (tsize s t) (tget l t).(val);
  kn_copy : forall t, valid t -> copy l t -> rd s v (tget l t).(next_copy) = rd s v t;
  kn_bits : forall t, valid t -> (tget l t).(mask) = mask_of (tget l t)
}.

Lemma rd_set t u v :
  length v = length s.(temps) -> valid t -> rd s (tset t u v) t = wrap (tsize s t) u.
Proof.
  intros Hv Ht. unfold rd. rewrite tget_tset_same; [done|].
  unfold valid, nb_temps in Ht. by rewrite Hv.
Qed.

Lemma rd_other t u v x : 0 <= t -> 0 <= x -> x <> t -> rd s (tset t u v) x = rd s v x.
Proof. intros. unfold rd. by rewrite tget_tset_other. Qed.

Lemma ones_testbit k : 0 <= k < 64 -> Z.testbit ones k = true.
Proof.
  intros Hk. unfold ones. change (2 ^ 64 - 1) with (Z.ones 64). by apply Z.ones_spec_low.
Qed.

Lemma rd_bits v t k : Z.testbit (rd s v t) k = true -> 0 <= k < tsize s t.
Proof.
  intros Hk. destruct (Z.lt_ge_cases k 0) as [Hn|Hn]; [by rewrite Z.testbit_neg_r in Hk|].
  split; [done|]. destruct (Z.lt_ge_cases k (tsize s t)) as [|Hge]; [done|].
  pose proof (wsize_pos (tget (temps s) t).(type)) as Hw. fold (tsize s t) in Hw.
  unfold rd in Hk. rewrite (testbit_above (tsize s t)) in Hk; [done|apply wrap_range; lia|lia].
Qed.

Lemma tsize_le t : tsize s t <= 64.
Proof. unfold tsize. by destruct (type _). Qed.

Lemma testbit_wrap n x k : 0 <= k < n -> Z.testbit (wrap n x) k = Z.testbit x k.
Proof. intros. unfold wrap. apply Z.mod_pow2_bits_low. lia. Qed.

(** The mask covers the value. *)
Lemma kn_mask l v t k :
  known l v -> valid t -> Z.testbit (rd s v t) k = true -> Z.testbit (tget l t).(mask) k = true.
Proof.
  intros K Ht Hk. pose proof (rd_bits _ _ _ Hk) as Hr. pose proof (tsize_le t).
  rewrite (kn_bits _ _ K t Ht). unfold mask_of.
  destruct (state (tget l t)) eqn:Es; try (apply ones_testbit; lia).
  rewrite (kn_const _ _ K t Ht Es), testbit_wrap in Hk; done.
Qed.

Lemma kn_exact l v t :
  known l v -> valid t -> (tget l t).(state) = TCG_TEMP_CONST -> (tget l t).(mask) = (tget l t).(val).
Proof. intros K Ht Es. rewrite (kn_bits _ _ K t Ht). unfold mask_of. by rewrite Es. Qed.

(** A temporary about which nothing is known can take any value. *)
Lemma known_forget l v t u :
  known l v -> valid t -> known (reset_temp t l) (tset t u v).
Proof.
  intros [Hl Hv Kc Kp Kb] Ht. split.
  - by apply linked_reset.
  - by rewrite length_tset.
  - intros x Hx E. destruct (decide (x = t)) as [->|Hne].
    { by rewrite (proj1 (reset_self l t Hl Ht)) in E. }
    destruct (reset_state l t Hl Ht x Hx Hne) as (Es & Ev & _). rewrite Es in E.
    rewrite rd_other, Ev by (apply Ht || apply Hx || done). apply Kc; [done|].
    by destruct (last_copy l t x).
  - intros x Hx E. destruct (reset_links l t Hl Ht x Hx E) as (Hne & Cx & _ & En & _).
    destruct (reset_next l t x Hl Ht Hx E) as (Vn & Cn & _ & _ & _). rewrite En in *.
    assert ((if next_copy (tget l x) =? t then next_copy (tget l t) else next_copy (tget l x)) <> t) as Hnt.
    { intros Et. rewrite Et in Cn. unfold copy in Cn. by rewrite (proj1 (reset_self l t Hl Ht)) in Cn. }
    rewrite !rd_other by (apply Ht || apply Hx || apply Vn || done).
    destruct (Z.eqb_spec (next_copy (tget l x)) t) as [Et|]; [|by apply Kp].
    destruct (proj2 Hl x Hx Cx) as [[_ Ct] _ _ _ _ _]. rewrite Et in Ct.
    rewrite (Kp t Ht Ct), <- (Kp x Hx Cx), Et. done.
  - intros x Hx. unfold mask_of. destruct (decide (x = t)) as [->|Hne].
    { by destruct (reset_self l t Hl Ht) as [-> ->]. }
    destruct (reset_state l t Hl Ht x Hx Hne) as (-> & -> & ->). rewrite (Kb x Hx). unfold mask_of.
    destruct (last_copy l t x) eqn:Ec; [|done]. unfold last_copy in Ec. rewrite !andb_true_iff in Ec.
    destruct Ec as [[Cp _] ->%Z.eqb_eq]. apply bool_decide_eq_true in Cp.
    destruct (proj2 Hl t Ht Cp) as [[_ Cn] _ _ _ _ _]. unfold copy in Cn. by rewrite Cn.
Qed.

(** Changing what is known about a temporary that is no copy. *)
Lemma known_tupd l v t f :
  known l v -> valid t -> ~ copy l t -> (f (tget l t)).(state) <> TCG_TEMP_COPY ->
  ((f (tget l t)).(state) = TCG_TEMP_CONST -> rd s v t = wrap (tsize s t) (f (tget l t)).(val)) ->
  (f (tget l t)).(mask) = mask_of (f (tget l t)) -> known (tupd t f l) v.
Proof.
  intros [Hl Hv Kc Kp Kb] Ht Hc Hf Hconst Hmask. pose proof (valid_bound l Hl _ Ht) as Bt.
  split; [by apply linked_tupd|done|..].
  - intros x Hx. rewrite tget_tupd by (done || apply Hx). destruct (Z.eqb_spec x t) as [->|]; auto.
  - intros x Hx. unfold copy. rewrite tget_tupd by (done || apply Hx).
    destruct (Z.eqb_spec x t) as [->|]; [done|]. by apply Kp.
  - intros x Hx. rewrite tget_tupd by (done || apply Hx). destruct (Z.eqb_spec x t) as [->|]; auto.
Qed.

Lemma known_movi l v t x u :
  known l v -> valid t -> wrap (tsize s t) u = wrap (tsize s t) x ->
  known (tcg_opt_gen_movi t x l).2 (tset t u v).
Proof.
  intros K Ht E. pose proof (known_forget l v t u K Ht) as K'.
  destruct (reset_self l t (kn_linked _ _ K) Ht) as [Rs _].
  unfold tcg_opt_gen_movi. cbn [snd].
  apply known_tupd; [done|done|unfold copy; by rewrite Rs|done|..]; cbn [set_mask set_val val mask].
  - intros _. by rewrite rd_set by (done || apply (kn_length _ _ K)).
  - done.
Qed.

Lemma known_all l v :
  length l = length s.(temps) -> length v = length s.(temps) ->
  known (reset_all_temps (nb_temps s) l) v.
Proof.
  intros Hl Hv.
  assert (forall t, valid t -> exists i, tget (reset_all_temps (nb_temps s) l) t =
    set_mask ones (set_state TCG_TEMP_UNDEF i)) as Hr.
  { intros t Ht. unfold valid, nb_temps in Ht. unfold reset_all_temps, tget, nb_temps.
    destruct (lookup_lt_is_Some_2 l (Z.to_nat t)) as [i Ei]; [lia|]. exists i.
    rewrite Nat2Z.id, take_ge, drop_ge, app_nil_r by lia.
    by rewrite list_lookup_total_alt, list_lookup_fmap, Ei. }
  split; [split| | | |].
  - unfold reset_all_temps. rewrite length_app, length_fmap, <- length_app, take_drop. done.
  - intros t Ht. unfold copy. by destruct (Hr t Ht) as [i ->].
  - done.
  - intros t Ht. by destruct (Hr t Ht) as [i ->].
  - intros t Ht. unfold copy. by destruct (Hr t Ht) as [i ->].
  - intros t Ht. by destruct (Hr t Ht) as [i ->].
Qed.

Lemma known_link l v dst src :
  known l v -> valid dst -> valid src -> dst <> src -> ~ copy l dst ->
  (tget l dst).(state) <> TCG_TEMP_CONST -> (tget l src).(state) <> TCG_TEMP_CONST ->
  (tget s.(temps) src).(type) = (tget s.(temps) dst).(type) -> rd s v dst = rd s v src ->
  known (link dst src l) v.
Proof.
  intros [Hl Hv Kc Kp Kb] Hd Hs Hne Hcd Hcd' Hcs Hty Hrd.
  pose proof (tget_link l dst src Hl Hd Hs Hne Hcd) as G.
  split; [by apply linked_link|done|..].
  - intros x Hx. rewrite G by done. destruct (x =? src); [done|]. destruct (x =? dst); [done|].
    destruct (x =? behind l src); apply Kc; done.
  - intros x Hx Hc. apply copy_link in Hc; [|done..]. rewrite G by done.
    destruct (Z.eqb_spec x src) as [->|]; [done|]. destruct (Z.eqb_spec x dst) as [->|].
    + cbn [next_copy]. rewrite Hrd. unfold behind. destruct (is_copy l src) eqn:Ec; [|done].
      apply bool_decide_eq_true in Ec. by apply Kp.
    + destruct Hc as [?|[?|Hc]]; [done..|]. by destruct (x =? behind l src); apply Kp.
  - intros x Hx. rewrite G by done. pose proof (Kb src Hs) as Ms. pose proof (Kb dst Hd) as Md.
    unfold mask_of, copy in *. destruct (x =? src).
    { cbn. rewrite Ms. by destruct (state (tget l src)). }
    destruct (x =? dst); [|by destruct (x =? behind l src); apply Kb].
    cbn. rewrite Md. by destruct (state (tget l dst)).
Qed.

Lemma known_mov l v dst src u :
  known l v -> valid dst -> valid src -> dst <> src -> is_const l src = false ->
  tsize s dst <= tsize s src -> wrap (tsize s dst) u = wrap (tsize s dst) (tget v src) ->
  exists l', tcg_opt_gen_mov s dst src l = Ok ([dst; src], l') /\ known l' (tset dst u v).
Proof.
  intros K Hd Hs Hne Hc Hle E. pose proof (kn_linked _ _ K) as Hl.
  apply bool_decide_eq_false in Hc. unfold tcg_opt_gen_mov.
  destruct (reset_self l dst Hl Hd) as [Rs _].
  destruct (reset_state l dst Hl Hd src Hs (not_eq_sym Hne)) as (Ss & _ & Sm). rewrite Sm.
  set (l2 := tupd dst (set_mask (mask (tget l src))) (reset_temp dst l)).
  assert (known l2 (tset dst u v)) as K2.
  { apply known_tupd; [by apply known_forget|done|unfold copy; by rewrite Rs|..];
      unfold mask_of; cbn [set_mask state mask]; rewrite ?Rs; [done..|].
    rewrite (kn_bits _ _ K src Hs). unfold mask_of. by destruct (state (tget l src)). }
  assert (0 <= dst < Z.of_nat (length (reset_temp dst l))) as Bd
    by (rewrite length_reset; by apply valid_bound).
  assert ((tget l2 dst).(state) = TCG_TEMP_UNDEF) as Ed
    by (unfold l2; rewrite tget_tupd, Z.eqb_refl by (done || apply Hd); done).
  assert ((tget l2 src).(state) <> TCG_TEMP_CONST) as Es.
  { unfold l2. rewrite tget_tupd, (proj2 (Z.eqb_neq src dst)) by (done || apply Hs).
    rewrite Ss. by destruct (last_copy l dst src). }
  rewrite (bool_decide_eq_false_2 _ Es : is_const l2 src = false). cbn [guard_res negb res_bind mbind].
  eexists. split; [reflexivity|]. unfold same_type.
  case_bool_decide as Hty; [|done]. fold (link dst src l2).
  apply known_link; [done..|unfold copy; by rewrite Ed|by rewrite Ed|done|done|].
  rewrite rd_set, rd_other by (done || apply Hd || apply Hs || apply (kn_length _ _ K)).
  unfold rd. replace (tsize s src) with (tsize s dst); [done|]. unfold tsize. by rewrite Hty.
Qed.

(** ** Using the circular lists *)

Lemma nth_copy_value l v t k :
  known l v -> valid t -> copy l t -> rd s v (nth_copy l t k) = rd s v t.
Proof.
  intros K Ht Hc. pose proof (kn_linked _ _ K) as Hl. induction k as [|k IH]; [done|].
  destruct (nth_copy_valid l t k Hl Ht Hc) as [Hv Hk].
  by rewrite nth_copy_S, (kn_copy _ _ K _ Hv Hk).
Qed.

(** Two temporaries with the same value. *)
Record equal_temps (l : infos) (v : list Z) (a b : Z) : Prop := {
  eq_value : rd s v a = rd s v b;
  eq_type : (tget s.(temps) a).(type) = (tget s.(temps) b).(type);
  eq_how : a = b \/ copy l a /\ copy l b
}.

Lemma copies_spec l v a b :
  known l v -> valid a -> valid b ->
  exists r, temps_are_copies a b l = Ok r /\ (r = true -> equal_temps l v a b).
Proof.
  intros K Ha Hb. pose proof (kn_linked _ _ K) as Hl. unfold temps_are_copies.
  destruct (Z.eqb_spec a b) as [->|Hne]; [exists true; split; [done|]; intros _; by split; auto|].
  destruct (is_copy l a) eqn:Ca; [|by exists false]. destruct (is_copy l b) eqn:Cb; [|by exists false].
  cbn [negb orb]. apply bool_decide_eq_true in Ca, Cb.
  destruct (search_spec l (fun i => i =? b) a Hl Ha Ca) as (r & -> & Hr). eexists. split; [reflexivity|].
  intros [i ->]%bool_decide_eq_true. destruct (Hr i eq_refl) as (->%Z.eqb_eq & k & ->). split.
  - by rewrite nth_copy_value.
  - symmetry. by apply nth_copy_type.
  - auto.
Qed.

Lemma better_spec l v t :
  known l v -> valid t -> copy l t ->
  exists t', find_better_copy s t l = Ok t' /\ valid t' /\ equal_temps l v t' t.
Proof.
  intros K Ht Hc. pose proof (kn_linked _ _ K) as Hl.
  assert (equal_temps l v t t) as He by (split; auto).
  assert (forall k, valid (nth_copy l t k) /\ equal_temps l v (nth_copy l t k) t) as Hk.
  { intros k. destruct (nth_copy_valid l t k Hl Ht Hc) as [Hv Hck]. split; [done|]. split.
    - by apply nth_copy_value.
    - by apply nth_copy_type.
    - auto. }
  unfold find_better_copy. destruct (t <? nb_globals s); [by eauto|].
  destruct (search_spec l (fun i => i <? nb_globals s) t Hl Ht Hc) as (r & -> & Hr).
  destruct r as [i|]; cbn [mbind res_bind].
  { destruct (Hr i eq_refl) as (_ & k & ->). eexists. split; [reflexivity|]. apply Hk. }
  destruct (temp_local _); [by eauto|].
  destruct (search_spec l (fun i => temp_local (tget (temps s) i)) t Hl Ht Hc) as (r & -> & Hr').
  destruct r as [i|]; cbn [mbind res_bind default]; [|by eauto].
  destruct (Hr' i eq_refl) as (_ & k & ->). eexists. split; [reflexivity|]. apply Hk.
Qed.

(** Replacing inputs by copies. *)
Lemma propagate_spec l v n : forall k a,
  known l v -> (k + n <= length a)%nat ->
  (forall j, (k <= j < k + n)%nat -> valid (arg a j)) ->
  exists a', propagate s k n a l = Ok a' /\ length a' = length a /\
    (forall j, (k <= j < k + n)%nat -> valid (arg a' j) /\ equal_temps l v (arg a' j) (arg a j)) /\
    (forall j, ~ (k <= j < k + n)%nat -> a' !! j = a !! j).
Proof.
  induction n as [|n IH]; intros k a K Hlen Hv; cbn [propagate].
  { exists a. split_and!; [done..|intros; lia|done]. }
  assert (exists x, (if is_copy l (arg a k) then find_better_copy s (arg a k) l else Ok (arg a k)) = Ok x /\
    valid x /\ equal_temps l v x (arg a k)) as (x & -> & Vx & Ex).
  { destruct (is_copy l (arg a k)) eqn:Ec.
    - apply bool_decide_eq_true in Ec. apply better_spec; [done|apply Hv; lia|done].
    - eexists. split; [done|]. split; [apply Hv; lia|]. by split; auto. }
  cbn [mbind res_bind].
  destruct (IH (S k) (<[k:=x]> a) K) as (a' & -> & Hl & Hin & Hout).
  { rewrite length_insert. lia. }
  { intros j Hj. unfold arg. rewrite list_lookup_total_insert_ne by lia. apply Hv. lia. }
  exists a'. rewrite length_insert in Hl. split_and!; [done..| |].
  - intros j Hj. destruct (decide (j = k)) as [->|Hne].
    + unfold arg. rewrite (list_lookup_total_alt a'), Hout by lia.
      rewrite list_lookup_insert_eq by lia. done.
    + destruct (Hin j) as [Hv' He]; [lia|]. split; [done|].
      unfold arg in He at 2. by rewrite list_lookup_total_insert_ne in He by lia.
  - intros j Hj. rewrite Hout by lia. apply list_lookup_insert_ne. lia.
Qed.
End Known.
