(* ===== verification/OptValues.v ===== *)
(** * Constants and known bits

    Folding computes the value of the operation, and the masks of the optimizer
    contain every bit that the value can have. *)

From S2P Require Import Prelude X86 TcgOut TcgEnc TcgEmit TcgCond TcgOpDefs TcgSem TcgIR Optimize.
From S2P Require Import OptCopies.

(** ** Bits of words *)

Lemma wrap_ext n a b :
  0 <= n -> (forall k, 0 <= k < n -> Z.testbit a k = Z.testbit b k) -> wrap n a = wrap n b.
Proof.
  intros Hn H. apply Z.bits_inj'. intros k Hk. unfold wrap.
  destruct (Z.lt_ge_cases k n).
  - rewrite !Z.mod_pow2_bits_low by lia. apply H. lia.
  - rewrite !Z.mod_pow2_bits_high by lia. done.
Qed.

Lemma wrap_zero n a :
  0 <= n -> (forall k, 0 <= k < n -> Z.testbit a k = false) -> wrap n a = 0.
Proof.
  intros Hn H. transitivity (wrap n 0); [|done]. apply wrap_ext; [done|].
  intros k Hk. by rewrite H, Z.bits_0.
Qed.

Lemma wrap_testbit n a b k : wrap n a = wrap n b -> 0 <= k < n -> Z.testbit a k = Z.testbit b k.
Proof. intros E Hk. rewrite <- (testbit_wrap n a), <- (testbit_wrap n b) by done. by rewrite E. Qed.

Lemma testbit_wrap_high n a k : 0 <= n <= k -> Z.testbit (wrap n a) k = false.
Proof. intros. unfold wrap. by apply Z.mod_pow2_bits_high. Qed.

Lemma wrap_land_r n a b : 0 <= n -> wrap n (Z.land a b) = Z.land (wrap n a) (wrap n b).
Proof.
  intros Hn. apply Z.bits_inj'. intros k Hk. rewrite Z.land_spec. destruct (Z.lt_ge_cases k n).
  - rewrite !testbit_wrap by lia. apply Z.land_spec.
  - by rewrite !testbit_wrap_high.
Qed.

Lemma wrap_lor_r n a b : 0 <= n -> wrap n (Z.lor a b) = Z.lor (wrap n a) (wrap n b).
Proof.
  intros Hn. apply Z.bits_inj'. intros k Hk. rewrite Z.lor_spec. destruct (Z.lt_ge_cases k n).
  - rewrite !testbit_wrap by lia. apply Z.lor_spec.
  - by rewrite !testbit_wrap_high.
Qed.

Lemma wrap_lxor_r n a b : 0 <= n -> wrap n (Z.lxor a b) = Z.lxor (wrap n a) (wrap n b).
Proof.
  intros Hn. apply Z.bits_inj'. intros k Hk. rewrite Z.lxor_spec. destruct (Z.lt_ge_cases k n).
  - rewrite !testbit_wrap by lia. apply Z.lxor_spec.
  - by rewrite !testbit_wrap_high.
Qed.

Lemma wrap_shiftl n a c : 0 <= c -> wrap n (Z.shiftl (wrap n a) c) = wrap n (Z.shiftl a c).
Proof.
  intros Hc. rewrite !Z.shiftl_mul_pow2 by done. unfold wrap. apply Zmult_mod_idemp_l.
Qed.

(** The bits of the sign extension. *)
Lemma testbit_swrap n a k :
  0 < n -> 0 <= k -> Z.testbit (swrap n a) k = Z.testbit a (if k <? n then k else n - 1).
Proof.
  intros Hn Hk. destruct (Z.ltb_spec k n) as [Hlt|Hge].
  { apply (wrap_testbit n); [by apply wrap_swrap|lia]. }
  rewrite <- (testbit_wrap n a (n - 1)) by lia.
  pose proof (wrap_range n a ltac:(lia)) as Hr. unfold in_u in Hr.
  assert (2 ^ n = 2 * 2 ^ (n - 1)) as E2 by (rewrite <- Z.pow_succ_r by lia; f_equal; lia).
  assert (Z.testbit (wrap n a) (n - 1) = negb (wrap n a <? 2 ^ (n - 1))) as ->.
  { rewrite Z.testbit_odd, Z.shiftr_div_pow2 by lia. destruct (Z.ltb_spec (wrap n a) (2 ^ (n - 1))).
    - by rewrite Z.div_small by lia.
    - replace (wrap n a) with (wrap n a - 2 ^ (n - 1) + 1 * 2 ^ (n - 1)) by lia.
      rewrite Z.div_add by lia. by rewrite Z.div_small by lia. }
  pose proof (swrap_range n a Hn) as Hs. unfold in_s in Hs.
  rewrite <- (swrap_wrap n a Hn) in *. rewrite (swrap_of_u n) by done.
  destruct (Z.ltb_spec (wrap n a) (2 ^ (n - 1))) as [H|H].
  - apply (testbit_above n); [done|lia].
  - replace (wrap n a - 2 ^ n) with (- (2 ^ n - 1 - wrap n a) - 1) by lia.
    replace (- (2 ^ n - 1 - wrap n a) - 1) with (Z.lnot (2 ^ n - 1 - wrap n a)) by (unfold Z.lnot; lia).
    rewrite Z.lnot_spec by lia. f_equal. apply (testbit_above n); [unfold in_u; lia|lia].
Qed.

Lemma swrap_wrap_le k n x : 0 < k <= n -> swrap k (wrap n x) = swrap k x.
Proof. intros H. apply swrap_cong. apply wrap_wrap_le. lia. Qed.

(** ** Folding *)

(** A result of 32 bits loses its upper half. *)
Lemma folding_wrap op r :
  wrap (op_bits op) (if op_bits op =? 32 then Z.land r 0xffffffff else r) = wrap (op_bits op) r.
Proof.
  destruct (Z.eqb_spec (op_bits op) 32) as [->|]; [|done].
  change 0xffffffff with (Z.ones 32). rewrite <- (wrap_land 32) by lia. apply wrap_wrap.
Qed.

Lemma type_cases t : wsize t = 32 \/ wsize t = 64.
Proof. destruct t; auto. Qed.

(** A count below the width is taken as it is. *)
Lemma count_mod n y : 0 < n -> wrap n y < n -> wrap n y mod n = wrap n y.
Proof.
  intros Hn H. pose proof (wrap_range n y ltac:(lia)) as Hr. unfold in_u in Hr.
  apply Z.mod_small. lia.
Qed.

Lemma wrap_shifted n x : 0 <= n -> wrap n (Z.shiftl x n) = 0.
Proof.
  intros Hn. apply wrap_zero; [done|]. intros k Hk. apply Z.shiftl_spec_low. lia.
Qed.

Lemma ror_value n x y :
  0 < n -> 0 <= y < n ->
  wrap n (ror n x y) = wrap n (Z.lor (Z.shiftr (wrap n x) y) (Z.shiftl (wrap n x) (n - y))).
Proof.
  intros Hn Hy. unfold ror, cshr, cshl. rewrite (Z.mod_small y) by done.
  rewrite !wrap_lor_r, wrap_wrap, (wrap_shiftl n x) by lia.
  destruct (Z.eq_dec y 0) as [->|Hnz]; [|by rewrite (Z.mod_small (n - y)) by lia].
  rewrite Z.sub_0_r, Z.mod_same, Z.shiftr_0_r, Z.shiftl_0_r, wrap_shifted, wrap_wrap by lia.
  by rewrite Z.lor_diag, Z.lor_0_r.
Qed.

Lemma rol_value n x y :
  0 < n -> 0 <= y < n ->
  wrap n (rol n x y) = wrap n (Z.lor (Z.shiftl (wrap n x) y) (Z.shiftr (wrap n x) (n - y))).
Proof.
  intros Hn Hy. unfold rol, cshr, cshl. rewrite (Z.mod_small y) by done.
  rewrite !wrap_lor_r, wrap_wrap, (wrap_shiftl n x) by lia.
  destruct (Z.eq_dec y 0) as [->|Hnz]; [|by rewrite (Z.mod_small (n - y)) by lia].
  rewrite Z.sub_0_r, Z.mod_same, Z.shiftr_0_r, Z.shiftl_0_r, wrap_wrap by lia.
  rewrite (Z.shiftr_div_pow2 _ n), (Z.div_small (wrap n x)) by
    (lia || apply wrap_range; lia). change (wrap n 0) with (0 mod 2 ^ n). rewrite Z.mod_0_l by lia.
  by rewrite Z.lor_diag, Z.lor_0_r.
Qed.

Lemma op_bits_binop op o t : binop_of op = Some (o, t) -> op_bits op = wsize t.
Proof. destruct op; intros H; cbn in H; simplify_eq; match goal with t : TCGType |- _ => by destruct t end. Qed.

Lemma op_bits_unop op u : unop_of op = Some u -> op_bits op = wsize (unop_type u).
Proof.
  destruct op; intros H; cbn in H; simplify_eq; try done; match goal with t : TCGType |- _ => by destruct t end.
Qed.

(** A shift count is the same number at both widths. *)
Lemma small_count t y k :
  wrap (wsize t) y < wsize t -> 6 <= k -> k <= wsize t -> wrap k y = wrap (wsize t) y.
Proof.
  intros H H6 Hk. pose proof (wsize_pos t) as Hn. pose proof (wrap_range (wsize t) y ltac:(lia)) as Hr.
  unfold in_u in Hr. rewrite <- (wrap_wrap_le k (wsize t)) by lia. apply wrap_id. unfold in_u.
  split; [lia|]. assert (2 ^ 6 <= 2 ^ k) by (apply Z.pow_le_mono_r; lia).
  destruct (type_cases t) as [E|E]; rewrite E in *; lia.
Qed.

Lemma folding_binop op o t x y :
  binop_of op = Some (o, t) -> let n := wsize t in
  exists r, do_constant_folding op x y = Ok r /\
    (binop_defined o n (wrap n y) = true ->
     wrap n r = wrap n (binop_value o n (wrap n x) (wrap n y))).
Proof.
  intros Ho n. pose proof (op_bits_binop op o t Ho) as Hb. unfold do_constant_folding.
  assert (exists r, do_constant_folding_2 op x y = Ok r /\
    (binop_defined o n (wrap n y) = true ->
     wrap n r = wrap n (binop_value o n (wrap n x) (wrap n y)))) as (r & -> & Hr).
  { assert (0 < n) as Hn by apply wsize_pos. pose proof (wrap_range n y ltac:(lia)) as Hy.
    unfold in_u in Hy. assert (n <= 64) as Hle by (unfold n; by destruct t).
    unfold binop_defined.
    destruct op; try discriminate Ho; injection Ho as <- ->; fold n;
      (eexists; split; [reflexivity|]); cbn [is_shift negb orb binop_value]; fold n; intros Hd.
    - rewrite wrap_wrap_le, wrap_wrap, wrap_add_l, wrap_add_r by lia. done.
    - rewrite wrap_wrap_le, wrap_wrap, wrap_sub_l, wrap_sub_r by lia. done.
    - rewrite wrap_wrap_le, wrap_wrap by lia. unfold wrap. apply Zmult_mod.
    - rewrite !wrap_land_r, !wrap_wrap by lia. done.
    - rewrite !wrap_lor_r, !wrap_wrap by lia. done.
    - rewrite !wrap_lxor_r, !wrap_wrap by lia. done.
    - apply Z.ltb_lt in Hd. unfold cshl. rewrite count_mod, !wrap_wrap, wrap_shiftl by lia. done.
    - apply Z.ltb_lt in Hd. unfold cshr. rewrite count_mod by lia. done.
    - apply Z.ltb_lt in Hd. unfold csar. rewrite count_mod, wrap_wrap_le, wrap_wrap, swrap_wrap by lia. done.
    - apply Z.ltb_lt in Hd. rewrite (small_count t y 32) by (fold n; destruct (type_cases t); lia).
      fold n. rewrite wrap_wrap, rol_value by lia. done.
    - apply Z.ltb_lt in Hd. rewrite (small_count t y 32) by (fold n; destruct (type_cases t); lia).
      fold n. rewrite wrap_wrap, ror_value by lia. done. }
  cbn [mbind res_bind]. eexists. split; [reflexivity|]. intros Hd. rewrite <- Hr by done.
  unfold n. rewrite <- Hb. apply folding_wrap.
Qed.

(** The unary operations that are folded. *)
Definition folded_unop (u : unop) : bool :=
  match u with UBswap16 _ | UBswap32 _ | UBswap64 => false | _ => true end.

Lemma folding_unop op u x y :
  unop_of op = Some u -> folded_unop u = true -> let n := wsize (unop_type u) in
  exists r, do_constant_folding op x y = Ok r /\ wrap n r = wrap n (unop_value u n (wrap n x)).
Proof.
  intros Hu Hf n. pose proof (op_bits_unop op u Hu) as Hb. unfold do_constant_folding.
  assert (exists r, do_constant_folding_2 op x y = Ok r /\
    wrap n r = wrap n (unop_value u n (wrap n x))) as (r & -> & Hr).
  { assert (0 < n) as Hn by apply wsize_pos. assert (32 <= n <= 64) as Hle by (unfold n; by destruct (unop_type u)).
    destruct op; cbn in Hu; simplify_eq; try discriminate Hf; fold n;
      (eexists; split; [reflexivity|]); cbn [unop_value]; fold n.
    - rewrite wrap_wrap_le, wrap_wrap by lia. by rewrite <- (Z.sub_0_l (wrap n x)), wrap_sub_r.
    - unfold not64. rewrite wrap_wrap_le, wrap_wrap by lia. apply wrap_ext; [lia|]. intros k Hk.
      rewrite !Z.lnot_spec, testbit_wrap by lia. done.
    - by rewrite wrap_wrap_le, wrap_wrap, (swrap_wrap_le 8 n) by lia.
    - by rewrite wrap_wrap_le, wrap_wrap, (swrap_wrap_le 16 n) by lia.
    - by rewrite (wrap_wrap_le 8 n) by lia.
    - by rewrite (wrap_wrap_le 16 n) by lia.
    - by rewrite wrap_wrap_le, wrap_wrap, (swrap_wrap_le 32 n) by lia.
    - by rewrite (wrap_wrap_le 32 n) by lia. }
  cbn [mbind res_bind]. eexists. split; [reflexivity|]. rewrite <- Hr.
  unfold n. rewrite <- Hb. apply folding_wrap.
Qed.

(** Conditions. *)
Lemma folding_cond_value c n x y :
  nontrivial c = true -> folding_cond n x y c = Ok (eval_cond c n x y).
Proof. by destruct c. Qed.

Lemma folding_cond_same c n x :
  nontrivial c = true -> do_constant_folding_cond_eq c = Ok (eval_cond c n x x).
Proof.
  destruct c; try done; intros _; cbn [do_constant_folding_cond_eq eval_cond]; f_equal; symmetry;
    lia.
Qed.

Lemma swap_cond_value c :
  nontrivial c = true ->
  exists c', cond_of (tcg_swap_cond (cond_code c)) = Some c' /\ nontrivial c' = true /\
    forall n a b, eval_cond c' n b a = eval_cond c n a b.
Proof.
  destruct c; intros H; try discriminate H; (eexists; split; [reflexivity|]); (split; [done|]);
    intros n a b; cbn [eval_cond]; try done; by rewrite Z.eqb_sym.
Qed.

Lemma invert_cond_value c :
  nontrivial c = true ->
  exists c', cond_of (tcg_invert_cond (cond_code c)) = Some c' /\ nontrivial c' = true /\
    forall n a b, eval_cond c' n a b = negb (eval_cond c n a b).
Proof.
  destruct c; intros H; try discriminate H; (eexists; split; [reflexivity|]); (split; [done|]);
    intros n a b; cbn [eval_cond]; lia.
Qed.

Lemma cond_of_inv z c : cond_of z = Some c -> z = cond_code c.
Proof.
  unfold cond_of. intros H. repeat (case_match; try discriminate); injection H as <-; done.
Qed.

(** ** Known bits *)

(** Every bit of the [n]-bit word [x] is in [m]. *)
Definition covers (n m x : Z) : Prop :=
  forall k, 0 <= k < n -> Z.testbit x k = true -> Z.testbit m k = true.

Lemma covers_zero n x : 0 <= n -> covers n 0 x -> wrap n x = 0.
Proof.
  intros Hn H. apply wrap_zero; [done|]. intros k Hk. destruct (Z.testbit x k) eqn:E; [|done].
  apply H in E; [|done]. by rewrite Z.bits_0 in E.
Qed.

Lemma covers_wrap n m x : covers n m (wrap n x) <-> covers n m x.
Proof. split; intros H k Hk; specialize (H k Hk); by rewrite testbit_wrap in *. Qed.

Lemma covers_land n m1 m2 x y : covers n m1 x -> covers n m2 y -> covers n (Z.land m1 m2) (Z.land x y).
Proof.
  intros H1 H2 k Hk. rewrite !Z.land_spec. intros [Hx Hy]%andb_true_iff.
  by rewrite (H1 k Hk Hx), (H2 k Hk Hy).
Qed.

Lemma covers_lor n m1 m2 x y : covers n m1 x -> covers n m2 y -> covers n (Z.lor m1 m2) (Z.lor x y).
Proof.
  intros H1 H2 k Hk. rewrite !Z.lor_spec. intros [Hx|Hy]%orb_true_iff.
  - by rewrite (H1 k Hk Hx).
  - by rewrite (H2 k Hk Hy), orb_true_r.
Qed.

Lemma covers_lxor n m1 m2 x y : covers n m1 x -> covers n m2 y -> covers n (Z.lor m1 m2) (Z.lxor x y).
Proof.
  intros H1 H2 k Hk. rewrite Z.lor_spec, Z.lxor_spec.
  destruct (Z.testbit x k) eqn:Ex; [by rewrite (H1 k Hk Ex)|].
  destruct (Z.testbit y k) eqn:Ey; [by rewrite (H2 k Hk Ey), orb_true_r|done].
Qed.

Lemma covers_or_l n m1 m2 x : covers n m1 x -> covers n (Z.lor m1 m2) x.
Proof. intros H k Hk Hx. by rewrite Z.lor_spec, (H k Hk Hx). Qed.

Lemma covers_or_r n m1 m2 x : covers n m2 x -> covers n (Z.lor m1 m2) x.
Proof. intros H k Hk Hx. by rewrite Z.lor_spec, (H k Hk Hx), orb_true_r. Qed.

Lemma covers_shl n m x c :
  n <= 64 -> 0 <= c < 64 -> covers n m x -> covers n (cshl 64 m c) (Z.shiftl x c).
Proof.
  intros Hn Hc H k Hk. unfold cshl. rewrite testbit_wrap, (Z.mod_small c) by lia.
  rewrite !Z.shiftl_spec by lia. destruct (Z.lt_ge_cases k c); [by rewrite !Z.testbit_neg_r by lia|].
  apply H. lia.
Qed.

Lemma covers_shr n m x c :
  0 <= c < n -> covers n m x -> covers n (cshr n m c) (Z.shiftr (wrap n x) c).
Proof.
  intros Hc H k Hk. unfold cshr. rewrite (Z.mod_small c), !Z.shiftr_spec by lia.
  destruct (Z.lt_ge_cases (k + c) n).
  - rewrite !testbit_wrap by lia. apply H. lia.
  - by rewrite testbit_wrap_high by lia.
Qed.

Lemma covers_sar n m x c :
  n <= 64 -> 0 <= c < n -> covers n m x -> covers n (u64 (csar n m c)) (Z.shiftr (swrap n x) c).
Proof.
  intros Hn Hc H k Hk. unfold csar. rewrite testbit_wrap by lia.
  rewrite (Z.mod_small c), !Z.shiftr_spec, !testbit_swrap by lia.
  apply H. destruct (Z.ltb_spec (k + c) n); lia.
Qed.

(** The lowest bit of a word survives the negation. *)
Lemma neg_mask m : u64 (- Z.land m (u64 (- m))) = 0 -> u64 m = 0.
Proof.
  intros E. assert (u64 (Z.land m (u64 (- m))) = 0) as E1.
  { unfold wrap in *. apply Z.mod_divide in E; [|lia]. apply Z.mod_divide; [lia|].
    by apply Z.divide_opp_r. }
  rewrite wrap_land_r, wrap_wrap in E1 by lia.
  pose proof (wrap_range 64 m ltac:(lia)) as Hr. unfold in_u in Hr.
  destruct (Z.eq_dec (u64 m) 0) as [|Hnz]; [done|]. exfalso.
  assert (Z.ldiff (u64 m) (u64 m - 1) = 0) as Hd.
  { rewrite <- E1. apply Z.bits_inj'. intros k Hk. rewrite Z.ldiff_spec, Z.land_spec.
    destruct (Z.lt_ge_cases k 64); [|by rewrite (testbit_wrap_high 64 m k)].
    f_equal. rewrite <- Z.lnot_spec by done. rewrite testbit_wrap by lia.
    apply (wrap_testbit 64); [|lia]. unfold Z.lnot. rewrite <- (Z.sub_0_l m), <- wrap_sub_r. f_equal. lia. }
  apply Z.ldiff_le in Hd; lia.
Qed.

Lemma covers_neg n m x :
  0 <= n <= 64 -> u64 (- Z.land m (u64 (- m))) = 0 -> covers n m x -> wrap n (- x) = 0.
Proof.
  intros Hn E H. apply neg_mask in E. assert (wrap n x = 0) as Ex.
  { apply covers_zero; [lia|]. intros k Hk Hx. apply H in Hx; [|done].
    rewrite <- (testbit_wrap 64), E, Z.bits_0 in Hx by lia. done. }
  by rewrite <- (Z.sub_0_l x), <- wrap_sub_r, Ex.
Qed.

(** An operation that clears no bit. *)
Lemma unaffected n m c x :
  0 <= n <= 64 -> covers n m x -> Z.land m (not64 c) = 0 -> covers n c x.
Proof.
  intros Hn H E k Hk Hx. pose proof (H k Hk Hx) as Hm.
  assert (Z.testbit (Z.land m (not64 c)) k = false) as Hb by (by rewrite E, Z.bits_0).
  rewrite Z.land_spec, Hm in Hb. cbn in Hb. unfold not64 in Hb.
  rewrite testbit_wrap, Z.lnot_spec in Hb by lia. by destruct (Z.testbit c k).
Qed.

(** Sign and zero extension agree where the sign bit is clear. *)
Lemma ext_same n k x :
  0 <= n -> 0 < k -> Z.testbit x (k - 1) = false -> wrap n (swrap k x) = wrap n (wrap k x).
Proof.
  intros Hn Hk Hx. apply wrap_ext; [done|].
  intros j Hj. rewrite testbit_swrap by lia. destruct (Z.ltb_spec j k).
  - by rewrite testbit_wrap by lia.
  - by rewrite Hx, testbit_wrap_high by lia.
Qed.

(** ** Bit fields *)

Lemma field_mod pos len x : 0 <= pos -> 0 <= len -> 2 ^ pos * field pos len x = wrap (pos + len) x - wrap pos x.
Proof.
  intros Hp Hl. unfold field, wrap. rewrite Z.pow_add_r by done.
  rewrite (Z.rem_mul_r x (2 ^ pos) (2 ^ len)) by lia. lia.
Qed.

Lemma deposit_testbit pos len x y k :
  0 <= pos -> 0 <= len -> 0 <= k ->
  Z.testbit (deposit_value pos len x y) k =
    if (pos <=? k) && (k <? pos + len) then Z.testbit y (k - pos) else Z.testbit x k.
Proof.
  intros Hp Hl Hk. unfold deposit_value. rewrite field_mod by done.
  set (hi := x / 2 ^ (pos + len)).
  assert (x = hi * 2 ^ (pos + len) + wrap (pos + len) x) as Ex
    by (unfold hi, wrap; rewrite Z.mul_comm; apply Z.div_mod; lia).
  assert (x - (wrap (pos + len) x - wrap pos x) + 2 ^ pos * wrap len y =
    Z.lor (Z.shiftl hi (pos + len)) (Z.lor (Z.shiftl (wrap len y) pos) (wrap pos x))) as ->.
  { pose proof (wrap_range pos x Hp) as Rx. pose proof (wrap_range len y Hl) as Ry.
    rewrite (Z.lor_comm _ (wrap pos x)), lor_shiftl_add by done.
    rewrite Z.lor_comm, lor_shiftl_add by (unfold in_u in *; rewrite ?Z.pow_add_r by lia; nia). lia. }
  rewrite !Z.lor_spec, !Z.shiftl_spec by done. unfold hi. rewrite <- Z.shiftr_div_pow2 by lia.
  destruct (Z.leb_spec pos k); cbn [andb].
  - rewrite (testbit_wrap_high pos x) by lia. rewrite orb_false_r.
    destruct (Z.ltb_spec k (pos + len)).
    + rewrite (Z.testbit_neg_r _ (k - (pos + len))), testbit_wrap by lia. done.
    + rewrite (testbit_wrap_high len), Z.shiftr_spec by lia. rewrite orb_false_r. f_equal. lia.
  - rewrite !(Z.testbit_neg_r _ (k - _)), testbit_wrap by lia. done.
Qed.

(** The field of the optimizer: [tmp << pos]. *)
Lemma field_mask pos len k :
  0 <= pos -> 0 < len -> pos + len <= 64 -> len < 64 -> 0 <= k < 64 ->
  let tmp := u64 (cshl 64 1 len - 1) in
  Z.testbit (cshl 64 tmp pos) k = (pos <=? k) && (k <? pos + len) /\
  forall y, Z.testbit (cshl 64 (Z.land y tmp) pos) k = (pos <=? k) && (k <? pos + len) && Z.testbit y (k - pos).
Proof.
  intros Hp Hl Hle Hl' Hk. cbn zeta.
  assert (u64 (cshl 64 1 len - 1) = Z.ones len) as ->.
  { unfold cshl. rewrite (Z.mod_small len), Z.shiftl_1_l by lia. rewrite wrap_sub_l.
    rewrite Z.ones_equiv. apply wrap_id. unfold in_u.
    assert (2 ^ len <= 2 ^ 64) by (apply Z.pow_le_mono_r; lia).
    pose proof (Z.pow_pos_nonneg 2 len). lia. }
  unfold cshl. split; [|intros y]; rewrite testbit_wrap, (Z.mod_small pos) by lia;
    rewrite Z.shiftl_spec, ?Z.land_spec by lia; destruct (Z.leb_spec pos k); cbn [andb];
    try (by rewrite !Z.testbit_neg_r by lia).
  - destruct (Z.ltb_spec k (pos + len)); [apply Z.ones_spec_low|apply Z.ones_spec_high]; lia.
  - destruct (Z.ltb_spec k (pos + len)); [rewrite Z.ones_spec_low by lia; apply andb_true_r|].
    rewrite Z.ones_spec_high by lia. apply andb_false_r.
Qed.

(** The value that the optimizer computes. *)
Definition deposit_folded (pos len x y : Z) : Z :=
  let tmp := u64 (cshl 64 1 len - 1) in
  Z.lor (Z.land x (not64 (cshl 64 tmp pos))) (cshl 64 (Z.land y tmp) pos).

Lemma deposit_folded_testbit pos len x y k :
  0 <= pos -> 0 < len -> pos + len <= 64 -> len < 64 -> 0 <= k < 64 ->
  Z.testbit (deposit_folded pos len x y) k =
    if (pos <=? k) && (k <? pos + len) then Z.testbit y (k - pos) else Z.testbit x k.
Proof.
  intros Hp Hl Hle Hl' Hk. destruct (field_mask pos len k Hp Hl Hle Hl' Hk) as [F1 F2].
  unfold deposit_folded, not64. rewrite Z.lor_spec, Z.land_spec, F2, testbit_wrap, Z.lnot_spec, F1 by lia.
  destruct ((pos <=? k) && (k <? pos + len)); cbn [negb andb]; [by rewrite andb_false_r|].
  by rewrite andb_true_r, orb_false_r.
Qed.

Lemma deposit_folded_value n pos len x y :
  0 <= pos -> 0 < len -> pos + len <= n -> n <= 64 -> len < 64 ->
  wrap n (deposit_folded pos len x y) = wrap n (deposit_value pos len (wrap n x) (wrap n y)).
Proof.
  intros Hp Hl Hle Hn Hl'. apply wrap_ext; [lia|]. intros k Hk.
  rewrite deposit_folded_testbit, deposit_testbit by lia.
  destruct (Z.leb_spec pos k), (Z.ltb_spec k (pos + len)); cbn [andb]; by rewrite testbit_wrap by lia.
Qed.

Lemma covers_deposit n m1 m2 pos len x y :
  0 <= pos -> 0 < len -> pos + len <= n -> n <= 64 -> len < 64 ->
  covers n m1 x -> covers n m2 y ->
  covers n (deposit_folded pos len m1 m2) (deposit_value pos len x y).
Proof.
  intros Hp Hl Hle Hn Hl' H1 H2 k Hk. rewrite deposit_folded_testbit, deposit_testbit by lia.
  destruct (Z.leb_spec pos k), (Z.ltb_spec k (pos + len)); cbn [andb]; auto.
  apply H2. lia.
Qed.
