(* ===== verification/OptSound.v ===== *)
(** * The optimizer is sound

    Every execution of the optimized program is an execution of the program, and
    the optimized program gets stuck only where the program does.  The proof
    relates the two programs operation by operation: the optimizer keeps the place
    of every operation, so the two run in lockstep with the same values, and its
    knowledge is true of these values. *)

From S2P Require Import Prelude X86 TcgOut TcgEnc TcgEmit TcgCond TcgOpDefs TcgSem TcgIR Optimize.
From S2P Require Import OptCopies OptValues.

(** ** Well-formed programs *)

#[export] Instance insn_eq_dec : EqDecision insn.
Proof. solve_decision. Defined.

(** The operations that a program can contain on this host: those of the back end
    and those that the middle end handles. *)
Definition host_op (op : TCGOpcode) : bool :=
  match op with
  | INDEX_op_nop | INDEX_op_nop1 | INDEX_op_nop2 | INDEX_op_nop3 | INDEX_op_nopn
  | INDEX_op_discard | INDEX_op_set_label | INDEX_op_debug_insn_start => true
  | _ => negb (testb (op_flags op) TCG_OPF_NOT_PRESENT)
  end.

(** The operations whose operands have the type of the operation. *)
Definition typed_op (op : TCGOpcode) : bool :=
  match op with
  | INDEX_op_mov _ | INDEX_op_movi _ | INDEX_op_setcond _ | INDEX_op_movcond _
  | INDEX_op_deposit _ | INDEX_op_add2 _ | INDEX_op_sub2 _ | INDEX_op_mulu2 _ | INDEX_op_muls2 _
  | INDEX_op_div2 _ | INDEX_op_divu2 _ | INDEX_op_brcond _ => true
  | _ => bool_decide (is_Some (binop_of op)) || bool_decide (is_Some (unop_of op))
  end.

Definition ext32_op (op : TCGOpcode) : bool :=
  match op with INDEX_op_ext32s_i64 | INDEX_op_ext32u_i64 => true | _ => false end.

Definition words (i : insn) : nat :=
  match i.(opc) with
  | INDEX_op_call =>
      (3 + Z.to_nat (Z.shiftr (arg i.(args) 0) 16) + Z.to_nat (Z.land (arg i.(args) 0) 0xffff))%nat
  | op => nb_args op
  end.

Definition real_cond (c : Z) : bool :=
  match cond_of c with Some c => nontrivial c | None => false end.

(** The constant arguments. *)
Definition consts_ok (op : TCGOpcode) (a : list Z) : bool :=
  match op with
  | INDEX_op_setcond _ => real_cond (arg a 3)
  | INDEX_op_movcond _ => real_cond (arg a 5)
  | INDEX_op_brcond _ => real_cond (arg a 2)
  | INDEX_op_deposit t =>
      (0 <=? arg a 3) && (0 <? arg a 4) && (arg a 3 + arg a 4 <=? wsize t) && (arg a 4 <? 64)
  | INDEX_op_call => 0 <=? arg a 0
  | _ => true
  end.

Definition TCG_MAX_TEMPS : Z := 512.

Section Program.
Context (s : tcg_temps).

Definition valid_temp (t : Z) : bool := (0 <=? t) && (t <? nb_temps s).
Definition has_type (ty : TCGType) (t : Z) : bool := bool_decide ((tget s.(temps) t).(type) = ty).

(** What the functions of tcg/tcg-op.h and the translator guarantee. *)
Definition shape (i : insn) : bool :=
  let op := i.(opc) in
  host_op op && (length i.(args) =? words i)%nat &&
  forallb valid_temp (oargs i) && forallb valid_temp (iargs i) &&
  (negb (typed_op op) ||
   forallb (has_type (op_type op)) (oargs i) &&
   (match op_type op with TCG_TYPE_I32 => true | TCG_TYPE_I64 => false end || ext32_op op ||
    forallb (has_type TCG_TYPE_I64) (iargs i))) &&
  consts_ok op i.(args).

(** tcg_gen_or_i32 and tcg_gen_or_i64 do not emit "or r, a, a". *)
Definition wf_insn (i : insn) : bool :=
  shape i &&
  match i.(opc) with
  | INDEX_op_or _ => negb (arg i.(args) 1 =? arg i.(args) 2)
  | _ => true
  end.

(** The double-word operations that can become two operations leave room. *)
Definition needs_nop (op : TCGOpcode) : bool :=
  match op with
  | INDEX_op_add2 _ | INDEX_op_sub2 _ | INDEX_op_mulu2 _ | INDEX_op_muls2 _ => true
  | _ => false
  end.

Fixpoint room (p : list insn) : bool :=
  match p with
  | [] => true
  | i :: p =>
      (negb (needs_nop i.(opc)) ||
       match p with n :: _ => bool_decide (n = mkInsn INDEX_op_nop []) | [] => false end) && room p
  end.

Definition wf_program (p : list insn) : bool :=
  (nb_temps s <=? TCG_MAX_TEMPS) && (0 <=? s.(nb_globals)) && (s.(nb_globals) <=? nb_temps s) && forallb wf_insn p && room p.
End Program.

(** ** Steps of single operations *)

(** The operations with a value. *)
Definition value_op (op : TCGOpcode) : bool :=
  match op with
  | INDEX_op_set_label | INDEX_op_br | INDEX_op_brcond _ | INDEX_op_call | INDEX_op_exit_tb
  | INDEX_op_end => false
  | _ => negb (is_primitive op)
  end.

Lemma eval_value_op op cs xs rs : eval_op op cs xs = Some rs -> value_op op = true.
Proof.
  intros H. destruct op; try done;
    (destruct xs as [|? [|? [|? [|? [|]]]]]; try done; destruct cs as [|? [|? [|]]]; done).
Qed.

Section Sound.
Context {W : Type} (E : environment W) (s : tcg_temps) (label : Z -> option nat).

Local Abbreviation step := (insn_step E s label).
Local Abbreviation known := (known s).

(** An operation with a value steps to that value. *)
Lemma value_step i rs n v w c' :
  eval_op i.(opc) (cargs i) (rd s v <$> iargs i) = Some rs ->
  step i (mkConfig n v w) c' <-> exists v', writes s (oargs i) rs v v' /\ c' = mkConfig (S n) v' w.
Proof.
  intros Ev. pose proof (eval_value_op _ _ _ _ Ev) as Ho. split.
  - intros Hs. inversion Hs as [? ? ? rs' v' Ev' Hw|? ? ? ? Eo|? ? ? ? ? ? Eo|? ? ? ? ? ? Tk|? ? ? ? ? ? ? ? Eo
      |? ? ? ? ? ? ? Eo]; subst.
    + rewrite Ev in Ev'. injection Ev' as <-. eauto.
    + by rewrite Eo in Ho.
    + by rewrite Eo in Ho.
    + unfold taken in Tk. by destruct (opc i).
    + by rewrite Eo in Ho.
    + by destruct (opc i).
  - intros (v' & Hw & ->). by eapply step_value.
Qed.

(** The value that the operation may leave in its only output. *)
Definition allows (i : insn) (v : list Z) (d x : Z) : Prop :=
  exists r, eval_op i.(opc) (cargs i) (rd s v <$> iargs i) = Some [r] /\
    forall y, r = Some y -> wrap (tsize s d) y = wrap (tsize s d) x.

Lemma allows_step i v d x u n w :
  oargs i = [d] -> allows i v d x -> wrap (tsize s d) u = wrap (tsize s d) x ->
  step i (mkConfig n v w) (mkConfig (S n) (tset d u v) w).
Proof.
  intros Ho (r & Ev & Hr) Hu. apply (value_step i [r]); [done|]. exists (tset d u v).
  split; [|done]. rewrite Ho. exists u. split; [|done]. intros y Hy. rewrite Hu. symmetry. by apply Hr.
Qed.

(** Where the program goes on. *)
Definition next_ok (n : nat) (c' : config W) : Prop :=
  c'.(ip) = S n \/ exists x, label x = Some c'.(ip).

Record refined (i r : insn) (l' : infos) (v : list Z) : Prop := {
  rf_step : forall n w c', step r (mkConfig n v w) c' ->
    step i (mkConfig n v w) c' /\ known l' c'.(vals) /\ next_ok n c';
  rf_progress : forall n w c', step i (mkConfig n v w) c' -> exists c'', step r (mkConfig n v w) c''
}.

Record refined2 (i r1 r2 : insn) (l' : infos) (v : list Z) : Prop := {
  rf2_step : forall n w c1 c2, step r1 (mkConfig n v w) c1 -> step r2 c1 c2 ->
    c1.(ip) = S n /\ c2 = mkConfig (S (S n)) c2.(vals) w /\
    step i (mkConfig n v w) (mkConfig (S n) c2.(vals) w) /\ known l' c2.(vals);
  rf2_first : forall n w, exists c1, step r1 (mkConfig n v w) c1;
  rf2_second : forall n w c1, step r1 (mkConfig n v w) c1 -> exists c2, step r2 c1 c2
}.

(** The result of one round of the optimizer. *)
Definition fold_ok (i : insn) (v : list Z) (x : res folded) : Prop :=
  exists r l', x = Ok (r, l') /\ (exists v', known l' v') /\ Forall (fun r => shape s r = true) r /\
    match r with
    | [r] => refined i r l' v
    | [r1; r2] => refined2 i r1 r2 l' v /\ needs_nop i.(opc) = true
    | _ => False
    end.

Lemma wsize_op_type op : wsize (op_type op) = op_bits op.
Proof. unfold op_type, op_bits. by destruct (testb _ _). Qed.

Lemma valid_temp_spec t : valid_temp s t = true <-> valid s t.
Proof. unfold valid_temp, valid. rewrite andb_true_iff, Z.leb_le, Z.ltb_lt. done. Qed.

Lemma size_type ty t : tsize s t = wsize ty -> has_type s ty t = true.
Proof. unfold has_type, tsize. intros H. apply bool_decide_eq_true. by destruct (type _), ty. Qed.

Lemma shape_to_movi op d x : valid s d -> tsize s d = op_bits op -> shape s (mkInsn (op_to_movi op) [d; x]) = true.
Proof.
  intros Hd Ht. unfold shape, op_to_movi. cbn -[forallb has_type valid_temp op_type]. cbn [forallb].
  assert (op_type (INDEX_op_movi (op_type op)) = op_type op) as -> by (by destruct (op_type op)).
  rewrite (proj2 (valid_temp_spec d) Hd), size_type by (by rewrite wsize_op_type).
  by destruct (op_type op).
Qed.

Lemma shape_to_mov op d x :
  valid s d -> tsize s d = op_bits op -> valid s x -> tsize s d <= tsize s x ->
  shape s (mkInsn (op_to_mov op) [d; x]) = true.
Proof.
  intros Hd Ht Hx Hle. unfold shape, op_to_mov. cbn -[forallb has_type valid_temp op_type]. cbn [forallb].
  assert (op_type (INDEX_op_mov (op_type op)) = op_type op) as -> by (by destruct (op_type op)).
  rewrite (proj2 (valid_temp_spec d) Hd), (proj2 (valid_temp_spec x) Hx), size_type by (by rewrite wsize_op_type).
  rewrite <- (wsize_op_type op) in Ht. destruct (op_type op); [done|]. rewrite size_type; [done|].
  pose proof (tsize_le s x). rewrite Ht in Hle. change (wsize TCG_TYPE_I64) with 64 in *. lia.
Qed.

(** A constant. *)
Lemma movi_step t d x n v w c' :
  step (mkInsn (INDEX_op_movi t) [d; x]) (mkConfig n v w) c' <->
  exists u, (forall y, Some (wrap (wsize t) x) = Some y -> wrap (tsize s d) u = wrap (tsize s d) y) /\
    c' = mkConfig (S n) (tset d u v) w.
Proof.
  rewrite (value_step (mkInsn (INDEX_op_movi t) [d; x]) [Some (wrap (wsize t) x)]) by done.
  cbn [oargs args opc take nb_oargs op_args fst writes]. split.
  - intros (v' & (u & Hu & ->) & ->). eauto.
  - intros (u & Hu & ->). eauto.
Qed.

Lemma refined_movi i l v d x :
  known l v -> oargs i = [d] -> valid s d -> tsize s d = op_bits i.(opc) -> allows i v d x ->
  fold_ok i v (Ok (to_movi i.(opc) d x l)).
Proof.
  intros K Ho Hd Ht Ha. unfold to_movi. destruct (tcg_opt_gen_movi d x l) as [a l'] eqn:Em.
  assert (a = [d; x] /\ l' = (tcg_opt_gen_movi d x l).2) as [-> ->] by (by rewrite Em; injection Em as <- <-).
  eexists _, _. split; [reflexivity|]. split; [by exists (tset d x v); apply known_movi|].
  split; [apply Forall_singleton; by apply shape_to_movi|].
  assert (forall u, (forall y, Some (wrap (wsize (op_type (opc i))) x) = Some y ->
    wrap (tsize s d) u = wrap (tsize s d) y) -> wrap (tsize s d) u = wrap (tsize s d) x) as Hu.
  { intros u Hu. rewrite (Hu _ eq_refl), Ht, wsize_op_type. apply wrap_wrap. }
  split.
  - intros n w c' Hs. apply movi_step in Hs as (u & Hw%Hu & ->). split_and!; [|by apply known_movi|by left].
    by eapply allows_step.
  - intros n w _ _. eexists. apply movi_step. exists (wrap (wsize (op_type (opc i))) x).
    split; [|done]. by intros y [= <-].
Qed.

(** Nothing. *)
Lemma nop_step n v w c' : step (mkInsn INDEX_op_nop []) (mkConfig n v w) c' <-> c' = mkConfig (S n) v w.
Proof.
  rewrite (value_step (mkInsn INDEX_op_nop []) []) by done. cbn. split.
  - by intros (v' & -> & ->).
  - intros ->. eauto.
Qed.

Lemma refined_nop i l v :
  known l v -> (forall n w, step i (mkConfig n v w) (mkConfig (S n) v w)) ->
  fold_ok i v (Ok (to_nop l)).
Proof.
  intros K Hs. eexists _, _. split; [reflexivity|]. split; [by exists v|].
  split; [by apply Forall_singleton|]. split.
  - intros n w c' ->%nop_step. split_and!; [done|done|by left].
  - intros n w _ _. eexists. by apply nop_step.
Qed.

Lemma allows_nop i l v d :
  known l v -> oargs i = [d] -> valid s d -> allows i v d (tget v d) -> fold_ok i v (Ok (to_nop l)).
Proof.
  intros K Ho Hd Ha. apply refined_nop; [done|]. intros n w.
  pose proof (allows_step i v d _ (tget v d) n w Ho Ha eq_refl) as Hs.
  rewrite tset_same in Hs; [done|]. unfold valid, nb_temps in Hd. by rewrite (kn_length _ _ _ K).
Qed.

(** A copy. *)
Lemma mov_step t d x n v w c' :
  step (mkInsn (INDEX_op_mov t) [d; x]) (mkConfig n v w) c' <->
  exists u, wrap (tsize s d) u = wrap (tsize s d) (wrap (wsize t) (rd s v x)) /\
    c' = mkConfig (S n) (tset d u v) w.
Proof.
  rewrite (value_step (mkInsn (INDEX_op_mov t) [d; x]) [Some (wrap (wsize t) (rd s v x))]) by done.
  cbn [oargs args opc take nb_oargs op_args fst writes]. split.
  - intros (v' & (u & Hu & ->) & ->). eauto.
  - intros (u & Hu & ->). exists (tset d u v). split; [|done]. exists u. split; [|done]. by intros y [= <-].
Qed.

Lemma wrap_rd n v t : 0 <= n <= tsize s t -> wrap n (rd s v t) = wrap n (tget v t).
Proof. intros Hn. by apply wrap_wrap_le. Qed.

Lemma op_bits_cases op : op_bits op = 32 \/ op_bits op = 64.
Proof. unfold op_bits. destruct (testb _ _); auto. Qed.

Lemma refined_mov i l v d x :
  known l v -> oargs i = [d] -> valid s d -> tsize s d = op_bits i.(opc) ->
  valid s x -> d <> x -> is_const l x = false -> tsize s d <= tsize s x -> allows i v d (tget v x) ->
  fold_ok i v (to_mov s i.(opc) d x l).
Proof.
  intros K Ho Hd Ht Hx Hne Hc Hle Ha. unfold to_mov.
  destruct (known_mov s l v d x (tget v x) K Hd Hx Hne Hc Hle eq_refl) as (l' & Em & K').
  rewrite Em. cbn [mbind res_bind]. eexists _, _. split; [reflexivity|]. split; [eauto|].
  split; [apply Forall_singleton; by apply shape_to_mov|].
  assert (forall u, wrap (tsize s d) u = wrap (tsize s d) (wrap (wsize (op_type (opc i))) (rd s v x)) ->
    wrap (tsize s d) u = wrap (tsize s d) (tget v x)) as Hu.
  { intros u ->. rewrite wsize_op_type, <- Ht, wrap_wrap. apply wrap_rd.
    destruct (op_bits_cases (opc i)); lia. }
  split.
  - intros n w c' Hs. apply mov_step in Hs as (u & Hw%Hu & ->).
    destruct (known_mov s l v d x u K Hd Hx Hne Hc Hle Hw) as (l'' & Em' & K'').
    rewrite Em in Em'. injection Em' as <-. split_and!; [by eapply allows_step|done|by left].
  - intros n w _ _. eexists. apply mov_step. eauto.
Qed.

(** Two operations that differ in their input temporaries only, with equal values. *)
Lemma step_same i i' v n w c' :
  i'.(opc) = i.(opc) -> oargs i' = oargs i -> cargs i' = cargs i ->
  rd s v <$> iargs i' = rd s v <$> iargs i ->
  step i (mkConfig n v w) c' -> step i' (mkConfig n v w) c'.
Proof.
  intros Eo Eout Ec Ei Hs.
  inversion Hs as [? ? ? rs v' Ev Hw|? ? ? ? El Hc|? ? ? ? ? ? Eb|? ? ? ? ? ? Tk Hl|? ? ? ? ? ? ? ? El Hh Hg Hw
    |? ? ? ? ? ? ? Hp Hh Hw Hb]; subst.
  - eapply step_value; [|by rewrite Eout]. by rewrite Eo, Ec, Ei.
  - apply step_label; [by rewrite Eo|done].
  - eapply step_br; by rewrite ?Eo, ?Ec.
  - eapply step_brcond; [|rewrite Ec; exact Hl|done]. unfold taken in *. by rewrite Eo, Ec, Ei.
  - assert (call_flags i' = call_flags i) as Ef by (unfold call_flags; by rewrite Ec).
    eapply step_call; [by rewrite Eo| |rewrite Ef; exact Hg|by rewrite Eout].
    rewrite Eout, Ec, Ei, Ef. exact Hh.
  - eapply step_primitive; [by rewrite Eo|rewrite Eo, Ec, Ei; exact Hh|rewrite Eout; exact Hw|by rewrite Eo].
Qed.

Definition same_steps (i i' : insn) (v : list Z) : Prop :=
  forall n w c', step i (mkConfig n v w) c' <-> step i' (mkConfig n v w) c'.

Lemma refined_same i i' r l' v : same_steps i i' v -> refined i' r l' v -> refined i r l' v.
Proof.
  intros Hs [H1 H2]. split.
  - intros n w c' Hr. destruct (H1 n w c' Hr) as (? & ? & ?). split_and!; [by apply Hs|done..].
  - intros n w c' Hi%Hs. by apply (H2 n w c').
Qed.

Lemma refined2_same i i' r1 r2 l' v : same_steps i i' v -> refined2 i' r1 r2 l' v -> refined2 i r1 r2 l' v.
Proof.
  intros Hs [H1 H2 H3]. split; [|done..].
  intros n w c1 c2 Hr1 Hr2. destruct (H1 n w c1 c2 Hr1 Hr2) as (? & ? & ? & ?).
  split_and!; [done..|by apply Hs|done].
Qed.

Lemma fold_same_steps i i' v x :
  i'.(opc) = i.(opc) -> same_steps i i' v -> fold_ok i' v x -> fold_ok i v x.
Proof.
  intros Eo Hs (r & l' & -> & Hk & Hsh & Hr). exists r, l'. split_and!; [done..|].
  destruct r as [|r1 [|r2 []]]; [done|by eapply refined_same| |done].
  rewrite <- Eo. split; [|apply Hr]. by eapply refined2_same; [|apply Hr].
Qed.

(** ** Better copies *)

Lemma outside_take (k n j : nat) (a a' : list Z) :
  (forall m, ~ (k <= m < k + n)%nat -> a' !! m = a !! m) -> (j <= k)%nat -> take j a' = take j a.
Proof.
  intros H Hj. apply list_eq. intros m. destruct (decide (m < j)%nat).
  - rewrite !lookup_take_lt by done. apply H. lia.
  - rewrite !lookup_take_ge by lia. done.
Qed.

Lemma outside_drop (k n j : nat) (a a' : list Z) :
  (forall m, ~ (k <= m < k + n)%nat -> a' !! m = a !! m) -> (k + n <= j)%nat -> drop j a' = drop j a.
Proof. intros H Hj. apply list_eq. intros m. rewrite !lookup_drop. apply H. lia. Qed.

Lemma inside_inputs l v (k n : nat) (a a' : list Z) :
  length a' = length a ->
  (forall j, (k <= j < k + n)%nat -> valid s (arg a' j) /\ equal_temps s l v (arg a' j) (arg a j)) ->
  Forall2 (fun x y => valid s x /\ equal_temps s l v x y) (take n (drop k a')) (take n (drop k a)).
Proof.
  intros Hl H. apply Forall2_same_length_lookup_2.
  { by rewrite !length_take, !length_drop, Hl. }
  intros m x y Hx Hy. apply lookup_take_Some in Hx as [Hx Hm]. apply lookup_take_Some in Hy as [Hy _].
  rewrite lookup_drop in Hx, Hy. specialize (H (k + m)%nat ltac:(lia)). unfold arg in H.
  by rewrite !list_lookup_total_alt, Hx, Hy in H.
Qed.

(** What is left of the distinct operands of "or" after the propagation. *)
Definition or_ok (l : infos) (i : insn) : Prop :=
  match i.(opc) with
  | INDEX_op_or _ => arg i.(args) 1 = arg i.(args) 2 -> is_const l (arg i.(args) 1) = false
  | _ => True
  end.

Lemma forallb_Forall {A} (P : A -> bool) xs : forallb P xs = true <-> Forall (fun x => P x = true) xs.
Proof. by rewrite forallb_forall, List.Forall_forall. Qed.

Lemma forallb_inputs (P : Z -> bool) l v xs ys :
  Forall2 (fun x y => valid s x /\ equal_temps s l v x y) xs ys ->
  (forall x y, (tget s.(temps) x).(type) = (tget s.(temps) y).(type) -> P x = P y) ->
  forallb P xs = forallb P ys.
Proof. intros H HP. induction H as [|x y xs ys [_ []] _ IH]; [done|]. cbn. by rewrite IH, (HP x y). Qed.

(** The places of the inputs of an operation. *)
Definition first_input (i : insn) : nat :=
  match i.(opc) with
  | INDEX_op_call => (1 + Z.to_nat (Z.shiftr (arg i.(args) 0) 16))%nat
  | op => nb_oargs op
  end.
Definition count_inputs (i : insn) : nat :=
  match i.(opc) with
  | INDEX_op_call => Z.to_nat (Z.land (arg i.(args) 0) 0xffff)
  | op => nb_iargs op
  end.

Lemma iargs_places i : iargs i = take (count_inputs i) (drop (first_input i) i.(args)).
Proof. unfold iargs, count_inputs, first_input, arg. by destruct (opc i). Qed.

Lemma places_length i : length i.(args) = words i -> (first_input i + count_inputs i <= length i.(args))%nat.
Proof.
  intros ->. unfold first_input, count_inputs, words, nb_args. destruct (opc i); lia.
Qed.

Record shaped (i : insn) : Prop := {
  sh_host : host_op i.(opc) = true;
  sh_length : length i.(args) = words i;
  sh_outputs : Forall (valid s) (oargs i);
  sh_inputs : Forall (valid s) (iargs i)
}.

Lemma shape_shaped i : shape s i = true -> shaped i.
Proof.
  unfold shape. rewrite !andb_true_iff, !forallb_Forall, Nat.eqb_eq. intros [[[[[H1 H2] H3] H4] _] _].
  split; [done..|eapply Forall_impl; [exact H3|]|eapply Forall_impl; [exact H4|]]; apply valid_temp_spec.
Qed.

(** The inputs are replaced by temporaries with the same values. *)
Record replaced (l : infos) (v : list Z) (i i' : insn) : Prop := {
  rp_opc : i'.(opc) = i.(opc);
  rp_length : length i'.(args) = length i.(args);
  rp_inputs : Forall2 (fun x y => valid s x /\ equal_temps s l v x y) (iargs i') (iargs i);
  rp_equal : forall j, (first_input i <= j < first_input i + count_inputs i)%nat ->
    equal_temps s l v (arg i'.(args) j) (arg i.(args) j);
  rp_others : forall j, ~ (first_input i <= j < first_input i + count_inputs i)%nat ->
    i'.(args) !! j = i.(args) !! j
}.

Lemma propagate_insn l v i :
  known l v -> shape s i = true ->
  exists a', propagate_copies s i.(opc) i.(args) l = Ok a' /\ replaced l v i (mkInsn i.(opc) a').
Proof.
  intros K Hsh. pose proof (shape_shaped i Hsh) as [_ Hlen _ Hin].
  pose proof (places_length i Hlen) as Hp.
  assert (propagate_copies s i.(opc) i.(args) l = propagate s (first_input i) (count_inputs i) i.(args) l) as ->.
  { unfold propagate_copies, first_input, count_inputs. unfold shape in Hsh.
    apply andb_true_iff in Hsh as [_ Hz].
    destruct (opc i); try done. f_equal. apply Z.leb_le in Hz.
    pose proof (proj2 (Z.shiftr_nonneg (arg (args i) 0) 16) Hz). lia. }
  destruct (propagate_spec s l v (count_inputs i) (first_input i) i.(args) K Hp) as (a' & -> & Hl & Heq & Hot).
  { intros j Hj. rewrite iargs_places in Hin. rewrite Forall_lookup in Hin. apply (Hin (j - first_input i)%nat).
    rewrite lookup_take_lt, lookup_drop by lia. unfold arg.
    replace (first_input i + (j - first_input i))%nat with j by lia. apply list_lookup_lookup_total_lt. lia. }
  exists a'. split; [done|]. split; [done..| | |].
  - assert (iargs (mkInsn (opc i) a') = take (count_inputs i) (drop (first_input i) a')) as ->.
    { rewrite iargs_places. unfold count_inputs, first_input in *. cbn [opc args]. destruct (opc i); try done.
      unfold arg. by rewrite !list_lookup_total_alt, Hot by lia. }
    rewrite iargs_places. by apply inside_inputs.
  - intros j Hj. by apply Heq.
  - done.
Qed.

Lemma replaced_head l v i i' : replaced l v i i' -> i.(opc) = INDEX_op_call -> arg i'.(args) 0 = arg i.(args) 0.
Proof.
  intros [_ _ _ _ Ho] Ei. unfold arg. rewrite !list_lookup_total_alt, Ho; [done|].
  unfold first_input. rewrite Ei. lia.
Qed.

Lemma replaced_outputs l v i i' : replaced l v i i' -> oargs i' = oargs i.
Proof.
  intros R. pose proof (replaced_head _ _ _ _ R) as Hh. destruct R as [Eo _ _ _ Ho].
  unfold oargs, arg, first_input in *. rewrite Eo. destruct (opc i);
    try by eapply outside_take; [exact Ho|].
  rewrite Hh by done. apply list_eq. intros m. set (k := Z.to_nat _) in *. destruct (decide (m < k)%nat).
  - rewrite !lookup_take_lt, !lookup_drop by done. apply Ho. lia.
  - rewrite !lookup_take_ge by lia. done.
Qed.

Lemma replaced_constants l v i i' : shaped i -> replaced l v i i' -> cargs i' = cargs i.
Proof.
  intros Hs R. pose proof (places_length i (sh_length _ Hs)) as Hp.
  pose proof (replaced_outputs _ _ _ _ R) as Eout.
  destruct R as [Eo _ Hi _ Ho]. apply Forall2_length in Hi.
  unfold cargs. rewrite Eo. destruct (opc i) eqn:Ei;
    try by (eapply outside_drop; [exact Ho|]; unfold first_input, count_inputs; rewrite Ei; lia).
  rewrite Eout, Hi. eapply outside_drop; [exact Ho|].
  rewrite iargs_places, length_take, length_drop.
  unfold oargs, first_input, count_inputs in *. rewrite Ei in *. rewrite length_take, length_drop.
  unfold arg in *. lia.
Qed.

Lemma same_steps_inputs i i' v :
  i'.(opc) = i.(opc) -> oargs i' = oargs i -> cargs i' = cargs i ->
  rd s v <$> iargs i' = rd s v <$> iargs i -> same_steps i i' v.
Proof. intros. split; apply step_same; done. Qed.

Lemma replaced_steps l v i i' : shaped i -> replaced l v i i' -> same_steps i i' v.
Proof.
  intros Hs R. apply same_steps_inputs; [apply R|by eapply replaced_outputs|by eapply replaced_constants|].
  pose proof (rp_inputs _ _ _ _ R) as Hi. induction Hi as [|x y xs ys [_ []] _ IH]; [done|]. cbn. by f_equal.
Qed.

Lemma replaced_other l v i i' j :
  replaced l v i i' -> ~ (first_input i <= j < first_input i + count_inputs i)%nat ->
  arg i'.(args) j = arg i.(args) j.
Proof. intros R Hj. unfold arg. by rewrite !list_lookup_total_alt, (rp_others _ _ _ _ R). Qed.

Lemma replaced_consts op a a' :
  (forall j, ~ (first_input (mkInsn op a) <= j < first_input (mkInsn op a) + count_inputs (mkInsn op a))%nat ->
    arg a' j = arg a j) -> consts_ok op a' = consts_ok op a.
Proof.
  intros H. destruct op; try done; unfold first_input, count_inputs in H; cbn [consts_ok];
    rewrite !H by (cbn; lia); done.
Qed.

Lemma replaced_shape l v i i' : shape s i = true -> replaced l v i i' -> shape s i' = true.
Proof.
  intros H R. pose proof (replaced_outputs _ _ _ _ R) as Eout. pose proof (replaced_head _ _ _ _ R) as Eh.
  assert (words i' = words i) as Ew.
  { unfold words. rewrite (rp_opc _ _ _ _ R). destruct (opc i); try done. by rewrite Eh. }
  assert (forallb (valid_temp s) (iargs i') = true) as Hi.
  { apply forallb_Forall. pose proof (rp_inputs _ _ _ _ R) as Hi.
    induction Hi as [|x y xs ys [] _ IH]; constructor; [by apply valid_temp_spec|done]. }
  assert (forallb (has_type s TCG_TYPE_I64) (iargs i') = forallb (has_type s TCG_TYPE_I64) (iargs i)) as Et.
  { eapply forallb_inputs; [exact (rp_inputs _ _ _ _ R)|]. intros x y Ety. unfold has_type. by rewrite Ety. }
  unfold shape in *. rewrite (rp_opc _ _ _ _ R), (rp_length _ _ _ _ R), Ew, Eout, Hi, Et.
  rewrite !andb_true_iff in *. destruct H as [[[[[? ?] ?] ?] ?] H]. split_and!; [done..|].
  rewrite (replaced_consts _ i.(args)); [done|]. intros j Hj. eapply replaced_other; [exact R|].
  by destruct i.
Qed.

Lemma replaced_or l v i i' : known l v -> wf_insn s i = true -> replaced l v i i' -> or_ok l i'.
Proof.
  intros K H R. unfold wf_insn in H. apply andb_true_iff in H as [_ H]. unfold or_ok.
  pose proof (rp_equal _ _ _ _ R) as Hq. unfold first_input, count_inputs in Hq.
  rewrite (rp_opc _ _ _ _ R). destruct (opc i); try done. intros Ea.
  apply negb_true_iff, Z.eqb_neq in H. apply bool_decide_eq_false. intros Hc.
  destruct (eq_how _ _ _ _ _ (Hq 1%nat ltac:(cbn; lia))) as [E1|[C1 _]]; [|unfold copy in C1; congruence].
  destruct (eq_how _ _ _ _ _ (Hq 2%nat ltac:(cbn; lia))) as [E2|[C2 _]]; [congruence|].
  unfold copy in C2. congruence.
Qed.
End Sound.
