(* ===== verification/OptStages.v ===== *)
(** * The stages of the optimizer

    One round of [tcg_constant_folding] on a well-formed operation: the operands
    take their canonical order, then the simplifications are tried one after the
    other.  Each of them leaves an operation that does what the operation did, and
    knowledge that is true afterwards. *)

From S2P Require Import Prelude X86 TcgOut TcgEnc TcgEmit TcgCond TcgOpDefs TcgSem TcgIR Optimize.
From S2P Require Import OptCopies OptValues OptSound.

Section Stages.
Context {W : Type} (E : environment W) (s : tcg_temps) (label : Z -> option nat).

Local Abbreviation step := (insn_step E s label).
Local Abbreviation known := (known s).
Local Abbreviation fold_ok := (fold_ok E s label).
Local Abbreviation same_steps := (same_steps E s label).
Local Abbreviation allows := (allows s).

(** ** Operands *)

Lemma has_type_size ty t : has_type s ty t = true -> tsize s t = wsize ty.
Proof. unfold has_type, tsize. intros H%bool_decide_eq_true. by rewrite H. Qed.

Lemma tsize_ge t : 32 <= tsize s t.
Proof. unfold tsize. by destruct (type _). Qed.

Definition output_of (op : TCGOpcode) (t : Z) : Prop := valid s t /\ tsize s t = op_bits op.
Definition input_of (op : TCGOpcode) (t : Z) : Prop :=
  valid s t /\ (ext32_op op = false -> op_bits op <= tsize s t).

Lemma shape_typed i :
  shape s i = true -> typed_op i.(opc) = true ->
  Forall (output_of i.(opc)) (oargs i) /\ Forall (input_of i.(opc)) (iargs i).
Proof.
  intros H Ht. unfold shape in H. rewrite !andb_true_iff, Ht in H. cbn [negb orb] in H.
  destruct H as [[[[_ Ho] Hi] Hty] _]. apply andb_true_iff in Hty as [Hto Hti].
  rewrite !forallb_Forall in *. split.
  - eapply Forall_impl; [exact (proj2 (Forall_and _ _) (conj Ho Hto))|]. intros t [Hv Hs]. split.
    + by apply valid_temp_spec.
    + by rewrite (has_type_size _ _ Hs), wsize_op_type.
  - apply orb_true_iff in Hti as [Hti|Hti].
    + eapply Forall_impl; [exact Hi|]. intros t Hv. split; [by apply valid_temp_spec|]. intros Hx.
      rewrite Hx, orb_false_r in Hti. pose proof (tsize_ge t). rewrite <- wsize_op_type.
      by destruct (op_type (opc i)).
    + rewrite forallb_Forall in Hti.
      eapply Forall_impl; [exact (proj2 (Forall_and _ _) (conj Hi Hti))|]. intros t [Hv Hs].
      split; [by apply valid_temp_spec|]. intros _. rewrite (has_type_size _ _ Hs). 
      destruct (op_bits_cases (opc i)); cbn; lia.
Qed.

(** The same operation with its inputs in another order. *)
Lemma shape_permuted i i' :
  shape s i = true -> i'.(opc) = i.(opc) -> length i'.(args) = length i.(args) -> words i' = words i ->
  oargs i' = oargs i -> iargs i' ≡ₚ iargs i -> consts_ok i'.(opc) i'.(args) = true -> shape s i' = true.
Proof.
  intros H Eo El Ew Eout Ei Hc. unfold shape in *. rewrite Hc, Eo, El, Ew, Eout.
  assert (forall P : Z -> bool, forallb P (iargs i') = forallb P (iargs i)) as Hp.
  { intros P. apply eq_bool_prop_intro. by rewrite !Is_true_true, !forallb_Forall, Ei. }
  rewrite !Hp. rewrite !andb_true_iff in *. by destruct H as [[[[[? ?] ?] ?] ?] _].
Qed.

Lemma same_steps_value i i' v rs :
  eval_op i.(opc) (cargs i) (rd s v <$> iargs i) = Some rs ->
  eval_op i'.(opc) (cargs i') (rd s v <$> iargs i') = Some rs ->
  oargs i' = oargs i -> same_steps i i' v.
Proof. intros H H' Eo n w c'. rewrite (value_step _ _ _ i rs), (value_step _ _ _ i' rs) by done. by rewrite Eo. Qed.

Lemma same_steps_refl i v : same_steps i i v.
Proof. done. Qed.

Lemma same_steps_trans i j k v : same_steps i j v -> same_steps j k v -> same_steps i k v.
Proof. intros H1 H2 n w c'. by rewrite (H1 n w c'). Qed.

(** ** The order of the operands *)

Definition canonical_ok (l : infos) (v : list Z) (i : insn) (a' : list Z) : Prop :=
  let i' := mkInsn i.(opc) a' in shape s i' = true /\ same_steps i i' v /\ (or_ok l i -> or_ok l i').

Lemma canonical_same l v i : shape s i = true -> canonical_ok l v i i.(args).
Proof. by destruct i. Qed.

Lemma eval_binop op o t x y :
  binop_of op = Some (o, t) ->
  eval_op op [] [x; y] =
    Some [defined (binop_defined o (wsize t) (wrap (wsize t) y))
            (binop_value o (wsize t) (wrap (wsize t) x) (wrap (wsize t) y))].
Proof. intros H. destruct op; cbn in H; simplify_eq; done. Qed.

Lemma eval_unop op u x :
  unop_of op = Some u ->
  eval_op op [] [x] =
    Some [defined (unop_defined u (wrap (wsize (unop_type u)) x))
            (unop_value u (wsize (unop_type u)) (wrap (wsize (unop_type u)) x))].
Proof. intros H. destruct op; cbn in H; simplify_eq; done. Qed.

Definition commutes (o : binop) : bool :=
  match o with BAdd | BMul | BAnd | BOr | BXor => true | _ => false end.

Lemma binop_comm o n x y :
  commutes o = true -> binop_value o n x y = binop_value o n y x /\ forall z, binop_defined o n z = true.
Proof.
  destruct o; try done; intros _; cbn [binop_value]; (split; [|done]).
  - by rewrite Z.add_comm.
  - by rewrite Z.mul_comm.
  - apply Z.land_comm.
  - apply Z.lor_comm.
  - apply Z.lxor_comm.
Qed.

Lemma canonical_binop l v op o t d x y :
  binop_of op = Some (o, t) -> commutes o = true -> shape s (mkInsn op [d; x; y]) = true ->
  canonical_ok l v (mkInsn op [d; x; y]) [d; y; x].
Proof.
  intros Ho Hc Hs. assert (nb_oargs op = 1%nat /\ nb_iargs op = 2%nat /\ op <> INDEX_op_call) as (No & Ni & Nc)
    by (by destruct op; cbn in Ho; simplify_eq).
  assert (forall x y, oargs (mkInsn op [d; x; y]) = [d] /\ iargs (mkInsn op [d; x; y]) = [x; y] /\
    cargs (mkInsn op [d; x; y]) = [] /\ words (mkInsn op [d; x; y]) = nb_args op) as Ha
    by (intros; by destruct op; cbn in Ho; simplify_eq).
  destruct (Ha x y) as (Eo & Ei & Ec & Ew), (Ha y x) as (Eo' & Ei' & Ec' & Ew').
  split_and!; cbn [opc].
  - apply (shape_permuted _ _ Hs); [done..|congruence|congruence| |by destruct op; cbn in Ho; simplify_eq].
    rewrite Ei, Ei'. apply perm_swap.
  - eapply same_steps_value; [by rewrite Ei, Ec; apply eval_binop| |congruence].
    rewrite Ei', Ec'. cbn [opc fmap list_fmap]. rewrite (eval_binop _ _ _ _ _ Ho).
    destruct (binop_comm o (wsize t) (wrap (wsize t) (rd s v x)) (wrap (wsize t) (rd s v y)) Hc) as [Ev Hd].
    by rewrite !Hd, Ev.
  - unfold or_ok. cbn [opc args]. destruct op; try done. unfold arg. cbn. intros H Exy. rewrite Exy in *. auto.
Qed.

Lemma real_cond_spec z : real_cond z = true -> exists c, cond_of z = Some c /\ nontrivial c = true /\ z = cond_code c.
Proof.
  unfold real_cond. destruct (cond_of z) as [c|] eqn:Ec; [|done]. intros H. exists c.
  split_and!; [done..|by apply cond_of_inv].
Qed.

(** A condition with its operands exchanged. *)
Lemma swapped_cond z :
  real_cond z = true -> exists c c', cond_of z = Some c /\ cond_of (tcg_swap_cond z) = Some c' /\
    real_cond (tcg_swap_cond z) = true /\ forall n a b, eval_cond c' n b a = eval_cond c n a b.
Proof.
  intros (c & Ec & Hn & ->)%real_cond_spec. destruct (swap_cond_value c Hn) as (c' & Ec' & Hn' & Hv).
  exists c, c'. split_and!; [done..| |done]. unfold real_cond. by rewrite Ec'.
Qed.

Lemma inverted_cond z :
  real_cond z = true -> exists c c', cond_of z = Some c /\ cond_of (tcg_invert_cond z) = Some c' /\
    real_cond (tcg_invert_cond z) = true /\ forall n a b, eval_cond c' n a b = negb (eval_cond c n a b).
Proof.
  intros (c & Ec & Hn & ->)%real_cond_spec. destruct (invert_cond_value c Hn) as (c' & Ec' & Hn' & Hv).
  exists c, c'. split_and!; [done..| |done]. unfold real_cond. by rewrite Ec'.
Qed.

Lemma shape_consts i : shape s i = true -> consts_ok i.(opc) i.(args) = true.
Proof. unfold shape. rewrite !andb_true_iff. by intros [_ ?]. Qed.

Lemma canonical_setcond l v t d x y c :
  shape s (mkInsn (INDEX_op_setcond t) [d; x; y; c]) = true ->
  canonical_ok l v (mkInsn (INDEX_op_setcond t) [d; x; y; c]) [d; y; x; tcg_swap_cond c].
Proof.
  intros Hs. destruct (swapped_cond c (shape_consts _ Hs)) as (k & k' & Ek & Ek' & Hr & Hv). split_and!; [..|done].
  - apply (shape_permuted _ _ Hs); try done. apply perm_swap.
  - eapply same_steps_value; [cbn; by rewrite Ek|cbn; rewrite Ek'; cbn; by rewrite Hv|done].
Qed.

Lemma same_steps_brcond t x y c b x' y' c' v :
  taken s (mkInsn (INDEX_op_brcond t) [x; y; c; b]) v = taken s (mkInsn (INDEX_op_brcond t) [x'; y'; c'; b]) v ->
  forall n w k, step (mkInsn (INDEX_op_brcond t) [x; y; c; b]) (mkConfig n v w) k ->
    step (mkInsn (INDEX_op_brcond t) [x'; y'; c'; b]) (mkConfig n v w) k.
Proof.
  intros Et n w k Hs.
  inversion Hs as [? ? ? rs v' Ev Hw|? ? ? ? El Hc|? ? ? ? ? ? Eb|? ? ? ? ? ? Tk Hl|? ? ? ? ? ? ? ? El Hh Hg Hw
    |? ? ? ? ? ? ? Hp Hh Hw Hb]; subst; try discriminate.
  rewrite Et in Tk. by eapply step_brcond.
Qed.

Lemma canonical_brcond l v t x y c b :
  shape s (mkInsn (INDEX_op_brcond t) [x; y; c; b]) = true ->
  canonical_ok l v (mkInsn (INDEX_op_brcond t) [x; y; c; b]) [y; x; tcg_swap_cond c; b].
Proof.
  intros Hs. destruct (swapped_cond c (shape_consts _ Hs)) as (k & k' & Ek & Ek' & Hr & Hv). split_and!; [..|done].
  - apply (shape_permuted _ _ Hs); try done. apply perm_swap.
  - cbn [opc]. split; apply same_steps_brcond; cbn; rewrite Ek, Ek'; cbn; by rewrite Hv.
Qed.

Lemma canonical_movcond l v t d x y a b c :
  shape s (mkInsn (INDEX_op_movcond t) [d; x; y; a; b; c]) = true ->
  canonical_ok l v (mkInsn (INDEX_op_movcond t) [d; x; y; a; b; c]) [d; y; x; a; b; tcg_swap_cond c] /\
  canonical_ok l v (mkInsn (INDEX_op_movcond t) [d; x; y; a; b; c]) [d; x; y; b; a; tcg_invert_cond c].
Proof.
  intros Hs. destruct (swapped_cond c (shape_consts _ Hs)) as (k & k' & Ek & Ek' & Hr & Hv).
  destruct (inverted_cond c (shape_consts _ Hs)) as (j & j' & Ej & Ej' & Hrj & Hvj). split; split_and!; try done.
  - apply (shape_permuted _ _ Hs); try done. apply perm_swap.
  - eapply same_steps_value; [cbn; by rewrite Ek|cbn; rewrite Ek'; cbn; by rewrite Hv|done].
  - apply (shape_permuted _ _ Hs); try done. cbn. do 2 constructor. apply perm_swap.
  - eapply same_steps_value; [cbn; by rewrite Ej| |done]. cbn. rewrite Ej'. cbn. rewrite Hvj. by destruct (eval_cond _ _ _ _).
Qed.

Lemma eval_add2_comm t a b c d :
  eval_op (INDEX_op_add2 t) [] [c; b; a; d] = eval_op (INDEX_op_add2 t) [] [a; b; c; d] /\
  eval_op (INDEX_op_add2 t) [] [a; d; c; b] = eval_op (INDEX_op_add2 t) [] [a; b; c; d].
Proof.
  unfold eval_op, sum2. set (m z := wrap (wsize t) z). fold (m a) (m b) (m c) (m d).
  replace (m b * 2 ^ wsize t + m c + (m d * 2 ^ wsize t + m a))
    with (m b * 2 ^ wsize t + m a + (m d * 2 ^ wsize t + m c)) by lia.
  by replace (m d * 2 ^ wsize t + m a + (m b * 2 ^ wsize t + m c))
    with (m b * 2 ^ wsize t + m a + (m d * 2 ^ wsize t + m c)) by lia.
Qed.

Lemma canonical_add2 l v t d e xl xh yl yh :
  shape s (mkInsn (INDEX_op_add2 t) [d; e; xl; xh; yl; yh]) = true ->
  canonical_ok l v (mkInsn (INDEX_op_add2 t) [d; e; xl; xh; yl; yh]) [d; e; yl; xh; xl; yh] /\
  canonical_ok l v (mkInsn (INDEX_op_add2 t) [d; e; xl; xh; yl; yh]) [d; e; xl; yh; yl; xh].
Proof.
  intros Hs. destruct (eval_add2_comm t (rd s v xl) (rd s v xh) (rd s v yl) (rd s v yh)) as [El Eh].
  split; split_and!; cbn [opc]; try done;
    try (apply (shape_permuted _ _ Hs); try done; cbn; solve_Permutation).
  - eapply same_steps_value; [symmetry; exact El|reflexivity|done].
  - eapply same_steps_value; [symmetry; exact Eh|reflexivity|done].
Qed.

Lemma canonical_mul2 l v t d e x y (signed : bool) :
  let op := mul2_opc signed t in shape s (mkInsn op [d; e; x; y]) = true ->
  canonical_ok l v (mkInsn op [d; e; x; y]) [d; e; y; x].
Proof.
  intros op Hs. subst op. destruct signed; cbn [mul2_opc] in *; (split_and!; [..|done]).
  1, 3: apply (shape_permuted _ _ Hs); try done; apply perm_swap.
  all: eapply same_steps_value; [done|cbn; by rewrite Z.mul_comm|done].
Qed.

Lemma canonical_trans l v i a a' :
  canonical_ok l v i a ->
  (shape s (mkInsn i.(opc) a) = true -> canonical_ok l v (mkInsn i.(opc) a) a') -> canonical_ok l v i a'.
Proof.
  intros (H1 & H2 & H3) H'. destruct (H' H1) as (H1' & H2' & H3'). split_and!; [done|by eapply same_steps_trans|auto].
Qed.

(** The arguments of an operation other than a call. *)
Lemma shape_length op a : shape s (mkInsn op a) = true -> op <> INDEX_op_call -> length a = nb_args op.
Proof. intros H%shape_shaped%sh_length Hc. by destruct op. Qed.

Lemma canonical_spec l v i :
  shape s i = true -> canonical_ok l v i (canonical i.(opc) i.(args) l).
Proof.
  intros Hs. pose proof (canonical_same l v i Hs) as Hid. destruct i as [op a]. cbn [opc args] in *.
  pose proof (sh_host _ _ (shape_shaped _ _ Hs)) as Hh. pose proof (shape_length op a Hs) as Hlen.
  destruct op; try exact Hid; try discriminate Hh; try (exfalso; clear -Hh; destruct t; discriminate Hh);
    specialize (Hlen ltac:(done)); cbn in Hlen;
    repeat (destruct a as [|? a]; [discriminate Hlen|]; try (destruct a; [|discriminate Hlen]));
    unfold canonical; cbn -[swap_commutative tcg_swap_cond tcg_invert_cond canonical_ok].
  all: try by (destruct (swap_commutative _ _ _ _); [|exact Hid]; eapply canonical_binop).
  all: try by (destruct (swap_commutative _ _ _ _); [|exact Hid];
    first [by apply canonical_brcond|by apply canonical_setcond|by apply (canonical_mul2 l v t _ _ _ _ false)
      |by apply (canonical_mul2 l v t _ _ _ _ true)]).
  - destruct (swap_commutative (-1) _ _ _), (swap_commutative _ _ _ _).
    + eapply canonical_trans; [exact (proj1 (canonical_movcond _ _ _ _ _ _ _ _ _ Hs))|].
      intros Hs'. exact (proj2 (canonical_movcond _ _ _ _ _ _ _ _ _ Hs')).
    + exact (proj1 (canonical_movcond _ _ _ _ _ _ _ _ _ Hs)).
    + exact (proj2 (canonical_movcond _ _ _ _ _ _ _ _ _ Hs)).
    + exact Hid.
  - destruct (swap_commutative z z1 z3 l); cbn -[swap_commutative canonical_ok];
      destruct (swap_commutative _ _ _ _).
    + eapply canonical_trans; [exact (proj1 (canonical_add2 _ _ _ _ _ _ _ _ _ Hs))|].
      intros Hs'. exact (proj2 (canonical_add2 _ _ _ _ _ _ _ _ _ Hs')).
    + exact (proj1 (canonical_add2 _ _ _ _ _ _ _ _ _ Hs)).
    + exact (proj2 (canonical_add2 _ _ _ _ _ _ _ _ _ Hs)).
    + exact Hid.
Qed.

(** ** Operations that stay *)

Lemma tget_ext (v v' : list Z) :
  length v' = length v -> length v = length s.(temps) ->
  (forall t, valid s t -> tget v' t = tget v t) -> v' = v.
Proof.
  intros Hl Hv H. apply list_eq. intros k. destruct (decide (k < length v)%nat).
  - specialize (H (Z.of_nat k)). unfold valid, nb_temps, tget in H. rewrite Nat2Z.id in H.
    rewrite !list_lookup_lookup_total_lt by lia. f_equal. apply H. lia.
  - rewrite !lookup_ge_None_2 by lia. done.
Qed.

(** The values of the temporaries [ts] are forgotten. *)
Lemma known_outputs l v v' ts :
  known l v -> Forall (valid s) ts -> length v' = length v ->
  (forall t, valid s t -> t ∉ ts -> tget v' t = tget v t) -> known (reset_outputs ts l) v'.
Proof.
  intros K Hts Hl. revert l v K Hl. induction Hts as [|t ts Ht _ IH]; intros l v K Hl H.
  - rewrite (tget_ext v v'); [done|done|apply (kn_length _ _ _ K)|]. intros t Ht. apply H; [done|].
    apply not_elem_of_nil.
  - apply (IH _ (tset t (tget v' t) v)); [by apply known_forget|by rewrite length_tset|].
    intros x Hx Hn. destruct (decide (x = t)) as [->|Hne].
    + rewrite tget_tset_same; [done|]. rewrite (kn_length _ _ _ K). apply Ht.
    + rewrite tget_tset_other; [|apply Ht|apply Hx|done]. apply H; [done|]. apply not_elem_of_cons. done.
Qed.

Lemma writes_others ts rs v v' :
  Forall (valid s) ts -> writes s ts rs v v' ->
  length v' = length v /\ forall t, valid s t -> t ∉ ts -> tget v' t = tget v t.
Proof.
  intros Hts. revert rs v. induction Hts as [|t ts Ht _ IH]; intros [|r rs] v; try done; cbn [writes].
  { by intros ->. }
  intros (u & _ & (Hl & H)%IH). rewrite length_tset in Hl. split; [done|].
  intros x Hx [Hne Hn]%not_elem_of_cons. rewrite H by done. apply tget_tset_other; [apply Ht|apply Hx|done].
Qed.

Lemma known_writes l v v' ts rs :
  known l v -> Forall (valid s) ts -> writes s ts rs v v' -> known (reset_outputs ts l) v'.
Proof. intros K Hts [Hl H]%writes_others; [|done]. by eapply known_outputs. Qed.

Lemma known_reset l v ts : known l v -> Forall (valid s) ts -> known (reset_outputs ts l) v.
Proof. intros K Hts. by eapply known_outputs. Qed.

Lemma step_next i n v w c' : step i (mkConfig n v w) c' -> next_ok label n c'.
Proof.
  intros Hs. inversion Hs as [| |? ? ? ? ? ? ? ? Hl|? ? ? ? b ? ? Hl| |]; subst; try by left.
  - right. cbn. eauto.
  - destruct b; [right; cbn; eauto|left; cbn; congruence].
Qed.

(** Another operation with the same value. *)
Lemma refined_value i r l v rs :
  known l v -> shape s r = true -> Forall (valid s) (oargs i) -> oargs r = oargs i ->
  eval_op i.(opc) (cargs i) (rd s v <$> iargs i) = Some rs ->
  eval_op r.(opc) (cargs r) (rd s v <$> iargs r) = Some rs ->
  fold_ok i v (Ok ([r], reset_outputs (oargs i) l)).
Proof.
  intros K Hsh Hv Eo Ei Er. pose proof (same_steps_value i r v rs Ei Er Eo) as Hss.
  eexists _, _. split; [reflexivity|]. split; [exists v; by apply known_reset|].
  split; [by apply Forall_singleton|]. split.
  - intros n w c' Hr. pose proof (step_next _ _ _ _ _ Hr) as Hn. apply Hss in Hr. split_and!; [done| |done].
    apply (value_step E s label i rs) in Hr as (v' & Hw & ->); [|done]. by eapply known_writes.
  - intros n w c' Hi%Hss. eauto.
Qed.

Hypothesis Hglobals : 0 <= s.(nb_globals) <= nb_temps s.

Lemma step_length i n v w c' :
  shaped s i -> length v = length s.(temps) -> step i (mkConfig n v w) c' -> length c'.(vals) = length s.(temps).
Proof.
  intros Hs Hv Hst. unfold nb_temps in Hglobals. pose proof (sh_outputs _ _ Hs) as Ho.
  inversion Hst as [? ? ? rs v' Ev Hw|? ? ? ? El [Hc _]|? ? ? ? ? ? Eb ? ? [Hc _]|? ? ? ? ? ? Tk Hl [Hc _]
    |? ? ? ? ? ? v1 ? El Hh Hg Hw|? ? ? ? ? v1 ? Hp Hh Hw Hb]; subst; cbn [vals]; try congruence.
  - apply writes_others in Hw as [Hl _]; congruence.
  - apply writes_others in Hw as [Hl _]; [|done]. rewrite Hl. destruct (testb _ (Z.lor _ _)); [congruence|].
    destruct Hg as [Hg ->]. rewrite length_app, length_drop. lia.
  - apply writes_others in Hw as [Hl _]; [|done]. destruct (bb_end _); [destruct Hb as [Hk _]|]; congruence.
Qed.

Lemma refined_self i v l' :
  shape s i = true -> (exists v', known l' v') ->
  (forall n w c', step i (mkConfig n v w) c' -> known l' c'.(vals)) -> fold_ok i v (Ok ([i], l')).
Proof.
  intros Hsh He H. eexists _, _. split; [reflexivity|]. split; [done|]. split; [by apply Forall_singleton|]. split.
  - intros n w c' Hs. split_and!; [done|eauto|by eapply step_next].
  - eauto.
Qed.

(** Operations that keep to their outputs. *)
Lemma straight_step i n v w c' :
  bb_end i.(opc) = false -> i.(opc) <> INDEX_op_call -> step i (mkConfig n v w) c' ->
  exists rs, writes s (oargs i) rs v c'.(vals).
Proof.
  intros Hb Hc Hst.
  inversion Hst as [? ? ? rs v' Ev Hw|? ? ? ? El [Hk _]|? ? ? ? ? ? Eb ? ? [Hk _]|? ? ? ? ? ? Tk Hl [Hk _]
    |? ? ? ? ? ? v1 ? El Hh Hg Hw|? ? ? ? ? v1 ? Hp Hh Hw Hbe]; subst; cbn [vals]; try done; eauto.
  - by rewrite El in Hb.
  - by rewrite Eb in Hb.
  - unfold taken in Tk. destruct (opc i); try done. by destruct t.
  - rewrite Hb in Hbe. subst. eauto.
Qed.

Lemma oargs_plain op a : op <> INDEX_op_call -> oargs (mkInsn op a) = take (nb_oargs op) a.
Proof. destruct op; reflexivity || contradiction. Qed.

Lemma fold_default l v op a :
  known l v -> shape s (mkInsn op a) = true -> op <> INDEX_op_call ->
  fold_ok (mkInsn op a) v (Ok (do_default s op a l)).
Proof.
  intros K Hsh Hc. pose proof (shape_shaped _ _ Hsh) as Hs. pose proof (sh_outputs _ _ Hs) as Ho. pose proof (kn_length _ _ _ K) as Hlv.
  pose proof (proj1 (kn_linked _ _ _ K)) as Hll. unfold do_default. apply refined_self; [done|..].
  - exists v. destruct (bb_end op); [by apply known_all|]. apply known_reset; [done|]. by rewrite <- oargs_plain.
  - intros n w c' Hst. destruct (bb_end op) eqn:Hb.
    + apply known_all; [done|]. by eapply step_length.
    + apply straight_step in Hst as [rs Hw]; [|done..].
      rewrite <- oargs_plain by done.
      by eapply known_writes.
Qed.

Lemma call_layout a :
  shaped s (mkInsn INDEX_op_call a) -> 0 <= arg a 0 ->
  let i := mkInsn INDEX_op_call a in
  oargs i = take (Z.to_nat (Z.shiftr (arg a 0) 16)) (drop 1 a) /\
  call_flags i = arg a (Z.to_nat (Z.shiftr (arg a 0) 16 + Z.land (arg a 0) 0xffff + 1)).
Proof.
  intros Hs Hz i. split; [done|]. pose proof (sh_length _ _ Hs) as Hl. unfold words in Hl. cbn [opc args] in Hl.
  pose proof (proj2 (Z.shiftr_nonneg (arg a 0) 16) Hz). pose proof (proj2 (Z.land_nonneg (arg a 0) 0xffff)).
  unfold call_flags, cargs, oargs, iargs, i, arg in *. cbn [opc args].
  rewrite lookup_total_drop, !length_take, !length_drop. f_equal. lia.
Qed.

Lemma known_globals l v g :
  known l v -> length g = Z.to_nat s.(nb_globals) ->
  known (reset_outputs (Z.of_nat <$> seq 0 (Z.to_nat s.(nb_globals))) l) (g ++ drop (length g) v).
Proof.
  intros K Hg. pose proof (kn_length _ _ _ K) as Hl. unfold nb_temps in Hglobals.
  apply (known_outputs l v); [done|..].
  - apply Forall_fmap, Forall_forall. intros k [_ Hk]%elem_of_seq. unfold valid, nb_temps. cbn. lia.
  - rewrite length_app, length_drop. lia.
  - intros t Ht Hn. unfold tget. unfold valid in Ht. destruct (decide (Z.to_nat t < length g)%nat).
    + exfalso. apply Hn. apply list_elem_of_fmap. exists (Z.to_nat t). rewrite elem_of_seq. lia.
    + rewrite lookup_total_app_r by lia. rewrite lookup_total_drop. f_equal. lia.
Qed.

Lemma known_globals_reset l v :
  known l v -> known (reset_outputs (Z.of_nat <$> seq 0 (Z.to_nat s.(nb_globals))) l) v.
Proof.
  intros K. apply known_reset; [done|]. apply Forall_fmap, Forall_forall. intros k [_ Hk]%elem_of_seq.
  unfold valid, nb_temps in *. cbn. lia.
Qed.

Lemma call_step i n v w c' :
  i.(opc) = INDEX_op_call -> step i (mkConfig n v w) c' ->
  exists rs g v1,
    (if testb (call_flags i) (Z.lor TCG_CALL_NO_READ_GLOBALS TCG_CALL_NO_WRITE_GLOBALS)
     then v1 = v else length g = Z.to_nat s.(nb_globals) /\ v1 = g ++ drop (length g) v) /\
    writes s (oargs i) rs v1 c'.(vals).
Proof.
  intros Ho Hst.
  inversion Hst as [? ? ? rs v' Ev Hw|? ? ? ? El|? ? ? ? ? ? Eb|? ? ? ? ? ? Tk|? ? ? ? ? ? v1 ? El Hh Hg Hw
    |? ? ? ? ? v1 ? Hp]; subst; cbn [vals]; try congruence.
  - rewrite Ho in Ev. discriminate (eval_value_op _ _ _ _ Ev).
  - unfold taken in Tk. by rewrite Ho in Tk.
  - eauto.
  - by rewrite Ho in Hp.
Qed.

Lemma fold_call_ok l v a :
  known l v -> shape s (mkInsn INDEX_op_call a) = true ->
  fold_ok (mkInsn INDEX_op_call a) v (Ok (fold_call s a l)).
Proof.
  intros K Hs. pose proof (shape_consts _ Hs) as Hz. cbn in Hz. apply Z.leb_le in Hz.
  pose proof Hs as Hsh. apply shape_shaped in Hs. pose proof (sh_outputs _ _ Hs) as Ho.
  destruct (call_layout a Hs Hz) as [Eo Ef]. unfold fold_call. rewrite <- Ef, <- Eo.
  apply refined_self; [done|..].
  - exists v. apply known_reset; [|done]. destruct (testb _ _); [done|]. by apply known_globals_reset.
  - intros n w c' Hst.
    destruct (call_step (mkInsn INDEX_op_call a) _ _ _ _ eq_refl Hst) as (rs & g & v1 & Hg & Hw).
    eapply known_writes; [|done|exact Hw].
    destruct (testb _ (Z.lor _ _)); [by subst|]. destruct Hg as [Hg ->]. by apply known_globals.
Qed.
End Stages.
