(* ===== verification/OptFold.v ===== *)
(** * The simplifications of the optimizer

    Each simplification of [tcg_constant_folding] on an operation with canonical
    operands, and one whole round. *)

From S2P Require Import Prelude X86 TcgOut TcgEnc TcgEmit TcgCond TcgOpDefs TcgSem TcgIR Optimize.
From S2P Require Import OptCopies OptValues OptSound OptStages.

Section Fold.
Context {W : Type} (E : environment W) (s : tcg_temps) (label : Z -> option nat).
Hypothesis Hglobals : 0 <= s.(nb_globals) <= nb_temps s.

Local Abbreviation step := (insn_step E s label).
Local Abbreviation known := (known s).
Local Abbreviation fold_ok := (fold_ok E s label).
Local Abbreviation allows := (allows s).

(** The result of one simplification: it does not apply, or it is right. *)
Definition stage_ok (i : insn) (v : list Z) (x : res (option folded)) : Prop :=
  exists o, x = Ok o /\ match o with Some f => fold_ok i v (Ok f) | None => True end.

Lemma stage_none i v : stage_ok i v (Ok None).
Proof. by exists None. Qed.

Lemma stage_some i v x : fold_ok i v x -> stage_ok i v (r ← x; Ok (Some r)).
Proof. intros (r & l' & -> & H). exists (Some (r, l')). split; [done|]. by exists r, l'. Qed.

Lemma stage_pure i v f : fold_ok i v (Ok f) -> stage_ok i v (Ok (Some f)).
Proof. intros H. by exists (Some f). Qed.

Lemma or_else_ok i v x k : stage_ok i v x -> fold_ok i v k -> fold_ok i v (or_else x k).
Proof. by intros ([f|] & -> & H) Hk. Qed.

(** ** Knowledge about operands *)

Lemma const_rd l v t :
  known l v -> valid s t -> is_const l t = true -> rd s v t = wrap (tsize s t) (tget l t).(val).
Proof. intros K Ht H%bool_decide_eq_true. by apply (kn_const _ _ _ K). Qed.

Lemma const_value l v t n :
  known l v -> valid s t -> is_const l t = true -> 0 <= n <= tsize s t ->
  wrap n (tget v t) = wrap n (tget l t).(val).
Proof.
  intros K Ht Hc Hn. rewrite <- (wrap_rd s n v t), (const_rd l v t) by done. by apply wrap_wrap_le.
Qed.

Lemma zero_value l v t n :
  known l v -> valid s t -> is_zero l t = true -> 0 <= n <= tsize s t -> wrap n (tget v t) = 0.
Proof.
  intros K Ht [Hc Hz%Z.eqb_eq]%andb_true_iff Hn. rewrite (const_value l v t n), Hz by done. apply Zmod_0_l.
Qed.

Lemma mask_covers l v t n : known l v -> valid s t -> covers n (tget l t).(mask) (rd s v t).
Proof. intros K Ht k _ Hk. by eapply kn_mask. Qed.

Lemma mask_ones l v t : known l v -> valid s t -> is_const l t = false -> (tget l t).(mask) = ones.
Proof.
  intros K Ht Hc%bool_decide_eq_false. rewrite (kn_bits _ _ _ K t Ht). unfold mask_of. by destruct (state _).
Qed.

Lemma allows_eq i v d x y : wrap (tsize s d) x = wrap (tsize s d) y -> allows i v d x -> allows i v d y.
Proof. intros Exy (r & Er & H). exists r. split; [done|]. intros z Hz. rewrite (H z Hz). done. Qed.

(** ** Copies *)

Section Move.
Context (i : insn) (l : infos) (v : list Z) (d x : Z).
Hypothesis K : known l v.
Hypothesis Ho : oargs i = [d].
Hypothesis Hd : output_of s i.(opc) d.
Hypothesis Hx : valid s x.

Lemma copies_case :
  exists r, temps_are_copies d x l = Ok r /\
    if r : bool then (tget s.(temps) d).(type) = (tget s.(temps) x).(type) /\ rd s v d = rd s v x
    else d <> x.
Proof.
  destruct (copies_spec s l v d x K (proj1 Hd) Hx) as (r & Er & H). exists r. split; [done|].
  destruct r; [by destruct (H eq_refl)|]. intros ->. unfold temps_are_copies in Er. by rewrite Z.eqb_refl in Er.
Qed.

Lemma nop_ok :
  (tget s.(temps) d).(type) = (tget s.(temps) x).(type) -> rd s v d = rd s v x ->
  allows i v d (tget v x) -> fold_ok i v (Ok (to_nop l)).
Proof.
  intros Hty Hrd Ha. apply (allows_nop E s label i l v d K Ho (proj1 Hd)). eapply allows_eq; [|exact Ha].
  unfold rd in Hrd. rewrite Hrd. unfold tsize. by rewrite Hty.
Qed.

Lemma mov_or_nop_ok :
  is_const l x = false -> op_bits i.(opc) <= tsize s x -> allows i v d (tget v x) ->
  fold_ok i v (mov_or_nop s i.(opc) d x l).
Proof.
  intros Hc Hle Ha. unfold mov_or_nop. destruct copies_case as (r & -> & Hr). cbn [mbind res_bind].
  destruct r; [by destruct Hr; apply nop_ok|]. destruct Hd as [Hvd Htd]. apply refined_mov; try done. lia.
Qed.

Lemma movi_ok z : allows i v d z -> fold_ok i v (Ok (to_movi i.(opc) d z l)).
Proof. intros Ha. destruct Hd. by apply refined_movi. Qed.

Lemma mov_or_movi_ok :
  op_bits i.(opc) <= tsize s x -> allows i v d (tget v x) -> fold_ok i v (mov_or_movi s i.(opc) d x l).
Proof.
  intros Hle Ha. unfold mov_or_movi. destruct copies_case as (r & -> & Hr). cbn [mbind res_bind].
  destruct Hd as [Hvd Htd]. destruct r; [by destruct Hr; apply nop_ok|]. destruct (is_const l x) eqn:Hc.
  - apply movi_ok. eapply allows_eq; [|exact Ha]. apply const_value; [done..|].
    destruct (op_bits_cases (opc i)); lia.
  - apply refined_mov; try done. lia.
Qed.
End Move.

(** ** Operations with two operands *)

Lemma binop_shape op a o t :
  shape s (mkInsn op a) = true -> binop_of op = Some (o, t) ->
  exists d x y, a = [d; x; y] /\ output_of s op d /\
    (valid s x /\ wsize t <= tsize s x) /\ (valid s y /\ wsize t <= tsize s y).
Proof.
  intros Hs Ho. assert (op <> INDEX_op_call) as Hc by (intros ->; discriminate Ho).
  pose proof (shape_length s op a Hs Hc) as Hl.
  assert (nb_args op = 3%nat /\ ext32_op op = false /\ typed_op op = true) as (Hn & Hx & Ht)
    by (by destruct op; cbn in Ho; simplify_eq).
  rewrite Hn in Hl. destruct a as [|d [|x [|y []]]]; try discriminate Hl. exists d, x, y. split; [done|].
  destruct (shape_typed s _ Hs Ht) as [H1 H2].
  assert (oargs (mkInsn op [d; x; y]) = [d] /\ iargs (mkInsn op [d; x; y]) = [x; y]) as [Eo Ei]
    by (by destruct op; cbn in Ho; simplify_eq).
  rewrite Eo in H1. rewrite Ei in H2. apply Forall_cons in H1 as [H1 _].
  apply Forall_cons in H2 as [[Hvx Hx'] H2]. apply Forall_cons in H2 as [[Hvy Hy'] _].
  cbn [opc] in *. rewrite <- (op_bits_binop op o t Ho). auto.
Qed.

Lemma allows_binop op o t d x y v z :
  binop_of op = Some (o, t) -> tsize s d = op_bits op ->
  wsize t <= tsize s x -> wsize t <= tsize s y ->
  (binop_defined o (wsize t) (wrap (wsize t) (tget v y)) = true ->
   wrap (wsize t) (binop_value o (wsize t) (wrap (wsize t) (tget v x)) (wrap (wsize t) (tget v y))) =
   wrap (wsize t) z) ->
  allows (mkInsn op [d; x; y]) v d z.
Proof.
  intros Ho Hd Hx Hy H. pose proof (wsize_pos t) as Hp.
  assert (iargs (mkInsn op [d; x; y]) = [x; y] /\ cargs (mkInsn op [d; x; y]) = []) as [Ei Ec]
    by (by destruct op; cbn in Ho; simplify_eq).
  eexists. rewrite Ei, Ec. cbn [opc fmap list_fmap]. rewrite (eval_binop op o t) by done. split; [done|].
  rewrite !wrap_rd by lia. rewrite Hd, (op_bits_binop op o t Ho).
  unfold defined. destruct (binop_defined _ _ _); [|done]. intros w [= <-]. by apply H.
Qed.

(** What the simplifications use of the values. *)
Lemma shift_of_zero o n y : 0 < n -> is_shift o = true -> wrap n (binop_value o n 0 y) = 0.
Proof.
  intros Hn. assert (swrap n 0 = 0) as Hs.
  { apply swrap_id; [done|]. unfold in_s. pose proof (Z.pow_pos_nonneg 2 (n - 1)). lia. }
  destruct o; try done; intros _; cbn [binop_value];
    rewrite ?Hs, ?Z.shiftl_0_l, ?Z.shiftr_0_l; cbn [Z.lor]; by rewrite ?wrap_wrap, ?Zmod_0_l.
Qed.

Definition right_zero (o : binop) : bool :=
  match o with BMul | BAnd => false | _ => true end.

Lemma neutral_zero o n x :
  0 < n -> right_zero o = true -> wrap n (binop_value o n (wrap n x) 0) = wrap n x.
Proof.
  intros Hn. pose proof (wrap_range n x ltac:(lia)) as Hx.
  destruct o; try done; intros _; cbn [binop_value];
    rewrite ?Z.add_0_r, ?Z.sub_0_r, ?Z.lor_0_r, ?Z.lxor_0_r, ?Z.shiftl_0_r, ?Z.shiftr_0_r, ?wrap_wrap; try done.
  - by rewrite wrap_swrap, wrap_wrap.
  - rewrite (Z.shiftr_div_pow2 _ n), (Z.div_small (wrap n x)) by (unfold in_u in Hx; lia).
    by rewrite Z.lor_0_r, wrap_wrap.
  - rewrite wrap_lor_r, wrap_shifted, Z.lor_0_r by lia. apply wrap_wrap.
Qed.

(** A shift count below the width, as the host takes it. *)
Lemma count_low t y m :
  m = 32 \/ m = 64 -> wsize t <= m -> wrap (wsize t) y < wsize t -> y mod m = wrap (wsize t) y.
Proof.
  intros Hm Hle Hy. pose proof (wsize_pos t) as Hp. pose proof (wrap_range (wsize t) y ltac:(lia)) as Hr.
  unfold in_u in Hr. rewrite <- (Z.mod_small (wrap (wsize t) y) m) by lia.
  symmetry. apply Z.mod_mod_divide.
  destruct Hm as [-> | ->], t; try (by cbn in Hle); [by exists (2 ^ 27)|by exists (2 ^ 26)|by exists (2 ^ 58)].
Qed.

Section Binop.
Context (l : infos) (v : list Z) (op : TCGOpcode) (o : binop) (t : TCGType) (d x y : Z).
Hypothesis K : known l v.
Hypothesis Hop : binop_of op = Some (o, t).
Hypothesis Hd : output_of s op d.
Hypothesis Hx : valid s x.
Hypothesis Hlx : wsize t <= tsize s x.
Hypothesis Hy : valid s y.
Hypothesis Hly : wsize t <= tsize s y.

Local Abbreviation i := (mkInsn op [d; x; y]).
Local Abbreviation n := (wsize t).
Local Abbreviation X := (wrap (wsize t) (tget v x)).
Local Abbreviation Y := (wrap (wsize t) (tget v y)).

Lemma binop_output : oargs i = [d].
Proof. clear -Hop. by destruct op; cbn in Hop; simplify_eq. Qed.

Lemma binop_movi z :
  (binop_defined o n Y = true -> wrap n (binop_value o n X Y) = wrap n z) ->
  fold_ok i v (Ok (to_movi op d z l)).
Proof.
  intros H. apply (movi_ok i l v d K binop_output Hd). apply (allows_binop op o t); try done. apply Hd.
Qed.

Lemma binop_mov_or_nop :
  is_const l x = false -> (binop_defined o n Y = true -> wrap n (binop_value o n X Y) = X) ->
  fold_ok i v (mov_or_nop s op d x l).
Proof.
  intros Hc H. apply (mov_or_nop_ok i l v d x K binop_output Hd Hx Hc).
  - cbn [opc]. by rewrite (op_bits_binop op o t).
  - apply (allows_binop op o t); try done. apply Hd.
Qed.

Lemma binop_mov_or_movi :
  (binop_defined o n Y = true -> wrap n (binop_value o n X Y) = X) ->
  fold_ok i v (mov_or_movi s op d x l).
Proof.
  intros H. apply (mov_or_movi_ok i l v d x K binop_output Hd Hx).
  - cbn [opc]. by rewrite (op_bits_binop op o t).
  - apply (allows_binop op o t); try done. apply Hd.
Qed.

Lemma zero_of r m : 0 < m -> valid s r -> m <= tsize s r -> is_zero l r = true -> wrap m (tget v r) = 0.
Proof. intros. apply (zero_value l); try done. lia. Qed.

(** "shift/rot r, 0, a => movi r, 0" *)
Lemma shift_zero_ok : is_shift o = true -> is_zero l x = true -> fold_ok i v (Ok (to_movi op d 0 l)).
Proof.
  intros Hsh Hz. pose proof (wsize_pos t). apply binop_movi. intros _.
  by rewrite (zero_of x n), shift_of_zero by done.
Qed.

(** "op r, a, 0 => mov r, a" *)
Lemma right_zero_ok :
  right_zero o = true -> is_const l x = false -> is_zero l y = true -> fold_ok i v (mov_or_nop s op d x l).
Proof.
  intros Hr Hc Hz. pose proof (wsize_pos t). apply binop_mov_or_nop; [done|]. intros _.
  by rewrite (zero_of y n), neutral_zero.
Qed.

(** "op r, a, 0 => movi r, 0" *)
Lemma absorbing_ok :
  right_zero o = false -> is_zero l y = true -> fold_ok i v (Ok (to_movi op d 0 l)).
Proof.
  intros Hr Hz. pose proof (wsize_pos t). apply binop_movi. intros _. rewrite (zero_of y n) by done.
  destruct o; try done; cbn [binop_value].
  - by rewrite Z.mul_0_r, wrap_wrap.
  - by rewrite Z.land_0_r.
Qed.

Lemma equal_operands : equal_temps s l v x y -> X = Y.
Proof. intros [Ev _ _]. pose proof (wsize_pos t). rewrite <- !(wrap_rd s) by lia. by rewrite Ev. Qed.

Lemma same_mov_ok :
  o = BOr \/ o = BAnd -> is_const l x = false -> equal_temps s l v x y -> fold_ok i v (mov_or_nop s op d x l).
Proof.
  intros Ho Hc He. apply binop_mov_or_nop; [done|]. intros _. rewrite <- (equal_operands He).
  destruct Ho as [->| ->]; cbn [binop_value]; by rewrite ?Z.lor_diag, ?Z.land_diag, wrap_wrap.
Qed.

Lemma same_zero_ok :
  o = BSub \/ o = BXor -> equal_temps s l v x y -> fold_ok i v (Ok (to_movi op d 0 l)).
Proof.
  intros Ho He. apply binop_movi. intros _. rewrite <- (equal_operands He).
  destruct Ho as [->| ->]; cbn [binop_value]; by rewrite ?Z.sub_diag, ?Z.lxor_nilpotent, ?wrap_wrap.
Qed.

(** Two constants. *)
Lemma fold_constants_ok :
  is_const l x = true -> is_const l y = true ->
  exists r, do_constant_folding op (tget l x).(val) (tget l y).(val) = Ok r /\
    fold_ok i v (Ok (to_movi op d r l)).
Proof.
  intros Cx Cy. pose proof (wsize_pos t).
  destruct (folding_binop op o t (tget l x).(val) (tget l y).(val) Hop) as (r & Er & Hr).
  exists r. split; [done|]. apply binop_movi.
  rewrite (const_value l v x n), (const_value l v y n) by (done || lia). intros Hdef. symmetry. by apply Hr.
Qed.

(** No bit of the result can be set. *)
Lemma operand_covers r : valid s r -> n <= tsize s r -> covers n (tget l r).(mask) (wrap n (tget v r)).
Proof.
  intros Hr Hle. pose proof (wsize_pos t). rewrite <- (wrap_rd s) by lia. apply covers_wrap.
  by apply mask_covers.
Qed.

Lemma const_count m :
  is_const l y = true -> m = 32 \/ m = 64 -> n <= m -> Y < n -> (tget l y).(val) mod m = Y.
Proof.
  intros Cy Hm Hle HY. pose proof (wsize_pos t). rewrite (const_value l v y n) in * by (done || lia).
  by apply count_low.
Qed.

Lemma binop_mask_zero :
  (op_mask op [d; x; y] l).1 = 0 -> binop_defined o n Y = true -> wrap n (binop_value o n X Y) = 0.
Proof.
  pose proof (wsize_pos t) as Hn. pose proof (type_cases t) as Hc.
  pose proof (operand_covers x Hx Hlx) as Cx. pose proof (operand_covers y Hy Hly) as Cy.
  pose proof (wrap_range n (tget v y) ltac:(lia)) as Ry. unfold in_u in Ry.
  destruct op; cbn in Hop; simplify_eq; cbn [op_mask fst]; try discriminate.
  all: change (arg_info l [d; x; y] 1) with (tget l x); change (arg_info l [d; x; y] 2) with (tget l y);
    change (const_arg l [d; x; y] 2) with (is_const l y); intros Hz Hdef; cbn [binop_value];
    rewrite ?wrap_wrap; apply covers_zero; try lia; rewrite <- Hz.
  - destruct (is_const l y); by apply covers_land.
  - by apply covers_lor.
  - by apply covers_lxor.
  - apply Z.ltb_lt in Hdef. destruct (is_const l y) eqn:Ec; [|discriminate].
    unfold cshl. rewrite (const_count 64) by (done || lia).
    pose proof (covers_shl n (tget l x).(mask) X Y ltac:(lia) ltac:(lia) Cx) as H. unfold cshl in H.
    by rewrite (Z.mod_small Y) in H by lia.
  - apply Z.ltb_lt in Hdef. destruct (is_const l y) eqn:Ec; [|discriminate].
    unfold cshr. rewrite (const_count n) by (done || lia).
    pose proof (covers_shr n (tget l x).(mask) X Y ltac:(lia) Cx) as H. unfold cshr in H.
    by rewrite (Z.mod_small Y), wrap_wrap in H by lia.
  - apply Z.ltb_lt in Hdef. destruct (is_const l y) eqn:Ec; [|discriminate].
    unfold csar. rewrite (const_count n) by (done || lia).
    pose proof (covers_sar n (tget l x).(mask) X Y ltac:(lia) ltac:(lia) Cx) as H. unfold csar in H.
    by rewrite (Z.mod_small Y) in H by lia.
Qed.

(** "and r, a, c => mov r, a" where [c] has all bits of [a]. *)
Lemma binop_unaffected :
  (op_mask op [d; x; y] l).2 = 0 -> binop_defined o n Y = true -> wrap n (binop_value o n X Y) = X.
Proof.
  pose proof (wsize_pos t) as Hn. pose proof (type_cases t) as Hc. pose proof (operand_covers x Hx Hlx) as Cx.
  destruct op; cbn in Hop; simplify_eq; cbn [op_mask snd]; try discriminate.
  change (arg_info l [d; x; y] 1) with (tget l x); change (arg_info l [d; x; y] 2) with (tget l y).
  change (const_arg l [d; x; y] 2) with (is_const l y). destruct (is_const l y) eqn:Ec; [|discriminate].
  cbn [snd]. intros Hz _. cbn [binop_value].
  pose proof (unaffected n _ _ _ ltac:(lia) Cx Hz) as Hcov. rewrite (const_value l v y n) by (done || lia).
  rewrite (kn_exact _ _ _ _ K Hy) in Hcov by (by apply bool_decide_eq_true in Ec).
  rewrite <- (wrap_wrap n (tget v x)) at 2. apply wrap_ext; [lia|]. intros k Hk.
  rewrite Z.land_spec, testbit_wrap, (testbit_wrap n (val _)) by done.
  destruct (Z.testbit (tget v x) k) eqn:Eb; [|done].
  rewrite (Hcov k Hk); [done|]. by rewrite testbit_wrap.
Qed.
End Binop.

(** ** Operations with one operand *)

Lemma unop_shape op a u :
  shape s (mkInsn op a) = true -> unop_of op = Some u ->
  exists d x, a = [d; x] /\ output_of s op d /\ input_of s op x.
Proof.
  intros Hs Ho. assert (op <> INDEX_op_call) as Hc by (intros ->; discriminate Ho).
  pose proof (shape_length s op a Hs Hc) as Hl.
  assert (nb_args op = 2%nat /\ typed_op op = true) as (Hn & Ht) by (by destruct op; cbn in Ho; simplify_eq).
  rewrite Hn in Hl. destruct a as [|d [|x []]]; try discriminate Hl. exists d, x. split; [done|].
  destruct (shape_typed s _ Hs Ht) as [H1 H2].
  assert (oargs (mkInsn op [d; x]) = [d] /\ iargs (mkInsn op [d; x]) = [x]) as [Eo Ei]
    by (by destruct op; cbn in Ho; simplify_eq).
  rewrite Eo in H1. rewrite Ei in H2. apply Forall_cons in H1 as [H1 _]. by apply Forall_cons in H2 as [H2 _].
Qed.

(** Extensions of the low [k] bits. *)
Definition extend (signed : bool) (n k x : Z) : Z := if signed then wrap n (swrap k x) else wrap k x.

Lemma extend_plain signed n k m x :
  0 < k <= n -> covers n m x -> (signed = true -> Z.testbit m (k - 1) = false) ->
  wrap n (extend signed n k x) = wrap n (wrap k x).
Proof.
  intros Hk Hc Hs. destruct signed; cbn [extend]; [|done]. rewrite wrap_wrap. apply ext_same; [lia..|].
  destruct (Z.testbit x (k - 1)) eqn:Eb; [|done]. apply Hc in Eb; [|lia]. by rewrite Hs in Eb.
Qed.

Lemma extend_mask k : 0 < k -> 2 ^ k - 1 = Z.ones k.
Proof. intros Hk. rewrite Z.ones_equiv. lia. Qed.

Lemma extend_zero n k m x : 0 < k <= n -> covers n m x -> Z.land m (2 ^ k - 1) = 0 -> wrap n (wrap k x) = 0.
Proof.
  intros Hk Hc Hz. apply wrap_zero; [lia|]. intros j Hj. destruct (Z.lt_ge_cases j k).
  - rewrite testbit_wrap by lia. destruct (Z.testbit x j) eqn:Eb; [|done]. apply Hc in Eb; [|done].
    assert (Z.testbit (Z.land m (2 ^ k - 1)) j = false) as Hf by (by rewrite Hz, Z.bits_0).
    rewrite extend_mask, Z.land_spec, Z.ones_spec_low, Eb in Hf by lia. done.
  - apply testbit_wrap_high. lia.
Qed.

Lemma extend_same n k m x :
  0 < k <= n -> n <= 64 -> covers n m x -> Z.land m (not64 (2 ^ k - 1)) = 0 -> wrap n (wrap k x) = wrap n x.
Proof.
  intros Hk Hn Hc Hz. pose proof (unaffected n _ _ _ ltac:(lia) Hc Hz) as Hu.
  apply wrap_ext; [lia|]. intros j Hj. destruct (Z.lt_ge_cases j k); [apply testbit_wrap; lia|].
  rewrite testbit_wrap_high by lia. destruct (Z.testbit x j) eqn:Eb; [|done]. apply Hu in Eb; [|done].
  by rewrite extend_mask, Z.ones_spec_high in Eb by lia.
Qed.

Definition ext_of (u : unop) : option (bool * Z) :=
  match u with
  | UExt8s _ => Some (true, 8) | UExt8u _ => Some (false, 8)
  | UExt16s _ => Some (true, 16) | UExt16u _ => Some (false, 16)
  | UExt32s => Some (true, 32) | UExt32u => Some (false, 32)
  | _ => None
  end.

Lemma ext_of_value u signed k n x : ext_of u = Some (signed, k) -> unop_value u n x = extend signed n k x.
Proof. by destruct u; intros [= <- <-]. Qed.

Section Unop.
Context (l : infos) (v : list Z) (op : TCGOpcode) (u : unop) (d x : Z).
Hypothesis K : known l v.
Hypothesis Hop : unop_of op = Some u.
Hypothesis Hd : output_of s op d.
Hypothesis Hx : input_of s op x.

Local Abbreviation i := (mkInsn op [d; x]).
Local Abbreviation n := (wsize (unop_type u)).
Local Abbreviation X := (wrap (wsize (unop_type u)) (rd s v x)).

Lemma unop_output : oargs i = [d].
Proof. clear -Hop. by destruct op; cbn in Hop; simplify_eq. Qed.

Lemma allows_unop z :
  (unop_defined u X = true -> wrap n (unop_value u n X) = wrap n z) -> allows i v d z.
Proof.
  intros H. assert (iargs i = [x] /\ cargs i = []) as [Ei Ec]
    by (clear -Hop; by destruct op; cbn in Hop; simplify_eq).
  eexists. rewrite Ei, Ec. cbn [opc fmap list_fmap]. rewrite (eval_unop op u) by done. split; [done|].
  rewrite (proj2 Hd), (op_bits_unop op u Hop).
  unfold defined. destruct (unop_defined _ _); [|done]. intros w [= <-]. by apply H.
Qed.

Lemma unop_covers : covers n (tget l x).(mask) X.
Proof. apply covers_wrap. apply mask_covers; [done|apply Hx]. Qed.

Lemma unop_ext_mask signed k :
  ext_of u = Some (signed, k) ->
  0 < k <= 32 /\ k <= n /\
  op_mask op [d; x] l =
    let m := (tget l x).(mask) in
    if signed && Z.testbit m (k - 1) then (ones, ones)
    else (Z.land m (2 ^ k - 1), Z.land m (not64 (2 ^ k - 1))).
Proof.
  intros Hu. split_and!.
  1-3: clear -Hu; by destruct u as [| | | | |[]|[]|[]|[]| |]; cbn in Hu; simplify_eq.
  cbn zeta. rewrite <- testb_pow2 by (clear -Hu; by destruct u; cbn in Hu; simplify_eq).
  destruct op; cbn in Hop; simplify_eq; cbn in Hu; simplify_eq; cbn [op_mask andb]; done.
Qed.

Lemma unop_mask_zero :
  (op_mask op [d; x] l).1 = 0 -> unop_defined u X = true -> wrap n (unop_value u n X) = 0.
Proof.
  pose proof unop_covers as Hc. pose proof (wsize_pos (unop_type u)) as Hp.
  intros Hz _. destruct (ext_of u) as [[signed k]|] eqn:Eu.
  - destruct (unop_ext_mask signed k Eu) as (Hk & Hkn & Em). rewrite Em in Hz. cbn zeta in Hz.
    rewrite (ext_of_value u signed k) by done.
    destruct (signed && _) eqn:Es; [discriminate|]. cbn [fst] in Hz.
    rewrite (extend_plain signed n k (tget l x).(mask)); [|lia|done|].
    + apply (extend_zero n k (tget l x).(mask)); [lia|done|done].
    + intros ->. done.
  - assert (n <= 64) as H64 by (destruct (type_cases (unop_type u)); lia).
    destruct op; cbn in Hop; simplify_eq; try discriminate. cbn [unop_value]. rewrite wrap_wrap.
    by eapply covers_neg; [lia|exact Hz|].
Qed.

(** An extension that changes nothing has a constant operand. *)
Lemma unop_unaffected :
  (op_mask op [d; x] l).2 = 0 ->
  is_const l x = true /\ (unop_defined u X = true -> wrap n (unop_value u n X) = wrap n (tget l x).(val)).
Proof.
  intros Hz. pose proof unop_covers as Hc. destruct Hx as [Hvx _].
  assert (n <= 64) as H64 by (destruct (type_cases (unop_type u)); lia).
  destruct (ext_of u) as [[signed k]|] eqn:Eu.
  2: { exfalso. destruct op; cbn in Hop; simplify_eq; discriminate. }
  destruct (unop_ext_mask signed k Eu) as (Hk & Hkn & Em). rewrite Em in Hz. cbn zeta in Hz.
  destruct (signed && _) eqn:Es; [discriminate|]. cbn [snd] in Hz.
  destruct (is_const l x) eqn:Ec.
  - split; [done|]. intros _. rewrite (ext_of_value u signed k) by done.
    rewrite (extend_plain signed n k (tget l x).(mask)); [|lia|done|by intros ->].
    pose proof (tsize_ge s x). rewrite (wrap_wrap_le k n), (const_rd l v x), (wrap_wrap_le k) by (done || lia).
    apply (extend_same n k (tget l x).(mask)); [lia|done| |done].
    rewrite (kn_exact _ _ _ _ K Hvx) by (by apply bool_decide_eq_true in Ec). by intros j _.
  - exfalso. rewrite (mask_ones l v x K Hvx Ec) in Hz.
    assert (k = 8 \/ k = 16 \/ k = 32) as Hk' by (clear -Eu; destruct u; cbn in Eu; simplify_eq; auto).
    by destruct Hk' as [->|[->| ->]].
Qed.

Lemma unop_movi z :
  (unop_defined u X = true -> wrap n (unop_value u n X) = wrap n z) -> fold_ok i v (Ok (to_movi op d z l)).
Proof. intros H. apply (movi_ok i l v d K unop_output Hd). by apply allows_unop. Qed.

Lemma unop_const_value :
  is_const l x = true -> wrap n (unop_value u n X) = wrap n (unop_value u n (wrap n (tget l x).(val))).
Proof.
  intros Hc. destruct Hx as [Hvx Hlx]. pose proof (wsize_pos (unop_type u)).
  rewrite (const_rd l v x) by done. destruct (ext32_op op) eqn:Ex.
  - pose proof (tsize_ge s x). destruct op; try discriminate Ex; cbn in Hop; simplify_eq; cbn [unop_value unop_type];
      change (wsize TCG_TYPE_I64) with 64; by rewrite ?swrap_wrap_le, ?(wrap_wrap_le 32) by lia.
  - rewrite wrap_wrap_le; [done|]. rewrite (op_bits_unop op u Hop) in Hlx. auto with lia.
Qed.

Lemma unop_fold_ok :
  folded_unop u = true -> is_const l x = true ->
  exists r, do_constant_folding op (tget l x).(val) 0 = Ok r /\ fold_ok i v (Ok (to_movi op d r l)).
Proof.
  intros Hf Hc. destruct (folding_unop op u (tget l x).(val) 0 Hop Hf) as (r & Er & Hr).
  exists r. split; [done|]. apply unop_movi. intros _. by rewrite unop_const_value, Hr.
Qed.

Lemma unop_mov_or_movi : (op_mask op [d; x] l).2 = 0 -> fold_ok i v (mov_or_movi s op d x l).
Proof.
  intros [Hc Ha%allows_unop]%unop_unaffected. destruct Hx as [Hvx _]. unfold mov_or_movi.
  destruct (copies_case i l v d x K unop_output Hd Hvx) as (r & -> & Hr). cbn [mbind res_bind]. destruct r.
  - destruct Hr as [Hty Hrd]. apply (nop_ok i l v d x K unop_output Hd Hty Hrd).
    eapply allows_eq; [|exact Ha]. symmetry. pose proof (const_rd l v x K Hvx Hc) as Hv. unfold rd in Hv.
    unfold tsize in *. by rewrite Hty.
  - rewrite Hc. by apply (movi_ok i l v d K unop_output Hd).
Qed.
End Unop.

(** ** Conditions *)

Lemma cond_ok l v op t x y c k :
  known l v -> valid s x -> valid s y -> wsize t <= tsize s x -> wsize t <= tsize s y ->
  op_bits op = wsize t -> cond_of c = Some k -> nontrivial k = true ->
  exists r, do_constant_folding_cond op x y c l = Ok r /\
    forall b, r = Some b ->
      eval_cond k (wsize t) (wrap (wsize t) (rd s v x)) (wrap (wsize t) (rd s v y)) = b.
Proof.
  intros K Hx Hy Hlx Hly Hb Hc Hk. pose proof (wsize_pos t) as Hp. rewrite !wrap_rd by lia.
  unfold do_constant_folding_cond. rewrite Hb. unfold as_cond. rewrite Hc. cbn [of_option mbind res_bind].
  destruct (is_const l x && is_const l y) eqn:Ec.
  { apply andb_true_iff in Ec as [Cx Cy]. rewrite folding_cond_value by done. eexists. split; [reflexivity|].
    intros b [= <-]. by rewrite (const_value l v x), (const_value l v y) by (done || lia). }
  destruct (copies_spec s l v x y K Hx Hy) as (r & -> & Hr). cbn [mbind res_bind]. destruct r.
  { rewrite (folding_cond_same k (wsize t) (wrap (wsize t) (tget v y)) Hk). eexists. split; [reflexivity|].
    intros b [= <-]. rewrite <- !(wrap_rd s) by lia. by rewrite (eq_value _ _ _ _ _ (Hr eq_refl)). }
  destruct (is_zero l y) eqn:Ez; [|by exists None].
  apply cond_of_inv in Hc. rewrite (zero_value l v y) by (done || lia).
  pose proof (wrap_range (wsize t) (tget v x) ltac:(lia)) as Hr'. unfold in_u in Hr'.
  destruct (Z.eqb_spec c (cond_code TCG_COND_LTU)) as [E1|_].
  { eexists. split; [reflexivity|]. intros b [= <-]. rewrite Hc in E1. destruct k; try discriminate E1.
    cbn [eval_cond]. lia. }
  destruct (Z.eqb_spec c (cond_code TCG_COND_GEU)) as [E1|_]; [|by exists None].
  eexists. split; [reflexivity|]. intros b [= <-]. rewrite Hc in E1. destruct k; try discriminate E1.
  cbn [eval_cond]. lia.
Qed.
End Fold.
