(* ===== verification/OptRound.v ===== *)
(** * One round of the optimizer

    Every operation of a well-formed program is replaced by operations that do the
    same, whatever is known about the temporaries. *)

From S2P Require Import Prelude X86 TcgOut TcgEnc TcgEmit TcgCond TcgOpDefs TcgSem TcgIR Optimize.
From S2P Require Import OptCopies OptValues OptSound OptStages OptFold.

Section Round.
Context {W : Type} (E : environment W) (s : tcg_temps) (label : Z -> option nat).
Hypothesis Hglobals : 0 <= s.(nb_globals) <= nb_temps s.

Local Abbreviation step := (insn_step E s label).
Local Abbreviation known := (known s).
Local Abbreviation fold_ok := (fold_ok E s label).
Local Abbreviation stage_ok := (stage_ok E s label).
Local Abbreviation allows := (allows s).

(** ** Operations with other operands *)

(** A temporary that holds a word of the type [t]. *)
Definition word_of (t : TCGType) (x : Z) : Prop := valid s x /\ wsize t <= tsize s x.

Lemma input_word op t x : op_bits op = wsize t -> ext32_op op = false -> input_of s op x -> word_of t x.
Proof. intros Hb He [Hv Hl]. split; [done|]. rewrite <- Hb. auto. Qed.

Lemma inputs_words op t xs :
  op_bits op = wsize t -> ext32_op op = false -> Forall (input_of s op) xs -> Forall (word_of t) xs.
Proof. intros Hb He H. eapply Forall_impl; [exact H|]. intros x. by apply input_word. Qed.

Lemma shape_words op t a :
  shape s (mkInsn op a) = true -> typed_op op = true -> op_bits op = wsize t -> ext32_op op = false ->
  Forall (output_of s op) (oargs (mkInsn op a)) /\ Forall (word_of t) (iargs (mkInsn op a)) /\
  length a = nb_args op.
Proof.
  intros Hs Ht Hb He. destruct (shape_typed s _ Hs Ht) as [Ho Hi]. split_and!; [done|by eapply inputs_words|].
  apply (shape_length s); [done|]. by intros ->.
Qed.

Lemma shape_mov t a :
  shape s (mkInsn (INDEX_op_mov t) a) = true ->
  exists d x, a = [d; x] /\ output_of s (INDEX_op_mov t) d /\ word_of t x.
Proof.
  intros Hs. destruct (shape_words _ t a Hs) as (Ho & Hi & Hl); [done|by destruct t|done|].
  destruct a as [|d [|x []]]; try discriminate Hl. exists d, x.
  apply Forall_cons in Ho as [Ho _], Hi as [Hi _]. done.
Qed.

Lemma shape_movi t a :
  shape s (mkInsn (INDEX_op_movi t) a) = true ->
  exists d x, a = [d; x] /\ output_of s (INDEX_op_movi t) d.
Proof.
  intros Hs. destruct (shape_words _ t a Hs) as (Ho & _ & Hl); [done|by destruct t|done|].
  destruct a as [|d [|x []]]; try discriminate Hl. exists d, x. by apply Forall_cons in Ho as [Ho _].
Qed.

Lemma shape_setcond t a :
  shape s (mkInsn (INDEX_op_setcond t) a) = true ->
  exists d x y c k, a = [d; x; y; c] /\ output_of s (INDEX_op_setcond t) d /\ word_of t x /\ word_of t y /\
    cond_of c = Some k /\ nontrivial k = true.
Proof.
  intros Hs. destruct (shape_words _ t a Hs) as (Ho & Hi & Hl); [done|by destruct t|done|].
  destruct a as [|d [|x [|y [|c []]]]]; try discriminate Hl.
  apply Forall_cons in Ho as [Ho _], Hi as [Hx Hi]. apply Forall_cons in Hi as [Hy _].
  destruct (real_cond_spec _ (shape_consts s _ Hs)) as (k & Hk & Hn & _). by exists d, x, y, c, k.
Qed.

Lemma shape_brcond t a :
  shape s (mkInsn (INDEX_op_brcond t) a) = true ->
  exists x y c b k, a = [x; y; c; b] /\ word_of t x /\ word_of t y /\ cond_of c = Some k /\ nontrivial k = true.
Proof.
  intros Hs. destruct (shape_words _ t a Hs) as (_ & Hi & Hl); [done|by destruct t|done|].
  destruct a as [|x [|y [|c [|b []]]]]; try discriminate Hl.
  apply Forall_cons in Hi as [Hx Hi]. apply Forall_cons in Hi as [Hy _].
  destruct (real_cond_spec _ (shape_consts s _ Hs)) as (k & Hk & Hn & _). by exists x, y, c, b, k.
Qed.

Lemma shape_movcond t a :
  shape s (mkInsn (INDEX_op_movcond t) a) = true ->
  exists d x y p q c k, a = [d; x; y; p; q; c] /\ output_of s (INDEX_op_movcond t) d /\
    Forall (word_of t) [x; y; p; q] /\ cond_of c = Some k /\ nontrivial k = true.
Proof.
  intros Hs. destruct (shape_words _ t a Hs) as (Ho & Hi & Hl); [done|by destruct t|done|].
  destruct a as [|d [|x [|y [|p [|q [|c []]]]]]]; try discriminate Hl.
  apply Forall_cons in Ho as [Ho _].
  destruct (real_cond_spec _ (shape_consts s _ Hs)) as (k & Hk & Hn & _). by exists d, x, y, p, q, c, k.
Qed.

Lemma shape_deposit t a :
  shape s (mkInsn (INDEX_op_deposit t) a) = true ->
  exists d x y pos len, a = [d; x; y; pos; len] /\ output_of s (INDEX_op_deposit t) d /\
    word_of t x /\ word_of t y /\ 0 <= pos /\ 0 < len /\ pos + len <= wsize t /\ len < 64.
Proof.
  intros Hs. destruct (shape_words _ t a Hs) as (Ho & Hi & Hl); [done|by destruct t|done|].
  destruct a as [|d [|x [|y [|pos [|len []]]]]]; try discriminate Hl.
  apply Forall_cons in Ho as [Ho _], Hi as [Hx Hi]. apply Forall_cons in Hi as [Hy _].
  pose proof (shape_consts s _ Hs) as Hc. cbn in Hc. exists d, x, y, pos, len.
  split_and!; try done; lia.
Qed.

(** ** Known bits *)

Lemma word_covers l v t x :
  known l v -> word_of t x -> covers (wsize t) (tget l x).(mask) (wrap (wsize t) (rd s v x)).
Proof. intros K [Hv _]. apply covers_wrap. by apply mask_covers. Qed.

Lemma word_const l v t x :
  known l v -> word_of t x -> is_const l x = true ->
  wrap (wsize t) (rd s v x) = wrap (wsize t) (tget l x).(val).
Proof.
  intros K [Hv Hl] Hc. pose proof (wsize_pos t). rewrite wrap_rd by lia. apply (const_value s); try done. lia.
Qed.

Lemma word_move op t d x : op_bits op = wsize t -> output_of s op d -> word_of t x -> tsize s d <= tsize s x.
Proof. intros Hb [_ Hd] [_ Hx]. lia. Qed.

Lemma fold_mask_gen l v op a :
  ((op_mask op a l).1 = 0 -> nb_oargs op = 1%nat /\ fold_ok (mkInsn op a) v (Ok (to_movi op (arg a 0) 0 l))) ->
  ((op_mask op a l).2 = 0 -> nb_oargs op = 1%nat /\ fold_ok (mkInsn op a) v (mov_or_movi s op (arg a 0) (arg a 1) l)) ->
  stage_ok (mkInsn op a) v (fold_mask s op a l).
Proof.
  unfold fold_mask. destruct (op_mask op a l) as [m aff]. cbn [fst snd]. intros H1 H2.
  destruct (Z.eqb_spec m 0) as [->|_].
  { destruct (H1 eq_refl) as [-> H]. cbn [guard_res Nat.eqb mbind res_bind]. by apply stage_pure. }
  destruct (Z.eqb_spec aff 0) as [->|_]; [|apply stage_none].
  destruct (H2 eq_refl) as [-> H]. cbn [guard_res Nat.eqb mbind res_bind]. by apply stage_some.
Qed.

Lemma fold_mask_binop l v op a o t :
  known l v -> shape s (mkInsn op a) = true -> binop_of op = Some (o, t) ->
  stage_ok (mkInsn op a) v (fold_mask s op a l).
Proof.
  intros K Hs Ho. destruct (binop_shape s op a o t Hs Ho) as (d & x & y & -> & Hd & [Hx Hlx] & [Hy Hly]).
  assert (nb_oargs op = 1%nat) as Hn by (clear -Ho; by destruct op; cbn in Ho; simplify_eq).
  apply fold_mask_gen; intros Hz; (split; [done|]).
  - eapply binop_movi; try done. intros Hdef.
    rewrite (binop_mask_zero s l v op o t d x y K Ho Hd Hx Hlx Hy Hly Hz Hdef). done.
  - eapply binop_mov_or_movi; try done. intros Hdef.
    by apply (binop_unaffected s l v op o t d x y K Ho Hd Hx Hlx Hy Hly Hz Hdef).
Qed.

Lemma fold_mask_unop l v op a u :
  known l v -> shape s (mkInsn op a) = true -> unop_of op = Some u ->
  stage_ok (mkInsn op a) v (fold_mask s op a l).
Proof.
  intros K Hs Ho. destruct (unop_shape s op a u Hs Ho) as (d & x & -> & Hd & Hx).
  assert (nb_oargs op = 1%nat) as Hn by (clear -Ho; by destruct op; cbn in Ho; simplify_eq).
  apply fold_mask_gen; intros Hz; (split; [done|]).
  - eapply unop_movi; try done. intros Hdef.
    rewrite (unop_mask_zero s l v op u d x K Ho Hd Hx Hz Hdef). done.
  - by eapply unop_mov_or_movi.
Qed.

Lemma fold_mask_deposit l v t a :
  known l v -> shape s (mkInsn (INDEX_op_deposit t) a) = true ->
  stage_ok (mkInsn (INDEX_op_deposit t) a) v (fold_mask s (INDEX_op_deposit t) a l).
Proof.
  intros K Hs. destruct (shape_deposit t a Hs) as (d & x & y & pos & len & -> & Hd & Hx & Hy & Hp & Hl & Hn & H64).
  apply fold_mask_gen; intros Hz; (split; [done|]); [|discriminate Hz].
  apply (movi_ok E s label (mkInsn (INDEX_op_deposit t) [d; x; y; pos; len]) l v d K eq_refl Hd).
  eexists. split; [reflexivity|]. intros r [= <-].
  assert (tsize s d = wsize t) as -> by (destruct Hd as [_ ->]; by destruct t).
  pose proof (type_cases t). apply covers_zero; [lia|]. cbn [op_mask fst] in Hz. rewrite <- Hz.
  apply covers_deposit; try lia; by apply word_covers.
Qed.

Lemma eval_movcond t d x y p q c k v :
  cond_of c = Some k ->
  allows (mkInsn (INDEX_op_movcond t) [d; x; y; p; q; c]) v d
    (if eval_cond k (wsize t) (wrap (wsize t) (rd s v x)) (wrap (wsize t) (rd s v y))
     then wrap (wsize t) (rd s v p) else wrap (wsize t) (rd s v q)).
Proof.
  intros Hk. eexists. split; [cbn; rewrite Hk; reflexivity|by intros r [= <-]].
Qed.

Lemma fold_mask_movcond l v t a :
  known l v -> shape s (mkInsn (INDEX_op_movcond t) a) = true ->
  stage_ok (mkInsn (INDEX_op_movcond t) a) v (fold_mask s (INDEX_op_movcond t) a l).
Proof.
  intros K Hs. destruct (shape_movcond t a Hs) as (d & x & y & p & q & c & k & -> & Hd & Hi & Hk & _).
  rewrite !Forall_cons in Hi. destruct Hi as (_ & _ & Hp & Hq & _).
  apply fold_mask_gen; intros Hz; (split; [done|]); [|discriminate Hz].
  apply (movi_ok E s label (mkInsn (INDEX_op_movcond t) [d; x; y; p; q; c]) l v d K eq_refl Hd).
  eapply allows_eq; [|by apply eval_movcond].
  assert (tsize s d = wsize t) as -> by (destruct Hd as [_ ->]; by destruct t).
  pose proof (type_cases t). apply covers_zero; [lia|]. cbn [op_mask fst] in Hz. rewrite <- Hz.
  destruct (eval_cond _ _ _ _); [apply covers_or_l|apply covers_or_r]; by apply word_covers.
Qed.

Lemma fold_mask_ok l v op a :
  known l v -> shape s (mkInsn op a) = true -> stage_ok (mkInsn op a) v (fold_mask s op a l).
Proof.
  intros K Hs. destruct (binop_of op) as [[o t]|] eqn:Eb; [by eapply fold_mask_binop|].
  destruct (unop_of op) as [u|] eqn:Eu; [by eapply fold_mask_unop|].
  destruct op; try discriminate Eb; try discriminate Eu; try apply stage_none.
  - by apply fold_mask_movcond.
  - by apply fold_mask_deposit.
Qed.

(** ** The other simplifications *)

Lemma shape_neg t d y :
  valid s d -> tsize s d = wsize t -> word_of t y -> shape s (mkInsn (INDEX_op_neg t) [d; y]) = true.
Proof.
  intros Hd Ht [Hy Hle]. unfold shape. cbn -[forallb has_type valid_temp op_type typed_op]. cbn [forallb].
  assert (op_type (INDEX_op_neg t) = t) as -> by (by destruct t).
  rewrite (proj2 (valid_temp_spec s d) Hd), (proj2 (valid_temp_spec s y) Hy), size_type by done.
  destruct t; [done|]. rewrite size_type; [done|]. pose proof (tsize_le s y).
  change (wsize TCG_TYPE_I64) with 64 in *. lia.
Qed.

(** "sub r, 0, a => neg r, a" *)
Lemma sub_neg_ok l v t d x y :
  known l v -> output_of s (INDEX_op_sub t) d -> word_of t x -> word_of t y -> is_zero l x = true ->
  fold_ok (mkInsn (INDEX_op_sub t) [d; x; y]) v
    (Ok ([mkInsn (INDEX_op_neg t) [d; y]], reset_temp d l)).
Proof.
  intros K [Hd Htd] [Hx Hlx] [Hy Hly] Hz. pose proof (wsize_pos t).
  eapply (refined_value E s label (mkInsn (INDEX_op_sub t) [d; x; y]) (mkInsn (INDEX_op_neg t) [d; y]));
    [done|by apply shape_neg; [..|split]; destruct t|by constructor|done|reflexivity|].
  cbn [opc cargs iargs args drop take nb_oargs nb_iargs op_args fst snd Nat.add fmap list_fmap].
  rewrite (eval_unop _ (UNeg t)) by done. cbn [unop_type unop_defined unop_value binop_value defined].
  rewrite (wrap_rd s (wsize t) v x), (zero_value s l v x) by (done || lia). done.
Qed.

Lemma zero_first_ok l v op a :
  known l v -> shape s (mkInsn op a) = true -> stage_ok (mkInsn op a) v (Ok (fold_zero_first op a l)).
Proof.
  intros K Hs. destruct (binop_of op) as [[o t]|] eqn:Ho.
  2: { destruct op; try discriminate Ho; apply stage_none. }
  destruct (binop_shape s op a o t Hs Ho) as (d & x & y & -> & Hd & [Hx Hlx] & [Hy Hly]).
  assert (is_shift o = true -> is_zero l x = true ->
    fold_ok (mkInsn op [d; x; y]) v (Ok (to_movi op d 0 l))) as H by (intros; by eapply shift_zero_ok).
  destruct op; cbn in Ho; simplify_eq; cbn [fold_zero_first]; try apply stage_none; cbn [arg lookup_total list_lookup_total].
  - destruct (is_const l y); [apply stage_none|]. destruct (is_zero l x) eqn:Hz; [|apply stage_none].
    apply stage_pure. by apply sub_neg_ok.
  - destruct (is_zero l x) eqn:Hz; [|apply stage_none]. by apply stage_pure, H.
  - destruct (is_zero l x) eqn:Hz; [|apply stage_none]. by apply stage_pure, H.
  - destruct (is_zero l x) eqn:Hz; [|apply stage_none]. by apply stage_pure, H.
  - destruct (is_zero l x) eqn:Hz; [|apply stage_none]. by apply stage_pure, H.
  - destruct (is_zero l x) eqn:Hz; [|apply stage_none]. by apply stage_pure, H.
Qed.

Lemma zero_second_ok l v op a :
  known l v -> shape s (mkInsn op a) = true -> stage_ok (mkInsn op a) v (fold_zero_second s op a l).
Proof.
  intros K Hs. destruct (binop_of op) as [[o t]|] eqn:Ho.
  2: { destruct op; try discriminate Ho; apply stage_none. }
  destruct (binop_shape s op a o t Hs Ho) as (d & x & y & -> & Hd & [Hx Hlx] & [Hy Hly]).
  assert (right_zero o = true -> stage_ok (mkInsn op [d; x; y]) v
    (if is_const l x then Ok None
     else if is_zero l y then r ← mov_or_nop s op d x l; Ok (Some r) else Ok None)) as H.
  { intros Hr. destruct (is_const l x) eqn:Hc; [apply stage_none|]. destruct (is_zero l y) eqn:Hz; [|apply stage_none].
    apply stage_some. by eapply right_zero_ok. }
  destruct op; cbn in Ho; simplify_eq; try apply stage_none; by apply H.
Qed.

Lemma absorbing_stage_ok l v op a :
  known l v -> shape s (mkInsn op a) = true -> stage_ok (mkInsn op a) v (Ok (fold_absorbing op a l)).
Proof.
  intros K Hs. pose proof (sh_host _ _ (shape_shaped _ _ Hs)) as Hh. destruct (binop_of op) as [[o t]|] eqn:Ho.
  2: { destruct op; try discriminate Ho; try discriminate Hh; apply stage_none. }
  destruct (binop_shape s op a o t Hs Ho) as (d & x & y & -> & Hd & [Hx Hlx] & [Hy Hly]).
  assert (right_zero o = false -> stage_ok (mkInsn op [d; x; y]) v
    (Ok (if is_zero l y then Some (to_movi op d 0 l) else None))) as H.
  { intros Hr. destruct (is_zero l y) eqn:Hz; [|apply stage_none]. apply stage_pure. by eapply absorbing_ok. }
  destruct op; cbn in Ho; simplify_eq; try apply stage_none; by apply H.
Qed.

(** "and r, c, c" was folded by the known bits before. *)
Lemma same_stage_ok l v op a :
  known l v -> shape s (mkInsn op a) = true -> or_ok l (mkInsn op a) ->
  (forall t, op = INDEX_op_and t -> arg a 1 = arg a 2 -> is_const l (arg a 1) = false) ->
  stage_ok (mkInsn op a) v (fold_same s op a l).
Proof.
  intros K Hs Hor Hand. destruct (binop_of op) as [[o t]|] eqn:Ho.
  2: { destruct op; try discriminate Ho; apply stage_none. }
  destruct (binop_shape s op a o t Hs Ho) as (d & x & y & -> & Hd & [Hx Hlx] & [Hy Hly]).
  destruct (copies_spec s l v x y K Hx Hy) as (r & Er & Hr).
  assert (o = BSub \/ o = BXor -> stage_ok (mkInsn op [d; x; y]) v
    (copies ← temps_are_copies x y l;
     if copies : bool then Ok (Some (to_movi op d 0 l)) else Ok None)) as H0.
  { intros Hso. rewrite Er. cbn [mbind res_bind]. destruct r; [|apply stage_none]. apply stage_pure.
    eapply same_zero_ok; try done. by apply Hr. }
  assert (o = BOr \/ o = BAnd -> (x = y -> is_const l x = false) -> stage_ok (mkInsn op [d; x; y]) v
    (copies ← temps_are_copies x y l;
     if copies : bool then r ← mov_or_nop s op d x l; Ok (Some r) else Ok None)) as H1.
  { intros Hso Hne. rewrite Er. cbn [mbind res_bind]. destruct r; [|apply stage_none]. apply stage_some.
    specialize (Hr eq_refl). eapply same_mov_ok; try done.
    destruct (eq_how _ _ _ _ _ Hr) as [->|[Hc _]]; [by apply Hne|].
    apply bool_decide_eq_false. unfold copy in Hc. congruence. }
  destruct op; cbn in Ho; simplify_eq; try apply stage_none.
  - apply H0; auto.
  - apply H1; [auto|]. by apply (Hand t).
  - apply H1; [auto|]. apply Hor.
  - apply H0; auto.
Qed.

(** ** Double words *)

Lemma double_value hi lo : double (u32 hi) lo = u32 hi * 2 ^ 32 + u32 lo.
Proof.
  pose proof (wrap_range 32 hi ltac:(lia)) as Hh. pose proof (wrap_range 32 lo ltac:(lia)) as Hl. unfold in_u in *.
  unfold double. rewrite (wrap_id 64) by (unfold in_u; rewrite Z.shiftl_mul_pow2 by lia; lia).
  rewrite Z.lor_comm, lor_shiftl_add by (done || lia). lia.
Qed.

Lemma high_word z : wrap 32 (Z.shiftr (u64 z) 32) = wrap 32 (z / 2 ^ 32).
Proof.
  rewrite <- Z.shiftr_div_pow2 by lia. apply wrap_ext; [lia|]. intros k Hk. rewrite !Z.shiftr_spec by lia.
  apply testbit_wrap. lia.
Qed.

Lemma low_word z : wrap 32 (u64 z) = wrap 32 z.
Proof. by apply wrap_wrap_le. Qed.

Section Pair.
Context (i : insn) (l : infos) (v : list Z) (rl rh lo hi z : Z).
Hypothesis K : known l v.
Hypothesis Ho : oargs i = [rl; rh].
Hypothesis Hrl : valid s rl /\ tsize s rl = 32.
Hypothesis Hrh : valid s rh /\ tsize s rh = 32.
Hypothesis Hev : eval_op i.(opc) (cargs i) (rd s v <$> iargs i) = Some [Some lo; Some hi].
Hypothesis Hlo : wrap 32 lo = wrap 32 z.
Hypothesis Hhi : wrap 32 hi = wrap 32 (Z.shiftr z 32).
Hypothesis Hnop : needs_nop i.(opc) = true.

Lemma pair_known u1 u2 :
  wrap 32 u1 = wrap 32 z -> wrap 32 u2 = wrap 32 (Z.shiftr z 32) ->
  known (fold_pair rl rh z l).2 (tset rh u2 (tset rl u1 v)).
Proof.
  intros H1 H2. destruct Hrl as [Vl El], Hrh as [Vh Eh].
  apply (known_movi s _ _ rh (u32 (Z.shiftr z 32)) u2); [|done|by rewrite Eh, wrap_wrap].
  apply (known_movi s _ _ rl (u32 z) u1); [done|done|by rewrite El, wrap_wrap].
Qed.

Lemma movi32_step d x n v0 w c' :
  tsize s d = 32 -> step (mkInsn (INDEX_op_movi TCG_TYPE_I32) [d; u32 x]) (mkConfig n v0 w) c' <->
  exists u, wrap 32 u = wrap 32 x /\ c' = mkConfig (S n) (tset d u v0) w.
Proof.
  intros Hd. rewrite movi_step. rewrite Hd. split.
  - intros (u & Hu & ->). exists u. split; [|done]. by rewrite (Hu _ eq_refl), !wrap_wrap.
  - intros (u & Hu & ->). exists u. split; [|done]. intros y [= <-]. by rewrite Hu, !wrap_wrap.
Qed.

Lemma fold_pair_ok : fold_ok i v (Ok (fold_pair rl rh z l)).
Proof.
  destruct (fold_pair rl rh z l) as [r l'] eqn:Ef. pose proof pair_known as Hkn. rewrite Ef in Hkn. cbn [snd] in Hkn.
  assert (r = [mkInsn (INDEX_op_movi TCG_TYPE_I32) [rl; u32 z];
    mkInsn (INDEX_op_movi TCG_TYPE_I32) [rh; u32 (Z.shiftr z 32)]]) as -> by (by injection Ef as <- _).
  destruct Hrl as [Vl El], Hrh as [Vh Eh].
  eexists _, _. split; [reflexivity|]. split; [eexists; by apply Hkn|].
  split; [repeat apply Forall_cons_2; try done; by apply (shape_to_movi s (INDEX_op_movi TCG_TYPE_I32))|].
  split; [|done]. split.
  - intros n w c1 c2 (u1 & H1 & ->)%movi32_step; [|done]. intros (u2 & H2 & ->)%movi32_step; [|done].
    cbn [ip vals]. split_and!; [done..| |by apply Hkn].
    apply (value_step E s label i _ _ _ _ _ Hev). eexists. split; [|done]. rewrite Ho.
    exists u1. split; [intros ? [= <-]; by rewrite El, H1, Hlo|].
    exists u2. split; [intros ? [= <-]; by rewrite Eh, H2, Hhi|done].
  - intros n w. eexists. by apply movi32_step; eauto.
  - intros n w c1 (u1 & _ & ->)%movi32_step; [|done]. eexists. by apply movi32_step; eauto.
Qed.
End Pair.

Definition becomes_pair (op : TCGOpcode) : Prop :=
  op = INDEX_op_add2 TCG_TYPE_I32 \/ op = INDEX_op_sub2 TCG_TYPE_I32 \/ op = INDEX_op_mulu2 TCG_TYPE_I32.

Lemma shape_pair op a :
  shape s (mkInsn op a) = true -> becomes_pair op ->
  exists rl rh xs, a = rl :: rh :: xs /\ (valid s rl /\ tsize s rl = 32) /\ (valid s rh /\ tsize s rh = 32) /\
    Forall (word_of TCG_TYPE_I32) xs /\ length xs = nb_iargs op.
Proof.
  intros Hs Hn. destruct (shape_words op TCG_TYPE_I32 a Hs) as (Ho & Hi & Hl);
    [by destruct Hn as [->|[->| ->]]..|].
  assert (length a = (2 + nb_iargs op)%nat) as Hl' by (by destruct Hn as [->|[->| ->]]).
  destruct a as [|rl [|rh xs]]; try discriminate Hl'. injection Hl' as Hxs. exists rl, rh, xs. split; [done|].
  assert (oargs (mkInsn op (rl :: rh :: xs)) = [rl; rh] /\ iargs (mkInsn op (rl :: rh :: xs)) = xs /\
    op_bits op = 32) as (Eo & Ei & Eb).
  { destruct Hn as [->|[->| ->]]; (split_and!; [done| |done]); apply take_ge; by rewrite Hxs. }
  rewrite Eo in Ho. rewrite Ei in Hi. rewrite !Forall_cons in Ho. unfold output_of in Ho. rewrite Eb in Ho.
  by destruct Ho as (? & ? & _).
Qed.

Lemma fold_sum2_ok l v (sub : bool) a :
  let op := sum2_opc sub TCG_TYPE_I32 in
  known l v -> shape s (mkInsn op a) = true -> fold_ok (mkInsn op a) v (fold_op s op a l).
Proof.
  intros op K Hs. assert (becomes_pair op) as Hn by (unfold op, becomes_pair; destruct sub; auto).
  destruct (shape_pair op a Hs Hn) as (rl & rh & xs & -> & Hrl & Hrh & Hxs & Hlen).
  assert (length xs = 4%nat) as H4 by (rewrite Hlen; by unfold op; destruct sub).
  destruct xs as [|xl [|xh [|yl [|yh []]]]]; try discriminate H4. rewrite !Forall_cons in Hxs.
  destruct Hxs as (Wxl & Wxh & Wyl & Wyh & _).
  set (x := double (u32 (tget l xh).(val)) (tget l xl).(val)).
  set (y := double (u32 (tget l yh).(val)) (tget l yl).(val)).
  assert (fold_op s op [rl; rh; xl; xh; yl; yh] l =
    if is_const l xl && is_const l xh && is_const l yl && is_const l yh
    then Ok (fold_pair rl rh (u64 (sum2 sub x y)) l) else Ok (do_default s op [rl; rh; xl; xh; yl; yh] l))
    as -> by (by unfold op; destruct sub).
  destruct (is_const l xl && _ && _ && _) eqn:Ec;
    [|apply fold_default; try done; unfold op; by destruct sub].
  rewrite !andb_true_iff in Ec. destruct Ec as [[[Cxl Cxh] Cyl] Cyh].
  assert (eval_op op [] [rd s v xl; rd s v xh; rd s v yl; rd s v yh] =
    Some [Some (u32 (sum2 sub x y)); Some (u32 (sum2 sub x y / 2 ^ 32))]) as Hev.
  { unfold op, x, y. rewrite !double_value.
    pose proof (word_const l v _ _ K Wxl Cxl) as E1. pose proof (word_const l v _ _ K Wxh Cxh) as E2.
    pose proof (word_const l v _ _ K Wyl Cyl) as E3. pose proof (word_const l v _ _ K Wyh Cyh) as E4.
    change (wsize TCG_TYPE_I32) with 32 in *. rewrite <- E1, <- E2, <- E3, <- E4. by destruct sub. }
  apply (fold_pair_ok (mkInsn op [rl; rh; xl; xh; yl; yh]) l v rl rh
    (u32 (sum2 sub x y)) (u32 (sum2 sub x y / 2 ^ 32))); try done.
  5: { unfold op. by destruct sub. }
  - unfold op. by destruct sub.
  - unfold op in *. destruct sub; exact Hev.
  - by rewrite low_word, wrap_wrap.
  - by rewrite high_word, wrap_wrap.
Qed.

Lemma fold_mulu2_ok l v a :
  let op := INDEX_op_mulu2 TCG_TYPE_I32 in
  known l v -> shape s (mkInsn op a) = true -> fold_ok (mkInsn op a) v (fold_op s op a l).
Proof.
  intros op K Hs. destruct (shape_pair op a Hs ltac:(unfold becomes_pair; auto)) as (rl & rh & xs & -> & Hrl & Hrh & Hxs & Hlen).
  destruct xs as [|x [|y []]]; try discriminate Hlen. rewrite !Forall_cons in Hxs.
  destruct Hxs as (Wx & Wy & _). cbn [fold_op op].
  change (const_arg l [rl; rh; x; y] 2) with (is_const l x). change (const_arg l [rl; rh; x; y] 3) with (is_const l y).
  change (arg_info l [rl; rh; x; y] 2) with (tget l x). change (arg_info l [rl; rh; x; y] 3) with (tget l y).
  destruct (is_const l x && is_const l y) eqn:Ec; [|by apply fold_default].
  apply andb_true_iff in Ec as [Cx Cy]. set (z := u32 (tget l x).(val) * u32 (tget l y).(val)).
  pose proof (word_const l v _ _ K Wx Cx) as E1. pose proof (word_const l v _ _ K Wy Cy) as E2.
  change (wsize TCG_TYPE_I32) with 32 in *.
  apply (fold_pair_ok (mkInsn op [rl; rh; x; y]) l v rl rh (u32 z) (u32 (z / 2 ^ 32)) z); try done.
  - unfold z. rewrite <- E1, <- E2. done.
  - by rewrite wrap_wrap.
  - by rewrite wrap_wrap, Z.shiftr_div_pow2.
Qed.

(** ** Conditions, moves and bit fields *)

Lemma fold_setcond_ok l v t a :
  let op := INDEX_op_setcond t in
  known l v -> shape s (mkInsn op a) = true -> fold_ok (mkInsn op a) v (fold_op s op a l).
Proof.
  intros op K Hs. destruct (shape_setcond t a Hs) as (d & x & y & c & k & -> & Hd & [Vx Wx] & [Vy Wy] & Hk & Hn).
  destruct (cond_ok s l v op t x y c k K Vx Vy Wx Wy) as (r & Er & Hr); [by destruct t|done..|].
  cbn [fold_op op arg lookup_total list_lookup_total]. fold op. rewrite Er. cbn [mbind res_bind].
  destruct r as [b|]; [|by apply fold_default].
  apply (movi_ok E s label (mkInsn op [d; x; y; c]) l v d K eq_refl Hd).
  eexists. split; [cbn; rewrite Hk; reflexivity|]. intros z [= <-]. rewrite (Hr b eq_refl). by destruct b.
Qed.

Lemma fold_movcond_ok l v t a :
  let op := INDEX_op_movcond t in
  known l v -> shape s (mkInsn op a) = true -> fold_ok (mkInsn op a) v (fold_op s op a l).
Proof.
  intros op K Hs. destruct (shape_movcond t a Hs) as (d & x & y & p & q & c & k & -> & Hd & Hi & Hk & Hn).
  rewrite !Forall_cons in Hi. destruct Hi as ([Vx Wx] & [Vy Wy] & Wp & Wq & _).
  assert (op_bits op = wsize t) as Hb by (by destruct t).
  destruct (cond_ok s l v op t x y c k K Vx Vy Wx Wy Hb) as (r & Er & Hr); [done..|].
  cbn [fold_op op arg lookup_total list_lookup_total]. fold op. rewrite Er. cbn [mbind res_bind].
  destruct r as [b|]; [|by apply fold_default].
  assert (word_of t (if b then p else q)) as [Vz Wz] by (by destruct b).
  apply (mov_or_movi_ok E s label (mkInsn op [d; x; y; p; q; c]) l v d _ K eq_refl Hd Vz); [cbn [opc]; by rewrite Hb|].
  eapply allows_eq; [|by apply eval_movcond]. rewrite (Hr b eq_refl).
  assert (tsize s d = wsize t) as -> by (destruct Hd as [_ ->]; done). pose proof (wsize_pos t).
  destruct b; by rewrite wrap_wrap, wrap_rd by lia.
Qed.

Lemma fold_deposit_ok l v t a :
  let op := INDEX_op_deposit t in
  known l v -> shape s (mkInsn op a) = true -> fold_ok (mkInsn op a) v (fold_op s op a l).
Proof.
  intros op K Hs.
  destruct (shape_deposit t a Hs) as (d & x & y & pos & len & -> & Hd & Wx & Wy & Hp & Hl & Hn & H64).
  cbn [fold_op op]. change (const_arg l [d; x; y; pos; len] 1) with (is_const l x).
  change (const_arg l [d; x; y; pos; len] 2) with (is_const l y).
  destruct (is_const l x && is_const l y) eqn:Ec; [|by apply fold_default].
  apply andb_true_iff in Ec as [Cx Cy].
  apply (movi_ok E s label (mkInsn op [d; x; y; pos; len]) l v d K eq_refl Hd).
  eexists. split; [reflexivity|]. intros r [= <-].
  assert (tsize s d = wsize t) as -> by (destruct Hd as [_ ->]; by destruct t). pose proof (type_cases t).
  rewrite (word_const l v t x), (word_const l v t y) by done.
  symmetry. apply deposit_folded_value; lia.
Qed.

Lemma brcond_step t x y c b k n v w c' :
  cond_of c = Some k ->
  step (mkInsn (INDEX_op_brcond t) [x; y; c; b]) (mkConfig n v w) c' <->
  exists n' v',
    (if eval_cond k (wsize t) (wrap (wsize t) (rd s v x)) (wrap (wsize t) (rd s v y))
     then label b else Some (S n)) = Some n' /\ clobbered s v v' /\ c' = mkConfig n' v' w.
Proof.
  intros Hk. set (i := mkInsn _ _).
  assert (taken s i v = Some (eval_cond k (wsize t) (wrap (wsize t) (rd s v x)) (wrap (wsize t) (rd s v y))))
    as Ht by (unfold i; cbn; by rewrite Hk).
  assert (cargs i !!! 1%nat = b) as Hb by done. assert (opc i = INDEX_op_brcond t) as Ho by done.
  clearbody i. split.
  - intros Hs. inversion Hs as [? ? ? rs v' Ev|? ? ? ? El|? ? ? ? ? ? Eb|? ? ? ? b' ? Tk Hl Hc|? ? ? ? ? ? ? ? El
      |? ? ? ? ? ? ? Hp]; subst; try congruence.
    + rewrite Ho in Ev. discriminate (eval_value_op _ _ _ _ Ev).
    + rewrite Ht in Tk. injection Tk as <-. eauto.
    + rewrite Ho in Hp. discriminate Hp.
  - intros (n' & v' & Hl & Hc & ->). eapply step_brcond; [exact Ht| |done]. by rewrite Hb.
Qed.

Lemma br_step b n v w c' :
  step (mkInsn INDEX_op_br [b]) (mkConfig n v w) c' <->
  exists n' v', label b = Some n' /\ clobbered s v v' /\ c' = mkConfig n' v' w.
Proof.
  set (i := mkInsn _ _). assert (cargs i = [b]) as Hb by done. assert (opc i = INDEX_op_br) as Ho by done.
  clearbody i. split.
  - intros Hs. inversion Hs as [? ? ? rs v' Ev|? ? ? ? El|? ? ? ? ? ? Eb Ec Hl Hc|? ? ? ? b' ? Tk|? ? ? ? ? ? ? ? El
      |? ? ? ? ? ? ? Hp]; subst; try congruence.
    + rewrite Ho in Ev. discriminate (eval_value_op _ _ _ _ Ev).
    + rewrite Hb in Ec. injection Ec as ->. eauto.
    + unfold taken in Tk. by rewrite Ho in Tk.
    + rewrite Ho in Hp. discriminate Hp.
  - intros (n' & v' & Hl & Hc & ->). by eapply step_br.
Qed.

Lemma fold_brcond_ok l v t a :
  let op := INDEX_op_brcond t in
  known l v -> shape s (mkInsn op a) = true -> fold_ok (mkInsn op a) v (fold_op s op a l).
Proof.
  intros op K Hs. destruct (shape_brcond t a Hs) as (x & y & c & b & k & -> & [Vx Wx] & [Vy Wy] & Hk & Hn).
  destruct (cond_ok s l v op t x y c k K Vx Vy Wx Wy) as (r & Er & Hr); [by destruct t|done..|].
  cbn [fold_op op arg lookup_total list_lookup_total]. fold op. rewrite Er. cbn [mbind res_bind].
  pose proof (proj1 (kn_linked _ _ _ K)) as Hll. pose proof (kn_length _ _ _ K) as Hlv.
  destruct r as [[|]|]; [..|by apply fold_default].
  - eexists _, _. split; [reflexivity|]. split; [exists v; by apply known_all|].
    split; [by apply Forall_singleton|]. split.
    + intros n w c' Hst. pose proof (step_next E s label _ _ _ _ _ Hst) as Hnx.
      apply br_step in Hst as (n' & v' & Hl & Hc & ->). split_and!; [|apply known_all; [done|]|done].
      * apply (brcond_step t x y c b k); [done|]. rewrite (Hr true eq_refl). eauto.
      * cbn [vals]. destruct Hc as [Hc _]. congruence.
    + intros n w c' (n' & v' & Hl & Hc & _)%(brcond_step t x y c b k); [|done]. rewrite (Hr true eq_refl) in Hl.
      eexists. apply br_step. eauto.
  - apply refined_nop; [done|]. intros n w. apply (brcond_step t x y c b k); [done|].
    rewrite (Hr false eq_refl). eexists _, v. by split_and!.
Qed.

Lemma fold_mov_ok l v t a :
  let op := INDEX_op_mov t in
  known l v -> shape s (mkInsn op a) = true -> fold_ok (mkInsn op a) v (fold_op s op a l).
Proof.
  intros op K Hs. destruct (shape_mov t a Hs) as (d & x & -> & Hd & [Vx Wx]).
  assert (op_bits op = wsize t) as Hb by (by destruct t). pose proof (wsize_pos t).
  apply (mov_or_movi_ok E s label (mkInsn op [d; x]) l v d x K eq_refl Hd Vx); [cbn [opc]; by rewrite Hb|].
  eexists. split; [reflexivity|]. intros z [= <-].
  assert (tsize s d = wsize t) as -> by (destruct Hd as [_ ->]; done). by rewrite wrap_wrap, wrap_rd by lia.
Qed.

Lemma fold_movi_ok l v t a :
  let op := INDEX_op_movi t in
  known l v -> shape s (mkInsn op a) = true -> fold_ok (mkInsn op a) v (fold_op s op a l).
Proof.
  intros op K Hs. destruct (shape_movi t a Hs) as (d & x & -> & Hd).
  apply (movi_ok E s label (mkInsn op [d; x]) l v d K eq_refl Hd).
  eexists. split; [reflexivity|]. intros z [= <-].
  assert (tsize s d = wsize t) as -> by (destruct Hd as [_ ->]; by destruct t). apply wrap_wrap.
Qed.

Lemma fold_unop_ok l v op a u :
  known l v -> shape s (mkInsn op a) = true -> unop_of op = Some u -> fold_ok (mkInsn op a) v (fold_op s op a l).
Proof.
  intros K Hs Ho. assert (op <> INDEX_op_call) as Hc by (by intros ->).
  pose proof (fold_default E s label Hglobals l v op a K Hs Hc) as Hdef.
  destruct (unop_shape s op a u Hs Ho) as (d & x & -> & Hd & Hx).
  assert (folded_unop u = true -> fold_ok (mkInsn op [d; x]) v
    (if is_const l x then r ← do_constant_folding op (tget l x).(val) 0; Ok (to_movi op d r l)
     else Ok (do_default s op [d; x] l))) as H.
  { intros Hf. destruct (is_const l x) eqn:Ec; [|done].
    by destruct (unop_fold_ok E s label l v op u d x K Ho Hd Hx Hf Ec) as (r & -> & Hr). }
  destruct op; cbn in Ho; simplify_eq; first [exact Hdef|exact (H eq_refl)].
Qed.

Lemma fold_binop_ok l v op a o t :
  known l v -> shape s (mkInsn op a) = true -> binop_of op = Some (o, t) ->
  fold_ok (mkInsn op a) v (fold_op s op a l).
Proof.
  intros K Hs Ho. assert (op <> INDEX_op_call) as Hc by (by intros ->).
  pose proof (fold_default E s label Hglobals l v op a K Hs Hc) as Hdef.
  destruct (binop_shape s op a o t Hs Ho) as (d & x & y & -> & Hd & [Hx Hlx] & [Hy Hly]).
  assert (fold_ok (mkInsn op [d; x; y]) v
    (if is_const l x && is_const l y
     then r ← do_constant_folding op (tget l x).(val) (tget l y).(val); Ok (to_movi op d r l)
     else Ok (do_default s op [d; x; y] l))) as H.
  { destruct (is_const l x && is_const l y) eqn:Ec; [|done]. apply andb_true_iff in Ec as [Cx Cy].
    by destruct (fold_constants_ok E s label l v op o t d x y K Ho Hd Hx Hlx Hy Hly Cx Cy) as (r & -> & Hr). }
  destruct op; cbn in Ho; simplify_eq; exact H.
Qed.

Lemma fold_op_ok l v op a :
  known l v -> shape s (mkInsn op a) = true -> fold_ok (mkInsn op a) v (fold_op s op a l).
Proof.
  intros K Hs. pose proof (sh_host _ _ (shape_shaped _ _ Hs)) as Hh. cbn [opc] in Hh.
  destruct (binop_of op) as [[o t]|] eqn:Hb; [by eapply fold_binop_ok|].
  destruct (unop_of op) as [u|] eqn:Hu; [by eapply fold_unop_ok|].
  assert (op <> INDEX_op_call -> fold_ok (mkInsn op a) v (Ok (do_default s op a l))) as Hdef by (by apply fold_default).
  destruct op; try discriminate Hb; try discriminate Hu; try discriminate Hh; try exact (Hdef ltac:(discriminate));
    try (exfalso; destruct t; discriminate Hh).
  - by apply fold_call_ok.
  - by apply fold_mov_ok.
  - by apply fold_movi_ok.
  - by apply fold_brcond_ok.
  - by apply fold_setcond_ok.
  - by apply fold_movcond_ok.
  - destruct t; [by apply fold_mulu2_ok|exact (Hdef ltac:(discriminate))].
  - destruct t; [by apply (fold_sum2_ok l v false)|exact (Hdef ltac:(discriminate))].
  - destruct t; [by apply (fold_sum2_ok l v true)|exact (Hdef ltac:(discriminate))].
  - by apply fold_deposit_ok.
Qed.

(** ** The round *)

(** The known bits decide "and r, c, c". *)
Lemma and_const_decided l v t a :
  known l v -> shape s (mkInsn (INDEX_op_and t) a) = true -> fold_mask s (INDEX_op_and t) a l = Ok None ->
  arg a 1 = arg a 2 -> is_const l (arg a 1) = false.
Proof.
  intros K Hs Hm Ea. destruct (is_const l (arg a 1)) eqn:Ec; [|done]. exfalso.
  unfold fold_mask in Hm. cbn [op_mask] in Hm. unfold const_arg, arg_info in Hm. rewrite <- Ea, Ec in Hm.
  set (m := mask _) in Hm.
  assert (Z.land m (not64 m) = 0) as Hz.
  { apply Z.bits_inj'. intros k Hk. rewrite Z.land_spec, Z.bits_0. unfold not64.
    destruct (Z.lt_ge_cases k 64).
    - rewrite testbit_wrap, Z.lnot_spec by lia. by destruct (Z.testbit m k).
    - rewrite testbit_wrap_high, andb_false_r by lia. done. }
  rewrite Hz in Hm. destruct (Z.land m m =? 0); [done|]. cbn in Hm.
  by destruct (mov_or_movi _ _ _ _ _).
Qed.

Lemma fold_stages_ok l v op a :
  known l v -> shape s (mkInsn op a) = true -> or_ok l (mkInsn op a) ->
  fold_ok (mkInsn op a) v
    (or_else (Ok (fold_zero_first op a l))
      (or_else (fold_zero_second s op a l)
        (or_else (fold_mask s op a l)
          (or_else (Ok (fold_absorbing op a l)) (or_else (fold_same s op a l) (fold_op s op a l)))))).
Proof.
  intros K Hs Hor. apply or_else_ok; [by apply zero_first_ok|]. apply or_else_ok; [by apply zero_second_ok|].
  destruct (fold_mask_ok l v op a K Hs) as (o & Em & Ho). rewrite Em. destruct o as [f|]; [exact Ho|].
  change (or_else (Ok None) ?k) with k.
  apply or_else_ok; [by apply absorbing_stage_ok|]. apply or_else_ok; [|by apply fold_op_ok].
  apply same_stage_ok; try done. intros t ->. by apply (and_const_decided l v t).
Qed.

Lemma fold_insn_ok l v i : known l v -> wf_insn s i = true -> fold_ok i v (fold_insn s i l).
Proof.
  intros K Hw. pose proof Hw as [Hs _]%andb_true_iff.
  destruct (propagate_insn s l v i K Hs) as (a & Ea & R). unfold fold_insn. rewrite Ea. cbn [mbind res_bind].
  pose proof (replaced_shape s l v i _ Hs R) as Hs1. pose proof (replaced_or s l v i _ K Hw R) as Ho1.
  destruct (canonical_spec E s label l v _ Hs1) as (Hs2 & H2 & Ho2). cbn [opc args] in *.
  eapply (fold_same_steps E s label i (mkInsn i.(opc) a)); [done| |].
  { eapply replaced_steps; [by apply shape_shaped|exact R]. }
  eapply (fold_same_steps E s label (mkInsn i.(opc) a) (mkInsn i.(opc) (canonical i.(opc) a l))); [done|done|].
  apply fold_stages_ok; auto.
Qed.
End Round.
