(* ===== verification/OptProgram.v ===== *)
(** * The optimizer on programs

    The optimizer terminates on every well-formed program without a failing
    assertion, keeps every operation in its place, and the runs of its result are
    runs of the program. *)

From S2P Require Import Prelude X86 TcgOut TcgEnc TcgEmit TcgCond TcgOpDefs TcgSem TcgIR Optimize.
From S2P Require Import OptCopies OptValues OptSound OptStages OptFold OptRound.

(** ** Operations that stay as they are *)

Definition kept (op : TCGOpcode) : bool :=
  match op with
  | INDEX_op_set_label | INDEX_op_exit_tb | INDEX_op_goto_tb | INDEX_op_debug_insn_start
  | INDEX_op_qtrace_instrumentation | INDEX_op_qtrace_shadow_register => true
  | _ => false
  end.

(** The operations that the optimizer adds. *)
Definition simple (op : TCGOpcode) : bool :=
  match op with
  | INDEX_op_mov _ | INDEX_op_movi _ | INDEX_op_nop | INDEX_op_neg _ | INDEX_op_br
  | INDEX_op_brcond _ | INDEX_op_setcond _ => true
  | _ => false
  end.

Definition plain (op : TCGOpcode) (x : res folded) : Prop :=
  forall rs l, x = Ok (rs, l) -> Forall (fun r => simple r.(opc) = true) rs \/ exists a, rs = [mkInsn op a].

Section Plain.
Context (s : tcg_temps) (op : TCGOpcode).

Lemma plain_one i l : simple i.(opc) = true -> plain op (Ok ([i], l)).
Proof. intros H rs l' [= <- <-]. left. by apply Forall_singleton. Qed.

Lemma plain_same a l : plain op (Ok ([mkInsn op a], l)).
Proof. intros rs l' [= <- <-]. right. eauto. Qed.

Lemma plain_err e : plain op (Err e).
Proof. by intros rs l'. Qed.

Lemma plain_bind {A} (x : res A) k : (forall y, plain op (k y)) -> plain op (y ← x; k y).
Proof. intros H. destruct x as [y|e]; [apply H|apply plain_err]. Qed.

Lemma plain_movi o d x l : plain op (Ok (to_movi o d x l)).
Proof. by apply plain_one. Qed.

Lemma plain_nop l : plain op (Ok (to_nop l)).
Proof. by apply plain_one. Qed.

Lemma plain_mov o d x l : plain op (to_mov s o d x l).
Proof. apply plain_bind. intros [a l']. by apply plain_one. Qed.

Lemma plain_mov_or_nop o d x l : plain op (mov_or_nop s o d x l).
Proof. apply plain_bind. intros [|]; [apply plain_nop|apply plain_mov]. Qed.

Lemma plain_mov_or_movi o d x l : plain op (mov_or_movi s o d x l).
Proof.
  apply plain_bind. intros [|]; [apply plain_nop|]. destruct (is_const l x); [apply plain_movi|apply plain_mov].
Qed.

Lemma plain_pair rl rh v l : plain op (Ok (fold_pair rl rh v l)).
Proof. intros rs l' [= <- <-]. left. by repeat apply Forall_cons_2. Qed.

Definition plain_stage (x : res (option folded)) : Prop := forall f, x = Ok (Some f) -> plain op (Ok f).

Lemma plain_or_else x k : plain_stage x -> plain op k -> plain op (or_else x k).
Proof. intros Hx Hk. unfold or_else. destruct x as [[f|]|e]; [by apply Hx|done|apply plain_err]. Qed.

Lemma plain_some x : plain op x -> plain_stage (r ← x; Ok (Some r)).
Proof. intros H f. destruct x as [g|]; [|done]. by intros [= <-]. Qed.
End Plain.

Lemma plain_op s op a l : plain op (fold_op s op a l).
Proof.
  pose proof (plain_same op a (do_default s op a l).2 : plain op (Ok (do_default s op a l))) as Hd.
  destruct op; try exact Hd; unfold fold_op; try (apply plain_mov_or_movi || apply plain_movi || apply plain_same);
    repeat match goal with
      | |- plain _ (y ← _; _) => apply plain_bind; intros
      | |- plain _ (if ?b then _ else _) => destruct b
      | |- plain _ (match ?r with _ => _ end) => destruct r
      end; first [exact Hd|apply plain_movi|apply plain_nop|apply plain_pair|apply plain_mov_or_movi|by apply plain_one].
Qed.

Lemma plain_insn s i l : plain i.(opc) (fold_insn s i l).
Proof.
  unfold fold_insn. apply plain_bind. intros a. set (c := canonical _ _ _). clearbody c.
  destruct i as [op args]. cbn [opc] in *. repeat apply plain_or_else; [..|by apply plain_op].
  - intros f [= Hf]. unfold fold_zero_first in Hf. destruct op; try discriminate Hf; repeat case_match; simplify_eq;
      (apply plain_movi || by apply plain_one).
  - unfold fold_zero_second. destruct op; try done; repeat case_match; try done;
      apply plain_some, plain_mov_or_nop.
  - unfold fold_mask. destruct (op_mask op c l) as [m aff].
    destruct (m =? 0); [|destruct (aff =? 0); [|done]]; (destruct (nb_oargs op =? 1)%nat; [|done]);
      cbn [guard_res mbind res_bind]; [|apply plain_some, plain_mov_or_movi].
    intros f [= <-]. apply plain_movi.
  - intros f [= Hf]. unfold fold_absorbing in Hf. destruct op; try discriminate Hf; repeat case_match; simplify_eq;
      apply plain_movi.
  - unfold fold_same. destruct op; try done; (destruct (temps_are_copies _ _ _) as [[|]|]; try done);
      cbn [mbind res_bind]; try apply plain_some, plain_mov_or_nop; intros f [= <-]; apply plain_movi.
Qed.

Lemma simple_kept op : simple op = true -> kept op = false /\ needs_nop op = false.
Proof. by destruct op. Qed.

Section Kept.
Context (s : tcg_temps).

Lemma kept_insn op a l : kept op = true -> exists l', fold_insn s (mkInsn op a) l = Ok ([mkInsn op a], l').
Proof. destruct op; try discriminate; eexists; reflexivity. Qed.

Lemma label_insn a l :
  fold_insn s (mkInsn INDEX_op_set_label a) l =
    Ok ([mkInsn INDEX_op_set_label a], reset_all_temps (nb_temps s) l).
Proof. reflexivity. Qed.

Lemma nop_insn l : fold_insn s (mkInsn INDEX_op_nop []) l = Ok ([mkInsn INDEX_op_nop []], l).
Proof. reflexivity. Qed.
End Kept.

(** ** The loop *)

Section Loop.
Context (s : tcg_temps).
Hypothesis Hglobals : 0 <= s.(nb_globals) <= nb_temps s.

Local Abbreviation known := (known s).

(** What the loop does, as a relation. *)
Inductive folds : list insn -> infos -> list insn -> Prop :=
  | folds_nil l : folds [] l []
  | folds_one i r p q l l' :
      (exists v, known l v) -> shape s r = true -> fold_insn s i l = Ok ([r], l') -> folds p l' q ->
      folds (i :: p) l (r :: q)
  | folds_two i r1 r2 p q l l' :
      needs_nop i.(opc) = true -> shape s r1 = true -> shape s r2 = true ->
      fold_insn s i l = Ok ([r1; r2], l') -> folds p l' q ->
      folds (i :: mkInsn INDEX_op_nop [] :: p) l (r1 :: r2 :: q).

Lemma fold_insn_result l v i :
  known l v -> wf_insn s i = true ->
  exists rs l' v', fold_insn s i l = Ok (rs, l') /\ known l' v' /\ Forall (fun r => shape s r = true) rs /\
    ((exists r, rs = [r]) \/ (exists r1 r2, rs = [r1; r2] /\ needs_nop i.(opc) = true)).
Proof.
  intros K Hw. set (E := mkEnv (W := unit) (fun _ _ _ _ _ _ _ => False) (fun _ _ _ _ _ _ _ _ => False)).
  destruct (fold_insn_ok E s (fun _ => None) Hglobals l v i K Hw) as (rs & l' & Er & [v' K'] & Hsh & H).
  exists rs, l', v'. split_and!; [done..|]. destruct rs as [|r [|r2 []]]; [done|eauto| |done].
  right. exists r, r2. by destruct H.
Qed.

Lemma fold_insns_folds n p l v :
  (length p <= n)%nat -> known l v -> forallb (wf_insn s) p = true -> room p = true ->
  exists q, fold_insns s p l = Ok q /\ folds p l q.
Proof.
  revert p l v. induction n as [|n IH]; intros p l v Hn K Hw Hr.
  { destruct p; [|cbn in Hn; lia]. exists []. split; [done|constructor]. }
  destruct p as [|i p]; [exists []; split; [done|constructor]|]. cbn [length] in Hn.
  cbn [forallb] in Hw. apply andb_true_iff in Hw as [Hi Hw]. cbn [room] in Hr. apply andb_true_iff in Hr as [Hroom Hr].
  destruct (fold_insn_result l v i K Hi) as (rs & l' & v' & Er & K' & Hsh & Hrs). cbn [fold_insns]. rewrite Er. cbn [mbind res_bind].
  destruct Hrs as [[r ->]|(r1 & r2 & -> & Hneed)].
  - destruct (IH p l' v') as (q & Eq & Hq); [lia|done..|]. rewrite Eq. exists (r :: q). split; [done|].
    apply Forall_cons in Hsh as [Hsh _]. by econstructor; eauto.
  - rewrite Hneed in Hroom. cbn [negb orb] in Hroom. destruct p as [|m p]; [done|].
    apply bool_decide_eq_true in Hroom as ->. cbn [opc]. rewrite bool_decide_true by done. cbn [guard_res mbind res_bind].
    cbn [forallb] in Hw. apply andb_true_iff in Hw as [_ Hw]. cbn [room] in Hr. apply andb_true_iff in Hr as [_ Hr].
    destruct (IH p l' v') as (q & Eq & Hq); [cbn in Hn; lia|done..|]. rewrite Eq. exists (r1 :: r2 :: q). split; [done|].
    rewrite !Forall_cons in Hsh. destruct Hsh as (? & ? & _). by econstructor.
Qed.

Lemma folds_length p l q : folds p l q -> length q = length p.
Proof. induction 1; cbn; congruence. Qed.

Lemma folds_shape p l q : folds p l q -> Forall (fun r => shape s r = true) q.
Proof. induction 1; repeat constructor; done. Qed.

(** The nop behind a double-word operation that stays, stays. *)
Lemma folds_room p l q : folds p l q -> room p = true -> room q = true.
Proof.
  induction 1 as [|i r p q l l' _ _ Ef Hq IH|i r1 r2 p q l l' Hn _ _ Ef Hq IH]; [done|..]; cbn [room].
  - rewrite !andb_true_iff, !orb_true_iff, !negb_true_iff. intros [Hi Hr]. split; [|by apply IH].
    destruct (plain_insn s i l _ _ Ef) as [Hp|[a [= ->]]].
    { left. apply Forall_cons in Hp as [Hp _]. by apply simple_kept. }
    cbn [opc]. destruct Hi as [Hi|Hi]; [by left|]. right. destruct p as [|m p]; [done|].
    apply bool_decide_eq_true in Hi as ->.
    inversion Hq as [|? r' ? q' ? l2 _ _ Ef' _|? ? ? ? ? ? ? Hn']; subst; [|done].
    rewrite nop_insn in Ef'. injection Ef' as <- _. by apply bool_decide_eq_true.
  - rewrite !andb_true_iff. intros (_ & _ & Hr). destruct (plain_insn s i l _ _ Ef) as [Hp|[a [=]]].
    rewrite !Forall_cons in Hp. destruct Hp as ([_ ->]%simple_kept & [_ ->]%simple_kept & _). by rewrite IH.
Qed.

(** Labels *)
Definition label_of (i : insn) : option Z :=
  match i.(opc), i.(args) with INDEX_op_set_label, [x] => Some x | _, _ => None end.

Lemma find_label_cons i p x :
  find_label (i :: p) x = if bool_decide (label_of i = Some x) then Some 1%nat else S <$> find_label p x.
Proof.
  cbn [find_label]. unfold label_of. destruct (opc i); try (by rewrite bool_decide_false).
  destruct (args i) as [|y []]; try (by rewrite bool_decide_false).
  destruct (Z.eqb_spec y x) as [->|]; [by rewrite bool_decide_true|rewrite bool_decide_false; congruence].
Qed.

Lemma plain_label i : kept i.(opc) = false -> label_of i = None.
Proof. unfold label_of. by destruct (opc i). Qed.

Lemma fold_one_same i r l l' :
  fold_insn s i l = Ok ([r], l') -> (kept i.(opc) = true -> r = i) /\ (kept i.(opc) = false -> kept r.(opc) = false).
Proof.
  intros Ef. split; intros Hk.
  - destruct i as [op a]. destruct (kept_insn s op a l Hk) as [l2 El]. congruence.
  - destruct (plain_insn s i l _ _ Ef) as [Hp|[a [= ->]]]; [|done].
    apply Forall_cons in Hp as [Hp _]. by apply simple_kept.
Qed.

Lemma fold_two_plain i r1 r2 l l' :
  needs_nop i.(opc) = true -> fold_insn s i l = Ok ([r1; r2], l') ->
  kept i.(opc) = false /\ kept r1.(opc) = false /\ kept r2.(opc) = false.
Proof.
  intros Hn Ef. assert (kept i.(opc) = false) as Hk by (by destruct (opc i)).
  destruct (plain_insn s i l _ _ Ef) as [Hp|[a [=]]]. rewrite !Forall_cons in Hp.
  destruct Hp as (? & ? & _). split_and!; [done|by apply simple_kept..].
Qed.

Lemma fold_one_label i r l l' : fold_insn s i l = Ok ([r], l') -> label_of r = label_of i.
Proof.
  intros [H1 H2]%fold_one_same. destruct (kept i.(opc)) eqn:Hk; [by rewrite H1|].
  by rewrite !plain_label by auto.
Qed.

Lemma folds_labels p l q x : folds p l q -> find_label q x = find_label p x.
Proof.
  induction 1 as [|i r p q l l' _ _ Ef Hq IH|i r1 r2 p q l l' Hn _ _ Ef Hq IH]; [done|..]; rewrite !find_label_cons, IH.
  - by rewrite (fold_one_label _ _ _ _ Ef).
  - destruct (fold_two_plain _ _ _ _ _ Hn Ef) as (K0 & K1 & K2). by rewrite !plain_label.
Qed.

(** Nothing is known behind a label. *)
Lemma folds_target p l q x k :
  folds p l q -> find_label p x = Some k ->
  exists l', folds (drop k p) l' (drop k q) /\ forall v, length v = length s.(temps) -> known l' v.
Proof.
  intros Hq. revert k. induction Hq as [|i r p q l l' [v K] _ Ef Hq IH|i r1 r2 p q l l' Hn _ _ Ef Hq IH]; intros k; [done|..].
  - rewrite find_label_cons. case_bool_decide as Hl.
    + intros [= <-]. exists l'. split; [done|]. intros v' Hv'. unfold label_of in Hl.
      destruct i as [op a]. cbn [opc args] in Hl. destruct op; try discriminate Hl. rewrite label_insn in Ef.
      injection Ef as _ <-. apply known_all; [apply (kn_linked _ _ _ K)|done].
    + intros Hk. destruct (find_label p x) as [k'|] eqn:Ek; [|done]. injection Hk as <-. by apply IH.
  - destruct (fold_two_plain _ _ _ _ _ Hn Ef) as (K0 & K1 & K2).
    rewrite !find_label_cons, !plain_label by done. destruct (find_label p x) as [k'|] eqn:Ek; [|done].
    intros [= <-]. by apply IH.
Qed.

Lemma folds_kept p l q n op a :
  folds p l q -> kept op = true -> q !! n = Some (mkInsn op a) <-> p !! n = Some (mkInsn op a).
Proof.
  intros Hq Hop. revert n.
  induction Hq as [|i r p q l l' _ _ Ef Hq IH|i r1 r2 p q l l' Hn _ _ Ef Hq IH]; intros n; [done|..].
  - destruct n as [|n]; [|apply IH]. cbn. destruct (fold_one_same _ _ _ _ Ef) as [H1 H2].
    destruct (kept i.(opc)) eqn:Hk; [by rewrite H1|]. specialize (H2 eq_refl). split; intros [= ->]; cbn in *; congruence.
  - destruct (fold_two_plain _ _ _ _ _ Hn Ef) as (K0 & K1 & K2). destruct n as [|[|n]]; [..|apply IH].
    + cbn. split; intros [= ->]; cbn in *; congruence.
    + cbn. split; [|by intros [= <- _]]. intros [= ->]. cbn in *. congruence.
Qed.
End Loop.

(** ** Runs *)

Section Runs.
Context {W : Type} (E : environment W) (s : tcg_temps).

Lemma label_ext (lb lb' : Z -> option nat) i c c' :
  (forall x, lb' x = lb x) -> insn_step E s lb i c c' -> insn_step E s lb' i c c'.
Proof.
  intros H. intros [n v w rs v' Ev Hw|n v w v' Eo Hc|n v w v' x n' Eo Ec Hl Hc|n v w v' b n' Tk Hl Hc
    |n v w us g w' v1 v' Eo Hh Hg Hw|n v w us w' v1 v' Hp Hh Hw Hb].
  - by eapply step_value.
  - by apply step_label.
  - eapply step_br; [done..|by rewrite H|done].
  - eapply step_brcond; [done| |done]. destruct b; [by rewrite H|done].
  - by eapply step_call.
  - by eapply step_primitive.
Qed.

Context (p q : list insn) (l0 : infos).
Hypothesis Hglobals : 0 <= s.(nb_globals) <= nb_temps s.
Hypothesis Hwf : forallb (wf_insn s) p = true.
Hypothesis Hfolds : folds s p l0 q.

(** The two programs are at the same operation. *)
Definition in_step (c : config W) : Prop :=
  exists l, folds s (drop c.(ip) p) l (drop c.(ip) q) /\ known s l c.(vals).

(** The optimized program is between two operations that replace one. *)
Definition between (c0 c : config W) : Prop :=
  exists i r1 r2 l, in_step c0 /\ p !! c0.(ip) = Some i /\ p !! S c0.(ip) = Some (mkInsn INDEX_op_nop []) /\
    q !! S c0.(ip) = Some r2 /\ folds s (drop (S (S c0.(ip))) p) l (drop (S (S c0.(ip))) q) /\
    refined2 E s (find_label q) i r1 r2 l c0.(vals) /\ insn_step E s (find_label q) r1 c0 c.

Lemma ir_step_labels i c c' :
  p !! c.(ip) = Some i -> insn_step E s (find_label q) i c c' -> ir_step E s p c c'.
Proof.
  intros Hi Hs. exists i. split; [done|]. eapply label_ext; [|exact Hs]. intros x.
  symmetry. by eapply folds_labels.
Qed.

Lemma drop_head (k : nat) (i : insn) (p' xs : list insn) : drop k xs = i :: p' -> xs !! k = Some i /\ drop (S k) xs = p'.
Proof.
  intros Hd. assert (xs !! k = Some i) as Hi by (by rewrite <- (Nat.add_0_r k), <- lookup_drop, Hd).
  split; [done|]. rewrite (drop_S _ _ _ Hi) in Hd. congruence.
Qed.

(** One step of the optimized program. *)
Lemma step_related c c' :
  in_step c -> ir_step E s q c c' -> (ir_step E s p c c' /\ in_step c') \/ between c c'.
Proof.
  destruct c as [n v w]. intros (l & Hf & K) (r & Hr & Hst). cbn [ip vals] in *.
  inversion Hf as [l1 Ep El Eq|i r' p' q' l1 l' _ _ Ef Hq Ep El Eq|i r1 r2 p' q' l1 l' Hn _ _ Ef Hq Ep El Eq]; subst.
  - rewrite lookup_ge_None_2 in Hr; [done|]. symmetry in Eq. apply (f_equal length) in Eq. rewrite length_drop in Eq.
    cbn in Eq. lia.
  - symmetry in Ep, Eq. destruct (drop_head _ _ _ _ Ep) as [Hi <-], (drop_head _ _ _ _ Eq) as [Hr' <-].
    assert (r' = r) as -> by congruence. left.
    assert (wf_insn s i = true) as Hw.
    { rewrite forallb_Forall in Hwf. rewrite Forall_lookup in Hwf. by eapply Hwf. }
    destruct (fold_insn_ok E s (find_label q) Hglobals l v i K Hw) as (rs & l2 & Er & _ & _ & H).
    rewrite Ef in Er. injection Er as <- <-. destruct (rf_step _ _ _ _ _ _ _ H n w c' Hst) as (H1 & H2 & H3).
    split; [by eapply ir_step_labels|]. destruct H3 as [H3|[x H3]].
    + exists l'. by rewrite H3.
    + rewrite (folds_labels s p l0 q x Hfolds) in H3.
      destruct (folds_target s p l0 q x _ Hfolds H3) as (l2 & Hf2 & K2). exists l2. split; [done|].
      apply K2. apply (kn_length _ _ _ H2).
  - symmetry in Ep, Eq. destruct (drop_head _ _ _ _ Ep) as [Hi Ep'], (drop_head _ _ _ _ Eq) as [Hr' Eq'].
    assert (r1 = r) as -> by congruence. right.
    destruct (drop_head _ _ _ _ Ep') as [Hi' <-], (drop_head _ _ _ _ Eq') as [Hr2 <-].
    assert (wf_insn s i = true) as Hw.
    { rewrite forallb_Forall in Hwf. rewrite Forall_lookup in Hwf. by eapply Hwf. }
    destruct (fold_insn_ok E s (find_label q) Hglobals l v i K Hw) as (rs & l2 & Er & _ & _ & H).
    rewrite Ef in Er. injection Er as <- <-. destruct H as [H _].
    exists i, r, r2, l'. split_and!; try done. by exists l.
Qed.

(** Both of the two operations. *)
Lemma between_step c0 c :
  between c0 c ->
  (exists c', ir_step E s q c c') /\
  forall c', ir_step E s q c c' -> rtc (ir_step E s p) c0 c' /\ in_step c'.
Proof.
  destruct c0 as [n v w]. intros (i & r1 & r2 & l & _ & Hi & Hnop & Hr2 & Hf & [H1 H2 H3] & Hst). cbn [ip vals] in *.
  assert (c.(ip) = S n) as Hip.
  { destruct (H3 _ _ _ Hst) as [c2 Hc2]. by destruct (H1 _ _ _ _ Hst Hc2). }
  split.
  - destruct (H3 _ _ _ Hst) as [c2 Hc2]. exists c2, r2. by rewrite Hip.
  - intros c' (r & Hr & Hst'). rewrite Hip in Hr. assert (r = r2) as -> by congruence.
    destruct (H1 _ _ _ _ Hst Hst') as (_ & Ec & Hs & K). split.
    + eapply rtc_l; [by eapply ir_step_labels|]. apply rtc_once. rewrite Ec. eapply ir_step_labels; [done|].
      by apply nop_step.
    + exists l. rewrite Ec. done.
Qed.

(** The invariant of a run. *)
Definition related (c0 c : config W) : Prop :=
  (rtc (ir_step E s p) c0 c /\ in_step c) \/ exists cm, rtc (ir_step E s p) c0 cm /\ between cm c.

Lemma related_run c0 c : in_step c0 -> rtc (ir_step E s q) c0 c -> related c0 c.
Proof.
  intros H0. revert c. apply rtc_ind_r; [by left|]. intros c c' _ Hst IH.
  destruct IH as [[Hp Hin]|(cm & Hp & Hb)].
  - destruct (step_related c c' Hin Hst) as [[Hst' Hin']|Hb].
    + left. split; [by eapply rtc_r|done].
    + right. eauto.
  - left. destruct (between_step cm c Hb) as [_ H]. destruct (H c' Hst) as [Hp' Hin'].
    split; [by etransitivity|done].
Qed.

(** Where the program can go on, so can the optimized program. *)
Lemma step_possible c c' : in_step c -> ir_step E s p c c' -> exists c'', ir_step E s q c c''.
Proof.
  destruct c as [n v w]. intros (l & Hf & K) (i & Hi & Hst). cbn [ip vals] in *.
  assert (wf_insn s i = true) as Hw.
  { rewrite forallb_Forall in Hwf. rewrite Forall_lookup in Hwf. by eapply Hwf. }
  destruct (fold_insn_ok E s (find_label q) Hglobals l v i K Hw) as (rs & l2 & Er & _ & _ & H).
  assert (insn_step E s (find_label q) i (mkConfig n v w) c') as Hst'.
  { eapply label_ext; [|exact Hst]. intros x. by eapply folds_labels. }
  inversion Hf as [l1 Ep El Eq|j r' p' q' l1 l' _ _ Ef Hq Ep El Eq|j r1 r2 p' q' l1 l' Hn _ _ Ef Hq Ep El Eq]; subst;
    symmetry in Ep, Eq.
  - apply (f_equal length) in Ep. rewrite length_drop in Ep. cbn in Ep. rewrite lookup_ge_None_2 in Hi by lia. done.
  - destruct (drop_head _ _ _ _ Ep) as [Hj _], (drop_head _ _ _ _ Eq) as [Hr' _].
    assert (j = i) as -> by congruence. rewrite Ef in Er. injection Er as <- <-.
    destruct (rf_progress _ _ _ _ _ _ _ H n w c' Hst') as [c'' Hc]. by exists c'', r'.
  - destruct (drop_head _ _ _ _ Ep) as [Hj _], (drop_head _ _ _ _ Eq) as [Hr' _].
    assert (j = i) as -> by congruence. rewrite Ef in Er. injection Er as <- <-. destruct H as [H _].
    destruct (rf2_first _ _ _ _ _ _ _ _ H n w) as [c'' Hc]. by exists c'', r1.
Qed.
End Runs.

(** ** The optimizer *)

Lemma wf_program_spec s p :
  wf_program s p = true ->
  (0 <= s.(nb_globals) <= nb_temps s) /\ forallb (wf_insn s) p = true /\ room p = true.
Proof. unfold wf_program. rewrite !andb_true_iff, !Z.leb_le. tauto. Qed.

Lemma wf_program_temps s p : wf_program s p = true -> nb_temps s <= TCG_MAX_TEMPS.
Proof. unfold wf_program. rewrite !andb_true_iff, !Z.leb_le. tauto. Qed.

Lemma optimize_folds s p l :
  wf_program s p = true -> length l = length s.(temps) ->
  exists q, tcg_optimize s p l = Ok q /\ folds s p (reset_all_temps (nb_temps s) l) q.
Proof.
  intros (Hg & Hw & Hr)%wf_program_spec Hl.
  eapply (fold_insns_folds s Hg (length p) p _ (replicate (length s.(temps)) 0)); [done| |done|done].
  apply known_all; [done|]. apply length_replicate.
Qed.

(** The two programs start in step. *)
Lemma start_in_step {W} s p q l v (w : W) :
  length l = length s.(temps) -> length v = length s.(temps) ->
  folds s p (reset_all_temps (nb_temps s) l) q -> in_step s p q (mkConfig 0 v w).
Proof. intros Hl Hv Hf. eexists. split; [exact Hf|]. by apply known_all. Qed.

(** The optimizer at a state in which its result stops. *)
Lemma optimizer_stop {W} (E : environment W) s p q l v w c :
  wf_program s p = true -> length l = length s.(temps) -> length v = length s.(temps) ->
  folds s p (reset_all_temps (nb_temps s) l) q ->
  rtc (ir_step E s q) (mkConfig 0 v w) c -> (forall d, ~ ir_step E s q c d) ->
  rtc (ir_step E s p) (mkConfig 0 v w) c /\ forall d, ~ ir_step E s p c d.
Proof.
  intros (Hg & Hwi & _)%wf_program_spec Hl Hv Hf Hrun Hstop.
  destruct (related_run E s p q _ Hg Hwi Hf _ c (start_in_step s p q l v w Hl Hv Hf) Hrun)
    as [[Hp Hin]|(cm & Hp & Hb)].
  - split; [done|]. intros d Hd. destruct (step_possible E s p q _ Hg Hwi Hf c d Hin Hd) as [d' Hd'].
    by apply (Hstop d').
  - destruct (between_step E s p q _ Hf cm c Hb) as [[d Hd] _]. by destruct (Hstop d).
Qed.

(** C24: The optimizer terminates on every well-formed program without a failing
    assertion or abort, whatever its table holds, and its result has as many
    operations as the program. *)
Theorem optimizer_total s p l :
  wf_program s p = true -> length l = length s.(temps) ->
  exists q, tcg_optimize s p l = Ok q /\ length q = length p.
Proof.
  intros Hw Hl. destruct (optimize_folds s p l Hw Hl) as (q & Eq & Hf). exists q. split; [done|].
  by eapply folds_length.
Qed.

(** C23: Every run of the optimized program is a run of the program: what the
    optimized program reaches, the program reaches, with the same values, the same
    memory and at the same place, after at most one more operation (the second
    half of a double-word operation that was replaced by two). *)
Theorem optimizer_refines {W} (E : environment W) s p q l v w c :
  wf_program s p = true -> length l = length s.(temps) -> length v = length s.(temps) ->
  tcg_optimize s p l = Ok q -> rtc (ir_step E s q) (mkConfig 0 v w) c ->
  exists c', (c' = c \/ ir_step E s q c c') /\ rtc (ir_step E s p) (mkConfig 0 v w) c'.
Proof.
  intros Hw Hl Hv Eq Hrun. destruct (optimize_folds s p l Hw Hl) as (q' & Eq' & Hf).
  rewrite Eq in Eq'. injection Eq' as <-. apply wf_program_spec in Hw as (Hg & Hwi & _).
  destruct (related_run E s p q _ Hg Hwi Hf _ c (start_in_step s p q l v w Hl Hv Hf) Hrun)
    as [[Hp _]|(cm & Hp & Hb)].
  - exists c. auto.
  - destruct (between_step E s p q _ Hf cm c Hb) as [[c' Hc'] H]. exists c'. split; [by right|].
    destruct (H c' Hc') as [Hp' _]. by etransitivity.
Qed.

(** C25: The optimized program stops only where the program stops: a state in
    which it can not go on is one that the program reaches and in which the
    program can not go on either. *)
Theorem optimizer_stops {W} (E : environment W) s p q l v w c :
  wf_program s p = true -> length l = length s.(temps) -> length v = length s.(temps) ->
  tcg_optimize s p l = Ok q -> rtc (ir_step E s q) (mkConfig 0 v w) c ->
  (forall c', ~ ir_step E s q c c') ->
  rtc (ir_step E s p) (mkConfig 0 v w) c /\ forall c', ~ ir_step E s p c c'.
Proof.
  intros Hw Hl Hv Eq Hrun Hstop. destruct (optimize_folds s p l Hw Hl) as (q' & Eq' & Hf).
  rewrite Eq in Eq'. injection Eq' as <-. by eapply optimizer_stop.
Qed.

(** C26: The optimizer keeps every label, exit, goto_tb and instrumentation
    operation in its place with its arguments, and adds none. *)
Theorem optimizer_keeps s p q l n op a :
  wf_program s p = true -> length l = length s.(temps) -> tcg_optimize s p l = Ok q -> kept op = true ->
  q !! n = Some (mkInsn op a) <-> p !! n = Some (mkInsn op a).
Proof.
  intros Hw Hl Eq Hop. destruct (optimize_folds s p l Hw Hl) as (q' & Eq' & Hf).
  rewrite Eq in Eq'. injection Eq' as <-. by eapply folds_kept.
Qed.

(** C38: Folding muluh_i64 with two constants leaves the low half of the result
    only, so that some results are wrong. *)
Theorem muluh_folding_truncates :
  (forall x y, do_constant_folding (INDEX_op_muluh TCG_TYPE_I64) x y = Ok (u32 (x * y / 2 ^ 64))) /\
  exists x y, in_u 64 x /\ in_u 64 y /\
    do_constant_folding (INDEX_op_muluh TCG_TYPE_I64) x y <> Ok (x * y / 2 ^ 64).
Proof.
  split.
  - intros x y. unfold do_constant_folding. cbn [do_constant_folding_2 mbind res_bind].
    change (op_bits _ =? 32) with true. cbn match. change 0xffffffff with (Z.ones 32).
    by rewrite <- (wrap_land 32), Z.shiftr_div_pow2.
  - exists (2 ^ 63), (2 ^ 63). split_and!; by vm_compute.
Qed.

(** ** An example *)

(** A global and a temporary; "t = 5; g = t + t" with an instrumentation call. *)
Definition ex_temps : tcg_temps := mkTemps 1 [mkTemp TCG_TYPE_I64 false; mkTemp TCG_TYPE_I64 false].
Definition ex_program : list insn :=
  [mkInsn (INDEX_op_movi TCG_TYPE_I64) [1; 5]; mkInsn (INDEX_op_add TCG_TYPE_I64) [0; 1; 1];
   mkInsn INDEX_op_qtrace_instrumentation [0]; mkInsn INDEX_op_set_label [3]; mkInsn INDEX_op_exit_tb [0]].
Definition ex_result : list insn :=
  [mkInsn (INDEX_op_movi TCG_TYPE_I64) [1; 5]; mkInsn (INDEX_op_movi TCG_TYPE_I64) [0; 10];
   mkInsn INDEX_op_qtrace_instrumentation [0]; mkInsn INDEX_op_set_label [3]; mkInsn INDEX_op_exit_tb [0]].
Definition ex_infos : infos := replicate 2 (mkInfo TCG_TEMP_COPY 1 1 3 4).

(** The world counts the instrumentation calls. *)
Definition ex_env : environment nat :=
  mkEnv (fun _ _ _ _ w us w' => us = [] /\ w' = S w) (fun _ _ _ _ _ _ _ _ => False).

Lemma ex_run : rtc (ir_step ex_env ex_temps ex_result) (mkConfig 0 [7; 9] 0%nat) (mkConfig 4 [10; 5] 1%nat).
Proof.
  eapply rtc_l; [eexists; split; [reflexivity|]; apply movi_step; exists 5; split; [by intros y [= <-]|reflexivity]|].
  eapply rtc_l; [eexists; split; [reflexivity|]; apply movi_step; exists 10; split; [by intros y [= <-]|reflexivity]|].
  eapply rtc_l.
  { eexists. split; [reflexivity|]. eapply step_primitive; [reflexivity|by split|reflexivity|reflexivity]. }
  apply rtc_once. eexists. split; [reflexivity|]. by apply step_label.
Qed.

Lemma exit_stops {W} (E : environment W) s label i c c' :
  i.(opc) = INDEX_op_exit_tb -> ~ insn_step E s label i c c'.
Proof.
  intros Ho [n v w rs v' Ev Hw|n v w v' Eo Hc|n v w v' x n' Eo Ec Hl Hc|n v w v' b n' Tk Hl Hc
    |n v w us g w' v1 v' Eo Hh Hg Hw|n v w us w' v1 v' Hp Hh Hw Hb]; try congruence.
  - rewrite Ho in Ev. discriminate (eval_value_op _ _ _ _ Ev).
  - unfold taken in Tk. by rewrite Ho in Tk.
  - by rewrite Ho in Hp.
Qed.

Lemma ex_stops c' : ~ ir_step ex_env ex_temps ex_result (mkConfig 4 [10; 5] 1%nat) c'.
Proof. intros (i & [= <-] & Hst). by apply exit_stops in Hst. Qed.

Lemma optimizer_total_witness :
  exists q, tcg_optimize ex_temps ex_program ex_infos = Ok q /\ length q = length ex_program.
Proof. apply (optimizer_total ex_temps ex_program ex_infos); vm_compute; reflexivity. Defined.

Lemma optimizer_refines_witness :
  exists c', (c' = mkConfig 4 [10; 5] 1%nat \/
      ir_step ex_env ex_temps ex_result (mkConfig 4 [10; 5] 1%nat) c') /\
    rtc (ir_step ex_env ex_temps ex_program) (mkConfig 0 [7; 9] 0%nat) c'.
Proof.
  apply (optimizer_refines ex_env ex_temps ex_program ex_result ex_infos [7; 9] 0%nat);
    [vm_compute; reflexivity..|exact ex_run].
Defined.

Lemma optimizer_stops_witness :
  rtc (ir_step ex_env ex_temps ex_program) (mkConfig 0 [7; 9] 0%nat) (mkConfig 4 [10; 5] 1%nat) /\
  forall c', ~ ir_step ex_env ex_temps ex_program (mkConfig 4 [10; 5] 1%nat) c'.
Proof.
  apply (optimizer_stops ex_env ex_temps ex_program ex_result ex_infos [7; 9] 0%nat);
    [vm_compute; reflexivity..|exact ex_run|exact ex_stops].
Defined.

Lemma optimizer_keeps_witness :
  ex_result !! 2%nat = Some (mkInsn INDEX_op_qtrace_instrumentation [0]) <->
  ex_program !! 2%nat = Some (mkInsn INDEX_op_qtrace_instrumentation [0]).
Proof.
  apply (optimizer_keeps ex_temps ex_program ex_result ex_infos); vm_compute; reflexivity.
Defined.
