(* ===== verification/Liveness.v ===== *)
(** * Liveness analysis (tcg/tcg.c)

    [tcg_liveness_analysis] walks over the operations of a block from its end.  It
    keeps which temporaries are dead and which have to be in memory, removes
    operations whose results are not used, replaces double-word operations whose
    upper word is not used, and notes for the register allocator which arguments
    die and which are to be stored.  The operation [end], which the C code skips,
    is not part of the list; the notes of removed operations, which the C code does
    not write, are [None]. *)

From S2P Require Import Prelude X86 TcgOut TcgEnc TcgEmit TcgCond TcgOpDefs TcgSem TcgIR Optimize.

Record la_state := mkLa { dead_temps : list bool; mem_temps : list bool }.

Definition TCG_CALL_DUMMY_ARG : Z := 2 ^ 64 - 1.
Definition TCG_TARGET_HAS_muluh (t : TCGType) : bool := false.
Definition TCG_TARGET_HAS_mulsh (t : TCGType) : bool := false.

(** The operation becomes a nop that keeps its arguments. *)
Definition tcg_set_nop (a : list Z) : insn :=
  let n := Z.of_nat (length a) in
  match a with
  | [] => mkInsn INDEX_op_nop []
  | _ => mkInsn INDEX_op_nopn (<[(length a - 1)%nat := n]> (<[0%nat := n]> a))
  end.

Section Liveness.
Context (s : tcg_temps).

(** memset(l, x, s->nb_globals) *)
Definition set_globals (x : bool) (l : list bool) : list bool :=
  let n := Z.to_nat s.(nb_globals) in replicate n x ++ drop n l.

Definition tcg_la_func_end : la_state :=
  let n := length s.(temps) in
  mkLa (replicate n true) (set_globals true (replicate n false)).

Definition tcg_la_bb_end : la_state :=
  mkLa (replicate (length s.(temps)) true) (set_globals true (temp_local <$> s.(temps))).

Definition unused (st : la_state) (t : Z) : bool := tget st.(dead_temps) t && negb (tget st.(mem_temps) t).

(** The outputs from argument [k] on: what is noted, and they are dead before. *)
Fixpoint la_outputs (k : Z) (ts : list Z) (st : la_state) (dead_args sync_args : Z) : la_state * Z * Z :=
  match ts with
  | [] => (st, dead_args, sync_args)
  | t :: ts =>
      let dead_args := if tget st.(dead_temps) t then u16 (Z.lor dead_args (Z.shiftl 1 k)) else dead_args in
      let sync_args := if tget st.(mem_temps) t then u8 (Z.lor sync_args (Z.shiftl 1 k)) else sync_args in
      la_outputs (k + 1) ts (mkLa (tset t true st.(dead_temps)) (tset t false st.(mem_temps)))
        dead_args sync_args
  end.

(** The inputs from argument [k] on: they are live before.  Calls can have dummy
    arguments. *)
Fixpoint la_inputs (call : bool) (k : Z) (ts : list Z) (st : la_state) (dead_args : Z) : la_state * Z :=
  match ts with
  | [] => (st, dead_args)
  | t :: ts =>
      if call && (t =? TCG_CALL_DUMMY_ARG) then la_inputs call (k + 1) ts st dead_args
      else
        let dead_args := if tget st.(dead_temps) t then u16 (Z.lor dead_args (Z.shiftl 1 k)) else dead_args in
        la_inputs call (k + 1) ts (mkLa (tset t false st.(dead_temps)) st.(mem_temps)) dead_args
  end.

(** What is noted about an operation. *)
Definition noted : Type := option (Z * Z).

(** The label do_not_remove *)
Definition la_keep (flags : Z) (outs ins : list Z) (st : la_state) : la_state * noted :=
  let '(st, dead_args, sync_args) := la_outputs 0 outs st 0 0 in
  let st :=
    if testb flags TCG_OPF_BB_END then tcg_la_bb_end
    else if testb flags TCG_OPF_SIDE_EFFECTS then mkLa st.(dead_temps) (set_globals true st.(mem_temps))
    else st in
  let '(st, dead_args) := la_inputs false (Z.of_nat (length outs)) ins st dead_args in
  (st, Some (dead_args, sync_args)).

(** The label do_not_remove_call *)
Definition la_keep_call (flags : Z) (outs ins : list Z) (st : la_state) : la_state * noted :=
  let '(st, dead_args, sync_args) := la_outputs 0 outs st 0 0 in
  let st :=
    if testb flags TCG_CALL_NO_READ_GLOBALS then st
    else mkLa st.(dead_temps) (set_globals true st.(mem_temps)) in
  let st :=
    if testb flags (Z.lor TCG_CALL_NO_WRITE_GLOBALS TCG_CALL_NO_READ_GLOBALS) then st
    else mkLa (set_globals true st.(dead_temps)) st.(mem_temps) in
  let '(st, dead_args) := la_inputs true (Z.of_nat (length outs)) ins st dead_args in
  (st, Some (dead_args, sync_args)).

(** The operation, the operations behind it, the state before it and its note. *)
Definition la_result : Type := insn * list insn * la_state * noted.

Definition la_remove (i : insn) (q : list insn) (st : la_state) : res la_result :=
  Ok (tcg_set_nop i.(args), q, st, None).

Definition la_default (i : insn) (q : list insn) (st : la_state) : res la_result :=
  let flags := op_flags i.(opc) in
  if negb (testb flags TCG_OPF_SIDE_EFFECTS) && negb (nb_oargs i.(opc) =? 0)%nat &&
     forallb (unused st) (oargs i)
  then la_remove i q st
  else let '(st, x) := la_keep flags (oargs i) (iargs i) st in Ok (i, q, st, x).

(** An operation of one word takes the place; the nop behind it takes the
    arguments that are left. *)
Definition la_narrow (flags : Z) (i : insn) (left : list Z) (q : list insn) (st : la_state) : res la_result :=
  match q with
  | m :: q =>
      _ ← guard_res (bool_decide (m.(opc) = INDEX_op_nop)) AssertFailed;
      let '(st, x) := la_keep flags (take 1 i.(args)) (drop 1 i.(args)) st in
      Ok (i, tcg_set_nop left :: q, st, x)
  | [] => Err AssertFailed
  end.

(** The label do_addsub2 *)
Definition la_addsub2 (i : insn) (op_new : TCGOpcode) (q : list insn) (st : la_state) : res la_result :=
  let a := i.(args) in
  let flags := op_flags i.(opc) in
  if unused st (arg a 1) then
    if unused st (arg a 0) then la_remove i q st
    else la_narrow flags (mkInsn op_new [arg a 0; arg a 2; arg a 4]) [arg a 3; arg a 4; arg a 5] q st
  else let '(st, x) := la_keep flags (oargs i) (iargs i) st in Ok (i, q, st, x).

(** The label do_mul2 *)
Definition la_mul2 (i : insn) (op_new op_new2 : TCGOpcode) (have_op_new2 : bool) (q : list insn)
    (st : la_state) : res la_result :=
  let a := i.(args) in
  let flags := op_flags i.(opc) in
  if unused st (arg a 1) then
    if unused st (arg a 0) then la_remove i q st
    else la_narrow flags (mkInsn op_new [arg a 0; arg a 2; arg a 3]) [arg a 3] q st
  else if have_op_new2 && unused st (arg a 0) then
    la_narrow flags (mkInsn op_new2 [arg a 1; arg a 2; arg a 3]) [arg a 3] q st
  else let '(st, x) := la_keep flags (oargs i) (iargs i) st in Ok (i, q, st, x).

Definition la_call (i : insn) (q : list insn) (st : la_state) : res la_result :=
  if testb (call_flags i) TCG_CALL_NO_SIDE_EFFECTS && forallb (unused st) (oargs i)
  then la_remove i q st
  else let '(st, x) := la_keep_call (call_flags i) (oargs i) (iargs i) st in Ok (i, q, st, x).

Definition la_insn (i : insn) (q : list insn) (st : la_state) : res la_result :=
  match i.(opc) with
  | INDEX_op_call => la_call i q st
  | INDEX_op_debug_insn_start | INDEX_op_nopn | INDEX_op_end => Ok (i, q, st, None)
  | INDEX_op_discard =>
      let t := arg i.(args) 0 in
      Ok (i, q, mkLa (tset t true st.(dead_temps)) (tset t false st.(mem_temps)), None)
  | INDEX_op_add2 t => la_addsub2 i (INDEX_op_add t) q st
  | INDEX_op_sub2 t => la_addsub2 i (INDEX_op_sub t) q st
  | INDEX_op_mulu2 t => la_mul2 i (INDEX_op_mul t) (INDEX_op_muluh t) (TCG_TARGET_HAS_muluh t) q st
  | INDEX_op_muls2 t => la_mul2 i (INDEX_op_mul t) (INDEX_op_mulsh t) (TCG_TARGET_HAS_mulsh t) q st
  | _ => la_default i q st
  end.

(** The loop, from the end of the block. *)
Fixpoint la_insns (p : list insn) : res (list insn * list noted * la_state) :=
  match p with
  | [] => Ok ([], [], tcg_la_func_end)
  | i :: p =>
      '(q, xs, st) ← la_insns p;
      '(i, q, st, x) ← la_insn i q st;
      Ok (i :: q, x :: xs, st)
  end.

Definition tcg_liveness_analysis (p : list insn) : res (list insn * list noted) :=
  '(q, xs, _) ← la_insns p; Ok (q, xs).
End Liveness.
