(* ===== verification/LivenessSound.v ===== *)
(** * The liveness analysis is sound

    The program after [tcg_liveness_analysis] does what the program did, as far as
    the values go that are used later: two runs agree on the temporaries that the
    analysis takes for live.  An operation is removed only if it could have been
    executed without any other effect, or is a division without a result. *)

From S2P Require Import Prelude X86 TcgOut TcgEnc TcgEmit TcgCond TcgOpDefs TcgSem TcgIR Optimize.
From S2P Require Import OptCopies OptValues OptSound OptStages OptFold OptRound OptProgram Liveness.

Lemma testb_lor x a b : testb x (Z.lor a b) = testb x a || testb x b.
Proof.
  unfold testb. rewrite Z.land_lor_distr_r. apply eq_bool_prop_intro.
  rewrite orb_True, !Is_true_true, !negb_true_iff, !Z.eqb_neq, Z.lor_eq_0_iff.
  destruct (Z.eq_dec (Z.land x a) 0), (Z.eq_dec (Z.land x b) 0); tauto.
Qed.

Section States.
Context (s : tcg_temps).
Hypothesis Hglobals : 0 <= s.(nb_globals) <= nb_temps s.
Hypothesis Hmax : nb_temps s <= TCG_MAX_TEMPS.

(** ** The states of the analysis *)

Definition sized (st : la_state) : Prop :=
  length st.(dead_temps) = length s.(temps) /\ length st.(mem_temps) = length s.(temps).

Local Abbreviation used st t := (unused st t = false).

Lemma tget_set {A} `{Inhabited A} (l : list A) t x u :
  length l = length s.(temps) -> valid s t -> valid s u ->
  tget (tset t x l) u = if u =? t then x else tget l u.
Proof.
  intros Hl Ht Hu. destruct (Z.eqb_spec u t) as [->|].
  - apply tget_tset_same. unfold valid, nb_temps in Ht. lia.
  - apply tget_tset_other; [apply Ht|apply Hu|done].
Qed.

Lemma length_set_globals x l : length l = length s.(temps) -> length (set_globals s x l) = length s.(temps).
Proof.
  intros Hl. unfold set_globals, nb_temps in *. rewrite length_app, length_replicate, length_drop. lia.
Qed.

Lemma tget_globals x l t :
  length l = length s.(temps) -> valid s t ->
  tget (set_globals s x l) t = if t <? s.(nb_globals) then x else tget l t.
Proof.
  intros Hl Ht. unfold valid, nb_temps in *. unfold set_globals, tget.
  destruct (Z.ltb_spec t s.(nb_globals)).
  - rewrite lookup_total_app_l by (rewrite length_replicate; lia). apply lookup_total_replicate_2. lia.
  - rewrite lookup_total_app_r by (rewrite length_replicate; lia).
    rewrite length_replicate, lookup_total_drop. f_equal. lia.
Qed.

(** The outputs die, the others stay. *)
Lemma outputs_spec ts : forall k st da sa,
  sized st -> Forall (valid s) ts ->
  let st' := (la_outputs k ts st da sa).1.1 in
  sized st' /\ forall x, valid s x -> x ∉ ts ->
    tget st'.(dead_temps) x = tget st.(dead_temps) x /\ tget st'.(mem_temps) x = tget st.(mem_temps) x.
Proof.
  induction ts as [|t ts IH]; intros k st da sa [Hd Hm] Hts; cbn [la_outputs]; [done|].
  apply Forall_cons in Hts as [Ht Hts].
  edestruct (IH (k + 1) (mkLa (tset t true st.(dead_temps)) (tset t false st.(mem_temps)))) as [Hs Hx];
    [split; cbn; by rewrite length_tset|done|].
  split; [exact Hs|]. intros x Vx [Hne Hn]%not_elem_of_cons. destruct (Hx x Vx Hn) as [-> ->]. cbn.
  by rewrite !tget_set, (proj2 (Z.eqb_neq x t)).
Qed.

(** The inputs are live. *)
Lemma inputs_spec call ts : forall k st da,
  sized st -> Forall (valid s) ts ->
  let st' := (la_inputs call k ts st da).1 in
  sized st' /\ st'.(mem_temps) = st.(mem_temps) /\
  forall x, valid s x -> tget st'.(dead_temps) x = negb (bool_decide (x ∈ ts)) && tget st.(dead_temps) x.
Proof.
  induction ts as [|t ts IH]; intros k st da [Hd Hm] Hts; cbn [la_inputs].
  { split_and!; [done..|]. intros x _. by rewrite bool_decide_false by (apply not_elem_of_nil). }
  apply Forall_cons in Hts as [Ht Hts].
  assert ((t =? TCG_CALL_DUMMY_ARG) = false) as ->.
  { apply Z.eqb_neq. unfold valid, TCG_MAX_TEMPS, TCG_CALL_DUMMY_ARG in *. lia. }
  rewrite andb_false_r.
  edestruct (IH (k + 1) (mkLa (tset t false st.(dead_temps)) st.(mem_temps))) as (Hs & Em & Hx);
    [split; cbn; by rewrite ?length_tset|done|].
  split_and!; [exact Hs|exact Em|]. intros x Vx. rewrite (Hx x Vx). cbn [dead_temps].
  rewrite tget_set by done. destruct (Z.eqb_spec x t) as [->|Hne].
  - rewrite andb_false_r, bool_decide_true; [done|]. apply list_elem_of_here.
  - f_equal. f_equal. apply bool_decide_ext. rewrite elem_of_cons. tauto.
Qed.

Lemma sized_func_end : sized (tcg_la_func_end s).
Proof. split; cbn; [apply length_replicate|]. apply length_set_globals, length_replicate. Qed.

Lemma sized_bb_end : sized (tcg_la_bb_end s).
Proof. split; cbn; [apply length_replicate|]. apply length_set_globals, length_fmap. Qed.

Lemma bb_end_survives x : valid s x -> survives s x = true -> used (tcg_la_bb_end s) x.
Proof.
  intros Vx Hs. unfold unused. apply andb_false_iff. right. apply negb_false_iff. cbn [mem_temps tcg_la_bb_end].
  rewrite tget_globals by (done || apply length_fmap). unfold survives in Hs.
  destruct (x <? nb_globals s); [done|]. cbn in Hs. unfold tget in *.
  unfold valid, nb_temps in Vx. destruct (lookup_lt_is_Some_2 (temps s) (Z.to_nat x)) as [y Ey]; [lia|].
  rewrite list_lookup_total_alt, Ey in Hs. by rewrite list_lookup_total_alt, list_lookup_fmap, Ey.
Qed.

(** Globals that are to be in memory. *)
Lemma synced_spec st : sized st ->
  let st' := mkLa st.(dead_temps) (set_globals s true st.(mem_temps)) in
  sized st' /\ (forall x, valid s x -> used st x -> used st' x) /\
  forall x, valid s x -> x < s.(nb_globals) -> used st' x.
Proof.
  intros [Hd Hm] st'. split; [split; [done|by apply length_set_globals]|].
  split; intros x Vx Hx; unfold unused, st' in *; cbn [dead_temps mem_temps]; rewrite tget_globals by done.
  - destruct (x <? nb_globals s); [apply andb_false_r|done].
  - rewrite (proj2 (Z.ltb_lt _ _) Hx). apply andb_false_r.
Qed.

Lemma inputs_used call k ts st da :
  sized st -> Forall (valid s) ts ->
  let st' := (la_inputs call k ts st da).1 in
  sized st' /\ (forall x, x ∈ ts -> used st' x) /\ forall x, valid s x -> used st x -> used st' x.
Proof.
  intros Hs Hts st'. destruct (inputs_spec call ts k st da Hs Hts) as (Hs' & Em & Hx). fold st' in Hs', Em, Hx.
  split; [done|]. unfold unused. split.
  - intros x Hin. rewrite Hx, bool_decide_true by (done || by eapply Forall_forall). done.
  - intros x Vx. rewrite Em, (Hx x Vx). destruct (tget (dead_temps st) x); [|by rewrite andb_false_r].
    cbn. intros ->. apply andb_false_r.
Qed.

Lemma outputs_used k ts st da sa :
  sized st -> Forall (valid s) ts ->
  let st' := (la_outputs k ts st da sa).1.1 in
  sized st' /\ forall x, valid s x -> x ∉ ts -> used st x -> used st' x.
Proof.
  intros Hs Hts st'. destruct (outputs_spec ts k st da sa Hs Hts) as [Hs' Hx]. fold st' in Hs', Hx. split; [done|].
  intros x Vx Hn. unfold unused. by destruct (Hx x Vx Hn) as [-> ->].
Qed.

(** What is live before an operation that stays. *)
Record kept_state (flags : Z) (outs ins : list Z) (st st' : la_state) : Prop := {
  ks_sized : sized st';
  ks_inputs : forall x, x ∈ ins -> used st' x;
  ks_others : testb flags TCG_OPF_BB_END = false ->
    forall x, valid s x -> x ∉ outs -> used st x -> used st' x;
  ks_survive : testb flags TCG_OPF_BB_END = true -> forall x, valid s x -> survives s x = true -> used st' x;
  ks_globals : testb flags (Z.lor TCG_OPF_BB_END TCG_OPF_SIDE_EFFECTS) = true ->
    forall x, valid s x -> x < s.(nb_globals) -> used st' x
}.

Lemma keep_spec flags outs ins st :
  sized st -> Forall (valid s) outs -> Forall (valid s) ins ->
  kept_state flags outs ins st (la_keep s flags outs ins st).1.
Proof.
  intros Hs Ho Hi. unfold la_keep.
  destruct (la_outputs 0 outs st 0 0) as [[st1 da] sa] eqn:E1.
  destruct (outputs_used 0 outs st 0 0 Hs Ho) as [Hs1 H1]. rewrite E1 in Hs1, H1. cbn [fst] in *.
  set (st2 := if testb flags TCG_OPF_BB_END then _ else _).
  assert (sized st2 /\
    (testb flags TCG_OPF_BB_END = false -> forall x, valid s x -> used st1 x -> used st2 x) /\
    (testb flags TCG_OPF_BB_END = true -> forall x, valid s x -> survives s x = true -> used st2 x) /\
    (testb flags (Z.lor TCG_OPF_BB_END TCG_OPF_SIDE_EFFECTS) = true ->
     forall x, valid s x -> x < s.(nb_globals) -> used st2 x)) as (Hs2 & H2 & H3 & H4).
  { rewrite testb_lor. destruct (synced_spec st1 Hs1) as (Hs2 & H2 & H3). unfold st2.
    destruct (testb flags TCG_OPF_BB_END), (testb flags TCG_OPF_SIDE_EFFECTS); split_and!; try done;
      try apply sized_bb_end; try (intros _; apply bb_end_survives);
      intros _ x Vx Hx; apply bb_end_survives; try done; unfold survives; by rewrite (proj2 (Z.ltb_lt _ _) Hx). }
  destruct (la_inputs _ _ _ _ _) as [st3 da'] eqn:E3.
  destruct (inputs_used false (Z.of_nat (length outs)) ins st2 da Hs2 Hi) as (Hs3 & H5 & H6).
  rewrite E3 in Hs3, H5, H6. cbn [fst] in *. split; auto.
Qed.

Record kept_call (flags : Z) (outs ins : list Z) (st st' : la_state) : Prop := {
  kc_sized : sized st';
  kc_inputs : forall x, x ∈ ins -> used st' x;
  kc_others : forall x, valid s x -> x ∉ outs -> used st x -> used st' x;
  kc_globals : testb flags TCG_CALL_NO_READ_GLOBALS = false ->
    forall x, valid s x -> x < s.(nb_globals) -> used st' x
}.

Lemma keep_call_spec flags outs ins st :
  sized st -> Forall (valid s) outs -> Forall (valid s) ins ->
  kept_call flags outs ins st (la_keep_call s flags outs ins st).1.
Proof.
  intros Hs Ho Hi. unfold la_keep_call.
  destruct (la_outputs 0 outs st 0 0) as [[st1 da] sa] eqn:E1.
  destruct (outputs_used 0 outs st 0 0 Hs Ho) as [Hs1 H1]. rewrite E1 in Hs1, H1. cbn [fst] in *.
  set (st2 := if testb flags TCG_CALL_NO_READ_GLOBALS then _ else _).
  set (st3 := if testb flags (Z.lor _ _) then _ else _).
  assert (sized st3 /\ (forall x, valid s x -> used st1 x -> used st3 x) /\
    (testb flags TCG_CALL_NO_READ_GLOBALS = false ->
     forall x, valid s x -> x < s.(nb_globals) -> used st3 x)) as (Hs3 & H2 & H3).
  { destruct (synced_spec st1 Hs1) as (Hs2 & H2 & H3). unfold st3, st2. rewrite testb_lor.
    destruct (testb flags TCG_CALL_NO_READ_GLOBALS); [by rewrite orb_true_r|]. rewrite orb_false_r.
    destruct (testb flags TCG_CALL_NO_WRITE_GLOBALS); [done|]. cbn [dead_temps mem_temps].
    assert (forall x, valid s x -> used st1 x \/ x < s.(nb_globals) ->
      used (mkLa (set_globals s true st1.(dead_temps)) (set_globals s true st1.(mem_temps))) x) as H.
    { intros x Vx Hx. unfold unused in *. cbn [dead_temps mem_temps]. destruct Hs1 as [Hd Hm].
      rewrite !tget_globals by done. destruct (Z.ltb_spec x (nb_globals s)); [done|]. destruct Hx; [done|lia]. }
    split_and!; auto. split; cbn; apply length_set_globals; apply Hs1. }
  destruct (la_inputs _ _ _ _ _) as [st4 da'] eqn:E4.
  destruct (inputs_used true (Z.of_nat (length outs)) ins st3 da Hs3 Hi) as (Hs4 & H5 & H6).
  rewrite E4 in Hs4, H5, H6. cbn [fst] in *. split; auto.
Qed.
End States.

(** ** Agreement *)

Section Agreement.
Context (s : tcg_temps).

Record agree (P : Z -> Prop) (v v' : list Z) : Prop := {
  ag_length : length v = length s.(temps);
  ag_length' : length v' = length s.(temps);
  ag_value : forall t, valid s t -> P t -> rd s v t = rd s v' t
}.

Definition everywhere (t : Z) : Prop := True.

Lemma agree_weaken (P Q : Z -> Prop) v v' : (forall t, valid s t -> Q t -> P t) -> agree P v v' -> agree Q v v'.
Proof. intros H [H1 H2 H3]. split; auto. Qed.

Lemma agree_list P v v' xs :
  agree P v v' -> Forall (valid s) xs -> (forall x, x ∈ xs -> P x) -> rd s v <$> xs = rd s v' <$> xs.
Proof.
  intros [_ _ H] Hxs HP. induction Hxs as [|x xs Hx _ IH]; [done|]. cbn. f_equal.
  - apply H; [done|]. apply HP, list_elem_of_here.
  - apply IH. intros y Hy. apply HP. by apply list_elem_of_further.
Qed.

(** The same results are written. *)
Lemma writes_agree ts rs : forall P v v' v1',
  agree P v v' -> Forall (valid s) ts -> writes s ts rs v' v1' ->
  exists v1, writes s ts rs v v1 /\ agree (fun t => P t \/ t ∈ ts) v1 v1'.
Proof.
  revert rs. induction ts as [|t ts IH]; intros [|r rs] P v v' v1' Ha Hts; try done; cbn [writes].
  - intros ->. exists v. split; [done|]. eapply agree_weaken; [|exact Ha]. intros t _ [?|H]; [done|].
    by apply not_elem_of_nil in H.
  - apply Forall_cons in Hts as [Ht Hts]. intros (u & Hu & Hw).
    edestruct (IH rs (fun x => P x \/ x = t) (tset t u v) (tset t u v')) as (v1 & Hw1 & Ha1); [|done|exact Hw|].
    { destruct Ha as [H1 H2 H3]. split; [by rewrite length_tset..|]. intros x Vx Hx.
      destruct (decide (x = t)) as [->|Hne]; [by rewrite !rd_set|].
      rewrite !rd_other by (apply Ht || apply Vx || done). apply H3; [done|]. by destruct Hx. }
    exists v1. split; [by exists u|]. eapply agree_weaken; [|exact Ha1].
    intros x _ Hx. rewrite elem_of_cons in Hx. tauto.
Qed.

(** The temporaries that do not survive take the same values. *)
Lemma clobbered_agree v v' v1' :
  agree (fun t => survives s t = true) v v' -> clobbered s v' v1' ->
  exists v1, clobbered s v v1 /\ agree everywhere v1 v1'.
Proof.
  intros [H1 H2 H3] [Hl Hc].
  set (v1 := imap (fun k x => if survives s (Z.of_nat k) then v !!! k else x) v1').
  assert (length v1 = length v) as Hl1 by (unfold v1; rewrite length_imap; congruence).
  assert (forall t, valid s t -> tget v1 t = if survives s t then tget v t else tget v1' t) as Hg.
  { intros t Ht. unfold valid, nb_temps in Ht. unfold tget, v1.
    destruct (lookup_lt_is_Some_2 v1' (Z.to_nat t)) as [y Ey]; [lia|].
    rewrite (list_lookup_total_alt (imap _ _)), list_lookup_imap, Ey. cbn. rewrite Z2Nat.id by lia.
    by rewrite (list_lookup_total_alt v1'), Ey. }
  exists v1. split.
  - split; [done|]. intros t Ht Hs. destruct (decide (t < nb_temps s)).
    + rewrite Hg by done. by rewrite Hs.
    + unfold tget, nb_temps in *. by rewrite !list_lookup_total_alt, !lookup_ge_None_2 by lia.
  - split; [congruence..|]. intros t Vt _. destruct (survives s t) eqn:Es.
    + unfold rd. rewrite Hg, Es, (Hc t) by (done || apply Vt). by apply H3.
    + unfold rd. by rewrite Hg, Es.
Qed.

Lemma agree_globals P v v' :
  0 <= s.(nb_globals) <= nb_temps s -> agree P v v' -> (forall t, valid s t -> t < s.(nb_globals) -> P t) ->
  globals s v = globals s v'.
Proof.
  intros Hg [_ _ H] HP. unfold globals. apply list_fmap_ext. intros k j Hk. apply lookup_seq in Hk as [-> Hk].
  apply H; [unfold valid, nb_temps in *; lia|]. apply HP; unfold valid, nb_temps in *; lia.
Qed.
End Agreement.

(** ** Single operations *)

Section Sim.
Context {W : Type} (E : environment W) (s : tcg_temps).
Hypothesis Hglobals : 0 <= s.(nb_globals) <= nb_temps s.
Hypothesis Hmax : nb_temps s <= TCG_MAX_TEMPS.

Definition used (st : la_state) (t : Z) : Prop := unused st t = false.

(** A division without a result. *)
Definition division (i : insn) (v : list Z) : Prop :=
  (exists t, i.(opc) = INDEX_op_div2 t \/ i.(opc) = INDEX_op_divu2 t) /\
  eval_op i.(opc) (cargs i) (rd s v <$> iargs i) = None.

(** What [i'] does, [i] can do; [st'] is the state before and [st] the state after
    the operation. *)
Definition sim (i i' : insn) (st st' : la_state) : Prop :=
  forall label n w v v' c', agree s (used st') v v' -> insn_step E s label i' (mkConfig n v' w) c' ->
    (exists v1, insn_step E s label i (mkConfig n v w) (mkConfig c'.(ip) v1 c'.(world)) /\
       (agree s everywhere v1 c'.(vals) \/ c'.(ip) = S n /\ agree s (used st) v1 c'.(vals))) \/
    division i v.

Lemma eval_not_bb_end op cs xs rs : eval_op op cs xs = Some rs -> testb (op_flags op) TCG_OPF_BB_END = false.
Proof.
  intros H. destruct op; try reflexivity;
    try (destruct xs as [|? [|? [|? [|? [|]]]]]; try done; destruct cs as [|? [|? [|]]]; done);
    by destruct t.
Qed.

Lemma bb_end_survive i st st' v v' v1' :
  kept_state s (op_flags i.(opc)) (oargs i) (iargs i) st st' -> bb_end i.(opc) = true ->
  agree s (used st') v v' -> clobbered s v' v1' -> exists v1, clobbered s v v1 /\ agree s everywhere v1 v1'.
Proof.
  intros Hk Hb Ha. apply clobbered_agree. eapply agree_weaken; [|exact Ha].
  intros t Vt Hs. by apply (ks_survive _ _ _ _ _ _ Hk Hb).
Qed.

Lemma sim_keep i st st' :
  shaped s i -> i.(opc) <> INDEX_op_call ->
  kept_state s (op_flags i.(opc)) (oargs i) (iargs i) st st' -> sim i i st st'.
Proof.
  intros Hsh Hc Hk label n w v v' c' Ha Hst. left. pose proof (sh_outputs _ _ Hsh) as Ho.
  assert (rd s v <$> iargs i = rd s v' <$> iargs i) as Ei.
  { eapply agree_list; [exact Ha|apply (sh_inputs _ _ Hsh)|]. apply (ks_inputs _ _ _ _ _ _ Hk). }
  assert (forall rs v1', bb_end i.(opc) = false -> writes s (oargs i) rs v' v1' ->
    exists v1, writes s (oargs i) rs v v1 /\ agree s (used st) v1 v1') as Hwr.
  { intros rs v1' Hb Hw. destruct (writes_agree s _ _ _ _ _ _ Ha Ho Hw) as (v1 & Hw1 & Ha1).
    exists v1. split; [done|]. eapply agree_weaken; [|exact Ha1]. intros t Vt Ht.
    destruct (decide (t ∈ oargs i)); [by right|left]. by apply (ks_others _ _ _ _ _ _ Hk Hb). }
  inversion Hst as [? ? ? rs v1' Ev Hw|? ? ? v1' El Hcl|? ? ? v1' x n' El Ex Hl Hcl|? ? ? v1' b n' Tk Hl Hcl
    |? ? ? ? ? ? ? ? El|? ? ? us w' v2' v1' Hp Hh Hw Hb]; subst; try done; cbn [ip vals world].
  - destruct (Hwr rs v1' (eval_not_bb_end _ _ _ _ Ev) Hw) as (v1 & Hw1 & Ha1). exists v1. split; [|by right].
    eapply step_value; [by rewrite Ei|done].
  - destruct (bb_end_survive i st st' v v' v1' Hk) as (v1 & Hc1 & Ha1); [by rewrite El|done..|].
    exists v1. split; [by apply step_label|by left].
  - destruct (bb_end_survive i st st' v v' v1' Hk) as (v1 & Hc1 & Ha1); [by rewrite El|done..|].
    exists v1. split; [by eapply step_br|by left].
  - assert (bb_end i.(opc) = true) as Hbb by (unfold taken in Tk; destruct (opc i); try done; by destruct t).
    destruct (bb_end_survive i st st' v v' v1' Hk Hbb Ha Hcl) as (v1 & Hc1 & Ha1).
    exists v1. split; [|by left]. eapply step_brcond; [|done..]. unfold taken in *. by rewrite Ei.
  - assert ((if reads_globals i.(opc) then globals s v else []) = if reads_globals i.(opc) then globals s v' else []) as Eg.
    { destruct (reads_globals i.(opc)) eqn:Er; [|done]. eapply agree_globals; [done|exact Ha|].
      by apply (ks_globals _ _ _ _ _ _ Hk Er). }
    destruct (bb_end i.(opc)) eqn:Hbb.
    + destruct (writes_agree s _ _ _ _ _ _ Ha Ho Hw) as (v2 & Hw2 & Ha2).
      destruct (clobbered_agree s v2 v2' v1') as (v1 & Hc1 & Ha1); [|done|].
      { eapply agree_weaken; [|exact Ha2]. intros t Vt Hs. left. by apply (ks_survive _ _ _ _ _ _ Hk Hbb). }
      exists v1. split; [|by left]. eapply step_primitive; [done|rewrite Ei, Eg; done|done|by rewrite Hbb].
    + subst v2'. destruct (Hwr _ v1' eq_refl Hw) as (v1 & Hw1 & Ha1). exists v1. split; [|by right].
      eapply step_primitive; [done|rewrite Ei, Eg; done|done|by rewrite Hbb].
Qed.

Lemma tget_app_drop (g v : list Z) t : (length g <= Z.to_nat t)%nat -> tget (g ++ drop (length g) v) t = tget v t.
Proof. intros H. unfold tget. rewrite lookup_total_app_r, lookup_total_drop by done. f_equal. lia. Qed.

(** A call that stays. *)
Lemma sim_keep_call i st st' :
  shaped s i -> i.(opc) = INDEX_op_call -> kept_call s (call_flags i) (oargs i) (iargs i) st st' -> sim i i st st'.
Proof.
  intros Hsh Hc Hk label n w v v' c' Ha Hst. left. pose proof (sh_outputs _ _ Hsh) as Ho.
  assert (rd s v <$> iargs i = rd s v' <$> iargs i) as Ei.
  { eapply agree_list; [exact Ha|apply (sh_inputs _ _ Hsh)|]. apply (kc_inputs _ _ _ _ _ _ Hk). }
  inversion Hst as [? ? ? rs v1' Ev Hw|? ? ? v1' El Hcl|? ? ? v1' x n' El Ex Hl Hcl|? ? ? v1' b n' Tk Hl Hcl
    |? ? ? us g w' v2' v1' El Hh Hg Hw|? ? ? us w' v2' v1' Hp Hh Hw Hb]; subst; try congruence; cbn [ip vals world].
  { rewrite Hc in Ev. discriminate (eval_value_op _ _ _ _ Ev). }
  { unfold taken in Tk. by rewrite Hc in Tk. }
  2: { by rewrite Hc in Hp. }
  assert ((if testb (call_flags i) TCG_CALL_NO_READ_GLOBALS then [] else globals s v) =
    if testb (call_flags i) TCG_CALL_NO_READ_GLOBALS then [] else globals s v') as Eg.
  { destruct (testb (call_flags i) TCG_CALL_NO_READ_GLOBALS) eqn:Er; [done|].
    eapply agree_globals; [done|exact Ha|]. by apply (kc_globals _ _ _ _ _ _ Hk Er). }
  assert (exists v2, (if testb (call_flags i) (Z.lor TCG_CALL_NO_READ_GLOBALS TCG_CALL_NO_WRITE_GLOBALS)
     then v2 = v else length g = Z.to_nat s.(nb_globals) /\ v2 = g ++ drop (length g) v) /\
     agree s (used st') v2 v2') as (v2 & Hg2 & Ha2).
  { destruct (testb (call_flags i) (Z.lor _ _)); [exists v; by subst|]. destruct Hg as [Hlg ->].
    exists (g ++ drop (length g) v). split; [done|]. destruct Ha as [H1 H2 H3]. unfold nb_temps in Hglobals.
    split; [rewrite length_app, length_drop; lia..|]. intros t Vt Ht. destruct (decide (Z.to_nat t < length g)%nat).
    - unfold rd, tget. by rewrite !lookup_total_app_l.
    - unfold rd. rewrite !tget_app_drop by lia. by apply H3. }
  destruct (writes_agree s _ _ _ _ _ _ Ha2 Ho Hw) as (v1 & Hw1 & Ha1). exists v1. split.
  - eapply step_call; [done|rewrite Ei, Eg; exact Hh|exact Hg2|exact Hw1].
  - right. split; [done|]. eapply agree_weaken; [|exact Ha1]. intros t Vt Ht.
    destruct (decide (t ∈ oargs i)); [by right|left]. by apply (kc_others _ _ _ _ _ _ Hk).
Qed.

(** Operations that can be left out if their results are not used: loads of host
    memory, and helpers with the flag TCG_CALL_NO_SIDE_EFFECTS. *)
Class suppressible : Prop := {
  sp_load : forall op cs xs w,
    is_primitive op = true -> testb (op_flags op) TCG_OPF_SIDE_EFFECTS = false -> nb_oargs op = 1%nat ->
    exists u, E.(primitive) op cs xs [] w [u] w;
  sp_helper : forall no cs xs g w,
    testb (cs !!! 0%nat) TCG_CALL_NO_SIDE_EFFECTS = true ->
    exists us, length us = no /\ E.(helper) no cs xs g w us g w
}.

Lemma writes_possible ts rs : forall v, length rs = length ts -> exists v1, writes s ts rs v v1.
Proof.
  revert rs. induction ts as [|t ts IH]; intros [|r rs] v Hl; try discriminate Hl; [by exists v|].
  injection Hl as Hl. destruct (IH rs (tset t (default 0 r) v) Hl) as (v1 & H). exists v1, (default 0 r).
  split; [|done]. by intros x ->.
Qed.

Lemma writes_unused ts rs st v v' v1 :
  agree s (used st) v v' -> Forall (valid s) ts -> forallb (unused st) ts = true -> writes s ts rs v v1 ->
  agree s (used st) v1 v'.
Proof.
  intros [H1 H2 H3] Hts Hun Hw. apply writes_others in Hw as [Hl Ho]; [|done]. split; [congruence|done|].
  intros t Vt Ht. unfold rd. rewrite Ho; [by apply H3|done|]. intros Hin. unfold used in Ht.
  rewrite forallb_Forall, Forall_forall in Hun. by rewrite (Hun t Hin) in Ht.
Qed.

Lemma set_nop_step label a n v w c' :
  insn_step E s label (tcg_set_nop a) (mkConfig n v w) c' <-> c' = mkConfig (S n) v w.
Proof.
  rewrite (value_step E s label (tcg_set_nop a) []) by (by destruct a).
  assert (oargs (tcg_set_nop a) = []) as -> by (by destruct a). cbn. split; [by intros (? & -> & ->)|].
  intros ->. eauto.
Qed.

Lemma length_globals v : length (globals s v) = Z.to_nat s.(nb_globals).
Proof. unfold globals. by rewrite length_fmap, length_seq. Qed.

(** Writing the globals back changes nothing. *)
Lemma globals_back v :
  length v = length s.(temps) ->
  length (globals s v ++ drop (length (globals s v)) v) = length s.(temps) /\
  forall t, valid s t -> rd s (globals s v ++ drop (length (globals s v)) v) t = rd s v t.
Proof.
  intros Hv. unfold nb_temps in Hglobals. pose proof (length_globals v) as Hl.
  split; [rewrite length_app, length_drop; lia|]. intros t Vt. unfold valid in Vt. unfold rd at 1.
  destruct (decide (Z.to_nat t < length (globals s v))%nat).
  - unfold tget. rewrite lookup_total_app_l by done. unfold globals.
    rewrite list_lookup_total_alt, list_lookup_fmap, lookup_seq_lt by lia. cbn. rewrite Z2Nat.id by lia.
    unfold rd. apply wrap_wrap.
  - by rewrite tget_app_drop by lia.
Qed.

Lemma sim_remove_call i st `{!suppressible} :
  shaped s i -> i.(opc) = INDEX_op_call -> testb (call_flags i) TCG_CALL_NO_SIDE_EFFECTS = true ->
  forallb (unused st) (oargs i) = true -> sim i (tcg_set_nop i.(args)) st st.
Proof.
  intros Hsh Hc Hf Hun label n w v v' c' Ha ->%set_nop_step. left. cbn [ip vals world].
  set (g := if testb (call_flags i) TCG_CALL_NO_READ_GLOBALS then [] else globals s v).
  destruct (sp_helper (length (oargs i)) (cargs i) (rd s v <$> iargs i) g w Hf) as (us & Hl & Hh).
  set (v2 := if testb (call_flags i) (Z.lor TCG_CALL_NO_READ_GLOBALS TCG_CALL_NO_WRITE_GLOBALS)
             then v else globals s v ++ drop (length (globals s v)) v).
  assert (agree s (used st) v2 v') as Ha2.
  { unfold v2. destruct (testb _ (Z.lor _ _)); [done|]. destruct Ha as [H1 H2 H3].
    destruct (globals_back v H1) as [Hlb Hrb]. split; [done..|]. intros t Vt Ht. rewrite Hrb by done. by apply H3. }
  destruct (writes_possible (oargs i) (Some <$> us) v2) as (v1 & Hw); [by rewrite length_fmap|].
  exists v1. split.
  - eapply step_call; [done|exact Hh| |exact Hw]. unfold v2, g. rewrite testb_lor.
    destruct (testb _ TCG_CALL_NO_READ_GLOBALS); [done|]. destruct (testb _ TCG_CALL_NO_WRITE_GLOBALS); [done|].
    split; [apply length_globals|done].
  - right. split; [done|]. eapply writes_unused; [exact Ha2|apply (sh_outputs _ _ Hsh)|done|exact Hw].
Qed.

(** An operation with outputs has a value, a division maybe not. *)
Lemma value_defined i v :
  shape s i = true -> nb_oargs i.(opc) <> 0%nat -> i.(opc) <> INDEX_op_call -> is_primitive i.(opc) = false ->
  (exists rs, eval_op i.(opc) (cargs i) (rd s v <$> iargs i) = Some rs /\ length rs = length (oargs i)) \/
  division i v.
Proof.
  destruct i as [op a]. cbn [opc]. intros Hs Hn Hc Hp. pose proof (shape_length s op a Hs Hc) as Hl.
  pose proof (sh_host _ _ (shape_shaped _ _ Hs)) as Hh. pose proof (shape_consts s _ Hs) as Hk. cbn [opc args] in *.
  destruct op; try discriminate Hp; try (by destruct Hn); try (by destruct Hc); try discriminate Hh;
    try (exfalso; clear -Hh; destruct t; discriminate Hh); clear Hn Hc Hp Hh; cbn in Hl;
    repeat (destruct a as [|? a]; [discriminate Hl|]; try (destruct a; [|discriminate Hl]));
    try (left; eexists; split; [reflexivity|reflexivity]).
  - destruct (eval_op (INDEX_op_div2 t) _ _) as [rs|] eqn:Ev; [left|right; split; [eexists; left; done|done]].
    exists rs. split; [done|]. cbn in Ev. case_match; simplify_eq. done.
  - destruct (eval_op (INDEX_op_divu2 t) _ _) as [rs|] eqn:Ev; [left|right; split; [eexists; right; done|done]].
    exists rs. split; [done|]. cbn in Ev. case_match; simplify_eq. done.
  - apply real_cond_spec in Hk as (k & Hk & _). unfold arg in Hk. cbn in Hk. left. cbn. rewrite Hk. cbn. eauto.
  - apply real_cond_spec in Hk as (k & Hk & _). unfold arg in Hk. cbn in Hk. left. cbn. rewrite Hk. cbn. eauto.
Qed.

Lemma sim_remove i st `{!suppressible} :
  shape s i = true -> i.(opc) <> INDEX_op_call -> nb_oargs i.(opc) <> 0%nat ->
  testb (op_flags i.(opc)) TCG_OPF_SIDE_EFFECTS = false ->
  forallb (unused st) (oargs i) = true -> sim i (tcg_set_nop i.(args)) st st.
Proof.
  intros Hs Hc Hn Hf Hun label n w v v' c' Ha ->%set_nop_step. cbn [ip vals world].
  pose proof (sh_outputs _ _ (shape_shaped _ _ Hs)) as Ho.
  assert (forall rs v1, writes s (oargs i) rs v v1 -> agree s (used st) v1 v') as Hw
    by (intros rs v1; by eapply writes_unused).
  destruct (is_primitive i.(opc)) eqn:Hp.
  - left. assert (nb_oargs i.(opc) = 1%nat /\ bb_end i.(opc) = false /\ reads_globals i.(opc) = false) as (H1 & Hb & Hr).
    { destruct (opc i); try discriminate Hp; try (by destruct Hn); try discriminate Hf; first [by destruct t|done]. }
    destruct (sp_load i.(opc) (cargs i) (rd s v <$> iargs i) w Hp Hf H1) as [u Hu].
    destruct (writes_possible (oargs i) (Some <$> [u]) v) as (v1 & Hw1).
    { destruct i as [op a]. rewrite oargs_plain by done. rewrite length_take, (shape_length s op a Hs Hc).
      cbn [opc] in *. unfold nb_args. cbn [fmap list_fmap length]. lia. }
    exists v1. split; [|right; split; [done|by eapply Hw]].
    eapply step_primitive; [done|by rewrite Hr|exact Hw1|by rewrite Hb].
  - destruct (value_defined i v Hs Hn Hc Hp) as [(rs & Ev & Hl)|Hd]; [left|by right].
    destruct (writes_possible (oargs i) rs v Hl) as (v1 & Hw1). exists v1.
    split; [by eapply step_value|right; split; [done|by eapply Hw]].
Qed.

(** The lower word of a double-word operation. *)
Lemma sim_narrow i op o t rl rh x y st flags :
  binop_of op = Some (o, t) -> is_shift o = false -> sized s st ->
  oargs i = [rl; rh] -> Forall (valid s) [rl; rh; x; y] -> tsize s rl = wsize t ->
  testb flags TCG_OPF_BB_END = false -> unused st rl = false -> unused st rh = true ->
  (forall v, exists lo hi, eval_op i.(opc) (cargs i) (rd s v <$> iargs i) = Some [Some lo; Some hi] /\
     wrap (wsize t) lo =
       wrap (wsize t) (binop_value o (wsize t) (wrap (wsize t) (rd s v x)) (wrap (wsize t) (rd s v y)))) ->
  sim i (mkInsn op [rl; x; y]) st (la_keep s flags [rl] [x; y] st).1.
Proof.
  intros Hb Hsh Hsz Ho Hv Hty Hf Hrl Hrh Hev label n w v v' c' Ha Hst. left.
  rewrite !Forall_cons in Hv. destruct Hv as (Vl & Vh & Vx & Vy & _).
  assert (Forall (valid s) [x; y]) as Vi by (apply Forall_cons; split; [done|by apply Forall_singleton]).
  pose proof (keep_spec s Hglobals Hmax flags [rl] [x; y] st Hsz (proj2 (Forall_singleton _ _) Vl) Vi) as Hk.
  set (st' := (la_keep s flags [rl] [x; y] st).1) in *.
  assert (oargs (mkInsn op [rl; x; y]) = [rl] /\ iargs (mkInsn op [rl; x; y]) = [x; y] /\
    cargs (mkInsn op [rl; x; y]) = []) as (Eo & Ei & Ec) by (clear -Hb; by destruct op; cbn in Hb; simplify_eq).
  assert (rd s v <$> [x; y] = rd s v' <$> [x; y]) as Ev.
  { eapply agree_list; [exact Ha|exact Vi|]. apply (ks_inputs _ _ _ _ _ _ Hk). }
  destruct (Hev v) as (lo & hi & Evi & Hlo).
  eapply value_step in Hst as (v1' & Hw & ->).
  2: { rewrite Ec, Ei, <- Ev. cbn [opc fmap list_fmap]. by apply eval_binop. }
  rewrite Eo in Hw. destruct Hw as (u & Hu & ->). cbn [ip vals world].
  assert (binop_defined o (wsize t) (wrap (wsize t) (rd s v y)) = true) as Hdef
    by (unfold binop_defined; by rewrite Hsh).
  rewrite Hdef in Hu. specialize (Hu _ eq_refl).
  exists (tset rh hi (tset rl u v)). split.
  - apply (value_step E s label i _ _ _ _ _ Evi). eexists. split; [|done]. rewrite Ho.
    exists u. split; [|by exists hi; split; [intros ? [= <-]|]]. intros z [= <-]. by rewrite Hu, Hty, Hlo.
  - right. split; [done|]. destruct Ha as [H1 H2 H3]. split; [by rewrite !length_tset..|]. intros z Vz Hz.
    assert (z <> rh) as Hzh by (intros ->; unfold used in Hz; congruence).
    rewrite (rd_other s rh) by (apply Vh || apply Vz || done).
    destruct (decide (z = rl)) as [->|Hzl]; [by rewrite !rd_set|].
    rewrite !rd_other by (apply Vl || apply Vz || done). apply H3; [done|].
    apply (ks_others _ _ _ _ _ _ Hk Hf); [done| |done]. by apply not_elem_of_cons; split; [|apply not_elem_of_nil].
Qed.

Lemma sum2_low (sub : bool) n xh yh x y :
  0 <= n -> wrap n (sum2 sub (xh * 2 ^ n + x) (yh * 2 ^ n + y)) = wrap n (if sub then x - y else x + y).
Proof.
  intros Hn. pose proof (Z.pow_pos_nonneg 2 n). unfold wrap, sum2. destruct sub.
  - replace (xh * 2 ^ n + x - (yh * 2 ^ n + y)) with (x - y + (xh - yh) * 2 ^ n) by lia. apply Z_mod_plus_full.
  - replace (xh * 2 ^ n + x + (yh * 2 ^ n + y)) with (x + y + (xh + yh) * 2 ^ n) by lia. apply Z_mod_plus_full.
Qed.

Lemma mul2_low (signed : bool) t x y :
  wrap (wsize t) (number signed t x * number signed t y) = wrap (wsize t) (x * y).
Proof.
  pose proof (wsize_pos t). unfold number. destruct signed; [|done]. unfold wrap.
  rewrite (Z.mul_mod (swrap _ x)), (Z.mul_mod x) by (pose proof (Z.pow_pos_nonneg 2 (wsize t)); lia).
  pose proof (wrap_swrap (wsize t) x) as Ex. pose proof (wrap_swrap (wsize t) y) as Ey. unfold wrap in Ex, Ey.
  by rewrite Ex, Ey.
Qed.

(** ** One round of the analysis *)

(** Labels, exits and instrumentation operations stay. *)
Definition same_control (i i' : insn) : Prop := i' = i \/ kept i.(opc) = false /\ kept i'.(opc) = false.

(** The nop behind a double-word operation takes its arguments. *)
Definition same_rest (q q' : list insn) : Prop :=
  q' = q \/ exists m r a, q = m :: r /\ m.(opc) = INDEX_op_nop /\ q' = tcg_set_nop a :: r.

Record la_step (i i' : insn) (st st' : la_state) : Prop := {
  ls_sized : sized s st';
  ls_sim : sim i i' st st';
  ls_control : same_control i i';
  ls_exit : i.(opc) = INDEX_op_exit_tb -> forall t, valid s t -> survives s t = true -> used st' t
}.

Definition la_ok (i : insn) (q : list insn) (st : la_state) (x : res la_result) : Prop :=
  exists i' q' st' y, x = Ok (i', q', st', y) /\ la_step i i' st st' /\ same_rest q q'.

Lemma la_keep_ok i q st :
  shape s i = true -> i.(opc) <> INDEX_op_call -> sized s st ->
  la_ok i q st (let '(st, x) := la_keep s (op_flags i.(opc)) (oargs i) (iargs i) st in Ok (i, q, st, x)).
Proof.
  intros Hs Hc Hsz. pose proof (shape_shaped _ _ Hs) as Hsh.
  pose proof (keep_spec s Hglobals Hmax (op_flags i.(opc)) (oargs i) (iargs i) st Hsz
    (sh_outputs _ _ Hsh) (sh_inputs _ _ Hsh)) as Hk.
  destruct (la_keep _ _ _ _ _) as [st' x]. cbn [fst] in Hk. exists i, q, st', x. split; [done|]. split; [|by left].
  split; [apply Hk|by apply sim_keep|by left|]. intros Eo. apply (ks_survive _ _ _ _ _ _ Hk). by rewrite Eo.
Qed.

Lemma set_nop_kept a : kept (tcg_set_nop a).(opc) = false.
Proof. by destruct a. Qed.

Lemma la_remove_ok i q st :
  sized s st -> kept i.(opc) = false -> sim i (tcg_set_nop i.(args)) st st -> la_ok i q st (la_remove i q st).
Proof.
  intros Hsz Hk Hsim. exists (tcg_set_nop i.(args)), q, st, None. split; [done|]. split; [|by left].
  split; [done|done|right; split; [done|apply set_nop_kept]|]. intros Eo. by rewrite Eo in Hk.
Qed.

Lemma la_narrow_ok flags i i' left q st :
  kept i.(opc) = false -> kept i'.(opc) = false -> sized s (la_keep s flags (take 1 i'.(args)) (drop 1 i'.(args)) st).1 ->
  sim i i' st (la_keep s flags (take 1 i'.(args)) (drop 1 i'.(args)) st).1 ->
  (exists m r, q = m :: r /\ m.(opc) = INDEX_op_nop) -> la_ok i q st (la_narrow s flags i' left q st).
Proof.
  intros Hk Hk' Hsz Hsim (m & r & -> & Hm). unfold la_narrow. rewrite bool_decide_true by done.
  cbn [guard_res mbind res_bind]. destruct (la_keep _ _ _ _ _) as [st' x]. cbn [fst] in *.
  exists i', (tcg_set_nop left :: r), st', x. split; [done|]. split.
  - split; [done..|by right|]. intros Eo. by rewrite Eo in Hk.
  - right. by exists m, r, left.
Qed.

Lemma la_default_ok i q st `{!suppressible} :
  shape s i = true -> i.(opc) <> INDEX_op_call -> sized s st -> la_ok i q st (la_default s i q st).
Proof.
  intros Hs Hc Hsz. unfold la_default.
  destruct (negb (testb _ _) && _ && _) eqn:Er; [|by apply la_keep_ok].
  rewrite !andb_true_iff, !negb_true_iff, Nat.eqb_neq in Er. destruct Er as [[Hf Hn] Hun].
  apply la_remove_ok; [done| |by apply sim_remove]. by destruct (opc i).
Qed.

Lemma la_call_ok i q st `{!suppressible} :
  shape s i = true -> i.(opc) = INDEX_op_call -> sized s st -> la_ok i q st (la_call s i q st).
Proof.
  intros Hs Hc Hsz. pose proof (shape_shaped _ _ Hs) as Hsh. unfold la_call.
  destruct (testb _ _ && _) eqn:Er.
  - apply andb_true_iff in Er as [Hf Hun]. apply la_remove_ok; [done|by rewrite Hc|by apply sim_remove_call].
  - pose proof (keep_call_spec s Hglobals Hmax (call_flags i) (oargs i) (iargs i) st Hsz
      (sh_outputs _ _ Hsh) (sh_inputs _ _ Hsh)) as Hk.
    destruct (la_keep_call _ _ _ _ _) as [st' x]. cbn [fst] in Hk. exists i, q, st', x. split; [done|].
    split; [|by left]. split; [apply Hk|by apply sim_keep_call|by left|by rewrite Hc].
Qed.

Definition nop_behind (q : list insn) : Prop := exists m r, q = m :: r /\ m.(opc) = INDEX_op_nop.

Lemma la_addsub2_ok (sub : bool) t a q st `{!suppressible} :
  let i := mkInsn (sum2_opc sub t) a in
  shape s i = true -> sized s st -> nop_behind q ->
  la_ok i q st (la_addsub2 s i (if sub then INDEX_op_sub t else INDEX_op_add t) q st).
Proof.
  intros i Hs Hsz Hq. assert (i.(opc) <> INDEX_op_call) as Hc by (unfold i; by destruct sub).
  destruct (shape_words s (sum2_opc sub t) t a Hs) as (Ho & Hi & Hl); [by destruct sub|by destruct sub, t|by destruct sub|].
  assert (length a = 6%nat) as Hl6 by (rewrite Hl; by destruct sub).
  destruct a as [|rl [|rh [|xl [|xh [|yl [|yh []]]]]]]; try discriminate Hl6.
  assert (oargs i = [rl; rh] /\ iargs i = [xl; xh; yl; yh] /\ cargs i = []) as (Eo & Ei & Ec) by (unfold i; by destruct sub).
  fold i in Ho, Hi. rewrite Eo in Ho. rewrite Ei in Hi. rewrite !Forall_cons in Ho. rewrite !Forall_cons in Hi.
  destruct Ho as ([Vl Tl] & [Vh _] & _), Hi as ([Vxl _] & _ & [Vyl _] & _).
  unfold la_addsub2. change (arg i.(args) 0) with rl. change (arg i.(args) 1) with rh.
  destruct (unused st rh) eqn:Hrh; [|by apply la_keep_ok].
  destruct (unused st rl) eqn:Hrl.
  { apply la_remove_ok; [done|unfold i; by destruct sub|]. apply sim_remove; try done; try (unfold i; by destruct sub, t).
    rewrite Eo. cbn. by rewrite Hrl, Hrh. }
  assert (Forall (valid s) [xl; yl]) as Vi by (apply Forall_cons; split; [done|by apply Forall_singleton]).
  apply la_narrow_ok; [unfold i; by destruct sub|by destruct sub| |
    |done].
  - by apply (keep_spec s Hglobals Hmax _ [rl] [xl; yl] st Hsz (proj2 (Forall_singleton _ _) Vl) Vi).
  - apply (sim_narrow i _ (if sub then BSub else BAdd) t rl rh xl yl); try done; try (by destruct sub).
    + rewrite !Forall_cons in *. tauto.
    + rewrite Tl. by destruct sub, t.
    + unfold i. by destruct sub, t.
    + intros v. rewrite Ei, Ec. pose proof (wsize_pos t). set (m z := wrap (wsize t) (rd s v z)).
      set (z := sum2 sub (m xh * 2 ^ wsize t + m xl) (m yh * 2 ^ wsize t + m yl)).
      exists (wrap (wsize t) z), (wrap (wsize t) (z / 2 ^ wsize t)). split; [unfold i; by destruct sub|].
      unfold z. rewrite wrap_wrap, (sum2_low sub) by lia. by destruct sub; cbn [binop_value]; rewrite wrap_wrap.
Qed.

Lemma la_mul2_ok (signed : bool) t a op_new2 q st `{!suppressible} :
  let i := mkInsn (mul2_opc signed t) a in
  shape s i = true -> sized s st -> nop_behind q -> la_ok i q st (la_mul2 s i (INDEX_op_mul t) op_new2 false q st).
Proof.
  intros i Hs Hsz Hq. assert (i.(opc) <> INDEX_op_call) as Hc by (unfold i; by destruct signed).
  destruct (shape_words s (mul2_opc signed t) t a Hs) as (Ho & Hi & Hl);
    [by destruct signed|by destruct signed, t|by destruct signed|].
  assert (length a = 4%nat) as Hl4 by (rewrite Hl; by destruct signed).
  destruct a as [|rl [|rh [|x [|y []]]]]; try discriminate Hl4.
  assert (oargs i = [rl; rh] /\ iargs i = [x; y] /\ cargs i = []) as (Eo & Ei & Ec) by (unfold i; by destruct signed).
  fold i in Ho, Hi. rewrite Eo in Ho. rewrite Ei in Hi. rewrite !Forall_cons in Ho. rewrite !Forall_cons in Hi.
  destruct Ho as ([Vl Tl] & [Vh _] & _), Hi as ([Vx _] & [Vy _] & _).
  unfold la_mul2. change (arg i.(args) 0) with rl. change (arg i.(args) 1) with rh. cbn [andb].
  destruct (unused st rh) eqn:Hrh; [|by apply la_keep_ok].
  destruct (unused st rl) eqn:Hrl.
  { apply la_remove_ok; [done|unfold i; by destruct signed|].
    apply sim_remove; try done; try (unfold i; by destruct signed, t). rewrite Eo. cbn. by rewrite Hrl, Hrh. }
  assert (Forall (valid s) [x; y]) as Vi by (apply Forall_cons; split; [done|by apply Forall_singleton]).
  apply la_narrow_ok; [unfold i; by destruct signed|done| | |done].
  - by apply (keep_spec s Hglobals Hmax _ [rl] [x; y] st Hsz (proj2 (Forall_singleton _ _) Vl) Vi).
  - apply (sim_narrow i _ BMul t rl rh x y); try done.
    + rewrite !Forall_cons in *. tauto.
    + rewrite Tl. by destruct signed, t.
    + unfold i. by destruct signed, t.
    + intros v. rewrite Ei, Ec. set (m z := wrap (wsize t) (rd s v z)).
      set (z := number signed t (m x) * number signed t (m y)).
      exists (wrap (wsize t) z), (wrap (wsize t) (z / 2 ^ wsize t)). split; [unfold i; by destruct signed|].
      unfold z. cbn [binop_value]. by rewrite !wrap_wrap, mul2_low.
Qed.

(** Operations that leave the state as it is, and discard. *)
Lemma la_same_ok i q st x :
  shaped s i -> sized s st -> i.(opc) <> INDEX_op_exit_tb -> i.(opc) <> INDEX_op_call -> bb_end i.(opc) = false ->
  oargs i = [] -> iargs i = [] -> reads_globals i.(opc) = false -> la_ok i q st (Ok (i, q, st, x)).
Proof.
  intros Hsh Hsz He Hc Hb Ho Hi Hr. exists i, q, st, x. split; [done|]. split; [|by left].
  split; [done| |by left|done]. apply sim_keep; [done..|]. rewrite Ho, Hi. split; try done.
  - intros y Hy. by apply not_elem_of_nil in Hy.
  - unfold bb_end in Hb. by rewrite Hb.
  - unfold reads_globals in Hr. by rewrite Hr.
Qed.

Lemma la_discard_ok i q st x :
  shaped s i -> sized s st -> i.(opc) = INDEX_op_discard ->
  la_ok i q st (Ok (i, q, mkLa (tset (arg i.(args) 0) true st.(dead_temps)) (tset (arg i.(args) 0) false st.(mem_temps)), x)).
Proof.
  intros Hsh [Hd Hm] Hop. exists i, q. eexists _, x. split; [done|]. split; [|by left].
  pose proof (sh_length _ _ Hsh) as Hl. pose proof (sh_outputs _ _ Hsh) as Ho.
  destruct i as [op a]. cbn [opc] in Hop. subst op. destruct a as [|t []]; try discriminate Hl.
  apply Forall_cons in Ho as [Vt _].
  split; [split; cbn; by rewrite length_tset| |by left|done].
  apply sim_keep; [done..|]. split; try done.
  - split; cbn; by rewrite length_tset.
  - intros y Hy. by apply not_elem_of_nil in Hy.
  - intros _ y Vy Hn Hu. unfold unused in *. cbn [dead_temps mem_temps]. change (arg _ 0) with t.
    apply not_elem_of_cons in Hn as [Hn _]. by rewrite !(tget_set s), (proj2 (Z.eqb_neq y t)).
Qed.

Lemma la_insn_ok i q st `{!suppressible} :
  shape s i = true -> sized s st -> (needs_nop i.(opc) = true -> nop_behind q) -> la_ok i q st (la_insn s i q st).
Proof.
  intros Hs Hsz Hq. pose proof (shape_shaped _ _ Hs) as Hsh.
  pose proof (sh_host _ _ Hsh) as Hh. pose proof (la_default_ok i q st Hs) as Hdef. unfold la_insn.
  destruct i as [op a]. cbn [opc] in *.
  destruct op; try (by apply Hdef); try discriminate Hh.
  - by apply la_same_ok.
  - by apply la_discard_ok.
  - by apply la_same_ok.
  - by apply la_call_ok.
  - apply (la_mul2_ok false t a); auto.
  - apply (la_mul2_ok true t a); auto.
  - apply (la_addsub2_ok false t a); auto.
  - apply (la_addsub2_ok true t a); auto.
Qed.
End Sim.
