(* ===== verification/MiddleEnd.v ===== *)
(** * From the translator to the register allocator

    The optimizer and the liveness analysis one after the other, as
    [tcg_gen_code_common] of tcg/tcg.c runs them: a block that leaves through an
    exit leaves in the same way before and after both. *)

From S2P Require Import Prelude X86 TcgOut TcgEnc TcgEmit TcgCond TcgOpDefs TcgSem TcgIR Optimize.
From S2P Require Import OptCopies OptValues OptSound OptStages OptFold OptRound OptProgram Liveness LivenessSound.

Definition middle_end (s : tcg_temps) (p : list insn) (l : infos) : res (list insn * list noted) :=
  q ← tcg_optimize s p l; tcg_liveness_analysis s q.

(** ** The liveness analysis of a program *)

Section Analysis.
Context {W : Type} (E : environment W) (s : tcg_temps).
Hypothesis Hglobals : 0 <= s.(nb_globals) <= nb_temps s.
Hypothesis Hmax : nb_temps s <= TCG_MAX_TEMPS.
Context `{!suppressible E}.

Inductive la_rel : list insn -> list insn -> la_state -> Prop :=
  | la_nil : la_rel [] [] (tcg_la_func_end s)
  | la_cons i i' p q st st' : la_rel p q st -> la_step E s i i' st st' -> la_rel (i :: p) (i' :: q) st'.

Lemma nop_steps label m n v w c' :
  m.(opc) = INDEX_op_nop -> insn_step E s label m (mkConfig n v w) c' <-> c' = mkConfig (S n) v w.
Proof.
  intros Hm. destruct m as [op a]. cbn [opc] in Hm. subst op.
  rewrite (value_step E s label (mkInsn INDEX_op_nop a) []) by done. cbn.
  split; [by intros (? & -> & ->)|intros ->; by exists v].
Qed.

Lemma la_rel_rest p q q' st : la_rel p q st -> same_rest q q' -> la_rel p q' st.
Proof.
  intros H [->|(m & r & a & -> & Hm & ->)]; [done|].
  inversion H as [|i m' p' r' st0 st' Hp [Hsz Hsim Hc He]]; subst. econstructor; [exact Hp|].
  split; [done| | |done].
  - intros label n w v v' c' Ha Hst. apply (Hsim label n w v v' c' Ha). rewrite nop_steps by done.
    by apply set_nop_step in Hst.
  - right. destruct Hc as [<-|[Hc _]]; (split; [|apply set_nop_kept]); [by rewrite Hm|done].
Qed.

Lemma la_nop q st : exists st' x,
  la_insn s (mkInsn INDEX_op_nop []) q st = Ok (mkInsn INDEX_op_nop [], q, st', x).
Proof. unfold la_insn, la_default. cbn -[la_keep]. destruct (la_keep _ _ _ _ _) as [st' x]. by exists st', x. Qed.

Lemma la_insns_rel p :
  Forall (fun i => shape s i = true) p -> room p = true ->
  exists q xs st, la_insns s p = Ok (q, xs, st) /\ la_rel p q st /\ sized s st /\
    forall p', p = mkInsn INDEX_op_nop [] :: p' -> nop_behind q.
Proof.
  induction p as [|i p IH]; intros Hs Hr.
  { exists [], [], (tcg_la_func_end s). split_and!; [done|constructor|by apply sized_func_end|done]. }
  apply Forall_cons in Hs as [Hi Hs]. cbn [room] in Hr. apply andb_true_iff in Hr as [Hroom Hr].
  destruct (IH Hs Hr) as (q & xs & st & Eq & Hrel & Hsz & Hnop). cbn [la_insns]. rewrite Eq. cbn [mbind res_bind].
  destruct (la_insn_ok E s Hglobals Hmax i q st Hi Hsz) as (i' & q' & st' & x & El & Hstep & Hrest).
  { intros Hn. rewrite Hn in Hroom. cbn [negb orb] in Hroom. destruct p as [|m p]; [done|].
    apply bool_decide_eq_true in Hroom as ->. by apply (Hnop p). }
  rewrite El. cbn [mbind res_bind]. exists (i' :: q'), (x :: xs), st'. split_and!; [done| |apply Hstep|].
  - econstructor; [by eapply la_rel_rest|done].
  - intros p' [= -> ->]. destruct (la_nop q st) as (st2 & x2 & El2). rewrite El2 in El.
    injection El as <- <- _ _. by exists (mkInsn INDEX_op_nop []), q.
Qed.

Lemma la_rel_length p q st : la_rel p q st -> length q = length p.
Proof. induction 1; cbn; congruence. Qed.

Lemma la_rel_drop p q st k : la_rel p q st -> exists st', la_rel (drop k p) (drop k q) st'.
Proof.
  intros H. revert k. induction H as [|i i' p q st st' H IH Hst]; intros [|k]; try (eexists; constructor; done).
  - eexists. by econstructor.
  - apply IH.
Qed.

Lemma control_label i i' : same_control i i' -> label_of i' = label_of i.
Proof. intros [->|[H1 H2]]; [done|]. by rewrite !plain_label. Qed.

Lemma la_rel_labels p q st x : la_rel p q st -> find_label q x = find_label p x.
Proof.
  induction 1 as [|i i' p q st st' H IH [_ _ Hc _]]; [done|]. by rewrite !find_label_cons, (control_label i i'), IH.
Qed.

(** ** Runs *)

Context (p q : list insn) (st0 : la_state).
Hypothesis Hrel : la_rel p q st0.

Record in_sync (c c' : config W) : Prop := {
  sy_ip : c.(ip) = c'.(ip);
  sy_world : c.(world) = c'.(world);
  sy_live : exists st, la_rel (drop c.(ip) p) (drop c.(ip) q) st /\ agree s (used st) c.(vals) c'.(vals)
}.

(** The program is at a division without a result. *)
Definition at_division (c : config W) : Prop := exists i, p !! c.(ip) = Some i /\ division s i c.(vals).

Lemma step_sync c c' d' :
  in_sync c c' -> ir_step E s q c' d' -> (exists d, ir_step E s p c d /\ in_sync d d') \/ at_division c.
Proof.
  destruct c as [n v w], c' as [n' v' w']. intros [Hip Hw (st & Hr & Ha)] (r & Hq & Hst). cbn [ip vals world] in *.
  subst n' w'. inversion Hr as [Ep Eq|i i' p' q' st1 st' Hr' Hls Ep Eq Es]; subst.
  { symmetry in Eq. apply (f_equal length) in Eq. rewrite length_drop in Eq. cbn in Eq.
    rewrite lookup_ge_None_2 in Hq by lia. done. }
  symmetry in Ep, Eq. destruct (drop_head _ _ _ _ Ep) as [Hi <-], (drop_head _ _ _ _ Eq) as [Hi' <-].
  assert (i' = r) as -> by congruence.
  destruct (ls_sim _ _ _ _ _ _ Hls (find_label q) n w v v' d' Ha Hst) as [(v1 & Hs & Hag)|Hd]; [left|right; by exists i].
  exists (mkConfig d'.(ip) v1 d'.(world)). split.
  { exists i. split; [done|]. eapply label_ext; [|exact Hs]. intros x. symmetry. by eapply la_rel_labels. }
  split; [done..|]. cbn [ip vals]. destruct Hag as [Hag|[-> Hag]]; [|by exists st1].
  destruct (la_rel_drop p q st0 d'.(ip) Hrel) as [st2 H2]. exists st2. split; [done|].
  eapply agree_weaken; [|exact Hag]. done.
Qed.

Lemma run_sync c0 c' :
  in_sync c0 c0 -> rtc (ir_step E s q) c0 c' ->
  (exists c, rtc (ir_step E s p) c0 c /\ in_sync c c') \/
  (exists c, rtc (ir_step E s p) c0 c /\ at_division c).
Proof.
  intros H0. revert c'. apply rtc_ind_r; [by left; exists c0|].
  intros c' d' _ Hst [(c & Hrun & Hs)|Hd]; [|by right].
  destruct (step_sync c c' d' Hs Hst) as [(d & Hd & Hsy)|Hdiv]; [left|right; by exists c].
  exists d. split; [by eapply rtc_r|done].
Qed.

(** At an exit the globals are the same. *)
Lemma exit_sync c c' a :
  in_sync c c' -> q !! c'.(ip) = Some (mkInsn INDEX_op_exit_tb a) ->
  p !! c.(ip) = Some (mkInsn INDEX_op_exit_tb a) /\ globals s c.(vals) = globals s c'.(vals).
Proof.
  intros [Hip Hw (st & Hr & Ha)] Hq. rewrite <- Hip in Hq.
  inversion Hr as [Ep Eq|i i' p' q' st1 st' Hr' Hls Ep Eq Es]; subst.
  { symmetry in Eq. apply (f_equal length) in Eq. rewrite length_drop in Eq. cbn in Eq.
    rewrite lookup_ge_None_2 in Hq by lia. done. }
  symmetry in Ep, Eq. destruct (drop_head _ _ _ _ Ep) as [Hi <-], (drop_head _ _ _ _ Eq) as [Hi' <-].
  rewrite Hq in Hi'. injection Hi' as <-. destruct (ls_control _ _ _ _ _ _ Hls) as [<-|[_ Hk]]; [|done].
  split; [done|]. eapply agree_globals; [done|exact Ha|]. intros t Vt Ht.
  apply (ls_exit _ _ _ _ _ _ Hls); [done..|]. unfold survives. by rewrite (proj2 (Z.ltb_lt _ _) Ht).
Qed.

Lemma division_stops c d : at_division c -> ~ ir_step E s p c d.
Proof.
  intros (i & Hi & [[t Ho] Ev]) (j & Hj & Hst). assert (j = i) as -> by congruence.
  destruct Hst as [n v w rs v' Ev' Hw|n v w v' Eo Hc|n v w v' x n' Eo Ec Hl Hc|n v w v' b n' Tk Hl Hc
    |n v w us g w' v1 v' Eo Hh Hg Hw|n v w us w' v1 v' Hp Hh Hw Hb]; cbn [vals] in *.
  - congruence.
  - destruct Ho; congruence.
  - destruct Ho; congruence.
  - unfold taken in Tk. by destruct Ho as [Ho|Ho]; rewrite Ho in Tk.
  - destruct Ho; congruence.
  - by destruct Ho as [Ho|Ho]; rewrite Ho in Hp.
Qed.
End Analysis.

(** ** Both passes *)

(** An operation that the optimizer does not add was there before. *)
Lemma folds_opc s p l q n r :
  folds s p l q -> q !! n = Some r -> simple r.(opc) = false ->
  exists i, p !! n = Some i /\ i.(opc) = r.(opc).
Proof.
  intros Hf. revert n. induction Hf as [|i r' p q l l' _ _ Ef Hq IH|i r1 r2 p q l l' Hn _ _ Ef Hq IH]; intros n Hr Hsi;
    [done|..].
  - destruct n as [|n]; [|by apply IH]. injection Hr as ->. exists i. split; [done|].
    destruct (plain_insn s i l _ _ Ef) as [Hp|[a [= ->]]]; [|done].
    apply Forall_cons in Hp as [Hp _]. congruence.
  - destruct (plain_insn s i l _ _ Ef) as [Hp|[a [=]]]. rewrite !Forall_cons in Hp.
    destruct Hp as (H1 & H2 & _). destruct n as [|[|n]]; [injection Hr as ->; congruence..|by apply IH].
Qed.

Lemma liveness_total {W} (E : environment W) s `{!suppressible E} q :
  0 <= s.(nb_globals) <= nb_temps s -> nb_temps s <= TCG_MAX_TEMPS ->
  Forall (fun i => shape s i = true) q -> room q = true ->
  exists r xs st, tcg_liveness_analysis s q = Ok (r, xs) /\ la_rel E s q r st.
Proof.
  intros Hg Hm Hs Hr. destruct (la_insns_rel E s Hg Hm q Hs Hr) as (r & xs & st & Er & Hrel & _).
  exists r, xs, st. split; [|done]. unfold tcg_liveness_analysis. by rewrite Er.
Qed.

(** Optimizer and liveness analysis together terminate on every well-formed
    program, and a block that reaches an exit does so in the program as well: with
    the same exit, the same memory and the same values of the globals.  The only
    other possibility is that the program stops before at a division without a
    result, which the liveness analysis may have removed. *)
Theorem middle_end_correct {W} (E : environment W) `{!suppressible E} s p l v w :
  wf_program s p = true -> length l = length s.(temps) -> length v = length s.(temps) ->
  exists q xs, middle_end s p l = Ok (q, xs) /\ length q = length p /\
    forall c a, rtc (ir_step E s q) (mkConfig 0 v w) c -> q !! c.(ip) = Some (mkInsn INDEX_op_exit_tb a) ->
      exists c', rtc (ir_step E s p) (mkConfig 0 v w) c' /\
        ((c'.(ip) = c.(ip) /\ p !! c'.(ip) = Some (mkInsn INDEX_op_exit_tb a) /\
          c'.(world) = c.(world) /\ globals s c'.(vals) = globals s c.(vals)) \/
         ((exists i t, p !! c'.(ip) = Some i /\ (i.(opc) = INDEX_op_div2 t \/ i.(opc) = INDEX_op_divu2 t)) /\
          forall d, ~ ir_step E s p c' d)).
Proof.
  intros Hw Hl Hv. destruct (optimize_folds s p l Hw Hl) as (q & Eq & Hf).
  pose proof (wf_program_spec s p Hw) as (Hg & Hwi & Hr).
  destruct (liveness_total E s q Hg (wf_program_temps s p Hw) (folds_shape s p _ q Hf) (folds_room s p _ q Hf Hr))
    as (r & xs & st & Er & Hrel).
  exists r, xs. unfold middle_end. rewrite Eq. cbn [mbind res_bind]. split; [done|].
  split; [by rewrite (la_rel_length E s q r st Hrel), (folds_length s p _ q Hf)|]. intros c a Hrun Hexit.
  assert (in_sync E s q r (mkConfig 0 v w) (mkConfig 0 v w)) as H0 by (split; [done..|exists st; done]).
  destruct (run_sync E s q r st Hrel _ c H0 Hrun) as [(c1 & Hrun1 & Hs)|(c1 & Hrun1 & Hd)].
  - destruct (exit_sync E s Hg q r c1 c a Hs Hexit) as [Hq Hgl].
    destruct (optimizer_stop E s p q l v w c1 Hw Hl Hv Hf Hrun1) as [Hp _].
    { intros d (i & Hi & Hst). rewrite Hq in Hi. injection Hi as <-. by apply exit_stops in Hst. }
    exists c1. split; [done|]. left. destruct Hs as [Hip Hwo _]. split_and!; [done| |done..].
    by apply (folds_kept s p _ q _ _ _ Hf).
  - destruct (optimizer_stop E s p q l v w c1 Hw Hl Hv Hf Hrun1) as [Hp Hstop].
    { intros d. by apply division_stops. }
    exists c1. split; [done|]. right. split; [|done]. destruct Hd as (i & Hi & [[t Ho] _]).
    destruct (folds_opc s p _ q _ i Hf Hi) as (j & Hj & Ej); [by destruct Ho as [->| ->]|].
    exists j, t. by rewrite Ej.
Qed.

(** ** An example *)

(** A world that counts the operations without results. *)
Definition mid_env : environment nat :=
  mkEnv (fun op _ _ _ w us w' => us = replicate (nb_oargs op) 0 /\ w' = match us with [] => S w | _ => w end)
    (fun no _ _ g w us g' w' => us = replicate no 0 /\ g' = g /\ w' = w).

#[export] Instance mid_suppressible : suppressible mid_env.
Proof.
  split.
  - intros op cs xs w _ _ Hn. exists 0. cbn. by rewrite Hn.
  - intros no cs xs g w _. exists (replicate no 0). by rewrite length_replicate.
Qed.

(** The example of the optimizer with a load whose result is not used. *)
Definition mid_temps : tcg_temps :=
  mkTemps 1 [mkTemp TCG_TYPE_I64 false; mkTemp TCG_TYPE_I64 false; mkTemp TCG_TYPE_I64 false].
Definition mid_program : list insn :=
  [mkInsn (INDEX_op_movi TCG_TYPE_I64) [1; 5]; mkInsn (INDEX_op_ld TCG_TYPE_I64) [2; 0; 8];
   mkInsn (INDEX_op_add TCG_TYPE_I64) [0; 1; 1]; mkInsn INDEX_op_qtrace_instrumentation [0];
   mkInsn INDEX_op_exit_tb [7]].

Definition mid_infos : infos := replicate 3 (mkInfo TCG_TEMP_COPY 1 1 3 4).

(** The constant and the load are gone. *)
Definition mid_output : list insn :=
  [mkInsn INDEX_op_nopn [2; 2]; mkInsn INDEX_op_nopn [3; 0; 3];
   mkInsn (INDEX_op_movi TCG_TYPE_I64) [0; 10]; mkInsn INDEX_op_qtrace_instrumentation [0];
   mkInsn INDEX_op_exit_tb [7]].

Lemma mid_result q xs : middle_end mid_temps mid_program mid_infos = Ok (q, xs) -> q = mid_output.
Proof. vm_compute. by intros [= <- _]. Qed.

Lemma mid_run :
  rtc (ir_step mid_env mid_temps mid_output) (mkConfig 0 [7; 9; 3] 0%nat) (mkConfig 4 [10; 9; 3] 1%nat).
Proof.
  eapply rtc_l; [eexists; split; [reflexivity|]; by apply (set_nop_step mid_env mid_temps _ [1; 5])|].
  eapply rtc_l; [eexists; split; [reflexivity|]; by apply (set_nop_step mid_env mid_temps _ [2; 0; 8])|].
  eapply rtc_l; [eexists; split; [reflexivity|]; apply movi_step; exists 10; split; [by intros y [= <-]|reflexivity]|].
  apply rtc_once. eexists. split; [reflexivity|].
  eapply step_primitive; [reflexivity|by split|reflexivity|reflexivity].
Qed.

Lemma middle_end_correct_witness :
  exists c', rtc (ir_step mid_env mid_temps mid_program) (mkConfig 0 [7; 9; 3] 0%nat) c' /\
    ((c'.(ip) = 4%nat /\ mid_program !! c'.(ip) = Some (mkInsn INDEX_op_exit_tb [7]) /\
      c'.(world) = 1%nat /\ globals mid_temps c'.(vals) = globals mid_temps [10; 9; 3]) \/
     ((exists i t, mid_program !! c'.(ip) = Some i /\ (i.(opc) = INDEX_op_div2 t \/ i.(opc) = INDEX_op_divu2 t)) /\
      forall d, ~ ir_step mid_env mid_temps mid_program c' d)).
Proof.
  destruct (middle_end_correct mid_env mid_temps mid_program mid_infos [7; 9; 3] 0%nat) as (q & xs & Eq & _ & H);
    [vm_compute; reflexivity..|].
  rewrite (mid_result q xs Eq) in H. exact (H (mkConfig 4 [10; 9; 3] 1%nat) [7] mid_run eq_refl).
Defined.
