(* ===== verification/RegAlloc.v ===== *)
(** * Register allocation (tcg/tcg.c)

    [tcg_gen_code_common] walks over the operations of a block after the liveness
    analysis.  For every operation it brings the inputs into registers that the
    constraint table allows, chooses registers for the outputs, and calls the back
    end.  The allocator never reads back the code it emits: here it yields the calls
    of the back end as a list of [lop] for every operation.  An operation in that list
    keeps the original operation, whose code and constants the back end uses; its
    temporaries only say what the registers stand for. *)

From S2P Require Import Prelude QtraceDefs X86 TcgOut TcgEnc TcgEmit TcgCond TcgOpDefs TcgSem TcgIR.
From S2P Require Import Optimize Liveness InstrCall Prologue.

(** ** Calls of the back end *)

Inductive lop :=
  | LMov (t : TCGType) (ret arg : Z)
  | LMovi (t : TCGType) (ret val : Z)
  | LLd (t : TCGType) (ret base ofs : Z)
  | LSt (t : TCGType) (arg base ofs : Z)
  | LOp (i : insn) (new_args : list Z) (const_args : list bool)
  | LLabel (l : Z).

(** ** State *)

Inductive temp_val := TEMP_VAL_DEAD | TEMP_VAL_REG | TEMP_VAL_MEM | TEMP_VAL_CONST.
#[export] Instance temp_val_eq_dec : EqDecision temp_val.
Proof. solve_decision. Defined.

(** The fields of [TCGTemp] that the allocator uses; the others are in [tcg_temps]. *)
Record ra_temp := mkRa {
  val_type : temp_val; reg : Z; val : Z; mem_reg : Z; mem_offset : Z;
  fixed_reg : bool; mem_coherent : bool; mem_allocated : bool
}.
#[export] Instance ra_temp_inhabited : Inhabited ra_temp :=
  populate (mkRa TEMP_VAL_DEAD 0 0 0 0 false false false).

Definition set_val_type (x : temp_val) (ts : ra_temp) : ra_temp :=
  mkRa x ts.(reg) ts.(val) ts.(mem_reg) ts.(mem_offset) ts.(fixed_reg) ts.(mem_coherent) ts.(mem_allocated).
Definition set_ts_reg (x : Z) (ts : ra_temp) : ra_temp :=
  mkRa ts.(val_type) x ts.(val) ts.(mem_reg) ts.(mem_offset) ts.(fixed_reg) ts.(mem_coherent) ts.(mem_allocated).
Definition set_ts_val (x : Z) (ts : ra_temp) : ra_temp :=
  mkRa ts.(val_type) ts.(reg) x ts.(mem_reg) ts.(mem_offset) ts.(fixed_reg) ts.(mem_coherent) ts.(mem_allocated).
Definition set_mem_coherent (x : bool) (ts : ra_temp) : ra_temp :=
  mkRa ts.(val_type) ts.(reg) ts.(val) ts.(mem_reg) ts.(mem_offset) ts.(fixed_reg) x ts.(mem_allocated).
Definition set_slot (r ofs : Z) (ts : ra_temp) : ra_temp :=
  mkRa ts.(val_type) ts.(reg) ts.(val) r ofs ts.(fixed_reg) ts.(mem_coherent) true.
Definition forget_slot (ts : ra_temp) : ra_temp :=
  mkRa ts.(val_type) ts.(reg) ts.(val) ts.(mem_reg) ts.(mem_offset) false ts.(mem_coherent) false.

Record ra_state := mkState {
  ra_temps : list ra_temp; reg_to_temp : list Z; current_frame_offset : Z
}.

(** The allocator: a state, failure, and the calls of the back end. *)
Definition ra (A : Type) : Type := ra_state -> res (A * ra_state * list lop).

#[export] Instance ra_ret : MRet ra := fun A a σ => Ok (a, σ, []).
#[export] Instance ra_bind : MBind ra := fun A B f m σ =>
  '(a, σ1, os1) ← m σ;
  '(b, σ2, os2) ← f a σ1;
  Ok (b, σ2, os1 ++ os2).

Definition ra_fail {A} (e : cerror) : ra A := fun _ => Err e.
Definition ra_assert (b : bool) : ra unit := fun σ => if b then Ok (tt, σ, []) else Err AssertFailed.
Definition ra_emit (o : lop) : ra unit := fun σ => Ok (tt, σ, [o]).
Definition when (b : bool) (m : ra unit) : ra unit := if b then m else mret tt.

Fixpoint ra_each {A} (f : A -> ra unit) (l : list A) : ra unit :=
  match l with [] => mret tt | x :: l => f x ;; ra_each f l end.
Fixpoint ra_fold {A B} (f : A -> B -> ra B) (l : list A) (b : B) : ra B :=
  match l with [] => mret b | x :: l => b ← f x b; ra_fold f l b end.

(** Accesses to [temps] and [reg_to_temp]. *)
Definition in_bounds {A} (l : list A) (i : Z) : bool := (0 <=? i) && (i <? Z.of_nat (length l)).

Definition get_ts (t : Z) : ra ra_temp := fun σ =>
  if in_bounds σ.(ra_temps) t then Ok (tget σ.(ra_temps) t, σ, []) else Err OutOfBounds.
Definition upd_ts (t : Z) (f : ra_temp -> ra_temp) : ra unit := fun σ =>
  if in_bounds σ.(ra_temps) t then
    Ok (tt, mkState (tset t (f (tget σ.(ra_temps) t)) σ.(ra_temps)) σ.(reg_to_temp) σ.(current_frame_offset), [])
  else Err OutOfBounds.
Definition get_temp_of (r : Z) : ra Z := fun σ =>
  if in_bounds σ.(reg_to_temp) r then Ok (tget σ.(reg_to_temp) r, σ, []) else Err OutOfBounds.
Definition set_temp_of (r t : Z) : ra unit := fun σ =>
  if in_bounds σ.(reg_to_temp) r then
    Ok (tt, mkState σ.(ra_temps) (tset r t σ.(reg_to_temp)) σ.(current_frame_offset), [])
  else Err OutOfBounds.

(** ** The host *)

Definition tcg_target_reg_alloc_order : list Z :=
  [TCG_REG_RBP; TCG_REG_RBX; TCG_REG_R12; TCG_REG_R13; TCG_REG_R14; TCG_REG_R15; TCG_REG_R10;
   TCG_REG_R11; TCG_REG_R9; TCG_REG_R8; TCG_REG_RCX; TCG_REG_RDX; TCG_REG_RSI; TCG_REG_RDI; TCG_REG_RAX].
Definition tcg_target_call_oarg_regs : list Z := [TCG_REG_RAX].
Definition tcg_target_available_regs (t : TCGType) : Z := 0xffff.
Definition regset_of (rs : list Z) : Z := foldr (fun r m => Z.lor (Z.shiftl 1 r) m) 0 rs.
Definition tcg_target_call_clobber_regs : Z :=
  regset_of [TCG_REG_RAX; TCG_REG_RDX; TCG_REG_RCX; TCG_REG_RDI; TCG_REG_RSI; TCG_REG_R8; TCG_REG_R9;
             TCG_REG_R10; TCG_REG_R11].
Definition TCG_TARGET_CALL_STACK_OFFSET : Z := 0.

Definition regset_add (r m : Z) : Z := Z.lor m (Z.shiftl 1 r).
Definition all_regs : list Z := Z.of_nat <$> seq 0 TCG_TARGET_NB_REGS.

Section Allocator.
Context (s : tcg_temps) (frame : tcg_frame) (reserved_regs : Z).

Definition temp_type (t : Z) : TCGType := (tget s.(temps) t).(type).

(** [tcg_reg_alloc_start] on the temporaries that the front end left; [tcg_func_start]
    has set [current_frame_offset] to the start of the frame. *)
Definition start_temp (t : Z) (ts : ra_temp) : ra_temp :=
  if t <? s.(nb_globals) then set_val_type (if ts.(fixed_reg) then TEMP_VAL_REG else TEMP_VAL_MEM) ts
  else forget_slot
         (set_val_type (if (tget s.(temps) t).(temp_local) then TEMP_VAL_MEM else TEMP_VAL_DEAD) ts).
Definition tcg_reg_alloc_start (l : list ra_temp) : ra_state :=
  mkState (imap (fun t => start_temp (Z.of_nat t)) l) (replicate TCG_TARGET_NB_REGS (-1)) frame.(frame_start).

Definition check_regs : ra unit := fun σ =>
  let reg_ok r :=
    let k := tget σ.(reg_to_temp) r in
    (k <? 0) || bool_decide ((tget σ.(ra_temps) k).(val_type) = TEMP_VAL_REG) && ((tget σ.(ra_temps) k).(reg) =? r) in
  let temp_ok k :=
    let ts := tget σ.(ra_temps) k in
    negb (bool_decide (ts.(val_type) = TEMP_VAL_REG)) || ts.(fixed_reg) || (tget σ.(reg_to_temp) ts.(reg) =? k) in
  if forallb reg_ok all_regs && forallb temp_ok (Z.of_nat <$> seq 0 (length σ.(ra_temps)))
  then Ok (tt, σ, []) else Err TcgAbort.

(** ** Registers and memory *)

Definition temp_allocate_frame (t : Z) : ra unit := fun σ =>
  let ofs := Z.land (σ.(current_frame_offset) + 8 - 1) (Z.lnot (8 - 1)) in
  if frame.(frame_end) <? ofs + 8 then Err TcgAbort
  else upd_ts t (set_slot frame.(frame_reg) ofs) (mkState σ.(ra_temps) σ.(reg_to_temp) (ofs + 8)).

Definition is_val (x : temp_val) (ts : ra_temp) : bool := bool_decide (ts.(val_type) = x).

Definition tcg_reg_sync (r : Z) : ra unit :=
  t ← get_temp_of r;
  ts ← get_ts t;
  ra_assert (is_val TEMP_VAL_REG ts) ;;
  when (negb ts.(mem_coherent) && negb ts.(fixed_reg))
    (when (negb ts.(mem_allocated)) (temp_allocate_frame t) ;;
     ts ← get_ts t;
     ra_emit (LSt (temp_type t) r ts.(mem_reg) ts.(mem_offset))) ;;
  upd_ts t (set_mem_coherent true).

Definition tcg_reg_free (r : Z) : ra unit :=
  t ← get_temp_of r;
  when (negb (t =? -1))
    (tcg_reg_sync r ;;
     upd_ts t (set_val_type TEMP_VAL_MEM) ;;
     set_temp_of r (-1)).

(** A register in [reg1] and not in [reg2]. *)
Definition tcg_reg_alloc (reg1 reg2 : Z) : ra Z := fun σ =>
  let reg_ct := Z.land reg1 (Z.lnot reg2) in
  match List.find (fun r => Z.testbit reg_ct r && (tget σ.(reg_to_temp) r =? -1)) tcg_target_reg_alloc_order with
  | Some r => Ok (r, σ, [])
  | None =>
      match List.find (fun r => Z.testbit reg_ct r) tcg_target_reg_alloc_order with
      | Some r => (tcg_reg_free r ;; mret r) σ
      | None => Err TcgAbort
      end
  end.

Definition temp_dead (t : Z) : ra unit :=
  ts ← get_ts t;
  when (negb ts.(fixed_reg))
    (when (is_val TEMP_VAL_REG ts) (set_temp_of ts.(reg) (-1)) ;;
     upd_ts t (set_val_type (if survives s t then TEMP_VAL_MEM else TEMP_VAL_DEAD))).

Definition temp_sync (t allocated_regs : Z) : ra unit :=
  ts ← get_ts t;
  when (negb ts.(fixed_reg))
    (match ts.(val_type) with
     | TEMP_VAL_CONST =>
         r ← tcg_reg_alloc (tcg_target_available_regs (temp_type t)) allocated_regs;
         upd_ts t (set_ts_reg r) ;;
         upd_ts t (set_val_type TEMP_VAL_REG) ;;
         set_temp_of r t ;;
         upd_ts t (set_mem_coherent false) ;;
         ra_emit (LMovi (temp_type t) r ts.(val)) ;;
         tcg_reg_sync r
     | TEMP_VAL_REG => tcg_reg_sync ts.(reg)
     | TEMP_VAL_DEAD | TEMP_VAL_MEM => mret tt
     end).

(** With USE_LIVENESS_ANALYSIS these only check. *)
Definition temp_save (t : Z) : ra unit :=
  ts ← get_ts t; ra_assert (is_val TEMP_VAL_MEM ts || ts.(fixed_reg)).

Definition temps_from (a n : Z) : list Z := Z.of_nat <$> seq (Z.to_nat a) (Z.to_nat (n - a)).

Definition save_globals : ra unit := ra_each temp_save (temps_from 0 s.(nb_globals)).

Definition sync_globals : ra unit :=
  ra_each (fun t => ts ← get_ts t; ra_assert (negb (is_val TEMP_VAL_REG ts) || ts.(fixed_reg) || ts.(mem_coherent)))
    (temps_from 0 s.(nb_globals)).

Definition tcg_reg_alloc_bb_end : ra unit :=
  ra_each (fun t =>
      if (tget s.(temps) t).(temp_local) then temp_save t
      else ts ← get_ts t; ra_assert (is_val TEMP_VAL_DEAD ts))
    (temps_from s.(nb_globals) (nb_temps s)) ;;
  save_globals.

(** ** movi and mov *)

Definition IS_DEAD_ARG (dead_args : Z) (n : nat) : bool := Z.testbit dead_args (Z.of_nat n).
Definition NEED_SYNC_ARG (sync_args : Z) (n : nat) : bool := Z.testbit sync_args (Z.of_nat n).

(** The register of a temporary that takes a new place is free. *)
Definition release (t : Z) : ra unit :=
  ts ← get_ts t; when (is_val TEMP_VAL_REG ts) (set_temp_of ts.(reg) (-1)).

Definition tcg_reg_alloc_movi (o v dead_args sync_args : Z) : ra unit :=
  ots ← get_ts o;
  (if ots.(fixed_reg) then ra_emit (LMovi (temp_type o) ots.(reg) (s64 v))
   else release o ;; upd_ts o (set_val_type TEMP_VAL_CONST) ;; upd_ts o (set_ts_val (s64 v))) ;;
  when (NEED_SYNC_ARG sync_args 0) (temp_sync o reserved_regs) ;;
  when (IS_DEAD_ARG dead_args 0) (temp_dead o).

(** The source is brought into a register first. *)
Definition mov_load_source (t regs : Z) (needs_reg : bool) : ra unit :=
  ts ← get_ts t;
  when (needs_reg && negb (is_val TEMP_VAL_REG ts) || is_val TEMP_VAL_MEM ts)
    (r ← tcg_reg_alloc regs reserved_regs;
     upd_ts t (set_ts_reg r) ;;
     (match ts.(val_type) with
      | TEMP_VAL_MEM =>
          ra_emit (LLd (temp_type t) r ts.(mem_reg) ts.(mem_offset)) ;; upd_ts t (set_mem_coherent true)
      | TEMP_VAL_CONST => ra_emit (LMovi (temp_type t) r ts.(val))
      | _ => mret tt
      end) ;;
     set_temp_of r t ;;
     upd_ts t (set_val_type TEMP_VAL_REG)).

Definition tcg_reg_alloc_mov (oregs iregs o t dead_args sync_args : Z) : ra unit :=
  ots ← get_ts o;
  mov_load_source t iregs (NEED_SYNC_ARG sync_args 0 || ots.(fixed_reg)) ;;
  ts ← get_ts t;
  ots ← get_ts o;
  if IS_DEAD_ARG dead_args 0 && negb ots.(fixed_reg) then
    ra_assert (NEED_SYNC_ARG sync_args 0) ;;
    ra_assert (is_val TEMP_VAL_REG ts) ;;
    when (negb ots.(mem_allocated)) (temp_allocate_frame o) ;;
    ots ← get_ts o;
    ra_emit (LSt (temp_type o) ts.(reg) ots.(mem_reg) ots.(mem_offset)) ;;
    when (IS_DEAD_ARG dead_args 1) (temp_dead t) ;;
    temp_dead o
  else if is_val TEMP_VAL_CONST ts then
    release o ;; upd_ts o (set_val_type TEMP_VAL_CONST) ;; upd_ts o (set_ts_val ts.(val))
  else
    ra_assert (is_val TEMP_VAL_REG ts) ;;
    (if IS_DEAD_ARG dead_args 1 && negb ts.(fixed_reg) && negb ots.(fixed_reg) then
       release o ;; upd_ts o (set_ts_reg ts.(reg)) ;; temp_dead t
     else
       when (negb (is_val TEMP_VAL_REG ots))
         (r ← tcg_reg_alloc oregs (regset_add ts.(reg) reserved_regs); upd_ts o (set_ts_reg r)) ;;
       ots ← get_ts o; ra_emit (LMov (temp_type o) ots.(reg) ts.(reg))) ;;
    upd_ts o (set_val_type TEMP_VAL_REG) ;;
    upd_ts o (set_mem_coherent false) ;;
    ots ← get_ts o;
    set_temp_of ots.(reg) o ;;
    when (NEED_SYNC_ARG sync_args 0) (tcg_reg_sync ots.(reg)).

(** ** Operations *)

(** What the loop over the inputs carries: [allocated_regs], [new_args] and
    [const_args]. *)
Record operands := mkOperands { allocated_regs : Z; new_args : list Z; const_args : list bool }.

Definition put_reg (k : nat) (r : Z) (x : operands) : operands :=
  mkOperands (regset_add r x.(allocated_regs)) (<[k := r]> x.(new_args)) (<[k := false]> x.(const_args)).
Definition put_const (k : nat) (v : Z) (x : operands) : operands :=
  mkOperands x.(allocated_regs) (<[k := v]> x.(new_args)) (<[k := true]> x.(const_args)).

(** The temporary takes the register [r]. *)
Definition take_reg (t r : Z) (coherent : bool) : ra unit :=
  upd_ts t (set_val_type TEMP_VAL_REG) ;; upd_ts t (set_ts_reg r) ;;
  upd_ts t (set_mem_coherent coherent) ;; set_temp_of r t.

(** From the label allocate_in_reg on, or with the register it has. *)
Definition place_input (k : nat) (t : Z) (arg_ct : TCGArgConstraint) (args : list Z) (dead_args : Z)
    (x : operands) : ra operands :=
  ts ← get_ts t;
  ra_assert (is_val TEMP_VAL_REG ts) ;;
  let alias_moves :=
    testb arg_ct.(ct) TCG_CT_IALIAS &&
    (if ts.(fixed_reg) then negb (t =? arg args (Z.to_nat arg_ct.(ct_alias))) else negb (IS_DEAD_ARG dead_args k)) in
  if negb alias_moves && Z.testbit arg_ct.(ct_regs) ts.(reg) then mret (put_reg k ts.(reg) x)
  else
    r ← tcg_reg_alloc arg_ct.(ct_regs) x.(allocated_regs);
    ts ← get_ts t;
    ra_emit (LMov (temp_type t) r ts.(reg)) ;;
    mret (put_reg k r x).

Definition satisfy_input (args : list Z) (args_ct : list TCGArgConstraint) (dead_args : Z) (k : nat)
    (x : operands) : ra operands :=
  let t := arg args k in
  let arg_ct := default (mkCt 0 0 0) (args_ct !! k) in
  ts ← get_ts t;
  match ts.(val_type) with
  | TEMP_VAL_MEM =>
      r ← tcg_reg_alloc arg_ct.(ct_regs) x.(allocated_regs);
      ra_emit (LLd (temp_type t) r ts.(mem_reg) ts.(mem_offset)) ;;
      take_reg t r true ;;
      place_input k t arg_ct args dead_args x
  | TEMP_VAL_CONST =>
      if tcg_target_const_match ts.(val) arg_ct then mret (put_const k (u64 ts.(val)) x)
      else
        r ← tcg_reg_alloc arg_ct.(ct_regs) x.(allocated_regs);
        ra_emit (LMovi (temp_type t) r ts.(val)) ;;
        take_reg t r false ;;
        place_input k t arg_ct args dead_args x
  | _ => place_input k t arg_ct args dead_args x
  end.

(** Registers that a call may overwrite are freed. *)
Definition free_clobbered : ra unit :=
  ra_each tcg_reg_free (List.filter (Z.testbit tcg_target_call_clobber_regs) all_regs).

Definition satisfy_output (args : list Z) (args_ct : list TCGArgConstraint) (k : nat) (x : operands)
    : ra operands :=
  let t := arg args k in
  let arg_ct := default (mkCt 0 0 0) (args_ct !! k) in
  ts ← get_ts t;
  if negb (testb arg_ct.(ct) TCG_CT_ALIAS) && ts.(fixed_reg) && Z.testbit arg_ct.(ct_regs) ts.(reg) then
    mret (mkOperands x.(allocated_regs) (<[k := ts.(reg)]> x.(new_args)) x.(const_args))
  else
    r ← (if testb arg_ct.(ct) TCG_CT_ALIAS then mret (arg x.(new_args) (Z.to_nat arg_ct.(ct_alias)))
         else tcg_reg_alloc arg_ct.(ct_regs) x.(allocated_regs));
    when (negb ts.(fixed_reg)) (release t ;; take_reg t r false) ;;
    mret (mkOperands (regset_add r x.(allocated_regs)) (<[k := r]> x.(new_args)) x.(const_args)).

Definition finish_output (args new_args : list Z) (dead_args sync_args : Z) (k : nat) : ra unit :=
  let t := arg args k in
  let r := arg new_args k in
  ts ← get_ts t;
  when (ts.(fixed_reg) && negb (ts.(reg) =? r)) (ra_emit (LMov (temp_type t) ts.(reg) r)) ;;
  when (NEED_SYNC_ARG sync_args k) (tcg_reg_sync r) ;;
  when (IS_DEAD_ARG dead_args k) (temp_dead t).

(** Inputs that die free their registers. *)
Definition bury_inputs (args : list Z) (dead_args : Z) (ks : list nat) : ra unit :=
  ra_each (fun k => when (IS_DEAD_ARG dead_args k) (temp_dead (arg args k))) ks.

Definition tcg_reg_alloc_op (i : insn) (dead_args sync_args : Z) : ra unit :=
  let no := nb_oargs i.(opc) in
  let ni := nb_iargs i.(opc) in
  let flags := op_flags i.(opc) in
  let args_ct := default [] (op_cts i.(opc)) in
  let sorted := sort_constraints (constraint_priority args_ct) in
  x ← ra_fold (satisfy_input i.(args) args_ct dead_args) (sorted no ni)
        (mkOperands reserved_regs (replicate (no + ni) 0 ++ drop (no + ni) i.(args)) (replicate (no + ni) false));
  bury_inputs i.(args) dead_args (seq no ni) ;;
  x ← (if testb flags TCG_OPF_BB_END then tcg_reg_alloc_bb_end ;; mret x
       else
         when (testb flags TCG_OPF_CALL_CLOBBER) free_clobbered ;;
         when (testb flags TCG_OPF_SIDE_EFFECTS) sync_globals ;;
         ra_fold (satisfy_output i.(args) args_ct) (sorted 0%nat no)
           (mkOperands reserved_regs x.(new_args) x.(const_args)));
  ra_emit (LOp i x.(new_args) x.(const_args)) ;;
  ra_each (finish_output i.(args) x.(new_args) dead_args sync_args) (seq 0 no).

(** ** Calls *)

(** A parameter goes to the stack through a register. *)
Definition store_stack_arg (t ofs : Z) : ra unit :=
  when (negb (t =? TCG_CALL_DUMMY_ARG))
    (ts ← get_ts t;
     match ts.(val_type) with
     | TEMP_VAL_REG => ra_emit (LSt (temp_type t) ts.(reg) TCG_REG_CALL_STACK ofs)
     | TEMP_VAL_MEM =>
         r ← tcg_reg_alloc (tcg_target_available_regs (temp_type t)) reserved_regs;
         ra_emit (LLd (temp_type t) r ts.(mem_reg) ts.(mem_offset)) ;;
         ra_emit (LSt (temp_type t) r TCG_REG_CALL_STACK ofs)
     | TEMP_VAL_CONST =>
         r ← tcg_reg_alloc (tcg_target_available_regs (temp_type t)) reserved_regs;
         ra_emit (LMovi (temp_type t) r ts.(val)) ;;
         ra_emit (LSt (temp_type t) r TCG_REG_CALL_STACK ofs)
     | TEMP_VAL_DEAD => ra_fail TcgAbort
     end).

(** A parameter in a register: [allocated_regs] grows by that register. *)
Definition load_reg_arg (kt : nat * Z) (allocated : Z) : ra Z :=
  let '(k, t) := kt in
  if t =? TCG_CALL_DUMMY_ARG then mret allocated
  else
    let r := iarg_reg k in
    tcg_reg_free r ;;
    ts ← get_ts t;
    (match ts.(val_type) with
     | TEMP_VAL_REG => when (negb (ts.(reg) =? r)) (ra_emit (LMov (temp_type t) r ts.(reg)))
     | TEMP_VAL_MEM => ra_emit (LLd (temp_type t) r ts.(mem_reg) ts.(mem_offset))
     | TEMP_VAL_CONST => ra_emit (LMovi (temp_type t) r ts.(val))
     | TEMP_VAL_DEAD => ra_fail TcgAbort
     end) ;;
    mret (regset_add r allocated).

(** The address of the function: a register or a constant. *)
Definition place_function (t : Z) (arg_ct : TCGArgConstraint) (allocated : Z) : ra (Z * bool) :=
  ts ← get_ts t;
  match ts.(val_type) with
  | TEMP_VAL_MEM =>
      r ← tcg_reg_alloc arg_ct.(ct_regs) allocated;
      ra_emit (LLd (temp_type t) r ts.(mem_reg) ts.(mem_offset)) ;; mret (r, false)
  | TEMP_VAL_REG =>
      if Z.testbit arg_ct.(ct_regs) ts.(reg) then mret (ts.(reg), false)
      else
        r ← tcg_reg_alloc arg_ct.(ct_regs) allocated;
        ra_emit (LMov (temp_type t) r ts.(reg)) ;; mret (r, false)
  | TEMP_VAL_CONST =>
      if tcg_target_const_match ts.(val) arg_ct then mret (u64 ts.(val), true)
      else
        r ← tcg_reg_alloc arg_ct.(ct_regs) allocated;
        ra_emit (LMovi (temp_type t) r ts.(val)) ;; mret (r, false)
  | TEMP_VAL_DEAD => ra_fail TcgAbort
  end.

Definition call_output (dead_args sync_args : Z) (kt : nat * Z) : ra unit :=
  let '(k, t) := kt in
  match tcg_target_call_oarg_regs !! k with
  | None => ra_fail OutOfBounds
  | Some r =>
      u ← get_temp_of r;
      ra_assert (u =? -1) ;;
      ts ← get_ts t;
      if ts.(fixed_reg) then when (negb (ts.(reg) =? r)) (ra_emit (LMov (temp_type t) ts.(reg) r))
      else
        release t ;; take_reg t r false ;;
        when (NEED_SYNC_ARG sync_args k) (tcg_reg_sync r) ;;
        when (IS_DEAD_ARG dead_args k) (temp_dead t)
  end.

Definition tcg_reg_alloc_call (i : insn) (dead_args sync_args : Z) : ra unit :=
  let no := length (oargs i) in
  let params := take (length (iargs i) - 1) (iargs i) in
  let nb_regs := min (length tcg_target_call_iarg_regs) (length params) in
  let call_stack_size :=
    Z.land (Z.of_nat (length params - nb_regs) * 8 + TCG_TARGET_STACK_ALIGN - 1)
      (Z.lnot (TCG_TARGET_STACK_ALIGN - 1)) in
  if TCG_STATIC_CALL_ARGS_SIZE <? call_stack_size then ra_fail TcgAbort
  else
    ra_each (fun kt => store_stack_arg kt.2 (TCG_TARGET_CALL_STACK_OFFSET + 8 * Z.of_nat kt.1))
      (imap pair (drop nb_regs params)) ;;
    allocated ← ra_fold load_reg_arg (imap pair (take nb_regs params)) reserved_regs;
    func ← place_function (arg (iargs i) (length params))
             (default (mkCt 0 0 0) (default [] (op_cts INDEX_op_call) !! 0%nat)) allocated;
    bury_inputs (oargs i ++ iargs i) dead_args (seq no (length (iargs i))) ;;
    free_clobbered ;;
    (if testb (call_flags i) TCG_CALL_NO_READ_GLOBALS then mret tt
     else if testb (call_flags i) TCG_CALL_NO_WRITE_GLOBALS then sync_globals
     else save_globals) ;;
    ra_emit (LOp i [func.1] [func.2]) ;;
    ra_each (call_output dead_args sync_args) (imap pair (oargs i)).

(** ** The loop *)

Definition alloc_insn (i : insn) (x : noted) : ra unit :=
  let a := i.(args) in
  let noted_args (f : Z -> Z -> ra unit) :=
    match x with Some (dead_args, sync_args) => f dead_args sync_args | None => ra_fail OutOfBounds end in
  match i.(opc) with
  | INDEX_op_mov _ =>
      let regs k := ct_regs (default (mkCt 0 0 0) (default [] (op_cts i.(opc)) !! k)) in
      noted_args (tcg_reg_alloc_mov (regs 0%nat) (regs 1%nat) (arg a 0) (arg a 1))
  | INDEX_op_movi _ => noted_args (tcg_reg_alloc_movi (arg a 0) (arg a 1))
  | INDEX_op_debug_insn_start | INDEX_op_nop | INDEX_op_nop1 | INDEX_op_nop2 | INDEX_op_nop3
  | INDEX_op_nopn => mret tt
  | INDEX_op_discard => temp_dead (arg a 0)
  | INDEX_op_set_label => tcg_reg_alloc_bb_end ;; ra_emit (LLabel (arg a 0))
  | INDEX_op_call => noted_args (tcg_reg_alloc_call i)
  | _ =>
      if testb (op_flags i.(opc)) TCG_OPF_NOT_PRESENT then ra_fail TcgAbort
      else noted_args (tcg_reg_alloc_op i)
  end.

(** The calls of the back end for every operation; the list of operations ends
    where the C code has the operation [end]. *)
Fixpoint alloc_insns (p : list insn) (xs : list noted) (σ : ra_state) : res (list (list lop) * ra_state) :=
  match p, xs with
  | [], _ => Ok ([], σ)
  | i :: p, x :: xs =>
      '(_, σ1, os) ← (alloc_insn i x ;; check_regs) σ;
      '(oss, σ2) ← alloc_insns p xs σ1;
      Ok (os :: oss, σ2)
  | _, _ => Err OutOfBounds
  end.
End Allocator.

(** [tcg_gen_code_common] up to the back end, for the temporaries [l] with their
    registers and places in memory. *)
Definition allocate (s : tcg_temps) (frame : tcg_frame) (reserved_regs : Z) (p : list insn) (xs : list noted)
    (l : list ra_temp) : res (list (list lop) * ra_state) :=
  alloc_insns s frame reserved_regs p xs (tcg_reg_alloc_start s frame l).
