(* ===== verification/RegAllocLogic.v ===== *)
(** * What the register allocator keeps true

    The state of the host between the operations, what the emitted moves do to it,
    and the invariant of the allocator: which temporary is in which register, which
    have a place in memory, and that the values are there.  Every function of the
    allocator that moves values is described by what it leaves of the invariant. *)

From S2P Require Import Prelude QtraceDefs X86 TcgOut TcgEnc TcgEmit TcgCond TcgOpDefs TcgSem TcgIR.
From S2P Require Import Optimize OptCopies OptSound Liveness LivenessSound InstrCall Prologue RegAlloc.

(** ** The host *)

(** Registers, and memory by base register and offset. *)
Record hstate := mkHost { hregs : Z -> Z; hmem : Z * Z -> Z }.

Definition set_hreg (r x : Z) (h : hstate) : hstate :=
  mkHost (fun r' => if r' =? r then x else hregs h r') (hmem h).
Definition set_hmem (k : Z * Z) (x : Z) (h : hstate) : hstate :=
  mkHost (hregs h) (fun k' => if bool_decide (k' = k) then x else hmem h k').

(** The code for a move from a register to itself is empty. *)
Definition exec_move (h : hstate) (o : lop) : hstate :=
  match o with
  | LMov t ret arg => if ret =? arg then h else set_hreg ret (wrap (wsize t) (hregs h arg)) h
  | LMovi t ret v => set_hreg ret (wrap (wsize t) v) h
  | LLd t ret base ofs => set_hreg ret (wrap (wsize t) (hmem h (base, ofs))) h
  | LSt t arg base ofs => set_hmem (base, ofs) (wrap (wsize t) (hregs h arg)) h
  | _ => h
  end.
Definition exec_moves (os : list lop) (h : hstate) : hstate := fold_left exec_move os h.

Definition is_move (o : lop) : bool := match o with LOp _ _ _ | LLabel _ => false | _ => true end.
Definition is_store (o : lop) : bool := match o with LSt _ _ _ _ => true | _ => false end.

Lemma exec_moves_app os1 os2 h : exec_moves (os1 ++ os2) h = exec_moves os2 (exec_moves os1 h).
Proof. apply fold_left_app. Qed.

Lemma stores_regs os h : Forall (fun o => is_store o = true) os -> hregs (exec_moves os h) = hregs h.
Proof.
  intros H. revert h. induction H as [|o os Ho _ IH]; intros h; [done|]. cbn. fold (exec_moves os (exec_move h o)).
  rewrite IH. by destruct o.
Qed.

Lemma stores_moves os : Forall (fun o => is_store o = true) os -> Forall (fun o => is_move o = true) os.
Proof. intros H. eapply Forall_impl; [exact H|]. by intros []. Qed.

(** ** Runs of the allocator *)

Definition wp {A} (m : ra A) (Q : A -> ra_state -> list lop -> Prop) (σ : ra_state) : Prop :=
  exists a σ' os, m σ = Ok (a, σ', os) /\ Q a σ' os.

Lemma wp_ret {A} (a : A) Q σ : Q a σ [] -> wp (mret a) Q σ.
Proof. intros H. by exists a, σ, []. Qed.

Lemma wp_bind {A B} (m : ra A) (f : A -> ra B) Q σ :
  wp m (fun a σ1 os1 => wp (f a) (fun b σ2 os2 => Q b σ2 (os1 ++ os2)) σ1) σ -> wp (m ≫= f) Q σ.
Proof.
  intros (a & σ1 & os1 & E1 & b & σ2 & os2 & E2 & H). exists b, σ2, (os1 ++ os2). split; [|done].
  unfold mbind, ra_bind. rewrite E1. cbn. by rewrite E2.
Qed.

Lemma wp_mono {A} (m : ra A) (Q Q' : A -> ra_state -> list lop -> Prop) σ :
  wp m Q σ -> (forall a σ' os, Q a σ' os -> Q' a σ' os) -> wp m Q' σ.
Proof. intros (a & σ' & os & E & H) HQ. exists a, σ', os. auto. Qed.

Lemma wp_assert b Q σ : b = true -> Q tt σ [] -> wp (ra_assert b) Q σ.
Proof. intros -> H. by exists tt, σ, []. Qed.

Lemma wp_emit o Q σ : Q tt σ [o] -> wp (ra_emit o) Q σ.
Proof. intros H. by exists tt, σ, [o]. Qed.

Lemma wp_when (b : bool) m Q σ :
  (b = true -> wp m Q σ) -> (b = false -> Q tt σ []) -> wp (when b m) Q σ.
Proof. intros H1 H2. destruct b; [by apply H1|]. by apply wp_ret, H2. Qed.

Lemma wp_get_ts t Q σ : in_bounds σ.(ra_temps) t = true -> Q (tget σ.(ra_temps) t) σ [] -> wp (get_ts t) Q σ.
Proof. intros Hb H. exists (tget σ.(ra_temps) t), σ, []. unfold get_ts. by rewrite Hb. Qed.

Definition with_temp (t : Z) (ts : ra_temp) (σ : ra_state) : ra_state :=
  mkState (tset t ts σ.(ra_temps)) σ.(reg_to_temp) σ.(current_frame_offset).
Definition with_owner (r t : Z) (σ : ra_state) : ra_state :=
  mkState σ.(ra_temps) (tset r t σ.(reg_to_temp)) σ.(current_frame_offset).

Lemma wp_upd_ts t f Q σ :
  in_bounds σ.(ra_temps) t = true -> Q tt (with_temp t (f (tget σ.(ra_temps) t)) σ) [] -> wp (upd_ts t f) Q σ.
Proof. intros Hb H. eexists tt, _, []. unfold upd_ts. by rewrite Hb. Qed.

Lemma wp_get_temp_of r Q σ :
  in_bounds σ.(reg_to_temp) r = true -> Q (tget σ.(reg_to_temp) r) σ [] -> wp (get_temp_of r) Q σ.
Proof. intros Hb H. eexists _, σ, []. unfold get_temp_of. by rewrite Hb. Qed.

Lemma wp_set_temp_of r t Q σ :
  in_bounds σ.(reg_to_temp) r = true -> Q tt (with_owner r t σ) [] -> wp (set_temp_of r t) Q σ.
Proof. intros Hb H. eexists tt, _, []. unfold set_temp_of. by rewrite Hb. Qed.

(** ** The invariant *)

Definition real_reg (r : Z) : Prop := 0 <= r < 16.

(** The frame has room for every temporary, and no two have the same place. *)
Class setting (s : tcg_temps) (frame : tcg_frame) (reserved_regs : Z) (M : Z -> option (Z * Z)) : Prop := {
  se_stack : Z.testbit reserved_regs TCG_REG_CALL_STACK = true;
  se_globals : 0 <= s.(nb_globals) <= nb_temps s;
  se_max : nb_temps s <= TCG_MAX_TEMPS;
  se_aligned : frame.(frame_start) mod 8 = 0;
  se_room : frame.(frame_start) + 8 * (nb_temps s - s.(nb_globals)) <= frame.(frame_end);
  se_inj : forall t u k, valid s t -> valid s u -> M t = Some k -> M u = Some k -> t = u
}.

Section Invariant.
Context (s : tcg_temps) (frame : tcg_frame) (reserved_regs : Z).

Local Abbreviation ts_of σ t := (tget (ra_temps σ) t).
Local Abbreviation owner σ r := (tget (reg_to_temp σ) r).

(** The number of temporaries with a place in the frame. *)
Definition slots_used (σ : ra_state) : Z :=
  Z.of_nat (length (List.filter mem_allocated (drop (Z.to_nat s.(nb_globals)) σ.(ra_temps)))).

(** Places in memory: the frame is filled from its start, globals are elsewhere,
    and no place is used twice. *)
Record placed (σ : ra_state) : Prop := {
  pl_offset : σ.(current_frame_offset) = frame.(frame_start) + 8 * slots_used σ;
  pl_frame : forall t, valid s t -> s.(nb_globals) <= t -> (ts_of σ t).(mem_allocated) = true ->
    (ts_of σ t).(mem_reg) = frame.(frame_reg) /\
    frame.(frame_start) <= (ts_of σ t).(mem_offset) < σ.(current_frame_offset);
  pl_global : forall t, valid s t -> t < s.(nb_globals) -> (ts_of σ t).(fixed_reg) = false ->
    (ts_of σ t).(mem_allocated) = true /\ (ts_of σ t).(mem_reg) <> frame.(frame_reg);
  pl_distinct : forall t u, valid s t -> valid s u ->
    (ts_of σ t).(fixed_reg) = false -> (ts_of σ u).(fixed_reg) = false ->
    (ts_of σ t).(mem_allocated) = true -> (ts_of σ u).(mem_allocated) = true ->
    (ts_of σ t).(mem_reg) = (ts_of σ u).(mem_reg) -> (ts_of σ t).(mem_offset) = (ts_of σ u).(mem_offset) -> t = u
}.

(** Registers and temporaries refer to each other, as [check_regs] wants it. *)
Record linked (σ : ra_state) : Prop := {
  ln_temps : length σ.(ra_temps) = length s.(temps);
  ln_regs : length σ.(reg_to_temp) = 16%nat;
  ln_fixed : forall t, valid s t -> (ts_of σ t).(fixed_reg) = true ->
    t < s.(nb_globals) /\ (ts_of σ t).(val_type) = TEMP_VAL_REG /\ real_reg (ts_of σ t).(reg) /\
    Z.testbit reserved_regs (ts_of σ t).(reg) = true /\ (ts_of σ t).(reg) <> TCG_REG_CALL_STACK;
  ln_owner : forall r, real_reg r -> owner σ r <> -1 ->
    valid s (owner σ r) /\ (ts_of σ (owner σ r)).(fixed_reg) = false /\
    (ts_of σ (owner σ r)).(val_type) = TEMP_VAL_REG /\ (ts_of σ (owner σ r)).(reg) = r /\
    Z.testbit reserved_regs r = false;
  ln_reg : forall t, valid s t -> (ts_of σ t).(fixed_reg) = false -> (ts_of σ t).(val_type) = TEMP_VAL_REG ->
    real_reg (ts_of σ t).(reg) /\ owner σ (ts_of σ t).(reg) = t
}.

(** What the liveness analysis says: [dead] and [mem] are its state, [written] the
    local temporaries that an operation has set, [const] those that can be known. *)
Record live_ts (dead mem written const : bool) (t : Z) (ts : ra_temp) : Prop := {
  lv_dead : dead = true -> ts.(val_type) = if survives s t then TEMP_VAL_MEM else TEMP_VAL_DEAD;
  lv_live : dead = false -> ts.(val_type) <> TEMP_VAL_DEAD;
  lv_survives : mem = true -> survives s t = true;
  lv_mem : mem = true -> ts.(val_type) = TEMP_VAL_MEM \/ ts.(val_type) = TEMP_VAL_REG /\ ts.(mem_coherent) = true;
  lv_slot : dead && negb mem = false -> ts.(val_type) = TEMP_VAL_MEM ->
    (s.(nb_globals) <= t -> (tget s.(temps) t).(temp_local) = true -> written = true) ->
    ts.(mem_allocated) = true;
  lv_coherent : ts.(val_type) = TEMP_VAL_REG -> ts.(mem_coherent) = true -> ts.(mem_allocated) = true;
  lv_const : ts.(val_type) = TEMP_VAL_CONST -> const = true /\ s64 ts.(val) = ts.(val)
}.

Record facts := mkFacts { f_dead : Z -> bool; f_mem : Z -> bool; f_written : Z -> bool; f_const : Z -> bool }.

Record ra_inv (f : facts) (σ : ra_state) : Prop := {
  ri_linked : linked σ;
  ri_placed : placed σ;
  ri_live : forall t, valid s t -> (ts_of σ t).(fixed_reg) = false ->
    live_ts (f.(f_dead) t) (f.(f_mem) t) (f.(f_written) t) (f.(f_const) t) t (ts_of σ t)
}.

(** Values.  [M] are the places in memory at the end of the allocation; a
    temporary that is not used any more need not be anywhere. *)
Context (M : Z -> option (Z * Z)).

Definition in_mem (v : list Z) (h : hstate) (t : Z) : Prop :=
  forall k, M t = Some k -> wrap (tsize s t) (hmem h k) = rd s v t.

Record val_ts (used : bool) (v : list Z) (h : hstate) (t : Z) (ts : ra_temp) : Prop := {
  vl_reg : ts.(val_type) = TEMP_VAL_REG -> wrap (tsize s t) (hregs h ts.(reg)) = rd s v t;
  vl_coherent : ts.(val_type) = TEMP_VAL_REG -> ts.(fixed_reg) = false -> ts.(mem_coherent) = true -> in_mem v h t;
  vl_const : ts.(val_type) = TEMP_VAL_CONST -> wrap (tsize s t) ts.(val) = rd s v t;
  vl_mem : ts.(val_type) = TEMP_VAL_MEM -> used = true -> in_mem v h t
}.

Definition used_by (f : facts) (t : Z) : bool := negb (f.(f_dead) t && negb (f.(f_mem) t)).

(** All values are where they should be, except those in [X]. *)
Definition values (X : list Z) (f : facts) (v : list Z) (σ : ra_state) (h : hstate) : Prop :=
  forall t, valid s t -> t ∉ X -> val_ts (used_by f t) v h t (ts_of σ t).

(** The places of a state are those of [M]; they stay once they are assigned. *)
Definition within (σ : ra_state) : Prop :=
  forall t, valid s t -> (ts_of σ t).(fixed_reg) = false -> (ts_of σ t).(mem_allocated) = true ->
    M t = Some ((ts_of σ t).(mem_reg), (ts_of σ t).(mem_offset)).
Definition slots_le (σ σ' : ra_state) : Prop :=
  forall t, valid s t -> (ts_of σ' t).(fixed_reg) = (ts_of σ t).(fixed_reg) /\
    ((ts_of σ t).(mem_allocated) = true ->
     (ts_of σ' t).(mem_allocated) = true /\ (ts_of σ' t).(mem_reg) = (ts_of σ t).(mem_reg) /\
     (ts_of σ' t).(mem_offset) = (ts_of σ t).(mem_offset)).

Lemma slots_le_refl σ : slots_le σ σ.
Proof. done. Qed.

Lemma slots_le_trans σ1 σ2 σ3 : slots_le σ1 σ2 -> slots_le σ2 σ3 -> slots_le σ1 σ3.
Proof.
  intros H1 H2 t Vt. destruct (H1 t Vt) as [E1 A1], (H2 t Vt) as [E2 A2]. split; [congruence|].
  intros Ha. destruct (A1 Ha) as (Ha2 & Er & Eo). destruct (A2 Ha2) as (Ha3 & Er' & Eo'). split_and!; congruence.
Qed.

Lemma within_le σ σ' : slots_le σ σ' -> within σ' -> within σ.
Proof.
  intros Hle Hw t Vt Hf Ha. destruct (Hle t Vt) as [Ef Hs]. destruct (Hs Ha) as (Ha' & <- & <-).
  apply Hw; [done|by rewrite Ef|done].
Qed.

(** The moves [os] turn a host state with [P] into one with [P']. *)
Record moved (σ σ' : ra_state) (os : list lop) (P P' : hstate -> Prop) : Prop := {
  mv_slots : slots_le σ σ';
  mv_moves : Forall (fun o => is_move o = true) os;
  mv_values : within σ' -> forall h, P h -> P' (exec_moves os h)
}.

Lemma moved_refl σ (P P' : hstate -> Prop) : (forall h, P h -> P' h) -> moved σ σ [] P P'.
Proof. intros H. split; [apply slots_le_refl|constructor|auto]. Qed.

Lemma moved_trans σ1 σ2 σ3 os1 os2 P1 P2 P3 :
  moved σ1 σ2 os1 P1 P2 -> moved σ2 σ3 os2 P2 P3 -> moved σ1 σ3 (os1 ++ os2) P1 P3.
Proof.
  intros [S1 M1 V1] [S2 M2 V2]. split; [by eapply slots_le_trans|by apply Forall_app|].
  intros Hw h Hp. rewrite exec_moves_app. apply V2; [done|]. apply V1; [by eapply within_le|done].
Qed.

(** ** Changes of single temporaries *)

Context {Hset : setting s frame reserved_regs M}.
Let Hglobals := se_globals.

Lemma ts_with_temp t ts rt c σ u :
  linked σ -> valid s t -> valid s u ->
  tget (ra_temps (mkState (tset t ts σ.(ra_temps)) rt c)) u = if u =? t then ts else ts_of σ u.
Proof. intros Hl Vt Vu. cbn. apply (tget_set s); [apply Hl|done|done]. Qed.

Lemma owner_set r t (l : list Z) r' :
  length l = 16%nat -> real_reg r -> real_reg r' -> tget (tset r t l) r' = if r' =? r then t else tget l r'.
Proof.
  intros Hl [H1 H2] [H3 H4]. destruct (Z.eqb_spec r' r) as [->|].
  - apply tget_tset_same. lia.
  - by apply tget_tset_other.
Qed.

Lemma bounds_temp σ t : linked σ -> valid s t -> in_bounds σ.(ra_temps) t = true.
Proof. intros Hl [H1 H2]. unfold in_bounds, nb_temps in *. rewrite (ln_temps _ Hl). lia. Qed.

Lemma bounds_reg σ r : linked σ -> real_reg r -> in_bounds σ.(reg_to_temp) r = true.
Proof. intros Hl [H1 H2]. unfold in_bounds. rewrite (ln_regs _ Hl). lia. Qed.

(** The temporary [t] gets another record, and registers are taken from it or
    given to it. *)
Lemma linked_change σ t ts rt c :
  linked σ -> valid s t -> (ts_of σ t).(fixed_reg) = false -> ts.(fixed_reg) = false -> length rt = 16%nat ->
  (forall r, real_reg r ->
     tget rt r = owner σ r /\ owner σ r <> t \/
     (owner σ r = t \/ owner σ r = -1) /\
     (tget rt r = -1 \/
      tget rt r = t /\ ts.(val_type) = TEMP_VAL_REG /\ ts.(reg) = r /\ Z.testbit reserved_regs r = false)) ->
  (ts.(val_type) = TEMP_VAL_REG -> real_reg ts.(reg) /\ tget rt ts.(reg) = t) ->
  linked (mkState (tset t ts σ.(ra_temps)) rt c).
Proof.
  intros Hl Vt Hf Hf' Hrt Ho Hr. pose proof Hl as [L1 L2 L3 L4 L5].
  assert (forall u, valid s u -> tget (tset t ts σ.(ra_temps)) u = if u =? t then ts else ts_of σ u) as Ets
    by (intros; by apply (ts_with_temp t ts rt c)).
  split; cbn [ra_temps reg_to_temp].
  - by rewrite length_tset.
  - done.
  - intros u Vu. rewrite Ets by done. destruct (Z.eqb_spec u t) as [->|]; [by rewrite Hf'|by apply L3].
  - intros r Hrr Hn. destruct (Ho r Hrr) as [[E Hne]|[_ [E|(E & Hv & Hrg & Hres)]]]; [|done|].
    + rewrite E in *. destruct (L4 r Hrr Hn) as (Vo & Hfo & Hvo & Hro & Hres).
      rewrite Ets, (proj2 (Z.eqb_neq _ _) Hne) by done. done.
    + rewrite E, Ets, Z.eqb_refl by done. done.
  - intros u Vu. rewrite Ets by done. destruct (Z.eqb_spec u t) as [->|Hne]; [done|].
    intros Hfu Hvu. destruct (L5 u Vu Hfu Hvu) as [Hrr Eo]. split; [done|].
    assert (u <> -1) by (unfold valid in Vu; lia). destruct (Ho _ Hrr) as [[-> _]|[[?|?] _]]; congruence.
Qed.

Lemma length_filter_insert {A} (f : A -> bool) (l : list A) i x y :
  l !! i = Some y ->
  (length (List.filter f (<[i := x]> l)) + (if f y then 1 else 0) =
   length (List.filter f l) + (if f x then 1 else 0))%nat.
Proof.
  revert i. induction l as [|z l IH]; intros [|i] Hi; try done.
  - injection Hi as ->. cbn. destruct (f x), (f y); cbn; lia.
  - specialize (IH i Hi). change (<[S i := x]> (z :: l)) with (z :: <[i := x]> l). cbn [List.filter].
    destruct (f z); cbn [length]; lia.
Qed.

(** The number of places changes with [t]. *)
Lemma slots_used_change σ t ts rt c :
  linked σ -> valid s t ->
  slots_used (mkState (tset t ts σ.(ra_temps)) rt c) =
  slots_used σ +
  (if t <? s.(nb_globals) then 0 else Z.b2z ts.(mem_allocated) - Z.b2z (ts_of σ t).(mem_allocated)).
Proof.
  intros Hl [V1 V2]. unfold slots_used, tset, tget. cbn [ra_temps].
  assert (Z.to_nat t < length σ.(ra_temps))%nat as Hlt by (rewrite (ln_temps _ Hl); unfold nb_temps in V2; lia).
  destruct (lookup_lt_is_Some_2 _ _ Hlt) as [y Hy]. rewrite (list_lookup_total_correct _ _ _ Hy).
  destruct (Z.ltb_spec t (nb_globals s)).
  - rewrite drop_insert_lt by lia. lia.
  - rewrite drop_insert_ge by lia.
    pose proof (length_filter_insert mem_allocated (drop (Z.to_nat (nb_globals s)) σ.(ra_temps))
      (Z.to_nat t - Z.to_nat (nb_globals s)) ts y) as E.
    rewrite lookup_drop in E.
    replace (Z.to_nat (nb_globals s) + (Z.to_nat t - Z.to_nat (nb_globals s)))%nat with (Z.to_nat t) in E by lia.
    specialize (E Hy).
    destruct (mem_allocated ts), (mem_allocated y); cbn [Z.b2z] in *; lia.
Qed.

Definition same_slot (ts ts' : ra_temp) : Prop :=
  ts'.(fixed_reg) = ts.(fixed_reg) /\ ts'.(mem_allocated) = ts.(mem_allocated) /\
  ts'.(mem_reg) = ts.(mem_reg) /\ ts'.(mem_offset) = ts.(mem_offset).

Lemma placed_same σ t ts rt :
  linked σ -> placed σ -> valid s t -> same_slot (ts_of σ t) ts ->
  placed (mkState (tset t ts σ.(ra_temps)) rt σ.(current_frame_offset)).
Proof.
  intros Hl [P1 P2 P3 P4] Vt (E1 & E2 & E3 & E4).
  assert (forall u, valid s u -> same_slot (ts_of σ u) (tget (tset t ts σ.(ra_temps)) u)) as Hs.
  { intros u Vu. rewrite (tget_set s) by (done || apply Hl). by destruct (Z.eqb_spec u t) as [->|]. }
  split; cbn [ra_temps current_frame_offset].
  - rewrite slots_used_change, E2 by done. destruct (t <? nb_globals s); lia.
  - intros u Vu Hg. destruct (Hs u Vu) as (_ & -> & -> & ->). by apply P2.
  - intros u Vu Hg. destruct (Hs u Vu) as (-> & -> & -> & _). by apply P3.
  - intros u w Vu Vw. destruct (Hs u Vu) as (-> & -> & -> & ->), (Hs w Vw) as (-> & -> & -> & ->). by apply P4.
Qed.

Lemma slots_le_same σ t ts rt c :
  linked σ -> valid s t -> same_slot (ts_of σ t) ts ->
  slots_le σ (mkState (tset t ts σ.(ra_temps)) rt c).
Proof.
  intros Hl Vt (E1 & E2 & E3 & E4) u Vu. rewrite ts_with_temp by done.
  destruct (Z.eqb_spec u t) as [->|]; [|done]. by rewrite E1, E2, E3, E4.
Qed.

(** ** Memory *)

Let Hroom := se_room.
Let Hinj := se_inj.

Lemma slots_bound σ t :
  linked σ -> valid s t -> s.(nb_globals) <= t -> (ts_of σ t).(mem_allocated) = false ->
  slots_used σ < nb_temps s - s.(nb_globals).
Proof.
  intros Hl Vt Hg Ha. pose proof (slots_used_change σ t (set_slot 0 0 (ts_of σ t)) [] 0 Hl Vt) as E.
  rewrite (proj2 (Z.ltb_ge _ _) Hg), Ha in E. cbn [set_slot mem_allocated Z.b2z] in E.
  enough (slots_used (mkState (tset t (set_slot 0 0 (ts_of σ t)) σ.(ra_temps)) [] 0) <= nb_temps s - s.(nb_globals))
    by lia.
  unfold slots_used. cbn [ra_temps]. etrans; [apply inj_le, filter_length_le|].
  rewrite length_drop, length_tset, (ln_temps _ Hl). unfold nb_temps in *. lia.
Qed.

Lemma wp_allocate_frame σ t Q :
  linked σ -> placed σ -> valid s t -> (ts_of σ t).(fixed_reg) = false -> (ts_of σ t).(mem_allocated) = false ->
  (forall σ', σ' = mkState (tset t (set_slot frame.(frame_reg) σ.(current_frame_offset) (ts_of σ t)) σ.(ra_temps))
                     σ.(reg_to_temp) (σ.(current_frame_offset) + 8) ->
     placed σ' -> slots_le σ σ' -> Q tt σ' []) ->
  wp (temp_allocate_frame frame t) Q σ.
Proof.
  intros Hl Hp Vt Hf Ha HQ. pose proof Hp as [P1 P2 P3 P4].
  assert (s.(nb_globals) <= t) as Hg.
  { destruct (Z.le_gt_cases (nb_globals s) t); [done|]. destruct (P3 t Vt) as [? _]; [lia|done|congruence]. }
  pose proof (slots_bound σ t Hl Vt Hg Ha) as Hb.
  assert (Z.land (σ.(current_frame_offset) + 8 - 1) (Z.lnot (8 - 1)) = σ.(current_frame_offset)) as Eo.
  { change (8 - 1) with (Z.ones 3). rewrite <- Z.ldiff_land, Z.ldiff_ones_r, Z.shiftr_div_pow2, Z.shiftl_mul_pow2 by lia.
    change (2 ^ 3) with 8. rewrite P1. pose proof se_aligned as Ha8. revert Ha8. generalize (slots_used σ), (frame_start frame). intros a b ?.
    Z.to_euclidean_division_equations; lia. }
  unfold temp_allocate_frame, wp. rewrite Eo.
  rewrite (proj2 (Z.ltb_ge (frame_end frame) (current_frame_offset σ + 8))) by lia.
  unfold upd_ts. cbn [ra_temps reg_to_temp current_frame_offset]. rewrite bounds_temp by done.
  eexists tt, _, []. split; [reflexivity|].
  assert (forall u, valid s u -> tget (tset t (set_slot frame.(frame_reg) σ.(current_frame_offset) (ts_of σ t)) σ.(ra_temps)) u =
    if u =? t then set_slot frame.(frame_reg) σ.(current_frame_offset) (ts_of σ t) else ts_of σ u) as Ets
    by (intros; apply (tget_set s); [apply Hl|done|done]).
  apply HQ; [done| |].
  - split; cbn [ra_temps current_frame_offset].
    + rewrite slots_used_change, (proj2 (Z.ltb_ge _ _) Hg), Ha by done. cbn [set_slot mem_allocated Z.b2z]. lia.
    + intros u Vu Hgu. rewrite Ets by done. destruct (Z.eqb_spec u t) as [->|]; cbn; [|intros Hau].
      * intros _. unfold slots_used in *. split; [done|]. lia.
      * destruct (P2 u Vu Hgu Hau). split; [done|]. lia.
    + intros u Vu Hgu. rewrite Ets by done. destruct (Z.eqb_spec u t) as [->|]; [lia|by apply P3].
    + intros u w Vu Vw. rewrite !Ets by done.
      assert (forall u, valid s u -> u <> t -> (ts_of σ u).(fixed_reg) = false -> (ts_of σ u).(mem_allocated) = true ->
        (ts_of σ u).(mem_reg) = frame.(frame_reg) -> (ts_of σ u).(mem_offset) = σ.(current_frame_offset) -> False) as Hne.
      { intros x Vx _ Hfx Hax Hrx Hox. destruct (Z.lt_ge_cases x (nb_globals s)) as [Hlt|Hge].
        - by destruct (P3 x Vx Hlt Hfx).
        - destruct (P2 x Vx Hge Hax). lia. }
      destruct (Z.eqb_spec u t) as [->|Hu], (Z.eqb_spec w t) as [->|Hw]; cbn [set_slot fixed_reg mem_allocated mem_reg mem_offset];
        [done|intros; exfalso; eapply (Hne w); eauto|intros; exfalso; eapply (Hne u); eauto|by apply P4].
  - intros u Vu. cbn [ra_temps]. rewrite Ets by done. destruct (Z.eqb_spec u t) as [->|]; [|done]. split; [done|congruence].
Qed.

(** A value does not depend on other registers and other places. *)
Lemma val_ts_host used v h h' t ts :
  val_ts used v h t ts -> (ts.(val_type) = TEMP_VAL_REG -> hregs h' ts.(reg) = hregs h ts.(reg)) ->
  (forall k, M t = Some k -> hmem h' k = hmem h k) -> val_ts used v h' t ts.
Proof.
  intros [V1 V2 V3 V4] Hr Hm. split; [| |done|]; unfold in_mem in *.
  - intros Hv. rewrite Hr by done. by apply V1.
  - intros Hv Hf Hc k Hk. rewrite Hm by done. by apply V2.
  - intros Hv Hu k Hk. rewrite Hm by done. by apply V4.
Qed.

Lemma hmem_set_other k x h k' : k' <> k -> hmem (set_hmem k x h) k' = hmem h k'.
Proof. intros H. cbn. by rewrite bool_decide_false. Qed.
Lemma hmem_set_same k x h : hmem (set_hmem k x h) k = x.
Proof. cbn. by rewrite bool_decide_true. Qed.
Lemma hregs_set_other r x h r' : r' <> r -> hregs (set_hreg r x h) r' = hregs h r'.
Proof. intros H. cbn. by rewrite (proj2 (Z.eqb_neq r' r)). Qed.
Lemma hregs_set_same r x h : hregs (set_hreg r x h) r = x.
Proof. cbn. by rewrite Z.eqb_refl. Qed.

Definition same_core (ts ts' : ra_temp) : Prop :=
  ts'.(val_type) = ts.(val_type) /\ ts'.(reg) = ts.(reg) /\ ts'.(val) = ts.(val) /\
  ts'.(fixed_reg) = ts.(fixed_reg).

(** [σ'] differs from [σ] in [t] only. *)
Record only (t : Z) (σ σ' : ra_state) : Prop := {
  on_slots : slots_le σ σ';
  on_owner : σ'.(reg_to_temp) = σ.(reg_to_temp);
  on_others : forall u, valid s u -> u <> t -> ts_of σ' u = ts_of σ u
}.

Lemma only_trans t σ1 σ2 σ3 : only t σ1 σ2 -> only t σ2 σ3 -> only t σ1 σ3.
Proof.
  intros [S1 O1 T1] [S2 O2 T2]. split; [by eapply slots_le_trans|congruence|].
  intros u Vu Hu. rewrite T2 by done. by apply T1.
Qed.

Lemma only_temp σ t ts :
  linked σ -> valid s t -> same_slot (ts_of σ t) ts -> only t σ (with_temp t ts σ).
Proof.
  intros Hl Vt Hs. split; [by apply slots_le_same|done|]. intros u Vu Hu. unfold with_temp.
  by rewrite ts_with_temp, (proj2 (Z.eqb_neq u t)).
Qed.

Lemma ts_with t ts σ : linked σ -> valid s t -> ts_of (with_temp t ts σ) t = ts.
Proof. intros Hl Vt. unfold with_temp. by rewrite ts_with_temp, Z.eqb_refl. Qed.

Lemma linked_core σ t ts c :
  linked σ -> valid s t -> same_core (ts_of σ t) ts ->
  linked (mkState (tset t ts σ.(ra_temps)) σ.(reg_to_temp) c).
Proof.
  intros Hl Vt (E1 & E2 & E3 & E4). pose proof Hl as [L1 L2 L3 L4 L5].
  assert (forall u, valid s u -> same_core (ts_of σ u) (tget (tset t ts σ.(ra_temps)) u)) as Hs.
  { intros u Vu. rewrite (tget_set s) by (done || apply Hl). by destruct (Z.eqb_spec u t) as [->|]. }
  split; cbn [ra_temps reg_to_temp].
  - by rewrite length_tset.
  - done.
  - intros u Vu. destruct (Hs u Vu) as (-> & -> & _ & ->). by apply L3.
  - intros r Hr Hn. destruct (L4 r Hr Hn) as (Vo & ?). destruct (Hs _ Vo) as (-> & -> & _ & ->). done.
  - intros u Vu. destruct (Hs u Vu) as (-> & -> & _ & ->). by apply L5.
Qed.

Lemma wp_ensure_slot σ t :
  linked σ -> placed σ -> valid s t -> (ts_of σ t).(fixed_reg) = false ->
  wp (when (negb (ts_of σ t).(mem_allocated)) (temp_allocate_frame frame t))
    (fun _ σ1 os => os = [] /\ linked σ1 /\ placed σ1 /\ only t σ σ1 /\
       same_core (ts_of σ t) (ts_of σ1 t) /\ (ts_of σ1 t).(mem_coherent) = (ts_of σ t).(mem_coherent) /\
       (ts_of σ1 t).(mem_allocated) = true) σ.
Proof.
  intros Hl Hp Vt Hf. apply wp_when; intros Ha; [apply negb_true_iff in Ha|apply negb_false_iff in Ha].
  - apply wp_allocate_frame; try done. intros σ' -> Hp' Hle. split; [done|].
    split; [apply linked_core; done|]. split; [done|]. rewrite ts_with_temp, Z.eqb_refl by done.
    split; [|done]. split; [done|done|]. intros u Vu Hu. by rewrite ts_with_temp, (proj2 (Z.eqb_neq u t)).
  - split_and!; try done.
Qed.

Lemma type_size t : wsize (temp_type s t) = tsize s t.
Proof. done. Qed.

(** ** Saving a register *)

Lemma live_synced f t ts ts' :
  live_ts (f.(f_dead) t) (f.(f_mem) t) (f.(f_written) t) (f.(f_const) t) t ts ->
  same_core ts ts' -> ts.(val_type) = TEMP_VAL_REG -> ts'.(mem_coherent) = true -> ts'.(mem_allocated) = true ->
  live_ts (f.(f_dead) t) (f.(f_mem) t) (f.(f_written) t) (f.(f_const) t) t ts'.
Proof. intros [L1 L2 L0 L3 L4 L5 L6] (E1 & E2 & E3 & E4) Hv Hc Ha. split; rewrite ?E1, ?E3; auto. Qed.

Lemma inv_only f t σ σ' :
  ra_inv f σ -> linked σ' -> placed σ' -> only t σ σ' ->
  (valid s t -> (ts_of σ' t).(fixed_reg) = false ->
   live_ts (f.(f_dead) t) (f.(f_mem) t) (f.(f_written) t) (f.(f_const) t) t (ts_of σ' t)) -> ra_inv f σ'.
Proof.
  intros [Hl Hp Hv] Hl' Hp' [_ _ Ho] Ht. split; [done|done|]. intros u Vu Hf.
  destruct (Z.eq_dec u t) as [->|Hu]; [by apply Ht|]. rewrite Ho in * by done. by apply Hv.
Qed.

Lemma wp_sync f σ r :
  ra_inv f σ -> real_reg r -> owner σ r <> -1 ->
  wp (tcg_reg_sync s frame r)
    (fun _ σ' os => ra_inv f σ' /\ Forall (fun o => is_store o = true) os /\ only (owner σ r) σ σ' /\
       same_core (ts_of σ (owner σ r)) (ts_of σ' (owner σ r)) /\
       (ts_of σ' (owner σ r)).(mem_coherent) = true /\ (ts_of σ' (owner σ r)).(mem_allocated) = true /\
       forall X v, moved σ σ' os (values X f v σ) (values X f v σ')) σ.
Proof.
  intros Hinv Hr Hn. pose proof Hinv as [Hl Hp Hv].
  destruct (ln_owner _ Hl r Hr Hn) as (Vt & Hf & Hvt & Hreg & Hres).
  set (t := owner σ r) in *. unfold tcg_reg_sync.
  apply wp_bind, wp_get_temp_of; [by apply bounds_reg|]. fold t.
  apply wp_bind, wp_get_ts; [by apply bounds_temp|].
  apply wp_bind, wp_assert; [by apply bool_decide_true|]. rewrite Hf, andb_true_r. apply wp_bind, wp_when; intros Hc.
  - apply negb_true_iff in Hc. apply wp_bind. eapply wp_mono; [by apply wp_ensure_slot|].
    intros [] σ1 os1 (-> & Hl1 & Hp1 & Ho1 & Hs1 & _ & Ha1). apply wp_bind, wp_get_ts; [by apply bounds_temp|].
    apply wp_emit. apply wp_upd_ts; [by apply bounds_temp|].
    set (ts1 := set_mem_coherent true (ts_of σ1 t)).
    assert (only t σ (with_temp t ts1 σ1)) as Ho by (eapply only_trans; [exact Ho1|by apply only_temp]).
    rewrite ts_with by done. cbn [app].
    split; [|split; [by constructor|split; [done|split; [done|split; [done|split; [done|]]]]]].
    + apply (inv_only f t σ); [done|by apply linked_core|by apply placed_same|done|].
      rewrite ts_with by done. intros _ _. eapply live_synced; [by apply Hv|done..].
    + intros X v. split; [apply Ho|by constructor|]. intros Hw h Hval u Vu Hu. cbn [exec_moves fold_left exec_move].
      assert (M t = Some ((ts_of σ1 t).(mem_reg), (ts_of σ1 t).(mem_offset))) as EM.
      { specialize (Hw t Vt). rewrite ts_with in Hw by done. apply Hw; [|done]. cbn. by destruct Hs1 as (_ & _ & _ & ->). }
      destruct (Z.eq_dec u t) as [->|Hne].
      * rewrite ts_with by done. destruct (Hval t Vt Hu) as [V1 _ _ _]. destruct Hs1 as (E1 & E2 & E3 & E4).
        split; cbn [ts1 set_mem_coherent val_type reg val]; rewrite E1, ?E2; [by apply V1| |congruence..].
        intros _ _ _ k Hk. rewrite EM in Hk. injection Hk as <-. rewrite hmem_set_same, wrap_wrap, <- Hreg. by apply V1.
      * rewrite (on_others _ _ _ Ho) by done. eapply val_ts_host; [by apply Hval|done|]. intros k Hk.
        apply hmem_set_other. intros ->. by apply Hne, (Hinj u t _ Vu Vt Hk).
  - apply negb_false_iff in Hc. apply wp_upd_ts; [by apply bounds_temp|].
    assert (only t σ (with_temp t (set_mem_coherent true (ts_of σ t)) σ)) as Ho by (by apply only_temp).
    assert ((ts_of σ t).(mem_allocated) = true) as Ha by (by apply (lv_coherent _ _ _ _ _ _ (Hv t Vt Hf))).
    rewrite ts_with by done. cbn [app].
    split; [|split; [by constructor|split; [done|split; [done|split; [done|split; [done|]]]]]].
    + apply (inv_only f t σ); [done|by apply linked_core|by apply placed_same|done|].
      rewrite ts_with by done. intros _ _. eapply live_synced; [by apply Hv|done..].
    + intros X v. split; [apply Ho|by constructor|]. intros Hw h Hval u Vu Hu. cbn [exec_moves fold_left].
      destruct (Z.eq_dec u t) as [->|Hne]; [|rewrite (on_others _ _ _ Ho) by done; by apply Hval].
      rewrite ts_with by done. destruct (Hval t Vt Hu) as [V1 V2 V3 V4]. by split; cbn; auto.
Qed.

(** ** Freeing and choosing registers *)

(** The register [r] is free; a temporary that was in it is in memory. *)
Record freed (r : Z) (σ σ' : ra_state) : Prop := {
  fr_owner : owner σ' r = -1;
  fr_owners : forall r', real_reg r' -> r' <> r -> owner σ' r' = owner σ r';
  fr_temps : forall u, valid s u -> u <> owner σ r -> ts_of σ' u = ts_of σ u;
  fr_spilled : owner σ r <> -1 ->
    (ts_of σ' (owner σ r)).(val_type) = TEMP_VAL_MEM /\ (ts_of σ' (owner σ r)).(reg) = r /\
    (ts_of σ' (owner σ r)).(fixed_reg) = false
}.

Lemma freed_refl r σ : owner σ r = -1 -> freed r σ σ.
Proof. by split. Qed.

(** A temporary leaves its register. *)
Lemma linked_leaves σ t ts r :
  linked σ -> valid s t -> (ts_of σ t).(fixed_reg) = false -> real_reg r -> owner σ r = t ->
  ts.(fixed_reg) = false -> ts.(val_type) <> TEMP_VAL_REG ->
  linked (with_owner r (-1) (with_temp t ts σ)).
Proof.
  intros Hl Vt Hf Hr Ho Hf' Hv. apply linked_change; try done.
  - cbn. rewrite length_tset. apply Hl.
  - cbn [with_temp reg_to_temp]. intros r' Hr'. rewrite owner_set by (done || apply Hl). destruct (Z.eqb_spec r' r) as [->|Hne]; [by right; auto|].
    destruct (Z.eq_dec (owner σ r') t) as [E|]; [|by left]. exfalso. apply Hne.
    destruct (ln_owner _ Hl r' Hr') as (_ & _ & _ & <- & _); [unfold valid in Vt; lia|].
    destruct (ln_owner _ Hl r Hr) as (_ & _ & _ & <- & _); [unfold valid in Vt; lia|]. by rewrite Ho, E.
Qed.

Lemma ts_with_owner r x σ u : ts_of (with_owner r x σ) u = ts_of σ u.
Proof. done. Qed.

Lemma wp_free f σ r :
  ra_inv f σ -> real_reg r ->
  wp (tcg_reg_free s frame r)
    (fun _ σ' os => ra_inv f σ' /\ Forall (fun o => is_store o = true) os /\ freed r σ σ' /\
       forall X v, moved σ σ' os (values X f v σ) (values X f v σ')) σ.
Proof.
  intros Hinv Hr. pose proof Hinv as [Hl Hp Hv]. unfold tcg_reg_free.
  apply wp_bind, wp_get_temp_of; [by apply bounds_reg|]. apply wp_when; intros Hn.
  2:{ apply negb_false_iff, Z.eqb_eq in Hn. split; [done|]. split; [by constructor|]. split; [by apply freed_refl|].
      intros X v. by apply moved_refl. }
  apply negb_true_iff, Z.eqb_neq in Hn. apply wp_bind. eapply wp_mono; [by apply wp_sync|].
  intros [] σ1 os1 (Hinv1 & Hst & Ho1 & (Ev & Er & Ex & Ef) & Hc & Ha & Hmv).
  pose proof Hinv1 as [Hl1 Hp1 Hv1]. destruct (ln_owner _ Hl r Hr Hn) as (Vt & Hf & Hvt & Hreg & Hres).
  set (t := owner σ r) in *. apply wp_bind, wp_upd_ts; [by apply bounds_temp|].
  set (ts := set_val_type TEMP_VAL_MEM (ts_of σ1 t)).
  assert (owner σ1 r = t) as Eo by (unfold t; by rewrite (on_owner _ _ _ Ho1)).
  assert (linked (with_owner r (-1) (with_temp t ts σ1))) as Hl2.
  { apply linked_leaves; try done; cbn; congruence. }
  assert (only t σ1 (with_temp t ts σ1)) as Ho2 by (by apply only_temp).
  apply wp_set_temp_of; [unfold in_bounds; cbn; rewrite (ln_regs _ Hl1); unfold real_reg in Hr; lia|].
  rewrite !app_nil_r. split; [|split; [done|split]].
  - split; [done|apply (placed_same σ1); by try done|]. intros u Vu. rewrite ts_with_owner.
    destruct (Z.eq_dec u t) as [->|Hu]; [|rewrite (on_others _ _ _ Ho2) by done; by apply Hv1].
    rewrite ts_with by done. intros _. destruct (Hv t Vt Hf) as [L1 L2 L0 L3 L4 L5 L6].
    assert (f_dead f t = false) as Hd.
    { destruct (f_dead f t); [|done]. specialize (L1 eq_refl). rewrite Hvt in L1. by destruct (survives s t). }
    split; cbn; auto; congruence.
  - split.
    + unfold with_owner. cbn [reg_to_temp]. rewrite owner_set, Z.eqb_refl by (done || apply Hl1). done.
    + intros r' Hr' Hne. cbn [with_owner reg_to_temp with_temp]. rewrite owner_set by (done || apply Hl1).
      by rewrite (proj2 (Z.eqb_neq r' r) Hne), (on_owner _ _ _ Ho1).
    + intros u Vu Hu. rewrite ts_with_owner, (on_others _ _ _ Ho2) by done. by apply (on_others _ _ _ Ho1).
    + intros _. fold t. rewrite ts_with_owner, ts_with by done. cbn. by rewrite Er, Ef.
  - intros X v. destruct (Hmv X v) as [M1 M2 M3]. split; [|done|].
    + eapply slots_le_trans; [exact M1|]. intros u Vu. rewrite ts_with_owner. by apply (on_slots _ _ _ Ho2).
    + intros Hw h Hval u Vu Hu. rewrite ts_with_owner.
      assert (within (with_temp t ts σ1)) as Hw1 by (intros w Vw; apply (Hw w Vw)).
      specialize (M3 (within_le _ _ (on_slots _ _ _ Ho2) Hw1) h Hval u Vu Hu).
      destruct (Z.eq_dec u t) as [->|Hne]; [|by rewrite (on_others _ _ _ Ho2)].
      rewrite ts_with by done. destruct M3 as [V1 V2 V3 V4]. split; cbn; try done. intros _ _. apply V2; congruence.
Qed.

Lemma find_reg (P : Z -> bool) (l : list Z) : (exists r, r ∈ l /\ P r = true) ->
  exists r, List.find P l = Some r /\ r ∈ l /\ P r = true.
Proof.
  intros (r & Hin & Hp). destruct (List.find P l) as [x|] eqn:E.
  - apply find_some in E as [E1 E2]. exists x. split; [done|]. split; [by apply list_elem_of_In|done].
  - apply list_elem_of_In in Hin. by rewrite (find_none _ _ E r Hin) in Hp.
Qed.

(** There is a register to choose. *)
Definition available (reg1 reg2 : Z) : Prop :=
  exists r, r ∈ tcg_target_reg_alloc_order /\ Z.testbit reg1 r = true /\ Z.testbit reg2 r = false.

Definition chosen (reg1 reg2 r : Z) : Prop :=
  r ∈ tcg_target_reg_alloc_order /\ real_reg r /\ Z.testbit reg1 r = true /\ Z.testbit reg2 r = false.

Lemma order_real r : r ∈ tcg_target_reg_alloc_order -> real_reg r.
Proof.
  assert (Forall real_reg tcg_target_reg_alloc_order) as H by (repeat constructor; done).
  rewrite Forall_forall in H. apply H.
Qed.

Lemma testbit_andnot a b r : 0 <= r -> Z.testbit (Z.land a (Z.lnot b)) r = Z.testbit a r && negb (Z.testbit b r).
Proof. intros. by rewrite Z.land_spec, Z.lnot_spec. Qed.

Lemma wp_alloc f σ reg1 reg2 :
  ra_inv f σ -> available reg1 reg2 ->
  wp (tcg_reg_alloc s frame reg1 reg2)
    (fun r σ' os => chosen reg1 reg2 r /\ ra_inv f σ' /\ Forall (fun o => is_store o = true) os /\ freed r σ σ' /\
       forall X v, moved σ σ' os (values X f v σ) (values X f v σ')) σ.
Proof.
  intros Hinv (r0 & Hin & H1 & H2). unfold tcg_reg_alloc, wp.
  set (ct := Z.land reg1 (Z.lnot reg2)).
  assert (forall r, r ∈ tcg_target_reg_alloc_order -> Z.testbit ct r = true -> chosen reg1 reg2 r) as Hch.
  { intros r Hr Ht. pose proof (order_real r Hr) as [Hr1 Hr2]. unfold ct in Ht. rewrite testbit_andnot in Ht by done.
    apply andb_true_iff in Ht as [? ?%negb_true_iff]. done. }
  destruct (List.find (fun r => Z.testbit ct r && (owner σ r =? -1)) tcg_target_reg_alloc_order) as [r|] eqn:E1.
  { apply find_some in E1 as [Hr [Ht Ho%Z.eqb_eq]%andb_true_iff]. apply list_elem_of_In in Hr.
    exists r, σ, []. split; [done|]. split; [by apply Hch|]. split; [done|]. split; [by constructor|].
    split; [by apply freed_refl|]. intros. by apply moved_refl. }
  destruct (find_reg (fun r => Z.testbit ct r) tcg_target_reg_alloc_order) as (r & -> & Hr & Ht).
  { exists r0. split; [done|]. pose proof (order_real r0 Hin) as [? _]. unfold ct. by rewrite testbit_andnot, H1, H2. }
  fold (wp (tcg_reg_free s frame r ;; mret r) (fun r σ' os => chosen reg1 reg2 r /\ ra_inv f σ' /\
    Forall (fun o => is_store o = true) os /\ freed r σ σ' /\
    forall X v, moved σ σ' os (values X f v σ) (values X f v σ')) σ).
  apply wp_bind. eapply wp_mono; [apply wp_free; [done|by apply order_real]|].
  intros [] σ' os (Hi & Hs & Hf & Hm). apply wp_ret. rewrite app_nil_r. split; [by apply Hch|]. done.
Qed.

(** ** Temporaries that die *)

(** The facts [f] and [f'] say the same of all but [t]. *)
Definition facts_at (f : facts) (t : Z) : bool * bool * bool * bool :=
  (f.(f_dead) t, f.(f_mem) t, f.(f_written) t, f.(f_const) t).
Definition except (t : Z) (f f' : facts) : Prop := forall u, u <> t -> facts_at f' u = facts_at f u.

Lemma live_except t f f' u ts :
  except t f f' -> u <> t ->
  live_ts (f.(f_dead) u) (f.(f_mem) u) (f.(f_written) u) (f.(f_const) u) u ts ->
  live_ts (f'.(f_dead) u) (f'.(f_mem) u) (f'.(f_written) u) (f'.(f_const) u) u ts.
Proof. intros He Hu. specialize (He u Hu). unfold facts_at in He. by injection He as -> -> -> ->. Qed.

Lemma used_except t f f' u : except t f f' -> u <> t -> used_by f' u = used_by f u.
Proof. intros He Hu. specialize (He u Hu). unfold facts_at in He. unfold used_by. by injection He as -> -> _ _. Qed.

Definition kill (t : Z) (f : facts) : facts :=
  mkFacts (fun u => if u =? t then true else f.(f_dead) u) f.(f_mem) f.(f_written) f.(f_const).

Lemma kill_except t f : except t f (kill t f).
Proof. intros u Hu. unfold facts_at. cbn. by rewrite (proj2 (Z.eqb_neq u t)). Qed.

(** A temporary is not in a register any more. *)
Record buried (t : Z) (σ σ' : ra_state) : Prop := {
  bu_temps : forall u, valid s u -> u <> t -> ts_of σ' u = ts_of σ u;
  bu_owner : forall r, real_reg r -> owner σ' r = if owner σ r =? t then -1 else owner σ r
}.

Lemma live_killed f t ts :
  live_ts (f.(f_dead) t) (f.(f_mem) t) (f.(f_written) t) (f.(f_const) t) t ts ->
  live_ts true (f.(f_mem) t) (f.(f_written) t) (f.(f_const) t) t
    (set_val_type (if survives s t then TEMP_VAL_MEM else TEMP_VAL_DEAD) ts).
Proof.
  intros [L1 L2 L0 L3 L4 L5 L6]. split; cbn; try done.
  - intros Hm. left. by rewrite L0.
  - intros Hm _ Hw. destruct (f_mem f t) eqn:Em; [|done]. rewrite andb_false_r in L4.
    destruct (L3 eq_refl) as [Hv|[Hv Hc]]; [by apply L4|by apply L5].
  - intros Hv. by destruct (survives s t).
  - intros Hv. by destruct (survives s t).
Qed.

Lemma val_killed f v h t ts :
  live_ts (f.(f_dead) t) (f.(f_mem) t) (f.(f_written) t) (f.(f_const) t) t ts -> ts.(fixed_reg) = false ->
  val_ts (used_by f t) v h t ts ->
  val_ts (used_by (kill t f) t) v h t (set_val_type (if survives s t then TEMP_VAL_MEM else TEMP_VAL_DEAD) ts).
Proof.
  intros [L1 L2 L0 L3 L4 L5 L6] Hf [V1 V2 V3 V4]. split; cbn; try (by destruct (survives s t)).
  intros _ Hu. unfold used_by in Hu. cbn in Hu. rewrite Z.eqb_refl in Hu. cbn in Hu.
  rewrite negb_involutive in Hu. unfold used_by in V4. rewrite Hu, andb_false_r in V4.
  destruct (L3 Hu) as [Hv|[Hv Hc]]; [by apply V4|by apply V2].
Qed.

Lemma wp_dead f σ t :
  ra_inv f σ -> valid s t -> (ts_of σ t).(fixed_reg) = false ->
  wp (temp_dead s t)
    (fun _ σ' os => os = [] /\ ra_inv (kill t f) σ' /\ buried t σ σ' /\
       forall X v, moved σ σ' [] (values X f v σ) (values X (kill t f) v σ')) σ.
Proof.
  intros Hinv Vt Hf. pose proof Hinv as [Hl Hp Hv]. unfold temp_dead.
  apply wp_bind, wp_get_ts; [by apply bounds_temp|]. rewrite Hf. cbn [negb when].
  set (ts := set_val_type (if survives s t then TEMP_VAL_MEM else TEMP_VAL_DEAD) (ts_of σ t)).
  assert (wp (when (is_val TEMP_VAL_REG (ts_of σ t)) (set_temp_of (ts_of σ t).(reg) (-1)))
    (fun _ σ1 os => os = [] /\ σ1.(ra_temps) = σ.(ra_temps) /\ σ1.(current_frame_offset) = σ.(current_frame_offset) /\
       linked (mkState (tset t ts σ.(ra_temps)) σ1.(reg_to_temp) σ.(current_frame_offset)) /\
       forall r, real_reg r -> owner σ1 r = if owner σ r =? t then -1 else owner σ r) σ) as Hwp.
  { assert (ts.(val_type) <> TEMP_VAL_REG) as Hts by (by cbn; destruct (survives s t)).
    apply wp_when; intros Hr; [apply bool_decide_eq_true in Hr|apply bool_decide_eq_false in Hr].
    - destruct (ln_reg _ Hl t Vt Hf Hr) as [Hrr Ho]. apply wp_set_temp_of; [by apply bounds_reg|].
      split_and!; try done.
      + by apply linked_leaves.
      + intros r Hr'. cbn [with_owner reg_to_temp]. rewrite owner_set by (done || apply Hl).
        destruct (Z.eqb_spec r (reg (ts_of σ t))) as [->|Hne]; [by rewrite Ho, Z.eqb_refl|].
        destruct (Z.eqb_spec (owner σ r) t) as [E|]; [|done]. exfalso. apply Hne.
        destruct (ln_owner _ Hl r Hr') as (_ & _ & _ & <- & _); [unfold valid in Vt; lia|by rewrite E].
    - assert (forall r, real_reg r -> owner σ r <> t) as Ho.
      { intros r Hr' E. destruct (ln_owner _ Hl r Hr') as (_ & _ & Hv' & _); [unfold valid in Vt; lia|]. by rewrite E in Hv'. }
      split_and!; try done.
      + apply linked_change; try done; [apply Hl|]. intros r Hr'. left. split; [done|by apply Ho].
      + intros r Hr'. by rewrite (proj2 (Z.eqb_neq _ _) (Ho r Hr')). }
  apply wp_bind. eapply wp_mono; [exact Hwp|]. intros [] σ1 os1 (-> & Et & Ec & Hl' & Ho).
  apply wp_upd_ts; [rewrite Et; by apply bounds_temp|]. unfold with_temp. rewrite Et, Ec. fold ts.
  assert (forall u, valid s u -> u <> t -> tget (tset t ts σ.(ra_temps)) u = ts_of σ u) as Hu.
  { intros u Vu Hu. rewrite (tget_set s), (proj2 (Z.eqb_neq u t)) by (done || apply Hl). done. }
  assert (tget (tset t ts σ.(ra_temps)) t = ts) as Ht by (rewrite (tget_set s), Z.eqb_refl by (done || apply Hl); done).
  split; [done|split; [|split]].
  - split; [done|by apply placed_same|]. intros u Vu. cbn [ra_temps]. destruct (Z.eq_dec u t) as [->|Hne].
    + rewrite Ht. intros _. cbn. rewrite Z.eqb_refl. by apply live_killed, Hv.
    + rewrite Hu by done. intros Hfu. eapply (live_except t f); [apply kill_except|done|by apply Hv].
  - split; cbn [ra_temps]; [done|exact Ho].
  - intros X v. split; [by apply slots_le_same|constructor|]. intros Hw h Hval u Vu Hx. cbn [ra_temps exec_moves fold_left].
    destruct (Z.eq_dec u t) as [->|Hne]; [rewrite Ht; apply val_killed; auto|].
    rewrite Hu, (used_except t f) by (done || apply kill_except). by apply Hval.
Qed.

(** Fixed temporaries do not die. *)
Lemma wp_dead_fixed f σ t :
  ra_inv f σ -> valid s t -> (ts_of σ t).(fixed_reg) = true ->
  wp (temp_dead s t)
    (fun _ σ' os => os = [] /\ ra_inv (kill t f) σ' /\ buried t σ σ' /\
       forall X v, moved σ σ' [] (values X f v σ) (values X (kill t f) v σ')) σ.
Proof.
  intros [Hl Hp Hv] Vt Hf. unfold temp_dead. apply wp_bind, wp_get_ts; [by apply bounds_temp|].
  rewrite Hf. cbn [negb when]. apply wp_ret. split; [done|]. split; [|split].
  - split; [done|done|]. intros u Vu Hu. eapply (live_except t f); [apply kill_except|congruence|by apply Hv].
  - split; [done|]. intros r Hr. destruct (Z.eqb_spec (owner σ r) t) as [E|]; [|done]. exfalso.
    destruct (ln_owner _ Hl r Hr) as (_ & Hf' & _); [unfold valid in Vt; lia|]. congruence.
  - intros X v. apply moved_refl. intros h Hval u Vu Hu. destruct (Z.eq_dec u t) as [->|Hne].
    + destruct (Hval t Vt Hu) as [V1 V2 V3 V4]. destruct (ln_fixed _ Hl t Vt Hf) as (_ & Hr & _). split; try done. congruence.
    + rewrite (used_except t f) by (done || apply kill_except). by apply Hval.
Qed.

Lemma wp_bury f σ t :
  ra_inv f σ -> valid s t ->
  wp (temp_dead s t)
    (fun _ σ' os => os = [] /\ ra_inv (kill t f) σ' /\ buried t σ σ' /\
       forall X v, moved σ σ' [] (values X f v σ) (values X (kill t f) v σ')) σ.
Proof.
  intros Hinv Vt. destruct ((ts_of σ t).(fixed_reg)) eqn:Hf; [by apply wp_dead_fixed|by apply wp_dead].
Qed.

(** ** Facts that say the same *)

Definition same_facts (f f' : facts) : Prop := forall t, valid s t -> facts_at f' t = facts_at f t.

Lemma inv_same f f' σ : same_facts f f' -> ra_inv f σ -> ra_inv f' σ.
Proof.
  intros He [Hl Hp Hv]. split; [done|done|]. intros t Vt Hf. specialize (Hv t Vt Hf). specialize (He t Vt).
  unfold facts_at in He. by injection He as -> -> -> ->.
Qed.

Lemma values_same f f' X v σ h : same_facts f f' -> values X f v σ h -> values X f' v σ h.
Proof.
  intros He Hv t Vt Ht. specialize (He t Vt). unfold facts_at in He. injection He as E1 E2 _ _.
  unfold used_by. rewrite E1, E2. by apply Hv.
Qed.
End Invariant.
