(* ===== verification/LinearCode.v ===== *)
(** * What the allocated code means

    The register allocator turns every operation of a block into calls of the back
    end: moves between registers and memory around the operation, whose operands are
    registers and constants.  This is the meaning of such code as a transition
    system on the registers and the memory of the host; operations do the same to
    their operands as in the intermediate representation, and the additions of double
    words write their lower result before they read the upper words.  Memory is addressed by a
    base register and an offset, and different places do not overlap. *)

From S2P Require Import Prelude QtraceDefs X86 TcgOut TcgEnc TcgEmit TcgCond TcgOpDefs TcgSem TcgIR.
From S2P Require Import Optimize OptCopies OptSound Liveness LivenessSound InstrCall Prologue RegAlloc RegAllocLogic.

Record hconfig (W : Type) := mkHc { hip : nat; host : hstate; hworld : W }.
Arguments mkHc {W}. Arguments hip {W}. Arguments host {W}. Arguments hworld {W}.

(** ** Calls *)

(** The part of the stack for parameters, and parameter [k] of it. *)
Definition args_area (ofs : Z) : Prop := 0 <= ofs < TCG_STATIC_CALL_ARGS_SIZE.
Definition param_offset (k : nat) : Z := TCG_TARGET_CALL_STACK_OFFSET + 8 * Z.of_nat k.

(** Where the callee finds parameter [j]. *)
Definition param_value (h : hstate) (j : nat) : Z :=
  if (j <? 6)%nat then hregs h (iarg_reg j) else hmem h (TCG_REG_CALL_STACK, param_offset (j - 6)).

(** The registers that a call may overwrite have any value. *)
Definition overwritten (h h' : hstate) : Prop :=
  (forall k, hmem h' k = hmem h k) /\
  forall r, Z.testbit tcg_target_call_clobber_regs r = false -> hregs h' r = hregs h r.

Section Linear.
Context {W : Type} (E : environment W) (s : tcg_temps) (gl : list ra_temp).

(** ** Globals *)

Definition global_place (t : Z) : Z * Z := ((tget gl t).(mem_reg), (tget gl t).(mem_offset)).
Definition global_value (h : hstate) (t : Z) : Z :=
  wrap (tsize s t) (if (tget gl t).(fixed_reg) then hregs h (tget gl t).(reg) else hmem h (global_place t)).
Definition hglobals (h : hstate) : list Z :=
  (fun k => global_value h (Z.of_nat k)) <$> seq 0 (Z.to_nat s.(nb_globals)).

(** A helper has written the globals [g]. *)
Definition globals_written (g : list Z) (h h' : hstate) : Prop :=
  length g = Z.to_nat s.(nb_globals) /\ hregs h' = hregs h /\
  (forall t, 0 <= t < s.(nb_globals) -> global_value h' t = wrap (tsize s t) (tget g t)) /\
  forall k, (forall t, 0 <= t < s.(nb_globals) -> (tget gl t).(fixed_reg) = false -> global_place t <> k) ->
    hmem h' k = hmem h k.

(** ** Operations *)

Definition operand (na : list Z) (ca : list bool) (h : hstate) (k : nat) : Z :=
  if (ca !!! k : bool) then arg na k else hregs h (arg na k).

(** Inputs are read at the width of the temporaries that they stand for. *)
Definition op_inputs (i : insn) (na : list Z) (ca : list bool) (h : hstate) : list Z :=
  (fun k => wrap (tsize s (arg i.(args) k)) (operand na ca h k)) <$> seq (nb_oargs i.(opc)) (nb_iargs i.(opc)).
Definition op_constants (i : insn) (na : list Z) : list Z := drop (nb_oargs i.(opc) + nb_iargs i.(opc)) na.

Definition call_inputs (i : insn) (na : list Z) (ca : list bool) (h : hstate) : list Z :=
  imap (fun j t => wrap (tsize s t) (if (j =? length (iargs i) - 1)%nat then operand na ca h 0 else param_value h j))
    (iargs i).

Fixpoint hwrites (ts regs : list Z) (rs : list (option Z)) (h h' : hstate) : Prop :=
  match ts, regs, rs with
  | [], _, [] => h' = h
  | t :: ts, r :: regs, x :: rs =>
      exists u, (forall y, x = Some y -> wrap (tsize s t) u = wrap (tsize s t) y) /\
        hwrites ts regs rs (set_hreg r u h) h'
  | _, _, _ => False
  end.

Definition condition (op : TCGOpcode) (xs cs : list Z) : option bool :=
  match op, xs, cs with
  | INDEX_op_brcond t, [x; y], [c; _] =>
      c ← cond_of c; Some (eval_cond c (wsize t) (wrap (wsize t) x) (wrap (wsize t) y))
  | _, _, _ => None
  end.

(** add2 and sub2 are two instructions.  The first adds or subtracts the lower words
    and writes the lower result; the second takes the upper words, with the carry,
    from the registers as they are then. *)
Definition two_steps (op : TCGOpcode) : bool :=
  match op with INDEX_op_add2 _ | INDEX_op_sub2 _ => true | _ => false end.
Definition late_inputs (i : insn) (na : list Z) (ca : list bool) (h h1 : hstate) : list Z :=
  (fun k => wrap (tsize s (arg i.(args) k)) (operand na ca (if Nat.even k then h else h1) k)) <$>
    seq (nb_oargs i.(opc)) (nb_iargs i.(opc)).

(** One operation: where it jumps to, if it does. *)
Inductive op_step (label : Z -> option nat) (i : insn) (na : list Z) (ca : list bool)
    : hstate -> W -> option nat -> hstate -> W -> Prop :=
  | os_value h w rs h' :
      two_steps i.(opc) = false ->
      eval_op i.(opc) (op_constants i na) (op_inputs i na ca h) = Some rs ->
      hwrites (oargs i) na rs h h' ->
      op_step label i na ca h w None h' w
  | os_two_steps h w rs h1 rs1 h' :
      two_steps i.(opc) = true ->
      eval_op i.(opc) (op_constants i na) (op_inputs i na ca h) = Some rs ->
      hwrites (take 1 (oargs i)) na (take 1 rs) h h1 ->
      eval_op i.(opc) (op_constants i na) (late_inputs i na ca h h1) = Some rs1 ->
      hwrites (drop 1 (oargs i)) (drop 1 na) (drop 1 rs1) h1 h' ->
      op_step label i na ca h w None h' w
  | os_br h w l n' :
      i.(opc) = INDEX_op_br -> op_constants i na = [l] -> label l = Some n' ->
      op_step label i na ca h w (Some n') h w
  | os_brcond h w b n' :
      condition i.(opc) (op_inputs i na ca h) (op_constants i na) = Some b ->
      (if b : bool then exists m, label (op_constants i na !!! 1%nat) = Some m /\ n' = Some m else n' = None) ->
      op_step label i na ca h w n' h w
  | os_call h w us g w' h1 h2 h' :
      i.(opc) = INDEX_op_call ->
      E.(helper) (length (oargs i)) (cargs i) (call_inputs i na ca h)
        (if testb (call_flags i) TCG_CALL_NO_READ_GLOBALS then [] else hglobals h) w us g w' ->
      overwritten h h1 ->
      (if testb (call_flags i) (Z.lor TCG_CALL_NO_READ_GLOBALS TCG_CALL_NO_WRITE_GLOBALS)
       then h2 = h1 else globals_written g h1 h2) ->
      hwrites (oargs i) tcg_target_call_oarg_regs (Some <$> us) h2 h' ->
      op_step label i na ca h w None h' w'
  | os_primitive h w us w' h1 h' :
      is_primitive i.(opc) = true ->
      E.(primitive) i.(opc) (op_constants i na) (op_inputs i na ca h)
        (if reads_globals i.(opc) then hglobals h else []) w us w' ->
      (if testb (op_flags i.(opc)) TCG_OPF_CALL_CLOBBER then overwritten h h1 else h1 = h) ->
      hwrites (oargs i) na (Some <$> us) h1 h' ->
      op_step label i na ca h w None h' w'.

(** ** Blocks of code *)

Local Abbreviation moves os := (Forall (fun o => is_move o = true) os).

(** The code for one operation of the block, which is at place [n]. *)
Inductive block_step (label : Z -> option nat) (os : list lop) (n : nat) : hstate -> W -> hconfig W -> Prop :=
  | bs_moves h w : moves os -> block_step label os n h w (mkHc (S n) (exec_moves os h) w)
  | bs_label h w l : os = [LLabel l] -> block_step label os n h w (mkHc (S n) h w)
  | bs_next os1 i na ca os2 h w h' w' :
      os = os1 ++ LOp i na ca :: os2 -> moves os1 -> moves os2 ->
      op_step label i na ca (exec_moves os1 h) w None h' w' ->
      block_step label os n h w (mkHc (S n) (exec_moves os2 h') w')
  | bs_jump os1 i na ca os2 h w n' h' w' :
      os = os1 ++ LOp i na ca :: os2 -> moves os1 -> moves os2 ->
      op_step label i na ca (exec_moves os1 h) w (Some n') h' w' ->
      block_step label os n h w (mkHc n' h' w').

Definition is_label (l : Z) (o : lop) : bool := match o with LLabel l' => l' =? l | _ => false end.

Fixpoint find_llabel (oss : list (list lop)) (l : Z) : option nat :=
  match oss with
  | [] => None
  | os :: oss => if existsb (is_label l) os then Some 1%nat else S <$> find_llabel oss l
  end.

Definition lin_step (oss : list (list lop)) (c c' : hconfig W) : Prop :=
  exists os, oss !! c.(hip) = Some os /\ block_step (find_llabel oss) os c.(hip) c.(host) c.(hworld) c'.

(** The block is at an exit; [h] is the host there. *)
Definition lin_exit (oss : list (list lop)) (c : hconfig W) (a : list Z) (h : hstate) : Prop :=
  exists os1 na ca os2, oss !! c.(hip) = Some (os1 ++ LOp (mkInsn INDEX_op_exit_tb a) na ca :: os2) /\
    moves os1 /\ na = a /\ h = exec_moves os1 c.(host).
End Linear.
