(* ===== verification/RegAllocSpill.v ===== *)
(** * Stores of the register allocator

    Apart from moves of operands, the code that the allocator adds stores registers
    to the places of the temporaries that are in them: nothing else in memory
    changes, and a place that already has the value of its temporary is not
    written. *)

From S2P Require Import Prelude QtraceDefs X86 TcgOut TcgEnc TcgEmit TcgCond TcgOpDefs TcgSem TcgIR.
From S2P Require Import Optimize OptCopies OptSound Liveness LivenessSound InstrCall Prologue RegAlloc RegAllocLogic.

Section Spills.
Context (s : tcg_temps) (frame : tcg_frame).

Local Abbreviation ts_of σ t := (tget (ra_temps σ) t).

(** A store to the place of a temporary. *)
Definition spill (σ : ra_state) (o : lop) : Prop :=
  exists ty r t, o = LSt ty r (ts_of σ t).(mem_reg) (ts_of σ t).(mem_offset) /\ valid s t /\
    (ts_of σ t).(fixed_reg) = false /\ (ts_of σ t).(mem_allocated) = true.

Definition whole (σ : ra_state) : Prop := length σ.(ra_temps) = length s.(temps).

(** All that [m] emits are such stores. *)
Definition spills {A} (m : ra A) : Prop :=
  forall σ a σ' os, whole σ -> m σ = Ok (a, σ', os) -> whole σ' /\ slots_le s σ σ' /\ Forall (spill σ') os.

Lemma spill_le σ σ' o : slots_le s σ σ' -> spill σ o -> spill σ' o.
Proof.
  intros Hle (ty & r & t & -> & Vt & Hf & Ha). destruct (Hle t Vt) as [Ef Hs]. destruct (Hs Ha) as (Ha' & Er & Eo).
  exists ty, r, t. by rewrite Er, Eo, Ef.
Qed.

Lemma spills_none σ : whole σ -> whole σ /\ slots_le s σ σ /\ Forall (spill σ) [].
Proof. intros Hw. split; [done|]. split; [apply slots_le_refl|constructor]. Qed.

Lemma spills_ret {A} (a : A) : spills (mret a).
Proof. intros σ b σ' os Hw [= <- <- <-]. by apply spills_none. Qed.

Lemma bind_inv {A B} (m : ra A) (g : A -> ra B) σ b σ' os :
  (m ≫= g) σ = Ok (b, σ', os) ->
  exists a σ1 os1 os2, m σ = Ok (a, σ1, os1) /\ g a σ1 = Ok (b, σ', os2) /\ os = os1 ++ os2.
Proof.
  unfold mbind, ra_bind. intros E. destruct (m σ) as [[[a σ1] os1]|]; [|done]. cbn in E.
  destruct (g a σ1) as [[[b' σ2] os2]|] eqn:E2; [|done]. cbn in E. injection E as -> -> <-.
  by exists a, σ1, os1, os2.
Qed.

Lemma get_ts_inv t σ ts σ' os :
  get_ts t σ = Ok (ts, σ', os) -> in_bounds σ.(ra_temps) t = true /\ ts = ts_of σ t /\ σ' = σ /\ os = [].
Proof. unfold get_ts. destruct (in_bounds _ _); [|done]. by intros [= <- <- <-]. Qed.

Lemma spills_after σ σ1 σ' os1 os2 :
  slots_le s σ σ1 -> Forall (spill σ1) os1 -> whole σ' /\ slots_le s σ1 σ' /\ Forall (spill σ') os2 ->
  whole σ' /\ slots_le s σ σ' /\ Forall (spill σ') (os1 ++ os2).
Proof.
  intros S1 F1 (Hw & S2 & F2). split; [done|]. split; [by eapply slots_le_trans|]. apply Forall_app. split; [|done].
  eapply Forall_impl; [exact F1|]. intros o. by apply spill_le.
Qed.

Lemma spills_bind {A B} (m : ra A) (g : A -> ra B) : spills m -> (forall a, spills (g a)) -> spills (m ≫= g).
Proof.
  intros Hm Hg σ b σ' os Hw (a & σ1 & os1 & os2 & E1 & E2 & ->)%bind_inv.
  destruct (Hm _ _ _ _ Hw E1) as (Hw1 & S1 & F1). eapply spills_after; [done|done|]. by eapply Hg.
Qed.

Lemma spills_when b m : spills m -> spills (when b m).
Proof. intros H. destruct b; [done|apply spills_ret]. Qed.

Lemma spills_assert b : spills (ra_assert b).
Proof. intros σ a σ' os Hw E. unfold ra_assert in E. destruct b; [|done]. injection E as <- <- <-. by apply spills_none. Qed.

Lemma spills_get_ts t : spills (get_ts t).
Proof.
  intros σ a σ' os Hw E. unfold get_ts in E. destruct (in_bounds _ _); [|done]. injection E as <- <- <-. by apply spills_none.
Qed.

Lemma spills_get_temp_of r : spills (get_temp_of r).
Proof.
  intros σ a σ' os Hw E. unfold get_temp_of in E. destruct (in_bounds _ _); [|done]. injection E as <- <- <-. by apply spills_none.
Qed.

Lemma spills_set_temp_of r t : spills (set_temp_of r t).
Proof.
  intros σ a σ' os Hw E. unfold set_temp_of in E. destruct (in_bounds _ _); [|done]. injection E as <- <- <-.
  split; [done|]. split; [done|constructor].
Qed.

Lemma bounds_valid σ t : whole σ -> in_bounds σ.(ra_temps) t = true -> valid s t.
Proof. intros Hw Hb. unfold whole, in_bounds, valid, nb_temps in *. lia. Qed.

Lemma slots_update σ t ts rt c :
  whole σ -> valid s t -> same_slot (ts_of σ t) ts -> slots_le s σ (mkState (tset t ts σ.(ra_temps)) rt c).
Proof.
  intros Hw Vt (E1 & E2 & E3 & E4) u Vu. cbn [ra_temps]. rewrite (tget_set s) by done.
  destruct (Z.eqb_spec u t) as [->|]; [|done]. by rewrite E1, E2, E3, E4.
Qed.

Lemma spills_upd_ts t g : (forall ts, same_slot ts (g ts)) -> spills (upd_ts t g).
Proof.
  intros Hg σ a σ' os Hw E. unfold upd_ts in E. destruct (in_bounds _ _) eqn:Hb; [|done]. injection E as <- <- <-.
  split; [unfold whole; cbn; by rewrite length_tset|]. split; [|constructor].
  apply slots_update; [done|by eapply bounds_valid|apply Hg].
Qed.

Lemma allocate_inv t σ a σ' os :
  temp_allocate_frame frame t σ = Ok (a, σ', os) ->
  exists ofs, σ'.(ra_temps) = tset t (set_slot frame.(frame_reg) ofs (ts_of σ t)) σ.(ra_temps) /\ os = [].
Proof.
  unfold temp_allocate_frame, upd_ts. cbv zeta. set (ofs := Z.land _ _). destruct (_ <? _); [done|]. cbn [ra_temps].
  destruct (in_bounds _ _); [|done]. intros [= <- <- <-]. by exists ofs.
Qed.

(** The place exists when the store is emitted. *)
Lemma place_inv σ t ty r a σ' os :
  whole σ -> in_bounds σ.(ra_temps) t = true -> (ts_of σ t).(fixed_reg) = false ->
  (when (negb (ts_of σ t).(mem_allocated)) (temp_allocate_frame frame t) ;;
   ts ← get_ts t; ra_emit (LSt ty r ts.(mem_reg) ts.(mem_offset))) σ = Ok (a, σ', os) ->
  whole σ' /\ slots_le s σ σ' /\ (ts_of σ' t).(fixed_reg) = false /\ (ts_of σ' t).(mem_allocated) = true /\
  os = [LSt ty r (ts_of σ' t).(mem_reg) (ts_of σ' t).(mem_offset)].
Proof.
  intros Hw Hb Hf (x & σ1 & os1 & os2 & E1 & E2 & ->)%bind_inv. assert (valid s t) as Vt by (by eapply bounds_valid).
  apply bind_inv in E2 as (ts & σ2 & os3 & os4 & (_ & -> & -> & ->)%get_ts_inv & [= <- <- <-] & ->).
  destruct ((ts_of σ t).(mem_allocated)) eqn:Ha; cbn [negb when] in E1; [by injection E1 as <- <- <-|].
  apply allocate_inv in E1 as (ofs & Et & ->). unfold whole. rewrite Et, length_tset. split; [done|].
  split; [|by rewrite (tget_set s), Z.eqb_refl by done]. intros u Vu. rewrite Et, (tget_set s) by done.
  destruct (Z.eqb_spec u t) as [->|]; [|done]. cbn. by rewrite Ha.
Qed.

(** A store to the place of [t], which did not have its value. *)
Definition stores_of (σ : ra_state) (t : Z) (σ' : ra_state) (o : lop) : Prop :=
  exists ty r, o = LSt ty r (ts_of σ' t).(mem_reg) (ts_of σ' t).(mem_offset) /\ valid s t /\
    (ts_of σ' t).(fixed_reg) = false /\ (ts_of σ' t).(mem_allocated) = true /\ (ts_of σ t).(mem_coherent) = false.

Lemma stores_of_spill σ t σ' os : Forall (stores_of σ t σ') os -> Forall (spill σ') os.
Proof.
  intros H. eapply Forall_impl; [exact H|]. intros o (ty & r & -> & Vt & Hf & Ha & _). by exists ty, r, t.
Qed.

Lemma stores_of_le σ t σ1 σ2 os :
  slots_le s σ1 σ2 -> Forall (stores_of σ t σ1) os -> Forall (stores_of σ t σ2) os.
Proof.
  intros Hle H. eapply Forall_impl; [exact H|]. intros o (ty & r & -> & Vt & Hf & Ha & Hc).
  destruct (Hle t Vt) as [Ef Hs]. destruct (Hs Ha) as (Ha' & Er & Eo). exists ty, r. by rewrite Er, Eo, Ef.
Qed.

Local Abbreviation owner σ r := (tget (reg_to_temp σ) r).

Lemma upd_inv t g σ a σ' os :
  upd_ts t g σ = Ok (a, σ', os) -> os = [] /\ σ' = with_temp t (g (ts_of σ t)) σ /\ in_bounds σ.(ra_temps) t = true.
Proof. unfold upd_ts. destruct (in_bounds _ _); [|done]. by intros [= _ <- <-]. Qed.

Lemma owner_inv r σ t σ' os :
  get_temp_of r σ = Ok (t, σ', os) -> t = owner σ r /\ σ' = σ /\ os = [].
Proof. unfold get_temp_of. destruct (in_bounds _ _); [|done]. by intros [= <- <- <-]. Qed.

(** Only the temporary in the register is stored. *)
Lemma sync_inv r σ a σ' os :
  whole σ -> tcg_reg_sync s frame r σ = Ok (a, σ', os) ->
  whole σ' /\ slots_le s σ σ' /\ Forall (stores_of σ (owner σ r) σ') os.
Proof.
  intros Hw E. unfold tcg_reg_sync in E. apply bind_inv in E as (t & σ0 & os0 & os1 & (-> & -> & ->)%owner_inv & E & ->).
  set (t := owner σ r) in *. apply bind_inv in E as (ts & σ0 & os0 & os2 & (Hb & -> & -> & ->)%get_ts_inv & E & ->).
  apply bind_inv in E as (x & σ0 & os0 & os3 & E0 & E & ->). unfold ra_assert in E0. destruct (is_val _ _); [|done].
  injection E0 as <- <- <-. apply bind_inv in E as (y & σ1 & os4 & os5 & E1 & E2 & ->). cbn [app].
  assert (valid s t) as Vt by (by eapply bounds_valid).
  destruct (spills_upd_ts t (set_mem_coherent true)) with (3 := E2) as (Hw2 & S2 & _); [done|..].
  { destruct (_ && _) eqn:Hc; cbn [when] in E1; [|by injection E1 as <- <- <-].
    apply andb_true_iff in Hc as [_ Hf%negb_true_iff]. by destruct (place_inv σ t _ r _ _ _ Hw Hb Hf E1). }
  apply upd_inv in E2 as (-> & _ & _). rewrite app_nil_r. split; [done|].
  destruct (negb (mem_coherent _) && negb (fixed_reg _)) eqn:Hc; cbn [when] in E1.
  - apply andb_true_iff in Hc as [Hc%negb_true_iff Hf%negb_true_iff].
    destruct (place_inv σ t _ r _ _ _ Hw Hb Hf E1) as (Hw1 & S1 & Hf1 & Ha1 & ->).
    split; [by eapply slots_le_trans|]. eapply stores_of_le; [exact S2|]. repeat constructor. by eexists _, r.
  - injection E1 as <- <- <-. by split.
Qed.

Lemma spills_sync r : spills (tcg_reg_sync s frame r).
Proof. intros σ a σ' os Hw E. destruct (sync_inv r σ a σ' os Hw E) as (H1 & H2 & H3). eauto using stores_of_spill. Qed.

Lemma spills_free r : spills (tcg_reg_free s frame r).
Proof.
  unfold tcg_reg_free. apply spills_bind; [apply spills_get_temp_of|]. intros t. apply spills_when.
  apply spills_bind; [apply spills_sync|]. intros _. apply spills_bind; [by apply spills_upd_ts|]. intros _.
  apply spills_set_temp_of.
Qed.

Lemma spills_alloc reg1 reg2 : spills (tcg_reg_alloc s frame reg1 reg2).
Proof.
  intros σ a σ' os Hw E. unfold tcg_reg_alloc in E. cbv zeta in E.
  destruct (List.find _ _); [injection E as <- <- <-; by apply spills_none|]. destruct (List.find _ _) as [r|]; [|done].
  revert E. apply (spills_bind (tcg_reg_free s frame r) (fun _ => mret r)); [apply spills_free| |done].
  intros _. apply spills_ret.
Qed.

Lemma spills_each {A} (g : A -> ra unit) l : (forall x, spills (g x)) -> spills (ra_each g l).
Proof.
  intros Hg. induction l as [|x l IH]; cbn [ra_each]; [apply spills_ret|]. apply spills_bind; [apply Hg|done].
Qed.

(** Other places keep their values. *)
Lemma spilled_mem M σ os k h :
  Forall (spill σ) os -> within s M σ -> (forall t, valid s t -> M t <> Some k) ->
  hmem (exec_moves os h) k = hmem h k.
Proof.
  intros Hs Hw Hk. revert h. induction Hs as [|o os Ho _ IH]; intros h; [done|].
  cbn [exec_moves fold_left]. fold (exec_moves os (exec_move h o)). rewrite IH.
  destruct Ho as (ty & r & t & -> & Vt & Hf & Ha). cbn [exec_move]. apply hmem_set_other. intros ->.
  apply (Hk t Vt). by apply Hw.
Qed.

(** Both in one. *)
Lemma wp_spills {A} (m : ra A) Q σ :
  spills m -> whole σ -> wp m Q σ -> wp m (fun a σ' os => Q a σ' os /\ Forall (spill σ') os) σ.
Proof. intros Hm Hw (a & σ' & os & E & HQ). exists a, σ', os. split; [done|]. split; [done|]. by eapply Hm. Qed.
(** ** Choosing a register *)

Lemma free_stores r σ a σ' os :
  whole σ -> tcg_reg_free s frame r σ = Ok (a, σ', os) -> Forall (stores_of σ (owner σ r) σ') os.
Proof.
  intros Hw E. unfold tcg_reg_free in E. apply bind_inv in E as (t & σ0 & os0 & os1 & (-> & -> & ->)%owner_inv & E & ->).
  destruct (negb _); cbn [when] in E; [|by injection E as _ _ <-].
  apply bind_inv in E as (x & σ1 & os2 & os3 & E1 & E & ->). destruct (sync_inv r σ _ _ _ Hw E1) as (Hw1 & S1 & F1).
  apply bind_inv in E as (y & σ2 & os4 & os5 & E2 & E3 & ->).
  destruct (spills_upd_ts (owner σ r) (set_val_type TEMP_VAL_MEM)) with (3 := E2) as (Hw2 & S2 & _); [done|done|].
  apply upd_inv in E2 as (-> & _ & _). destruct (spills_set_temp_of _ _ _ _ _ _ Hw2 E3) as (_ & S3 & _).
  assert (os5 = []) as -> by (unfold set_temp_of in E3; destruct (in_bounds _ _); [by injection E3 as _ _ <-|done]).
  cbn [app]. rewrite app_nil_r. eapply stores_of_le; [|exact F1]. by eapply slots_le_trans.
Qed.

Lemma alloc_stores reg1 reg2 σ r σ' os :
  whole σ -> tcg_reg_alloc s frame reg1 reg2 σ = Ok (r, σ', os) -> Forall (stores_of σ (owner σ r) σ') os.
Proof.
  intros Hw E. unfold tcg_reg_alloc in E. cbv zeta in E.
  destruct (List.find _ _); [by injection E as _ _ <-|]. destruct (List.find _ _) as [r'|]; [|done].
  apply bind_inv in E as (x & σ1 & os1 & os2 & E1 & [= <- <- <-] & ->). rewrite app_nil_r. by eapply free_stores.
Qed.

Lemma wp_alloc_stores reg1 reg2 Q σ :
  whole σ -> wp (tcg_reg_alloc s frame reg1 reg2) Q σ ->
  wp (tcg_reg_alloc s frame reg1 reg2) (fun r σ' os => Q r σ' os /\ Forall (stores_of σ (owner σ r) σ') os) σ.
Proof. intros Hw (a & σ' & os & E & HQ). exists a, σ', os. split; [done|]. split; [done|]. by eapply alloc_stores. Qed.
End Spills.
