(* ===== verification/RegAllocOps.v ===== *)
(** * Operands

    How the register allocator serves the operands of one operation: the inputs
    are in registers that the table allows or are constants, they have their
    values, and the registers that the operation overwrites belong to nobody else. *)

From S2P Require Import Prelude QtraceDefs X86 TcgOut TcgEnc TcgEmit TcgCond TcgOpDefs TcgSem TcgIR.
From S2P Require Import Optimize OptCopies OptSound Liveness LivenessSound InstrCall Prologue RegAlloc RegAllocLogic.

Section Operands.
Context (s : tcg_temps) (frame : tcg_frame) (reserved_regs : Z) (M : Z -> option (Z * Z)).
Context {Hset : setting s frame reserved_regs M}.

Local Abbreviation ts_of σ t := (tget (ra_temps σ) t).
Local Abbreviation owner σ r := (tget (reg_to_temp σ) r).
Local Abbreviation linked := (linked s reserved_regs).
Local Abbreviation ra_inv := (ra_inv s frame reserved_regs).
Local Abbreviation values := (values s M).
Local Abbreviation moved := (moved s M).
Local Abbreviation live f t ts := (live_ts s (f_dead f t) (f_mem f t) (f_written f t) (f_const f t) t ts).

(** ** A temporary takes a register *)

Definition in_reg (r : Z) (c : bool) (ts : ra_temp) : ra_temp :=
  set_mem_coherent c (set_ts_reg r (set_val_type TEMP_VAL_REG ts)).
Definition taken_by (t r : Z) (c : bool) (σ : ra_state) : ra_state :=
  with_owner r t (with_temp t (in_reg r c (ts_of σ t)) σ).

Lemma tset_tset {A} t (x y : A) l : tset t x (tset t y l) = tset t x l.
Proof. apply list_insert_insert_eq. Qed.

(** A sequence of updates of [t]. *)
Lemma updates σ t : linked σ -> valid s t ->
  in_bounds σ.(ra_temps) t = true /\ (forall ts, in_bounds (tset t ts σ.(ra_temps)) t = true) /\
  forall ts, tget (tset t ts σ.(ra_temps)) t = ts.
Proof.
  intros Hl Vt. assert (in_bounds σ.(ra_temps) t = true) as Hb by (by eapply bounds_temp). split_and!; [done|..].
  - intros ts. unfold in_bounds in *. by rewrite length_tset.
  - intros ts. rewrite (tget_set s), Z.eqb_refl by (done || apply Hl). done.
Qed.

Lemma wp_take σ t r c Q :
  linked σ -> valid s t -> real_reg r -> Q tt (taken_by t r c σ) [] -> wp (take_reg t r c) Q σ.
Proof.
  intros Hl Vt Hr HQ. unfold take_reg.
  destruct (updates σ t Hl Vt) as (Hb & Hb' & Et).
  apply wp_bind, wp_upd_ts; [done|]. apply wp_bind, wp_upd_ts; [apply Hb'|]. unfold with_temp; cbn [ra_temps].
  rewrite Et, tset_tset. apply wp_bind, wp_upd_ts; [apply Hb'|]. unfold with_temp; cbn [ra_temps]. rewrite Et, tset_tset.
  apply wp_set_temp_of; [cbn; by eapply bounds_reg|]. exact HQ.
Qed.

Lemma ts_taken t r c σ u :
  linked σ -> valid s t -> valid s u ->
  ts_of (taken_by t r c σ) u = if u =? t then in_reg r c (ts_of σ t) else ts_of σ u.
Proof. intros Hl Vt Vu. cbn. apply (tget_set s); [apply Hl|done|done]. Qed.

Lemma owner_taken t r c σ r' :
  linked σ -> real_reg r -> real_reg r' -> owner (taken_by t r c σ) r' = if r' =? r then t else owner σ r'.
Proof. intros Hl Hr Hr'. cbn. apply owner_set; [apply Hl|done|done]. Qed.

Lemma linked_taken t r c σ :
  linked σ -> valid s t -> (ts_of σ t).(fixed_reg) = false -> (ts_of σ t).(val_type) <> TEMP_VAL_REG ->
  real_reg r -> owner σ r = -1 -> Z.testbit reserved_regs r = false -> linked (taken_by t r c σ).
Proof.
  intros Hl Vt Hf Hv Hr Ho Hres. apply linked_change; try done.
  - cbn. rewrite length_tset. apply Hl.
  - cbn [with_temp reg_to_temp]. intros r' Hr'. rewrite owner_set by (done || apply Hl).
    destruct (Z.eqb_spec r' r) as [->|Hne]; [right; split; [by right|right; done]|].
    left. split; [done|]. intros E. destruct (ln_owner _ _ _ Hl r' Hr') as (_ & _ & Hv' & _); [unfold valid in Vt; lia|].
    by rewrite E in Hv'.
  - intros _. split; [done|]. cbn [with_temp reg_to_temp in_reg set_mem_coherent set_ts_reg reg].
    rewrite owner_set, Z.eqb_refl by (done || apply Hl). done.
Qed.

Lemma inv_taken f f' t r c σ :
  ra_inv f σ -> except t f f' -> valid s t -> (ts_of σ t).(fixed_reg) = false ->
  (ts_of σ t).(val_type) <> TEMP_VAL_REG -> real_reg r -> owner σ r = -1 -> Z.testbit reserved_regs r = false ->
  live f' t (in_reg r c (ts_of σ t)) -> ra_inv f' (taken_by t r c σ).
Proof.
  intros [Hl Hp Hv] He Vt Hf Hnr Hr Ho Hres Hlt. split.
  - by apply linked_taken.
  - by apply (placed_same s frame reserved_regs σ).
  - intros u Vu. rewrite ts_taken by done. destruct (Z.eqb_spec u t) as [->|Hu]; [done|].
    intros Hfu. eapply live_except; [exact He|done|by apply Hv].
Qed.

Lemma slots_taken t r c σ : linked σ -> valid s t -> slots_le s σ (taken_by t r c σ).
Proof. intros Hl Vt. by eapply slots_le_same. Qed.

(** A register that belongs to nobody can be set. *)
Lemma values_set_reg X f v σ r x h :
  linked σ -> real_reg r -> owner σ r = -1 -> Z.testbit reserved_regs r = false ->
  values X f v σ h -> values X f v σ (set_hreg r x h).
Proof.
  intros Hl Hr Ho Hres Hval t Vt Ht. eapply val_ts_host; [by apply Hval| |done].
  intros Hv. apply hregs_set_other. intros E. destruct ((ts_of σ t).(fixed_reg)) eqn:Hf.
  - destruct (ln_fixed _ _ _ Hl t Vt Hf) as (_ & _ & _ & Hb & _). rewrite E in Hb. congruence.
  - destruct (ln_reg _ _ _ Hl t Vt Hf Hv) as [_ Eo]. rewrite E, Ho in Eo. unfold valid in Vt. lia.
Qed.

Lemma values_taken X f f' v t r c σ h :
  linked σ -> valid s t -> except t f f' ->
  (t ∉ X -> val_ts s M (used_by f' t) v h t (in_reg r c (ts_of σ t))) ->
  values (t :: X) f v σ h -> values X f' v (taken_by t r c σ) h.
Proof.
  intros Hl Vt He Ht Hval u Vu Hu. rewrite ts_taken by done. destruct (Z.eqb_spec u t) as [->|Hne]; [by apply Ht|].
  rewrite (used_except t f) by done. apply Hval; [done|]. by apply not_elem_of_cons.
Qed.

Lemma values_weaken X Y f v σ h : X ⊆ Y -> values X f v σ h -> values Y f v σ h.
Proof. intros Hsub Hval t Vt Ht. apply Hval; [done|]. intros H. by apply Ht, Hsub. Qed.

(** ** Inputs *)

Section Inputs.
Context (a : list Z) (cts : list TCGArgConstraint) (da : Z) (f : facts).

Local Abbreviation tk k := (arg a k).
Local Abbreviation ctk k := (default (mkCt 0 0 0) (cts !! k)).
Local Abbreviation is_alias k := (testb (ctk k).(ct) TCG_CT_IALIAS).

Definition is_const (x : operands) (k : nat) : bool := x.(const_args) !!! k.

(** The operand [k] fits its constraint; its register holds its temporary or nothing,
    and that of an aliased operand is not used for anything that is still needed. *)
Record operand_at (x : operands) (σ : ra_state) (k : nat) : Prop := {
  oa_const : is_const x k = true -> tcg_target_const_match (s64 (arg x.(new_args) k)) (ctk k) = true;
  oa_reg : is_const x k = false ->
    real_reg (arg x.(new_args) k) /\ arg x.(new_args) k <> TCG_REG_CALL_STACK /\
    Z.testbit (ctk k).(ct_regs) (arg x.(new_args) k) = true /\
    Z.testbit x.(allocated_regs) (arg x.(new_args) k) = true;
  oa_alias : is_alias k = true ->
    is_const x k = false /\ Z.testbit reserved_regs (arg x.(new_args) k) = false /\
    (owner σ (arg x.(new_args) k) = -1 \/ owner σ (arg x.(new_args) k) = tk k /\ IS_DEAD_ARG da k = true);
  oa_owner : is_const x k = false -> owner σ (arg x.(new_args) k) = -1 \/ owner σ (arg x.(new_args) k) = tk k
}.

Record ready (σ0 : ra_state) (done : list nat) (x : operands) (σ : ra_state) : Prop := {
  rd_inv : ra_inv f σ;
  rd_slots : slots_le s σ0 σ;
  rd_new : length x.(new_args) = length a;
  rd_const : length x.(const_args) = length cts;
  rd_rest : forall k, (length cts <= k)%nat -> x.(new_args) !! k = a !! k;
  rd_reserved : forall r, Z.testbit reserved_regs r = true -> Z.testbit x.(allocated_regs) r = true;
  rd_allocated : forall r, Z.testbit x.(allocated_regs) r = true ->
    Z.testbit reserved_regs r = true \/ exists k, k ∈ done /\ is_const x k = false /\ arg x.(new_args) k = r;
  rd_args : forall k, k ∈ done -> (k < length cts)%nat /\ operand_at x σ k;
  rd_alias : forall j k, j ∈ done -> k ∈ done -> is_alias j = true -> is_alias k = true -> j <> k ->
    arg x.(new_args) j <> arg x.(new_args) k;
  rd_unset : forall k, k ∉ done -> (k < length cts)%nat -> is_const x k = false;
  rd_apart : forall j k, j ∈ done -> k ∈ done -> is_alias j = true -> is_const x k = false -> tk j <> tk k ->
    arg x.(new_args) j <> arg x.(new_args) k
}.

Definition opval (x : operands) (h : hstate) (k : nat) : Z :=
  if is_const x k then arg x.(new_args) k else hregs h (arg x.(new_args) k).
Definition opvals (done : list nat) (x : operands) (v : list Z) (h : hstate) : Prop :=
  forall k, k ∈ done -> wrap (tsize s (tk k)) (opval x h k) = rd s v (tk k).

(** Changes of other registers do not matter. *)
Lemma ready_step σ0 done x σ σ' :
  ready σ0 done x σ -> ra_inv f σ' -> slots_le s σ σ' ->
  (forall r, real_reg r -> Z.testbit x.(allocated_regs) r = true -> owner σ' r = owner σ r) ->
  ready σ0 done x σ'.
Proof.
  intros [R1 R2 R3 R4 R5 R6 R7 R8 R9 R10 R11] Hinv Hle Ho. split; try done; [by eapply slots_le_trans|].
  intros k Hk. destruct (R8 k Hk) as [Hlt [O1 O2 O3 O4]]. split; [done|]. split; [done|done|..].
  - intros Ha. destruct (O3 Ha) as (Hc & Hr & Hown). destruct (O2 Hc) as (Hreal & _ & _ & Hal).
    by rewrite Ho.
  - intros Hc. destruct (O2 Hc) as (Hreal & _ & _ & Hal). rewrite Ho by done. by apply O4.
Qed.

Lemma opvals_step done x σ0 σ v h h' :
  ready σ0 done x σ ->
  (forall r, real_reg r -> Z.testbit x.(allocated_regs) r = true -> hregs h' r = hregs h r) ->
  opvals done x v h -> opvals done x v h'.
Proof.
  intros Hrd Hr Hv k Hk. rewrite <- (Hv k Hk). unfold opval. destruct (is_const x k) eqn:Ec; [done|].
  destruct (rd_args _ _ _ _ Hrd k Hk) as [_ [_ O2 _ _]]. destruct (O2 Ec) as (Hreal & _ & _ & Hal). by rewrite Hr.
Qed.

Lemma arg_insert_same l k r : (k < length l)%nat -> arg (<[k := r]> l) k = r.
Proof. intros H. unfold arg. rewrite list_lookup_total_insert_eq by done. done. Qed.
Lemma arg_insert_other l k j (r : Z) : j <> k -> arg (<[k := r]> l) j = arg l j.
Proof. intros H. unfold arg. by rewrite list_lookup_total_insert_ne. Qed.

Lemma testbit_add r m r' : 0 <= r -> 0 <= r' -> Z.testbit (regset_add r m) r' = Z.testbit m r' || (r' =? r).
Proof.
  intros Hr Hr'. unfold regset_add. rewrite Z.lor_spec. f_equal. rewrite Z.shiftl_1_l, Z.pow2_bits_eqb by done.
  apply Z.eqb_sym.
Qed.
Lemma testbit_add_neg r m r' : 0 <= r -> r' < 0 -> Z.testbit (regset_add r m) r' = false.
Proof. intros. by apply Z.testbit_neg_r. Qed.

(** The operand [k] takes the register [r]. *)
Lemma ready_put_reg σ0 done x σ k r :
  ready σ0 done x σ -> k ∉ done -> (k < length cts)%nat -> (length cts <= length a)%nat ->
  real_reg r -> r <> TCG_REG_CALL_STACK -> Z.testbit (ctk k).(ct_regs) r = true ->
  (is_alias k = true -> Z.testbit reserved_regs r = false /\
     (owner σ r = -1 \/ owner σ r = tk k /\ IS_DEAD_ARG da k = true) /\
     forall j, j ∈ done -> is_alias j = true -> arg x.(new_args) j <> r) ->
  (owner σ r = -1 \/ owner σ r = tk k) ->
  (forall j, j ∈ done -> is_const x j = false -> is_alias j = true \/ is_alias k = true -> tk j <> tk k ->
     arg x.(new_args) j <> r) ->
  ready σ0 (k :: done) (put_reg k r x) σ.
Proof.
  intros [R1 R2 R3 R4 R5 R6 R7 R8 R9 R10 R11] Hk Hlt Hla Hr Hn4 Hct Hal Hown Hap.
  assert (forall j, j ∈ done -> j <> k) as Hne by (by intros j Hj ->).
  assert (arg (put_reg k r x).(new_args) k = r) as Ek by (apply arg_insert_same; lia).
  assert (is_const (put_reg k r x) k = false) as Ck
    by (unfold is_const; cbn; rewrite list_lookup_total_insert_eq by lia; done).
  assert (forall j, j <> k -> arg (put_reg k r x).(new_args) j = arg x.(new_args) j) as Ej
    by (intros; by apply arg_insert_other).
  assert (forall j, j <> k -> is_const (put_reg k r x) j = is_const x j) as Cj
    by (intros; unfold is_const; cbn; by rewrite list_lookup_total_insert_ne).
  destruct Hr as [Hr1 Hr2]. split.
  - done.
  - done.
  - cbn. by rewrite length_insert.
  - cbn. by rewrite length_insert.
  - intros j Hj. cbn. rewrite list_lookup_insert_ne by lia. by apply R5.
  - intros r' Hr'. cbn. destruct (Z.lt_ge_cases r' 0); [by rewrite Z.testbit_neg_r in Hr' |].
    rewrite testbit_add, R6 by done. done.
  - intros r' Hr'. cbn in Hr'. destruct (Z.lt_ge_cases r' 0) as [Hneg|Hpos]; [by rewrite Z.testbit_neg_r in Hr'|].
    rewrite testbit_add in Hr' by done. apply orb_true_iff in Hr' as [Hr'|Hr'%Z.eqb_eq].
    + destruct (R7 r' Hr') as [?|(j & Hj & Hc & E)]; [by left|right]. exists j. rewrite Ej, Cj by auto.
      split; [by apply elem_of_cons; right|done].
    + right. exists k. subst r'. split; [apply list_elem_of_here|done].
  - intros j [->|Hj]%elem_of_cons.
    + split; [done|]. split; rewrite Ek, Ck; [done| | |].
      * intros _. split_and!; try done. cbn. rewrite testbit_add, Z.eqb_refl by done. apply orb_true_r.
      * intros Ha. destruct (Hal Ha) as (? & ? & _). done.
      * done.
    + destruct (R8 j Hj) as [Hlj [O1 O2 O3 O4]]. split; [done|].
      split; rewrite Ej, Cj by auto; [done| |done|done]. intros Hc. destruct (O2 Hc) as ([? ?] & ? & ? & Hb). split_and!; try done.
      cbn. by rewrite testbit_add, Hb.
  - intros i j Hi Hj Hai Haj Hij. apply elem_of_cons in Hi, Hj. destruct Hi as [->|Hi], Hj as [->|Hj]; [done|..].
    + rewrite Ek, Ej by auto. destruct (Hal Hai) as (_ & _ & H). intros E. by apply (H j Hj Haj).
    + rewrite Ek, Ej by auto. destruct (Hal Haj) as (_ & _ & H). by apply H.
    + rewrite !Ej by auto. by apply R9.
  - intros j [Hj Hjd]%not_elem_of_cons Hlj. rewrite Cj by done. by apply R10.
  - intros i j Hi Hj Hai Hcj Hij. apply elem_of_cons in Hi, Hj. destruct Hi as [->|Hi], Hj as [->|Hj]; [done|..].
    + rewrite Ek, Ej by auto. rewrite Cj in Hcj by auto. intros E. apply (Hap j); auto.
    + rewrite Ek, Ej by auto. destruct (R8 i Hi) as [_ [_ _ O3 _]]. destruct (O3 Hai) as (Hci & _). apply Hap; auto.
    + rewrite !Ej by auto. rewrite Cj in Hcj by auto. by apply R11.
Qed.

Lemma opvals_cons done x x' v h k :
  (forall j, j ∈ done -> opval x' h j = opval x h j) ->
  wrap (tsize s (tk k)) (opval x' h k) = rd s v (tk k) -> opvals done x v h -> opvals (k :: done) x' v h.
Proof. intros He Hk Hv j [->|Hj]%elem_of_cons; [done|]. rewrite He by done. by apply Hv. Qed.

Lemma opval_put_reg x h k r j : j <> k -> opval (put_reg k r x) h j = opval x h j.
Proof.
  intros Hj. unfold opval, is_const. cbn. by rewrite list_lookup_total_insert_ne, arg_insert_other.
Qed.

Lemma opval_put_reg_same σ0 done x σ h k r :
  ready σ0 done x σ -> (k < length cts)%nat -> (length cts <= length a)%nat ->
  opval (put_reg k r x) h k = hregs h r.
Proof.
  intros Hrd Hk Hla. unfold opval, is_const. cbn.
  rewrite list_lookup_total_insert_eq by (rewrite (rd_const _ _ _ _ Hrd); lia).
  by rewrite arg_insert_same by (rewrite (rd_new _ _ _ _ Hrd); lia).
Qed.

(** What is known of operand [k] before it is served. *)
Record input_ok (σ0 : ra_state) (done : list nat) (k : nat) : Prop := {
  io_new : k ∉ done;
  io_bound : (k < length cts <= length a)%nat;
  io_valid : valid s (tk k);
  io_live : f.(f_dead) (tk k) = false;
  io_written : s.(nb_globals) <= tk k -> (tget s.(temps) (tk k)).(temp_local) = true -> f.(f_written) (tk k) = true;
  io_fixed : is_alias k = true -> (ts_of σ0 (tk k)).(fixed_reg) = true ->
    tk k <> arg a (Z.to_nat (ctk k).(ct_alias));
  io_dead : forall j, j ∈ done -> IS_DEAD_ARG da j = true -> IS_DEAD_ARG da k = true -> tk j <> tk k;
  io_const : is_alias k = true -> forall w, tcg_target_const_match w (ctk k) = false;
  io_avail : forall m g,
    (forall r, Z.testbit m r = true ->
       Z.testbit reserved_regs r = true \/ exists j, j ∈ done /\ g j = r /\ Z.testbit (ctk j).(ct_regs) r = true) ->
    available (ctk k).(ct_regs) m
}.

Lemma ready_avail σ0 done x σ k :
  ready σ0 done x σ -> input_ok σ0 done k -> available (ctk k).(ct_regs) x.(allocated_regs).
Proof.
  intros Hrd Hio. apply (io_avail _ _ _ Hio _ (fun j => arg x.(new_args) j)). intros r Hr.
  destruct (rd_allocated _ _ _ _ Hrd r Hr) as [?|(j & Hj & Hc & E)]; [by left|right]. exists j. split_and!; try done.
  destruct (rd_args _ _ _ _ Hrd j Hj) as [_ [_ O2 _ _]]. destruct (O2 Hc) as (_ & _ & Ht & _). by rewrite E in Ht.
Qed.

Local Abbreviation valued done x v σ := (fun h => values [] f v σ h /\ opvals done x v h).

Lemma moved_stores σ0 done x σ σ' os v :
  ready σ0 done x σ -> Forall (fun o => is_store o = true) os ->
  moved σ σ' os (values [] f v σ) (values [] f v σ') -> moved σ σ' os (valued done x v σ) (valued done x v σ').
Proof.
  intros Hrd Hst [M1 M2 M3]. split; [done|done|]. intros Hw h [Hv Ho]. split; [by apply M3|].
  eapply opvals_step; [exact Hrd| |exact Ho]. intros r _ _. by rewrite stores_regs.
Qed.

(** Registers that the allocator hands out. *)
Lemma chosen_free reg1 x σ0 done σ r :
  ready σ0 done x σ -> chosen reg1 x.(allocated_regs) r ->
  real_reg r /\ Z.testbit reg1 r = true /\ Z.testbit reserved_regs r = false /\ r <> TCG_REG_CALL_STACK.
Proof.
  intros Hrd (Hin & Hr & H1 & H2). assert (Z.testbit reserved_regs r = false) as Hres.
  { destruct (Z.testbit reserved_regs r) eqn:E; [|done]. by rewrite (rd_reserved _ _ _ _ Hrd r E) in H2. }
  split_and!; try done. intros ->. by rewrite (se_stack (setting:=Hset)) in Hres.
Qed.

Lemma freed_ready σ0 done x σ σ' r :
  ready σ0 done x σ -> ra_inv f σ' -> slots_le s σ σ' -> freed s r σ σ' -> Z.testbit x.(allocated_regs) r = false ->
  ready σ0 done x σ'.
Proof.
  intros Hrd Hinv Hle Hf Hr. eapply ready_step; [done..|]. intros r' Hr' Ht. apply (fr_owners _ _ _ _ Hf); [done|congruence].
Qed.

Lemma fixed_slots σ σ' t : slots_le s σ σ' -> valid s t -> (ts_of σ' t).(fixed_reg) = (ts_of σ t).(fixed_reg).
Proof. intros Hle Vt. by destruct (Hle t Vt). Qed.

(** A free register is set to the value of an operand. *)
Lemma moved_put σ0 done x σ k r o v (Vk : hstate -> Prop) :
  ready σ0 done x σ -> input_ok σ0 done k -> real_reg r -> Z.testbit reserved_regs r = false ->
  Z.testbit x.(allocated_regs) r = false -> owner σ r = -1 -> is_move o = true ->
  (forall h, values [] f v σ h -> Vk h -> exists y, wrap (tsize s (tk k)) y = rd s v (tk k) /\
     (exec_move h o = set_hreg r y h \/ exec_move h o = h /\ hregs h r = y)) ->
  moved σ σ [o] (fun h => valued done x v σ h /\ Vk h) (valued (k :: done) (put_reg k r x) v σ).
Proof.
  intros Hrd Hio Hr Hres Hna Ho Hmv Hval. pose proof (rd_inv _ _ _ _ Hrd) as [Hl _ _].
  pose proof (io_bound _ _ _ Hio) as Hb. split; [apply slots_le_refl|by repeat constructor|].
  intros _ h [[Hv Hop] Hk]. cbn [exec_moves fold_left]. destruct (Hval h Hv Hk) as (y & Hy & He).
  assert (values [] f v σ (exec_move h o) /\ opvals done x v (exec_move h o) /\ hregs (exec_move h o) r = y) as (H1 & H2 & H3).
  { destruct He as [->|[-> ?]]; [|done]. split_and!; [by apply values_set_reg| |apply hregs_set_same].
    eapply opvals_step; [exact Hrd| |exact Hop]. intros r' _ Ht. apply hregs_set_other. congruence. }
  split; [done|]. eapply opvals_cons; [| |exact H2].
  - intros j Hj. apply opval_put_reg. intros ->. by apply (io_new _ _ _ Hio).
  - erewrite opval_put_reg_same by (done || lia). by rewrite H3.
Qed.

Lemma ready_put_new σ0 done x σ σ' k r :
  ready σ0 done x σ -> ready σ0 done x σ' -> input_ok σ0 done k -> chosen (ctk k).(ct_regs) x.(allocated_regs) r ->
  owner σ' r = -1 -> ready σ0 (k :: done) (put_reg k r x) σ'.
Proof.
  intros Hrd Hrd' Hio Hch Ho. pose proof (io_bound _ _ _ Hio) as Hb.
  destruct (chosen_free _ _ _ _ _ _ Hrd Hch) as (Hr & Hct & Hres & Hn4). destruct Hch as (_ & _ & _ & Hna).
  assert (forall j, j ∈ done -> is_const x j = false -> arg x.(new_args) j <> r) as Hnew.
  { intros j Hj Hc E. destruct (rd_args _ _ _ _ Hrd j Hj) as [_ [_ O2 _ _]]. destruct (O2 Hc) as (_ & _ & _ & Hb'). congruence. }
  apply ready_put_reg; try done; [apply Hio|lia|lia| |by left|by auto]. intros Ha. split; [done|]. split; [by left|].
  intros j Hj Haj. destruct (rd_args _ _ _ _ Hrd j Hj) as [_ [_ _ O3 _]]. destruct (O3 Haj) as (Hc & _). by apply Hnew.
Qed.

Lemma spilled_reg σ σ' t r :
  linked σ -> real_reg r -> freed s r σ σ' -> valid s t -> (ts_of σ' t).(reg) = (ts_of σ t).(reg).
Proof.
  intros Hl Hr Hfr Vt. destruct (Z.eq_dec t (owner σ r)) as [E|Hne]; [|by rewrite (fr_temps _ _ _ _ Hfr)].
  assert (owner σ r <> -1) as Hno by (unfold valid in Vt; lia). rewrite E.
  destruct (fr_spilled _ _ _ _ Hfr Hno) as (_ & -> & _). by destruct (ln_owner _ _ _ Hl r Hr Hno) as (_ & _ & _ & -> & _).
Qed.

Lemma wp_move_input σ0 done x σ k :
  ready σ0 done x σ -> input_ok σ0 done k -> (ts_of σ (tk k)).(val_type) = TEMP_VAL_REG ->
  wp (r ← tcg_reg_alloc s frame (ctk k).(ct_regs) x.(allocated_regs);
      ts ← get_ts (tk k); ra_emit (LMov (temp_type s (tk k)) r ts.(reg)) ;; mret (put_reg k r x))
    (fun x' σ' os => ready σ0 (k :: done) x' σ' /\
       forall v, moved σ σ' os (valued done x v σ) (valued (k :: done) x' v σ')) σ.
Proof.
  intros Hrd Hio Hreg. pose proof (rd_inv _ _ _ _ Hrd) as Hinv. pose proof (io_valid _ _ _ Hio) as Vt.
  apply wp_bind. eapply wp_mono; [apply wp_alloc; [exact Hset|done|by eapply ready_avail]|].
  intros r σ1 os1 (Hch & Hinv1 & Hst & Hfr & Hmv).
  apply wp_bind, wp_get_ts; [eapply bounds_temp; [apply Hinv1|done]|]. apply wp_bind, wp_emit, wp_ret.
  destruct (chosen_free _ _ _ _ _ _ Hrd Hch) as (Hr & _ & Hres & Hn4).
  assert (ready σ0 done x σ1) as Hrd1.
  { eapply freed_ready; [done|done|apply (Hmv [] [])|done|apply Hch]. }
  rewrite (spilled_reg σ σ1 (tk k) r) by (done || apply Hinv).
  split; [eapply (ready_put_new σ0 done x σ); [done..|apply Hfr]|].
  intros v. cbn [app]. eapply (moved_trans s M σ σ1 σ1 os1 _ _
    (fun h => valued done x v σ1 h /\ wrap (tsize s (tk k)) (hregs h (ts_of σ (tk k)).(reg)) = rd s v (tk k))).
  - destruct (moved_stores _ _ _ _ _ _ v Hrd Hst (Hmv [] v)) as [M1 M2 M3]. split; [done|done|].
    intros Hw h Hv. split; [by apply M3|]. rewrite stores_regs by done.
    apply (proj1 Hv (tk k) Vt); [apply not_elem_of_nil|done].
  - apply (moved_put σ0); try done; [apply Hch|apply Hfr|]. intros h _ Hk. cbn [exec_move].
    destruct (Z.eqb_spec r (reg (ts_of σ (tk k)))) as [->|Hne].
    + eexists. split; [exact Hk|by right].
    + eexists. split; [|left; reflexivity]. rewrite type_size, wrap_wrap. exact Hk.
Qed.

(** The register of a temporary belongs to it, or it is reserved. *)
Lemma place_owner σ t :
  linked σ -> valid s t -> (ts_of σ t).(val_type) = TEMP_VAL_REG ->
  owner σ (ts_of σ t).(reg) = -1 \/ owner σ (ts_of σ t).(reg) = t.
Proof.
  intros Hl Vt Hreg. destruct ((ts_of σ t).(fixed_reg)) eqn:Hf; [|right; by apply (ln_reg _ _ _ Hl)].
  destruct (ln_fixed _ _ _ Hl _ Vt Hf) as (_ & _ & Hr & Hb & _). left.
  destruct (Z.eq_dec (owner σ (ts_of σ t).(reg)) (-1)) as [E|Hn]; [done|].
  destruct (ln_owner _ _ _ Hl _ Hr Hn) as (_ & _ & _ & _ & Hres). congruence.
Qed.

Lemma place_apart σ0 done x σ k j :
  ready σ0 done x σ -> input_ok σ0 done k -> (ts_of σ (tk k)).(val_type) = TEMP_VAL_REG ->
  (is_alias k && (if (ts_of σ (tk k)).(fixed_reg) then negb (tk k =? arg a (Z.to_nat (ctk k).(ct_alias)))
                  else negb (IS_DEAD_ARG da k))) = false ->
  j ∈ done -> is_const x j = false -> is_alias j = true \/ is_alias k = true -> tk j <> tk k ->
  arg x.(new_args) j <> (ts_of σ (tk k)).(reg).
Proof.
  intros Hrd Hio Hreg Hal Hj Hc Ha Hne E. pose proof (rd_inv _ _ _ _ Hrd) as [Hl _ _].
  pose proof (io_valid _ _ _ Hio) as Vt. destruct (rd_args _ _ _ _ Hrd j Hj) as [_ [_ _ O3 O4]].
  destruct ((ts_of σ (tk k)).(fixed_reg)) eqn:Hf.
  - destruct (ln_fixed _ _ _ Hl _ Vt Hf) as (_ & _ & _ & Hb & _). destruct Ha as [Ha|Ha].
    + destruct (O3 Ha) as (_ & Hres & _). congruence.
    + rewrite Ha in Hal. apply negb_false_iff, Z.eqb_eq in Hal. apply (io_fixed _ _ _ Hio Ha); [|done].
      by rewrite <- (fixed_slots σ0 σ) by (done || apply Hrd).
  - destruct (ln_reg _ _ _ Hl _ Vt Hf Hreg) as [_ Ho]. rewrite <- E in Ho.
    destruct (O4 Hc) as [Eo|Eo]; rewrite Eo in Ho; [unfold valid in Vt; lia|done].
Qed.

Lemma wp_place_input σ0 done x σ k :
  ready σ0 done x σ -> input_ok σ0 done k -> (ts_of σ (tk k)).(val_type) = TEMP_VAL_REG ->
  wp (place_input s frame k (tk k) (ctk k) a da x)
    (fun x' σ' os => ready σ0 (k :: done) x' σ' /\
       forall v, moved σ σ' os (valued done x v σ) (valued (k :: done) x' v σ')) σ.
Proof.
  intros Hrd Hio Hreg. pose proof (rd_inv _ _ _ _ Hrd) as Hinv. pose proof Hinv as [Hl Hp Hlv].
  pose proof (io_valid _ _ _ Hio) as Vt. pose proof (io_bound _ _ _ Hio) as Hb.
  unfold place_input. apply wp_bind, wp_get_ts; [by eapply bounds_temp|].
  apply wp_bind, wp_assert; [by apply bool_decide_true|].
  match goal with |- wp (if ?b then _ else _) _ _ => destruct b eqn:Hal end; [|by apply wp_move_input].
  apply andb_true_iff in Hal as [Hal%negb_true_iff Hct]. apply wp_ret.
  assert (real_reg (ts_of σ (tk k)).(reg) /\ (ts_of σ (tk k)).(reg) <> TCG_REG_CALL_STACK) as [Hr Hn4].
  { destruct ((ts_of σ (tk k)).(fixed_reg)) eqn:Hf; [by destruct (ln_fixed _ _ _ Hl _ Vt Hf) as (_ & _ & ? & _ & ?)|].
    destruct (ln_reg _ _ _ Hl _ Vt Hf Hreg) as [Hr Ho]. split; [done|]. intros E.
    destruct (ln_owner _ _ _ Hl _ Hr) as (_ & _ & _ & _ & Hres); [unfold valid in Vt; lia|].
    rewrite E, (se_stack (setting:=Hset)) in Hres. done. }
  split.
  - apply ready_put_reg; try done; [apply Hio|lia|lia| |by apply (place_owner σ)|intros j; by eapply place_apart].
    intros Ha. rewrite Ha in Hal. cbn in Hal.
    destruct ((ts_of σ (tk k)).(fixed_reg)) eqn:Hf.
    { exfalso. apply negb_false_iff, Z.eqb_eq in Hal. apply (io_fixed _ _ _ Hio Ha); [|done].
      by rewrite <- (fixed_slots σ0 σ) by (done || apply Hrd). }
    apply negb_false_iff in Hal. destruct (ln_reg _ _ _ Hl _ Vt Hf Hreg) as [_ Ho].
    assert (owner σ (ts_of σ (tk k)).(reg) <> -1) as Hno by (unfold valid in Vt; lia).
    split; [by destruct (ln_owner _ _ _ Hl _ Hr Hno) as (_ & _ & _ & _ & ?)|]. split; [by right|].
    intros j Hj Haj E. destruct (rd_args _ _ _ _ Hrd j Hj) as [_ [_ _ O3 O4]].
    destruct (O3 Haj) as (_ & _ & [Ho'|[Ho' Hdj]]); rewrite E in Ho'; [congruence|].
    apply (io_dead _ _ _ Hio j Hj Hdj Hal). congruence.
  - intros v. apply moved_refl. intros h [Hv Ho]. split; [done|]. eapply opvals_cons; [| |exact Ho].
    + intros j Hj. apply opval_put_reg. intros ->. by apply (io_new _ _ _ Hio).
    + erewrite opval_put_reg_same by (done || lia). apply (Hv (tk k) Vt); [apply not_elem_of_nil|done].
Qed.

(** An operand that was not in a register is loaded into a free one. *)
Lemma wp_load_input σ0 done x σ k r c o :
  ready σ0 done x σ -> input_ok σ0 done k -> (ts_of σ (tk k)).(fixed_reg) = false ->
  (ts_of σ (tk k)).(val_type) <> TEMP_VAL_REG -> chosen (ctk k).(ct_regs) x.(allocated_regs) r -> owner σ r = -1 ->
  live f (tk k) (in_reg r c (ts_of σ (tk k))) -> is_move o = true ->
  (within s M σ -> forall v h, values [] f v σ h -> exists y, exec_move h o = set_hreg r y h /\
     wrap (tsize s (tk k)) y = rd s v (tk k) /\ (c = true -> in_mem s M v h (tk k))) ->
  wp (ra_emit o ;; take_reg (tk k) r c ;; place_input s frame k (tk k) (ctk k) a da x)
    (fun x' σ' os => ready σ0 (k :: done) x' σ' /\
       forall v, moved σ σ' os (valued done x v σ) (valued (k :: done) x' v σ')) σ.
Proof.
  intros Hrd Hio Hf Hnr Hch Ho Hlive Hmv Hval. pose proof (rd_inv _ _ _ _ Hrd) as Hinv. pose proof Hinv as [Hl _ _].
  pose proof (io_valid _ _ _ Hio) as Vt. destruct (chosen_free _ _ _ _ _ _ Hrd Hch) as (Hr & _ & Hres & _).
  assert (Z.testbit x.(allocated_regs) r = false) as Hna by apply Hch.
  assert (ready σ0 done x (taken_by (tk k) r c σ)) as Hrd'.
  { eapply ready_step; [done|by eapply inv_taken|by apply slots_taken|].
    intros r' Hr' Ht. rewrite owner_taken by done. destruct (Z.eqb_spec r' r) as [->|]; [congruence|done]. }
  apply wp_bind, wp_emit, wp_bind, wp_take; [done..|].
  eapply wp_mono; [apply (wp_place_input σ0 done); [done|done|by rewrite ts_taken, Z.eqb_refl]|].
  intros x' σ' os [Hrd2 Hmv2]. split; [done|]. intros v. cbn [app].
  apply (moved_trans s M σ (taken_by (tk k) r c σ) σ' [o] os _ (valued done x v (taken_by (tk k) r c σ))); [|apply Hmv2].
  split; [by apply slots_taken|by repeat constructor|]. intros Hw h [Hv Hop]. cbn [exec_moves fold_left].
  destruct (Hval (within_le _ _ _ _ (slots_taken (tk k) r c σ Hl Vt) Hw) v h Hv) as (y & -> & Hy & Hm). split.
  - apply (values_taken [] f f); [done|done|done| |].
    + intros _. split; cbn [in_reg set_mem_coherent set_ts_reg set_val_type val_type reg mem_coherent]; try done.
      intros _. by rewrite hregs_set_same.
    + apply values_set_reg; [done..|]. eapply values_weaken; [apply list_subseteq_nil|exact Hv].
  - eapply opvals_step; [exact Hrd| |exact Hop]. intros r' _ Ht. apply hregs_set_other. congruence.
Qed.

Lemma ready_put_const σ0 done x σ k w :
  ready σ0 done x σ -> input_ok σ0 done k -> tcg_target_const_match (s64 w) (ctk k) = true ->
  ready σ0 (k :: done) (put_const k w x) σ /\
  (forall h, opval (put_const k w x) h k = w) /\ forall h j, j ∈ done -> opval (put_const k w x) h j = opval x h j.
Proof.
  intros [R1 R2 R3 R4 R5 R6 R7 R8 R9 R10 R11] Hio Hm. pose proof (io_bound _ _ _ Hio) as Hb.
  assert (forall j, j ∈ done -> j <> k) as Hne by (intros j Hj ->; by apply (io_new _ _ _ Hio)).
  assert (is_alias k = false) as Hna.
  { destruct (is_alias k) eqn:E; [|done]. by rewrite (io_const _ _ _ Hio E) in Hm. }
  assert (arg (put_const k w x).(new_args) k = w) as Ek by (apply arg_insert_same; lia).
  assert (is_const (put_const k w x) k = true) as Ck
    by (unfold is_const; cbn; rewrite list_lookup_total_insert_eq by lia; done).
  assert (forall j, j <> k -> arg (put_const k w x).(new_args) j = arg x.(new_args) j) as Ej
    by (intros; by apply arg_insert_other).
  assert (forall j, j <> k -> is_const (put_const k w x) j = is_const x j) as Cj
    by (intros; unfold is_const; cbn; by rewrite list_lookup_total_insert_ne).
  split; [|split; [intros h; unfold opval; by rewrite Ck, Ek|intros h j Hj; unfold opval; by rewrite Cj, Ej by auto]].
  split; try done.
  - cbn. by rewrite length_insert.
  - cbn. by rewrite length_insert.
  - intros j Hj. cbn. rewrite list_lookup_insert_ne by lia. by apply R5.
  - intros r Hr. destruct (R7 r Hr) as [?|(j & Hj & Hc & E)]; [by left|right]. exists j. rewrite Ej, Cj by auto.
    split; [by apply elem_of_cons; right|done].
  - intros j [->|Hj]%elem_of_cons.
    + split; [lia|]. split; [by rewrite Ek|by rewrite Ck|congruence|by rewrite Ck].
    + destruct (R8 j Hj) as [Hlj [O1 O2 O3 O4]]. split; [done|]. split; rewrite Ej, Cj by auto; done.
  - intros i j Hi Hj Hai Haj. apply elem_of_cons in Hi, Hj. destruct Hi as [->|Hi], Hj as [->|Hj]; try congruence.
    rewrite !Ej by auto. by apply R9.
  - intros j [Hj Hjd]%not_elem_of_cons Hlj. rewrite Cj by done. by apply R10.
  - intros i j Hi Hj Hai Hcj. apply elem_of_cons in Hi, Hj. destruct Hi as [->|Hi], Hj as [->|Hj]; try congruence.
    rewrite Cj in Hcj by auto. rewrite !Ej by auto. by apply R11.
Qed.

Lemma wp_reload σ0 done x σ k c (o : Z -> lop) :
  ready σ0 done x σ -> input_ok σ0 done k -> (ts_of σ (tk k)).(fixed_reg) = false ->
  (ts_of σ (tk k)).(val_type) <> TEMP_VAL_REG ->
  (forall r, live f (tk k) (in_reg r c (ts_of σ (tk k))) /\ is_move (o r) = true) ->
  (forall r σ1, ts_of σ1 (tk k) = ts_of σ (tk k) -> within s M σ1 -> forall v h, values [] f v σ1 h ->
     exists y, exec_move h (o r) = set_hreg r y h /\
       wrap (tsize s (tk k)) y = rd s v (tk k) /\ (c = true -> in_mem s M v h (tk k))) ->
  wp (r ← tcg_reg_alloc s frame (ctk k).(ct_regs) x.(allocated_regs);
      ra_emit (o r) ;; take_reg (tk k) r c ;; place_input s frame k (tk k) (ctk k) a da x)
    (fun x' σ' os => ready σ0 (k :: done) x' σ' /\
       forall v, moved σ σ' os (valued done x v σ) (valued (k :: done) x' v σ')) σ.
Proof.
  intros Hrd Hio Hf Hv Hlive Hval. pose proof (rd_inv _ _ _ _ Hrd) as Hinv. pose proof Hinv as [Hl _ _].
  pose proof (io_valid _ _ _ Hio) as Vt.
  apply wp_bind. eapply wp_mono; [apply wp_alloc; [exact Hset|done|by eapply ready_avail]|].
  intros r σ1 os1 (Hch & Hinv1 & Hst & Hfr & Hmv). destruct (Hlive r) as [Hlr Hmr].
  assert (ready σ0 done x σ1) as Hrd1 by (eapply freed_ready; [done|done|apply (Hmv [] [])|done|apply Hch]).
  assert (ts_of σ1 (tk k) = ts_of σ (tk k)) as Ets.
  { apply (fr_temps _ _ _ _ Hfr); [done|]. intros E.
    destruct (ln_owner _ _ _ Hl r) as (_ & _ & Hv' & _); [apply Hch|unfold valid in Vt; lia|]. by rewrite <- E in Hv'. }
  eapply wp_mono.
  { apply (wp_load_input σ0 done x σ1 k r c); rewrite ?Ets; [done..|apply Hfr|done|done|]. by apply Hval. }
  intros x' σ' os [H1 H2]. split; [done|]. intros v.
  apply (moved_trans s M σ σ1 σ' os1 os _ (valued done x v σ1)); [|apply H2].
  eapply moved_stores; [done|done|apply Hmv].
Qed.

Lemma wp_satisfy_input σ0 done x σ k :
  ready σ0 done x σ -> input_ok σ0 done k ->
  wp (satisfy_input s frame a cts da k x)
    (fun x' σ' os => ready σ0 (k :: done) x' σ' /\
       forall v, moved σ σ' os (valued done x v σ) (valued (k :: done) x' v σ')) σ.
Proof.
  intros Hrd Hio. pose proof (rd_inv _ _ _ _ Hrd) as [Hl Hp Hlv].
  pose proof (io_valid _ _ _ Hio) as Vt. pose proof (io_live _ _ _ Hio) as Hd.
  unfold satisfy_input. apply wp_bind, wp_get_ts; [by eapply bounds_temp|].
  destruct (bool_decide ((ts_of σ (tk k)).(val_type) = TEMP_VAL_REG)) eqn:Hreg.
  { apply bool_decide_eq_true in Hreg. rewrite Hreg. by apply wp_place_input. }
  apply bool_decide_eq_false in Hreg.
  assert ((ts_of σ (tk k)).(fixed_reg) = false) as Hf.
  { destruct ((ts_of σ (tk k)).(fixed_reg)) eqn:Hf; [|done]. by destruct (ln_fixed _ _ _ Hl _ Vt Hf) as (_ & ? & _). }
  destruct (Hlv _ Vt Hf) as [L1 L2 L0 L3 L4 L5 L6].
  destruct ((ts_of σ (tk k)).(val_type)) eqn:Hv; [by destruct (L2 Hd)|done|..].
  - assert ((ts_of σ (tk k)).(mem_allocated) = true) as Ha by (apply L4; [by rewrite Hd|done|apply Hio]).
    apply (wp_reload _ _ _ _ _ true); [done|done|done|by rewrite Hv| |].
    + intros r. split; [|done]. split; cbn; rewrite ?Hd; try done. by right.
    + intros r σ1 Ets Hw v h Hval. eexists. split; [reflexivity|]. rewrite type_size, wrap_wrap.
      assert (in_mem s M v h (tk k)) as Him.
      { destruct (Hval (tk k) Vt) as [_ _ _ V4]; [apply not_elem_of_nil|].
        apply V4; [by rewrite Ets|unfold used_by; by rewrite Hd]. }
      split; [|done]. apply Him. rewrite <- Ets. by apply Hw; rewrite ?Ets.
  - destruct (L6 eq_refl) as [_ Es]. destruct (tcg_target_const_match (ts_of σ (tk k)).(val) (ctk k)) eqn:Hm.
    + apply wp_ret. destruct (ready_put_const σ0 done x σ k (u64 (ts_of σ (tk k)).(val))) as (H1 & H2 & H3); [done|done| |].
      { rewrite swrap_wrap by done. by rewrite Es. }
      split; [done|]. intros v. apply moved_refl. intros h [Hval Hop]. split; [done|].
      eapply opvals_cons; [intros j Hj; by apply H3|rewrite H2|exact Hop].
      destruct (Hval (tk k) Vt) as [_ _ V3 _]; [apply not_elem_of_nil|]. rewrite <- (V3 Hv).
      apply wrap_wrap_le. unfold tsize. by destruct (type _).
    + apply (wp_reload _ _ _ _ _ false); [done|done|done|by rewrite Hv| |].
      * intros r. split; [|done]. split; cbn; rewrite ?Hd; try done. intros Hmt. by destruct (L3 Hmt) as [?|[? _]].
      * intros r σ1 Ets Hw v h Hval. eexists. split; [reflexivity|]. rewrite type_size, wrap_wrap. split; [|done].
        destruct (Hval (tk k) Vt) as [_ _ V3 _]; [apply not_elem_of_nil|]. rewrite Ets in V3. by apply V3.
Qed.

(** All inputs, in the order of the constraints. *)
Lemma wp_satisfy_inputs ks : forall σ0 done x σ,
  ready σ0 done x σ ->
  (forall pre k post, ks = pre ++ k :: post -> input_ok σ0 (reverse pre ++ done) k) ->
  wp (ra_fold (satisfy_input s frame a cts da) ks x)
    (fun x' σ' os => ready σ0 (reverse ks ++ done) x' σ' /\
       forall v, moved σ σ' os (valued done x v σ) (valued (reverse ks ++ done) x' v σ')) σ.
Proof.
  induction ks as [|k ks IH]; intros σ0 done x σ Hrd Hok; cbn [ra_fold].
  { apply wp_ret. split; [done|]. intros v. by apply moved_refl. }
  apply wp_bind. eapply wp_mono; [apply (wp_satisfy_input σ0 done); [done|apply (Hok [] k ks eq_refl)]|].
  intros x1 σ1 os1 [Hrd1 Hm1]. eapply wp_mono; [apply (IH σ0 (k :: done)); [done|]|].
  { intros pre j post ->. specialize (Hok (k :: pre) j post eq_refl). rewrite reverse_cons, <- app_assoc in Hok. exact Hok. }
  intros x2 σ2 os2 [Hrd2 Hm2]. rewrite reverse_cons, <- app_assoc. split; [done|].
  intros v. eapply (moved_trans s M σ σ1 σ2 os1 os2 _ (valued (k :: done) x1 v σ1)); [apply Hm1|apply Hm2].
Qed.
End Inputs.
End Operands.
