(* ===== verification/RegAllocStep.v ===== *)
(** * The register allocator, operation by operation

    What [tcg_reg_alloc_op] does around an operation: inputs that die free their
    registers, globals are checked, outputs get registers, and after the operation
    the outputs are stored where the liveness analysis asks for it. *)

From S2P Require Import Prelude QtraceDefs X86 TcgOut TcgEnc TcgEmit TcgCond TcgOpDefs TcgSem TcgIR.
From S2P Require Import Optimize OptCopies OptSound Liveness LivenessSound InstrCall Prologue RegAlloc RegAllocLogic.
From S2P Require Import RegAllocSpill RegAllocOps.

Section Step.
Context (s : tcg_temps) (frame : tcg_frame) (reserved_regs : Z) (M : Z -> option (Z * Z)).
Context {Hset : setting s frame reserved_regs M}.

Local Abbreviation ts_of σ t := (tget (ra_temps σ) t).
Local Abbreviation owner σ r := (tget (reg_to_temp σ) r).
Local Abbreviation linked := (linked s reserved_regs).
Local Abbreviation ra_inv := (ra_inv s frame reserved_regs).
Local Abbreviation values := (values s M).
Local Abbreviation moved := (moved s M).
Local Abbreviation live f t ts := (live_ts s (f_dead f t) (f_mem f t) (f_written f t) (f_const f t) t ts).
Local Abbreviation stores os := (Forall (fun o => is_store o = true) os).

(** ** Inputs that die *)

Definition kills (l : list Z) (f : facts) : facts :=
  mkFacts (fun u => bool_decide (u ∈ l) || f.(f_dead) u) f.(f_mem) f.(f_written) f.(f_const).

Lemma kills_nil f : same_facts s f (kills [] f).
Proof. intros u _. unfold facts_at. cbn. by rewrite bool_decide_false by apply not_elem_of_nil. Qed.

Lemma kills_cons t l f : same_facts s (kills l (kill t f)) (kills (t :: l) f).
Proof.
  intros u _. unfold facts_at. cbn. do 3 f_equal. destruct (Z.eqb_spec u t) as [->|Hne].
  - rewrite orb_true_r. by rewrite bool_decide_true by apply list_elem_of_here.
  - f_equal. apply bool_decide_ext. rewrite elem_of_cons. tauto.
Qed.

Definition dying (a : list Z) (da : Z) (ks : list nat) : list Z := arg a <$> List.filter (IS_DEAD_ARG da) ks.

Lemma wp_bury_inputs a da ks : forall f σ,
  ra_inv f σ -> (forall k, k ∈ ks -> valid s (arg a k)) ->
  wp (bury_inputs s a da ks)
    (fun _ σ' os => os = [] /\ ra_inv (kills (dying a da ks) f) σ' /\
       (forall r, real_reg r -> owner σ' r = if bool_decide (owner σ r ∈ dying a da ks) then -1 else owner σ r) /\
       forall X v, moved σ σ' [] (values X f v σ) (values X (kills (dying a da ks) f) v σ')) σ.
Proof.
  unfold bury_inputs. induction ks as [|k ks IH]; intros f σ Hinv Hks; cbn [ra_each].
  { apply wp_ret. split; [done|]. split; [eapply inv_same; [apply kills_nil|done]|]. split.
    - intros r Hr. by rewrite bool_decide_false by apply not_elem_of_nil.
    - intros X v. apply moved_refl. intros h. apply values_same, kills_nil. }
  apply wp_bind. unfold dying. cbn [List.filter]. destruct (IS_DEAD_ARG da k) eqn:Hd; cbn [when].
  - eapply wp_mono; [apply wp_bury; [done|apply Hks, list_elem_of_here]|].
    intros [] σ1 os1 (-> & Hinv1 & Hb & Hm1). eapply wp_mono; [apply IH; [done|]|].
    { intros j Hj. apply Hks. by apply list_elem_of_further. }
    intros [] σ2 os2 (-> & Hinv2 & Ho2 & Hm2). rewrite fmap_cons. split; [done|].
    split; [eapply inv_same; [apply kills_cons|done]|]. split.
    + intros r Hr. rewrite Ho2, (bu_owner _ _ _ _ Hb) by done. destruct (Z.eqb_spec (owner σ r) (arg a k)) as [E|Hne].
      * rewrite (bool_decide_true (owner σ r ∈ _)) by (rewrite E; apply list_elem_of_here).
        by case_bool_decide.
      * rewrite (bool_decide_ext (owner σ r ∈ arg a k :: _) (owner σ r ∈ dying a da ks)); [done|].
        rewrite elem_of_cons. tauto.
    + intros X v. change (@nil lop) with ([] ++ @nil lop). eapply moved_trans; [apply Hm1|].
      destruct (Hm2 X v) as [S2 M2 V2]. split; [done|done|]. intros Hw h Hv.
      eapply values_same; [apply kills_cons|]. by apply V2.
  - apply wp_ret. eapply wp_mono; [apply IH; [done|]|].
    { intros j Hj. apply Hks. by apply list_elem_of_further. }
    intros [] σ2 os2 (-> & H). by split.
Qed.

(** ** Registers that calls overwrite *)

Record freed_all (rs : list Z) (σ σ' : ra_state) : Prop := {
  fa_free : forall r, r ∈ rs -> owner σ' r = -1;
  fa_stay : forall r, real_reg r -> owner σ r = -1 -> owner σ' r = -1;
  fa_others : forall r, real_reg r -> r ∉ rs -> owner σ' r = owner σ r
}.

Lemma wp_free_regs f rs : forall σ,
  ra_inv f σ -> Forall real_reg rs ->
  wp (ra_each (tcg_reg_free s frame) rs)
    (fun _ σ' os => ra_inv f σ' /\ stores os /\ freed_all rs σ σ' /\
       forall X v, moved σ σ' os (values X f v σ) (values X f v σ')) σ.
Proof.
  induction rs as [|r rs IH]; intros σ Hinv Hrs; cbn [ra_each].
  { apply wp_ret. split; [done|]. split; [by constructor|]. split; [|intros; by apply moved_refl].
    split; try done. intros r Hr. by apply not_elem_of_nil in Hr. }
  apply Forall_cons in Hrs as [Hr Hrs]. apply wp_bind. eapply wp_mono; [apply wp_free; [exact Hset|done|done]|].
  intros [] σ1 os1 (Hinv1 & Hs1 & Hf1 & Hm1). eapply wp_mono; [by apply IH|].
  intros [] σ2 os2 (Hinv2 & Hs2 & [F1 F2 F3] & Hm2). split; [done|]. split; [by apply Forall_app|]. split.
  - split.
    + intros r' [->|Hr']%elem_of_cons; [|by apply F1]. apply F2; [done|]. apply Hf1.
    + intros r' Hr' Ho. apply F2; [done|]. destruct (Z.eq_dec r' r) as [->|Hne]; [apply Hf1|].
      by rewrite (fr_owners _ _ _ _ Hf1).
    + intros r' Hr' [Hne Hn]%not_elem_of_cons. rewrite F3 by done. by apply (fr_owners _ _ _ _ Hf1).
  - intros X v. eapply moved_trans; [apply Hm1|apply Hm2].
Qed.

Lemma clobbered_real : Forall real_reg (List.filter (Z.testbit tcg_target_call_clobber_regs) all_regs).
Proof. apply Forall_forall. intros r Hr. vm_compute in Hr. unfold real_reg.
  repeat (apply elem_of_cons in Hr as [->|Hr]; [lia|]). by apply not_elem_of_nil in Hr.
Qed.

(** ** Checks *)

Lemma wp_each_check {A} (g : A -> ra unit) l σ :
  (forall x, x ∈ l -> wp (g x) (fun _ σ' os => σ' = σ /\ os = []) σ) ->
  wp (ra_each g l) (fun _ σ' os => σ' = σ /\ os = []) σ.
Proof.
  induction l as [|x l IH]; intros H; cbn [ra_each]; [by apply wp_ret|].
  apply wp_bind. eapply wp_mono; [apply H, list_elem_of_here|]. intros [] σ1 os1 [-> ->].
  eapply wp_mono; [apply IH; intros y Hy; apply H; by apply list_elem_of_further|]. intros [] σ2 os2 [-> ->]. done.
Qed.

Lemma temps_from_spec a n t : 0 <= a -> t ∈ temps_from a n -> a <= t < n.
Proof. intros Ha Ht. unfold temps_from in Ht. apply list_elem_of_fmap in Ht as (k & -> & Hk%elem_of_seq). lia. Qed.

Lemma wp_temp_save f σ t :
  ra_inv f σ -> valid s t -> f.(f_dead) t = true -> survives s t = true ->
  wp (temp_save t) (fun _ σ' os => σ' = σ /\ os = []) σ.
Proof.
  intros [Hl Hp Hv] Vt Hd Hs. unfold temp_save. apply wp_bind, wp_get_ts; [by eapply bounds_temp|].
  apply wp_assert; [|done]. destruct ((ts_of σ t).(fixed_reg)) eqn:Hf; [apply orb_true_r|]. rewrite orb_false_r.
  apply bool_decide_true. rewrite (lv_dead _ _ _ _ _ _ _ (Hv t Vt Hf) Hd). by rewrite Hs.
Qed.

Lemma global_valid t : 0 <= t < s.(nb_globals) -> valid s t /\ survives s t = true.
Proof.
  intros Ht. pose proof (se_globals (setting:=Hset)). unfold valid, survives. split; [lia|].
  by rewrite (proj2 (Z.ltb_lt _ _)) by lia.
Qed.

Lemma wp_save_globals f σ :
  ra_inv f σ -> (forall t, 0 <= t < s.(nb_globals) -> f.(f_dead) t = true) ->
  wp (save_globals s) (fun _ σ' os => σ' = σ /\ os = []) σ.
Proof.
  intros Hinv Hd. apply wp_each_check. intros t Ht. apply temps_from_spec in Ht as Ht'; [|done].
  destruct (global_valid t Ht') as [Vt Hs]. eapply wp_temp_save; [exact Hinv|done|by apply Hd|done].
Qed.

Lemma wp_sync_globals f σ :
  ra_inv f σ -> (forall t, 0 <= t < s.(nb_globals) -> f.(f_mem) t = true) ->
  wp (sync_globals s) (fun _ σ' os => σ' = σ /\ os = []) σ.
Proof.
  intros [Hl Hp Hv] Hm. apply wp_each_check. intros t Ht. apply temps_from_spec in Ht as Ht'; [|done].
  destruct (global_valid t Ht') as [Vt Hs]. apply wp_bind, wp_get_ts; [by eapply bounds_temp|].
  apply wp_assert; [|done]. destruct ((ts_of σ t).(fixed_reg)) eqn:Hf; [by rewrite orb_true_r|].
  destruct (lv_mem _ _ _ _ _ _ _ (Hv t Vt Hf) (Hm t Ht')) as [E|[_ ->]]; [|apply orb_true_r].
  unfold is_val. by rewrite E.
Qed.

Lemma wp_bb_end f σ :
  ra_inv f σ -> (forall t, valid s t -> f.(f_dead) t = true) ->
  wp (tcg_reg_alloc_bb_end s) (fun _ σ' os => σ' = σ /\ os = []) σ.
Proof.
  intros Hinv Hd. pose proof (se_globals (setting:=Hset)) as Hg. unfold tcg_reg_alloc_bb_end. apply wp_bind. eapply wp_mono.
  { apply wp_each_check. intros t Ht. apply temps_from_spec in Ht; [|lia]. assert (valid s t) as Vt by (unfold valid; lia).
    destruct ((tget s.(temps) t).(temp_local)) eqn:El.
    - eapply wp_temp_save; [done|done|by apply Hd|]. unfold survives. rewrite El. apply orb_true_r.
    - pose proof Hinv as [Hl Hp Hv]. apply wp_bind, wp_get_ts; [by eapply bounds_temp|]. apply wp_assert; [|done].
      assert ((ts_of σ t).(fixed_reg) = false) as Hf.
      { destruct ((ts_of σ t).(fixed_reg)) eqn:Hf; [|done]. destruct (ln_fixed _ _ _ Hl t Vt Hf). lia. }
      apply bool_decide_true. rewrite (lv_dead _ _ _ _ _ _ _ (Hv t Vt Hf) (Hd t Vt)). unfold survives.
      by rewrite El, (proj2 (Z.ltb_ge t (nb_globals s))) by lia. }
  intros [] σ1 os1 [-> ->]. eapply wp_mono; [eapply wp_save_globals; [done|]|by intros [] σ2 os2 [-> ->]].
  intros t Ht. apply Hd. by apply global_valid.
Qed.

(** ** Outputs *)

Definition revives (l : list Z) (f : facts) : facts :=
  mkFacts (fun u => negb (bool_decide (u ∈ l)) && f.(f_dead) u) (fun u => negb (bool_decide (u ∈ l)) && f.(f_mem) u)
    (fun u => bool_decide (u ∈ l) || f.(f_written) u) (fun u => negb (bool_decide (u ∈ l)) && f.(f_const) u).

Lemma revives_nil f : same_facts s f (revives [] f).
Proof. intros u _. unfold facts_at. cbn. by rewrite bool_decide_false by apply not_elem_of_nil. Qed.

Lemma revives_except t l f : except t (revives l f) (revives (t :: l) f).
Proof.
  intros u Hu. unfold facts_at. cbn. rewrite (bool_decide_ext (u ∈ t :: l) (u ∈ l)); [done|].
  rewrite elem_of_cons. tauto.
Qed.

Lemma live_revived t l f ts :
  ts.(val_type) = TEMP_VAL_REG -> ts.(mem_coherent) = false -> live (revives (t :: l) f) t ts.
Proof.
  intros Hv Hc. cbn. rewrite bool_decide_true by apply list_elem_of_here. cbn. split; rewrite ?Hv, ?Hc; done.
Qed.

(** The places of the temporaries [T] are not written. *)
Definition undisturbed (T : list Z) (σ : ra_state) (os : list lop) : Prop :=
  within s M σ -> forall h t k, t ∈ T -> valid s t -> M t = Some k -> hmem (exec_moves os h) k = hmem h k.

Lemma undisturbed_nil T σ : undisturbed T σ [].
Proof. done. Qed.

Lemma undisturbed_app T σ1 σ2 os1 os2 :
  slots_le s σ1 σ2 -> undisturbed T σ1 os1 -> undisturbed T σ2 os2 -> undisturbed T σ2 (os1 ++ os2).
Proof.
  intros Hle H1 H2 Hw h t k Ht Vt Hk. rewrite exec_moves_app, (H2 Hw _ t) by done.
  apply (H1 (within_le _ _ _ _ Hle Hw) h t); done.
Qed.

(** Those of [T] that are not in memory are in the registers [m]. *)
Definition safe (T : list Z) (m : Z) (σ : ra_state) : Prop :=
  forall t, t ∈ T -> valid s t -> (ts_of σ t).(fixed_reg) = false -> (ts_of σ t).(val_type) = TEMP_VAL_REG ->
    (ts_of σ t).(mem_coherent) = false -> Z.testbit m (ts_of σ t).(reg) = true.

Lemma undisturbed_alloc T m σ σ' r os :
  linked σ -> safe T m σ -> real_reg r -> Z.testbit m r = false -> Forall (stores_of s σ (owner σ r) σ') os ->
  undisturbed T σ' os.
Proof.
  intros Hl Hs Hr Hm Hos Hw h t k Ht Vt Hk. revert h. induction Hos as [|o os Ho _ IH]; intros h; [done|].
  cbn [exec_moves fold_left]. fold (exec_moves os (exec_move h o)). rewrite IH.
  destruct Ho as (ty & r' & -> & Vu & Hf & Ha & Hc). cbn [exec_move]. apply hmem_set_other. intros ->.
  assert (t = owner σ r) as ->.
  { eapply (se_inj (setting:=Hset)); [done|done|done|]. by apply Hw. }
  destruct (ln_owner _ _ _ Hl r Hr) as (_ & Hfu & Hv & Hre & _); [unfold valid in Vu; lia|].
  rewrite <- Hre, (Hs _ Ht) in Hm; done.
Qed.

Section Outputs.
Context (a : list Z) (cts : list TCGArgConstraint) (f : facts) (x0 : operands) (σ0 : ra_state) (aliased : bool) (T : list Z).

Local Abbreviation tk k := (arg a k).
Local Abbreviation ctk k := (default (mkCt 0 0 0) (cts !! k)).
Local Abbreviation is_alias k := (testb (ctk k).(ct) TCG_CT_ALIAS).
Local Abbreviation alias_reg k := (arg x0.(new_args) (Z.to_nat (ctk k).(ct_alias))).

Record outs_ready (done : list nat) (x : operands) (σ : ra_state) : Prop := {
  or_inv : ra_inv (revives (arg a <$> done) f) σ;
  or_slots : slots_le s σ0 σ;
  or_new : length x.(new_args) = length x0.(new_args);
  or_others : forall j, j ∉ done -> x.(new_args) !! j = x0.(new_args) !! j;
  or_const : x.(const_args) = x0.(const_args);
  or_reserved : forall r, Z.testbit reserved_regs r = true -> Z.testbit x.(allocated_regs) r = true;
  or_allocated : forall r, Z.testbit x.(allocated_regs) r = true ->
    Z.testbit reserved_regs r = true \/ exists k, k ∈ done /\ arg x.(new_args) k = r;
  or_owner : forall k, k ∈ done -> valid s (tk k) /\ real_reg (arg x.(new_args) k) /\ owner σ (arg x.(new_args) k) = tk k /\
    Z.testbit x.(allocated_regs) (arg x.(new_args) k) = true /\ (ts_of σ (tk k)).(mem_coherent) = false;
  or_fits : forall k, k ∈ done ->
    if aliased then arg x.(new_args) k = alias_reg k
    else Z.testbit (ctk k).(ct_regs) (arg x.(new_args) k) = true /\ arg x.(new_args) k <> TCG_REG_CALL_STACK;
  or_stay : forall r, real_reg r -> (forall j, j ∈ done -> arg x.(new_args) j <> r) ->
    owner σ r = owner σ0 r \/ owner σ r = -1;
  or_safe : safe T x.(allocated_regs) σ
}.

Record output_ok (done : list nat) (k : nat) : Prop := {
  oo_new : k ∉ done;
  oo_bound : (k < length x0.(new_args))%nat;
  oo_valid : valid s (tk k);
  oo_fixed : (ts_of σ0 (tk k)).(fixed_reg) = false;
  oo_dead : f.(f_dead) (tk k) = true;
  oo_distinct : tk k ∉ (arg a <$> done);
  oo_mode : is_alias k = aliased;
  oo_alias : aliased = true ->
    (Z.to_nat (ctk k).(ct_alias) ∉ done) /\ real_reg (alias_reg k) /\ Z.testbit reserved_regs (alias_reg k) = false /\
    owner σ0 (alias_reg k) = -1 /\ forall j, j ∈ done -> alias_reg j <> alias_reg k;
  oo_avail : aliased = false -> forall m g,
    (forall r, Z.testbit m r = true ->
       Z.testbit reserved_regs r = true \/ exists j, j ∈ done /\ g j = r /\ Z.testbit (ctk j).(ct_regs) r = true) ->
    available (ctk k).(ct_regs) m
}.

Lemma values_out X f' f1 t v σ h :
  except t f1 f' -> values X f1 v σ h -> values (t :: X) f' v σ h.
Proof.
  intros He Hv u Vu [Hne Hu]%not_elem_of_cons. rewrite (used_except t f1) by done. by apply Hv.
Qed.

(** An output still to be placed has no register. *)
Lemma output_free done x σ k :
  outs_ready done x σ -> output_ok done k ->
  (ts_of σ (tk k)).(fixed_reg) = false /\ (ts_of σ (tk k)).(val_type) <> TEMP_VAL_REG.
Proof.
  intros [[_ _ Hv] R2 _ _ _ _ _ _ _ _ _] Hok. pose proof (oo_valid _ _ Hok) as Vt.
  assert ((ts_of σ (tk k)).(fixed_reg) = false) as Hf by (destruct (R2 _ Vt) as [-> _]; apply Hok).
  split; [done|]. rewrite (lv_dead _ _ _ _ _ _ _ (Hv _ Vt Hf)); [by destruct (survives s (tk k))|]. cbn.
  rewrite bool_decide_false by apply Hok. apply Hok.
Qed.

(** Output [k] takes the register [r], which nobody has. *)
Lemma out_taken done x σ k r :
  outs_ready done x σ -> output_ok done k -> real_reg r -> owner σ r = -1 -> Z.testbit reserved_regs r = false ->
  (if aliased then r = alias_reg k
   else Z.testbit (ctk k).(ct_regs) r = true /\ Z.testbit x.(allocated_regs) r = false) ->
  outs_ready (k :: done)
    (mkOperands (regset_add r x.(allocated_regs)) (<[k := r]> x.(new_args)) x.(const_args)) (taken_by (tk k) r false σ).
Proof.
  intros HR Hok Hr Ho Hres Hfit. destruct (output_free _ _ _ _ HR Hok) as [Hf Hnr].
  destruct HR as [R1 R2 R3 R4 R5 R6 R7 R8 R9 R10 R11]. pose proof R1 as [Hl Hp Hv].
  pose proof (oo_valid _ _ Hok) as Vt. pose proof (oo_bound _ _ Hok) as Hb.
  assert (forall j, j ∈ done -> j <> k) as Hne by (intros j Hj ->; by apply (oo_new _ _ Hok)).
  assert (forall j, j <> k -> arg (<[k := r]> x.(new_args)) j = arg x.(new_args) j) as Ej by (intros; by apply arg_insert_other).
  assert (arg (<[k := r]> x.(new_args)) k = r) as Ek by (apply arg_insert_same; lia).
  assert (forall j, j ∈ done -> arg x.(new_args) j <> r) as Hrj.
  { intros j Hj E. destruct (R8 j Hj) as (Vj & _ & Ho' & _). rewrite E, Ho in Ho'. unfold valid in Vj. lia. }
  assert (r <> TCG_REG_CALL_STACK) as Hn4 by (intros ->; by rewrite (se_stack (setting:=Hset)) in Hres).
  pose proof Hr as [Hr0 _]. split; cbn [new_args const_args allocated_regs].
  - rewrite fmap_cons. eapply inv_taken; [done|apply revives_except|done..|].
    by apply live_revived.
  - eapply slots_le_trans; [done|]. by eapply slots_taken.
  - by rewrite length_insert.
  - intros j [Hj1 Hj2]%not_elem_of_cons. rewrite list_lookup_insert_ne by done. by apply R4.
  - done.
  - intros r' Hr'. destruct (Z.lt_ge_cases r' 0); [by rewrite Z.testbit_neg_r in Hr'|].
    by rewrite testbit_add, R6.
  - intros r' Hr'. destruct (Z.lt_ge_cases r' 0); [by rewrite Z.testbit_neg_r in Hr'|].
    rewrite testbit_add in Hr' by done. apply orb_true_iff in Hr' as [Hr'|Hr'%Z.eqb_eq].
    + destruct (R7 r' Hr') as [?|(j & Hj & E)]; [by left|right]. exists j. rewrite Ej by auto.
      split; [by apply elem_of_cons; right|done].
    + right. exists k. subst r'. split; [apply list_elem_of_here|done].
  - intros j [->|Hj]%elem_of_cons.
    + rewrite Ek, (owner_taken s reserved_regs), Z.eqb_refl, testbit_add, Z.eqb_refl by done.
      rewrite (ts_taken s reserved_regs), Z.eqb_refl by done. by rewrite orb_true_r.
    + destruct (R8 j Hj) as (Vj & Hrr & Hoj & Hbj & Hcj). rewrite Ej by auto. split; [done|]. split; [done|].
      rewrite (owner_taken s reserved_regs), (proj2 (Z.eqb_neq _ _) (Hrj j Hj)) by done. split; [done|].
      split; [by rewrite testbit_add, Hbj by (done || apply Hrr)|]. rewrite (ts_taken s reserved_regs) by done.
      by destruct (Z.eqb_spec (tk j) (tk k)).
  - intros j [->|Hj]%elem_of_cons.
    + rewrite Ek. destruct aliased; [done|]. by destruct Hfit.
    + rewrite Ej by auto. by apply R9.
  - intros r' Hr' Hne'. rewrite (owner_taken s reserved_regs) by done. destruct (Z.eqb_spec r' r) as [->|].
    + exfalso. apply (Hne' k); [apply list_elem_of_here|done].
    + apply R10; [done|]. intros j Hj. rewrite <- Ej by auto. apply Hne'. by apply list_elem_of_further.
  - intros t Ht Vt'. rewrite (ts_taken s reserved_regs) by done. destruct (Z.eqb_spec t (tk k)) as [->|Hnt]; intros Hft Hvt Hct.
    + cbn. rewrite testbit_add, Z.eqb_refl by done. apply orb_true_r.
    + destruct (ln_reg _ _ _ Hl t Vt' Hft Hvt) as [[? ?] _]. rewrite testbit_add by done. by rewrite (R11 t).
Qed.

(** The part after the choice of the register. *)
Lemma wp_take_output done x σ k r :
  outs_ready done x σ -> output_ok done k -> real_reg r -> owner σ r = -1 -> Z.testbit reserved_regs r = false ->
  (if aliased then r = alias_reg k else Z.testbit (ctk k).(ct_regs) r = true /\ Z.testbit x.(allocated_regs) r = false) ->
  wp (release (tk k) ;; take_reg (tk k) r false)
    (fun _ σ' os => os = [] /\ outs_ready (k :: done)
         (mkOperands (regset_add r x.(allocated_regs)) (<[k := r]> x.(new_args)) x.(const_args)) σ' /\
       forall X v, moved σ σ' [] (values X (revives (arg a <$> done) f) v σ)
         (values (tk k :: X) (revives (arg a <$> k :: done) f) v σ')) σ.
Proof.
  intros Hrd Hok Hr Ho Hres Hfit. pose proof (or_inv _ _ _ Hrd) as [Hl Hp Hv]. pose proof (oo_valid _ _ Hok) as Vt.
  assert ((ts_of σ (tk k)).(fixed_reg) = false) as Hfx.
  { destruct (or_slots _ _ _ Hrd _ Vt) as [-> _]. apply Hok. }
  assert ((ts_of σ (tk k)).(val_type) <> TEMP_VAL_REG) as Hnr.
  { rewrite (lv_dead _ _ _ _ _ _ _ (Hv _ Vt Hfx)); [by destruct (survives s (tk k))|].
    cbn. rewrite bool_decide_false by apply Hok. apply Hok. }
  apply wp_bind. unfold release. apply wp_bind, wp_get_ts; [by eapply bounds_temp|].
  unfold is_val. rewrite bool_decide_false by done. cbn [when]. apply wp_ret. eapply wp_take; [done..|].
  split; [done|]. split; [by apply out_taken|]. intros X v. split; [by eapply slots_taken|constructor|].
  intros Hw h Hval. eapply values_taken; [done|done|apply revives_except|by intros []; apply list_elem_of_here|].
  eapply values_weaken; [|exact Hval]. intros u Hu. by do 2 apply list_elem_of_further.
Qed.

Lemma wp_satisfy_output done x σ k :
  outs_ready done x σ -> output_ok done k ->
  wp (satisfy_output s frame a cts k x)
    (fun x' σ' os => outs_ready (k :: done) x' σ' /\ stores os /\ undisturbed T σ' os /\
       forall X v, moved σ σ' os (values X (revives (arg a <$> done) f) v σ)
         (values (tk k :: X) (revives (arg a <$> k :: done) f) v σ')) σ.
Proof.
  intros Hrd Hok. pose proof (or_inv _ _ _ Hrd) as Hinv. pose proof Hinv as [Hl Hp Hv].
  pose proof (oo_valid _ _ Hok) as Vt.
  assert ((ts_of σ (tk k)).(fixed_reg) = false) as Hfx.
  { destruct (or_slots _ _ _ Hrd _ Vt) as [-> _]. apply Hok. }
  unfold satisfy_output. apply wp_bind, wp_get_ts; [by eapply bounds_temp|].
  rewrite Hfx, andb_false_r, (oo_mode _ _ Hok). cbn [andb negb when]. apply wp_bind. destruct aliased eqn:Hal.
  - destruct (oo_alias _ _ Hok Hal) as (Hn & Hr & Hres & Ho & Hall).
    assert (arg x.(new_args) (Z.to_nat (ctk k).(ct_alias)) = alias_reg k) as Er.
    { unfold arg. rewrite !list_lookup_total_alt. by rewrite (or_others _ _ _ Hrd). }
    apply wp_ret. rewrite Er. apply wp_bind. eapply wp_mono; [apply (wp_take_output done x); try done|].
    + destruct (or_stay _ _ _ Hrd (alias_reg k)) as [->|]; [done| |done|done].
      intros j Hj. pose proof (or_fits _ _ _ Hrd j Hj) as Hfj. rewrite Hal in Hfj. rewrite Hfj. by apply Hall.
    + by rewrite Hal.
    + intros [] σ1 os1 (-> & H1 & H2). apply wp_ret. split; [done|]. split; [constructor|]. split; [apply undisturbed_nil|done].
  - eapply wp_mono; [apply wp_alloc_stores; [apply Hl|]; apply wp_alloc; [exact Hset|done|]|].
    { apply (oo_avail _ _ Hok Hal _ (arg x.(new_args))). intros r Hr.
      destruct (or_allocated _ _ _ Hrd r Hr) as [?|(j & Hj & E)]; [by left|right]. exists j. split_and!; [done..|].
      pose proof (or_fits _ _ _ Hrd j Hj) as Hfit. rewrite Hal, E in Hfit. apply Hfit. }
    intros r σ1 os1 (((Hin & Hr & Hct & Hna) & Hinv1 & Hst & Hfr & Hmv) & Hso).
    assert (Z.testbit reserved_regs r = false) as Hres.
    { destruct (Z.testbit reserved_regs r) eqn:E; [|done]. by rewrite (or_reserved _ _ _ Hrd r E) in Hna. }
    assert (undisturbed T σ1 os1) as Hun by (eapply undisturbed_alloc; [exact Hl|apply (or_safe _ _ _ Hrd)|done..]).
    assert (outs_ready done x σ1) as Hrd1.
    { destruct Hrd as [R1 R2 R3 R4 R5 R6 R7 R8 R9 R10 R11]. split; try done.
      - eapply slots_le_trans; [done|]. apply (Hmv [] []).
      - intros j Hj. destruct (R8 j Hj) as (Vj & Hrr & Hoj & Hbj & Hcj). assert (arg x.(new_args) j <> r) as Hjr by congruence.
        split_and!; try done; [by rewrite (fr_owners _ _ _ _ Hfr)|]. rewrite (fr_temps _ _ _ _ Hfr); [done|done|]. intros E.
        destruct (ln_owner _ _ _ Hl _ Hrr) as (_ & _ & _ & Ej & _); [unfold valid in Vj; lia|]. rewrite Hoj, E in Ej.
        destruct (ln_owner _ _ _ Hl r Hr) as (_ & _ & _ & Er & _); [unfold valid in Vj; lia|]. congruence.
      - intros r' Hr' Hne. destruct (Z.eq_dec r' r) as [->|Hn]; [right; apply Hfr|].
        rewrite (fr_owners _ _ _ _ Hfr) by done. by apply R10.
      - intros t Ht Vt'. destruct (Z.eq_dec t (owner σ r)) as [->|Hn]; [|rewrite (fr_temps _ _ _ _ Hfr) by done; by apply R11].
        destruct (fr_spilled _ _ _ _ Hfr) as (-> & _); [unfold valid in Vt'; lia|done]. }
    apply wp_bind. eapply wp_mono; [apply (wp_take_output done x); try done; [apply Hfr|by rewrite Hal]|].
    intros [] σ2 os2 (-> & H1 & H2). apply wp_ret. rewrite !app_nil_r. split; [done|]. split; [done|].
    split; [intros Hw; apply Hun; eapply within_le; [apply (H2 [] [])|done]|].
    intros X v. pose proof (moved_trans _ _ _ _ _ _ _ _ _ _ (Hmv X v) (H2 X v)) as Hm. by rewrite app_nil_r in Hm.
Qed.

Lemma wp_satisfy_outputs ks : forall done x σ,
  outs_ready done x σ ->
  (forall pre k post, ks = pre ++ k :: post -> output_ok (reverse pre ++ done) k) ->
  wp (ra_fold (satisfy_output s frame a cts) ks x)
    (fun x' σ' os => outs_ready (reverse ks ++ done) x' σ' /\ stores os /\ undisturbed T σ' os /\
       forall X v, moved σ σ' os (values X (revives (arg a <$> done) f) v σ)
         (values ((arg a <$> reverse ks) ++ X) (revives (arg a <$> (reverse ks ++ done)) f) v σ')) σ.
Proof.
  induction ks as [|k ks IH]; intros done x σ Hrd Hok; cbn [ra_fold].
  { apply wp_ret. split; [done|]. split; [constructor|]. split; [apply undisturbed_nil|]. intros X v. by apply moved_refl. }
  apply wp_bind. eapply wp_mono; [apply (wp_satisfy_output done); [done|apply (Hok [] k ks eq_refl)]|].
  intros x1 σ1 os1 (Hrd1 & Hs1 & Hu1 & Hm1). eapply wp_mono; [apply (IH (k :: done)); [done|]|].
  { intros pre j post ->. specialize (Hok (k :: pre) j post eq_refl). rewrite reverse_cons, <- app_assoc in Hok. exact Hok. }
  intros x2 σ2 os2 (Hrd2 & Hs2 & Hu2 & Hm2). rewrite reverse_cons, <- app_assoc. split; [done|]. split; [by apply Forall_app|].
  split; [eapply undisturbed_app; [apply (Hm2 [] [])|done|done]|].
  intros X v. rewrite fmap_app, <- app_assoc. eapply moved_trans; [apply Hm1|apply Hm2].
Qed.
End Outputs.

(** ** After the operation *)

Section Finish.
Context (a na : list Z) (da sa : Z).

Local Abbreviation tk k := (arg a k).

(** The state of the analysis behind the operation. *)
Definition settles (ks : list nat) (f : facts) : facts :=
  mkFacts
    (fun u => match List.find (fun k => tk k =? u) ks with Some k => IS_DEAD_ARG da k | None => f.(f_dead) u end)
    (fun u => match List.find (fun k => tk k =? u) ks with Some k => NEED_SYNC_ARG sa k | None => f.(f_mem) u end)
    f.(f_written) f.(f_const).

Lemma settles_at k f u :
  facts_at (settles [k] f) u =
  if tk k =? u then (IS_DEAD_ARG da k, NEED_SYNC_ARG sa k, f.(f_written) u, f.(f_const) u) else facts_at f u.
Proof. unfold facts_at. cbn. by destruct (tk k =? u). Qed.

Lemma settles_cons k ks f : tk k ∉ (arg a <$> ks) -> same_facts s (settles ks (settles [k] f)) (settles (k :: ks) f).
Proof.
  intros Hk u _. unfold facts_at. cbn. destruct (Z.eqb_spec (tk k) u) as [<-|Hne]; [|done].
  assert (List.find (fun j => tk j =? tk k) ks = None) as ->; [|done].
  induction ks as [|j ks IH]; [done|]. rewrite fmap_cons in Hk. apply not_elem_of_cons in Hk as [Hj Hk]. cbn.
  rewrite (proj2 (Z.eqb_neq _ _)) by congruence. by apply IH.
Qed.

(** Memory has the value. *)
Lemma inv_coherent f f' σ t :
  ra_inv f σ -> except t f f' -> (ts_of σ t).(val_type) = TEMP_VAL_REG -> (ts_of σ t).(mem_coherent) = true ->
  (ts_of σ t).(mem_allocated) = true -> f'.(f_dead) t = false -> survives s t = true -> ra_inv f' σ.
Proof.
  intros [Hl Hp Hv] He Hr Hc Ha Hd Hs. split; [done|done|]. intros u Vu Hf. destruct (Z.eq_dec u t) as [->|Hne].
  - rewrite Hd. split; rewrite ?Hr; try done. by right.
  - eapply live_except; [done|done|by apply Hv].
Qed.

Lemma values_reg X f f' v σ h t :
  except t f f' -> (ts_of σ t).(val_type) = TEMP_VAL_REG -> values X f v σ h -> values X f' v σ h.
Proof.
  intros He Hr Hv u Vu Hu. destruct (Z.eq_dec u t) as [->|Hne].
  - destruct (Hv t Vu Hu) as [V1 V2 V3 V4]. split; try done. congruence.
  - rewrite (used_except t f) by done. by apply Hv.
Qed.

Lemma wp_finish_output f σ k :
  ra_inv f σ -> valid s (tk k) -> (ts_of σ (tk k)).(fixed_reg) = false -> real_reg (arg na k) ->
  owner σ (arg na k) = tk k -> f.(f_dead) (tk k) = false -> f.(f_mem) (tk k) = false ->
  (NEED_SYNC_ARG sa k = true -> survives s (tk k) = true) ->
  wp (finish_output s frame a na da sa k)
    (fun _ σ' os => stores os /\ ra_inv (settles [k] f) σ' /\
       (forall r, real_reg r -> owner σ r <> tk k -> owner σ' r = owner σ r) /\
       forall X v, moved σ σ' os (values X f v σ) (values X (settles [k] f) v σ')) σ.
Proof.
  intros Hinv Vt Hf Hr Ho Hd Hm Hs. pose proof Hinv as [Hl Hp Hv]. set (t := tk k) in *. set (r := arg na k) in *.
  assert (owner σ r <> -1) as Hno by (rewrite Ho; unfold valid in Vt; lia).
  destruct (ln_owner _ _ _ Hl r Hr Hno) as (_ & _ & Hvt & _ & _). rewrite Ho in Hvt.
  unfold finish_output. fold t r. apply wp_bind, wp_get_ts; [by eapply bounds_temp|]. rewrite Hf. cbn [andb when].
  apply wp_bind, wp_ret. apply wp_bind.
  set (f1 := mkFacts f.(f_dead) (fun u => if u =? t then NEED_SYNC_ARG sa k else f.(f_mem) u) f.(f_written) f.(f_const)).
  assert (except t f f1) as He1.
  { intros u Hu. unfold facts_at. cbn. by rewrite (proj2 (Z.eqb_neq u t)). }
  assert (wp (when (NEED_SYNC_ARG sa k) (tcg_reg_sync s frame r))
    (fun _ σ1 os1 => stores os1 /\ ra_inv f1 σ1 /\ σ1.(reg_to_temp) = σ.(reg_to_temp) /\
      forall X v, moved σ σ1 os1 (values X f v σ) (values X f1 v σ1)) σ) as Hsync.
  { apply wp_when; intros Hn.
    - eapply wp_mono; [apply wp_sync; [exact Hset|done|done|done]|]. rewrite Ho.
      intros [] σ1 os1 (Hinv1 & Hst & Hon & (Ev & _) & Hc & Ha & Hmv). rewrite Hvt in Ev.
      split; [done|]. split; [eapply (inv_coherent f f1 σ1 t); auto|]. split; [apply Hon|]. intros X v.
      destruct (Hmv X v) as [S1 M1 V1]. split; [done|done|]. intros Hw h Hval. eapply values_reg; [done|done|by apply V1].
    - split; [constructor|]. assert (same_facts s f f1) as Hsame.
      { intros u _. unfold facts_at. cbn. destruct (Z.eqb_spec u t) as [->|]; [|done]. by rewrite Hn, Hm. }
      split; [by eapply inv_same|]. split; [done|]. intros X v. apply moved_refl. intros h. by apply values_same. }
  eapply wp_mono; [exact Hsync|]. intros [] σ1 os1 (Hst & Hinv1 & Eo & Hmv). cbn [app].
  apply wp_when; intros Hdd.
  - eapply wp_mono; [by apply wp_bury|]. intros [] σ2 os2 (-> & Hinv2 & Hb & Hm2). rewrite app_nil_r.
    assert (same_facts s (kill t f1) (settles [k] f)) as Hsame.
    { intros u _. rewrite settles_at. fold t. unfold facts_at. cbn. rewrite (Z.eqb_sym t u).
      destruct (Z.eqb_spec u t) as [->|]; [|done]. by rewrite Hdd. }
    split; [done|]. split; [by eapply inv_same|]. split.
    + intros r' Hr' Hne. rewrite (bu_owner _ _ _ _ Hb), Eo by done. by rewrite (proj2 (Z.eqb_neq _ _) Hne).
    + intros X v. pose proof (moved_trans _ _ _ _ _ _ _ _ _ _ (Hmv X v) (Hm2 X v)) as Hmm. rewrite app_nil_r in Hmm.
      destruct Hmm as [S1 M1 V1]. split; [done|done|]. intros Hw h Hval. eapply values_same; [done|by apply V1].
  - assert (same_facts s f1 (settles [k] f)) as Hsame.
    { intros u _. rewrite settles_at. fold t. unfold facts_at. cbn. rewrite (Z.eqb_sym t u).
      destruct (Z.eqb_spec u t) as [->|]; [|done]. by rewrite Hdd, Hd. }
    rewrite app_nil_r. split; [done|]. split; [by eapply inv_same|]. split; [intros; by rewrite Eo|].
    intros X v. destruct (Hmv X v) as [S1 M1 V1]. split; [done|done|]. intros Hw h Hval. eapply values_same; [done|by apply V1].
Qed.

Record finish_ok (f : facts) (σ : ra_state) (k : nat) : Prop := {
  fo_valid : valid s (tk k);
  fo_fixed : (ts_of σ (tk k)).(fixed_reg) = false;
  fo_reg : real_reg (arg na k);
  fo_owner : owner σ (arg na k) = tk k;
  fo_dead : f.(f_dead) (tk k) = false;
  fo_mem : f.(f_mem) (tk k) = false;
  fo_survives : NEED_SYNC_ARG sa k = true -> survives s (tk k) = true
}.

Lemma wp_finish_outputs ks : forall f σ,
  ra_inv f σ -> NoDup (arg a <$> ks) -> (forall k, k ∈ ks -> finish_ok f σ k) ->
  wp (ra_each (finish_output s frame a na da sa) ks)
    (fun _ σ' os => stores os /\ ra_inv (settles ks f) σ' /\
       forall X v, moved σ σ' os (values X f v σ) (values X (settles ks f) v σ')) σ.
Proof.
  induction ks as [|k ks IH]; intros f σ Hinv Hnd Hok; cbn [ra_each].
  { apply wp_ret. assert (same_facts s f (settles [] f)) as Hsame by done. split; [constructor|].
    split; [by eapply inv_same|]. intros X v. apply moved_refl. intros h. by apply values_same. }
  rewrite fmap_cons in Hnd. apply NoDup_cons in Hnd as [Hk Hnd]. apply wp_bind. eapply wp_mono.
  { destruct (Hok k) as [H1 H2 H3 H4 H5 H6 H7]; [apply list_elem_of_here|]. by apply wp_finish_output. }
  intros [] σ1 os1 (Hs1 & Hinv1 & Ho1 & Hm1). eapply wp_mono; [apply (IH (settles [k] f) σ1); [done|done|]|].
  { intros j Hj. assert (tk j <> tk k) as Hne.
    { intros E. apply Hk. rewrite <- E. by apply list_elem_of_fmap_2. }
    destruct (Hok j) as [H1 H2 H3 H4 H5 H6 H7]; [by apply list_elem_of_further|].
    pose proof (settles_at k f (tk j)) as E. rewrite (proj2 (Z.eqb_neq _ _)) in E by congruence. injection E as E1 E2.
    split; try done.
    - destruct (mv_slots _ _ _ _ _ _ _ (Hm1 [] []) _ H1) as [-> _]. done.
    - rewrite Ho1 by (done || congruence). done.
    - cbn. by rewrite E1.
    - cbn. by rewrite E2. }
  intros [] σ2 os2 (Hs2 & Hinv2 & Hm2). split; [by apply Forall_app|].
  split; [eapply inv_same; [by apply settles_cons|done]|]. intros X v.
  destruct (moved_trans _ _ _ _ _ _ _ _ _ _ (Hm1 X v) (Hm2 X v)) as [S1 M1 V1]. split; [done|done|].
  intros Hw h Hval. eapply values_same; [by apply settles_cons|by apply V1].
Qed.
End Finish.
End Step.
