(* ===== verification/RegAllocTable.v ===== *)
(** * The constraint table and the register allocator

    What the allocator needs of the table of tcg/i386/tcg-target.c: for every
    operand there is a register left when its turn comes, aliases connect outputs
    with inputs one to one, and aliased operands are never constants.  The
    conditions are evaluated for every operation. *)

From S2P Require Import Prelude QtraceDefs X86 TcgOut TcgEnc TcgEmit TcgCond TcgOpDefs TcgSem TcgIR.
From S2P Require Import Optimize OptCopies OptSound Liveness LivenessSound InstrCall Prologue RegAlloc RegAllocLogic.
From S2P Require Import RegAllocOps RegAllocStep.

(** The stack pointer, from [tcg_target_init], and the register that the translator
    reserves for the CPU state. *)
Definition reserved : Z := regset_of [TCG_REG_CALL_STACK; TCG_AREG0].

Definition op_ct (op : TCGOpcode) (k : nat) : TCGArgConstraint :=
  default (mkCt 0 0 0) (default [] (op_cts op) !! k).
Definition sorted_args (op : TCGOpcode) (start n : nat) : list nat :=
  sort_constraints (constraint_priority (default [] (op_cts op))) start n.

(** ** Registers that are left *)

Definition candidates (m : Z) : list Z :=
  List.filter (fun r => Z.testbit m r && negb (Z.testbit reserved r)) tcg_target_reg_alloc_order.

(** After operands with the registers [ms]: there are more candidates than such
    operands, or one that none of them can have. *)
Definition avail_check (ms : list Z) (m : Z) : bool :=
  (length ms <? length (candidates m))%nat ||
  existsb (fun r => forallb (fun m' => negb (Z.testbit m' r)) ms) (candidates m).

Lemma order_NoDup : NoDup tcg_target_reg_alloc_order.
Proof. apply (bool_decide_unpack _). vm_compute. exact I. Qed.

Lemma candidates_spec m r :
  r ∈ candidates m <-> r ∈ tcg_target_reg_alloc_order /\ Z.testbit m r = true /\ Z.testbit reserved r = false.
Proof.
  unfold candidates. rewrite list_elem_of_In, filter_In, <- list_elem_of_In, andb_true_iff, negb_true_iff. done.
Qed.

Lemma avail_spec (regs_of : nat -> Z) js m : avail_check (regs_of <$> js) m = true ->
  forall mk g,
    (forall r, Z.testbit mk r = true ->
       Z.testbit reserved r = true \/ exists j, j ∈ js /\ g j = r /\ Z.testbit (regs_of j) r = true) ->
    available m mk.
Proof.
  intros Hc mk g Hmk. apply orb_true_iff in Hc as [Hlt%Nat.ltb_lt|Hex].
  - rewrite length_fmap in Hlt.
    destruct (decide (Forall (fun r => r ∈ (g <$> js)) (candidates m))) as [Hall|Hn].
    { exfalso. assert (length (candidates m) <= length (g <$> js))%nat as Hle.
      { apply submseteq_length, NoDup_submseteq; [|by rewrite Forall_forall in Hall].
        apply NoDup_ListNoDup, List.NoDup_filter, NoDup_ListNoDup, order_NoDup. }
      rewrite length_fmap in Hle. lia. }
    apply not_Forall_Exists in Hn; [|intros ?; apply _]. apply Exists_exists in Hn as (r & Hr & Hng).
    apply candidates_spec in Hr as (Hin & Hm & Hres). exists r. split; [done|]. split; [done|].
    destruct (Z.testbit mk r) eqn:E; [|done]. destruct (Hmk r E) as [?|(j & Hj & Eg & _)]; [congruence|].
    exfalso. apply Hng. rewrite <- Eg. by apply list_elem_of_fmap_2.
  - apply existsb_exists in Hex as (r & Hr & Hall). apply list_elem_of_In, candidates_spec in Hr as (Hin & Hm & Hres).
    exists r. split; [done|]. split; [done|]. destruct (Z.testbit mk r) eqn:E; [|done].
    destruct (Hmk r E) as [?|(j & Hj & _ & Hb)]; [congruence|]. rewrite forallb_forall in Hall.
    assert (negb (Z.testbit (regs_of j) r) = true) as Hf; [|by rewrite Hb in Hf].
    apply Hall, list_elem_of_In. by apply list_elem_of_fmap_2.
Qed.

(** Every operand of [ks] in turn. *)
Fixpoint avail_all (op : TCGOpcode) (done ks : list nat) : bool :=
  match ks with
  | [] => true
  | k :: ks => avail_check (ct_regs ∘ op_ct op <$> done) (op_ct op k).(ct_regs) && avail_all op (k :: done) ks
  end.

Lemma avail_all_spec op ks : forall done pre k post,
  avail_all op done ks = true -> ks = pre ++ k :: post ->
  avail_check (ct_regs ∘ op_ct op <$> reverse pre ++ done) (op_ct op k).(ct_regs) = true.
Proof.
  induction ks as [|j ks IH]; intros done pre k post Ha E; [by destruct pre|].
  cbn [avail_all] in Ha. apply andb_true_iff in Ha as [Ha1 Ha2]. destruct pre as [|p pre]; injection E as -> E; [done|].
  rewrite reverse_cons, <- app_assoc. by eapply IH.
Qed.

(** ** Aliases *)

Definition const_flags : Z := Z.lor TCG_CT_CONST (Z.lor TCG_CT_CONST_S32 TCG_CT_CONST_U32).

Definition input_check (op : TCGOpcode) (k : nat) : bool :=
  let c := op_ct op k in
  negb (testb c.(ct) TCG_CT_ALIAS) &&
  (negb (testb c.(ct) TCG_CT_IALIAS) ||
   negb (testb c.(ct) const_flags) && (Z.to_nat c.(ct_alias) <? nb_oargs op)%nat).

Definition output_check (op : TCGOpcode) (k : nat) : bool :=
  let c := op_ct op k in
  negb (testb c.(ct) TCG_CT_ALIAS) ||
  (let j := Z.to_nat c.(ct_alias) in
   (nb_oargs op <=? j)%nat && (j <? nb_oargs op + nb_iargs op)%nat && testb (op_ct op j).(ct) TCG_CT_IALIAS &&
   ((op_ct op j).(ct_alias) =? Z.of_nat k)).

Definition outputs_aliased (op : TCGOpcode) : bool := testb (op_ct op 0).(ct) TCG_CT_ALIAS.

Definition table_check (op : TCGOpcode) : bool :=
  let no := nb_oargs op in
  let ni := nb_iargs op in
  (length (default [] (op_cts op)) =? no + ni)%nat &&
  forallb (input_check op) (seq no ni) && forallb (output_check op) (seq 0 no) &&
  forallb (fun k => eqb (testb (op_ct op k).(ct) TCG_CT_ALIAS) (outputs_aliased op)) (seq 0 no) &&
  avail_all op [] (sorted_args op no ni) && (outputs_aliased op || avail_all op [] (sorted_args op 0 no)).

(** The operations that [tcg_reg_alloc_op] gets. *)
Definition allocated_op (op : TCGOpcode) : bool :=
  match op with
  | INDEX_op_call | INDEX_op_mov _ | INDEX_op_movi _ => false
  | _ => negb (testb (op_flags op) TCG_OPF_NOT_PRESENT)
  end.

Lemma table_ok op : allocated_op op = true -> table_check op = true.
Proof.
  intros H. destruct op; try match goal with t : TCGType |- _ => destruct t end; try discriminate H;
    vm_compute; reflexivity.
Qed.

(** The same as propositions. *)
Record op_table (op : TCGOpcode) : Prop := {
  tb_length : length (default [] (op_cts op)) = (nb_oargs op + nb_iargs op)%nat;
  tb_input : forall k, k ∈ seq (nb_oargs op) (nb_iargs op) -> testb (op_ct op k).(ct) TCG_CT_ALIAS = false;
  tb_const : forall k, k ∈ seq (nb_oargs op) (nb_iargs op) -> testb (op_ct op k).(ct) TCG_CT_IALIAS = true ->
    (Z.to_nat (op_ct op k).(ct_alias) < nb_oargs op)%nat /\ forall w, tcg_target_const_match w (op_ct op k) = false;
  tb_mode : forall k, k ∈ seq 0 (nb_oargs op) -> testb (op_ct op k).(ct) TCG_CT_ALIAS = outputs_aliased op;
  tb_alias : forall k, k ∈ seq 0 (nb_oargs op) -> outputs_aliased op = true ->
    let j := Z.to_nat (op_ct op k).(ct_alias) in
    j ∈ seq (nb_oargs op) (nb_iargs op) /\ testb (op_ct op j).(ct) TCG_CT_IALIAS = true /\
    (op_ct op j).(ct_alias) = Z.of_nat k;
  tb_inputs : avail_all op [] (sorted_args op (nb_oargs op) (nb_iargs op)) = true;
  tb_outputs : outputs_aliased op = false -> avail_all op [] (sorted_args op 0 (nb_oargs op)) = true
}.

Lemma op_tables op : allocated_op op = true -> op_table op.
Proof.
  intros H%table_ok. unfold table_check in H. cbv zeta in H. rewrite !andb_true_iff, !forallb_forall in H.
  destruct H as (((((H1%Nat.eqb_eq & H2) & H3) & H4) & H5) & H6).
  assert (forall k n m, k ∈ seq n m -> In k (seq n m)) as Hin by (intros; by apply list_elem_of_In). split; try done.
  - intros k Hk%Hin%H2. unfold input_check in Hk. by apply andb_true_iff in Hk as [Hk%negb_true_iff _].
  - intros k Hk%Hin%H2 Ha. unfold input_check in Hk. apply andb_true_iff in Hk as [_ Hk]. rewrite Ha in Hk. cbn in Hk.
    apply andb_true_iff in Hk as [Hc%negb_true_iff Hlt%Nat.ltb_lt]. split; [done|]. intros w. unfold const_flags in Hc.
    rewrite !testb_lor in Hc. apply orb_false_iff in Hc as [E1 [E2 E3]%orb_false_iff].
    unfold tcg_target_const_match. by rewrite E1, E2, E3.
  - intros k Hk%Hin%H4. by apply eqb_prop in Hk.
  - intros k Hk Hal. pose proof (H4 k (Hin _ _ _ Hk)) as Ek%eqb_prop. apply Hin, H3 in Hk. unfold output_check in Hk.
    rewrite Ek, Hal in Hk. cbn [negb orb] in Hk. rewrite !andb_true_iff in Hk.
    destruct Hk as (((L1%Nat.leb_le & L2%Nat.ltb_lt) & L3) & L4%Z.eqb_eq). split; [apply elem_of_seq; lia|done].
  - intros Hal. by rewrite Hal in H6.
Qed.

Lemma sorted_args_perm op start n : sorted_args op start n ≡ₚ seq start n.
Proof.
  unfold sorted_args, sort_constraints. set (p := constraint_priority _).
  destruct (sort_outer_spec p n (n - 1) 0 (seq start n)) as [H _]; [apply length_seq|lia|intros a b x y ??; lia|done].
Qed.

Lemma sorted_NoDup op start n pre k post :
  sorted_args op start n = pre ++ k :: post ->
  (k ∈ seq start n) /\ (k ∉ reverse pre) /\ (forall j, j ∈ reverse pre -> j ∈ seq start n).
Proof.
  intros E. pose proof (sorted_args_perm op start n) as Hp. assert (NoDup (sorted_args op start n)) as Hnd.
  { rewrite Hp. apply NoDup_seq. }
  rewrite E in Hp, Hnd. apply NoDup_app in Hnd as (_ & Hd & _). split_and!.
  - rewrite <- Hp. apply elem_of_app. right. apply list_elem_of_here.
  - rewrite elem_of_reverse. intros Hk. apply (Hd k Hk). apply list_elem_of_here.
  - intros j Hj. rewrite elem_of_reverse in Hj. rewrite <- Hp. apply elem_of_app. by left.
Qed.
