(* ===== verification/RegAllocInsn.v ===== *)
(** * The register allocator on one operation

    [tcg_reg_alloc_op]: it succeeds, the operands of the emitted operation satisfy
    the constraint table and have the values of the inputs, the outputs are in
    registers of their own, and the state that it leaves agrees with the liveness
    analysis. *)

From S2P Require Import Prelude QtraceDefs X86 TcgOut TcgEnc TcgEmit TcgCond TcgOpDefs TcgSem TcgIR.
From S2P Require Import Optimize OptCopies OptSound Liveness LivenessSound InstrCall Prologue RegAlloc RegAllocLogic.
From S2P Require Import RegAllocSpill RegAllocOps RegAllocStep RegAllocTable.

Lemma wp_then {A B} (m : ra A) (n : A -> ra unit) (g : A -> ra B) Q σ :
  wp (x ← m; n x ;; mret x) (fun x σ1 os1 => wp (g x) (fun b σ2 os2 => Q b σ2 (os1 ++ os2)) σ1) σ ->
  wp (x ← m; n x ;; g x) Q σ.
Proof.
  intros (x & σ1 & os1 & E & b & σ2 & os2 & E2 & HQ). exists b, σ2, (os1 ++ os2). split; [|done].
  unfold mbind, ra_bind in *. destruct (m σ) as [[[y τ1] l1]|]; [|done]. cbn in *.
  destruct (n y τ1) as [[[[] τ2] l2]|]; [|done]. cbn in *. injection E as -> -> <-.
  rewrite E2. cbn. by rewrite app_nil_r, app_assoc.
Qed.

Section Insn.
Context (s : tcg_temps) (frame : tcg_frame) (M : Z -> option (Z * Z)).
Context {Hset : setting s frame reserved M}.

Local Abbreviation ts_of σ t := (tget (ra_temps σ) t).
Local Abbreviation owner σ r := (tget (reg_to_temp σ) r).
Local Abbreviation ra_inv := (ra_inv s frame reserved).
Local Abbreviation values := (values s M).
Local Abbreviation moved := (moved s M).
Local Abbreviation stores os := (Forall (fun o => is_store o = true) os).

(** Globals that are in memory as well. *)
Definition globals_in_mem (v : list Z) (σ : ra_state) (h : hstate) : Prop :=
  forall t, 0 <= t < s.(nb_globals) -> (ts_of σ t).(fixed_reg) = false -> in_mem s M v h t.

Lemma mem_value f v σ h t :
  ra_inv f σ -> values [] f v σ h -> valid s t -> (ts_of σ t).(fixed_reg) = false -> f.(f_mem) t = true ->
  in_mem s M v h t.
Proof.
  intros [_ _ Hlv] Hv Vt Hf Hm. destruct (Hv t Vt) as [_ V2 _ V4]; [apply not_elem_of_nil|].
  destruct (lv_mem _ _ _ _ _ _ _ (Hlv t Vt Hf) Hm) as [E|[E Hc]]; [|by apply V2].
  apply V4; [done|]. unfold used_by. by rewrite Hm, andb_false_r.
Qed.

Lemma globals_value f v σ h :
  ra_inv f σ -> values [] f v σ h -> (forall t, 0 <= t < s.(nb_globals) -> f.(f_mem) t = true) ->
  globals_in_mem v σ h.
Proof.
  intros Hinv Hv Hm t Ht Hf. destruct (global_valid s frame reserved M t Ht) as [Vt _]. eapply mem_value; eauto.
Qed.

Definition all_globals : list Z := temps_from 0 s.(nb_globals).

Lemma all_globals_elem t : t ∈ all_globals <-> 0 <= t < s.(nb_globals).
Proof.
  unfold all_globals, temps_from. rewrite list_elem_of_fmap. split.
  - intros (k & -> & Hk%elem_of_seq). lia.
  - intros Ht. exists (Z.to_nat t). rewrite elem_of_seq. lia.
Qed.

Section Op.
Context (i : insn) (da sa : Z) (f : facts).

Local Abbreviation op := (opc i).
Local Abbreviation a := (args i).
Local Abbreviation no := (nb_oargs op).
Local Abbreviation ni := (nb_iargs op).
Local Abbreviation cts := (default [] (op_cts op)).
Local Abbreviation tk k := (arg a k).

(** The analysis after the inputs that die, with the outputs written, and behind
    the operation. *)
Definition read_facts : facts := kills (dying a da (seq no ni)) f.
Definition written_facts : facts := revives (arg a <$> seq 0 no) read_facts.
Definition after_facts : facts := settles a da sa (seq 0 no) written_facts.

Record op_ok (σ : ra_state) : Prop := {
  op_here : allocated_op op = true;
  op_length : (no + ni <= length a)%nat;
  op_valid : forall k, (k < no + ni)%nat -> valid s (tk k);
  op_live : forall k, k ∈ seq no ni -> f.(f_dead) (tk k) = false;
  op_read : forall k, k ∈ seq no ni -> s.(nb_globals) <= tk k -> (tget s.(temps) (tk k)).(temp_local) = true ->
    f.(f_written) (tk k) = true;
  op_once : forall j k, j ∈ seq no ni -> k ∈ seq no ni -> j <> k ->
    IS_DEAD_ARG da j = true -> IS_DEAD_ARG da k = true -> tk j <> tk k;
  op_distinct : NoDup (arg a <$> seq 0 no);
  op_fixed : forall k, k ∈ seq 0 no -> (ts_of σ (tk k)).(fixed_reg) = false;
  op_dead : forall k, k ∈ seq 0 no -> read_facts.(f_dead) (tk k) = true;
  op_sync : forall k, k ∈ seq 0 no -> NEED_SYNC_ARG sa k = true -> survives s (tk k) = true;
  op_ends : bb_end op = true -> no = 0%nat /\ forall t, valid s t -> read_facts.(f_dead) t = true;
  op_effects : reads_globals op = true -> forall t, 0 <= t < s.(nb_globals) -> f.(f_mem) t = true
}.

(** *** Inputs *)

Definition op_start : operands :=
  mkOperands reserved (replicate (no + ni) 0 ++ drop (no + ni) a) (replicate (no + ni) false).

Lemma start_ready σ : ra_inv f σ -> op_ok σ -> ready s frame reserved a cts da f σ [] op_start σ.
Proof.
  intros Hinv Hok. pose proof (tb_length _ (op_tables _ (op_here _ Hok))) as Hlen. pose proof (op_length _ Hok) as Hle.
  split; cbn [new_args const_args allocated_regs op_start]; try done.
  - rewrite length_app, length_replicate, length_drop. lia.
  - by rewrite length_replicate.
  - intros k Hk. rewrite lookup_app_r by (rewrite length_replicate; lia). rewrite length_replicate, lookup_drop. f_equal. lia.
  - by left.
  - intros k Hk. by apply not_elem_of_nil in Hk.
  - intros j k Hj. by apply not_elem_of_nil in Hj.
  - intros k _ Hk. unfold is_const, op_start. cbn [const_args]. apply list_lookup_total_correct, lookup_replicate. lia.
  - intros j k Hj. by apply not_elem_of_nil in Hj.
Qed.

Lemma inputs_ok σ pre k post :
  op_ok σ -> sorted_args op no ni = pre ++ k :: post -> input_ok s reserved a cts da f σ (reverse pre ++ []) k.
Proof.
  intros Hok E. destruct (op_tables _ (op_here _ Hok)) as [T1 T2 T3 T4 T5 T6 T7].
  destruct (sorted_NoDup _ _ _ _ _ _ E) as (Hk & Hnk & Hpre). rewrite app_nil_r.
  pose proof Hk as Hk'%elem_of_seq. split.
  - done.
  - rewrite T1. pose proof (op_length _ Hok). lia.
  - apply (op_valid _ Hok). lia.
  - by apply (op_live _ Hok).
  - by apply (op_read _ Hok).
  - intros Ha Hf Et. destruct (T3 k Hk Ha) as [Hlt _]. change (default (mkCt 0 0 0) (cts !! k)) with (op_ct op k) in Et.
    rewrite Et, (op_fixed _ Hok) in Hf; [done|]. apply elem_of_seq. lia.
  - intros j Hj. apply (op_once _ Hok); [by apply Hpre|done|]. by intros ->.
  - intros Ha. by apply T3.
  - intros m g Hm. apply (avail_spec (ct_regs ∘ op_ct op) (reverse pre)) with (g := g); [|exact Hm].
    pose proof (avail_all_spec _ _ _ _ _ _ T6 E) as Hav. by rewrite app_nil_r in Hav.
Qed.

(** After the inputs that die have left their registers. *)
Record placed_at (x : operands) (σ : ra_state) : Prop := {
  pa_new : length x.(new_args) = length a;
  pa_const : length x.(const_args) = (no + ni)%nat;
  pa_rest : drop (no + ni) x.(new_args) = drop (no + ni) a;
  pa_unset : forall k, k ∈ seq 0 no -> is_const x k = false;
  pa_fits : forall k, k ∈ seq no ni ->
    if is_const x k then tcg_target_const_match (s64 (arg x.(new_args) k)) (op_ct op k) = true
    else in_mask (op_ct op k).(ct_regs) (arg x.(new_args) k) = true /\ real_reg (arg x.(new_args) k);
  pa_alias : forall k, k ∈ seq no ni -> testb (op_ct op k).(ct) TCG_CT_IALIAS = true ->
    is_const x k = false /\ Z.testbit reserved (arg x.(new_args) k) = false /\ owner σ (arg x.(new_args) k) = -1;
  pa_aliases : forall j k, j ∈ seq no ni -> k ∈ seq no ni -> testb (op_ct op j).(ct) TCG_CT_IALIAS = true ->
    testb (op_ct op k).(ct) TCG_CT_IALIAS = true -> j <> k -> arg x.(new_args) j <> arg x.(new_args) k;
  pa_apart : forall j k, j ∈ seq no ni -> k ∈ seq no ni -> testb (op_ct op j).(ct) TCG_CT_IALIAS = true ->
    is_const x k = false -> tk j <> tk k -> arg x.(new_args) j <> arg x.(new_args) k
}.

Lemma placed_bury σ σ1 σ2 x ks :
  op_ok σ -> ks ≡ₚ seq no ni -> ready s frame reserved a cts da f σ ks x σ1 ->
  (forall r, real_reg r -> owner σ2 r = if bool_decide (owner σ1 r ∈ dying a da (seq no ni)) then -1 else owner σ1 r) ->
  placed_at x σ2.
Proof.
  intros Hok Hks [R1 R2 R3 R4 R5 R6 R7 R8 R9 R10 R11] Ho. pose proof (tb_length _ (op_tables _ (op_here _ Hok))) as Hlen.
  assert (forall k, k ∈ seq no ni -> operand_at reserved a cts da x σ1 k) as Hat.
  { intros k Hk. rewrite <- Hks in Hk. by apply R8. }
  split; [done|lia|..].
  - apply list_eq. intros k. rewrite !lookup_drop. apply R5. lia.
  - intros k Hk%elem_of_seq. apply R10; [rewrite Hks, elem_of_seq|]; lia.
  - intros k Hk. destruct (Hat k Hk) as [O1 O2 O3 _]. destruct (is_const x k); [by apply O1|].
    destruct (O2 eq_refl) as ([Hr Hr'] & Hs & Ht & _). split; [|done]. unfold in_mask.
    apply andb_true_iff. split; [apply andb_true_iff; split; [lia|done]|]. by apply negb_true_iff, Z.eqb_neq.
  - intros k Hk Ha. destruct (Hat k Hk) as [O1 O2 O3 _]. destruct (O3 Ha) as (Hc & Hres & Hown).
    split; [done|]. split; [done|]. destruct (O2 Hc) as (Hr & _). rewrite Ho by done.
    destruct Hown as [->|[-> Hd]]; [by case_bool_decide|]. rewrite bool_decide_true; [done|].
    apply list_elem_of_fmap_2, list_elem_of_In, filter_In. split; [by apply list_elem_of_In|done].
  - intros j k Hj Hk. rewrite <- Hks in Hj, Hk. by apply R9.
  - intros j k Hj Hk. rewrite <- Hks in Hj, Hk. by apply R11.
Qed.

Lemma wp_op_inputs σ :
  ra_inv f σ -> op_ok σ ->
  wp (x ← ra_fold (satisfy_input s frame a cts da) (sorted_args op no ni) op_start;
      bury_inputs s a da (seq no ni) ;; mret x)
    (fun x σ' os => ra_inv read_facts σ' /\ placed_at x σ' /\
       forall v, moved σ σ' os (values [] f v σ)
         (fun h => values [] read_facts v σ' h /\ opvals s a (seq no ni) x v h)) σ.
Proof.
  intros Hinv Hok. apply wp_bind. eapply wp_mono.
  { apply wp_satisfy_inputs; [exact Hset|by apply start_ready|]. intros pre k post. by apply inputs_ok. }
  intros x σ1 os1 [Hrd Hm1]. rewrite app_nil_r in Hrd, Hm1.
  assert (reverse (sorted_args op no ni) ≡ₚ seq no ni) as Hks.
  { rewrite reverse_Permutation. apply sorted_args_perm. }
  apply wp_bind. eapply wp_mono.
  { apply wp_bury_inputs; [apply Hrd|]. intros k Hk%elem_of_seq. apply (op_valid _ Hok). lia. }
  intros [] σ2 os2 (-> & Hinv2 & Ho & Hm2). apply wp_ret. split; [done|]. split; [by eapply placed_bury|].
  intros v. apply (moved_trans s M σ σ1 σ2 os1 _ _
    (fun h => values [] f v σ1 h /\ opvals s a (reverse (sorted_args op no ni)) x v h)).
  - destruct (Hm1 v) as [S1 M1 V1]. split; [exact S1|exact M1|]. intros Hw h Hv. apply V1; [done|]. split; [exact Hv|].
    intros k Hk. by apply not_elem_of_nil in Hk.
  - destruct (Hm2 [] v) as [S2 M2 V2]. split; [done|done|]. intros Hw h [Hv Hop]. split; [by apply V2|].
    intros k Hk. rewrite <- Hks in Hk. by apply Hop.
Qed.
(** *** Outputs *)

Record ready_at (x : operands) (σ : ra_state) : Prop := {
  ra_new : length x.(new_args) = length a;
  ra_rest : drop (no + ni) x.(new_args) = drop (no + ni) a;
  ra_fits : operands_fit x.(new_args) cts x.(const_args) x.(new_args) = true;
  ra_outs : forall k, k ∈ seq 0 no -> real_reg (arg x.(new_args) k) /\ owner σ (arg x.(new_args) k) = tk k /\
    (ts_of σ (tk k)).(mem_coherent) = false;
  ra_clobber : testb (op_flags op) TCG_OPF_CALL_CLOBBER = true -> bb_end op = false -> forall r, real_reg r ->
    Z.testbit tcg_target_call_clobber_regs r = true ->
    owner σ r = -1 \/ exists k, k ∈ seq 0 no /\ arg x.(new_args) k = r;
  ra_apart : forall o k, o ∈ seq 0 no -> k ∈ seq no ni -> outputs_aliased op = true -> is_const x k = false ->
    let j := Z.to_nat (op_ct op o).(ct_alias) in
    testb (op_ct op k).(ct) TCG_CT_IALIAS = true /\ j <> k \/ tk j <> tk k -> arg x.(new_args) o <> arg x.(new_args) k
}.

Lemma operands_fit_all na : forall cs consts vs,
  length consts = length cs -> (length cs <= length vs)%nat ->
  (forall k c b w, cs !! k = Some c -> consts !! k = Some b -> vs !! k = Some w -> operand_fits na c b w = true) ->
  operands_fit na cs consts vs = true.
Proof.
  induction cs as [|c cs IH]; intros [|b consts] [|w vs] H1 H2 H; cbn in *; try done; try lia.
  apply andb_true_iff. split; [by apply (H 0%nat)|]. apply IH; [lia|lia|]. intros k. apply (H (S k)).
Qed.

(** The operands fit: inputs as they were placed, outputs as they were chosen. *)
Lemma operands_ready σ x na :
  op_ok σ -> length na = length a -> length x.(const_args) = (no + ni)%nat ->
  (forall k, k ∈ seq 0 no -> is_const x k = false /\
     if outputs_aliased op then arg na k = arg na (Z.to_nat (op_ct op k).(ct_alias))
     else in_mask (op_ct op k).(ct_regs) (arg na k) = true) ->
  (forall k, k ∈ seq no ni ->
     if is_const x k then tcg_target_const_match (s64 (arg na k)) (op_ct op k) = true
     else in_mask (op_ct op k).(ct_regs) (arg na k) = true) ->
  operands_fit na cts x.(const_args) na = true.
Proof.
  intros Hok Hna Hca Hout Hin. destruct (op_tables _ (op_here _ Hok)) as [T1 T2 T3 T4 T5 T6 T7].
  pose proof (op_length _ Hok) as Hle. apply operands_fit_all; [lia|lia|]. intros k c b w Hc Hb Hw.
  assert (op_ct op k = c) as Ec by (unfold op_ct; by rewrite Hc).
  assert (is_const x k = b) as Eb by (unfold is_const; by rewrite list_lookup_total_alt, Hb).
  assert (arg na k = w) as Ew by (unfold arg; by rewrite list_lookup_total_alt, Hw).
  apply lookup_lt_Some in Hc as Hlt. unfold operand_fits. destruct (decide (k < no)%nat) as [Hk|Hk].
  - assert (k ∈ seq 0 no) as Hs by (apply elem_of_seq; lia). destruct (Hout k Hs) as [Hcst Hm].
    rewrite Hcst in Eb. subst b. rewrite <- Ec, (T4 k Hs). destruct (outputs_aliased op) eqn:Hal; [|by rewrite <- Ew].
    destruct (T5 k Hs eq_refl) as ((Hj1 & Hj2)%elem_of_seq & _).
    destruct (lookup_lt_is_Some_2 na (Z.to_nat (op_ct op k).(ct_alias))) as [y Hy]; [lia|]. rewrite Hy.
    apply Z.eqb_eq. rewrite <- Ew, Hm. unfold arg. by rewrite list_lookup_total_alt, Hy.
  - assert (k ∈ seq no ni) as Hs by (apply elem_of_seq; lia). pose proof (Hin k Hs) as Hm. rewrite <- Ew, <- Eb, <- Ec.
    destruct (is_const x k); [done|]. by rewrite T2.
Qed.
Lemma outputs_ok σ0 σ x pre k post :
  op_ok σ0 -> slots_le s σ0 σ -> placed_at x σ -> sorted_args op 0 no = pre ++ k :: post ->
  output_ok s reserved a cts read_facts (mkOperands reserved x.(new_args) x.(const_args)) σ (outputs_aliased op)
    (reverse pre ++ []) k.
Proof.
  intros Hok Hle [P1 P2 P3 P4 P5 P6 P7 P8] E. destruct (op_tables _ (op_here _ Hok)) as [T1 T2 T3 T4 T5 T6 T7].
  destruct (sorted_NoDup _ _ _ _ _ _ E) as (Hk & Hnk & Hpre). rewrite app_nil_r. pose proof (op_length _ Hok) as Hlen.
  pose proof Hk as Hk'%elem_of_seq. assert (valid s (tk k)) as Vt by (apply (op_valid _ Hok); lia). split; cbn [new_args].
  - done.
  - lia.
  - done.
  - destruct (Hle _ Vt) as [-> _]. by apply (op_fixed _ Hok).
  - by apply (op_dead _ Hok).
  - intros (j & Ej & Hj)%list_elem_of_fmap. assert (j = k) as ->; [|done]. pose proof (Hpre _ Hj) as Hj'%elem_of_seq.
    apply (NoDup_lookup _ j k (tk k) (op_distinct _ Hok)); rewrite list_lookup_fmap, lookup_seq_lt by lia; cbn; by f_equal.
  - by apply T4.
  - intros Hal. change (default (mkCt 0 0 0) (cts !! k)) with (op_ct op k).
    destruct (T5 k Hk Hal) as (Hj & Ha & Ea). destruct (P6 _ Hj Ha) as (Hc & Hres & Ho).
    pose proof (P5 _ Hj) as Hf. rewrite Hc in Hf. destruct Hf as [_ Hr]. split_and!; try done.
    + intros Hin%Hpre. rewrite elem_of_seq in Hin, Hj. lia.
    + intros l Hl. change (default (mkCt 0 0 0) (cts !! l)) with (op_ct op l).
      destruct (T5 l (Hpre _ Hl) Hal) as (Hj' & Ha' & Ea'). apply P7; try done. intros Eq.
      apply Hnk. rewrite Eq, Ea in Ea'. apply Nat2Z.inj in Ea'. by subst l.
  - intros Hal m g Hm. apply (avail_spec (ct_regs ∘ op_ct op) (reverse pre)) with (g := g); [|exact Hm].
    pose proof (avail_all_spec _ _ _ _ _ _ (T7 Hal) E) as Hav. by rewrite app_nil_r in Hav.
Qed.

Lemma revives_perm l l' g : l ≡ₚ l' -> same_facts s (revives l g) (revives l' g).
Proof.
  intros Hp u _. unfold facts_at. cbn. rewrite (bool_decide_ext (u ∈ l) (u ∈ l')); [done|]. by rewrite Hp.
Qed.

Lemma outputs_ready σ0 σ1 σ2 x x2 ks T :
  op_ok σ0 -> ks ≡ₚ seq 0 no -> placed_at x σ1 ->
  outs_ready s frame reserved a cts read_facts (mkOperands reserved x.(new_args) x.(const_args)) σ1
    (outputs_aliased op) T ks x2 σ2 ->
  (testb (op_flags op) TCG_OPF_CALL_CLOBBER = true -> bb_end op = false -> forall r, real_reg r ->
     Z.testbit tcg_target_call_clobber_regs r = true -> owner σ1 r = -1) ->
  ra_inv written_facts σ2 /\ ready_at x2 σ2 /\
  forall v h, opvals s a (seq no ni) x v h -> opvals s a (seq no ni) x2 v h.
Proof.
  intros Hok Hks [P1 P2 P3 P4 P5 P6 P7 P8] [R1 R2 R3 R4 R5 R6 R7 R8 R9 R10 _] Hcl. cbn [new_args const_args] in *.
  destruct (op_tables _ (op_here _ Hok)) as [T1 T2 T3 T4 T5 T6 T7].
  assert (forall k, k ∈ seq no ni -> arg x2.(new_args) k = arg x.(new_args) k) as Ein.
  { intros k Hk%elem_of_seq. unfold arg. rewrite !list_lookup_total_alt, R4; [done|]. rewrite Hks, elem_of_seq. lia. }
  split; [eapply inv_same; [|exact R1]; apply revives_perm; by rewrite Hks|]. split.
  - split; [lia|..].
    + rewrite <- P3. apply list_eq. intros k. rewrite !lookup_drop. apply R4. rewrite Hks, elem_of_seq. lia.
    + apply (operands_ready σ0); [done|lia|by rewrite R5|..].
      * intros k Hk. split; [unfold is_const; rewrite R5; by apply P4|]. rewrite <- Hks in Hk. pose proof (R9 k Hk) as Hf.
        change (default (mkCt 0 0 0) (cts !! k)) with (op_ct op k) in Hf. rewrite Hks in Hk.
        destruct (outputs_aliased op) eqn:Hal; [rewrite Hf, Ein; [done|by apply T5]|]. rewrite <- Hks in Hk.
        destruct Hf as [Hf Hn]. destruct (R8 k Hk) as (_ & [Hr _] & _ & _). unfold in_mask. rewrite Hf.
        rewrite (proj2 (Z.leb_le _ _) Hr). by apply negb_true_iff, Z.eqb_neq.
      * intros k Hk. unfold is_const. rewrite R5, Ein by done. pose proof (P5 k Hk) as Hf. unfold is_const in Hf.
        destruct (x.(const_args) !!! k); [done|by destruct Hf].
    + intros k Hk. rewrite <- Hks in Hk. by destruct (R8 k Hk) as (_ & ? & ? & _ & ?).
    + intros Hc Hb r Hr Ht. destruct (decide (Exists (fun k => arg x2.(new_args) k = r) (seq 0 no))) as [Hex|Hn].
      * right. by apply Exists_exists in Hex.
      * left. destruct (R10 r Hr) as [->| ->]; [|by apply Hcl|done]. intros j Hj E. apply Hn, Exists_exists.
        exists j. by rewrite <- Hks.
    + intros o k Ho Hk Hal Hc. rewrite <- Hks in Ho. pose proof (R9 o Ho) as Hf. rewrite Hks in Ho.
      rewrite Hal in Hf. change (default (mkCt 0 0 0) (cts !! o)) with (op_ct op o) in Hf. rewrite Hf, (Ein k Hk).
      destruct (T5 o Ho Hal) as (Hj & Ha & _). unfold is_const in Hc. rewrite R5 in Hc. intros j [[Hak Hne]|Hne]; auto.
  - intros v h Hop k Hk. rewrite <- (Hop k Hk). unfold opval, is_const. rewrite R5. by rewrite Ein.
Qed.
Definition allocate_outputs (x : operands) : ra operands :=
  if testb (op_flags op) TCG_OPF_BB_END then tcg_reg_alloc_bb_end s ;; mret x
  else
    when (testb (op_flags op) TCG_OPF_CALL_CLOBBER) (free_clobbered s frame) ;;
    when (testb (op_flags op) TCG_OPF_SIDE_EFFECTS) (sync_globals s) ;;
    ra_fold (satisfy_output s frame a cts) (sorted_args op 0 no) (mkOperands reserved x.(new_args) x.(const_args)).

Local Abbreviation outs_done σ x := (fun x2 σ2 os =>
  stores os /\ ra_inv written_facts σ2 /\ ready_at x2 σ2 /\
  (forall v h, opvals s a (seq no ni) x v h -> opvals s a (seq no ni) x2 v h) /\
  forall v, moved σ σ2 os (values [] read_facts v σ)
    (fun h => values (arg a <$> seq 0 no) written_facts v σ2 h /\ (reads_globals op = true -> globals_in_mem v σ2 h))).

(** At the end of a basic block there are no outputs. *)
Lemma wp_outputs_end σ0 σ x :
  op_ok σ0 -> bb_end op = true -> ra_inv read_facts σ -> placed_at x σ ->
  wp (tcg_reg_alloc_bb_end s ;; mret x) (outs_done σ x) σ.
Proof.
  intros Hok Hb Hinv [P1 P2 P3 P4 P5 P6 P7 P8]. destruct (op_ends _ Hok Hb) as [Hno Hd].
  apply wp_bind. eapply wp_mono; [by eapply wp_bb_end|]. intros [] σ1 os1 [-> ->]. apply wp_ret.
  assert (same_facts s read_facts written_facts) as Hsame.
  { unfold written_facts. rewrite Hno. apply revives_nil. }
  split; [constructor|]. split; [by eapply inv_same|]. split; [|split; [done|]].
  - split; try done.
    + apply (operands_ready σ0); try done; [by rewrite Hno; intros k Hk%elem_of_seq; lia|].
      intros k Hk. pose proof (P5 k Hk) as Hf. destruct (is_const x k); [done|by destruct Hf].
    + rewrite Hno. intros k Hk%elem_of_seq. lia.
    + by rewrite Hb.
    + rewrite Hno. intros o k Ho%elem_of_seq. lia.
  - intros v. apply moved_refl. intros h Hv. split; [eapply values_same; [done|]; by rewrite Hno|]. intros Hg.
    eapply globals_value; [exact Hinv|done|]. by apply (op_effects _ Hok Hg).
Qed.

Lemma wp_outputs_free σ0 σ x :
  op_ok σ0 -> bb_end op = false -> slots_le s σ0 σ -> ra_inv read_facts σ -> placed_at x σ ->
  wp (when (testb (op_flags op) TCG_OPF_CALL_CLOBBER) (free_clobbered s frame))
    (fun _ σ1 os => stores os /\ ra_inv read_facts σ1 /\ placed_at x σ1 /\
       (testb (op_flags op) TCG_OPF_CALL_CLOBBER = true -> forall r, real_reg r ->
          Z.testbit tcg_target_call_clobber_regs r = true -> owner σ1 r = -1) /\
       forall v, moved σ σ1 os (values [] read_facts v σ) (values [] read_facts v σ1)) σ.
Proof.
  intros Hok Hb Hle Hinv Hp. apply wp_when; intros Hc.
  - eapply wp_mono; [apply wp_free_regs; [exact Hset|done|apply clobbered_real]|].
    intros [] σ1 os1 (Hinv1 & Hst & [F1 F2 F3] & Hm). split_and!; try done.
    + destruct Hp as [P1 P2 P3 P4 P5 P6 P7 P8]. split; try done. intros k Hk Ha.
      destruct (P6 k Hk Ha) as (H1 & H2 & H3). pose proof (P5 k Hk) as Hf. rewrite H1 in Hf. split_and!; try done.
      apply F2; [apply Hf|done].
    + intros _ r Hr Ht. apply F1, list_elem_of_In, filter_In. split; [|done]. unfold all_regs. apply list_elem_of_In.
      destruct Hr. apply list_elem_of_fmap. exists (Z.to_nat r). unfold TCG_TARGET_NB_REGS. rewrite elem_of_seq. lia.
  - split_and!; try done. by rewrite Hc.
Qed.

Lemma outs_start σ x aliased T :
  ra_inv read_facts σ -> x.(allocated_regs) = reserved -> (forall t, t ∈ T -> f.(f_mem) t = true) ->
  outs_ready s frame reserved a cts read_facts x σ aliased T [] x σ.
Proof.
  intros Hinv Hx HT. split; try done; try (intros k Hk; by apply not_elem_of_nil in Hk).
  - by rewrite Hx.
  - intros r Hr. rewrite Hx in Hr. by left.
  - by left.
  - intros t Ht Vt Hf Hv Hc. destruct Hinv as [_ _ Hlv].
    destruct (lv_mem _ _ _ _ _ _ _ (Hlv t Vt Hf) (HT t Ht)) as [E|[_ E]]; congruence.
Qed.

Lemma wp_op_outputs σ0 σ x :
  op_ok σ0 -> slots_le s σ0 σ -> ra_inv read_facts σ -> placed_at x σ ->
  wp (allocate_outputs x) (outs_done σ x) σ.
Proof.
  intros Hok Hle Hinv Hp. unfold allocate_outputs. destruct (testb (op_flags op) TCG_OPF_BB_END) eqn:Hb;
    [by eapply wp_outputs_end|]. apply wp_bind. eapply wp_mono; [by eapply wp_outputs_free|].
  intros [] σ1 os1 (Hs1 & Hinv1 & Hp1 & Hcl & Hm1). apply wp_bind. eapply wp_mono.
  { apply (wp_when _ _ (fun _ σ2 os2 => σ2 = σ1 /\ os2 = [])); intros He; [|done]. eapply (wp_sync_globals s frame reserved M); [exact Hinv1|].
    intros t Ht. cbn. apply (op_effects _ Hok); [|done]. unfold reads_globals. rewrite testb_lor, He. apply orb_true_r. }
  intros [] σ2 os2 [-> ->]. eapply wp_mono.
  { apply (wp_satisfy_outputs s frame reserved M a cts read_facts (mkOperands reserved x.(new_args) x.(const_args)) σ1
      (outputs_aliased op) (if reads_globals op then all_globals else []) (sorted_args op 0 no) []).
    - apply outs_start; [done|done|]. intros t Ht. destruct (reads_globals op) eqn:Hg; [|by apply not_elem_of_nil in Ht].
      by apply (op_effects _ Hok Hg), all_globals_elem.
    - intros pre k post E. eapply outputs_ok; [done| |done|done]. eapply slots_le_trans; [done|]. apply (Hm1 []). }
  intros x2 σ2 os2 (Hrd & Hs2 & Hu2 & Hm2). rewrite app_nil_r in Hrd.
  assert (reverse (sorted_args op 0 no) ≡ₚ seq 0 no) as Hks.
  { rewrite reverse_Permutation. apply sorted_args_perm. }
  destruct (outputs_ready σ0 σ1 σ2 x x2 _ _ Hok Hks Hp1 Hrd) as (Hinv2 & Hra & Hop); [by intros; apply Hcl|].
  cbn [app]. split; [by apply Forall_app|]. split; [done|]. split; [done|]. split; [done|]. intros v.
  eapply moved_trans; [apply Hm1|]. destruct (Hm2 [] v) as [S2 M2 V2]. split; [done|done|]. intros Hw h Hv. split.
  - rewrite !app_nil_r in V2. eapply values_same; [apply (revives_perm (arg a <$> reverse (sorted_args op 0 no))); by rewrite Hks|].
    eapply values_weaken; [|apply V2; [done|]]; [intros t; by rewrite Hks|]. eapply values_same; [apply revives_nil|done].
  - intros Hg t Ht Hf k Hk. rewrite Hg in Hu2. destruct (global_valid s frame reserved M t Ht) as [Vt _].
    rewrite (Hu2 Hw h t k) by (done || by apply all_globals_elem). destruct (S2 t Vt) as [Ef _]. rewrite Ef in Hf.
    eapply (globals_value read_facts v σ1); [done|done|by apply (op_effects _ Hok Hg)|done|done|done].
Qed.
(** *** The whole *)

(** The code is the moves [os1], the operation and the stores [os2]; [σ1] is the
    state at the operation. *)
Record op_emitted (σ σ1 σ' : ra_state) (x : operands) (os1 os2 : list lop) : Prop := {
  em_inv : ra_inv written_facts σ1;
  em_ready : ready_at x σ1;
  em_before : forall v, moved σ σ1 os1 (values [] f v σ)
    (fun h => values (arg a <$> seq 0 no) written_facts v σ1 h /\ opvals s a (seq no ni) x v h /\
       (reads_globals op = true -> globals_in_mem v σ1 h));
  em_after : forall v, moved σ1 σ' os2 (values [] written_facts v σ1) (values [] after_facts v σ');
  em_left : ra_inv after_facts σ'
}.

Lemma outs_finish σ0 σ x k :
  op_ok σ0 -> slots_le s σ0 σ -> ready_at x σ -> k ∈ seq 0 no ->
  finish_ok s a x.(new_args) sa written_facts σ k.
Proof.
  intros Hok Hle Hrd Hk. destruct (ra_outs _ _ Hrd k Hk) as (Hr & Ho & _). pose proof Hk as Hk'%elem_of_seq.
  assert (valid s (tk k)) as Vt by (apply (op_valid _ Hok); lia).
  assert (tk k ∈ (arg a <$> seq 0 no)) as Hin by (by apply list_elem_of_fmap_2). split; try done.
  - destruct (Hle _ Vt) as [-> _]. by apply (op_fixed _ Hok).
  - cbn. by rewrite bool_decide_true.
  - cbn. by rewrite bool_decide_true.
  - by apply (op_sync _ Hok).
Qed.

Lemma wp_op σ :
  ra_inv f σ -> op_ok σ ->
  wp (tcg_reg_alloc_op s frame reserved i da sa)
    (fun _ σ' os => exists os1 x σ1 os2,
       os = os1 ++ LOp i x.(new_args) x.(const_args) :: os2 /\ op_emitted σ σ1 σ' x os1 os2) σ.
Proof.
  intros Hinv Hok. unfold tcg_reg_alloc_op. fold op_start (sorted_args op no ni) (sorted_args op 0 no). apply wp_then.
  eapply wp_mono; [by apply wp_op_inputs|]. intros x σ1 os1 (Hinv1 & Hp1 & Hm1).
  assert (slots_le s σ σ1) as Hle1 by apply (Hm1 []). apply wp_bind.
  eapply wp_mono; [by apply (wp_op_outputs σ)|]. intros x2 σ2 os2 (Hs2 & Hinv2 & Hrd2 & Hop2 & Hm2).
  assert (slots_le s σ σ2) as Hle2 by (eapply slots_le_trans; [done|apply (Hm2 [])]).
  apply wp_bind, wp_emit. eapply wp_mono.
  { apply (wp_finish_outputs s frame reserved M a x2.(new_args) da sa); [done|apply (op_distinct _ Hok)|].
    intros k Hk. by eapply outs_finish. }
  intros [] σ3 os3 (Hs3 & Hinv3 & Hm3). exists (os1 ++ os2), x2, σ2, os3. split; [by rewrite <- app_assoc|].
  split; [done|done| |intros v; apply Hm3|done]. intros v.
  eapply (moved_trans s M _ _ _ _ _ _ (fun h => values [] read_facts v σ1 h /\ opvals s a (seq no ni) x v h)); [apply Hm1|].
  destruct (Hm2 v) as [S2 M2 V2]. split; [done|done|]. intros Hw h [Hv Hop]. destruct (V2 Hw h Hv) as [Hv2 Hg2].
  split; [done|]. split; [|done]. apply Hop2. intros k Hk. rewrite <- (Hop k Hk). unfold opval. by rewrite stores_regs.
Qed.
End Op.
End Insn.
