(* ===== verification/RegAllocMov.v ===== *)
(** * The register allocator on moves

    [tcg_reg_alloc_movi] and [tcg_reg_alloc_mov]: the output gets the value, in a
    register, in memory or as a constant, and is where the liveness analysis wants
    it.  The allocator takes part of a move over from the source when the source is
    not used any more. *)

From S2P Require Import Prelude QtraceDefs X86 TcgOut TcgEnc TcgEmit TcgCond TcgOpDefs TcgSem TcgIR.
From S2P Require Import Optimize OptCopies OptSound Liveness LivenessSound InstrCall Prologue RegAlloc RegAllocLogic.
From S2P Require Import RegAllocOps RegAllocStep RegAllocTable.

Section Moves.
Context (s : tcg_temps) (frame : tcg_frame) (M : Z -> option (Z * Z)).
Context {Hset : setting s frame reserved M}.

Local Abbreviation ts_of σ t := (tget (ra_temps σ) t).
Local Abbreviation owner σ r := (tget (reg_to_temp σ) r).
Local Abbreviation linked := (linked s reserved).
Local Abbreviation ra_inv := (ra_inv s frame reserved).
Local Abbreviation values := (values s M).
Local Abbreviation moved := (moved s M).
Local Abbreviation live f t ts := (live_ts s (f_dead f t) (f_mem f t) (f_written f t) (f_const f t) t ts).
Local Abbreviation stores os := (Forall (fun o => is_store o = true) os).

(** What the analysis knows of one temporary. *)
Definition put_fact (t : Z) (d m w c : bool) (f : facts) : facts :=
  mkFacts (fun u => if u =? t then d else f.(f_dead) u) (fun u => if u =? t then m else f.(f_mem) u)
    (fun u => if u =? t then w else f.(f_written) u) (fun u => if u =? t then c else f.(f_const) u).

Lemma put_at t d m w c f u : facts_at (put_fact t d m w c f) u = if u =? t then (d, m, w, c) else facts_at f u.
Proof. unfold facts_at. cbn. by destruct (u =? t). Qed.

Lemma put_except t d m w c f : except t f (put_fact t d m w c f).
Proof. intros u Hu. by rewrite put_at, (proj2 (Z.eqb_neq u t)). Qed.

Lemma put_put t d m w c d' m' w' c' f :
  same_facts s (put_fact t d m w c (put_fact t d' m' w' c' f)) (put_fact t d m w c f).
Proof. intros u _. rewrite !put_at. by destruct (u =? t). Qed.

Lemma put_kill t d m w c f : same_facts s (kill t (put_fact t d m w c f)) (put_fact t true m w c f).
Proof. intros u _. unfold facts_at. cbn. by destruct (u =? t). Qed.

Lemma live_put t d m w c f ts : live_ts s d m w c t ts -> live (put_fact t d m w c f) t ts.
Proof. cbn. by rewrite Z.eqb_refl. Qed.

(** A temporary outside of the registers changes. *)
Lemma inv_with f f' t ts σ :
  ra_inv f σ -> except t f f' -> valid s t -> (ts_of σ t).(fixed_reg) = false -> (ts_of σ t).(val_type) <> TEMP_VAL_REG ->
  ts.(val_type) <> TEMP_VAL_REG -> same_slot (ts_of σ t) ts -> live f' t ts -> ra_inv f' (with_temp t ts σ).
Proof.
  intros [Hl Hp Hv] He Vt Hf Hnr Hnr' Hs Hlt. assert (ts.(fixed_reg) = false) as Hf' by (destruct Hs as [-> _]; done). split.
  - apply linked_change; try done; [apply Hl|]. intros r Hr. left. split; [done|]. intros E.
    destruct (ln_owner _ _ _ Hl r Hr) as (_ & _ & Hv' & _); [unfold valid in Vt; lia|]. by rewrite E in Hv'.
  - by apply (placed_same s frame reserved).
  - intros u Vu. unfold with_temp. rewrite (ts_with_temp s reserved) by done.
    destruct (Z.eqb_spec u t) as [->|Hu]; [done|]. intros Hfu. eapply live_except; [exact He|done|by apply Hv].
Qed.

Lemma moved_with f f' t ts σ X v :
  ra_inv f σ -> except t f f' -> valid s t -> same_slot (ts_of σ t) ts ->
  (forall h, val_ts s M (used_by f' t) v h t ts) ->
  moved σ (with_temp t ts σ) [] (values (t :: X) f v σ) (values X f' v (with_temp t ts σ)).
Proof.
  intros [Hl Hp Hv] He Vt Hs Ht. split; [by eapply slots_le_same|constructor|]. intros Hw h Hval u Vu Hu.
  unfold with_temp. rewrite (ts_with_temp s reserved) by done. destruct (Z.eqb_spec u t) as [->|Hne]; [apply Ht|].
  rewrite (used_except t f) by done. apply Hval; [done|]. by apply not_elem_of_cons.
Qed.

(** ** Constants *)

Lemma wp_make_const σ f o w Q :
  ra_inv f σ -> valid s o -> (ts_of σ o).(fixed_reg) = false -> (ts_of σ o).(val_type) <> TEMP_VAL_REG ->
  Q tt (with_temp o (set_ts_val w (set_val_type TEMP_VAL_CONST (ts_of σ o))) σ) [] ->
  wp (release o ;; upd_ts o (set_val_type TEMP_VAL_CONST) ;; upd_ts o (set_ts_val w)) Q σ.
Proof.
  intros [Hl Hp Hv] Vo Hf Hnr HQ. assert (in_bounds σ.(ra_temps) o = true) as Hb by (by eapply bounds_temp).
  apply wp_bind. unfold release. apply wp_bind, wp_get_ts; [done|]. unfold is_val. rewrite bool_decide_false by done.
  apply wp_ret. apply wp_bind, wp_upd_ts; [done|]. apply wp_upd_ts.
  - unfold with_temp, in_bounds in *. cbn. by rewrite length_tset.
  - unfold with_temp in *. cbn [ra_temps reg_to_temp current_frame_offset].
    rewrite (tget_set s), Z.eqb_refl, tset_tset by (done || apply Hl). exact HQ.
Qed.

(** The registers without the reserved ones. *)
Lemma some_available t : available (tcg_target_available_regs t) reserved.
Proof. exists TCG_REG_RBX. split; [by apply (bool_decide_unpack _)|done]. Qed.

(** The temporary takes the register [r], in the order of [temp_sync]. *)
Lemma wp_take_late {A} (m : ra A) σ o r Q :
  linked σ -> valid s o -> real_reg r -> wp m Q (taken_by o r false σ) ->
  wp (upd_ts o (set_ts_reg r) ;; upd_ts o (set_val_type TEMP_VAL_REG) ;; set_temp_of r o ;;
      upd_ts o (set_mem_coherent false) ;; m) Q σ.
Proof.
  intros Hl Vo Hr HQ. destruct (updates s reserved σ o Hl Vo) as (Hb & Hb' & Et).
  apply wp_bind, wp_upd_ts; [done|]. apply wp_bind, wp_upd_ts; [apply Hb'|]. unfold with_temp; cbn [ra_temps].
  rewrite Et, tset_tset. apply wp_bind, wp_set_temp_of; [cbn; by eapply bounds_reg|]. apply wp_bind, wp_upd_ts; [apply Hb'|].
  unfold with_temp, with_owner; cbn [ra_temps reg_to_temp current_frame_offset]. rewrite Et, tset_tset.
  eapply wp_mono; [exact HQ|]. done.
Qed.

(** A temporary in a register is stored. *)
Lemma wp_sync_put σ f o r w c :
  ra_inv f σ -> valid s o -> (ts_of σ o).(fixed_reg) = false -> (ts_of σ o).(val_type) = TEMP_VAL_REG ->
  (ts_of σ o).(reg) = r -> f.(f_dead) o = false -> survives s o = true ->
  wp (tcg_reg_sync s frame r)
    (fun _ σ' os => stores os /\ ra_inv (put_fact o false true w c f) σ' /\ only s o σ σ' /\
       same_core (ts_of σ o) (ts_of σ' o) /\
       forall X v, moved σ σ' os (values X f v σ) (values X (put_fact o false true w c f) v σ')) σ.
Proof.
  intros Hinv Vo Hf Hr <- Hd Hs. pose proof Hinv as [Hl _ _]. destruct (ln_reg _ _ _ Hl o Vo Hf Hr) as [Hrr Ho].
  eapply wp_mono; [apply wp_sync; [exact Hset|done|done|rewrite Ho; unfold valid in Vo; lia]|]. rewrite Ho.
  intros [] σ1 os1 (Hinv1 & Hst & Hon & Hsc & Hc & Ha & Hmv). pose proof Hsc as (Ev & _). rewrite Hr in Ev.
  split; [done|]. split; [|split; [done|split; [done|]]].
  - eapply (inv_coherent s frame reserved f _ σ1 o); try done; [apply put_except|]. cbn. by rewrite Z.eqb_refl.
  - intros X v. destruct (Hmv X v) as [S1 M1 V1]. split; [done|done|]. intros Hw h Hval.
    eapply values_reg; [apply put_except|done|by apply V1].
Qed.

(** A constant goes to a register and to memory. *)
Lemma wp_sync_const σ f o w c :
  ra_inv f σ -> valid s o -> (ts_of σ o).(fixed_reg) = false -> (ts_of σ o).(val_type) = TEMP_VAL_CONST ->
  f.(f_dead) o = false -> f.(f_mem) o = false -> survives s o = true ->
  wp (temp_sync s frame o reserved)
    (fun _ σ' os => ra_inv (put_fact o false true w c f) σ' /\
       forall v, moved σ σ' os (values [] f v σ) (values [] (put_fact o false true w c f) v σ')) σ.
Proof.
  intros Hinv Vo Hf Hc Hd Hm Hs. unfold temp_sync. apply wp_bind, wp_get_ts; [eapply bounds_temp; [apply Hinv|done]|].
  rewrite Hf, Hc. cbn [negb when]. apply wp_bind. eapply wp_mono; [apply wp_alloc; [exact Hset|done|apply some_available]|].
  intros r σ1 os1 ((_ & Hr & _ & Hres) & Hinv1 & Hst & Hfr & Hmv).
  assert (ts_of σ1 o = ts_of σ o) as Ets.
  { apply (fr_temps _ _ _ _ Hfr); [done|]. intros E. pose proof Hinv as [Hl _ _].
    destruct (ln_owner _ _ _ Hl r) as (_ & _ & Hv' & _); [done|unfold valid in Vo; lia|]. rewrite <- E in Hv'. congruence. }
  pose proof Hinv1 as [Hl1 _ _]. assert (owner σ1 r = -1) as Ho1 by apply Hfr.
  assert (ra_inv f (taken_by o r false σ1)) as Hinv2.
  { eapply inv_taken; try done; rewrite ?Ets; try done; [congruence|]. rewrite Hd, Hm. by split. }
  apply wp_take_late; [done..|]. apply wp_bind, wp_emit.
  assert (ts_of (taken_by o r false σ1) o = in_reg r false (ts_of σ1 o)) as Eo by (by rewrite (ts_taken s reserved), Z.eqb_refl).
  eapply wp_mono; [apply (wp_sync_put _ f o r w c); rewrite ?Eo, ?Ets; done|].
  intros [] σ2 os2 (Hst2 & Hinv3 & _ & _ & Hm2). split; [done|]. intros v.
  apply (moved_trans s M σ σ1 σ2 os1 _ _ (values [] f v σ1)); [apply (Hmv [] v)|].
  apply (moved_trans s M σ1 (taken_by o r false σ1) σ2 [_] os2 _
    (values [] f v (taken_by o r false σ1))); [|apply Hm2].
  split; [by eapply slots_taken|by repeat constructor|]. intros Hw h Hval. cbn [exec_moves fold_left exec_move].
  eapply values_taken; [done|done|done| |].
  - intros _. split; cbn; try done. intros _. rewrite Z.eqb_refl, type_size, wrap_wrap.
    destruct (Hval o Vo) as [_ _ V3 _]; [apply not_elem_of_nil|]. rewrite Ets in V3. by apply V3.
  - eapply values_set_reg; try done. eapply values_weaken; [|exact Hval]. apply list_subseteq_nil.
Qed.
Lemma dead_not_reg f σ t :
  ra_inv f σ -> valid s t -> (ts_of σ t).(fixed_reg) = false -> f.(f_dead) t = true ->
  (ts_of σ t).(val_type) <> TEMP_VAL_REG.
Proof. intros [_ _ Hv] Vt Hf Hd. rewrite (lv_dead _ _ _ _ _ _ _ (Hv t Vt Hf) Hd). by destruct (survives s t). Qed.

(** The end of an operation whose output is [o]. *)
Lemma wp_maybe_dead σ f o (b : bool) m w c :
  ra_inv (put_fact o false m w c f) σ -> valid s o ->
  wp (when b (temp_dead s o))
    (fun _ σ' os => os = [] /\ ra_inv (put_fact o b m w c f) σ' /\
       (forall r, real_reg r -> owner σ r <> o -> owner σ' r = owner σ r) /\
       forall X v, moved σ σ' [] (values X (put_fact o false m w c f) v σ) (values X (put_fact o b m w c f) v σ')) σ.
Proof.
  intros Hinv Vo. apply wp_when; intros ->.
  - eapply wp_mono; [by apply wp_bury|]. intros [] σ1 os1 (-> & Hinv1 & [_ Hb] & Hm1). split; [done|].
    split; [eapply inv_same; [apply put_kill|done]|]. split.
    + intros r Hr Hne. by rewrite Hb, (proj2 (Z.eqb_neq _ _) Hne).
    + intros X v. destruct (Hm1 X v) as [S1 M1 V1]. split; [done|done|].
      intros Hw h Hv. eapply values_same; [apply put_kill|by apply V1].
  - split; [done|]. split; [done|]. split; [done|]. intros X v. by apply moved_refl.
Qed.

Lemma wp_movi σ f o w da sa :
  ra_inv f σ -> valid s o -> (ts_of σ o).(fixed_reg) = false -> f.(f_dead) o = true ->
  (NEED_SYNC_ARG sa 0 = true -> survives s o = true) ->
  wp (tcg_reg_alloc_movi s frame reserved o w da sa)
    (fun _ σ' os => ra_inv (put_fact o (IS_DEAD_ARG da 0) (NEED_SYNC_ARG sa 0) true true f) σ' /\
       forall v, wrap (tsize s o) (s64 w) = rd s v o ->
         moved σ σ' os (values [o] f v σ)
           (values [] (put_fact o (IS_DEAD_ARG da 0) (NEED_SYNC_ARG sa 0) true true f) v σ')) σ.
Proof.
  intros Hinv Vo Hf Hd Hs. pose proof (dead_not_reg f σ o Hinv Vo Hf Hd) as Hnr. unfold tcg_reg_alloc_movi.
  apply wp_bind, wp_get_ts; [eapply bounds_temp; [apply Hinv|done]|]. rewrite Hf. apply wp_bind.
  eapply wp_make_const; [done..|]. set (ts := set_ts_val (s64 w) (set_val_type TEMP_VAL_CONST (ts_of σ o))).
  set (σ1 := with_temp o ts σ). set (f1 := put_fact o false false true true f).
  assert (ra_inv f1 σ1) as Hinv1.
  { eapply inv_with; [done|apply put_except|done..|]. apply live_put. split; try done. cbn. intros _. split; [done|].
    by apply swrap_id, swrap_range. }
  assert (ts_of σ1 o = ts) as Eo.
  { unfold σ1, with_temp. rewrite (ts_with_temp s reserved), Z.eqb_refl; [done|apply Hinv|done|done]. }
  assert (forall v, wrap (tsize s o) (s64 w) = rd s v o ->
    moved σ σ1 [] (values [o] f v σ) (values [] f1 v σ1)) as Hm1.
  { intros v Hv. eapply moved_with; [done|apply put_except|done|done|]. intros h. by split. }
  apply wp_bind. eapply wp_mono.
  { apply (wp_when _ _ (fun _ σ2 os => ra_inv (put_fact o false (NEED_SYNC_ARG sa 0) true true f) σ2 /\
      forall v, moved σ1 σ2 os (values [] f1 v σ1) (values [] (put_fact o false (NEED_SYNC_ARG sa 0) true true f) v σ2)));
      intros Hn; rewrite Hn.
    - eapply wp_mono; [apply (wp_sync_const σ1 f1 o true true); rewrite ?Eo; auto; cbn; by rewrite Z.eqb_refl|].
      intros [] σ2 os2 [Hinv2 Hm2]. split; [eapply inv_same; [apply put_put|done]|]. intros v.
      destruct (Hm2 v) as [S2 M2 V2]. split; [done|done|]. intros Hw h Hv. eapply values_same; [apply put_put|by apply V2].
    - split; [done|]. intros v. by apply moved_refl. }
  intros [] σ2 os2 [Hinv2 Hm2]. assert ((ts_of σ2 o).(fixed_reg) = false) as Hf2.
  { destruct (mv_slots _ _ _ _ _ _ _ (Hm2 []) o Vo) as [-> _]. by rewrite Eo. }
  eapply wp_mono; [by apply wp_maybe_dead|]. intros [] σ3 os3 (-> & Hinv3 & _ & Hm3). split; [done|]. intros v Hv.
  cbn [app]. apply (moved_trans s M σ σ1 σ3 [] (os2 ++ []) _ (values [] f1 v σ1)); [by apply Hm1|].
  eapply moved_trans; [apply Hm2|apply Hm3].
Qed.
(** ** Moves *)

Lemma in_reg_same r ts : ts.(reg) = r -> set_mem_coherent false (set_val_type TEMP_VAL_REG ts) = in_reg r false ts.
Proof. intros <-. by destruct ts. Qed.

(** The output [o] takes the register that it has been given. *)
Definition mov_take (o : Z) (sync : bool) : ra unit :=
  upd_ts o (set_val_type TEMP_VAL_REG) ;;
  upd_ts o (set_mem_coherent false) ;;
  ots ← get_ts o;
  set_temp_of ots.(reg) o ;;
  when sync (tcg_reg_sync s frame ots.(reg)).

Lemma wp_mov_take σ g o r sync :
  ra_inv g σ -> valid s o -> (ts_of σ o).(fixed_reg) = false -> g.(f_dead) o = true -> (ts_of σ o).(reg) = r ->
  real_reg r -> owner σ r = -1 -> Z.testbit reserved r = false -> (sync = true -> survives s o = true) ->
  wp (mov_take o sync)
    (fun _ σ' os => ra_inv (put_fact o false sync true false g) σ' /\
       forall v, moved σ σ' os (fun h => values [o] g v σ h /\ wrap (tsize s o) (hregs h r) = rd s v o)
         (values [] (put_fact o false sync true false g) v σ')) σ.
Proof.
  intros Hinv Vo Hf Hd Hreg Hr Ho Hres Hs. pose proof (dead_not_reg g σ o Hinv Vo Hf Hd) as Hnr.
  pose proof Hinv as [Hl Hp Hlv]. destruct (updates s reserved σ o Hl Vo) as (Hb & Hb' & Et).
  unfold mov_take. apply wp_bind, wp_upd_ts; [done|]. apply wp_bind, wp_upd_ts; [apply Hb'|].
  unfold with_temp; cbn [ra_temps reg_to_temp current_frame_offset]. rewrite Et, tset_tset, (in_reg_same r) by done.
  apply wp_bind, wp_get_ts; [apply Hb'|]. cbn [ra_temps]. rewrite Et. cbn [in_reg set_mem_coherent set_ts_reg reg].
  apply wp_bind, wp_set_temp_of; [cbn; by eapply bounds_reg|]. change (with_owner r o _) with (taken_by o r false σ).
  set (g1 := put_fact o false false true false g).
  assert (ra_inv g1 (taken_by o r false σ)) as Hinv1.
  { eapply inv_taken; try done; [apply put_except|]. apply live_put. by split. }
  assert (ts_of (taken_by o r false σ) o = in_reg r false (ts_of σ o)) as Eo by (by rewrite (ts_taken s reserved), Z.eqb_refl).
  assert (forall v, moved σ (taken_by o r false σ) [] (fun h => values [o] g v σ h /\ wrap (tsize s o) (hregs h r) = rd s v o)
    (values [] g1 v (taken_by o r false σ))) as Hm1.
  { intros v. split; [by eapply slots_taken|constructor|]. intros _ h [Hv Hro].
    eapply values_taken; [done|done|apply put_except| |exact Hv]. intros _. by split. }
  apply wp_when; intros Hn; rewrite Hn.
  - eapply wp_mono; [apply (wp_sync_put _ g1 o r true false); rewrite ?Eo; auto; cbn; by rewrite Z.eqb_refl|].
    intros [] σ2 os2 (_ & Hinv2 & _ & _ & Hm2). split; [eapply inv_same; [apply put_put|done]|]. intros v.
    apply (moved_trans s M σ (taken_by o r false σ) σ2 [] os2 _ (values [] g1 v (taken_by o r false σ))); [apply Hm1|].
    destruct (Hm2 [] v) as [S2 M2 V2]. split; [done|done|]. intros Hw h Hv. eapply values_same; [apply put_put|by apply V2].
  - split; [done|]. intros v. apply Hm1.
Qed.

(** The temporary takes the register [r] with its value from memory. *)
Lemma wp_take_load σ t r o Q :
  linked σ -> valid s t -> real_reg r -> Q tt (taken_by t r true σ) [o] ->
  wp (upd_ts t (set_ts_reg r) ;; (ra_emit o ;; upd_ts t (set_mem_coherent true)) ;; set_temp_of r t ;;
      upd_ts t (set_val_type TEMP_VAL_REG)) Q σ.
Proof.
  intros Hl Vt Hr HQ. destruct (updates s reserved σ t Hl Vt) as (Hb & Hb' & Et).
  apply wp_bind, wp_upd_ts; [done|]. apply wp_bind, wp_bind, wp_emit. apply wp_upd_ts; [apply Hb'|].
  unfold with_temp; cbn [ra_temps reg_to_temp current_frame_offset]. rewrite Et, tset_tset.
  apply wp_bind, wp_set_temp_of; [cbn; by eapply bounds_reg|]. apply wp_upd_ts; [apply Hb'|].
  unfold with_temp, with_owner; cbn [ra_temps reg_to_temp current_frame_offset]. rewrite Et, tset_tset. exact HQ.
Qed.

(** The source is in a register after [mov_load_source]. *)
Lemma wp_load_source σ f t regs needs :
  ra_inv f σ -> valid s t -> f.(f_dead) t = false -> f.(f_const) t = false -> available regs reserved ->
  (s.(nb_globals) <= t -> (tget s.(temps) t).(temp_local) = true -> f.(f_written) t = true) ->
  wp (mov_load_source s frame reserved t regs needs)
    (fun _ σ' os => ra_inv f σ' /\ (ts_of σ' t).(val_type) = TEMP_VAL_REG /\
       forall X v, t ∉ X -> moved σ σ' os (values X f v σ) (values X f v σ')) σ.
Proof.
  intros Hinv Vt Hd Hc Hav Hw. pose proof Hinv as [Hl _ Hlv]. unfold mov_load_source.
  apply wp_bind, wp_get_ts; [by eapply bounds_temp|].
  destruct (decide ((ts_of σ t).(val_type) = TEMP_VAL_REG)) as [Hr|Hnr].
  { unfold is_val. rewrite Hr. cbn [negb andb orb]. rewrite !andb_false_r. cbn [orb bool_decide when]. apply wp_ret.
    split; [done|]. split; [done|]. intros X v _. by apply moved_refl. }
  assert ((ts_of σ t).(fixed_reg) = false) as Hf.
  { destruct ((ts_of σ t).(fixed_reg)) eqn:Hf; [|done]. by destruct (ln_fixed _ _ _ Hl _ Vt Hf) as (_ & ? & _). }
  destruct (Hlv t Vt Hf) as [L1 L2 L0 L3 L4 L5 L6].
  assert ((ts_of σ t).(val_type) = TEMP_VAL_MEM) as Hm.
  { destruct ((ts_of σ t).(val_type)); [by destruct (L2 Hd)|done|done|]. destruct (L6 eq_refl). congruence. }
  assert ((ts_of σ t).(mem_allocated) = true) as Ha by (apply L4; [by rewrite Hd|done|done]).
  unfold is_val. rewrite Hm. rewrite (bool_decide_true (TEMP_VAL_MEM = TEMP_VAL_MEM)) by done. rewrite orb_true_r.
  cbn [when]. apply wp_bind. eapply wp_mono; [apply wp_alloc; [exact Hset|done|done]|].
  intros r σ1 os1 ((_ & Hr & _ & Hres) & Hinv1 & Hst & Hfr & Hmv).
  assert (ts_of σ1 t = ts_of σ t) as Ets.
  { apply (fr_temps _ _ _ _ Hfr); [done|]. intros E.
    destruct (ln_owner _ _ _ Hl r) as (_ & _ & Hv' & _); [done|unfold valid in Vt; lia|]. by rewrite <- E in Hv'. }
  pose proof Hinv1 as [Hl1 _ _]. assert (owner σ1 r = -1) as Ho1 by apply Hfr.
  assert (ra_inv f (taken_by t r true σ1)) as Hinv2.
  { eapply inv_taken; try done; rewrite ?Ets; try done. rewrite Hd. split; cbn; try done. by right. }
  apply wp_take_load; [done..|]. split; [done|].
  split; [by rewrite (ts_taken s reserved), Z.eqb_refl by done|]. intros X v HX. cbn [app].
  apply (moved_trans s M σ σ1 (taken_by t r true σ1) os1 [_] _ (values X f v σ1)); [apply Hmv|].
  split; [by eapply slots_taken|by repeat constructor|]. intros Hwi h Hval. cbn [exec_moves fold_left exec_move].
  assert (M t = Some ((ts_of σ t).(mem_reg), (ts_of σ t).(mem_offset))) as EM.
  { specialize (Hwi t Vt). rewrite (ts_taken s reserved), Z.eqb_refl, Ets in Hwi by done. by apply Hwi. }
  assert (in_mem s M v h t) as Him.
  { destruct (Hval t Vt HX) as [_ _ _ V4]. apply V4; [by rewrite Ets|unfold used_by; by rewrite Hd]. }
  eapply values_taken; [done|done|done| |].
  - intros _. split; cbn; try done. intros _. rewrite Z.eqb_refl, type_size, wrap_wrap. by apply Him.
  - eapply values_set_reg; try done. eapply values_weaken; [|exact Hval]. intros u Hu. by apply list_elem_of_further.
Qed.
(** The source dies if it is not used any more. *)
Definition maybe_kill (b : bool) (t : Z) (f : facts) : facts := if b then kill t f else f.

Lemma wp_maybe_kill σ f t (b : bool) :
  ra_inv f σ -> valid s t ->
  wp (when b (temp_dead s t))
    (fun _ σ' os => os = [] /\ ra_inv (maybe_kill b t f) σ' /\
       forall X v, moved σ σ' [] (values X f v σ) (values X (maybe_kill b t f) v σ')) σ.
Proof.
  intros Hinv Vt. apply wp_when; intros ->; cbn [maybe_kill].
  - eapply wp_mono; [by apply wp_bury|]. intros [] σ1 os1 (-> & Hinv1 & _ & Hm1). done.
  - split; [done|]. split; [done|]. intros X v. by apply moved_refl.
Qed.

Lemma put_maybe_kill b t o d m w c f :
  t <> o -> same_facts s (maybe_kill b t (put_fact o d m w c f)) (put_fact o d m w c (maybe_kill b t f)).
Proof.
  intros Hne u _. destruct b; [|done]. unfold facts_at. cbn. destruct (Z.eqb_spec u o) as [->|]; [|done].
  by rewrite (proj2 (Z.eqb_neq o t)).
Qed.

(** The output is not used any more: its value goes to memory only. *)
Lemma wp_mov_store σ g o t (dead1 : bool) :
  ra_inv g σ -> valid s o -> valid s t -> o <> t -> (ts_of σ o).(fixed_reg) = false -> g.(f_dead) o = true ->
  survives s o = true -> (ts_of σ t).(val_type) = TEMP_VAL_REG -> 0 <= tsize s o <= tsize s t ->
  wp (when (negb (ts_of σ o).(mem_allocated)) (temp_allocate_frame frame o) ;;
      ots ← get_ts o;
      ra_emit (LSt (temp_type s o) (ts_of σ t).(reg) ots.(mem_reg) ots.(mem_offset)) ;;
      when dead1 (temp_dead s t) ;;
      temp_dead s o)
    (fun _ σ' os => ra_inv (put_fact o true true true false (maybe_kill dead1 t g)) σ' /\
       forall v, rd s v o = wrap (tsize s o) (rd s v t) ->
         moved σ σ' os (values [o] g v σ) (values [] (put_fact o true true true false (maybe_kill dead1 t g)) v σ')) σ.
Proof.
  intros Hinv Vo Vt Hne Hf Hd Hs Hr Hsz. pose proof Hinv as [Hl Hp Hlv].
  apply wp_bind. eapply wp_mono; [by apply (wp_ensure_slot s frame reserved M)|].
  intros [] σ1 os1 (-> & Hl1 & Hp1 & Hon & Hsc & _ & Ha). apply wp_bind, wp_get_ts; [by eapply bounds_temp|].
  apply wp_bind, wp_emit. set (f3 := put_fact o true true true false g).
  assert ((ts_of σ1 o).(val_type) = TEMP_VAL_MEM) as Hm.
  { destruct Hsc as [-> _]. by rewrite (lv_dead _ _ _ _ _ _ _ (Hlv o Vo Hf) Hd), Hs. }
  assert (ra_inv f3 σ1) as Hinv1.
  { split; [done|done|]. intros u Vu. destruct (Z.eq_dec u o) as [->|Hu].
    - intros _. apply live_put. split; rewrite ?Hm, ?Hs; try done. by left.
    - rewrite (on_others _ _ _ _ Hon) by done. intros Hfu. eapply live_except; [apply put_except|done|by apply Hlv]. }
  assert (forall v, rd s v o = wrap (tsize s o) (rd s v t) ->
    moved σ σ1 [LSt (temp_type s o) (ts_of σ t).(reg) (ts_of σ1 o).(mem_reg) (ts_of σ1 o).(mem_offset)]
      (values [o] g v σ) (values [] f3 v σ1)) as Hm1.
  { intros v Hv. split; [apply Hon|by repeat constructor|]. intros Hw h Hval u Vu _. cbn [exec_moves fold_left exec_move].
    assert (M o = Some ((ts_of σ1 o).(mem_reg), (ts_of σ1 o).(mem_offset))) as EM.
    { apply Hw; [done| |done]. by destruct Hsc as (_ & _ & _ & ->). }
    destruct (Z.eq_dec u o) as [->|Hu].
    - split; rewrite Hm; try done. intros _ _ k Hk. rewrite EM in Hk. injection Hk as <-.
      rewrite hmem_set_same, type_size, wrap_wrap, Hv. assert (t ∉ [o]) as Ht by (apply not_elem_of_cons; split; [done|apply not_elem_of_nil]).
      rewrite <- (vl_reg _ _ _ _ _ _ _ (Hval t Vt Ht) Hr). symmetry. by apply wrap_wrap_le.
    - rewrite (on_others _ _ _ _ Hon u Vu Hu), (used_except o g) by (done || apply put_except).
      eapply val_ts_host; [apply Hval; [done|]|done|].
      + apply not_elem_of_cons. split; [done|apply not_elem_of_nil].
      + intros k Hk. apply hmem_set_other. intros ->. apply Hu. by eapply (se_inj (setting:=Hset)). }
  apply wp_bind. eapply wp_mono; [by apply wp_maybe_kill|]. intros [] σ2 os2 (-> & Hinv2 & Hm2).
  eapply wp_mono; [by apply wp_bury|]. intros [] σ3 os3 (-> & Hinv3 & _ & Hm3).
  assert (same_facts s (kill o (maybe_kill dead1 t f3)) (put_fact o true true true false (maybe_kill dead1 t g))) as Hsame.
  { intros u Vu. rewrite (put_maybe_kill dead1 t o) by done. fold f3. unfold facts_at. cbn.
    destruct (Z.eqb_spec u o) as [->|]; [|done]. destruct dead1; cbn; by rewrite ?Z.eqb_refl, ?(proj2 (Z.eqb_neq o t)). }
  split; [by eapply inv_same|]. intros v Hv. cbn [app].
  pose proof (moved_trans _ _ _ _ _ _ _ _ _ _ (Hm2 [] v) (Hm3 [] v)) as [S3 M3 V3].
  apply (moved_trans s M σ σ1 σ3 [_] [] _ (values [] f3 v σ1)); [by apply Hm1|]. split; [done|done|].
  intros Hw h Hval. eapply values_same; [exact Hsame|by apply V3].
Qed.
(** The output has been given the register [r], which has the value of the source. *)
Record given (g g' : facts) (o t r : Z) (σ σ' : ra_state) (os : list lop) : Prop := {
  gi_inv : ra_inv g' σ';
  gi_reg : (ts_of σ' o).(reg) = r;
  gi_real : real_reg r;
  gi_owner : owner σ' r = -1;
  gi_free : Z.testbit reserved r = false;
  gi_moved : forall v, moved σ σ' os (values [o] g v σ)
    (fun h => values [o] g' v σ' h /\ wrap (tsize s o) (hregs h r) = wrap (tsize s o) (rd s v t))
}.

(** A register number in a temporary outside of the registers does not matter. *)
Lemma inv_set_reg g σ o r :
  ra_inv g σ -> valid s o -> (ts_of σ o).(fixed_reg) = false -> (ts_of σ o).(val_type) <> TEMP_VAL_REG ->
  ra_inv g (with_temp o (set_ts_reg r (ts_of σ o)) σ).
Proof.
  intros Hinv Vo Hf Hnr. eapply inv_with; try done. destruct Hinv as [_ _ Hlv].
  destruct (Hlv o Vo Hf) as [L1 L2 L3 L4 L5 L6 L7]. by split.
Qed.

Lemma values_outside X g v σ o ts h :
  linked σ -> valid s o -> o ∈ X -> values X g v σ h -> values X g v (with_temp o ts σ) h.
Proof.
  intros Hl Vo Ho Hval u Vu Hu. unfold with_temp. rewrite (ts_with_temp s reserved) by done.
  destruct (Z.eqb_spec u o) as [->|]; [done|by apply Hval].
Qed.

Lemma not_in_one (o t : Z) : o <> t -> t ∉ [o].
Proof. intros Hne. apply not_elem_of_cons. split; [done|apply not_elem_of_nil]. Qed.

(** The source leaves its register to the output. *)
Lemma wp_mov_give σ g o t :
  ra_inv g σ -> valid s o -> valid s t -> o <> t -> (ts_of σ o).(fixed_reg) = false -> g.(f_dead) o = true ->
  (ts_of σ t).(fixed_reg) = false -> (ts_of σ t).(val_type) = TEMP_VAL_REG -> 0 <= tsize s o <= tsize s t ->
  wp (release o ;; upd_ts o (set_ts_reg (ts_of σ t).(reg)) ;; temp_dead s t)
    (fun _ σ' os => given g (kill t g) o t (ts_of σ t).(reg) σ σ' os) σ.
Proof.
  intros Hinv Vo Vt Hne Hf Hd Hft Hr Hsz. pose proof (dead_not_reg g σ o Hinv Vo Hf Hd) as Hnr.
  pose proof Hinv as [Hl Hp Hlv]. destruct (ln_reg _ _ _ Hl t Vt Hft Hr) as [Hrr Ho]. set (r := (ts_of σ t).(reg)) in *.
  apply wp_bind. unfold release. apply wp_bind, wp_get_ts; [by eapply bounds_temp|]. unfold is_val.
  rewrite bool_decide_false by done. apply wp_ret. apply wp_bind, wp_upd_ts; [by eapply bounds_temp|].
  set (σ1 := with_temp o (set_ts_reg r (ts_of σ o)) σ). assert (ra_inv g σ1) as Hinv1 by (by apply inv_set_reg).
  assert (ts_of σ1 t = ts_of σ t /\ ts_of σ1 o = set_ts_reg r (ts_of σ o)) as [Et Eo].
  { unfold σ1, with_temp. by rewrite !(ts_with_temp s reserved), Z.eqb_refl, (proj2 (Z.eqb_neq t o)) by done. }
  eapply wp_mono; [apply wp_dead; [exact Hinv1|done|by rewrite Et]|]. intros [] σ2 os2 (-> & Hinv2 & [B1 B2] & Hm2).
  assert (owner σ r <> -1) as Hno by (rewrite Ho; unfold valid in Vt; lia). split; [done| |done|..].
  - by rewrite B1, Eo.
  - rewrite B2 by done. change (owner σ1 r) with (owner σ r). by rewrite Ho, Z.eqb_refl.
  - by destruct (ln_owner _ _ _ Hl r Hrr Hno) as (_ & _ & _ & _ & ?).
  - intros v. destruct (Hm2 [o] v) as [S2 M2 V2]. split.
    + eapply slots_le_trans; [|exact S2]. by eapply slots_le_same.
    + repeat constructor.
    + intros Hw h Hval. cbn. split; [apply V2; [done|]; apply values_outside; auto using list_elem_of_here|].
      rewrite <- (vl_reg _ _ _ _ _ _ _ (Hval t Vt (not_in_one o t Hne)) Hr). symmetry. by apply wrap_wrap_le.
Qed.

(** The value is copied to another register. *)
Lemma wp_mov_copy σ g o t oregs :
  ra_inv g σ -> valid s o -> valid s t -> o <> t -> (ts_of σ o).(fixed_reg) = false -> g.(f_dead) o = true ->
  (ts_of σ t).(val_type) = TEMP_VAL_REG -> 0 <= tsize s o <= tsize s t ->
  available oregs (regset_add (ts_of σ t).(reg) reserved) -> real_reg (ts_of σ t).(reg) ->
  wp (when (negb (is_val TEMP_VAL_REG (ts_of σ o)))
        (r ← tcg_reg_alloc s frame oregs (regset_add (ts_of σ t).(reg) reserved); upd_ts o (set_ts_reg r)) ;;
      ots ← get_ts o; ra_emit (LMov (temp_type s o) ots.(reg) (ts_of σ t).(reg)))
    (fun _ σ' os => exists r, given g g o t r σ σ' os) σ.
Proof.
  intros Hinv Vo Vt Hne Hf Hd Hr Hsz Hav Hrr. pose proof (dead_not_reg g σ o Hinv Vo Hf Hd) as Hnr.
  pose proof Hinv as [Hl Hp Hlv]. set (q := (ts_of σ t).(reg)) in *. unfold is_val. rewrite bool_decide_false by done.
  cbn [negb when]. apply wp_bind, wp_bind. eapply wp_mono; [apply wp_alloc; [exact Hset|done|done]|].
  intros r σ1 os1 ((_ & Hrl & _ & Hnr1) & Hinv1 & Hst & Hfr & Hmv). destruct Hrl as [Hr0 Hr16].
  rewrite testbit_add in Hnr1 by (done || apply Hrr). apply orb_false_iff in Hnr1 as [Hres Hrq%Z.eqb_neq].
  pose proof Hinv1 as [Hl1 _ _]. apply wp_upd_ts; [by eapply bounds_temp|]. apply wp_bind.
  assert (ts_of σ1 o = ts_of σ o) as Ets.
  { apply (fr_temps _ _ _ _ Hfr); [done|]. intros E.
    destruct (ln_owner _ _ _ Hl r) as (_ & _ & Hv' & _); [done|unfold valid in Vo; lia|]. by rewrite <- E in Hv'. }
  set (σ2 := with_temp o (set_ts_reg r (ts_of σ1 o)) σ1).
  assert (ra_inv g σ2) as Hinv2 by (apply inv_set_reg; rewrite ?Ets; done).
  apply wp_get_ts; [eapply bounds_temp; [apply Hinv2|done]|]. apply wp_emit.
  assert (ts_of σ2 o = set_ts_reg r (ts_of σ1 o)) as Eo.
  { unfold σ2, with_temp. by rewrite (ts_with_temp s reserved), Z.eqb_refl by done. }
  rewrite Eo. cbn [set_ts_reg reg app]. exists r. split; [done|by rewrite Eo|done|apply Hfr|done|]. intros v.
  apply (moved_trans s M σ σ1 σ2 (os1 ++ []) [_] _
    (fun h => values [o] g v σ1 h /\ wrap (tsize s t) (hregs h q) = rd s v t)).
  - destruct (Hmv [o] v) as [S1 M1 V1]. rewrite app_nil_r. split; [done|done|]. intros Hw h Hval. split; [by apply V1|].
    rewrite stores_regs by done. by apply (Hval t Vt (not_in_one o t Hne)).
  - split; [by eapply slots_le_same|by repeat constructor|]. intros _ h [Hval Hq]. cbn [exec_moves fold_left exec_move].
    rewrite (proj2 (Z.eqb_neq r q)) by done. split.
    + apply values_outside; [done|done|apply list_elem_of_here|]. eapply values_set_reg; try done. apply Hfr.
    + rewrite hregs_set_same, type_size, wrap_wrap, <- Hq. symmetry. by apply wrap_wrap_le.
Qed.
Lemma reg_real σ t : linked σ -> valid s t -> (ts_of σ t).(val_type) = TEMP_VAL_REG -> real_reg (ts_of σ t).(reg).
Proof.
  intros Hl Vt Hr. destruct ((ts_of σ t).(fixed_reg)) eqn:Hf; [|by apply (ln_reg _ _ _ Hl t Vt Hf Hr)].
  by destruct (ln_fixed _ _ _ Hl _ Vt Hf) as (_ & _ & ? & _).
Qed.

(** Fixed temporaries are not affected by the analysis. *)
Lemma kill_fixed f σ t : ra_inv f σ -> valid s t -> (ts_of σ t).(fixed_reg) = true ->
  ra_inv (kill t f) σ /\ forall X v h, values X f v σ h -> values X (kill t f) v σ h.
Proof.
  intros [Hl Hp Hlv] Vt Hf. split.
  - split; [done|done|]. intros u Vu Hu. eapply (live_except s t f); [apply kill_except|congruence|by apply Hlv].
  - intros X v h Hv u Vu Hu. destruct (Z.eq_dec u t) as [->|Hne].
    + destruct (Hv t Vt Hu) as [V1 V2 V3 V4]. destruct (ln_fixed _ _ _ Hl t Vt Hf) as (_ & Hr & _). split; try done. congruence.
    + rewrite (used_except t f) by (done || apply kill_except). by apply Hv.
Qed.

(** The part of [tcg_reg_alloc_mov] with the source in a register. *)
Lemma wp_mov_reg σ f o t oregs (dead1 sync : bool) :
  ra_inv f σ -> valid s o -> valid s t -> o <> t -> (ts_of σ o).(fixed_reg) = false -> f.(f_dead) o = true ->
  (ts_of σ t).(val_type) = TEMP_VAL_REG -> 0 <= tsize s o <= tsize s t ->
  (forall r, real_reg r -> available oregs (regset_add r reserved)) -> (sync = true -> survives s o = true) ->
  wp ((if dead1 && negb (ts_of σ t).(fixed_reg) && negb (ts_of σ o).(fixed_reg) then
         release o ;; upd_ts o (set_ts_reg (ts_of σ t).(reg)) ;; temp_dead s t
       else
         when (negb (is_val TEMP_VAL_REG (ts_of σ o)))
           (r ← tcg_reg_alloc s frame oregs (regset_add (ts_of σ t).(reg) reserved); upd_ts o (set_ts_reg r)) ;;
         ots ← get_ts o; ra_emit (LMov (temp_type s o) ots.(reg) (ts_of σ t).(reg))) ;;
      mov_take o sync)
    (fun _ σ' os => ra_inv (put_fact o false sync true false (maybe_kill dead1 t f)) σ' /\
       forall v, rd s v o = wrap (tsize s o) (rd s v t) ->
         moved σ σ' os (values [o] f v σ) (values [] (put_fact o false sync true false (maybe_kill dead1 t f)) v σ')) σ.
Proof.
  intros Hinv Vo Vt Hne Hf Hd Hr Hsz Hav Hs. pose proof (reg_real σ t (ri_linked _ _ _ _ _ Hinv) Vt Hr) as Hrr.
  apply wp_bind. apply (wp_mono _ (fun _ σ1 os => exists r, given f (maybe_kill dead1 t f) o t r σ σ1 os)).
  - rewrite Hf, andb_true_r. destruct dead1, ((ts_of σ t).(fixed_reg)) eqn:Hft; cbn [andb negb maybe_kill].
    + eapply wp_mono; [by apply wp_mov_copy; auto|]. intros [] σ1 os1 (r & [G1 G2 G3 G4 G5 G6]). exists r.
      assert ((ts_of σ1 t).(fixed_reg) = true) as Hf1 by (by destruct (mv_slots _ _ _ _ _ _ _ (G6 []) t Vt) as [-> _]).
      destruct (kill_fixed f σ1 t G1 Vt Hf1) as [K1 K2]. split; try done. intros v. destruct (G6 v) as [S1 M1 V1].
      split; [done|done|]. intros Hw h Hv. destruct (V1 Hw h Hv) as [? ?]. auto.
    + eapply wp_mono; [by apply wp_mov_give|]. intros [] σ1 os1 HG. by eexists.
    + eapply wp_mono; [by apply wp_mov_copy; auto|]. done.
    + eapply wp_mono; [by apply wp_mov_copy; auto|]. done.
  - intros [] σ1 os1 (r & [G1 G2 G3 G4 G5 G6]). assert ((ts_of σ1 o).(fixed_reg) = false) as Hf1.
    { destruct (mv_slots _ _ _ _ _ _ _ (G6 []) o Vo) as [-> _]. done. }
    eapply wp_mono; [apply (wp_mov_take σ1 (maybe_kill dead1 t f) o r); try done|].
    { destruct dead1; cbn; [|done]. by rewrite (proj2 (Z.eqb_neq o t)). }
    intros [] σ2 os2 [Hinv2 Hm2]. split; [done|]. intros v Hv. eapply moved_trans; [apply G6|].
    destruct (Hm2 v) as [S2 M2 V2]. split; [done|done|]. intros Hw h [Hval Hro]. apply V2; [done|]. by rewrite Hro, Hv.
Qed.
Lemma wp_mov σ f o t oregs iregs da sa :
  ra_inv f σ -> valid s o -> valid s t -> o <> t -> (ts_of σ o).(fixed_reg) = false -> f.(f_dead) o = true ->
  f.(f_dead) t = false -> f.(f_const) t = false ->
  (s.(nb_globals) <= t -> (tget s.(temps) t).(temp_local) = true -> f.(f_written) t = true) ->
  available iregs reserved -> (forall r, real_reg r -> available oregs (regset_add r reserved)) ->
  0 <= tsize s o <= tsize s t ->
  (NEED_SYNC_ARG sa 0 = true -> survives s o = true) -> (IS_DEAD_ARG da 0 = true -> NEED_SYNC_ARG sa 0 = true) ->
  let f' := put_fact o (IS_DEAD_ARG da 0) (NEED_SYNC_ARG sa 0) true false (maybe_kill (IS_DEAD_ARG da 1) t f) in
  wp (tcg_reg_alloc_mov s frame reserved oregs iregs o t da sa)
    (fun _ σ' os => ra_inv f' σ' /\
       forall v, rd s v o = wrap (tsize s o) (rd s v t) -> moved σ σ' os (values [o] f v σ) (values [] f' v σ')) σ.
Proof.
  intros Hinv Vo Vt Hne Hf Hd Hdt Hct Hw Hai Hao Hsz Hs Hds. cbv zeta. unfold tcg_reg_alloc_mov.
  apply wp_bind, wp_get_ts; [eapply bounds_temp; [apply Hinv|done]|]. apply wp_bind.
  eapply wp_mono; [by apply (wp_load_source σ f)|]. intros [] σ1 os1 (Hinv1 & Hr1 & Hm1).
  pose proof (fun v => Hm1 [o] v (not_in_one o t Hne)) as Hm1'. clear Hm1. pose proof Hinv1 as [Hl1 _ _].
  assert ((ts_of σ1 o).(fixed_reg) = false) as Hf1.
  { destruct (mv_slots _ _ _ _ _ _ _ (Hm1' []) o Vo) as [-> _]. done. }
  apply wp_bind, wp_get_ts; [by eapply bounds_temp|]. apply wp_bind, wp_get_ts; [by eapply bounds_temp|].
  rewrite Hf1 at 1. rewrite andb_true_r. destruct (IS_DEAD_ARG da 0) eqn:Hd0.
  - rewrite (Hds eq_refl) in *. apply wp_bind, wp_assert; [done|].
    apply wp_bind, wp_assert; [by apply bool_decide_true|].
    eapply wp_mono; [apply (wp_mov_store σ1 f o t (IS_DEAD_ARG da 1)); auto|].
    intros [] σ2 os2 [Hinv2 Hm2]. cbn [app]. split; [done|]. intros v Hv. eapply moved_trans; [apply Hm1'|by apply Hm2].
  - unfold is_val at 1. rewrite Hr1, (bool_decide_false (TEMP_VAL_REG = TEMP_VAL_CONST)) by done.
    apply wp_bind, wp_assert; [by apply bool_decide_true|].
    eapply wp_mono; [apply (wp_mov_reg σ1 f o t oregs (IS_DEAD_ARG da 1) (NEED_SYNC_ARG sa 0)); auto|].
    intros [] σ2 os2 [Hinv2 Hm2]. cbn [app]. split; [done|]. intros v Hv. eapply moved_trans; [apply Hm1'|by apply Hm2].
Qed.
End Moves.
