(* ===== verification/RegAllocCall.v ===== *)
(** * The register allocator on calls

    [tcg_reg_alloc_call]: the parameters are in the registers and on the stack where
    the calling convention has them, the function is in a register or a constant,
    no register that the callee may overwrite is in use, and the results are taken
    from the registers in which the callee leaves them. *)

From S2P Require Import Prelude QtraceDefs X86 TcgOut TcgEnc TcgEmit TcgCond TcgOpDefs TcgSem TcgIR.
From S2P Require Import Optimize OptCopies OptSound Liveness LivenessSound InstrCall Prologue RegAlloc RegAllocLogic.
From S2P Require Import LinearCode RegAllocSpill RegAllocOps RegAllocStep RegAllocTable RegAllocInsn RegAllocMov.

(** ** Numbered lists *)

Lemma numbered_elem {A} (l : list A) k x : (k, x) ∈ imap pair l <-> l !! k = Some x.
Proof.
  rewrite elem_of_lookup_imap. split; [|by exists k, x]. intros (j & y & E & Hy). by injection E as -> ->.
Qed.

Lemma numbered_fst {A} (l : list A) : NoDup (imap pair l).*1.
Proof.
  apply NoDup_alt. intros j k x. rewrite !list_lookup_fmap, !list_lookup_imap.
  destruct (l !! j), (l !! k); cbn; congruence.
Qed.

Lemma numbered_snd {A} (l : list A) : (imap pair l).*2 = l.
Proof. apply list_eq. intros k. rewrite list_lookup_fmap, list_lookup_imap. by destruct (l !! k). Qed.

Section Call.
Context (s : tcg_temps) (frame : tcg_frame) (M : Z -> option (Z * Z)).
Context {Hset : setting s frame reserved M}.

Local Abbreviation ts_of σ t := (tget (ra_temps σ) t).
Local Abbreviation owner σ r := (tget (reg_to_temp σ) r).
Local Abbreviation ra_inv := (ra_inv s frame reserved).
Local Abbreviation values := (values s M).
Local Abbreviation moved := (moved s M).
Local Abbreviation stores os := (Forall (fun o => is_store o = true) os).
Local Abbreviation moves os := (Forall (fun o => is_move o = true) os).

Hypothesis Harea : forall t ofs, valid s t -> args_area ofs -> M t <> Some (TCG_REG_CALL_STACK, ofs).

(** What the moves [os] leave as it is: the parameters on the stack and the
    registers in [R]. *)
Definition keeps (R : Z -> Prop) (σ' : ra_state) (os : list lop) : Prop :=
  within s M σ' -> forall h,
    (forall ofs, args_area ofs -> hmem (exec_moves os h) (TCG_REG_CALL_STACK, ofs) = hmem h (TCG_REG_CALL_STACK, ofs)) /\
    forall r, R r -> hregs (exec_moves os h) r = hregs h r.

Lemma keeps_spills R σ os : Forall (spill s σ) os -> stores os -> keeps R σ os.
Proof.
  intros Hs Hst Hw h. split; [|intros r _; by rewrite stores_regs]. intros ofs Ho.
  eapply spilled_mem; [done|done|]. intros t Vt. by apply Harea.
Qed.

Lemma keeps_app R σ1 σ2 os1 os2 : slots_le s σ1 σ2 -> keeps R σ1 os1 -> keeps R σ2 os2 -> keeps R σ2 (os1 ++ os2).
Proof.
  intros Hle H1 H2 Hw h. rewrite exec_moves_app. destruct (H1 (within_le s M _ _ Hle Hw) h) as [S1 R1].
  destruct (H2 Hw (exec_moves os1 h)) as [S2 R2]. split.
  - intros ofs Ho. by rewrite S2, S1.
  - intros r Hr. by rewrite R2, R1.
Qed.

(** ** Parameters *)

(** The value of a temporary into a register. *)
Definition fetch (t : Z) (ts : ra_temp) (r : Z) : lop :=
  match ts.(val_type) with
  | TEMP_VAL_REG => LMov (temp_type s t) r ts.(reg)
  | TEMP_VAL_MEM => LLd (temp_type s t) r ts.(mem_reg) ts.(mem_offset)
  | _ => LMovi (temp_type s t) r ts.(val)
  end.

Lemma fetch_reg t ts r h r' : r' <> r -> hregs (exec_move h (fetch t ts r)) r' = hregs h r'.
Proof.
  intros Hne. unfold fetch. destruct (val_type ts); cbn [exec_move]; try by apply hregs_set_other.
  destruct (r =? reg ts); [done|by apply hregs_set_other].
Qed.

Lemma fetch_mem t ts r h : hmem (exec_move h (fetch t ts r)) = hmem h.
Proof. unfold fetch. destruct (val_type ts); cbn [exec_move]; try done. by destruct (r =? reg ts). Qed.

Lemma fetch_keeps t ts r σ : keeps (fun r' => r' <> r) σ [fetch t ts r].
Proof. intros _ h. cbn [exec_moves fold_left]. split; [intros; by rewrite fetch_mem|]. intros r' Hr'. by apply fetch_reg. Qed.

Lemma fetch_move t ts r : is_move (fetch t ts r) = true.
Proof. unfold fetch. by destruct (val_type ts). Qed.

(** An input: live, and set before if it is local. *)
Record readable (f : facts) (t : Z) : Prop := {
  re_valid : valid s t;
  re_live : f.(f_dead) t = false;
  re_written : s.(nb_globals) <= t -> (tget s.(temps) t).(temp_local) = true -> f.(f_written) t = true
}.

Lemma readable_place f σ t :
  ra_inv f σ -> readable f t -> (ts_of σ t).(val_type) <> TEMP_VAL_DEAD /\
  ((ts_of σ t).(val_type) = TEMP_VAL_MEM -> (ts_of σ t).(fixed_reg) = false /\ (ts_of σ t).(mem_allocated) = true).
Proof.
  intros [Hl _ Hlv] [Vt Hd Hw]. destruct ((ts_of σ t).(fixed_reg)) eqn:Hf.
  { destruct (ln_fixed _ _ _ Hl t Vt Hf) as (_ & -> & _). done. }
  destruct (Hlv t Vt Hf) as [L1 L2 L0 L3 L4 L5 L6]. split; [by apply L2|]. intros Hm. split; [done|].
  apply L4; [by rewrite Hd|done|done].
Qed.

Lemma fetch_value f v σ h t r :
  ra_inv f σ -> within s M σ -> readable f t -> values [] f v σ h ->
  wrap (tsize s t) (hregs (exec_move h (fetch t (ts_of σ t) r)) r) = rd s v t.
Proof.
  intros Hinv Hw Hre Hval. destruct (readable_place f σ t Hinv Hre) as [Hnd Hm]. destruct Hre as [Vt Hd _].
  destruct (Hval t Vt) as [V1 _ V3 V4]; [apply not_elem_of_nil|]. unfold fetch.
  destruct ((ts_of σ t).(val_type)) eqn:Hv; cbn [exec_move]; [done|..].
  - destruct (Z.eqb_spec r (reg (ts_of σ t))) as [->|]; [by apply V1|].
    rewrite hregs_set_same, type_size, wrap_wrap. by apply V1.
  - rewrite hregs_set_same, type_size, wrap_wrap. destruct (Hm eq_refl) as [Hf Ha].
    apply V4; [done|unfold used_by; by rewrite Hd|]. by apply Hw.
  - rewrite hregs_set_same, type_size, wrap_wrap. by apply V3.
Qed.

Lemma fetch_values X f v σ h t ts r :
  ra_inv f σ -> real_reg r -> owner σ r = -1 -> Z.testbit reserved r = false ->
  values X f v σ h -> values X f v σ (exec_move h (fetch t ts r)).
Proof.
  intros [Hl _ _] Hr Ho Hres Hv. unfold fetch. destruct (val_type ts); cbn [exec_move]; try by eapply values_set_reg.
  destruct (r =? reg ts); [done|by eapply values_set_reg].
Qed.
Lemma not_dummy t : valid s t -> (t =? TCG_CALL_DUMMY_ARG) = false.
Proof.
  pose proof (se_max (setting:=Hset)) as Hmax. intros Vt. apply Z.eqb_neq.
  unfold valid, TCG_MAX_TEMPS, TCG_CALL_DUMMY_ARG in *. lia.
Qed.

(** A parameter on the stack. *)
Lemma values_set_stack X f v σ h ofs x :
  args_area ofs -> values X f v σ h -> values X f v σ (set_hmem (TCG_REG_CALL_STACK, ofs) x h).
Proof.
  intros Ho Hv t Vt Ht. eapply val_ts_host; [by apply Hv|done|]. intros k Hk. apply hmem_set_other. intros ->.
  by apply (Harea t ofs).
Qed.

Record stack_stored (f : facts) (t ofs : Z) (σ σ' : ra_state) (os : list lop) : Prop := {
  ss_inv : ra_inv f σ';
  ss_slots : slots_le s σ σ';
  ss_moves : moves os;
  ss_values : within s M σ' -> forall v h, values [] f v σ h -> values [] f v σ' (exec_moves os h) /\
    wrap (tsize s t) (hmem (exec_moves os h) (TCG_REG_CALL_STACK, ofs)) = rd s v t /\
    forall ofs', args_area ofs' -> ofs' <> ofs ->
      hmem (exec_moves os h) (TCG_REG_CALL_STACK, ofs') = hmem h (TCG_REG_CALL_STACK, ofs')
}.

Lemma stack_other ofs ofs' x h : ofs' <> ofs ->
  hmem (set_hmem (TCG_REG_CALL_STACK, ofs) x h) (TCG_REG_CALL_STACK, ofs') = hmem h (TCG_REG_CALL_STACK, ofs').
Proof. intros Hne. apply hmem_set_other. congruence. Qed.

(** Through a register. *)
Lemma wp_stack_fetch f σ t ofs :
  ra_inv f σ -> readable f t -> args_area ofs -> (ts_of σ t).(val_type) <> TEMP_VAL_REG ->
  wp (r ← tcg_reg_alloc s frame (tcg_target_available_regs (temp_type s t)) reserved;
      ra_emit (fetch t (ts_of σ t) r) ;; ra_emit (LSt (temp_type s t) r TCG_REG_CALL_STACK ofs))
    (fun _ σ' os => stack_stored f t ofs σ σ' os) σ.
Proof.
  intros Hinv Hre Ho Hnr. pose proof (re_valid _ _ Hre) as Vt. pose proof Hinv as [Hl _ _]. apply wp_bind. eapply wp_mono.
  { apply wp_spills; [apply spills_alloc|apply Hinv|]. apply wp_alloc; [exact Hset|done|apply some_available]. }
  intros r σ1 os1 (((_ & Hr & _ & Hres) & Hinv1 & Hst & Hfr & Hmv) & Hsp).
  assert (ts_of σ1 t = ts_of σ t) as Ets.
  { apply (fr_temps _ _ _ _ Hfr); [done|]. intros E.
    destruct (ln_owner _ _ _ Hl r) as (_ & _ & Hv' & _); [done|unfold valid in Vt; lia|]. by rewrite <- E in Hv'. }
  apply wp_bind, wp_emit, wp_emit. cbn [app]. split; [done|apply (Hmv [] [])|..].
  - apply Forall_app. split; [by apply stores_moves|]. repeat constructor. apply fetch_move.
  - intros Hw v h Hv. rewrite exec_moves_app. destruct (Hmv [] v) as [_ _ V1]. specialize (V1 Hw h Hv).
    set (h1 := exec_moves os1 h) in *. cbn [exec_moves fold_left exec_move].
    set (h2 := exec_move h1 (fetch t (ts_of σ t) r)). split; [|split].
    + apply values_set_stack; [done|]. apply fetch_values; [done|done|apply Hfr|done|done].
    + rewrite hmem_set_same, type_size, wrap_wrap. unfold h2. rewrite <- Ets. by eapply fetch_value.
    + intros ofs' Ho' Hne. rewrite stack_other by done. unfold h2. rewrite fetch_mem.
      eapply spilled_mem; [done|done|]. intros u Vu. by apply Harea.
Qed.

Lemma wp_stack_arg f σ t ofs :
  ra_inv f σ -> readable f t -> args_area ofs ->
  wp (store_stack_arg s frame reserved t ofs) (fun _ σ' os => stack_stored f t ofs σ σ' os) σ.
Proof.
  intros Hinv Hre Ho. pose proof (re_valid _ _ Hre) as Vt. destruct (readable_place f σ t Hinv Hre) as [Hnd _].
  unfold store_stack_arg. rewrite not_dummy by done. cbn [negb when]. apply wp_bind, wp_get_ts; [eapply bounds_temp; [apply Hinv|done]|].
  destruct ((ts_of σ t).(val_type)) eqn:Hv; [done|..].
  - apply wp_emit. split; [done|apply slots_le_refl|by repeat constructor|]. intros Hw v h Hval.
    cbn [app exec_moves fold_left exec_move]. split; [by apply values_set_stack|]. split; [|intros; by apply stack_other].
    rewrite hmem_set_same, type_size, wrap_wrap. apply (Hval t Vt); [apply not_elem_of_nil|done].
  - pose proof (wp_stack_fetch f σ t ofs Hinv Hre Ho) as H. unfold fetch in H. rewrite Hv in H. by apply H.
  - pose proof (wp_stack_fetch f σ t ofs Hinv Hre Ho) as H. unfold fetch in H. rewrite Hv in H. by apply H.
Qed.
Lemma wp_stack_args f l : forall σ,
  ra_inv f σ -> (forall kt, kt ∈ l -> readable f kt.2 /\ args_area (param_offset kt.1)) -> NoDup l.*1 ->
  wp (ra_each (fun kt => store_stack_arg s frame reserved kt.2 (param_offset kt.1)) l)
    (fun _ σ' os => ra_inv f σ' /\ slots_le s σ σ' /\ moves os /\
       (within s M σ' -> forall v h, values [] f v σ h -> values [] f v σ' (exec_moves os h) /\
          (forall kt, kt ∈ l ->
             wrap (tsize s kt.2) (hmem (exec_moves os h) (TCG_REG_CALL_STACK, param_offset kt.1)) = rd s v kt.2) /\
          forall ofs, args_area ofs -> (forall kt, kt ∈ l -> ofs <> param_offset kt.1) ->
            hmem (exec_moves os h) (TCG_REG_CALL_STACK, ofs) = hmem h (TCG_REG_CALL_STACK, ofs))) σ.
Proof.
  induction l as [|[k t] l IH]; intros σ Hinv Hl Hnd; cbn [ra_each].
  { apply wp_ret. split; [done|]. split; [apply slots_le_refl|]. split; [constructor|]. intros Hw v h Hv.
    split; [done|]. split; [|done]. intros kt Hkt. by apply not_elem_of_nil in Hkt. }
  rewrite fmap_cons in Hnd. apply NoDup_cons in Hnd as [Hk Hnd].
  destruct (Hl (k, t)) as [Hre Ha]; [apply list_elem_of_here|]. cbn [fst snd] in *.
  apply wp_bind. eapply wp_mono; [by apply wp_stack_arg|]. intros [] σ1 os1 [Hinv1 S1 M1 V1].
  eapply wp_mono; [apply IH; [done| |done]|]. { intros kt Hkt. apply Hl. by apply list_elem_of_further. }
  intros [] σ2 os2 (Hinv2 & S2 & M2 & V2). split; [done|]. split; [by eapply slots_le_trans|]. split; [by apply Forall_app|].
  intros Hw v h Hv. rewrite exec_moves_app. destruct (V1 (within_le _ _ _ _ S2 Hw) v h Hv) as (Hv1 & Hk1 & Ho1).
  destruct (V2 Hw v _ Hv1) as (Hv2 & Hl2 & Ho2). split; [done|]. split.
  - intros kt [->|Hkt]%elem_of_cons; [|by apply Hl2]. cbn [fst snd]. rewrite Ho2; [done|done|].
    intros [k' t'] Hkt E. apply Hk. unfold param_offset in E. cbn in E. apply list_elem_of_fmap. exists (k', t').
    split; [cbn; lia|done].
  - intros ofs Ho Hne. rewrite Ho2, Ho1; [done|done|..|done|].
    + apply (Hne (k, t)), list_elem_of_here.
    + intros kt Hkt. apply Hne. by apply list_elem_of_further.
Qed.

(** A parameter in a register. *)
Record reg_loaded (f : facts) (r t : Z) (σ σ' : ra_state) (os : list lop) : Prop := {
  rl_inv : ra_inv f σ';
  rl_slots : slots_le s σ σ';
  rl_moves : moves os;
  rl_owner : owner σ' r = -1;
  rl_stay : forall r', real_reg r' -> owner σ r' = -1 -> owner σ' r' = -1;
  rl_keeps : keeps (fun r' => r' <> r) σ' os;
  rl_values : within s M σ' -> forall v h, values [] f v σ h ->
    values [] f v σ' (exec_moves os h) /\ wrap (tsize s t) (hregs (exec_moves os h) r) = rd s v t
}.

Lemma wp_load_arg f σ k t allocated :
  ra_inv f σ -> readable f t -> real_reg (iarg_reg k) -> Z.testbit reserved (iarg_reg k) = false ->
  wp (load_reg_arg s frame (k, t) allocated)
    (fun x σ' os => x = regset_add (iarg_reg k) allocated /\ reg_loaded f (iarg_reg k) t σ σ' os) σ.
Proof.
  intros Hinv Hre Hr Hres. pose proof (re_valid _ _ Hre) as Vt. set (r := iarg_reg k) in *.
  unfold load_reg_arg. rewrite not_dummy by done. fold r. apply wp_bind. eapply wp_mono.
  { apply wp_spills; [apply spills_free|apply Hinv|]. apply wp_free; [exact Hset|done|done]. }
  intros [] σ1 os1 ((Hinv1 & Hst & Hfr & Hmv) & Hsp). destruct (readable_place f σ1 t Hinv1 Hre) as [Hnd _].
  pose proof Hinv1 as [Hl1 _ _]. apply wp_bind, wp_get_ts; [by eapply bounds_temp|]. apply wp_bind.
  assert (wp (match (ts_of σ1 t).(val_type) with
     | TEMP_VAL_REG => when (negb ((ts_of σ1 t).(reg) =? r)) (ra_emit (LMov (temp_type s t) r (ts_of σ1 t).(reg)))
     | TEMP_VAL_MEM => ra_emit (LLd (temp_type s t) r (ts_of σ1 t).(mem_reg) (ts_of σ1 t).(mem_offset))
     | TEMP_VAL_CONST => ra_emit (LMovi (temp_type s t) r (ts_of σ1 t).(val))
     | TEMP_VAL_DEAD => ra_fail TcgAbort
     end) (fun _ σ2 os2 => σ2 = σ1 /\ os2 = [fetch t (ts_of σ1 t) r]) σ1) as Hf.
  { unfold fetch. destruct ((ts_of σ1 t).(val_type)) eqn:Hv; [done| |by apply wp_emit..].
    assert ((ts_of σ1 t).(reg) <> r) as Hne.
    { intros E. destruct ((ts_of σ1 t).(fixed_reg)) eqn:Hfx.
      - destruct (ln_fixed _ _ _ Hl1 t Vt Hfx) as (_ & _ & _ & Hb & _). rewrite E in Hb. congruence.
      - destruct (ln_reg _ _ _ Hl1 t Vt Hfx Hv) as [_ Eo]. rewrite E, (fr_owner _ _ _ _ Hfr) in Eo. unfold valid in Vt. lia. }
    rewrite (proj2 (Z.eqb_neq _ _) Hne). by apply wp_emit. }
  eapply wp_mono; [exact Hf|]. intros [] σ2 os2 [-> ->]. apply wp_ret. split; [done|]. rewrite app_nil_r. cbn [app].
  split; [done|apply (Hmv [] [])| |apply Hfr|..].
  - apply Forall_app. split; [by apply stores_moves|]. repeat constructor. apply fetch_move.
  - intros r' Hr' Ho. destruct (Z.eq_dec r' r) as [->|Hne]; [apply Hfr|]. by rewrite (fr_owners _ _ _ _ Hfr).
  - eapply keeps_app; [apply slots_le_refl|by apply keeps_spills|apply fetch_keeps].
  - intros Hw v h Hv. rewrite exec_moves_app. destruct (Hmv [] v) as [_ _ V1]. specialize (V1 Hw h Hv).
    split; [apply fetch_values; [done|done|apply Hfr|done|done]|]. by eapply fetch_value.
Qed.
Lemma iarg_facts k : (k < 6)%nat -> real_reg (iarg_reg k) /\ Z.testbit reserved (iarg_reg k) = false.
Proof. intros Hk. unfold real_reg. do 6 (destruct k as [|k]; [by vm_compute|]). lia. Qed.

Lemma iarg_inj j k : (j < 6)%nat -> (k < 6)%nat -> iarg_reg j = iarg_reg k -> j = k.
Proof.
  intros Hj Hk. do 6 (destruct j as [|j]; [do 6 (destruct k as [|k]; [by vm_compute|]); lia|]). lia.
Qed.

Record regs_loaded (f : facts) (l : list (nat * Z)) (a a' : Z) (σ σ' : ra_state) (os : list lop) : Prop := {
  ls_inv : ra_inv f σ';
  ls_slots : slots_le s σ σ';
  ls_moves : moves os;
  ls_owner : forall kt, kt ∈ l -> owner σ' (iarg_reg kt.1) = -1;
  ls_stay : forall r, real_reg r -> owner σ r = -1 -> owner σ' r = -1;
  ls_keeps : keeps (fun r => forall kt, kt ∈ l -> iarg_reg kt.1 <> r) σ' os;
  ls_values : within s M σ' -> forall v h, values [] f v σ h -> values [] f v σ' (exec_moves os h) /\
    forall kt, kt ∈ l -> wrap (tsize s kt.2) (hregs (exec_moves os h) (iarg_reg kt.1)) = rd s v kt.2;
  ls_allocated : forall r, 0 <= r -> Z.testbit a' r = Z.testbit a r || bool_decide (r ∈ (iarg_reg <$> l.*1))
}.

Lemma wp_load_args f l : forall σ a,
  ra_inv f σ -> (forall kt, kt ∈ l -> readable f kt.2 /\ (kt.1 < 6)%nat) -> NoDup l.*1 ->
  wp (ra_fold (load_reg_arg s frame) l a) (fun a' σ' os => regs_loaded f l a a' σ σ' os) σ.
Proof.
  induction l as [|[k t] l IH]; intros σ a Hinv Hl Hnd; cbn [ra_fold].
  { apply wp_ret. assert (forall x : nat * Z, x ∈ [] -> False) as Hnil by (intros x Hx; by apply not_elem_of_nil in Hx).
    split; try done; [by intros x Hx; destruct (Hnil x Hx)|..].
    - intros _ v h Hv. split; [done|]. by intros x Hx; destruct (Hnil x Hx).
    - intros r Hr. cbn. by rewrite orb_false_r. }
  rewrite fmap_cons in Hnd. apply NoDup_cons in Hnd as [Hk Hnd]. cbn [fst] in Hk.
  destruct (Hl (k, t)) as [Hre Hk6]; [apply list_elem_of_here|]. cbn [fst snd] in *.
  destruct (iarg_facts k Hk6) as [Hr Hres]. apply wp_bind. eapply wp_mono; [by apply wp_load_arg|].
  intros a1 σ1 os1 [-> [Hinv1 S1 M1 O1 T1 K1 V1]].
  assert (forall kt, kt ∈ l -> readable f kt.2 /\ (kt.1 < 6)%nat) as Hl' by (intros; by apply Hl, list_elem_of_further).
  eapply wp_mono; [by apply IH|]. intros a' σ2 os2 [Hinv2 S2 M2 O2 T2 K2 V2 A2].
  assert (forall kt, kt ∈ l -> iarg_reg kt.1 <> iarg_reg k) as Hne.
  { intros kt Hkt E%iarg_inj; [|by apply Hl'|done]. apply Hk. rewrite <- E. by apply list_elem_of_fmap_2. }
  split; [done|by eapply slots_le_trans|by apply Forall_app|..].
  - intros kt [->|Hkt]%elem_of_cons; [by apply T2|by apply O2].
  - intros r' Hr' Ho. apply T2; [done|]. by apply T1.
  - intros Hw h. rewrite exec_moves_app. destruct (K1 (within_le _ _ _ _ S2 Hw) h) as [KS1 KR1].
    destruct (K2 Hw (exec_moves os1 h)) as [KS2 KR2]. split.
    + intros ofs Ho. by rewrite KS2, KS1.
    + intros r' Hr'. rewrite KR2, KR1; [done|..].
      * intros ->. by apply (Hr' (k, t) (list_elem_of_here _ _)).
      * intros kt Hkt. apply Hr'. by apply list_elem_of_further.
  - intros Hw v h Hv. rewrite exec_moves_app. destruct (V1 (within_le _ _ _ _ S2 Hw) v h Hv) as [Hv1 Hk1].
    destruct (V2 Hw v _ Hv1) as [Hv2 Hl2]. split; [done|]. intros kt [->|Hkt]%elem_of_cons; [|by apply Hl2].
    cbn [fst snd]. destruct (K2 Hw (exec_moves os1 h)) as [_ KR2]. by rewrite KR2.
  - intros r' Hr'. rewrite A2, testbit_add by (done || apply Hr). rewrite <- orb_assoc. f_equal. rewrite !fmap_cons. cbn [fst].
    destruct (Z.eqb_spec r' (iarg_reg k)) as [->|Hn]; cbn [orb].
    + by rewrite bool_decide_true by apply list_elem_of_here.
    + apply bool_decide_ext. rewrite elem_of_cons. tauto.
Qed.
(** ** The function *)

Record func_placed (f : facts) (ct : TCGArgConstraint) (t a : Z) (x : Z * bool) (σ σ' : ra_state) (os : list lop) : Prop := {
  fp_inv : ra_inv f σ';
  fp_slots : slots_le s σ σ';
  fp_moves : moves os;
  fp_fits : if x.2 then tcg_target_const_match (s64 x.1) ct = true else in_mask ct.(ct_regs) x.1 = true;
  fp_keeps : keeps (fun r => Z.testbit a r = true) σ' os;
  fp_values : within s M σ' -> forall v h, values [] f v σ h -> values [] f v σ' (exec_moves os h) /\
    wrap (tsize s t) (if x.2 then x.1 else hregs (exec_moves os h) x.1) = rd s v t
}.

Lemma in_mask_real m r : real_reg r -> r <> TCG_REG_CALL_STACK -> Z.testbit m r = true -> in_mask m r = true.
Proof.
  intros [Hr _] Hn Hm. unfold in_mask. rewrite Hm, (proj2 (Z.leb_le _ _) Hr). by apply negb_true_iff, Z.eqb_neq.
Qed.

Lemma fetch_freed f σ t r σ1 :
  ra_inv f σ -> valid s t -> (ts_of σ t).(val_type) <> TEMP_VAL_REG -> real_reg r -> freed s r σ σ1 ->
  ts_of σ1 t = ts_of σ t.
Proof.
  intros [Hl _ _] Vt Hnr Hr Hfr. apply (fr_temps _ _ _ _ Hfr); [done|]. intros E.
  destruct (ln_owner _ _ _ Hl r) as (_ & _ & Hv' & _); [done|unfold valid in Vt; lia|]. by rewrite <- E in Hv'.
Qed.
Lemma wp_fetch_function f σ ct t a :
  ra_inv f σ -> readable f t -> available ct.(ct_regs) a ->
  (forall r, Z.testbit reserved r = true -> Z.testbit a r = true) ->
  (ts_of σ t).(val_type) <> TEMP_VAL_REG ->
  wp (r ← tcg_reg_alloc s frame ct.(ct_regs) a; ra_emit (fetch t (ts_of σ t) r) ;; mret (r, false))
    (fun x σ' os => func_placed f ct t a x σ σ' os) σ.
Proof.
  intros Hinv Hre Hav Hra Hnr. apply wp_bind. eapply wp_mono.
  { apply wp_spills; [apply spills_alloc|apply Hinv|]. apply wp_alloc; [exact Hset|done|done]. }
  intros r σ1 os1 (((_ & Hr & Hct & Hna) & Hinv1 & Hst & Hfr & Hmv) & Hsp).
  rewrite <- (fetch_freed f σ t r σ1) by (done || apply Hre).
  assert (Z.testbit reserved r = false) as Hres.
  { destruct (Z.testbit reserved r) eqn:E; [|done]. by rewrite (Hra r E) in Hna. }
  assert (r <> TCG_REG_CALL_STACK) as Hn4 by (intros ->; by rewrite (se_stack (setting:=Hset)) in Hres).
  apply wp_bind, wp_emit, wp_ret. cbn [app]. split; cbn [fst snd]; [done|apply (Hmv [] [])|..].
  - apply Forall_app. split; [by apply stores_moves|]. repeat constructor. apply fetch_move.
  - by apply in_mask_real.
  - eapply keeps_app; [apply slots_le_refl|by apply keeps_spills|]. intros Hw h. destruct (fetch_keeps t (ts_of σ1 t) r σ1 Hw h).
    split; [done|]. intros r' Hr'. cbn [exec_moves fold_left]. apply fetch_reg. congruence.
  - intros Hw v h Hv. rewrite exec_moves_app. destruct (Hmv [] v) as [_ _ V1]. specialize (V1 Hw h Hv).
    split; [apply fetch_values; [done|done|apply Hfr|done|done]|]. by eapply fetch_value.
Qed.

Lemma wp_function f σ ct t a :
  ra_inv f σ -> readable f t -> available ct.(ct_regs) a -> (forall r, real_reg r -> Z.testbit ct.(ct_regs) r = true) ->
  (forall r, Z.testbit reserved r = true -> Z.testbit a r = true) ->
  wp (place_function s frame t ct a) (fun x σ' os => func_placed f ct t a x σ σ' os) σ.
Proof.
  intros Hinv Hre Hav Hct Hra. pose proof (re_valid _ _ Hre) as Vt. pose proof Hinv as [Hl _ Hlv].
  destruct (readable_place f σ t Hinv Hre) as [Hnd _]. pose proof (wp_fetch_function f σ ct t a Hinv Hre Hav Hra) as Hft.
  unfold place_function, fetch in *. apply wp_bind, wp_get_ts; [by eapply bounds_temp|].
  destruct ((ts_of σ t).(val_type)) eqn:Hv; [done|..].
  - pose proof (reg_real s σ t Hl Vt Hv) as Hr. rewrite Hct by done. apply wp_ret.
    split; cbn [fst snd]; [done|apply slots_le_refl|by constructor|..].
    + apply in_mask_real; [done| |by apply Hct]. intros E. destruct ((ts_of σ t).(fixed_reg)) eqn:Hf.
      * destruct (ln_fixed _ _ _ Hl _ Vt Hf) as (_ & _ & _ & _ & Hn). congruence.
      * destruct (ln_reg _ _ _ Hl _ Vt Hf Hv) as [_ Ho].
        destruct (ln_owner _ _ _ Hl _ Hr) as (_ & _ & _ & _ & Hres); [unfold valid in Vt; lia|].
        by rewrite E, (se_stack (setting:=Hset)) in Hres.
    + by apply keeps_spills.
    + intros _ v h Hval. split; [done|]. apply (Hval t Vt); [apply not_elem_of_nil|done].
  - eapply wp_mono; [by apply Hft|]. done.
  - destruct (tcg_target_const_match (ts_of σ t).(val) ct) eqn:Hm; [|eapply wp_mono; [by apply Hft|done]]. apply wp_ret.
    assert (s64 (ts_of σ t).(val) = (ts_of σ t).(val)) as Es.
    { destruct ((ts_of σ t).(fixed_reg)) eqn:Hf.
      - destruct (ln_fixed _ _ _ Hl _ Vt Hf) as (_ & Hv' & _). congruence.
      - by apply (lv_const _ _ _ _ _ _ _ (Hlv t Vt Hf)). }
    split; cbn [fst snd]; [done|apply slots_le_refl|by constructor|..].
    + rewrite swrap_wrap by done. by rewrite Es.
    + by apply keeps_spills.
    + intros _ v h Hval. split; [done|]. destruct (Hval t Vt) as [_ _ V3 _]; [apply not_elem_of_nil|].
      rewrite <- (V3 Hv). apply wrap_wrap_le. unfold tsize. by destruct (type _).
Qed.
(** ** Results *)

Lemma oarg_facts k r : tcg_target_call_oarg_regs !! k = Some r -> real_reg r /\ Z.testbit reserved r = false /\
  Z.testbit tcg_target_call_clobber_regs r = true.
Proof. unfold real_reg. intros H. destruct k as [|[|k]]; [injection H as <-; by vm_compute|done|done]. Qed.

Lemma oarg_inj j k r : tcg_target_call_oarg_regs !! j = Some r -> tcg_target_call_oarg_regs !! k = Some r -> j = k.
Proof. intros Hj Hk. destruct j as [|[|j]], k as [|[|k]]; try done; injection Hj as <-; discriminate Hk. Qed.

Lemma wp_call_output σ g da sa k t r :
  ra_inv g σ -> valid s t -> (ts_of σ t).(fixed_reg) = false -> g.(f_dead) t = true ->
  tcg_target_call_oarg_regs !! k = Some r -> owner σ r = -1 -> (NEED_SYNC_ARG sa k = true -> survives s t = true) ->
  let g' := put_fact t (IS_DEAD_ARG da k) (NEED_SYNC_ARG sa k) true false g in
  wp (call_output s frame da sa (k, t))
    (fun _ σ' os => stores os /\ ra_inv g' σ' /\ (forall r', real_reg r' -> r' <> r -> owner σ' r' = owner σ r') /\
       forall X v, moved σ σ' os (fun h => values (t :: X) g v σ h /\ wrap (tsize s t) (hregs h r) = rd s v t)
         (values X g' v σ')) σ.
Proof.
  intros Hinv Vt Hf Hd Hk Ho Hs. cbv zeta. pose proof (dead_not_reg s frame g σ t Hinv Vt Hf Hd) as Hnr.
  destruct (oarg_facts k r Hk) as (Hr & Hres & _). pose proof Hinv as [Hl _ _]. unfold call_output. rewrite Hk.
  apply wp_bind, wp_get_temp_of; [by eapply bounds_reg|]. rewrite Ho. apply wp_bind, wp_assert; [done|].
  apply wp_bind, wp_get_ts; [by eapply bounds_temp|]. rewrite Hf. apply wp_bind. unfold release.
  apply wp_bind, wp_get_ts; [by eapply bounds_temp|]. unfold is_val. rewrite bool_decide_false by done. cbn [when].
  apply wp_ret. apply wp_bind. eapply wp_take; [done..|]. set (σ1 := taken_by t r false σ).
  set (g1 := put_fact t false false true false g).
  assert (ra_inv g1 σ1) as Hinv1.
  { eapply inv_taken; try done; [apply put_except|]. apply live_put. by split. }
  assert (ts_of σ1 t = in_reg r false (ts_of σ t)) as Et by (unfold σ1; by rewrite (ts_taken s reserved), Z.eqb_refl by done).
  assert (forall X v, moved σ σ1 [] (fun h => values (t :: X) g v σ h /\ wrap (tsize s t) (hregs h r) = rd s v t)
    (values X g1 v σ1)) as Hm1.
  { intros X v. split; [by eapply slots_taken|constructor|]. intros _ h [Hv Hro].
    eapply values_taken; [done|done|apply put_except| |exact Hv]. intros _. by split. }
  apply wp_bind. eapply wp_mono.
  { apply (wp_when _ _ (fun _ σ2 os => stores os /\ ra_inv (put_fact t false (NEED_SYNC_ARG sa k) true false g) σ2 /\
      σ2.(reg_to_temp) = σ1.(reg_to_temp) /\
      forall X v, moved σ1 σ2 os (values X g1 v σ1) (values X (put_fact t false (NEED_SYNC_ARG sa k) true false g) v σ2)));
      intros Hn; rewrite Hn.
    - eapply wp_mono; [apply (wp_sync_put s frame M σ1 g1 t r true false); rewrite ?Et; auto; cbn; by rewrite Z.eqb_refl|].
      intros [] σ2 os2 (Hst2 & Hinv2 & Hon & _ & Hm2). split; [done|]. split; [eapply inv_same; [apply put_put|done]|].
      split; [apply Hon|]. intros X v. destruct (Hm2 X v) as [S2 M2 V2]. split; [done|done|]. intros Hw h Hv.
      eapply values_same; [apply put_put|by apply V2].
    - split; [constructor|]. split; [done|]. split; [done|]. intros X v. by apply moved_refl. }
  intros [] σ2 os2 (Hst2 & Hinv2 & Eo & Hm2). eapply wp_mono; [by apply wp_maybe_dead|].
  intros [] σ3 os3 (-> & Hinv3 & Ho3 & Hm3). cbn [app]. rewrite app_nil_r. split; [done|]. split; [done|]. split.
  - intros r' Hr' Hne. assert (owner σ2 r' = owner σ r') as E.
    { rewrite Eo. unfold σ1. by rewrite (owner_taken s reserved), (proj2 (Z.eqb_neq r' r)) by done. }
    rewrite Ho3, E; [done|done|]. rewrite E. intros Et'.
    destruct (ln_owner _ _ _ Hl r' Hr') as (_ & _ & Hv' & _); [unfold valid in Vt; lia|]. by rewrite Et' in Hv'.
  - intros X v. apply (moved_trans s M σ σ1 σ3 [] os2 _ (values X g1 v σ1)); [apply Hm1|].
    pose proof (moved_trans _ _ _ _ _ _ _ _ _ _ (Hm2 X v) (Hm3 X v)) as Hm. by rewrite app_nil_r in Hm.
Qed.
Section Whole.
Context (i : insn) (da sa : Z) (f : facts).

Local Abbreviation outs := (oargs i).
Local Abbreviation ins := (iargs i).
Local Abbreviation oreg k := (default 0 (tcg_target_call_oarg_regs !! k)).

(** The analysis after the inputs that die, and after the results [l]. *)
Definition call_read : facts := kills (dying (outs ++ ins) da (seq (length outs) (length ins))) f.
Definition put_results (l : list (nat * Z)) (g : facts) : facts :=
  fold_left (fun g kt => put_fact kt.2 (IS_DEAD_ARG da kt.1) (NEED_SYNC_ARG sa kt.1) true false g) l g.

(** The results [l] are in their registers. *)
Definition results_at (l : list (nat * Z)) (v : list Z) (h : hstate) : Prop :=
  forall kt, kt ∈ l -> wrap (tsize s kt.2) (hregs h (oreg kt.1)) = rd s v kt.2.

Record result_ok (g : facts) (σ : ra_state) (kt : nat * Z) : Prop := {
  ro_valid : valid s kt.2;
  ro_fixed : (ts_of σ kt.2).(fixed_reg) = false;
  ro_dead : g.(f_dead) kt.2 = true;
  ro_reg : (kt.1 < 1)%nat;
  ro_free : owner σ (oreg kt.1) = -1;
  ro_sync : NEED_SYNC_ARG sa kt.1 = true -> survives s kt.2 = true
}.

Lemma oreg_some k : (k < 1)%nat -> tcg_target_call_oarg_regs !! k = Some (oreg k).
Proof. intros Hk. destruct k as [|k]; [done|lia]. Qed.

Lemma wp_results l : forall g σ,
  ra_inv g σ -> (forall kt, kt ∈ l -> result_ok g σ kt) -> NoDup l.*1 -> NoDup l.*2 ->
  wp (ra_each (call_output s frame da sa) l)
    (fun _ σ' os => stores os /\ ra_inv (put_results l g) σ' /\
       forall v, moved σ σ' os (fun h => values l.*2 g v σ h /\ results_at l v h) (values [] (put_results l g) v σ')) σ.
Proof.
  induction l as [|[k t] l IH]; intros g σ Hinv Hl Hn1 Hn2; cbn [ra_each].
  { apply wp_ret. split; [constructor|]. split; [done|]. intros v. apply moved_refl. by intros h [? _]. }
  rewrite fmap_cons in Hn1. rewrite fmap_cons in Hn2. apply NoDup_cons in Hn1 as [Hk Hn1], Hn2 as [Ht Hn2]. cbn [fst snd] in Hk, Ht.
  destruct (Hl (k, t) (list_elem_of_here _ _)) as [R1 R2 R3 R4 R5 R6]. cbn [fst snd] in *. pose proof (oreg_some k R4) as Er.
  apply wp_bind. eapply wp_mono; [by apply wp_call_output|]. intros [] σ1 os1 (Hst1 & Hinv1 & Ho1 & Hm1).
  set (g1 := put_fact t _ _ _ _ g) in *. eapply wp_mono; [apply (IH g1 σ1); [done| |done|done]|].
  { intros [k' t'] Hkt. assert (k' <> k /\ t' <> t) as [Hkn Htn].
    { split; intros ->; [apply Hk|apply Ht]; apply list_elem_of_fmap; by exists (k', t') || exists (k, t') || exists (k', t). }
    destruct (Hl (k', t') (list_elem_of_further _ _ _ Hkt)) as [Q1 Q2 Q3 Q4 Q5 Q6]. cbn [fst snd] in *.
    pose proof (oreg_some k' Q4) as Er'. split; cbn [fst snd]; try done.
    - destruct (mv_slots _ _ _ _ _ _ _ (Hm1 [] []) _ Q1) as [-> _]. done.
    - cbn. by rewrite (proj2 (Z.eqb_neq t' t)).
    - rewrite Ho1; [done|by apply (oarg_facts k')|]. intros E. rewrite E in Er'. by apply Hkn, (oarg_inj _ _ _ Er' Er). }
  intros [] σ2 os2 (Hst2 & Hinv2 & Hm2). split; [by apply Forall_app|]. split; [done|]. intros v.
  apply (moved_trans s M σ σ1 σ2 os1 os2 _ (fun h => values l.*2 g1 v σ1 h /\ results_at l v h)); [|apply Hm2].
  destruct (Hm1 l.*2 v) as [S1 M1 V1]. split; [done|done|]. intros Hw h [Hv Hr]. split.
  - apply V1; [done|]. split; [exact Hv|]. by apply (Hr (k, t)), list_elem_of_here.
  - intros kt Hkt. rewrite stores_regs by done. by apply Hr, list_elem_of_further.
Qed.
(** *** The whole *)

Local Abbreviation params := (take (length ins - 1) ins).
Local Abbreviation func := (arg ins (length ins - 1)).
Definition call_ct : TCGArgConstraint := default (mkCt 0 0 0) (default [] (op_cts INDEX_op_call) !! 0%nat).

Record call_ok (σ : ra_state) : Prop := {
  ck_results : (length outs <= 1)%nat;
  ck_function : (1 <= length ins)%nat;
  ck_args : (length outs + length ins <= 16)%nat;
  ck_inputs : forall t, t ∈ ins -> readable f t;
  ck_valid : forall t, t ∈ outs -> valid s t /\ (ts_of σ t).(fixed_reg) = false /\ call_read.(f_dead) t = true;
  ck_distinct : NoDup outs;
  ck_sync : forall k t, outs !! k = Some t -> NEED_SYNC_ARG sa k = true -> survives s t = true;
  ck_read : testb (call_flags i) TCG_CALL_NO_READ_GLOBALS = false ->
    forall t, 0 <= t < s.(nb_globals) -> f.(f_mem) t = true;
  ck_write : testb (call_flags i) (Z.lor TCG_CALL_NO_READ_GLOBALS TCG_CALL_NO_WRITE_GLOBALS) = false ->
    forall t, 0 <= t < s.(nb_globals) -> call_read.(f_dead) t = true
}.

Definition call_args_at (x : Z * bool) (v : list Z) (h : hstate) : Prop :=
  (forall j t, params !! j = Some t -> wrap (tsize s t) (param_value h j) = rd s v t) /\
  wrap (tsize s func) (if x.2 then x.1 else hregs h x.1) = rd s v func.

Record call_emitted (σ σ1 σ' : ra_state) (x : Z * bool) (os1 os2 : list lop) : Prop := {
  cm_inv : ra_inv call_read σ1;
  cm_fits : allocated INDEX_op_call [x.1] [x.2] = true;
  cm_clobber : forall r, real_reg r -> Z.testbit tcg_target_call_clobber_regs r = true -> owner σ1 r = -1;
  cm_before : forall v, moved σ σ1 os1 (values [] f v σ)
    (fun h => values [] call_read v σ1 h /\ call_args_at x v h);
  cm_after : forall v, moved σ1 σ' os2
    (fun h => values outs call_read v σ1 h /\ results_at (imap pair outs) v h)
    (values [] (put_results (imap pair outs) call_read) v σ');
  cm_left : ra_inv (put_results (imap pair outs) call_read) σ'
}.

(** Parameters and function. *)
Definition place_args : ra (Z * bool) :=
  let nb_regs := min (length tcg_target_call_iarg_regs) (length params) in
  ra_each (fun kt => store_stack_arg s frame reserved kt.2 (param_offset kt.1)) (imap pair (drop nb_regs params)) ;;
  allocated ← ra_fold (load_reg_arg s frame) (imap pair (take nb_regs params)) reserved;
  place_function s frame (arg ins (length params)) call_ct allocated.

Lemma param_inputs j t : params !! j = Some t -> t ∈ ins.
Proof. intros H. apply lookup_take_Some in H as [H _]. by eapply list_elem_of_lookup_2. Qed.

Lemma call_regs a : (forall r, 0 <= r -> Z.testbit a r = true -> Z.testbit reserved r = true \/ r ∈ tcg_target_call_iarg_regs) ->
  available call_ct.(ct_regs) a.
Proof.
  intros H. exists TCG_REG_RBX. split; [by apply (bool_decide_unpack _)|]. split; [by vm_compute|].
  destruct (Z.testbit a TCG_REG_RBX) eqn:E; [|done]. destruct (H TCG_REG_RBX) as [H1|H1]; [done|done|done|].
  by apply (bool_decide_pack _) in H1.
Qed.

Lemma wp_place_args σ :
  ra_inv f σ -> call_ok σ ->
  wp place_args (fun x σ' os => ra_inv f σ' /\ slots_le s σ σ' /\ moves os /\ allocated INDEX_op_call [x.1] [x.2] = true /\
    (within s M σ' -> forall v h, values [] f v σ h ->
       values [] f v σ' (exec_moves os h) /\ call_args_at x v (exec_moves os h))) σ.
Proof.
  intros Hinv Hok. pose proof (ck_args _ Hok) as Hargs. pose proof (ck_function _ Hok) as Hf1.
  assert (length params = length ins - 1)%nat as Hlp by (rewrite length_take; lia).
  unfold place_args. rewrite Hlp. change (length tcg_target_call_iarg_regs) with 6%nat.
  set (n := min 6 (length ins - 1)).
  assert (forall kt, kt ∈ imap pair (drop n params) -> readable f kt.2 /\ args_area (param_offset kt.1)) as Hs.
  { intros [k t] Hkt%numbered_elem. rewrite lookup_drop in Hkt. split; [by eapply (ck_inputs _ Hok), param_inputs|].
    apply lookup_lt_Some in Hkt. unfold args_area, param_offset, TCG_TARGET_CALL_STACK_OFFSET, TCG_STATIC_CALL_ARGS_SIZE. cbn. lia. }
  assert (forall kt, kt ∈ imap pair (take n params) -> readable f kt.2 /\ (kt.1 < 6)%nat) as Hr.
  { intros [k t] Hkt%numbered_elem. apply lookup_take_Some in Hkt as [Hkt Hk]. split; [by eapply (ck_inputs _ Hok), param_inputs|cbn; lia]. }
  apply wp_bind. eapply wp_mono; [by apply wp_stack_args; [|done|apply numbered_fst]|].
  intros [] σ1 os1 (Hinv1 & S1 & M1 & V1). apply wp_bind.
  eapply wp_mono; [by apply (wp_load_args f); [|done|apply numbered_fst]|].
  intros al σ2 os2 [Hinv2 S2 M2 O2 T2 K2 V2 A2]. assert (func ∈ ins) as Hfin.
  { apply list_elem_of_lookup_2 with (i := (length ins - 1)%nat). unfold arg.
    rewrite list_lookup_total_alt. destruct (lookup_lt_is_Some_2 ins (length ins - 1)) as [y ->]; [lia|done]. }
  eapply wp_mono.
  { apply (wp_function f σ2 call_ct func al); [done|by apply (ck_inputs _ Hok)|..].
    - apply call_regs. intros r H0 Hr'. rewrite A2 in Hr' by done. apply orb_true_iff in Hr' as [?|Hr']; [by left|right].
      apply bool_decide_eq_true, list_elem_of_fmap in Hr' as (k & -> & Hk). apply list_elem_of_fmap in Hk as ([k' t'] & -> & Hkt).
      apply iarg_reg_elem. destruct (Hr _ Hkt). done.
    - intros r [H0 H16]. assert (call_ct.(ct_regs) = Z.ones 16) as -> by (by vm_compute). apply Z.ones_spec_low. lia.
    - intros r Hr'. destruct (Z.lt_ge_cases r 0); [by rewrite Z.testbit_neg_r in Hr'|]. by rewrite A2, Hr'. }
  intros x σ3 os3 [Hinv3 S3 M3 F3 K3 V3]. split; [done|].
  split; [eapply slots_le_trans; [exact S1|by eapply slots_le_trans]|].
  split; [rewrite !Forall_app; done|]. split.
  { change (operands_fit [x.1] [call_ct] [x.2] [x.1] = true). cbn [operands_fit]. rewrite andb_true_r. unfold operand_fits.
    destruct x.2; [done|]. assert (testb call_ct.(ct) TCG_CT_ALIAS = false) as -> by (by vm_compute). done. }
  intros Hw v h Hv. rewrite !exec_moves_app. pose proof (within_le _ _ _ _ S3 Hw) as Hw2.
  destruct (V1 (within_le _ _ _ _ S2 Hw2) v h Hv) as (Hv1 & Hst1 & _). set (h1 := exec_moves os1 h) in *.
  destruct (V2 Hw2 v h1 Hv1) as [Hv2 Hre2]. destruct (K2 Hw2 h1) as [KS2 _]. set (h2 := exec_moves os2 h1) in *.
  destruct (V3 Hw v h2 Hv2) as [Hv3 Hfu]. destruct (K3 Hw h2) as [KS3 KR3]. split; [done|]. split; [|done].
  intros j t Hj. pose proof (lookup_lt_Some _ _ _ Hj) as Hlj. unfold param_value. destruct (Nat.ltb_spec j 6).
  - assert ((j, t) ∈ imap pair (take n params)) as Hin.
    { apply numbered_elem, lookup_take_Some. split; [done|lia]. }
    rewrite KR3; [by apply (Hre2 (j, t))|]. destruct (iarg_facts j) as [[H0 _] _]; [done|]. rewrite A2 by done.
    rewrite bool_decide_true; [apply orb_true_r|]. apply list_elem_of_fmap_2, list_elem_of_fmap. by exists (j, t).
  - assert (((j - 6)%nat, t) ∈ imap pair (drop n params)) as Hin.
    { apply numbered_elem. rewrite lookup_drop. by replace (n + (j - 6))%nat with j by lia. }
    destruct (Hs _ Hin) as [_ Ha]. rewrite KS3, KS2 by done. by apply (Hst1 ((j - 6)%nat, t)).
Qed.
(** The checks before the call. *)
Lemma wp_globals_ready σ σ1 :
  call_ok σ -> ra_inv call_read σ1 ->
  wp (if testb (call_flags i) TCG_CALL_NO_READ_GLOBALS then mret tt
      else if testb (call_flags i) TCG_CALL_NO_WRITE_GLOBALS then sync_globals s
      else save_globals s) (fun _ σ' os => σ' = σ1 /\ os = []) σ1.
Proof.
  intros Hok Hinv. pose proof (ck_write _ Hok) as Hw. rewrite testb_lor in Hw.
  destruct (testb (call_flags i) TCG_CALL_NO_READ_GLOBALS) eqn:Hr; [by apply wp_ret|].
  destruct (testb (call_flags i) TCG_CALL_NO_WRITE_GLOBALS).
  - eapply (wp_sync_globals s frame reserved M); [exact Hinv|]. intros t Ht. by apply (ck_read _ Hok).
  - eapply (wp_save_globals s frame reserved M); [exact Hinv|]. intros t Ht. by apply Hw.
Qed.

Lemma results_ok σ σ1 kt :
  call_ok σ -> slots_le s σ σ1 ->
  (forall r, real_reg r -> Z.testbit tcg_target_call_clobber_regs r = true -> owner σ1 r = -1) ->
  kt ∈ imap pair outs -> result_ok call_read σ1 kt.
Proof.
  intros Hok Hle Hcl. destruct kt as [k t]. intros Hkt%numbered_elem. pose proof (ck_results _ Hok).
  pose proof (lookup_lt_Some _ _ _ Hkt). assert (k < 1)%nat as Hk by lia.
  destruct (ck_valid _ Hok t) as (Vt & Hf & Hd); [by eapply list_elem_of_lookup_2|].
  destruct (oarg_facts k _ (oreg_some k Hk)) as (Hr & _ & Hc). split; cbn [fst snd]; try done.
  - by destruct (Hle t Vt) as [-> _].
  - by apply Hcl.
  - by apply (ck_sync _ Hok k).
Qed.

Lemma wp_chain {A B C} (m : ra unit) (n : ra A) (g : A -> ra B) (k : B -> ra C) Q σ :
  wp (m ;; x ← n; g x) (fun y σ1 os1 => wp (k y) (fun z σ2 os2 => Q z σ2 (os1 ++ os2)) σ1) σ ->
  wp (m ;; x ← n; y ← g x; k y) Q σ.
Proof.
  intros (y & σ1 & os1 & E & z & σ2 & os2 & E2 & HQ). exists z, σ2, (os1 ++ os2). split; [|done].
  unfold mbind, ra_bind in *. destruct (m σ) as [[[? τ1] l1]|]; [|done]. cbn in *.
  destruct (n τ1) as [[[x τ2] l2]|]; [|done]. cbn in *. destruct (g x τ2) as [[[y' τ3] l3]|]; [|done]. cbn in *.
  injection E as -> -> <-. rewrite E2. cbn. by rewrite <- !app_assoc.
Qed.

Lemma stack_room n : (n <= 16)%nat ->
  (TCG_STATIC_CALL_ARGS_SIZE <? Z.land (Z.of_nat n * 8 + TCG_TARGET_STACK_ALIGN - 1) (Z.lnot (TCG_TARGET_STACK_ALIGN - 1))) = false.
Proof. intros Hn. do 17 (destruct n as [|n]; [by vm_compute|]). lia. Qed.

Lemma wp_call σ :
  ra_inv f σ -> call_ok σ ->
  wp (tcg_reg_alloc_call s frame reserved i da sa)
    (fun _ σ' os => exists os1 x σ1 os2,
       os = os1 ++ LOp i [x.1] [x.2] :: os2 /\ call_emitted σ σ1 σ' x os1 os2) σ.
Proof.
  intros Hinv Hok. pose proof (ck_args _ Hok) as Hargs. pose proof (ck_function _ Hok) as Hf1.
  assert (length params = length ins - 1)%nat as Hlp by (rewrite length_take; lia). unfold tcg_reg_alloc_call.
  cbv zeta. rewrite stack_room by lia. apply wp_chain. eapply wp_mono; [exact (wp_place_args σ Hinv Hok)|].
  intros x σ1 os1 (Hinv1 & S1 & M1 & F1 & V1). apply wp_bind. eapply wp_mono.
  { apply (wp_bury_inputs s frame reserved M); [exact Hinv1|]. intros k [Hk1 Hk2]%elem_of_seq.
    apply (re_valid f), (ck_inputs _ Hok). apply list_elem_of_lookup_2 with (i := (k - length outs)%nat). unfold arg.
    destruct (lookup_lt_is_Some_2 ins (k - length outs)) as [y Hy]; [lia|]. rewrite list_lookup_total_alt.
    rewrite lookup_app_r by lia. by rewrite Hy. }
  intros [] σ2 os2 (-> & Hinv2 & _ & Hm2). fold call_read in Hinv2, Hm2. apply wp_bind. eapply wp_mono.
  { apply wp_spills; [apply spills_each, spills_free|apply Hinv2|]. apply wp_free_regs; [exact Hset|done|apply clobbered_real]. }
  intros [] σ3 os3 ((Hinv3 & Hst3 & Hfr3 & Hm3) & Hsp3). apply wp_bind.
  eapply wp_mono; [by apply (wp_globals_ready σ)|]. intros [] σ4 os4 [-> ->]. apply wp_bind, wp_emit.
  assert (slots_le s σ σ3) as S3.
  { eapply slots_le_trans; [exact S1|]. eapply slots_le_trans; [apply (Hm2 [] [])|apply (Hm3 [] [])]. }
  assert (forall r, real_reg r -> Z.testbit tcg_target_call_clobber_regs r = true -> owner σ3 r = -1) as Hcl.
  { intros r [H0 H16] Ht. apply (fa_free _ _ _ Hfr3), list_elem_of_In, filter_In. split; [|done]. unfold all_regs.
    apply list_elem_of_In, list_elem_of_fmap. exists (Z.to_nat r). unfold TCG_TARGET_NB_REGS. rewrite elem_of_seq. lia. }
  eapply wp_mono.
  { apply (wp_results (imap pair outs) call_read σ3); [done| |apply numbered_fst|rewrite numbered_snd; apply (ck_distinct _ Hok)].
    intros kt. by apply (results_ok σ). }
  intros [] σ5 os5 (Hst5 & Hinv5 & Hm5). exists (os1 ++ os3), x, σ3, os5. cbn [app]. split; [by rewrite app_assoc|].
  split; [done|done|done| | |done].
  - intros v. split; [done|apply Forall_app; split; [done|by apply stores_moves]|]. intros Hw h Hv. rewrite exec_moves_app.
    destruct (Hm2 [] v) as [S2' _ V2], (Hm3 [] v) as [S3' _ V3]. pose proof (within_le _ _ _ _ S3' Hw) as Hw2.
    destruct (V1 (within_le _ _ _ _ S2' Hw2) v h Hv) as (Hv1 & Hp & Hf). split; [by apply V3, V2|].
    destruct (keeps_spills (fun _ => True) σ3 os3 Hsp3 Hst3 Hw (exec_moves os1 h)) as [KS KR]. split; [|by destruct x.2; rewrite ?KR].
    intros j t Hj. rewrite <- (Hp j t Hj). unfold param_value. destruct (Nat.ltb_spec j 6); [by rewrite KR|]. rewrite KS; [done|].
    pose proof (lookup_lt_Some _ _ _ Hj). unfold args_area, param_offset, TCG_TARGET_CALL_STACK_OFFSET, TCG_STATIC_CALL_ARGS_SIZE. lia.
  - intros v. specialize (Hm5 v). rewrite numbered_snd in Hm5. exact Hm5.
Qed.
End Whole.
End Call.
