(* ===== verification/RegAllocSim.v ===== *)
(** * The allocated code does what the operations do

    Block by block: a step of the code that the register allocator emits for an
    operation is a step of the operation, from a host state with the values of the
    temporaries to one with their new values. *)

From S2P Require Import Prelude QtraceDefs X86 TcgOut TcgEnc TcgEmit TcgCond TcgOpDefs TcgSem TcgIR.
From S2P Require Import Optimize OptCopies OptSound Liveness LivenessSound InstrCall Prologue RegAlloc RegAllocLogic.
From S2P Require Import LinearCode RegAllocSpill RegAllocOps RegAllocStep RegAllocTable RegAllocInsn RegAllocMov RegAllocCall.

(** ** Writing results *)

Section Writes.
Context (s : tcg_temps).

(** The results are [us]. *)
Definition agrees (ts : list Z) (rs : list (option Z)) (us : list Z) : Prop :=
  length us = length ts /\ length rs = length ts /\
  forall k t y, ts !! k = Some t -> rs !! k = Some (Some y) -> wrap (tsize s t) (us !!! k) = wrap (tsize s t) y.

Lemma hwrites_spec ts : forall regs rs h h',
  hwrites s ts regs rs h h' -> NoDup (take (length ts) regs) ->
  exists us, agrees ts rs us /\ hmem h' = hmem h /\ (length ts <= length regs)%nat /\
    (forall k r, (k < length ts)%nat -> regs !! k = Some r -> hregs h' r = us !!! k) /\
    forall r, r ∉ take (length ts) regs -> hregs h' r = hregs h r.
Proof.
  induction ts as [|t ts IH]; intros [|r regs] [|x rs] h h' Hw Hnd; cbn [hwrites] in Hw; try done.
  - subst h'. exists []. split; [done|]. split; [done|]. split; [cbn; lia|]. split; [intros; cbn in *; lia|done].
  - subst h'. exists []. split; [done|]. split; [done|]. split; [cbn; lia|]. split; [intros; cbn in *; lia|done].
  - destruct Hw as (u & Hu & Hw). cbn [length take] in Hnd. apply NoDup_cons in Hnd as [Hr Hnd].
    destruct (IH regs rs _ h' Hw Hnd) as (us & (A1 & A2 & A3) & Hm & Hle & Hus & Ho).
    exists (u :: us). split; [split; [cbn; lia|split; [cbn; lia|]]|].
    { intros [|k] t' y Ht Hy; cbn in Ht, Hy |- *; [injection Ht as <-; injection Hy as ->; by apply Hu|by eapply A3]. }
    split; [done|]. split; [cbn; lia|]. split.
    + intros [|k] r' Hk Hr'; cbn in Hr' |- *.
      * injection Hr' as <-. rewrite Ho by done. apply hregs_set_same.
      * apply Hus; [cbn in Hk; lia|done].
    + cbn [length take]. intros r' [Hne Hn]%not_elem_of_cons. rewrite Ho by done. by apply hregs_set_other.
Qed.

Lemma writes_with ts : forall rs us v,
  agrees ts rs us -> NoDup ts -> Forall (valid s) ts -> length v = length s.(temps) ->
  exists v', writes s ts rs v v' /\ length v' = length s.(temps) /\
    (forall k t, ts !! k = Some t -> rd s v' t = wrap (tsize s t) (us !!! k)) /\
    forall u, valid s u -> u ∉ ts -> rd s v' u = rd s v u.
Proof.
  induction ts as [|t ts IH]; intros rs us v (A1 & A2 & A3) Hnd Hts Hv.
  { destruct us, rs; try done. exists v. done. }
  destruct us as [|u us], rs as [|x rs]; try done. cbn in A1, A2. apply NoDup_cons in Hnd as [Ht Hnd].
  apply Forall_cons in Hts as [Vt Hts]. destruct (IH rs us (tset t u v)) as (v' & Hw & Hl & Hus & Ho); [|done|done|by rewrite length_tset|].
  { split; [lia|]. split; [lia|]. intros k t' y Hk Hy. by apply (A3 (S k) t' y). }
  exists v'. split; [exists u; split; [|done]|].
  { intros y ->. by apply (A3 0%nat t y). }
  split; [done|]. split.
  - intros [|k] t' Hk; cbn in Hk |- *; [|by apply Hus]. injection Hk as <-. rewrite Ho by done. by apply rd_set.
  - intros w Vw [Hne Hn]%not_elem_of_cons. rewrite Ho by done. apply rd_other; [apply Vt|apply Vw|done].
Qed.

Lemma hwrites_possible ts : forall regs rs h,
  length rs = length ts -> (length ts <= length regs)%nat -> exists h', hwrites s ts regs rs h h'.
Proof.
  induction ts as [|t ts IH]; intros regs [|x rs] h Hl Hr; try done; [by exists h; destruct regs|].
  destruct regs as [|r regs]; cbn in Hl, Hr; [lia|]. destruct (IH regs rs (set_hreg r (default 0 x) h)) as [h' Hh]; [lia|lia|].
  exists h', (default 0 x). split; [by intros y ->|done].
Qed.

(** The first result, and then the others. *)
Lemma hwrites_first ts regs rs h h1 h' :
  hwrites s (take 1 ts) regs (take 1 rs) h h1 -> hwrites s (drop 1 ts) (drop 1 regs) (drop 1 rs) h1 h' ->
  hwrites s ts regs rs h h'.
Proof.
  destruct ts as [|t ts], regs as [|r regs], rs as [|x rs]; cbn; try done; try congruence.
  intros (u & Hu & Hh) Hw. exists u. split; [done|]. destruct regs, (take 0 rs); naive_solver.
Qed.

Lemma hwrites_one t regs x h h1 : hwrites s [t] regs [x] h h1 -> exists u, h1 = set_hreg (arg regs 0) u h.
Proof. destruct regs as [|r regs]; cbn; [done|]. intros (u & _ & Hh). exists u. by destruct regs. Qed.

Lemma writes_length ts : forall rs v v', writes s ts rs v v' -> length rs = length ts.
Proof.
  induction ts as [|t ts IH]; intros [|x rs] v v' Hw; try done. destruct Hw as (u & _ & Hw). cbn. f_equal. by eapply IH.
Qed.
End Writes.

(** ** Operands *)

(** The operands satisfy the constraints of the operation, and the two results of
    add2 and sub2 are in different registers, the lower one not in that of the upper
    word of the second operand. *)
Definition op_fits (o : lop) : Prop :=
  match o with
  | LOp i na ca => allocated_op i.(opc) = true ->
      ((0 < nb_oargs i.(opc) + nb_iargs i.(opc))%nat -> allocated i.(opc) na ca = true) /\
      (two_steps i.(opc) = true -> arg na 0 <> arg na 1 /\ (ca !!! 5%nat = false -> arg na 5 <> arg na 0))
  | _ => True
  end.

Lemma moves_fit os : Forall (fun o => is_move o = true) os -> Forall op_fits os.
Proof. intros Hm. eapply Forall_impl; [exact Hm|]. by intros []. Qed.

(** ** Values *)

Section Sim.
Context {W : Type} (E : environment W) (s : tcg_temps) (frame : tcg_frame) (M : Z -> option (Z * Z)) (gl : list ra_temp).
Context {Hset : setting s frame reserved M}.

Local Abbreviation ts_of σ t := (tget (ra_temps σ) t).
Local Abbreviation owner σ r := (tget (reg_to_temp σ) r).
Local Abbreviation linked := (linked s reserved).
Local Abbreviation ra_inv := (ra_inv s frame reserved).
Local Abbreviation values := (values s M).
Local Abbreviation stores os := (Forall (fun o => is_store o = true) os).
Local Abbreviation moves os := (Forall (fun o => is_move o = true) os).

(** The places of the globals. *)
Hypothesis Hfixed : forall t, 0 <= t < s.(nb_globals) -> (tget gl t).(fixed_reg) = true -> (tget gl t).(reg) = TCG_AREG0.
Hypothesis Hplace : forall t, 0 <= t < s.(nb_globals) -> (tget gl t).(fixed_reg) = false -> M t = Some (global_place gl t).

Definition fixed_as (σ : ra_state) : Prop :=
  forall t, 0 <= t < s.(nb_globals) -> (ts_of σ t).(fixed_reg) = (tget gl t).(fixed_reg).

Lemma fixed_as_le σ σ' : slots_le s σ σ' -> fixed_as σ -> fixed_as σ'.
Proof.
  intros Hle Hf t Ht. destruct (global_valid s frame reserved M t Ht) as [Vt _]. destruct (Hle t Vt) as [-> _]. by apply Hf.
Qed.

Lemma val_ts_rd used v v' h t ts : val_ts s M used v h t ts -> rd s v' t = rd s v t -> val_ts s M used v' h t ts.
Proof. intros [V1 V2 V3 V4] Er. split; unfold in_mem in *; rewrite Er; done. Qed.

Lemma fixed_reg_number σ t : linked σ -> valid s t -> (ts_of σ t).(fixed_reg) = true -> (ts_of σ t).(reg) = TCG_AREG0.
Proof.
  intros Hl Vt Hf. destruct (ln_fixed _ _ _ Hl t Vt Hf) as (_ & _ & [H0 H16] & Hr & Hn).
  unfold reserved, regset_of in Hr. cbn [foldr] in Hr. rewrite !Z.lor_spec, !Z.shiftl_1_l, Z.bits_0, orb_false_r in Hr.
  rewrite !Z.pow2_bits_eqb in Hr by done. apply orb_true_iff in Hr as [Hr|Hr]; apply Z.eqb_eq in Hr; congruence.
Qed.

(** Globals in memory or in their registers. *)
Lemma hglobals_eq X f v σ h :
  ra_inv f σ -> fixed_as σ -> values X f v σ h -> globals_in_mem s M v σ h ->
  (forall t, t ∈ X -> (ts_of σ t).(fixed_reg) = false) -> hglobals s gl h = globals s v.
Proof.
  intros [Hl _ _] Hfa Hv Hg HX. unfold hglobals, globals. apply list_fmap_ext. intros k j Hk. apply lookup_seq in Hk as [-> Hk].
  cbn. set (t := Z.of_nat k). assert (0 <= t < s.(nb_globals)) as Ht by lia.
  destruct (global_valid s frame reserved M t Ht) as [Vt _]. unfold global_value. rewrite <- Hfa by done.
  destruct ((ts_of σ t).(fixed_reg)) eqn:Hf.
  - rewrite Hfixed by (done || by rewrite <- Hfa). rewrite <- (fixed_reg_number σ t) by done.
    destruct (ln_fixed _ _ _ Hl t Vt Hf) as (_ & Hr & _). apply (Hv t Vt); [|done]. intros Hin. by rewrite HX in Hf.
  - apply (Hg t Ht Hf). apply Hplace; [done|]. by rewrite <- Hfa.
Qed.

(** ** Results of operations *)

Lemma reg_owner σ t : linked σ -> valid s t -> (ts_of σ t).(val_type) = TEMP_VAL_REG ->
  (ts_of σ t).(fixed_reg) = false /\ real_reg (ts_of σ t).(reg) /\ owner σ (ts_of σ t).(reg) = t \/
  (ts_of σ t).(fixed_reg) = true /\ (ts_of σ t).(reg) = TCG_AREG0.
Proof.
  intros Hl Vt Hr. destruct ((ts_of σ t).(fixed_reg)) eqn:Hf; [right|left].
  - split; [done|]. by apply fixed_reg_number.
  - by destruct (ln_reg _ _ _ Hl t Vt Hf Hr).
Qed.

(** Outputs that own their registers. *)
Lemma outputs_written ts regs rs f v σ h h' :
  linked σ -> NoDup ts -> Forall (valid s) ts -> length v = length s.(temps) ->
  (forall k t r, ts !! k = Some t -> regs !! k = Some r -> real_reg r /\ owner σ r = t /\ (ts_of σ t).(mem_coherent) = false) ->
  values ts f v σ h -> hwrites s ts regs rs h h' ->
  exists v', writes s ts rs v v' /\ length v' = length s.(temps) /\ values [] f v' σ h'.
Proof.
  intros Hl Hnd Hts Hlv Hreg Hv Hw.
  assert (forall k t r, ts !! k = Some t -> regs !! k = Some r ->
    valid s t /\ (ts_of σ t).(fixed_reg) = false /\ (ts_of σ t).(val_type) = TEMP_VAL_REG /\ (ts_of σ t).(reg) = r /\
    Z.testbit reserved r = false) as Hown.
  { intros k t r Ht Hr. destruct (Hreg k t r Ht Hr) as (Hrr & Ho & _).
    assert (valid s t) as Vt by (rewrite Forall_forall in Hts; by eapply Hts, list_elem_of_lookup_2).
    destruct (ln_owner _ _ _ Hl r Hrr) as (_ & H1 & H2 & H3 & H4); [rewrite Ho; unfold valid in Vt; lia|]. by rewrite Ho in *. }
  destruct (hwrites_spec s ts regs rs h h' Hw) as (us & Ha & Hm & Hle & Hus & Ho).
  { apply NoDup_alt. intros j k r Hj Hk. apply lookup_take_Some in Hj as [Hj Hj'], Hk as [Hk Hk'].
    destruct (lookup_lt_is_Some_2 ts j Hj') as [t Ht], (lookup_lt_is_Some_2 ts k Hk') as [t' Ht'].
    destruct (Hreg j t r Ht Hj) as (_ & <- & _), (Hreg k t' r Ht' Hk) as (_ & <- & _).
    by eapply NoDup_lookup. }
  destruct (writes_with s ts rs us v Ha Hnd Hts Hlv) as (v' & Hwr & Hl' & Hrd & Hro).
  exists v'. split; [done|]. split; [done|]. intros u Vu _. destruct (decide (u ∈ ts)) as [Hin|Hn].
  - apply list_elem_of_lookup_1 in Hin as [k Hk]. pose proof (lookup_lt_Some _ _ _ Hk) as Hlt.
    destruct (lookup_lt_is_Some_2 regs k) as [r Hr]; [lia|]. destruct (Hown k u r Hk Hr) as (_ & Hf & Hvt & Er & _).
    destruct (Hreg k u r Hk Hr) as (_ & _ & Hc). split; try congruence. intros _. by rewrite Er, (Hus k r), (Hrd k u).
  - eapply val_ts_rd; [|by apply Hro]. eapply val_ts_host; [by apply Hv| |by rewrite Hm]. intros Hr. apply Ho.
    intros Hin. apply list_elem_of_lookup_1 in Hin as [k [Hk Hlt]%lookup_take_Some].
    destruct (lookup_lt_is_Some_2 ts k Hlt) as [t Ht]. destruct (Hown k t _ Ht Hk) as (_ & _ & _ & _ & Hres).
    destruct (reg_owner σ u Hl Vu Hr) as [(_ & _ & Hou)|[_ Er]].
    + destruct (Hreg k t _ Ht Hk) as (_ & Hot & _). apply Hn. rewrite <- Hou, Hot. by eapply list_elem_of_lookup_2.
    + by rewrite Er in Hres.
Qed.
(** Results in registers that nobody owns. *)
Lemma results_written ts rs f v σ h h' :
  linked σ -> NoDup ts -> Forall (valid s) ts -> length v = length s.(temps) ->
  (forall r, real_reg r -> Z.testbit tcg_target_call_clobber_regs r = true -> owner σ r = -1) ->
  values ts f v σ h -> hwrites s ts tcg_target_call_oarg_regs rs h h' ->
  exists v', writes s ts rs v v' /\ length v' = length s.(temps) /\ values ts f v' σ h' /\
    results_at s (imap pair ts) v' h'.
Proof.
  intros Hl Hnd Hts Hlv Hfree Hv Hw.
  destruct (hwrites_spec s ts _ rs h h' Hw) as (us & Ha & Hm & Hle & Hus & Ho).
  { apply (sublist_NoDup _ tcg_target_call_oarg_regs); [by apply (bool_decide_unpack _)|apply sublist_take]. }
  destruct (writes_with s ts rs us v Ha Hnd Hts Hlv) as (v' & Hwr & Hl' & Hrd & Hro).
  exists v'. split; [done|]. split; [done|]. split.
  - intros u Vu Hu. eapply val_ts_rd; [|by apply Hro]. eapply val_ts_host; [by apply Hv| |by rewrite Hm]. intros Hr. apply Ho.
    intros Hin. apply list_elem_of_lookup_1 in Hin as [k [Hk Hlt]%lookup_take_Some].
    destruct (oarg_facts k _ Hk) as (Hrr & Hres & Hc). destruct (reg_owner σ u Hl Vu Hr) as [(_ & _ & Hou)|[_ Er]].
    + rewrite (Hfree _ Hrr Hc) in Hou. unfold valid in Vu. lia.
    + by rewrite Er in Hres.
  - intros [k t] Hkt%numbered_elem. cbn [fst snd]. pose proof (lookup_lt_Some _ _ _ Hkt).
    destruct (lookup_lt_is_Some_2 tcg_target_call_oarg_regs k) as [r Hr]; [lia|]. rewrite Hr.
    change (default 0 (Some r)) with r.
    by rewrite (Hus k r), (Hrd k t).
Qed.

(** A call overwrites registers that nobody needs. *)
Lemma overwritten_values X f v σ h h' :
  linked σ -> (forall t, valid s t -> t ∉ X -> (ts_of σ t).(fixed_reg) = false -> (ts_of σ t).(val_type) = TEMP_VAL_REG ->
    Z.testbit tcg_target_call_clobber_regs (ts_of σ t).(reg) = false) ->
  overwritten h h' -> values X f v σ h -> values X f v σ h'.
Proof.
  intros Hl Hr [Hm Ho] Hv t Vt Ht. eapply val_ts_host; [by apply Hv| |by intros; apply Hm]. intros Hvt. apply Ho.
  destruct (reg_owner σ t Hl Vt Hvt) as [(Hf & _)|[_ ->]]; [by apply Hr|by vm_compute].
Qed.

(** ** Operations *)

Lemma slice_args (l : list Z) n m : (n + m <= length l)%nat -> take m (drop n l) = arg l <$> seq n m.
Proof.
  intros Hle. apply list_eq. intros k. destruct (decide (k < m)%nat) as [Hk|Hk].
  - rewrite lookup_take_lt, lookup_drop, list_lookup_fmap, lookup_seq_lt by done. cbn. unfold arg.
    rewrite list_lookup_total_alt. destruct (lookup_lt_is_Some_2 l (n + k)) as [y ->]; [lia|done].
  - rewrite !lookup_ge_None_2; [done|rewrite length_fmap, length_seq; lia|rewrite length_take; lia].
Qed.

Lemma insn_args i :
  i.(opc) <> INDEX_op_call -> (nb_oargs i.(opc) + nb_iargs i.(opc) <= length i.(args))%nat ->
  oargs i = arg i.(args) <$> seq 0 (nb_oargs i.(opc)) /\
  iargs i = arg i.(args) <$> seq (nb_oargs i.(opc)) (nb_iargs i.(opc)) /\
  cargs i = drop (nb_oargs i.(opc) + nb_iargs i.(opc)) i.(args).
Proof.
  intros Hc Hle. rewrite <- (slice_args _ 0), <- slice_args, drop_0 by lia. unfold oargs, iargs, cargs.
  by destruct i.(opc).
Qed.

Lemma clobber_not_end op : testb (op_flags op) TCG_OPF_CALL_CLOBBER = true -> bb_end op = false.
Proof. destruct op; try match goal with t : TCGType |- _ => destruct t end; done. Qed.

Section Op.
Context (i : insn) (da sa : Z) (f : facts).
Local Abbreviation a := (args i).

Lemma op_inputs_eq x v h :
  op_inputs s i x.(new_args) x.(const_args) h = (rd s v ∘ arg a) <$> seq (nb_oargs i.(opc)) (nb_iargs i.(opc)) <->
  opvals s a (seq (nb_oargs i.(opc)) (nb_iargs i.(opc))) x v h.
Proof.
  unfold op_inputs, opvals. split.
  - intros He k Hk. apply list_elem_of_lookup_1 in Hk as [j Hj]. apply (f_equal (.!! j)) in He.
    rewrite !list_lookup_fmap, Hj in He. cbn in He. by injection He.
  - intros Ho. apply list_fmap_ext. intros j k Hk. apply Ho. by eapply list_elem_of_lookup_2.
Qed.

(** The operands and what the operation sees of the globals. *)
Record op_ready_at (x : operands) (v : list Z) (σ1 : ra_state) (h1 : hstate) : Prop := {
  oa_inputs : op_inputs s i x.(new_args) x.(const_args) h1 = rd s v <$> iargs i;
  oa_constants : op_constants i x.(new_args) = cargs i;
  oa_globals : (if reads_globals i.(opc) then hglobals s gl h1 else []) = if reads_globals i.(opc) then globals s v else [];
  oa_values : values (oargs i) (written_facts i da f) v σ1 h1
}.

Lemma op_here_not_call σ : op_ok s i da sa f σ -> i.(opc) <> INDEX_op_call.
Proof. intros Hok E'. pose proof (op_here _ _ _ _ _ _ Hok) as Hh. by rewrite E' in Hh. Qed.

Lemma op_outs σ : op_ok s i da sa f σ ->
  oargs i = arg a <$> seq 0 (nb_oargs i.(opc)) /\ NoDup (oargs i) /\ Forall (valid s) (oargs i).
Proof.
  intros Hok. destruct (insn_args i (op_here_not_call σ Hok) (op_length _ _ _ _ _ _ Hok)) as (Eo & _). rewrite Eo. split; [done|].
  split; [apply (op_distinct _ _ _ _ _ _ Hok)|]. apply Forall_forall. intros t (k & -> & Hk%elem_of_seq)%list_elem_of_fmap.
  apply (op_valid _ _ _ _ _ _ Hok). lia.
Qed.

Lemma op_at σ σ1 σ' x os1 os2 v h :
  op_ok s i da sa f σ -> op_emitted s frame M i da sa f σ σ1 σ' x os1 os2 -> fixed_as σ -> within s M σ' ->
  values [] f v σ h -> op_ready_at x v σ1 (exec_moves os1 h).
Proof.
  intros Hok [Hinv1 [N1 N2 N3 N4 N5] Hb Ha Hend] Hfa Hw Hv.
  destruct (insn_args i (op_here_not_call σ Hok) (op_length _ _ _ _ _ _ Hok)) as (Eo & Ei & Ec).
  destruct (Hb v) as [S1 M1 V1]. destruct (Ha v) as [S2 _ _].
  destruct (V1 (within_le _ _ _ _ S2 Hw) h Hv) as (Hv1 & Hop & Hg). rewrite <- Eo in Hv1. split; [| | |done].
  - apply op_inputs_eq in Hop. by rewrite list_fmap_compose, <- Ei in Hop.
  - unfold op_constants. by rewrite N2, Ec.
  - destruct (reads_globals i.(opc)) eqn:Hrg; [|done]. eapply hglobals_eq; [exact Hinv1| |exact Hv1|by apply Hg|].
    + by eapply fixed_as_le.
    + intros t Ht. rewrite Eo in Ht. apply list_elem_of_fmap in Ht as (k & -> & Hk).
      destruct (S1 (arg a k)) as [-> _]; [|by apply (op_fixed _ _ _ _ _ _ Hok)]. apply elem_of_seq in Hk.
      apply (op_valid _ _ _ _ _ _ Hok). lia.
Qed.

(** The registers that a call of the operation may overwrite. *)
Lemma op_overwritten σ σ1 x v h h' :
  op_ok s i da sa f σ -> ready_at i x σ1 -> linked σ1 -> testb (op_flags i.(opc)) TCG_OPF_CALL_CLOBBER = true ->
  overwritten h h' -> values (oargs i) (written_facts i da f) v σ1 h -> values (oargs i) (written_facts i da f) v σ1 h'.
Proof.
  intros Hok [_ _ _ N4 N5] Hl1 Hcc Hov Hv. destruct (op_outs σ Hok) as (Eo & _).
  eapply overwritten_values; [exact Hl1| |exact Hov|exact Hv]. intros t Vt Ht Hf Hr.
  destruct (Z.testbit tcg_target_call_clobber_regs _) eqn:Hbit; [|done]. exfalso.
  destruct (ln_reg _ _ _ Hl1 t Vt Hf Hr) as [Hrr Ho].
  destruct (N5 Hcc (clobber_not_end _ Hcc) _ Hrr Hbit) as [Ho'|(k & Hk & Ek)].
  - unfold valid in Vt. lia.
  - apply Ht. destruct (N4 k Hk) as (_ & Hok' & _). rewrite Ek, Ho in Hok'. rewrite Hok', Eo. by apply list_elem_of_fmap_2.
Qed.

Lemma op_written σ σ1 x rs v h h' :
  op_ok s i da sa f σ -> ready_at i x σ1 -> linked σ1 -> length v = length s.(temps) ->
  hwrites s (oargs i) x.(new_args) rs h h' -> values (oargs i) (written_facts i da f) v σ1 h ->
  exists v', writes s (oargs i) rs v v' /\ length v' = length s.(temps) /\ values [] (written_facts i da f) v' σ1 h'.
Proof.
  intros Hok [_ _ _ N4 _] Hl1 Hlv Hw Hv. destruct (op_outs σ Hok) as (Eo & Hnd & Hval).
  eapply outputs_written; [exact Hl1|done|done|done| |exact Hv|exact Hw].
  intros k t r Ht Hr. rewrite Eo, list_lookup_fmap in Ht. apply fmap_Some in Ht as (k' & Hk & ->).
  apply lookup_seq in Hk as [-> Hk]. cbn in *. destruct (N4 k) as (H1 & H2 & H3); [apply elem_of_seq; lia|].
  assert (arg x.(new_args) k = r) as Er by (unfold arg; by rewrite list_lookup_total_alt, Hr). by rewrite Er in H1, H2.
Qed.

(** The upper words are still there when the lower result has been written. *)
Lemma words_apart σ σ1 x k :
  op_ok s i da sa f σ -> ready_at i x σ1 -> two_steps i.(opc) = true -> arg a 2 <> arg a 5 ->
  (k = 3 \/ k = 5)%nat -> is_const x k = false -> arg x.(new_args) 0 <> arg x.(new_args) k.
Proof.
  intros Hok Hrd Hts Hne Hk Hc.
  assert (nb_oargs i.(opc) = 2%nat /\ nb_iargs i.(opc) = 4%nat /\ outputs_aliased i.(opc) = true /\
    Z.to_nat (op_ct i.(opc) 0).(ct_alias) = 2%nat /\ testb (op_ct i.(opc) 3).(ct) TCG_CT_IALIAS = true)
    as (Eo & Ei & Hal & E0 & E3).
  { destruct (opc i) as [] eqn:Eop; try discriminate Hts; by match goal with t : TCGType |- _ => destruct t end. }
  apply (ra_apart _ _ _ Hrd 0%nat k); [rewrite Eo; apply elem_of_seq; lia|rewrite Eo, Ei; apply elem_of_seq; lia|done|done|].
  rewrite E0. destruct Hk as [->| ->]; [by left|by right].
Qed.

Lemma late_same σ σ1 x t0 y h h1 :
  op_ok s i da sa f σ -> ready_at i x σ1 -> two_steps i.(opc) = true -> arg a 2 <> arg a 5 ->
  hwrites s [t0] x.(new_args) [y] h h1 ->
  late_inputs s i x.(new_args) x.(const_args) h h1 = op_inputs s i x.(new_args) x.(const_args) h.
Proof.
  intros Hok Hrd Hts Hne Hw. destruct (hwrites_one s _ _ _ _ _ Hw) as [u ->]. unfold late_inputs, op_inputs.
  assert (nb_oargs i.(opc) = 2%nat /\ nb_iargs i.(opc) = 4%nat) as [-> ->] by (by destruct (opc i)).
  cbn [seq fmap list_fmap Nat.even]. unfold operand.
  assert (forall k, (k = 3 \/ k = 5)%nat -> is_const x k = false ->
    hregs (set_hreg (arg x.(new_args) 0) u h) (arg x.(new_args) k) = hregs h (arg x.(new_args) k)) as Hk.
  { intros k Hk Hc. apply hregs_set_other. intros Ek. symmetry in Ek. by apply (words_apart σ σ1 x k) in Ek. }
  unfold is_const in Hk. do 2 f_equal; [|do 2 f_equal].
  - destruct (const_args x !!! 3%nat) eqn:Ek; [done|]. rewrite Hk; auto.
  - do 2 f_equal. destruct (const_args x !!! 5%nat) eqn:Ek; [done|]. rewrite Hk; auto.
Qed.

Hypothesis Hwords : two_steps i.(opc) = true -> arg a 2 <> arg a 5.

Lemma words_length σ x h rs :
  op_ok s i da sa f σ -> two_steps i.(opc) = true ->
  eval_op i.(opc) (op_constants i x.(new_args)) (op_inputs s i x.(new_args) x.(const_args) h) = Some rs ->
  length rs = length (oargs i).
Proof.
  intros Hok Hts Ev. destruct (op_outs σ Hok) as (Eo & _). rewrite Eo, length_fmap, length_seq.
  destruct (opc i); try discriminate Hts; destruct (op_constants i (new_args x));
    destruct (op_inputs s i (new_args x) (const_args x) h) as [|? [|? [|? [|? []]]]]; try discriminate Ev; by injection Ev as <-.
Qed.

(** The two steps are those of an operation that reads first. *)
Lemma two_steps_at_once σ σ1 x rs h h1 rs1 h' :
  op_ok s i da sa f σ -> ready_at i x σ1 -> two_steps i.(opc) = true -> length rs = length (oargs i) ->
  eval_op i.(opc) (op_constants i x.(new_args)) (op_inputs s i x.(new_args) x.(const_args) h) = Some rs ->
  hwrites s (take 1 (oargs i)) x.(new_args) (take 1 rs) h h1 ->
  eval_op i.(opc) (op_constants i x.(new_args)) (late_inputs s i x.(new_args) x.(const_args) h h1) = Some rs1 ->
  hwrites s (drop 1 (oargs i)) (drop 1 x.(new_args)) (drop 1 rs1) h1 h' ->
  hwrites s (oargs i) x.(new_args) rs h h'.
Proof.
  intros Hok Hrd Hts Hlr Ev Hw1 Ev1 Hw2. destruct (op_outs σ Hok) as (Eo & _).
  assert (length (oargs i) = 2%nat) as Hlo.
  { rewrite Eo, length_fmap, length_seq. by destruct (opc i). }
  destruct (oargs i) as [|t0 [|t1 []]] eqn:Eoa; try done. destruct rs as [|y0 [|y1 []]]; try done.
  rewrite (late_same σ σ1 x t0 y0) in Ev1 by auto. rewrite Ev in Ev1. injection Ev1 as <-. by eapply hwrites_first.
Qed.

Lemma op_sim σ σ1 σ' x os1 os2 label n v w h j h' w' :
  op_ok s i da sa f σ -> op_emitted s frame M i da sa f σ σ1 σ' x os1 os2 -> fixed_as σ -> within s M σ' ->
  length v = length s.(temps) -> values [] f v σ h ->
  op_step E s gl label i x.(new_args) x.(const_args) (exec_moves os1 h) w j h' w' ->
  exists v', insn_step E s label i (mkConfig n v w) (mkConfig (default (S n) j) v' w') /\ length v' = length s.(temps) /\
    values [] (written_facts i da f) v' σ1 h'.
Proof.
  intros Hok Hem Hfa Hw Hlv Hv Hst. destruct (op_at σ σ1 σ' x os1 os2 v h Hok Hem Hfa Hw Hv) as [Ein Ecs Eg Hv1].
  pose proof Hem as [[Hl1 _ _] Hrd _ _ _]. pose proof (op_here_not_call σ Hok) as Hc. destruct (op_outs σ Hok) as (Eo & _).
  pose proof (op_written σ σ1 x) as Hout. set (h1 := exec_moves os1 h) in *.
  assert (clobbered s v v) as Hcl by done.
  inversion Hst as [? ? rs ? _ Ev Hwr|? ? rs h2 rs1 ? Hts Ev Hw1 Ev1 Hw2|? ? l n' Eb Ecs' Hlab|? ? b ? Hcond Hj|? ? us g ? h2 h3 ? Ecall|? ? us ? h2 ? Hp Hpr Hcb Hwr]; subst.
  - rewrite Ein, Ecs in Ev. destruct (Hout rs v h1 h' Hok Hrd Hl1 Hlv Hwr Hv1) as (v' & Hw' & Hl' & Hv'). exists v'.
    split; [by eapply step_value|done].
  - assert (length rs = length (oargs i)) as Hlr by (by apply (words_length σ x h1)).
    pose proof (two_steps_at_once σ σ1 x rs h1 h2 rs1 h' Hok Hrd Hts Hlr Ev Hw1 Ev1 Hw2) as Hwr.
    rewrite Ein, Ecs in Ev. destruct (Hout rs v h1 h' Hok Hrd Hl1 Hlv Hwr Hv1) as (v' & Hw' & Hl' & Hv'). exists v'.
    split; [by eapply step_value|done].
  - exists v. rewrite Ecs in Ecs'. split; [by eapply step_br|]. split; [done|]. by rewrite Eo, Eb in Hv1.
  - exists v. rewrite Ein, Ecs in Hcond. split; [|split; [done|]].
    + eapply step_brcond; [exact Hcond| |done]. destruct b; [|by subst j]. destruct Hj as (m & Hm & ->). by rewrite <- Ecs.
    + assert (nb_oargs i.(opc) = 0%nat) as Hno by (unfold condition in Hcond; by destruct i.(opc)). by rewrite Eo, Hno in Hv1.
  - done.
  - rewrite Ein, Ecs, Eg in Hpr. assert (values (oargs i) (written_facts i da f) v σ1 h2) as Hv2.
    { destruct (testb (op_flags i.(opc)) TCG_OPF_CALL_CLOBBER) eqn:Hcc; [|by subst h2]. by eapply op_overwritten. }
    destruct (Hout _ v h2 h' Hok Hrd Hl1 Hlv Hwr Hv2) as (v' & Hw' & Hl' & Hv'). exists v'. split; [|done].
    eapply step_primitive; [done|exact Hpr|exact Hw'|]. by destruct (bb_end i.(opc)).
Qed.

Lemma op_emitted_fits σ σ1 x : op_ok s i da sa f σ -> ready_at i x σ1 -> op_fits (LOp i x.(new_args) x.(const_args)).
Proof.
  intros Hok Hrd Ha. split.
  - intros Hpos. pose proof (ra_fits _ _ _ Hrd) as Hf. pose proof (tb_length _ (op_tables _ Ha)) as Hl. unfold allocated.
    destruct (op_cts i.(opc)); [done|]. cbn in Hl. lia.
  - intros Hts. assert (nb_oargs i.(opc) = 2%nat) as Eo by (by destruct (opc i)). split.
    + intros Ek. destruct (ra_outs _ _ _ Hrd 0%nat) as (_ & O0 & _); [rewrite Eo; apply elem_of_seq; lia|].
      destruct (ra_outs _ _ _ Hrd 1%nat) as (_ & O1 & _); [rewrite Eo; apply elem_of_seq; lia|].
      pose proof (op_distinct _ _ _ _ _ _ Hok) as Hnd. rewrite Eo in Hnd. cbn [seq fmap list_fmap] in Hnd.
      apply NoDup_cons in Hnd as [Hn _]. apply Hn. rewrite Ek in O0. rewrite <- O0, O1. apply list_elem_of_here.
    + intros Hc Ek. symmetry in Ek. apply (words_apart σ σ1 x 5%nat) in Ek; auto.
Qed.

Lemma two_steps_possible σ σ1 x rs h :
  op_ok s i da sa f σ -> ready_at i x σ1 -> two_steps i.(opc) = true ->
  eval_op i.(opc) (op_constants i x.(new_args)) (op_inputs s i x.(new_args) x.(const_args) h) = Some rs ->
  exists h1 h', hwrites s (take 1 (oargs i)) x.(new_args) (take 1 rs) h h1 /\
    eval_op i.(opc) (op_constants i x.(new_args)) (late_inputs s i x.(new_args) x.(const_args) h h1) = Some rs /\
    hwrites s (drop 1 (oargs i)) (drop 1 x.(new_args)) (drop 1 rs) h1 h'.
Proof.
  intros Hok Hrd Hts Ev. pose proof (words_length σ x h rs Hok Hts Ev) as Hlr.
  destruct (op_outs σ Hok) as (Eo & _). pose proof (op_length _ _ _ _ _ _ Hok) as Hla.
  assert (length (oargs i) <= length x.(new_args))%nat as Hlo.
  { rewrite Eo, length_fmap, length_seq, (ra_new _ _ _ Hrd). lia. }
  destruct (hwrites_possible s (take 1 (oargs i)) x.(new_args) (take 1 rs) h) as [h1 H1];
    [rewrite !length_take; lia|rewrite length_take; lia|].
  destruct (hwrites_possible s (drop 1 (oargs i)) (drop 1 x.(new_args)) (drop 1 rs) h1) as [h' H'];
    [rewrite !length_drop; lia|rewrite !length_drop; lia|].
  exists h1, h'. split; [done|]. split; [|done]. assert (length (oargs i) = 2%nat) as Hl2.
  { rewrite Eo, length_fmap, length_seq. by destruct (opc i). }
  destruct (oargs i) as [|t0 [|t1 []]] eqn:Eoa; try done. destruct rs as [|y0 [|y1 []]]; try done.
  by rewrite (late_same σ σ1 x t0 y0) by auto.
Qed.

(** The code goes on where the program does. *)
Lemma op_progress σ σ1 σ' x os1 os2 label n v w h c :
  op_ok s i da sa f σ -> op_emitted s frame M i da sa f σ σ1 σ' x os1 os2 -> fixed_as σ -> within s M σ' ->
  values [] f v σ h -> insn_step E s label i (mkConfig n v w) c ->
  exists j h' w', op_step E s gl label i x.(new_args) x.(const_args) (exec_moves os1 h) w j h' w'.
Proof.
  intros Hok Hem Hfa Hw Hv Hst. destruct (op_at σ σ1 σ' x os1 os2 v h Hok Hem Hfa Hw Hv) as [Ein Ecs Eg _].
  pose proof two_steps_possible as Hposs. pose proof (op_here_not_call σ Hok) as Hc. pose proof (op_here _ _ _ _ _ _ Hok) as Hh. set (h1 := exec_moves os1 h) in *.
  destruct (op_outs σ Hok) as (Eo & _). assert (length (oargs i) <= length x.(new_args))%nat as Hlo.
  { pose proof (op_length _ _ _ _ _ _ Hok). rewrite Eo, length_fmap, length_seq, (ra_new _ _ _ (em_ready _ _ _ _ _ _ _ _ _ _ _ _ _ Hem)). lia. }
  inversion Hst as [? ? ? rs v' Ev Hwr|? ? ? ? El|? ? ? ? l n' Eb Ecs' Hlab|? ? ? ? b n' Htk Hlab|? ? ? us g ? ? ? Ecall|? ? ? us w' v1 v' Hp Hpr Hwr]; subst.
  - destruct (hwrites_possible s (oargs i) x.(new_args) rs h1 (writes_length _ _ _ _ _ Hwr) Hlo) as [h' Hh'].
    exists None. destruct (two_steps i.(opc)) eqn:Hts; [|exists h', w; eapply os_value; [done|by rewrite Ein, Ecs|exact Hh']].
    rewrite <- Ein, <- Ecs in Ev. destruct (Hposs σ σ1 x rs h1 Hok) as (h2 & h3 & H2 & E3 & H3); [apply Hem|done|done|].
    exists h3, w. by eapply os_two_steps.
  - by rewrite El in Hh.
  - exists (Some n'), h1, w. eapply os_br; [done|by rewrite Ecs|done].
  - exists (if b then Some n' else None), h1, w. eapply os_brcond with (b := b); [by rewrite Ein, Ecs|]. rewrite Ecs. destruct b; [by exists n'|done].
  - done.
  - destruct (hwrites_possible s (oargs i) x.(new_args) (Some <$> us) h1 (writes_length _ _ _ _ _ Hwr) Hlo) as [h' Hh'].
    exists None, h', w'. eapply os_primitive; [done|by rewrite Ein, Ecs, Eg| |exact Hh']. by destruct (testb _ _).
Qed.
End Op.
(** ** Calls *)

Section Call.
Context (i : insn) (da sa : Z) (f : facts).

Local Abbreviation params := (take (length (iargs i) - 1) (iargs i)).

Lemma call_inputs_eq σ x v h :
  call_ok s i da sa f σ -> call_args_at s i x v h -> call_inputs s i [x.1] [x.2] h = rd s v <$> iargs i.
Proof.
  intros Hok [Hp Hf]. pose proof (ck_function _ _ _ _ _ _ Hok) as Hf1. unfold call_inputs. apply list_eq. intros j.
  rewrite list_lookup_imap, list_lookup_fmap. destruct (iargs i !! j) as [t|] eqn:Hj; [|done]. cbn. f_equal.
  destruct (Nat.eqb_spec j (length (iargs i) - 1)) as [->|Hne].
  - unfold arg in Hf. rewrite list_lookup_total_alt, Hj in Hf. cbn in Hf. exact Hf.
  - apply Hp. apply lookup_take_Some. split; [done|]. apply lookup_lt_Some in Hj. lia.
Qed.

(** The helper has written the globals. *)
Lemma globals_set_values X v σ h h' g :
  ra_inv (call_read i da f) σ -> fixed_as σ -> length v = length s.(temps) -> globals_written s gl g h h' ->
  (forall t, 0 <= t < s.(nb_globals) -> (call_read i da f).(f_dead) t = true) ->
  values X (call_read i da f) v σ h -> values X (call_read i da f) (g ++ drop (length g) v) σ h'.
Proof.
  intros [Hl _ Hlv] Hfa Hv (Hlg & Hr & Hg & Hm) Hd Hval t Vt Ht. pose proof (se_globals (setting:=Hset)) as Hgl.
  destruct (Z.lt_ge_cases t s.(nb_globals)) as [Hlt|Hge].
  - assert (0 <= t < s.(nb_globals)) as Htg by (unfold valid in Vt; lia).
    assert (rd s (g ++ drop (length g) v) t = global_value s gl h' t) as Erd.
    { rewrite Hg by done. unfold rd, tget. by rewrite lookup_total_app_l by lia. }
    unfold global_value in Erd. rewrite <- Hfa in Erd by done. destruct ((ts_of σ t).(fixed_reg)) eqn:Hf.
    + destruct (ln_fixed _ _ _ Hl t Vt Hf) as (_ & Hvt & _). rewrite Hfixed in Erd by (done || by rewrite <- Hfa).
      rewrite <- (fixed_reg_number σ t) in Erd by done. split; congruence.
    + pose proof (lv_dead _ _ _ _ _ _ _ (Hlv t Vt Hf) (Hd t Htg)) as Hvt. unfold survives in Hvt.
      rewrite (proj2 (Z.ltb_lt _ _) Hlt) in Hvt. cbn in Hvt. split; rewrite ?Hvt; try done.
      intros _ _ k Hk. rewrite Hplace in Hk by (done || by rewrite <- Hfa). by injection Hk as <-.
  - eapply val_ts_rd.
    + eapply val_ts_host; [by apply Hval|by rewrite Hr|]. intros k Hk. apply Hm. intros u Hu Hfu Eu. subst k.
      destruct (global_valid s frame reserved M u Hu) as [Vu _].
      assert (t = u) by (eapply (se_inj (setting:=Hset)); [done|done|exact Hk|by apply Hplace]). lia.
    + unfold rd. rewrite tget_app_drop by lia. done.
Qed.

(** The parameters and what the helper sees of the globals. *)
Lemma call_at σ σ1 σ' x os1 os2 v h :
  call_ok s i da sa f σ -> call_emitted s frame M i da sa f σ σ1 σ' x os1 os2 -> fixed_as σ -> within s M σ' ->
  values [] f v σ h ->
  call_inputs s i [x.1] [x.2] (exec_moves os1 h) = rd s v <$> iargs i /\
  (if testb (call_flags i) TCG_CALL_NO_READ_GLOBALS then [] else hglobals s gl (exec_moves os1 h)) =
    (if testb (call_flags i) TCG_CALL_NO_READ_GLOBALS then [] else globals s v) /\
  values [] (call_read i da f) v σ1 (exec_moves os1 h) /\ fixed_as σ1.
Proof.
  intros Hok [Hinv1 _ _ Hb Ha _] Hfa Hw Hv. destruct (Hb v) as [S1 M1 V1]. destruct (Ha v) as [S2 _ _].
  destruct (V1 (within_le _ _ _ _ S2 Hw) h Hv) as [Hv1 Hargs]. pose proof (fixed_as_le _ _ S1 Hfa) as Hfa1.
  split; [by apply (call_inputs_eq σ)|]. split; [|done].
  destruct (testb (call_flags i) TCG_CALL_NO_READ_GLOBALS) eqn:Hnr; [done|].
  eapply hglobals_eq; [exact Hinv1|done|exact Hv1| |intros t Ht; by apply not_elem_of_nil in Ht].
  eapply (globals_value s frame M); [exact Hinv1|exact Hv1|]. by apply (ck_read _ _ _ _ _ _ Hok).
Qed.

Lemma call_sim σ σ1 σ' x os1 os2 label n v w h j h' w' :
  i.(opc) = INDEX_op_call -> call_ok s i da sa f σ -> call_emitted s frame M i da sa f σ σ1 σ' x os1 os2 ->
  fixed_as σ -> within s M σ' -> length v = length s.(temps) -> values [] f v σ h ->
  op_step E s gl label i [x.1] [x.2] (exec_moves os1 h) w j h' w' ->
  exists v', insn_step E s label i (mkConfig n v w) (mkConfig (S n) v' w') /\ length v' = length s.(temps) /\ j = None /\
    values (oargs i) (call_read i da f) v' σ1 h' /\ results_at s (imap pair (oargs i)) v' h'.
Proof.
  intros Hc Hok Hem Hfa Hw Hlv Hv Hst. pose proof Hem as [Hinv1 _ Hcl _ _ _]. pose proof Hinv1 as [Hl1 _ _].
  destruct (call_at σ σ1 σ' x os1 os2 v h Hok Hem Hfa Hw Hv) as (Ein & Eg & Hv1 & Hfa1). set (h1 := exec_moves os1 h) in *.
  inversion Hst as [? ? rs ? _ Ev Hwr|? ? rs h2 rs1 ? Hts Ev Hw1 Ev1 Hw2|? ? l n' Eb Ecs' Hlab|? ? b ? Hcond Hj|? ? us g ? h2 h3 ? Ecall Hh Hov Hgw Hwr|? ? us ? h2 ? Hp Hpr Hcb Hwr];
    subst; [by rewrite Hc in Ev; apply eval_value_op in Ev|by rewrite Hc in Hts|congruence|by rewrite Hc in Hcond| |by rewrite Hc in Hp].
  rewrite Ein, Eg in Hh.
  assert (values [] (call_read i da f) v σ1 h2) as Hv2.
  { eapply overwritten_values; [exact Hl1| |exact Hov|exact Hv1]. intros t Vt _ Hf Hr.
    destruct (Z.testbit tcg_target_call_clobber_regs _) eqn:Hbit; [|done]. exfalso.
    destruct (ln_reg _ _ _ Hl1 t Vt Hf Hr) as [Hrr Ho]. rewrite (Hcl _ Hrr Hbit) in Ho. unfold valid in Vt. lia. }
  assert (exists v1, (if testb (call_flags i) (Z.lor TCG_CALL_NO_READ_GLOBALS TCG_CALL_NO_WRITE_GLOBALS)
     then v1 = v else length g = Z.to_nat s.(nb_globals) /\ v1 = g ++ drop (length g) v) /\ length v1 = length s.(temps) /\
     values [] (call_read i da f) v1 σ1 h3) as (v1 & Hg1 & Hl1' & Hv3).
  { destruct (testb (call_flags i) (Z.lor _ _)) eqn:Hfl; [exists v; by subst h3|]. exists (g ++ drop (length g) v).
    pose proof Hgw as [Hlg _]. split; [done|]. split.
    - pose proof (se_globals (setting:=Hset)). unfold nb_temps in *. rewrite length_app, length_drop. lia.
    - eapply globals_set_values; [done|done|done|exact Hgw| |exact Hv2]. by apply (ck_write _ _ _ _ _ _ Hok). }
  assert (Forall (valid s) (oargs i)) as Hval.
  { apply Forall_forall. intros t Ht. by apply (ck_valid _ _ _ _ _ _ Hok). }
  destruct (results_written (oargs i) (Some <$> us) (call_read i da f) v1 σ1 h3 h') as (v' & Hwv & Hlv' & Hv4 & Hra); try done.
  - apply (ck_distinct _ _ _ _ _ _ Hok).
  - eapply values_weaken; [|exact Hv3]. apply list_subseteq_nil.
  - exists v'. split; [by eapply step_call|done].
Qed.

(** Helpers do not move the CPU state. *)
Definition keeps_fixed : Prop :=
  forall no cs xs g0 w us g w', E.(helper) no cs xs g0 w us g w' ->
    forall t, 0 <= t < s.(nb_globals) -> (tget gl t).(fixed_reg) = true ->
      wrap (tsize s t) (tget g t) = wrap (tsize s t) (tget g0 t).

Definition write_globals (g : list Z) (h : hstate) : hstate :=
  mkHost (hregs h) (fun k =>
    match List.find (fun t => negb (tget gl t).(fixed_reg) && bool_decide (global_place gl t = k)) (all_globals s) with
    | Some t => tget g t | None => hmem h k
    end).

Lemma globals_writable g h :
  length g = Z.to_nat s.(nb_globals) ->
  (forall t, 0 <= t < s.(nb_globals) -> (tget gl t).(fixed_reg) = true ->
     wrap (tsize s t) (hregs h TCG_AREG0) = wrap (tsize s t) (tget g t)) ->
  globals_written s gl g h (write_globals g h).
Proof.
  intros Hlg Hfx. split; [done|]. split; [done|]. split.
  - intros t Ht. unfold global_value. destruct ((tget gl t).(fixed_reg)) eqn:Hf; [rewrite Hfixed by done; by apply Hfx|].
    unfold write_globals. cbn [hmem]. destruct (List.find _ _) as [u|] eqn:Ef.
    + apply List.find_some in Ef as [Hu Ep]. apply list_elem_of_In in Hu. rewrite all_globals_elem in Hu.
      apply andb_true_iff in Ep as [Hfu%negb_true_iff Ep%bool_decide_eq_true].
      destruct (global_valid s frame reserved M t Ht) as [Vt _], (global_valid s frame reserved M u Hu) as [Vu _].
      assert (t = u) as ->; [|done]. eapply (se_inj (setting:=Hset)); [done|done|by apply Hplace|]. rewrite <- Ep. by apply Hplace.
    + exfalso. assert (In t (all_globals s)) as Hin by (apply list_elem_of_In; by apply all_globals_elem).
      eapply List.find_none in Ef; [|exact Hin]. by rewrite Hf, bool_decide_true in Ef by done.
  - intros k Hk. unfold write_globals. cbn [hmem]. destruct (List.find _ _) as [u|] eqn:Ef; [|done]. exfalso.
    apply List.find_some in Ef as [Hu Ep]. apply list_elem_of_In in Hu. rewrite all_globals_elem in Hu.
    apply andb_true_iff in Ep as [Hfu%negb_true_iff Ep%bool_decide_eq_true]. by apply (Hk u).
Qed.

Lemma call_progress σ σ1 σ' x os1 os2 label n v w h c :
  i.(opc) = INDEX_op_call -> keeps_fixed -> call_ok s i da sa f σ -> call_emitted s frame M i da sa f σ σ1 σ' x os1 os2 ->
  fixed_as σ -> within s M σ' -> values [] f v σ h -> insn_step E s label i (mkConfig n v w) c ->
  exists j h' w', op_step E s gl label i [x.1] [x.2] (exec_moves os1 h) w j h' w'.
Proof.
  intros Hc Hkf Hok Hem Hfa Hw Hv Hst. pose proof Hem as [[Hl1 _ _] _ _ _ _ _].
  destruct (call_at σ σ1 σ' x os1 os2 v h Hok Hem Hfa Hw Hv) as (Ein & Eg & Hv1 & Hfa1). set (h1 := exec_moves os1 h) in *.
  inversion Hst as [? ? ? rs v' Ev Hwr|? ? ? ? El|? ? ? ? l n' Eb Ecs' Hlab|? ? ? ? b n' Htk Hlab|? ? ? us g w' v1 v' Ecall Hh Hg Hwr|? ? ? us w' v1 v' Hp Hpr Hwr]; subst;
    [by rewrite Hc in Ev; apply eval_value_op in Ev|congruence|congruence|unfold taken in Htk; by rewrite Hc in Htk| |by rewrite Hc in Hp].
  assert (exists h2, if testb (call_flags i) (Z.lor TCG_CALL_NO_READ_GLOBALS TCG_CALL_NO_WRITE_GLOBALS) then h2 = h1
    else globals_written s gl g h1 h2) as [h2 Hh2].
  { destruct (testb _ (Z.lor _ _)) eqn:Hfl; [by exists h1|]. destruct Hg as [Hlg _]. exists (write_globals g h1). apply globals_writable; [done|].
    intros t Ht Hf. destruct (global_valid s frame reserved M t Ht) as [Vt _]. rewrite testb_lor in Hfl. apply orb_false_iff in Hfl as [Hnr _].
    rewrite Hnr in Hh. rewrite (Hkf _ _ _ _ _ _ _ _ Hh t Ht Hf). assert ((ts_of σ1 t).(fixed_reg) = true) as Hf1 by (by rewrite Hfa1).
    destruct (ln_fixed _ _ _ Hl1 t Vt Hf1) as (_ & Hvt & _). rewrite <- (fixed_reg_number σ1 t Hl1 Vt Hf1).
    rewrite (vl_reg _ _ _ _ _ _ _ (Hv1 t Vt (not_elem_of_nil t)) Hvt). unfold globals, tget.
    rewrite list_lookup_total_alt, list_lookup_fmap, lookup_seq_lt by lia. cbn. rewrite Z2Nat.id by lia. unfold rd. by rewrite wrap_wrap. }
  destruct (hwrites_possible s (oargs i) tcg_target_call_oarg_regs (Some <$> us) h2 (writes_length _ _ _ _ _ Hwr)) as [h' Hh'].
  { pose proof (ck_results _ _ _ _ _ _ Hok). cbn. lia. }
  exists None, h', w'. eapply os_call; [done|by rewrite Ein, Eg| |exact Hh2|exact Hh']. done.
Qed.
End Call.
End Sim.
