(* ===== verification/RegAllocNotes.v ===== *)
(** * What the liveness analysis tells the register allocator

    For every operation that is left, the notes of [tcg_liveness_analysis] say which
    arguments die and which are to be stored.  Here they are related to the states
    of the analysis before and after the operation. *)

From S2P Require Import Prelude QtraceDefs X86 TcgOut TcgEnc TcgEmit TcgCond TcgOpDefs TcgSem TcgIR.
From S2P Require Import Optimize OptCopies OptSound Liveness LivenessSound InstrCall Prologue RegAlloc RegAllocLogic.
From S2P Require Import LinearCode RegAllocSpill RegAllocOps RegAllocStep RegAllocTable RegAllocInsn RegAllocMov RegAllocCall.

Section Notes.
Context (s : tcg_temps).
Hypothesis Hglobals : 0 <= s.(nb_globals) <= nb_temps s.
Hypothesis Hmax : nb_temps s <= TCG_MAX_TEMPS.

Local Abbreviation dead st t := (tget (dead_temps st) t).
Local Abbreviation mem st t := (tget (mem_temps st) t).

(** ** Bits *)

Lemma testbit_note n (b : bool) w k j :
  0 <= k < n -> 0 <= j < n ->
  Z.testbit (if b then wrap n (Z.lor w (Z.shiftl 1 k)) else w) j = Z.testbit w j || (b && (j =? k)).
Proof.
  intros Hk Hj. destruct b; [|by rewrite orb_false_r]. rewrite testbit_wrap by done.
  rewrite Z.lor_spec. f_equal. rewrite Z.shiftl_1_l, Z.pow2_bits_eqb by lia. cbn. apply Z.eqb_sym.
Qed.

(** Outputs from argument [k] on. *)
Lemma outputs_notes ts : forall k st da sa st' da' sa',
  la_outputs k ts st da sa = (st', da', sa') -> sized s st -> Forall (valid s) ts -> NoDup ts ->
  0 <= k -> k + Z.of_nat (length ts) <= 8 ->
  (forall j, 0 <= j < k -> Z.testbit da' j = Z.testbit da j /\ Z.testbit sa' j = Z.testbit sa j) /\
  (forall j, k + Z.of_nat (length ts) <= j < 16 -> Z.testbit da' j = Z.testbit da j) /\
  forall n t, ts !! n = Some t ->
    Z.testbit da' (k + Z.of_nat n) = Z.testbit da (k + Z.of_nat n) || dead st t /\
    Z.testbit sa' (k + Z.of_nat n) = Z.testbit sa (k + Z.of_nat n) || mem st t.
Proof.
  induction ts as [|t ts IH]; intros k st da sa st' da' sa' E Hs Hv Hnd H0 Hk; cbn [la_outputs] in E.
  { injection E as <- <- <-. split_and!; [done|done|]. intros n t Ht. done. }
  apply Forall_cons in Hv as [Vt Hv]. apply NoDup_cons in Hnd as [Hn Hnd]. cbn [length] in Hk.
  assert (sized s (mkLa (tset t true st.(dead_temps)) (tset t false st.(mem_temps)))) as Hs1.
  { destruct Hs. split; cbn; by rewrite length_tset. }
  destruct (IH _ _ _ _ _ _ _ E Hs1 Hv Hnd ltac:(lia) ltac:(lia)) as (I1 & I2 & I3). split_and!.
  - intros j Hj. destruct (I1 j) as [-> ->]; [lia|]. rewrite !testbit_note by lia.
    rewrite (proj2 (Z.eqb_neq j k)) by lia. by rewrite !andb_false_r, !orb_false_r.
  - intros j Hj. cbn [length] in Hj. rewrite I2 by lia. rewrite testbit_note by lia.
    rewrite (proj2 (Z.eqb_neq j k)) by lia. by rewrite andb_false_r, orb_false_r.
  - intros [|n] u Hu; cbn in Hu.
    + injection Hu as <-. rewrite Z.add_0_r. destruct (I1 k) as [-> ->]; [lia|].
      rewrite !testbit_note, Z.eqb_refl by lia. by rewrite !andb_true_r.
    + destruct (I3 n u Hu) as [E1 E2]. pose proof (lookup_lt_Some _ _ _ Hu). replace (k + Z.of_nat (S n)) with (k + 1 + Z.of_nat n) by lia.
      rewrite E1, E2, !testbit_note by lia. rewrite (proj2 (Z.eqb_neq (k + 1 + Z.of_nat n) k)) by lia.
      rewrite !andb_false_r, !orb_false_r. cbn [dead_temps mem_temps].
      assert (valid s u) as Vu by (rewrite Forall_forall in Hv; by eapply Hv, list_elem_of_lookup_2).
      assert (u <> t) as Hne by (intros ->; by apply Hn; eapply list_elem_of_lookup_2).
      destruct Hs. rewrite !(tget_set s), (proj2 (Z.eqb_neq u t)) by done. done.
Qed.

(** Inputs: the first occurrence of a temporary that is not used later dies. *)
Lemma inputs_notes call ts : forall k st da st' da',
  la_inputs call k ts st da = (st', da') -> sized s st -> Forall (valid s) ts ->
  0 <= k -> k + Z.of_nat (length ts) <= 16 ->
  (forall j, 0 <= j < k -> Z.testbit da' j = Z.testbit da j) /\
  forall n t, ts !! n = Some t ->
    Z.testbit da' (k + Z.of_nat n) = Z.testbit da (k + Z.of_nat n) || (negb (bool_decide (t ∈ take n ts)) && dead st t).
Proof.
  induction ts as [|t ts IH]; intros k st da st' da' E Hs Hv H0 Hk; cbn [la_inputs] in E.
  { injection E as <- <-. split; [done|]. intros n t Ht. done. }
  apply Forall_cons in Hv as [Vt Hv]. cbn [length] in Hk.
  assert ((t =? TCG_CALL_DUMMY_ARG) = false) as Hdm.
  { apply Z.eqb_neq. unfold valid, TCG_MAX_TEMPS, TCG_CALL_DUMMY_ARG in *. lia. }
  rewrite Hdm, andb_false_r in E.
  assert (sized s (mkLa (tset t false st.(dead_temps)) st.(mem_temps))) as Hs1.
  { destruct Hs. split; cbn; by rewrite ?length_tset. }
  destruct (IH _ _ _ _ _ E Hs1 Hv ltac:(lia) ltac:(lia)) as (I1 & I2). split.
  - intros j Hj. rewrite I1, testbit_note by lia. rewrite (proj2 (Z.eqb_neq j k)) by lia. by rewrite andb_false_r, orb_false_r.
  - intros [|n] u Hu; cbn in Hu.
    + injection Hu as <-. rewrite Z.add_0_r, I1, testbit_note, Z.eqb_refl, andb_true_r by lia. cbn [take].
      by rewrite bool_decide_false by apply not_elem_of_nil.
    + pose proof (lookup_lt_Some _ _ _ Hu). replace (k + Z.of_nat (S n)) with (k + 1 + Z.of_nat n) by lia.
      rewrite (I2 n u Hu), testbit_note by lia. rewrite (proj2 (Z.eqb_neq (k + 1 + Z.of_nat n) k)) by lia.
      rewrite andb_false_r, orb_false_r. f_equal. cbn [dead_temps].
      assert (valid s u) as Vu by (rewrite Forall_forall in Hv; by eapply Hv, list_elem_of_lookup_2).
      destruct Hs. rewrite (tget_set s) by done. change (take (S n) (t :: ts)) with (t :: take n ts).
      destruct (Z.eqb_spec u t) as [->|Hne].
      * rewrite andb_false_r. by rewrite (bool_decide_true (t ∈ t :: _)) by apply list_elem_of_here.
      * f_equal. f_equal. apply bool_decide_ext. rewrite elem_of_cons. tauto.
Qed.
(** ** Operations *)

Lemma outputs_dead ts : forall k st da sa t,
  sized s st -> Forall (valid s) ts -> t ∈ ts ->
  dead (la_outputs k ts st da sa).1.1 t = true /\ mem (la_outputs k ts st da sa).1.1 t = false.
Proof.
  induction ts as [|u ts IH]; intros k st da sa t Hs Hv Ht; [by apply not_elem_of_nil in Ht|].
  apply Forall_cons in Hv as [Vu Hv]. cbn [la_outputs].
  set (st1 := mkLa (tset u true st.(dead_temps)) (tset u false st.(mem_temps))).
  assert (sized s st1) as Hs1 by (destruct Hs; split; cbn; by rewrite length_tset).
  destruct (decide (t ∈ ts)) as [Hin|Hn]; [by apply IH|]. apply elem_of_cons in Ht as [->|Ht]; [|done].
  edestruct (outputs_spec s ts (k + 1) st1) as [_ Ho]; [exact Hs1|exact Hv|]. destruct (Ho u Vu Hn) as [-> ->].
  cbn. destruct Hs. by rewrite !(tget_set s), Z.eqb_refl by done.
Qed.

(** The analysis between the outputs and the inputs of an operation. *)
Definition la_mid (flags : Z) (outs : list Z) (st : la_state) : la_state :=
  let st1 := (la_outputs 0 outs st 0 0).1.1 in
  if testb flags TCG_OPF_BB_END then tcg_la_bb_end s
  else if testb flags TCG_OPF_SIDE_EFFECTS then mkLa st1.(dead_temps) (set_globals s true st1.(mem_temps))
  else st1.

(** The notes, between the analysis before ([st']) and after ([st]) an operation;
    [md] is the analysis behind its inputs. *)
Record noted_args (outs ins : list Z) (st md st' : la_state) (da sa : Z) : Prop := {
  na_sized : sized s st';
  na_outs : forall k t, outs !! k = Some t -> IS_DEAD_ARG da k = dead st t /\ NEED_SYNC_ARG sa k = mem st t;
  na_ins : forall n t, ins !! n = Some t ->
    IS_DEAD_ARG da (length outs + n) = negb (bool_decide (t ∈ take n ins)) && dead md t;
  na_dead : forall t, valid s t -> dead st' t = negb (bool_decide (t ∈ ins)) && dead md t;
  na_mem : st'.(mem_temps) = md.(mem_temps)
}.

Lemma notes_of call outs ins st md st1 da1 sa st' da :
  la_outputs 0 outs st 0 0 = (st1, da1, sa) -> la_inputs call (Z.of_nat (length outs)) ins md da1 = (st', da) ->
  sized s st -> sized s md -> Forall (valid s) outs -> Forall (valid s) ins -> NoDup outs ->
  (length outs <= 8)%nat -> (length outs + length ins <= 16)%nat -> noted_args outs ins st md st' da sa.
Proof.
  intros E1 E2 Hs Hm Ho Hi Hnd H8 H16.
  destruct (outputs_notes outs 0 st 0 0 st1 da1 sa E1 Hs Ho Hnd) as (_ & O2 & O3); [lia|lia|].
  destruct (inputs_notes call ins _ md da1 st' da E2 Hm Hi) as (I1 & I2); [lia|lia|].
  destruct (inputs_spec s Hglobals Hmax call ins (Z.of_nat (length outs)) md da1 Hm Hi) as (Hs' & Em & Hd).
  rewrite E2 in Hs', Em, Hd. cbn [fst] in *. split; try done.
  - intros k t Hk. pose proof (lookup_lt_Some _ _ _ Hk). destruct (O3 k t Hk) as [D1 D2]. rewrite Z.bits_0, Z.add_0_l in D1, D2.
    unfold IS_DEAD_ARG, NEED_SYNC_ARG. rewrite I1 by lia. by rewrite D1, D2.
  - intros n t Hn. pose proof (lookup_lt_Some _ _ _ Hn). unfold IS_DEAD_ARG. rewrite Nat2Z.inj_add, (I2 n t Hn).
    rewrite O2, Z.bits_0 by lia. done.
Qed.


(** The analysis behind the outputs, and behind the globals. *)
Lemma outputs_at outs st t :
  sized s st -> Forall (valid s) outs -> valid s t ->
  dead (la_outputs 0 outs st 0 0).1.1 t = bool_decide (t ∈ outs) || dead st t /\
  mem (la_outputs 0 outs st 0 0).1.1 t = negb (bool_decide (t ∈ outs)) && mem st t.
Proof.
  intros Hs Ho Vt. case_bool_decide as Ht.
  - by destruct (outputs_dead outs 0 st 0 0 t Hs Ho Ht) as [-> ->].
  - edestruct (outputs_spec s outs 0 st) as [_ H]; [done|done|]. by destruct (H t Vt Ht) as [-> ->].
Qed.

Lemma mid_sized flags outs st : sized s st -> Forall (valid s) outs -> sized s (la_mid flags outs st).
Proof.
  intros Hs Ho. destruct (outputs_spec s outs 0 st 0 0 Hs Ho) as [Hs1 _]. unfold la_mid.
  destruct (testb flags TCG_OPF_BB_END); [by apply sized_bb_end|].
  destruct (testb flags TCG_OPF_SIDE_EFFECTS); [|done]. destruct Hs1. split; [done|]. by apply length_set_globals.
Qed.

Lemma mid_at flags outs st t :
  sized s st -> Forall (valid s) outs -> valid s t -> testb flags TCG_OPF_BB_END = false ->
  dead (la_mid flags outs st) t = bool_decide (t ∈ outs) || dead st t /\
  mem (la_mid flags outs st) t =
    (testb flags TCG_OPF_SIDE_EFFECTS && (t <? s.(nb_globals))) || (negb (bool_decide (t ∈ outs)) && mem st t).
Proof.
  intros Hs Ho Vt Hb. destruct (outputs_at outs st t Hs Ho Vt) as [E1 E2].
  destruct (outputs_spec s outs 0 st 0 0 Hs Ho) as [[_ Hs1] _]. unfold la_mid. rewrite Hb.
  destruct (testb flags TCG_OPF_SIDE_EFFECTS); [|done]. cbn [dead_temps mem_temps]. split; [done|].
  rewrite tget_globals by done. destruct (t <? nb_globals s); [done|]. by rewrite E2.
Qed.

Lemma la_keep_notes flags outs ins st st' x :
  la_keep s flags outs ins st = (st', x) -> sized s st -> Forall (valid s) outs -> Forall (valid s) ins -> NoDup outs ->
  (length outs <= 8)%nat -> (length outs + length ins <= 16)%nat ->
  exists da sa, x = Some (da, sa) /\ noted_args outs ins st (la_mid flags outs st) st' da sa.
Proof.
  intros E Hs Ho Hi Hnd H8 H16. unfold la_keep in E. destruct (la_outputs 0 outs st 0 0) as [[st1 da1] sa] eqn:E1.
  pose proof (mid_sized flags outs st Hs Ho) as Hm.
  assert (la_mid flags outs st = (if testb flags TCG_OPF_BB_END then tcg_la_bb_end s
    else if testb flags TCG_OPF_SIDE_EFFECTS then mkLa st1.(dead_temps) (set_globals s true st1.(mem_temps)) else st1)) as Em
    by (unfold la_mid; by rewrite E1).
  rewrite <- Em in E. destruct (la_inputs false _ ins _ da1) as [st2 da] eqn:E2. injection E as <- <-.
  exists da, sa. split; [done|]. by eapply notes_of.
Qed.

Lemma bb_end_at t : valid s t -> dead (tcg_la_bb_end s) t = true /\ mem (tcg_la_bb_end s) t = survives s t.
Proof.
  intros Vt. unfold tcg_la_bb_end. cbn [dead_temps mem_temps]. unfold valid, nb_temps in Vt. split.
  - unfold tget. apply list_lookup_total_correct, lookup_replicate. lia.
  - rewrite tget_globals by (done || apply length_fmap). unfold survives. destruct (t <? nb_globals s); [done|]. cbn.
    unfold tget. destruct (lookup_lt_is_Some_2 s.(temps) (Z.to_nat t)) as [y Hy]; [lia|].
    by rewrite !list_lookup_total_alt, list_lookup_fmap, Hy.
Qed.

(** ** Calls *)

Definition la_mid_call (flags : Z) (outs : list Z) (st : la_state) : la_state :=
  let st1 := (la_outputs 0 outs st 0 0).1.1 in
  let st2 := if testb flags TCG_CALL_NO_READ_GLOBALS then st1 else mkLa st1.(dead_temps) (set_globals s true st1.(mem_temps)) in
  if testb flags (Z.lor TCG_CALL_NO_WRITE_GLOBALS TCG_CALL_NO_READ_GLOBALS) then st2
  else mkLa (set_globals s true st2.(dead_temps)) st2.(mem_temps).

Lemma mid_call_sized flags outs st : sized s st -> Forall (valid s) outs -> sized s (la_mid_call flags outs st).
Proof.
  intros Hs Ho. destruct (outputs_spec s outs 0 st 0 0 Hs Ho) as [[Hs1 Hs2] _]. unfold la_mid_call.
  destruct (testb flags TCG_CALL_NO_READ_GLOBALS), (testb flags (Z.lor _ _)); split; cbn [dead_temps mem_temps];
    rewrite ?length_set_globals; done.
Qed.

Lemma mid_call_at flags outs st t :
  sized s st -> Forall (valid s) outs -> valid s t ->
  dead (la_mid_call flags outs st) t =
    (negb (testb flags (Z.lor TCG_CALL_NO_WRITE_GLOBALS TCG_CALL_NO_READ_GLOBALS)) && (t <? s.(nb_globals))) ||
    (bool_decide (t ∈ outs) || dead st t) /\
  mem (la_mid_call flags outs st) t =
    (negb (testb flags TCG_CALL_NO_READ_GLOBALS) && (t <? s.(nb_globals))) || (negb (bool_decide (t ∈ outs)) && mem st t).
Proof.
  intros Hs Ho Vt. destruct (outputs_at outs st t Hs Ho Vt) as [E1 E2].
  destruct (outputs_spec s outs 0 st 0 0 Hs Ho) as [[Hs0 Hs1] _]. rewrite <- E1, <- E2. unfold la_mid_call.
  destruct (testb flags TCG_CALL_NO_READ_GLOBALS), (testb flags (Z.lor _ _)); cbn [dead_temps mem_temps negb andb orb];
    rewrite ?tget_globals by done; split; destruct (t <? nb_globals s); done.
Qed.

Lemma la_keep_call_notes flags outs ins st st' x :
  la_keep_call s flags outs ins st = (st', x) -> sized s st -> Forall (valid s) outs -> Forall (valid s) ins -> NoDup outs ->
  (length outs <= 8)%nat -> (length outs + length ins <= 16)%nat ->
  exists da sa, x = Some (da, sa) /\ noted_args outs ins st (la_mid_call flags outs st) st' da sa.
Proof.
  intros E Hs Ho Hi Hnd H8 H16. unfold la_keep_call in E. destruct (la_outputs 0 outs st 0 0) as [[st1 da1] sa] eqn:E1.
  pose proof (mid_call_sized flags outs st Hs Ho) as Hm. unfold la_mid_call. unfold la_mid_call in Hm. rewrite E1 in Hm |- *.
  cbn [fst] in *. cbv zeta in Hm. cbv zeta. destruct (la_inputs true _ ins _ da1) as [st2 da] eqn:E2. injection E as <- <-.
  exists da, sa. split; [done|]. by eapply notes_of.
Qed.
End Notes.
