(* ===== verification/RegAllocTrack.v ===== *)
(** * What a block has to be like for the register allocator

    The operations that the liveness analysis leaves, with their notes; and an
    executable check of the operations from the start of the block on: a temporary
    is written before it is read, outputs are different from each other and not in
    fixed registers, no constant is moved, and no temporary is both the lower word of
    the first and the upper word of the second operand of add2 or sub2.  The translator and the optimizer
    produce such blocks. *)

From S2P Require Import Prelude QtraceDefs X86 TcgOut TcgEnc TcgEmit TcgCond TcgOpDefs TcgSem TcgIR.
From S2P Require Import Optimize OptCopies OptSound OptRound OptProgram Liveness LivenessSound InstrCall Prologue RegAlloc RegAllocLogic.
From S2P Require Import LinearCode RegAllocSpill RegAllocOps RegAllocStep RegAllocTable RegAllocInsn RegAllocMov RegAllocCall RegAllocNotes.

(** ** Operations with notes *)

Definition nop_like (op : TCGOpcode) : bool :=
  match op with
  | INDEX_op_debug_insn_start | INDEX_op_nop | INDEX_op_nop1 | INDEX_op_nop2 | INDEX_op_nop3 | INDEX_op_nopn => true
  | _ => false
  end.

(** The operations with outputs and inputs as the table has them. *)
Definition stays (op : TCGOpcode) : bool :=
  match op with INDEX_op_discard | INDEX_op_call => false | _ => negb (nop_like op) end.

Section Noted.
Context (s : tcg_temps).
Hypothesis Hglobals : 0 <= s.(nb_globals) <= nb_temps s.
Hypothesis Hmax : nb_temps s <= TCG_MAX_TEMPS.

Local Abbreviation dead st t := (tget (dead_temps st) t).
Local Abbreviation mem st t := (tget (mem_temps st) t).

Definition discarded (t : Z) (st : la_state) : la_state :=
  mkLa (tset t true st.(dead_temps)) (tset t false st.(mem_temps)).

(** The operation, its note, and the analysis after and before it. *)
Inductive noted_insn (i : insn) : noted -> la_state -> la_state -> Prop :=
  | nt_skip x st : nop_like i.(opc) = true -> noted_insn i x st st
  | nt_discard x st t : shape s i = true -> i = mkInsn INDEX_op_discard [t] -> noted_insn i x st (discarded t st)
  | nt_keep x st st' :
      shape s i = true -> stays i.(opc) = true -> la_keep s (op_flags i.(opc)) (oargs i) (iargs i) st = (st', x) ->
      (forall t, i.(opc) = INDEX_op_mov t -> forallb (unused st) (oargs i) = false) -> noted_insn i x st st'
  | nt_call x st st' :
      shape s i = true -> i.(opc) = INDEX_op_call -> la_keep_call s (call_flags i) (oargs i) (iargs i) st = (st', x) ->
      noted_insn i x st st'.

Inductive la_noted : list insn -> list noted -> la_state -> Prop :=
  | no_end : la_noted [] [] (tcg_la_func_end s)
  | no_insn i x p xs st st' : la_noted p xs st -> noted_insn i x st st' -> la_noted (i :: p) (x :: xs) st'.

Lemma set_nop_like a : nop_like (tcg_set_nop a).(opc) = true.
Proof. by destruct a. Qed.

Lemma noted_rest q q' xs st : la_noted q xs st -> same_rest q q' -> la_noted q' xs st.
Proof.
  intros H [->|(m & r & a & -> & Hm & ->)]; [done|]. inversion H as [|? x ? xs' st0 ? Hr Hi]; subst.
  econstructor; [exact Hr|]. inversion Hi as [? ? Hn|? ? ? ? Eq|? ? ? _ Hs|? ? ? _ Hc]; subst.
  - apply nt_skip, set_nop_like.
  - done.
  - by rewrite Hm in Hs.
  - by rewrite Hm in Hc.
Qed.

Definition la_noted_ok (i : insn) (q : list insn) (st : la_state) (x : res la_result) : Prop :=
  forall i' q' st' y, x = Ok (i', q', st', y) -> noted_insn i' y st st' /\ same_rest q q'.

Lemma noted_removed i q st : la_noted_ok i q st (la_remove i q st).
Proof. intros i' q' st' y [= <- <- <- <-]. split; [apply nt_skip, set_nop_like|by left]. Qed.

Lemma noted_kept i q st :
  shape s i = true -> stays i.(opc) = true -> (forall t, i.(opc) = INDEX_op_mov t -> forallb (unused st) (oargs i) = false) ->
  la_noted_ok i q st (let '(st, x) := la_keep s (op_flags i.(opc)) (oargs i) (iargs i) st in Ok (i, q, st, x)).
Proof.
  intros Hs Hst Hm i' q' st' y. destruct (la_keep _ _ _ _ _) as [st1 x] eqn:E. intros [= <- <- <- <-].
  split; [by apply nt_keep|by left].
Qed.

Lemma noted_default i q st : shape s i = true -> stays i.(opc) = true -> la_noted_ok i q st (la_default s i q st).
Proof.
  intros Hs Hst. unfold la_default. destruct (negb (testb _ _) && _ && _) eqn:Er; [apply noted_removed|].
  apply noted_kept; [done..|]. intros t Et. rewrite Et in Er. destruct t; cbn in Er |- *; done.
Qed.

Lemma noted_nop i q st : nop_like i.(opc) = true -> la_noted_ok i q st (la_default s i q st).
Proof.
  intros Hn. assert (la_default s i q st = Ok (i, q, st, Some (0, 0))) as ->.
  { unfold la_default, oargs, iargs. destruct i as [[] a]; try discriminate Hn; done. }
  intros i' q' st' y [= <- <- <- <-]. split; [by apply nt_skip|by left].
Qed.

Lemma noted_narrow i i' left q st :
  shape s i' = true -> stays i'.(opc) = true -> (forall t, i'.(opc) <> INDEX_op_mov t) ->
  op_flags i'.(opc) = op_flags i.(opc) -> oargs i' = take 1 i'.(args) -> iargs i' = drop 1 i'.(args) ->
  la_noted_ok i q st (la_narrow s (op_flags i.(opc)) i' left q st).
Proof.
  intros Hs Hst Hm Hf Ho Hi j q' st' y. unfold la_narrow. destruct q as [|m q]; [done|].
  case_bool_decide as En; [|done]. cbn [guard_res mbind res_bind]. rewrite <- Ho, <- Hi, <- Hf.
  destruct (la_keep _ _ _ _ _) as [st1 x] eqn:E. intros [= <- <- <- <-]. split; [|right; by exists m, q, left].
  apply nt_keep; [done..|]. intros t Et. by destruct (Hm t).
Qed.

(** The single-word operation in place of a double-word one. *)
Lemma shape_addsub2 (sub : bool) t a :
  shape s (mkInsn (sum2_opc sub t) a) = true ->
  shape s (mkInsn (if sub then INDEX_op_sub t else INDEX_op_add t) [arg a 0; arg a 2; arg a 4]) = true.
Proof.
  intros Hs. assert (length a = 6%nat) as Hl.
  { pose proof (sh_length _ _ (shape_shaped _ _ Hs)) as Hl. cbn [args] in Hl. rewrite Hl. by destruct sub, t. }
  destruct a as [|a0 [|a1 [|a2 [|a3 [|a4 [|a5 []]]]]]]; try discriminate Hl. revert Hs.
  destruct sub, t; cbv -[valid_temp has_type]; by repeat (case_match; try done).
Qed.

Lemma shape_mul2 (signed : bool) t a :
  shape s (mkInsn (mul2_opc signed t) a) = true -> shape s (mkInsn (INDEX_op_mul t) [arg a 0; arg a 2; arg a 3]) = true.
Proof.
  intros Hs. assert (length a = 4%nat) as Hl.
  { pose proof (sh_length _ _ (shape_shaped _ _ Hs)) as Hl. cbn [args] in Hl. rewrite Hl. by destruct signed, t. }
  destruct a as [|a0 [|a1 [|a2 [|a3 []]]]]; try discriminate Hl. revert Hs.
  destruct signed, t; cbv -[valid_temp has_type]; by repeat (case_match; try done).
Qed.

Lemma noted_addsub2 (sub : bool) t a q st :
  let i := mkInsn (sum2_opc sub t) a in
  shape s i = true -> la_noted_ok i q st (la_addsub2 s i (if sub then INDEX_op_sub t else INDEX_op_add t) q st).
Proof.
  intros i Hs. unfold la_addsub2.
  assert (forall op, i.(opc) = INDEX_op_mov op -> False) as Hm by (intros op; unfold i; by destruct sub).
  destruct (unused st (arg i.(args) 1)); [destruct (unused st (arg i.(args) 0)); [apply noted_removed|]|].
  - apply noted_narrow; [by apply shape_addsub2|by destruct sub|by destruct sub|unfold i; by destruct sub, t|by destruct sub..].
  - apply noted_kept; [done|unfold i; by destruct sub|]. intros op Eo. by destruct (Hm op).
Qed.

Lemma noted_mul2 (signed : bool) t a op_new2 q st :
  let i := mkInsn (mul2_opc signed t) a in
  shape s i = true -> la_noted_ok i q st (la_mul2 s i (INDEX_op_mul t) op_new2 false q st).
Proof.
  intros i Hs. unfold la_mul2.
  assert (forall op, i.(opc) = INDEX_op_mov op -> False) as Hm by (intros op; unfold i; by destruct signed).
  destruct (unused st (arg i.(args) 1)); [destruct (unused st (arg i.(args) 0)); [apply noted_removed|]|].
  - apply noted_narrow; [by apply (shape_mul2 signed)|done|done|unfold i; by destruct signed, t|done..].
  - apply noted_kept; [done|unfold i; by destruct signed|]. intros op Eo. by destruct (Hm op).
Qed.

Lemma noted_la_insn i q st : shape s i = true -> la_noted_ok i q st (la_insn s i q st).
Proof.
  intros Hs. pose proof (noted_default i q st Hs) as Hd. pose proof (noted_nop i q st) as Hn.
  pose proof (sh_host _ _ (shape_shaped _ _ Hs)) as Hh. pose proof (sh_length _ _ (shape_shaped _ _ Hs)) as Hl.
  unfold la_insn. destruct i as [op a]. cbn [opc] in *.
  assert (forall x, nop_like op = true -> la_noted_ok (mkInsn op a) q st (Ok (mkInsn op a, q, st, x))) as Hsame.
  { intros x Hx i' q' st' y [= <- <- <- <-]. split; [by apply nt_skip|by left]. }
  destruct op; try (by apply Hd); try (by apply Hn); try (by apply Hsame); try discriminate Hh.
  - destruct a as [|t []]; try discriminate Hl. intros i' q' st' y [= <- <- <- <-]. split; [|by left]. by eapply nt_discard.
  - unfold la_call. destruct (testb _ _ && _); [apply noted_removed|]. intros i' q' st' y.
    destruct (la_keep_call _ _ _ _ _) as [st1 x] eqn:E. intros [= <- <- <- <-]. split; [by apply nt_call|by left].
  - by apply (noted_mul2 false).
  - by apply (noted_mul2 true).
  - by apply (noted_addsub2 false).
  - by apply (noted_addsub2 true).
Qed.

Lemma la_insns_noted p : forall q xs st,
  Forall (fun i => shape s i = true) p -> la_insns s p = Ok (q, xs, st) -> la_noted q xs st.
Proof.
  induction p as [|i p IH]; intros q xs st Hs E; cbn [la_insns] in E.
  { injection E as <- <- <-. constructor. }
  apply Forall_cons in Hs as [Hi Hs]. destruct (la_insns s p) as [[[q1 xs1] st1]|] eqn:E1; [|done]. cbn in E.
  destruct (la_insn s i q1 st1) as [[[[i' q2] st2] x]|] eqn:E2; [|done]. cbn in E. injection E as <- <- <-.
  destruct (noted_la_insn i q1 st1 Hi _ _ _ _ E2) as [Hn Hr]. econstructor; [|exact Hn].
  eapply noted_rest; [|exact Hr]. by apply IH.
Qed.

(** ** The check *)

(** The temporaries that are written, and those that can be known constants. *)
Record track := mkTrack { tr_written : Z -> bool; tr_const : Z -> bool }.

Definition mark (ts : list Z) (b : bool) (g : Z -> bool) (t : Z) : bool := if bool_decide (t ∈ ts) then b else g t.

Definition start_track : track := mkTrack (fun _ => false) (fun _ => false).

Definition writes_globals (i : insn) : bool :=
  negb (testb (call_flags i) (Z.lor TCG_CALL_NO_WRITE_GLOBALS TCG_CALL_NO_READ_GLOBALS)).

Definition track_insn (i : insn) (tr : track) : track :=
  let outs := oargs i in
  match i.(opc) with
  | INDEX_op_movi _ => mkTrack (mark outs true tr.(tr_written)) (mark outs true tr.(tr_const))
  | INDEX_op_discard => mkTrack (mark outs false tr.(tr_written)) (mark outs false tr.(tr_const))
  | INDEX_op_call =>
      mkTrack (mark outs true tr.(tr_written))
        (fun t => negb (writes_globals i && (t <? s.(nb_globals))) && mark outs false tr.(tr_const) t)
  | op =>
      if nop_like op then tr
      else if bb_end op then mkTrack (fun t => survives s t && tr.(tr_written) t) (fun _ => false)
      else mkTrack (mark outs true tr.(tr_written)) (mark outs false tr.(tr_const))
  end.

Context (gl : list ra_temp).

Definition in_fixed_reg (t : Z) : bool := (t <? s.(nb_globals)) && (tget gl t).(fixed_reg).

Definition check_insn (i : insn) (tr : track) : bool :=
  nop_like i.(opc) ||
  forallb (fun t => (t <? s.(nb_globals)) || tr.(tr_written) t) (iargs i) &&
  bool_decide (NoDup (oargs i)) && forallb (fun t => negb (in_fixed_reg t)) (oargs i) &&
  match i.(opc) with
  | INDEX_op_mov _ => negb (tr.(tr_const) (arg i.(args) 1)) && negb (arg i.(args) 0 =? arg i.(args) 1)
  | INDEX_op_call =>
      (length (oargs i) <=? 1)%nat && (1 <=? length (iargs i))%nat && (length (oargs i) + length (iargs i) <=? 16)%nat
  | INDEX_op_add2 _ | INDEX_op_sub2 _ => negb (arg i.(args) 2 =? arg i.(args) 5)
  | _ => true
  end.

Fixpoint alloc_check (p : list insn) (tr : track) : bool :=
  match p with
  | [] => true
  | i :: p => check_insn i tr && alloc_check p (track_insn i tr)
  end.

(** The same as propositions. *)
Record checked (i : insn) (tr : track) : Prop := {
  ch_read : forall t, t ∈ iargs i -> s.(nb_globals) <= t -> tr.(tr_written) t = true;
  ch_distinct : NoDup (oargs i);
  ch_fixed : forall t, t ∈ oargs i -> in_fixed_reg t = false;
  ch_mov : forall ty, i.(opc) = INDEX_op_mov ty -> tr.(tr_const) (arg i.(args) 1) = false /\ arg i.(args) 0 <> arg i.(args) 1;
  ch_call : i.(opc) = INDEX_op_call ->
    (length (oargs i) <= 1)%nat /\ (1 <= length (iargs i))%nat /\ (length (oargs i) + length (iargs i) <= 16)%nat;
  ch_words : two_steps i.(opc) = true -> arg i.(args) 2 <> arg i.(args) 5
}.

Lemma check_checked i tr : check_insn i tr = true -> nop_like i.(opc) = false -> checked i tr.
Proof.
  unfold check_insn. intros H Hn. rewrite Hn, orb_false_l, !andb_true_iff, !forallb_forall in H. destruct H as [[[H1 H2] H3] H4]. split.
  - intros t Ht Hg. apply list_elem_of_In, H1, orb_true_iff in Ht as [Ht|Ht]; [lia|done].
  - by apply bool_decide_eq_true in H2.
  - intros t Ht. by apply negb_true_iff, H3, list_elem_of_In.
  - intros ty Et. rewrite Et in H4. apply andb_true_iff in H4 as [H4%negb_true_iff H5%negb_true_iff]. by apply Z.eqb_neq in H5.
  - intros Et. rewrite Et in H4. lia.
  - intros Et. apply Z.eqb_neq, negb_true_iff. by destruct (opc i).
Qed.

(** ** States of the analysis *)

Record la_wf (st : la_state) : Prop := {
  lw_sized : sized s st;
  lw_mem : forall t, valid s t -> mem st t = true -> survives s t = true
}.

Lemma global_survives t : t < s.(nb_globals) -> survives s t = true.
Proof. intros H. unfold survives. by rewrite (proj2 (Z.ltb_lt _ _) H). Qed.

Lemma op_counts op : stays op = true -> (nb_oargs op <= 2)%nat /\ (nb_iargs op <= 5)%nat.
Proof. intros H. destruct op; try match goal with t : TCGType |- _ => destruct t end; try discriminate H; cbn; lia. Qed.

Lemma counts i : i.(opc) <> INDEX_op_call ->
  (length (oargs i) <= nb_oargs i.(opc))%nat /\ (length (iargs i) <= nb_iargs i.(opc))%nat.
Proof.
  intros Hc. unfold oargs, iargs. destruct i as [op a]. cbn [opc args] in *.
  destruct op; try done; rewrite !length_take; split; apply Nat.le_min_l.
Qed.

Lemma kept_notes i x st st' tr :
  shape s i = true -> stays i.(opc) = true -> la_keep s (op_flags i.(opc)) (oargs i) (iargs i) st = (st', x) ->
  checked i tr -> sized s st ->
  exists da sa, x = Some (da, sa) /\
    noted_args s (oargs i) (iargs i) st (la_mid s (op_flags i.(opc)) (oargs i) st) st' da sa.
Proof.
  intros Hs Hst Ek Hch Hsz. pose proof (shape_shaped _ _ Hs) as Hsh. destruct (op_counts _ Hst) as [H1 H2].
  destruct (counts i) as [H3 H4]; [intros Ec; by rewrite Ec in Hst|].
  eapply la_keep_notes; [done|done|exact Ek|done|apply Hsh|apply Hsh|apply Hch|lia|lia].
Qed.

Lemma called_notes i x st st' tr :
  shape s i = true -> i.(opc) = INDEX_op_call -> la_keep_call s (call_flags i) (oargs i) (iargs i) st = (st', x) ->
  checked i tr -> sized s st ->
  exists da sa, x = Some (da, sa) /\
    noted_args s (oargs i) (iargs i) st (la_mid_call s (call_flags i) (oargs i) st) st' da sa.
Proof.
  intros Hs Hc Ek Hch Hsz. pose proof (shape_shaped _ _ Hs) as Hsh. destruct (ch_call _ _ Hch Hc) as (H1 & _ & H3).
  eapply la_keep_call_notes; [done|done|exact Ek|done|apply Hsh|apply Hsh|apply Hch|lia|lia].
Qed.

Lemma noted_wf i x st st' tr : noted_insn i x st st' -> check_insn i tr = true -> la_wf st -> la_wf st'.
Proof.
  intros Hn Hc [Hsz Hm]. destruct Hn as [x st Hnop|x st t Hs ->|x st st' Hs Hst Ek _|x st st' Hs Hcall Ek].
  - done.
  - pose proof (sh_outputs _ _ (shape_shaped _ _ Hs)) as Hv. apply Forall_cons in Hv as [Vt _]. destruct Hsz as [S1 S2].
    split; [split; cbn; by rewrite length_tset|]. intros u Vu. cbn [discarded mem_temps]. rewrite (tget_set s) by done.
    destruct (u =? t); [done|by apply Hm].
  - assert (nop_like i.(opc) = false) as Hnl by (destruct i as [[] a]; done).
    destruct (kept_notes i x st st' tr Hs Hst Ek (check_checked _ _ Hc Hnl) Hsz) as (da & sa & _ & [N1 _ _ _ N5]).
    split; [done|]. intros t Vt. rewrite N5. pose proof (sh_outputs _ _ (shape_shaped _ _ Hs)) as Ho.
    destruct (testb (op_flags i.(opc)) TCG_OPF_BB_END) eqn:Hb.
    + unfold la_mid. rewrite Hb. by destruct (bb_end_at s t Vt) as [_ ->].
    + destruct (mid_at s (op_flags i.(opc)) (oargs i) st t Hsz Ho Vt Hb) as [_ ->].
      rewrite orb_true_iff, !andb_true_iff, Z.ltb_lt. intros [[_ H]|[_ H]]; [by apply global_survives|by apply Hm].
  - assert (nop_like i.(opc) = false) as Hnl by (by rewrite Hcall).
    destruct (called_notes i x st st' tr Hs Hcall Ek (check_checked _ _ Hc Hnl) Hsz) as (da & sa & _ & [N1 _ _ _ N5]).
    split; [done|]. intros t Vt. rewrite N5. pose proof (sh_outputs _ _ (shape_shaped _ _ Hs)) as Ho.
    destruct (mid_call_at s (call_flags i) (oargs i) st t Hsz Ho Vt) as [_ ->].
    rewrite orb_true_iff, !andb_true_iff, Z.ltb_lt. intros [[_ H]|[_ H]]; [by apply global_survives|by apply Hm].
Qed.

Lemma func_end_wf : la_wf (tcg_la_func_end s).
Proof.
  split; [by apply sized_func_end|]. intros t Vt. unfold tcg_la_func_end. cbn [mem_temps].
  rewrite tget_globals by (done || apply length_replicate). destruct (Z.ltb_spec t (nb_globals s)); [by intros _; apply global_survives|].
  unfold tget. destruct Vt. rewrite lookup_total_replicate_2; [done|]. unfold nb_temps in *. lia.
Qed.

Lemma la_noted_wf p xs st : la_noted p xs st -> forall tr, alloc_check p tr = true -> la_wf st.
Proof.
  induction 1 as [|i x p xs st st' _ IH Hn]; intros tr Hc; [apply func_end_wf|].
  cbn [alloc_check] in Hc. apply andb_true_iff in Hc as [Hi Hc]. eapply noted_wf; [exact Hn|exact Hi|]. by eapply IH.
Qed.

(** A temporary that lives only in its basic block is written before it is read. *)
Definition plain_written (st : la_state) (tr : track) : Prop :=
  forall t, valid s t -> survives s t = false -> dead st t = false -> tr.(tr_written) t = true.

Lemma plain_global t : survives s t = false -> s.(nb_globals) <= t.
Proof. unfold survives. intros [H _]%orb_false_iff. lia. Qed.

Lemma track_kept op i tr : i.(opc) = op -> stays op = true -> bb_end op = false ->
  forall t, (track_insn i tr).(tr_written) t = mark (oargs i) true tr.(tr_written) t.
Proof. intros <- Hs Hb t. unfold track_insn. destruct (opc i); try discriminate Hs; try (by rewrite Hb); done. Qed.

Lemma written_step i x st st' tr :
  noted_insn i x st st' -> check_insn i tr = true -> la_wf st -> plain_written st (track_insn i tr) -> plain_written st' tr.
Proof.
  intros Hn Hc [Hsz _] Hw t Vt Hp. pose proof (plain_global t Hp) as Hg.
  destruct Hn as [x st Hnop|x st u Hs ->|x st st' Hs Hst Ek _|x st st' Hs Hcall Ek].
  - specialize (Hw t Vt Hp). unfold track_insn in Hw. by destruct (opc i); try discriminate Hnop.
  - pose proof (sh_outputs _ _ (shape_shaped _ _ Hs)) as Hv. apply Forall_cons in Hv as [Vu _]. destruct Hsz as [S1 S2].
    cbn [discarded dead_temps]. rewrite (tget_set s) by done. destruct (Z.eqb_spec t u) as [->|Hne]; [done|]. intros Hd.
    specialize (Hw t Vt Hp Hd). cbn in Hw. unfold mark in Hw. rewrite bool_decide_false in Hw; [done|]. by intros ?%list_elem_of_singleton.
  - assert (nop_like i.(opc) = false) as Hnl by (destruct i as [[] a]; done). pose proof (check_checked _ _ Hc Hnl) as Hch.
    destruct (kept_notes i x st st' tr Hs Hst Ek Hch Hsz) as (da & sa & _ & [_ _ _ N4 _]). rewrite N4 by done.
    pose proof (sh_outputs _ _ (shape_shaped _ _ Hs)) as Ho. case_bool_decide as Hin; [intros _; by apply (ch_read _ _ Hch)|].
    cbn [negb andb]. destruct (bb_end i.(opc)) eqn:Hb.
    + unfold la_mid. unfold bb_end in Hb. rewrite Hb. by destruct (bb_end_at s t Vt) as [-> _].
    + destruct (mid_at s (op_flags i.(opc)) (oargs i) st t Hsz Ho Vt Hb) as [-> _].
      intros [Hno%bool_decide_eq_false Hd]%orb_false_iff. specialize (Hw t Vt Hp Hd).
      rewrite (track_kept (opc i)) in Hw by done. unfold mark in Hw. by rewrite bool_decide_false in Hw.
  - assert (nop_like i.(opc) = false) as Hnl by (by rewrite Hcall). pose proof (check_checked _ _ Hc Hnl) as Hch.
    destruct (called_notes i x st st' tr Hs Hcall Ek Hch Hsz) as (da & sa & _ & [_ _ _ N4 _]). rewrite N4 by done.
    pose proof (sh_outputs _ _ (shape_shaped _ _ Hs)) as Ho. case_bool_decide as Hin; [intros _; by apply (ch_read _ _ Hch)|].
    cbn [negb andb]. destruct (mid_call_at s (call_flags i) (oargs i) st t Hsz Ho Vt) as [-> _].
    intros [_ [Hno%bool_decide_eq_false Hd]%orb_false_iff]%orb_false_iff. specialize (Hw t Vt Hp Hd). unfold track_insn in Hw.
    rewrite Hcall in Hw. cbn [tr_written] in Hw. unfold mark in Hw. by rewrite bool_decide_false in Hw.
Qed.

Lemma live_written p xs st : la_noted p xs st -> forall tr, alloc_check p tr = true -> plain_written st tr.
Proof.
  induction 1 as [|i x p xs st st' Hp IH Hn]; intros tr Hc.
  - intros t Vt _. unfold tcg_la_func_end, tget. cbn [dead_temps]. destruct Vt.
    rewrite lookup_total_replicate_2; [done|]. unfold nb_temps in *. lia.
  - cbn [alloc_check] in Hc. apply andb_true_iff in Hc as [Hi Hc]. eapply written_step; [exact Hn|done|by eapply la_noted_wf|by apply IH].
Qed.
End Noted.
