(* ===== verification/RegAllocFacts.v ===== *)
(** * The register allocator follows the liveness analysis

    With the notes of the liveness analysis, every operation of a checked block
    fulfils what the register allocator needs of it, and the state that it leaves
    agrees with the analysis behind the operation. *)

From S2P Require Import Prelude QtraceDefs X86 TcgOut TcgEnc TcgEmit TcgCond TcgOpDefs TcgSem TcgIR.
From S2P Require Import Optimize OptCopies OptSound OptRound OptProgram Liveness LivenessSound InstrCall Prologue RegAlloc RegAllocLogic.
From S2P Require Import LinearCode RegAllocSpill RegAllocOps RegAllocStep RegAllocTable RegAllocInsn RegAllocMov RegAllocCall RegAllocNotes.
From S2P Require Import RegAllocSim RegAllocTrack.

Section Facts.
Context (s : tcg_temps) (frame : tcg_frame) (M : Z -> option (Z * Z)) (gl : list ra_temp).
Context {Hset : setting s frame reserved M}.

Local Abbreviation ts_of σ t := (tget (ra_temps σ) t).
Local Abbreviation ra_inv := (ra_inv s frame reserved).
Local Abbreviation values := (values s M).
Local Abbreviation dead st t := (tget (dead_temps st) t).
Local Abbreviation mem st t := (tget (mem_temps st) t).

(** ** Weaker facts *)

(** Less is known: a temporary that is in memory may be used again. *)
Record weaker_at (f f' : facts) (t : Z) : Prop := {
  we_dead : f'.(f_dead) t = f.(f_dead) t \/ f.(f_dead) t = true /\ survives s t = true;
  we_mem : f'.(f_mem) t = true -> f.(f_mem) t = true;
  we_used : used_by f' t = true -> used_by f t = true;
  we_written : f'.(f_written) t = true -> f.(f_written) t = true;
  we_const : f.(f_const) t = true -> f'.(f_const) t = true \/ f.(f_dead) t = true
}.
Definition weaker (f f' : facts) : Prop := forall t, valid s t -> weaker_at f f' t.

Lemma used_and f t : used_by f t = true -> f.(f_dead) t && negb (f.(f_mem) t) = false.
Proof. unfold used_by. by intros H%negb_true_iff. Qed.

Lemma inv_weaker f f' σ : weaker f f' -> ra_inv f σ -> ra_inv f' σ.
Proof.
  intros Hw [Hl Hp Hv]. split; [done|done|]. intros t Vt Hf. destruct (Hw t Vt) as [W1 W2 W3 W4 W5].
  destruct (Hv t Vt Hf) as [L1 L2 L3 L4 L5 L6 L7]. split.
  - intros Hd. apply L1. destruct W1 as [<-|[? _]]; done.
  - intros Hd. destruct W1 as [E|[Hd' Hs]]; [apply L2; congruence|]. rewrite L1, Hs by done. done.
  - auto.
  - auto.
  - intros Hu Hm Hw'. apply L5; [|done|auto]. apply used_and, W3. unfold used_by. by rewrite Hu.
  - done.
  - intros Hc. destruct (L7 Hc) as [Hk Hs]. split; [|done]. destruct (W5 Hk) as [|Hd]; [done|].
    pose proof (L1 Hd) as E. rewrite Hc in E. by destruct (survives s t).
Qed.

Lemma values_weaker f f' X v σ h : weaker f f' -> values X f v σ h -> values X f' v σ h.
Proof.
  intros Hw Hv t Vt Ht. destruct (Hv t Vt Ht) as [V1 V2 V3 V4]. split; try done. intros Hm Hu. apply V4; [done|].
  by apply (we_used _ _ _ (Hw t Vt)).
Qed.

(** ** Facts of the analysis *)

Definition facts_of (st : la_state) (tr : track) : facts :=
  mkFacts (fun t => dead st t) (fun t => mem st t) tr.(tr_written) tr.(tr_const).

(** The inputs that die. *)
Lemma dying_at a outs ins st md st' da sa t :
  noted_args s outs ins st md st' da sa -> (forall n u, ins !! n = Some u -> arg a (length outs + n) = u) -> valid s t ->
  bool_decide (t ∈ dying a da (seq (length outs) (length ins))) || dead st' t = dead md t.
Proof.
  intros [_ _ N3 N4 _] Ha Vt. rewrite N4 by done. destruct (dead md t) eqn:Hd.
  - case_bool_decide as H1; [done|]. case_bool_decide as H2; [|done]. exfalso. apply H1.
    apply list_elem_of_split_l in H2 as (l1 & l2 & E & Hn). assert (ins !! length l1 = Some t) as Hl.
    { rewrite E. by apply list_lookup_middle. }
    apply list_elem_of_fmap. exists (length outs + length l1)%nat. split; [by rewrite (Ha _ _ Hl)|].
    apply list_elem_of_In, filter_In. pose proof (lookup_lt_Some _ _ _ Hl). split; [apply in_seq; lia|].
    rewrite (N3 _ _ Hl), Hd, andb_true_r. apply negb_true_iff, bool_decide_eq_false. rewrite E, take_app_length. done.
  - rewrite andb_false_r, orb_false_r. apply bool_decide_eq_false. intros (k & -> & Hk)%list_elem_of_fmap.
    apply list_elem_of_In, filter_In in Hk as [Hk Hb]. apply in_seq in Hk.
    destruct (lookup_lt_is_Some_2 ins (k - length outs)) as [u Hu]; [lia|].
    replace k with (length outs + (k - length outs))%nat in Hb, Hd by lia. rewrite (Ha _ _ Hu) in Hd.
    rewrite (N3 _ _ Hu), Hd, andb_false_r in Hb. done.
Qed.

(** Temporaries that are not in fixed registers. *)
Lemma not_fixed f σ t :
  ra_inv f σ -> fixed_as s gl σ -> valid s t -> in_fixed_reg s gl t = false -> (ts_of σ t).(fixed_reg) = false.
Proof.
  intros [Hl _ _] Hfa Vt Hf. destruct ((ts_of σ t).(fixed_reg)) eqn:E; [|done].
  destruct (ln_fixed _ _ _ Hl t Vt E) as (Hg & _). unfold in_fixed_reg in Hf. rewrite (proj2 (Z.ltb_lt _ _) Hg) in Hf.
  rewrite <- Hfa in Hf; [cbn in Hf; congruence|]. unfold valid in Vt. lia.
Qed.

(** ** Operations *)

Section Op.
Context (i : insn) (st st' : la_state) (da sa : Z) (tr : track).
Hypothesis Hshape : shape s i = true.
Hypothesis Hop : allocated_op i.(opc) = true.
Hypothesis Hchecked : checked s gl i tr.
Hypothesis Hwf : la_wf s st.
Let md := la_mid s (op_flags i.(opc)) (oargs i) st.
Hypothesis Hnoted : noted_args s (oargs i) (iargs i) st md st' da sa.

Local Abbreviation op := (opc i).
Local Abbreviation a := (args i).
Local Abbreviation no := (nb_oargs op).
Local Abbreviation ni := (nb_iargs op).
Local Abbreviation f := (facts_of st' tr).

Lemma op_not_call : op <> INDEX_op_call.
Proof. intros E. rewrite E in Hop. done. Qed.

Lemma op_words : (no + ni <= length a)%nat.
Proof.
  rewrite (sh_length _ _ (shape_shaped _ _ Hshape)). pose proof op_not_call as Hc. unfold words, nb_args. destruct op; try done; lia.
Qed.

Lemma op_args : oargs i = arg a <$> seq 0 no /\ iargs i = arg a <$> seq no ni /\ length (oargs i) = no /\ length (iargs i) = ni.
Proof.
  destruct (insn_args i op_not_call op_words) as (Eo & Ei & _). split; [done|]. split; [done|].
  by rewrite Eo, Ei, !length_fmap, !length_seq.
Qed.

Lemma out_at k : k ∈ seq 0 no -> oargs i !! k = Some (arg a k).
Proof.
  intros Hk%elem_of_seq. destruct op_args as (-> & _). rewrite list_lookup_fmap, lookup_seq_lt by lia. done.
Qed.

Lemma in_at k : k ∈ seq no ni -> iargs i !! (k - no)%nat = Some (arg a k).
Proof.
  intros Hk%elem_of_seq. destruct op_args as (_ & -> & _). rewrite list_lookup_fmap, lookup_seq_lt by lia. cbn.
  do 2 f_equal. lia.
Qed.

Lemma op_outputs t : t ∈ oargs i -> valid s t.
Proof. pose proof (sh_outputs _ _ (shape_shaped _ _ Hshape)) as H. rewrite Forall_forall in H. auto. Qed.
Lemma op_inputs_valid t : t ∈ iargs i -> valid s t.
Proof. pose proof (sh_inputs _ _ (shape_shaped _ _ Hshape)) as H. rewrite Forall_forall in H. auto. Qed.

Lemma read_at t : valid s t -> (read_facts i da f).(f_dead) t = dead md t.
Proof.
  intros Vt. unfold read_facts. cbn. destruct op_args as (_ & Ei & Hlo & Hli). rewrite <- Hlo, <- Hli.
  eapply dying_at; [exact Hnoted| |done]. intros n u Hu. rewrite Ei, list_lookup_fmap in Hu.
  apply fmap_Some in Hu as (k & Hk & ->). apply lookup_seq in Hk as [-> _]. by rewrite Hlo.
Qed.

Lemma md_end : bb_end op = true -> md = tcg_la_bb_end s.
Proof. intros Hb. unfold md, la_mid. unfold bb_end in Hb. by rewrite Hb. Qed.

Lemma md_at t : valid s t -> bb_end op = false ->
  dead md t = bool_decide (t ∈ oargs i) || dead st t /\
  mem md t = (testb (op_flags op) TCG_OPF_SIDE_EFFECTS && (t <? s.(nb_globals))) || (negb (bool_decide (t ∈ oargs i)) && mem st t).
Proof.
  intros Vt Hb. apply mid_at; [apply Hwf| |done|exact Hb]. apply (sh_outputs _ _ (shape_shaped _ _ Hshape)).
Qed.

Lemma ends_without_outputs : bb_end op = true -> no = 0%nat.
Proof. clear -Hop. destruct op; try match goal with t : TCGType |- _ => destruct t end; done. Qed.

Lemma op_dead_outputs t : t ∈ oargs i -> dead md t = true.
Proof.
  intros Ht. pose proof (op_outputs t Ht) as Vt. destruct (bb_end op) eqn:Hb.
  - rewrite md_end by done. by apply bb_end_at.
  - destruct (md_at t Vt Hb) as [-> _]. by rewrite bool_decide_true.
Qed.

Lemma op_mem_globals t : reads_globals op = true -> 0 <= t < s.(nb_globals) -> mem md t = true.
Proof.
  intros Hr Ht. destruct (global_valid s frame reserved M t Ht) as [Vt Hs]. destruct (bb_end op) eqn:Hb.
  - rewrite md_end by done. destruct (bb_end_at s t Vt) as [_ ->]. done.
  - destruct (md_at t Vt Hb) as [_ ->]. unfold reads_globals in Hr. rewrite testb_lor in Hr. unfold bb_end in Hb.
    rewrite Hb, orb_false_l in Hr. by rewrite Hr, (proj2 (Z.ltb_lt t (nb_globals s))) by lia.
Qed.

Lemma op_ok_noted σ : ra_inv f σ -> fixed_as s gl σ -> op_ok s i da sa f σ.
Proof.
  intros Hinv Hfa. pose proof op_args as (Eo & Ei & Hlo & Hli). pose proof Hnoted as [_ N2 N3 N4 N5].
  assert (forall k, k ∈ seq 0 no -> arg a k ∈ oargs i) as Hout by (intros k Hk; by eapply list_elem_of_lookup_2, out_at).
  assert (forall k, k ∈ seq no ni -> arg a k ∈ iargs i) as Hin by (intros k Hk; by eapply list_elem_of_lookup_2, in_at).
  split.
  - exact Hop.
  - exact op_words.
  - intros k Hk. destruct (decide (k < no)%nat) as [Hlt|Hge].
    + apply op_outputs, Hout, elem_of_seq. lia.
    + apply op_inputs_valid, Hin, elem_of_seq. lia.
  - intros k Hk%Hin. cbn. rewrite N4, bool_decide_true by (done || by apply op_inputs_valid). done.
  - intros k Hk%Hin Hg _. by apply (ch_read _ _ _ _ Hchecked).
  - intros j k Hj Hk Hne Hdj Hdk E. pose proof (N3 _ _ (in_at j Hj)) as Ej. pose proof (N3 _ _ (in_at k Hk)) as Ek.
    pose proof (in_at j Hj) as Lj. pose proof (in_at k Hk) as Lk. rewrite elem_of_seq in Hj, Hk. rewrite Hlo in Ej, Ek.
    replace (no + (j - no))%nat with j in Ej by (clear -Hj; lia). replace (no + (k - no))%nat with k in Ek by (clear -Hk; lia).
    rewrite Hdj in Ej. rewrite Hdk in Ek. symmetry in Ej, Ek. apply andb_true_iff in Ej as [Ej%negb_true_iff _], Ek as [Ek%negb_true_iff _].
    apply bool_decide_eq_false in Ej, Ek. destruct (decide (j < k)%nat).
    + apply Ek. rewrite <- E. apply list_elem_of_lookup_2 with (i := (j - no)%nat). apply lookup_take_Some. split; [done|lia].
    + apply Ej. rewrite E. apply list_elem_of_lookup_2 with (i := (k - no)%nat). apply lookup_take_Some. split; [done|lia].
  - rewrite <- Eo. apply Hchecked.
  - intros k Hk%Hout. eapply not_fixed; [done|done|by apply op_outputs|by apply (ch_fixed _ _ _ _ Hchecked)].
  - intros k Hk%Hout. rewrite read_at by (by apply op_outputs). by apply op_dead_outputs.
  - intros k Hk. destruct (N2 _ _ (out_at k Hk)) as [_ ->]. apply (lw_mem _ _ Hwf). by apply op_outputs, Hout.
  - intros Hb. split; [by apply ends_without_outputs|]. intros t Vt. rewrite read_at, md_end by done. by apply bb_end_at.
  - intros Hr t Ht. cbn. rewrite N5. by apply op_mem_globals.
Qed.

(** What is known behind the operation. *)
Lemma after_dead t : valid s t -> bb_end op = false -> (after_facts i da sa f).(f_dead) t = dead st t.
Proof.
  intros Vt Hb. unfold after_facts, settles. cbn [f_dead]. destruct (List.find _ _) as [k|] eqn:Ef.
  - apply List.find_some in Ef as [Hk Ek%Z.eqb_eq]. apply list_elem_of_In in Hk. destruct (na_outs _ _ _ _ _ _ _ _ Hnoted _ _ (out_at k Hk)) as [-> _].
    by rewrite Ek.
  - unfold written_facts. cbn [f_dead revives]. rewrite read_at by done. destruct (md_at t Vt Hb) as [-> _].
    destruct op_args as (<- & _). rewrite bool_decide_false; [done|]. intros Ht. destruct op_args as (Eo & _). rewrite Eo in Ht.
    apply list_elem_of_fmap in Ht as (k & -> & Hk%list_elem_of_In). by eapply List.find_none, Z.eqb_neq in Ef; [|exact Hk].
Qed.

Lemma after_mem t : valid s t -> bb_end op = false -> mem st t = true -> (after_facts i da sa f).(f_mem) t = true.
Proof.
  intros Vt Hb Hm. unfold after_facts, settles. cbn [f_mem]. destruct (List.find _ _) as [k|] eqn:Ef.
  - apply List.find_some in Ef as [Hk Ek%Z.eqb_eq]. apply list_elem_of_In in Hk. destruct (na_outs _ _ _ _ _ _ _ _ Hnoted _ _ (out_at k Hk)) as [_ ->].
    by rewrite Ek.
  - unfold written_facts. cbn [f_mem revives read_facts kills facts_of]. rewrite (na_mem _ _ _ _ _ _ _ _ Hnoted).
    destruct (md_at t Vt Hb) as [_ ->]. destruct op_args as (Eo & _). rewrite <- Eo.
    rewrite bool_decide_false; [cbn [negb andb]; rewrite Hm; apply orb_true_r|]. rewrite Eo.
    intros (k & -> & Hk%list_elem_of_In)%list_elem_of_fmap. by eapply List.find_none, Z.eqb_neq in Ef; [|exact Hk].
Qed.

Lemma written_ended t : valid s t -> bb_end op = true ->
  (written_facts i da f).(f_dead) t = true /\ (written_facts i da f).(f_mem) t = survives s t.
Proof.
  intros Vt Hb. destruct (bb_end_at s t Vt) as [Bd Bm]. unfold written_facts. rewrite (ends_without_outputs Hb).
  cbn [seq revives f_dead f_mem fmap list_fmap]. rewrite bool_decide_false by apply not_elem_of_nil. cbn [negb andb].
  rewrite read_at by done. cbn [read_facts kills f_mem facts_of]. rewrite (na_mem _ _ _ _ _ _ _ _ Hnoted), md_end by done. done.
Qed.

Lemma ended_at t : valid s t -> bb_end op = true ->
  (after_facts i da sa f).(f_dead) t = true /\ (after_facts i da sa f).(f_mem) t = survives s t /\
  (after_facts i da sa f).(f_written) t = tr.(tr_written) t.
Proof.
  intros Vt Hb. destruct (written_ended t Vt Hb) as [Hd Hm]. unfold after_facts.
  rewrite (ends_without_outputs Hb) at 1 2. cbn [seq settles f_dead f_mem f_written List.find]. split; [done|]. split; [done|].
  unfold written_facts. rewrite (ends_without_outputs Hb). cbn. by rewrite bool_decide_false by apply not_elem_of_nil.
Qed.

Lemma op_stays : stays op = true /\ track_insn s i tr = if bb_end op then
    mkTrack (fun t => survives s t && tr.(tr_written) t) (fun _ => false)
  else mkTrack (mark (oargs i) true tr.(tr_written)) (mark (oargs i) false tr.(tr_const)).
Proof. unfold track_insn. clear -Hop. destruct op; try discriminate Hop; done. Qed.

Lemma op_weaker : plain_written s st (track_insn s i tr) -> weaker (after_facts i da sa f) (facts_of st (track_insn s i tr)).
Proof.
  intros Hpw t Vt. destruct op_stays as [_ Et]. destruct (bb_end op) eqn:Hb.
  - destruct (ended_at t Vt Hb) as (Hd & Hm & Hw).
    split; unfold used_by; rewrite ?Hd, ?Hm, ?Hw; cbn [facts_of f_dead f_mem f_written f_const].
    + destruct (survives s t) eqn:Hs; [by right|left]. destruct (dead st t) eqn:Hdt; [done|].
      specialize (Hpw t Vt Hs Hdt). rewrite Et in Hpw. cbn in Hpw. by rewrite Hs in Hpw.
    + by apply (lw_mem _ _ Hwf).
    + cbn. destruct (survives s t) eqn:Hs; [done|]. intros Hu%negb_true_iff. destruct (dead st t) eqn:Hdt.
      * destruct (mem st t) eqn:Hmt; [by rewrite (lw_mem _ _ Hwf t Vt Hmt) in Hs|done].
      * specialize (Hpw t Vt Hs Hdt). rewrite Et in Hpw. cbn in Hpw. by rewrite Hs in Hpw.
    + rewrite Et. cbn. by intros [_ ?]%andb_true_iff.
    + auto.
  - pose proof (after_dead t Vt Hb) as Hd. pose proof (after_mem t Vt Hb) as Hm. split; cbn [facts_of f_dead f_mem].
    + by left.
    + done.
    + unfold used_by. rewrite Hd. cbn [facts_of f_dead f_mem]. destruct (dead st t); [|done].
      destruct (mem st t); [by rewrite Hm|done].
    + rewrite Et. cbn. destruct op_args as (<- & _). unfold mark. by case_bool_decide.
    + rewrite Et. cbn. destruct op_args as (<- & _). unfold mark. case_bool_decide; [done|]. by left.
Qed.
End Op.

(** ** Calls *)

Section Call.
Context (i : insn) (st st' : la_state) (da sa : Z) (tr : track).
Hypothesis Hshape : shape s i = true.
Hypothesis Hop : i.(opc) = INDEX_op_call.
Hypothesis Hchecked : checked s gl i tr.
Hypothesis Hwf : la_wf s st.
Let md := la_mid_call s (call_flags i) (oargs i) st.
Hypothesis Hnoted : noted_args s (oargs i) (iargs i) st md st' da sa.

Local Abbreviation f := (facts_of st' tr).
Local Abbreviation no_write := (testb (call_flags i) (Z.lor TCG_CALL_NO_WRITE_GLOBALS TCG_CALL_NO_READ_GLOBALS)).
Local Abbreviation results := (put_results da sa (imap pair (oargs i)) (call_read i da f)).

Lemma call_outputs t : t ∈ oargs i -> valid s t.
Proof. pose proof (sh_outputs _ _ (shape_shaped _ _ Hshape)) as H. rewrite Forall_forall in H. auto. Qed.
Lemma call_inputs_valid t : t ∈ iargs i -> valid s t.
Proof. pose proof (sh_inputs _ _ (shape_shaped _ _ Hshape)) as H. rewrite Forall_forall in H. auto. Qed.

Lemma call_md_at t : valid s t ->
  dead md t = (negb no_write && (t <? s.(nb_globals))) || (bool_decide (t ∈ oargs i) || dead st t) /\
  mem md t = (negb (testb (call_flags i) TCG_CALL_NO_READ_GLOBALS) && (t <? s.(nb_globals))) ||
    (negb (bool_decide (t ∈ oargs i)) && mem st t).
Proof. intros Vt. apply mid_call_at; [apply Hwf| |done]. apply (sh_outputs _ _ (shape_shaped _ _ Hshape)). Qed.

Lemma call_read_at t : valid s t -> (call_read i da f).(f_dead) t = dead md t.
Proof.
  intros Vt. unfold call_read. cbn. eapply dying_at; [exact Hnoted| |done]. intros n u Hu. unfold arg.
  rewrite list_lookup_total_alt, lookup_app_r by lia. replace (length (oargs i) + n - length (oargs i))%nat with n by lia. by rewrite Hu.
Qed.

Lemma call_ok_noted σ : ra_inv f σ -> fixed_as s gl σ -> call_ok s i da sa f σ.
Proof.
  intros Hinv Hfa. pose proof Hnoted as [_ N2 N3 N4 N5]. destruct (ch_call _ _ _ _ Hchecked Hop) as (C1 & C2 & C3). split; try done.
  - intros t Ht. pose proof (call_inputs_valid t Ht) as Vt. split; [done| |].
    + cbn. rewrite N4, bool_decide_true by done. done.
    + intros Hg _. by apply (ch_read _ _ _ _ Hchecked).
  - intros t Ht. pose proof (call_outputs t Ht) as Vt. split; [done|]. split.
    + eapply not_fixed; [done|done|done|by apply (ch_fixed _ _ _ _ Hchecked)].
    + rewrite call_read_at by done. destruct (call_md_at t Vt) as [-> _]. rewrite bool_decide_true by done. by rewrite orb_true_r.
  - apply Hchecked.
  - intros k t Hk. destruct (N2 _ _ Hk) as [_ ->]. apply (lw_mem _ _ Hwf). by eapply call_outputs, list_elem_of_lookup_2.
  - intros Hr t Ht. destruct (global_valid s frame reserved M t Ht) as [Vt _]. cbn. rewrite N5.
    destruct (call_md_at t Vt) as [_ ->]. by rewrite Hr, (proj2 (Z.ltb_lt t (nb_globals s))) by lia.
  - intros Hr t Ht. destruct (global_valid s frame reserved M t Ht) as [Vt _]. rewrite call_read_at by done.
    destruct (call_md_at t Vt) as [-> _]. rewrite Z.lor_comm, Hr, (proj2 (Z.ltb_lt t (nb_globals s))) by lia. done.
Qed.

(** The facts after the results. *)
Lemma put_results_at l g t :
  facts_at (put_results da sa l g) t =
  match List.find (fun kt => kt.2 =? t) (reverse l) with
  | Some kt => (IS_DEAD_ARG da kt.1, NEED_SYNC_ARG sa kt.1, true, false)
  | None => facts_at g t
  end.
Proof.
  revert g. induction l as [|kt l IH] using rev_ind; intros g; [done|]. unfold put_results. rewrite fold_left_app. cbn [fold_left].
  rewrite put_at, reverse_snoc. cbn [List.find]. rewrite Z.eqb_sym. destruct (kt.2 =? t); [done|]. apply IH.
Qed.

Lemma facts_eq g g' t : facts_at g t = facts_at g' t ->
  f_dead g t = f_dead g' t /\ f_mem g t = f_mem g' t /\ f_written g t = f_written g' t /\ f_const g t = f_const g' t.
Proof. unfold facts_at. by injection 1 as -> -> -> ->. Qed.

Lemma results_facts t : valid s t ->
  if bool_decide (t ∈ oargs i) then facts_at results t = (dead st t, mem st t, true, false)
  else facts_at results t = facts_at (call_read i da f) t.
Proof.
  intros Vt. rewrite put_results_at. destruct (List.find _ _) as [[k u]|] eqn:Ef.
  - apply List.find_some in Ef as [Hk Ek%Z.eqb_eq]. cbn in Ek. subst u. apply list_elem_of_In in Hk. rewrite elem_of_reverse in Hk.
    apply numbered_elem in Hk. rewrite bool_decide_true by (by eapply list_elem_of_lookup_2). cbn.
    by destruct (na_outs _ _ _ _ _ _ _ _ Hnoted _ _ Hk) as [-> ->].
  - rewrite bool_decide_false; [done|]. intros Ht. apply list_elem_of_lookup_1 in Ht as [k Hk].
    assert ((k, t) ∈ reverse (imap pair (oargs i))) as Hin%list_elem_of_In by (rewrite elem_of_reverse; by apply numbered_elem).
    eapply List.find_none in Ef; [|exact Hin]. cbn in Ef. by rewrite Z.eqb_refl in Ef.
Qed.

Lemma call_weaker : plain_written s st (track_insn s i tr) -> weaker results (facts_of st (track_insn s i tr)).
Proof.
  intros Hpw t Vt. pose proof (results_facts t Vt) as Hr. unfold track_insn. rewrite Hop. case_bool_decide as Ht.
  - unfold facts_at in Hr. injection Hr as Rd Rm Rw Rc.
    split; unfold used_by; cbn [facts_of f_dead f_mem f_written f_const tr_written tr_const]; rewrite ?Rd, ?Rm, ?Rw, ?Rc; try done. by left.
  - apply facts_eq in Hr as (Rd & Rm & Rw & Rc). rewrite call_read_at in Rd by done.
    cbn [call_read kills facts_of f_mem f_written f_const] in Rm, Rw, Rc. rewrite (na_mem _ _ _ _ _ _ _ _ Hnoted) in Rm.
    destruct (call_md_at t Vt) as [Md Mm]. rewrite Md in Rd. rewrite Mm in Rm. rewrite bool_decide_false in Rd, Rm by done. cbn [negb andb orb] in Rd, Rm.
    split; unfold used_by; cbn [facts_of f_dead f_mem f_written f_const tr_written tr_const]; rewrite ?Rd, ?Rm, ?Rw, ?Rc; unfold writes_globals, mark;
      rewrite ?(bool_decide_false (t ∈ oargs i)) by done.
    + destruct (negb no_write && (t <? nb_globals s)) eqn:Hg; [right|by left]. split; [done|].
      apply andb_true_iff in Hg as [_ Hg]. by apply global_survives, Z.ltb_lt.
    + intros ->. apply orb_true_r.
    + rewrite testb_lor. destruct (testb (call_flags i) TCG_CALL_NO_READ_GLOBALS), (testb (call_flags i) TCG_CALL_NO_WRITE_GLOBALS),
        (t <? nb_globals s), (dead st t), (mem st t); done.
    + done.
    + intros ->. destruct (negb no_write && (t <? nb_globals s)); [by right|by left].
Qed.
End Call.
End Facts.
