(* ===== verification/RegAllocBlock.v ===== *)
(** * The code for one operation

    What the register allocator emits for one operation of a checked block: the
    allocation succeeds, and a step of the code is a step of the operation.  At the
    end of a basic block all values are in memory or in fixed registers. *)

From S2P Require Import Prelude QtraceDefs X86 TcgOut TcgEnc TcgEmit TcgCond TcgOpDefs TcgSem TcgAlu TcgIR.
From S2P Require Import Optimize OptCopies OptSound OptStages OptRound OptProgram Liveness LivenessSound InstrCall Prologue RegAlloc RegAllocLogic.
From S2P Require Import LinearCode RegAllocSpill RegAllocOps RegAllocStep RegAllocTable RegAllocInsn RegAllocMov RegAllocCall RegAllocNotes.
From S2P Require Import RegAllocSim RegAllocTrack RegAllocFacts.

Local Abbreviation moves os := (Forall (fun o => is_move o = true) os).

(** ** Code with one operation *)

Lemma split_unique os1 i na ca os2 os1' i' na' ca' os2' :
  moves os1 -> moves os1' -> os1 ++ LOp i na ca :: os2 = os1' ++ LOp i' na' ca' :: os2' ->
  os1' = os1 /\ i' = i /\ na' = na /\ ca' = ca /\ os2' = os2.
Proof.
  revert os1'. induction os1 as [|o os1 IH]; intros [|o' os1'] H H' E.
  - by injection E as -> -> -> ->.
  - injection E as <- E. by apply Forall_cons in H' as [? _].
  - injection E as -> E. by apply Forall_cons in H as [? _].
  - injection E as -> E. apply Forall_cons in H as [_ H], H' as [_ H']. by destruct (IH os1' H H' E) as (-> & -> & -> & -> & ->).
Qed.

Lemma moves_no_op os os1 i na ca os2 : moves os -> os <> os1 ++ LOp i na ca :: os2.
Proof. intros H ->. apply Forall_app in H as [_ H]. by apply Forall_cons in H as [? _]. Qed.

Lemma moves_no_label os l : moves os -> existsb (is_label l) os = false.
Proof. induction 1 as [|o os Ho _ IH]; [done|]. cbn. rewrite IH. by destruct o. Qed.

Lemma op_no_label os1 i na ca os2 l : moves os1 -> moves os2 -> existsb (is_label l) (os1 ++ LOp i na ca :: os2) = false.
Proof. intros H1 H2. rewrite existsb_app. cbn. by rewrite !moves_no_label. Qed.

Section Steps.
Context {W : Type} (E : environment W) (s : tcg_temps) (gl : list ra_temp).

Lemma block_moves label os n h w c' :
  moves os -> block_step E s gl label os n h w c' -> c' = mkHc (S n) (exec_moves os h) w.
Proof.
  intros Hm Hst. inversion Hst; subst; [done|..].
  - by apply Forall_cons in Hm as [? _].
  - exfalso. by eapply (moves_no_op _ _ _ _ _ _ Hm).
  - exfalso. by eapply (moves_no_op _ _ _ _ _ _ Hm).
Qed.

Lemma block_label label l n h w c' : block_step E s gl label [LLabel l] n h w c' -> c' = mkHc (S n) h w.
Proof.
  intros Hst. inversion Hst as [? ? Hm|? ? l' El|os1 i na ca os2 ? ? ? ? El|os1 i na ca os2 ? ? ? ? ? El]; subst.
  - by apply Forall_cons in Hm as [? _].
  - done.
  - destruct os1 as [|? [|]]; discriminate El.
  - destruct os1 as [|? [|]]; discriminate El.
Qed.

Lemma block_op label os1 i na ca os2 n h w c' :
  moves os1 -> moves os2 -> block_step E s gl label (os1 ++ LOp i na ca :: os2) n h w c' ->
  exists j h' w', op_step E s gl label i na ca (exec_moves os1 h) w j h' w' /\
    c' = match j with None => mkHc (S n) (exec_moves os2 h') w' | Some n' => mkHc n' h' w' end.
Proof.
  intros H1 H2 Hst. inversion Hst as [? ? Hm|? ? l' El|? ? ? ? ? ? ? h' w' El M1 M2 Ho|? ? ? ? ? ? ? n' h' w' El M1 M2 Ho]; subst.
  - exfalso. by eapply (moves_no_op _ _ _ _ _ _ Hm).
  - destruct os1 as [|? [|]]; discriminate El.
  - destruct (split_unique _ _ _ _ _ _ _ _ _ _ H1 M1 El) as (-> & -> & -> & -> & ->). by exists None, h', w'.
  - destruct (split_unique _ _ _ _ _ _ _ _ _ _ H1 M1 El) as (-> & -> & -> & -> & ->). by exists (Some n'), h', w'.
Qed.

Lemma op_block label os1 i na ca os2 n h w j h' w' :
  moves os1 -> moves os2 -> op_step E s gl label i na ca (exec_moves os1 h) w j h' w' ->
  exists c', block_step E s gl label (os1 ++ LOp i na ca :: os2) n h w c'.
Proof.
  intros H1 H2 Hst. destruct j as [n'|].
  - eexists. by eapply bs_jump.
  - eexists. by eapply bs_next.
Qed.

(** Only the operations at the end of a basic block jump. *)
Lemma jump_ends label i na ca h w n' h' w' :
  op_step E s gl label i na ca h w (Some n') h' w' -> bb_end i.(opc) = true /\ exists l, label l = Some n'.
Proof.
  intros Hst. inversion Hst as [| |? ? l ? Eo Ec El|? ? b ? Ec Hj| |]; subst.
  - rewrite Eo. split; [done|]. by exists l.
  - destruct b; [|done]. destruct Hj as (m & Hm & [= ->]). split; [|by exists (op_constants i na !!! 1%nat)].
    unfold condition in Ec. destruct (opc i); try discriminate Ec. by destruct t.
Qed.
End Steps.

(** ** The check behind every operation *)

Section Checks.
Context (s : tcg_temps).

Lemma check_regs_ok σ : linked s reserved σ -> check_regs σ = Ok (tt, σ, []).
Proof.
  intros Hl. unfold check_regs. rewrite (proj2 (andb_true_iff _ _)); [done|]. rewrite !forallb_forall. split.
  - intros r Hr. apply list_elem_of_In in Hr. unfold all_regs in Hr. apply list_elem_of_fmap in Hr as (k & -> & Hk%elem_of_seq).
    unfold TCG_TARGET_NB_REGS in Hk. set (r := Z.of_nat k). assert (real_reg r) as Hr by (unfold real_reg, r; lia).
    destruct (decide (tget σ.(reg_to_temp) r = -1)) as [->|Hne]; [done|].
    destruct (ln_owner _ _ _ Hl r Hr Hne) as (_ & _ & Hv & Er & _). rewrite Hv, Er, Z.eqb_refl, bool_decide_true by done. apply orb_true_r.
  - intros t Ht. apply list_elem_of_In, list_elem_of_fmap in Ht as (k & -> & Hk%elem_of_seq). set (t := Z.of_nat k).
    assert (valid s t) as Vt by (unfold valid, nb_temps, t; rewrite <- (ln_temps _ _ _ Hl); lia).
    case_bool_decide as Hv; [|done]. destruct ((tget σ.(ra_temps) t).(fixed_reg)) eqn:Hf; [done|].
    destruct (ln_reg _ _ _ Hl t Vt Hf Hv) as [_ ->]. by rewrite Z.eqb_refl.
Qed.

Lemma wp_checked (m : ra unit) (Q : ra_state -> list lop -> Prop) σ :
  wp m (fun _ σ' os => linked s reserved σ' /\ Q σ' os) σ -> wp (m ;; check_regs) (fun _ σ' os => Q σ' os) σ.
Proof.
  intros H. apply wp_bind. eapply wp_mono; [exact H|]. intros [] σ' os [Hl HQ]. exists tt, σ', []. rewrite app_nil_r.
  split; [by apply check_regs_ok|done].
Qed.
End Checks.

(** ** Between basic blocks *)

Section Block.
Context {W : Type} (E : environment W) (s : tcg_temps) (frame : tcg_frame) (M : Z -> option (Z * Z)) (gl : list ra_temp).
Context {Hset : setting s frame reserved M}.
Hypothesis Hfixed : forall t, 0 <= t < s.(nb_globals) -> (tget gl t).(fixed_reg) = true -> (tget gl t).(reg) = TCG_AREG0.
Hypothesis Hplace : forall t, 0 <= t < s.(nb_globals) -> (tget gl t).(fixed_reg) = false -> M t = Some (global_place gl t).
Hypothesis Harea : forall t ofs, valid s t -> args_area ofs -> M t <> Some (TCG_REG_CALL_STACK, ofs).

Local Abbreviation ts_of σ t := (tget (ra_temps σ) t).
Local Abbreviation linked := (linked s reserved).
Local Abbreviation ra_inv := (ra_inv s frame reserved).
Local Abbreviation values := (values s M).
Local Abbreviation moved := (moved s M).
Local Abbreviation fixed_as := (fixed_as s gl).

(** Nothing is in a register of its own. *)
Definition at_rest (σ : ra_state) : Prop :=
  forall t, valid s t -> (ts_of σ t).(fixed_reg) = false ->
    (ts_of σ t).(val_type) = if survives s t then TEMP_VAL_MEM else TEMP_VAL_DEAD.

Record resting (v : list Z) (h : hstate) : Prop := {
  rs_mem : forall t, valid s t -> survives s t = true -> in_fixed_reg s gl t = false -> in_mem s M v h t;
  rs_fixed : forall t, valid s t -> in_fixed_reg s gl t = true -> wrap (tsize s t) (hregs h TCG_AREG0) = rd s v t
}.

Lemma fixed_iff σ t : linked σ -> fixed_as σ -> valid s t -> in_fixed_reg s gl t = (ts_of σ t).(fixed_reg).
Proof.
  intros Hl Hfa Vt. unfold in_fixed_reg. destruct (Z.ltb_spec t (nb_globals s)) as [Hlt|Hge].
  - cbn. symmetry. apply Hfa. unfold valid in Vt. lia.
  - cbn. destruct ((ts_of σ t).(fixed_reg)) eqn:Ef; [|done]. destruct (ln_fixed _ _ _ Hl t Vt Ef). lia.
Qed.

Lemma rest_values f v σ h : linked σ -> fixed_as σ -> at_rest σ -> resting v h -> values [] f v σ h.
Proof.
  intros Hl Hfa Hr [R1 R2] t Vt _. pose proof (fixed_iff σ t Hl Hfa Vt) as Ef. destruct ((ts_of σ t).(fixed_reg)) eqn:Hf.
  - destruct (ln_fixed _ _ _ Hl t Vt Hf) as (_ & Hv & _). pose proof (fixed_reg_number s σ t Hl Vt Hf) as Er.
    split; try congruence. intros _. rewrite Er. by apply R2.
  - specialize (Hr t Vt Hf). split; rewrite Hr; destruct (survives s t) eqn:Hs; try done. intros _ _. by apply R1.
Qed.

Lemma values_rest f v σ h :
  ra_inv f σ -> fixed_as σ -> values [] f v σ h ->
  (forall t, valid s t -> f.(f_dead) t = true /\ f.(f_mem) t = survives s t) -> resting v h.
Proof.
  intros [Hl _ Hlv] Hfa Hv Hf. split; intros t Vt.
  - intros Hs Hnf. rewrite (fixed_iff σ) in Hnf by done. destruct (Hf t Vt) as [Hd Hm].
    pose proof (lv_dead _ _ _ _ _ _ _ (Hlv t Vt Hnf) Hd) as Hvt. rewrite Hs in Hvt.
    apply (vl_mem _ _ _ _ _ _ _ (Hv t Vt (not_elem_of_nil t)) Hvt). unfold used_by. by rewrite Hd, Hm, Hs.
  - intros Hfx. rewrite (fixed_iff σ) in Hfx by done. destruct (ln_fixed _ _ _ Hl t Vt Hfx) as (_ & Hvt & _).
    rewrite <- (fixed_reg_number s σ t Hl Vt Hfx). by apply (vl_reg _ _ _ _ _ _ _ (Hv t Vt (not_elem_of_nil t))).
Qed.

Lemma rest_at f σ : ra_inv f σ -> (forall t, valid s t -> f.(f_dead) t = true) -> at_rest σ.
Proof. intros [_ _ Hlv] Hd t Vt Hf. apply (lv_dead _ _ _ _ _ _ _ (Hlv t Vt Hf)). by apply Hd. Qed.

(** ** What the code for an operation does *)

Record block_ok (i : insn) (f f' : facts) (σ σ' : ra_state) (os : list lop) : Prop := {
  bk_inv : ra_inv f' σ';
  bk_slots : slots_le s σ σ';
  bk_labels : forall l, existsb (is_label l) os = bool_decide (label_of i = Some l);
  bk_rest : i.(opc) = INDEX_op_set_label -> at_rest σ';
  bk_step : within s M σ' -> forall label n v w h c',
    length v = length s.(temps) -> values [] f v σ h -> block_step E s gl label os n h w c' ->
    exists v', insn_step E s label i (mkConfig n v w) (mkConfig c'.(hip) v' c'.(hworld)) /\ length v' = length s.(temps) /\
      (c'.(hip) = S n /\ values [] f' v' σ' c'.(host) \/ resting v' c'.(host) /\ exists l, label l = Some c'.(hip));
  bk_live : keeps_fixed E s gl -> within s M σ' -> forall label n v w h c,
    values [] f v σ h -> insn_step E s label i (mkConfig n v w) c -> exists c', block_step E s gl label os n h w c';
  bk_exits : within s M σ' -> forall a v h, i = mkInsn INDEX_op_exit_tb a -> values [] f v σ h ->
    exists os1 ca os2, os = os1 ++ LOp i a ca :: os2 /\ moves os1;
  bk_exit : within s M σ' -> forall a na ca os1 os2 v h,
    os = os1 ++ LOp (mkInsn INDEX_op_exit_tb a) na ca :: os2 -> moves os1 -> values [] f v σ h ->
    i = mkInsn INDEX_op_exit_tb a /\ hglobals s gl (exec_moves os1 h) = globals s v;
  bk_fits : Forall op_fits os
}.

(** Code that only moves values. *)
Lemma moves_ok i f f' σ σ' os :
  ra_inv f' σ' -> slots_le s σ σ' -> moves os -> i.(opc) <> INDEX_op_set_label -> i.(opc) <> INDEX_op_exit_tb ->
  (within s M σ' -> forall label n v w h, length v = length s.(temps) -> values [] f v σ h ->
     exists v', insn_step E s label i (mkConfig n v w) (mkConfig (S n) v' w) /\ length v' = length s.(temps) /\
       values [] f' v' σ' (exec_moves os h)) ->
  block_ok i f f' σ σ' os.
Proof.
  intros Hinv Hle Hm Hnl Hne Hstep. split; try done.
  - intros l. rewrite moves_no_label by done. rewrite bool_decide_false; [done|]. unfold label_of.
    by destruct (opc i).
  - intros Hw label n v w h c' Hlv Hv Hst%block_moves; [|done]. subst c'. cbn [hip host hworld].
    destruct (Hstep Hw label n v w h Hlv Hv) as (v' & Hs & Hl & Hv'). exists v'. split; [done|]. split; [done|]. by left.
  - intros _ _ label n v w h c _ _. eexists. by apply bs_moves.
  - intros _ a v h ->. done.
  - intros _ a na ca os1 os2 v h Eos. exfalso. by eapply moves_no_op.
  - by apply moves_fit.
Qed.

(** ** Operations *)

Section Op.
Context (i : insn) (st st' : la_state) (da sa : Z) (tr : track).
Hypothesis Hshape : shape s i = true.
Hypothesis Hchecked : checked s gl i tr.
Hypothesis Hwf : la_wf s st.
Hypothesis Hpw : plain_written s st (track_insn s i tr).

Local Abbreviation f := (facts_of st' tr).
Local Abbreviation f' := (facts_of st (track_insn s i tr)).

Section Kept.
Hypothesis Hop : allocated_op i.(opc) = true.
Hypothesis Hnoted : noted_args s (oargs i) (iargs i) st (la_mid s (op_flags i.(opc)) (oargs i) st) st' da sa.

Lemma op_exit σ σ1 σ' x os1 os2 v h a :
  op_emitted s frame M i da sa f σ σ1 σ' x os1 os2 -> fixed_as σ -> within s M σ1 -> values [] f v σ h ->
  i = mkInsn INDEX_op_exit_tb a -> hglobals s gl (exec_moves os1 h) = globals s v.
Proof.
  intros [Hinv1 _ Hb _ _] Hfa Hw Hv ->. destruct (Hb v) as [S1 _ V1]. destruct (V1 Hw h Hv) as (Hv1 & _ & Hg).
  eapply (hglobals_eq s frame M gl Hfixed Hplace); [exact Hinv1| |exact Hv1|by apply Hg|].
  - by apply (fixed_as_le s frame M gl σ σ1).
  - intros t Ht. by apply not_elem_of_nil in Ht.
Qed.

Lemma op_jump σ σ1 σ' x os1 os2 label n v w h n' h' w' :
  op_ok s i da sa f σ -> op_emitted s frame M i da sa f σ σ1 σ' x os1 os2 -> fixed_as σ -> within s M σ' ->
  length v = length s.(temps) -> values [] f v σ h ->
  op_step E s gl label i x.(new_args) x.(const_args) (exec_moves os1 h) w (Some n') h' w' ->
  exists v', insn_step E s label i (mkConfig n v w) (mkConfig n' v' w') /\ length v' = length s.(temps) /\
    resting v' h' /\ exists l, label l = Some n'.
Proof.
  intros Hok Hem Hfa Hw Hlv Hv Hst. destruct (jump_ends _ _ _ _ _ _ _ _ _ _ _ _ Hst) as [Hb Hl].
  destruct (op_sim E s frame M gl Hfixed Hplace i da sa f (ch_words _ _ _ _ Hchecked) σ σ1 σ' x os1 os2 label n v w h (Some n') h' w' Hok Hem Hfa Hw Hlv Hv Hst)
    as (v' & Hs & Hl' & Hv'). exists v'. split; [exact Hs|]. split; [done|]. split; [|done].
  eapply (values_rest (written_facts i da f) v' σ1); [apply Hem| |exact Hv'|].
  - apply (fixed_as_le s frame M gl σ σ1); [|exact Hfa]. apply (em_before _ _ _ _ _ _ _ _ _ _ _ _ _ Hem []).
  - intros t Vt. by apply (written_ended s i st st' da sa tr Hshape Hop Hnoted).
Qed.

Lemma wp_block_op σ :
  ra_inv f σ -> fixed_as σ -> wp (tcg_reg_alloc_op s frame reserved i da sa) (fun _ σ' os => block_ok i f f' σ σ' os) σ.
Proof.
  intros Hinv Hfa. pose proof (op_ok_noted s frame M gl i st st' da sa tr Hshape Hop Hchecked Hwf Hnoted σ Hinv Hfa) as Hok.
  pose proof (op_weaker s i st st' da sa tr Hshape Hop Hwf Hnoted Hpw) as Hwk.
  eapply wp_mono; [by apply (wp_op s frame M i da sa f)|]. intros [] σ' os (os1 & x & σ1 & os2 & -> & Hem).
  pose proof Hem as [_ _ Hb Ha Hinv']. pose proof (mv_slots _ _ _ _ _ _ _ (Hb [])) as S1. pose proof (mv_slots _ _ _ _ _ _ _ (Ha [])) as S2.
  pose proof (mv_moves _ _ _ _ _ _ _ (Hb [])) as M1. pose proof (mv_moves _ _ _ _ _ _ _ (Ha [])) as M2.
  assert (i.(opc) <> INDEX_op_set_label) as Hnl by (intros Eo; by rewrite Eo in Hop). split.
  - by eapply inv_weaker.
  - by eapply slots_le_trans.
  - intros l. rewrite op_no_label by done. rewrite bool_decide_false; [done|]. unfold label_of. by destruct (opc i).
  - done.
  - intros Hw label n v w h c' Hlv Hv Hst. destruct (block_op _ _ _ _ _ _ _ _ _ _ _ _ _ M1 M2 Hst) as ([n'|] & h' & w' & Ho & ->); cbn [hip host hworld].
    + destruct (op_jump σ σ1 σ' x os1 os2 label n v w h n' h' w' Hok Hem Hfa Hw Hlv Hv Ho) as (v' & ? & ? & ? & ?). exists v'. eauto.
    + destruct (op_sim E s frame M gl Hfixed Hplace i da sa f (ch_words _ _ _ _ Hchecked) σ σ1 σ' x os1 os2 label n v w h None h' w' Hok Hem Hfa Hw Hlv Hv Ho)
        as (v' & Hs & Hl & Hv'). exists v'. split; [exact Hs|]. split; [done|]. left. split; [done|].
      eapply values_weaker; [exact Hwk|]. by apply (Ha v').
  - intros _ Hw label n v w h c Hv Hst.
    destruct (op_progress E s frame M gl Hfixed Hplace i da sa f (ch_words _ _ _ _ Hchecked) σ σ1 σ' x os1 os2 label n v w h c Hok Hem Hfa Hw Hv Hst) as (j & h' & w' & Ho).
    by eapply op_block.
  - intros _ a v h Ei _. exists os1, x.(const_args), os2. split; [|done]. do 3 f_equal.
    pose proof (ra_rest _ _ _ (em_ready _ _ _ _ _ _ _ _ _ _ _ _ _ Hem)) as Er. rewrite Ei in Er. exact Er.
  - intros Hw a na ca os1' os2' v h Eos M1' Hv. destruct (split_unique _ _ _ _ _ _ _ _ _ _ M1 M1' Eos) as (-> & Ei & _).
    split; [done|]. eapply op_exit; [exact Hem|done| |exact Hv|by symmetry]. by eapply within_le.
  - apply Forall_app. split; [by apply moves_fit|]. constructor; [|by apply moves_fit].
    eapply (op_emitted_fits s i da sa f (ch_words _ _ _ _ Hchecked)); [exact Hok|apply Hem].
Qed.
End Kept.

Lemma wp_block_call σ :
  i.(opc) = INDEX_op_call ->
  noted_args s (oargs i) (iargs i) st (la_mid_call s (call_flags i) (oargs i) st) st' da sa ->
  ra_inv f σ -> fixed_as σ -> wp (tcg_reg_alloc_call s frame reserved i da sa) (fun _ σ' os => block_ok i f f' σ σ' os) σ.
Proof.
  intros Hop Hnoted Hinv Hfa. pose proof (call_ok_noted s frame M gl i st st' da sa tr Hshape Hop Hchecked Hwf Hnoted σ Hinv Hfa) as Hok.
  pose proof (call_weaker s i st st' da sa tr Hshape Hop Hwf Hnoted Hpw) as Hwk.
  eapply wp_mono; [by apply (wp_call s frame M Harea i da sa f)|]. intros [] σ' os (os1 & x & σ1 & os2 & -> & Hem).
  pose proof Hem as [_ _ _ Hb Ha Hinv']. pose proof (mv_slots _ _ _ _ _ _ _ (Hb [])) as S1. pose proof (mv_slots _ _ _ _ _ _ _ (Ha [])) as S2.
  pose proof (mv_moves _ _ _ _ _ _ _ (Hb [])) as M1. pose proof (mv_moves _ _ _ _ _ _ _ (Ha [])) as M2. split.
  - by eapply inv_weaker.
  - by eapply slots_le_trans.
  - intros l. rewrite op_no_label by done. unfold label_of. by rewrite Hop.
  - by rewrite Hop.
  - intros Hw label n v w h c' Hlv Hv Hst. destruct (block_op _ _ _ _ _ _ _ _ _ _ _ _ _ M1 M2 Hst) as (j & h' & w' & Ho & ->).
    destruct (call_sim E s frame M gl Hfixed Hplace i da sa f σ σ1 σ' x os1 os2 label n v w h j h' w' Hop Hok Hem Hfa Hw Hlv Hv Ho)
      as (v' & Hs & Hl & -> & Hv' & Hr). exists v'. split; [exact Hs|]. split; [done|]. left. split; [done|].
    eapply values_weaker; [exact Hwk|]. by apply (Ha v').
  - intros Hkf Hw label n v w h c Hv Hst.
    destruct (call_progress E s frame M gl Hfixed Hplace i da sa f σ σ1 σ' x os1 os2 label n v w h c Hop Hkf Hok Hem Hfa Hw Hv Hst) as (j & h' & w' & Ho).
    by eapply op_block.
  - intros _ a v h Ei. by rewrite Ei in Hop.
  - intros Hw a na ca os1' os2' v h Eos M1' Hv. destruct (split_unique _ _ _ _ _ _ _ _ _ _ M1 M1' Eos) as (-> & Ei & _).
    by rewrite <- Ei in Hop.
  - apply Forall_app. split; [by apply moves_fit|]. constructor; [|by apply moves_fit]. intros Hn. by rewrite Hop in Hn.
Qed.

(** ** Labels *)

Lemma wp_block_label l σ :
  i = mkInsn INDEX_op_set_label [l] -> st' = tcg_la_bb_end s -> ra_inv f σ -> fixed_as σ ->
  wp (tcg_reg_alloc_bb_end s ;; ra_emit (LLabel l)) (fun _ σ' os => block_ok i f f' σ σ' os) σ.
Proof.
  intros Ei Est Hinv Hfa.
  assert (forall t, valid s t -> f.(f_dead) t = true /\ f.(f_mem) t = survives s t) as Hf.
  { intros t Vt. rewrite Est. by apply bb_end_at. }
  assert (weaker s f f') as Hwk.
  { intros t Vt. destruct (Hf t Vt) as [Hd Hm].
    assert (track_insn s i tr = mkTrack (fun t => survives s t && tr.(tr_written) t) (fun _ => false)) as Et by (by rewrite Ei).
    assert (survives s t = false -> tget st.(dead_temps) t = true) as Hdt.
    { intros Hs. destruct (tget st.(dead_temps) t) eqn:Hdt; [done|]. specialize (Hpw t Vt Hs Hdt). rewrite Et in Hpw.
      cbn [tr_written] in Hpw. by rewrite Hs in Hpw. }
    split; unfold used_by; rewrite ?Hd, ?Hm; rewrite ?Et; cbn [facts_of f_dead f_mem f_written f_const tr_written tr_const].
    - destruct (survives s t); [by right|left; by apply Hdt].
    - by apply (lw_mem _ _ Hwf).
    - destruct (survives s t) eqn:Hs; [done|]. rewrite Hdt by done. cbn [andb]. rewrite negb_involutive. intros Hmt.
      by rewrite (lw_mem _ _ Hwf t Vt Hmt) in Hs.
    - by intros [_ ?]%andb_true_iff.
    - by right. }
  apply wp_bind. eapply wp_mono; [eapply (wp_bb_end s frame reserved M); [exact Hinv|by apply Hf]|]. intros [] σ1 os1 [-> ->].
  apply wp_emit. cbn [app]. split.
  - by eapply inv_weaker.
  - apply slots_le_refl.
  - intros l'. rewrite Ei. cbn. rewrite orb_false_r. apply eq_bool_prop_intro. rewrite bool_decide_spec. rewrite Is_true_true, Z.eqb_eq. split; [by intros ->|by intros [= ->]].
  - intros _. eapply rest_at; [exact Hinv|]. by apply Hf.
  - intros Hw label n v w h c' Hlv Hv Hst%block_label. subst c'. exists v. rewrite Ei. split; [by apply step_label|]. split; [done|]. left.
    split; [done|]. cbn [host]. rewrite Ei in Hwk. by eapply values_weaker.
  - intros _ _ label n v w h c _ _. eexists. by eapply bs_label.
  - intros _ a v h Ei'. by rewrite Ei in Ei'.
  - intros Hw a na ca os1 os2 v h Eos. destruct os1 as [|? [|]]; discriminate Eos.
  - by repeat constructor.
Qed.

(** ** Moves *)

Lemma values_tset g o u v σ h : valid s o -> values [] g v σ h -> values [o] g (tset o u v) σ h.
Proof.
  intros Vo Hv t Vt Ht. eapply (val_ts_rd s M); [apply Hv; [done|apply not_elem_of_nil]|].
  apply rd_other; [apply Vo|apply Vt|]. intros ->. by apply Ht, list_elem_of_here.
Qed.

Lemma op_bits_movi ty : op_bits (INDEX_op_movi ty) = wsize ty.
Proof. by destruct ty. Qed.

(** One output, and no effect on anything else. *)
Lemma one_output o ins t :
  noted_args s [o] ins st (la_mid s (op_flags i.(opc)) [o] st) st' da sa -> bb_end i.(opc) = false ->
  testb (op_flags i.(opc)) TCG_OPF_SIDE_EFFECTS = false -> valid s o -> valid s t ->
  IS_DEAD_ARG da 0 = tget st.(dead_temps) o /\ NEED_SYNC_ARG sa 0 = tget st.(mem_temps) o /\
  tget (la_mid s (op_flags i.(opc)) [o] st).(dead_temps) t = (t =? o) || tget st.(dead_temps) t /\
  tget st'.(mem_temps) t = negb (t =? o) && tget st.(mem_temps) t.
Proof.
  intros [_ N2 _ _ N5] Hb Hse Vo Vt. destruct (N2 0%nat o eq_refl) as [-> ->]. split; [done|]. split; [done|]. rewrite N5.
  assert (bool_decide (t ∈ [o]) = (t =? o)) as Eo.
  { apply eq_bool_prop_intro. rewrite bool_decide_spec, Is_true_true, Z.eqb_eq. apply list_elem_of_singleton. }
  destruct (mid_at s (op_flags i.(opc)) [o] st t (lw_sized _ _ Hwf) (proj2 (Forall_singleton _ _) Vo) Vt Hb) as [-> ->].
  by rewrite Eo, Hse.
Qed.

Lemma wp_block_movi ty o x σ :
  i = mkInsn (INDEX_op_movi ty) [o; x] ->
  noted_args s [o] [] st (la_mid s (op_flags i.(opc)) [o] st) st' da sa -> ra_inv f σ -> fixed_as σ ->
  wp (tcg_reg_alloc_movi s frame reserved o x da sa) (fun _ σ' os => block_ok i f f' σ σ' os) σ.
Proof.
  intros Ei Hnoted Hinv Hfa. pose proof Hshape as Hs. rewrite Ei in Hs.
  destruct (shape_words s _ ty _ Hs) as (Ho & _ & _); [done|by destruct ty|done|]. apply Forall_cons in Ho as [[Vo To] _].
  assert (bb_end i.(opc) = false /\ testb (op_flags i.(opc)) TCG_OPF_SIDE_EFFECTS = false) as [Hb Hse] by (rewrite Ei; by destruct ty).
  pose proof (one_output o [] o Hnoted Hb Hse Vo Vo) as (Ed & Em & Emd & Emm). rewrite Z.eqb_refl in Emd, Emm.
  assert ((ts_of σ o).(fixed_reg) = false) as Hnf.
  { eapply not_fixed; [exact Hinv|done|done|]. apply (ch_fixed _ _ _ _ Hchecked). rewrite Ei. apply list_elem_of_here. }
  eapply wp_mono.
  { apply (wp_movi s frame M σ f o x da sa Hinv Vo Hnf).
    - cbn. rewrite (na_dead _ _ _ _ _ _ _ _ Hnoted o Vo), Emd. by rewrite bool_decide_false by apply not_elem_of_nil.
    - rewrite Em. by apply (lw_mem _ _ Hwf). }
  intros [] σ' os [Hinv' Hm].
  assert (weaker s (put_fact o (IS_DEAD_ARG da 0) (NEED_SYNC_ARG sa 0) true true f) f') as Hwk.
  { intros t Vt. pose proof (one_output o [] t Hnoted Hb Hse Vo Vt) as (_ & _ & Emt & Emmt).
    pose proof (na_dead _ _ _ _ _ _ _ _ Hnoted t Vt) as Edt. rewrite bool_decide_false, Emt in Edt by apply not_elem_of_nil. cbn [negb andb] in Edt.
    assert (track_insn s i tr = mkTrack (mark [o] true tr.(tr_written)) (mark [o] true tr.(tr_const))) as Et by (by rewrite Ei).
    split; unfold used_by; rewrite ?Et; cbn [put_fact facts_of f_dead f_mem f_written f_const tr_written tr_const]; unfold mark;
      rewrite ?Edt, ?Emmt, ?Ed, ?Em; destruct (Z.eqb_spec t o) as [->|Hne]; try done; try (by left).
    - rewrite bool_decide_false; [done|]. by rewrite list_elem_of_singleton.
    - rewrite bool_decide_true by apply list_elem_of_here. by left.
    - rewrite bool_decide_false; [by left|]. by rewrite list_elem_of_singleton. }
  assert (slots_le s σ σ' /\ moves os) as [Hsl Hmv].
  { destruct (Hm (tset o (s64 x) (replicate (length s.(temps)) 0))) as [? ? _]; [|done]. rewrite rd_set; [done| |done].
    apply length_replicate. }
  apply moves_ok; [by eapply inv_weaker|done|done|by rewrite Ei|by rewrite Ei|]. intros Hw label n v w h Hlv Hv. exists (tset o (s64 x) v).
  split; [rewrite Ei; apply movi_step; exists (s64 x); split; [|done]; intros y [= <-]; rewrite To, op_bits_movi, wrap_wrap; apply wrap_s64|].
  split; [by rewrite length_tset|]. eapply values_weaker; [exact Hwk|]. apply (Hm (tset o (s64 x) v)); [by rewrite rd_set|done|].
  by apply values_tset.
Qed.

Definition mov_regs (ty : TCGType) (k : nat) : Z := ct_regs (default (mkCt 0 0 0) (default [] (op_cts (INDEX_op_mov ty)) !! k)).

Lemma mov_available ty : available (mov_regs ty 1) reserved /\ forall r, real_reg r -> available (mov_regs ty 0) (regset_add r reserved).
Proof.
  split.
  - exists TCG_REG_RBX. split; [by apply (bool_decide_unpack _)|]. by destruct ty; vm_compute.
  - intros r [H0 H16]. exists (if r =? TCG_REG_RBX then TCG_REG_R12 else TCG_REG_RBX). unfold regset_add.
    rewrite Z.lor_spec, Z.shiftl_1_l, Z.pow2_bits_eqb by done. destruct (Z.eqb_spec r TCG_REG_RBX) as [->|Hne].
    + split; [by apply (bool_decide_unpack _)|]. by destruct ty; vm_compute.
    + split; [by apply (bool_decide_unpack _)|]. split; [by destruct ty; vm_compute|].
      rewrite (proj2 (Z.eqb_neq _ _) Hne). by vm_compute.
Qed.

(** What the notes say about a move. *)
Record mov_noted (o x : Z) : Prop := {
  mn_out : IS_DEAD_ARG da 0 = tget st.(dead_temps) o;
  mn_sync : NEED_SYNC_ARG sa 0 = tget st.(mem_temps) o;
  mn_in : IS_DEAD_ARG da 1 = tget st.(dead_temps) x;
  mn_dead : forall t, valid s t -> tget st'.(dead_temps) t = negb (t =? x) && ((t =? o) || tget st.(dead_temps) t);
  mn_mem : forall t, valid s t -> tget st'.(mem_temps) t = negb (t =? o) && tget st.(mem_temps) t
}.

Lemma mov_notes ty o x :
  i = mkInsn (INDEX_op_mov ty) [o; x] -> valid s o -> valid s x -> x <> o ->
  noted_args s [o] [x] st (la_mid s (op_flags i.(opc)) [o] st) st' da sa -> mov_noted o x.
Proof.
  intros Ei Vo Vx Hne Hnoted.
  assert (bb_end i.(opc) = false /\ testb (op_flags i.(opc)) TCG_OPF_SIDE_EFFECTS = false) as [Hb Hse] by (rewrite Ei; by destruct ty).
  split.
  - by apply (one_output o [x] o Hnoted Hb Hse Vo Vo).
  - by apply (one_output o [x] o Hnoted Hb Hse Vo Vo).
  - pose proof (na_ins _ _ _ _ _ _ _ _ Hnoted 0%nat x eq_refl) as Ex. cbn [length Nat.add take] in Ex. rewrite Ex.
    rewrite bool_decide_false by apply not_elem_of_nil. destruct (one_output o [x] x Hnoted Hb Hse Vo Vx) as (_ & _ & -> & _).
    by rewrite (proj2 (Z.eqb_neq x o)).
  - intros t Vt. rewrite (na_dead _ _ _ _ _ _ _ _ Hnoted t Vt). destruct (one_output o [x] t Hnoted Hb Hse Vo Vt) as (_ & _ & -> & _).
    do 2 f_equal. apply eq_bool_prop_intro. rewrite bool_decide_spec, Is_true_true, Z.eqb_eq. apply list_elem_of_singleton.
  - intros t Vt. by apply (one_output o [x] t Hnoted Hb Hse Vo Vt).
Qed.

Lemma mov_weaker ty o x :
  i = mkInsn (INDEX_op_mov ty) [o; x] -> x <> o -> mov_noted o x ->
  weaker s (put_fact o (IS_DEAD_ARG da 0) (NEED_SYNC_ARG sa 0) true false (maybe_kill (IS_DEAD_ARG da 1) x f)) f'.
Proof.
  intros Ei Hne [N1 N2 N3 N4 N5] t Vt.
  assert (track_insn s i tr = mkTrack (mark [o] true tr.(tr_written)) (mark [o] false tr.(tr_const))) as Et by (rewrite Ei; by destruct ty).
  set (g := put_fact o _ _ true false _).
  assert (f_dead g t = tget st.(dead_temps) t /\ f_mem g t = tget st.(mem_temps) t /\ f_written g t = mark [o] true tr.(tr_written) t /\
    f_const g t = mark [o] false tr.(tr_const) t) as (Gd & Gm & Gw & Gc).
  { unfold g, mark. cbn [put_fact f_dead f_mem f_written f_const]. rewrite N1, N2, N3.
    assert (bool_decide (t ∈ [o]) = (t =? o)) as ->.
    { apply eq_bool_prop_intro. rewrite bool_decide_spec, Is_true_true, Z.eqb_eq. apply list_elem_of_singleton. }
    destruct (Z.eqb_spec t o) as [->|Hto]; [done|]. unfold maybe_kill. pose proof (N4 t Vt) as D. pose proof (N5 t Vt) as Mm.
    rewrite (proj2 (Z.eqb_neq t o) Hto) in D, Mm. cbn [negb andb orb] in D, Mm.
    destruct (tget st.(dead_temps) x) eqn:Hx; cbn [kill facts_of f_dead f_mem f_written f_const]; rewrite D, Mm;
      (destruct (Z.eqb_spec t x) as [->|]; [rewrite Hx|]); done. }
  split; unfold used_by; rewrite ?Gd, ?Gm, ?Gw, ?Gc, ?Et; cbn [facts_of f_dead f_mem f_written f_const tr_written tr_const]; auto.
Qed.

Lemma wp_block_mov ty o x σ :
  i = mkInsn (INDEX_op_mov ty) [o; x] -> unused st o = false ->
  noted_args s [o] [x] st (la_mid s (op_flags i.(opc)) [o] st) st' da sa -> ra_inv f σ -> fixed_as σ ->
  wp (tcg_reg_alloc_mov s frame reserved (mov_regs ty 0) (mov_regs ty 1) o x da sa) (fun _ σ' os => block_ok i f f' σ σ' os) σ.
Proof.
  intros Ei Hun Hnoted Hinv Hfa. pose proof Hshape as Hs. rewrite Ei in Hs.
  destruct (shape_mov s ty _ Hs) as (o' & x' & [= <- <-] & [Vo To] & [Vx Tx]). clear Hs.
  destruct (ch_mov _ _ _ _ Hchecked ty) as [Hc Hne]; [by rewrite Ei|]. rewrite Ei in Hc, Hne.
  change (tr.(tr_const) x = false) in Hc. change (o <> x) in Hne.
  pose proof (mov_notes ty o x Ei Vo Vx (not_eq_sym Hne) Hnoted) as Hmn. pose proof (mov_weaker ty o x Ei (not_eq_sym Hne) Hmn) as Hwk.
  destruct Hmn as [N1 N2 N3 N4 _].
  assert ((ts_of σ o).(fixed_reg) = false) as Hnf.
  { eapply not_fixed; [exact Hinv|done|done|]. apply (ch_fixed _ _ _ _ Hchecked). rewrite Ei. apply list_elem_of_here. }
  assert (f.(f_dead) o = true) as Hdo by (cbn; by rewrite N4, (proj2 (Z.eqb_neq o x)), Z.eqb_refl by done).
  assert (f.(f_dead) x = false) as Hdx by (cbn; by rewrite N4, Z.eqb_refl by done).
  assert (s.(nb_globals) <= x -> (tget s.(temps) x).(temp_local) = true -> f.(f_written) x = true) as Hwr.
  { intros Hg _. apply (ch_read _ _ _ _ Hchecked); [|done]. rewrite Ei. apply list_elem_of_here. }
  assert (op_bits (INDEX_op_mov ty) = wsize ty) as Eb by (by destruct ty). rewrite Eb in To.
  assert (0 <= tsize s o <= tsize s x) as Hsz by (rewrite To; split; [by destruct ty|exact Tx]).
  assert (NEED_SYNC_ARG sa 0 = true -> survives s o = true) as Hsy by (rewrite N2; by apply (lw_mem _ _ Hwf)).
  assert (IS_DEAD_ARG da 0 = true -> NEED_SYNC_ARG sa 0 = true) as Hds.
  { rewrite N1, N2. unfold unused in Hun. intros Hd. rewrite Hd in Hun. by apply negb_false_iff in Hun. }
  destruct (mov_available ty) as [Hai Hao]. eapply wp_mono.
  { exact (wp_mov s frame M σ f o x (mov_regs ty 0) (mov_regs ty 1) da sa Hinv Vo Vx Hne Hnf Hdo Hdx Hc Hwr Hai Hao Hsz Hsy Hds). }
  clear Hai Hao. intros [] σ' os [Hinv' Hm].
  assert (forall v, length v = length s.(temps) -> rd s (tset o (rd s v x) v) o = wrap (tsize s o) (rd s (tset o (rd s v x) v) x)) as Hrd.
  { intros v Hlv. rewrite rd_set by done. by rewrite rd_other by (done || apply Vo || apply Vx). }
  assert (slots_le s σ σ' /\ moves os) as [Hsl Hmv].
  { destruct (Hm _ (Hrd (replicate (length s.(temps)) 0) (length_replicate _ _))) as [? ? _]. done. }
  apply moves_ok; [by eapply inv_weaker|done|done|by rewrite Ei|by rewrite Ei|]. intros Hw label n v w h Hlv Hv. exists (tset o (rd s v x) v).
  split; [rewrite Ei; apply mov_step; exists (rd s v x); split; [by rewrite To, wrap_wrap|done]|].
  split; [by rewrite length_tset|]. eapply values_weaker; [exact Hwk|]. apply (Hm _ (Hrd v Hlv)); [done|]. by apply values_tset.
Qed.

(** ** Nothing, and discarded values *)

Lemma wp_block_nop σ :
  nop_like i.(opc) = true -> st' = st -> ra_inv f σ -> wp (mret tt) (fun _ σ' os => block_ok i f f' σ σ' os) σ.
Proof.
  intros Hn -> Hinv. assert (track_insn s i tr = tr) as -> by (unfold track_insn; by destruct (opc i)).
  apply wp_ret, moves_ok; [done|apply slots_le_refl|constructor|by intros Eo; rewrite Eo in Hn|by intros Eo; rewrite Eo in Hn|].
  intros _ label n v w h Hlv Hv. exists v. split; [|done]. apply (value_step E s label i []).
  - clear -Hn. unfold iargs. destruct i as [[] a]; try discriminate Hn; done.
  - exists v. split; [|done]. clear -Hn. unfold oargs. destruct i as [[] a]; try discriminate Hn; done.
Qed.

(** A discarded temporary has the value that its place in memory has. *)
Definition left_in_mem (h : hstate) (t : Z) : Z := match M t with Some k => hmem h k | None => 0 end.

Lemma discard_inv g σ t :
  ra_inv g σ -> valid s t -> (ts_of σ t).(fixed_reg) = false -> g.(f_dead) t = true ->
  ra_inv (put_fact t true (survives s t) false false g) σ.
Proof.
  intros [Hl Hp Hlv] Vt Hf Hd. split; [done|done|]. intros u Vu Hfu. pose proof (Hlv u Vu Hfu) as Hu.
  destruct (Z.eqb_spec u t) as [->|Hne].
  - apply live_put. pose proof (lv_dead _ _ _ _ _ _ _ Hu Hd) as Hv. split; try done; rewrite Hv.
    + intros ->. by left.
    + destruct (survives s t) eqn:Hs; [|done]. intros _ _ Hw. destruct (Z.lt_ge_cases t s.(nb_globals)) as [Hlt|Hge].
      * by apply (pl_global _ _ _ Hp).
      * discriminate (Hw Hge). unfold survives in Hs. rewrite (proj2 (Z.ltb_ge _ _) Hge) in Hs. done.
    + by destruct (survives s t).
    + by destruct (survives s t).
  - eapply (live_except s t g); [apply put_except|done|done].
Qed.

Lemma discard_weaker t :
  i = mkInsn INDEX_op_discard [t] -> valid s t -> st' = discarded t st ->
  weaker s (put_fact t true (survives s t) false false (kill t f)) f'.
Proof.
  intros Ei Vt Est u Vu. destruct (lw_sized _ _ Hwf) as [Sd Sm].
  assert (track_insn s i tr = mkTrack (mark [t] false tr.(tr_written)) (mark [t] false tr.(tr_const))) as Et by (by rewrite Ei).
  assert (bool_decide (u ∈ [t]) = (u =? t)) as Eu.
  { apply eq_bool_prop_intro. rewrite bool_decide_spec, Is_true_true, Z.eqb_eq. apply list_elem_of_singleton. }
  assert (tget st'.(dead_temps) u = (u =? t) || tget st.(dead_temps) u /\ tget st'.(mem_temps) u = negb (u =? t) && tget st.(mem_temps) u) as [Ed Em].
  { rewrite Est. cbn [discarded dead_temps mem_temps]. rewrite !(tget_set s) by done. by destruct (u =? t). }
  assert (survives s t = false -> tget st.(dead_temps) t = true) as Hdt.
  { intros Hs. destruct (tget st.(dead_temps) t) eqn:Hdt; [done|]. specialize (Hpw t Vt Hs Hdt). rewrite Et in Hpw. cbn [tr_written] in Hpw.
    unfold mark in Hpw. by rewrite bool_decide_true in Hpw by apply list_elem_of_here. }
  split; unfold used_by; rewrite ?Et; cbn [put_fact kill facts_of f_dead f_mem f_written f_const tr_written tr_const]; unfold mark; rewrite ?Eu, ?Ed, ?Em;
    destruct (Z.eqb_spec u t) as [->|Hne]; try done; try (by left).
  - destruct (survives s t) eqn:Hs; [by right|left; by apply Hdt].
  - by apply (lw_mem _ _ Hwf).
  - destruct (survives s t) eqn:Hs; [done|]. rewrite Hdt by done. cbn [andb]. rewrite negb_involutive. intros Hm.
    by rewrite (lw_mem _ _ Hwf t Vt Hm) in Hs.
Qed.

Lemma wp_block_discard t σ :
  i = mkInsn INDEX_op_discard [t] -> st' = discarded t st -> ra_inv f σ -> fixed_as σ ->
  wp (temp_dead s t) (fun _ σ' os => block_ok i f f' σ σ' os) σ.
Proof.
  intros Ei Est Hinv Hfa. assert (valid s t) as Vt.
  { pose proof (sh_outputs _ _ (shape_shaped _ _ Hshape)) as Hv. rewrite Ei in Hv. by apply Forall_cons in Hv as [Vt _]. }
  assert ((ts_of σ t).(fixed_reg) = false) as Hnf.
  { eapply not_fixed; [exact Hinv|done|done|]. apply (ch_fixed _ _ _ _ Hchecked). rewrite Ei. apply list_elem_of_here. }
  eapply wp_mono; [by apply (wp_dead s frame reserved M f)|]. intros [] σ' os (-> & Hinv' & _ & Hm).
  pose proof (mv_slots _ _ _ _ _ _ _ (Hm [] [])) as Hsl. pose proof (discard_weaker t Ei Vt Est) as Hwk.
  assert ((ts_of σ' t).(fixed_reg) = false) as Hnf' by (by destruct (Hsl t Vt) as [-> _]).
  assert (f_dead (kill t f) t = true) as Hd by (cbn; by rewrite Z.eqb_refl).
  pose proof (discard_inv _ _ t Hinv' Vt Hnf' Hd) as Hinv2.
  apply moves_ok; [by eapply inv_weaker|done|constructor|by rewrite Ei|by rewrite Ei|]. intros Hw label n v w h Hlv Hv. exists (tset t (left_in_mem h t) v).
  split.
  { apply (value_step E s label i [None]); [by rewrite Ei|]. eexists. split; [|done]. rewrite Ei. by exists (left_in_mem h t). }
  split; [by rewrite length_tset|]. eapply values_weaker; [exact Hwk|]. cbn [exec_moves fold_left].
  pose proof (mv_values _ _ _ _ _ _ _ (Hm [] v) Hw h Hv) as Hv'. intros u Vu _. destruct (Z.eqb_spec u t) as [->|Hne].
  - pose proof (lv_dead _ _ _ _ _ _ _ (ri_live _ _ _ _ _ Hinv' t Vt Hnf') Hd) as Hvt. split; rewrite Hvt; try (by destruct (survives s t)).
    intros _ _ k Hk. rewrite rd_set by done. unfold left_in_mem. by rewrite Hk.
  - assert (used_by (put_fact t true (survives s t) false false (kill t f)) u = used_by (kill t f) u) as ->.
    { unfold used_by. cbn. by rewrite (proj2 (Z.eqb_neq u t)). }
    eapply (val_ts_rd s M); [apply Hv'; [done|apply not_elem_of_nil]|]. apply rd_other; [apply Vt|apply Vu|done].
Qed.
End Op.

(** ** Every operation *)

Lemma kept_no_nop i : stays i.(opc) = true -> nop_like i.(opc) = false.
Proof. by destruct (opc i). Qed.

Lemma kept_cases i :
  shape s i = true -> stays i.(opc) = true ->
  allocated_op i.(opc) = true \/ (exists ty o x, i = mkInsn (INDEX_op_mov ty) [o; x]) \/
  (exists ty o x, i = mkInsn (INDEX_op_movi ty) [o; x]) \/ exists l, i = mkInsn INDEX_op_set_label [l].
Proof.
  intros Hs Hst. pose proof (sh_host _ _ (shape_shaped _ _ Hs)) as Hh. pose proof (sh_length _ _ (shape_shaped _ _ Hs)) as Hl. clear Hs.
  destruct i as [op a]. cbn [opc args] in *. destruct op; try discriminate Hst; try (by left); try discriminate Hh; right.
  - right. right. destruct a as [|l []]; try discriminate Hl. by exists l.
  - left. destruct a as [|o [|x []]]; try discriminate Hl. by exists t, o, x.
  - right. left. destruct a as [|o [|x []]]; try discriminate Hl. by exists t, o, x.
Qed.

Lemma alloc_op i da sa : allocated_op i.(opc) = true -> alloc_insn s frame reserved i (Some (da, sa)) = tcg_reg_alloc_op s frame reserved i da sa.
Proof.
  intros Ha. unfold alloc_insn. destruct (opc i); try discriminate Ha; unfold allocated_op in Ha; apply negb_true_iff in Ha; by rewrite ?Ha.
Qed.

Lemma wp_block i x st st' tr σ :
  noted_insn s i x st st' -> check_insn s gl i tr = true -> la_wf s st -> plain_written s st (track_insn s i tr) ->
  ra_inv (facts_of st' tr) σ -> fixed_as σ ->
  wp (alloc_insn s frame reserved i x ;; check_regs)
    (fun _ σ' os => block_ok i (facts_of st' tr) (facts_of st (track_insn s i tr)) σ σ' os) σ.
Proof.
  intros Hn Hc Hwf Hpw Hinv Hfa. pose proof (se_globals (setting:=Hset)) as Hg. pose proof (se_max (setting:=Hset)) as Hmax.
  apply (wp_checked s). eapply wp_mono with (Q := fun _ σ' os => block_ok i (facts_of st' tr) (facts_of st (track_insn s i tr)) σ σ' os);
    [|intros ? σ' os Hok; split; [apply (bk_inv _ _ _ _ _ _ Hok)|exact Hok]].
  destruct Hn as [x st Hnop|x st t Hs Ei|x st st' Hs Hst Ek Hun|x st st' Hs Hcall Ek].
  - assert (alloc_insn s frame reserved i x = mret tt) as -> by (unfold alloc_insn; by destruct (opc i)). by apply wp_block_nop.
  - pose proof (check_checked _ _ _ _ Hc ltac:(by rewrite Ei)) as Hch. rewrite Ei at 1. by apply wp_block_discard.
  - pose proof (check_checked _ _ _ _ Hc (kept_no_nop i Hst)) as Hch.
    destruct (kept_notes s Hg Hmax gl i x st st' tr Hs Hst Ek Hch (lw_sized _ _ Hwf)) as (da & sa & -> & Hnoted).
    destruct (kept_cases i Hs Hst) as [Ha|[(ty & o & y & Ei)|[(ty & o & y & Ei)|(l & Ei)]]].
    + rewrite alloc_op by done. by apply wp_block_op.
    + rewrite Ei in Hnoted, Hun. rewrite Ei at 1. change (oargs _) with [o] in Hnoted, Hun. change (iargs _) with [y] in Hnoted.
      apply (wp_block_mov i st st' da sa tr Hs Hch Hwf ty o y); [done| |by rewrite Ei|done|done].
      specialize (Hun ty eq_refl). cbn [forallb] in Hun. by rewrite andb_true_r in Hun.
    + rewrite Ei in Hnoted. rewrite Ei at 1. change (oargs _) with [o] in Hnoted. change (iargs _) with (@nil Z) in Hnoted.
      apply (wp_block_movi i st st' da sa tr Hs Hch Hwf ty o y); [done|by rewrite Ei|done|done].
    + rewrite Ei at 1. apply (wp_block_label i st st' tr Hwf Hpw l); [done| |done|done].
      rewrite Ei in Ek. by injection Ek as <- _ _.
  - pose proof (check_checked _ _ _ _ Hc ltac:(by rewrite Hcall)) as Hch.
    destruct (called_notes s Hg Hmax gl i x st st' tr Hs Hcall Ek Hch (lw_sized _ _ Hwf)) as (da & sa & -> & Hnoted).
    unfold alloc_insn. rewrite Hcall. by apply wp_block_call.
Qed.
End Block.
