(* ===== verification/RegAllocProgram.v ===== *)
(** * The register allocator on a whole block

    The allocation of a checked block succeeds, and every run of the code is a run
    of the block: from globals with the values that the host has for them, over the
    same helpers and memory accesses, to an exit with the same globals.  Together
    with the optimizer and the liveness analysis this is the way from the operations
    of the translator to the calls of the back end. *)

From S2P Require Import Prelude QtraceDefs X86 TcgOut TcgEnc TcgEmit TcgCond TcgOpDefs TcgSem TcgAlu TcgIR.
From S2P Require Import Optimize OptCopies OptSound OptStages OptRound OptProgram Liveness LivenessSound MiddleEnd InstrCall Prologue RegAlloc RegAllocLogic.
From S2P Require Import LinearCode RegAllocSpill RegAllocOps RegAllocStep RegAllocTable RegAllocInsn RegAllocMov RegAllocCall RegAllocNotes.
From S2P Require Import RegAllocSim RegAllocTrack RegAllocFacts RegAllocBlock.

Local Abbreviation moves os := (Forall (fun o => is_move o = true) os).

(** ** The code of a block *)

Section Laid.
Context {W : Type} (E : environment W) (s : tcg_temps) (frame : tcg_frame) (M : Z -> option (Z * Z)) (gl : list ra_temp).
Context {Hset : setting s frame reserved M}.
Hypothesis Hfixed : forall t, 0 <= t < s.(nb_globals) -> (tget gl t).(fixed_reg) = true -> (tget gl t).(reg) = TCG_AREG0.
Hypothesis Hplace : forall t, 0 <= t < s.(nb_globals) -> (tget gl t).(fixed_reg) = false -> M t = Some (global_place gl t).
Hypothesis Harea : forall t ofs, valid s t -> args_area ofs -> M t <> Some (TCG_REG_CALL_STACK, ofs).

Local Abbreviation ra_inv := (ra_inv s frame reserved).
Local Abbreviation values := (values s M).
Local Abbreviation fixed_as := (fixed_as s gl).
Local Abbreviation block_ok := (block_ok E s frame M gl).

Inductive laid : list insn -> list (list lop) -> facts -> ra_state -> ra_state -> Prop :=
  | laid_nil f σ : laid [] [] f σ σ
  | laid_cons i p os oss f f' σ σ' σe :
      fixed_as σ -> block_ok i f f' σ σ' os -> laid p oss f' σ' σe -> laid (i :: p) (os :: oss) f σ σe.

Lemma alloc_laid p xs st : la_noted s p xs st -> forall tr σ,
  alloc_check s gl p tr = true -> ra_inv (facts_of st tr) σ -> fixed_as σ ->
  exists oss σe, alloc_insns s frame reserved p xs σ = Ok (oss, σe) /\ laid p oss (facts_of st tr) σ σe.
Proof.
  induction 1 as [|i x p xs st st' Hp IH Hn]; intros tr σ Hc Hinv Hfa.
  { exists [], σ. split; [done|constructor]. }
  pose proof Hc as Hc'. cbn [alloc_check] in Hc'. apply andb_true_iff in Hc' as [Hi Hc'].
  pose proof (se_globals (setting:=Hset)) as Hg. pose proof (se_max (setting:=Hset)) as Hmax.
  pose proof (la_noted_wf s Hg Hmax gl p xs st Hp _ Hc') as Hwf. pose proof (live_written s Hg Hmax gl p xs st Hp _ Hc') as Hlw.
  destruct (wp_block E s frame M gl Hfixed Hplace Harea i x st st' tr σ Hn Hi Hwf Hlw Hinv Hfa) as ([] & σ1 & os & Eb & Hok).
  destruct (IH (track_insn s i tr) σ1 Hc') as (oss & σe & Er & Hl); [apply Hok| |].
  { apply (fixed_as_le s frame M gl σ σ1); [apply Hok|done]. }
  exists (os :: oss), σe. split; [|by econstructor]. cbn [alloc_insns]. rewrite Eb. cbn [mbind res_bind]. by rewrite Er.
Qed.

Lemma laid_slots p oss f σ σe : laid p oss f σ σe -> slots_le s σ σe.
Proof. induction 1 as [|i p os oss f f' σ σ' σe _ Hb _ IH]; [apply slots_le_refl|]. eapply slots_le_trans; [apply Hb|done]. Qed.

Lemma laid_length p oss f σ σe : laid p oss f σ σe -> length oss = length p.
Proof. induction 1; cbn; congruence. Qed.

Lemma laid_fits p oss f σ σe : laid p oss f σ σe -> Forall (Forall op_fits) oss.
Proof. induction 1 as [|i p os oss f f' σ σ' σe _ Hb _ IH]; constructor; [apply Hb|done]. Qed.

Lemma laid_inv p oss f σ σe : laid p oss f σ σe -> ra_inv f σ -> exists fe, ra_inv fe σe.
Proof. induction 1 as [|i p os oss f f' σ σ' σe _ Hb _ IH]; intros Hinv; [by exists f|]. apply IH, Hb. Qed.

Lemma laid_labels p oss f σ σe l : laid p oss f σ σe -> find_llabel oss l = find_label p l.
Proof.
  induction 1 as [|i p os oss f f' σ σ' σe _ Hb _ IH]; [done|]. rewrite find_label_cons. cbn [find_llabel].
  rewrite (bk_labels _ _ _ _ _ _ _ _ _ _ _ Hb l), IH. done.
Qed.

(** The place behind a label. *)
Lemma laid_label p oss f σ σe l n :
  laid p oss f σ σe -> find_label p l = Some n ->
  exists f' σ', laid (drop n p) (drop n oss) f' σ' σe /\ at_rest s σ' /\ linked s reserved σ' /\ fixed_as σ'.
Proof.
  intros Hl. revert n. induction Hl as [|i p os oss f f' σ σ' σe Hfa Hb Hl IH]; intros n; [done|].
  rewrite find_label_cons. case_bool_decide as El.
  - intros [= <-]. exists f', σ'. split; [done|]. split; [|split; [apply Hb|]].
    + apply (bk_rest _ _ _ _ _ _ _ _ _ _ _ Hb). unfold label_of in El. by destruct (opc i).
    + apply (fixed_as_le s frame M gl σ σ'); [apply Hb|done].
  - destruct (find_label p l) as [k|]; [|done]. intros [= <-]. by apply IH.
Qed.

(** ** Runs *)

Context (p : list insn) (oss : list (list lop)) (f0 : facts) (σ0 σe : ra_state).
Hypothesis Hlaid : laid p oss f0 σ0 σe.
Hypothesis Hwithin : within s M σe.

(** The code is at operation [n]. *)
Definition code_at (n : nat) (v : list Z) (h : hstate) : Prop :=
  length v = length s.(temps) /\ exists f σ, laid (drop n p) (drop n oss) f σ σe /\ values [] f v σ h.

Lemma code_block n v h os :
  code_at n v h -> oss !! n = Some os ->
  exists i f f' σ σ', p !! n = Some i /\ block_ok i f f' σ σ' os /\ within s M σ' /\ values [] f v σ h /\
    laid (drop (S n) p) (drop (S n) oss) f' σ' σe.
Proof.
  intros (Hlv & f & σ & Hl & Hv) Hn. rewrite (drop_S _ _ _ Hn) in Hl.
  inversion Hl as [|i p' os' oss' ? f' ? σ' ? Hfa Hb Hl' Ep]; subst. symmetry in Ep. destruct (drop_head _ _ _ _ Ep) as [Hi <-].
  exists i, f, f', σ, σ'. split; [done|]. split; [done|]. split; [|done]. eapply within_le; [by eapply laid_slots|done].
Qed.

Lemma code_step n v h w c' :
  code_at n v h -> lin_step E s gl oss (mkHc n h w) c' ->
  exists v', ir_step E s p (mkConfig n v w) (mkConfig c'.(hip) v' c'.(hworld)) /\ code_at c'.(hip) v' c'.(host).
Proof.
  intros Hc (os & Hn & Hst). cbn [hip host hworld] in *. destruct (code_block n v h os Hc Hn) as (i & f & f' & σ & σ' & Hi & Hb & Hw & Hv & Hl).
  destruct (bk_step _ _ _ _ _ _ _ _ _ _ _ Hb Hw _ n v w h c' (proj1 Hc) Hv Hst) as (v' & Hs & Hlv & Hnext). exists v'. split.
  { exists i. split; [done|]. eapply label_ext; [|exact Hs]. intros x. symmetry. by eapply laid_labels. }
  split; [done|]. destruct Hnext as [[-> Hv']|[Hr (l & Hlab)]]; [by exists f', σ'|].
  rewrite (laid_labels _ _ _ _ _ l Hlaid) in Hlab. destruct (laid_label _ _ _ _ _ l _ Hlaid Hlab) as (g & τ & Hl2 & Hrest & Hln & Hfa).
  exists g, τ. split; [done|]. by eapply rest_values.
Qed.

Lemma code_run n v h w c' :
  code_at n v h -> rtc (lin_step E s gl oss) (mkHc n h w) c' ->
  exists v', rtc (ir_step E s p) (mkConfig n v w) (mkConfig c'.(hip) v' c'.(hworld)) /\ code_at c'.(hip) v' c'.(host).
Proof.
  intros Hc Hrun. revert c' Hrun. apply rtc_ind_r; [by exists v|].
  intros [n1 h1 w1] c2 _ Hst (v1 & Hr & Hc1). destruct (code_step _ _ _ _ _ Hc1 Hst) as (v2 & Hs & Hc2).
  exists v2. split; [by eapply rtc_r|done].
Qed.

Lemma code_exit c v a h :
  code_at c.(hip) v c.(host) -> lin_exit (W:=W) oss c a h ->
  p !! c.(hip) = Some (mkInsn INDEX_op_exit_tb a) /\ hglobals s gl h = globals s v.
Proof.
  intros Hc (os1 & na & ca & os2 & Hn & Hm & -> & ->).
  destruct (code_block _ _ _ _ Hc Hn) as (i & f & f' & σ & σ' & Hi & Hb & Hw & Hv & Hl).
  by destruct (bk_exit _ _ _ _ _ _ _ _ _ _ _ Hb Hw a a ca os1 os2 v c.(host) eq_refl Hm Hv) as [<- Hg].
Qed.

Lemma code_exits c v a :
  code_at c.(hip) v c.(host) -> p !! c.(hip) = Some (mkInsn INDEX_op_exit_tb a) -> exists h, lin_exit (W:=W) oss c a h.
Proof.
  intros Hc Hp. destruct (lookup_lt_is_Some_2 oss c.(hip)) as [os Hn].
  { rewrite (laid_length _ _ _ _ _ Hlaid). by eapply lookup_lt_Some. }
  destruct (code_block _ _ _ _ Hc Hn) as (i & f & f' & σ & σ' & Hi & Hb & Hw & Hv & Hl). rewrite Hp in Hi. injection Hi as <-.
  destruct (bk_exits _ _ _ _ _ _ _ _ _ _ _ Hb Hw a v c.(host) eq_refl Hv) as (os1 & ca & os2 & -> & Hm).
  eexists. by exists os1, a, ca, os2.
Qed.

Lemma code_goes_on c v d :
  keeps_fixed E s gl -> code_at c.(hip) v c.(host) -> ir_step E s p (mkConfig c.(hip) v c.(hworld)) d ->
  exists c', lin_step E s gl oss c c'.
Proof.
  intros Hkf Hc (i & Hi & Hst). cbn [ip] in Hi. destruct (lookup_lt_is_Some_2 oss c.(hip)) as [os Hn].
  { rewrite (laid_length _ _ _ _ _ Hlaid). by eapply lookup_lt_Some. }
  destruct (code_block _ _ _ _ Hc Hn) as (i' & f & f' & σ & σ' & Hi' & Hb & Hw & Hv & Hl). rewrite Hi in Hi'. injection Hi' as <-.
  edestruct (bk_live _ _ _ _ _ _ _ _ _ _ _ Hb Hkf Hw (find_llabel oss)) as [c' Hc']; [exact Hv| |by exists c', os].
  eapply label_ext; [|exact Hst]. intros x. by eapply laid_labels.
Qed.
End Laid.

(** ** The start *)

Section Start.
Context (s : tcg_temps) (frame : tcg_frame) (gl : list ra_temp).

(** The places of the globals that are not in fixed registers. *)
Definition global_places : list (Z * Z) :=
  global_place gl <$> List.filter (fun t => negb (tget gl t).(fixed_reg)) (temps_from 0 s.(nb_globals)).

(** What the front end and [tcg_prologue_init] set up: globals are in the register
    of the CPU state or in memory at different places that are not on the stack, and
    the frame has room behind the parameters of calls. *)
Definition start_ok : bool :=
  (length gl =? length s.(temps))%nat &&
  forallb (fun t => let ts := tget gl t in
      if ts.(fixed_reg) then ts.(reg) =? TCG_AREG0
      else ts.(mem_allocated) && negb (ts.(mem_reg) =? TCG_REG_CALL_STACK)) (temps_from 0 s.(nb_globals)) &&
  bool_decide (NoDup global_places) &&
  (frame.(frame_reg) =? TCG_REG_CALL_STACK) && (TCG_STATIC_CALL_ARGS_SIZE <=? frame.(frame_start)) &&
  (frame.(frame_start) mod 8 =? 0) &&
  (frame.(frame_start) + 8 * (nb_temps s - s.(nb_globals)) <=? frame.(frame_end)).

Record started : Prop := {
  sd_length : length gl = length s.(temps);
  sd_fixed : forall t, 0 <= t < s.(nb_globals) -> (tget gl t).(fixed_reg) = true -> (tget gl t).(reg) = TCG_AREG0;
  sd_mem : forall t, 0 <= t < s.(nb_globals) -> (tget gl t).(fixed_reg) = false ->
    (tget gl t).(mem_allocated) = true /\ (tget gl t).(mem_reg) <> TCG_REG_CALL_STACK;
  sd_distinct : forall t u, 0 <= t < s.(nb_globals) -> 0 <= u < s.(nb_globals) ->
    (tget gl t).(fixed_reg) = false -> (tget gl u).(fixed_reg) = false -> global_place gl t = global_place gl u -> t = u;
  sd_frame : frame.(frame_reg) = TCG_REG_CALL_STACK;
  sd_area : TCG_STATIC_CALL_ARGS_SIZE <= frame.(frame_start);
  sd_aligned : frame.(frame_start) mod 8 = 0;
  sd_room : frame.(frame_start) + 8 * (nb_temps s - s.(nb_globals)) <= frame.(frame_end)
}.

Hypothesis Hglobals : 0 <= s.(nb_globals) <= nb_temps s.
Hypothesis Hmax : nb_temps s <= TCG_MAX_TEMPS.

Lemma temps_from_elem a n t : 0 <= a -> t ∈ temps_from a n <-> a <= t < n.
Proof.
  intros Ha. unfold temps_from. rewrite list_elem_of_fmap. split.
  - intros (k & -> & Hk%elem_of_seq). lia.
  - intros Ht. exists (Z.to_nat t). rewrite elem_of_seq. lia.
Qed.

Lemma fmap_inj {A B} (g : A -> B) (l : list A) x y : NoDup (g <$> l) -> x ∈ l -> y ∈ l -> g x = g y -> x = y.
Proof.
  intros Hn [j Hj]%list_elem_of_lookup_1 [k Hk]%list_elem_of_lookup_1 E.
  assert (j = k) as -> by (apply (NoDup_lookup _ j k (g x) Hn); rewrite list_lookup_fmap, ?Hj, ?Hk; cbn; congruence). congruence.
Qed.

Lemma start_started : start_ok = true -> started.
Proof.
  unfold start_ok. rewrite !andb_true_iff, !forallb_forall. intros [[[[[[H1 H2] H3] H5] H6] H7] H8].
  assert (forall t, 0 <= t < s.(nb_globals) -> In t (temps_from 0 s.(nb_globals))) as Hin by (intros t Ht; by apply list_elem_of_In, temps_from_elem).
  split; try lia.
  - intros t Ht%Hin%H2 Hf. cbv zeta in Ht. rewrite Hf in Ht. by apply Z.eqb_eq.
  - intros t Ht%Hin%H2 Hf. cbv zeta in Ht. rewrite Hf in Ht. apply andb_true_iff in Ht as [Ha Hn]. split; [done|]. by apply negb_true_iff, Z.eqb_neq in Hn.
  - apply bool_decide_eq_true in H3. intros t u Ht%Hin Hu%Hin Ft Fu.
    apply (fmap_inj _ _ _ _ H3); apply list_elem_of_In, filter_In; by rewrite ?Ft, ?Fu.
Qed.

(** ** Places in memory *)

Local Abbreviation ts_of σ t := (tget (ra_temps σ) t).
Local Abbreviation start := (tcg_reg_alloc_start s frame gl).

Definition place_of (σ : ra_state) (t : Z) : option (Z * Z) :=
  if (ts_of σ t).(fixed_reg) then None
  else if (ts_of σ t).(mem_allocated) then Some ((ts_of σ t).(mem_reg), (ts_of σ t).(mem_offset)) else None.

Lemma place_some σ t k : place_of σ t = Some k ->
  (ts_of σ t).(fixed_reg) = false /\ (ts_of σ t).(mem_allocated) = true /\ k = ((ts_of σ t).(mem_reg), (ts_of σ t).(mem_offset)).
Proof. unfold place_of. destruct (fixed_reg _); [done|]. destruct (mem_allocated _); [|done]. by intros [= <-]. Qed.

Hypothesis Hst : started.

Lemma places_setting σ : placed s frame σ -> setting s frame reserved (place_of σ).
Proof.
  intros Hp. split; [by vm_compute|done|done|apply (sd_aligned Hst)|apply (sd_room Hst)|].
  intros t u k Vt Vu (Ft & At & ->)%place_some (Fu & Au & Ek)%place_some. injection Ek as E1 E2. by apply (pl_distinct _ _ _ Hp).
Qed.

Lemma places_area σ t ofs : placed s frame σ -> valid s t -> args_area ofs -> place_of σ t <> Some (TCG_REG_CALL_STACK, ofs).
Proof.
  intros Hp Vt [H1 H2] (Ft & At & [= Er Eo])%place_some. pose proof (sd_area Hst). pose proof (sd_frame Hst) as Ef.
  destruct (Z.lt_ge_cases t s.(nb_globals)) as [Hlt|Hge].
  - destruct (pl_global _ _ _ Hp t Vt Hlt Ft) as [_ Hn]. congruence.
  - destruct (pl_frame _ _ _ Hp t Vt Hge At) as [_ Ho]. lia.
Qed.

Lemma places_within σ : within s (place_of σ) σ.
Proof. intros t Vt Hf Ha. unfold place_of. by rewrite Hf, Ha. Qed.

Lemma start_at t : valid s t -> ts_of start t = start_temp s t (tget gl t).
Proof.
  intros Vt. unfold tcg_reg_alloc_start, tget. cbn [ra_temps]. unfold valid, nb_temps in Vt.
  destruct (lookup_lt_is_Some_2 gl (Z.to_nat t)) as [y Hy]; [rewrite (sd_length Hst); lia|].
  rewrite !list_lookup_total_alt, list_lookup_imap, Hy. cbn. f_equal. lia.
Qed.

Lemma start_global t : 0 <= t < s.(nb_globals) ->
  (ts_of start t).(fixed_reg) = (tget gl t).(fixed_reg) /\ (ts_of start t).(mem_allocated) = (tget gl t).(mem_allocated) /\
  (ts_of start t).(mem_reg) = (tget gl t).(mem_reg) /\ (ts_of start t).(mem_offset) = (tget gl t).(mem_offset) /\
  (ts_of start t).(reg) = (tget gl t).(reg) /\
  (ts_of start t).(val_type) = if (tget gl t).(fixed_reg) then TEMP_VAL_REG else TEMP_VAL_MEM.
Proof.
  intros Ht. rewrite start_at by (unfold valid; lia). unfold start_temp. by rewrite (proj2 (Z.ltb_lt t (nb_globals s))) by lia.
Qed.

Lemma start_other t : valid s t -> s.(nb_globals) <= t ->
  (ts_of start t).(fixed_reg) = false /\ (ts_of start t).(mem_allocated) = false /\
  (ts_of start t).(val_type) = if survives s t then TEMP_VAL_MEM else TEMP_VAL_DEAD.
Proof.
  intros Vt Ht. rewrite start_at by done. unfold start_temp, survives. by rewrite (proj2 (Z.ltb_ge _ _) Ht).
Qed.

(** ** The invariant at the start *)

Lemma global_or t : valid s t -> 0 <= t < s.(nb_globals) \/ s.(nb_globals) <= t.
Proof. unfold valid. lia. Qed.

Lemma start_fixed t : valid s t -> (ts_of start t).(fixed_reg) = true -> 0 <= t < s.(nb_globals) /\ (tget gl t).(fixed_reg) = true.
Proof.
  intros Vt Hf. destruct (global_or t Vt) as [Ht|Ht].
  - destruct (start_global t Ht) as (<- & _). done.
  - destruct (start_other t Vt Ht) as (Hn & _). congruence.
Qed.

Lemma start_rest : at_rest s start.
Proof.
  intros t Vt Hf. destruct (global_or t Vt) as [Ht|Ht].
  - destruct (start_global t Ht) as (Ef & _ & _ & _ & _ & ->). rewrite <- Ef, Hf. unfold survives.
    by rewrite (proj2 (Z.ltb_lt t (nb_globals s))) by lia.
  - by apply start_other.
Qed.

Lemma start_linked : linked s reserved start.
Proof.
  split.
  - unfold tcg_reg_alloc_start. cbn. rewrite length_imap. apply Hst.
  - done.
  - intros t Vt Hf. destruct (start_fixed t Vt Hf) as [Ht Hg]. destruct (start_global t Ht) as (_ & _ & _ & _ & -> & ->).
    rewrite Hg, (sd_fixed Hst) by done. split; [lia|]. by vm_compute.
  - intros r [H0 H16]. unfold tcg_reg_alloc_start, tget. cbn [reg_to_temp].
    rewrite lookup_total_replicate_2 by (unfold TCG_TARGET_NB_REGS; lia). done.
  - intros t Vt Hf. rewrite start_rest by done. by destruct (survives s t).
Qed.

Lemma start_slots : slots_used s start = 0.
Proof.
  unfold slots_used. replace (List.filter mem_allocated _) with (@nil ra_temp); [done|]. symmetry.
  destruct (List.filter _ _) as [|x l] eqn:Ef; [done|]. exfalso.
  assert (In x (List.filter mem_allocated (drop (Z.to_nat s.(nb_globals)) start.(ra_temps)))) as Hin by (rewrite Ef; by left).
  apply filter_In in Hin as [Hin Ha]. apply list_elem_of_In, list_elem_of_lookup_1 in Hin as [k Hk]. rewrite lookup_drop in Hk.
  pose proof (lookup_lt_Some _ _ _ Hk) as Hlt. rewrite (ln_temps _ _ _ start_linked) in Hlt.
  set (t := s.(nb_globals) + Z.of_nat k). assert (ts_of start t = x) as Et.
  { unfold tget, t. rewrite list_lookup_total_alt. replace (Z.to_nat (nb_globals s + Z.of_nat k)) with (Z.to_nat (nb_globals s) + k)%nat by lia.
    by rewrite Hk. }
  destruct (start_other t) as (_ & Hn & _); [unfold valid, nb_temps, t; lia|unfold t; lia|]. congruence.
Qed.

Lemma start_placed : placed s frame start.
Proof.
  split.
  - rewrite start_slots. unfold tcg_reg_alloc_start. cbn. lia.
  - intros t Vt Hge Ha. destruct (start_other t Vt Hge) as (_ & Hn & _). congruence.
  - intros t Vt Hlt Hf. assert (0 <= t < s.(nb_globals)) as Ht by (unfold valid in Vt; lia).
    destruct (start_global t Ht) as (Ef & -> & -> & _). rewrite (sd_frame Hst). apply (sd_mem Hst); [done|congruence].
  - intros t u Vt Vu Ft Fu At Au Er Eo.
    destruct (global_or t Vt) as [Ht|Ht]; [|destruct (start_other t Vt Ht) as (_ & Hn & _); congruence].
    destruct (global_or u Vu) as [Hu|Hu]; [|destruct (start_other u Vu Hu) as (_ & Hn & _); congruence].
    destruct (start_global t Ht) as (Eft & _ & Ert & Eot & _), (start_global u Hu) as (Efu & _ & Eru & Eou & _).
    apply (sd_distinct Hst); try done; unfold global_place; congruence.
Qed.

Lemma start_inv st :
  la_wf s st -> plain_written s st start_track -> ra_inv s frame reserved (facts_of st start_track) start.
Proof.
  intros Hwf Hpw. split; [apply start_linked|apply start_placed|]. intros t Vt Hf. pose proof (start_rest t Vt Hf) as Hv.
  split; cbn [facts_of f_dead f_mem f_written f_const start_track tr_written tr_const]; rewrite ?Hv.
  - done.
  - intros Hd. destruct (survives s t) eqn:Hs; [done|]. by specialize (Hpw t Vt Hs Hd).
  - by apply (lw_mem _ _ Hwf).
  - intros Hm. rewrite (lw_mem _ _ Hwf t Vt Hm). by left.
  - destruct (survives s t) eqn:Hs; [|done]. intros _ _ Hw. destruct (Z.lt_ge_cases t s.(nb_globals)) as [Hlt|Hge].
    + by apply (pl_global _ _ _ start_placed).
    + discriminate (Hw Hge). unfold survives in Hs. by rewrite (proj2 (Z.ltb_ge _ _) Hge) in Hs.
  - by destruct (survives s t).
  - by destruct (survives s t).
Qed.

Lemma start_fixed_as : fixed_as s gl start.
Proof. intros t Ht. by destruct (start_global t Ht) as (-> & _). Qed.

Lemma place_global σ t : slots_le s start σ -> 0 <= t < s.(nb_globals) -> (tget gl t).(fixed_reg) = false ->
  place_of σ t = Some (global_place gl t).
Proof.
  intros Hle Ht Hf. assert (valid s t) as Vt by (unfold valid; lia). destruct (Hle t Vt) as [Ef Hs].
  destruct (start_global t Ht) as (E1 & E2 & E3 & E4 & _). destruct (sd_mem Hst t Ht Hf) as [Ha _].
  destruct Hs as (Ea & Er & Eo); [congruence|]. unfold place_of, global_place. rewrite Ef, E1, Hf, Ea, Er, Eo. congruence.
Qed.

(** ** Values at the start *)

(** Locals that the block has not written have the value that their place has. *)
Definition start_value (M : Z -> option (Z * Z)) (h : hstate) (t : Z) : Z :=
  if in_fixed_reg s gl t then hregs h TCG_AREG0 else match M t with Some k => hmem h k | None => 0 end.
Definition start_values (M : Z -> option (Z * Z)) (h : hstate) : list Z :=
  (fun k => start_value M h (Z.of_nat k)) <$> seq 0 (length s.(temps)).

Lemma start_rd M h t : valid s t -> rd s (start_values M h) t = wrap (tsize s t) (start_value M h t).
Proof.
  intros Vt. unfold rd, tget, start_values. unfold valid, nb_temps in Vt.
  rewrite list_lookup_total_alt, list_lookup_fmap, lookup_seq_lt by lia. cbn. do 2 f_equal. lia.
Qed.

Lemma start_resting M h : resting s M gl (start_values M h) h.
Proof.
  split; intros t Vt.
  - intros _ Hf k Hk. rewrite start_rd by done. unfold start_value. by rewrite Hf, Hk.
  - intros Hf. rewrite start_rd by done. unfold start_value. by rewrite Hf.
Qed.

Lemma start_globals M h :
  (forall t, 0 <= t < s.(nb_globals) -> (tget gl t).(fixed_reg) = false -> M t = Some (global_place gl t)) ->
  globals s (start_values M h) = hglobals s gl h.
Proof.
  intros HM. unfold globals, hglobals. apply list_fmap_ext. intros j k Hk. apply lookup_seq in Hk as [-> Hk]. cbn.
  set (t := Z.of_nat j). assert (0 <= t < s.(nb_globals)) as Ht by lia. rewrite start_rd by (unfold valid; lia).
  unfold start_value, global_value, in_fixed_reg. rewrite (proj2 (Z.ltb_lt t (nb_globals s))) by lia. cbn [andb].
  destruct ((tget gl t).(fixed_reg)) eqn:Hf; [by rewrite (sd_fixed Hst)|]. by rewrite HM.
Qed.

(** ** The whole allocation *)

(** The code at [c] and the program with the values [v'] do the same next. *)
Record same_point {W} (E : environment W) (p : list insn) (oss : list (list lop)) (c : hconfig W) (v' : list Z) : Prop := {
  sp_exit : forall a h', lin_exit oss c a h' -> p !! c.(hip) = Some (mkInsn INDEX_op_exit_tb a) /\ hglobals s gl h' = globals s v';
  sp_exits : forall a, p !! c.(hip) = Some (mkInsn INDEX_op_exit_tb a) -> exists h', lin_exit oss c a h';
  sp_goes_on : keeps_fixed E s gl -> forall d, ir_step E s p (mkConfig c.(hip) v' c.(hworld)) d -> exists c', lin_step E s gl oss c c'
}.

Section Whole.
Context (p : list insn) (xs : list noted) (st : la_state).
Hypothesis Hnoted : la_noted s p xs st.
Hypothesis Hchecked : alloc_check s gl p start_track = true.

Lemma start_facts : ra_inv s frame reserved (facts_of st start_track) start.
Proof. apply start_inv; [by eapply la_noted_wf|by eapply live_written]. Qed.

(** For places that do not change from the start on. *)
Lemma allocate_laid {W} (E : environment W) σ :
  placed s frame σ -> slots_le s start σ ->
  exists oss σe, allocate s frame reserved p xs gl = Ok (oss, σe) /\
    laid E s frame (place_of σ) gl p oss (facts_of st start_track) start σe.
Proof.
  intros Hp Hle. apply (alloc_laid E s frame (place_of σ) gl (Hset := places_setting σ Hp)); try done.
  - apply (sd_fixed Hst).
  - intros t Ht Hf. by apply place_global.
  - intros t ofs. by apply places_area.
  - apply start_facts.
  - apply start_fixed_as.
Qed.

Lemma allocate_ok :
  exists oss σe, allocate s frame reserved p xs gl = Ok (oss, σe) /\ length oss = length p /\
    Forall (Forall op_fits) oss /\ placed s frame σe /\ slots_le s start σe.
Proof.
  destruct (allocate_laid (W:=unit) (mkEnv (fun _ _ _ _ _ _ _ => False) (fun _ _ _ _ _ _ _ _ => False)) start start_placed (slots_le_refl s start))
    as (oss & σe & Ea & Hl). exists oss, σe. split; [done|]. split; [by eapply laid_length|].
  split; [by eapply laid_fits|]. destruct (laid_inv _ _ _ _ _ _ _ _ _ _ Hl start_facts) as [fe [_ Hp _]]. split; [done|]. by eapply laid_slots.
Qed.

Lemma allocate_runs {W} (E : environment W) oss σe h w :
  allocate s frame reserved p xs gl = Ok (oss, σe) -> placed s frame σe -> slots_le s start σe ->
  exists v, length v = length s.(temps) /\ globals s v = hglobals s gl h /\
    forall c, rtc (lin_step E s gl oss) (mkHc 0 h w) c ->
      exists v', rtc (ir_step E s p) (mkConfig 0 v w) (mkConfig c.(hip) v' c.(hworld)) /\ same_point E p oss c v'.
Proof.
  intros Ea Hp Hle. destruct (allocate_laid E σe Hp Hle) as (oss' & σe' & Ea' & Hl).
  rewrite Ea in Ea'. injection Ea' as <- <-. pose proof (places_setting σe Hp) as Hset.
  exists (start_values (place_of σe) h). split; [unfold start_values; by rewrite length_fmap, length_seq|].
  split; [apply start_globals; intros; by apply place_global|]. intros c Hrun.
  assert (code_at E s frame (place_of σe) gl p oss σe 0 (start_values (place_of σe) h) h) as Hc.
  { split; [unfold start_values; by rewrite length_fmap, length_seq|]. exists (facts_of st start_track), start. split; [by rewrite !drop_0|].
    eapply rest_values; [apply start_linked|apply start_fixed_as|apply start_rest|apply start_resting]. }
  edestruct (code_run E s frame (place_of σe) gl) as (v' & Hr & Hc'); [exact Hl|apply places_within|exact Hc|exact Hrun|].
  exists v'. split; [done|]. split.
  - intros a h'. by eapply (code_exit E s frame (place_of σe) gl); [apply places_within|].
  - intros a. by eapply (code_exits E s frame (place_of σe) gl); [exact Hl|apply places_within|].
  - intros Hkf d. by eapply (code_goes_on E s frame (place_of σe) gl); [exact Hl|apply places_within| |].
Qed.
End Whole.
End Start.

(** ** After the liveness analysis *)

(** C22: The register allocator does not fail on a checked block after the liveness
    analysis, and its code does what the block does.  The operands of every operation
    satisfy the constraint table of the back end, and the operations that write a
    result before they have read all operands do not overwrite one.  For any state of the host there
    are values of the temporaries, with the globals as the host has them, such that
    every state the code reaches is one that the block reaches, with the same world;
    the code leaves exactly where the block does and with the same globals, and
    otherwise it goes on wherever the block does. *)
Theorem allocation_correct s frame gl p q xs :
  0 <= s.(nb_globals) <= nb_temps s -> nb_temps s <= TCG_MAX_TEMPS -> Forall (fun i => shape s i = true) p ->
  tcg_liveness_analysis s p = Ok (q, xs) -> alloc_check s gl q start_track = true -> start_ok s frame gl = true ->
  exists oss σ, allocate s frame reserved q xs gl = Ok (oss, σ) /\ length oss = length q /\ Forall (Forall op_fits) oss /\
    forall W (E : environment W) h w, exists v, length v = length s.(temps) /\ globals s v = hglobals s gl h /\
      forall c, rtc (lin_step E s gl oss) (mkHc 0 h w) c ->
        exists v', rtc (ir_step E s q) (mkConfig 0 v w) (mkConfig c.(hip) v' c.(hworld)) /\ same_point s gl E q oss c v'.
Proof.
  intros Hg Hm Hs Hla Hc Hst%start_started. unfold tcg_liveness_analysis in Hla.
  destruct (la_insns s p) as [[[q' xs'] st]|] eqn:El; [|done]. injection Hla as -> ->.
  pose proof (la_insns_noted s p q xs st Hs El) as Hn.
  destruct (allocate_ok s frame gl Hg Hm Hst q xs st Hn Hc) as (oss & σ & Ea & Hl & Hfit & Hp & Hle). exists oss, σ.
  split; [done|]. split; [done|]. split; [done|]. intros W E h w. by apply (allocate_runs s frame gl Hg Hm Hst q xs st Hn Hc E oss σ).
Qed.

(** ** From the translator to the back end *)

(** The passes of [tcg_gen_code_common] before the back end. *)
Definition gen_code (s : tcg_temps) (frame : tcg_frame) (gl : list ra_temp) (p : list insn) (l : infos) : res (list (list lop)) :=
  '(q, xs) ← middle_end s p l; '(oss, _) ← allocate s frame reserved q xs gl; Ok oss.

Lemma middle_end_parts s p l :
  wf_program s p = true -> length l = length s.(temps) ->
  exists q r xs, middle_end s p l = Ok (r, xs) /\ tcg_liveness_analysis s q = Ok (r, xs) /\ Forall (fun i => shape s i = true) q /\
    length r = length p.
Proof.
  intros Hw Hl. destruct (optimize_folds s p l Hw Hl) as (q & Eq & Hf). pose proof (wf_program_spec s p Hw) as (Hg & Hwi & Hr).
  destruct (liveness_total mid_env s q Hg (wf_program_temps s p Hw) (folds_shape s p _ q Hf) (folds_room s p _ q Hf Hr))
    as (r & xs & st & Er & Hrel). exists q, r, xs. unfold middle_end. rewrite Eq. split; [done|]. split; [done|].
  split; [by apply (folds_shape s p _ q Hf)|]. by rewrite (la_rel_length mid_env s q r st Hrel), (folds_length s p _ q Hf).
Qed.

(** C21: Optimizer, liveness analysis and register allocator together do not fail on a
    well-formed program whose result passes the check of the allocator; the operands of
    the code satisfy the constraint table of the back end; and when the
    code leaves the block, the program leaves it as well: at the same exit, with the
    same world, and with the globals that the host has then, from the globals that it
    had at the start.  The only other possibility is that the program stops before at
    a division without a result. *)
Theorem code_generation_correct s frame gl p l :
  wf_program s p = true -> length l = length s.(temps) -> start_ok s frame gl = true ->
  (forall q xs, middle_end s p l = Ok (q, xs) -> alloc_check s gl q start_track = true) ->
  exists oss, gen_code s frame gl p l = Ok oss /\ length oss = length p /\ Forall (Forall op_fits) oss /\
    forall W (E : environment W), suppressible E -> forall h w, exists v, length v = length s.(temps) /\ globals s v = hglobals s gl h /\
      forall c a h', rtc (lin_step E s gl oss) (mkHc 0 h w) c -> lin_exit oss c a h' ->
        exists c', rtc (ir_step E s p) (mkConfig 0 v w) c' /\
          ((c'.(ip) = c.(hip) /\ p !! c'.(ip) = Some (mkInsn INDEX_op_exit_tb a) /\
            c'.(world) = c.(hworld) /\ globals s c'.(vals) = hglobals s gl h') \/
           ((exists i t, p !! c'.(ip) = Some i /\ (i.(opc) = INDEX_op_div2 t \/ i.(opc) = INDEX_op_divu2 t)) /\
            forall d, ~ ir_step E s p c' d)).
Proof.
  intros Hw Hl Hst%start_started Hchk. pose proof (wf_program_spec s p Hw) as (Hg & _). pose proof (wf_program_temps s p Hw) as Hm.
  destruct (middle_end_parts s p l Hw Hl) as (q & r & xs & Em & El & Hs & Hlen). pose proof (Hchk r xs Em) as Hc.
  unfold tcg_liveness_analysis in El. destruct (la_insns s q) as [[[r' xs'] st]|] eqn:Ela; [|done]. injection El as -> ->.
  pose proof (la_insns_noted s q r xs st Hs Ela) as Hn.
  destruct (allocate_ok s frame gl Hg Hm Hst r xs st Hn Hc) as (oss & σ & Ea & Hlo & Hfit & Hp & Hle). exists oss.
  split; [unfold gen_code; rewrite Em; cbn [mbind res_bind]; by rewrite Ea|]. split; [congruence|]. split; [done|]. intros W E HE h w.
  destruct (allocate_runs s frame gl Hg Hm Hst r xs st Hn Hc E oss σ h w Ea Hp Hle) as (v & Hlv & Hgv & Hrun).
  exists v. split; [done|]. split; [done|]. intros c a h' Hr He. destruct (Hrun c Hr) as (v' & Hir & [Hex _ _]).
  destruct (Hex a h' He) as [Hexit Hgl]. destruct (middle_end_correct E s p l v w Hw Hl Hlv) as (r' & xs' & Em' & _ & Hmid).
  rewrite Em in Em'. injection Em' as <- <-.
  destruct (Hmid _ a Hir Hexit) as (c' & Hp' & Hcases). exists c'. split; [done|]. cbn [ip vals world] in Hcases. by rewrite <- Hgl in Hcases.
Qed.

(** ** An example *)

(** A load from the CPU state is added to a global. *)
Definition ex_temps : tcg_temps :=
  mkTemps 2 [mkTemp TCG_TYPE_I64 false; mkTemp TCG_TYPE_I64 false; mkTemp TCG_TYPE_I64 false].
Definition no_place : ra_temp := mkRa TEMP_VAL_DEAD 0 0 0 0 false false false.
Definition ex_globals : list ra_temp :=
  [mkRa TEMP_VAL_REG TCG_AREG0 0 0 0 true false false; mkRa TEMP_VAL_MEM 0 0 TCG_AREG0 16 false false true; no_place].
Definition ex_program : list insn :=
  [mkInsn (INDEX_op_ld TCG_TYPE_I64) [2; 0; 8]; mkInsn (INDEX_op_add TCG_TYPE_I64) [1; 1; 2];
   mkInsn INDEX_op_qtrace_instrumentation [0]; mkInsn INDEX_op_exit_tb [7]].
Definition ex_infos : infos := replicate 3 (mkInfo TCG_TEMP_COPY 1 1 3 4).

Definition ex_code : list (list lop) :=
  [[LOp (mkInsn (INDEX_op_ld TCG_TYPE_I64) [2; 0; 8]) [5; 14; 8] [false; false]];
   [LLd TCG_TYPE_I64 3 14 16; LOp (mkInsn (INDEX_op_add TCG_TYPE_I64) [1; 1; 2]) [5; 3; 5] [false; false; false];
    LSt TCG_TYPE_I64 5 14 16];
   [LOp (mkInsn INDEX_op_qtrace_instrumentation [0]) [0] []];
   [LOp (mkInsn INDEX_op_exit_tb [7]) [7] []]].

Lemma ex_gen_code : gen_code ex_temps prologue_frame ex_globals ex_program ex_infos = Ok ex_code.
Proof. vm_compute. reflexivity. Qed.

Lemma ex_checked q xs : middle_end ex_temps ex_program ex_infos = Ok (q, xs) -> alloc_check ex_temps ex_globals q start_track = true.
Proof. intros Eq. vm_compute in Eq. injection Eq as <- <-. vm_compute. reflexivity. Qed.

Definition ex_notes : list noted := [Some (2, 0); Some (7, 1); Some (0, 0); Some (0, 0)].

Lemma ex_allocate oss σ : allocate ex_temps prologue_frame reserved ex_program ex_notes ex_globals = Ok (oss, σ) -> oss = ex_code.
Proof. intros Ea. vm_compute in Ea. by injection Ea as <- _. Qed.

Definition ex_host : hstate := mkHost (fun r => if r =? TCG_AREG0 then 4096 else 0) (fun k => if bool_decide (k = (14, 16)) then 30 else 0).

Lemma ex_code_run :
  exists h, rtc (lin_step mid_env ex_temps ex_globals ex_code) (mkHc 0 ex_host 0%nat) (mkHc 3 h 1%nat) /\
    lin_exit ex_code (mkHc 3 h 1%nat) [7] h.
Proof.
  eexists. split.
  - eapply rtc_l; [eexists; split; [reflexivity|]; eapply (bs_next _ _ _ _ _ _ []); [reflexivity|constructor|constructor|];
      eapply os_primitive; [reflexivity|by split|reflexivity|exists 0; split; [by intros y [= <-]|reflexivity]]|].
    eapply rtc_l; [eexists; split; [reflexivity|]; eapply (bs_next _ _ _ _ _ _ [_]); [reflexivity|by repeat constructor|by repeat constructor|];
      eapply os_value; [reflexivity|reflexivity|eexists; split; [|reflexivity]; intros y [= <-]; reflexivity]|].
    apply rtc_once. eexists. split; [reflexivity|]. eapply (bs_next _ _ _ _ _ _ []); [reflexivity|constructor|constructor|].
    eapply (os_primitive _ _ _ _ _ _ _ _ _ [] 1%nat); [reflexivity|by split|split; reflexivity|reflexivity].
  - by eexists [], [7], [], [].
Qed.

Lemma allocation_correct_witness :
  exists v v', globals ex_temps v = hglobals ex_temps ex_globals ex_host /\
    rtc (ir_step mid_env ex_temps ex_program) (mkConfig 0 v 0%nat) (mkConfig 3 v' 1%nat).
Proof.
  destruct (allocation_correct ex_temps prologue_frame ex_globals ex_program ex_program ex_notes) as (oss & σ & Ea & _ & _ & H);
    [by vm_compute|by vm_compute|by repeat constructor|vm_compute; reflexivity..|].
  destruct (H nat mid_env ex_host 0%nat) as (v & _ & Hg & Hr).
  rewrite (ex_allocate oss σ Ea) in Hr. destruct ex_code_run as (h & Hrun & _).
  destruct (Hr _ Hrun) as (v' & Hir & _). exists v, v'. exact (conj Hg Hir).
Defined.

Lemma code_generation_correct_witness :
  exists v c' h', globals ex_temps v = hglobals ex_temps ex_globals ex_host /\
    rtc (ir_step mid_env ex_temps ex_program) (mkConfig 0 v 0%nat) c' /\
    ((c'.(ip) = 3%nat /\ ex_program !! c'.(ip) = Some (mkInsn INDEX_op_exit_tb [7]) /\
      c'.(world) = 1%nat /\ globals ex_temps c'.(vals) = hglobals ex_temps ex_globals h') \/
     ((exists i t, ex_program !! c'.(ip) = Some i /\ (i.(opc) = INDEX_op_div2 t \/ i.(opc) = INDEX_op_divu2 t)) /\
      forall d, ~ ir_step mid_env ex_temps ex_program c' d)).
Proof.
  destruct (code_generation_correct ex_temps prologue_frame ex_globals ex_program ex_infos) as (oss & Eo & _ & _ & H);
    [vm_compute; reflexivity|vm_compute; reflexivity|vm_compute; reflexivity|exact ex_checked|].
  rewrite ex_gen_code in Eo. injection Eo as <-. destruct (H nat mid_env _ ex_host 0%nat) as (v & _ & Hg & Hr).
  destruct ex_code_run as (h & Hrun & Hex). destruct (Hr _ [7] h Hrun Hex) as (c' & Hc & Hcases). exists v, c', h. exact (conj Hg (conj Hc Hcases)).
Defined.

(** ** What the allocator does not handle *)

Definition two_temps : tcg_temps :=
  mkTemps 3 (replicate 5 (mkTemp TCG_TYPE_I64 false)).
Definition two_globals : list ra_temp :=
  [mkRa TEMP_VAL_REG TCG_AREG0 0 0 0 true false false; mkRa TEMP_VAL_MEM 0 0 TCG_AREG0 16 false false true;
   mkRa TEMP_VAL_MEM 0 0 TCG_AREG0 24 false false true; no_place; no_place].

(** Liveness analysis and register allocator alone. *)
Definition allocated_code (p : list insn) : res (list (list lop)) :=
  '(q, xs) ← tcg_liveness_analysis two_temps p;
  '(oss, _) ← allocate two_temps prologue_frame reserved q xs two_globals; Ok oss.

(** A constant that is moved and dies there stays a constant, and the check at the end
    of the basic block fails. *)
Lemma const_mov_fails :
  allocated_code
    [mkInsn (INDEX_op_movi TCG_TYPE_I64) [3; 5]; mkInsn (INDEX_op_mov TCG_TYPE_I64) [4; 3];
     mkInsn (INDEX_op_add TCG_TYPE_I64) [1; 1; 4]; mkInsn INDEX_op_exit_tb [7]] = Err AssertFailed.
Proof. vm_compute. reflexivity. Qed.

(** The upper word of the second operand is in the register that the addition of the
    lower words overwrites; the check does not let such a program pass. *)
Definition shared_program : list insn :=
  [mkInsn (INDEX_op_ld TCG_TYPE_I64) [3; 0; 8]; mkInsn (INDEX_op_add2 TCG_TYPE_I64) [1; 2; 3; 1; 2; 3];
   mkInsn INDEX_op_nop []; mkInsn INDEX_op_exit_tb [7]].

Lemma add2_shares_register :
  alloc_check two_temps two_globals shared_program start_track = false /\
  allocated_code shared_program =
  Ok [[LOp (mkInsn (INDEX_op_ld TCG_TYPE_I64) [3; 0; 8]) [5; 14; 8] [false; false]];
      [LLd TCG_TYPE_I64 3 14 16; LLd TCG_TYPE_I64 12 14 24;
       LOp (mkInsn (INDEX_op_add2 TCG_TYPE_I64) [1; 2; 3; 1; 2; 3]) [5; 3; 5; 3; 12; 5] (replicate 6 false);
       LSt TCG_TYPE_I64 5 14 16; LSt TCG_TYPE_I64 3 14 24];
      []; [LOp (mkInsn INDEX_op_exit_tb [7]) [7] []]].
Proof. split; vm_compute; reflexivity. Qed.
