(* ===== verification/TbState.v ===== *)
(** * The state of the translation cache and of the software TLB

    Data of translate-all.c, include/exec/exec-all.h, include/exec/cpu-defs.h and the
    parts of exec.c that they use, and the monad in which their functions are written.

    A pointer to a translation block is its index in the array [tbs].  The lists
    through pages and jumps keep a number in the two lowest bits of a pointer: such a
    pointer is a pair.  An array of pointers that starts as zero bytes is a finite map
    from indices, in which NULL is absent. *)

From S2P Require Import Prelude QtraceDefs TlbLoad IContext.

(** ** Constants *)

Definition TARGET_PAGE_SIZE : Z := Z.shiftl 1 TARGET_PAGE_BITS.
Definition CODE_GEN_ALIGN : Z := 16.
Definition CODE_GEN_PHYS_HASH_BITS : Z := 15.
Definition CODE_GEN_PHYS_HASH_SIZE : Z := Z.shiftl 1 CODE_GEN_PHYS_HASH_BITS.
Definition CODE_GEN_AVG_BLOCK_SIZE : Z := 512.
Definition TCG_MAX_OP_SIZE : Z := 192.
Definition OPC_BUF_SIZE : Z := 640.
Definition TB_JMP_CACHE_BITS : Z := 12.
Definition TB_JMP_CACHE_SIZE : Z := Z.shiftl 1 TB_JMP_CACHE_BITS.
Definition TB_JMP_PAGE_BITS : Z := TB_JMP_CACHE_BITS / 2.
Definition TB_JMP_PAGE_SIZE : Z := Z.shiftl 1 TB_JMP_PAGE_BITS.
Definition TB_JMP_ADDR_MASK : Z := TB_JMP_PAGE_SIZE - 1.
Definition TB_JMP_PAGE_MASK : Z := TB_JMP_CACHE_SIZE - TB_JMP_PAGE_SIZE.
Definition SMC_BITMAP_USE_THRESHOLD : Z := 10.
Definition V_L2_BITS : Z := 10.
Definition V_L2_SIZE : Z := Z.shiftl 1 V_L2_BITS.
Definition TLB_INVALID_MASK : Z := Z.shiftl 1 3.
Definition TLB_NOTDIRTY : Z := Z.shiftl 1 4.
Definition TLB_MMIO : Z := Z.shiftl 1 5.
Definition CODE_DIRTY_FLAG : Z := 0x02.

(** The physical page of a block that has one page only: (tb_page_addr_t)-1. *)
Definition no_page : Z := u64 (-1).

(** ** Arrays of two *)

Definition sel {A} (n : nat) (p : A * A) : res A :=
  match n with 0%nat => Ok p.1 | 1%nat => Ok p.2 | _ => Err OutOfBounds end.
Definition upd {A} (n : nat) (x : A) (p : A * A) : A * A :=
  match n with 0%nat => (x, p.2) | 1%nat => (p.1, x) | _ => p end.

(** ** Translation blocks *)

Abbreviation tagged := (nat * nat)%type.

Record TranslationBlock := mkTb {
  tb_pc : Z; tb_cs_base : Z; tb_flags : Z; tb_size : Z; tb_cflags : Z;
  tc_ptr : Z; tc_end_ptr : Z;
  phys_hash_next : option nat;
  page_next : option tagged * option tagged;
  page_addr : Z * Z;
  qtrace_next_offset : list Z;
  tb_next_offset : Z * Z;
  tb_jmp_offset : Z * Z;
  jmp_next : option tagged * option tagged;
  jmp_first : option tagged;
  tb_icount : Z
}.

Definition set_alloc (p : Z) (t : TranslationBlock) : TranslationBlock :=
  mkTb p t.(tb_cs_base) t.(tb_flags) t.(tb_size) 0 t.(tc_ptr) t.(tc_end_ptr) t.(phys_hash_next) t.(page_next)
    t.(page_addr) t.(qtrace_next_offset) t.(tb_next_offset) t.(tb_jmp_offset) t.(jmp_next) t.(jmp_first) t.(tb_icount).
Definition set_context (ptr cs fl cfl : Z) (t : TranslationBlock) : TranslationBlock :=
  mkTb t.(tb_pc) cs fl t.(tb_size) (u16 cfl) ptr t.(tc_end_ptr) t.(phys_hash_next) t.(page_next)
    t.(page_addr) t.(qtrace_next_offset) t.(tb_next_offset) t.(tb_jmp_offset) t.(jmp_next) t.(jmp_first) t.(tb_icount).
Definition set_tc_end_ptr (x : Z) (t : TranslationBlock) : TranslationBlock :=
  mkTb t.(tb_pc) t.(tb_cs_base) t.(tb_flags) t.(tb_size) t.(tb_cflags) t.(tc_ptr) x t.(phys_hash_next) t.(page_next)
    t.(page_addr) t.(qtrace_next_offset) t.(tb_next_offset) t.(tb_jmp_offset) t.(jmp_next) t.(jmp_first) t.(tb_icount).
Definition set_phys_hash_next (x : option nat) (t : TranslationBlock) : TranslationBlock :=
  mkTb t.(tb_pc) t.(tb_cs_base) t.(tb_flags) t.(tb_size) t.(tb_cflags) t.(tc_ptr) t.(tc_end_ptr) x t.(page_next)
    t.(page_addr) t.(qtrace_next_offset) t.(tb_next_offset) t.(tb_jmp_offset) t.(jmp_next) t.(jmp_first) t.(tb_icount).
Definition set_page_next (n : nat) (x : option tagged) (t : TranslationBlock) : TranslationBlock :=
  mkTb t.(tb_pc) t.(tb_cs_base) t.(tb_flags) t.(tb_size) t.(tb_cflags) t.(tc_ptr) t.(tc_end_ptr) t.(phys_hash_next)
    (upd n x t.(page_next)) t.(page_addr) t.(qtrace_next_offset) t.(tb_next_offset) t.(tb_jmp_offset) t.(jmp_next)
    t.(jmp_first) t.(tb_icount).
Definition set_page_addr (n : nat) (x : Z) (t : TranslationBlock) : TranslationBlock :=
  mkTb t.(tb_pc) t.(tb_cs_base) t.(tb_flags) t.(tb_size) t.(tb_cflags) t.(tc_ptr) t.(tc_end_ptr) t.(phys_hash_next)
    t.(page_next) (upd n x t.(page_addr)) t.(qtrace_next_offset) t.(tb_next_offset) t.(tb_jmp_offset) t.(jmp_next)
    t.(jmp_first) t.(tb_icount).
Definition set_jmp_next (n : nat) (x : option tagged) (t : TranslationBlock) : TranslationBlock :=
  mkTb t.(tb_pc) t.(tb_cs_base) t.(tb_flags) t.(tb_size) t.(tb_cflags) t.(tc_ptr) t.(tc_end_ptr) t.(phys_hash_next)
    t.(page_next) t.(page_addr) t.(qtrace_next_offset) t.(tb_next_offset) t.(tb_jmp_offset) (upd n x t.(jmp_next))
    t.(jmp_first) t.(tb_icount).
Definition set_jmp_first (x : option tagged) (t : TranslationBlock) : TranslationBlock :=
  mkTb t.(tb_pc) t.(tb_cs_base) t.(tb_flags) t.(tb_size) t.(tb_cflags) t.(tc_ptr) t.(tc_end_ptr) t.(phys_hash_next)
    t.(page_next) t.(page_addr) t.(qtrace_next_offset) t.(tb_next_offset) t.(tb_jmp_offset) t.(jmp_next) x t.(tb_icount).
Definition set_generated (sz : Z) (q : list Z) (nxt jmp : Z * Z) (ic : Z) (t : TranslationBlock) : TranslationBlock :=
  mkTb t.(tb_pc) t.(tb_cs_base) t.(tb_flags) sz t.(tb_cflags) t.(tc_ptr) t.(tc_end_ptr) t.(phys_hash_next)
    t.(page_next) t.(page_addr) q nxt jmp t.(jmp_next) t.(jmp_first) ic.

(** ** Pages *)

Record PageDesc := mkPage {
  first_tb : option tagged; code_write_count : Z; code_bitmap : option (list Z)
}.
Definition zero_page : PageDesc := mkPage None 0 None.
Definition set_first_tb (x : option tagged) (p : PageDesc) : PageDesc := mkPage x p.(code_write_count) p.(code_bitmap).
Definition set_code_write_count (x : Z) (p : PageDesc) : PageDesc := mkPage p.(first_tb) x p.(code_bitmap).
Definition set_code_bitmap (x : option (list Z)) (p : PageDesc) : PageDesc := mkPage p.(first_tb) p.(code_write_count) x.

(** A table of level [n] of [l1_map]; one of level 0 is an array of page descriptors,
    whose absent entries are zero. *)
Fixpoint page_table (n : nat) : Type :=
  match n with O => gmap Z PageDesc | S n => gmap Z (page_table n) end.

(** V_L1_SHIFT / V_L2_BITS: with 52 bits of physical addresses V_L1_SHIFT is 30. *)
Definition L1_LEVEL : nat := 3.

(** ** Processors *)

Record CPUTLBEntry := mkTlb { addr_read : Z; addr_write : Z; addr_code : Z; addend : Z }.

(** The fields of [CPUState] and [CPUX86State] that the cache and the TLB use; of a
    watchpoint its address and flags. *)
Record CPUState := mkCpu {
  tb_jmp_cache : gmap Z nat;
  current_tb : option nat; interrupt_request : Z; tcg_exit_req : bool;
  mem_io_pc : Z; mem_io_vaddr : Z;
  tlb_table : Z -> Z -> CPUTLBEntry; iotlb : Z -> Z -> Z;
  tlb_flush_addr : Z; tlb_flush_mask : Z;
  watchpoints : list (Z * Z)
}.
Definition set_tb_jmp_cache (x : gmap Z nat) (c : CPUState) : CPUState :=
  mkCpu x c.(current_tb) c.(interrupt_request) c.(tcg_exit_req) c.(mem_io_pc) c.(mem_io_vaddr) c.(tlb_table) c.(iotlb)
    c.(tlb_flush_addr) c.(tlb_flush_mask) c.(watchpoints).
Definition set_current_tb (x : option nat) (c : CPUState) : CPUState :=
  mkCpu c.(tb_jmp_cache) x c.(interrupt_request) c.(tcg_exit_req) c.(mem_io_pc) c.(mem_io_vaddr) c.(tlb_table) c.(iotlb)
    c.(tlb_flush_addr) c.(tlb_flush_mask) c.(watchpoints).
Definition set_interrupt (x : Z) (e : bool) (c : CPUState) : CPUState :=
  mkCpu c.(tb_jmp_cache) c.(current_tb) x e c.(mem_io_pc) c.(mem_io_vaddr) c.(tlb_table) c.(iotlb)
    c.(tlb_flush_addr) c.(tlb_flush_mask) c.(watchpoints).
Definition set_mem_io (p v : Z) (c : CPUState) : CPUState :=
  mkCpu c.(tb_jmp_cache) c.(current_tb) c.(interrupt_request) c.(tcg_exit_req) p v c.(tlb_table) c.(iotlb)
    c.(tlb_flush_addr) c.(tlb_flush_mask) c.(watchpoints).
Definition set_tlb (f : Z -> Z -> CPUTLBEntry) (g : Z -> Z -> Z) (c : CPUState) : CPUState :=
  mkCpu c.(tb_jmp_cache) c.(current_tb) c.(interrupt_request) c.(tcg_exit_req) c.(mem_io_pc) c.(mem_io_vaddr) f g
    c.(tlb_flush_addr) c.(tlb_flush_mask) c.(watchpoints).
Definition set_tlb_flush (a m : Z) (c : CPUState) : CPUState :=
  mkCpu c.(tb_jmp_cache) c.(current_tb) c.(interrupt_request) c.(tcg_exit_req) c.(mem_io_pc) c.(mem_io_vaddr)
    c.(tlb_table) c.(iotlb) a m c.(watchpoints).

(** ** The whole state *)

Record cache := mkCache {
  tbs : list TranslationBlock; nb_tbs : nat;
  tb_phys_hash : gmap Z nat;
  tb_flush_count : Z; tb_phys_invalidate_count : Z; tb_invalidated_flag : bool;
  code_gen_ptr : Z;
  l1_map : page_table L1_LEVEL;
  host_code : Z -> Z;
  cpus : list CPUState; current_cpu : option nat;
  phys_dirty : Z -> Z; host_mem : Z -> Z
}.

Definition set_tbs (x : list TranslationBlock) (s : cache) : cache :=
  mkCache x s.(nb_tbs) s.(tb_phys_hash) s.(tb_flush_count) s.(tb_phys_invalidate_count) s.(tb_invalidated_flag)
    s.(code_gen_ptr) s.(l1_map) s.(host_code) s.(cpus) s.(current_cpu) s.(phys_dirty) s.(host_mem).
Definition set_nb_tbs (x : nat) (s : cache) : cache :=
  mkCache s.(tbs) x s.(tb_phys_hash) s.(tb_flush_count) s.(tb_phys_invalidate_count) s.(tb_invalidated_flag)
    s.(code_gen_ptr) s.(l1_map) s.(host_code) s.(cpus) s.(current_cpu) s.(phys_dirty) s.(host_mem).
Definition set_tb_phys_hash (x : gmap Z nat) (s : cache) : cache :=
  mkCache s.(tbs) s.(nb_tbs) x s.(tb_flush_count) s.(tb_phys_invalidate_count) s.(tb_invalidated_flag)
    s.(code_gen_ptr) s.(l1_map) s.(host_code) s.(cpus) s.(current_cpu) s.(phys_dirty) s.(host_mem).
Definition set_counts (f i : Z) (s : cache) : cache :=
  mkCache s.(tbs) s.(nb_tbs) s.(tb_phys_hash) f i s.(tb_invalidated_flag)
    s.(code_gen_ptr) s.(l1_map) s.(host_code) s.(cpus) s.(current_cpu) s.(phys_dirty) s.(host_mem).
Definition set_invalidated (x : bool) (s : cache) : cache :=
  mkCache s.(tbs) s.(nb_tbs) s.(tb_phys_hash) s.(tb_flush_count) s.(tb_phys_invalidate_count) x
    s.(code_gen_ptr) s.(l1_map) s.(host_code) s.(cpus) s.(current_cpu) s.(phys_dirty) s.(host_mem).
Definition set_code_gen_ptr (x : Z) (s : cache) : cache :=
  mkCache s.(tbs) s.(nb_tbs) s.(tb_phys_hash) s.(tb_flush_count) s.(tb_phys_invalidate_count) s.(tb_invalidated_flag)
    x s.(l1_map) s.(host_code) s.(cpus) s.(current_cpu) s.(phys_dirty) s.(host_mem).
Definition set_l1_map (x : page_table L1_LEVEL) (s : cache) : cache :=
  mkCache s.(tbs) s.(nb_tbs) s.(tb_phys_hash) s.(tb_flush_count) s.(tb_phys_invalidate_count) s.(tb_invalidated_flag)
    s.(code_gen_ptr) x s.(host_code) s.(cpus) s.(current_cpu) s.(phys_dirty) s.(host_mem).
Definition set_host_code (x : Z -> Z) (s : cache) : cache :=
  mkCache s.(tbs) s.(nb_tbs) s.(tb_phys_hash) s.(tb_flush_count) s.(tb_phys_invalidate_count) s.(tb_invalidated_flag)
    s.(code_gen_ptr) s.(l1_map) x s.(cpus) s.(current_cpu) s.(phys_dirty) s.(host_mem).
Definition set_cpus (x : list CPUState) (s : cache) : cache :=
  mkCache s.(tbs) s.(nb_tbs) s.(tb_phys_hash) s.(tb_flush_count) s.(tb_phys_invalidate_count) s.(tb_invalidated_flag)
    s.(code_gen_ptr) s.(l1_map) s.(host_code) x s.(current_cpu) s.(phys_dirty) s.(host_mem).
Definition set_memory (d m : Z -> Z) (s : cache) : cache :=
  mkCache s.(tbs) s.(nb_tbs) s.(tb_phys_hash) s.(tb_flush_count) s.(tb_phys_invalidate_count) s.(tb_invalidated_flag)
    s.(code_gen_ptr) s.(l1_map) s.(host_code) s.(cpus) s.(current_cpu) d m.

(** ** The monad

    A computation fails where the C code does something undefined or aborts; it
    yields [None] where the C code leaves with siglongjmp. *)

Definition cm (A : Type) : Type := cache -> res (option A * cache).

#[export] Instance cm_ret : MRet cm := fun A a s => Ok (Some a, s).
#[export] Instance cm_bind : MBind cm := fun A B f m s =>
  '(o, s1) ← m s; match o with Some a => f a s1 | None => Ok (None, s1) end.

Definition fail {A} (e : cerror) : cm A := fun _ => Err e.
Definition longjmp {A} : cm A := fun s => Ok (None, s).
Definition gets {A} (f : cache -> A) : cm A := fun s => Ok (Some (f s), s).
Definition modify (f : cache -> cache) : cm unit := fun s => Ok (Some tt, f s).
Definition lift {A} (r : res A) : cm A := fun s => a ← r; Ok (Some a, s).
Definition cassert (b : bool) : cm unit := if b then mret tt else fail AssertFailed.
Definition cwhen (b : bool) (m : cm unit) : cm unit := if b then m else mret tt.

Fixpoint ceach {A} (f : A -> cm unit) (l : list A) : cm unit :=
  match l with [] => mret tt | x :: l => f x ;; ceach f l end.

(** *** Accesses through pointers *)

Definition get_tb (t : nat) : cm TranslationBlock := fun s =>
  match s.(tbs) !! t with Some b => Ok (Some b, s) | None => Err BadPointer end.
Definition upd_tb (t : nat) (f : TranslationBlock -> TranslationBlock) : cm unit := fun s =>
  match s.(tbs) !! t with Some b => Ok (Some tt, set_tbs (<[t := f b]> s.(tbs)) s) | None => Err BadPointer end.
Definition get_cpu (c : nat) : cm CPUState := fun s =>
  match s.(cpus) !! c with Some b => Ok (Some b, s) | None => Err BadPointer end.
Definition upd_cpu (c : nat) (f : CPUState -> CPUState) : cm unit := fun s =>
  match s.(cpus) !! c with Some b => Ok (Some tt, set_cpus (<[c := f b]> s.(cpus)) s) | None => Err BadPointer end.
(** CPU_FOREACH *)
Definition upd_cpus (f : CPUState -> CPUState) : cm unit := modify (fun s => set_cpus (f <$> s.(cpus)) s).

Definition not_null {A} (o : option A) : cm A := match o with Some a => mret a | None => fail NullDeref end.
