(* ===== verification/TbPages.v ===== *)
(** * The map from physical pages to page descriptors (translate-all.c)

    [l1_map] is a tree of tables with ten bits of the page number at each level.
    Seen from outside it is a function from page numbers to descriptors
    ([page_of]): an allocation does not change it, an update changes one page. *)

From S2P Require Import Prelude QtraceDefs TlbLoad IContext TbState.

(** The index into a table of level [n]. *)
Definition level_index (n : nat) (index : Z) : Z :=
  Z.land (Z.shiftr index (Z.of_nat n * V_L2_BITS)) (V_L2_SIZE - 1).

Definition empty_table (n : nat) : page_table n :=
  match n with O => (∅ : gmap Z PageDesc) | S n => (∅ : gmap Z (page_table n)) end.

(** The loop of [page_find_alloc] with [alloc] = 0. *)
Fixpoint find_in (n : nat) : page_table n -> Z -> option PageDesc :=
  match n with
  | O => fun (t : gmap Z PageDesc) index => Some (default zero_page (t !! level_index 0 index))
  | S n => fun (t : gmap Z (page_table n)) index =>
      match t !! level_index (S n) index with Some p => find_in n p index | None => None end
  end.

(** With [alloc] = 1: missing tables are allocated. *)
Fixpoint alloc_in (n : nat) : page_table n -> Z -> page_table n :=
  match n with
  | O => fun t index => t
  | S n => fun (t : gmap Z (page_table n)) index =>
      let p := default (empty_table n) (t !! level_index (S n) index) in
      <[level_index (S n) index := alloc_in n p index]> t
  end.

(** A write through the pointer to the descriptor of a page. *)
Fixpoint update_in (n : nat) (f : PageDesc -> PageDesc) : page_table n -> Z -> page_table n :=
  match n with
  | O => fun (t : gmap Z PageDesc) index =>
      <[level_index 0 index := f (default zero_page (t !! level_index 0 index))]> t
  | S n => fun (t : gmap Z (page_table n)) index => alter (fun p => update_in n f p index) (level_index (S n) index) t
  end.

Definition invalidated_page (p : PageDesc) : PageDesc := mkPage p.(first_tb) 0 None.

(** All descriptors of a table. *)
Fixpoint page_flush_tb_1 (n : nat) : page_table n -> page_table n :=
  match n with
  | O => fun (t : gmap Z PageDesc) => (fun p => invalidated_page (set_first_tb None p)) <$> t
  | S n => fun (t : gmap Z (page_table n)) => page_flush_tb_1 n <$> t
  end.

(** A pointer to a descriptor is the number of its page. *)
Definition page_find_alloc (index : Z) (alloc : bool) : cm (option Z) := fun s =>
  if alloc then Ok (Some (Some index), set_l1_map (alloc_in L1_LEVEL s.(l1_map) index) s)
  else match find_in L1_LEVEL s.(l1_map) index with
       | Some _ => Ok (Some (Some index), s)
       | None => Ok (Some None, s)
       end.
Definition page_find (index : Z) : cm (option Z) := page_find_alloc index false.

Definition get_page (p : Z) : cm PageDesc := fun s =>
  match find_in L1_LEVEL s.(l1_map) p with Some d => Ok (Some d, s) | None => Err BadPointer end.
Definition upd_page (p : Z) (f : PageDesc -> PageDesc) : cm unit := fun s =>
  match find_in L1_LEVEL s.(l1_map) p with
  | Some _ => Ok (Some tt, set_l1_map (update_in L1_LEVEL f s.(l1_map) p) s)
  | None => Err BadPointer
  end.

Definition invalidate_page_bitmap (p : Z) : cm unit := upd_page p invalidated_page.
Definition page_flush_tb : cm unit := modify (fun s => set_l1_map (page_flush_tb_1 L1_LEVEL s.(l1_map)) s).

(** ** The map as a function *)

Definition page_in (n : nat) (t : page_table n) (index : Z) : PageDesc := default zero_page (find_in n t index).
Definition page_of (s : cache) (index : Z) : PageDesc := page_in L1_LEVEL s.(l1_map) index.

Lemma find_in_empty n index : page_in n (empty_table n) index = zero_page.
Proof. destruct n; unfold page_in; cbn; by rewrite lookup_empty. Qed.

Lemma find_in_alloc n t index : is_Some (find_in n (alloc_in n t index) index).
Proof. induction n as [|n IH]; cbn; [by eexists|]. rewrite lookup_insert, decide_True by done. apply IH. Qed.

Lemma page_in_alloc n t index j : page_in n (alloc_in n t index) j = page_in n t j.
Proof.
  induction n as [|n IH]; [done|]. unfold page_in in *. cbn.
  destruct (decide (level_index (S n) index = level_index (S n) j)) as [E|E].
  - rewrite <- E, lookup_insert, decide_True, IH by done. destruct (_ !! _); [done|]. apply find_in_empty.
  - by rewrite lookup_insert_ne.
Qed.

Lemma find_in_alloc_keep n t index j : is_Some (find_in n t j) -> is_Some (find_in n (alloc_in n t index) j).
Proof.
  revert t. induction n as [|n IH]; intros t; [done|]. cbn.
  destruct (decide (level_index (S n) index = level_index (S n) j)) as [E|E].
  - rewrite <- E, lookup_insert, decide_True by done. destruct (_ !! _); [apply IH|by intros [? ?]].
  - by rewrite lookup_insert_ne.
Qed.

Lemma find_in_update_keep n f t index j : is_Some (find_in n t j) -> is_Some (find_in n (update_in n f t index) j).
Proof.
  revert t. induction n as [|n IH]; intros t; cbn; [by eexists|].
  destruct (decide (level_index (S n) index = level_index (S n) j)) as [E|E].
  - rewrite <- E, lookup_alter, decide_True by done. destruct (_ !! _); cbn; [apply IH|by intros [? ?]].
  - by rewrite lookup_alter_ne.
Qed.

(** Two page numbers with the same index at every level are equal. *)
Fixpoint same_index (n : nat) (i j : Z) : Prop :=
  level_index n i = level_index n j /\ match n with O => True | S n => same_index n i j end.

Lemma page_in_update n f t i j :
  is_Some (find_in n t i) ->
  (same_index n i j -> page_in n (update_in n f t i) j = f (page_in n t i)) /\
  (~ same_index n i j -> page_in n (update_in n f t i) j = page_in n t j).
Proof.
  revert t. induction n as [|n IH]; intros t Hs.
  - unfold page_in. cbn. split.
    + intros [<- _]. by rewrite lookup_insert, decide_True.
    + intros H. rewrite lookup_insert_ne; [done|]. intros E. by apply H.
  - unfold page_in in *. cbn in *. destruct (decide (level_index (S n) i = level_index (S n) j)) as [E|E].
    + rewrite <- E, lookup_alter, decide_True by done. destruct (_ !! _) as [p|]; [|by destruct Hs]. cbn.
      destruct (IH p Hs) as [H1 H2]. split; [by intros [_ H]; apply H1|]. intros H. apply H2. intros H'. by apply H.
    + split; [by intros [? _]|]. by rewrite lookup_alter_ne.
Qed.

Lemma level_index_bits n i k : 0 <= k < V_L2_BITS -> Z.testbit (level_index n i) k = Z.testbit i (Z.of_nat n * V_L2_BITS + k).
Proof.
  unfold level_index. intros Hk. change (V_L2_SIZE - 1) with (Z.ones 10). rewrite Z.land_spec. unfold V_L2_BITS in *.
  rewrite Z.ones_spec_low, andb_true_r, Z.shiftr_spec by lia. f_equal. lia.
Qed.

Lemma same_index_bits n i j k :
  same_index n i j -> 0 <= k < (Z.of_nat n + 1) * V_L2_BITS -> Z.testbit i k = Z.testbit j k.
Proof.
  unfold V_L2_BITS. revert k. induction n as [|n IH]; intros k H Hk.
  - destruct H as [H _]. pose proof (level_index_bits 0 i k) as Hi. pose proof (level_index_bits 0 j k) as Hj.
    unfold V_L2_BITS in *. change (Z.of_nat 0 * 10 + k) with k in Hi, Hj. rewrite <- Hi, <- Hj by lia. by rewrite H.
  - destruct H as [H Hr]. destruct (decide (k < (Z.of_nat n + 1) * 10)); [apply IH; [done|lia]|].
    pose proof (level_index_bits (S n) i (k - Z.of_nat (S n) * 10)) as Hi.
    pose proof (level_index_bits (S n) j (k - Z.of_nat (S n) * 10)) as Hj. unfold V_L2_BITS in *.
    replace (Z.of_nat (S n) * 10 + (k - Z.of_nat (S n) * 10)) with k in Hi, Hj by lia.
    rewrite <- Hi, <- Hj by lia. by rewrite H.
Qed.

Lemma same_index_refl n i : same_index n i i.
Proof. induction n; by cbn. Qed.

(** The page numbers of 52-bit physical addresses. *)
Definition page_index (i : Z) : Prop := in_u 40 i.

Lemma same_index_eq i j : page_index i -> page_index j -> same_index L1_LEVEL i j -> i = j.
Proof.
  intros Hi Hj H. apply Z.bits_inj'. intros k Hk. destruct (decide (k < 40)).
  - apply (same_index_bits L1_LEVEL); [done|]. unfold V_L2_BITS, L1_LEVEL. lia.
  - unfold page_index in *. rewrite !(testbit_above 40) by (done || lia). done.
Qed.

(** *** Effect of the operations *)

Lemma page_of_upd s p f j :
  is_Some (find_in L1_LEVEL s.(l1_map) p) -> page_index p -> page_index j ->
  page_of (set_l1_map (update_in L1_LEVEL f s.(l1_map) p) s) j = if decide (j = p) then f (page_of s p) else page_of s j.
Proof.
  intros Hs Hp Hj. unfold page_of. cbn [l1_map set_l1_map]. destruct (page_in_update L1_LEVEL f _ p j Hs) as [H1 H2].
  case_decide as E; [subst; by apply H1, same_index_refl|]. apply H2. intros H. by apply E; symmetry; apply same_index_eq.
Qed.

Lemma page_of_alloc s i j : page_of (set_l1_map (alloc_in L1_LEVEL s.(l1_map) i) s) j = page_of s j.
Proof. apply page_in_alloc. Qed.

Lemma page_in_flush n t j : page_in n (page_flush_tb_1 n t) j = zero_page.
Proof.
  revert t. induction n as [|n IH]; intros t; unfold page_in in *; cbn; rewrite lookup_fmap.
  - by destruct (_ !! _).
  - destruct (_ !! _); [apply IH|done].
Qed.
