(* ===== verification/Tlb.v ===== *)
(** * The software TLB and the dirty flags of memory

    cputlb.c, and of exec.c and include/exec/memory-internal.h what it uses: RAM
    blocks, dirty flags and the entries for I/O.  The statistics counter of
    [tlb_flush] is left out. *)

From S2P Require Import Prelude QtraceDefs TlbLoad IContext TbState TbPages.

(** ** Memory of the guest *)

Record RAMBlock := mkBlock { block_host : Z; block_offset : Z; block_length : Z }.

(** What [address_space_translate_for_iotlb] finds for a physical page. *)
Record MemoryRegionSection := mkSection {
  is_ram : bool; is_romd : bool; readonly : bool; mr_ram_addr : Z; section_index : Z
}.

Definition PHYS_SECTION_UNASSIGNED : Z := 0.
Definition PHYS_SECTION_NOTDIRTY : Z := 1.
Definition PHYS_SECTION_ROM : Z := 2.
Definition PHYS_SECTION_WATCH : Z := 3.
Definition PAGE_READ : Z := 1.
Definition PAGE_WRITE : Z := 2.
Definition PAGE_EXEC : Z := 4.
Definition BP_MEM_READ : Z := 1.

(** The machine: its RAM blocks, the memory map (memory.c), whether the section at an
    index belongs to a ROM device, and for each processor its MMU mode and the walk
    through its page tables, which yields a physical page, its protection and its size,
    or a fault (target-i386). *)
Class Machine := {
  ram_blocks : list RAMBlock;
  section_for_iotlb : Z -> MemoryRegionSection * Z * Z;
  rom_device : Z -> bool;
  cpu_mmu_index : nat -> cache -> Z;
  page_walk : nat -> Z -> Z -> Z -> cache -> option (Z * Z * Z)
}.

Section Memory.
Context {machine : Machine}.

(** The C code tries the block it used last first; a block is found by its range. *)
Definition in_block (addr : Z) (b : RAMBlock) : bool := u64 (addr - b.(block_offset)) <? b.(block_length).
Definition in_host (p : Z) (b : RAMBlock) : bool := u64 (p - b.(block_host)) <? b.(block_length).

Definition qemu_get_ram_block (addr : Z) : cm RAMBlock :=
  match List.find (in_block addr) ram_blocks with Some b => mret b | None => fail TcgAbort end.

Definition qemu_get_ram_ptr (addr : Z) : cm Z :=
  b ← qemu_get_ram_block addr; mret (u64 (b.(block_host) + (addr - b.(block_offset)))).

Definition qemu_ram_addr_from_host (p : Z) : option Z :=
  match List.find (in_host p) ram_blocks with
  | Some b => Some (u64 (b.(block_offset) + (p - b.(block_host))))
  | None => None
  end.
Definition qemu_ram_addr_from_host_nofail (p : Z) : cm Z :=
  match qemu_ram_addr_from_host p with Some a => mret a | None => fail TcgAbort end.

(** A region is known by the index of its section. *)
Definition memory_region_is_unassigned (mr : Z) : bool :=
  negb (mr =? PHYS_SECTION_ROM) && negb (mr =? PHYS_SECTION_NOTDIRTY) && negb (rom_device mr) && negb (mr =? PHYS_SECTION_WATCH).

(** *** Dirty flags *)

Definition page_number (addr : Z) : Z := Z.shiftr addr TARGET_PAGE_BITS.
Definition TARGET_PAGE_ALIGN (addr : Z) : Z := Z.land (u64 (addr + TARGET_PAGE_SIZE - 1)) TARGET_PAGE_MASK.

Definition set_dirty_entry (p f : Z) (d : Z -> Z) : Z -> Z := fun q => if q =? p then f else d q.
Definition upd_dirty (addr : Z) (f : Z -> Z) : cm unit :=
  modify (fun s => set_memory (set_dirty_entry (page_number addr) (f (s.(phys_dirty) (page_number addr))) s.(phys_dirty))
                     s.(host_mem) s).

Definition cpu_physical_memory_get_dirty_flags (addr : Z) : cm Z := gets (fun s => s.(phys_dirty) (page_number addr)).
Definition cpu_physical_memory_is_dirty (addr : Z) : cm bool :=
  f ← cpu_physical_memory_get_dirty_flags addr; mret (f =? 0xff).
Definition cpu_physical_memory_set_dirty_flags (addr flags : Z) : cm unit :=
  upd_dirty addr (fun f => Z.lor f flags).
Definition cpu_physical_memory_clear_dirty_flags (addr flags : Z) : cm unit :=
  upd_dirty addr (fun f => Z.land f (Z.lnot flags)).

(** The pages from [start] on; [n] of them. *)
Definition pages_from (start : Z) (n : nat) : list Z := (fun k => start + Z.of_nat k * TARGET_PAGE_SIZE) <$> seq 0 n.
Definition cpu_physical_memory_mask_dirty_range (start length flags : Z) : cm unit :=
  let last := TARGET_PAGE_ALIGN (start + length) in
  let start := Z.land start TARGET_PAGE_MASK in
  ceach (fun addr => cpu_physical_memory_clear_dirty_flags addr flags)
    (pages_from start (Z.to_nat ((last - start) / TARGET_PAGE_SIZE))).

(** ** Entries of the TLB *)

Definition s_cputlb_empty_entry : CPUTLBEntry := mkTlb (u64 (-1)) (u64 (-1)) (u64 (-1)) (u64 (-1)).

Definition tlb_index (addr : Z) : Z := Z.land (Z.shiftr addr TARGET_PAGE_BITS) (CPU_TLB_SIZE - 1).

Definition upd2 {A} (m i : Z) (x : A) (f : Z -> Z -> A) : Z -> Z -> A :=
  fun m' i' => if (m' =? m) && (i' =? i) then x else f m' i'.
(** All modes, and all entries or one entry of each. *)
Definition in_modes (m : Z) : bool := (0 <=? m) && (m <? NB_MMU_MODES).
Definition in_tlb (m i : Z) : bool := in_modes m && (0 <=? i) && (i <? CPU_TLB_SIZE).
Definition map_tlb (sel : Z -> Z -> bool) (g : CPUTLBEntry -> CPUTLBEntry) (f : Z -> Z -> CPUTLBEntry)
    : Z -> Z -> CPUTLBEntry := fun m i => if sel m i then g (f m i) else f m i.

Definition tlb_flush_cpu (c : CPUState) : CPUState :=
  set_tlb_flush (u64 (-1)) 0 (set_tb_jmp_cache ∅
    (set_tlb (map_tlb in_tlb (fun _ => s_cputlb_empty_entry) c.(tlb_table)) c.(iotlb) (set_current_tb None c))).
Definition tlb_flush (env : nat) : cm unit := upd_cpu env tlb_flush_cpu.

Definition tlb_flush_entry (addr : Z) (e : CPUTLBEntry) : CPUTLBEntry :=
  let tag a := Z.land a (Z.lor TARGET_PAGE_MASK TLB_INVALID_MASK) in
  if (addr =? tag e.(addr_read)) || (addr =? tag e.(addr_write)) || (addr =? tag e.(addr_code))
  then s_cputlb_empty_entry else e.

(** *** The jump cache, by virtual page (translate-all.c, exec-all.h) *)

Definition tb_jmp_cache_hash_page (pc : Z) : Z :=
  let tmp := Z.lxor pc (Z.shiftr pc (TARGET_PAGE_BITS - TB_JMP_PAGE_BITS)) in
  Z.land (Z.shiftr tmp (TARGET_PAGE_BITS - TB_JMP_PAGE_BITS)) TB_JMP_PAGE_MASK.
Definition tb_jmp_cache_hash_func (pc : Z) : Z :=
  let tmp := Z.lxor pc (Z.shiftr pc (TARGET_PAGE_BITS - TB_JMP_PAGE_BITS)) in
  Z.lor (Z.land (Z.shiftr tmp (TARGET_PAGE_BITS - TB_JMP_PAGE_BITS)) TB_JMP_PAGE_MASK)
        (Z.land tmp TB_JMP_ADDR_MASK).

(** memset on [TB_JMP_PAGE_SIZE] entries *)
Definition clear_jmp_page (i : Z) (m : gmap Z nat) : gmap Z nat :=
  filter (fun x => ~ (i <= x.1 < i + TB_JMP_PAGE_SIZE)) m.
Definition flush_jmp_cache (addr : Z) (c : CPUState) : CPUState :=
  set_tb_jmp_cache (clear_jmp_page (tb_jmp_cache_hash_page addr)
    (clear_jmp_page (tb_jmp_cache_hash_page (u64 (addr - TARGET_PAGE_SIZE))) c.(tb_jmp_cache))) c.
Definition tb_flush_jmp_cache (env : nat) (addr : Z) : cm unit := upd_cpu env (flush_jmp_cache addr).

Definition tlb_flush_page (env : nat) (addr : Z) : cm unit :=
  c ← get_cpu env;
  if Z.land addr c.(tlb_flush_mask) =? c.(tlb_flush_addr) then tlb_flush env
  else
    upd_cpu env (set_current_tb None) ;;
    let addr := Z.land addr TARGET_PAGE_MASK in
    upd_cpu env (fun c => set_tlb
      (map_tlb (fun m i => in_modes m && (i =? tlb_index addr)) (tlb_flush_entry addr) c.(tlb_table)) c.(iotlb) c) ;;
    tb_flush_jmp_cache env addr.

(** *** Protection of pages with code *)

Definition tlb_is_dirty_ram (e : CPUTLBEntry) : bool :=
  Z.land e.(addr_write) (Z.lor (Z.lor TLB_INVALID_MASK TLB_MMIO) TLB_NOTDIRTY) =? 0.

Definition set_addr_write (x : Z) (e : CPUTLBEntry) : CPUTLBEntry :=
  mkTlb e.(addr_read) x e.(addr_code) e.(addend).

Definition tlb_reset_dirty_range (start length : Z) (e : CPUTLBEntry) : CPUTLBEntry :=
  if tlb_is_dirty_ram e then
    let addr := u64 (Z.land e.(addr_write) TARGET_PAGE_MASK + e.(addend)) in
    if u64 (addr - start) <? length then set_addr_write (Z.lor e.(addr_write) TLB_NOTDIRTY) e else e
  else e.

Definition cpu_tlb_reset_dirty_all (start1 length : Z) : cm unit :=
  upd_cpus (fun c => set_tlb (map_tlb in_tlb (tlb_reset_dirty_range start1 length) c.(tlb_table)) c.(iotlb) c).

Definition tlb_reset_dirty_range_all (start last length : Z) : cm unit :=
  block ← qemu_get_ram_block start;
  block1 ← qemu_get_ram_block (last - 1);
  cassert (bool_decide (block.(block_offset) = block1.(block_offset))) ;;
  cpu_tlb_reset_dirty_all (u64 (block.(block_host) + (start - block.(block_offset)))) length.

Definition cpu_physical_memory_reset_dirty (start last flags : Z) : cm unit :=
  let start := Z.land start TARGET_PAGE_MASK in
  let last := TARGET_PAGE_ALIGN last in
  let length := u64 (last - start) in
  cwhen (negb (length =? 0))
    (cpu_physical_memory_mask_dirty_range start length flags ;; tlb_reset_dirty_range_all start last length).

Definition tlb_protect_code (ram_addr : Z) : cm unit :=
  cpu_physical_memory_reset_dirty ram_addr (ram_addr + TARGET_PAGE_SIZE) CODE_DIRTY_FLAG.
Definition tlb_unprotect_code_phys (ram_addr : Z) : cm unit :=
  cpu_physical_memory_set_dirty_flags ram_addr CODE_DIRTY_FLAG.

Definition tlb_set_dirty1 (vaddr : Z) (e : CPUTLBEntry) : CPUTLBEntry :=
  if e.(addr_write) =? Z.lor vaddr TLB_NOTDIRTY then set_addr_write vaddr e else e.
Definition tlb_set_dirty (env : nat) (vaddr : Z) : cm unit :=
  let vaddr := Z.land vaddr TARGET_PAGE_MASK in
  upd_cpu env (fun c => set_tlb
    (map_tlb (fun m i => in_modes m && (i =? tlb_index vaddr)) (tlb_set_dirty1 vaddr) c.(tlb_table)) c.(iotlb) c).

(** *** New entries *)

(** The loop ends with a mask of at most 64 zero bits. *)
Fixpoint widen (fuel : nat) (x mask : Z) : option Z :=
  match fuel with
  | O => None
  | S fuel => if Z.land x mask =? 0 then Some mask else widen fuel x (u64 (Z.shiftl mask 1))
  end.
Definition tlb_add_large_page (env : nat) (vaddr size : Z) : cm unit :=
  let mask := u64 (Z.lnot (size - 1)) in
  c ← get_cpu env;
  if c.(tlb_flush_addr) =? u64 (-1) then upd_cpu env (set_tlb_flush (Z.land vaddr mask) mask)
  else
    match widen 65 (Z.lxor c.(tlb_flush_addr) vaddr) (Z.land mask c.(tlb_flush_mask)) with
    | Some mask => upd_cpu env (set_tlb_flush (Z.land c.(tlb_flush_addr) mask) mask)
    | None => fail OutOfFuel
    end.

Definition memory_region_section_get_iotlb (c : CPUState) (section : MemoryRegionSection) (vaddr paddr xlat prot : Z)
    (address : Z) : Z * Z :=
  let iotlb :=
    if section.(is_ram) then
      Z.lor (Z.land section.(mr_ram_addr) TARGET_PAGE_MASK + xlat)
        (if section.(readonly) then PHYS_SECTION_ROM else PHYS_SECTION_NOTDIRTY)
    else section.(section_index) + xlat in
  if existsb (fun wp => (vaddr =? Z.land wp.1 TARGET_PAGE_MASK) && (testb prot PAGE_WRITE || testb wp.2 BP_MEM_READ))
       c.(watchpoints)
  then (PHYS_SECTION_WATCH + paddr, Z.lor address TLB_MMIO)
  else (iotlb, address).

Definition tlb_set_page (env : nat) (vaddr paddr prot mmu_idx size : Z) : cm unit :=
  cassert (TARGET_PAGE_SIZE <=? size) ;;
  cwhen (negb (size =? TARGET_PAGE_SIZE)) (tlb_add_large_page env vaddr size) ;;
  let '(section, xlat, sz) := section_for_iotlb paddr in
  cassert (TARGET_PAGE_SIZE <=? sz) ;;
  '(code_address, adj) ←
    (if negb section.(is_ram) && negb section.(is_romd) then mret (Z.lor vaddr TLB_MMIO, 0)
     else p ← qemu_get_ram_ptr (Z.land section.(mr_ram_addr) TARGET_PAGE_MASK); mret (vaddr, u64 (p + xlat)));
  c ← get_cpu env;
  let '(io, address) := memory_region_section_get_iotlb c section vaddr paddr xlat prot code_address in
  dirty ← cpu_physical_memory_is_dirty (section.(mr_ram_addr) + xlat);
  let te := mkTlb
    (if testb prot PAGE_READ then address else u64 (-1))
    (if testb prot PAGE_WRITE then
       if section.(is_ram) && section.(readonly) || section.(is_romd) then Z.lor address TLB_MMIO
       else if section.(is_ram) && negb dirty then Z.lor address TLB_NOTDIRTY
       else address
     else u64 (-1))
    (if testb prot PAGE_EXEC then code_address else u64 (-1))
    (u64 (adj - vaddr)) in
  upd_cpu env (fun c => set_tlb (upd2 mmu_idx (tlb_index vaddr) te c.(tlb_table))
                          (upd2 mmu_idx (tlb_index vaddr) (u64 (io - vaddr)) c.(iotlb)) c).

(** A walk through the page tables fills the entry or raises a page fault. *)
Definition tlb_fill (env : nat) (addr access mmu_idx : Z) : cm unit :=
  w ← gets (page_walk env addr access mmu_idx);
  match w with
  | Some (paddr, prot, size) => tlb_set_page env (Z.land addr TARGET_PAGE_MASK) paddr prot mmu_idx size
  | None => longjmp
  end.

(** The load of one byte of code (softmmu_template.h); an entry with flags for the
    right page makes it an access to a device, which is outside this state. *)
Definition cpu_ldub_code (env : nat) (addr mmu_idx : Z) : cm unit :=
  c ← get_cpu env;
  let tlb_addr := (c.(tlb_table) mmu_idx (tlb_index addr)).(addr_code) in
  cwhen (negb (Z.land addr TARGET_PAGE_MASK =? Z.land tlb_addr (Z.lor TARGET_PAGE_MASK TLB_INVALID_MASK)))
    (tlb_fill env addr 2 mmu_idx).

Definition get_page_addr_code (env : nat) (addr : Z) : cm Z :=
  mmu_idx ← gets (cpu_mmu_index env);
  c ← get_cpu env;
  cwhen (negb ((c.(tlb_table) mmu_idx (tlb_index addr)).(addr_code) =? Z.land addr TARGET_PAGE_MASK))
    (cpu_ldub_code env addr mmu_idx) ;;
  c ← get_cpu env;
  if memory_region_is_unassigned (Z.land (c.(iotlb) mmu_idx (tlb_index addr)) (Z.lnot TARGET_PAGE_MASK)) then fail TcgAbort
  else qemu_ram_addr_from_host_nofail (u64 (addr + (c.(tlb_table) mmu_idx (tlb_index addr)).(addend))).
End Memory.
