(* ===== verification/TbCache.v ===== *)
(** * The translation cache (translate-all.c, include/exec/exec-all.h, cpu-exec.c)

    Translation blocks are allocated in an array, linked into the hash table by
    physical address, into the lists of the one or two physical pages of their code
    and, where blocks are chained, into the lists of jumps to a block.  A pointer to a
    pointer, as the loops over lists use it, is a [slot].  Loops over lists have the
    number of list nodes that the array can hold as fuel.

    The front end and the back end are a parameter ([Translator]): code for a block,
    and the guest state at a place in it.  Counted execution (-icount) is left out. *)

From S2P Require Import Prelude QtraceDefs TlbLoad IContext TbState TbPages Tlb.

(** ** The buffer of generated code *)

Record code_gen := mkGen {
  code_gen_buffer : Z; code_gen_buffer_size : Z; code_gen_buffer_max_size : Z; code_gen_max_blocks : Z
}.

Definition MIN_CODE_GEN_BUFFER_SIZE : Z := 1024 * 1024.
Definition MAX_CODE_GEN_BUFFER_SIZE : Z := 2 * 1024 * 1024 * 1024.

Definition size_code_gen_buffer (tb_size ram_size : Z) : Z :=
  let tb_size := if tb_size =? 0 then ram_size / 4 else tb_size in
  let tb_size := if tb_size <? MIN_CODE_GEN_BUFFER_SIZE then MIN_CODE_GEN_BUFFER_SIZE else tb_size in
  if MAX_CODE_GEN_BUFFER_SIZE <? tb_size then MAX_CODE_GEN_BUFFER_SIZE else tb_size.

(** [buf] is the address that mmap yields; [low] if it is asked for low memory. *)
Definition code_gen_alloc (low : bool) (tb_size ram_size buf : Z) : code_gen :=
  let size := size_code_gen_buffer tb_size ram_size in
  let size := if low && (800 * 1024 * 1024 <? size) then 800 * 1024 * 1024 else size in
  let size := size - 1024 in
  mkGen buf size (size - TCG_MAX_OP_SIZE * OPC_BUF_SIZE) (size / CODE_GEN_AVG_BLOCK_SIZE).

(** ** Pointers to pointers *)

(** The head of a list or the link in one of its nodes. *)
Inductive slot (H N : Type) := AtHead (h : H) | After (n : N).
Arguments AtHead {_ _} _.
Arguments After {_ _} _.
#[export] Instance slot_eq_dec {H N : Type} `{EqDecision H, EqDecision N} : EqDecision (slot H N).
Proof. solve_decision. Defined.

(** ** Code for a block *)

(** The size of the guest code, the host code, for each of the two exits that are used
    the offset of its jump and of the code behind it, the instrumentation offsets that
    were set, and the number of instructions. *)
Record generated := mkGenerated {
  gen_size : Z; gen_code : list Z; gen_exits : option (Z * Z) * option (Z * Z);
  gen_qtrace : list (option Z); gen_icount : Z
}.

(** [generate] yields nothing where the translation of an instruction faults;
    [restored] is the program counter, code segment base and flags of the guest at an
    address in the code of a block. *)
Class Translator := {
  generate : nat -> TranslationBlock -> cache -> option generated;
  restored : nat -> TranslationBlock -> Z -> cache -> Z * Z * Z
}.

Section Cache.
Context {machine : Machine} {translator : Translator} (G : code_gen).

(** ** Hash functions *)

Definition tb_phys_hash_func (pc : Z) : Z := Z.land (Z.shiftr pc 2) (CODE_GEN_PHYS_HASH_SIZE - 1).

Definition page_offset (pc : Z) : Z := Z.land pc (Z.lnot TARGET_PAGE_MASK).

(** ** Patching of jumps *)

Definition write_code (addr : Z) (bs : list Z) (f : Z -> Z) : Z -> Z :=
  fun a => if addr <=? a then default (f a) (bs !! Z.to_nat (a - addr)) else f a.

Definition tb_set_jmp_target1 (jmp_addr addr : Z) : cm unit :=
  modify (fun s => set_host_code (write_code jmp_addr (bytes_le 4 (u32 (addr - (jmp_addr + 4)))) s.(host_code)) s).
Definition tb_set_jmp_target (t n : nat) (addr : Z) : cm unit :=
  tb ← get_tb t; offset ← lift (sel n tb.(tb_jmp_offset)); tb_set_jmp_target1 (tb.(tc_ptr) + offset) addr.

Definition tb_add_jump (t n tb_next : nat) : cm unit :=
  tb ← get_tb t;
  jn ← lift (sel n tb.(jmp_next));
  match jn with
  | Some _ => mret tt
  | None =>
      nx ← get_tb tb_next;
      tb_set_jmp_target t n nx.(tc_ptr) ;;
      nx ← get_tb tb_next;
      upd_tb t (set_jmp_next n nx.(jmp_first)) ;;
      upd_tb tb_next (set_jmp_first (Some (t, n)))
  end.

(** ** Allocation *)

Definition tb_alloc (pc : Z) : cm (option nat) :=
  n ← gets nb_tbs;
  p ← gets code_gen_ptr;
  if (G.(code_gen_max_blocks) <=? Z.of_nat n) || (G.(code_gen_buffer_max_size) <=? p - G.(code_gen_buffer))
  then mret None
  else modify (set_nb_tbs (S n)) ;; upd_tb n (set_alloc pc) ;; mret (Some n).

Definition tb_free (t : nat) : cm unit :=
  n ← gets nb_tbs;
  tb ← get_tb t;
  cwhen ((0 <? n)%nat && (t =? n - 1)%nat)
    (modify (set_code_gen_ptr tb.(tc_ptr)) ;; modify (set_nb_tbs (n - 1))).

Definition tb_flush : cm unit :=
  p ← gets code_gen_ptr;
  if G.(code_gen_buffer_size) <? u64 (p - G.(code_gen_buffer)) then fail TcgAbort
  else
    modify (set_nb_tbs 0) ;;
    upd_cpus (set_tb_jmp_cache ∅) ;;
    modify (set_tb_phys_hash ∅) ;;
    page_flush_tb ;;
    modify (set_code_gen_ptr G.(code_gen_buffer)) ;;
    modify (fun s => set_counts (s.(tb_flush_count) + 1) s.(tb_phys_invalidate_count) s).

(** ** Lists *)

Definition list_fuel (s : cache) : nat := S (2 * length s.(tbs)).

Definition read_hash (p : slot Z nat) : cm (option nat) :=
  match p with
  | AtHead h => gets (fun s => s.(tb_phys_hash) !! h)
  | After t => tb ← get_tb t; mret tb.(phys_hash_next)
  end.
Definition set_hash (h : Z) (x : option nat) (s : cache) : cache :=
  set_tb_phys_hash (partial_alter (fun _ => x) h s.(tb_phys_hash)) s.
Definition write_hash (p : slot Z nat) (x : option nat) : cm unit :=
  match p with
  | AtHead h => modify (set_hash h x)
  | After t => upd_tb t (set_phys_hash_next x)
  end.

Fixpoint hash_remove (fuel : nat) (ptb : slot Z nat) (tb : nat) : cm unit :=
  match fuel with
  | O => fail OutOfFuel
  | S fuel =>
      o ← read_hash ptb;
      tb1 ← not_null o;
      if (tb1 =? tb)%nat then b ← get_tb tb1; write_hash ptb b.(phys_hash_next)
      else hash_remove fuel (After tb1) tb
  end.
Definition tb_hash_remove (ptb : slot Z nat) (tb : nat) : cm unit := f ← gets list_fuel; hash_remove f ptb tb.

Definition read_page (p : slot Z tagged) : cm (option tagged) :=
  match p with
  | AtHead p => d ← get_page p; mret d.(first_tb)
  | After (t, n) => tb ← get_tb t; lift (sel n tb.(page_next))
  end.
Definition write_page (p : slot Z tagged) (x : option tagged) : cm unit :=
  match p with
  | AtHead p => upd_page p (set_first_tb x)
  | After (t, n) => upd_tb t (set_page_next n x)
  end.

Fixpoint page_remove (fuel : nat) (ptb : slot Z tagged) (tb : nat) : cm unit :=
  match fuel with
  | O => fail OutOfFuel
  | S fuel =>
      o ← read_page ptb;
      '(tb1, n1) ← not_null o;
      if (tb1 =? tb)%nat then b ← get_tb tb1; x ← lift (sel n1 b.(page_next)); write_page ptb x
      else page_remove fuel (After (tb1, n1)) tb
  end.
Definition tb_page_remove (ptb : slot Z tagged) (tb : nat) : cm unit := f ← gets list_fuel; page_remove f ptb tb.

Definition read_jmp (p : slot nat tagged) : cm (option tagged) :=
  match p with
  | After (t, n) => tb ← get_tb t; lift (sel n tb.(jmp_next))
  | AtHead t => tb ← get_tb t; mret tb.(jmp_first)
  end.
Definition write_jmp (p : slot nat tagged) (x : option tagged) : cm unit :=
  match p with
  | After (t, n) => upd_tb t (set_jmp_next n x)
  | AtHead t => upd_tb t (set_jmp_first x)
  end.

(** Finds the pointer to [tb] with number [n] in the circular list. *)
Fixpoint find_jmp (fuel : nat) (ptb : slot nat tagged) (tb n : nat) : cm (slot nat tagged) :=
  match fuel with
  | O => fail OutOfFuel
  | S fuel =>
      o ← read_jmp ptb;
      '(tb1, n1) ← not_null o;
      if (n1 =? n)%nat && (tb1 =? tb)%nat then mret ptb
      else find_jmp fuel (if (n1 =? 2)%nat then AtHead tb1 else After (tb1, n1)) tb n
  end.
Definition tb_jmp_remove (tb n : nat) : cm unit :=
  o ← read_jmp (After (tb, n));
  match o with
  | None => mret tt
  | Some _ =>
      f ← gets list_fuel;
      ptb ← find_jmp (S f) (After (tb, n)) tb n;
      x ← read_jmp (After (tb, n));
      write_jmp ptb x ;;
      write_jmp (After (tb, n)) None
  end.

Definition tb_reset_jump (t n : nat) : cm unit :=
  tb ← get_tb t; o ← lift (sel n tb.(tb_next_offset)); tb_set_jmp_target t n (tb.(tc_ptr) + o).

(** Jumps to the block are reset, up to the end of the list. *)
Fixpoint reset_jumps (fuel : nat) (tb1 : option tagged) : cm unit :=
  match fuel with
  | O => fail OutOfFuel
  | S fuel =>
      '(t1, n1) ← not_null tb1;
      if (n1 =? 2)%nat then mret tt
      else
        b ← get_tb t1;
        tb2 ← lift (sel n1 b.(jmp_next));
        tb_reset_jump t1 n1 ;;
        upd_tb t1 (set_jmp_next n1 None) ;;
        reset_jumps fuel tb2
  end.

(** ** Invalidation of a block *)

Definition phys_pc_of (tb : TranslationBlock) : Z := u64 (tb.(page_addr).1 + page_offset tb.(tb_pc)).

Definition remove_from_page (t : nat) (addr : Z) : cm unit :=
  o ← page_find (Z.shiftr addr TARGET_PAGE_BITS);
  p ← not_null o;
  tb_page_remove (AtHead p) t ;;
  invalidate_page_bitmap p.

Definition drop_jmp_cache (h : Z) (t : nat) (c : CPUState) : CPUState :=
  if bool_decide (c.(tb_jmp_cache) !! h = Some t) then set_tb_jmp_cache (delete h c.(tb_jmp_cache)) c else c.

Definition tb_phys_invalidate (t : nat) (pa : Z) : cm unit :=
  tb ← get_tb t;
  tb_hash_remove (AtHead (tb_phys_hash_func (phys_pc_of tb))) t ;;
  cwhen (negb (tb.(page_addr).1 =? pa)) (remove_from_page t tb.(page_addr).1) ;;
  cwhen (negb (tb.(page_addr).2 =? no_page) && negb (tb.(page_addr).2 =? pa)) (remove_from_page t tb.(page_addr).2) ;;
  modify (set_invalidated true) ;;
  upd_cpus (drop_jmp_cache (tb_jmp_cache_hash_func tb.(tb_pc)) t) ;;
  tb_jmp_remove t 0 ;;
  tb_jmp_remove t 1 ;;
  tb ← get_tb t;
  f ← gets list_fuel;
  reset_jumps f tb.(jmp_first) ;;
  upd_tb t (set_jmp_first (Some (t, 2%nat))) ;;
  modify (fun s => set_counts s.(tb_flush_count) (s.(tb_phys_invalidate_count) + 1) s).

(** ** Bitmaps of code *)

Definition put_byte (i : Z) (f : Z -> Z) (tab : list Z) : res (list Z) :=
  match tab !! Z.to_nat i with
  | Some b => if 0 <=? i then Ok (<[Z.to_nat i := f b]> tab) else Err OutOfBounds
  | None => Err OutOfBounds
  end.
Definition or_byte (i m : Z) : list Z -> res (list Z) := put_byte i (fun b => u8 (Z.lor b m)).
Fixpoint fill_bytes (n : nat) (i : Z) (tab : list Z) : res (list Z) :=
  match n with
  | O => Ok tab
  | S n => tab ← put_byte i (fun _ => 0xff) tab; fill_bytes n (i + 1) tab
  end.

Definition set_bits (tab : list Z) (start len : Z) : res (list Z) :=
  let last := start + len in
  let i := Z.shiftr start 3 in
  let mask := Z.shiftl 0xff (Z.land start 7) in
  if Z.land start (Z.lnot 7) =? Z.land last (Z.lnot 7) then
    if start <? last then or_byte i (Z.land mask (Z.lnot (Z.shiftl 0xff (Z.land last 7)))) tab else Ok tab
  else
    tab ← or_byte i mask tab;
    let start := Z.land (start + 8) (Z.lnot 7) in
    let end1 := Z.land last (Z.lnot 7) in
    let n := Z.to_nat ((end1 - start) / 8) in
    tab ← fill_bytes n (i + 1) tab;
    if Z.max start end1 <? last then or_byte (i + 1 + Z.of_nat n) (Z.lnot (Z.shiftl 0xff (Z.land last 7))) tab else Ok tab.

(** The part of the page that a block occupies, by its number in the list. *)
Definition code_in_page (tb : TranslationBlock) (n : nat) : Z * Z :=
  if (n =? 0)%nat then
    let tb_start := page_offset tb.(tb_pc) in
    let tb_end := tb_start + tb.(tb_size) in
    (tb_start, if TARGET_PAGE_SIZE <? tb_end then TARGET_PAGE_SIZE else tb_end)
  else (0, page_offset (u64 (tb.(tb_pc) + tb.(tb_size)))).

Fixpoint mark_blocks (fuel : nat) (o : option tagged) (tab : list Z) : cm (list Z) :=
  match o with
  | None => mret tab
  | Some (t, n) =>
      match fuel with
      | O => fail OutOfFuel
      | S fuel =>
          tb ← get_tb t;
          let '(tb_start, tb_end) := code_in_page tb n in
          tab ← lift (set_bits tab tb_start (tb_end - tb_start));
          nx ← lift (sel n tb.(page_next));
          mark_blocks fuel nx tab
      end
  end.
Definition build_page_bitmap (p : Z) : cm unit :=
  d ← get_page p;
  f ← gets list_fuel;
  tab ← mark_blocks f d.(first_tb) (replicate (Z.to_nat (TARGET_PAGE_SIZE / 8)) 0);
  upd_page p (set_code_bitmap (Some tab)).

(** ** New blocks *)

Definition tb_alloc_page (t n : nat) (page_addr : Z) : cm unit :=
  upd_tb t (set_page_addr n page_addr) ;;
  o ← page_find_alloc (Z.shiftr page_addr TARGET_PAGE_BITS) true;
  p ← not_null o;
  d ← get_page p;
  upd_tb t (set_page_next n d.(first_tb)) ;;
  upd_page p (set_first_tb (Some (t, n))) ;;
  invalidate_page_bitmap p ;;
  cwhen (match d.(first_tb) with None => true | Some _ => false end) (tlb_protect_code page_addr).

Definition tb_link_page (t : nat) (phys_pc phys_page2 : Z) : cm unit :=
  let h := tb_phys_hash_func phys_pc in
  o ← read_hash (AtHead h);
  upd_tb t (set_phys_hash_next o) ;;
  write_hash (AtHead h) (Some t) ;;
  tb_alloc_page t 0 (Z.land phys_pc TARGET_PAGE_MASK) ;;
  (if phys_page2 =? no_page then upd_tb t (set_page_addr 1 no_page) else tb_alloc_page t 1 phys_page2) ;;
  upd_tb t (set_jmp_first (Some (t, 2%nat))) ;;
  upd_tb t (set_jmp_next 0 None) ;;
  upd_tb t (set_jmp_next 1 None) ;;
  tb ← get_tb t;
  cwhen (negb (tb.(tb_next_offset).1 =? 0xffff)) (tb_reset_jump t 0) ;;
  cwhen (negb (tb.(tb_next_offset).2 =? 0xffff)) (tb_reset_jump t 1).

(** Offsets before the code is generated, and those that it sets. *)
Definition next_offset (e : option (Z * Z)) : Z := match e with Some (_, o) => u16 o | None => 0xffff end.
Definition jmp_offset (e : option (Z * Z)) (old : Z) : Z := match e with Some (j, _) => u16 j | None => old end.
Definition qtrace_offsets (old : list Z) (q : list (option Z)) : list Z :=
  imap (fun k o => default (if (k <? 2)%nat then 0 else o) (default None (q !! k))) old.

(** Reading the guest code can fault.  The entries of the TLB that it needs are those that
    [tb_gen_code] makes: for the page of the program counter before, and for the next page
    right after. *)
Definition cpu_gen_code (env t : nat) : cm Z :=
  tb ← get_tb t;
  g ← gets (generate env tb);
  match g with
  | None => longjmp
  | Some g =>
      upd_tb t (set_generated (u16 g.(gen_size)) (qtrace_offsets tb.(qtrace_next_offset) g.(gen_qtrace))
        (next_offset g.(gen_exits).1, next_offset g.(gen_exits).2)
        (jmp_offset g.(gen_exits).1 tb.(tb_jmp_offset).1, jmp_offset g.(gen_exits).2 tb.(tb_jmp_offset).2)
        g.(gen_icount)) ;;
      modify (fun s => set_host_code (write_code tb.(tc_ptr) g.(gen_code) s.(host_code)) s) ;;
      mret (Z.of_nat (length g.(gen_code)))
  end.

Definition code_align (p : Z) : Z := Z.land (u64 (p + CODE_GEN_ALIGN - 1)) (Z.lnot (CODE_GEN_ALIGN - 1)).

Definition tb_gen_code (env : nat) (pc cs_base flags cflags : Z) : cm nat :=
  phys_pc ← get_page_addr_code env pc;
  o ← tb_alloc pc;
  t ← (match o with
       | Some t => mret t
       | None =>
           tb_flush ;;
           o ← tb_alloc pc;
           modify (set_invalidated true) ;;
           not_null o
       end);
  tc ← gets code_gen_ptr;
  upd_tb t (set_context tc cs_base flags cflags) ;;
  code_gen_size ← cpu_gen_code env t;
  upd_tb t (set_tc_end_ptr (tc + code_gen_size)) ;;
  modify (fun s => set_code_gen_ptr (code_align (s.(code_gen_ptr) + code_gen_size)) s) ;;
  tb ← get_tb t;
  let virt_page2 := Z.land (u64 (pc + tb.(tb_size) - 1)) TARGET_PAGE_MASK in
  phys_page2 ← (if Z.land pc TARGET_PAGE_MASK =? virt_page2 then mret no_page else get_page_addr_code env virt_page2);
  tb_link_page t phys_pc phys_page2 ;;
  mret t.

(** ** Search by host address *)

Fixpoint find_pc (fuel : nat) (l : list TranslationBlock) (tc m_min m_max : Z) : option Z :=
  match fuel with
  | O => None
  | S fuel =>
      if m_min <=? m_max then
        let m := Z.shiftr (m_min + m_max) 1 in
        match l !! Z.to_nat m with
        | None => None
        | Some tb =>
            if tb.(tc_ptr) =? tc then Some m
            else if tc <? tb.(tc_ptr) then find_pc fuel l tc m_min (m - 1)
            else find_pc fuel l tc (m + 1) m_max
        end
      else Some m_max
  end.
Definition tb_find_pc (tc : Z) : cm (option nat) :=
  n ← gets nb_tbs;
  p ← gets code_gen_ptr;
  if (n =? 0)%nat || (tc <? G.(code_gen_buffer)) || (p <=? tc) then mret None
  else
    l ← gets tbs;
    match find_pc (S n) l tc 0 (Z.of_nat n - 1) with
    | Some m => if 0 <=? m then mret (Some (Z.to_nat m)) else fail BadPointer
    | None => fail OutOfFuel
    end.

(** ** Writes to pages with code *)

Definition tcg_handle_interrupt (cpu : nat) (mask : Z) : cm unit :=
  upd_cpu cpu (fun c => set_interrupt (Z.lor c.(interrupt_request) mask) true c).

(** The block is invalidated while no block is current. *)
Definition invalidate_one (cpu : option nat) (t : nat) : cm unit :=
  match cpu with
  | None => tb_phys_invalidate t no_page
  | Some c =>
      saved ← get_cpu c;
      upd_cpu c (set_current_tb None) ;;
      tb_phys_invalidate t no_page ;;
      upd_cpu c (set_current_tb saved.(current_tb)) ;;
      st ← get_cpu c;
      cwhen (negb (st.(interrupt_request) =? 0) && bool_decide (is_Some st.(current_tb)))
        (tcg_handle_interrupt c st.(interrupt_request))
  end.

(** What the loop of [tb_invalidate_phys_page_range] carries: current_tb_not_found,
    current_tb, and the state of the guest at the write if it changes that block. *)
Record smc_state := mkSmc { not_found : bool; cur : option nat; modified : option (Z * Z * Z) }.

Definition tb_range (tb : TranslationBlock) (n : nat) : Z * Z :=
  if (n =? 0)%nat then
    let tb_start := u64 (tb.(page_addr).1 + page_offset tb.(tb_pc)) in (tb_start, u64 (tb_start + tb.(tb_size)))
  else
    let tb_start := tb.(page_addr).2 in (tb_start, u64 (tb_start + page_offset (u64 (tb.(tb_pc) + tb.(tb_size))))).

Definition note_current (cpu : option nat) (t : nat) (x : smc_state) : cm smc_state :=
  x ← (if x.(not_found) then
         c ← not_null cpu; st ← get_cpu c;
         ct ← (if st.(mem_io_pc) =? 0 then mret None else tb_find_pc st.(mem_io_pc));
         mret (mkSmc false ct x.(modified))
       else mret x);
  tb ← get_tb t;
  if bool_decide (x.(cur) = Some t) && negb (Z.land tb.(tb_cflags) CF_COUNT_MASK =? 1) then
    c ← not_null cpu; st ← get_cpu c;
    r ← gets (restored c tb st.(mem_io_pc));
    mret (mkSmc x.(not_found) x.(cur) (Some r))
  else mret x.

Fixpoint invalidate_list (fuel : nat) (cpu : option nat) (start last : Z) (o : option tagged) (x : smc_state)
    : cm smc_state :=
  match o with
  | None => mret x
  | Some (t, n) =>
      match fuel with
      | O => fail OutOfFuel
      | S fuel =>
          tb ← get_tb t;
          tb_next ← lift (sel n tb.(page_next));
          let '(tb_start, tb_end) := tb_range tb n in
          x ← (if (tb_end <=? start) || (last <=? tb_start) then mret x
               else x ← note_current cpu t x; invalidate_one cpu t ;; mret x);
          invalidate_list fuel cpu start last tb_next x
      end
  end.

Definition tb_invalidate_phys_page_range (start last : Z) (is_cpu_write_access : bool) : cm unit :=
  cpu ← gets current_cpu;
  o ← page_find (Z.shiftr start TARGET_PAGE_BITS);
  match o with
  | None => mret tt
  | Some p =>
      d ← get_page p;
      (match d.(code_bitmap) with
       | Some _ => mret tt
       | None =>
           upd_page p (fun d => set_code_write_count (u32 (d.(code_write_count) + 1)) d) ;;
           cwhen ((SMC_BITMAP_USE_THRESHOLD <=? u32 (d.(code_write_count) + 1)) && is_cpu_write_access)
             (build_page_bitmap p)
       end) ;;
      f ← gets list_fuel;
      x ← invalidate_list f cpu start last d.(first_tb) (mkSmc is_cpu_write_access None None);
      d ← get_page p;
      cwhen (match d.(first_tb) with None => true | Some _ => false end)
        (invalidate_page_bitmap p ;;
         cwhen is_cpu_write_access (c ← not_null cpu; tlb_unprotect_code_phys start)) ;;
      match x.(modified) with
      | None => mret tt
      | Some (pc, cs_base, flags) =>
          c ← not_null cpu;
          upd_cpu c (set_current_tb None) ;;
          tb_gen_code c pc cs_base flags 1 ;;
          longjmp
      end
  end.

Fixpoint invalidate_pages (fuel : nat) (start last : Z) (w : bool) : cm unit :=
  if start <? last then
    match fuel with
    | O => fail OutOfFuel
    | S fuel =>
        tb_invalidate_phys_page_range start last w ;;
        invalidate_pages fuel (Z.land start TARGET_PAGE_MASK + TARGET_PAGE_SIZE) last w
    end
  else mret tt.
Definition tb_invalidate_phys_range (start last : Z) (w : bool) : cm unit :=
  invalidate_pages (Z.to_nat ((last - start) / TARGET_PAGE_SIZE + 2)) start last w.

Definition tb_invalidate_phys_page_fast (start len : Z) : cm unit :=
  o ← page_find (Z.shiftr start TARGET_PAGE_BITS);
  match o with
  | None => mret tt
  | Some p =>
      d ← get_page p;
      match d.(code_bitmap) with
      | None => tb_invalidate_phys_page_range start (start + len) true
      | Some tab =>
          let offset := Z.land start (Z.lnot TARGET_PAGE_MASK) in
          w ← lift (of_option OutOfBounds (tab !! Z.to_nat (Z.shiftr offset 3)));
          let b := Z.shiftr w (Z.land offset 7) in
          cwhen (testb b (Z.shiftl 1 len - 1)) (tb_invalidate_phys_page_range start (start + len) true)
      end
  end.

(** ** Lookup (cpu-exec.c) *)

(** The loop over a hash list: the block found and the pointer to it, or the pointer
    at the end of the list. *)
Fixpoint find_hash (fuel : nat) (env : nat) (ptb1 : slot Z nat) (pc cs_base flags phys_page1 : Z)
    : cm (slot Z nat * option nat) :=
  match fuel with
  | O => fail OutOfFuel
  | S fuel =>
      o ← read_hash ptb1;
      match o with
      | None => mret (ptb1, None)
      | Some t =>
          tb ← get_tb t;
          found ←
            (if (tb.(tb_pc) =? pc) && (tb.(page_addr).1 =? phys_page1) && (tb.(tb_cs_base) =? cs_base) &&
                (tb.(tb_flags) =? flags)
             then
               if tb.(page_addr).2 =? no_page then mret true
               else
                 let virt_page2 := u64 (Z.land pc TARGET_PAGE_MASK + TARGET_PAGE_SIZE) in
                 phys_page2 ← get_page_addr_code env virt_page2;
                 mret (tb.(page_addr).2 =? phys_page2)
             else mret false);
          if (found : bool) then mret (ptb1, Some t) else find_hash fuel env (After t) pc cs_base flags phys_page1
      end
  end.

Definition tb_find_slow (env : nat) (pc cs_base flags : Z) : cm nat :=
  modify (set_invalidated false) ;;
  phys_pc ← get_page_addr_code env pc;
  let h := tb_phys_hash_func phys_pc in
  f ← gets list_fuel;
  '(ptb1, o) ← find_hash f env (AtHead h) pc cs_base flags (Z.land phys_pc TARGET_PAGE_MASK);
  t ← (match o with Some t => mret t | None => tb_gen_code env pc cs_base flags 0 end);
  o ← read_hash ptb1;
  (match o with
   | Some _ =>
       tb ← get_tb t;
       write_hash ptb1 tb.(phys_hash_next) ;;
       first ← read_hash (AtHead h);
       upd_tb t (set_phys_hash_next first) ;;
       write_hash (AtHead h) (Some t)
   | None => mret tt
   end) ;;
  upd_cpu env (fun c => set_tb_jmp_cache (<[tb_jmp_cache_hash_func pc := t]> c.(tb_jmp_cache)) c) ;;
  mret t.

(** [pc], [cs_base] and [flags] are what [cpu_get_tb_cpu_state] yields. *)
Definition tb_find_fast (env : nat) (pc cs_base flags : Z) : cm nat :=
  c ← get_cpu env;
  match c.(tb_jmp_cache) !! tb_jmp_cache_hash_func pc with
  | None => tb_find_slow env pc cs_base flags
  | Some t =>
      tb ← get_tb t;
      if (tb.(tb_pc) =? pc) && (tb.(tb_cs_base) =? cs_base) && (tb.(tb_flags) =? flags) then mret t
      else tb_find_slow env pc cs_base flags
  end.
End Cache.
