(* ===== verification/TbLogic.v ===== *)
(** * Reasoning about the translation cache

    Chains of list nodes, total correctness of computations that may leave with
    siglongjmp, and what changes of single fields leave alone.

    The hash table, the pages and the jumps to a block have lists of the same shape:
    a head for each index and a link in each node.  [ListsOf] says how heads and links
    are found in the state and what a write through a pointer to one of them does;
    [lists s hd on] that the nodes [n] with [on n h] are those of list [h], for the
    heads [hd].  Removal and insertion are proved for all of them. *)

From S2P Require Import Prelude QtraceDefs TlbLoad IContext TbState TbPages Tlb TbCache.

(** ** Chains *)

Section Chain.
Context {A : Type}.

(** Following [next] from [o] passes the nodes [l] and arrives at [e]. *)
Fixpoint chain (next : A -> option A) (o : option A) (l : list A) (e : option A) : Prop :=
  match l with
  | [] => o = e
  | a :: l => o = Some a /\ chain next (next a) l e
  end.

Lemma chain_ext next next' o l e :
  (forall a, a ∈ l -> next' a = next a) -> chain next o l e -> chain next' o l e.
Proof.
  revert o. induction l as [|a l IH]; intros o Hn; cbn; [done|]. intros [-> Hc]. split; [done|].
  rewrite Hn by apply list_elem_of_here. apply IH; [|done]. intros b Hb. by apply Hn, list_elem_of_further.
Qed.

Lemma chain_app next o l1 l2 e :
  chain next o (l1 ++ l2) e <-> exists m, chain next o l1 m /\ chain next m l2 e.
Proof.
  revert o. induction l1 as [|a l1 IH]; intros o; cbn.
  - split; [by exists o|]. by intros (m & -> & ?).
  - rewrite IH. split; [intros [-> (m & ? & ?)]; by exists m|]. intros (m & [-> ?] & ?). split; [done|by exists m].
Qed.

Lemma chain_snoc next o l a e : chain next o (l ++ [a]) e <-> chain next o l (Some a) /\ next a = e.
Proof. rewrite chain_app. cbn. split; [intros (m & ? & -> & ?)|intros [? ?]; exists (Some a)]; done. Qed.

(** A chain to [None] is determined by its start. *)
Lemma chain_det next o l l' : chain next o l None -> chain next o l' None -> l = l'.
Proof.
  revert o l'. induction l as [|a l IH]; intros o [|b l']; cbn; try done.
  - by intros -> [? _].
  - by intros [-> _] ?.
  - intros [-> H] [[= <-] H']. f_equal. by eapply IH.
Qed.

(** No node occurs twice in a chain that ends. *)
Lemma chain_nodup next o l : chain next o l None -> NoDup l.
Proof.
  revert o. induction l as [|a l IH]; intros o; [by constructor|]. cbn. intros [_ H]. constructor; [|by eapply IH].
  intros (l1 & l2 & ->)%list_elem_of_split. apply chain_app in H as H'. destruct H' as (m & H1 & [-> H2]).
  assert (l1 ++ a :: l2 = l2) as E by (by eapply chain_det).
  apply (f_equal length) in E. rewrite length_app in E. cbn in E. lia.
Qed.

(** A node taken out of a chain: the one before it gets its successor. *)
Lemma chain_remove next next' o l1 b a l2 e :
  chain next o (l1 ++ b :: a :: l2) e -> NoDup (l1 ++ b :: a :: l2) ->
  next' b = next a -> (forall c, c ∈ l1 ++ l2 -> next' c = next c) ->
  chain next' o (l1 ++ b :: l2) e.
Proof.
  intros (m & H1 & -> & Eb & Ha)%chain_app Hd Hb Hn. apply chain_app. exists (Some b). split.
  - apply (chain_ext next); [|done]. intros c Hc. apply Hn, elem_of_app. by left.
  - split; [done|]. rewrite Hb. apply (chain_ext next); [|done]. intros c Hc. apply Hn, elem_of_app. by right.
Qed.

Lemma elem_of_removed (la lb : list A) (t u : A) :
  NoDup (la ++ t :: lb) -> u ∈ la ++ lb <-> u ∈ la ++ t :: lb /\ u <> t.
Proof.
  intros (_ & Hd1 & [Hd2 _]%NoDup_cons)%NoDup_app. rewrite !elem_of_app, elem_of_cons.
  assert (u = t -> u ∉ la) by (intros -> Hu; apply (Hd1 t Hu), list_elem_of_here).
  assert (u = t -> u ∉ lb) by (by intros ->). tauto.
Qed.
End Chain.

(** ** Total correctness *)

(** The states in which a computation may leave with siglongjmp, and the errors it may
    have.  With none of either, [wpc] says that it returns. *)
Record exits := mkExits { on_longjmp : cache -> Prop; on_error : cerror -> Prop }.
Definition no_exits : exits := mkExits (fun _ => False) (fun _ => False).

Definition wpc {A} (m : cm A) (Q : A -> cache -> Prop) (X : exits) (s : cache) : Prop :=
  match m s with Ok (Some a, s') => Q a s' | Ok (None, s') => X.(on_longjmp) s' | Err e => X.(on_error) e end.

Section Wpc.
Context {A B : Type} (X : exits).

Lemma wpc_ret (a : A) (Q : A -> cache -> Prop) s : Q a s -> wpc (mret a) Q X s.
Proof. done. Qed.

Lemma wpc_bind (m : cm A) (f : A -> cm B) Q s : wpc m (fun a => wpc (f a) Q X) X s -> wpc (m ≫= f) Q X s.
Proof. unfold wpc, mbind, cm_bind. destruct (m s) as [[[a|] s1]|]; cbn; done. Qed.

Lemma wpc_bind2 (m : cm A) (f : A -> cm unit) (k : cm B) Q s :
  wpc (m ≫= f) (fun _ => wpc k Q X) X s -> wpc (a ← m; f a ;; k) Q X s.
Proof.
  unfold wpc, mbind, cm_bind. destruct (m s) as [[[a|] s1]|]; cbn; try done. by destruct (f a s1) as [[[b|] s2]|].
Qed.

Lemma wpc_mono (m : cm A) (Q Q' : A -> cache -> Prop) s :
  wpc m Q X s -> (forall a s', Q a s' -> Q' a s') -> wpc m Q' X s.
Proof. unfold wpc. destruct (m s) as [[[a|] s1]|]; auto. Qed.

Lemma wpc_mono_exits (m : cm A) (Q : A -> cache -> Prop) X' s :
  wpc m Q X s -> (forall s', X.(on_longjmp) s' -> X'.(on_longjmp) s') -> (forall e, X.(on_error) e -> X'.(on_error) e) ->
  wpc m Q X' s.
Proof. unfold wpc. destruct (m s) as [[[a|] s1]|]; auto. Qed.

Lemma wpc_gets (f : cache -> A) (Q : A -> cache -> Prop) s : Q (f s) s -> wpc (gets f) Q X s.
Proof. done. Qed.
Lemma wpc_modify f (Q : unit -> cache -> Prop) s : Q tt (f s) -> wpc (modify f) Q X s.
Proof. done. Qed.
Lemma wpc_lift (r : res A) a (Q : A -> cache -> Prop) s : r = Ok a -> Q a s -> wpc (lift r) Q X s.
Proof. intros ->. done. Qed.
Lemma wpc_not_null (a : A) (Q : A -> cache -> Prop) s : Q a s -> wpc (not_null (Some a)) Q X s.
Proof. done. Qed.
Lemma wpc_longjmp (Q : A -> cache -> Prop) s : X.(on_longjmp) s -> wpc longjmp Q X s.
Proof. done. Qed.
Lemma wpc_fail e (Q : A -> cache -> Prop) s : X.(on_error) e -> wpc (fail e) Q X s.
Proof. done. Qed.
Lemma wpc_assert b (Q : unit -> cache -> Prop) s : b = true -> Q tt s -> wpc (cassert b) Q X s.
Proof. by intros ->. Qed.
Lemma wpc_when b (m : cm unit) (Q : unit -> cache -> Prop) s :
  (b = true -> wpc m Q X s) -> (b = false -> Q tt s) -> wpc (cwhen b m) Q X s.
Proof. destruct b; cbn; auto. Qed.
End Wpc.

(** ** Views of the state *)

Definition dummy_tb : TranslationBlock :=
  mkTb 0 0 0 0 0 0 0 None (None, None) (0, 0) [] (0, 0) (0, 0) (None, None) None 0.
#[export] Instance tb_inhabited : Inhabited TranslationBlock := populate dummy_tb.

Definition tb_at (s : cache) (t : nat) : TranslationBlock := s.(tbs) !!! t.

Lemma tb_at_lookup s t : (t < length s.(tbs))%nat -> s.(tbs) !! t = Some (tb_at s t).
Proof. intros H. by apply list_lookup_lookup_total_lt. Qed.

Lemma tb_at_upd s t u f b :
  s.(tbs) !! t = Some b ->
  tb_at (set_tbs (<[t := f b]> s.(tbs)) s) u = if decide (u = t) then f (tb_at s t) else tb_at s u.
Proof.
  intros H. unfold tb_at. cbn [tbs set_tbs]. case_decide as E.
  - subst. rewrite list_lookup_total_insert_eq by (by eapply lookup_lt_Some).
    f_equal. symmetry. by apply list_lookup_total_correct.
  - by rewrite list_lookup_total_insert_ne.
Qed.

Section WpcFields.
Context (X : exits).

Lemma wpc_get_tb t (Q : TranslationBlock -> cache -> Prop) s :
  (t < length s.(tbs))%nat -> Q (tb_at s t) s -> wpc (get_tb t) Q X s.
Proof. intros Ht HQ. unfold wpc, get_tb. by rewrite (tb_at_lookup s t Ht). Qed.

Lemma wpc_upd_tb t f (Q : unit -> cache -> Prop) s :
  (t < length s.(tbs))%nat -> Q tt (set_tbs (<[t := f (tb_at s t)]> s.(tbs)) s) -> wpc (upd_tb t f) Q X s.
Proof. intros Ht HQ. unfold wpc, upd_tb. by rewrite (tb_at_lookup s t Ht). Qed.

Lemma wpc_get_cpu n c (Q : CPUState -> cache -> Prop) s : s.(cpus) !! n = Some c -> Q c s -> wpc (get_cpu n) Q X s.
Proof. intros H HQ. unfold wpc, get_cpu. by rewrite H. Qed.
Lemma wpc_upd_cpu n c f (Q : unit -> cache -> Prop) s :
  s.(cpus) !! n = Some c -> Q tt (set_cpus (<[n := f c]> s.(cpus)) s) -> wpc (upd_cpu n f) Q X s.
Proof. intros H HQ. unfold wpc, upd_cpu. by rewrite H. Qed.

Lemma wpc_get_page p d (Q : PageDesc -> cache -> Prop) s :
  find_in L1_LEVEL s.(l1_map) p = Some d -> Q d s -> wpc (get_page p) Q X s.
Proof. intros H HQ. unfold wpc, get_page. by rewrite H. Qed.

Lemma wpc_page_find p (Q : option Z -> cache -> Prop) s :
  (is_Some (find_in L1_LEVEL s.(l1_map) p) -> Q (Some p) s) -> (find_in L1_LEVEL s.(l1_map) p = None -> Q None s) ->
  wpc (page_find p) Q X s.
Proof.
  intros H1 H2. unfold wpc, page_find, page_find_alloc. destruct (find_in L1_LEVEL s.(l1_map) p) as [d|]; [|by apply H2].
  apply H1. by eexists.
Qed.

Lemma wpc_page_alloc p (Q : option Z -> cache -> Prop) s :
  Q (Some p) (set_l1_map (alloc_in L1_LEVEL s.(l1_map) p) s) -> wpc (page_find_alloc p true) Q X s.
Proof. done. Qed.

Lemma wpc_upd_page p f (Q : unit -> cache -> Prop) s :
  is_Some (find_in L1_LEVEL s.(l1_map) p) -> Q tt (set_l1_map (update_in L1_LEVEL f s.(l1_map) p) s) ->
  wpc (upd_page p f) Q X s.
Proof. intros [d H] HQ. unfold wpc, upd_page. by rewrite H. Qed.
End WpcFields.

(** An array of two, by number. *)
Definition at2 {A} (n : nat) (p : A * A) : A := match n with 0%nat => p.1 | _ => p.2 end.
Lemma sel_at2 {A} n (p : A * A) : (n < 2)%nat -> sel n p = Ok (at2 n p).
Proof. intros H. destruct n as [|[|n]]; [done|done|lia]. Qed.
Lemma at2_upd {A} n m (x : A) p : (n < 2)%nat -> (m < 2)%nat -> at2 m (upd n x p) = if decide (m = n) then x else at2 m p.
Proof. intros Hn Hm. destruct n as [|[|n]], m as [|[|m]]; try lia; done. Qed.

(** ** Linked lists *)

Lemma filter_keeps {A} (P : A -> Prop) `{forall x, Decision (P x)} l : Forall P l -> filter P l = l.
Proof. induction 1 as [|x l Hx _ IH]; [done|]. by rewrite filter_cons_True, IH. Qed.

Lemma filter_iff_in {A} (P Q : A -> Prop) `{forall x, Decision (P x), forall x, Decision (Q x)} (l : list A) :
  (forall x, x ∈ l -> P x <-> Q x) -> filter P l = filter Q l.
Proof.
  induction l as [|a l IH]; intros E; [done|]. specialize (IH (fun x Hx => E x (list_elem_of_further _ _ _ Hx))).
  specialize (E a (list_elem_of_here _ _)). rewrite !filter_cons, IH. by apply decide_ext.
Qed.

Class ListsOf (H N : Type) `{EqDecision H, EqDecision N} := {
  ls_head : cache -> H -> option N;
  ls_next : cache -> N -> option N;
  ls_is_head : H -> Prop;
  ls_ok : cache -> slot H N -> Prop;
  ls_write : slot H N -> option N -> cache -> cache;
  ls_write_head : forall s p x h, ls_ok s p -> ls_is_head h ->
    ls_head (ls_write p x s) h = if decide (p = AtHead h) then x else ls_head s h;
  ls_write_next : forall s p x n, ls_ok s p ->
    ls_next (ls_write p x s) n = if decide (p = After n) then x else ls_next s n
}.

Section Lists.
Context {H N : Type} `{EqDecision H, EqDecision N} {LL : ListsOf H N}.

Record lists (s : cache) (hd : H -> Prop) (on : N -> H -> Prop) : Prop := {
  li_lists : forall h, hd h -> exists l, chain (ls_next s) (ls_head s h) l None /\ forall n, n ∈ l <-> on n h;
  li_fun : forall n h h', on n h -> on n h' -> h = h';
  li_head : forall n h, on n h -> hd h;
  li_is_head : forall h, hd h -> ls_is_head h
}.

(** Lists depend on their heads and on the links of their nodes. *)
Lemma lists_ext s s' hd hd' on on' :
  (forall h, hd h -> ls_head s' h = ls_head s h) -> (forall n h, on n h -> ls_next s' n = ls_next s n) ->
  (forall h, hd' h <-> hd h) -> (forall n h, on' n h <-> on n h) -> lists s hd on -> lists s' hd' on'.
Proof.
  intros Hh Hn Hd Ho [Hl Hf Hi Hx]. split.
  - intros h Hih%Hd. destruct (Hl h Hih) as (l & Hc & Hm). exists l. split.
    + rewrite Hh by done. apply (chain_ext (ls_next s)); [|done]. intros a Ha. by eapply Hn, Hm.
    + intros n. by rewrite Ho.
  - intros n h h' ?%Ho ?%Ho. by eapply Hf.
  - intros n h ?%Ho. by eapply Hd, Hi.
  - intros h ?%Hd. by apply Hx.
Qed.

(** ** Slots *)

Definition slot_val (s : cache) (p : slot H N) : option N :=
  match p with AtHead h => ls_head s h | After n => ls_next s n end.

(** The slot behind the nodes [l] of list [h]. *)
Definition slot_after (h : H) (l : list N) : slot H N := match last l with None => AtHead h | Some u => After u end.

Lemma slot_after_snoc h l u : slot_after h (l ++ [u]) = After u.
Proof. unfold slot_after. by rewrite last_snoc. Qed.

Lemma slot_after_ok s h l : ls_ok s (AtHead h) -> (forall n, n ∈ l -> ls_ok s (After n)) -> ls_ok s (slot_after h l).
Proof. intros Hh Hl. unfold slot_after. destruct (last l) as [u|] eqn:E; [|done]. by apply Hl, last_Some_elem_of. Qed.

Lemma slot_after_val s h l1 l2 :
  chain (ls_next s) (ls_head s h) (l1 ++ l2) None -> slot_val s (slot_after h l1) = head l2.
Proof.
  destruct l1 as [|a l1 _] using rev_ind.
  - cbn. by destruct l2 as [|b l2]; [|intros [-> _]].
  - rewrite slot_after_snoc. cbn. intros (m & [_ ->]%chain_snoc & Hc)%chain_app. by destruct l2; [|destruct Hc as [-> _]].
Qed.

(** ** Removal *)

Definition minus (on : N -> H -> Prop) (x : N) (n : N) (h : H) : Prop := on n h /\ n <> x.

Lemma chain_written s h la x lb :
  ls_is_head h -> ls_ok s (slot_after h la) -> chain (ls_next s) (ls_head s h) (la ++ x :: lb) None ->
  let s' := ls_write (slot_after h la) (ls_next s x) s in chain (ls_next s') (ls_head s' h) (la ++ lb) None.
Proof.
  intros Hh Hok Hc s'. pose proof (chain_nodup _ _ _ Hc) as Hd.
  assert (forall u, slot_after h la <> After u -> ls_next s' u = ls_next s u) as Hn.
  { intros u Hu. unfold s'. by rewrite ls_write_next, decide_False. }
  destruct la as [|b la _] using rev_ind.
  - cbn [app] in *. unfold s' at 2. rewrite ls_write_head, decide_True by done. destruct Hc as [_ Hc].
    apply (chain_ext (ls_next s)); [|done]. intros u _. by apply Hn.
  - rewrite slot_after_snoc in *. rewrite <- !app_assoc in *. cbn [app] in *.
    unfold s' at 2. rewrite slot_after_snoc, ls_write_head, decide_False by done.
    eapply chain_remove; [exact Hc|exact Hd| |].
    + unfold s'. by rewrite slot_after_snoc, ls_write_next, decide_True.
    + intros c Hc'. apply Hn. intros [= <-]. apply NoDup_app in Hd as (_ & Hd1 & Hd2).
      apply elem_of_app in Hc' as [Hc'|Hc']; [apply (Hd1 b Hc'), list_elem_of_here|].
      apply NoDup_cons in Hd2 as [Hd2 _]. by apply Hd2, list_elem_of_further.
Qed.

(** Writes behind nodes of one list do not change the others. *)
Lemma chain_other s h k la l x :
  ls_is_head k -> ls_ok s (slot_after h la) -> k <> h -> (forall n, n ∈ l -> n ∉ la) ->
  chain (ls_next s) (ls_head s k) l None ->
  let s' := ls_write (slot_after h la) x s in chain (ls_next s') (ls_head s' k) l None.
Proof.
  intros Hk Hok Hne Hdis Hl s'. unfold s' at 2. rewrite ls_write_head by done. rewrite decide_False.
  - apply (chain_ext (ls_next s)); [|done]. intros u Hu. unfold s'. rewrite ls_write_next, decide_False; [done| |done].
    unfold slot_after. destruct (last la) as [v|] eqn:Ev; [|done]. intros [= ->].
    by apply (Hdis u Hu), last_Some_elem_of.
  - unfold slot_after. destruct (last la); congruence.
Qed.

Lemma lists_remove s hd on h la x lb :
  lists s hd on -> on x h -> ls_ok s (slot_after h la) ->
  chain (ls_next s) (ls_head s h) (la ++ x :: lb) None -> (forall n, n ∈ la ++ x :: lb <-> on n h) ->
  lists (ls_write (slot_after h la) (ls_next s x) s) hd (minus on x).
Proof.
  intros [Hl Hf Hi Hd] Hx Hok Hc Hm. pose proof (chain_nodup _ _ _ Hc) as Hnd. split.
  - intros k Hk. destruct (decide (k = h)) as [->|Hne].
    + exists (la ++ lb). split; [apply chain_written; auto|]. intros n. unfold minus. by rewrite elem_of_removed, Hm.
    + destruct (Hl k Hk) as (l & Hck & Hmk). exists l. split.
      * apply chain_other; auto. intros n Hn%Hmk Hn'. apply Hne. eapply Hf; [done|]. apply Hm, elem_of_app. by left.
      * intros n. rewrite Hmk. split; [|by intros [? _]]. intros Hn. split; [done|]. intros ->. apply Hne. by eapply Hf.
  - intros n k k' [? _] [? _]. by eapply Hf.
  - intros n k [? _]. by eapply Hi.
  - done.
Qed.

(** The other nodes stay in their order. *)
Lemma remove_order s hd on h la x lb k l :
  lists s hd on -> on x h -> ls_ok s (slot_after h la) ->
  chain (ls_next s) (ls_head s h) (la ++ x :: lb) None -> (forall n, n ∈ la ++ x :: lb <-> on n h) ->
  hd k -> chain (ls_next s) (ls_head s k) l None ->
  let s' := ls_write (slot_after h la) (ls_next s x) s in
  chain (ls_next s') (ls_head s' k) (filter (fun n => n <> x) l) None.
Proof.
  intros [Hl Hf Hi Hd] Hx Hok Hc Hm Hk Hck. pose proof (chain_nodup _ _ _ Hc) as Hnd.
  destruct (decide (k = h)) as [->|Hne].
  - rewrite (chain_det _ _ _ _ Hck Hc). rewrite filter_app, filter_cons_False by tauto.
    rewrite !filter_keeps; [apply chain_written; auto| |]; apply Forall_forall; intros n Hn ->;
      apply NoDup_app in Hnd as (_ & H1 & H2); apply NoDup_cons in H2 as [H2 _]; [done|].
    by apply (H1 x Hn), list_elem_of_here.
  - destruct (Hl k Hk) as (l' & Hc' & Hm'). rewrite (chain_det _ _ _ _ Hck Hc') in *.
    rewrite filter_keeps.
    + apply chain_other; auto. intros n Hn%Hm' Hn'. apply Hne. eapply Hf; [done|]. apply Hm, elem_of_app. by left.
    + apply Forall_forall. intros n Hn ->. apply Hne. eapply Hf; [by apply Hm'|done].
Qed.

(** ** Insertion at the head *)

Definition plus (on : N -> H -> Prop) (x : N) (k : H) (n : N) (h : H) : Prop := on n h \/ n = x /\ h = k.

Lemma lists_insert s s' hd on x k :
  lists s hd on -> hd k -> (forall h, ~ on x h) ->
  (forall h, hd h -> ls_head s' h = if decide (h = k) then Some x else ls_head s h) ->
  (forall n, n <> x -> ls_next s' n = ls_next s n) -> ls_next s' x = ls_head s k -> lists s' hd (plus on x k).
Proof.
  intros [Hl Hf Hi Hd] Hk Hx Hhd Hnx Hn. split.
  - intros h Hh. destruct (Hl h Hh) as (l & Hc & Hm). rewrite Hhd by done.
    assert (chain (ls_next s') (ls_head s h) l None) as Hc'.
    { apply (chain_ext (ls_next s)); [|done]. intros a Ha. apply Hnx. intros ->. by eapply Hx, Hm. }
    case_decide as E; [subst; exists (x :: l)|exists l]; cbn [chain].
    + rewrite Hn. split; [done|]. intros n. rewrite elem_of_cons, Hm. unfold plus. tauto.
    + split; [done|]. intros n. rewrite Hm. unfold plus. tauto.
  - unfold plus. intros n h h' [Ho|[-> ->]] [Ho'|[? ->]]; subst; try done; [by eapply Hf| |].
    + by destruct (Hx h).
    + by destruct (Hx h').
  - intros n h [?|[_ ->]]; [by eapply Hi|done].
  - done.
Qed.

(** A new list with one node. *)
Lemma lists_single s hd on x k :
  lists s hd on -> ls_is_head k -> ~ hd k -> (forall h, ~ on x h) -> ls_head s k = Some x -> ls_next s x = None ->
  lists s (fun h => hd h \/ h = k) (plus on x k).
Proof.
  intros [Hl Hf Hi Hd] Hk Hnk Hx Hh Hn.
  assert (forall n, ~ on n k) as Hnok by (intros n Ho; by apply Hnk, (Hi n)). split.
  - intros h [Hh'| ->].
    + destruct (Hl h Hh') as (l & Hc & Hm). exists l. split; [done|]. intros n. rewrite Hm. unfold plus.
      split; [by left|]. intros [?|[_ ->]]; done.
    + exists [x]. split; [cbn; by rewrite Hh, Hn|]. intros n. rewrite list_elem_of_singleton. unfold plus.
      split; [by right|]. intros [?|[? _]]; [by destruct (Hnok n)|done].
  - unfold plus. intros n h h' [Ho|[-> ->]] [Ho'|[? ->]]; subst; try done; [by eapply Hf| |].
    + by destruct (Hx h).
    + by destruct (Hx h').
  - intros n h [?|[_ ->]]; [left; by eapply Hi|by right].
  - intros h [?| ->]; auto.
Qed.

(** A list that is given up: its nodes may then be changed. *)
Lemma lists_drop s hd on k :
  lists s hd on -> lists s (fun h => hd h /\ h <> k) (fun n h => on n h /\ h <> k).
Proof.
  intros [Hl Hf Hi Hd]. split.
  - intros h [Hh Hne]. destruct (Hl h Hh) as (l & Hc & Hm). exists l. split; [done|]. intros n. rewrite Hm. tauto.
  - intros n h h' [? _] [? _]. by eapply Hf.
  - intros n h [? ?]. split; [by eapply Hi|done].
  - intros h [? _]. by apply Hd.
Qed.
End Lists.
