(* ===== verification/TbLinks.v ===== *)
(** * The lists of the translation cache

    Hash table, pages and jumps as instances of [ListsOf], and the loops that remove a
    block from such a list. *)

From S2P Require Import Prelude QtraceDefs TlbLoad IContext TbState TbPages Tlb TbCache TbLogic.

(** ** Instances *)

(** A link in an array of two; the number 2 ends a list of jumps. *)
Definition link2 (n : nat) (p : option tagged * option tagged) : option tagged :=
  match n with 0%nat => p.1 | 1%nat => p.2 | _ => None end.
Lemma sel_link2 n p : (n < 2)%nat -> sel n p = Ok (link2 n p).
Proof. intros H. destruct n as [|[|n]]; [done|done|lia]. Qed.
Lemma link2_upd n m x p : (n < 2)%nat -> link2 m (upd n x p) = if decide (m = n) then x else link2 m p.
Proof. intros Hn. destruct n as [|[|n]], m as [|[|m]]; try lia; done. Qed.

Definition hnext (s : cache) (t : nat) : option nat := (tb_at s t).(phys_hash_next).
Definition pnext (s : cache) (x : tagged) : option tagged := link2 x.2 (tb_at s x.1).(page_next).
Definition jnext (s : cache) (x : tagged) : option tagged := link2 x.2 (tb_at s x.1).(jmp_next).

Definition write_tb (t : nat) (f : TranslationBlock -> TranslationBlock) (s : cache) : cache :=
  set_tbs (<[t := f (tb_at s t)]> s.(tbs)) s.

Lemma write_tb_at s t u f : (t < length s.(tbs))%nat ->
  tb_at (write_tb t f s) u = if decide (u = t) then f (tb_at s t) else tb_at s u.
Proof. intros H. by apply tb_at_upd, tb_at_lookup. Qed.

#[export, refine] Instance hash_lists : ListsOf Z nat := {
  ls_head s h := s.(tb_phys_hash) !! h;
  ls_next := hnext;
  ls_is_head _ := True;
  ls_ok s p := match p with AtHead _ => True | After u => (u < length s.(tbs))%nat end;
  ls_write p x s := match p with AtHead h => set_hash h x s | After u => write_tb u (set_phys_hash_next x) s end
}.
Proof.
  - intros s [k|u] x h _ _; [|by rewrite decide_False]. cbn [tb_phys_hash set_hash set_tb_phys_hash].
    case_decide as E; [injection E as ->; by rewrite lookup_partial_alter_eq|]. rewrite lookup_partial_alter_ne; congruence.
  - intros s [k|u] x t Hp; [by rewrite decide_False|]. unfold hnext. rewrite write_tb_at by done.
    case_decide as E; [subst; by rewrite decide_True|]. by rewrite decide_False by congruence.
Defined.

#[export, refine] Instance page_lists : ListsOf Z tagged := {
  ls_head s p := (page_of s p).(first_tb);
  ls_next := pnext;
  ls_is_head := page_index;
  ls_ok s p := match p with
               | AtHead p => page_index p /\ is_Some (find_in L1_LEVEL s.(l1_map) p)
               | After (t, n) => (t < length s.(tbs))%nat /\ (n < 2)%nat
               end;
  ls_write p x s := match p with
                    | AtHead p => set_l1_map (update_in L1_LEVEL (set_first_tb x) s.(l1_map) p) s
                    | After (t, n) => write_tb t (set_page_next n x) s
                    end
}.
Proof.
  - intros s [k|[t n]] x p Hok Hp; [|by rewrite decide_False]. destruct Hok as [Hk Hf].
    rewrite (page_of_upd s k (set_first_tb x) p Hf Hk Hp). case_decide as E; [subst; by rewrite decide_True|].
    by rewrite decide_False by congruence.
  - intros s [k|[t n]] x [u m] Hp; [by rewrite decide_False|]. destruct Hp as [Ht Hn]. unfold pnext. cbn [fst snd].
    rewrite write_tb_at by done. case_decide as E.
    + subst. cbn [page_next set_page_next]. rewrite link2_upd by done.
      case_decide as E'; [subst; by rewrite decide_True|]. by rewrite decide_False by congruence.
    + by rewrite decide_False by congruence.
Defined.

(** The list of jumps to block [t] starts in [t]. *)
#[export, refine] Instance jmp_lists : ListsOf nat tagged := {
  ls_head s t := (tb_at s t).(jmp_first);
  ls_next := jnext;
  ls_is_head _ := True;
  ls_ok s p := match p with
               | AtHead t => (t < length s.(tbs))%nat
               | After (t, n) => (t < length s.(tbs))%nat /\ (n < 2)%nat
               end;
  ls_write p x s := match p with
                    | AtHead t => write_tb t (set_jmp_first x) s
                    | After (t, n) => write_tb t (set_jmp_next n x) s
                    end
}.
Proof.
  - intros s [k|[t n]] x u Hok _.
    + rewrite write_tb_at by done. case_decide as E; [subst; by rewrite decide_True|]. by rewrite decide_False by congruence.
    + destruct Hok as [Ht Hn]. rewrite write_tb_at, (decide_False (P := After _ = _)) by done. by case_decide; subst.
  - intros s [k|[t n]] x [u m] Hp; unfold jnext; cbn [fst snd].
    + rewrite write_tb_at, (decide_False (P := AtHead _ = _)) by done. by case_decide; subst.
    + destruct Hp as [Ht Hn]. rewrite write_tb_at by done. case_decide as E.
      * subst. cbn [jmp_next set_jmp_next]. rewrite link2_upd by done.
        case_decide as E'; [subst; by rewrite decide_True|]. by rewrite decide_False by congruence.
      * by rewrite decide_False by congruence.
Defined.

(** ** Reading and writing through slots *)

Section Slots.
Context (X : exits).

Lemma wpc_read_hash (p : slot Z nat) (Q : option nat -> cache -> Prop) s :
  ls_ok s p -> Q (slot_val s p) s -> wpc (read_hash p) Q X s.
Proof. destruct p as [h|u]; intros Hp HQ; [done|]. apply wpc_bind, wpc_get_tb; [done|]. by apply wpc_ret. Qed.
Lemma wpc_write_hash (p : slot Z nat) x (Q : unit -> cache -> Prop) s :
  ls_ok s p -> Q tt (ls_write p x s) -> wpc (write_hash p x) Q X s.
Proof. destruct p as [h|u]; intros Hp HQ; [done|]. by apply wpc_upd_tb. Qed.

Lemma wpc_read_page (p : slot Z tagged) (Q : option tagged -> cache -> Prop) s :
  ls_ok s p -> Q (slot_val s p) s -> wpc (read_page p) Q X s.
Proof.
  destruct p as [p|[t n]]; intros Hp HQ.
  - destruct Hp as [_ [d Hd]]. apply wpc_bind. eapply wpc_get_page; [exact Hd|]. apply wpc_ret.
    change (Q (page_of s p).(first_tb) s) in HQ. unfold page_of, page_in in HQ. by rewrite Hd in HQ.
  - destruct Hp as [Ht Hn]. apply wpc_bind, wpc_get_tb; [done|]. eapply wpc_lift; [by apply sel_link2|]. done.
Qed.
Lemma wpc_write_page (p : slot Z tagged) x (Q : unit -> cache -> Prop) s :
  ls_ok s p -> Q tt (ls_write p x s) -> wpc (write_page p x) Q X s.
Proof. destruct p as [p|[t n]]; intros [Ht Hn] HQ; [by apply wpc_upd_page|]. by apply wpc_upd_tb. Qed.

Lemma wpc_read_jmp (p : slot nat tagged) (Q : option tagged -> cache -> Prop) s :
  ls_ok s p -> Q (slot_val s p) s -> wpc (read_jmp p) Q X s.
Proof.
  destruct p as [t|[t n]]; intros Hp HQ.
  - apply wpc_bind, wpc_get_tb; [done|]. by apply wpc_ret.
  - destruct Hp as [Ht Hn]. apply wpc_bind, wpc_get_tb; [done|]. eapply wpc_lift; [by apply sel_link2|]. done.
Qed.
Lemma wpc_write_jmp (p : slot nat tagged) x (Q : unit -> cache -> Prop) s :
  ls_ok s p -> Q tt (ls_write p x s) -> wpc (write_jmp p x) Q X s.
Proof. destruct p as [t|[t n]]; intros Hp HQ; [|destruct Hp as [Ht Hn]]; by apply wpc_upd_tb. Qed.
End Slots.

(** ** Removal loops *)

(** Pigeonhole: different nodes of the array are at most two for each block. *)
Lemma nodup_bounded (l : list nat) n : NoDup l -> (forall t, t ∈ l -> (t < n)%nat) -> (length l <= n)%nat.
Proof.
  intros Hd Hb. replace n with (length (seq 0 n)) by apply length_seq. apply NoDup_incl_length; [by apply NoDup_ListNoDup|].
  intros t Ht%list_elem_of_In. apply in_seq. specialize (Hb t Ht). lia.
Qed.

Definition node_code (x : tagged) : nat := 2 * x.1 + x.2.
Lemma nodup_bounded2 (l : list tagged) n :
  NoDup l -> (forall x, x ∈ l -> (x.1 < n)%nat /\ (x.2 < 2)%nat) -> (length l <= 2 * n)%nat.
Proof.
  intros Hd Hb. rewrite <- (length_fmap node_code). apply nodup_bounded.
  - apply NoDup_fmap_2_strong; [|done]. intros [a b] [c d] Hx Hy E. apply Hb in Hx, Hy. unfold node_code in E.
    cbn [fst snd] in *. f_equal; lia.
  - intros t (x & -> & Hx)%list_elem_of_fmap. apply Hb in Hx. unfold node_code. lia.
Qed.

Section Removal.
Context (X : exits).

Lemma wpc_hash_remove h t fuel : forall l1 l2 (Q : unit -> cache -> Prop) s,
  chain (hnext s) (ls_head s h) (l1 ++ l2) None -> (forall u, u ∈ l1 ++ l2 -> (u < length s.(tbs))%nat) ->
  t ∈ l2 -> (length l2 <= fuel)%nat ->
  (forall la lb, l1 ++ l2 = la ++ t :: lb -> Q tt (ls_write (slot_after h la) (hnext s t) s)) ->
  wpc (hash_remove fuel (slot_after h l1) t) Q X s.
Proof.
  induction fuel as [|fuel IH]; intros l1 l2 Q s Hc Hb Ht Hf HQ.
  { destruct l2; [by apply not_elem_of_nil in Ht|cbn in Hf; lia]. }
  destruct l2 as [|b l2]; [by apply not_elem_of_nil in Ht|]. cbn [hash_remove].
  assert (ls_ok s (slot_after h l1)) as Hok by (apply slot_after_ok; [done|]; intros u Hu; apply Hb, elem_of_app; by left).
  apply wpc_bind, wpc_read_hash; [done|]. rewrite (slot_after_val (LL := hash_lists) s h l1 (b :: l2) Hc). cbn [head].
  apply wpc_bind, wpc_not_null. destruct (Nat.eqb_spec b t) as [->|Hne].
  - apply wpc_bind, wpc_get_tb; [apply Hb, elem_of_app; right; by apply list_elem_of_here|].
    apply wpc_write_hash; [done|]. by apply (HQ l1 l2).
  - rewrite <- (slot_after_snoc h l1 b). apply (IH _ l2); rewrite <- ?app_assoc; try done; [|cbn in Hf; lia].
    by apply elem_of_cons in Ht as [->|?].
Qed.

Lemma wpc_tb_hash_remove hd on h t (Q : unit -> cache -> Prop) s :
  lists s hd on -> on t h -> (forall u, on u h -> (u < length s.(tbs))%nat) ->
  (forall p, ls_ok s p -> lists (ls_write p (hnext s t) s) hd (minus on t) -> Q tt (ls_write p (hnext s t) s)) ->
  wpc (tb_hash_remove (AtHead h) t) Q X s.
Proof.
  intros Hli Ht Hb HQ. destruct (li_lists s hd on Hli h (li_head s hd on Hli t h Ht)) as (l & Hc & Hm).
  assert (forall u, u ∈ l -> (u < length s.(tbs))%nat) as Hbl by (intros u Hu; by apply Hb, Hm).
  apply wpc_bind, wpc_gets. apply (wpc_hash_remove h t _ [] l); [done|done|by apply Hm| |].
  { pose proof (nodup_bounded l _ (chain_nodup _ _ _ Hc) Hbl). unfold list_fuel. lia. }
  intros la lb E. cbn [app] in E. subst l.
  assert (ls_ok s (slot_after h la)) as Hok by (apply slot_after_ok; [done|]; intros u Hu; apply Hbl, elem_of_app; by left).
  apply HQ; [done|]. by apply (lists_remove (LL := hash_lists) s hd on h la t lb).
Qed.

(** The first node of the block is taken out. *)
Lemma wpc_page_remove p t fuel : forall n l1 l2 (Q : unit -> cache -> Prop) s,
  ls_ok s (AtHead p : slot Z tagged) -> chain (pnext s) (ls_head s p) (l1 ++ l2) None ->
  (forall x, x ∈ l1 ++ l2 -> (x.1 < length s.(tbs))%nat /\ (x.2 < 2)%nat) -> (t, n) ∈ l2 -> (length l2 <= fuel)%nat ->
  (forall la lb m, l1 ++ l2 = la ++ (t, m) :: lb -> Q tt (ls_write (slot_after p la) (pnext s (t, m)) s)) ->
  wpc (page_remove fuel (slot_after p l1) t) Q X s.
Proof.
  induction fuel as [|fuel IH]; intros n l1 l2 Q s Hp Hc Hb Ht Hf HQ.
  { destruct l2; [by apply not_elem_of_nil in Ht|cbn in Hf; lia]. }
  destruct l2 as [|[b m] l2]; [by apply not_elem_of_nil in Ht|]. cbn [page_remove].
  assert (ls_ok s (slot_after p l1)) as Hok.
  { apply slot_after_ok; [done|]. intros [u k] Hk. apply (Hb (u, k)), elem_of_app. by left. }
  assert ((b, m) ∈ l1 ++ (b, m) :: l2) as Hbm by (apply elem_of_app; right; by apply list_elem_of_here).
  destruct (Hb _ Hbm) as [Hbt Hbn]. cbn [fst snd] in Hbt, Hbn.
  apply wpc_bind, wpc_read_page; [done|]. rewrite (slot_after_val (LL := page_lists) s p l1 ((b, m) :: l2) Hc). cbn [head].
  apply wpc_bind, wpc_not_null. destruct (Nat.eqb_spec b t) as [->|Hne].
  - apply wpc_bind, wpc_get_tb; [done|]. apply wpc_bind. eapply wpc_lift; [by apply sel_link2|].
    apply wpc_write_page; [done|]. by apply (HQ l1 l2).
  - rewrite <- (slot_after_snoc p l1 (b, m)). apply (IH n _ l2); rewrite <- ?app_assoc; try done; [|cbn in Hf; lia].
    apply elem_of_cons in Ht as [E|?]; [congruence|done].
Qed.

(** The pages' lists without the node. *)
Definition pages_without (s s' : cache) (hd : Z -> Prop) (x : tagged) : Prop :=
  forall k l, hd k -> chain (pnext s) (page_of s k).(first_tb) l None ->
    chain (pnext s') (page_of s' k).(first_tb) (filter (fun n => n <> x) l) None.

Lemma wpc_tb_page_remove hd on p t n (Q : unit -> cache -> Prop) s :
  lists s hd on -> on (t, n) p -> ls_ok s (AtHead p : slot Z tagged) ->
  (forall x, on x p -> (x.1 < length s.(tbs))%nat /\ (x.2 < 2)%nat) ->
  (forall m (q : slot Z tagged), let s' := ls_write q (pnext s (t, m)) s in
     on (t, m) p -> ls_ok s q -> lists s' hd (minus on (t, m)) -> pages_without s s' hd (t, m) -> Q tt s') ->
  wpc (tb_page_remove (AtHead p) t) Q X s.
Proof.
  intros Hli Ht Hp Hb HQ. destruct (li_lists s hd on Hli p (li_head s hd on Hli _ p Ht)) as (l & Hc & Hm).
  assert (forall x, x ∈ l -> (x.1 < length s.(tbs))%nat /\ (x.2 < 2)%nat) as Hbl by (intros u Hx; by apply Hb, Hm).
  apply wpc_bind, wpc_gets. apply (wpc_page_remove p t _ n [] l); [done|done|done|by apply Hm| |].
  { pose proof (nodup_bounded2 l _ (chain_nodup _ _ _ Hc) Hbl). unfold list_fuel. lia. }
  intros la lb m E. cbn [app] in E. subst l. assert (ls_ok s (slot_after p la)) as Hok.
  { apply slot_after_ok; [done|]. intros [u k] Hx. apply (Hbl (u, k)), elem_of_app. by left. }
  assert (on (t, m) p) as Hon by (apply Hm, elem_of_app; right; by apply list_elem_of_here). apply HQ; [done|done| |].
  - by apply (lists_remove (LL := page_lists) s hd on p la (t, m) lb).
  - intros k l' Hk Hc'. by apply (remove_order (LL := page_lists) s hd on p la (t, m) lb).
Qed.

(** *** Jumps *)

Definition node_ok (s : cache) (x : tagged) : Prop := (x.1 < length s.(tbs))%nat /\ (x.2 < 2)%nat.

Lemma node_slot s x : node_ok s x -> ls_ok s (After x : slot nat tagged).
Proof. by destruct x. Qed.

Lemma jmp_slot_ok s u l : (u < length s.(tbs))%nat -> Forall (node_ok s) l -> ls_ok s (slot_after u l : slot nat tagged).
Proof. intros Hu Hl. apply slot_after_ok; [done|]. intros x Hx. apply node_slot. by eapply Forall_forall in Hl. Qed.

(** One step of the search, at a node that is not the one looked for. *)
Lemma wpc_find_jmp_step s u l x l2 fuel t n (Q : slot nat tagged -> cache -> Prop) :
  chain (jnext s) (ls_head s u) (l ++ x :: l2) None -> (u < length s.(tbs))%nat -> Forall (node_ok s) l -> x <> (t, n) ->
  wpc (find_jmp fuel (if (x.2 =? 2)%nat then AtHead x.1 else After x) t n) Q X s ->
  wpc (find_jmp (S fuel) (slot_after u l) t n) Q X s.
Proof.
  intros Hc Hu Hl Hne HQ. cbn [find_jmp]. apply wpc_bind, wpc_read_jmp; [by apply jmp_slot_ok|].
  rewrite (slot_after_val (LL := jmp_lists) s u l (x :: l2) Hc). cbn [head]. apply wpc_bind, wpc_not_null.
  destruct x as [b m]. cbn [fst snd] in *. destruct (Nat.eqb_spec m n) as [->|]; [|done].
  destruct (Nat.eqb_spec b t) as [->|]; [|done]. done.
Qed.

(** From the node to the end of the list. *)
Lemma wpc_find_jmp_tail s u t n (Q : slot nat tagged -> cache -> Prop) l2 : forall l1 fuel,
  chain (jnext s) (ls_head s u) (l1 ++ l2 ++ [(u, 2%nat)]) None -> (u < length s.(tbs))%nat -> (n < 2)%nat ->
  Forall (node_ok s) (l1 ++ l2) -> (t, n) ∉ l2 ->
  wpc (find_jmp fuel (AtHead u) t n) Q X s -> wpc (find_jmp (S (length l2 + fuel)) (slot_after u l1) t n) Q X s.
Proof.
  induction l2 as [|x l2 IH]; intros l1 fuel Hc Hu Hn Ho Ht HQ.
  - rewrite app_nil_r in Ho. apply (wpc_find_jmp_step s u l1 (u, 2%nat) []); [done|done|done| |done]. intros [=]. lia.
  - apply not_elem_of_cons in Ht as [Hx Ht]. pose proof Ho as [Ho1 [Hxo Ho2]%Forall_cons]%Forall_app.
    apply (wpc_find_jmp_step s u l1 x (l2 ++ [(u, 2%nat)])); [done|done|done|done|].
    destruct Hxo as [_ Hx2]. rewrite (proj2 (Nat.eqb_neq x.2 2)) by lia. rewrite <- (slot_after_snoc u l1 x).
    apply IH; rewrite <- ?app_assoc; try done.
Qed.

(** From the head of the list to the node. *)
Lemma wpc_find_jmp_head s u t n (Q : slot nat tagged -> cache -> Prop) l2 lb : forall l1 fuel,
  chain (jnext s) (ls_head s u) (l1 ++ l2 ++ (t, n) :: lb) None -> (u < length s.(tbs))%nat ->
  Forall (node_ok s) (l1 ++ l2) -> (t, n) ∉ l2 ->
  Q (slot_after u (l1 ++ l2)) s -> wpc (find_jmp (S (length l2 + fuel)) (slot_after u l1) t n) Q X s.
Proof.
  induction l2 as [|x l2 IH]; intros l1 fuel Hc Hu Ho Ht HQ.
  - rewrite app_nil_r in *. cbn [app length Nat.add find_jmp] in *. apply wpc_bind, wpc_read_jmp; [by apply jmp_slot_ok|].
    rewrite (slot_after_val (LL := jmp_lists) s u l1 ((t, n) :: lb) Hc). cbn [head]. apply wpc_bind, wpc_not_null.
    by rewrite !Nat.eqb_refl.
  - apply not_elem_of_cons in Ht as [Hx Ht]. pose proof Ho as [Ho1 [Hxo Ho2]%Forall_cons]%Forall_app.
    apply (wpc_find_jmp_step s u l1 x (l2 ++ (t, n) :: lb)); [done|done|done|done|].
    destruct Hxo as [_ Hx2]. rewrite (proj2 (Nat.eqb_neq x.2 2)) by lia. rewrite <- (slot_after_snoc u l1 x).
    apply IH; rewrite <- ?app_assoc; try done.
Qed.

(** Where block [t] jumps with number [n] to a block, it is taken out of the list of
    jumps to that block. *)
Lemma wpc_tb_jmp_remove s hd on u t n la lb (Q : unit -> cache -> Prop) :
  lists s hd on -> on (t, n) u -> (u < length s.(tbs))%nat -> node_ok s (t, n) ->
  chain (jnext s) (ls_head s u) (la ++ (t, n) :: lb ++ [(u, 2%nat)]) None ->
  (forall x, x ∈ la ++ (t, n) :: lb ++ [(u, 2%nat)] <-> on x u) -> Forall (node_ok s) (la ++ lb) ->
  (let s' := ls_write (After (t, n)) None (ls_write (slot_after u la) (jnext s (t, n)) s) in
   lists s' hd (minus on (t, n)) -> Q tt s') ->
  wpc (tb_jmp_remove t n) Q X s.
Proof.
  intros Hli Ht Hu Hok Hc Hm Ho HQ. pose proof (chain_nodup _ _ _ Hc) as Hd. apply Forall_app in Ho as [Hoa Hob].
  assert (((t, n) ∉ la) /\ ((t, n) ∉ lb)) as [Hna Hnb].
  { apply NoDup_app in Hd as (_ & H1 & H2). apply NoDup_cons in H2 as [H2 _].
    split; intros Hx; [by apply (H1 _ Hx), list_elem_of_here|]. apply H2, elem_of_app. by left. }
  unfold tb_jmp_remove. apply wpc_bind, wpc_read_jmp; [by apply node_slot|].
  assert (is_Some (jnext s (t, n))) as [x Hx].
  { apply chain_app in Hc as (m & _ & _ & Hc). destruct lb; cbn in Hc; destruct Hc as [-> _]; by eexists. }
  change (slot_val s (After (t, n))) with (jnext s (t, n)). rewrite Hx. apply wpc_bind, wpc_gets. apply wpc_bind.
  assert (length la + length lb + 2 <= S (list_fuel s))%nat as Hf.
  { assert (length (la ++ (t, n) :: lb) <= 2 * length s.(tbs))%nat as Hle.
    { apply nodup_bounded2.
      - rewrite app_comm_cons, app_assoc in Hd. by apply NoDup_app in Hd as (? & _).
      - intros y Hy. apply elem_of_app in Hy as [Hy|[->|Hy]%elem_of_cons]; [|done|]; [by eapply (Forall_forall (node_ok s)) in Hoa|by eapply (Forall_forall (node_ok s)) in Hob]. }
    rewrite length_app in Hle. cbn [length] in Hle. unfold list_fuel. lia. }
  replace (S (list_fuel s)) with (S (length lb + (S (length la + (list_fuel s - length la - length lb - 1)))))%nat by lia.
  rewrite <- (slot_after_snoc u la (t, n)). apply (wpc_find_jmp_tail s u t n _ lb).
  { rewrite <- app_assoc. done. } { done. } { apply Hok. }
  { rewrite !Forall_app. split; [split; [done|]|done]. by constructor. } { done. }
  apply (wpc_find_jmp_head s u t n _ la (lb ++ [(u, 2%nat)]) []); [done|done|done|done|]. cbn [app].
  apply wpc_bind, wpc_read_jmp; [by rewrite slot_after_snoc; apply node_slot|]. rewrite slot_after_snoc.
  change (slot_val s (After (t, n))) with (jnext s (t, n)).
  apply wpc_bind, wpc_write_jmp; [by apply jmp_slot_ok|].
  set (s1 := ls_write (slot_after u la) (jnext s (t, n)) s) in *.
  assert (length s1.(tbs) = length s.(tbs)) as Hl1.
  { unfold s1. destruct (slot_after u la) as [v|[v k]]; cbn; by rewrite length_insert. }
  assert (ls_ok s1 (After (t, n) : slot nat tagged)) as Hok1 by (apply node_slot; destruct Hok; split; [by rewrite Hl1|done]).
  apply wpc_write_jmp; [done|]. apply HQ.
  assert (lists s1 hd (minus on (t, n))) as Hl by (apply (lists_remove (LL := jmp_lists) s hd on u la (t, n) (lb ++ [(u, 2%nat)])); [done|done|by apply jmp_slot_ok|done|done]).
  apply (lists_ext s1 _ hd hd (minus on (t, n))); try done.
  - intros h _. rewrite (ls_write_head (ListsOf := jmp_lists)) by done. by rewrite decide_False.
  - intros y h [_ Hy]. rewrite (ls_write_next (ListsOf := jmp_lists)) by done. rewrite decide_False; congruence.
Qed.
End Removal.
