(* ===== verification/TbInv.v ===== *)
(** * The invariant of the translation cache

    [cache_inv s L J]: the blocks [L] are alive.  Exactly these are in the hash table
    and in the lists of the pages of their code, the jump caches refer to no other
    block, [J] tells which jump of which block goes to which block, and the jump
    instructions in the code agree with it. *)

From S2P Require Import Prelude QtraceDefs TlbLoad IContext TbState TbPages Tlb TbCache TbLogic TbLinks.

(** ** What an operation leaves alone *)

(** A block without its links. *)
Definition core (tb : TranslationBlock) : TranslationBlock :=
  set_jmp_first None (set_jmp_next 0 None (set_jmp_next 1 None (set_page_next 0 None (set_page_next 1 None
    (set_phys_hash_next None tb))))).

Definition cpu_tlb (c : CPUState) := (c.(tlb_table), c.(iotlb), c.(tlb_flush_addr), c.(tlb_flush_mask), c.(watchpoints)).
Definition cpu_io (c : CPUState) : Z * Z := (c.(mem_io_pc), c.(mem_io_vaddr)).

Inductive part := Core | Hash | Pages | Tables | Bitmaps | Jumps | Cpus | Caches | Tlbs | Code | Memory.

Definition unch (k : part) (s s' : cache) : Prop :=
  match k with
  | Core => (forall t, core (tb_at s' t) = core (tb_at s t)) /\ length s'.(tbs) = length s.(tbs) /\
            s'.(nb_tbs) = s.(nb_tbs) /\ s'.(code_gen_ptr) = s.(code_gen_ptr) /\ s'.(current_cpu) = s.(current_cpu)
  | Hash => s'.(tb_phys_hash) = s.(tb_phys_hash) /\ forall t, hnext s' t = hnext s t
  | Pages => (forall p, page_index p -> (page_of s' p).(first_tb) = (page_of s p).(first_tb)) /\
             forall x, pnext s' x = pnext s x
  | Tables => forall p, is_Some (find_in L1_LEVEL s.(l1_map) p) -> is_Some (find_in L1_LEVEL s'.(l1_map) p)
  | Bitmaps => forall p, page_index p -> (page_of s' p).(code_bitmap) = (page_of s p).(code_bitmap)
  | Jumps => (forall t, (tb_at s' t).(jmp_first) = (tb_at s t).(jmp_first)) /\ forall x, jnext s' x = jnext s x
  | Cpus => s'.(cpus) = s.(cpus)
  | Caches => tb_jmp_cache <$> s'.(cpus) = tb_jmp_cache <$> s.(cpus)
  | Tlbs => cpu_tlb <$> s'.(cpus) = cpu_tlb <$> s.(cpus) /\ cpu_io <$> s'.(cpus) = cpu_io <$> s.(cpus)
  | Code => s'.(host_code) = s.(host_code)
  | Memory => s'.(phys_dirty) = s.(phys_dirty) /\ s'.(host_mem) = s.(host_mem)
  end.

Definition keeps (K : list part) (s s' : cache) : Prop := forall k, k ∈ K -> unch k s s'.

Lemma unch_refl k s : unch k s s.
Proof. destruct k; cbn -[L1_LEVEL]; auto 10. Qed.
Lemma unch_trans k s1 s2 s3 : unch k s1 s2 -> unch k s2 s3 -> unch k s1 s3.
Proof.
  destruct k; cbn -[L1_LEVEL].
  - intros (A1 & B1 & C1 & D1 & E1) (A2 & B2 & C2 & D2 & E2). split; [intros t; by rewrite A2|]. repeat split; congruence.
  - intros [A1 B1] [A2 B2]. split; [congruence|]. intros t. by rewrite B2.
  - intros [A1 B1] [A2 B2]. split; [intros p Hp; by rewrite A2, A1|]. intros t. by rewrite B2.
  - auto.
  - intros A1 A2 p Hp. by rewrite A2, A1.
  - intros [A1 B1] [A2 B2]. split; intros t; [by rewrite A2|by rewrite B2].
  - congruence.
  - congruence.
  - intros [A1 B1] [A2 B2]. split; congruence.
  - congruence.
  - intros [A1 B1] [A2 B2]. split; congruence.
Qed.

Lemma keeps_refl K s : keeps K s s.
Proof. intros k _. apply unch_refl. Qed.
Lemma keeps_trans K s1 s2 s3 : keeps K s1 s2 -> keeps K s2 s3 -> keeps K s1 s3.
Proof. intros H1 H2 k Hk. eapply unch_trans; auto. Qed.
Lemma keeps_sub K K' s s' : keeps K s s' -> (forall k, k ∈ K' -> k ∈ K) -> keeps K' s s'.
Proof. intros H Hs k Hk. auto. Qed.

Lemma unch_cpus k s s' : (k = Caches \/ k = Tlbs) -> unch Cpus s s' -> unch k s s'.
Proof. intros [-> | ->]; cbn; intros ->; done. Qed.

(** *** Writes to one block *)

Lemma write_tb_proj {A} (f : TranslationBlock -> A) s t g u :
  (forall b, f (g b) = f b) -> f (tb_at (write_tb t g s) u) = f (tb_at s u).
Proof.
  intros Hf. destruct (decide (t < length s.(tbs))%nat) as [Ht|Ht].
  - rewrite write_tb_at by done. by case_decide; subst.
  - unfold write_tb, tb_at. cbn [tbs set_tbs]. by rewrite list_insert_ge by lia.
Qed.

Lemma write_tb_length s t g : length (write_tb t g s).(tbs) = length s.(tbs).
Proof. apply length_insert. Qed.

(** A part is untouched by a write that keeps its fields. *)
Lemma write_tb_unch k s t g :
  (forall b, core (g b) = core b \/ k <> Core) -> (forall b, (g b).(phys_hash_next) = b.(phys_hash_next) \/ k <> Hash) ->
  (forall b, (g b).(page_next) = b.(page_next) \/ k <> Pages) ->
  (forall b, (g b).(jmp_next) = b.(jmp_next) /\ (g b).(jmp_first) = b.(jmp_first) \/ k <> Jumps) ->
  unch k s (write_tb t g s).
Proof.
  intros H1 H2 H3 H4. destruct k; cbn; try done.
  - split; [intros u; apply write_tb_proj; intros b; by destruct (H1 b)|]. by rewrite length_insert.
  - split; [done|]. intros u. apply (write_tb_proj phys_hash_next). intros b. by destruct (H2 b).
  - split; [done|]. intros x. unfold pnext. f_equal. apply (write_tb_proj page_next). intros b. by destruct (H3 b).
  - split; intros u; [|unfold jnext; f_equal]; apply (write_tb_proj _ s t g); intros b; by destruct (H4 b) as [[]|].
Qed.

Ltac unch_write :=
  apply write_tb_unch; intros ?; ((left; done) || (left; by split) || (right; done) || (right; congruence)).

Lemma write_hash_unch (p : slot Z nat) x s k : k <> Hash -> unch k s (ls_write p x s).
Proof. intros Hk. destruct p as [h|t]; [destruct k; first [done|intros q Hq; exact Hq]|]. unch_write. Qed.

Lemma write_jmp_unch (p : slot nat tagged) x s k : k <> Jumps -> unch k s (ls_write p x s).
Proof. intros Hk. destruct p as [t|[t n]]; unch_write. Qed.

(** *** Writes to one page *)

Definition write_page_st (p : Z) (f : PageDesc -> PageDesc) (s : cache) : cache :=
  set_l1_map (update_in L1_LEVEL f s.(l1_map) p) s.

Lemma wpc_write_page_st X p f (Q : unit -> cache -> Prop) s :
  is_Some (find_in L1_LEVEL s.(l1_map) p) -> Q tt (write_page_st p f s) -> wpc (upd_page p f) Q X s.
Proof. apply wpc_upd_page. Qed.

Lemma write_page_at s p f q :
  is_Some (find_in L1_LEVEL s.(l1_map) p) -> page_index p -> page_index q ->
  page_of (write_page_st p f s) q = if decide (q = p) then f (page_of s p) else page_of s q.
Proof. apply page_of_upd. Qed.

Lemma write_page_st_unch k s p f :
  is_Some (find_in L1_LEVEL s.(l1_map) p) -> page_index p ->
  (forall d, (f d).(first_tb) = d.(first_tb) \/ k <> Pages) -> (forall d, (f d).(code_bitmap) = d.(code_bitmap) \/ k <> Bitmaps) ->
  unch k s (write_page_st p f s).
Proof.
  intros Hs Hp H1 H2. destruct k; cbn -[page_of L1_LEVEL]; try done.
  - split; [|done]. intros q Hq. rewrite write_page_at by done. case_decide; [subst|done].
    by destruct (H1 (page_of s p)).
  - intros q Hq. by apply find_in_update_keep.
  - intros q Hq. rewrite write_page_at by done. case_decide; [subst|done]. by destruct (H2 (page_of s p)).
Qed.

Lemma write_page_unch (p : slot Z tagged) x s k : ls_ok s p -> k <> Pages -> unch k s (ls_write p x s).
Proof.
  intros Hok Hk. destruct p as [p|[t n]].
  - destruct Hok as [Hp Hs]. apply write_page_st_unch; [done|done| |]; intros d; [by right|by left].
  - unch_write.
Qed.

(** A page that has a block has a descriptor. *)
Lemma page_exists s p x : (page_of s p).(first_tb) = Some x -> is_Some (find_in L1_LEVEL s.(l1_map) p).
Proof. unfold page_of, page_in. by destruct (find_in _ _ p); [eexists|]. Qed.

(** ** Jump instructions *)

(** A jump is numbered by its block and its number in the block. *)
Definition jmp_field (s : cache) (x : tagged) : Z := (tb_at s x.1).(tc_ptr) + at2 x.2 (tb_at s x.1).(tb_jmp_offset).
Definition has_exit (s : cache) (x : tagged) : Prop := (x.2 < 2)%nat /\ at2 x.2 (tb_at s x.1).(tb_next_offset) <> 0xffff.
Definition exit_code (s : cache) (x : tagged) : Z := (tb_at s x.1).(tc_ptr) + at2 x.2 (tb_at s x.1).(tb_next_offset).

Definition code_bytes (f : Z -> Z) (a : Z) (n : nat) : list Z := (fun k => f (a + Z.of_nat k)) <$> seq 0 n.
(** Where the jump at [a] goes: its displacement counts from the next instruction. *)
Definition dest_at (f : Z -> Z) (a : Z) : Z := a + 4 + s32 (of_bytes_le (code_bytes f a 4)).
Definition jump_dest (s : cache) (x : tagged) : Z := dest_at s.(host_code) (jmp_field s x).

Lemma code_bytes_write f a bs : code_bytes (write_code a bs f) a (length bs) = bs.
Proof.
  apply list_eq. intros k. unfold code_bytes. rewrite list_lookup_fmap.
  destruct (decide (k < length bs)%nat) as [Hk|Hk].
  - rewrite lookup_seq_lt by done. cbn. unfold write_code. rewrite (proj2 (Z.leb_le _ _)) by lia.
    replace (Z.to_nat (a + Z.of_nat k - a)) with k by lia. destruct (lookup_lt_is_Some_2 bs k Hk) as [b ->]. done.
  - rewrite lookup_seq_ge, lookup_ge_None_2 by lia. done.
Qed.

Lemma code_bytes_apart f a bs b n :
  b + Z.of_nat n <= a \/ a + Z.of_nat (length bs) <= b -> code_bytes (write_code a bs f) b n = code_bytes f b n.
Proof.
  intros H. apply list_fmap_ext. intros k j [-> Hj]%lookup_seq. unfold write_code. case_match eqn:E; [|done].
  rewrite lookup_ge_None_2; [done|]. apply Z.leb_le in E. lia.
Qed.

Lemma dest_at_write f a d : in_s 32 (d - (a + 4)) -> dest_at (write_code a (bytes_le 4 (u32 (d - (a + 4)))) f) a = d.
Proof.
  intros Hd. unfold dest_at. change 4%nat with (length (bytes_le 4 (u32 (d - (a + 4))))) at 1.
  rewrite code_bytes_write, of_bytes_le_bytes_le. change (8 * Z.of_nat 4) with 32.
  rewrite wrap_wrap, swrap_wrap, swrap_id by (done || lia). lia.
Qed.

Lemma dest_at_apart f a bs b : length bs = 4%nat -> b + 4 <= a \/ a + 4 <= b -> dest_at (write_code a bs f) b = dest_at f b.
Proof. intros Hl H. unfold dest_at. rewrite code_bytes_apart; [done|]. rewrite Hl. lia. Qed.

Lemma write_code_out f a bs b : ~ a <= b < a + Z.of_nat (length bs) -> write_code a bs f b = f b.
Proof. intros H. unfold write_code. case_match eqn:E; [|done]. apply Z.leb_le in E. rewrite lookup_ge_None_2 by lia. done. Qed.

(** ** Code apart from jumps *)

Definition in_field (s : cache) (x : tagged) (a : Z) : Prop := has_exit s x /\ jmp_field s x <= a < jmp_field s x + 4.

(** The code of a block outside the fields of its jumps. *)
Definition in_body (s : cache) (t : nat) (a : Z) : Prop :=
  (tb_at s t).(tc_ptr) <= a < (tb_at s t).(tc_end_ptr) /\ forall n, ~ in_field s (t, n) a.
Definition body_kept (s s' : cache) (t : nat) : Prop := forall a, in_body s t a -> s'.(host_code) a = s.(host_code) a.

(** Only jumps of the blocks [L] have changed. *)
Definition code_kept (L : nat -> Prop) (s s' : cache) : Prop :=
  forall a, (forall x, L x.1 -> ~ in_field s x a) -> s'.(host_code) a = s.(host_code) a.

Lemma in_field_block s s' x a : core (tb_at s' x.1) = core (tb_at s x.1) -> in_field s' x a <-> in_field s x a.
Proof.
  intros E. unfold in_field, has_exit, jmp_field.
  assert ((tb_at s' x.1).(tb_next_offset) = (tb_at s x.1).(tb_next_offset)) as -> by exact (f_equal tb_next_offset E).
  assert ((tb_at s' x.1).(tb_jmp_offset) = (tb_at s x.1).(tb_jmp_offset)) as -> by exact (f_equal tb_jmp_offset E).
  by assert ((tb_at s' x.1).(tc_ptr) = (tb_at s x.1).(tc_ptr)) as -> by exact (f_equal tc_ptr E).
Qed.

Lemma in_body_block s s' t a : core (tb_at s' t) = core (tb_at s t) -> in_body s' t a <-> in_body s t a.
Proof.
  intros E. unfold in_body. assert ((tb_at s' t).(tc_ptr) = (tb_at s t).(tc_ptr)) as -> by exact (f_equal tc_ptr E).
  assert ((tb_at s' t).(tc_end_ptr) = (tb_at s t).(tc_end_ptr)) as -> by exact (f_equal tc_end_ptr E).
  split; intros [H1 H2]; (split; [done|]); intros n; [rewrite <- (in_field_block s s' (t, n))|rewrite (in_field_block s s' (t, n))]; done.
Qed.

Lemma body_kept_eq s s' t : s'.(host_code) = s.(host_code) -> body_kept s s' t.
Proof. intros E a _. by rewrite E. Qed.
Lemma body_kept_trans s1 s2 s3 t :
  core (tb_at s2 t) = core (tb_at s1 t) -> body_kept s1 s2 t -> body_kept s2 s3 t -> body_kept s1 s3 t.
Proof. intros E H1 H2 a Ha. rewrite H2 by by apply (in_body_block s1 s2). by apply H1. Qed.

(** Block [t] is the same but for its links and jumps. *)
Definition same_block (s s' : cache) (t : nat) : Prop := core (tb_at s' t) = core (tb_at s t) /\ body_kept s s' t.

Lemma same_block_eq s s' t : core (tb_at s' t) = core (tb_at s t) -> s'.(host_code) = s.(host_code) -> same_block s s' t.
Proof. intros E H. split; [done|by apply body_kept_eq]. Qed.
Lemma same_block_cpus s s' t : s' = set_cpus s'.(cpus) s -> same_block s s' t.
Proof. intros ->. by apply same_block_eq. Qed.
Lemma same_block_trans s1 s2 s3 t : same_block s1 s2 t -> same_block s2 s3 t -> same_block s1 s3 t.
Proof. intros [E1 B1] [E2 B2]. split; [congruence|by eapply body_kept_trans]. Qed.

Lemma code_kept_eq L s s' : s'.(host_code) = s.(host_code) -> code_kept L s s'.
Proof. intros E a _. by rewrite E. Qed.
Lemma code_kept_trans (L L' : nat -> Prop) s1 s2 s3 :
  unch Core s1 s2 -> (forall t, L' t -> L t) -> code_kept L s1 s2 -> code_kept L' s2 s3 -> code_kept L s1 s3.
Proof.
  intros [E _] HL H1 H2 a Ha. rewrite H2; [by apply H1|]. intros x Hx. rewrite (in_field_block s1 s2) by apply E. by apply Ha, HL.
Qed.
Lemma code_kept_sub (L L' : nat -> Prop) s s' : (forall t, L' t -> L t) -> code_kept L' s s' -> code_kept L s s'.
Proof. intros HL H a Ha. apply H. intros x Hx. by apply Ha, HL. Qed.

(** ** The invariant *)

(** The second page is used where the code of the block reaches into it. *)
Definition uses_page (tb : TranslationBlock) (n : nat) : Prop := n = 0%nat \/ n = 1%nat /\ tb.(page_addr).2 <> no_page.

Definition hash_of (tb : TranslationBlock) : Z := tb_phys_hash_func (phys_pc_of tb).
Definition page_of_code (tb : TranslationBlock) (n : nat) : Z := page_number (at2 n tb.(page_addr)).

Section Invariant.
Context (G : code_gen).

Definition hash_on (s : cache) (L : nat -> Prop) (t : nat) (h : Z) : Prop := L t /\ hash_of (tb_at s t) = h.
Definition page_on (s : cache) (L : nat -> Prop) (x : tagged) (p : Z) : Prop :=
  L x.1 /\ uses_page (tb_at s x.1) x.2 /\ page_of_code (tb_at s x.1) x.2 = p.
(** Jumps to [t], and the end of the list. *)
Definition jmp_on (J : tagged -> option nat) (L : nat -> Prop) (x : tagged) (t : nat) : Prop :=
  L t /\ (x = (t, 2%nat) \/ (x.2 < 2)%nat /\ J x = Some t).

(** A physical page address below 2^52. *)
Definition page_ok (a : Z) : Prop := in_u 52 a /\ Z.land a TARGET_PAGE_MASK = a.

Record block_ok (tb : TranslationBlock) : Prop := {
  bo_page0 : page_ok tb.(page_addr).1;
  bo_page1 : tb.(page_addr).2 = no_page \/ page_ok tb.(page_addr).2;
  bo_pc : in_u 64 tb.(tb_pc);
  bo_size : 1 <= tb.(tb_size) <= TARGET_PAGE_SIZE;
  bo_spans : tb.(page_addr).2 = no_page <-> Z.land tb.(tb_pc) TARGET_PAGE_MASK = Z.land (u64 (tb.(tb_pc) + tb.(tb_size) - 1)) TARGET_PAGE_MASK
}.

(** The code of a block and the fields of its jumps. *)
Record code_ok (s : cache) (t : nat) : Prop := {
  co_start : G.(code_gen_buffer) <= (tb_at s t).(tc_ptr);
  co_end : (tb_at s t).(tc_ptr) <= (tb_at s t).(tc_end_ptr) <= s.(code_gen_ptr);
  co_exit : forall n, has_exit s (t, n) -> (tb_at s t).(tc_ptr) <= exit_code s (t, n) <= (tb_at s t).(tc_end_ptr);
  co_field : forall n, has_exit s (t, n) ->
    (tb_at s t).(tc_ptr) <= jmp_field s (t, n) /\ jmp_field s (t, n) + 4 <= (tb_at s t).(tc_end_ptr);
  co_fields : has_exit s (t, 0%nat) -> has_exit s (t, 1%nat) ->
    jmp_field s (t, 0%nat) + 4 <= jmp_field s (t, 1%nat) \/ jmp_field s (t, 1%nat) + 4 <= jmp_field s (t, 0%nat)
}.

Record layout (s : cache) (L : nat -> Prop) : Prop := {
  ly_bound : (s.(nb_tbs) <= length s.(tbs))%nat /\ length s.(tbs) = Z.to_nat G.(code_gen_max_blocks);
  ly_live : forall t, L t -> (t < s.(nb_tbs))%nat;
  ly_block : forall t, L t -> block_ok (tb_at s t);
  ly_code : forall t, L t -> code_ok s t;
  ly_ptr : G.(code_gen_buffer) <= s.(code_gen_ptr) <= G.(code_gen_buffer) + G.(code_gen_buffer_size);
  ly_empty : s.(nb_tbs) = 0%nat -> s.(code_gen_ptr) = G.(code_gen_buffer);
  ly_first : (0 < s.(nb_tbs))%nat -> (tb_at s 0).(tc_ptr) = G.(code_gen_buffer);
  ly_start : forall t, (t < s.(nb_tbs))%nat -> (tb_at s t).(tc_ptr) <= s.(code_gen_ptr);
  ly_order : forall t u, (t < u < s.(nb_tbs))%nat -> (tb_at s t).(tc_ptr) <= (tb_at s u).(tc_ptr) /\
    (L t -> (tb_at s t).(tc_end_ptr) <= (tb_at s u).(tc_ptr));
  ly_distance : G.(code_gen_buffer_size) <= 2 ^ 31 - 8
}.

Record jumps_ok (s : cache) (L : nat -> Prop) (J : tagged -> option nat) : Prop := {
  jo_lists : lists s L (jmp_on J L);
  jo_chained : forall x t, J x = Some t -> L x.1 /\ L t /\ has_exit s x;
  jo_unchained : forall x, L x.1 -> (x.2 < 2)%nat -> J x = None -> jnext s x = None
}.

(** A bitmap has at least the bits of the code of live blocks. *)
Definition bit_at (tab : list Z) (i : Z) : bool := Z.testbit (tab !!! Z.to_nat (i / 8)) (i mod 8).
Definition bitmaps_ok (s : cache) (L : nat -> Prop) : Prop :=
  forall p tab, page_index p -> (page_of s p).(code_bitmap) = Some tab ->
    length tab = Z.to_nat (TARGET_PAGE_SIZE / 8) /\
    forall x i, page_on s L x p -> (code_in_page (tb_at s x.1) x.2).1 <= i < (code_in_page (tb_at s x.1) x.2).2 -> bit_at tab i = true.

Record cache_inv (s : cache) (L : nat -> Prop) (J : tagged -> option nat) : Prop := {
  ci_layout : layout s L;
  ci_hash : lists s (fun _ => True) (hash_on s L);
  ci_pages : lists s page_index (page_on s L);
  ci_jumps : jumps_ok s L J;
  ci_code : forall x, L x.1 -> has_exit s x ->
    jump_dest s x = match J x with Some t => (tb_at s t).(tc_ptr) | None => exit_code s x end;
  ci_bitmaps : bitmaps_ok s L;
  ci_cpu : forall c, s.(current_cpu) = Some c -> (c < length s.(cpus))%nat;
  ci_caches : forall c h t, c ∈ s.(cpus) -> c.(tb_jmp_cache) !! h = Some t -> L t /\ tb_jmp_cache_hash_func (tb_at s t).(tb_pc) = h
}.
End Invariant.

(** ** Frames *)

Lemma core_eq {A} (f : TranslationBlock -> A) s s' t :
  (forall b, f (core b) = f b) -> unch Core s s' -> f (tb_at s' t) = f (tb_at s t).
Proof. intros Hf (Hc & _). by rewrite <- Hf, Hc. Qed.

Ltac core_rewrite Hc :=
  repeat match goal with
  | |- context [?f (tb_at ?s' ?t)] =>
      lazymatch type of Hc with unch Core ?s s' =>
        let E := fresh in
        assert (f (tb_at s' t) = f (tb_at s t)) as E by (apply (core_eq f s s' t); [done|exact Hc]); rewrite E; clear E
      end
  end.

Lemma core_jmp_field s s' x : unch Core s s' -> jmp_field s' x = jmp_field s x.
Proof. intros Hc. unfold jmp_field. by core_rewrite Hc. Qed.
Lemma core_exit_code s s' x : unch Core s s' -> exit_code s' x = exit_code s x.
Proof. intros Hc. unfold exit_code. by core_rewrite Hc. Qed.
Lemma core_has_exit s s' x : unch Core s s' -> has_exit s' x <-> has_exit s x.
Proof. intros Hc. unfold has_exit. by core_rewrite Hc. Qed.

(** Live blocks do not share code. *)
Lemma code_kept_body G s s' L t : layout G s L -> L t -> code_kept L s s' -> body_kept s s' t.
Proof.
  intros Y Ht H a [Ha Hf]. apply H. intros [u n] Hu Hin. cbn [fst] in Hu. destruct (decide (u = t)) as [->|Hne]; [by apply (Hf n)|].
  destruct Hin as [Hx Hin]. pose proof (co_field G s u (ly_code G s L Y u Hu) n Hx) as [F1 F2].
  pose proof (ly_live G s L Y u Hu). pose proof (ly_live G s L Y t Ht). destruct (Nat.lt_trichotomy t u) as [Htu|[->|Htu]]; [|done|].
  - destruct (ly_order G s L Y t u) as [_ Ho]; [lia|]. specialize (Ho Ht). lia.
  - destruct (ly_order G s L Y u t) as [_ Ho]; [lia|]. specialize (Ho Hu). lia.
Qed.

Lemma code_kept_same G s s' L t : layout G s L -> L t -> unch Core s s' -> code_kept L s s' -> same_block s s' t.
Proof. intros Y Ht [E _] H. split; [apply E|by eapply code_kept_body]. Qed.

Lemma block_ok_core tb tb' : core tb' = core tb -> block_ok tb -> block_ok tb'.
Proof.
  intros E [H1 H2 H4 H5 H6].
  assert (tb'.(page_addr) = tb.(page_addr)) as Ep by exact (f_equal page_addr E).
  assert (tb'.(tb_pc) = tb.(tb_pc)) as Epc by exact (f_equal tb_pc E).
  assert (tb'.(tb_size) = tb.(tb_size)) as Es by exact (f_equal tb_size E).
  split; by rewrite ?Ep, ?Epc, ?Es.
Qed.

Lemma layout_frame G s s' L : unch Core s s' -> layout G s L -> layout G s' L.
Proof.
  intros Hc [H1 H2 H3 H4 H5 He H6 H7 H8 H9]. pose proof Hc as (Hcore & Hl & Hn & Hp & _).
  split; rewrite ?Hl, ?Hn, ?Hp; try done.
  - intros t Ht. eapply block_ok_core; [apply Hcore|]. by apply H3.
  - intros t Ht. destruct (H4 t Ht) as [C1 C2 C3 C4 C5]. split; rewrite ?Hp; core_rewrite Hc; try done.
    + intros n. rewrite (core_has_exit s s'), (core_exit_code s s') by done. apply C3.
    + intros n. rewrite (core_has_exit s s'), (core_jmp_field s s') by done. apply C4.
    + by rewrite !(core_has_exit s s'), !(core_jmp_field s s') by done.
  - intros Hpos. core_rewrite Hc. auto.
  - intros t Ht. core_rewrite Hc. auto.
  - intros t u Ht. core_rewrite Hc. auto.
Qed.

Lemma hash_on_core s s' L t h : unch Core s s' -> hash_on s' L t h <-> hash_on s L t h.
Proof. intros Hc. unfold hash_on. by rewrite (core_eq hash_of s s' t). Qed.
Lemma page_on_core s s' L x p : unch Core s s' -> page_on s' L x p <-> page_on s L x p.
Proof. intros Hc. unfold page_on, uses_page, page_of_code. by core_rewrite Hc. Qed.

Lemma hash_frame s s' L :
  unch Hash s s' -> unch Core s s' -> lists s (fun _ => True) (hash_on s L) -> lists s' (fun _ => True) (hash_on s' L).
Proof.
  intros [Hh Hn] Hc. apply lists_ext; [intros h _; cbn; by rewrite Hh|intros n h _; apply Hn|done|].
  intros n h. by apply hash_on_core.
Qed.
Lemma page_frame s s' L :
  unch Pages s s' -> unch Core s s' -> lists s page_index (page_on s L) -> lists s' page_index (page_on s' L).
Proof.
  intros [Hh Hn] Hc. apply lists_ext; [exact Hh|intros n h _; apply Hn|done|]. intros n h. by apply page_on_core.
Qed.
Lemma jmp_frame s s' L J : unch Jumps s s' -> unch Core s s' -> jumps_ok s L J -> jumps_ok s' L J.
Proof.
  intros [Hh Hn] Hc [H1 H2 H3]. split.
  - revert H1. apply lists_ext; [intros h _; apply Hh|intros n h _; apply Hn|done|done].
  - intros x t Hx. rewrite (core_has_exit s s') by done. by apply H2.
  - intros x Hx Hx2 HJ. rewrite Hn. by apply H3.
Qed.

(** Bitmaps that are still there are the old ones. *)
Definition bitmaps_kept (s s' : cache) : Prop :=
  forall p, page_index p -> (page_of s' p).(code_bitmap) = None \/ (page_of s' p).(code_bitmap) = (page_of s p).(code_bitmap).

Lemma bitmaps_frame s s' (L L' : nat -> Prop) :
  bitmaps_kept s s' -> unch Core s s' -> (forall t, L' t -> L t) -> bitmaps_ok s L -> bitmaps_ok s' L'.
Proof.
  intros Hk Hc HL Hb p tab Hp Et. destruct (Hk p Hp) as [E|E]; [congruence|]. rewrite Et in E. symmetry in E.
  destruct (Hb p tab Hp E) as [Hlen Hbits]. split; [done|]. intros x i (Hx & Hu & Hpg) Hi. apply (Hbits x).
  - split; [by apply HL|]. revert Hu Hpg. unfold uses_page, page_of_code. by core_rewrite Hc.
  - revert Hi. unfold code_in_page. by core_rewrite Hc.
Qed.

Lemma bitmaps_kept_unch s s' : unch Bitmaps s s' -> bitmaps_kept s s'.
Proof. intros H p Hp. right. by apply H. Qed.
Lemma bitmaps_kept_trans s1 s2 s3 : bitmaps_kept s1 s2 -> bitmaps_kept s2 s3 -> bitmaps_kept s1 s3.
Proof. intros H1 H2 p Hp. destruct (H2 p Hp) as [?|E]; [by left|]. rewrite E. by apply H1. Qed.

Lemma caches_length s s' : unch Caches s s' -> length s'.(cpus) = length s.(cpus).
Proof. intros E. rewrite <- (length_fmap tb_jmp_cache s'.(cpus)), <- (length_fmap tb_jmp_cache s.(cpus)). by f_equal. Qed.

Definition caches_ok (s : cache) (L : nat -> Prop) : Prop :=
  forall c h t, c ∈ s.(cpus) -> c.(tb_jmp_cache) !! h = Some t -> L t /\ tb_jmp_cache_hash_func (tb_at s t).(tb_pc) = h.

(** The invariant with other hash lists, bitmaps and jump caches. *)
Lemma cache_inv_parts G s s' L J :
  (forall k, k = Core \/ k = Pages \/ k = Jumps \/ k = Code -> unch k s s') -> lists s' (fun _ => True) (hash_on s' L) ->
  bitmaps_ok s' L -> length s'.(cpus) = length s.(cpus) -> caches_ok s' L -> cache_inv G s L J -> cache_inv G s' L J.
Proof.
  intros K HH HB Hl HC [I1 I2 I3 I4 I5 I6 I7 I8]. assert (unch Core s s') as Hc by (apply K; tauto). split; try done.
  - by apply (layout_frame G s).
  - apply (page_frame s); [apply K; tauto|done|done].
  - apply (jmp_frame s); [apply K; tauto|done|done].
  - intros x Hx. rewrite (core_has_exit s s') by done. intros Hex. specialize (I5 x Hx Hex). unfold jump_dest in *.
    rewrite (core_jmp_field s s'), (core_exit_code s s') by done. assert (unch Code s s') as -> by (apply K; tauto). rewrite I5.
    destruct (J x); [|done]. by core_rewrite Hc.
  - intros c. rewrite Hl. destruct Hc as (_ & _ & _ & _ & ->). apply I7.
Qed.

Lemma caches_frame s s' L : unch Caches s s' -> unch Core s s' -> caches_ok s L -> caches_ok s' L.
Proof.
  intros Hca Hc I8 c h t [k Hk]%list_elem_of_lookup Hlk. assert ((tb_jmp_cache <$> s'.(cpus)) !! k = Some c.(tb_jmp_cache)) as E by by rewrite list_lookup_fmap, Hk.
  rewrite Hca, list_lookup_fmap in E. destruct (s.(cpus) !! k) as [c0|] eqn:E0; [|done]. injection E as E. core_rewrite Hc.
  apply (I8 c0); [by eapply list_elem_of_lookup_2|]. by rewrite E.
Qed.

(** The TLB and the contents of memory do not matter. *)
Lemma cache_inv_bitmaps G s s' L J :
  (forall k, k <> Cpus -> k <> Tlbs -> k <> Memory -> k <> Bitmaps -> unch k s s') -> bitmaps_ok s' L ->
  cache_inv G s L J -> cache_inv G s' L J.
Proof.
  intros K HB I. assert (unch Core s s') as Hc by by apply K. assert (unch Caches s s') as Hca by by apply K.
  apply (cache_inv_parts G s); [|apply (hash_frame s); [by apply K|done|apply I]|done|by apply caches_length|apply (caches_frame s s' L Hca Hc (ci_caches _ _ _ _ I))|done].
  intros k [-> | [-> | [-> | ->]]]; by apply K.
Qed.

Lemma cache_inv_frame G s s' L J :
  (forall k, k <> Cpus -> k <> Tlbs -> k <> Memory -> unch k s s') -> cache_inv G s L J -> cache_inv G s' L J.
Proof.
  intros K I. apply (cache_inv_bitmaps G s); [by auto| |done].
  apply (bitmaps_frame s s' L); [by apply bitmaps_kept_unch, (K Bitmaps)|by apply K|done|apply I].
Qed.

(** A bitmap may be dropped. *)
Lemma cache_inv_kept G s s' L J :
  (forall k, k <> Cpus -> k <> Tlbs -> k <> Memory -> k <> Bitmaps -> unch k s s') -> bitmaps_kept s s' ->
  cache_inv G s L J -> cache_inv G s' L J.
Proof.
  intros K HB I. apply (cache_inv_bitmaps G s); [done| |done]. apply (bitmaps_frame s s' L); [done|by apply K|done|apply I].
Qed.
