(* ===== verification/TbJumps.v ===== *)
(** * Chained blocks

    Setting and resetting jumps, and taking a block out of the lists of jumps. *)

From S2P Require Import Prelude QtraceDefs TlbLoad IContext TbState TbPages Tlb TbCache TbLogic TbLinks TbInv.

Section Jumps.
Context (G : code_gen).

(** ** Fields of jumps *)

Lemma live_bound s L t : layout G s L -> L t -> (t < length s.(tbs))%nat.
Proof. intros Hl Ht. pose proof (ly_live G s L Hl t Ht). destruct (ly_bound G s L Hl). lia. Qed.

Lemma fields_apart s L x y :
  layout G s L -> L x.1 -> L y.1 -> has_exit s x -> has_exit s y -> x <> y ->
  jmp_field s y + 4 <= jmp_field s x \/ jmp_field s x + 4 <= jmp_field s y.
Proof.
  destruct x as [t n], y as [u m]. cbn [fst]. intros Hl Ht Hu Hx Hy Hne.
  pose proof (co_field G s t (ly_code G s L Hl t Ht) n Hx) as [F1 F2].
  pose proof (co_field G s u (ly_code G s L Hl u Hu) m Hy) as [F3 F4].
  destruct (Nat.lt_trichotomy t u) as [Htu|[->|Htu]].
  - destruct (ly_order G s L Hl t u) as [_ H]; [split; [done|by apply (ly_live G s L Hl)]|]. specialize (H Ht). lia.
  - pose proof (co_fields G s u (ly_code G s L Hl u Hu)) as Hf. pose proof Hx as [Hn _]. pose proof Hy as [Hm _].
    cbn [snd] in Hn, Hm. destruct n as [|[|n]], m as [|[|m]]; try lia; try congruence; specialize (Hf ltac:(done) ltac:(done)); lia.
  - destruct (ly_order G s L Hl u t) as [_ H]; [split; [done|by apply (ly_live G s L Hl)]|]. specialize (H Hu). lia.
Qed.

(** Every place of the buffer is in reach of a jump. *)
Lemma jump_reaches s L x d :
  layout G s L -> L x.1 -> has_exit s x -> G.(code_gen_buffer) <= d <= s.(code_gen_ptr) ->
  in_s 32 (d - (jmp_field s x + 4)).
Proof.
  destruct x as [t n]. cbn [fst]. intros Hl Ht Hx Hd. pose proof (ly_code G s L Hl t Ht) as [C1 C2 _ C4 _].
  destruct (C4 n Hx) as [F1 F2]. pose proof (ly_ptr G s L Hl). pose proof (ly_distance G s L Hl).
  unfold in_s. change (2 ^ (32 - 1)) with (2 ^ 31). lia.
Qed.

Lemma start_in_buffer s L t : layout G s L -> L t -> G.(code_gen_buffer) <= (tb_at s t).(tc_ptr) <= s.(code_gen_ptr).
Proof. intros Hl Ht. destruct (ly_code G s L Hl t Ht) as [C1 C2 _ _ _]. lia. Qed.
Lemma exit_in_buffer s L x : layout G s L -> L x.1 -> has_exit s x -> G.(code_gen_buffer) <= exit_code s x <= s.(code_gen_ptr).
Proof. destruct x as [t n]. intros Hl Ht Hx. destruct (ly_code G s L Hl t Ht) as [C1 C2 C3 _ _]. specialize (C3 n Hx). lia. Qed.

(** ** Patching one jump *)

Definition patched (x : tagged) (d : Z) (s : cache) : cache :=
  set_host_code (write_code (jmp_field s x) (bytes_le 4 (u32 (d - (jmp_field s x + 4)))) s.(host_code)) s.

Lemma wpc_tb_set_jmp_target X t n d (Q : unit -> cache -> Prop) s :
  node_ok s (t, n) -> Q tt (patched (t, n) d s) -> wpc (tb_set_jmp_target t n d) Q X s.
Proof.
  intros [Ht Hn] HQ. apply wpc_bind, wpc_get_tb; [done|]. apply wpc_bind. eapply wpc_lift; [by apply sel_at2|]. done.
Qed.

Lemma wpc_tb_reset_jump X t n (Q : unit -> cache -> Prop) s :
  node_ok s (t, n) -> Q tt (patched (t, n) (exit_code s (t, n)) s) -> wpc (tb_reset_jump t n) Q X s.
Proof.
  intros Hok HQ. pose proof Hok as [Ht Hn]. apply wpc_bind, wpc_get_tb; [done|]. apply wpc_bind.
  eapply wpc_lift; [by apply sel_at2|]. by apply wpc_tb_set_jmp_target.
Qed.

Lemma patched_unch x d s k : k <> Code -> unch k s (patched x d s).
Proof. intros Hk. destruct k; first [done|intros q Hq; exact Hq|apply (unch_refl _ s)]. Qed.

Lemma patched_dest s L x d y :
  layout G s L -> L x.1 -> L y.1 -> has_exit s x -> has_exit s y -> G.(code_gen_buffer) <= d <= s.(code_gen_ptr) ->
  jump_dest (patched x d s) y = if decide (y = x) then d else jump_dest s y.
Proof.
  intros Hl Hx Hy Hex Hey Hd. unfold jump_dest. change (jmp_field (patched x d s) y) with (jmp_field s y).
  cbn [host_code patched set_host_code]. case_decide as E.
  - subst. apply dest_at_write. by eapply jump_reaches.
  - apply dest_at_apart; [apply length_bytes_le|]. by apply (fields_apart s L).
Qed.

Lemma patched_code (L : nat -> Prop) x d s : L x.1 -> has_exit s x -> code_kept L s (patched x d s).
Proof.
  intros Hx Hex a Ha. cbn [host_code patched set_host_code]. apply write_code_out. rewrite length_bytes_le.
  intros H. apply (Ha x Hx). by split.
Qed.

(** ** Resetting all jumps to a block *)

(** Jumps [l] are reset and their links cleared. *)
Record jumps_reset (L : nat -> Prop) (l : list tagged) (s s' : cache) : Prop := {
  jr_keeps : forall k, k <> Code -> k <> Jumps -> unch k s s';
  jr_first : forall t, (tb_at s' t).(jmp_first) = (tb_at s t).(jmp_first);
  jr_next : forall x, jnext s' x = if decide (x ∈ l) then None else jnext s x;
  jr_dest : forall x, L x.1 -> has_exit s x -> jump_dest s' x = if decide (x ∈ l) then exit_code s x else jump_dest s x;
  jr_code : code_kept L s s'
}.

Lemma decide_more {A} (y x : tagged) l (a b : A) :
  (if decide (y ∈ x :: l) then a else b) = if decide (y = x) then a else if decide (y ∈ l) then a else b.
Proof.
  destruct (decide (y = x)) as [->|Hne]; [by rewrite decide_True by apply list_elem_of_here|].
  apply decide_ext. rewrite elem_of_cons. tauto.
Qed.
Lemma decide_one {A} (y x : tagged) (a b : A) : (if decide (y ∈ [x]) then a else b) = if decide (y = x) then a else b.
Proof. rewrite decide_more. destruct (decide (y = x)); [done|]. rewrite decide_False; [done|apply not_elem_of_nil]. Qed.

Lemma jumps_reset_nil L s : jumps_reset L [] s s.
Proof. split; try done. intros k _ _. apply unch_refl. Qed.

(** One jump. *)
Lemma jumps_reset_one L x s :
  layout G s L -> L x.1 -> has_exit s x -> jumps_reset L [x] s (ls_write (After x) None (patched x (exit_code s x) s)).
Proof.
  intros Hl Hx Hex. set (s1 := patched x (exit_code s x) s). pose proof (live_bound s L x.1 Hl Hx) as Hb.
  assert (ls_ok s1 (After x : slot nat tagged)) as Hok.
  { destruct x as [t n]. destruct Hex as [Hn _]. by split. }
  split.
  - intros k H1 H2. eapply unch_trans; [by apply patched_unch|]. by apply write_jmp_unch.
  - intros t. change (ls_head (ls_write (After x) None s1) t = ls_head s1 t).
    rewrite (ls_write_head (ListsOf := jmp_lists)) by done. by rewrite decide_False.
  - intros y. change (ls_next (ls_write (After x) None s1) y = if decide (y ∈ [x]) then None else ls_next s1 y).
    rewrite (ls_write_next (ListsOf := jmp_lists)) by done.
    rewrite decide_one. destruct (decide (y = x)) as [->|Hne]; [by rewrite decide_True|]. by rewrite decide_False by congruence.
  - intros y Hy Hey. transitivity (jump_dest s1 y).
    + unfold jump_dest. rewrite (core_jmp_field s1) by by apply write_jmp_unch. by destruct x.
    + unfold s1. rewrite (patched_dest s L) by (done || by apply exit_in_buffer with L).
      rewrite decide_one. by destruct (decide (y = x)) as [->|Hne].
  - eapply code_kept_trans; [by apply (patched_unch x (exit_code s x) s Core)|done|by apply patched_code|].
    apply code_kept_eq. by apply (write_jmp_unch (After x) None s1 Code).
Qed.

Lemma jumps_reset_cons L x l s1 s2 s3 : jumps_reset L [x] s1 s2 -> jumps_reset L l s2 s3 -> jumps_reset L (x :: l) s1 s3.
Proof.
  intros [K1 F1 N1 D1 C1] [K2 F2 N2 D2 C2]. assert (unch Core s1 s2) as Hc by (by apply K1). split.
  - intros k H1 H2. eapply unch_trans; [by apply K1|by apply K2].
  - intros t. by rewrite F2, F1.
  - intros y. rewrite N2, N1, decide_one, decide_more. by destruct (decide (y ∈ l)), (decide (y = x)).
  - intros y Hy Hey. rewrite D2 by (done || by apply (core_has_exit s1 s2)). rewrite D1, (core_exit_code s1 s2) by done.
    rewrite decide_one, decide_more. by destruct (decide (y ∈ l)), (decide (y = x)) as [->|].
  - by apply (code_kept_trans L L s1 s2 s3).
Qed.

Lemma wpc_reset_jumps X L u l : forall fuel o (Q : unit -> cache -> Prop) s,
  layout G s L -> chain (jnext s) o (l ++ [(u, 2%nat)]) None -> NoDup l -> (length l < fuel)%nat ->
  (forall x, x ∈ l -> L x.1 /\ has_exit s x) -> (forall s', jumps_reset L l s s' -> Q tt s') ->
  wpc (reset_jumps fuel o) Q X s.
Proof.
  induction l as [|x l IH]; intros fuel o Q s Hl Hc Hd Hf Hx HQ; (destruct fuel as [|fuel]; [cbn in Hf; lia|]); cbn [reset_jumps].
  - destruct Hc as [-> _]. apply wpc_bind, wpc_not_null. apply wpc_ret, HQ, jumps_reset_nil.
  - cbn [app chain] in Hc. destruct Hc as [-> Hc]. apply NoDup_cons in Hd as [Hnx Hd].
    destruct (Hx x (list_elem_of_here _ _)) as [HL Hex]. destruct x as [t n]. pose proof Hex as [Hn _]. cbn [fst snd] in *.
    pose proof (live_bound s L t Hl HL) as Hb.
    apply wpc_bind, wpc_not_null. rewrite (proj2 (Nat.eqb_neq n 2)) by lia. apply wpc_bind, wpc_get_tb; [done|].
    apply wpc_bind. eapply wpc_lift; [by apply sel_link2|]. apply wpc_bind, wpc_tb_reset_jump; [done|].
    apply wpc_bind. apply wpc_upd_tb; [done|]. pose proof (jumps_reset_one L (t, n) s Hl HL Hex) as H1.
    match goal with |- wpc _ _ _ ?s2 => change s2 with (ls_write (After (t, n)) None (patched (t, n) (exit_code s (t, n)) s)) end.
    set (s2 := ls_write _ _ _) in *. pose proof H1 as [K1 F1 N1 D1 _]. assert (unch Core s s2) as Hcore by (by apply K1).
    apply IH.
    + by apply (layout_frame G s).
    + apply (chain_ext (jnext s)); [|exact Hc]. intros y Hy. rewrite N1, decide_False; [done|].
      intros ->%list_elem_of_singleton. apply elem_of_app in Hy as [Hy|Hy%list_elem_of_singleton]; [done|]. injection Hy as _ ->. lia.
    + done.
    + cbn in Hf. lia.
    + intros y Hy. destruct (Hx y) as [? ?]; [by apply list_elem_of_further|]. split; [done|]. by apply (core_has_exit s s2).
    + intros s' H2. apply HQ. by eapply jumps_reset_cons.
Qed.

(** ** The lists of jumps *)

(** The jumps to a block, without the end of the list. *)
Lemma jump_list s L J u : jumps_ok s L J -> L u ->
  exists l, chain (jnext s) (tb_at s u).(jmp_first) (l ++ [(u, 2%nat)]) None /\ NoDup (l ++ [(u, 2%nat)]) /\
    (forall x, x ∈ l ++ [(u, 2%nat)] <-> jmp_on J L x u) /\ (forall x, x ∈ l <-> J x = Some u).
Proof.
  intros [Hli Hch _] Hu. destruct (li_lists _ _ _ Hli u Hu) as (l0 & Hc & Hm).
  assert ((u, 2%nat) ∈ l0) as (l & l2 & ->)%list_elem_of_split by (apply Hm; split; [done|by left]).
  pose proof Hc as (m & _ & -> & Hc2)%chain_app.
  assert (l2 = []) as -> by (destruct l2; [done|by destruct Hc2]).
  pose proof (chain_nodup _ _ _ Hc) as Hd. exists l. split_and!; [done|done|done|].
  intros x. pose proof (Hm x) as Hx. unfold jmp_on in Hx. rewrite elem_of_app, list_elem_of_singleton in Hx.
  assert (x = (u, 2%nat) -> x ∉ l) as H1.
  { intros -> Hin. apply NoDup_app in Hd as (_ & Hd & _). by apply (Hd _ Hin), list_elem_of_here. }
  assert (J x = Some u -> (x.2 < 2)%nat) as H2 by (intros HJ; by destruct (Hch _ _ HJ) as (_ & _ & ? & _)).
  assert (x = (u, 2%nat) -> x.2 = 2%nat) as H3 by (by intros ->).
  split.
  - intros Hin. destruct Hx as [Hx _]. destruct Hx as (_ & [?|[_ ?]]); [by left|tauto|done].
  - intros HJ. destruct Hx as [_ Hx]. destruct Hx as [?|E]; [split; [done|right; auto]|done|].
    specialize (H2 HJ). specialize (H3 E). lia.
Qed.

Lemma jump_node s L J x u : layout G s L -> jumps_ok s L J -> J x = Some u -> node_ok s x.
Proof. intros Hl Hj Hx. destruct (jo_chained s L J Hj x u Hx) as (H1 & _ & H2 & _). split; [by eapply live_bound|done]. Qed.

Definition unlinked (J : tagged -> option nat) (x y : tagged) : option nat := if decide (y = x) then None else J y.

Lemma jumps_ok_ext s L J J' : (forall x, J' x = J x) -> jumps_ok s L J -> jumps_ok s L J'.
Proof.
  intros HJ [H1 H2 H3]. split.
  - revert H1. apply lists_ext; try done. intros x h. unfold jmp_on. by rewrite HJ.
  - intros x t. rewrite HJ. apply H2.
  - intros x. rewrite HJ. apply H3.
Qed.

Lemma unlinked_ok s L J u t n la (s' := ls_write (After (t, n)) None (ls_write (slot_after u la) (jnext s (t, n)) s)) :
  jumps_ok s L J -> node_ok s (t, n) -> (u < length s.(tbs))%nat -> Forall (node_ok s) la -> (forall x, x ∈ la -> J x = Some u) ->
  lists s' L (minus (jmp_on J L) (t, n)) -> jumps_ok s' L (unlinked J (t, n)).
Proof.
  intros [_ H2 H3] [Ht Hn] Hu Hla HJ Hli. set (s1 := ls_write (slot_after u la) _ s) in *.
  assert (unch Core s s1) as Hc1 by by apply write_jmp_unch. assert (unch Core s1 s') as Hc2 by by apply write_jmp_unch.
  assert (ls_ok s1 (After (t, n) : slot nat tagged)) as Hok1 by (destruct Hc1 as (_ & Hlen & _); split; [by rewrite Hlen|done]).
  split.
  - revert Hli. apply lists_ext; try done. intros x h. unfold minus, jmp_on, unlinked. cbn [snd] in Hn.
    case_decide as E; [subst x; cbn [snd]|tauto]. split; [intros (_ & [?|[_ ?]])|tauto]; [|done]. injection H as _ ?. lia.
  - intros x h. unfold unlinked. case_decide; [done|]. rewrite (core_has_exit s1 s'), (core_has_exit s s1) by done. apply H2.
  - intros x Hx Hx2. change (jnext s' x) with (ls_next s' x). unfold s'.
    rewrite (ls_write_next (ListsOf := jmp_lists)) by done. unfold unlinked. case_decide as E.
    + subst. by rewrite decide_True.
    + intros HJx. rewrite decide_False by congruence. unfold s1.
      rewrite (ls_write_next (ListsOf := jmp_lists)) by by apply jmp_slot_ok. rewrite decide_False; [by apply H3|].
      unfold slot_after. destruct (last la) as [v|] eqn:Ev; [|done]. intros [= ->].
      rewrite (HJ x) in HJx by by apply last_Some_elem_of. done.
Qed.

Lemma wpc_unlink X s L J t n (Q : unit -> cache -> Prop) :
  layout G s L -> jumps_ok s L J -> L t -> (n < 2)%nat ->
  (forall s', (forall k, k <> Jumps -> unch k s s') -> jumps_ok s' L (unlinked J (t, n)) -> Q tt s') ->
  wpc (tb_jmp_remove t n) Q X s.
Proof.
  intros Hl Hj Ht Hn HQ. assert (node_ok s (t, n)) as Hok by (split; [by eapply live_bound|done]).
  destruct (J (t, n)) as [u|] eqn:EJ.
  - pose proof (jo_chained s L J Hj _ _ EJ) as (_ & Hu & _). destruct (jump_list s L J u Hj Hu) as (l & Hc & Hd & Hm & Hjl).
    assert ((t, n) ∈ l) as (la & lb & ->)%list_elem_of_split by by apply Hjl.
    rewrite <- app_assoc in Hc, Hd, Hm. cbn [app] in Hc, Hd, Hm.
    assert (jmp_on J L (t, n) u) as Hon by (split; [done|by right]). assert (u < length s.(tbs))%nat as Hub by by eapply live_bound.
    assert (forall x, x ∈ la ++ lb -> J x = Some u) as HJl.
    { intros x Hx. apply Hjl. apply elem_of_app in Hx as [?|?]; apply elem_of_app; [by left|right; by apply list_elem_of_further]. }
    assert (Forall (node_ok s) (la ++ lb)) as Hnodes by (apply Forall_forall; intros x Hx; eapply jump_node; eauto).
    eapply (wpc_tb_jmp_remove X s L (jmp_on J L) u t n la lb); try done.
    + apply (jo_lists s L J Hj).
    + cbn zeta. set (s' := ls_write _ _ _). intros Hli. apply HQ.
      * intros k Hk. unfold s'. eapply unch_trans; apply write_jmp_unch; done.
      * apply (unlinked_ok s L J u); try done; [by apply Forall_app in Hnodes as []|].
        intros x Hx. apply HJl, elem_of_app. by left.
  - unfold tb_jmp_remove. apply wpc_bind, wpc_read_jmp; [by apply node_slot|].
    change (slot_val s (After (t, n))) with (jnext s (t, n)). rewrite (jo_unchained s L J Hj) by done.
    apply wpc_ret, HQ; [intros k _; apply unch_refl|]. apply (jumps_ok_ext s L J); [|done].
    intros x. unfold unlinked. case_decide; by subst.
Qed.
End Jumps.

(** ** A block that is no longer alive *)

Definition without (L : nat -> Prop) (t u : nat) : Prop := L u /\ u <> t.
Definition jumps_without (J : tagged -> option nat) (t : nat) (x : tagged) : option nat :=
  if decide (x.1 = t \/ J x = Some t) then None else J x.

(** [J] without the two jumps out of [t]. *)
Definition unlinked2 (J : tagged -> option nat) (t : nat) : tagged -> option nat := unlinked (unlinked J (t, 0%nat)) (t, 1%nat).

Lemma unlinked2_eq s L J t x : jumps_ok s L J -> unlinked2 J t x = if decide (x.1 = t) then None else J x.
Proof.
  intros [_ Hch _]. unfold unlinked2, unlinked. destruct x as [u n]. cbn [fst].
  destruct (decide ((u, n) = (t, 1%nat))) as [E|E1]; [injection E as -> ->; by rewrite decide_True|].
  destruct (decide ((u, n) = (t, 0%nat))) as [E|E0]; [injection E as -> ->; by rewrite decide_True|].
  case_decide as E; [|done]. subst. destruct (J (t, n)) as [v|] eqn:EJ; [|done].
  destruct (Hch _ _ EJ) as (_ & _ & Hn & _). cbn [snd] in Hn. destruct n as [|[|n]]; [done|done|lia].
Qed.

Lemma jumps_retired s0 s s' L J t l (s1 := ls_write (AtHead t) (Some (t, 2%nat)) s') :
  jumps_ok s0 L J -> jumps_ok s L (unlinked2 J t) -> (t < length s.(tbs))%nat -> (forall x, x ∈ l <-> unlinked2 J t x = Some t) ->
  jumps_reset L l s s' -> jumps_ok s1 (without L t) (jumps_without J t).
Proof.
  intros H0 [H1 H2 H3] Ht Hl [K F N D _]. assert (unch Core s s') as Hc by by apply K.
  assert (unch Core s' s1) as Hc1 by by apply write_jmp_unch.
  assert (ls_ok s' (AtHead t : slot nat tagged)) as Hok by (destruct Hc as (_ & Hlen & _); cbn; by rewrite Hlen).
  assert (forall x, jnext s1 x = jnext s' x) as Hn1.
  { intros x. change (ls_next s1 x = ls_next s' x). unfold s1.
    rewrite (ls_write_next (ListsOf := jmp_lists)) by done. by rewrite decide_False. }
  assert (forall x, unlinked2 J t x = if decide (x.1 = t) then None else J x) as HJ2 by (intros x; by eapply unlinked2_eq).
  split.
  - apply (lists_drop (LL := jmp_lists) s L _ t) in H1. revert H1. apply lists_ext.
    + intros h [_ Hh]. unfold s1. rewrite (ls_write_head (ListsOf := jmp_lists)) by done. rewrite decide_False by congruence. apply F.
    + intros x h [[_ Hx] Hh]. change (jnext s1 x = jnext s x). rewrite Hn1, N. rewrite decide_False; [done|].
      rewrite Hl. intros E. destruct Hx as [->|[_ Hx]]; [|congruence]. apply H2 in E as (_ & _ & E & _). cbn in E. lia.
    + done.
    + intros x h. unfold jmp_on, without, jumps_without. rewrite HJ2.
      destruct (decide (x.1 = t)) as [E|E].
      * rewrite decide_True by tauto. split; [|tauto]. intros ((HL & Hh) & [->|[_ [=]]]). tauto.
      * destruct (decide (J x = Some t)) as [E'|E']; [rewrite decide_True by tauto|by rewrite decide_False by tauto; tauto].
        split; [intros ((HL & Hh) & [->|[_ [=]]]); tauto|]. intros ((HL & [->|[_ E2]]) & Hh); [tauto|congruence].
  - intros x h. unfold jumps_without. case_decide as E; [done|]. intros EJ.
    destruct (H2 x h) as (L1 & L2 & L3); [rewrite HJ2, decide_False by tauto; done|].
    rewrite (core_has_exit s' s1), (core_has_exit s s') by done. unfold without. split_and!; try done; [tauto|]. intros ->. tauto.
  - intros x [Hx Hxt] Hx2. rewrite Hn1, N. unfold jumps_without. intros HJ. destruct (decide (x ∈ l)) as [E|E]; [done|].
    apply H3; [done|done|]. rewrite HJ2. rewrite Hl, HJ2 in E. rewrite decide_False in * by done.
    destruct (decide (x.1 = t \/ J x = Some t)); [|done]. tauto.
Qed.
