(* ===== verification/TbInvalidate.v ===== *)
(** * Invalidation of a block

    [tb_phys_invalidate] ends the life of a block: the invariant holds without it. *)

From S2P Require Import Prelude QtraceDefs TlbLoad IContext TbState TbPages Tlb TbCache TbLogic TbLinks TbInv TbJumps.

(** ** Page addresses *)

Lemma page_ok_number a : page_ok a -> page_index (page_number a).
Proof.
  intros [Ha _]. unfold page_index, page_number, in_u in *. rewrite Z.shiftr_div_pow2 by done.
  change TARGET_PAGE_BITS with 12. split; [apply Z.div_pos; lia|]. apply Z.div_lt_upper_bound; lia.
Qed.

Lemma page_ok_of_number a : page_ok a -> a = page_number a * TARGET_PAGE_SIZE.
Proof.
  intros [_ Ha]. unfold page_number. rewrite <- Ha at 1.
  change TARGET_PAGE_MASK with (Z.lnot (Z.ones 12)). rewrite <- Z.ldiff_land, Z.ldiff_ones_r by done.
  change TARGET_PAGE_BITS with 12. by rewrite Z.shiftl_mul_pow2 by done.
Qed.

Lemma page_number_inj a b : page_ok a -> page_ok b -> page_number a = page_number b -> a = b.
Proof. intros Ha Hb E. rewrite (page_ok_of_number a Ha), (page_ok_of_number b Hb). by rewrite E. Qed.

Section Pages.
Context (G : code_gen).

Lemma used_page_ok tb n : block_ok tb -> uses_page tb n -> page_ok (at2 n tb.(page_addr)).
Proof. intros [H0 H1 _ _ _] [->|[-> Hn]]; [done|]. by destruct H1. Qed.

Lemma page_node_ok s L x p : layout G s L -> page_on s L x p -> node_ok s x.
Proof. intros Hl (HL & Hu & _). split; [by eapply live_bound|]. destruct Hu as [->|[-> _]]; lia. Qed.

(** A block leaves the list of one of its pages. *)
Lemma wpc_leave_page X s L on t n addr (Q : unit -> cache -> Prop) :
  layout G s L -> lists s page_index on -> (forall x p, on x p -> page_on s L x p) -> on (t, n) (page_number addr) ->
  (forall m s', on (t, m) (page_number addr) -> (forall k, k <> Pages -> k <> Bitmaps -> unch k s s') -> bitmaps_kept s s' ->
     lists s' page_index (minus on (t, m)) -> pages_without s s' page_index (t, m) -> Q tt s') ->
  wpc (remove_from_page t addr) Q X s.
Proof.
  intros Hl Hli Hon Huse HQ. set (p := page_number _) in *.
  assert (page_index p) as Hp by apply (li_head _ _ _ Hli _ _ Huse).
  assert (is_Some (find_in L1_LEVEL s.(l1_map) p)) as Hex.
  { destruct (li_lists _ _ _ Hli p Hp) as (l & Hc & Hm). apply Hm in Huse. destruct l as [|x l]; [by apply not_elem_of_nil in Huse|].
    destruct Hc as [Hc _]. by eapply page_exists. }
  unfold remove_from_page. change (Z.shiftr _ TARGET_PAGE_BITS) with p. apply wpc_bind.
  apply wpc_page_find; [intros _|intros E; destruct Hex as [? Hex]; congruence]. apply wpc_bind, wpc_not_null, wpc_bind.
  eapply (wpc_tb_page_remove X page_index on p t n); [done|done|by split|intros x Hx; by eapply page_node_ok, Hon|].
  intros m q s1 Hm Hq Hli1 Hpw. assert (is_Some (find_in L1_LEVEL s1.(l1_map) p)) as Hex1.
  { exact (write_page_unch q (pnext s (t, m)) s Tables Hq ltac:(discriminate) p Hex). }
  refine (wpc_write_page_st X p invalidated_page Q s1 Hex1 _).
  assert (unch Pages s1 (write_page_st p invalidated_page s1)) as Hpg by (apply write_page_st_unch; [exact Hex1|exact Hp|by left|by right]).
  apply (HQ m); [done| | | |].
  - intros k Hk1 Hk2. eapply unch_trans; [by apply write_page_unch|]. apply write_page_st_unch; [exact Hex1|exact Hp|by right|by right].
  - intros p' Hp'. rewrite write_page_at by done. case_decide; [by left|]. right. by apply (write_page_unch q _ s Bitmaps Hq).
  - destruct Hpg as [E1 E2]. revert Hli1. apply lists_ext; [exact E1|intros x h _; apply E2|done|done].
  - intros k l Hk Hc. destruct Hpg as [E1 E2]. rewrite E1 by done. apply (chain_ext (pnext s1)); [intros x _; apply E2|]. by apply Hpw.
Qed.

(** It leaves the lists of all its pages; one page may be used twice. *)
Record left_pages (L : nat -> Prop) (t : nat) (s s' : cache) : Prop := {
  lp_keeps : forall k, k <> Pages -> k <> Bitmaps -> unch k s s';
  lp_bitmaps : bitmaps_kept s s';
  lp_lists : lists s' page_index (page_on s (without L t));
  lp_pages : forall p l, page_index p -> chain (pnext s) (page_of s p).(first_tb) l None ->
    chain (pnext s') (page_of s' p).(first_tb) (filter (fun x => x.1 <> t) l) None
}.

Lemma page0_used tb : block_ok tb -> negb (tb.(page_addr).1 =? no_page) = true.
Proof.
  intros Hb. apply negb_true_iff, Z.eqb_neq. destruct (bo_page0 tb Hb) as [H _]. intros E.
  rewrite E in H. vm_compute in H. destruct H as [_ H]. discriminate H.
Qed.
Lemma page1_used tb : negb (tb.(page_addr).2 =? no_page) && negb (tb.(page_addr).2 =? no_page) = true <-> uses_page tb 1.
Proof. rewrite andb_diag, negb_true_iff, Z.eqb_neq. unfold uses_page. split; [by right|]. intros [?|[_ ?]]; done. Qed.

(** The nodes that were taken out are those of the block. *)
Lemma left_pages_intro L t s s' (on : tagged -> Z -> Prop) (F : list tagged -> list tagged) (P : tagged -> Prop) :
  layout G s L -> lists s page_index (page_on s L) -> (forall k, k <> Pages -> k <> Bitmaps -> unch k s s') -> bitmaps_kept s s' ->
  lists s' page_index on -> (forall x p, on x p <-> page_on s L x p /\ P x) -> (forall x p, page_on s L x p -> P x <-> x.1 <> t) ->
  (forall p l, page_index p -> chain (pnext s) (page_of s p).(first_tb) l None -> chain (pnext s') (page_of s' p).(first_tb) (F l) None) ->
  (forall l, (forall x, x ∈ l -> P x <-> x.1 <> t) -> F l = filter (fun x => x.1 <> t) l) -> left_pages L t s s'.
Proof.
  intros Hl Hli K B Hli' Hon HP Hc HF. split; [done|done| |].
  - revert Hli'. apply lists_ext; try done. intros x p. rewrite Hon. pose proof (HP x p) as Hx. unfold page_on, without in *. tauto.
  - intros p l Hp Hch. rewrite <- HF; [by apply Hc|]. destruct (li_lists _ _ _ Hli p Hp) as (l' & Hch' & Hm).
    rewrite (chain_det _ _ _ _ Hch Hch'). intros x Hx%Hm. by apply (HP x p).
Qed.

Lemma wpc_leave_pages X s L t a0 a1 (k : cm unit) (Q : unit -> cache -> Prop) :
  layout G s L -> lists s page_index (page_on s L) -> L t -> (tb_at s t).(page_addr) = (a0, a1) ->
  (forall s', left_pages L t s s' -> wpc k Q X s') ->
  wpc (cwhen (negb (a0 =? no_page)) (remove_from_page t a0) ;;
       cwhen (negb (a1 =? no_page) && negb (a1 =? no_page)) (remove_from_page t a1) ;; k) Q X s.
Proof.
  intros Hl Hli Ht Ha HQ. pose proof (ly_block G s L Hl t Ht) as Hb. pose proof (page0_used _ Hb) as U0.
  pose proof (page1_used (tb_at s t)) as U1. rewrite Ha in U0, U1. cbn [fst snd] in U0, U1.
  assert (page_on s L (t, 0%nat) (page_number a0)) as O0 by (split_and!; [done|by left|unfold page_of_code; cbn [fst snd at2]; by rewrite Ha]).
  apply wpc_bind, wpc_when; [intros _|congruence].
  apply (wpc_leave_page X s L _ t 0 a0 _ Hl Hli); [done|done|]. intros m1 s1 Hm1 K1 B1 Hli1 P1.
  assert (unch Core s s1) as C1 by by apply K1. pose proof (page_node_ok s L _ _ Hl Hm1) as [_ Hn1]. cbn [snd] in Hn1.
  apply wpc_bind, wpc_when; intros Eb.
  - assert (page_on s L (t, (1 - m1)%nat) (page_number a1)) as O1.
    { pose proof (proj1 U1 Eb) as Hu. destruct m1 as [|[|m1]]; [| |lia].
      - split_and!; [done|done|unfold page_of_code; cbn [fst snd at2]; by rewrite Ha].
      - destruct Hm1 as (_ & _ & E). unfold page_of_code in E. cbn [fst snd at2] in E. rewrite Ha in E. cbn [snd] in E.
        split_and!; [done|by left|]. unfold page_of_code; cbn [fst snd at2]; by rewrite Ha. }
    assert ((t, (1 - m1)%nat) <> (t, m1)) as Hne by (intros [=]; lia).
    apply (wpc_leave_page X s1 L _ t (1 - m1) a1 _ (layout_frame G s s1 L C1 Hl) Hli1); [|by split|].
    { intros x p [Hx _]. by rewrite (page_on_core s s1). }
    intros m2 s2 [Hm2 Hne2] K2 B2 Hli2 P2. pose proof (page_node_ok s L _ _ Hl Hm2) as [_ Hn2]. cbn [snd] in Hn2.
    assert (m2 = 1 - m1)%nat as -> by (assert (m2 <> m1) by congruence; lia).
    apply HQ. eapply (left_pages_intro L t s s2 _
      (fun l => filter (fun x => x <> (t, (1 - m1)%nat)) (filter (fun x => x <> (t, m1)) l)) (fun x => x <> (t, (1 - m1)%nat) /\ x <> (t, m1)) Hl Hli).
    + intros k' H1 H2. eapply unch_trans; [by apply K1|by apply K2].
    + by eapply bitmaps_kept_trans.
    + exact Hli2.
    + intros x p. unfold minus. tauto.
    + intros [u n] p (_ & Hu & _). cbn [fst snd] in *. split; [|intros Hut; split; congruence]. intros [N1 N2] ->.
      assert (n < 2)%nat by (destruct Hu as [->|[-> _]]; lia). assert (n = m1 \/ n = 1 - m1)%nat as [-> | ->] by lia; done.
    + intros p l Hp Hc. by apply P2, P1.
    + intros l HP. rewrite list_filter_filter. by apply filter_iff_in.
  - apply HQ. apply (left_pages_intro L t s s1 _ (fun l => filter (fun x => x <> (t, m1)) l) (fun x => x <> (t, m1)) Hl Hli K1 B1 Hli1); try done.
    + intros [u n] p (_ & Hu & _). cbn [fst snd] in *. split; [|congruence]. intros N ->.
      assert (~ uses_page (tb_at s t) 1) as Hno by (rewrite <- U1, Eb; done).
      destruct Hm1 as (_ & Hu1 & _). cbn [fst snd] in Hu1.
      destruct Hu as [->|[-> ?]]; [|by apply Hno; right]. destruct Hu1 as [->|[-> ?]]; [done|]. by apply Hno; right.
    + intros l HP. by apply filter_iff_in.
Qed.
End Pages.

(** ** The caches of the processors *)

Lemma drop_jmp_cache_lookup h t c k u :
  (drop_jmp_cache h t c).(tb_jmp_cache) !! k = Some u -> c.(tb_jmp_cache) !! k = Some u /\ (k = h -> u <> t).
Proof.
  unfold drop_jmp_cache. case_bool_decide as E; cbn [tb_jmp_cache set_tb_jmp_cache].
  - intros [Hk Hl]%lookup_delete_Some. split; [done|]. congruence.
  - intros Hl. split; [done|]. intros -> ->. done.
Qed.

(** ** A block retires *)

Definition hash_of_pc (s : cache) (t : nat) : Z := tb_jmp_cache_hash_func (tb_at s t).(tb_pc).

Record retired (G : code_gen) (L : nat -> Prop) (J : tagged -> option nat) (t : nat) (s s' : cache) : Prop := {
  rt_inv : cache_inv G s' (without L t) (jumps_without J t);
  rt_core : unch Core s s';
  rt_tables : unch Tables s s';
  rt_memory : unch Memory s s';
  rt_bitmaps : bitmaps_kept s s';
  rt_pages : forall p l, page_index p -> chain (pnext s) (page_of s p).(first_tb) l None ->
    chain (pnext s') (page_of s' p).(first_tb) (filter (fun x => x.1 <> t) l) None;
  rt_cpus : s'.(cpus) = drop_jmp_cache (hash_of_pc s t) t <$> s.(cpus);
  rt_code : code_kept L s s'
}.

Lemma retired_frame G L J t s s' s'' : (forall k, unch k s' s'') -> retired G L J t s s' -> retired G L J t s s''.
Proof.
  intros K [R1 R2 R3 R4 R5 R6 R7 R8]. split.
  - by apply (cache_inv_frame G s').
  - by eapply unch_trans, K.
  - by eapply unch_trans, K.
  - by eapply unch_trans, K.
  - eapply bitmaps_kept_trans; [exact R5|]. by apply bitmaps_kept_unch, (K Bitmaps).
  - intros p l Hp Hc. destruct (K Pages) as [E1 E2]. rewrite E1 by done. apply (chain_ext (pnext s')); [intros x _; apply E2|]. by apply R6.
  - rewrite <- R7. apply (K Cpus).
  - eapply code_kept_trans; [exact R2|done|exact R8|]. apply code_kept_eq, (K Code).
Qed.

Section Retire.
Context (G : code_gen).

(** The parts that only the jumps change. *)
Record left_lists (L : nat -> Prop) (t : nat) (s s' : cache) : Prop := {
  ll_core : unch Core s s';
  ll_tables : unch Tables s s';
  ll_memory : unch Memory s s';
  ll_jumps : unch Jumps s s';
  ll_code : unch Code s s';
  ll_bitmaps : bitmaps_kept s s';
  ll_pages : forall p l, page_index p -> chain (pnext s) (page_of s p).(first_tb) l None ->
    chain (pnext s') (page_of s' p).(first_tb) (filter (fun x => x.1 <> t) l) None;
  ll_cpus : s'.(cpus) = drop_jmp_cache (hash_of_pc s t) t <$> s.(cpus);
  ll_hash_lists : lists s' (fun _ => True) (hash_on s' (without L t));
  ll_page_lists : lists s' page_index (page_on s' (without L t))
}.

Lemma reset_dest s s2 s3 L J t l x :
  jumps_ok s L J -> unch Core s s2 -> unch Code s s2 -> (forall x, x ∈ l <-> unlinked2 J t x = Some t) -> jumps_reset L l s2 s3 ->
  L x.1 -> x.1 <> t -> has_exit s x -> jump_dest s3 x = if decide (J x = Some t) then exit_code s x else jump_dest s x.
Proof.
  intros Hj Hc Hcode Hl [R1 R2 R3 R4 _] Hx Hxt Hex. rewrite R4 by (done || by apply (core_has_exit s s2)).
  rewrite (core_exit_code s s2) by done. assert (jump_dest s2 x = jump_dest s x) as ->.
  { unfold jump_dest. rewrite (core_jmp_field s s2) by done. by rewrite Hcode. }
  apply decide_ext. rewrite Hl, (unlinked2_eq s L) by done. by rewrite decide_False.
Qed.

Lemma retired_inv s s1 s2 s3 L J t l (s4 := ls_write (AtHead t : slot nat tagged) (Some (t, 2%nat)) s3) :
  cache_inv G s L J -> L t -> left_lists L t s s1 -> (forall k, k <> Jumps -> unch k s1 s2) ->
  jumps_ok s2 L (unlinked2 J t) -> (forall x, x ∈ l <-> unlinked2 J t x = Some t) -> jumps_reset L l s2 s3 ->
  retired G L J t s s4.
Proof.
  intros [I1 I2 I3 I4 I5 I6 I7 I8] Ht [K1 K2 K3 K4 K5 K6 K7 K8 K9 K10] K12 Hj Hl Hr.
  pose proof Hr as [R1 R2 R3 R4 R5].
  assert (forall k, k <> Jumps -> k <> Code -> unch k s1 s4) as K14.
  { intros k Hk1 Hk2. eapply unch_trans; [by apply K12|]. eapply unch_trans; [by apply R1|]. by apply write_jmp_unch. }
  assert (unch Core s s4) as Hc by (eapply unch_trans; [exact K1|by apply K14]).
  assert (unch Core s s2) as Hc2 by (eapply unch_trans; [exact K1|by apply K12]).
  assert (bitmaps_kept s s4) as Hb by (eapply bitmaps_kept_trans; [exact K6|]; by apply bitmaps_kept_unch, K14).
  assert (s4.(cpus) = drop_jmp_cache (hash_of_pc s t) t <$> s.(cpus)) as Hcpu by (rewrite <- K8; by apply (K14 Cpus)).
  split; try done.
  - split.
    + apply (layout_frame G s); [done|]. destruct I1 as [Y1 Y2 Y3 Y4 Y5 Y0 Y6 Y7 Y8 Y9]. split; try done.
      * intros u [Hu _]. auto.
      * intros u [Hu _]. auto.
      * intros u [Hu _]. auto.
      * intros u v Huv. split; [by apply Y8|]. intros [Hu _]. by apply Y8.
    + apply (hash_frame s1); [by apply K14|by apply K14|done].
    + apply (page_frame s1); [by apply K14|by apply K14|done].
    + apply (jumps_retired s s2 s3 L J t l); try done. destruct Hc2 as (_ & -> & _). by apply (live_bound G s L).
    + intros x [Hx Hxt] Hex. assert (unch Core s s3) as Hc3 by (eapply unch_trans; [exact Hc2|by apply R1]).
      assert (has_exit s x) as Hex0 by (by apply (core_has_exit s s4)).
      assert (jump_dest s4 x = jump_dest s3 x) as -> by (unfold jump_dest; by rewrite (core_jmp_field s s4), (core_jmp_field s s3)).
      rewrite (reset_dest s s2 s3 L J t l), I5 by (done || exact (unch_trans Code s s1 s2 K5 (K12 Code ltac:(done)))).
      unfold jumps_without. rewrite (core_exit_code s s4) by done.
      destruct (decide (J x = Some t)) as [E|E]; [by rewrite decide_True by tauto|]. rewrite decide_False by tauto.
      destruct (J x); [|done]. by core_rewrite Hc.
    + apply (bitmaps_frame s s4 L); [done|done|by intros u []|done].
    + intros c. rewrite Hcpu, length_fmap. destruct Hc as (_ & _ & _ & _ & ->). apply I7.
    + intros c k u. rewrite Hcpu. intros (c0 & -> & Hc0)%list_elem_of_fmap Hlk.
      apply drop_jmp_cache_lookup in Hlk as [Hlk Hne]. destruct (I8 _ _ _ Hc0 Hlk) as [Hu Hk].
      split; [|by core_rewrite Hc]. split; [done|]. intros ->. by apply Hne.
  - eapply unch_trans; [exact K2|by apply K14].
  - eapply unch_trans; [exact K3|by apply K14].
  - intros p l' Hp Hch. destruct (K14 Pages) as [E1 E2]; [done|done|]. rewrite E1 by done.
    apply (chain_ext (pnext s1)); [intros x _; apply E2|]. by apply K7.
  - apply (code_kept_trans L L s s2); [done|done| |].
    + apply code_kept_eq. exact (unch_trans Code s s1 s2 K5 (K12 Code ltac:(done))).
    + apply (code_kept_trans L L s2 s3); [by apply R1|done|done|]. apply code_kept_eq.
      by apply (write_jmp_unch (AtHead t) (Some (t, 2%nat)) s3 Code).
Qed.

Definition caches_dropped (h : Z) (t : nat) (s : cache) : cache := set_cpus (drop_jmp_cache h t <$> s.(cpus)) s.

Lemma left_lists_intro s s1 s2 L J t (s3 := caches_dropped (hash_of_pc s t) t (set_invalidated true s2)) :
  cache_inv G s L J -> (forall k, k <> Hash -> unch k s s1) -> lists s1 (fun _ => True) (minus (hash_on s L) t) ->
  left_pages L t s1 s2 -> left_lists L t s s3.
Proof.
  intros I K1 Hh [K2 B2 Hp P2].
  assert (forall k, k <> Pages -> k <> Bitmaps -> k <> Cpus -> k <> Caches -> k <> Tlbs -> unch k s1 s3) as K3.
  { intros k A1 A2 A3 A4 A5. eapply unch_trans; [by apply K2|].
    destruct k; first [done|intros q Hq; exact Hq|apply (unch_refl _ s2)]. }
  assert (forall k, k <> Hash -> k <> Pages -> k <> Bitmaps -> k <> Cpus -> k <> Caches -> k <> Tlbs -> unch k s s3) as K5.
  { intros k A0 A1 A2 A3 A4 A5. eapply unch_trans; [by apply K1|]. by apply K3. }
  assert (unch Core s s3) as Hc by by apply K5. assert (unch Core s s1) as Hc1 by by apply K1. split; try by apply K5.
  - eapply bitmaps_kept_trans; [apply bitmaps_kept_unch; by apply (K1 Bitmaps)|]. exact B2.
  - intros p l Hpi Hch. destruct (K1 Pages) as [E1 E2]; [done|]. apply (P2 p l Hpi).
    rewrite E1 by done. by apply (chain_ext (pnext s)); [intros x _; apply E2|].
  - cbn [cpus s3 caches_dropped set_cpus set_invalidated]. f_equal.
    transitivity s1.(cpus); [by apply (K2 Cpus)|]. by apply (K1 Cpus).
  - destruct (K3 Hash) as [E1 E2]; try done. revert Hh.
    apply lists_ext; [intros h _; exact (f_equal (lookup h) E1)|intros x h _; apply E2|done|].
    intros x h. rewrite (hash_on_core s s3) by done. unfold minus, hash_on, without. tauto.
  - revert Hp. apply lists_ext; try done. intros x h. rewrite (page_on_core s s3), (page_on_core s s1) by done. done.
Qed.

(** From the removal of the jumps on. *)
Lemma wpc_retire_jumps X s s4 L J t (Q : unit -> cache -> Prop) :
  cache_inv G s L J -> L t -> left_lists L t s s4 -> (forall s', retired G L J t s s' -> Q tt s') ->
  wpc (tb_jmp_remove t 0 ;; tb_jmp_remove t 1 ;; tb ← get_tb t; f ← gets list_fuel; reset_jumps f tb.(jmp_first) ;;
       upd_tb t (set_jmp_first (Some (t, 2%nat))) ;;
       modify (fun s => set_counts s.(tb_flush_count) (s.(tb_phys_invalidate_count) + 1) s)) Q X s4.
Proof.
  intros I Ht Hll HQ. pose proof I as [I1 I2 I3 I4 I5 I6 I7 I8].
  pose proof (ll_core _ _ _ _ Hll) as C4.
  assert (jumps_ok s4 L J) as J4 by (eapply jmp_frame; [by apply Hll|done|done]).
  apply wpc_bind. eapply (wpc_unlink G X s4 L J t 0); [by apply (layout_frame G s)|done|done|lia|].
  intros s5 K5 J5. assert (unch Core s s5) as C5 by (eapply unch_trans; [exact C4|by apply K5]).
  apply wpc_bind. eapply (wpc_unlink G X s5 L _ t 1); [by apply (layout_frame G s)|done|done|lia|].
  intros s6 K6 J6. assert (unch Core s s6) as C6 by (eapply unch_trans; [exact C5|by apply K6]).
  assert (layout G s6 L) as Y6 by by apply (layout_frame G s). pose proof (live_bound G s6 L t Y6 Ht) as Hlt6.
  change (unlinked (unlinked J _) _) with (unlinked2 J t) in J6.
  destruct (jump_list s6 L (unlinked2 J t) t J6 Ht) as (l & Hc & Hd & _ & Hjl).
  apply wpc_bind, wpc_get_tb; [done|]. apply wpc_bind, wpc_gets, wpc_bind. apply NoDup_app in Hd as (Hd & _).
  apply (wpc_reset_jumps G X L t l); [done|done|done| | |].
  { pose proof (nodup_bounded2 l _ Hd (fun x Hx => jump_node G s6 L _ x t Y6 J6 (proj1 (Hjl x) Hx))). unfold list_fuel. lia. }
  { intros x Hx%Hjl. by destruct (jo_chained _ _ _ J6 x t Hx) as (? & _ & ?). }
  intros s7 R7. assert (unch Core s6 s7) as C7 by by apply (jr_keeps _ _ _ _ R7).
  apply wpc_bind, wpc_upd_tb; [by destruct C7 as (_ & -> & _)|]. apply wpc_modify, HQ.
  eapply retired_frame; [|eapply (retired_inv s s4 s6 s7 L J t l I Ht Hll); [|exact J6|exact Hjl|exact R7]].
  - intros k. destruct k; first [done|intros q Hq; exact Hq|apply (unch_refl _ (write_tb t (set_jmp_first (Some (t, 2%nat))) s7))].
  - intros k Hk. eapply unch_trans; [by apply K5|by apply K6].
Qed.

Lemma wpc_tb_phys_invalidate X s L J t (Q : unit -> cache -> Prop) :
  cache_inv G s L J -> L t -> (forall s', retired G L J t s s' -> Q tt s') -> wpc (tb_phys_invalidate t no_page) Q X s.
Proof.
  intros I Ht HQ. pose proof I as [I1 I2 I3 I4 I5 I6 I7 I8]. pose proof (live_bound G s L t I1 Ht) as Hlt.
  unfold tb_phys_invalidate. apply wpc_bind, wpc_get_tb; [done|]. apply wpc_bind.
  eapply (wpc_tb_hash_remove X (fun _ => True) (hash_on s L)); [done|by split|intros u [Hu _]; by eapply live_bound|].
  intros p1 Hp1 Hh. set (s1 := ls_write p1 _ s) in *.
  assert (forall k, k <> Hash -> unch k s s1) as K1 by (intros k Hk; by apply write_hash_unch).
  assert (unch Core s s1) as C1 by by apply K1. clearbody s1.
  apply (wpc_leave_pages G X s1 L t); [by apply (layout_frame G s)| |done| |].
  { apply (page_frame s); [by apply K1|done|done]. } { core_rewrite C1. by destruct (page_addr _). }
  intros s2 H2. apply wpc_bind, wpc_modify, wpc_bind, wpc_modify.
  eapply wpc_retire_jumps; [exact I|done|exact (left_lists_intro s s1 s2 L J t I K1 Hh H2)|done].
Qed.
End Retire.
