(* ===== verification/TlbInv.v ===== *)
(** * The invariant of the TLB

    Entries through which the guest writes to RAM without a check belong to pages
    whose flag [CODE_DIRTY_FLAG] is set; entries with code have a page-aligned addend;
    the entries of a processor for a page of RAM, in all its modes, map it to the same
    place; an entry for writes to a page that is RAM leads to a device only where there
    is a watchpoint.  What is assumed of the machine is in [machine_ok]. *)

From S2P Require Import Prelude QtraceDefs TlbLoad IContext TbState TbPages Tlb TbCache TbLogic TbLinks TbInv.

(** ** Page arithmetic *)

Definition aligned (a : Z) : Prop := a mod TARGET_PAGE_SIZE = 0.

Lemma page_mask_eq a : Z.land a TARGET_PAGE_MASK = a - a mod TARGET_PAGE_SIZE.
Proof.
  change TARGET_PAGE_MASK with (Z.lnot (Z.ones 12)). rewrite <- Z.ldiff_land, Z.ldiff_ones_r, Z.shiftr_div_pow2, Z.shiftl_mul_pow2 by done.
  change TARGET_PAGE_SIZE with (2 ^ 12). pose proof (Z.div_mod a (2 ^ 12)). lia.
Qed.
Lemma page_offset_eq a : page_offset a = a mod TARGET_PAGE_SIZE.
Proof. unfold page_offset. change (Z.lnot TARGET_PAGE_MASK) with (Z.ones 12). by rewrite Z.land_ones by done. Qed.
Lemma page_number_eq a : page_number a = a / TARGET_PAGE_SIZE.
Proof. unfold page_number. by rewrite Z.shiftr_div_pow2 by done. Qed.

Lemma aligned_mask a : aligned (Z.land a TARGET_PAGE_MASK).
Proof.
  unfold aligned. rewrite page_mask_eq. change TARGET_PAGE_SIZE with 4096. rewrite Zminus_mod, Z.mod_mod by lia.
  by rewrite Z.sub_diag.
Qed.
Lemma mask_aligned a : aligned a -> Z.land a TARGET_PAGE_MASK = a.
Proof. intros Ha. rewrite page_mask_eq, Ha. lia. Qed.
Lemma aligned_add a b : aligned a -> aligned b -> aligned (a + b).
Proof. unfold aligned. change TARGET_PAGE_SIZE with 4096. intros. rewrite Zplus_mod. by rewrite H, H0. Qed.
Lemma aligned_sub a b : aligned a -> aligned b -> aligned (a - b).
Proof. unfold aligned. change TARGET_PAGE_SIZE with 4096. intros. rewrite Zminus_mod. by rewrite H, H0. Qed.
Lemma aligned_u64 a : aligned a -> aligned (u64 a).
Proof.
  unfold aligned, wrap. change TARGET_PAGE_SIZE with 4096. intros H. rewrite Z.mod_mod_divide; [done|].
  exists (2 ^ 52). reflexivity.
Qed.
Lemma mod_u64 a : u64 a mod TARGET_PAGE_SIZE = a mod TARGET_PAGE_SIZE.
Proof. unfold wrap. change TARGET_PAGE_SIZE with 4096. rewrite Z.mod_mod_divide; [done|]. exists (2 ^ 52). reflexivity. Qed.

Lemma masked_in_u w a : 12 <= w -> in_u w a -> in_u w (Z.land a TARGET_PAGE_MASK).
Proof. unfold in_u. rewrite page_mask_eq. intros. pose proof (Z.mod_le a TARGET_PAGE_SIZE). pose proof (Z.mod_pos_bound a TARGET_PAGE_SIZE). change TARGET_PAGE_SIZE with 4096 in *. lia. Qed.

Lemma in_range_u64 a o len : in_u 64 a -> 0 <= o -> o + len <= 2 ^ 64 -> (u64 (a - o) <? len) = true <-> o <= a < o + len.
Proof.
  unfold in_u. intros Ha Ho Hl. rewrite Z.ltb_lt. destruct (decide (len <= 0)); [pose proof (wrap_range 64 (a - o) ltac:(done)) as Hw; unfold in_u in Hw; lia|].
  destruct (decide (o <= a)).
  - rewrite wrap_id by (unfold in_u; lia). lia.
  - unfold wrap. rewrite <- (Z_mod_plus_full (a - o) 1), Z.mod_small by lia. lia.
Qed.

(** ** The machine *)

(** The physical page of each virtual page of each processor, from one change of the
    page tables to the next. *)
Class Mapping := { phys_map : nat -> Z -> Z }.

Section TlbInv.
Context {machine : Machine} {mapping : Mapping}.

Definition block_has (b : RAMBlock) (a : Z) : Prop := b.(block_offset) <= a < b.(block_offset) + b.(block_length).
Definition block_maps (b : RAMBlock) (p : Z) : Prop := b.(block_host) <= p < b.(block_host) + b.(block_length).
(** An address in RAM and its place in the host. *)
Definition ram_host (r p : Z) : Prop :=
  exists b, b ∈ ram_blocks /\ block_has b r /\ p = b.(block_host) + (r - b.(block_offset)).

(** The RAM that a physical page is, if any; ROM devices have RAM too. *)
Definition phys_ram (paddr : Z) : option Z :=
  let '(sec, xlat, _) := section_for_iotlb paddr in
  if sec.(is_ram) || sec.(is_romd) then Some (Z.land sec.(mr_ram_addr) TARGET_PAGE_MASK + xlat) else None.
(** RAM that can be written. *)
Definition plain_ram (paddr : Z) : bool :=
  let '(sec, _, _) := section_for_iotlb paddr in sec.(is_ram) && negb sec.(readonly).

(** The virtual page at [v] of processor [n] is in memory; its place in the host. *)
Definition in_memory (n : nat) (v : Z) : Prop := is_Some (phys_ram (phys_map n v)).
Definition host_map (n : nat) (v : Z) : Z :=
  match phys_ram (phys_map n v) with
  | Some r => match List.find (in_block r) ram_blocks with Some b => b.(block_host) + (r - b.(block_offset)) | None => 0 end
  | None => 0
  end.

(** The page tables in the memory [m] are those of the mapping: a walk ends in a fault or
    at the physical page. *)
Definition walks (m : Z -> Z) : Prop := forall n a acc mode s paddr prot size,
  s.(host_mem) = m -> page_walk n a acc mode s = Some (paddr, prot, size) -> paddr = phys_map n (Z.land a TARGET_PAGE_MASK).

(** RAM blocks are made of pages, do not overlap and are not at NULL; a walk through the
    page tables yields pages, for a write only those that can be written and for code
    those that can be executed; the memory map finds for a page of RAM (or of a ROM
    device, which is not RAM) a page of a RAM block, and other sections have indices
    other than those that exec.c reserves. *)
Record machine_ok : Prop := {
  mo_block : forall b, b ∈ ram_blocks ->
    4096 <= b.(block_host) /\ b.(block_host) + b.(block_length) <= 2 ^ 64 /\
    0 <= b.(block_offset) /\ b.(block_offset) + b.(block_length) <= 2 ^ 52 /\
    aligned b.(block_host) /\ aligned b.(block_offset) /\ aligned b.(block_length);
  mo_apart : forall b b' a, b ∈ ram_blocks -> b' ∈ ram_blocks -> block_has b a -> block_has b' a -> b = b';
  mo_apart_host : forall b b' p, b ∈ ram_blocks -> b' ∈ ram_blocks -> block_maps b p -> block_maps b' p -> b = b';
  mo_walk : forall env a acc m s paddr prot size,
    page_walk env a acc m s = Some (paddr, prot, size) -> TARGET_PAGE_SIZE <= size /\ aligned paddr /\
      (acc = 1 -> testb prot PAGE_WRITE = true) /\ (acc = 2 -> testb prot PAGE_EXEC = true);
  mo_section : forall paddr sec xlat sz, section_for_iotlb paddr = (sec, xlat, sz) ->
    TARGET_PAGE_SIZE <= sz /\ aligned xlat /\ (sec.(is_ram) = true -> sec.(is_romd) = false) /\
    (sec.(is_ram) = false -> page_offset sec.(section_index) <> PHYS_SECTION_NOTDIRTY) /\
    (sec.(is_romd) = true -> rom_device (page_offset sec.(section_index)) = true) /\
    (sec.(is_ram) = true \/ sec.(is_romd) = true -> 0 <= xlat /\ exists b, b ∈ ram_blocks /\
       b.(block_offset) <= Z.land sec.(mr_ram_addr) TARGET_PAGE_MASK /\
       Z.land sec.(mr_ram_addr) TARGET_PAGE_MASK + xlat + TARGET_PAGE_SIZE <= b.(block_offset) + b.(block_length));
  mo_mode : forall env s, in_modes (cpu_mmu_index env s) = true
}.

Context (HM : machine_ok).

Lemma find_block_of (f : RAMBlock -> bool) b :
  b ∈ ram_blocks -> f b = true -> (forall b', b' ∈ ram_blocks -> f b' = true -> b' = b) -> List.find f ram_blocks = Some b.
Proof.
  intros Hb Hf Hu. destruct (List.find f ram_blocks) as [b'|] eqn:E.
  - apply List.find_some in E as [Hin E]. f_equal. apply Hu; [by apply list_elem_of_In|done].
  - apply List.find_none with (x := b) in E; [congruence|]. by apply list_elem_of_In.
Qed.

Lemma in_block_iff a b : b ∈ ram_blocks -> in_u 64 a -> in_block a b = true <-> block_has b a.
Proof. intros Hb Ha. destruct (mo_block HM b Hb) as (H1 & H2 & H3 & H4 & _). apply in_range_u64; [done|lia|lia]. Qed.
Lemma in_host_iff p b : b ∈ ram_blocks -> in_u 64 p -> in_host p b = true <-> block_maps b p.
Proof. intros Hb Hp. destruct (mo_block HM b Hb) as (H1 & H2 & _). apply in_range_u64; [done|lia|lia]. Qed.

Lemma find_block a b : b ∈ ram_blocks -> in_u 64 a -> block_has b a -> List.find (in_block a) ram_blocks = Some b.
Proof.
  intros Hb Ha Hh. apply find_block_of; [done|by apply in_block_iff|]. intros b' Hb' E.
  apply (mo_apart HM b' b a); [done|done|by apply in_block_iff|done].
Qed.

Lemma ram_from_host p r : in_u 64 p -> qemu_ram_addr_from_host p = Some r <-> ram_host r p.
Proof.
  intros Hp. unfold qemu_ram_addr_from_host. split.
  - destruct (List.find _ _) as [b|] eqn:E; [|done]. apply List.find_some in E as [Hin%list_elem_of_In E].
    apply in_host_iff in E; [|done|done]. destruct (mo_block HM b Hin) as (H1 & H2 & H3 & H4 & _). unfold block_maps in E.
    rewrite wrap_id by (unfold in_u; lia). intros [= <-]. exists b. unfold block_has. split_and!; [done|lia|lia|lia].
  - intros (b & Hb & Hh & ->). destruct (mo_block HM b Hb) as (H1 & H2 & H3 & H4 & _). unfold block_has in Hh.
    assert (block_maps b (b.(block_host) + (r - b.(block_offset)))) as Hm by (unfold block_maps; lia).
    rewrite (find_block_of _ b); [|done|by apply in_host_iff|].
    + f_equal. rewrite wrap_id by (unfold in_u; lia). lia.
    + intros b' Hb' E%in_host_iff; [|done|done]. by eapply (mo_apart_host HM).
Qed.

Lemma ram_host_bound r p : ram_host r p -> in_u 52 r /\ in_u 64 p /\ p mod TARGET_PAGE_SIZE = r mod TARGET_PAGE_SIZE.
Proof.
  intros (b & Hb & Hh & ->). destruct (mo_block HM b Hb) as (H1 & H2 & H3 & H4 & A1 & A2 & _). unfold block_has in Hh.
  split_and!; [unfold in_u; lia|unfold in_u; lia|]. replace (b.(block_host) + (r - b.(block_offset))) with (r + (b.(block_host) - b.(block_offset))) by lia.
  pose proof (aligned_sub _ _ A1 A2) as A. unfold aligned in A. change TARGET_PAGE_SIZE with 4096 in *.
  rewrite Zplus_mod, A, Z.add_0_r, Z.mod_mod by lia. done.
Qed.

(** The place in the host of a page in memory, and of no other. *)
Lemma phys_ram_block paddr r : phys_ram paddr = Some r -> exists b, b ∈ ram_blocks /\ block_has b r.
Proof.
  unfold phys_ram. destruct (section_for_iotlb paddr) as [[sec xlat] sz] eqn:E. destruct (_ || _) eqn:Er; [|done]. intros [= <-].
  destruct (mo_section HM _ _ _ _ E) as (_ & _ & _ & _ & _ & H). destruct H as (Hx & b & Hb & H1 & H2); [by apply orb_true_iff|].
  exists b. split; [done|]. unfold block_has. change TARGET_PAGE_SIZE with 4096 in *. lia.
Qed.

Lemma host_map_ram n v r : phys_ram (phys_map n v) = Some r -> ram_host r (host_map n v).
Proof.
  intros E. unfold host_map. rewrite E. destruct (phys_ram_block _ _ E) as (b & Hb & Hh). exists b. split_and!; [done|done|].
  destruct (mo_block HM b Hb) as (H1 & H2 & H3 & H4 & _). rewrite (find_block r b); [done|done| |done]. unfold block_has, in_u in *. lia.
Qed.

Lemma ram_host_map n v r : ram_host r (host_map n v) -> in_memory n v.
Proof.
  intros (b & Hb & Hh & E). unfold host_map in E. destruct (phys_ram (phys_map n v)) as [r'|] eqn:Er; [by eexists|].
  destruct (mo_block HM b Hb) as (H1 & _). unfold block_has in Hh. lia.
Qed.

Lemma phys_ram_aligned paddr r : phys_ram paddr = Some r -> aligned r.
Proof.
  unfold phys_ram. destruct (section_for_iotlb paddr) as [[sec xlat] sz] eqn:E. destruct (_ || _); [|done]. intros [= <-].
  apply aligned_add; [apply aligned_mask|]. by destruct (mo_section HM _ _ _ _ E) as (_ & ? & _).
Qed.

Lemma out_of_memory n v : ~ in_memory n v -> host_map n v = 0.
Proof. unfold in_memory, host_map. destruct (phys_ram _); [|done]. intros H. by destruct H. Qed.

(** Blocks consist of whole pages. *)
Lemma block_page b r x : b ∈ ram_blocks -> block_has b r -> r / TARGET_PAGE_SIZE = x / TARGET_PAGE_SIZE -> block_has b x.
Proof.
  intros Hb Hh E. destruct (mo_block HM b Hb) as (H1 & H2 & H3 & H4 & A1 & A2 & A3). unfold aligned, block_has in *.
  change TARGET_PAGE_SIZE with 4096 in *. pose proof (Z.div_mod r 4096). pose proof (Z.div_mod x 4096).
  pose proof (Z.mod_pos_bound x 4096). pose proof (Z.mod_pos_bound r 4096).
  pose proof (Z.div_mod b.(block_offset) 4096). pose proof (Z.div_mod b.(block_length) 4096). lia.
Qed.

(** ** Entries *)

Definition code_dirty (d : Z -> Z) (p : Z) : Prop := Z.testbit (d p) 1 = true.

Definition write_tag (e : CPUTLBEntry) : Z := Z.land e.(addr_write) TARGET_PAGE_MASK.
Definition host_page (e : CPUTLBEntry) : Z := u64 (write_tag e + e.(addend)).
Definition code_tag (e : CPUTLBEntry) : Z := Z.land e.(addr_code) TARGET_PAGE_MASK.
Definition code_page (e : CPUTLBEntry) : Z := u64 (code_tag e + e.(addend)).
(** An entry for writes to RAM, with or without a check. *)
Definition ram_entry (e : CPUTLBEntry) : bool := Z.land e.(addr_write) (Z.lor TLB_INVALID_MASK TLB_MMIO) =? 0.

Definition valid_write (e : CPUTLBEntry) : bool := negb (testb e.(addr_write) TLB_INVALID_MASK).
(** A page with a watchpoint. *)
Definition watched (wps : list (Z * Z)) (v : Z) : bool := existsb (fun wp => v =? Z.land wp.1 TARGET_PAGE_MASK) wps.

(** Entry [e] of processor [n] at index [i], with its word [io] for I/O, as an entry for
    code; as any entry of a processor with the watchpoints [wps]. *)
Record code_entry (n : nat) (i : Z) (e : CPUTLBEntry) (io : Z) : Prop := {
  ce_valid : testb e.(addr_code) TLB_INVALID_MASK = false;
  ce_index : tlb_index (code_tag e) = i;
  ce_addend : aligned e.(addend);
  ce_page : code_page e = host_map n (code_tag e);
  ce_assigned : in_memory n (code_tag e) -> memory_region_is_unassigned (page_offset io) = false
}.
Record entry_ok (n : nat) (wps : list (Z * Z)) (d : Z -> Z) (i : Z) (e : CPUTLBEntry) (io : Z) : Prop := {
  eo_code : e.(addr_code) = u64 (-1) \/ code_entry n i e io;
  eo_write : tlb_is_dirty_ram e = true -> forall r, ram_host r (host_page e) -> code_dirty d (page_number r);
  eo_ram : ram_entry e = true -> host_page e = host_map n (write_tag e) /\
    page_offset io = PHYS_SECTION_NOTDIRTY /\ ram_host (u64 (Z.land io TARGET_PAGE_MASK + write_tag e)) (host_page e);
  eo_io : ram_entry e = false -> valid_write e = true -> page_offset io <> PHYS_SECTION_NOTDIRTY /\
    (plain_ram (phys_map n (write_tag e)) = false \/ watched wps (write_tag e) = true);
  eo_index : valid_write e = true -> tlb_index (write_tag e) = i
}.
(** The entry is for writes to the page of [a], or for code in it. *)
Definition writes_to (a : Z) (e : CPUTLBEntry) : Prop :=
  Z.land a TARGET_PAGE_MASK = Z.land e.(addr_write) (Z.lor TARGET_PAGE_MASK TLB_INVALID_MASK).
Definition executes_at (a : Z) (e : CPUTLBEntry) : Prop := e.(addr_code) <> u64 (-1) /\ code_tag e = Z.land a TARGET_PAGE_MASK.
Definition cpu_ok (n : nat) (d : Z -> Z) (c : CPUState) : Prop :=
  forall m i, in_tlb m i = true -> entry_ok n c.(watchpoints) d i (c.(tlb_table) m i) (c.(iotlb) m i).
Definition tlbs_ok (s : cache) : Prop := forall n c, s.(cpus) !! n = Some c -> cpu_ok n s.(phys_dirty) c.

Lemma empty_entry_ok n wps d i io : entry_ok n wps d i s_cputlb_empty_entry io.
Proof. split; [by left|..]; [intros H; vm_compute in H; discriminate H..| |]; [intros _ H|intros H]; vm_compute in H; discriminate H. Qed.

Lemma entry_ok_mono n wps d d' i e io : (forall p, code_dirty d p -> code_dirty d' p) -> entry_ok n wps d i e io -> entry_ok n wps d' i e io.
Proof. intros Hd [E1 E2 E3 E4 E5]. split; [done| |done|done|done]. intros H r Hr. by apply Hd, E2. Qed.

Lemma ram_host_fun r p p' : ram_host r p -> ram_host r p' -> p = p'.
Proof. intros (b & Hb & Hh & ->) (b' & Hb' & Hh' & ->). by rewrite (mo_apart HM b b' r Hb Hb' Hh Hh'). Qed.

Lemma ram_host_inj r r' p : ram_host r p -> ram_host r' p -> r = r'.
Proof.
  intros H H'. assert (in_u 64 p) as Hp by (destruct H as (b & Hb & Hh & ->); destruct (mo_block HM b Hb) as (? & ? & ? & ? & _); unfold block_has, in_u in *; lia).
  apply ram_from_host in H, H'; [congruence|done|done].
Qed.

(** *** What the TLB operations leave alone *)

Definition cpu_rest (c : CPUState) :=
  (c.(tb_jmp_cache), c.(current_tb), c.(interrupt_request), c.(tcg_exit_req), c.(mem_io_pc), c.(mem_io_vaddr), c.(watchpoints)).

Record tlb_changed (s s' : cache) : Prop := {
  tl_eq : s' = set_cpus s'.(cpus) s;
  tl_rest : cpu_rest <$> s'.(cpus) = cpu_rest <$> s.(cpus)
}.

Lemma tlb_changed_refl s : tlb_changed s s.
Proof. split; [by destruct s|done]. Qed.
Lemma tlb_changed_trans s1 s2 s3 : tlb_changed s1 s2 -> tlb_changed s2 s3 -> tlb_changed s1 s3.
Proof. intros [A1 A2] [B1 B2]. split; [|congruence]. rewrite B1, A1. done. Qed.

Lemma fmap_factor {A B C} (f : A -> B) (g : B -> C) (l l' : list A) :
  f <$> l' = f <$> l -> (fun x => g (f x)) <$> l' = (fun x => g (f x)) <$> l.
Proof. intros E. apply (f_equal (fmap g)) in E. by rewrite <- !list_fmap_compose in E. Qed.

Lemma rest_caches s s' : cpu_rest <$> s'.(cpus) = cpu_rest <$> s.(cpus) -> unch Caches s s'.
Proof. exact (fmap_factor cpu_rest (fun x => x.1.1.1.1.1.1) s.(cpus) s'.(cpus)). Qed.

Lemma set_cpus_unch k s cs :
  k <> Cpus -> k <> Tlbs -> cpu_rest <$> cs = cpu_rest <$> s.(cpus) -> unch k s (set_cpus cs s).
Proof.
  intros H1 H2 E. destruct k; try done; try (intros q Hq; exact Hq); try (apply (unch_refl _ s)). by apply rest_caches.
Qed.
Lemma tlb_changed_unch k s s' : k <> Cpus -> k <> Tlbs -> tlb_changed s s' -> unch k s s'.
Proof. intros H1 H2 [-> E]. by apply set_cpus_unch. Qed.

Lemma upd_cpu_changed s n c f :
  s.(cpus) !! n = Some c -> cpu_rest (f c) = cpu_rest c -> tlb_changed s (set_cpus (<[n := f c]> s.(cpus)) s).
Proof.
  intros Hc Hf. split; [done|]. cbn [cpus set_cpus]. rewrite list_fmap_insert, Hf. apply list_insert_id.
  by rewrite list_lookup_fmap, Hc.
Qed.

Lemma upd_cpu_tlbs_ok s n c f :
  s.(cpus) !! n = Some c -> tlbs_ok s -> cpu_ok n s.(phys_dirty) (f c) -> tlbs_ok (set_cpus (<[n := f c]> s.(cpus)) s).
Proof.
  intros Hc Ht Hf k c' Hk. cbn [phys_dirty set_cpus cpus] in *.
  apply list_lookup_insert_Some in Hk as [(-> & <- & _)|[_ Hk]]; [done|]. by apply Ht.
Qed.

(** ** New entries *)

(** The mask runs out of bits. *)
Lemma widen_total x fuel : forall k mask,
  in_u 64 mask -> (2 ^ Z.of_nat k | mask) -> (k <= 64)%nat -> (65 <= k + fuel)%nat -> is_Some (widen fuel x mask).
Proof.
  induction fuel as [|fuel IH]; intros k mask Hm Hd Hk Hf; [lia|]. cbn [widen]. case_match; [by eexists|].
  destruct (decide (k = 64%nat)) as [->|Hne].
  - apply Z.mod_divide in Hd; [|done]. change (2 ^ Z.of_nat 64) with (2 ^ 64) in Hd. rewrite Z.mod_small in Hd by done.
    subst. by rewrite Z.land_0_r in H.
  - apply (IH (S k)); [by apply wrap_range| |lia|lia]. unfold wrap. rewrite Z.shiftl_mul_pow2 by done.
    replace (Z.of_nat (S k)) with (Z.of_nat k + 1) by lia. rewrite Z.pow_add_r by lia.
    apply Z.mod_divide; [lia|]. rewrite Z.mod_mod_divide.
    + apply Z.mod_divide; [lia|]. by apply Z.mul_divide_mono_r.
    + exists (2 ^ (63 - Z.of_nat k)). rewrite <- Z.pow_add_r, <- Z.pow_add_r by lia. f_equal. lia.
Qed.

Lemma wpc_tlb_add_large_page X s n c vaddr size (Q : unit -> cache -> Prop) :
  s.(cpus) !! n = Some c -> tlbs_ok s ->
  (forall s' c', tlb_changed s s' -> tlbs_ok s' -> s'.(cpus) !! n = Some c' -> Q tt s') ->
  wpc (tlb_add_large_page n vaddr size) Q X s.
Proof.
  intros Hc Ht HQ. apply wpc_bind. eapply wpc_get_cpu; [done|].
  assert (forall a m, Q tt (set_cpus (<[n := set_tlb_flush a m c]> s.(cpus)) s)) as HQ'.
  { intros a m. eapply HQ; [by apply upd_cpu_changed|apply upd_cpu_tlbs_ok; [done|done|]|].
    - exact (Ht n c Hc).
    - cbn [cpus set_cpus]. apply list_lookup_insert_eq. by eapply lookup_lt_Some. }
  case_match; [by eapply wpc_upd_cpu|].
  destruct (widen_total (Z.lxor c.(tlb_flush_addr) vaddr) 65 0 (Z.land (u64 (Z.lnot (size - 1))) c.(tlb_flush_mask))) as [m ->].
  - rewrite Z.land_comm. apply land_in_u; [done|]. by apply wrap_range.
  - apply Z.divide_1_l.
  - lia.
  - lia.
  - by eapply wpc_upd_cpu.
Qed.

Lemma flagged_not_dirty a f r c x : Z.land f (Z.lor (Z.lor TLB_INVALID_MASK TLB_MMIO) TLB_NOTDIRTY) <> 0 ->
  tlb_is_dirty_ram (mkTlb r (Z.lor a f) c x) = false.
Proof.
  intros Hf. apply Z.eqb_neq. cbn [addr_write]. rewrite Z.land_lor_distr_l. intros [_ E]%Z.lor_eq_0_iff. done.
Qed.

Lemma page_number_masked a x : aligned x -> page_number (Z.land a TARGET_PAGE_MASK + x) = page_number (a + x).
Proof.
  unfold aligned. rewrite !page_number_eq, page_mask_eq. change TARGET_PAGE_SIZE with 4096. intros Hx.
  pose proof (Z.div_mod x 4096). pose proof (Z.div_mod a 4096).
  replace (a - a mod 4096 + x) with ((a / 4096 + x / 4096) * 4096) by lia. rewrite Z.div_mul by lia.
  replace (a + x) with (a mod 4096 + (a / 4096 + x / 4096) * 4096) by lia. rewrite Z.div_add by lia.
  rewrite (Z.div_small (a mod 4096)); [lia|]. apply Z.mod_pos_bound. lia.
Qed.

Lemma flagged_not_ram a f r c x : Z.land f (Z.lor TLB_INVALID_MASK TLB_MMIO) <> 0 -> ram_entry (mkTlb r (Z.lor a f) c x) = false.
Proof.
  intros Hf. apply Z.eqb_neq. cbn [addr_write]. rewrite Z.land_lor_distr_l. intros [_ E]%Z.lor_eq_0_iff. done.
Qed.

Lemma tag_notdirty a : Z.land (Z.lor a TLB_NOTDIRTY) TARGET_PAGE_MASK = Z.land a TARGET_PAGE_MASK.
Proof. rewrite Z.land_lor_distr_l. change (Z.land TLB_NOTDIRTY TARGET_PAGE_MASK) with 0. apply Z.lor_0_r. Qed.
Lemma ram_entry_notdirty e : ram_entry (set_addr_write (Z.lor e.(addr_write) TLB_NOTDIRTY) e) = ram_entry e.
Proof.
  unfold ram_entry. cbn [addr_write set_addr_write]. rewrite Z.land_lor_distr_l.
  change (Z.land TLB_NOTDIRTY _) with 0. by rewrite Z.lor_0_r.
Qed.

Lemma valid_notdirty e : valid_write (set_addr_write (Z.lor e.(addr_write) TLB_NOTDIRTY) e) = valid_write e.
Proof.
  unfold valid_write, testb. cbn [addr_write set_addr_write]. rewrite Z.land_lor_distr_l.
  change (Z.land TLB_NOTDIRTY TLB_INVALID_MASK) with 0. by rewrite Z.lor_0_r.
Qed.
Lemma ram_entry_valid e : ram_entry e = true -> valid_write e = true.
Proof.
  unfold ram_entry, valid_write, testb. intros E%Z.eqb_eq. rewrite negb_involutive. apply Z.eqb_eq. rewrite Z.land_lor_distr_r in E.
  by apply Z.lor_eq_0_iff in E as [? _].
Qed.
(** The part for code does not depend on the address for writes. *)
Lemma code_entry_kept n i e io x : e.(addr_code) = u64 (-1) \/ code_entry n i e io ->
  (set_addr_write x e).(addr_code) = u64 (-1) \/ code_entry n i (set_addr_write x e) io.
Proof. intros [H|[? ? ? ? ?]]; [by left|right]. by split. Qed.

Lemma lor_flag r f : aligned r -> 0 <= f < TARGET_PAGE_SIZE -> Z.lor r f = r + f.
Proof.
  unfold aligned. change TARGET_PAGE_SIZE with 4096. intros Ar Hf. pose proof (Z.div_mod r 4096 ltac:(lia)) as E.
  replace r with (Z.shiftl (r / 4096) 12) at 1 by (rewrite Z.shiftl_mul_pow2 by done; lia).
  rewrite Z.lor_comm, lor_shiftl_add by (unfold in_u; lia). lia.
Qed.

(** The word for I/O of an entry for RAM gives back the address in RAM. *)
Lemma iotlb_back v r : aligned v -> aligned r -> in_u 64 r ->
  page_offset (u64 (Z.lor r PHYS_SECTION_NOTDIRTY - v)) = PHYS_SECTION_NOTDIRTY /\
  u64 (Z.land (u64 (Z.lor r PHYS_SECTION_NOTDIRTY - v)) TARGET_PAGE_MASK + v) = r.
Proof.
  intros Av Ar Hr. rewrite lor_flag by done. set (x := u64 (_ - v)).
  assert (x mod TARGET_PAGE_SIZE = 1) as Ex.
  { unfold x. rewrite mod_u64. replace (r + PHYS_SECTION_NOTDIRTY - v) with (r - v + 1) by (change PHYS_SECTION_NOTDIRTY with 1; lia).
    rewrite Zplus_mod, (aligned_sub r v Ar Av). done. }
  split; [by rewrite page_offset_eq|].
  rewrite page_mask_eq, Ex. unfold x. replace (u64 _ - 1 + v) with (u64 (r + PHYS_SECTION_NOTDIRTY - v) + (v - 1)) by lia.
  rewrite wrap_add_l by done. replace (r + PHYS_SECTION_NOTDIRTY - v + (v - 1)) with r by (change PHYS_SECTION_NOTDIRTY with 1; lia).
  by apply wrap_id.
Qed.

Lemma page_offset_aligned a v : aligned v -> page_offset (u64 (a - v)) = page_offset a.
Proof.
  unfold aligned. rewrite !page_offset_eq, mod_u64. intros Av. rewrite Zminus_mod, Av, Z.sub_0_r, Z.mod_mod by done. done.
Qed.
Lemma page_offset_add a v : aligned v -> page_offset (a + v) = page_offset a.
Proof. unfold aligned. rewrite !page_offset_eq. intros Av. rewrite Zplus_mod, Av, Z.add_0_r, Z.mod_mod by done. done. Qed.

(** The tag of an entry that can be used is not -1. *)
Lemma tag_valid addr a : Z.land addr TARGET_PAGE_MASK = Z.land a (Z.lor TARGET_PAGE_MASK TLB_INVALID_MASK) -> a <> u64 (-1).
Proof.
  intros E ->. apply (f_equal (fun z => Z.testbit z 3)) in E. rewrite !Z.land_spec in E.
  change (Z.testbit TARGET_PAGE_MASK 3) with false in E. rewrite andb_false_r in E. vm_compute in E. discriminate E.
Qed.

Lemma aligned_tag v : aligned v -> Z.land v (Z.lor TARGET_PAGE_MASK TLB_INVALID_MASK) = v.
Proof.
  intros Av. rewrite Z.land_lor_distr_r, mask_aligned by done. rewrite <- (mask_aligned v Av) at 2. rewrite <- Z.land_assoc.
  change (Z.land TARGET_PAGE_MASK TLB_INVALID_MASK) with 0. by rewrite Z.land_0_r, Z.lor_0_r.
Qed.
Lemma flag_tag v f : aligned v -> Z.land f (Z.lor TARGET_PAGE_MASK TLB_INVALID_MASK) = 0 ->
  Z.land (Z.lor v f) (Z.lor TARGET_PAGE_MASK TLB_INVALID_MASK) = v.
Proof. intros Av Hf. by rewrite Z.land_lor_distr_l, Hf, Z.lor_0_r, aligned_tag. Qed.

Lemma exec_tag (ram : bool) v ca : aligned v -> ca = (if ram then v else Z.lor v TLB_MMIO) ->
  Z.land ca (Z.lor TARGET_PAGE_MASK TLB_INVALID_MASK) = v /\ Z.land ca TARGET_PAGE_MASK = v.
Proof.
  intros Av ->. destruct ram; [by split; [apply aligned_tag|apply mask_aligned]|]. split; [by apply flag_tag|].
  rewrite Z.land_lor_distr_l. change (Z.land TLB_MMIO TARGET_PAGE_MASK) with 0. rewrite Z.lor_0_r. by apply mask_aligned.
Qed.

(** A tag without the flag for entries that cannot be used. *)
Lemma tag_page a v : aligned v -> Z.land a (Z.lor TARGET_PAGE_MASK TLB_INVALID_MASK) = v -> Z.land a TARGET_PAGE_MASK = v.
Proof.
  intros Av E. rewrite <- (mask_aligned v Av), <- E, <- Z.land_assoc. f_equal.
Qed.
Lemma tag_no_flag v a : aligned v -> Z.land a (Z.lor TARGET_PAGE_MASK TLB_INVALID_MASK) = v -> testb a TLB_INVALID_MASK = false.
Proof.
  intros Av E. unfold testb. apply negb_false_iff, Z.eqb_eq. transitivity (Z.land (Z.land a (Z.lor TARGET_PAGE_MASK TLB_INVALID_MASK)) TLB_INVALID_MASK).
  - by rewrite <- Z.land_assoc.
  - rewrite E, <- (mask_aligned v Av), <- Z.land_assoc. apply Z.land_0_r.
Qed.
Lemma valid_tag a : testb a TLB_INVALID_MASK = false -> Z.land a (Z.lor TARGET_PAGE_MASK TLB_INVALID_MASK) = Z.land a TARGET_PAGE_MASK.
Proof. unfold testb. intros E%negb_false_iff%Z.eqb_eq. by rewrite Z.land_lor_distr_r, E, Z.lor_0_r. Qed.

(** The entry that [tlb_set_page] makes for writes. *)
Definition new_addr_write (d : Z -> Z) (sec : MemoryRegionSection) (xlat prot address : Z) : Z :=
  if testb prot PAGE_WRITE then
    if sec.(is_ram) && sec.(readonly) || sec.(is_romd) then Z.lor address TLB_MMIO
    else if sec.(is_ram) && negb (d (page_number (sec.(mr_ram_addr) + xlat)) =? 0xff) then Z.lor address TLB_NOTDIRTY
    else address
  else u64 (-1).

Section NewEntry.
Context (n : nat) (wps : list (Z * Z)) (d : Z -> Z) (sec : MemoryRegionSection) (vaddr xlat sz prot adj ca address io : Z).
Let r := Z.land sec.(mr_ram_addr) TARGET_PAGE_MASK + xlat.
Let ram := sec.(is_ram) || sec.(is_romd).
Let w := new_addr_write d sec xlat prot address.
Context (Av : aligned vaddr) (Bv : in_u 64 vaddr) (Aa : aligned adj) (Ba : in_u 64 adj).
Context (Hsec : section_for_iotlb (phys_map n vaddr) = (sec, xlat, sz)).
Context (Eca : ca = if ram then vaddr else Z.lor vaddr TLB_MMIO).
Context (Hr : ram = true -> ram_host r adj) (Hdev : ram = false -> adj = 0).
Context (Hio : address = ca /\ io = (if sec.(is_ram) then Z.lor r (if sec.(readonly) then PHYS_SECTION_ROM else PHYS_SECTION_NOTDIRTY)
                                    else sec.(section_index) + xlat) \/
               address = Z.lor ca TLB_MMIO /\ page_offset io = PHYS_SECTION_WATCH /\ watched wps vaddr = true).

Lemma new_entry_phys : phys_ram (phys_map n vaddr) = (if ram then Some r else None) /\ plain_ram (phys_map n vaddr) = sec.(is_ram) && negb sec.(readonly).
Proof. unfold phys_ram, plain_ram. by rewrite Hsec. Qed.

Lemma new_entry_aligned : aligned xlat /\ aligned r.
Proof. destruct (mo_section HM _ _ _ _ Hsec) as (_ & Ax & _). split; [done|]. apply aligned_add; [apply aligned_mask|done]. Qed.

Lemma new_entry_adj : adj = host_map n vaddr.
Proof.
  destruct new_entry_phys as [E _]. destruct ram eqn:Er; [by apply (ram_host_fun r); [apply Hr|apply host_map_ram]|].
  rewrite (Hdev eq_refl). symmetry. apply out_of_memory. unfold in_memory. rewrite E. by intros [? ?].
Qed.

(** The region of a page in memory. *)
Lemma new_entry_region : ram = true -> memory_region_is_unassigned (page_offset (u64 (io - vaddr))) = false.
Proof.
  destruct new_entry_aligned as [Ax Ar]. destruct (mo_section HM _ _ _ _ Hsec) as (_ & _ & _ & _ & Hrom & _).
  rewrite page_offset_aligned by done. unfold ram, memory_region_is_unassigned. intros Hram.
  destruct Hio as [[_ ->]|(_ & -> & _)]; [|by rewrite !andb_false_r].
  destruct (sec.(is_ram)) eqn:E1; cbn [orb] in *.
  - destruct (sec.(readonly)); rewrite lor_flag, Z.add_comm, page_offset_add by done; reflexivity.
  - rewrite page_offset_add, Hrom by done. cbn [negb]. by rewrite andb_false_r.
Qed.

(** An entry for RAM, or one for writes with a flag, or none. *)
Lemma new_entry_cases :
  sec.(is_ram) = true /\ sec.(readonly) = false /\ io = Z.lor r PHYS_SECTION_NOTDIRTY /\ testb prot PAGE_WRITE = true /\
    (w = vaddr /\ d (page_number r) = 0xff \/ w = Z.lor vaddr TLB_NOTDIRTY) \/
  testb prot PAGE_WRITE = true /\ page_offset io <> PHYS_SECTION_NOTDIRTY /\
    (plain_ram (phys_map n vaddr) = false \/ watched wps vaddr = true) /\
    (w = Z.lor vaddr TLB_MMIO \/ w = Z.lor vaddr (Z.lor TLB_MMIO TLB_NOTDIRTY)) \/
  testb prot PAGE_WRITE = false /\ w = u64 (-1).
Proof.
  destruct new_entry_aligned as [Ax Ar]. destruct (mo_section HM _ _ _ _ Hsec) as (_ & _ & Hromd & Hindex & _).
  destruct new_entry_phys as [_ ->]. unfold w, new_addr_write. destruct (testb prot PAGE_WRITE); [|by right; right].
  assert (Z.lor (Z.lor vaddr TLB_MMIO) TLB_MMIO = Z.lor vaddr TLB_MMIO) as Em by by rewrite <- Z.lor_assoc, Z.lor_diag.
  assert (page_number (sec.(mr_ram_addr) + xlat) = page_number r) as -> by (unfold r; by rewrite page_number_masked).
  destruct Hio as [[-> Eio]|(-> & Hne & Hw)]; subst ca ram; destruct (sec.(is_ram)) eqn:E1; cbn [orb andb] in *; try rewrite Hromd by done.
  - destruct (sec.(readonly)) eqn:E2; cbn [orb].
    + right. left. split_and!; [done| |by left|by left]. rewrite Eio, lor_flag, Z.add_comm, page_offset_add by done. done.
    + left. split_and!; try done. destruct (Z.eqb_spec (d (page_number r)) 0xff); [by left|by right].
  - right. left. split_and!; [done|rewrite Eio, page_offset_add by done; by apply Hindex|by left|]. left. by destruct (sec.(is_romd)).
  - right. left. rewrite Hne. split_and!; [done|done|by right|]. rewrite orb_false_r. destruct (sec.(readonly)); [by left|].
    destruct (_ =? 255); cbn [negb]; [by left|right; by rewrite Z.lor_assoc].
  - right. left. rewrite Hne. split_and!; [done|done|by right|]. left. destruct (sec.(is_romd)); [done|]. by rewrite Em.
Qed.

Lemma new_entry_tag : testb prot PAGE_WRITE = true -> vaddr = Z.land w (Z.lor TARGET_PAGE_MASK TLB_INVALID_MASK).
Proof.
  intros Hw. destruct new_entry_cases as [(_ & _ & _ & _ & [[-> _]| ->])|[(_ & _ & _ & [-> | ->])|[H _]]]; try congruence;
    by rewrite ?flag_tag, ?aligned_tag.
Qed.

Lemma new_entry_code ac ar (e := mkTlb ar w ac (u64 (adj - vaddr))) : ac = u64 (-1) \/ ac = ca ->
  e.(addr_code) = u64 (-1) \/ code_entry n (tlb_index vaddr) e (u64 (io - vaddr)).
Proof.
  intros [-> | ->]; [by left|right]. destruct (exec_tag ram vaddr ca Av Eca) as [Et1 Et2].
  assert (code_tag e = vaddr) as Et by exact Et2. split.
  - by apply (tag_no_flag vaddr).
  - by rewrite Et.
  - by apply aligned_u64, aligned_sub.
  - rewrite Et, <- new_entry_adj. unfold code_page. rewrite Et. cbn [addend e]. rewrite wrap_add_r by done.
    replace (vaddr + (adj - vaddr)) with adj by lia. by apply wrap_id.
  - rewrite Et. unfold in_memory. destruct new_entry_phys as [-> _]. pose proof new_entry_region as Hreg.
    destruct ram; [by intros _; apply Hreg|by intros [? ?]].
Qed.

Lemma new_entry_write : testb prot PAGE_WRITE = true -> Z.land w TARGET_PAGE_MASK = vaddr.
Proof. intros Hw. rewrite (tag_page w vaddr); [done|done|]. symmetry. by apply new_entry_tag. Qed.

Lemma new_entry_ok ar ac : ac = u64 (-1) \/ ac = ca ->
  entry_ok n wps d (tlb_index vaddr) (mkTlb ar w ac (u64 (adj - vaddr))) (u64 (io - vaddr)).
Proof.
  intros Hac. pose proof (new_entry_code ac ar Hac) as Hcode. pose proof new_entry_write as Hwt. pose proof new_entry_adj as Eadj.
  assert (forall w, Z.land w TARGET_PAGE_MASK = vaddr -> u64 (Z.land w TARGET_PAGE_MASK + u64 (adj - vaddr)) = adj) as Hhost.
  { intros w' ->. rewrite wrap_add_r by done. replace (vaddr + (adj - vaddr)) with adj by lia. by apply wrap_id. }
  destruct new_entry_cases as [(E1 & E2 & Eio & Hp & Hw)|[(Hp & Hn & Hpl & Hw)|[_ ->]]].
  - specialize (Hwt Hp). assert (ram_entry (mkTlb ar w ac (u64 (adj - vaddr))) = true) as Er.
    { unfold ram_entry. cbn [addr_write]. rewrite <- (mask_aligned vaddr Av) in Hw. destruct Hw as [[-> _]| ->]; rewrite ?Z.land_lor_distr_l, <- Z.land_assoc;
        change (Z.land TARGET_PAGE_MASK (Z.lor TLB_INVALID_MASK TLB_MMIO)) with 0; by rewrite Z.land_0_r. }
    assert (ram_host r adj) as Hra by (apply Hr; unfold ram; by rewrite E1).
    split; [exact Hcode| | |congruence|]; unfold host_page, write_tag; cbn [addr_write addend]; rewrite ?Hhost by done.
    + intros Hd r' Hr'. destruct Hw as [[_ Ed]|Ew']; [|rewrite Ew', flagged_not_dirty in Hd by done; done].
      rewrite (ram_host_inj r' r adj Hr' Hra). unfold code_dirty. by rewrite Ed.
    + intros _. rewrite Hwt, Eio. destruct (iotlb_back vaddr r) as [-> ->]; [done|apply new_entry_aligned| |by split_and!].
      destruct (ram_host_bound _ _ Hra) as [H _]. unfold in_u in *. lia.
    + intros _. by rewrite Hwt.
  - specialize (Hwt Hp). split; [exact Hcode|destruct Hw as [-> | ->]; by rewrite flagged_not_dirty|
      destruct Hw as [-> | ->]; by rewrite flagged_not_ram| |]; unfold write_tag; cbn [addr_write]; rewrite Hwt; [|done].
    intros _ _. by rewrite page_offset_aligned.
  - split; [exact Hcode|..]; [intros H; vm_compute in H; discriminate H..| |]; [intros _ H|intros H]; vm_compute in H; discriminate H.
Qed.
End NewEntry.

Lemma new_entry_io c sec vaddr paddr xlat prot ca io address :
  aligned paddr -> memory_region_section_get_iotlb c sec vaddr paddr xlat prot ca = (io, address) ->
  address = ca /\ io = (if sec.(is_ram) then Z.lor (Z.land sec.(mr_ram_addr) TARGET_PAGE_MASK + xlat)
      (if sec.(readonly) then PHYS_SECTION_ROM else PHYS_SECTION_NOTDIRTY) else sec.(section_index) + xlat) \/
  address = Z.lor ca TLB_MMIO /\ page_offset io = PHYS_SECTION_WATCH /\ watched c.(watchpoints) vaddr = true.
Proof.
  intros Ap. unfold memory_region_section_get_iotlb. destruct (existsb _ _) eqn:Ew; intros [= <- <-]; [right|by left].
  split_and!; [done|by rewrite page_offset_add|]. apply existsb_exists in Ew as (wp & Hin & [H _]%andb_true_iff).
  apply existsb_exists. by exists wp.
Qed.

Lemma wpc_qemu_get_ram_block X a b (Q : RAMBlock -> cache -> Prop) s :
  b ∈ ram_blocks -> in_u 64 a -> block_has b a -> Q b s -> wpc (qemu_get_ram_block a) Q X s.
Proof. intros Hb Ha Hh HQ. unfold qemu_get_ram_block. by rewrite (find_block a b Hb Ha Hh). Qed.

(** The host address of a page of a section of RAM. *)
Lemma wpc_section_ptr X sec xlat b (Q : Z -> cache -> Prop) s :
  let a := Z.land sec.(mr_ram_addr) TARGET_PAGE_MASK in
  b ∈ ram_blocks -> 0 <= xlat -> aligned xlat -> b.(block_offset) <= a -> a + xlat + TARGET_PAGE_SIZE <= b.(block_offset) + b.(block_length) ->
  (forall p, aligned (u64 (p + xlat)) -> ram_host (a + xlat) (u64 (p + xlat)) -> Q p s) ->
  wpc (qemu_get_ram_ptr a) Q X s.
Proof.
  intros a Hb Hx Ax H1 H2 HQ. destruct (mo_block HM b Hb) as (B1 & B2 & B3 & B4 & A1 & A2 & A3).
  assert (TARGET_PAGE_SIZE = 4096) as Eps by done.
  apply wpc_bind. apply (wpc_qemu_get_ram_block X a b); [done|unfold in_u; lia|unfold block_has; lia|]. apply wpc_ret.
  rewrite wrap_id by (unfold in_u; lia). set (p := b.(block_host) + (a - b.(block_offset))). apply HQ.
  - apply aligned_u64, aligned_add, Ax. apply aligned_add, aligned_sub; [done|apply aligned_mask|done].
  - exists b. unfold block_has. rewrite wrap_id by (unfold in_u, p; lia). unfold p. split_and!; [done|lia|lia|lia].
Qed.

Definition has_env (s : cache) (n : nat) : Prop := is_Some (s.(cpus) !! n).
Definition entry_at (s : cache) (n : nat) (m i : Z) : option CPUTLBEntry :=
  (fun c => c.(tlb_table) m i) <$> s.(cpus) !! n.

Lemma wpc_tlb_set_page X s n vaddr paddr prot m size (Q : unit -> cache -> Prop) :
  tlbs_ok s -> has_env s n -> aligned vaddr -> in_u 64 vaddr -> TARGET_PAGE_SIZE <= size -> aligned paddr ->
  paddr = phys_map n vaddr ->
  (forall s' e, tlb_changed s s' -> tlbs_ok s' -> entry_at s' n m (tlb_index vaddr) = Some e -> aligned e.(addend) ->
     (testb prot PAGE_WRITE = true -> writes_to vaddr e) -> (testb prot PAGE_EXEC = true -> executes_at vaddr e) -> Q tt s') ->
  wpc (tlb_set_page n vaddr paddr prot m size) Q X s.
Proof.
  intros Ht [c0 Hc0] Av Bv Hs Ap -> HQ. unfold tlb_set_page. apply wpc_bind, wpc_assert; [by apply Z.leb_le|].
  apply wpc_bind. eapply (wpc_mono _ _ (fun _ s1 => tlb_changed s s1 /\ tlbs_ok s1 /\ has_env s1 n)).
  { apply wpc_when; intros _; [|split_and!; [apply tlb_changed_refl|done|by eexists]].
    eapply wpc_tlb_add_large_page; [done|done|]. intros s1 c1 H1 H2 H3. split_and!; [done|done|by eexists]. }
  intros [] s1 (T1 & O1 & [c1 Hc1]). set (paddr := phys_map n vaddr) in *. destruct (section_for_iotlb paddr) as [[sec xlat] sz] eqn:Esec.
  destruct (mo_section HM _ _ _ _ Esec) as (Hsz & Ax & _ & _ & _ & Hram).
  apply wpc_bind, wpc_assert; [by apply Z.leb_le|]. apply wpc_bind.
  eapply (wpc_mono _ _ (fun x s2 => s2 = s1 /\ x.1 = (if sec.(is_ram) || sec.(is_romd) then vaddr else Z.lor vaddr TLB_MMIO) /\
    aligned x.2 /\ in_u 64 x.2 /\
    (sec.(is_ram) || sec.(is_romd) = true -> ram_host (Z.land sec.(mr_ram_addr) TARGET_PAGE_MASK + xlat) x.2) /\
    (sec.(is_ram) || sec.(is_romd) = false -> x.2 = 0))).
  { destruct (sec.(is_ram) || sec.(is_romd)) eqn:Er.
    - replace (negb sec.(is_ram) && negb sec.(is_romd)) with false by (destruct (is_ram sec), (is_romd sec); done).
      destruct Hram as (Hx0 & b & Hb & Hb1 & Hb2); [by apply orb_true_iff|].
      apply wpc_bind. apply (wpc_section_ptr X sec xlat b); try done. intros p Hp Hr. apply wpc_ret.
      split_and!; try done. by apply wrap_range.
    - replace (negb sec.(is_ram) && negb sec.(is_romd)) with true by (destruct (is_ram sec), (is_romd sec); done).
      apply wpc_ret. by split_and!. }
  intros [ca adj] s2 (-> & Eca & Aa & Ba & Hr & Hdev). cbn [fst snd] in *. apply wpc_bind. eapply wpc_get_cpu; [done|].
  destruct (memory_region_section_get_iotlb c1 sec vaddr paddr xlat prot ca) as [io address] eqn:Eio.
  pose proof (new_entry_io c1 sec vaddr paddr xlat prot ca io address Ap Eio) as Hio.
  apply wpc_bind, wpc_bind, wpc_gets, wpc_ret. eapply wpc_upd_cpu; [done|].
  fold (new_addr_write s1.(phys_dirty) sec xlat prot address). eapply HQ.
  - eapply tlb_changed_trans; [done|]. by apply upd_cpu_changed.
  - apply upd_cpu_tlbs_ok; [done|done|]. intros m' i' Hin. cbn [tlb_table set_tlb iotlb]. unfold upd2.
    destruct ((m' =? m) && (i' =? tlb_index vaddr)) eqn:Em; [|by apply (O1 n c1 Hc1)].
    apply andb_true_iff in Em as [_ ->%Z.eqb_eq]. eapply (new_entry_ok n _ s1.(phys_dirty) sec vaddr xlat sz prot adj ca); try done.
    by destruct (testb prot PAGE_EXEC); [right|left].
  - unfold entry_at. cbn [cpus set_cpus]. rewrite list_lookup_insert_eq by (by eapply lookup_lt_Some). cbn [fmap option_fmap option_map].
    cbn [tlb_table set_tlb]. unfold upd2. by rewrite !Z.eqb_refl.
  - by apply aligned_u64, aligned_sub.
  - intros Hw. unfold writes_to. cbn [addr_write]. rewrite mask_aligned by done. eapply (new_entry_tag n c1.(watchpoints) s1.(phys_dirty) sec vaddr xlat sz prot); try done.
  - intros Hx. destruct (exec_tag _ vaddr ca Av Eca) as [Et1 Et2]. unfold executes_at, code_tag. cbn [addr_code andb].
    rewrite Hx, Et2, mask_aligned by done. split; [|done]. apply (tag_valid vaddr). by rewrite Et1, mask_aligned.
Qed.

Lemma tlb_index_in m a : in_modes m = true -> in_tlb m (tlb_index a) = true.
Proof.
  intros Hm. unfold in_tlb. rewrite Hm. cbn [andb]. unfold tlb_index. change (CPU_TLB_SIZE - 1) with (Z.ones 8).
  rewrite Z.land_ones by done. pose proof (Z.mod_pos_bound (Z.shiftr a TARGET_PAGE_BITS) (2 ^ 8) ltac:(done)).
  change CPU_TLB_SIZE with (2 ^ 8). apply andb_true_iff. split; [apply Z.leb_le|apply Z.ltb_lt]; lia.
Qed.

Lemma tlb_index_masked a : tlb_index (Z.land a TARGET_PAGE_MASK) = tlb_index a.
Proof.
  unfold tlb_index. f_equal. pose proof (page_number_masked a 0 eq_refl) as E. rewrite !Z.add_0_r in E. exact E.
Qed.

Lemma wpc_tlb_fill X s n addr access m (Q : unit -> cache -> Prop) :
  tlbs_ok s -> has_env s n -> walks s.(host_mem) -> in_u 64 addr -> X.(on_longjmp) s ->
  (forall s' e, tlb_changed s s' -> tlbs_ok s' -> entry_at s' n m (tlb_index addr) = Some e -> aligned e.(addend) ->
     (access = 1 -> writes_to addr e) -> (access = 2 -> executes_at addr e) -> Q tt s') ->
  wpc (tlb_fill n addr access m) Q X s.
Proof.
  intros Ht Hn Hw Ha HX HQ. apply wpc_bind, wpc_gets. destruct (page_walk n addr access m s) as [[[paddr prot] size]|] eqn:Ew; [|done].
  destruct (mo_walk HM _ _ _ _ _ _ _ _ Ew) as (W1 & W2 & W3 & W3').
  apply wpc_tlb_set_page; [done|done|apply aligned_mask|by apply masked_in_u|done|done|by eapply (Hw n addr access m s)|].
  rewrite tlb_index_masked. intros s' e T O E A W Y. eapply HQ; try done; intros Eacc; unfold writes_to, executes_at in *.
  - rewrite <- (W (W3 Eacc)). symmetry. apply mask_aligned, aligned_mask.
  - destruct (Y (W3' Eacc)) as [Y1 ->]. split; [done|]. apply mask_aligned, aligned_mask.
Qed.

Lemma has_env_entry s n m i : has_env s n -> is_Some (entry_at s n m i).
Proof. intros [c Hc]. unfold entry_at. rewrite Hc. by eexists. Qed.

Lemma entry_at_ok s n m i e : tlbs_ok s -> in_tlb m i = true -> entry_at s n m i = Some e ->
  exists c, s.(cpus) !! n = Some c /\ c.(tlb_table) m i = e /\ entry_ok n c.(watchpoints) s.(phys_dirty) i e (c.(iotlb) m i).
Proof.
  intros Ht Hi. unfold entry_at. destruct (s.(cpus) !! n) as [c|] eqn:Hc; [|done]. intros [= <-].
  exists c. split_and!; [done|done|]. by apply (Ht n c).
Qed.

Lemma entry_at_cpu s n m i e : entry_at s n m i = Some e -> exists c, s.(cpus) !! n = Some c /\ c.(tlb_table) m i = e.
Proof. unfold entry_at. destruct (s.(cpus) !! n) as [c|] eqn:Hc; [|done]. intros [= <-]. by exists c. Qed.

Lemma wpc_cpu_ldub_code X s n addr m (Q : unit -> cache -> Prop) :
  tlbs_ok s -> has_env s n -> walks s.(host_mem) -> in_u 64 addr -> in_modes m = true -> X.(on_longjmp) s ->
  (forall s' e, tlb_changed s s' -> tlbs_ok s' -> entry_at s' n m (tlb_index addr) = Some e -> executes_at addr e -> Q tt s') ->
  wpc (cpu_ldub_code n addr m) Q X s.
Proof.
  intros Ht Hn Hw Ha Hm HX HQ. pose proof Hn as [c Hc]. apply wpc_bind. eapply wpc_get_cpu; [done|].
  apply wpc_when; intros E; [apply wpc_tlb_fill; try done; by eauto|]. apply negb_false_iff, Z.eqb_eq in E.
  apply (HQ s (c.(tlb_table) m (tlb_index addr))); [apply tlb_changed_refl|done|unfold entry_at; by rewrite Hc|].
  split; [by apply tag_valid in E|]. unfold code_tag. apply (f_equal (fun z => Z.land z TARGET_PAGE_MASK)) in E. rewrite <- !Z.land_assoc in E.
  change (Z.land (Z.lor TARGET_PAGE_MASK TLB_INVALID_MASK) TARGET_PAGE_MASK) with TARGET_PAGE_MASK in E. by rewrite Z.land_diag in E.
Qed.

(** The place in the host of a virtual address in RAM. *)
Definition host_of (n : nat) (addr : Z) : Z := host_map n (Z.land addr TARGET_PAGE_MASK) + page_offset addr.

Lemma page_split a : Z.land a TARGET_PAGE_MASK + page_offset a = a /\ 0 <= page_offset a < TARGET_PAGE_SIZE.
Proof. rewrite page_mask_eq, page_offset_eq. pose proof (Z.mod_pos_bound a TARGET_PAGE_SIZE ltac:(done)). split; lia. Qed.

Lemma page_sum b k : aligned b -> 0 <= k < TARGET_PAGE_SIZE ->
  u64 (b + k) = u64 b + k /\ Z.land (u64 (b + k)) TARGET_PAGE_MASK = u64 b /\ page_offset (u64 (b + k)) = k.
Proof.
  intros Ab Hk. pose proof (aligned_u64 b Ab) as Au. pose proof (wrap_range 64 b ltac:(done)) as Bu.
  assert (u64 (b + k) = u64 b + k) as E.
  { rewrite <- wrap_add_l by done. apply wrap_id. unfold in_u, aligned in *. change TARGET_PAGE_SIZE with 4096 in *.
    pose proof (Z.div_mod (u64 b) 4096 ltac:(done)). change (2 ^ 64) with (4096 * 2 ^ 52) in *. lia. }
  assert (page_offset (u64 b + k) = k) as Eo by (rewrite Z.add_comm, page_offset_add, page_offset_eq by done; by apply Z.mod_small).
  rewrite E. split_and!; [done| |done]. rewrite page_mask_eq, <- page_offset_eq, Eo. lia.
Qed.

(** The page after that of [pc], into which code of [size] bytes reaches. *)
Lemma next_page pc size : in_u 64 pc -> 1 <= size <= TARGET_PAGE_SIZE ->
  let v := Z.land (u64 (pc + size - 1)) TARGET_PAGE_MASK in
  Z.land pc TARGET_PAGE_MASK <> v -> v = u64 (Z.land pc TARGET_PAGE_MASK + TARGET_PAGE_SIZE).
Proof.
  intros Hpc Hs v Hne. destruct (page_split pc) as [Es Hb]. set (b := Z.land pc TARGET_PAGE_MASK) in *. set (o := page_offset pc) in *.
  assert (aligned b) as Ab by apply aligned_mask. assert (in_u 64 b) as Bb by by apply masked_in_u. unfold v in *.
  destruct (decide (o + size - 1 < TARGET_PAGE_SIZE)) as [Hlt|Hge].
  - replace (pc + size - 1) with (b + (o + size - 1)) in Hne by lia. destruct (page_sum b (o + size - 1) Ab ltac:(lia)) as (_ & E & _).
    rewrite E, wrap_id in Hne by done. done.
  - replace (pc + size - 1) with (b + TARGET_PAGE_SIZE + (o + size - 1 - TARGET_PAGE_SIZE)) by lia. apply page_sum; [by apply aligned_add|lia].
Qed.

Lemma host_of_aligned n v : aligned v -> host_of n v = host_map n v.
Proof. intros Av. unfold host_of. rewrite mask_aligned, page_offset_eq, Av by done. lia. Qed.

Lemma ram_host_step a p i : ram_host a p -> page_number (a + i) = page_number a -> ram_host (a + i) (p + i).
Proof.
  intros (b & Hb & Hh & ->) E. exists b. split_and!; [done| |lia]. apply (block_page b a); [done|done|]. by rewrite <- !page_number_eq.
Qed.
Lemma ram_host_page phys n pc : ram_host phys (host_of n pc) -> phys mod TARGET_PAGE_SIZE = pc mod TARGET_PAGE_SIZE ->
  ram_host (Z.land phys TARGET_PAGE_MASK) (host_map n (Z.land pc TARGET_PAGE_MASK)).
Proof.
  intros Hp Hm. pose proof (ram_host_step _ _ (- page_offset pc) Hp) as H. unfold host_of in H.
  replace (phys + - page_offset pc) with (Z.land phys TARGET_PAGE_MASK) in H by (rewrite page_mask_eq, page_offset_eq; lia).
  replace (host_map n (Z.land pc TARGET_PAGE_MASK) + page_offset pc + - page_offset pc) with (host_map n (Z.land pc TARGET_PAGE_MASK)) in H by lia.
  apply H. pose proof (page_number_masked phys 0 eq_refl) as Ep. by rewrite !Z.add_0_r in Ep.
Qed.

(** Code is read where its page is mapped. *)
Lemma executes_host n wps d i e io addr : entry_ok n wps d i e io -> executes_at addr e ->
  u64 (addr + e.(addend)) mod TARGET_PAGE_SIZE = addr mod TARGET_PAGE_SIZE /\ u64 (addr + e.(addend)) = host_of n addr /\
  (in_memory n (Z.land addr TARGET_PAGE_MASK) -> memory_region_is_unassigned (page_offset io) = false).
Proof.
  intros [[H|[_ _ Aa Hp Hu]] _ _ _ _] [Hne Ht]; [done|]. split_and!; [| |by rewrite <- Ht].
  { rewrite mod_u64. unfold aligned in Aa. by rewrite Zplus_mod, Aa, Z.add_0_r, Z.mod_mod. }
  destruct (page_split addr) as [Es Hb]. unfold host_of. rewrite <- Ht, <- Hp.
  assert (aligned (code_page e)) as Ac by (apply aligned_u64, aligned_add; [apply aligned_mask|done]).
  assert (in_u 64 (code_page e)) as Bc by by apply wrap_range.
  assert (u64 (addr + e.(addend)) = code_page e + page_offset addr) as ->; [|done].
  rewrite <- Es at 1. rewrite <- Ht. replace (code_tag e + page_offset addr + e.(addend)) with (code_tag e + e.(addend) + page_offset addr) by lia.
  rewrite <- wrap_add_l by done. fold (code_page e). apply wrap_id. unfold in_u, aligned in *. change TARGET_PAGE_SIZE with 4096 in *.
  pose proof (Z.div_mod (code_page e) 4096 ltac:(done)). change (2 ^ 64) with (4096 * 2 ^ 52) in *. lia.
Qed.

Lemma not_null_page r p : ram_host r p -> TARGET_PAGE_SIZE <= p.
Proof.
  intros (b & Hb & Hh & ->). destruct (mo_block HM b Hb) as (H1 & _). unfold block_has in Hh. change TARGET_PAGE_SIZE with 4096. lia.
Qed.

Lemma page_number_step a k : aligned a -> 0 <= k < TARGET_PAGE_SIZE -> page_number (a + k) = page_number a.
Proof.
  unfold aligned. rewrite !page_number_eq. change TARGET_PAGE_SIZE with 4096. intros Aa Hk. pose proof (Z.div_mod a 4096 ltac:(done)) as E.
  replace (a + k) with (k + a / 4096 * 4096) by lia. rewrite Z.div_add by lia. rewrite (Z.div_small k) by lia. lia.
Qed.

Definition ram_addr (r : Z) : Prop := exists p, ram_host r p.

Lemma wpc_get_page_addr_code X s n addr (Q : Z -> cache -> Prop) :
  tlbs_ok s -> has_env s n -> walks s.(host_mem) -> in_u 64 addr -> X.(on_longjmp) s ->
  (~ in_memory n (Z.land addr TARGET_PAGE_MASK) -> X.(on_error) TcgAbort) ->
  (forall phys s', tlb_changed s s' -> tlbs_ok s' -> ram_host phys (host_of n addr) ->
     phys mod TARGET_PAGE_SIZE = addr mod TARGET_PAGE_SIZE -> Q phys s') ->
  wpc (get_page_addr_code n addr) Q X s.
Proof.
  intros Ht Hn Hw Ha HX HE HQ. apply wpc_bind, wpc_gets. set (m := cpu_mmu_index n s). pose proof (mo_mode HM n s : in_modes m = true) as Hm.
  pose proof Hn as [c Hc]. apply wpc_bind. eapply wpc_get_cpu; [done|]. apply wpc_bind.
  eapply (wpc_mono _ _ (fun _ s1 => tlb_changed s s1 /\ tlbs_ok s1 /\
    exists e, entry_at s1 n m (tlb_index addr) = Some e /\ executes_at addr e)).
  { apply wpc_when; intros E.
    - apply wpc_cpu_ldub_code; try done. intros s' e H1 H2 H3 H4. split_and!; [done|done|by exists e].
    - apply negb_false_iff, Z.eqb_eq in E. split_and!; [apply tlb_changed_refl|done|]. exists (c.(tlb_table) m (tlb_index addr)).
      split; [unfold entry_at; by rewrite Hc|]. split; [|unfold code_tag; rewrite E; apply mask_aligned, aligned_mask].
      intros H. rewrite H in E. pose proof (aligned_mask addr) as Al. rewrite <- E in Al. vm_compute in Al. discriminate Al. }
  intros [] s1 (T1 & O1 & e & He & Hx). destruct (entry_at_ok s1 n m _ e O1 (tlb_index_in m addr Hm) He) as (c1 & Hc1 & Ee & Hok).
  apply wpc_bind. eapply wpc_get_cpu; [done|]. rewrite Ee. destruct (executes_host n _ _ _ e _ addr Hok Hx) as (Emod & E & Hu).
  destruct (memory_region_is_unassigned _) eqn:Eu; [apply HE; intros Hi; specialize (Hu Hi); unfold page_offset in Hu; congruence|].
  unfold qemu_ram_addr_from_host_nofail. destruct (qemu_ram_addr_from_host _) as [r|] eqn:Er.
  - apply wpc_ret. apply ram_from_host in Er; [|by apply wrap_range]. pose proof (ram_host_bound _ _ Er) as (_ & _ & Em).
    by apply HQ; [..|rewrite <- E|congruence].
  - apply HE. intros [r Hr]. assert (ram_host (r + page_offset addr) (host_of n addr)) as Hrh.
    { apply ram_host_step; [by apply host_map_ram|]. apply page_number_step; [|apply page_split]. by apply (phys_ram_aligned (phys_map n (Z.land addr TARGET_PAGE_MASK))). }
    rewrite <- E in Hrh. apply ram_from_host in Hrh; [congruence|by apply wrap_range].
Qed.

(** ** Protection of a page with code *)

Record protected (p : Z) (s s' : cache) : Prop := {
  pr_eq : s' = set_cpus s'.(cpus) (set_memory s'.(phys_dirty) s.(host_mem) s);
  pr_rest : cpu_rest <$> s'.(cpus) = cpu_rest <$> s.(cpus);
  pr_other : forall q, q <> p -> s'.(phys_dirty) q = s.(phys_dirty) q;
  pr_clean : ~ code_dirty s'.(phys_dirty) p
}.

Lemma page_align_next a : aligned a -> in_u 52 a -> TARGET_PAGE_ALIGN (a + TARGET_PAGE_SIZE) = a + TARGET_PAGE_SIZE.
Proof.
  unfold TARGET_PAGE_ALIGN, aligned, in_u. change TARGET_PAGE_SIZE with 4096. intros Ha Hb. rewrite wrap_id by (unfold in_u; lia).
  rewrite page_mask_eq. change TARGET_PAGE_SIZE with 4096. replace (a + 4096 + 4096 - 1) with (4095 + (a / 4096 + 1) * 4096) by (pose proof (Z.div_mod a 4096); lia).
  rewrite Z.mod_add by lia. change (4095 mod 4096) with 4095. pose proof (Z.div_mod a 4096). lia.
Qed.

Lemma block_page_end b a : b ∈ ram_blocks -> block_has b a -> aligned a -> block_has b (a + TARGET_PAGE_SIZE - 1).
Proof.
  intros Hb Hh Aa. apply (block_page b a); [done|done|]. unfold aligned in Aa. change TARGET_PAGE_SIZE with 4096 in *.
  pose proof (Z.div_mod a 4096). replace (a + 4096 - 1) with (4095 + a / 4096 * 4096) by lia. by rewrite Z.div_add by lia.
Qed.

Lemma same_page_range a r : aligned a -> r / TARGET_PAGE_SIZE = a / TARGET_PAGE_SIZE -> a <= r < a + TARGET_PAGE_SIZE.
Proof.
  unfold aligned. change TARGET_PAGE_SIZE with 4096. intros Aa E. pose proof (Z.div_mod r 4096). pose proof (Z.div_mod a 4096).
  pose proof (Z.mod_pos_bound r 4096). lia.
Qed.

Lemma reset_entry_ok n wps d d' p b a i e io :
  b ∈ ram_blocks -> block_has b a -> aligned a -> p = page_number a -> (forall q, q <> p -> d' q = d q) -> entry_ok n wps d i e io ->
  entry_ok n wps d' i (tlb_reset_dirty_range (b.(block_host) + (a - b.(block_offset))) TARGET_PAGE_SIZE e) io.
Proof.
  intros Hb Hh Aa -> Hd [E1 E2 E3 E4 E5]. unfold tlb_reset_dirty_range. destruct (tlb_is_dirty_ram e) eqn:Ed.
  - destruct (_ <? _) eqn:Er.
    + assert (write_tag (set_addr_write (Z.lor e.(addr_write) TLB_NOTDIRTY) e) = write_tag e) as Et by apply tag_notdirty.
      split; [exact (code_entry_kept _ _ _ _ _ E1)|unfold set_addr_write; by rewrite flagged_not_dirty|..]; rewrite ?ram_entry_notdirty, ?valid_notdirty; unfold host_page;
        rewrite ?Et; [exact E3|exact E4|exact E5].
    + split; [exact E1| |exact E3|exact E4|exact E5]. intros _ r Hr. unfold code_dirty. rewrite Hd; [by apply E2|]. intros Ep.
      destruct (mo_block HM b Hb) as (H1 & H2 & H3 & H4 & _). rewrite !page_number_eq in Ep.
      pose proof (block_page b a r Hb Hh (eq_sym Ep)) as Hbr. destruct Hr as (b' & Hb' & Hh' & Ehp).
      assert (b' = b) as -> by (by eapply (mo_apart HM)). fold (write_tag e) (host_page e) in Er. rewrite Ehp in Er.
      pose proof (same_page_range a r Aa Ep). pose proof (block_page_end b a Hb Hh Aa). unfold block_has in *.
      apply not_true_iff_false in Er. apply Er, in_range_u64; unfold in_u; lia.
  - split; [exact E1|congruence|exact E3|exact E4|exact E5].
Qed.

Lemma wpc_tlb_protect_code X s a (Q : unit -> cache -> Prop) :
  tlbs_ok s -> ram_addr a -> aligned a -> (forall s', protected (page_number a) s s' -> tlbs_ok s' -> Q tt s') ->
  wpc (tlb_protect_code a) Q X s.
Proof.
  intros Ht [p Hp] Aa HQ. pose proof (ram_host_bound _ _ Hp) as (Ha & _ & _). destruct Hp as (b & Hb & Hh & _).
  unfold tlb_protect_code, cpu_physical_memory_reset_dirty. rewrite page_align_next, mask_aligned by done.
  replace (u64 (a + TARGET_PAGE_SIZE - a)) with TARGET_PAGE_SIZE by (replace (a + TARGET_PAGE_SIZE - a) with TARGET_PAGE_SIZE by lia; done).
  apply wpc_when; [intros _|done]. apply wpc_bind. unfold cpu_physical_memory_mask_dirty_range.
  rewrite page_align_next, mask_aligned by done.
  replace (Z.to_nat ((a + TARGET_PAGE_SIZE - a) / TARGET_PAGE_SIZE)) with 1%nat by (replace (a + TARGET_PAGE_SIZE - a) with TARGET_PAGE_SIZE by lia; done).
  cbn [pages_from seq fmap list_fmap ceach]. apply wpc_bind, wpc_modify, wpc_ret.
  replace (a + Z.of_nat 0 * TARGET_PAGE_SIZE) with a by lia. set (s1 := set_memory _ _ s).
  destruct (mo_block HM b Hb) as (H1 & H2 & H3 & H4 & A1 & A2 & A3).
  apply wpc_bind. apply (wpc_qemu_get_ram_block X a b); [done|unfold in_u in *; lia|done|].
  apply wpc_bind. apply (wpc_qemu_get_ram_block X _ b); [done|unfold in_u in *; change TARGET_PAGE_SIZE with 4096; lia| |].
  { by apply block_page_end. }
  apply wpc_bind, wpc_assert; [by apply bool_decide_eq_true|]. apply wpc_modify, HQ.
  - assert (cpu_rest <$> ((fun c => set_tlb (map_tlb in_tlb (tlb_reset_dirty_range (u64 (b.(block_host) + (a - b.(block_offset)))) TARGET_PAGE_SIZE)
      c.(tlb_table)) c.(iotlb) c) <$> s1.(cpus)) = cpu_rest <$> s.(cpus)) as E by (rewrite <- list_fmap_compose; done).
    split; [done|exact E| |].
    + intros q Hq. cbn [phys_dirty set_cpus set_memory s1]. unfold set_dirty_entry. by rewrite (proj2 (Z.eqb_neq _ _)).
    + unfold code_dirty. cbn [phys_dirty set_cpus set_memory s1]. unfold set_dirty_entry. rewrite Z.eqb_refl, Z.land_spec.
      change (Z.testbit (Z.lnot CODE_DIRTY_FLAG) 1) with false. rewrite andb_false_r. discriminate.
  - intros n c Hc m i Hin. cbn [cpus set_cpus] in Hc. rewrite list_lookup_fmap in Hc. apply fmap_Some in Hc as (c0 & Hc0 & ->).
    cbn [tlb_table set_tlb iotlb]. unfold map_tlb. rewrite Hin.
    unfold block_has in Hh. rewrite wrap_id by (unfold in_u; lia).
    apply (reset_entry_ok n _ s.(phys_dirty) _ (page_number a)); [done|done|done|done| |exact (Ht n c0 Hc0 m i Hin)].
    intros q Hq. cbn [phys_dirty set_cpus set_memory s1]. unfold set_dirty_entry. by rewrite (proj2 (Z.eqb_neq _ _)).
Qed.
End TlbInv.
