(* ===== verification/TbGen.v ===== *)
(** * New blocks

    [tb_gen_code] makes one more block live, after a flush of all blocks where the
    buffer is full.  [full_inv] adds to the invariant of the cache that pages with code
    are protected. *)

From S2P Require Import Prelude QtraceDefs TlbLoad IContext TbState TbPages Tlb TbCache TbLogic TbLinks TbInv TbJumps TbInvalidate TlbInv.

(** What [code_gen_alloc] provides. *)
Record gen_ok (G : code_gen) : Prop := {
  go_start : 0 <= G.(code_gen_buffer);
  go_end : G.(code_gen_buffer) + G.(code_gen_buffer_size) < 2 ^ 64;
  go_size : G.(code_gen_buffer_size) <= 2 ^ 31 - 8;
  go_reserve : G.(code_gen_buffer_max_size) = G.(code_gen_buffer_size) - TCG_MAX_OP_SIZE * OPC_BUF_SIZE;
  go_room : 0 < G.(code_gen_buffer_max_size);
  go_blocks : 0 < G.(code_gen_max_blocks)
}.

Lemma code_gen_alloc_ok low tb_size ram_size buf :
  0 <= buf -> buf + 2 ^ 31 < 2 ^ 64 -> gen_ok (code_gen_alloc low tb_size ram_size buf).
Proof.
  intros H1 H2. assert (1024 * 1024 <= size_code_gen_buffer tb_size ram_size <= 2 ^ 31) as Hs.
  { unfold size_code_gen_buffer, MIN_CODE_GEN_BUFFER_SIZE, MAX_CODE_GEN_BUFFER_SIZE. cbn zeta.
    repeat match goal with |- context [if ?b then _ else _] => destruct b eqn:? end; lia. }
  unfold code_gen_alloc. set (z := size_code_gen_buffer tb_size ram_size) in *. cbn zeta.
  assert (1024 * 1024 <= (if low && (800 * 1024 * 1024 <? z) then 800 * 1024 * 1024 else z) <= 2 ^ 31) as Hz by (destruct (low && _); lia).
  set (y := if low && _ then _ else _) in *. clearbody y.
  split; cbn; unfold TCG_MAX_OP_SIZE, OPC_BUF_SIZE; try lia. change CODE_GEN_AVG_BLOCK_SIZE with 512. apply Z.div_str_pos. lia.
Qed.

Section Gen.
Context {machine : Machine} {mapping : Mapping} {translator : Translator} (G : code_gen).
Context (HM : machine_ok) (HG : gen_ok G).

(** A block is at most a page of guest code; its host code fits into the reserve at the
    end of the buffer; its jumps lie in its code, and their offsets fit the fields. *)
Record exit_ok (len : Z) (e : Z * Z) : Prop := {
  xo_jump : 0 <= e.1 /\ e.1 + 4 <= len /\ e.1 < 2 ^ 16;
  xo_next : 0 <= e.2 <= len /\ e.2 < 0xffff
}.
Record generated_ok (g : generated) : Prop := {
  gk_size : 1 <= g.(gen_size) <= TARGET_PAGE_SIZE;
  gk_len : Z.of_nat (length g.(gen_code)) + CODE_GEN_ALIGN <= TCG_MAX_OP_SIZE * OPC_BUF_SIZE;
  gk_exit1 : forall e, g.(gen_exits).1 = Some e -> exit_ok (Z.of_nat (length g.(gen_code))) e;
  gk_exit2 : forall e, g.(gen_exits).2 = Some e -> exit_ok (Z.of_nat (length g.(gen_code))) e;
  gk_apart : forall e1 e2, g.(gen_exits) = (Some e1, Some e2) -> e1.1 + 4 <= e2.1 \/ e2.1 + 4 <= e1.1
}.
Definition translator_ok : Prop := forall env tb s g, generate env tb s = Some g -> generated_ok g.
Context (HT : translator_ok).

(** No page with code may be written unnoticed. *)
Definition code_clean (s : cache) (L : nat -> Prop) : Prop :=
  forall x p, page_on s L x p -> ~ code_dirty s.(phys_dirty) p.

(** Block [tb] was translated from the pages that its program counter maps to. *)
Definition fits (n : nat) (tb : TranslationBlock) : Prop :=
  ram_host tb.(page_addr).1 (host_map n (Z.land tb.(tb_pc) TARGET_PAGE_MASK)) /\
  (tb.(page_addr).2 <> no_page -> ram_host tb.(page_addr).2 (host_map n (u64 (Z.land tb.(tb_pc) TARGET_PAGE_MASK + TARGET_PAGE_SIZE)))).
Definition caches_fit (s : cache) : Prop :=
  forall n c h t, s.(cpus) !! n = Some c -> c.(tb_jmp_cache) !! h = Some t -> fits n (tb_at s t).

Lemma caches_fit_frame s s' :
  (forall n c' h t, s'.(cpus) !! n = Some c' -> c'.(tb_jmp_cache) !! h = Some t ->
     (exists c, s.(cpus) !! n = Some c /\ c.(tb_jmp_cache) !! h = Some t) /\ core (tb_at s' t) = core (tb_at s t)) ->
  caches_fit s -> caches_fit s'.
Proof.
  intros H F n c' h t Hc Ht. destruct (H n c' h t Hc Ht) as [(c & Hc0 & Ht0) E]. unfold fits.
  rewrite (f_equal page_addr E : (tb_at s' t).(page_addr) = (tb_at s t).(page_addr)), (f_equal tb_pc E : (tb_at s' t).(tb_pc) = (tb_at s t).(tb_pc)).
  by apply (F n c h t).
Qed.
Lemma caches_lookup s s' n c' h t : unch Caches s s' -> s'.(cpus) !! n = Some c' -> c'.(tb_jmp_cache) !! h = Some t ->
  exists c, s.(cpus) !! n = Some c /\ c.(tb_jmp_cache) !! h = Some t.
Proof.
  intros E Hc Ht. assert ((tb_jmp_cache <$> s'.(cpus)) !! n = Some c'.(tb_jmp_cache)) as H by by rewrite list_lookup_fmap, Hc.
  rewrite E, list_lookup_fmap in H. destruct (s.(cpus) !! n) as [c|]; [|done]. injection H as H. exists c. by rewrite H.
Qed.
Lemma caches_fit_unch s s' : unch Caches s s' -> unch Core s s' -> caches_fit s -> caches_fit s'.
Proof. intros Hca Hc. apply caches_fit_frame. intros n c' h t H1 H2. split; [by eapply caches_lookup|apply Hc]. Qed.

Record full_inv (s : cache) (L : nat -> Prop) (J : tagged -> option nat) : Prop := {
  fi_cache : cache_inv G s L J;
  fi_tlbs : tlbs_ok s;
  fi_clean : code_clean s L;
  fi_fit : caches_fit s
}.

(** ** Flushing all blocks *)

Lemma empty_inv s :
  s.(nb_tbs) = 0%nat -> s.(code_gen_ptr) = G.(code_gen_buffer) -> length s.(tbs) = Z.to_nat G.(code_gen_max_blocks) ->
  s.(tb_phys_hash) = ∅ -> (forall p, page_of s p = zero_page) -> (forall c, c ∈ s.(cpus) -> c.(tb_jmp_cache) = ∅) ->
  (forall c, s.(current_cpu) = Some c -> (c < length s.(cpus))%nat) -> tlbs_ok s -> full_inv s (fun _ => False) (fun _ => None).
Proof.
  intros H1 H2 H3 H4 H5 H6 H7 H8. destruct HG as [G1 G2 G3 G4 G5 G6].
  assert (0 <= TCG_MAX_OP_SIZE * OPC_BUF_SIZE) as Hr by done.
  assert (caches_fit s) as F by (intros n c h t Hc Ht; rewrite H6 in Ht; [by rewrite lookup_empty in Ht|by eapply list_elem_of_lookup_2]).
  split; [|done|by intros x p []|done]. split; try done.
  - split; try done; try lia.
  - split; [|by intros n h h' []|done|done]. intros h _. exists []. cbn [chain]. cbn [ls_head hash_lists]. rewrite H4.
    split; [apply lookup_empty|]. intros n. split; [by intros ?%not_elem_of_nil|by intros []].
  - split; [|by intros n h h' []|by intros n h []|done]. intros p _. exists []. cbn [chain].
    change (ls_head s p) with (page_of s p).(first_tb). rewrite H5. split; [done|].
    intros n. split; [by intros ?%not_elem_of_nil|by intros []].
  - split; [|done|done]. split; [done|by intros n h h' []|by intros n h []|done].
  - intros p tab Hp. rewrite H5. done.
  - intros c h t Hc. rewrite H6 by done. by rewrite lookup_empty.
Qed.

Lemma wpc_tb_flush X s L J (Q : unit -> cache -> Prop) :
  full_inv s L J ->
  (forall s', full_inv s' (fun _ => False) (fun _ => None) -> s'.(nb_tbs) = 0%nat -> s'.(host_mem) = s.(host_mem) ->
     cpu_tlb <$> s'.(cpus) = cpu_tlb <$> s.(cpus) -> length s'.(cpus) = length s.(cpus) ->
     s'.(tbs) = s.(tbs) -> s'.(current_cpu) = s.(current_cpu) -> Q tt s') ->
  wpc (tb_flush G) Q X s.
Proof.
  intros [I T C _] HQ. pose proof (ci_layout _ _ _ _ I) as Y. pose proof (ly_ptr G s L Y) as Hp.
  destruct HG as [G1 G2 G3 G4 G5 G6]. apply wpc_bind, wpc_gets.
  rewrite wrap_id by (unfold in_u; lia). rewrite (proj2 (Z.ltb_ge _ _)) by lia.
  do 5 (apply wpc_bind, wpc_modify). apply wpc_modify. apply HQ; try done.
  - apply empty_inv; try done.
    + apply (ly_bound G s L Y).
    + intros p. apply page_in_flush.
    + intros c (c0 & -> & _)%list_elem_of_fmap. done.
    + intros c Hc. cbn [cpus set_counts set_code_gen_ptr set_l1_map set_tb_phys_hash set_cpus set_nb_tbs].
      rewrite length_fmap. by apply (ci_cpu _ _ _ _ I).
    + intros k c Hc. cbn [cpus set_counts set_code_gen_ptr set_l1_map set_tb_phys_hash set_cpus set_nb_tbs] in Hc.
      rewrite list_lookup_fmap in Hc. apply fmap_Some in Hc as (c0 & Hc0 & ->). exact (T k c0 Hc0).
  - cbn [cpus set_counts set_code_gen_ptr set_l1_map set_tb_phys_hash set_cpus set_nb_tbs]. by rewrite <- list_fmap_compose.
  - cbn [cpus set_counts set_code_gen_ptr set_l1_map set_tb_phys_hash set_cpus set_nb_tbs]. apply length_fmap.
Qed.

(** ** Blocks that are not yet live *)

(** Only blocks that are not live have changed. *)
Record live_same (L : nat -> Prop) (s s' : cache) : Prop := {
  ls_blocks : forall t, L t -> tb_at s' t = tb_at s t;
  ls_hash : s'.(tb_phys_hash) = s.(tb_phys_hash);
  ls_pages : forall p, page_of s' p = page_of s p;
  ls_cpus : s'.(cpus) = s.(cpus);
  ls_current : s'.(current_cpu) = s.(current_cpu);
  ls_dirty : s'.(phys_dirty) = s.(phys_dirty);
  ls_mem : s'.(host_mem) = s.(host_mem)
}.

Lemma live_page_on L s s' x p : (forall t, L t -> tb_at s' t = tb_at s t) -> page_on s' L x p <-> page_on s L x p.
Proof. intros E. unfold page_on. split; intros (HL & H); (split; [done|]); rewrite E in *; done. Qed.

Lemma full_inv_live s s' L J :
  live_same L s s' -> (forall x, L x.1 -> has_exit s x -> dest_at s'.(host_code) (jmp_field s x) = jump_dest s x) ->
  layout G s' L -> full_inv s L J -> full_inv s' L J.
Proof.
  intros [E1 E2 E3 E4 E5 E6 E7] Hd Y [[I1 I2 I3 I4 I5 I6 I7 I8] T C F].
  assert (forall x, L x.1 -> jnext s' x = jnext s x) as Hj by (intros x Hx; unfold jnext; by rewrite E1).
  assert (forall x, L x.1 -> has_exit s' x <-> has_exit s x) as Hx by (intros x H; unfold has_exit; by rewrite E1).
  split; [split|intros c; rewrite E4, E6; apply T| |]; try done.
  - revert I2. apply lists_ext; [intros h _; cbn [ls_head hash_lists]; by rewrite E2| |done|].
    + intros n h [HL _]. unfold ls_next, hash_lists, hnext. by rewrite E1.
    + intros n h. unfold hash_on. split; intros [HL H]; (split; [done|]); rewrite E1 in *; done.
  - revert I3. apply lists_ext; [intros p _; unfold ls_head, page_lists; by rewrite E3| |done|].
    + intros n p [HL _]. unfold ls_next, page_lists, pnext. by rewrite E1.
    + intros n p. by apply live_page_on.
  - destruct I4 as [J1 J2 J3]. split.
    + revert J1. apply lists_ext; [intros t Ht; unfold ls_head, jmp_lists; by rewrite E1| |done|done].
      intros [u n] t [Ht [H|[_ H]]]; [injection H as -> ->; done|]. apply Hj. by destruct (J2 _ _ H).
    + intros x t H. destruct (J2 x t H) as (A1 & A2 & A3). split_and!; [done|done|by apply Hx].
    + intros x H1 H2 H3. rewrite Hj by done. by apply J3.
  - intros x H1 H2%Hx; [|done]. unfold jump_dest. assert (jmp_field s' x = jmp_field s x) as -> by (unfold jmp_field; by rewrite E1).
    rewrite Hd, I5 by done. destruct (J x) as [t|] eqn:EJ.
    + destruct I4 as [_ J2 _]. destruct (J2 _ _ EJ) as (_ & Ht & _). by rewrite E1.
    + unfold exit_code. by rewrite E1.
  - intros p tab Hp. rewrite E3. intros Et. destruct (I6 p tab Hp Et) as [Hl Hb]. split; [done|]. intros x i Hon.
    rewrite E1 by apply Hon. by apply Hb, (live_page_on L s s').
  - intros c. rewrite E5, E4. apply I7.
  - intros c h t. rewrite E4. intros H1 H2. destruct (I8 c h t H1 H2) as [H3 H4]. rewrite E1 by done. done.
  - intros x p Hon. rewrite E6. by apply (C x), (live_page_on L s s').
  - revert F. apply caches_fit_frame. intros n c h t. rewrite E4. intros H1 H2. split; [by exists c|].
    destruct (I8 c h t) as [H3 _]; [by eapply list_elem_of_lookup_2|done|]. by rewrite E1.
Qed.

Lemma dead_new s L : layout G s L -> ~ L s.(nb_tbs).
Proof. intros Y H. pose proof (ly_live G s L Y _ H). lia. Qed.

(** A block has been allocated and its code starts at [code_gen_ptr]. *)
Definition allocated (pc cs fl cf : Z) (s : cache) : cache :=
  write_tb s.(nb_tbs) (set_context s.(code_gen_ptr) cs fl cf) (write_tb s.(nb_tbs) (set_alloc pc) (set_nb_tbs (S s.(nb_tbs)) s)).

Lemma allocated_at pc cs fl cf s t : (s.(nb_tbs) < length s.(tbs))%nat ->
  tb_at (allocated pc cs fl cf s) t =
    if decide (t = s.(nb_tbs)) then set_context s.(code_gen_ptr) cs fl cf (set_alloc pc (tb_at s t)) else tb_at s t.
Proof.
  intros H. unfold allocated. rewrite write_tb_at by (rewrite write_tb_length; done).
  rewrite !write_tb_at by done. case_decide as E; [|done]. subst. by rewrite decide_True.
Qed.

Lemma allocated_inv pc cs fl cf s L J (s' := allocated pc cs fl cf s) :
  full_inv s L J -> (s.(nb_tbs) < length s.(tbs))%nat -> full_inv s' L J /\ live_same L s s' /\ s'.(host_code) = s.(host_code).
Proof.
  intros I Hn. pose proof (ci_layout _ _ _ _ (fi_cache _ _ _ I)) as Y. pose proof (dead_new s L Y) as Hd.
  assert (forall t, t <> s.(nb_tbs) -> tb_at s' t = tb_at s t) as Hat by (intros t Ht; unfold s'; rewrite allocated_at by done; by rewrite decide_False).
  assert ((tb_at s' s.(nb_tbs)).(tc_ptr) = s.(code_gen_ptr)) as Hnew by (unfold s'; rewrite allocated_at by done; by rewrite decide_True).
  assert (live_same L s s') as HL by (split; try done; intros t Ht; apply Hat; by intros ->).
  split_and!; [|done|done]. apply (full_inv_live s s' L J); [done|done| |done].
  destruct Y as [Y1 Y2 Y3 Y4 Y5 Y0 Y6 Y7 Y8 Y9].
  split; try done.
  - unfold s', allocated. rewrite !write_tb_length. cbn [nb_tbs write_tb set_tbs set_nb_tbs tbs]. lia.
  - intros t Ht. cbn [nb_tbs s' allocated write_tb set_tbs set_nb_tbs]. specialize (Y2 t Ht). lia.
  - intros t Ht. rewrite (ls_blocks _ _ _ HL) by done. by apply Y3.
  - intros t Ht. destruct (Y4 t Ht) as [C1 C2 C3 C4 C5]. unfold has_exit, exit_code, jmp_field in *. cbn [fst snd] in *.
    split; unfold has_exit, exit_code, jmp_field; cbn [fst snd]; rewrite (ls_blocks _ _ _ HL) by done; done.
  - intros _. destruct (decide (s.(nb_tbs) = 0%nat)) as [E|E]; [rewrite <- E, Hnew; by apply Y0|].
    rewrite Hat by done. apply Y6. lia.
  - cbn [nb_tbs code_gen_ptr s' allocated write_tb set_tbs set_nb_tbs]. intros t Ht.
    destruct (decide (t = s.(nb_tbs))) as [->|Hne]; [rewrite Hnew; lia|]. rewrite Hat by done. apply Y7. lia.
  - cbn [nb_tbs s' allocated write_tb set_tbs set_nb_tbs]. intros t u Htu. rewrite (Hat t) by lia.
    destruct (decide (u = s.(nb_tbs))) as [->|Hne].
    + rewrite Hnew. split; [apply Y7; lia|]. intros Ht. apply (Y4 t Ht).
    + rewrite (Hat u) by done. apply Y8. lia.
Qed.

(** ** Generated code *)

Lemma code_align_range p : 0 <= p -> p + CODE_GEN_ALIGN < 2 ^ 64 -> p <= code_align p < p + CODE_GEN_ALIGN.
Proof.
  unfold code_align. change CODE_GEN_ALIGN with 16. intros H1 H2. rewrite wrap_id by (unfold in_u; lia).
  change (Z.lnot (16 - 1)) with (Z.lnot (Z.ones 4)). rewrite <- Z.ldiff_land, Z.ldiff_ones_r, Z.shiftr_div_pow2, Z.shiftl_mul_pow2 by done.
  change (2 ^ 4) with 16. pose proof (Z.div_mod (p + 16 - 1) 16). pose proof (Z.mod_pos_bound (p + 16 - 1) 16). lia.
Qed.

Definition with_code (g : generated) (tb : TranslationBlock) : TranslationBlock :=
  set_generated (u16 g.(gen_size)) (qtrace_offsets tb.(qtrace_next_offset) g.(gen_qtrace))
    (next_offset g.(gen_exits).1, next_offset g.(gen_exits).2)
    (jmp_offset g.(gen_exits).1 tb.(tb_jmp_offset).1, jmp_offset g.(gen_exits).2 tb.(tb_jmp_offset).2) g.(gen_icount) tb.

Definition code_len (g : generated) : Z := Z.of_nat (length g.(gen_code)).

(** Code has been generated for block [n]. *)
Definition coded (n : nat) (g : generated) (s : cache) : cache :=
  let tc := (tb_at s n).(tc_ptr) in
  let s1 := write_tb n (with_code g) s in
  let s2 := write_tb n (set_tc_end_ptr (tc + code_len g)) (set_host_code (write_code tc g.(gen_code) s1.(host_code)) s1) in
  set_code_gen_ptr (code_align (s2.(code_gen_ptr) + code_len g)) s2.

Lemma coded_at n g s t : (n < length s.(tbs))%nat ->
  tb_at (coded n g s) t =
    if decide (t = n) then set_tc_end_ptr ((tb_at s n).(tc_ptr) + code_len g) (with_code g (tb_at s n)) else tb_at s t.
Proof.
  intros H. unfold coded. set (s1 := write_tb n (with_code g) s).
  change (tb_at (set_code_gen_ptr _ ?x) t) with (tb_at x t).
  rewrite write_tb_at by (cbn [tbs set_host_code s1 write_tb set_tbs]; by rewrite length_insert).
  case_decide as E; (change (tb_at (set_host_code _ s1)) with (tb_at s1); unfold s1; rewrite write_tb_at by done).
  - by rewrite decide_True.
  - by rewrite decide_False.
Qed.

(** Block [t] has the code [g] that was generated in state [s0]; its jumps are apart. *)
Record translation (env t : nat) (s0 : cache) (tb0 : TranslationBlock) (g : generated) (s : cache) : Prop := {
  tr_generate : generate env tb0 s0 = Some g;
  tr_context : (tb0.(tb_pc), tb0.(tb_cs_base), tb0.(tb_flags), tb0.(tb_cflags), tb0.(tc_ptr)) =
    ((tb_at s t).(tb_pc), (tb_at s t).(tb_cs_base), (tb_at s t).(tb_flags), (tb_at s t).(tb_cflags), (tb_at s t).(tc_ptr));
  tr_size : (tb_at s t).(tb_size) = g.(gen_size);
  tr_end : (tb_at s t).(tc_end_ptr) = (tb_at s t).(tc_ptr) + code_len g;
  tr_next : (tb_at s t).(tb_next_offset) = (next_offset g.(gen_exits).1, next_offset g.(gen_exits).2);
  tr_code : forall i b, g.(gen_code) !! i = Some b -> in_body s t ((tb_at s t).(tc_ptr) + Z.of_nat i) ->
    s.(host_code) ((tb_at s t).(tc_ptr) + Z.of_nat i) = b
}.

Lemma translation_kept env t s0 tb0 g s s' :
  core (tb_at s' t) = core (tb_at s t) -> body_kept s s' t -> translation env t s0 tb0 g s -> translation env t s0 tb0 g s'.
Proof.
  intros E B [H1 H2 H3 H4 H5 H6].
  assert (forall {A} (f : TranslationBlock -> A), (forall b, f (core b) = f b) -> f (tb_at s' t) = f (tb_at s t)) as F
    by (intros A f Hf; by rewrite <- Hf, E).
  split; rewrite ?(F _ tb_pc), ?(F _ tb_cs_base), ?(F _ tb_flags), ?(F _ tb_cflags), ?(F _ tc_ptr), ?(F _ tb_size), ?(F _ tc_end_ptr),
    ?(F _ tb_next_offset) by done; try done.
  intros i b Hb Hin%(in_body_block s s'); [|done]. rewrite B by done. by apply H6.
Qed.

Lemma exit_fields len e old : (forall x, e = Some x -> exit_ok len x) -> next_offset e <> 0xffff ->
  exists x, e = Some x /\ exit_ok len x /\ next_offset e = x.2 /\ jmp_offset e old = x.1.
Proof.
  intros He Hn. destruct e as [[j o]|]; [|done]. specialize (He _ eq_refl). pose proof He as [[A1 [A2 A3]] [B1 B2]]. cbn [fst snd] in *.
  exists (j, o). cbn [next_offset jmp_offset fst snd]. rewrite !wrap_id by (unfold in_u; change (2 ^ 16) with 65536; lia). done.
Qed.

Lemma coded_code_ok n g s : (n < length s.(tbs))%nat -> generated_ok g -> G.(code_gen_buffer) <= (tb_at s n).(tc_ptr) ->
  (tb_at s n).(tc_ptr) + code_len g <= (coded n g s).(code_gen_ptr) -> code_ok G (coded n g s) n.
Proof.
  intros Hn [K1 K2 K3 K4 K5] H1 H2. fold (code_len g) in *.
  assert (tb_at (coded n g s) n = set_tc_end_ptr ((tb_at s n).(tc_ptr) + code_len g) (with_code g (tb_at s n))) as E
    by (rewrite coded_at by done; by rewrite decide_True).
  unfold code_len in *. split; unfold has_exit, exit_code, jmp_field; cbn [fst snd]; rewrite E;
    cbn [tc_ptr tc_end_ptr tb_next_offset tb_jmp_offset set_tc_end_ptr with_code set_generated]; [done|lia| | |].
  - intros [|[|k]] [Hk Hx]; cbn [at2 fst snd] in *; [| |lia].
    + destruct (exit_fields _ _ 0 K3 Hx) as (x & _ & [_ [B1 B2]] & -> & _). lia.
    + destruct (exit_fields _ _ 0 K4 Hx) as (x & _ & [_ [B1 B2]] & -> & _). lia.
  - intros [|[|k]] [Hk Hx]; cbn [at2 fst snd] in *; [| |lia].
    + destruct (exit_fields _ _ (tb_at s n).(tb_jmp_offset).1 K3 Hx) as (x & _ & [[A1 [A2 A3]] _] & _ & ->). lia.
    + destruct (exit_fields _ _ (tb_at s n).(tb_jmp_offset).2 K4 Hx) as (x & _ & [[A1 [A2 A3]] _] & _ & ->). lia.
  - cbn [at2 fst snd]. intros [_ Hx] [_ Hy].
    destruct (exit_fields _ _ (tb_at s n).(tb_jmp_offset).1 K3 Hx) as (x & Ex & _ & _ & ->).
    destruct (exit_fields _ _ (tb_at s n).(tb_jmp_offset).2 K4 Hy) as (y & Ey & _ & _ & ->).
    assert (g.(gen_exits) = (Some x, Some y)) as Eg by (destruct (gen_exits g); cbn in Ex, Ey; congruence).
    specialize (K5 x y Eg). lia.
Qed.

Lemma coded_inv n g s L J (s' := coded n g s) :
  full_inv s L J -> s.(nb_tbs) = S n -> ~ L n -> (tb_at s n).(tc_ptr) = s.(code_gen_ptr) -> generated_ok g ->
  s.(code_gen_ptr) - G.(code_gen_buffer) < G.(code_gen_buffer_max_size) ->
  full_inv s' L J /\ live_same L s s' /\ code_ok G s' n.
Proof.
  intros I Hn Hd Htc Hg Hroom. pose proof (ci_layout _ _ _ _ (fi_cache _ _ _ I)) as Y. pose proof Y as [Y1 Y2 Y3 Y4 Y5 Y0 Y6 Y7 Y8 Y9].
  assert (n < length s.(tbs))%nat as Hlt by lia. pose proof (gk_len g Hg) as Hlen. destruct HG as [G1 G2 G3 G4 G5 G6].
  assert (0 <= code_len g) as Hl0 by (unfold code_len; lia). fold (code_len g) in Hlen. change CODE_GEN_ALIGN with 16 in *.
  change (TCG_MAX_OP_SIZE * OPC_BUF_SIZE) with 122880 in *.
  assert (s'.(code_gen_ptr) = code_align (s.(code_gen_ptr) + code_len g)) as Hptr by done.
  pose proof (code_align_range (s.(code_gen_ptr) + code_len g) ltac:(lia)) as Hal. change CODE_GEN_ALIGN with 16 in Hal. specialize (Hal ltac:(lia)).
  assert (forall t, t <> n -> tb_at s' t = tb_at s t) as Hat by (intros t Ht; unfold s'; rewrite coded_at by done; by rewrite decide_False).
  assert ((tb_at s' n).(tc_ptr) = s.(code_gen_ptr)) as Hnew by (unfold s'; rewrite coded_at by done; by rewrite decide_True).
  assert (forall t, (tb_at s' t).(tc_ptr) = (tb_at s t).(tc_ptr)) as Htcs.
  { intros t. destruct (decide (t = n)) as [->|?]; [by rewrite Hnew|]. by rewrite Hat. }
  assert (live_same L s s') as HL by (split; try done; intros t Ht; apply Hat; by intros ->).
  split_and!; [|done|apply coded_code_ok; try done; rewrite Htc; fold s'; rewrite ?Hptr; lia].
  apply (full_inv_live s s' L J); [done| | |done].
  - intros [t k] Hx Hex. unfold jump_dest, dest_at. cbn [fst] in Hx. destruct (Y4 _ Hx) as [C1 C2 _ C4 _]. destruct (C4 k Hex) as [F1 F2].
    change s'.(host_code) with (write_code (tb_at s n).(tc_ptr) g.(gen_code) s.(host_code)).
    rewrite code_bytes_apart; [done|]. left. rewrite Htc. change (Z.of_nat 4) with 4. lia.
  - split; rewrite ?Hptr; try done.
    + unfold s', coded. cbn [tbs set_code_gen_ptr write_tb set_tbs set_host_code nb_tbs]. rewrite !length_insert. lia.
    + intros t Ht. rewrite Hat by (by intros ->). by apply Y3.
    + intros t Ht. destruct (Y4 t Ht) as [C1 C2 C3 C4 C5]. unfold has_exit, exit_code, jmp_field in *. cbn [fst snd] in *.
      split; unfold has_exit, exit_code, jmp_field; cbn [fst snd]; rewrite ?Hat by (by intros ->); try done. rewrite Hptr. lia.
    + lia.
    + intros H. change (s'.(nb_tbs)) with s.(nb_tbs) in H. lia.
    + intros H. rewrite Htcs. by apply Y6.
    + intros t Ht. rewrite Htcs. specialize (Y7 t Ht). lia.
    + intros t u Htu. rewrite !Htcs. split; [by apply Y8|]. intros Ht. rewrite Hat by (by intros ->). by apply Y8.
Qed.
End Gen.
