(* ===== verification/TbLinkPage.v ===== *)
(** * Linking a new block

    [tb_link_page] puts a block into the hash table and into the lists of its pages,
    and makes its jumps leave it. *)

From S2P Require Import Prelude QtraceDefs TlbLoad IContext TbState TbPages Tlb TbCache TbLogic TbLinks TbInv TbJumps TbInvalidate TlbInv TbGen.

Section LinkPage.
Context {machine : Machine} {mapping : Mapping} {translator : Translator} (G : code_gen).
Context (HM : machine_ok) (HG : gen_ok G).

(** ** Entering the list of a page *)

Record page_added (n k : nat) (a : Z) (s s' : cache) : Prop := {
  pa_other : forall t, t <> n -> tb_at s' t = tb_at s t;
  pa_new : tb_at s' n = set_page_next k (page_of s (page_number a)).(first_tb) (set_page_addr k a (tb_at s n));
  pa_heads : forall q, page_index q ->
    (page_of s' q).(first_tb) = if decide (q = page_number a) then Some (n, k) else (page_of s q).(first_tb);
  pa_bitmaps : forall q, page_index q ->
    (page_of s' q).(code_bitmap) = if decide (q = page_number a) then None else (page_of s q).(code_bitmap);
  pa_hash : s'.(tb_phys_hash) = s.(tb_phys_hash);
  pa_length : length s'.(tbs) = length s.(tbs);
  pa_misc : s'.(nb_tbs) = s.(nb_tbs) /\ s'.(code_gen_ptr) = s.(code_gen_ptr) /\ s'.(host_code) = s.(host_code) /\
            s'.(current_cpu) = s.(current_cpu);
  pa_cpus : cpu_rest <$> s'.(cpus) = cpu_rest <$> s.(cpus);
  pa_mem : s'.(host_mem) = s.(host_mem);
  pa_dirty : forall q, q <> page_number a -> s'.(phys_dirty) q = s.(phys_dirty) q;
  pa_clean : (page_of s (page_number a)).(first_tb) = None \/ ~ code_dirty s.(phys_dirty) (page_number a) ->
    ~ code_dirty s'.(phys_dirty) (page_number a)
}.

Definition with_table (p : Z) (s : cache) : cache := set_l1_map (alloc_in L1_LEVEL s.(l1_map) p) s.

(** The state before the page is protected. *)
Definition entered (n k : nat) (a : Z) (s : cache) : cache :=
  let p := page_number a in
  write_page_st p invalidated_page (write_page_st p (set_first_tb (Some (n, k)))
    (write_tb n (set_page_next k (page_of s p).(first_tb)) (with_table p (write_tb n (set_page_addr k a) s)))).

Lemma entered_at n k a s t : (n < length s.(tbs))%nat ->
  tb_at (entered n k a s) t =
    if decide (t = n) then set_page_next k (page_of s (page_number a)).(first_tb) (set_page_addr k a (tb_at s n)) else tb_at s t.
Proof.
  intros Hn. unfold entered. set (s1 := write_tb n (set_page_addr k a) s).
  change (tb_at (write_page_st _ _ (write_page_st _ _ ?x)) t) with (tb_at x t).
  rewrite write_tb_at by (unfold with_table; cbn [tbs set_l1_map]; unfold s1; by rewrite write_tb_length).
  change (tb_at (with_table _ s1)) with (tb_at s1). unfold s1. rewrite !write_tb_at by done. by case_decide; [rewrite decide_True|].
Qed.

Lemma entered_page n k a s q : page_index (page_number a) -> page_index q ->
  page_of (entered n k a s) q = if decide (q = page_number a) then mkPage (Some (n, k)) 0 None else page_of s q.
Proof.
  intros Hp Hq. unfold entered. set (s1 := write_tb n (set_page_addr k a) s). set (p := page_number a) in *.
  set (s3 := write_tb n _ (with_table p s1)).
  assert (is_Some (find_in L1_LEVEL s3.(l1_map) p)) as H3 by (apply (find_in_alloc L1_LEVEL s1.(l1_map) p)).
  assert (is_Some (find_in L1_LEVEL (write_page_st p (set_first_tb (Some (n, k))) s3).(l1_map) p)) as H4 by (apply (find_in_update_keep L1_LEVEL _ s3.(l1_map) p p H3)).
  rewrite !write_page_at by done. destruct (decide (q = p)) as [E|E]; [by rewrite decide_True by done|].
  change (page_of s3 q) with (page_of (with_table p s1) q). exact (page_of_alloc s1 p q).
Qed.

Lemma wpc_enter_page X s n k a (K : option tagged -> cm unit) (Q : unit -> cache -> Prop) :
  (n < length s.(tbs))%nat -> wpc (K (page_of s (page_number a)).(first_tb)) Q X (entered n k a s) ->
  wpc (upd_tb n (set_page_addr k a) ;; o ← page_find_alloc (page_number a) true; p ← not_null o; d ← get_page p;
       upd_tb n (set_page_next k d.(first_tb)) ;; upd_page p (set_first_tb (Some (n, k))) ;; invalidate_page_bitmap p ;;
       K d.(first_tb)) Q X s.
Proof.
  intros Hn HK. apply wpc_bind, wpc_upd_tb; [done|]. set (p := page_number a) in *. set (s1 := set_tbs _ s).
  apply wpc_bind, wpc_page_alloc, wpc_bind, wpc_not_null, wpc_bind.
  destruct (find_in_alloc L1_LEVEL s1.(l1_map) p) as [d Hd]. eapply wpc_get_page; [exact Hd|].
  assert (d = page_of s p) as ->.
  { pose proof (page_of_alloc s1 p p) as E. unfold page_of, page_in in E. cbn [l1_map set_l1_map] in E. rewrite Hd in E. exact E. }
  apply wpc_bind, wpc_upd_tb; [cbn [tbs set_l1_map s1 set_tbs]; by rewrite length_insert|]. set (s3 := set_tbs _ (set_l1_map _ s1)).
  apply wpc_bind. assert (is_Some (find_in L1_LEVEL s3.(l1_map) p)) as H3 by (eexists; exact Hd).
  refine (wpc_write_page_st X p _ _ s3 H3 _). apply wpc_bind.
  refine (wpc_write_page_st X p _ _ (write_page_st p (set_first_tb (Some (n, k))) s3) (find_in_update_keep L1_LEVEL _ s3.(l1_map) p p H3) _). exact HK.
Qed.

Lemma entered_added n k a s s' (p := page_number a) :
  (n < length s.(tbs))%nat -> page_index p ->
  s' = entered n k a s /\ (page_of s p).(first_tb) <> None \/ protected p (entered n k a s) s' -> page_added n k a s s'.
Proof.
  intros Hn Hp Hs. set (s1 := entered n k a s) in *.
  assert (exists d cs, s' = set_cpus cs (set_memory d s1.(host_mem) s1) /\ cpu_rest <$> cs = cpu_rest <$> s1.(cpus) /\
    (forall q, q <> p -> d q = s1.(phys_dirty) q) /\ ((page_of s p).(first_tb) = None \/ ~ code_dirty s1.(phys_dirty) p -> ~ code_dirty d p))
    as (d & cs & -> & Hcs & Hd & Hcl).
  { destruct Hs as [[-> Hf]|[E1 E2 E3 E4]].
    - exists s1.(phys_dirty), s1.(cpus). split_and!; [by destruct s1|done|done|]. intros [?|?]; done.
    - exists s'.(phys_dirty), s'.(cpus). by split_and!. }
  split; try done.
  - intros t Ht. transitivity (tb_at s1 t); [done|]. unfold s1. rewrite entered_at by done. by rewrite decide_False.
  - transitivity (tb_at s1 n); [done|]. unfold s1. rewrite entered_at by done. by rewrite decide_True.
  - intros q Hq. change (page_of _ q) with (page_of s1 q) at 1. unfold s1. rewrite entered_page by done. by case_decide.
  - intros q Hq. change (page_of _ q) with (page_of s1 q) at 1. unfold s1. rewrite entered_page by done. by case_decide.
  - cbn. by rewrite !length_insert.
Qed.

Lemma wpc_tb_alloc_page X s n k a (Q : unit -> cache -> Prop) :
  tlbs_ok s -> (n < length s.(tbs))%nat -> (k < 2)%nat -> ram_addr a -> aligned a ->
  (forall s', page_added n k a s s' -> tlbs_ok s' -> Q tt s') -> wpc (tb_alloc_page n k a) Q X s.
Proof.
  intros Ht Hn Hk Hr Aa HQ. assert (page_index (page_number a)) as Hp.
  { destruct Hr as [h Hr]. destruct (ram_host_bound HM _ _ Hr) as [Hb _]. apply page_ok_number. split; [done|by apply mask_aligned]. }
  unfold tb_alloc_page. fold (page_number a).
  refine (wpc_enter_page X s n k a (fun f => cwhen (match f with None => true | Some _ => false end) (tlb_protect_code a)) Q Hn _).
  apply wpc_when; intros E.
  - apply (wpc_tlb_protect_code HM); [exact Ht|done|done|]. intros s' Hpr Ht'. apply HQ; [|done]. apply entered_added; [done|done|by right].
  - apply HQ; [|exact Ht]. apply entered_added; [done|done|]. left. split; [done|]. by destruct (first_tb _).
Qed.

(** ** The whole of linking *)

Definition ident (tb : TranslationBlock) :=
  (tb.(tb_pc), tb.(tb_cs_base), tb.(tb_flags), tb.(tb_size), tb.(tb_cflags), tb.(tc_ptr), tb.(tc_end_ptr),
   tb.(tb_next_offset), tb.(tb_jmp_offset)).

(** What the steps of linking block [n] have in common. *)
Record linking (n : nat) (s s' : cache) : Prop := {
  lk_other : forall t, t <> n -> tb_at s' t = tb_at s t;
  lk_ident : ident (tb_at s' n) = ident (tb_at s n);
  lk_length : length s'.(tbs) = length s.(tbs);
  lk_misc : s'.(nb_tbs) = s.(nb_tbs) /\ s'.(code_gen_ptr) = s.(code_gen_ptr) /\ s'.(current_cpu) = s.(current_cpu);
  lk_cpus : cpu_rest <$> s'.(cpus) = cpu_rest <$> s.(cpus);
  lk_mem : s'.(host_mem) = s.(host_mem)
}.

Lemma linking_trans n s1 s2 s3 : linking n s1 s2 -> linking n s2 s3 -> linking n s1 s3.
Proof.
  intros [A1 A2 A3 (A4 & A5 & A6) A7 A8] [B1 B2 B3 (B4 & B5 & B6) B7 B8]. split; try congruence.
  - intros t Ht. by rewrite B1, A1.
  - split_and!; congruence.
Qed.

Lemma linking_write n f s : (forall tb, ident (f tb) = ident tb) -> linking n s (write_tb n f s).
Proof.
  intros Hf. split; try done.
  - intros t Ht. unfold tb_at. cbn [tbs write_tb set_tbs]. by rewrite list_lookup_total_insert_ne.
  - by apply (write_tb_proj ident).
  - apply write_tb_length.
Qed.

Lemma linking_added n k a s s' : page_added n k a s s' -> linking n s s'.
Proof. intros [P1 P2 P3 P4 P5 P6 (P7 & P8 & P9 & P10) P11 P12 P13 P14]. split; try done. by rewrite P2. Qed.

Definition plus_block (L : nat -> Prop) (n u : nat) : Prop := L u \/ u = n.

Section Linked.
Context (s s' : cache) (L : nat -> Prop) (J : tagged -> option nat) (n : nat) (Hlk : linking n s s').
Context (I : full_inv G s L J) (Hdead : ~ L n) (Hnb : s.(nb_tbs) = S n).

Lemma linked_tb t : L t -> tb_at s' t = tb_at s t.
Proof. intros Ht. apply (lk_other _ _ _ Hlk). by intros ->. Qed.

Lemma linked_exit x : (L x.1 \/ x.1 = n) -> (has_exit s' x <-> has_exit s x) /\ exit_code s' x = exit_code s x /\ jmp_field s' x = jmp_field s x.
Proof.
  intros [Hx|Hx]; unfold has_exit, exit_code, jmp_field; [by rewrite linked_tb|]. rewrite Hx.
  pose proof (lk_ident _ _ _ Hlk) as [= E1 E2 E3 E4 E5 E6 E7 E8 E9]. by rewrite E6, E8, E9.
Qed.

Lemma linked_layout : code_ok G s n -> block_ok (tb_at s' n) -> layout G s' (plus_block L n).
Proof.
  intros Hc Hb. pose proof (ci_layout _ _ _ _ (fi_cache _ _ _ _ I)) as [Y1 Y2 Y3 Y4 Y5 Y0 Y6 Y7 Y8 Y9].
  pose proof Hlk as [K1 K2 K3 (K4 & K5 & K6) K7 K8]. injection K2 as E1 E2 E3 E4 E5 E6 E7 E8 E9.
  assert (forall t, (tb_at s' t).(tc_ptr) = (tb_at s t).(tc_ptr) /\ (tb_at s' t).(tc_end_ptr) = (tb_at s t).(tc_end_ptr)) as Ht.
  { intros t. destruct (decide (t = n)) as [->|Hne]; [done|]. by rewrite K1. }
  split; rewrite ?K3, ?K4, ?K5; try done.
  - intros t [?| ->]; [by apply Y2|lia].
  - intros t [H| ->]; [rewrite linked_tb by done; by apply Y3|done].
  - intros t Hl. assert (code_ok G s t) as [C1 C2 C3 C4 C5] by (destruct Hl as [?| ->]; [by apply Y4|done]).
    split; rewrite ?K5; rewrite ?(proj1 (Ht t)), ?(proj2 (Ht t)); try done.
    + intros k. destruct (linked_exit (t, k) Hl) as (-> & -> & _). apply C3.
    + intros k. destruct (linked_exit (t, k) Hl) as (-> & _ & ->). apply C4.
    + destruct (linked_exit (t, 0%nat) Hl) as (-> & _ & ->), (linked_exit (t, 1%nat) Hl) as (-> & _ & ->). done.
  - rewrite (proj1 (Ht 0%nat)). done.
  - intros t Hlt. rewrite (proj1 (Ht t)). by apply Y7.
  - intros t u Htu. rewrite (proj1 (Ht t)), (proj1 (Ht u)), (proj2 (Ht t)). split; [by apply Y8|].
    intros [HL| ->]; [by apply Y8|lia].
Qed.

Lemma linked_jumps : (tb_at s' n).(jmp_first) = Some (n, 2%nat) -> (tb_at s' n).(jmp_next) = (None, None) ->
  jumps_ok s' (plus_block L n) J.
Proof.
  intros Hf Hn. pose proof (ci_jumps _ _ _ _ (fi_cache _ _ _ _ I)) as [J1 J2 J3].
  assert (forall x, L x.1 -> jnext s' x = jnext s x) as Hj by (intros x Hx; unfold jnext; by rewrite linked_tb).
  assert (lists s' L (jmp_on J L)) as J1'.
  { revert J1. apply lists_ext; [intros t Ht; unfold ls_head, jmp_lists; by rewrite linked_tb| |done|done].
    intros [u m] t [Ht [H|[_ H]]]; [injection H as -> ->; done|]. apply Hj. by destruct (J2 _ _ H). }
  assert (forall x, J x <> Some n) as HJn by (intros x H; by destruct (J2 _ _ H) as (_ & ? & _)).
  split.
  - apply (lists_single (LL := jmp_lists) s' L _ (n, 2%nat) n) in J1'; [|done|done| |done|done].
    + revert J1'. apply lists_ext; try done. intros x t. unfold plus, jmp_on, plus_block. specialize (HJn x). split.
      * intros ([Ht| ->] & [->|[H1 H2]]); [by left; split; [|left]|left; split; [done|by right]|by right|congruence].
      * intros [(Ht & H)|[-> ->]]; [split; [by left|done]|]. split; [by right|by left].
    + intros t [Ht [H|[_ H]]]; [injection H as ->; done|]. by destruct (J2 _ _ H).
  - intros x t H. destruct (J2 x t H) as (A1 & A2 & A3). split_and!; [by left|by left|]. by apply linked_exit; [left|].
  - intros x [Hx|Hx] Hx2 HJ; [rewrite Hj by done; by apply J3|]. unfold jnext. rewrite Hx, Hn. by destruct x as [u [|[|m]]].
Qed.

(** The pages of the new block. *)
Definition on_new (x : tagged) (p : Z) : Prop := x.1 = n /\ uses_page (tb_at s' n) x.2 /\ page_of_code (tb_at s' n) x.2 = p.

Lemma linked_page_on x p : page_on s' (plus_block L n) x p <-> page_on s L x p \/ on_new x p.
Proof.
  unfold page_on, on_new, plus_block. split.
  - intros ([Hx|Hx] & H); [left; rewrite linked_tb in H by done; done|right]. by rewrite Hx in H.
  - intros [(Hx & H)|(Hx & H)]; [split; [by left|by rewrite linked_tb]|]. split; [by right|]. by rewrite Hx.
Qed.

Lemma linked_inv h :
  code_ok G s n -> block_ok (tb_at s' n) -> hash_of (tb_at s' n) = h ->
  (tb_at s' n).(jmp_first) = Some (n, 2%nat) -> (tb_at s' n).(jmp_next) = (None, None) ->
  lists s' (fun _ => True) (plus (hash_on s L) n h) -> lists s' page_index (fun x p => page_on s L x p \/ on_new x p) ->
  (forall p, page_index p -> (page_of s' p).(code_bitmap) = None \/
     (page_of s' p).(code_bitmap) = (page_of s p).(code_bitmap) /\ forall x, ~ on_new x p) ->
  (forall x, L x.1 -> has_exit s x -> dest_at s'.(host_code) (jmp_field s x) = jump_dest s x) ->
  (forall k, has_exit s (n, k) -> dest_at s'.(host_code) (jmp_field s (n, k)) = exit_code s (n, k)) ->
  tlbs_ok s' -> (forall p, (exists x, on_new x p) -> ~ code_dirty s'.(phys_dirty) p) ->
  (forall p, ~ code_dirty s.(phys_dirty) p -> ~ code_dirty s'.(phys_dirty) p) ->
  full_inv G s' (plus_block L n) J.
Proof.
  intros Hc Hb Hh Hf Hn Lh Lp Bm D1 D2 T C1 C2. pose proof I as [[I1 I2 I3 I4 I5 I6 I7 I8] _ IC IF].
  assert (J (n, 0%nat) = None /\ J (n, 1%nat) = None) as [JN0 JN1].
  { destruct I4 as [_ J2 _]. split; [destruct (J (n, 0%nat)) eqn:E|destruct (J (n, 1%nat)) eqn:E]; try done; by destruct (J2 _ _ E). }
  split; [split|done| |].
  - by apply linked_layout.
  - revert Lh. apply lists_ext; try done. intros t k. unfold hash_on, plus, plus_block. split.
    + intros ([Ht| ->] & E); [left; by rewrite linked_tb in E|right]. split; [done|congruence].
    + intros [[Ht E]|[-> ->]]; [split; [by left|by rewrite linked_tb]|split; [by right|done]].
  - revert Lp. apply lists_ext; try done. intros x p. apply linked_page_on.
  - by apply linked_jumps.
  - intros x Hx Hex. destruct (linked_exit x Hx) as (Ex & Ec & Ef). apply Ex in Hex. unfold jump_dest. rewrite Ef, Ec.
    destruct Hx as [Hx|Hx].
    + rewrite D1, I5 by done. destruct (J x) as [t|] eqn:EJ; [|done]. destruct I4 as [_ J2 _]. destruct (J2 _ _ EJ) as (_ & Ht & _).
      by rewrite linked_tb.
    + destruct x as [u k]. cbn [fst] in Hx. subst u. rewrite D2 by done. destruct Hex as [Hk _]. cbn [snd] in Hk.
      destruct k as [|[|k]]; [by rewrite JN0|by rewrite JN1|lia].
  - intros p tab Hp Et. destruct (Bm p Hp) as [E|[E Hno]]; [congruence|]. rewrite Et in E. symmetry in E.
    destruct (I6 p tab Hp E) as [Hl Hbits]. split; [done|]. intros x i [Hon|Hon]%linked_page_on; [|by destruct (Hno x)].
    rewrite linked_tb by apply Hon. by apply Hbits.
  - intros c. pose proof (lk_misc _ _ _ Hlk) as (_ & _ & ->). intros Hcc%I7.
    rewrite (caches_length s s'); [done|]. apply rest_caches, Hlk.
  - intros c k t [j Hj]%list_elem_of_lookup Hlkp. pose proof (rest_caches s s' (lk_cpus _ _ _ Hlk)) as Hca.
    assert ((tb_jmp_cache <$> s'.(cpus)) !! j = Some c.(tb_jmp_cache)) as E by by rewrite list_lookup_fmap, Hj.
    cbn in Hca. rewrite Hca, list_lookup_fmap in E. destruct (s.(cpus) !! j) as [c0|] eqn:E0; [|done]. injection E as E.
    destruct (I8 c0 k t) as [H1 H2]; [by eapply list_elem_of_lookup_2|by rewrite E|]. split; [by left|]. by rewrite linked_tb.
  - intros x p [Hon|Hon]%linked_page_on; [by apply C2, (IC x)|]. apply C1. by exists x.
  - revert IF. apply caches_fit_frame. intros j c k t Hj Hlkp. destruct (caches_lookup s s' j c k t (rest_caches s s' (lk_cpus _ _ _ Hlk)) Hj Hlkp) as (c0 & Hc0 & H0).
    split; [by exists c0|]. destruct (I8 c0 k t) as [H1 _]; [by eapply list_elem_of_lookup_2|done|]. by rewrite linked_tb.
Qed.
End Linked.

(** *** The steps *)

(** Block [n] is in the hash list [h]; [on] tells which nodes are on which pages, [N]
    which pages got a new node. *)
Record mid (s : cache) (L : nat -> Prop) (n : nat) (h : Z) (on : tagged -> Z -> Prop) (N : Z -> Prop) (s' : cache) : Prop := {
  md_link : linking n s s';
  md_hash : lists s' (fun _ => True) (plus (hash_on s L) n h);
  md_pages : lists s' page_index on;
  md_bitmaps : forall p, page_index p -> (page_of s' p).(code_bitmap) = None \/
    (page_of s' p).(code_bitmap) = (page_of s p).(code_bitmap) /\ ~ N p;
  md_code : s'.(host_code) = s.(host_code);
  md_tlbs : tlbs_ok s';
  md_new : forall p, N p -> ~ code_dirty s'.(phys_dirty) p;
  md_clean : forall p, ~ code_dirty s.(phys_dirty) p -> ~ code_dirty s'.(phys_dirty) p
}.

Lemma mid_hash s L J n h :
  full_inv G s L J -> ~ L n -> (n < length s.(tbs))%nat ->
  mid s L n h (page_on s L) (fun _ => False) (set_hash h (Some n) (write_tb n (set_phys_hash_next (s.(tb_phys_hash) !! h)) s)).
Proof.
  intros [[I1 I2 I3 I4 I5 I6 I7 I8] T C] Hd Hn. set (s1 := write_tb n _ s).
  assert (linking n s s1) as [K1 K2 K3 K4 K5 K6] by by apply linking_write.
  split; try done.
  - apply (lists_insert (LL := hash_lists) s _ _ _ n h I2); [done|by intros k []| | |].
    + intros k _. change (partial_alter (fun _ => Some n) h s.(tb_phys_hash) !! k = if decide (k = h) then Some n else s.(tb_phys_hash) !! k).
      destruct (decide (k = h)) as [->|Hne]; [apply lookup_partial_alter_eq|by apply lookup_partial_alter_ne].
    + intros t Ht. change (hnext s1 t = hnext s t). unfold hnext. by rewrite K1.
    + change (hnext s1 n = s.(tb_phys_hash) !! h). unfold hnext, s1. rewrite write_tb_at by done. by rewrite decide_True.
  - revert I3. apply lists_ext; try done. intros x p _. change (pnext s1 x = pnext s x). unfold pnext. f_equal.
    by apply (write_tb_proj page_next).
  - intros p _. right. split; [done|by intros []].
Qed.

Lemma mid_page s L n h on N s1 s2 k a :
  mid s L n h on N s1 -> page_added n k a s1 s2 -> tlbs_ok s2 -> (k < 2)%nat -> page_index (page_number a) ->
  (forall p, ~ on (n, k) p) -> (forall p, page_index p -> (page_of s1 p).(first_tb) <> None -> ~ code_dirty s1.(phys_dirty) p) ->
  mid s L n h (plus on (n, k) (page_number a)) (fun p => N p \/ p = page_number a) s2.
Proof.
  intros [M1 M2 M3 M4 M5 M6 M7 M8] Ha Ht Hk Hp Hno Hcl.
  pose proof Ha as [P1 P2 P3 P4 P5 P6 (P7 & P8 & P9 & P10) P11 P12 P13 P14]. pose proof (linking_added _ _ _ _ _ Ha) as Hlk.
  assert (~ code_dirty s2.(phys_dirty) (page_number a)) as Hclean.
  { apply P14. destruct (page_of s1 (page_number a)).(first_tb) eqn:E; [right|by left]. apply Hcl; [done|congruence]. }
  split; try done.
  - by eapply linking_trans.
  - revert M2. apply lists_ext; [intros q _; cbn [ls_head hash_lists]; by rewrite P5| |done|done].
    intros t q _. change (hnext s2 t = hnext s1 t). unfold hnext. destruct (decide (t = n)) as [->|Hne]; [by rewrite P2|by rewrite P1].
  - apply (lists_insert (LL := page_lists) s1 _ _ _ (n, k) (page_number a) M3); [done|done|exact P3| |].
    + intros [u m] Hu. change (pnext s2 (u, m) = pnext s1 (u, m)). unfold pnext. cbn [fst snd]. destruct (decide (u = n)) as [->|Hne]; [|by rewrite P1].
      rewrite P2. cbn [page_next set_page_next set_page_addr]. rewrite link2_upd by done. rewrite decide_False; [done|]. congruence.
    + change (pnext s2 (n, k) = (page_of s1 (page_number a)).(first_tb)). unfold pnext. cbn [fst snd]. rewrite P2.
      cbn [page_next set_page_next set_page_addr]. rewrite link2_upd by done. by rewrite decide_True.
  - intros p Hpi. rewrite P4 by done. case_decide as E; [by left|]. destruct (M4 p Hpi) as [?|[E2 Hn]]; [by left|].
    right. split; [done|]. tauto.
  - congruence.
  - intros p [HN| ->]; [|done]. destruct (decide (p = page_number a)) as [->|Hne]; [done|]. unfold code_dirty. rewrite P13 by done. by apply M7.
  - intros p Hc. destruct (decide (p = page_number a)) as [->|Hne]; [done|]. unfold code_dirty. rewrite P13 by done. by apply M8.
Qed.

Lemma mid_write s L n h on N s1 f :
  mid s L n h on N s1 -> (forall tb, ident (f tb) = ident tb) -> (forall tb, (f tb).(phys_hash_next) = tb.(phys_hash_next)) ->
  (forall tb, (f tb).(page_next) = tb.(page_next)) -> mid s L n h on N (write_tb n f s1).
Proof.
  intros [M1 M2 M3 M4 M5 M6 M7 M8] H1 H2 H3. split; try done.
  - eapply linking_trans; [done|]. by apply linking_write.
  - revert M2. apply lists_ext; try done. intros t q _. change (hnext (write_tb n f s1) t = hnext s1 t). by apply (write_tb_proj phys_hash_next).
  - revert M3. apply lists_ext; try done. intros x q _. change (pnext (write_tb n f s1) x = pnext s1 x). unfold pnext. f_equal.
    by apply (write_tb_proj page_next).
Qed.

(** One exit of the new block, if it is used, is made to leave the block. *)
Lemma wpc_reset_new X s L n k o (Q : unit -> cache -> Prop) :
  layout G s L -> L n -> (k < 2)%nat -> o = at2 k (tb_at s n).(tb_next_offset) ->
  (forall f, let s' := set_host_code f s in
     (forall y, L y.1 -> has_exit s y -> jump_dest s' y = if decide (y = (n, k)) then exit_code s y else jump_dest s y) ->
     code_kept (eq n) s s' -> Q tt s') ->
  wpc (cwhen (negb (o =? 0xffff)) (tb_reset_jump n k)) Q X s.
Proof.
  intros Y Hn Hk -> HQ. pose proof (live_bound G s L n Y Hn) as Hlt. apply wpc_when; intros E.
  - apply negb_true_iff, Z.eqb_neq in E. assert (has_exit s (n, k)) as Hex by done.
    apply wpc_tb_reset_jump; [done|]. apply HQ; [|by apply patched_code]. intros y Hy Hey.
    change (set_host_code _ s) with (patched (n, k) (exit_code s (n, k)) s).
    rewrite (patched_dest G s L) by (done || by apply exit_in_buffer with L). by case_decide; subst.
  - apply negb_false_iff, Z.eqb_eq in E. assert (s = set_host_code s.(host_code) s) as Es by by destruct s.
    rewrite Es. apply HQ; [|by apply code_kept_eq]. intros y Hy Hey. rewrite <- Es. case_decide as Ey; [|done]. subst y. by destruct Hey.
Qed.

Lemma wpc_reset_exits X s L n (Q : unit -> cache -> Prop) :
  layout G s L -> L n ->
  (forall f, let s' := set_host_code f s in
     (forall y, L y.1 -> has_exit s y -> jump_dest s' y = if decide (y.1 = n) then exit_code s y else jump_dest s y) ->
     code_kept (eq n) s s' -> Q tt s') ->
  wpc (cwhen (negb ((tb_at s n).(tb_next_offset).1 =? 0xffff)) (tb_reset_jump n 0) ;;
       cwhen (negb ((tb_at s n).(tb_next_offset).2 =? 0xffff)) (tb_reset_jump n 1)) Q X s.
Proof.
  intros Y Hn HQ. apply wpc_bind. apply (wpc_reset_new X s L n 0); [done|done|lia|done|]. intros f s1 H1 B1.
  assert (unch Core s s1) as Hc by (apply (patched_unch (n, 0%nat) 0 s Core); done).
  apply (wpc_reset_new X s1 L n 1); [by apply (layout_frame G s)|done|lia|done|]. intros f2 s2 H2 B2.
  apply (HQ f2); [|by apply (code_kept_trans (eq n) (eq n) s s1 s2)]. intros [u k] Hy Hey. change (jump_dest s2 (u, k) = if decide (u = n) then exit_code s (u, k) else jump_dest s (u, k)).
  rewrite H2 by (done || by apply (core_has_exit s s1)). rewrite H1 by done.
  rewrite (core_exit_code s s1) by done. pose proof Hey as [Hk _]. cbn [snd] in Hk.
  destruct (decide (u = n)) as [->|Hne].
  - destruct k as [|[|k]]; [|by rewrite decide_True|lia]. rewrite decide_False by congruence. by rewrite decide_True.
  - rewrite !decide_False by congruence. done.
Qed.

Lemma mid_ext s L n h on on' (N N' : Z -> Prop) s1 :
  (forall x p, on' x p <-> on x p) -> (forall p, N' p <-> N p) -> mid s L n h on N s1 -> mid s L n h on' N' s1.
Proof.
  intros E1 E2 [M1 M2 M3 M4 M5 M6 M7 M8]. split; try done.
  - by revert M3; apply lists_ext.
  - intros p Hp. rewrite E2. by apply M4.
  - intros p Hp%E2. by apply M7.
Qed.

(** The nodes of a block with pages [a0] and [a1]. *)
Definition nodes (n : nat) (a0 a1 : Z) (x : tagged) (p : Z) : Prop :=
  x = (n, 0%nat) /\ p = page_number a0 \/ a1 <> no_page /\ x = (n, 1%nat) /\ p = page_number a1.

Lemma nodes_on_new n a0 a1 s x p : (tb_at s n).(page_addr) = (a0, a1) -> on_new s n x p <-> nodes n a0 a1 x p.
Proof.
  intros E. unfold on_new, nodes, uses_page, page_of_code. rewrite E. destruct x as [u k]. cbn [fst snd]. split.
  - intros (-> & [->|[-> Hu]] & <-); [by left|by right].
  - intros [[[= -> ->] ->]|(Hu & [= -> ->] & ->)]; split_and!; try done; [by left|by right].
Qed.

Definition entered_pages (s : cache) (L : nat -> Prop) (n : nat) (h a0 a1 : Z) (s' : cache) : Prop :=
  mid s L n h (fun x p => page_on s L x p \/ nodes n a0 a1 x p) (fun p => exists x, nodes n a0 a1 x p) s' /\
  (tb_at s' n).(page_addr) = (a0, a1).

Definition ram_page (a : Z) : Prop := ram_addr a /\ aligned a.

Lemma ram_page_ok a : ram_page a -> page_ok a.
Proof. intros [[p Hp] Ha]. split; [by destruct (ram_host_bound HM _ _ Hp)|by apply mask_aligned]. Qed.

Lemma page_has_node s L n h on N s1 p :
  mid s L n h on N s1 -> code_clean s L -> (forall x q, on x q -> page_on s L x q \/ N q) ->
  page_index p -> (page_of s1 p).(first_tb) <> None -> ~ code_dirty s1.(phys_dirty) p.
Proof.
  intros M C Hon Hp Hne. destruct (li_lists _ _ _ (md_pages _ _ _ _ _ _ _ M) p Hp) as (l & Hc & Hm).
  destruct l as [|x l]; [done|]. destruct (Hon x p) as [H|H]; [apply Hm, list_elem_of_here| |].
  - by apply (md_clean _ _ _ _ _ _ _ M), (C x).
  - by apply (md_new _ _ _ _ _ _ _ M).
Qed.

Lemma wpc_enter_pages X s L J n h a0 a1 s1 (Q : unit -> cache -> Prop) :
  full_inv G s L J -> ~ L n -> (n < length s.(tbs))%nat -> ram_page a0 -> (a1 = no_page \/ ram_page a1) ->
  mid s L n h (page_on s L) (fun _ => False) s1 -> (forall s', entered_pages s L n h a0 a1 s' -> Q tt s') ->
  wpc (tb_alloc_page n 0 a0 ;; (if a1 =? no_page then upd_tb n (set_page_addr 1 no_page) else tb_alloc_page n 1 a1)) Q X s1.
Proof.
  intros I Hd Hn R0 R1 M HQ. pose proof (fi_clean _ _ _ _ I) as C.
  assert (length s1.(tbs) = length s.(tbs)) as El1 by apply (lk_length _ _ _ (md_link _ _ _ _ _ _ _ M)).
  apply wpc_bind. apply wpc_tb_alloc_page; [apply M|lia|lia|apply R0|apply R0|]. intros s2 A T2.
  assert (mid s L n h (plus (page_on s L) (n, 0%nat) (page_number a0)) (fun p => False \/ p = page_number a0) s2) as M2.
  { eapply mid_page; [done|done|done|lia|by apply page_ok_number, ram_page_ok|by intros p []|].
    intros p. eapply page_has_node; [exact M|done|]. intros x q ?. by left. }
  assert (length s2.(tbs) = length s.(tbs)) as El2 by apply (lk_length _ _ _ (md_link _ _ _ _ _ _ _ M2)).
  destruct (Z.eqb_spec a1 no_page) as [E|E].
  - apply wpc_upd_tb; [lia|]. change (set_tbs _ s2) with (write_tb n (set_page_addr 1 no_page) s2). apply HQ. split.
    + apply mid_write; try done. revert M2. apply mid_ext.
      * intros x p. unfold plus, nodes. tauto.
      * intros p. unfold nodes. split; [intros (x & [[_ ->]|[? _]]); [by right|done]|]. intros [[]| ->]. exists (n, 0%nat). by left.
    + rewrite write_tb_at by lia. rewrite decide_True by done. rewrite (pa_new _ _ _ _ _ A), E. done.
  - destruct R1 as [?|R1]; [done|]. apply wpc_tb_alloc_page; [done|lia|lia|apply R1|apply R1|]. intros s3 A3 T3. apply HQ. split.
    + eapply mid_ext; [| |eapply mid_page; [exact M2|exact A3|done|lia|by apply page_ok_number, ram_page_ok| |]].
      * intros x p. unfold plus, nodes. tauto.
      * intros p. unfold nodes. split; [intros (x & [[_ ->]|(_ & _ & ->)]); tauto|].
        intros [[[]| ->]| ->]; [exists (n, 0%nat); by left|exists (n, 1%nat); by right].
      * intros p [[? _]|[[= ] _]]. done.
      * intros p. eapply page_has_node; [exact M2|done|]. intros x q [?|[_ ->]]; [by left|by right; right].
    + rewrite (pa_new _ _ _ _ _ A3). cbn [page_addr set_page_next]. rewrite (pa_new _ _ _ _ _ A). done.
Qed.

(** What is known of a block before it is linked. *)
Record linkable (s : cache) (n : nat) (phys_pc page2 : Z) : Prop := {
  lb_code : code_ok G s n;
  lb_pc : in_u 64 (tb_at s n).(tb_pc);
  lb_size : 1 <= (tb_at s n).(tb_size) <= TARGET_PAGE_SIZE;
  lb_phys : ram_addr phys_pc /\ phys_pc mod TARGET_PAGE_SIZE = (tb_at s n).(tb_pc) mod TARGET_PAGE_SIZE;
  lb_page2 : page2 = no_page \/ ram_page page2;
  lb_spans : page2 = no_page <-> Z.land (tb_at s n).(tb_pc) TARGET_PAGE_MASK =
    Z.land (u64 ((tb_at s n).(tb_pc) + (tb_at s n).(tb_size) - 1)) TARGET_PAGE_MASK
}.

Lemma ram_page_masked a : ram_addr a -> ram_page (Z.land a TARGET_PAGE_MASK).
Proof.
  intros [p (b & Hb & Hh & _)]. split; [|apply aligned_mask]. eexists _, b. split_and!; [done| |reflexivity].
  apply (block_page HM b a); [done|done|]. rewrite <- !page_number_eq. symmetry.
  pose proof (page_number_masked a 0 eq_refl) as E. by rewrite !Z.add_0_r in E.
Qed.

Lemma linkable_block s n phys_pc page2 tb :
  linkable s n phys_pc page2 -> ident tb = ident (tb_at s n) -> tb.(page_addr) = (Z.land phys_pc TARGET_PAGE_MASK, page2) ->
  block_ok tb /\ hash_of tb = tb_phys_hash_func phys_pc.
Proof.
  intros [B1 B2 B3 [B4 B5] B6 B7] Ei Ea. injection Ei as E1 E2 E3 E4 E5 E6 E7 E8 E9. split.
  - split; rewrite ?Ea, ?E1, ?E4; cbn [fst snd]; try done.
    + by apply ram_page_ok, ram_page_masked.
    + destruct B6 as [?|?]; [by left|right; by apply ram_page_ok].
  - unfold hash_of, phys_pc_of. rewrite Ea, E1, page_offset_eq, <- B5. cbn [fst]. rewrite page_mask_eq.
    replace (phys_pc - phys_pc mod TARGET_PAGE_SIZE + phys_pc mod TARGET_PAGE_SIZE) with phys_pc by lia.
    destruct B4 as [p Hp]. destruct (ram_host_bound HM _ _ Hp) as [Hb _]. rewrite wrap_id; [done|]. unfold in_u in *. lia.
Qed.

Lemma mid_inv s L J n a0 a1 h s5 f (s6 := set_host_code f s5) :
  full_inv G s L J -> ~ L n -> s.(nb_tbs) = S n -> entered_pages s L n h a0 a1 s5 -> code_ok G s n -> block_ok (tb_at s5 n) ->
  hash_of (tb_at s5 n) = h -> (tb_at s5 n).(jmp_first) = Some (n, 2%nat) -> (tb_at s5 n).(jmp_next) = (None, None) ->
  (forall y, plus_block L n y.1 -> has_exit s5 y -> jump_dest s6 y = if decide (y.1 = n) then exit_code s5 y else jump_dest s5 y) ->
  full_inv G s6 (plus_block L n) J.
Proof.
  intros I Hd Hnb [M Ea] Hc Hb Hh Hf Hn Hds. pose proof M as [M1 M2 M3 M4 M5 M6 M7 M8].
  assert (linking n s s6) as K6 by (destruct M1; by split).
  assert (forall x p, on_new s6 n x p <-> nodes n a0 a1 x p) as Hon by (intros x p; by apply nodes_on_new).
  apply (linked_inv s s6 L J n K6 I Hd Hnb h); try done.
  - revert M2. by apply lists_ext.
  - revert M3. apply lists_ext; try done. intros x p. by rewrite Hon.
  - intros p Hp. destruct (M4 p Hp) as [?|[? Hno]]; [by left|right]. split; [done|]. intros x Hx%Hon. apply Hno. by exists x.
  - intros x Hx Hex. destruct (linked_exit s s5 L n M1 Hd x (or_introl Hx)) as (Ex & Ec & Ef).
    specialize (Hds x (or_introl Hx) (proj2 Ex Hex)). rewrite decide_False in Hds by (intros E; by rewrite E in Hx).
    unfold jump_dest in Hds. change (jmp_field s6 x) with (jmp_field s5 x) in Hds. rewrite Ef in Hds. by rewrite Hds, M5.
  - intros k Hex. destruct (linked_exit s s5 L n M1 Hd (n, k) (or_intror eq_refl)) as (Ex & Ec & Ef).
    specialize (Hds (n, k) (or_intror eq_refl) (proj2 Ex Hex)). rewrite decide_True in Hds by done.
    unfold jump_dest in Hds. change (jmp_field s6 (n, k)) with (jmp_field s5 (n, k)) in Hds. by rewrite Ef, Ec in Hds.
  - intros p (x & Hx%Hon). apply M7. by exists x.
Qed.

Lemma in_field_ident s s' n k a : ident (tb_at s' n) = ident (tb_at s n) -> in_field s' (n, k) a <-> in_field s (n, k) a.
Proof.
  intros E. injection E as E1 E2 E3 E4 E5 E6 E7 E8 E9. unfold in_field, has_exit, jmp_field. cbn [fst snd]. by rewrite E6, E8, E9.
Qed.

Lemma mid_code_kept s L n h on N s5 s6 : mid s L n h on N s5 -> code_kept (eq n) s5 s6 -> code_kept (eq n) s s6.
Proof.
  intros M H a Ha. rewrite H; [by rewrite (md_code _ _ _ _ _ _ _ M)|]. intros [u k] Hu. cbn [fst] in Hu. subst u.
  rewrite (in_field_ident s s5) by apply (md_link _ _ _ _ _ _ _ M). by apply Ha.
Qed.

Lemma wpc_tb_link_page X s L J n phys_pc page2 (Q : unit -> cache -> Prop) :
  full_inv G s L J -> ~ L n -> s.(nb_tbs) = S n -> linkable s n phys_pc page2 ->
  (forall s', full_inv G s' (plus_block L n) J -> linking n s s' ->
     (tb_at s' n).(page_addr) = (Z.land phys_pc TARGET_PAGE_MASK, page2) -> code_kept (eq n) s s' -> Q tt s') ->
  wpc (tb_link_page n phys_pc page2) Q X s.
Proof.
  intros I Hd Hnb B HQ. pose proof (ci_layout _ _ _ _ (fi_cache _ _ _ _ I)) as Y. pose proof (ly_bound G s L Y) as [Hb _].
  assert (n < length s.(tbs))%nat as Hn by lia. unfold tb_link_page. set (h := tb_phys_hash_func phys_pc).
  apply wpc_bind, wpc_gets, wpc_bind, wpc_upd_tb; [done|]. apply wpc_bind, wpc_modify.
  pose proof (mid_hash s L J n h I Hd Hn) as M. set (s1 := set_hash h _ _) in *.
  change (set_hash h (Some n) _) with s1. clearbody s1.
  apply wpc_bind2. eapply wpc_enter_pages; [done|done|done|apply ram_page_masked, B|apply B|done|]. intros s2 [M2 Ea].
  assert (forall s', linking n s s' -> length s'.(tbs) = length s.(tbs)) as Hlen by (by intros s' []).
  do 3 (apply wpc_bind, wpc_upd_tb; [pose proof (Hlen _ (md_link _ _ _ _ _ _ _ M2)); cbn [tbs set_tbs]; rewrite ?length_insert; lia|]).
  pose proof (Hlen _ (md_link _ _ _ _ _ _ _ M2)) as El2.
  set (s5 := set_tbs _ (set_tbs _ (set_tbs _ s2))).
  assert (mid s L n h (fun x p => page_on s L x p \/ nodes n (Z.land phys_pc TARGET_PAGE_MASK) page2 x p)
    (fun p => exists x, nodes n (Z.land phys_pc TARGET_PAGE_MASK) page2 x p) s5) as M5 by (do 3 (apply mid_write; try done)).
  assert (tb_at s5 n = set_jmp_next 1 None (set_jmp_next 0 None (set_jmp_first (Some (n, 2%nat)) (tb_at s2 n)))) as E5.
  { change s5 with (write_tb n (set_jmp_next 1 None) (write_tb n (set_jmp_next 0 None) (write_tb n (set_jmp_first (Some (n, 2%nat))) s2))).
    rewrite !write_tb_at by (rewrite ?write_tb_length; lia). by rewrite !decide_True. }
  assert ((tb_at s5 n).(page_addr) = (Z.land phys_pc TARGET_PAGE_MASK, page2)) as Ea5 by by rewrite E5.
  pose proof (md_link _ _ _ _ _ _ _ M5) as K5. destruct (linkable_block s n phys_pc page2 _ B (lk_ident _ _ _ K5) Ea5) as [Hbo Hho].
  pose proof (linked_layout s s5 L J n K5 I Hd Hnb (lb_code _ _ _ _ B) Hbo) as Y5.
  assert ((tb_at s5 n).(jmp_first) = Some (n, 2%nat) /\ (tb_at s5 n).(jmp_next) = (None, None)) as [Ef5 En5] by by rewrite E5.
  clearbody s5. clear E5. apply wpc_bind, wpc_get_tb; [rewrite (Hlen _ K5); done|].
  apply (wpc_reset_exits X s5 (plus_block L n)); [done|by right|]. intros f s6 Hds Hck.
  assert (linking n s s6) as K6 by (destruct K5; by split).
  apply HQ; [|done|done|by eapply mid_code_kept]. eapply (mid_inv s L J n _ page2 h s5 f); try done. apply B.
Qed.
End LinkPage.
