(* ===== verification/TbGenCode.v ===== *)
(** * Translation of a block

    [tb_gen_code] returns a new live block for the program counter, and flushes the
    others if there is no room; the invariant holds also where the translation is left by
    an exception.  It is aborted where the code is not in memory. *)

From S2P Require Import Prelude QtraceDefs TlbLoad IContext TbState TbPages Tlb TbCache TbLogic TbLinks TbInv TbJumps TbInvalidate TlbInv TbGen TbLinkPage.

Section GenCode.
Context {machine : Machine} {mapping : Mapping} {translator : Translator} (G : code_gen).
Context (HM : machine_ok) (HG : gen_ok G) (HT : translator_ok).

Lemma full_inv_tlb s s' L J : tlb_changed s s' -> tlbs_ok s' -> full_inv G s L J -> full_inv G s' L J.
Proof.
  intros T O [I _ C F]. split; [|done| |].
  - apply (cache_inv_frame G s); [|done]. intros k H1 H2 H3. by apply tlb_changed_unch.
  - destruct T as [-> _]. exact C.
  - revert F. by apply caches_fit_unch; apply tlb_changed_unch.
Qed.

Lemma full_inv_flag s b L J : full_inv G s L J -> full_inv G (set_invalidated b s) L J.
Proof.
  intros [I T C F]. split; [|exact T|exact C|exact F]. apply (cache_inv_frame G s); [|done].
  intros k _ _ _. destruct k; first [done|intros q Hq; exact Hq|apply (unch_refl _ s)].
Qed.

(** The page of [pc], or the one after it, is not in memory. *)
Definition unfetchable (env : nat) (pc : Z) : Prop :=
  ~ in_memory env (Z.land pc TARGET_PAGE_MASK) \/ ~ in_memory env (u64 (Z.land pc TARGET_PAGE_MASK + TARGET_PAGE_SIZE)).

(** There is no room for another block, or for its code. *)
Definition full (s : cache) : Prop :=
  G.(code_gen_max_blocks) <= Z.of_nat s.(nb_tbs) \/ G.(code_gen_buffer_max_size) <= s.(code_gen_ptr) - G.(code_gen_buffer).

(** The code of a block was generated from memory as it is. *)
Definition fresh_block (env t : nat) (s : cache) : Prop :=
  exists s0 tb0 g, translation env t s0 tb0 g s /\ s0.(host_mem) = s.(host_mem).

Definition fresh (t : nat) (s : cache) : Prop := exists env, fresh_block env t s /\ fits env (tb_at s t).

(** The block that was generated and what has not changed. *)
Record generated_block (L : nat -> Prop) (env n : nat) (pc cs fl cf : Z) (s s' : cache) : Prop := {
  gb_pc : (tb_at s' n).(tb_pc) = pc;
  gb_cs : (tb_at s' n).(tb_cs_base) = cs;
  gb_flags : (tb_at s' n).(tb_flags) = fl;
  gb_cflags : (tb_at s' n).(tb_cflags) = u16 cf;
  gb_page : fits env (tb_at s' n);
  gb_other : forall t, t <> n -> tb_at s' t = tb_at s t;
  gb_rest : cpu_rest <$> s'.(cpus) = cpu_rest <$> s.(cpus);
  gb_current : s'.(current_cpu) = s.(current_cpu);
  gb_mem : s'.(host_mem) = s.(host_mem);
  gb_body : forall t, L t -> body_kept s s' t;
  gb_fresh : fresh_block env n s'
}.

Definition gen_rest (env : nat) (pc phys_pc : Z) (t : nat) (tc : Z) : cm nat :=
  code_gen_size ← cpu_gen_code env t;
  upd_tb t (set_tc_end_ptr (tc + code_gen_size)) ;;
  modify (fun s => set_code_gen_ptr (code_align (s.(code_gen_ptr) + code_gen_size)) s) ;;
  tb ← get_tb t;
  let virt_page2 := Z.land (u64 (pc + tb.(tb_size) - 1)) TARGET_PAGE_MASK in
  phys_page2 ← (if Z.land pc TARGET_PAGE_MASK =? virt_page2 then mret no_page else get_page_addr_code env virt_page2);
  tb_link_page t phys_pc phys_page2 ;;
  mret t.
Definition gen_tail (env : nat) (pc cs_base flags cflags phys_pc : Z) (t : nat) : cm nat :=
  tc ← gets code_gen_ptr;
  upd_tb t (set_context tc cs_base flags cflags) ;;
  gen_rest env pc phys_pc t tc.

Lemma linkable_tlb s s' n phys page2 : s' = set_cpus s'.(cpus) s -> linkable G s n phys page2 -> linkable G s' n phys page2.
Proof. intros -> [[C1 C2 C3 C4 C5] B2 B3 B4 B5 B6]. by split. Qed.

Lemma wpc_cpu_gen_code X s env n (Q : Z -> cache -> Prop) :
  (n < length s.(tbs))%nat -> X.(on_longjmp) s ->
  (forall g, generate env (tb_at s n) s = Some g ->
     Q (code_len g) (set_host_code (write_code (tb_at s n).(tc_ptr) g.(gen_code) s.(host_code)) (write_tb n (with_code g) s))) ->
  wpc (cpu_gen_code env n) Q X s.
Proof.
  intros Hn HX HQ. apply wpc_bind, wpc_get_tb; [done|]. apply wpc_bind, wpc_gets.
  destruct (generate env (tb_at s n) s) as [g|] eqn:Eg; [|done]. apply wpc_bind, wpc_upd_tb; [done|].
  apply wpc_bind, wpc_modify, wpc_ret. by apply HQ.
Qed.

Lemma ram_page_used a : ram_page a -> a <> no_page.
Proof. intros H%(ram_page_ok HM) ->. destruct H as [[_ H] _]. vm_compute in H. discriminate H. Qed.

(** The two pages of a block are different if those of its addresses are. *)
Lemma fits_apart env tb (v := Z.land tb.(tb_pc) TARGET_PAGE_MASK) :
  fits env tb -> host_map env v <> host_map env (u64 (v + TARGET_PAGE_SIZE)) -> tb.(page_addr).1 <> tb.(page_addr).2.
Proof.
  intros [F1 F2] Hne E. destruct (decide (tb.(page_addr).2 = no_page)) as [E2|E2].
  - destruct (ram_host_bound HM _ _ F1) as [Hb _]. rewrite E, E2 in Hb. vm_compute in Hb. by destruct Hb.
  - apply Hne. specialize (F2 E2). rewrite <- E in F2. by apply (ram_host_fun HM tb.(page_addr).1).
Qed.

(** The second page, if the code reaches into one. *)
Lemma wpc_second_page X s env pc size (Q : Z -> cache -> Prop) :
  let v := Z.land (u64 (pc + size - 1)) TARGET_PAGE_MASK in
  tlbs_ok s -> has_env s env -> walks s.(host_mem) -> X.(on_longjmp) s ->
  (Z.land pc TARGET_PAGE_MASK <> v -> ~ in_memory env v -> X.(on_error) TcgAbort) ->
  (forall page2 s', tlb_changed s s' -> tlbs_ok s' -> (page2 = no_page \/ ram_page page2) ->
     (page2 = no_page <-> Z.land pc TARGET_PAGE_MASK = v) -> (page2 <> no_page -> ram_host page2 (host_map env v)) -> Q page2 s') ->
  wpc (if Z.land pc TARGET_PAGE_MASK =? v then mret no_page else get_page_addr_code env v) Q X s.
Proof.
  intros v T He Hw HX HE HQ. destruct (Z.eqb_spec (Z.land pc TARGET_PAGE_MASK) v) as [E|E].
  - apply wpc_ret, HQ; [apply tlb_changed_refl|done|by left|done|done].
  - apply (wpc_get_page_addr_code HM); [done|done|done|by apply masked_in_u, wrap_range|done| |].
    { rewrite mask_aligned by apply aligned_mask. by apply HE. }
    intros phys s' H1 H2 H3 H4. assert (ram_page phys) as Hrp by (split; [by eexists|]; unfold aligned; rewrite H4; apply aligned_mask).
    pose proof (ram_page_used phys Hrp). rewrite host_of_aligned in H3 by apply aligned_mask. by apply HQ; [..|right| |].
Qed.

(** The new code and its jumps are behind the code of the other blocks. *)
Lemma old_body_kept s L n g s' t :
  layout G s L -> L t -> (n < length s.(tbs))%nat -> (tb_at s n).(tc_ptr) = s.(code_gen_ptr) -> code_ok G (coded n g s) n ->
  code_kept (eq n) (coded n g s) s' -> body_kept s s' t.
Proof.
  intros Y Ht Hn Htc C H a [Ha _]. pose proof (co_end G s t (ly_code G s L Y t Ht)) as He. rewrite H.
  - cbn [coded host_code set_code_gen_ptr write_tb set_tbs set_host_code]. apply write_code_out. lia.
  - intros [u k] Hu [Hx Hi]. cbn [fst] in Hu. subst u. pose proof (co_field G _ n C k Hx) as [F _].
    assert ((tb_at (coded n g s) n).(tc_ptr) = (tb_at s n).(tc_ptr)) as E by (rewrite coded_at by done; by rewrite decide_True). lia.
Qed.

Lemma new_translation env n s g s' :
  generate env (tb_at s n) s = Some g -> generated_ok g -> (n < length s.(tbs))%nat -> linking n (coded n g s) s' ->
  code_kept (eq n) (coded n g s) s' -> translation env n s (tb_at s n) g s'.
Proof.
  intros Hg Gok Hn K H. pose proof (lk_ident _ _ _ K) as E.
  assert (forall k a, in_field s' (n, k) a <-> in_field (coded n g s) (n, k) a) as Hf by (intros k a; by apply in_field_ident).
  rewrite coded_at, decide_True in E by done. injection E as E1 E2 E3 E4 E5 E6 E7 E8 E9.
  split; rewrite ?E1, ?E2, ?E3, ?E4, ?E5, ?E6, ?E7, ?E8; try done.
  - cbn [tb_size with_code set_tc_end_ptr set_generated]. apply wrap_id. pose proof (gk_size g Gok).
    unfold in_u. change TARGET_PAGE_SIZE with 4096 in *. lia.
  - intros i b Hb [_ Hbody]. cbn [tc_ptr with_code set_tc_end_ptr set_generated] in *. rewrite H.
    + cbn [coded host_code set_code_gen_ptr write_tb set_tbs set_host_code]. unfold write_code. rewrite (proj2 (Z.leb_le _ _)) by lia.
      replace (Z.to_nat _) with i by lia. by rewrite Hb.
    + intros [u k] Hu. cbn [fst] in Hu. subst u. by rewrite <- Hf.
Qed.

(** From the generated code on. *)
Lemma wpc_gen_link X s L J env n pc phys (Q : nat -> cache -> Prop) :
  full_inv G s L J -> ~ L n -> s.(nb_tbs) = S n -> code_ok G s n -> (tb_at s n).(tb_pc) = pc -> in_u 64 pc ->
  1 <= (tb_at s n).(tb_size) <= TARGET_PAGE_SIZE -> has_env s env -> walks s.(host_mem) ->
  ram_host phys (host_of env pc) -> phys mod TARGET_PAGE_SIZE = pc mod TARGET_PAGE_SIZE -> X.(on_longjmp) s ->
  (unfetchable env pc -> X.(on_error) TcgAbort) ->
  (forall s', full_inv G s' (plus_block L n) J -> linking n s s' -> fits env (tb_at s' n) -> code_kept (eq n) s s' -> Q n s') ->
  wpc (tb ← get_tb n;
       let virt_page2 := Z.land (u64 (pc + tb.(tb_size) - 1)) TARGET_PAGE_MASK in
       phys_page2 ← (if Z.land pc TARGET_PAGE_MASK =? virt_page2 then mret no_page else get_page_addr_code env virt_page2);
       tb_link_page n phys phys_page2 ;; mret n) Q X s.
Proof.
  intros I Hd Hnb Hc Epc Hpc Hsz Henv Hw Hr Hm HX HE HQ. pose proof (ly_bound G s L (ci_layout _ _ _ _ (fi_cache _ _ _ _ I))) as [Hb _].
  apply wpc_bind, wpc_get_tb; [lia|]. apply wpc_bind. apply wpc_second_page; [apply I|done|done|done| |].
  { intros Hne Hi. apply HE. right. by rewrite <- (next_page pc (tb_at s n).(tb_size)). }
  intros page2 s1 T1 O1 Hp2 Hsp Hh2. pose proof (tl_eq _ _ T1) as E1. apply wpc_bind.
  assert (linkable G s n phys page2) as Hlb by (split; rewrite ?Epc; try done; split; [by eexists|done]).
  apply (wpc_tb_link_page G HM X s1 L J n phys page2); [by apply (full_inv_tlb s)|done|by rewrite E1|by apply (linkable_tlb s)|].
  intros s2 I2 [K1 K2 K3 K4 K5 K6] Ea Hck. assert (forall t, tb_at s1 t = tb_at s t) as Et by (intros t; by rewrite E1).
  apply wpc_ret, HQ; [done| | |rewrite E1 in Hck; exact Hck].
  - split; [intros t Ht; by rewrite K1, Et|by rewrite K2, Et|by rewrite K3, E1|by rewrite E1 in K4| |by rewrite K6, E1].
    rewrite K5. apply (tl_rest _ _ T1).
  - assert ((tb_at s2 n).(tb_pc) = pc) as Epc2 by (rewrite <- Epc, <- Et; by injection K2).
    unfold fits. rewrite Ea, Epc2. cbn [fst snd]. split; [by apply (ram_host_page HM)|]. intros Hne.
    rewrite <- (next_page pc (tb_at s n).(tb_size)); [by apply Hh2|done|done|]. intros E. by apply Hne, Hsp.
Qed.

(** The block [n] has been allocated and is about to be translated. *)
Record new_slot (L : nat -> Prop) (J : tagged -> option nat) (n : nat) (pc cs fl cf : Z) (s s1 : cache) : Prop := {
  ns_inv : full_inv G s1 L J;
  ns_dead : ~ L n;
  ns_block : tb_at s1 n = set_context s.(code_gen_ptr) cs fl cf (set_alloc pc (tb_at s n));
  ns_other : forall t, t <> n -> tb_at s1 t = tb_at s t;
  ns_length : length s1.(tbs) = length s.(tbs);
  ns_count : s1.(nb_tbs) = S n;
  ns_ptr : s1.(code_gen_ptr) = s.(code_gen_ptr);
  ns_code : s1.(host_code) = s.(host_code);
  ns_cpus : s1.(cpus) = s.(cpus);
  ns_current : s1.(current_cpu) = s.(current_cpu);
  ns_mem : s1.(host_mem) = s.(host_mem)
}.

Lemma allocated_slot L J n pc cs fl cf s :
  full_inv G s L J -> n = s.(nb_tbs) -> (n < length s.(tbs))%nat -> new_slot L J n pc cs fl cf s (allocated pc cs fl cf s).
Proof.
  intros I En Hn. destruct (allocated_inv G pc cs fl cf s L J I) as (I1 & [_ _ _ Ecpus Ecur _ Emem] & C1); [congruence|]. split; try done.
  - rewrite En. by apply (dead_new G), (fi_cache _ _ _ _ I).
  - rewrite allocated_at by congruence. by rewrite decide_True.
  - intros t Ht. rewrite allocated_at by congruence. by rewrite decide_False by congruence.
  - unfold allocated. by rewrite !write_tb_length.
  - by rewrite En.
Qed.

Lemma wpc_gen_rest X s s1 L J env n pc cs fl cf phys (Q : nat -> cache -> Prop) :
  new_slot L J n pc cs fl cf s s1 -> (n < length s.(tbs))%nat ->
  s.(code_gen_ptr) - G.(code_gen_buffer) < G.(code_gen_buffer_max_size) -> has_env s env -> walks s.(host_mem) -> in_u 64 pc ->
  ram_host phys (host_of env pc) -> phys mod TARGET_PAGE_SIZE = pc mod TARGET_PAGE_SIZE ->
  (forall s', full_inv G s' L J -> s'.(host_mem) = s.(host_mem) -> (forall t, L t -> same_block s s' t) -> X.(on_longjmp) s') ->
  (unfetchable env pc -> X.(on_error) TcgAbort) ->
  (forall s', full_inv G s' (plus_block L n) J -> generated_block L env n pc cs fl cf s s' -> Q n s') ->
  wpc (gen_rest env pc phys n s.(code_gen_ptr)) Q X s1.
Proof.
  intros [I1 Hd E1 O1 Hl1 Hnb1 Hp1 C1 Ecpus1 Ecur1 Emem1] Hn Hroom Henv Hw Hpc Hr Hm HX HE HQ.
  assert (forall t, L t -> t <> n) as Hne by (intros t Ht ->; done).
  apply wpc_bind. apply wpc_cpu_gen_code; [lia|apply HX; [done|done|intros t Ht; apply same_block_eq; [by rewrite O1 by auto|done]]|].
  intros g Hg. pose proof (HT _ _ _ _ Hg) as Gok.
  apply wpc_bind, wpc_upd_tb; [cbn [tbs set_host_code]; rewrite write_tb_length; lia|]. apply wpc_bind, wpc_modify.
  assert ((tb_at s1 n).(tc_ptr) = s.(code_gen_ptr)) as Etc by by rewrite E1. rewrite <- Etc.
  match goal with |- wpc _ _ _ ?x => change x with (coded n g s1) end.
  destruct (coded_inv G HG n g s1 L J I1 Hnb1 Hd) as (I2 & S2 & C2); [congruence|done|congruence|].
  assert (tb_at (coded n g s1) n = set_tc_end_ptr ((tb_at s1 n).(tc_ptr) + code_len g) (with_code g (tb_at s1 n))) as E2
    by (rewrite coded_at by lia; by rewrite decide_True).
  assert (forall t, t <> n -> tb_at (coded n g s1) t = tb_at s1 t) as O2 by (intros t Ht; rewrite coded_at by lia; by rewrite decide_False).
  assert ((tb_at (coded n g s1) n).(tb_size) = g.(gen_size)) as Es.
  { rewrite E2. cbn [tb_size set_tc_end_ptr with_code set_generated]. apply wrap_id. pose proof (gk_size g Gok).
    unfold in_u. change TARGET_PAGE_SIZE with 4096 in *. lia. }
  pose proof (ci_layout _ _ _ _ (fi_cache _ _ _ _ I1)) as Y1.
  assert (forall s' t, code_kept (eq n) (coded n g s1) s' -> L t -> body_kept s s' t) as Hbody.
  { intros s' t Hck Ht. apply (body_kept_trans s s1); [by rewrite O1 by auto|by apply body_kept_eq|]. apply (old_body_kept s1 L n g); (done || lia). }
  apply wpc_gen_link with (L := L) (J := J); try done.
  - by rewrite E2, E1.
  - rewrite Es. apply Gok.
  - unfold has_env. change (coded n g s1).(cpus) with s1.(cpus). by rewrite Ecpus1.
  - change (coded n g s1).(host_mem) with s1.(host_mem). by rewrite Emem1.
  - apply HX; [done|by change (coded n g s1).(host_mem) with s1.(host_mem)|]. intros t Ht. split; [by rewrite O2, O1 by auto|].
    by apply Hbody; [apply code_kept_eq|].
  - intros s3 I3 K Ea Hck. pose proof (new_translation env n s1 g s3 Hg Gok ltac:(lia) K Hck) as Htr.
    destruct K as [K1 K2 K3 (K4 & K5 & K6) K7 K8]. apply HQ; [done|]. rewrite E2, E1 in K2. injection K2 as F1 F2 F3 F4 F5 F6 F7 F8 F9.
    split; try done.
    + intros t Ht. by rewrite K1, O2, O1.
    + rewrite K7. change (coded n g s1).(cpus) with s1.(cpus). by rewrite Ecpus1.
    + rewrite K6. exact Ecur1.
    + rewrite K8. exact Emem1.
    + intros t Ht. by apply Hbody.
    + exists s1, (tb_at s1 n), g. split; [done|]. rewrite K8. done.
Qed.

Lemma wpc_gen_tail X s L J env n pc cs fl cf phys (Q : nat -> cache -> Prop) :
  full_inv G s L J -> n = s.(nb_tbs) -> (n < length s.(tbs))%nat ->
  s.(code_gen_ptr) - G.(code_gen_buffer) < G.(code_gen_buffer_max_size) -> has_env s env -> walks s.(host_mem) -> in_u 64 pc ->
  ram_host phys (host_of env pc) -> phys mod TARGET_PAGE_SIZE = pc mod TARGET_PAGE_SIZE ->
  (forall s', full_inv G s' L J -> s'.(host_mem) = s.(host_mem) -> (forall t, L t -> same_block s s' t) -> X.(on_longjmp) s') ->
  (unfetchable env pc -> X.(on_error) TcgAbort) ->
  (forall s', full_inv G s' (plus_block L n) J -> generated_block L env n pc cs fl cf s s' -> Q n s') ->
  wpc (gen_tail env pc cs fl cf phys n) Q X (write_tb n (set_alloc pc) (set_nb_tbs (S n) s)).
Proof.
  intros I En Hn Hroom Henv Hw Hpc Hr Hm HX HE HQ. apply wpc_bind, wpc_gets.
  change (write_tb _ _ _).(code_gen_ptr) with s.(code_gen_ptr). apply wpc_bind, wpc_upd_tb; [by rewrite write_tb_length|].
  match goal with |- wpc _ _ _ ?x => change x with (write_tb n (set_context s.(code_gen_ptr) cs fl cf) (write_tb n (set_alloc pc) (set_nb_tbs (S n) s))) end.
  rewrite En. fold (allocated pc cs fl cf s). rewrite <- En.
  apply (wpc_gen_rest X s _ L J env n pc cs fl cf); try done. by apply allocated_slot.
Qed.

Lemma wpc_tb_alloc X s L J pc (Q : option nat -> cache -> Prop) :
  full_inv G s L J ->
  (full s -> s.(nb_tbs) <> 0%nat -> Q None s) ->
  (~ full s -> (s.(nb_tbs) < length s.(tbs))%nat -> s.(code_gen_ptr) - G.(code_gen_buffer) < G.(code_gen_buffer_max_size) ->
     Q (Some s.(nb_tbs)) (write_tb s.(nb_tbs) (set_alloc pc) (set_nb_tbs (S s.(nb_tbs)) s))) ->
  wpc (tb_alloc G pc) Q X s.
Proof.
  intros I H1 H2. pose proof (ci_layout _ _ _ _ (fi_cache _ _ _ _ I)) as Y. pose proof (ly_bound G s L Y) as [Hb Hl].
  apply wpc_bind, wpc_gets, wpc_bind, wpc_gets. destruct (_ || _) eqn:E.
  - assert (full s) as Hf by (apply orb_true_iff in E as [E%Z.leb_le|E%Z.leb_le]; [by left|by right]).
    apply wpc_ret, H1; [done|]. intros H0. pose proof (ly_empty G s L Y H0) as Hp. rewrite Hp, H0 in E. destruct HG as [G1 G2 G3 G4 G5 G6].
    apply orb_true_iff in E as [E%Z.leb_le|E%Z.leb_le]; [change (Z.of_nat 0) with 0 in E; lia|lia].
  - apply orb_false_iff in E as [E1%Z.leb_gt E2%Z.leb_gt]. assert (s.(nb_tbs) < length s.(tbs))%nat as Hn by lia.
    assert (~ full s) as Hf by (unfold full; lia).
    apply wpc_bind, wpc_modify, wpc_bind, wpc_upd_tb; [done|]. apply wpc_ret. by apply H2.
Qed.

(** The result of a translation: block [t] is live, and of the others none if there was
    no room and all otherwise. *)
Record new_block (L L' : nat -> Prop) (J J' : tagged -> option nat) (env t : nat) (pc cs fl cf : Z) (s s' : cache) : Prop := {
  nw_pc : (tb_at s' t).(tb_pc) = pc;
  nw_cs : (tb_at s' t).(tb_cs_base) = cs;
  nw_flags : (tb_at s' t).(tb_flags) = fl;
  nw_cflags : (tb_at s' t).(tb_cflags) = u16 cf;
  nw_fits : fits env (tb_at s' t);
  nw_live : L' t /\ (~ full s /\ (forall u, L' u <-> L u \/ u = t) /\ J' = J /\ ~ L t \/
    full s /\ (forall u, L' u <-> u = t) /\ J' = (fun _ => None));
  nw_other : forall u, u <> t -> tb_at s' u = tb_at s u;
  nw_cpus : length s'.(cpus) = length s.(cpus);
  nw_current : s'.(current_cpu) = s.(current_cpu);
  nw_mem : s'.(host_mem) = s.(host_mem);
  nw_same : forall u, L' u -> u <> t -> same_block s s' u;
  nw_fresh : fresh_block env t s'
}.

Lemma rest_length s s' : cpu_rest <$> s'.(cpus) = cpu_rest <$> s.(cpus) -> length s'.(cpus) = length s.(cpus).
Proof. intros E. apply caches_length. by apply rest_caches. Qed.

Lemma has_env_length s s' env : length s'.(cpus) = length s.(cpus) -> has_env s env -> has_env s' env.
Proof. unfold has_env. intros E H. apply lookup_lt_is_Some in H. apply lookup_lt_is_Some. lia. Qed.

Lemma wpc_tb_gen_code X s L J env pc cs fl cf (Q : nat -> cache -> Prop) :
  full_inv G s L J -> has_env s env -> walks s.(host_mem) -> in_u 64 pc ->
  (forall s' L' J', full_inv G s' L' J' -> (forall t, L' t -> L t /\ same_block s s' t) -> s'.(host_mem) = s.(host_mem) -> X.(on_longjmp) s') ->
  (unfetchable env pc -> X.(on_error) TcgAbort) ->
  (forall t s' L' J', full_inv G s' L' J' -> new_block L L' J J' env t pc cs fl cf s s' -> Q t s') ->
  wpc (tb_gen_code G env pc cs fl cf) Q X s.
Proof.
  intros I Henv Hw Hpc HX HE HQ. apply wpc_bind. apply (wpc_get_page_addr_code HM); [apply I|done|done|done|by apply (HX s L J); [|intros t Ht; split; [done|by apply same_block_eq]|]|by intros H; apply HE; left|].
  intros phys s1 T1 O1 Hr Hm. pose proof (full_inv_tlb s s1 L J T1 O1 I) as I1. pose proof (tl_eq _ _ T1) as E1.
  pose proof (rest_length s s1 (tl_rest _ _ T1)) as Hl1.
  assert (forall t, tb_at s1 t = tb_at s t) as Et1 by (intros t; by rewrite E1).
  assert (s1.(host_mem) = s.(host_mem) /\ s1.(current_cpu) = s.(current_cpu) /\ s1.(host_code) = s.(host_code)) as (Em1 & Ec1 & Eh1) by by rewrite E1.
  assert (forall t, same_block s s1 t) as Sb1 by (intros t; by apply same_block_cpus).
  assert (full s1 <-> full s) as Ef by by rewrite E1.
  apply wpc_bind. eapply wpc_tb_alloc; [done| |].
  - intros Hf _. apply wpc_bind, wpc_bind. eapply wpc_tb_flush; [done|done|]. intros s2 I2 Hn2 Em2 _ Hl2 Et2 Ec2. apply wpc_bind.
    eapply wpc_tb_alloc; [done|congruence|]. intros _ Hn Hroom. apply wpc_bind, wpc_modify, wpc_not_null.
    match goal with |- wpc _ _ _ ?x => change x with (write_tb s2.(nb_tbs) (set_alloc pc) (set_nb_tbs (S s2.(nb_tbs)) (set_invalidated true s2))) end.
    eapply (wpc_gen_tail X (set_invalidated true s2) (fun _ => False) (fun _ => None) env); try done.
    + by apply full_inv_flag.
    + apply (has_env_length s); [cbn [cpus set_invalidated]; congruence|done].
    + cbn [host_mem set_invalidated]. by rewrite Em2, Em1.
    + intros s' I' Em' _. cbn [host_mem set_invalidated] in Em'. eapply (HX s'); [exact I'|done|congruence].
    + intros s' I' [B1 B2 B3 B4 B5 B6 B7 B8 B9 B10 B11]. cbn [current_cpu host_mem set_invalidated] in *. eapply HQ; [exact I'|]. split; try done; try congruence.
      * split; [by right|]. right. split_and!; [by apply Ef| |done]. intros u. unfold plus_block. tauto.
      * intros u Hu. rewrite B6 by done. unfold tb_at. cbn [tbs set_invalidated]. rewrite Et2. apply Et1.
      * rewrite (rest_length _ s' B7). cbn [cpus set_invalidated]. congruence.
      * by intros u [[]| ->] Hu.
  - intros Hf Hn Hroom. apply wpc_bind, wpc_ret.
    eapply (wpc_gen_tail X s1 L J env); try done; [by apply (has_env_length s)|by rewrite Em1| |].
    + intros s' I' Em' Et'. apply (HX s' L J); [done| |congruence]. intros t Ht. split; [done|].
      by apply (same_block_trans s s1), Et'.
    + intros s' I' [B1 B2 B3 B4 B5 B6 B7 B8 B9 B10 B11]. eapply HQ; [exact I'|].
      split; try done; try congruence.
      * split; [by right|]. left. split_and!; [by rewrite <- Ef|done|done|]. by apply (dead_new G), (fi_cache _ _ _ _ I1).
      * intros u Hu. by rewrite B6, Et1.
      * rewrite (rest_length s1 s') by done. done.
      * intros u [Hu| ->] Hne; [|done]. apply (same_block_trans s s1); [done|]. split; [by rewrite B6|by apply B10].
Qed.
End GenCode.
