(* ===== verification/TbFind.v ===== *)
(** * Lookup of blocks

    [tb_find_fast] and [tb_find_slow] of cpu-exec.c return a live block for the program
    counter, segment base and flags of the guest, translated from the physical pages that
    the program counter maps to.  [tb_find_pc] finds the block that contains a host
    address by a binary search over the blocks in the order of their code. *)

From S2P Require Import Prelude QtraceDefs TlbLoad IContext TbState TbPages Tlb TbCache TbLogic TbLinks TbInv TbJumps TbInvalidate TlbInv TbGen TbLinkPage TbGenCode.

(** ** Search by host address *)

Definition start_of (l : list TranslationBlock) (k : Z) : Z := (l !!! Z.to_nat k).(tc_ptr).

(** The search ends: at an exact match, or where all starts up to [m] are smaller and
    all later ones greater. *)
Lemma find_pc_spec (l : list TranslationBlock) tc n : n <= Z.of_nat (length l) ->
  (forall j k, 0 <= j <= k -> k < n -> start_of l j <= start_of l k) -> forall fuel lo hi,
  0 <= lo <= hi + 1 -> hi < n -> hi - lo + 1 < Z.of_nat fuel ->
  (forall k, 0 <= k < lo -> start_of l k < tc) -> (forall k, hi < k < n -> tc < start_of l k) ->
  exists m, find_pc fuel l tc lo hi = Some m /\ lo - 1 <= m <= hi /\
    (lo <= m /\ start_of l m = tc \/ (forall k, 0 <= k <= m -> start_of l k < tc) /\ (forall k, m < k < n -> tc < start_of l k)).
Proof.
  intros Hn Hs. induction fuel as [|fuel IH]; intros lo hi Hlo Hhi Hf H1 H2; [lia|]. cbn [find_pc].
  destruct (Z.leb_spec lo hi) as [Hle|Hgt].
  - set (m := Z.shiftr (lo + hi) 1). assert (lo <= m <= hi) as Hm.
    { unfold m. rewrite Z.shiftr_div_pow2 by lia. change (2 ^ 1) with 2. split.
      - apply Z.div_le_lower_bound; lia.
      - apply Z.div_le_upper_bound; lia. }
    assert (Z.to_nat m < length l)%nat as Hml by lia. rewrite (list_lookup_lookup_total_lt l _ Hml).
    fold (start_of l m). destruct (Z.eqb_spec (start_of l m) tc) as [E|E]; [exists m; split; [done|split; [lia|left; lia]]|].
    destruct (Z.ltb_spec tc (start_of l m)) as [Hlt|Hge].
    + destruct (IH lo (m - 1)) as (r & Hr & Hb & Hpost); [lia|lia|lia|done| |].
      * intros k Hk. destruct (decide (k <= hi)); [|apply H2; lia]. pose proof (Hs m k ltac:(lia) ltac:(lia)). lia.
      * exists r. split; [done|]. split; [lia|]. exact Hpost.
    + destruct (IH (m + 1) hi) as (r & Hr & Hb & Hpost); [lia|lia|lia| |done|].
      * intros k Hk. destruct (decide (lo <= k)); [|apply H1; lia]. pose proof (Hs k m ltac:(lia) ltac:(lia)). lia.
      * exists r. split; [done|]. split; [lia|]. destruct Hpost as [[? ?]|?]; [left; lia|by right].
  - exists hi. split; [done|]. split; [lia|]. right. split; [intros k Hk; apply H1; lia|exact H2].
Qed.

Section FindPc.
Context (G : code_gen).

(** The last block that starts at [a] or before. *)
Definition last_block (s : cache) (t : nat) (a : Z) : Prop :=
  (t < s.(nb_tbs))%nat /\ (tb_at s t).(tc_ptr) <= a /\ forall u, (t < u < s.(nb_tbs))%nat -> a <= (tb_at s u).(tc_ptr).

Lemma wpc_tb_find_pc X s L tc (Q : option nat -> cache -> Prop) :
  layout G s L ->
  (forall o, (forall m, o = Some m -> last_block s m tc) ->
     (forall t, L t -> (tb_at s t).(tc_ptr) < tc < (tb_at s t).(tc_end_ptr) -> o = Some t) -> Q o s) ->
  wpc (tb_find_pc G tc) Q X s.
Proof.
  intros Hl HQ. unfold tb_find_pc. apply wpc_bind, wpc_gets, wpc_bind, wpc_gets.
  destruct (_ || _) eqn:Eb.
  - apply wpc_ret, HQ; [done|]. intros t Ht Hin. exfalso. destruct (ly_code G s L Hl t Ht) as [C1 C2 _ _ _].
    pose proof (ly_live G s L Hl t Ht). rewrite !orb_true_iff, Nat.eqb_eq, Z.ltb_lt, Z.leb_le in Eb. clear HQ. lia.
  - rewrite !orb_false_iff, Nat.eqb_neq, Z.ltb_ge, Z.leb_gt in Eb. destruct Eb as [[Hn Hb] Hp].
    pose proof (ly_bound G s L Hl) as [Hnb _]. apply wpc_bind, wpc_gets.
    destruct (find_pc_spec s.(tbs) tc (Z.of_nat s.(nb_tbs)) ltac:(lia)) with (fuel := S s.(nb_tbs)) (lo := 0) (hi := Z.of_nat s.(nb_tbs) - 1)
      as (m & -> & Hm & Hpost); try lia.
    { intros j k Hj Hk. destruct (decide (j = k)) as [->|]; [lia|]. apply (ly_order G s L Hl). lia. }
    assert (0 <= m) as Hm0.
    { destruct (decide (0 <= m)); [done|]. destruct Hpost as [[? _]|[_ H2]]; [done|]. specialize (H2 0 ltac:(lia)).
      unfold start_of in H2. change (Z.to_nat 0) with 0%nat in H2. pose proof (ly_first G s L Hl ltac:(lia)) as E. unfold tb_at in E. lia. }
    rewrite (proj2 (Z.leb_le 0 m)) by done. apply wpc_ret, HQ.
    + intros k [= <-]. split; [lia|]. change ((tb_at s (Z.to_nat m)).(tc_ptr)) with (start_of s.(tbs) m). split.
      { destruct Hpost as [[_ ->]|[H1 _]]; [lia|]. specialize (H1 m ltac:(lia)). lia. }
      intros u Hu. destruct Hpost as [[_ <-]|[_ H2]]; [by apply (ly_order G s L Hl)|]. specialize (H2 (Z.of_nat u) ltac:(lia)).
      unfold start_of in H2. rewrite Nat2Z.id in H2. unfold tb_at. lia.
    + intros t Ht Hin. f_equal. pose proof (ly_live G s L Hl t Ht) as Hlv.
      assert (forall k, Z.of_nat t < k < Z.of_nat s.(nb_tbs) -> tc < start_of s.(tbs) k) as Hlater.
      { intros k Hk. pose proof (ly_order G s L Hl t (Z.to_nat k) ltac:(lia)) as [_ H]. specialize (H Ht). unfold start_of, tb_at in *. lia. }
      assert (forall k, 0 <= k <= Z.of_nat t -> start_of s.(tbs) k < tc) as Hearlier.
      { intros k Hk. unfold start_of. destruct (decide (k = Z.of_nat t)) as [->|]; [rewrite Nat2Z.id; unfold tb_at in *; lia|].
        pose proof (ly_order G s L Hl (Z.to_nat k) t ltac:(lia)) as [H _]. unfold tb_at in *. lia. }
      destruct (Z.lt_trichotomy m (Z.of_nat t)) as [Hlt|[->|Hgt]]; [|lia|].
      * exfalso. destruct Hpost as [[_ E]|[_ H2]]; [specialize (Hearlier m ltac:(lia)); lia|].
        specialize (H2 (Z.of_nat t) ltac:(lia)). specialize (Hearlier (Z.of_nat t) ltac:(lia)). lia.
      * exfalso. specialize (Hlater m ltac:(lia)). destruct Hpost as [[_ E]|[H1 _]]; [lia|]. specialize (H1 m ltac:(lia)). lia.
Qed.
End FindPc.

(** ** Search by guest address *)

Section Find.
Context {machine : Machine} {mapping : Mapping} {translator : Translator} (G : code_gen).
Context (HM : machine_ok) (HG : gen_ok G) (HT : translator_ok).

Record matches (env : nat) (pc cs fl : Z) (tb : TranslationBlock) : Prop := {
  mt_pc : tb.(tb_pc) = pc;
  mt_cs : tb.(tb_cs_base) = cs;
  mt_flags : tb.(tb_flags) = fl;
  mt_fits : fits env tb
}.

(** ** The hash list *)

Section List.
Context (X : exits) (s0 : cache) (L : nat -> Prop) (J : tagged -> option nat) (env : nat) (pc cs fl page1 h : Z) (l : list nat).
Context (Q : slot Z nat * option nat -> cache -> Prop).
Context (I : full_inv G s0 L J) (Henv : has_env s0 env) (Hw : walks s0.(host_mem)).
Context (Hp1 : ram_host page1 (host_map env (Z.land pc TARGET_PAGE_MASK))).
Context (Hchain : chain (hnext s0) (s0.(tb_phys_hash) !! h) l None) (Hlive : forall t, t ∈ l -> L t).
Context (HX : forall s', tlb_changed s0 s' -> tlbs_ok s' -> X.(on_longjmp) s') (HE : unfetchable env pc -> X.(on_error) TcgAbort).
Context (Hfound : forall s' la t lb, tlb_changed s0 s' -> tlbs_ok s' -> l = la ++ t :: lb -> matches env pc cs fl (tb_at s0 t) ->
  Q (slot_after h la, Some t) s').
Context (Hnone : forall s', tlb_changed s0 s' -> tlbs_ok s' -> (forall t, t ∈ l -> ~ matches env pc cs fl (tb_at s0 t)) -> Q (slot_after h l, None) s').

Lemma wpc_same_block s tb (R : bool -> cache -> Prop) : tlb_changed s0 s -> tlbs_ok s ->
  (forall s', tlb_changed s0 s' -> tlbs_ok s' -> matches env pc cs fl tb -> R true s') ->
  (forall s', tlb_changed s0 s' -> tlbs_ok s' -> ~ matches env pc cs fl tb -> R false s') ->
  wpc (if (tb.(tb_pc) =? pc) && (tb.(page_addr).1 =? page1) && (tb.(tb_cs_base) =? cs) && (tb.(tb_flags) =? fl) then
         if tb.(page_addr).2 =? no_page then mret true
         else
           let virt_page2 := u64 (Z.land pc TARGET_PAGE_MASK + TARGET_PAGE_SIZE) in
           phys_page2 ← get_page_addr_code env virt_page2;
           mret (tb.(page_addr).2 =? phys_page2)
       else mret false) R X s.
Proof.
  intros T O HT1 HF. destruct (_ && _) eqn:E.
  2:{ apply wpc_ret, HF; [done|done|]. intros [M1 M2 M3 [M4 _]]. rewrite M1 in M4. rewrite M1, M2, M3, (ram_host_inj HM _ _ _ M4 Hp1), !Z.eqb_refl in E. done. }
  repeat match goal with H : _ && _ = true |- _ => apply andb_true_iff in H as [? ?] end.
  repeat match goal with H : (_ =? _) = true |- _ => apply Z.eqb_eq in H end.
  destruct (Z.eqb_spec tb.(page_addr).2 no_page) as [E2|E2].
  - apply wpc_ret, HT1; [done|done|]. split; try done. split; [congruence|done].
  - assert (aligned (u64 (Z.land pc TARGET_PAGE_MASK + TARGET_PAGE_SIZE))) as Av by (apply aligned_u64, aligned_add; [apply aligned_mask|done]).
    apply wpc_bind. apply (wpc_get_page_addr_code HM); [done| | |by apply wrap_range|by apply HX| |].
    { apply (has_env_length s0); [apply rest_length, T|done]. }
    { by rewrite (tl_eq _ _ T). }
    { rewrite mask_aligned by done. intros Hi. apply HE. by right. }
    intros phys s' T' O' Hph _. assert (tlb_changed s0 s') as T0 by by eapply tlb_changed_trans. apply wpc_ret.
    destruct (Z.eqb_spec tb.(page_addr).2 phys) as [E3|E3].
    2:{ apply HF; [done|done|]. intros [M1 _ _ [_ M]]. apply E3. rewrite host_of_aligned in Hph by done. rewrite M1 in M. by apply (ram_host_inj HM _ _ _ (M E2)). }
    apply HT1; [done|done|]. split; try done. split; [congruence|].
    intros _. rewrite host_of_aligned in Hph by done. congruence.
Qed.

Lemma wpc_find_hash l2 : forall l1 fuel s, l = l1 ++ l2 -> (forall t, t ∈ l1 -> ~ matches env pc cs fl (tb_at s0 t)) -> (length l2 < fuel)%nat -> tlb_changed s0 s -> tlbs_ok s ->
  wpc (find_hash fuel env (slot_after h l1) pc cs fl page1) Q X s.
Proof.
  induction l2 as [|t l2 IH]; intros l1 fuel s El Hno Hf T O; (destruct fuel as [|fuel]; [cbn in Hf; lia|]); cbn [find_hash].
  all: pose proof (tl_eq _ _ T) as E.
  all: assert (forall u, u ∈ l -> (u < length s.(tbs))%nat) as Hb by (intros u Hu; rewrite E; exact (live_bound G s0 L u (ci_layout _ _ _ _ (fi_cache _ _ _ _ I)) (Hlive u Hu))).
  all: assert (slot_val s (slot_after h l1) = head _) as Ev by (apply slot_after_val; rewrite <- El, E; exact Hchain).
  all: assert (ls_ok s (slot_after h l1)) as Hok by (apply slot_after_ok; [done|]; intros u Hu; apply Hb; rewrite El; apply elem_of_app; by left).
  all: apply wpc_bind, wpc_read_hash; [done|]; rewrite Ev; cbn [head].
  - apply wpc_ret. rewrite app_nil_r in El. subst l1. by apply Hnone.
  - assert (t ∈ l) as Ht by (rewrite El; apply elem_of_app; right; apply list_elem_of_here).
    apply wpc_bind, wpc_get_tb; [by apply Hb|]. apply wpc_bind. assert (tb_at s t = tb_at s0 t) as -> by by rewrite E.
    apply (wpc_same_block s); [done|done| |].
    + intros s' T' O' Hm. apply wpc_ret. by eapply Hfound.
    + intros s' T' O' Hne. rewrite <- (slot_after_snoc h l1 t). apply IH; [by rewrite <- app_assoc| |cbn in Hf; lia|done|done].
      intros u [Hu| ->%list_elem_of_singleton]%elem_of_app; [by apply Hno|done].
Qed.
End List.

(** ** To the front of the list *)

Lemma moved_lists s L h t la lb (s1 := ls_write (slot_after h la : slot Z nat) (hnext s t) s)
    (s3 := set_hash h (Some t) (write_tb t (set_phys_hash_next (s1.(tb_phys_hash) !! h)) s1)) :
  lists s (fun _ => True) (hash_on s L) -> (t < length s.(tbs))%nat -> ls_ok s (slot_after h la : slot Z nat) ->
  chain (hnext s) (s.(tb_phys_hash) !! h) (la ++ t :: lb) None -> (forall u, u ∈ la ++ t :: lb <-> hash_on s L u h) ->
  (forall k, k <> Hash -> unch k s s3) /\ lists s3 (fun _ => True) (hash_on s3 L).
Proof.
  intros Hl Ht Hok Hc Hm. assert (hash_on s L t h) as Hon by (apply Hm, elem_of_app; right; apply list_elem_of_here).
  assert (forall k, k <> Hash -> unch k s s1) as K1 by (intros k Hk; by apply write_hash_unch).
  assert (unch Core s s1) as C1 by by apply K1. assert (t < length s1.(tbs))%nat as Ht1 by (by destruct C1 as (_ & -> & _)).
  pose proof (lists_remove s _ _ h la t lb Hl Hon Hok Hc Hm) as Hr. fold s1 in Hr.
  assert (forall k, k <> Hash -> unch k s s3) as K3.
  { intros k Hk. eapply unch_trans; [by apply K1|]. eapply unch_trans; [|by apply (write_hash_unch (AtHead h) (Some t))]. unch_write. }
  split; [done|]. assert (lists s3 (fun _ => True) (plus (minus (hash_on s L) t) t h)) as Hp.
  { apply (lists_insert s1); [done|done|by intros k [_ ?]| | |].
    - intros k _. change s3 with (ls_write (AtHead h : slot Z nat) (Some t) (write_tb t (set_phys_hash_next (s1.(tb_phys_hash) !! h)) s1)).
      rewrite ls_write_head by done.
      destruct (decide (k = h)) as [->|Hne]; [by rewrite decide_True|]. by rewrite decide_False by congruence.
    - intros u Hu. change (hnext (write_tb t (set_phys_hash_next (s1.(tb_phys_hash) !! h)) s1) u = hnext s1 u).
      unfold hnext. rewrite write_tb_at by done. by rewrite decide_False.
    - change (hnext (write_tb t (set_phys_hash_next (s1.(tb_phys_hash) !! h)) s1) t = s1.(tb_phys_hash) !! h).
      unfold hnext. rewrite write_tb_at by done. by rewrite decide_True. }
  revert Hp. apply lists_ext; try done. intros u k. rewrite (hash_on_core s s3) by by apply K3. unfold plus, minus. split.
  - intros H. destruct (decide (u = t)) as [->|]; [right|by left]. split; [done|]. by eapply (li_fun _ _ _ Hl).
  - intros [[? _]|[-> ->]]; done.
Qed.

(** The list ends at [p], or block [t] is there. *)
Definition place (s : cache) (h : Z) (t : nat) (p : slot Z nat) : Prop :=
  ls_ok s p /\ (slot_val s p = None \/
    exists la lb, p = slot_after h la /\ chain (hnext s) (s.(tb_phys_hash) !! h) (la ++ t :: lb) None).

Lemma wpc_move_front X s L J h t p (Q : unit -> cache -> Prop) :
  full_inv G s L J -> L t -> place s h t p -> (forall s', full_inv G s' L J -> (forall k, k <> Hash -> unch k s s') -> Q tt s') ->
  wpc (o ← read_hash p;
       match o with
       | Some _ =>
           tb ← get_tb t;
           write_hash p tb.(phys_hash_next) ;;
           first ← read_hash (AtHead h);
           upd_tb t (set_phys_hash_next first) ;;
           write_hash (AtHead h) (Some t)
       | None => mret tt
       end) Q X s.
Proof.
  intros I Ht [Hok Hp] HQ. pose proof (ci_layout _ _ _ _ (fi_cache _ _ _ _ I)) as Y. pose proof (live_bound G s L t Y Ht) as Hlt.
  apply wpc_bind, wpc_read_hash; [done|]. destruct Hp as [-> | (la & lb & -> & Hc)]; [apply wpc_ret, HQ; [done|intros k _; apply unch_refl]|].
  rewrite (slot_after_val (LL := hash_lists) s h la (t :: lb) Hc). cbn [head]. apply wpc_bind, wpc_get_tb; [done|].
  apply wpc_bind, wpc_write_hash; [done|]. apply wpc_bind, wpc_gets. apply wpc_bind, wpc_upd_tb.
  { destruct (write_hash_unch (slot_after h la) (tb_at s t).(phys_hash_next) s Core ltac:(done)) as (_ & -> & _). done. }
  apply wpc_modify. destruct (li_lists _ _ _ (ci_hash _ _ _ _ (fi_cache _ _ _ _ I)) h) as (l & Hcl & Hm); [done|].
  rewrite (chain_det _ _ _ _ Hcl Hc) in Hm.
  destruct (moved_lists s L h t la lb (ci_hash _ _ _ _ (fi_cache _ _ _ _ I)) Hlt Hok Hc Hm) as [K Hl]. apply HQ; [|exact K].
  set (s3 := set_hash h _ _) in *. clearbody s3. destruct I as [I T C F]. assert (unch Core s s3) as C3 by by apply K.
  destruct (K Memory ltac:(done)) as [Ed _]. assert (s3.(cpus) = s.(cpus)) as Ecpu by by apply (K Cpus). split.
  - apply (cache_inv_parts G s); [intros k [-> | [-> | [-> | ->]]]; by apply K|done| |by rewrite Ecpu| |done].
    + apply (bitmaps_frame s s3 L); [by apply bitmaps_kept_unch, K|done|done|apply I].
    + apply (caches_frame s s3 L (K Caches ltac:(done)) C3 (ci_caches _ _ _ _ I)).
  - intros n c. rewrite Ecpu, Ed. apply T.
  - intros x q Hx. rewrite Ed. apply (C x). by rewrite (page_on_core s s3) in Hx.
  - revert F. apply caches_fit_unch; [by apply K|done].
Qed.

(** ** The jump cache *)

Lemma full_inv_jmp_cache s L J env c t (s' := set_cpus (<[env := set_tb_jmp_cache (<[tb_jmp_cache_hash_func (tb_at s t).(tb_pc) := t]> c.(tb_jmp_cache)) c]> s.(cpus)) s) :
  full_inv G s L J -> L t -> fits env (tb_at s t) -> s.(cpus) !! env = Some c -> full_inv G s' L J.
Proof.
  intros [I T C F] Ht Hf Hc. assert (forall k, k <> Cpus -> k <> Caches -> k <> Tlbs -> unch k s s') as K.
  { intros k H1 H2 H3. destruct k; try done; try (intros q Hq; exact Hq); try (apply (unch_refl _ s)). }
  split; [|apply upd_cpu_tlbs_ok; [done|done|exact (T env c Hc)]|exact C|].
  - apply (cache_inv_parts G s); [intros k [-> | [-> | [-> | ->]]]; by apply K|apply (hash_frame s); [by apply K|by apply K|apply I]|
      exact (ci_bitmaps _ _ _ _ I)|apply length_insert| |done].
    intros c' h u [k Hk]%list_elem_of_lookup Hu. cbn [cpus s' set_cpus] in Hk. change (tb_at s' u) with (tb_at s u).
    apply list_lookup_insert_Some in Hk as [(-> & <- & _)|[_ Hk]].
    + cbn [tb_jmp_cache set_tb_jmp_cache] in Hu. apply lookup_insert_Some in Hu as [[<- <-]|[_ Hu]]; [done|].
      apply (ci_caches _ _ _ _ I c); [by eapply list_elem_of_lookup_2|done].
    + apply (ci_caches _ _ _ _ I c'); [by eapply list_elem_of_lookup_2|done].
  - intros n c' h u Hk Hu. cbn [cpus s' set_cpus] in Hk. change (tb_at s' u) with (tb_at s u).
    apply list_lookup_insert_Some in Hk as [(-> & <- & _)|[_ Hk]]; [|by apply (F n c' h)].
    cbn [tb_jmp_cache set_tb_jmp_cache] in Hu. apply lookup_insert_Some in Hu as [[_ <-]|[_ Hu]]; [done|by apply (F n c h)].
Qed.

Lemma matches_core env pc cs fl tb tb' : core tb' = core tb -> matches env pc cs fl tb -> matches env pc cs fl tb'.
Proof.
  intros E [M1 M2 M3 M4]. split; [rewrite <- M1; exact (f_equal tb_pc E)|rewrite <- M2; exact (f_equal tb_cs_base E)|
    rewrite <- M3; exact (f_equal tb_flags E)|]. unfold fits in *.
  by rewrite (f_equal page_addr E : tb'.(page_addr) = tb.(page_addr)), (f_equal tb_pc E : tb'.(tb_pc) = tb.(tb_pc)).
Qed.

Definition find_tail (env : nat) (pc h : Z) (ptb1 : slot Z nat) (t : nat) : cm nat :=
  o ← read_hash ptb1;
  (match o with
   | Some _ =>
       tb ← get_tb t;
       write_hash ptb1 tb.(phys_hash_next) ;;
       first ← read_hash (AtHead h);
       upd_tb t (set_phys_hash_next first) ;;
       write_hash (AtHead h) (Some t)
   | None => mret tt
   end) ;;
  upd_cpu env (fun c => set_tb_jmp_cache (<[tb_jmp_cache_hash_func pc := t]> c.(tb_jmp_cache)) c) ;;
  mret t.

Lemma wpc_find_tail X s L J env pc cs fl h p t (Q : nat -> cache -> Prop) :
  full_inv G s L J -> has_env s env -> L t -> matches env pc cs fl (tb_at s t) -> place s h t p ->
  (forall s', full_inv G s' L J -> (forall u, same_block s s' u) -> s'.(host_mem) = s.(host_mem) -> Q t s') ->
  wpc (find_tail env pc h p t) Q X s.
Proof.
  intros I [c Hc] Ht Hm Hp HQ. apply wpc_bind2. eapply wpc_move_front; [done|done|done|]. intros s1 I1 K1.
  assert (unch Core s s1) as C1 by by apply K1. assert (s1.(cpus) !! env = Some c) as Hc1 by by rewrite (K1 Cpus ltac:(done)).
  assert (matches env pc cs fl (tb_at s1 t)) as [M1 M2 M3 M4] by (eapply matches_core; [apply C1|done]).
  apply wpc_bind. eapply wpc_upd_cpu; [done|]. apply wpc_ret, HQ.
  - rewrite <- M1. by apply (full_inv_jmp_cache s1 L J env c t).
  - intros u. split; [apply C1|]. apply body_kept_eq. exact (K1 Code ltac:(done)).
  - by destruct (K1 Memory) as [_ ?].
Qed.

(** ** The lookup *)

Lemma fresh_same env t s s' : same_block s s' t -> s'.(host_mem) = s.(host_mem) -> fresh_block env t s -> fresh_block env t s'.
Proof. intros [E B] M (s0 & tb0 & g & H1 & H2). exists s0, tb0, g. split; [by apply (translation_kept _ _ _ _ _ s)|congruence]. Qed.

(** In its hash list the only live block is last. *)
Lemma single_end s L J t : full_inv G s L J -> L t -> (forall u, L u -> hash_of (tb_at s u) = hash_of (tb_at s t) -> u = t) -> hnext s t = None.
Proof.
  intros I Ht Hu. destruct (li_lists _ _ _ (ci_hash _ _ _ _ (fi_cache _ _ _ _ I)) (hash_of (tb_at s t)) Logic.I) as (l & Hc & Hm).
  assert (t ∈ l) as Hin by by apply Hm. pose proof (chain_nodup _ _ _ Hc) as Hd.
  assert (forall u, u ∈ l -> u = t) as Hall by (intros u [H1 H2]%Hm; by apply Hu).
  destruct l as [|x [|y l]]; [by apply not_elem_of_nil in Hin| |].
  - destruct Hc as [_ Hc]. rewrite (Hall x) in Hc by apply list_elem_of_here. exact Hc.
  - apply NoDup_cons in Hd as [Hd _]. exfalso. apply Hd. rewrite (Hall x), (Hall y); [apply list_elem_of_here| |apply list_elem_of_here].
    apply list_elem_of_further, list_elem_of_here.
Qed.

(** The end of the list after a block was translated. *)
Lemma new_place L L' J J' env pc cs fl cf h l s s' t :
  full_inv G s L J -> full_inv G s' L' J' -> new_block G L L' J J' env t pc cs fl cf s s' ->
  chain (hnext s) (s.(tb_phys_hash) !! h) l None -> (forall u, u ∈ l <-> hash_on s L u h) -> place s' h t (slot_after h l).
Proof.
  intros I I' [B1 B2 B3 B4 B5 [B6 B6'] B7 B8 B9 B10 _ _] Hc Hm.
  assert (length s'.(tbs) = length s.(tbs)) as El.
  { destruct (ly_bound G s L (ci_layout _ _ _ _ (fi_cache _ _ _ _ I))) as [_ ->].
    by destruct (ly_bound G s' L' (ci_layout _ _ _ _ (fi_cache _ _ _ _ I'))) as [_ ->]. }
  assert (forall u, L' u -> u <> t -> L u) as Hold by (intros u Hu Hne; destruct B6' as [(_ & H & _ & _)|(_ & H & _)]; apply H in Hu; [by destruct Hu|done]).
  split.
  { apply slot_after_ok; [done|]. intros u [Hu _]%Hm. cbn. rewrite El. by apply (live_bound G s L u), Hu; apply I. }
  destruct l as [|u l _] using rev_ind.
  - destruct (li_lists _ _ _ (ci_hash _ _ _ _ (fi_cache _ _ _ _ I')) h Logic.I) as (l & Hc' & Hm'). destruct l as [|x l]; [by left|right].
    exists [], l. split; [done|]. assert (x = t) as ->; [|exact Hc']. destruct (decide (x = t)) as [|Hne]; [done|]. exfalso.
    assert (hash_on s' L' x h) as [Hx1 Hx2] by apply Hm', list_elem_of_here. apply (not_elem_of_nil x), Hm. split; [by apply Hold|]. by rewrite <- B7.
  - left. rewrite slot_after_snoc. cbn [slot_val]. change (hnext s' u = None).
    assert (hash_on s L u h) as [Hu1 Hu2] by (apply Hm, elem_of_app; right; apply list_elem_of_here).
    destruct (decide (u = t)) as [->|Hne].
    + destruct B6' as [(_ & _ & _ & H)|(_ & H & _)]; [done|]. apply (single_end s' L' J' t I' B6). intros u Hu%H. done.
    + unfold hnext. rewrite B7 by done. apply chain_snoc in Hc as [_ Hc]. exact Hc.
Qed.

(** The block [t] that was found: a block that was there, and nothing was translated, or a
    new one, and there was none. *)
Record found (env : nat) (pc cs fl : Z) (t : nat) (L L' : nat -> Prop) (s s' : cache) : Prop := {
  fd_live : L' t;
  fd_matches : matches env pc cs fl (tb_at s' t);
  fd_old : forall u, L' u -> u <> t -> L u /\ same_block s s' u;
  fd_block : L t /\ (forall u, L' u <-> L u) /\ (forall u, same_block s s' u) \/
    fresh_block env t s' /\ (forall u, L u -> ~ matches env pc cs fl (tb_at s u)) /\
    (~ full G s /\ (forall u, L' u <-> L u \/ u = t) \/ full G s /\ (forall u, L' u <-> u = t));
  fd_mem : s'.(host_mem) = s.(host_mem)
}.

(** A block for the program counter is in the list of its hash. *)
Lemma matches_hash s L env pc cs fl phys t : in_u 64 pc -> ram_host phys (host_of env pc) -> phys mod TARGET_PAGE_SIZE = pc mod TARGET_PAGE_SIZE ->
  L t -> matches env pc cs fl (tb_at s t) -> hash_on s L t (tb_phys_hash_func phys).
Proof.
  intros Hpc Hph Hmod Ht [M1 _ _ [M4 _]]. split; [done|]. unfold hash_of, phys_pc_of. f_equal. rewrite M1 in *.
  rewrite (ram_host_inj HM _ _ _ M4 (ram_host_page HM phys env pc Hph Hmod)), page_offset_eq, <- Hmod, <- page_offset_eq.
  destruct (page_split phys) as [-> _]. apply wrap_id. destruct (ram_host_bound HM _ _ Hph) as [H _]. unfold in_u in *. lia.
Qed.

Section Slow.
Context (X : exits) (s : cache) (L : nat -> Prop) (J : tagged -> option nat) (env : nat) (pc cs fl : Z) (Q : nat -> cache -> Prop).
Context (I : full_inv G s L J) (Henv : has_env s env) (Hw : walks s.(host_mem)) (Hpc : in_u 64 pc) (HE : unfetchable env pc -> X.(on_error) TcgAbort).
Context (HX : forall s' L' J', full_inv G s' L' J' -> (forall u, L' u -> L u /\ same_block s s' u) ->
  s'.(host_mem) = s.(host_mem) -> X.(on_longjmp) s').
Context (HQ : forall t s' L' J', full_inv G s' L' J' -> found env pc cs fl t L L' s s' -> Q t s').
Context (h : Z) (l : list nat) (Hc : chain (hnext s) (s.(tb_phys_hash) !! h) l None) (Hm : forall u, u ∈ l <-> hash_on s L u h).

Lemma wpc_block_found s' la t lb : tlb_changed s s' -> tlbs_ok s' -> l = la ++ t :: lb -> matches env pc cs fl (tb_at s t) ->
  wpc (find_tail env pc h (slot_after h la) t) Q X s'.
Proof.
  intros T O El Hmt. pose proof (full_inv_tlb G s s' L J T O I) as I'. pose proof (tl_eq _ _ T) as E.
  assert (forall u, tb_at s' u = tb_at s u) as Et by (intros u; by rewrite E).
  assert (forall u, u ∈ l -> L u) as HL by by intros u [? _]%Hm.
  assert (L t) as Ht by (apply HL; rewrite El; apply elem_of_app; right; apply list_elem_of_here).
  eapply (wpc_find_tail X s' L J); [done|by apply (has_env_length s); [apply rest_length, T|]|done|by rewrite Et| |].
  - split; [|right; exists la, lb; split; [done|]; rewrite <- El, E; exact Hc]. apply slot_after_ok; [done|].
    intros u Hu. apply (live_bound G s' L); [apply I'|]. apply HL. rewrite El. apply elem_of_app. by left.
  - intros s3 I3 C3 M3. eapply (HQ t s3 L J); [done|].
    assert (forall u, same_block s s3 u) as S3 by (intros u; apply (same_block_trans s s'); [by apply same_block_cpus|done]).
    split; [done|eapply matches_core; [apply S3|done]|by intros u Hu _|by left|by rewrite M3, E].
Qed.

Lemma wpc_block_new s' : tlb_changed s s' -> tlbs_ok s' -> (forall u, L u -> ~ matches env pc cs fl (tb_at s u)) ->
  wpc (t ← tb_gen_code G env pc cs fl 0; find_tail env pc h (slot_after h l) t) Q X s'.
Proof.
  intros T O Hno. pose proof (full_inv_tlb G s s' L J T O I) as I'. pose proof (tl_eq _ _ T) as E.
  assert (full G s' <-> full G s) as Ef by by rewrite E. assert (s'.(host_mem) = s.(host_mem)) as M by by rewrite E.
  assert (has_env s' env) as He by (apply (has_env_length s); [apply rest_length, T|done]).
  apply wpc_bind. eapply (wpc_tb_gen_code G HM HG HT); [exact I'|done|by rewrite M|done| |done|].
  - intros s3 L3 J3 I3 H3 M3. apply (HX s3 L3 J3); [done| |congruence]. intros u Hu. destruct (H3 u Hu) as [? S3].
    split; [done|]. apply (same_block_trans s s'); [by apply same_block_cpus|done].
  - intros t s3 L3 J3 I3 B. pose proof B as [B1 B2 B3 B4 B5 [B6 B6'] B7 B8 B9 B10 B11 B12].
    eapply (wpc_find_tail X s3 L3 J3); [done|by apply (has_env_length s')|done|done| |].
    + eapply (new_place L L3 J J3 env pc cs fl 0 h l s'); [done|done|done|by rewrite E|]. intros u. rewrite (Hm u), E. done.
    + intros s4 I4 C4 M4. eapply (HQ t s4 L3 J3); [done|]. split; [done|by eapply matches_core; [apply C4|]| | |congruence].
      * intros u Hu Hne. split; [destruct B6' as [(_ & H & _ & _)|(_ & H & _)]; apply H in Hu; by destruct Hu|].
        apply (same_block_trans s s'); [by apply same_block_cpus|]. eapply same_block_trans; [by apply B11|done].
      * right. split_and!; [by apply (fresh_same env t s3)|done|]. rewrite <- Ef.
        destruct B6' as [(Hf & H & _ & _)|(Hf & H & _)]; [by left|by right].
Qed.
End Slow.

Lemma wpc_tb_find_slow X s L J env pc cs fl (Q : nat -> cache -> Prop) :
  full_inv G s L J -> has_env s env -> walks s.(host_mem) -> in_u 64 pc -> (unfetchable env pc -> X.(on_error) TcgAbort) ->
  (forall s' L' J', full_inv G s' L' J' -> (forall u, L' u -> L u /\ same_block s s' u) -> s'.(host_mem) = s.(host_mem) -> X.(on_longjmp) s') ->
  (forall t s' L' J', full_inv G s' L' J' -> found env pc cs fl t L L' s s' -> Q t s') ->
  wpc (tb_find_slow G env pc cs fl) Q X s.
Proof.
  intros I0 Henv Hw Hpc HE HX HQ. unfold tb_find_slow. apply wpc_bind, wpc_modify. set (s1 := set_invalidated false s).
  assert (full_inv G s1 L J) as I1 by by apply full_inv_flag.
  apply wpc_bind. apply (wpc_get_page_addr_code HM); [apply I1|done|done|done|apply (HX s1 L J); [done|intros u Hu; split; [done|by apply same_block_eq]|done]|intros Hi; apply HE; by left|].
  intros phys s2 T2 O2 Hph Hmod. pose proof (full_inv_tlb G s1 s2 L J T2 O2 I1) as I2. set (h := tb_phys_hash_func phys).
  pose proof (tl_eq _ _ T2) as E2. assert (forall u, tb_at s2 u = tb_at s u) as Et2 by (intros u; by rewrite E2).
  assert (forall u, same_block s s2 u) as S2 by (intros u; by apply (same_block_cpus s1)).
  assert (s2.(host_mem) = s.(host_mem)) as M2 by by rewrite E2. assert (has_env s2 env) as He2 by (apply (has_env_length s1); [apply rest_length, T2|done]).
  assert (forall s' L' J', full_inv G s' L' J' -> (forall u, L' u -> L u /\ same_block s2 s' u) -> s'.(host_mem) = s2.(host_mem) -> X.(on_longjmp) s') as HX2.
  { intros s' L' J' I' H' M'. apply (HX s' L' J'); [done| |congruence]. intros u Hu. destruct (H' u Hu) as [? S'].
    split; [done|]. by apply (same_block_trans s s2). }
  assert (forall t s' L' J', full_inv G s' L' J' -> found env pc cs fl t L L' s2 s' -> Q t s') as HQ2.
  { intros t s' L' J' I' [F1 F2 F3 F4 F5]. apply (HQ t s' L' J'); [done|]. split; [done|done| | |congruence].
    - intros u Hu Hne. destruct (F3 u Hu Hne) as [? S']. split; [done|]. by apply (same_block_trans s s2).
    - destruct F4 as [(? & HL & S')|(? & Hno & Hl)]; [left|right].
      + split_and!; [done|done|]. intros u. by apply (same_block_trans s s2).
      + split_and!; [done|intros u Hu; rewrite <- Et2; by apply Hno|]. by rewrite E2 in Hl. }
  destruct (li_lists _ _ _ (ci_hash _ _ _ _ (fi_cache _ _ _ _ I2)) h Logic.I) as (l & Hc & Hm).
  apply wpc_bind, wpc_gets, wpc_bind. change (AtHead h) with (slot_after h [] : slot Z nat) at 1.
  eapply (wpc_find_hash X s2 L J env pc cs fl _ h l _ I2); [done|by rewrite M2|by apply (ram_host_page HM)|exact Hc|by intros t [? _]%Hm|
    |done| | |reflexivity|by intros t ?%not_elem_of_nil| |apply tlb_changed_refl|done].
  - intros s' T' O'. pose proof (tl_eq _ _ T') as E'. apply (HX2 s' L J); [by apply (full_inv_tlb G s2)|intros u Hu; split; [done|by apply same_block_cpus]|by rewrite E'].
  - intros s' la t lb T' O' El Hmt. apply wpc_bind, wpc_ret. by apply (wpc_block_found X s2 L J env pc cs fl Q I2 He2 HQ2 h l Hc Hm s' la t lb).
  - intros s' T' O' Hno. apply (wpc_block_new X s2 L J env pc cs fl Q I2 He2 ltac:(by rewrite M2) Hpc HE HX2 HQ2 h l Hc Hm s'); [done|done|].
    intros u Hu Hmt. apply (Hno u); [|done]. apply Hm. by apply (matches_hash s2 L env pc cs fl).
  - assert (length l <= length s2.(tbs))%nat; [|unfold list_fuel; lia]. apply nodup_bounded; [by eapply chain_nodup|].
    intros u [Hu _]%Hm. apply (live_bound G s2 L); [apply I2|done].
Qed.

Lemma wpc_tb_find_fast X s L J env pc cs fl (Q : nat -> cache -> Prop) :
  full_inv G s L J -> has_env s env -> walks s.(host_mem) -> in_u 64 pc -> (unfetchable env pc -> X.(on_error) TcgAbort) ->
  (forall s' L' J', full_inv G s' L' J' -> (forall u, L' u -> L u /\ same_block s s' u) -> s'.(host_mem) = s.(host_mem) -> X.(on_longjmp) s') ->
  (forall t s' L' J', full_inv G s' L' J' -> found env pc cs fl t L L' s s' -> Q t s') ->
  wpc (tb_find_fast G env pc cs fl) Q X s.
Proof.
  intros I Henv Hw Hpc HE HX HQ. pose proof Henv as [c Hc]. apply wpc_bind. eapply wpc_get_cpu; [done|].
  destruct (c.(tb_jmp_cache) !! _) as [t|] eqn:Et; [|by apply (wpc_tb_find_slow X s L J)].
  destruct (ci_caches _ _ _ _ (fi_cache _ _ _ _ I) c _ t (list_elem_of_lookup_2 _ _ _ Hc) Et) as [Ht _].
  apply wpc_bind, wpc_get_tb; [apply (live_bound G s L); [apply I|done]|].
  destruct (_ && _) eqn:E; [|by apply (wpc_tb_find_slow X s L J)]. apply wpc_ret.
  apply andb_true_iff in E as [[E1%Z.eqb_eq E2%Z.eqb_eq]%andb_true_iff E3%Z.eqb_eq].
  apply (HQ t s L J); [done|]. split; [done| |intros u Hu _; split; [done|by apply same_block_eq]|left; split_and!; [done|done|intros u; by apply same_block_eq]|done]. split; [done..|]. by apply (fi_fit _ _ _ _ I env c _ t Hc Et).
Qed.
End Find.
