(* ===== verification/TbFlush.v ===== *)
(** * Chaining blocks and flushing the TLB

    [tb_add_jump] makes an exit of a block jump to another block, once.

    When the guest changes a mapping, [tlb_flush_page] removes the entries for the page
    and all blocks with code in it from the jump cache of the processor; [tlb_flush]
    removes all. *)

From S2P Require Import Prelude QtraceDefs TlbLoad IContext TbState TbPages Tlb TbCache TbLogic TbLinks TbInv TbJumps TbInvalidate TlbInv TbGen TbLinkPage TbGenCode.

(** ** Chaining *)

Lemma chain_end {A} (next : A -> option A) o l a b :
  chain next o l None -> a ∈ l -> b ∈ l -> next a = None -> next b = None -> a = b.
Proof.
  revert o. induction l as [|x l IH]; intros o Hc Ha Hb Ea Eb; [by apply not_elem_of_nil in Ha|]. destruct Hc as [_ Hc].
  assert (next x = None -> l = []) as Hend by (intros E; rewrite E in Hc; destruct l; [done|by destruct Hc]).
  apply elem_of_cons in Ha as [->|Ha].
  - rewrite (Hend Ea) in Hb. by apply list_elem_of_singleton in Hb.
  - apply elem_of_cons in Hb as [->|Hb]; [|by eapply IH]. rewrite (Hend Eb) in Ha. by apply not_elem_of_nil in Ha.
Qed.

Definition chained (J : tagged -> option nat) (x : tagged) (u : nat) (y : tagged) : option nat :=
  if decide (y = x) then Some u else J y.

Section Chain.
Context {machine : Machine} {mapping : Mapping} (G : code_gen).

(** A jump is chained if and only if it has a link. *)
Lemma jump_linked s L J x : jumps_ok s L J -> L x.1 -> (x.2 < 2)%nat -> jnext s x = None <-> J x = None.
Proof.
  intros [J1 J2 J3] Hx Hn. split; [|by apply J3]. intros E. destruct (J x) as [v|] eqn:Ej; [|done]. exfalso.
  destruct (J2 _ _ Ej) as (_ & Hv & _). destruct (li_lists _ _ _ J1 v Hv) as (l & Hc & Hm).
  assert (x = (v, 2%nat)) as ->; [|cbn in Hn; lia]. apply (chain_end _ _ _ _ _ Hc); [..|done|done].
  - apply Hm. split; [done|by right].
  - apply Hm. split; [done|by left].
Qed.

Definition chain_state (x : tagged) (u : nat) (s : cache) : cache :=
  ls_write (AtHead u : slot nat tagged) (Some x)
    (ls_write (After x : slot nat tagged) ((tb_at s u).(jmp_first)) (patched x (tb_at s u).(tc_ptr) s)).

Lemma chained_jumps s L J x u :
  (forall k, k <> Code -> k <> Jumps -> unch k s (chain_state x u s)) -> layout G s L -> jumps_ok s L J ->
  L x.1 -> L u -> has_exit s x -> J x = None -> jumps_ok (chain_state x u s) L (chained J x u).
Proof.
  intros K Y [J1 J2 J3] Hx Hu Hex HJ. assert (unch Core s (chain_state x u s)) as C by by apply K.
  pose proof (live_bound G s L _ Y Hu) as Bu. pose proof (live_bound G s L _ Y Hx) as Bx. pose proof Hex as [Hn _].
  set (s1 := patched x (tb_at s u).(tc_ptr) s) in *. set (s2 := ls_write (After x : slot nat tagged) ((tb_at s u).(jmp_first)) s1) in *.
  assert (ls_ok s1 (After x : slot nat tagged)) as O1 by (by destruct x).
  assert (ls_ok s2 (AtHead u : slot nat tagged)) as O2 by (cbn; destruct x; cbn [ls_write jmp_lists s2]; by rewrite write_tb_length).
  assert (forall h, ls_head (chain_state x u s) h = if decide (h = u) then Some x else ls_head s h) as Hh.
  { intros h. unfold chain_state. fold s1 s2. rewrite (ls_write_head (ListsOf := jmp_lists)) by done. destruct (decide (h = u)) as [->|Hne]; [by rewrite decide_True|].
    rewrite decide_False by congruence. unfold s2. rewrite (ls_write_head (ListsOf := jmp_lists)) by done. by rewrite decide_False. }
  assert (forall y, ls_next (chain_state x u s) y = if decide (y = x) then ls_head s u else ls_next s y) as Hnx.
  { intros y. unfold chain_state. fold s1 s2. rewrite (ls_write_next (ListsOf := jmp_lists)), (decide_False (P := AtHead _ = _)) by done.
    unfold s2. rewrite (ls_write_next (ListsOf := jmp_lists)) by done. destruct (decide (y = x)) as [->|Hne]; [by rewrite decide_True|].
    by rewrite decide_False by congruence. }
  split.
  - assert (lists (chain_state x u s) L (plus (jmp_on J L) x u)) as Hp.
    { apply (lists_insert s); [done|done| |by intros h _|intros y Hy; rewrite Hnx; by rewrite decide_False|rewrite Hnx; by rewrite decide_True].
      intros h [_ [-> | [_ H]]]; [cbn in Hn; lia|congruence]. }
    revert Hp. apply lists_ext; try done. intros y h. unfold plus, jmp_on, chained. case_decide as E; [subst y|].
    + split; [intros [HL [-> | [_ [= ->]]]]; [cbn in Hn; lia|by right]|]. intros [[_ [-> | [_ H]]]|[_ ->]]; [cbn in Hn; lia|congruence|]. split; [done|by right].
    + split; [by left|]. intros [?|[? _]]; done.
  - intros y t. unfold chained. rewrite (core_has_exit s (chain_state x u s)) by done. case_decide as E; [intros [= <-]; by subst|apply J2].
  - intros y Hy Hy2. unfold chained. case_decide as E; [done|]. intros HJy. change (jnext (chain_state x u s) y) with (ls_next (chain_state x u s) y).
    rewrite Hnx, decide_False by done. by apply J3.
Qed.

Lemma chained_ok s L J x u :
  cache_inv G s L J -> L x.1 -> L u -> has_exit s x -> J x = None ->
  cache_inv G (chain_state x u s) L (chained J x u) /\ (forall k, k <> Code -> k <> Jumps -> unch k s (chain_state x u s)) /\
  code_kept L s (chain_state x u s).
Proof.
  intros [I1 I2 I3 I4 I5 I6 I7 I8] Hx Hu Hex HJ.
  assert (forall k, k <> Code -> k <> Jumps -> unch k s (chain_state x u s)) as K.
  { intros k H1 H2. eapply unch_trans; [by apply (patched_unch x (tb_at s u).(tc_ptr))|]. eapply unch_trans; [by apply (write_jmp_unch (After x))|].
    by apply write_jmp_unch. }
  assert (unch Core s (chain_state x u s)) as C by by apply K. split_and!; [|done|].
  2:{ eapply code_kept_trans; [by apply (patched_unch x (tb_at s u).(tc_ptr) s Core)|done|by apply patched_code|]. apply code_kept_eq. by destruct x. }
  split.
  - by apply (layout_frame G s).
  - apply (hash_frame s); [by apply K|done|done].
  - apply (page_frame s); [by apply K|done|done].
  - by apply chained_jumps.
  - intros y Hy. rewrite (core_has_exit s (chain_state x u s)) by done. intros Hey.
    assert (jump_dest (chain_state x u s) y = jump_dest (patched x (tb_at s u).(tc_ptr) s) y) as ->.
    { unfold jump_dest. rewrite (core_jmp_field s (chain_state x u s)) by done. destruct x; done. }
    rewrite (patched_dest G s L) by (done || by apply (start_in_buffer G s L)). unfold chained. destruct (decide (y = x)) as [->|Hne].
    + by core_rewrite C.
    + rewrite I5, (core_exit_code s (chain_state x u s)) by done. destruct (J y); [|done]. by core_rewrite C.
  - apply (bitmaps_frame s _ L); [by apply bitmaps_kept_unch, K|done|done|done].
  - intros c. rewrite (K Cpus) by done. destruct C as (_ & _ & _ & _ & ->). apply I7.
  - apply (caches_frame s _ L (K Caches ltac:(done) ltac:(done)) C I8).
Qed.

Lemma wpc_tb_add_jump X s L J t n u (Q : unit -> cache -> Prop) :
  full_inv G s L J -> L t -> L u -> has_exit s (t, n) ->
  (forall s', full_inv G s' L (if decide (J (t, n) = None) then chained J (t, n) u else J) -> unch Core s s' -> s'.(host_mem) = s.(host_mem) ->
     code_kept L s s' -> Q tt s') ->
  wpc (tb_add_jump t n u) Q X s.
Proof.
  intros [I T C F] Ht Hu Hex HQ. pose proof (ci_layout _ _ _ _ I) as Y. pose proof (live_bound G s L _ Y Ht) as Bt. pose proof (live_bound G s L _ Y Hu) as Bu.
  pose proof (jump_linked s L J (t, n) (ci_jumps _ _ _ _ I) Ht (proj1 Hex)) as Hj. pose proof Hex as [Hn _]. cbn [snd] in Hn.
  apply wpc_bind, wpc_get_tb; [done|]. apply wpc_bind. eapply wpc_lift; [by apply sel_link2|].
  change (link2 n (tb_at s t).(jmp_next)) with (jnext s (t, n)). destruct (jnext s (t, n)) as [y|] eqn:E.
  - apply wpc_ret, HQ; [|apply unch_refl|done|done]. rewrite decide_False; [by split|]. intros H. by apply Hj in H.
  - apply wpc_bind, wpc_get_tb; [done|]. apply wpc_bind, wpc_tb_set_jmp_target; [by split|]. apply wpc_bind, wpc_get_tb; [done|].
    apply wpc_bind, wpc_upd_tb; [done|]. apply wpc_upd_tb; [cbn [tbs set_tbs]; by rewrite length_insert|].
    destruct (chained_ok s L J (t, n) u) as (I' & K & Hck); [done|done|done|done|by apply Hj|].
    match goal with |- Q tt ?x => change x with (chain_state (t, n) u s) end. set (s' := chain_state (t, n) u s) in *. clearbody s'.
    destruct (K Memory ltac:(done) ltac:(done)) as [Ed Em]. assert (unch Core s s') as C' by by apply K. apply HQ; [|done|done|done].
    rewrite decide_True by by apply Hj. assert (s'.(cpus) = s.(cpus)) as Ec by by apply (K Cpus). split; [done| | |].
    + intros k c. rewrite Ec, Ed. apply T.
    + intros x p Hx. rewrite Ed. apply (C x). by rewrite (page_on_core s s') in Hx.
    + revert F. apply caches_fit_unch; [by apply K|done].
Qed.
End Chain.

(** ** The hash of the jump cache *)

Definition jmp_tmp (pc : Z) : Z := Z.lxor pc (Z.shiftr pc (TARGET_PAGE_BITS - TB_JMP_PAGE_BITS)).

Lemma jmp_cache_hash_sum pc : tb_jmp_cache_hash_func pc = tb_jmp_cache_hash_page pc + Z.land (jmp_tmp pc) TB_JMP_ADDR_MASK.
Proof.
  unfold tb_jmp_cache_hash_func, tb_jmp_cache_hash_page. fold (jmp_tmp pc). set (a := Z.shiftr (jmp_tmp pc) _). rewrite <- Z.add_lor_land.
  assert (Z.land (Z.land a TB_JMP_PAGE_MASK) (Z.land (jmp_tmp pc) TB_JMP_ADDR_MASK) = 0) as E; [|by rewrite E, Z.add_0_r].
  rewrite <- Z.land_assoc, (Z.land_comm TB_JMP_PAGE_MASK), <- Z.land_assoc.
  change (Z.land TB_JMP_ADDR_MASK TB_JMP_PAGE_MASK) with 0. by rewrite !Z.land_0_r.
Qed.

(** The hash of a page depends on the number of the page only. *)
Lemma jmp_cache_hash_masked pc : tb_jmp_cache_hash_page pc = tb_jmp_cache_hash_page (Z.land pc TARGET_PAGE_MASK).
Proof.
  unfold tb_jmp_cache_hash_page. change (TARGET_PAGE_BITS - TB_JMP_PAGE_BITS) with 6. apply Z.bits_inj'. intros i Hi.
  rewrite !Z.land_spec. destruct (decide (6 <= i < 12)) as [Hin|Hout].
  - rewrite !Z.shiftr_spec, !Z.lxor_spec, !Z.shiftr_spec, !Z.land_spec by lia.
    change TARGET_PAGE_MASK with (Z.lnot (Z.ones 12)). rewrite !Z.lnot_spec, !Z.ones_spec_high by lia. cbn [negb]. by rewrite !andb_true_r.
  - assert (Z.testbit TB_JMP_PAGE_MASK i = false) as ->; [|by rewrite !andb_false_r].
    change TB_JMP_PAGE_MASK with (Z.ldiff (Z.ones 12) (Z.ones 6)). rewrite Z.ldiff_spec.
    destruct (decide (i < 6)); [rewrite !Z.ones_spec_low by lia; done|]. by rewrite Z.ones_spec_high by lia.
Qed.

Lemma jmp_cache_hash_range pc : tb_jmp_cache_hash_page (Z.land pc TARGET_PAGE_MASK) <= tb_jmp_cache_hash_func pc
  < tb_jmp_cache_hash_page (Z.land pc TARGET_PAGE_MASK) + TB_JMP_PAGE_SIZE.
Proof.
  rewrite jmp_cache_hash_sum, <- jmp_cache_hash_masked. change TB_JMP_ADDR_MASK with (Z.ones 6). rewrite Z.land_ones by done.
  change TB_JMP_PAGE_SIZE with (2 ^ 6). pose proof (Z.mod_pos_bound (jmp_tmp pc) (2 ^ 6) ltac:(done)). lia.
Qed.

Section Flush.
Context {machine : Machine} {mapping : Mapping} (G : code_gen).

(** A processor with fewer entries. *)
Record shrunk (c c' : CPUState) : Prop := {
  sh_watch : c'.(watchpoints) = c.(watchpoints);
  sh_cache : forall h t, c'.(tb_jmp_cache) !! h = Some t -> c.(tb_jmp_cache) !! h = Some t;
  sh_tlb : forall m i, in_tlb m i = true ->
    c'.(tlb_table) m i = s_cputlb_empty_entry \/ c'.(tlb_table) m i = c.(tlb_table) m i /\ c'.(iotlb) m i = c.(iotlb) m i
}.

Lemma full_inv_shrunk s n c c' L J (s' := set_cpus (<[n := c']> s.(cpus)) s) :
  full_inv G s L J -> s.(cpus) !! n = Some c -> shrunk c c' -> full_inv G s' L J.
Proof.
  intros [I T C F] Hc [Hwp Hj Ht].
  assert (forall k d h t, s'.(cpus) !! k = Some d -> d.(tb_jmp_cache) !! h = Some t -> exists d0, s.(cpus) !! k = Some d0 /\ d0.(tb_jmp_cache) !! h = Some t) as Hold.
  { intros k d h t Hk Hd. cbn [cpus s' set_cpus] in Hk. apply list_lookup_insert_Some in Hk as [(-> & <- & _)|[_ Hk]]; [exists c|exists d]; auto. }
  assert (forall k, k <> Cpus -> k <> Caches -> k <> Tlbs -> unch k s s') as K.
  { intros k H1 H2 H3. destruct k; try done; try (intros q Hq; exact Hq); try (apply (unch_refl _ s)). }
  split.
  - apply (cache_inv_parts G s); [intros k [-> | [-> | [-> | ->]]]; by apply K|apply (hash_frame s); [by apply K|by apply K|apply I]|
      exact (ci_bitmaps _ _ _ _ I)|apply length_insert| |done].
    intros d h u [k Hk]%list_elem_of_lookup Hu. destruct (Hold k d h u Hk Hu) as (d0 & Hk0 & Hu0).
    apply (ci_caches _ _ _ _ I d0); [by eapply list_elem_of_lookup_2|done].
  - intros k d Hk m i Hi. cbn [cpus s' set_cpus] in Hk. apply list_lookup_insert_Some in Hk as [(-> & <- & _)|[_ Hk]]; [|by apply (T k d)].
    rewrite Hwp. destruct (Ht m i Hi) as [-> | [-> ->]]; [apply empty_entry_ok|by apply (T k c)].
  - exact C.
  - revert F. apply caches_fit_frame. intros k d h t Hk Hd. split; [by apply (Hold k d h t)|done].
Qed.

(** No entry of the TLB of [c] is for the page at [v], and no block of its jump cache has
    code there. *)
Definition tag_of (a : Z) : Z := Z.land a (Z.lor TARGET_PAGE_MASK TLB_INVALID_MASK).
Record unmapped (s : cache) (v : Z) (c : CPUState) : Prop := {
  um_tlb : forall m, in_modes m = true -> let e := c.(tlb_table) m (tlb_index v) in
    tag_of e.(addr_read) <> v /\ tag_of e.(addr_write) <> v /\ tag_of e.(addr_code) <> v;
  um_cache : forall h t k, c.(tb_jmp_cache) !! h = Some t -> 0 <= k < (tb_at s t).(tb_size) ->
    Z.land (u64 ((tb_at s t).(tb_pc) + k)) TARGET_PAGE_MASK <> v
}.

Lemma empty_entry_tag v : aligned v -> tag_of (u64 (-1)) <> v.
Proof. intros Av <-. vm_compute in Av. discriminate Av. Qed.

Lemma flush_entry_tags v e : aligned v -> let e' := tlb_flush_entry v e in
  tag_of e'.(addr_read) <> v /\ tag_of e'.(addr_write) <> v /\ tag_of e'.(addr_code) <> v.
Proof.
  intros Av. unfold tlb_flush_entry. destruct (_ || _) eqn:E.
  - cbn [addr_read addr_write addr_code s_cputlb_empty_entry]. pose proof (empty_entry_tag v Av). done.
  - apply orb_false_iff in E as [[E1%Z.eqb_neq E2%Z.eqb_neq]%orb_false_iff E3%Z.eqb_neq]. unfold tag_of. auto.
Qed.

(** A block with code in the page at [v] starts in that page or in the one before. *)
Lemma block_page_near pc k : in_u 64 pc -> 0 <= k < TARGET_PAGE_SIZE ->
  let v := Z.land (u64 (pc + k)) TARGET_PAGE_MASK in Z.land pc TARGET_PAGE_MASK = v \/ Z.land pc TARGET_PAGE_MASK = u64 (v - TARGET_PAGE_SIZE).
Proof.
  intros Hpc Hk v. destruct (decide (Z.land pc TARGET_PAGE_MASK = v)) as [|Hne]; [by left|right].
  pose proof (next_page pc (k + 1) Hpc ltac:(lia)) as E. replace (pc + (k + 1) - 1) with (pc + k) in E by lia. cbn zeta in E. fold v in E.
  rewrite (E Hne), wrap_sub_l by done. replace (Z.land pc TARGET_PAGE_MASK + TARGET_PAGE_SIZE - TARGET_PAGE_SIZE) with (Z.land pc TARGET_PAGE_MASK) by lia.
  symmetry. apply wrap_id. by apply masked_in_u.
Qed.

Lemma flush_cache_page s L J n c c' v : full_inv G s L J -> s.(cpus) !! n = Some c -> aligned v ->
  c'.(tb_jmp_cache) = (flush_jmp_cache v c).(tb_jmp_cache) ->
  forall h t k, c'.(tb_jmp_cache) !! h = Some t -> 0 <= k < (tb_at s t).(tb_size) -> Z.land (u64 ((tb_at s t).(tb_pc) + k)) TARGET_PAGE_MASK <> v.
Proof.
  intros I Hc Av -> h t k Ht Hk E. cbn [tb_jmp_cache flush_jmp_cache set_tb_jmp_cache] in Ht. unfold clear_jmp_page in Ht.
  apply map_lookup_filter_Some in Ht as [Ht H1]. apply map_lookup_filter_Some in Ht as [Ht H2]. cbn [fst] in *.
  destruct (ci_caches _ _ _ _ (fi_cache _ _ _ _ I) c h t (list_elem_of_lookup_2 _ _ _ Hc) Ht) as [HL Hh].
  destruct (ly_block G s L (ci_layout _ _ _ _ (fi_cache _ _ _ _ I)) t HL) as [_ _ Hpc Hsz _].
  pose proof (jmp_cache_hash_range (tb_at s t).(tb_pc)) as Hr. rewrite Hh in Hr.
  destruct (block_page_near (tb_at s t).(tb_pc) k Hpc ltac:(lia)) as [E'|E']; rewrite E in E'; rewrite E' in Hr; auto.
Qed.

Lemma flush_cpu_shrunk c : shrunk c (tlb_flush_cpu c).
Proof.
  split; [done|intros h t H; cbn in H; by rewrite lookup_empty in H|]. intros m i Hi. left. cbn. unfold map_tlb. by rewrite Hi.
Qed.

Lemma wpc_tlb_flush X s L J n (Q : unit -> cache -> Prop) : full_inv G s L J -> has_env s n ->
  (forall s' c', full_inv G s' L J -> s'.(cpus) !! n = Some c' -> s' = set_cpus s'.(cpus) s -> (forall v, aligned v -> unmapped s' v c') -> Q tt s') ->
  wpc (tlb_flush n) Q X s.
Proof.
  intros I [c Hc] HQ. eapply wpc_upd_cpu; [done|]. apply (HQ _ (tlb_flush_cpu c)).
  - by apply (full_inv_shrunk s n c); [..|apply flush_cpu_shrunk].
  - cbn [cpus set_cpus]. apply list_lookup_insert_eq. by eapply lookup_lt_Some.
  - done.
  - intros v Av. pose proof (empty_entry_tag v Av) as H. split; [|intros h t k Ht; cbn in Ht; by rewrite lookup_empty in Ht].
    intros m Hm. cbn. unfold map_tlb. rewrite (tlb_index_in m v Hm). done.
Qed.

Lemma wpc_tlb_flush_page X s L J n addr (v := Z.land addr TARGET_PAGE_MASK) (Q : unit -> cache -> Prop) : full_inv G s L J -> has_env s n ->
  (forall s' c', full_inv G s' L J -> s'.(cpus) !! n = Some c' -> s' = set_cpus s'.(cpus) s -> unmapped s' v c' -> Q tt s') ->
  wpc (tlb_flush_page n addr) Q X s.
Proof.
  intros I Hn HQ. pose proof Hn as [c Hc]. apply wpc_bind. eapply wpc_get_cpu; [done|]. assert (aligned v) as Av by apply aligned_mask.
  destruct (_ =? _); [eapply wpc_tlb_flush; [done|done|]; intros s' c' I' Hc' E' Hu; eapply HQ; by auto|].
  assert (n < length s.(cpus))%nat as Hl by by eapply lookup_lt_Some.
  apply wpc_bind. eapply wpc_upd_cpu; [done|]. apply wpc_bind. eapply wpc_upd_cpu; [cbn [cpus set_cpus]; by apply list_lookup_insert_eq|].
  eapply wpc_upd_cpu; [cbn [cpus set_cpus]; apply list_lookup_insert_eq; by rewrite length_insert|]. cbn [cpus set_cpus]. rewrite !list_insert_insert_eq.
  match goal with |- Q tt (set_cpus (<[n := ?c']> _) _) => set (c3 := c') end. fold v in c3.
  change (Q tt (set_cpus (<[n := c3]> s.(cpus)) s)). apply (HQ _ c3).
  - apply (full_inv_shrunk s n c); [done|done|]. split; [done|..].
    + intros h t Ht. cbn [c3 tb_jmp_cache flush_jmp_cache set_tb_jmp_cache set_tlb set_current_tb] in Ht. unfold clear_jmp_page in Ht.
      by apply map_lookup_filter_Some in Ht as [[Ht _]%map_lookup_filter_Some _].
    + intros m i Hi. cbn [c3 tlb_table iotlb flush_jmp_cache set_tb_jmp_cache set_tlb set_current_tb]. unfold map_tlb.
      case_match; [|by right]. unfold tlb_flush_entry. case_match; [by left|by right].
  - cbn [cpus set_cpus]. by apply list_lookup_insert_eq.
  - done.
  - split; [|by apply (flush_cache_page s L J n c c3 v)]. intros m Hm. cbn [c3 tlb_table flush_jmp_cache set_tb_jmp_cache set_tlb set_current_tb].
    unfold map_tlb. rewrite Hm, Z.eqb_refl. by apply flush_entry_tags.
Qed.
End Flush.

(** ** Changes of the page tables

    The invariant is one for the page tables as the processor uses them.  When pages are
    mapped anew and flushed, the invariant holds for the new page tables. *)

Section Remap.
Context {machine : Machine} (G : code_gen) (M M' : Mapping) (n : nat) (P : Z -> Prop).
Context (Hsame : forall k w, aligned w -> k <> n \/ ~ P w -> phys_map (Mapping := M') k w = phys_map (Mapping := M) k w).

Lemma same_host k w : aligned w -> k <> n \/ ~ P w -> host_map (mapping := M') k w = host_map (mapping := M) k w.
Proof. intros Aw Hne. unfold host_map. by rewrite Hsame. Qed.

Lemma remapped_entry k wps d i e io :
  (testb e.(addr_code) TLB_INVALID_MASK = false -> tlb_index (code_tag e) = i -> k <> n \/ ~ P (code_tag e)) ->
  (valid_write e = true -> tlb_index (write_tag e) = i -> k <> n \/ ~ P (write_tag e)) ->
  entry_ok (mapping := M) k wps d i e io -> entry_ok (mapping := M') k wps d i e io.
Proof.
  intros Hc Hw [E1 E2 E3 E4 E5]. assert (aligned (code_tag e) /\ aligned (write_tag e)) as [Ac Aw] by (split; apply aligned_mask). split; [|done|..|done].
  - destruct E1 as [E1|[C1 C2 C3 C4 C5]]; [by left|right]. specialize (Hc C1 C2). split; [done|done|done|by rewrite same_host|].
    unfold in_memory in *. by rewrite Hsame.
  - intros Hr. pose proof (ram_entry_valid e Hr) as Hv. rewrite same_host by auto. by apply E3.
  - intros Hr Hv. rewrite Hsame by auto. by apply E4.
Qed.

Lemma remapped_fits k tb : block_ok tb ->
  (k = n -> forall o, 0 <= o < tb.(tb_size) -> ~ P (Z.land (u64 (tb.(tb_pc) + o)) TARGET_PAGE_MASK)) ->
  fits (mapping := M) k tb -> fits (mapping := M') k tb.
Proof.
  intros [_ _ Hpc Hsz Hsp] Hno [F1 F2].
  assert (forall o, 0 <= o < tb.(tb_size) -> k <> n \/ ~ P (Z.land (u64 (tb.(tb_pc) + o)) TARGET_PAGE_MASK)) as Hne
    by (intros o Ho; destruct (decide (k = n)); [right; by apply Hno|by left]).
  split.
  - rewrite same_host; [done|apply aligned_mask|]. specialize (Hne 0 ltac:(lia)). by rewrite Z.add_0_r, wrap_id in Hne.
  - intros Hp. specialize (F2 Hp). specialize (Hne (tb.(tb_size) - 1) ltac:(lia)). rewrite Z.add_sub_assoc in Hne.
    assert (Z.land (u64 (tb.(tb_pc) + tb.(tb_size) - 1)) TARGET_PAGE_MASK = u64 (Z.land tb.(tb_pc) TARGET_PAGE_MASK + TARGET_PAGE_SIZE)) as En
      by (apply next_page; [done|done|]; intros E; by apply Hp, Hsp).
    rewrite <- En in *. rewrite same_host; [done|apply aligned_mask|done].
Qed.

Lemma remapped_inv s L J c : full_inv (mapping := M) G s L J -> s.(cpus) !! n = Some c ->
  (forall v, aligned v -> P v -> unmapped s v c) -> full_inv (mapping := M') G s L J.
Proof.
  intros [I T C F] Hc U. split; [done| |done|].
  - intros k d Hk m i Hi. apply remapped_entry; [| |by apply (T k d)]; intros Hv Hx; (destruct (decide (k = n)) as [->|]; [right|by left]);
      (assert (d = c) as -> by congruence); intros HP; apply andb_prop in Hi as [[Hm _]%andb_prop _];
      destruct (um_tlb _ _ _ (U _ (aligned_mask _) HP) m Hm) as (_ & N1 & N2).
    + apply N2. fold (code_tag (c.(tlb_table) m i)). rewrite Hx. unfold tag_of. by apply valid_tag.
    + apply N1. fold (write_tag (c.(tlb_table) m i)). rewrite Hx. unfold tag_of. apply valid_tag. by apply negb_true_iff.
  - intros k d h t Hk Ht. destruct (ci_caches _ _ _ _ I d h t (list_elem_of_lookup_2 _ _ _ Hk) Ht) as [HL _].
    apply remapped_fits; [by apply (ly_block G s L (ci_layout _ _ _ _ I))| |by apply (F k d h t)]. intros -> o Ho HP. assert (d = c) as -> by congruence.
    by apply (um_cache _ _ _ (U _ (aligned_mask _) HP) h t o).
Qed.
End Remap.
