(* ===== verification/TbBitmap.v ===== *)
(** * Bitmaps of the code in a page

    [set_bits] sets exactly the bits of a range, and [build_page_bitmap] those of the
    code of the blocks of a page. *)

From S2P Require Import Prelude QtraceDefs TlbLoad IContext TbState TbPages Tlb TbCache TbLogic TbLinks TbInv TbJumps.

Lemma put_byte_spec tab i f : 0 <= i < Z.of_nat (length tab) ->
  exists tab', put_byte i f tab = Ok tab' /\ length tab' = length tab /\
    forall x, 0 <= x -> bit_at tab' x = if x / 8 =? i then Z.testbit (f (tab !!! Z.to_nat i)) (x mod 8) else bit_at tab x.
Proof.
  intros Hi. assert (Z.to_nat i < length tab)%nat as Hn by lia. destruct (lookup_lt_is_Some_2 tab _ Hn) as [b Hb].
  unfold put_byte. rewrite Hb, (proj2 (Z.leb_le 0 i)) by lia. eexists. split; [done|]. split; [apply length_insert|].
  intros x Hx. unfold bit_at. destruct (Z.eqb_spec (x / 8) i) as [E|E].
  - rewrite E, list_lookup_total_insert_eq by done. by rewrite (list_lookup_total_correct _ _ _ Hb).
  - rewrite list_lookup_total_insert_ne; [done|]. intros E'. apply E. assert (0 <= x / 8) by (apply Z.div_pos; lia). lia.
Qed.

(** Byte [i] gets the bits of [m]. *)
Lemma or_byte_spec tab i m : 0 <= i < Z.of_nat (length tab) ->
  exists tab', or_byte i m tab = Ok tab' /\ length tab' = length tab /\
    forall x, 0 <= x -> bit_at tab' x = bit_at tab x || (x / 8 =? i) && Z.testbit m (x mod 8).
Proof.
  intros Hi. destruct (put_byte_spec tab i (fun b => u8 (Z.lor b m)) Hi) as (t & E & L & B). exists t. split_and!; [done|done|].
  intros x Hx. rewrite B by done. pose proof (Z.mod_pos_bound x 8 ltac:(done)) as Hm. destruct (Z.eqb_spec (x / 8) i) as [<-|_].
  - unfold wrap. rewrite <- Z.land_ones, Z.land_spec, Z.lor_spec, Z.ones_spec_low, andb_true_r by lia. done.
  - by rewrite orb_false_r.
Qed.

Lemma fill_bytes_spec n : forall i tab, 0 <= i -> i + Z.of_nat n <= Z.of_nat (length tab) ->
  exists tab', fill_bytes n i tab = Ok tab' /\ length tab' = length tab /\
    forall x, 0 <= x -> bit_at tab' x = bit_at tab x || ((i <=? x / 8) && (x / 8 <? i + Z.of_nat n)).
Proof.
  induction n as [|n IH]; intros i tab Hi Hn; cbn [fill_bytes].
  - exists tab. split_and!; [done|done|]. intros x _. destruct (Z.leb_spec i (x / 8)), (Z.ltb_spec (x / 8) (i + Z.of_nat 0)); try lia; by rewrite orb_false_r.
  - destruct (put_byte_spec tab i (fun _ => 0xff) ltac:(lia)) as (t1 & -> & L1 & B1). cbn [mbind res_bind].
    destruct (IH (i + 1) t1 ltac:(lia) ltac:(lia)) as (t2 & E2 & L2 & B2). exists t2. split_and!; [done|congruence|].
    intros x Hx. rewrite B2, B1 by done. change 0xff with (Z.ones 8).
    rewrite Z.ones_spec_low by (apply Z.mod_pos_bound; lia).
    destruct (Z.eqb_spec (x / 8) i), (Z.leb_spec (i + 1) (x / 8)), (Z.leb_spec i (x / 8)),
      (Z.ltb_spec (x / 8) (i + 1 + Z.of_nat n)), (Z.ltb_spec (x / 8) (i + Z.of_nat (S n))); try lia; cbn; by rewrite ?orb_false_r, ?orb_true_r.
Qed.

(** ** Ranges *)

Lemma land7 x : Z.land x 7 = x mod 8.
Proof. change 7 with (Z.ones 3). by rewrite Z.land_ones by done. Qed.
Lemma mask7 x : Z.land x (Z.lnot 7) = 8 * (x / 8).
Proof.
  change 7 with (Z.ones 3). rewrite <- Z.ldiff_land, Z.ldiff_ones_r, Z.shiftr_div_pow2, Z.shiftl_mul_pow2 by done. change (2 ^ 3) with 8. lia.
Qed.
Lemma mask_low k j : 0 <= k -> 0 <= j < 8 -> Z.testbit (Z.shiftl 0xff k) j = (k <=? j).
Proof.
  intros Hk Hj. change 0xff with (Z.ones 8). rewrite Z.shiftl_spec by lia. destruct (Z.leb_spec k j).
  - apply Z.ones_spec_low. lia.
  - apply Z.testbit_neg_r. lia.
Qed.

(** Exactly the bits from [start] to [start + len] are set. *)
Lemma set_bits_spec tab start len : 0 <= start -> 0 <= len -> start + len <= 8 * Z.of_nat (length tab) ->
  exists tab', set_bits tab start len = Ok tab' /\ length tab' = length tab /\
    forall x, 0 <= x -> bit_at tab' x = bit_at tab x || ((start <=? x) && (x <? start + len)).
Proof.
  intros Hs Hl Hb. unfold set_bits. rewrite !land7, !mask7. set (last := start + len) in *.
  rewrite Z.shiftr_div_pow2 by done. change (2 ^ 3) with 8.
  pose proof (Z.div_mod start 8 ltac:(done)) as Ds. pose proof (Z.div_mod last 8 ltac:(done)) as Dl.
  pose proof (Z.mod_pos_bound start 8 ltac:(done)) as Ms. pose proof (Z.mod_pos_bound last 8 ltac:(done)) as Ml.
  assert (forall x, 0 <= x mod 8 < 8 /\ x = 8 * (x / 8) + x mod 8) as Hx.
  { intros x. split; [apply Z.mod_pos_bound; lia|apply Z.div_mod; lia]. }
  destruct (Z.eqb_spec (8 * (start / 8)) (8 * (last / 8))) as [E|E].
  - destruct (Z.ltb_spec start last) as [Hlt|Hge].
    + destruct (or_byte_spec tab (start / 8) (Z.land (Z.shiftl 0xff (start mod 8)) (Z.lnot (Z.shiftl 0xff (last mod 8))))) as (t & -> & L & B).
      { lia. }
      exists t. split_and!; [done|done|]. intros x H0. rewrite B by done. f_equal. destruct (Hx x) as [Hm Ex].
      rewrite Z.land_spec, Z.lnot_spec, !mask_low by lia.
      destruct (Z.eqb_spec (x / 8) (start / 8)), (Z.leb_spec (start mod 8) (x mod 8)), (Z.leb_spec (last mod 8) (x mod 8)),
        (Z.leb_spec start x), (Z.ltb_spec x last); try lia; done.
    + exists tab. split_and!; [done|done|]. intros x _. destruct (Z.leb_spec start x), (Z.ltb_spec x last); try lia; by rewrite orb_false_r.
  - assert (start / 8 < last / 8) as Hab by lia.
    destruct (or_byte_spec tab (start / 8) (Z.shiftl 0xff (start mod 8)) ltac:(lia)) as (t1 & -> & L1 & B1). cbn [mbind res_bind].
    assert ((start + 8) / 8 = start / 8 + 1) as Es8 by (rewrite <- Z.div_add by lia; f_equal; lia). rewrite Es8.
    replace ((8 * (last / 8) - 8 * (start / 8 + 1)) / 8) with (last / 8 - start / 8 - 1)
      by (replace (8 * (last / 8) - 8 * (start / 8 + 1)) with ((last / 8 - start / 8 - 1) * 8) by lia; by rewrite Z.div_mul).
    destruct (fill_bytes_spec (Z.to_nat (last / 8 - start / 8 - 1)) (start / 8 + 1) t1 ltac:(lia) ltac:(lia)) as (t2 & -> & L2 & B2).
    cbn [mbind res_bind]. rewrite Z2Nat.id in * by lia.
    assert (forall x, 0 <= x -> bit_at t2 x = bit_at tab x || ((start <=? x) && (x <? 8 * (last / 8)))) as B3.
    { intros x H0. rewrite B2, B1 by done. rewrite <- orb_assoc. f_equal. destruct (Hx x) as [Hm Ex]. rewrite mask_low by lia.
      destruct (Z.eqb_spec (x / 8) (start / 8)), (Z.leb_spec (start mod 8) (x mod 8)), (Z.leb_spec (start / 8 + 1) (x / 8)),
        (Z.ltb_spec (x / 8) (start / 8 + 1 + (last / 8 - start / 8 - 1))), (Z.leb_spec start x), (Z.ltb_spec x (8 * (last / 8))); try lia; done. }
    destruct (Z.ltb_spec (Z.max (8 * (start / 8 + 1)) (8 * (last / 8))) last) as [Hlt|Hge].
    + destruct (or_byte_spec t2 (start / 8 + 1 + (last / 8 - start / 8 - 1)) (Z.lnot (Z.shiftl 0xff (last mod 8)))) as (t3 & -> & L3 & B4).
      { lia. }
      exists t3. split_and!; [done|congruence|]. intros x H0. rewrite B4, B3, <- orb_assoc by done. f_equal. destruct (Hx x) as [Hm Ex].
      rewrite Z.lnot_spec, mask_low by lia.
      destruct (Z.eqb_spec (x / 8) (start / 8 + 1 + (last / 8 - start / 8 - 1))), (Z.leb_spec (last mod 8) (x mod 8)),
        (Z.leb_spec start x), (Z.ltb_spec x (8 * (last / 8))), (Z.ltb_spec x last); try lia; done.
    + exists t2. split_and!; [done|congruence|]. intros x H0. rewrite B3 by done. f_equal. f_equal.
      destruct (Z.ltb_spec x (8 * (last / 8))), (Z.ltb_spec x last); try lia; done.
Qed.

(** ** The bitmap of a page *)

Definition covers (s : cache) (i : Z) (x : tagged) : bool :=
  let '(a, b) := code_in_page (tb_at s x.1) x.2 in (a <=? i) && (i <? b).

Lemma page_offset_bound x : 0 <= page_offset x < TARGET_PAGE_SIZE.
Proof.
  unfold page_offset. change (Z.lnot TARGET_PAGE_MASK) with (Z.ones 12). rewrite Z.land_ones by done.
  change TARGET_PAGE_SIZE with (2 ^ 12). by apply Z.mod_pos_bound.
Qed.

Lemma code_in_page_bound tb n : block_ok tb ->
  0 <= (code_in_page tb n).1 <= (code_in_page tb n).2 /\ (code_in_page tb n).2 <= TARGET_PAGE_SIZE.
Proof.
  intros Hb. pose proof (bo_size tb Hb) as Hs. unfold code_in_page. destruct (n =? 0)%nat.
  - pose proof (page_offset_bound tb.(tb_pc)). cbn [fst snd]. destruct (Z.ltb_spec TARGET_PAGE_SIZE (page_offset tb.(tb_pc) + tb.(tb_size))); lia.
  - pose proof (page_offset_bound (u64 (tb.(tb_pc) + tb.(tb_size)))). cbn [fst snd]. lia.
Qed.

Section Bitmap.
Context (G : code_gen).

Lemma wpc_mark_blocks X s L p l : layout G s L -> forall fuel o tab (Q : list Z -> cache -> Prop),
  chain (pnext s) o l None -> (forall x, x ∈ l -> page_on s L x p) -> (length l <= fuel)%nat ->
  length tab = Z.to_nat (TARGET_PAGE_SIZE / 8) ->
  (forall tab', length tab' = length tab -> (forall i, 0 <= i -> bit_at tab' i = bit_at tab i || existsb (covers s i) l) -> Q tab' s) ->
  wpc (mark_blocks fuel o tab) Q X s.
Proof.
  intros Y. induction l as [|[t n] l IH]; intros fuel o tab Q Hc Hl Hf Ht HQ.
  - cbn in Hc. subst. destruct fuel; (apply wpc_ret, HQ; [done|]; intros i _; by rewrite orb_false_r).
  - destruct Hc as [-> Hc]. destruct fuel as [|fuel]; [cbn in Hf; lia|]. cbn [mark_blocks].
    destruct (Hl (t, n) (list_elem_of_here _ _)) as (HL & Hu & _). cbn [fst snd] in *.
    pose proof (live_bound G s L t Y HL) as Hlt. apply wpc_bind, wpc_get_tb; [done|].
    destruct (code_in_page (tb_at s t) n) as [a b] eqn:Eab.
    pose proof (code_in_page_bound _ n (ly_block G s L Y t HL)) as Hab. rewrite Eab in Hab. cbn [fst snd] in Hab.
    destruct (set_bits_spec tab a (b - a)) as (t1 & E1 & L1 & B1); [lia|lia|rewrite Ht; change TARGET_PAGE_SIZE with 4096 in *; change (Z.to_nat (4096 / 8)) with 512%nat; lia|].
    apply wpc_bind. eapply wpc_lift; [exact E1|]. apply wpc_bind. eapply wpc_lift; [apply sel_link2; destruct Hu as [->|[-> _]]; lia|].
    apply IH; [exact Hc|intros x Hx; by apply Hl, list_elem_of_further|cbn in Hf; lia|congruence|].
    intros t2 L2 B2. apply HQ; [congruence|]. intros i Hi. rewrite B2, B1 by done. rewrite <- orb_assoc. f_equal.
    cbn [existsb]. f_equal. unfold covers. cbn [fst snd]. rewrite Eab. by replace (a + (b - a)) with b by lia.
Qed.

Lemma bit_at_zeroes n i : 0 <= i < 8 * Z.of_nat n -> bit_at (replicate n 0) i = false.
Proof.
  intros Hi. unfold bit_at. assert (i / 8 < Z.of_nat n) by (apply Z.div_lt_upper_bound; lia).
  assert (0 <= i / 8) by (apply Z.div_pos; lia). rewrite list_lookup_total_alt, lookup_replicate_2 by lia. apply Z.testbit_0_l.
Qed.

(** The new bitmap has exactly the bits of the code in the page. *)
Lemma wpc_build_page_bitmap X s L J p (Q : unit -> cache -> Prop) :
  cache_inv G s L J -> page_index p -> is_Some (find_in L1_LEVEL s.(l1_map) p) ->
  (forall tab l, let s' := write_page_st p (set_code_bitmap (Some tab)) s in
     cache_inv G s' L J -> (forall x, x ∈ l <-> page_on s L x p) -> (forall i, 0 <= i < TARGET_PAGE_SIZE -> bit_at tab i = existsb (covers s i) l) -> Q tt s') ->
  wpc (build_page_bitmap p) Q X s.
Proof.
  intros I Hp [d Hd] HQ. pose proof (ci_layout _ _ _ _ I) as Y. unfold build_page_bitmap. apply wpc_bind. eapply wpc_get_page; [exact Hd|].
  destruct (li_lists _ _ _ (ci_pages _ _ _ _ I) p Hp) as (l & Hc & Hm). apply wpc_bind, wpc_gets, wpc_bind.
  assert (d = page_of s p) as -> by (unfold page_of, page_in; by rewrite Hd).
  apply (wpc_mark_blocks X s L p l Y); [exact Hc|intros x Hx; by apply Hm| |apply length_replicate|].
  { assert (length l <= 2 * length s.(tbs))%nat as Hle; [|unfold list_fuel; lia].
    apply nodup_bounded2; [by eapply chain_nodup|]. intros x (HL & Hu & _)%Hm. split; [by eapply live_bound|]. destruct Hu as [->|[-> _]]; lia. }
  intros tab Hlen Hb. rewrite length_replicate in Hlen. refine (wpc_write_page_st X p _ _ s (mk_is_Some _ _ Hd) _).
  assert (forall i, 0 <= i < TARGET_PAGE_SIZE -> bit_at tab i = existsb (covers s i) l) as Hbits.
  { intros i Hi. rewrite Hb, bit_at_zeroes; [done| |lia]. change TARGET_PAGE_SIZE with 4096 in *. change (Z.to_nat (4096 / 8)) with 512%nat. lia. }
  apply (HQ tab l); [|done|done]. apply (cache_inv_bitmaps G s); [| |done].
  - intros k _ _ _ Hk. apply write_page_st_unch; [by eexists|done|by left|by right].
  - intros q tab' Hq. rewrite write_page_at by (done || by eexists). case_decide as E.
    + cbn [code_bitmap set_code_bitmap]. intros [= <-]. split; [done|]. intros x i Hon Hi. subst q.
      assert (0 <= i < TARGET_PAGE_SIZE) as Hi0 by (pose proof (code_in_page_bound (tb_at s x.1) x.2 (ly_block G s L Y _ (proj1 Hon))) as H; change (tb_at _ x.1) with (tb_at s x.1) in Hi; lia).
      rewrite Hbits by done. apply existsb_exists. exists x. split; [by apply list_elem_of_In, Hm|]. unfold covers.
      change (tb_at _ x.1) with (tb_at s x.1) in Hi. destruct (code_in_page (tb_at s x.1) x.2) as [a b]. cbn [fst snd] in Hi.
      apply andb_true_iff. split; [apply Z.leb_le|apply Z.ltb_lt]; lia.
    + intros Et. exact (ci_bitmaps _ _ _ _ I q tab' Hq Et).
Qed.
End Bitmap.
