(* ===== verification/TbRange.v ===== *)
(** * Writes to pages with code

    [tb_invalidate_phys_page_range] ends the life of exactly the blocks of a page that
    overlap a range, and does not return into a block that it invalidated. *)

From S2P Require Import Prelude QtraceDefs TlbLoad IContext TbState TbPages Tlb TbCache TbLogic TbLinks TbInv TbJumps TbInvalidate TlbInv TbGen TbLinkPage TbGenCode TbFind TbBitmap.

Section Range.
Context {machine : Machine} {mapping : Mapping} {translator : Translator} (G : code_gen).
Context (HM : machine_ok) (HG : gen_ok G) (HT : translator_ok).

(** ** One block *)

(** What a processor keeps while blocks are invalidated. *)
Definition cpu_view (c : CPUState) :=
  (cpu_tlb c, c.(current_tb), c.(interrupt_request), c.(mem_io_pc), c.(mem_io_vaddr)).

Record gone (L : nat -> Prop) (J : tagged -> option nat) (t : nat) (s s' : cache) : Prop := {
  gn_inv : full_inv G s' (without L t) (jumps_without J t);
  gn_core : unch Core s s';
  gn_tables : unch Tables s s';
  gn_memory : unch Memory s s';
  gn_pages : forall p l, page_index p -> chain (pnext s) (page_of s p).(first_tb) l None ->
    chain (pnext s') (page_of s' p).(first_tb) (filter (fun x => x.1 <> t) l) None;
  gn_cpus : cpu_view <$> s'.(cpus) = cpu_view <$> s.(cpus);
  gn_code : code_kept L s s'
}.

Lemma tlbs_ok_cpus s s' : cpu_tlb <$> s'.(cpus) = cpu_tlb <$> s.(cpus) -> s'.(phys_dirty) = s.(phys_dirty) -> tlbs_ok s -> tlbs_ok s'.
Proof.
  intros E Ed T k c Hk. assert ((cpu_tlb <$> s'.(cpus)) !! k = Some (cpu_tlb c)) as H by by rewrite list_lookup_fmap, Hk.
  rewrite E, list_lookup_fmap in H. destruct (s.(cpus) !! k) as [c0|] eqn:E0; [|done]. injection H as H1 H2 H3 H4 H5.
  intros m i Hi. rewrite Ed, <- H1, <- H2, <- H5. by apply (T k c0).
Qed.

Lemma view_tlb s s' : cpu_view <$> s'.(cpus) = cpu_view <$> s.(cpus) -> cpu_tlb <$> s'.(cpus) = cpu_tlb <$> s.(cpus).
Proof. exact (fmap_factor cpu_view (fun x => x.1.1.1.1) s.(cpus) s'.(cpus)). Qed.

Lemma drop_jmp_cache_view h t c : cpu_view (drop_jmp_cache h t c) = cpu_view c.
Proof. unfold drop_jmp_cache. by case_bool_decide. Qed.

Lemma drop_jmp_cache_sub h t c k u : (drop_jmp_cache h t c).(tb_jmp_cache) !! k = Some u -> c.(tb_jmp_cache) !! k = Some u.
Proof. unfold drop_jmp_cache. case_bool_decide; [|done]. cbn. by intros [_ ?]%lookup_delete_Some. Qed.

Lemma full_retired L J t s s' : full_inv G s L J -> retired G L J t s s' -> full_inv G s' (without L t) (jumps_without J t).
Proof.
  intros [I T C F] [R1 R2 R3 [R4 R4'] R5 R6 R7 _]. split; [done| | |].
  - apply (tlbs_ok_cpus s); [|done|done]. rewrite R7, <- list_fmap_compose. apply list_fmap_ext. intros k c _.
    exact (f_equal (fun v => v.1.1.1.1) (drop_jmp_cache_view (hash_of_pc s t) t c)).
  - intros x p Hx. rewrite R4. apply (C x). rewrite (page_on_core s s') in Hx by done. destruct Hx as [[HL _] Hx]. by split.
  - revert F. apply caches_fit_frame. intros n c h u Hc Hu. split; [|apply R2]. rewrite R7, list_lookup_fmap in Hc.
    apply fmap_Some in Hc as (c0 & Hc0 & ->). exists c0. split; [done|]. by eapply drop_jmp_cache_sub.
Qed.

(** A processor is changed outside of its jump cache and its TLB. *)
Lemma full_inv_cpu s n c f L J :
  full_inv G s L J -> s.(cpus) !! n = Some c -> (f c).(tb_jmp_cache) = c.(tb_jmp_cache) -> cpu_tlb (f c) = cpu_tlb c ->
  full_inv G (set_cpus (<[n := f c]> s.(cpus)) s) L J.
Proof.
  intros [I T C F] Hc H1 H2.
  assert (unch Caches s (set_cpus (<[n := f c]> s.(cpus)) s)) as Hca.
  { cbn [unch cpus set_cpus]. rewrite list_fmap_insert, H1. apply list_insert_id. by rewrite list_lookup_fmap, Hc. }
  split; [| |exact C|by apply (caches_fit_unch s); [|apply (unch_refl Core s)|]].
  - apply (cache_inv_frame G s); [|done]. intros k K1 K2 K3. destruct k; try done; try (intros q Hq; exact Hq); try (apply (unch_refl _ s)).
  - apply (tlbs_ok_cpus s); [|done|done]. cbn [cpus set_cpus]. rewrite list_fmap_insert, H2. apply list_insert_id.
    by rewrite list_lookup_fmap, Hc.
Qed.

(** An invalidation between two changes of the processor. *)
Lemma gone_intro L J t s n c0 c2 f g s2 (s1 := set_cpus (<[n := f c0]> s.(cpus)) s) (s3 := set_cpus (<[n := g c2]> s2.(cpus)) s2) :
  full_inv G s L J -> s.(cpus) !! n = Some c0 -> full_inv G s1 L J -> retired G L J t s1 s2 -> s2.(cpus) !! n = Some c2 ->
  (g c2).(tb_jmp_cache) = c2.(tb_jmp_cache) -> cpu_tlb (g c2) = cpu_tlb c2 -> cpu_view (g c2) = cpu_view c0 ->
  gone L J t s s3.
Proof.
  intros I Hc0 I1 R Hc2 H1 H2 H3. pose proof (full_retired L J t s1 s2 I1 R) as F. destruct R as [R1 R2 R3 R4 R5 R6 R7 R8].
  split; [by apply full_inv_cpu|exact R2|exact R3|exact R4|exact R6| |exact R8]. cbn [cpus s3 set_cpus]. rewrite list_fmap_insert, H3, R7, <- list_fmap_compose.
  rewrite (list_fmap_ext (cpu_view ∘ drop_jmp_cache _ t) cpu_view) by (intros k c _; apply drop_jmp_cache_view).
  cbn [cpus s1 set_cpus]. rewrite list_fmap_insert, list_insert_insert_eq. apply list_insert_id. by rewrite list_lookup_fmap, Hc0.
Qed.

Lemma wpc_invalidate_one X s L J cpu t (Q : unit -> cache -> Prop) :
  full_inv G s L J -> L t -> (forall c, cpu = Some c -> has_env s c) -> (forall s', gone L J t s s' -> Q tt s') ->
  wpc (invalidate_one cpu t) Q X s.
Proof.
  intros I Ht Hcpu HQ. destruct cpu as [n|]; cbn [invalidate_one].
  - destruct (Hcpu n eq_refl) as [c0 Hc0]. apply wpc_bind. eapply wpc_get_cpu; [done|]. apply wpc_bind. eapply wpc_upd_cpu; [done|].
    set (s1 := set_cpus _ s). assert (full_inv G s1 L J) as I1 by (by apply full_inv_cpu).
    apply wpc_bind. apply (wpc_tb_phys_invalidate G X s1 L J t); [apply I1|done|]. intros s2 R2.
    set (c2 := drop_jmp_cache (hash_of_pc s1 t) t (set_current_tb None c0)).
    assert (s2.(cpus) !! n = Some c2) as Hc2.
    { rewrite (rt_cpus _ _ _ _ _ _ R2), list_lookup_fmap. cbn [cpus s1 set_cpus]. by rewrite list_lookup_insert_eq by (by eapply lookup_lt_Some). }
    assert (cpu_view (set_current_tb c0.(current_tb) c2) = cpu_view c0) as Ev by (unfold c2, drop_jmp_cache; by case_bool_decide).
    apply wpc_bind. eapply wpc_upd_cpu; [done|]. apply wpc_bind. eapply wpc_get_cpu.
    { cbn [cpus set_cpus]. by rewrite list_lookup_insert_eq by (by eapply lookup_lt_Some). }
    apply wpc_when; intros _; [eapply wpc_upd_cpu; [cbn [cpus set_cpus]; by rewrite list_lookup_insert_eq by (by eapply lookup_lt_Some)|]|].
    + apply HQ. cbn [cpus set_cpus]. rewrite list_insert_insert_eq.
      match goal with |- gone _ _ _ _ ?x => change x with (set_cpus (<[n := (fun c => set_interrupt (Z.lor c.(interrupt_request) c.(interrupt_request)) true (set_current_tb c0.(current_tb) c)) c2]> s2.(cpus)) s2) end.
      eapply (gone_intro L J t s n c0); try done. cbn. rewrite Z.lor_diag. exact Ev.
    + apply HQ. by eapply (gone_intro L J t s n c0).
  - apply (wpc_tb_phys_invalidate G X s L J t); [apply I|done|]. intros s' R. apply HQ. pose proof (full_retired L J t s s' I R) as F.
    destruct R as [R1 R2 R3 R4 R5 R6 R7 R8]. split; try done. rewrite R7, <- list_fmap_compose. apply list_fmap_ext. intros k c _.
    apply drop_jmp_cache_view.
Qed.

(** ** The block that writes *)

(** A write out of the middle of the code of block [t]. *)
Definition runs (s : cache) (cpu : option nat) (t : nat) : Prop :=
  exists n c, cpu = Some n /\ s.(cpus) !! n = Some c /\ (tb_at s t).(tc_ptr) < c.(mem_io_pc) < (tb_at s t).(tc_end_ptr).
(** Blocks of one instruction are not translated again. *)
Definition restarts (s : cache) (t : nat) : Prop := Z.land (tb_at s t).(tb_cflags) CF_COUNT_MASK <> 1.

(** Block [t] is the last one that starts before the address from which the processor
    writes; the program continues at an address in its code. *)
Definition writes_from (s : cache) (cpu : option nat) (t : nat) : Prop :=
  exists n c, cpu = Some n /\ s.(cpus) !! n = Some c /\ last_block s t c.(mem_io_pc).
Definition resumes (s : cache) (cpu : option nat) (pc : Z) : Prop :=
  exists t o, writes_from s cpu t /\ 0 <= o < (tb_at s t).(tb_size) /\ pc = u64 ((tb_at s t).(tb_pc) + o).
(** It cannot be translated there. *)
Definition resumes_outside (s : cache) (cpu : option nat) : Prop := exists n pc, cpu = Some n /\ resumes s cpu pc /\ unfetchable n pc.

(** A processor is known where one is needed; programs continue in the block that writes. *)
Record smc_ok (s : cache) (cpu : option nat) (x : smc_state) : Prop := {
  so_cpu : x.(not_found) = true \/ x.(cur) <> None \/ x.(modified) <> None -> is_Some cpu;
  so_cur : forall t, x.(cur) = Some t -> writes_from s cpu t;
  so_pc : forall pc cs fl, x.(modified) = Some (pc, cs, fl) -> resumes s cpu pc
}.
(** Not a write of a processor. *)
Definition quiet : smc_state := mkSmc false None None.
Definition tracks (t : nat) (x : smc_state) : Prop := x.(not_found) = true \/ x.(cur) = Some t.

(** The guest state that is restored from a block is the one before an instruction of it. *)
Definition restored_ok : Prop := forall n tb a s pc cs fl, restored n tb a s = (pc, cs, fl) -> 1 <= tb.(tb_size) ->
  exists o, 0 <= o < tb.(tb_size) /\ pc = u64 (tb.(tb_pc) + o).
Context (HR : restored_ok).

Lemma wpc_note_current X s L J cpu t x (Q : smc_state -> cache -> Prop) :
  full_inv G s L J -> L t -> (forall c, cpu = Some c -> has_env s c) -> smc_ok s cpu x ->
  (forall x', smc_ok s cpu x' -> (x.(modified) <> None -> x'.(modified) <> None) -> (x = quiet -> x' = quiet) ->
     (forall t0, runs s cpu t0 -> L t0 -> tracks t0 x -> tracks t0 x' /\ (t0 = t -> restarts s t -> x'.(modified) <> None)) -> Q x' s) ->
  wpc (note_current G cpu t x) Q X s.
Proof.
  intros I Ht Hcpu [S1 S1' S2] HQ. pose proof (ci_layout _ _ _ _ (fi_cache _ _ _ _ I)) as Y. unfold note_current.
  assert (t < length s.(tbs))%nat as Hlt by by eapply (live_bound G).
  apply wpc_bind. eapply (wpc_mono _ _ (fun x1 s1 => s1 = s /\ smc_ok s cpu x1 /\ x1.(modified) = x.(modified) /\
    (x = quiet -> x1 = quiet) /\ forall t0, runs s cpu t0 -> L t0 -> tracks t0 x -> x1.(cur) = Some t0)).
  { destruct x as [[] ct md]; cbn [not_found cur modified] in *.
    - destruct (S1 (or_introl eq_refl)) as [n ->]. destruct (Hcpu n eq_refl) as [c Hc]. cbn [not_found].
      apply wpc_bind, wpc_not_null, wpc_bind. eapply wpc_get_cpu; [done|]. apply wpc_bind. destruct (Z.eqb_spec c.(mem_io_pc) 0) as [E|E].
      + apply wpc_ret, wpc_ret. split_and!; [done|split; [by eexists|done|done]|done|done|]. intros t0 (n' & c' & [= <-] & Hc' & Hr) Ht0 _.
        assert (c' = c) as -> by congruence. destruct (ly_code G s L Y t0 Ht0) as [C1 _ _ _ _]. destruct HG as [G1 _ _ _ _ _]. lia.
      + eapply (wpc_tb_find_pc G); [done|]. intros o Hlast Ho. apply wpc_ret.
        split_and!; [done|split; [by eexists|intros m Em; exists n, c; by auto|done]|done|done|].
        intros t0 (n' & c' & [= <-] & Hc' & Hr) Ht0 _. assert (c' = c) as -> by congruence. cbn [cur]. by apply Ho.
    - apply wpc_ret. split_and!; [done|by split|done|done|]. intros t0 _ _ [?|?]; done. }
  intros x1 s1 (-> & [S3 S3' S4] & Em & Hq & Hcur). apply wpc_bind, wpc_get_tb; [done|].
  destruct (bool_decide (x1.(cur) = Some t)) eqn:Ec; [apply bool_decide_eq_true in Ec|apply bool_decide_eq_false in Ec]; cbn [andb].
  - destruct (negb _) eqn:Ef.
    + destruct S3 as [n ->]; [right; left; congruence|]. destruct (Hcpu n eq_refl) as [c Hc]. apply wpc_bind, wpc_not_null, wpc_bind.
      eapply wpc_get_cpu; [done|]. apply wpc_bind, wpc_gets, wpc_ret. apply HQ; [split; [by eexists|done|]|done|by intros ->%Hq|].
      * cbn [modified]. intros pc cs fl [= E]. destruct (ly_block G s L Y t Ht) as [_ _ _ Hsz _].
        destruct (HR _ _ _ _ _ _ _ E ltac:(lia)) as (o & Ho & Ep). exists t, o. by auto.
      * intros t0 H1 H2 H3. split; [right; by apply Hcur|done].
    + apply wpc_ret, HQ; [by split|congruence|done|]. intros t0 H1 H2 H3. split; [right; by apply Hcur|].
      apply negb_false_iff, Z.eqb_eq in Ef. done.
  - apply wpc_ret, HQ; [by split|congruence|done|]. intros t0 H1 H2 H3. specialize (Hcur t0 H1 H2 H3). split; [by right|]. intros ->. done.
Qed.

(** ** The blocks of a page *)

Definition in_range (s : cache) (start last : Z) (x : tagged) : bool :=
  let '(tb_start, tb_end) := tb_range (tb_at s x.1) x.2 in negb ((tb_end <=? start) || (last <=? tb_start)).

(** Jumps between blocks that are still live. *)
Definition restricted (J : tagged -> option nat) (L : nat -> Prop) (J' : tagged -> option nat) : Prop :=
  forall x u, J' x = Some u <-> J x = Some u /\ L x.1 /\ L u.

Lemma restricted_without s L J t L' J' :
  jumps_ok s L J -> (forall u, L' u -> without L t u) -> restricted (jumps_without J t) L' J' -> restricted J L' J'.
Proof.
  intros Hj HL HR' x u. rewrite (HR' x u : _ <-> _). unfold jumps_without. split.
  - intros (H1 & H2 & H3). case_decide; [done|]. by split_and!.
  - intros (H1 & H2 & H3). destruct (HL _ H2) as [_ N2], (HL _ H3) as [_ N3]. rewrite decide_False; [by split_and!|].
    intros [?|?]; [done|congruence].
Qed.

Lemma restricted_refl s L J : jumps_ok s L J -> restricted J L J.
Proof. intros [_ Hc _] x u. split; [|by intros (? & _)]. intros H. destruct (Hc x u H) as (? & ? & _). done. Qed.

(** No block uses one physical page for both of its pages. *)
Definition pages_apart (s : cache) (L : nat -> Prop) : Prop :=
  forall t, L t -> (tb_at s t).(page_addr).1 <> (tb_at s t).(page_addr).2.

(** It is kept when blocks are translated whose pages are mapped to different places. *)
Definition distinct_pages (env : nat) (pc : Z) : Prop :=
  host_map env (Z.land pc TARGET_PAGE_MASK) <> host_map env (u64 (Z.land pc TARGET_PAGE_MASK + TARGET_PAGE_SIZE)).
Lemma pages_apart_new s s' L L' env t : (forall u, L' u -> u <> t -> L u /\ same_block s s' u) -> fits env (tb_at s' t) ->
  distinct_pages env (tb_at s' t).(tb_pc) -> pages_apart s L -> pages_apart s' L'.
Proof.
  intros HL Hf Hd Hap u Hu. destruct (decide (u = t)) as [->|Hne]; [by apply (fits_apart HM env)|]. destruct (HL u Hu Hne) as [Hu' [E _]].
  rewrite (f_equal page_addr E : (tb_at s' u).(page_addr) = (tb_at s u).(page_addr)). by apply Hap.
Qed.

Lemma used_page_unique s L t n m p :
  layout G s L -> pages_apart s L -> page_on s L (t, n) p -> page_on s L (t, m) p -> n = m.
Proof.
  intros Y Hap (HL & Hu & Hp) (_ & Hu' & Hp'). cbn [fst snd] in *. pose proof (ly_block G s L Y t HL) as Hb.
  pose proof (used_page_ok _ n Hb Hu) as O1. pose proof (used_page_ok _ m Hb Hu') as O2.
  assert (at2 n (tb_at s t).(page_addr) = at2 m (tb_at s t).(page_addr)) as E by (apply page_number_inj; [done|done|]; unfold page_of_code in *; congruence).
  specialize (Hap t HL). destruct Hu as [->|[-> _]], Hu' as [->|[-> _]]; cbn [at2] in E; congruence.
Qed.

(** The nodes [l] of page [p] were passed, those before are [pre]. *)
Record swept (start last p : Z) (cpu : option nat) (pre l : list tagged) (L L' : nat -> Prop) (J J' : tagged -> option nat)
    (x x' : smc_state) (s s' : cache) : Prop := {
  sw_inv : full_inv G s' L' J';
  sw_live : forall u, L' u <-> L u /\ forall n, (u, n) ∈ l -> in_range s start last (u, n) = false;
  sw_jumps : restricted J L' J';
  sw_list : chain (pnext s') (page_of s' p).(first_tb) (pre ++ filter (fun y => in_range s start last y = false) l) None;
  sw_core : unch Core s s';
  sw_tables : unch Tables s s';
  sw_memory : unch Memory s s';
  sw_cpus : cpu_view <$> s'.(cpus) = cpu_view <$> s.(cpus);
  sw_smc : smc_ok s cpu x';
  sw_keeps : x.(modified) <> None -> x'.(modified) <> None;
  sw_quiet : x = quiet -> x' = quiet;
  sw_writer : forall t n, runs s cpu t -> L t -> tracks t x -> (t, n) ∈ l -> in_range s start last (t, n) = true -> restarts s t ->
    x'.(modified) <> None;
  sw_code : code_kept L s s'
}.

Lemma in_range_core s s' start last x : unch Core s s' -> in_range s' start last x = in_range s start last x.
Proof. intros Hc. unfold in_range. rewrite (core_eq (fun tb => tb_range tb x.2) s s' x.1) by done. done. Qed.

Lemma view_lookup s s' n c : cpu_view <$> s'.(cpus) = cpu_view <$> s.(cpus) -> s.(cpus) !! n = Some c ->
  exists c', s'.(cpus) !! n = Some c' /\ cpu_view c' = cpu_view c.
Proof.
  intros E Hc. assert ((cpu_view <$> s'.(cpus)) !! n = Some (cpu_view c)) as H by by rewrite E, list_lookup_fmap, Hc.
  rewrite list_lookup_fmap in H. destruct (s'.(cpus) !! n) as [c'|]; [|done]. exists c'. split; [done|]. change (Some (cpu_view c') = Some (cpu_view c)) in H. congruence.
Qed.

Lemma runs_view s s' cpu t : unch Core s s' -> cpu_view <$> s'.(cpus) = cpu_view <$> s.(cpus) -> runs s cpu t -> runs s' cpu t.
Proof.
  intros Hc E (n & c & -> & Hn & Hr). destruct (view_lookup s s' n c E Hn) as (c' & Hn' & Ev). exists n, c'. split; [done|]. split; [done|].
  injection Ev as _ _ _ _ _ _ _ Em _. rewrite Em. by core_rewrite Hc.
Qed.

Lemma cpus_lookup {A} (f : CPUState -> A) s s' n c : f <$> s'.(cpus) = f <$> s.(cpus) -> s.(cpus) !! n = Some c ->
  exists c', s'.(cpus) !! n = Some c' /\ f c' = f c.
Proof.
  intros E Hc. assert ((f <$> s'.(cpus)) !! n = Some (f c)) as H by by rewrite E, list_lookup_fmap, Hc.
  rewrite list_lookup_fmap in H. by apply fmap_Some in H as (c' & ? & ->); eauto.
Qed.

Lemma last_block_core s s' t a : unch Core s s' -> last_block s' t a <-> last_block s t a.
Proof.
  intros Hc. assert (forall u, (tb_at s' u).(tc_ptr) = (tb_at s u).(tc_ptr)) as Et by (intros u; by core_rewrite Hc).
  unfold last_block. destruct Hc as (_ & _ & En & _). rewrite En, Et. split; intros (H1 & H2 & H3); (split_and!; [done|done|]);
    intros u Hu; specialize (H3 u Hu); by rewrite Et in *.
Qed.
Lemma writes_from_io s s' cpu t : unch Core s s' -> cpu_io <$> s'.(cpus) = cpu_io <$> s.(cpus) -> writes_from s' cpu t <-> writes_from s cpu t.
Proof.
  intros Hc E.
  split; intros (n & c & -> & Hn & Hr); [destruct (cpus_lookup cpu_io s' s n c (eq_sym E) Hn) as (c' & Hn' & Ev)|destruct (cpus_lookup cpu_io s s' n c E Hn) as (c' & Hn' & Ev)];
    exists n, c'; (split_and!; [done|done|]); injection Ev as Em _; rewrite Em; by apply (last_block_core s s').
Qed.
Lemma resumes_io s s' cpu pc : unch Core s s' -> cpu_io <$> s'.(cpus) = cpu_io <$> s.(cpus) -> resumes s' cpu pc <-> resumes s cpu pc.
Proof.
  intros Hc E. split; intros (t & o & H1 & H2); exists t, o; (split; [by apply (writes_from_io s s')|]); revert H2; by core_rewrite Hc.
Qed.
Lemma view_io s s' : cpu_view <$> s'.(cpus) = cpu_view <$> s.(cpus) -> cpu_io <$> s'.(cpus) = cpu_io <$> s.(cpus).
Proof. exact (fmap_factor cpu_view (fun x => (x.1.2, x.2)) s.(cpus) s'.(cpus)). Qed.
Definition writes_from_view s s' cpu t Hc E := writes_from_io s s' cpu t Hc (view_io s s' E).
Definition resumes_view s s' cpu pc Hc E := resumes_io s s' cpu pc Hc (view_io s s' E).
Lemma smc_ok_view s s' cpu x : unch Core s s' -> cpu_view <$> s'.(cpus) = cpu_view <$> s.(cpus) -> smc_ok s' cpu x <-> smc_ok s cpu x.
Proof.
  intros Hc E. split; intros [S1 S2 S3]; (split; [done|..]); [intros t Ht|intros pc cs fl Hm|intros t Ht|intros pc cs fl Hm];
    [by apply (writes_from_view s s'), S2|by eapply (resumes_view s s'), S3|by apply (writes_from_view s s'), S2|by eapply (resumes_view s s'), S3].
Qed.

Lemma swept_nil start last p cpu pre L J x s :
  full_inv G s L J -> chain (pnext s) (page_of s p).(first_tb) (pre ++ []) None -> smc_ok s cpu x ->
  swept start last p cpu pre [] L L J J x x s s.
Proof.
  intros I Hc Hx. split; try done; try apply unch_refl.
  - intros u. split; [|by intros [? _]]. intros Hu. split; [done|]. by intros n ?%not_elem_of_nil.
  - apply (restricted_refl s), I.
  - intros t n _ _ _ ?%not_elem_of_nil. done.
Qed.

(** A node outside of the range is passed. *)
Lemma swept_skip start last p cpu pre y l L L' J J' x x' s s' :
  in_range s start last y = false -> swept start last p cpu (pre ++ [y]) l L L' J J' x x' s s' ->
  swept start last p cpu pre (y :: l) L L' J J' x x' s s'.
Proof.
  intros Hy [W1 W2 W3 W4 W5 W6 W7 W8 W9 W10 WQ W11 W12]. split; try done.
  - intros u. rewrite W2. split; intros [HL H]; (split; [done|]); intros n Hn; [|by apply H, list_elem_of_further].
    apply elem_of_cons in Hn as [<-|Hn]; auto.
  - rewrite filter_cons_True by done. by rewrite <- app_assoc in W4.
  - intros t n H1 H2 H3 H4 H5. apply elem_of_cons in H4 as [<-|H4]; [congruence|]. by eapply W11.
Qed.

(** The block of a node in the range has been invalidated. *)
Lemma swept_gone start last p cpu pre t n l L L' J J' x x1 x' s s1 s' :
  in_range s start last (t, n) = true -> jumps_ok s L J -> gone L J t s s1 -> (x.(modified) <> None -> x1.(modified) <> None) -> (x = quiet -> x1 = quiet) ->
  (forall t0, runs s cpu t0 -> L t0 -> tracks t0 x -> tracks t0 x1 /\ (t0 = t -> restarts s t -> x1.(modified) <> None)) ->
  swept start last p cpu pre l (without L t) L' (jumps_without J t) J' x1 x' s1 s' ->
  swept start last p cpu pre ((t, n) :: l) L L' J J' x x' s s'.
Proof.
  intros Hy Hj [N1 N2 N3 N4 N5 N6 N7] Hm Hqt Htr [W1 W2 W3 W4 W5 W6 W7 W8 W9 W10 WQ W11 W12].
  assert (forall y, in_range s1 start last y = in_range s start last y) as Er by (intros y; by apply in_range_core).
  split; try done.
  - intros u. rewrite W2. unfold without. split.
    + intros [[HL Hne] H]. split; [done|]. intros m Hm'. apply elem_of_cons in Hm' as [[= ? ?]|Hm']; [done|]. rewrite <- Er. by apply H.
    + intros [HL H]. split; [split; [done|]|].
      * intros ->. rewrite (H n) in Hy by apply list_elem_of_here. done.
      * intros m Hm'. rewrite Er. by apply H, list_elem_of_further.
  - apply (restricted_without s L J t L'); [done| |done]. intros u Hu. by apply W2 in Hu as [? _].
  - rewrite filter_cons_False by (rewrite Hy; done).
    rewrite (filter_iff_in (fun y => in_range s1 start last y = false) (fun y => in_range s start last y = false)) in W4; [done|].
    intros y _. by rewrite Er.
  - by eapply unch_trans.
  - by eapply unch_trans.
  - by eapply unch_trans.
  - congruence.
  - by apply (smc_ok_view s s1).
  - auto.
  - auto.
  - intros t0 m H1 H2 H3 H4 H5 H6. destruct (Htr t0 H1 H2 H3) as [H7 H8].
    destruct (decide (t0 = t)) as [->|Hne]; [by apply W10, H8|].
    apply (W11 t0 m); [by apply (runs_view s)|done|done| |by rewrite Er|unfold restarts in *; by core_rewrite N2].
    apply elem_of_cons in H4 as [[= ? ?]|?]; done.
  - apply (code_kept_trans L (without L t) s s1); [done|by intros u [? _]|done|done].
Qed.

Lemma wpc_invalidate_list X start last p cpu l : page_index p -> forall fuel L J s pre o x (Q : smc_state -> cache -> Prop),
  full_inv G s L J -> pages_apart s L -> chain (pnext s) (page_of s p).(first_tb) (pre ++ l) None -> o = head l -> (length l <= fuel)%nat ->
  (forall c, cpu = Some c -> has_env s c) -> smc_ok s cpu x ->
  (forall s' L' J' x', swept start last p cpu pre l L L' J J' x x' s s' -> Q x' s') ->
  wpc (invalidate_list G fuel cpu start last o x) Q X s.
Proof.
  intros Hp. induction l as [|[t n] l IH]; intros fuel L J s pre o x Q I Hap Hc -> Hf Hcpu Hx HQ.
  - destruct fuel; (apply wpc_ret; eapply HQ; by apply swept_nil).
  - destruct fuel as [|fuel]; [cbn in Hf; lia|]. cbn [invalidate_list head].
    pose proof (ci_layout _ _ _ _ (fi_cache _ _ _ _ I)) as Y.
    assert (forall y, y ∈ pre ++ (t, n) :: l -> page_on s L y p) as Hon.
    { destruct (li_lists _ _ _ (ci_pages _ _ _ _ (fi_cache _ _ _ _ I)) p Hp) as (l' & Hc' & Hm).
      rewrite (chain_det _ _ _ _ Hc Hc'). intros y. by apply Hm. }
    assert (page_on s L (t, n) p) as Htn by (apply Hon, elem_of_app; right; apply list_elem_of_here).
    assert (L t) as HL by apply Htn. pose proof (page_node_ok G s L _ _ Y Htn) as [Hlt Hn2]. cbn [fst snd] in Hlt, Hn2.
    apply wpc_bind, wpc_get_tb; [done|]. apply wpc_bind. eapply wpc_lift; [by apply sel_link2|].
    fold (pnext s (t, n)). assert (link2 n (tb_at s t).(page_next) = head l) as Enx.
    { pose proof Hc as (m & _ & _ & Hc2)%chain_app. cbn [chain] in Hc2. change (pnext s (t, n)) with (link2 n (tb_at s t).(page_next)) in Hc2.
      by destruct l; [|destruct Hc2 as [-> _]]. }
    rewrite Enx. destruct (tb_range (tb_at s t) n) as [a b] eqn:Eab.
    assert (in_range s start last (t, n) = negb ((b <=? start) || (last <=? a))) as Er by (unfold in_range; cbn [fst snd]; by rewrite Eab).
    apply wpc_bind. destruct ((b <=? start) || (last <=? a)); cbn [negb] in Er.
    + apply wpc_ret. eapply (IH fuel L J s (pre ++ [(t, n)])); try done; [by rewrite <- app_assoc|cbn in Hf; lia|].
      intros s' L' J' x' W. eapply HQ. by apply swept_skip.
    + apply wpc_bind. eapply wpc_note_current; [done|done|done|done|]. intros x1 Hx1 Hm Hqt Htr. apply wpc_bind.
      eapply wpc_invalidate_one; [done|done|done|]. intros s1 Hg. apply wpc_ret. pose proof Hg as [N1 N2 N3 N4 N5 N6 _].
      assert (filter (fun y => y.1 <> t) (pre ++ (t, n) :: l) = pre ++ l) as Efil.
      { pose proof (chain_nodup _ _ _ Hc) as Hd. apply NoDup_app in Hd as (_ & D1 & [D2 _]%NoDup_cons).
        rewrite filter_app, filter_cons_False by (cbn; tauto). rewrite !filter_keeps; [done| |]; apply Forall_forall; intros [u m] Hu; cbn [fst]; intros ->.
        - assert (m = n) as ->; [|done]. apply (used_page_unique s L t m n p Y Hap); [apply Hon, elem_of_app; right; by apply list_elem_of_further|done].
        - assert (m = n) as ->; [|by apply (D1 _ Hu), list_elem_of_here]. apply (used_page_unique s L t m n p Y Hap); [apply Hon, elem_of_app; by left|done]. }
      eapply (IH fuel (without L t) (jumps_without J t) s1 pre); try done.
      * intros u [Hu _]. core_rewrite N2. by apply Hap.
      * rewrite <- Efil. by apply N5.
      * cbn in Hf. lia.
      * intros c Hcc. destruct (Hcpu c Hcc) as [c0 Hc0]. destruct (view_lookup s s1 c c0 N6 Hc0) as (c' & ? & _). by eexists.
      * by apply (smc_ok_view s s1).
      * intros s' L' J' x' W. eapply HQ. eapply swept_gone; try done. apply I.
Qed.

(** ** The whole function *)

(** A block may survive: none of its code in page [p] is in the range. *)
Definition outside (s : cache) (L : nat -> Prop) (start last p : Z) (u : nat) : Prop :=
  forall n, page_on s L (u, n) p -> in_range s start last (u, n) = false.

(** Changes of the page descriptor that keep the list. *)
Lemma full_inv_page s p f L J :
  full_inv G s L J -> page_index p -> is_Some (find_in L1_LEVEL s.(l1_map) p) -> (forall d, (f d).(first_tb) = d.(first_tb)) ->
  (forall d, (f d).(code_bitmap) = None \/ (f d).(code_bitmap) = d.(code_bitmap)) -> full_inv G (write_page_st p f s) L J.
Proof.
  intros [I T C F] Hp Hex H1 H2. split; [|exact T|exact C|exact F]. apply (cache_inv_kept G s); [| |done].
  - intros k _ _ _ Hk. apply write_page_st_unch; [exact Hex|done|intros d; by left|intros d; by right].
  - intros q Hq. rewrite write_page_at by (exact Hex || done). case_decide as E; [|by right]. subst q. apply H2.
Qed.

Lemma wpc_tlb_unprotect X s a L J (Q : unit -> cache -> Prop) :
  full_inv G s L J -> (page_of s (page_number a)).(first_tb) = None -> page_index (page_number a) ->
  (forall s', full_inv G s' L J -> unch Core s s' -> s'.(host_mem) = s.(host_mem) -> s'.(cpus) = s.(cpus) ->
     s'.(host_code) = s.(host_code) -> Q tt s') ->
  wpc (tlb_unprotect_code_phys a) Q X s.
Proof.
  intros [I T C F] Hf Hp HQ. apply wpc_modify. set (d' := set_dirty_entry _ _ _). apply HQ; [|done|done|done|done].
  assert (forall q, q <> page_number a -> d' q = s.(phys_dirty) q) as Hd by (intros q Hq; unfold d', set_dirty_entry; by rewrite (proj2 (Z.eqb_neq _ _))).
  split.
  - apply (cache_inv_frame G s); [|done]. intros k _ _ Hk. destruct k; first [done|intros q Hq; exact Hq|apply (unch_refl _ s)].
  - intros k c Hc m i Hi. apply (entry_ok_mono _ _ s.(phys_dirty)); [|by apply T]. intros q. unfold code_dirty. cbn [phys_dirty set_memory].
    destruct (decide (q = page_number a)) as [->|Hq]; [|by rewrite Hd]. intros H. unfold d', set_dirty_entry. rewrite Z.eqb_refl, Z.lor_spec, H. done.
  - intros x p Hx. destruct (decide (p = page_number a)) as [->|Hq].
    + exfalso. destruct (li_lists _ _ _ (ci_pages _ _ _ _ I) _ Hp) as (l & Hc & Hm). change (ls_head s _) with (page_of s (page_number a)).(first_tb) in Hc.
      rewrite Hf in Hc. destruct l as [|y l]; [|by destruct Hc]. apply Hm, not_elem_of_nil in Hx. done.
    + unfold code_dirty. cbn [phys_dirty set_memory]. rewrite Hd by done. by apply (C x).
  - exact F.
Qed.

(** The counter of writes, and a bitmap after enough of them. *)
Lemma wpc_count_write X s L J p (w : bool) (Q : unit -> cache -> Prop) :
  full_inv G s L J -> page_index p -> is_Some (find_in L1_LEVEL s.(l1_map) p) ->
  (forall s', full_inv G s' L J -> (forall k, k <> Bitmaps -> unch k s s') -> Q tt s') ->
  wpc (match (page_of s p).(code_bitmap) with
       | Some _ => mret tt
       | None =>
           upd_page p (fun d => set_code_write_count (u32 (d.(code_write_count) + 1)) d) ;;
           cwhen ((SMC_BITMAP_USE_THRESHOLD <=? u32 ((page_of s p).(code_write_count) + 1)) && w) (build_page_bitmap p)
       end) Q X s.
Proof.
  intros I Hp Hex HQ. destruct (page_of s p).(code_bitmap) eqn:Eb; [apply wpc_ret, HQ; [done|intros k _; apply unch_refl]|].
  apply wpc_bind. refine (wpc_write_page_st X p _ _ s Hex _). set (f := fun d : PageDesc => _). set (s1 := write_page_st p f s).
  assert (full_inv G s1 L J) as I1 by (apply full_inv_page; try done; intros d; by right).
  assert (forall k, unch k s s1) as K1 by (intros k; apply write_page_st_unch; [exact Hex|done|intros d; by left|intros d; by left]).
  apply wpc_when; intros _; [|apply HQ; [done|intros k _; apply K1]].
  assert (is_Some (find_in L1_LEVEL s1.(l1_map) p)) as Hex1 by exact (K1 Tables p Hex).
  eapply wpc_build_page_bitmap; [apply I1|done|exact Hex1|]. intros tab l s2 I2 _ _. apply HQ.
  - destruct I1 as [_ T1 C1 F1]. by split.
  - intros k Hk. eapply unch_trans; [apply K1|]. apply write_page_st_unch; [exact Hex1|done|by left|by right].
Qed.

(** The result of an invalidation: exactly the blocks with code in the range are gone,
    and the block that writes is not one of them. *)
Record invalidated (start last : Z) (w : bool) (L L' : nat -> Prop) (J J' : tagged -> option nat) (s s' : cache) : Prop := {
  iv_inv : full_inv G s' L' J';
  iv_live : forall u, L' u <-> L u /\ outside s L start last (page_number start) u;
  iv_jumps : restricted J L' J';
  iv_core : unch Core s s';
  iv_mem : s'.(host_mem) = s.(host_mem);
  iv_cpus : cpu_view <$> s'.(cpus) = cpu_view <$> s.(cpus);
  iv_code : code_kept L s s';
  iv_writer : forall t, w = true -> runs s s.(current_cpu) t -> L t -> restarts s t -> outside s L start last (page_number start) t
}.

(** Left by siglongjmp: besides a block that was just translated, no block with code in
    the range is live. *)
Record restarted (start last : Z) (L : nat -> Prop) (s s' : cache) : Prop := {
  re_inv : exists L' J', full_inv G s' L' J' /\
    forall u, L' u -> L u /\ same_block s s' u /\ outside s L start last (page_number start) u \/ fresh u s';
  re_mem : s'.(host_mem) = s.(host_mem)
}.

Lemma env_current s L J n : full_inv G s L J -> s.(current_cpu) = Some n -> has_env s n.
Proof. intros I Hn. apply lookup_lt_is_Some. by apply (ci_cpu _ _ _ _ (fi_cache _ _ _ _ I)). Qed.

(** The current block is generated again, for one instruction. *)
Lemma wpc_restart X s L J cpu r (Q : unit -> cache -> Prop) :
  full_inv G s L J -> cpu = s.(current_cpu) -> is_Some cpu -> in_u 64 r.1.1 -> walks s.(host_mem) ->
  (forall n, cpu = Some n -> unfetchable n r.1.1 -> X.(on_error) TcgAbort) ->
  (forall s' L' J', full_inv G s' L' J' -> (forall u, L' u -> L u /\ same_block s s' u \/ fresh u s') ->
     s'.(host_mem) = s.(host_mem) -> X.(on_longjmp) s') ->
  wpc (let '(pc, cs_base, flags) := r in
       c ← not_null cpu; upd_cpu c (set_current_tb None) ;; tb_gen_code G c pc cs_base flags 1 ;; longjmp) Q X s.
Proof.
  intros I -> [n Hn] Hpc Hwk HE HX. destruct r as [[pc cs] fl]. rewrite Hn. apply wpc_bind, wpc_not_null.
  destruct (env_current s L J n I Hn) as [c Hc]. apply wpc_bind. eapply wpc_upd_cpu; [done|]. set (s1 := set_cpus _ s).
  assert (full_inv G s1 L J) as I1 by by apply full_inv_cpu. apply wpc_bind.
  eapply (wpc_tb_gen_code G HM HG HT); [exact I1| |exact Hwk|exact Hpc| |exact (HE n Hn)|].
  - eexists. cbn [cpus s1 set_cpus]. apply list_lookup_insert_eq. by eapply lookup_lt_Some.
  - intros s' L' J' I' HL Em. eapply (HX s' L' J'); [done|intros u Hu; left; by apply HL|exact Em].
  - intros t s' L' J' I' [B1 B2 B3 B4 B4' [B5 B5'] B6 B7 B8 B9 B10 B11]. apply wpc_longjmp. eapply (HX s' L' J'); [done| |exact B9].
    intros u Hu. destruct (decide (u = t)) as [->|Hne]; [right; by exists n|left]. split; [|by apply B10].
    destruct B5' as [(_ & H & _)|(_ & H & _)]; apply H in Hu; [by destruct Hu|done].
Qed.

(** The page is no longer protected when it has no code. *)
Lemma wpc_page_empty X s L J start (cpu : option nat) (w : bool) (Q : unit -> cache -> Prop) (p := page_number start) :
  full_inv G s L J -> page_index p -> is_Some (find_in L1_LEVEL s.(l1_map) p) -> (w = true -> is_Some cpu) ->
  (forall s', full_inv G s' L J -> unch Core s s' -> s'.(host_mem) = s.(host_mem) -> s'.(cpus) = s.(cpus) ->
     s'.(host_code) = s.(host_code) -> Q tt s') ->
  wpc (d ← get_page p;
       cwhen (match d.(first_tb) with None => true | Some _ => false end)
         (invalidate_page_bitmap p ;; cwhen w (c ← not_null cpu; tlb_unprotect_code_phys start))) Q X s.
Proof.
  intros I Hp Hex Hw HQ. pose proof Hex as [d Hd]. assert (d = page_of s p) as E by (unfold page_of, page_in; by rewrite Hd).
  apply wpc_bind. eapply wpc_get_page; [exact Hd|]. rewrite E. apply wpc_when; intros Ef; [|apply HQ; [done|apply unch_refl|done|done|done]].
  apply wpc_bind. refine (wpc_write_page_st X p _ _ s Hex _). set (s1 := write_page_st p invalidated_page s).
  assert (full_inv G s1 L J) as I1 by (apply full_inv_page; try done; intros d'; by left).
  assert ((page_of s1 p).(first_tb) = None) as Hf1.
  { unfold s1. rewrite write_page_at by (exact Hex || done). rewrite decide_True by done. cbn [first_tb invalidated_page]. by destruct (first_tb _). }
  apply wpc_when; intros E'; [|apply HQ; [done|apply (unch_refl Core s)|done|done|done]].
  destruct (Hw E') as [c ->]. apply wpc_bind, wpc_not_null. eapply wpc_tlb_unprotect; [exact I1|exact Hf1|exact Hp|]. intros s' I' C' M' U' H'.
  by apply HQ.
Qed.

(** After the loop over the blocks. *)
Lemma wpc_after_sweep X s s1 s2 L L2 J J2 l x2 start last w (Q : unit -> cache -> Prop) (p := page_number start) :
  layout G s L -> (forall k, k <> Bitmaps -> unch k s s1) -> page_index p -> is_Some (find_in L1_LEVEL s1.(l1_map) p) ->
  (forall x, x ∈ l <-> page_on s L x p) -> swept start last p s.(current_cpu) [] l L L2 J J2 (mkSmc w None None) x2 s1 s2 ->
  (w = true -> is_Some s.(current_cpu) /\ walks s.(host_mem)) -> (w = true -> resumes_outside s s.(current_cpu) -> X.(on_error) TcgAbort) ->
  (forall s', w = true -> restarted start last L s s' -> X.(on_longjmp) s') -> (forall s' L' J', invalidated start last w L L' J J' s s' -> Q tt s') ->
  wpc (d ← get_page p;
       cwhen (match d.(first_tb) with None => true | Some _ => false end)
         (invalidate_page_bitmap p ;; cwhen w (c ← not_null s.(current_cpu); tlb_unprotect_code_phys start)) ;;
       match x2.(modified) with
       | None => mret tt
       | Some (pc, cs_base, flags) =>
           c ← not_null s.(current_cpu); upd_cpu c (set_current_tb None) ;; tb_gen_code G c pc cs_base flags 1 ;; longjmp
       end) Q X s2.
Proof.
  intros Y K1 Hp Hex Hm [W1 W2 W3 W4 W5 W6 [W7 W7'] W8 [W9 _ W9'] W10 WQ W11 W12] Hw HE HX HQ.
  assert (unch Core s s1) as C1 by by apply K1. assert (unch Core s s2) as C2 by (by eapply unch_trans).
  assert (s2.(host_mem) = s.(host_mem)) as M2 by (destruct (K1 Memory) as [_ <-]; done).
  assert (forall x, in_range s1 start last x = in_range s start last x) as Er by (intros x; by apply in_range_core).
  assert (forall u, L2 u <-> L u /\ outside s L start last p u) as HL2.
  { intros u. rewrite W2. split; intros [HL H]; (split; [done|]); intros n Hn; [rewrite <- Er|rewrite Er]; by apply H, Hm. }
  apply wpc_bind2. eapply wpc_page_empty; [exact W1|exact Hp|by apply W6|by intros [? _]%Hw|]. intros s3 I3 C3 M3 U3 H3.
  assert (unch Core s s3) as C3' by (by eapply unch_trans). assert (code_kept L s s3) as K3.
  { apply (code_kept_trans L L s s1); [done|done|apply code_kept_eq, (K1 Code); done|].
    by apply (code_kept_trans L L s1 s2); [..|apply code_kept_eq]. }
  destruct x2.(modified) as [r|] eqn:Em.
  - assert (w = true) as Ew by (destruct w; [done|]; rewrite (WQ eq_refl) in Em; done).
    destruct r as [[pc cs] fl]. assert (resumes s s.(current_cpu) pc) as Hrs.
    { apply (resumes_view s s1); [done|f_equal; by apply (K1 Cpus)|]. by eapply W9'. }
    refine (wpc_restart X s3 L2 J2 s.(current_cpu) (pc, cs, fl) Q I3 _ (W9 _) _ _ _ _).
    + by destruct C3' as (_ & _ & _ & _ & ->).
    + right. right. congruence.
    + destruct Hrs as (t & o & _ & _ & ->). by apply wrap_range.
    + rewrite M3, M2. by apply Hw.
    + intros n Hn Hu. apply HE; [done|]. exists n, pc. by auto.
    + intros s' L' J' I' HL' M'. apply HX; [done|]. split; [|congruence]. exists L', J'. split; [done|]. intros u Hu.
      destruct (HL' u Hu) as [[Hu2 S']|?]; [left|by right]. apply HL2 in Hu2 as [Hu2 Ho]. split_and!; [done| |done].
      apply (same_block_trans s s3); [|done]. apply (code_kept_same G s s3 L); [exact Y|done|done|done].
  - apply wpc_ret. eapply HQ. split; [exact I3|exact HL2|exact W3|exact C3'|congruence|rewrite U3, W8; f_equal; by apply (K1 Cpus)|exact K3|].
    intros t -> Hr Ht Hrs n Hn. destruct (in_range s start last (t, n)) eqn:E; [|done]. exfalso.
    apply (W11 t n); [|done|by left|by apply Hm|by rewrite Er|unfold restarts in *; by core_rewrite C1|done].
    apply (runs_view s); [done| |done]. f_equal. by apply (K1 Cpus).
Qed.

Lemma wpc_page_range X s L J start last w (Q : unit -> cache -> Prop) :
  full_inv G s L J -> pages_apart s L -> page_index (page_number start) ->
  (w = true -> is_Some s.(current_cpu) /\ walks s.(host_mem)) -> (w = true -> resumes_outside s s.(current_cpu) -> X.(on_error) TcgAbort) -> (forall s', w = true -> restarted start last L s s' -> X.(on_longjmp) s') ->
  (forall s' L' J', invalidated start last w L L' J J' s s' -> Q tt s') ->
  wpc (tb_invalidate_phys_page_range G start last w) Q X s.
Proof.
  intros I Hap Hp Hw HE HX HQ. set (p := page_number start) in *. pose proof (ci_layout _ _ _ _ (fi_cache _ _ _ _ I)) as Y.
  destruct (li_lists _ _ _ (ci_pages _ _ _ _ (fi_cache _ _ _ _ I)) p Hp) as (l & Hc & Hm).
  unfold tb_invalidate_phys_page_range. fold (page_number start). fold p. apply wpc_bind, wpc_gets, wpc_bind, wpc_page_find.
  2:{ intros Hno. apply wpc_ret. eapply (HQ s L J). assert (forall x, ~ page_on s L x p) as Hnone.
      { intros x Hx%Hm. destruct l as [|y l]; [by apply not_elem_of_nil in Hx|]. destruct Hc as [Hc _]. apply page_exists in Hc. rewrite Hno in Hc. by destruct Hc. }
      split; try done; try apply unch_refl.
      - intros u. split; [intros Hu; split; [done|]; intros n Hx; by apply Hnone in Hx|by intros [? _]].
      - apply (restricted_refl s), I.
      - intros t _ _ _ _ n Hx. by apply Hnone in Hx. }
  intros Hex. pose proof Hex as [d Hd]. assert (d = page_of s p) as Ed by (unfold page_of, page_in; by rewrite Hd).
  apply wpc_bind. eapply wpc_get_page; [exact Hd|]. rewrite Ed. apply wpc_bind.
  eapply wpc_count_write; [exact I|exact Hp|exact Hex|]. intros s1 I1 K1. assert (unch Core s s1) as C1 by by apply K1.
  apply wpc_bind, wpc_gets, wpc_bind.
  assert (chain (pnext s1) (page_of s1 p).(first_tb) ([] ++ l) None) as Hc1.
  { destruct (K1 Pages) as [E1 E2]; [done|]. rewrite E1 by done. by apply (chain_ext (pnext s)); [intros x _; apply E2|]. }
  assert ((page_of s p).(first_tb) = head l) as Ehd by (change (ls_head s p) with (page_of s p).(first_tb) in Hc; by destruct l; [|destruct Hc as [-> _]]).
  assert (forall x, in_range s1 start last x = in_range s start last x) as Er by (intros x; by apply in_range_core).
  rewrite Ehd. eapply (wpc_invalidate_list X start last p s.(current_cpu) l Hp); [exact I1| |exact Hc1|done| | | |].
  { intros t Ht. core_rewrite C1. by apply Hap. }
  { destruct C1 as (_ & El & _). assert (length l <= 2 * length s.(tbs))%nat; [|unfold list_fuel; lia].
    apply nodup_bounded2; [by eapply chain_nodup|]. intros x Hx%Hm. by eapply (page_node_ok G). }
  { intros c Hcc. eapply (env_current s1); [exact I1|]. destruct C1 as (_ & _ & _ & _ & ->). done. }
  { split; [|done|done]. cbn [not_found cur modified]. intros [H|[H|H]]; [by apply Hw|done|done]. }
  intros s2 L2 J2 x2 W. eapply wpc_after_sweep; [exact Y|exact K1|exact Hp|exact (K1 Tables ltac:(done) p Hex)|exact Hm|exact W|done..].
Qed.
End Range.
