(* ===== verification/TbPhys.v ===== *)
(** * Blocks and physical memory

    Which bytes of physical memory a block was translated from, and what the
    invalidation of ranges of memory means for them. *)

From S2P Require Import Prelude QtraceDefs TlbLoad IContext TbState TbPages Tlb TbCache TbLogic TbLinks TbInv TbJumps TbInvalidate TlbInv TbGen TbLinkPage TbGenCode TbBitmap TbRange.

(** ** The code of a block *)

(** The bytes in its first or second page, and all bytes. *)
Definition part_addr (tb : TranslationBlock) (n : nat) (a : Z) : Prop :=
  at2 n tb.(page_addr) + (code_in_page tb n).1 <= a < at2 n tb.(page_addr) + (code_in_page tb n).2.
Definition code_addr (tb : TranslationBlock) (a : Z) : Prop := exists n, uses_page tb n /\ part_addr tb n a.

Lemma part_page tb n a : block_ok tb -> uses_page tb n -> part_addr tb n a -> page_number a = page_of_code tb n.
Proof.
  intros Hb Hu Ha. pose proof (code_in_page_bound tb n Hb) as Hc. pose proof (page_ok_of_number _ (used_page_ok tb n Hb Hu)) as E.
  unfold part_addr, page_of_code in *. rewrite page_number_eq. set (p := page_number _) in *. change TARGET_PAGE_SIZE with 4096 in *.
  symmetry. apply (Z.div_unique _ _ _ (a - p * 4096)); lia.
Qed.

Lemma in_range_iff s t n start last :
  start < last -> block_ok (tb_at s t) -> uses_page (tb_at s t) n -> page_of_code (tb_at s t) n = page_number start ->
  in_range s start last (t, n) = true <-> exists a, start <= a < last /\ part_addr (tb_at s t) n a.
Proof.
  intros Hlt Hb Hu Hp. pose proof (code_in_page_bound _ n Hb) as Hc. pose proof (used_page_ok _ n Hb Hu) as Hok.
  pose proof (page_ok_of_number _ Hok) as E. fold (page_of_code (tb_at s t) n) in E. rewrite Hp, page_number_eq in E.
  pose proof (Z.div_mod start TARGET_PAGE_SIZE ltac:(done)) as Ds. pose proof (Z.mod_pos_bound start TARGET_PAGE_SIZE ltac:(done)) as Ms.
  destruct Hok as [Hin _]. pose proof (bo_size _ Hb) as Hsz. unfold in_range, part_addr, tb_range, code_in_page in *. cbn [fst snd].
  pose proof (page_offset_bound (tb_at s t).(tb_pc)) as Ho. pose proof (page_offset_bound (u64 ((tb_at s t).(tb_pc) + (tb_at s t).(tb_size)))) as Ho'.
  unfold in_u in Hin. change TARGET_PAGE_SIZE with 4096 in *.
  destruct Hu as [->|[-> _]]; cbn [Nat.eqb at2 fst snd] in *; rewrite negb_true_iff, orb_false_iff, !Z.leb_gt.
  - rewrite !(wrap_id 64) by (unfold in_u; rewrite ?wrap_id by (unfold in_u; lia); lia).
    set (o := page_offset (tb_at s t).(tb_pc)) in *. destruct (Z.ltb_spec 4096 (o + (tb_at s t).(tb_size))).
    + split; [intros [H1 H2]; exists (Z.max start ((tb_at s t).(page_addr).1 + o)); lia|intros (a & H1 & H2); lia].
    + split; [intros [H1 H2]; exists (Z.max start ((tb_at s t).(page_addr).1 + o)); lia|intros (a & H1 & H2); lia].
  - set (o := page_offset (u64 _)) in *. rewrite (wrap_id 64) by (unfold in_u; lia).
    split; [intros [H1 H2]; exists (Z.max start (tb_at s t).(page_addr).2); lia|intros (a & H1 & H2); lia].
Qed.

Section Phys.
Context {machine : Machine} {mapping : Mapping} {translator : Translator} (G : code_gen).
Context (HM : machine_ok) (HG : gen_ok G) (HT : translator_ok) (HR : restored_ok).

Lemma outside_iff s L start last u : start < last -> layout G s L -> L u ->
  outside s L start last (page_number start) u <->
  forall a, start <= a < last -> page_number a = page_number start -> ~ code_addr (tb_at s u) a.
Proof.
  intros Hlt Y Hu. pose proof (ly_block G s L Y u Hu) as Hb. split.
  - intros Ho a Ha Hp (n & Hn & Hpa). pose proof (part_page _ n a Hb Hn Hpa) as Epc. rewrite Hp in Epc. symmetry in Epc.
    assert (page_on s L (u, n) (page_number start)) as Hon by (by split_and!). apply Ho in Hon.
    assert (in_range s start last (u, n) = true) by (apply in_range_iff; [done|done|done|done|by exists a]). congruence.
  - intros Hno n (_ & Hn & Hpc). cbn [fst snd] in *. destruct (in_range s start last (u, n)) eqn:E; [|done]. exfalso.
    apply in_range_iff in E as (a & Ha & Hpa); [|done|done|done|done]. apply (Hno a); [done| |by exists n].
    rewrite (part_page _ n a) by done. done.
Qed.

Lemma code_addr_core s s' t a : unch Core s s' -> code_addr (tb_at s' t) a <-> code_addr (tb_at s t) a.
Proof.
  intros Hc. unfold code_addr, uses_page, part_addr. split; intros (n & H1 & H2); exists n; revert H1 H2;
    rewrite (core_eq (fun tb => code_in_page tb n) s s' t) by done; by core_rewrite Hc.
Qed.

Lemma page_number_index a : 0 <= a < 2 ^ 52 -> page_index (page_number a).
Proof.
  intros Ha. unfold page_index, in_u. rewrite page_number_eq. change TARGET_PAGE_SIZE with 4096. split; [apply Z.div_pos; lia|].
  apply Z.div_lt_upper_bound; lia.
Qed.

(** ** Ranges of memory *)

(** Exactly the blocks with code in the range are gone. *)
Record range_gone (start last : Z) (L L' : nat -> Prop) (J J' : tagged -> option nat) (s s' : cache) : Prop := {
  rg_inv : full_inv G s' L' J';
  rg_live : forall u, L' u <-> L u /\ forall a, start <= a < last -> ~ code_addr (tb_at s u) a;
  rg_jumps : restricted J L' J';
  rg_core : unch Core s s';
  rg_mem : s'.(host_mem) = s.(host_mem);
  rg_cpus : cpu_view <$> s'.(cpus) = cpu_view <$> s.(cpus);
  rg_code : code_kept L s s'
}.

Lemma restricted_trans J L1 J1 L2 J2 :
  (forall u, L2 u -> L1 u) -> restricted J L1 J1 -> restricted J1 L2 J2 -> restricted J L2 J2.
Proof. intros HL H1 H2 x u. rewrite (H2 x u : _ <-> _), (H1 x u : _ <-> _). split; [tauto|]. intros (A & B & C). auto 6. Qed.

Lemma wpc_invalidate_pages X last : last <= 2 ^ 52 -> forall fuel start L J s (Q : unit -> cache -> Prop),
  full_inv G s L J -> pages_apart s L -> 0 <= start -> last <= Z.land start TARGET_PAGE_MASK + Z.of_nat fuel * TARGET_PAGE_SIZE ->
  (forall s' L' J', range_gone start last L L' J J' s s' -> Q tt s') -> wpc (invalidate_pages G fuel start last false) Q X s.
Proof.
  intros Hlast. induction fuel as [|fuel IH]; intros start L J s Q I Hap Hs Hf HQ; cbn [invalidate_pages];
    (destruct (Z.ltb_spec start last) as [Hlt|Hge]; [|apply wpc_ret; eapply HQ; split; [exact I| |apply (restricted_refl s), I|apply unch_refl|done|done|done];
      intros u; split; [intros Hu; split; [done|lia]|by intros [? _]]]).
  - rewrite page_mask_eq in Hf. pose proof (Z.mod_pos_bound start TARGET_PAGE_SIZE ltac:(done)). lia.
  - pose proof (page_mask_eq start) as Em. pose proof (Z.mod_pos_bound start TARGET_PAGE_SIZE ltac:(done)) as Mb.
    pose proof (aligned_mask start) as Al. set (b := Z.land start TARGET_PAGE_MASK) in *.
    assert (TARGET_PAGE_SIZE = 4096) as E4 by done.
    apply wpc_bind. eapply (wpc_page_range G HM HG HT HR); [exact I|exact Hap|apply page_number_index; lia|done|done|done|].
    intros s1 L1 J1 [V1 V2 V3 V4 V5 V6 V7 _]. pose proof (ci_layout _ _ _ _ (fi_cache _ _ _ _ I)) as Y.
    assert (aligned (b + TARGET_PAGE_SIZE)) as Al2 by (apply aligned_add; done).
    apply (IH (b + TARGET_PAGE_SIZE) L1 J1 s1); [exact V1| |lia|rewrite mask_aligned by done; lia|].
    { intros t Ht. core_rewrite V4. apply Hap. by apply V2. }
    intros s2 L2 J2 [R1 R2 R3 R4 R5 R6 R7]. eapply HQ. split; [exact R1| | |by eapply unch_trans|congruence|congruence|].
    + intros u. rewrite R2, V2. split.
      * intros [[HL Ho] H2]. split; [done|]. intros a Ha. destruct (decide (a < b + TARGET_PAGE_SIZE)) as [Hin|Hout].
        -- apply (outside_iff s L start last u); try done. rewrite !page_number_eq. pose proof (Z.div_mod start TARGET_PAGE_SIZE ltac:(done)).
           symmetry. apply (Z.div_unique _ _ _ (a - b)); lia.
        -- rewrite <- (code_addr_core s s1) by done. apply H2. lia.
      * intros [HL H2]. split; [split; [done|]|].
        -- apply outside_iff; try done. intros a Ha _. by apply H2.
        -- intros a Ha. rewrite (code_addr_core s s1) by done. apply H2. lia.
    + apply (restricted_trans J L1 J1); [|done|done]. intros u Hu. by apply R2.
    + apply (code_kept_trans L L1 s s1); [done|by intros u [? _]%V2|done|done].
Qed.

Lemma wpc_tb_invalidate_phys_range X s L J start last (Q : unit -> cache -> Prop) :
  full_inv G s L J -> pages_apart s L -> 0 <= start -> last <= 2 ^ 52 ->
  (forall s' L' J', range_gone start last L L' J J' s s' -> Q tt s') -> wpc (tb_invalidate_phys_range G start last false) Q X s.
Proof.
  intros I Hap Hs Hl HQ. unfold tb_invalidate_phys_range. apply (wpc_invalidate_pages X last Hl _ start L J s); try done.
  rewrite page_mask_eq. pose proof (Z.mod_pos_bound start TARGET_PAGE_SIZE ltac:(done)). change TARGET_PAGE_SIZE with 4096 in *.
  pose proof (Z.div_mod (last - start) 4096 ltac:(done)). pose proof (Z.mod_pos_bound (last - start) 4096 ltac:(done)).
  destruct (decide (0 <= (last - start) / 4096 + 2)); [rewrite Z2Nat.id by lia|]; lia.
Qed.

(** ** Writes of the guest *)

Definition access_ok (start len : Z) : Prop :=
  0 <= start /\ start + len <= 2 ^ 52 /\ (len = 1 \/ len = 2 \/ len = 4 \/ len = 8) /\ start mod len = 0.

(** An access lies in one byte of a bitmap. *)
Lemma access_byte start len a : access_ok start len -> start <= a < start + len ->
  a / 8 = start / 8 /\ a mod 8 = start mod 8 + (a - start) /\ page_number a = page_number start /\
  a mod TARGET_PAGE_SIZE = start mod TARGET_PAGE_SIZE + (a - start) /\ (a mod TARGET_PAGE_SIZE) / 8 = (start mod TARGET_PAGE_SIZE) / 8 /\
  (a mod TARGET_PAGE_SIZE) mod 8 = a mod 8.
Proof.
  intros (H0 & H1 & Hl & Hm) Ha. rewrite !page_number_eq. change TARGET_PAGE_SIZE with 4096.
  assert (start mod 8 + (a - start) < 8) as H8.
  { destruct Hl as [-> | [-> | [-> | ->]]]; [|assert (start mod 8 mod 2 = 0) by (rewrite Z.mod_mod_divide; [done|by exists 4])|
      assert (start mod 8 mod 4 = 0) by (rewrite Z.mod_mod_divide; [done|by exists 2])|];
      pose proof (Z.mod_pos_bound start 8 ltac:(done)); Z.to_euclidean_division_equations; lia. }
  pose proof (Z.div_mod start 8 ltac:(done)). pose proof (Z.mod_pos_bound start 8 ltac:(done)).
  assert (a / 8 = start / 8 /\ a mod 8 = start mod 8 + (a - start)) as [E1 E2].
  { split; [symmetry; apply (Z.div_unique _ _ _ (start mod 8 + (a - start)))|symmetry; apply (Z.mod_unique _ _ (start / 8))]; lia. }
  split_and!; [done|done|..]; Z.to_euclidean_division_equations; lia.
Qed.

Lemma bits_clear w j len a : 0 <= j -> 0 <= len -> testb (Z.shiftr w j) (Z.shiftl 1 len - 1) = false -> 0 <= a < len -> Z.testbit w (j + a) = false.
Proof.
  intros Hj Hl Ht Ha. unfold testb in Ht. apply negb_false_iff, Z.eqb_eq in Ht. rewrite Z.shiftl_mul_pow2, Z.mul_1_l in Ht by done.
  replace (2 ^ len - 1) with (Z.ones len) in Ht by (rewrite Z.ones_equiv; lia).
  apply (f_equal (fun z => Z.testbit z a)) in Ht. rewrite Z.land_spec, Z.ones_spec_low, andb_true_r, Z.bits_0, Z.shiftr_spec in Ht by lia.
  by rewrite Z.add_comm.
Qed.

(** Where the bits are clear there is no code. *)
Lemma no_code_in_access s L J start len tab :
  full_inv G s L J -> access_ok start len -> (page_of s (page_number start)).(code_bitmap) = Some tab ->
  testb (Z.shiftr (tab !!! Z.to_nat (page_offset start / 8)) (page_offset start mod 8)) (Z.shiftl 1 len - 1) = false ->
  forall u a, L u -> start <= a < start + len -> ~ code_addr (tb_at s u) a.
Proof.
  intros I Hok Et Hb u a Hu Ha (n & Hn & Hpa). pose proof (ci_layout _ _ _ _ (fi_cache _ _ _ _ I)) as Y. pose proof (ly_block G s L Y u Hu) as Hbo.
  destruct (access_byte start len a Hok Ha) as (E1 & E2 & E3 & E4 & E5 & E6). pose proof Hok as (H0 & H1 & Hl & Hm).
  pose proof (part_page _ n a Hbo Hn Hpa) as Ep. assert (page_index (page_number start)) as Hpi by (apply page_number_index; lia).
  destruct (ci_bitmaps _ _ _ _ (fi_cache _ _ _ _ I) _ tab Hpi Et) as [_ Hbits].
  pose proof (page_ok_of_number _ (used_page_ok _ n Hbo Hn)) as Eq. fold (page_of_code (tb_at s u) n) in Eq. rewrite <- Ep, page_number_eq in Eq.
  assert (bit_at tab (a mod TARGET_PAGE_SIZE) = true) as Hbit.
  { apply (Hbits (u, n)); [split_and!; [done|done|cbn [fst snd]; congruence]|]. cbn [fst snd]. unfold part_addr in Hpa.
    pose proof (Z.div_mod a TARGET_PAGE_SIZE ltac:(done)). lia. }
  unfold bit_at in Hbit. rewrite E5, E6, E2 in Hbit. rewrite page_offset_eq in Hb.
  rewrite (bits_clear _ (start mod 8) len (a - start)) in Hbit; [done|apply Z.mod_pos_bound; lia|lia| |lia].
  replace (start mod 8) with (start mod TARGET_PAGE_SIZE mod 8); [done|]. change TARGET_PAGE_SIZE with 4096. rewrite Z.mod_mod_divide; [done|by exists 512].
Qed.

(** The processor may write to the bytes: blocks with code there are gone, and the block
    that writes, unless it is one instruction, has none. *)
Record may_write (start len : Z) (L L' : nat -> Prop) (J J' : tagged -> option nat) (s s' : cache) : Prop := {
  mw_gone : range_gone start (start + len) L L' J J' s s';
  mw_writer : forall t, runs s s.(current_cpu) t -> L t -> restarts s t -> forall a, start <= a < start + len -> ~ code_addr (tb_at s t) a
}.

Lemma access_outside s L start len u : access_ok start len -> layout G s L -> L u ->
  outside s L start (start + len) (page_number start) u <-> forall a, start <= a < start + len -> ~ code_addr (tb_at s u) a.
Proof.
  intros Hok Y Hu. assert (start < start + len) as Hlt by (destruct Hok as (_ & _ & [-> | [-> | [-> | ->]]] & _); lia).
  rewrite (outside_iff s L start (start + len) u Hlt Y Hu). split; intros H a Ha; [|intros _; by apply H].
  apply H; [done|]. by destruct (access_byte start len a Hok Ha) as (_ & _ & ? & _).
Qed.

Lemma wpc_access_range X s L J start len (Q : unit -> cache -> Prop) :
  full_inv G s L J -> pages_apart s L -> access_ok start len -> is_Some s.(current_cpu) -> walks s.(host_mem) ->
  (resumes_outside s s.(current_cpu) -> X.(on_error) TcgAbort) ->
  (forall s', restarted G start (start + len) L s s' -> X.(on_longjmp) s') ->
  (forall s' L' J', may_write start len L L' J J' s s' -> Q tt s') ->
  wpc (tb_invalidate_phys_page_range G start (start + len) true) Q X s.
Proof.
  intros I Hap Hok Hcpu Hwk HE HX HQ. pose proof (ci_layout _ _ _ _ (fi_cache _ _ _ _ I)) as Y.
  eapply (wpc_page_range G HM HG HT HR); [exact I|exact Hap| |done|done|by auto|].
  { apply page_number_index. destruct Hok as (H0 & H1 & [-> | [-> | [-> | ->]]] & _); lia. }
  intros s' L' J' [V1 V2 V3 V4 V5 V6 V7 V8]. eapply HQ. split; [split; try done|].
  - intros u. rewrite V2. split; intros [HL H]; (split; [done|]); by apply (access_outside s L start len u Hok Y HL).
  - intros t Hr HL Hre. apply (access_outside s L start len t Hok Y HL). by apply V8.
Qed.

Lemma wpc_page_fast X s L J start len (Q : unit -> cache -> Prop) :
  full_inv G s L J -> pages_apart s L -> access_ok start len -> is_Some s.(current_cpu) -> walks s.(host_mem) ->
  (resumes_outside s s.(current_cpu) -> X.(on_error) TcgAbort) ->
  (forall s', restarted G start (start + len) L s s' -> X.(on_longjmp) s') ->
  (forall s' L' J', may_write start len L L' J J' s s' -> Q tt s') ->
  wpc (tb_invalidate_phys_page_fast G start len) Q X s.
Proof.
  intros I Hap Hok Hcpu Hwk HE HX HQ. pose proof (ci_layout _ _ _ _ (fi_cache _ _ _ _ I)) as Y.
  assert (page_index (page_number start)) as Hpi by (apply page_number_index; destruct Hok as (H0 & H1 & [-> | [-> | [-> | ->]]] & _); lia).
  assert ((forall u a, L u -> start <= a < start + len -> ~ code_addr (tb_at s u) a) -> Q tt s) as Hnone.
  { intros H. eapply (HQ s L J). split; [split; [done| |apply (restricted_refl s), I|apply unch_refl|done|done|done]|by eauto].
    intros u. split; [by eauto|by intros [? _]]. }
  unfold tb_invalidate_phys_page_fast. fold (page_number start) (page_offset start). apply wpc_bind, wpc_page_find.
  - intros [d Hd]. assert (d = page_of s (page_number start)) as Ed by (unfold page_of, page_in; by rewrite Hd).
    apply wpc_bind. eapply wpc_get_page; [exact Hd|]. rewrite Ed. destruct (code_bitmap _) as [tab|] eqn:Et; [|by apply (wpc_access_range X s L J)].
    rewrite Z.shiftr_div_pow2, land7 by done. change (2 ^ 3) with 8. pose proof (page_offset_bound start) as Hb.
    destruct (ci_bitmaps _ _ _ _ (fi_cache _ _ _ _ I) _ tab Hpi Et) as [Hlen _].
    assert (Z.to_nat (page_offset start / 8) < length tab)%nat as Hi.
    { rewrite Hlen. change TARGET_PAGE_SIZE with 4096 in *. assert (page_offset start / 8 < 512) by (apply Z.div_lt_upper_bound; lia).
      change (Z.to_nat (4096 / 8)) with 512%nat. lia. }
    apply wpc_bind. eapply wpc_lift; [by rewrite (list_lookup_lookup_total_lt tab _ Hi)|].
    apply wpc_when; intros E; [by apply (wpc_access_range X s L J)|]. apply Hnone. by eapply no_code_in_access.
  - intros Hno. apply wpc_ret, Hnone. intros u a Hu Ha (n & Hn & Hpa). pose proof (ly_block G s L Y u Hu) as Hb.
    destruct (access_byte start len a Hok Ha) as (_ & _ & Ep & _). rewrite (part_page _ n a Hb Hn Hpa) in Ep.
    assert (page_on s L (u, n) (page_number start)) as Hon by (by split_and!).
    destruct (li_lists _ _ _ (ci_pages _ _ _ _ (fi_cache _ _ _ _ I)) _ Hpi) as (l & Hc & Hm). apply Hm in Hon.
    destruct l as [|y l]; [by apply not_elem_of_nil in Hon|]. destruct Hc as [Hc _]. apply page_exists in Hc. rewrite Hno in Hc. by destruct Hc.
Qed.
End Phys.
