(* ===== verification/TbTwice.v ===== *)
(** * Blocks whose two pages are one

    Two virtual pages in a row can be mapped to the same physical page.  A block that
    spans them is in the list of that page twice.  [tb_invalidate_phys_page_range] takes
    the next node of the list before it invalidates the block of the current one, and so
    it invalidates such a block a second time; but [tb_phys_invalidate] looks for the
    block in its hash list up to the end and beyond. *)

From S2P Require Import Prelude QtraceDefs TlbLoad IContext TbState TbPages Tlb TbCache TbLogic TbLinks TbInv TbJumps TbInvalidate TlbInv TbGen TbLinkPage TbGenCode TbFind TbBitmap TbRange TbPhys.

(** ** Invalidation of a dead block *)

Definition null_deref : exits := mkExits (fun _ => False) (fun e => e = NullDeref).

Lemma wpc_null_deref {A} (m : cm A) s : wpc m (fun _ _ => False) null_deref s -> m s = Err NullDeref.
Proof. unfold wpc. destruct (m s) as [[[a|] s']|e]; [done|done|]. by intros ->. Qed.

(** The end of the hash list is reached. *)
Lemma wpc_hash_missing h t s (Q : unit -> cache -> Prop) l2 : forall l1 fuel,
  chain (hnext s) (s.(tb_phys_hash) !! h) (l1 ++ l2) None -> (forall u, u ∈ l1 ++ l2 -> (u < length s.(tbs))%nat) ->
  t ∉ l2 -> (length l2 < fuel)%nat -> wpc (hash_remove fuel (slot_after h l1) t) Q null_deref s.
Proof.
  induction l2 as [|b l2 IH]; intros l1 fuel Hc Hb Ht Hf; (destruct fuel as [|fuel]; [cbn in Hf; lia|]); cbn [hash_remove].
  all: assert (ls_ok s (slot_after h l1 : slot Z nat)) as Hok by (apply slot_after_ok; [done|]; intros u Hu; apply Hb, elem_of_app; by left).
  all: apply wpc_bind, wpc_read_hash; [done|]; rewrite (slot_after_val (LL := hash_lists) s h l1 _ Hc); cbn [head].
  - done.
  - apply wpc_bind, wpc_not_null. destruct (Nat.eqb_spec b t) as [->|Hne]; [by destruct Ht; apply list_elem_of_here|].
    rewrite <- (slot_after_snoc h l1 b). apply (IH (l1 ++ [b])); rewrite <- ?app_assoc; try done; [|cbn in Hf; lia].
    intros H. by apply Ht, list_elem_of_further.
Qed.

Section Twice.
Context {machine : Machine} {mapping : Mapping} {translator : Translator} (G : code_gen).
Context (HM : machine_ok) (HG : gen_ok G) (HT : translator_ok) (HR : restored_ok).

Lemma wpc_invalidate_dead s L J t pa (Q : unit -> cache -> Prop) :
  cache_inv G s L J -> (t < length s.(tbs))%nat -> ~ L t -> wpc (tb_phys_invalidate t pa) Q null_deref s.
Proof.
  intros I Ht Hd. apply wpc_bind, wpc_get_tb; [done|]. apply wpc_bind, wpc_bind, wpc_gets. set (h := tb_phys_hash_func _).
  destruct (li_lists _ _ _ (ci_hash _ _ _ _ I) h Logic.I) as (l & Hc & Hm).
  assert (forall u, u ∈ l -> (u < length s.(tbs))%nat) as Hb by (intros u [Hu _]%Hm; by apply (live_bound G s L u (ci_layout _ _ _ _ I))).
  apply (wpc_hash_missing h t s _ l []); [done|done|by intros [? _]%Hm|].
  pose proof (nodup_bounded l _ (chain_nodup _ _ _ Hc) Hb). unfold list_fuel. lia.
Qed.

Lemma wpc_invalidate_one_dead s L J cpu t (Q : unit -> cache -> Prop) :
  full_inv G s L J -> (t < length s.(tbs))%nat -> ~ L t -> (forall c, cpu = Some c -> has_env s c) -> wpc (invalidate_one cpu t) Q null_deref s.
Proof.
  intros I Ht Hd Hcpu. destruct cpu as [n|]; cbn [invalidate_one]; [|by eapply wpc_invalidate_dead; [apply I|..]].
  destruct (Hcpu n eq_refl) as [c0 Hc0]. apply wpc_bind. eapply wpc_get_cpu; [done|]. apply wpc_bind. eapply wpc_upd_cpu; [done|].
  assert (full_inv G (set_cpus (<[n := set_current_tb None c0]> s.(cpus)) s) L J) as I1 by (by apply full_inv_cpu).
  apply wpc_bind. by eapply wpc_invalidate_dead; [apply I1|..].
Qed.

(** ** The second node *)

(** Not a write of a processor: the current block does not matter. *)
Lemma wpc_note_quiet X s cpu t (Q : smc_state -> cache -> Prop) : (t < length s.(tbs))%nat -> Q quiet s -> wpc (note_current G cpu t quiet) Q X s.
Proof. intros Ht HQ. apply wpc_bind, wpc_ret, wpc_bind, wpc_get_tb; [done|]. cbn [quiet cur]. rewrite bool_decide_eq_false_2 by done. by apply wpc_ret. Qed.

Lemma wpc_list_dead s L J cpu start last fuel t n (Q : smc_state -> cache -> Prop) :
  full_inv G s L J -> (t < length s.(tbs))%nat -> ~ L t -> (n < 2)%nat -> (forall c, cpu = Some c -> has_env s c) ->
  in_range s start last (t, n) = true -> wpc (invalidate_list G (S fuel) cpu start last (Some (t, n)) quiet) Q null_deref s.
Proof.
  intros I Ht Hd Hn Hcpu Hr. cbn [invalidate_list]. apply wpc_bind, wpc_get_tb; [done|]. apply wpc_bind. eapply wpc_lift; [by apply sel_link2|].
  unfold in_range in Hr. cbn [fst snd] in Hr. destruct (tb_range _ n) as [a b]. apply negb_true_iff in Hr. rewrite Hr.
  apply wpc_bind, wpc_bind, wpc_note_quiet; [done|]. apply wpc_bind. by eapply wpc_invalidate_one_dead.
Qed.

(** The block [t] is the first one of the page twice, and the range meets both parts. *)
Record twice (s : cache) (L : nat -> Prop) (start last : Z) (t : nat) : Prop := {
  tw_live : L t;
  tw_first : (page_of s (page_number start)).(first_tb) = Some (t, 1%nat);
  tw_next : pnext s (t, 1%nat) = Some (t, 0%nat);
  tw_range : forall n, (n < 2)%nat -> in_range s start last (t, n) = true
}.

Lemma wpc_range_twice s L J start last t :
  full_inv G s L J -> page_index (page_number start) -> twice s L start last t ->
  wpc (tb_invalidate_phys_page_range G start last false) (fun _ _ => False) null_deref s.
Proof.
  intros I Hp [T1 T3 T4 T5]. set (p := page_number start) in *. pose proof (ci_layout _ _ _ _ (fi_cache _ _ _ _ I)) as Y.
  unfold tb_invalidate_phys_page_range. fold (page_number start). fold p. apply wpc_bind, wpc_gets, wpc_bind, wpc_page_find.
  2:{ intros Hno. exfalso. apply page_exists in T3. rewrite Hno in T3. by destruct T3. }
  intros Hex. pose proof Hex as [d Hd]. assert (d = page_of s p) as Ed by (unfold page_of, page_in; by rewrite Hd).
  apply wpc_bind. eapply wpc_get_page; [exact Hd|]. rewrite Ed. apply wpc_bind.
  eapply wpc_count_write; [exact I|exact Hp|exact Hex|]. intros s1 I1 K1. assert (unch Core s s1) as C1 by by apply K1.
  apply wpc_bind, wpc_gets, wpc_bind. rewrite T3. pose proof (live_bound G s1 L t (ci_layout _ _ _ _ (fi_cache _ _ _ _ I1)) T1) as Hlt.
  assert (exists f, list_fuel s1 = S (S f)) as [f ->] by (unfold list_fuel; destruct (length s1.(tbs)); [lia|]; eexists; reflexivity).
  assert (forall c, s.(current_cpu) = Some c -> has_env s1 c) as Hcpu.
  { intros c Hcc. eapply (env_current G s1); [exact I1|]. by destruct C1 as (_ & _ & _ & _ & ->). }
  remember (S f) as f1. cbn [invalidate_list]. apply wpc_bind, wpc_get_tb; [done|]. apply wpc_bind. eapply wpc_lift; [by apply (sel_link2 1); lia|].
  destruct (K1 Pages) as [_ E2]; [done|]. assert (link2 1 (tb_at s1 t).(page_next) = Some (t, 0%nat)) as -> by exact (eq_trans (E2 (t, 1%nat)) T4).
  pose proof (T5 1%nat ltac:(lia)) as Hr. rewrite <- (in_range_core s s1) in Hr by done. unfold in_range in Hr. cbn [fst snd] in Hr.
  destruct (tb_range _ 1) as [a b]. apply negb_true_iff in Hr. rewrite Hr. apply wpc_bind, wpc_bind, wpc_note_quiet; [done|].
  apply wpc_bind. eapply (wpc_invalidate_one G); [exact I1|done|done|]. intros s2 [N1 N2 N3 N4 N5 N6 N7]. apply wpc_ret. rewrite Heqf1.
  eapply (wpc_list_dead s2 (without L t)); [exact N1|by destruct N2 as (_ & -> & _)|by intros [_ ?]|lia| |].
  - intros c Hcc. destruct (Hcpu c Hcc) as [c0 Hc0]. destruct (view_lookup s1 s2 c c0 N6 Hc0) as (c' & ? & _). by eexists.
  - rewrite (in_range_core s1 s2), (in_range_core s s1) by done. apply T5. lia.
Qed.
End Twice.
