(* ===== verification/TbStore.v ===== *)
(** * Stores of the guest and of devices

    The slow path of a store (softmmu_template.h), and what it does for pages of RAM
    that are observed for writes: [notdirty_mem_write] of exec.c, called through
    memory.c.  Writes to other regions of memory (device registers, ROM, pages with
    watchpoints) are a parameter.  The guest is little-endian and so is the host.
    QEMU runs without -icount, so that [can_do_io] is true and [io_write] does not call
    [cpu_io_recompile].  Then the writes of devices to RAM. *)

From S2P Require Import Prelude QtraceDefs TlbLoad IContext TbState TbPages Tlb TbCache.

(** A write to another region than [io_mem_notdirty]: the processor, the number of the
    section, the address in it, the value and its size. *)
Class Devices := { device_write : nat -> Z -> Z -> Z -> Z -> cm unit }.

(** exec-all.h *)
Definition GETPC_ADJ : Z := 2.

(** ** Bytes in the host *)

Definition byte_of (val i : Z) : Z := u8 (Z.shiftr val (8 * i)).
(** stb_p, stw_p, stl_p, stq_p *)
Definition st_p (h size val : Z) (m : Z -> Z) : Z -> Z :=
  fun p => if u64 (p - h) <? size then byte_of val (u64 (p - h)) else m p.
Definition store_host (h size val : Z) : cm unit :=
  modify (fun s => set_memory s.(phys_dirty) (st_p h size val s.(host_mem)) s).

Section Store.
Context {machine : Machine} {translator : Translator} {devices : Devices} (G : code_gen).

(** ** RAM that is observed for writes *)

Definition notdirty_mem_write (ram_addr val size : Z) : cm unit :=
  dirty_flags ← cpu_physical_memory_get_dirty_flags ram_addr;
  dirty_flags ←
    (if testb dirty_flags CODE_DIRTY_FLAG then mret dirty_flags
     else tb_invalidate_phys_page_fast G ram_addr size ;; cpu_physical_memory_get_dirty_flags ram_addr);
  (if (size =? 1) || (size =? 2) || (size =? 4) then h ← qemu_get_ram_ptr ram_addr; store_host h size val
   else fail TcgAbort) ;;
  let dirty_flags := Z.lor dirty_flags (Z.land 0xff (Z.lnot CODE_DIRTY_FLAG)) in
  cpu_physical_memory_set_dirty_flags ram_addr dirty_flags ;;
  cwhen (dirty_flags =? 0xff)
    (o ← gets current_cpu; env ← not_null o; c ← get_cpu env; tlb_set_dirty env c.(mem_io_vaddr)).

(** *** memory.c, for [notdirty_mem_ops]

    The region accepts all writes; its sizes of accesses are the defaults. *)

Definition memory_region_access_valid (addr size : Z) : bool := Z.land addr (size - 1) =? 0.

Definition access_with_adjusted_size (addr value size : Z) (access : Z -> Z -> Z -> cm unit) : cm unit :=
  let access_size := Z.max (Z.min size 4) 1 in
  let access_mask := Z.shiftr (u64 (-1)) (64 - access_size * 8) in
  ceach (fun i => access (u64 (addr + i)) (Z.land (Z.shiftr value (i * 8)) access_mask) access_size)
    ((fun k => Z.of_nat k * access_size) <$> seq 0 (Z.to_nat ((size + access_size - 1) / access_size))).

(** A write that is not valid is one to unassigned memory, which does nothing. *)
Definition io_mem_write (addr val size : Z) : cm unit :=
  cwhen (memory_region_access_valid addr size) (access_with_adjusted_size addr val size notdirty_mem_write).

(** ** The slow path *)

Definition io_write (env : nat) (physaddr val addr retaddr size : Z) : cm unit :=
  let mr := Z.land physaddr (Z.lnot TARGET_PAGE_MASK) in
  let physaddr := u64 (Z.land physaddr TARGET_PAGE_MASK + addr) in
  upd_cpu env (set_mem_io retaddr addr) ;;
  if mr =? PHYS_SECTION_NOTDIRTY then io_mem_write physaddr val size else device_write env mr physaddr val size.

(** [unaligned] is the loop for accesses that are not aligned or span two pages. *)
Definition helper_st (unaligned : cm unit) (size : Z) (env : nat) (addr val mmu_idx retaddr : Z) : cm unit :=
  let index := tlb_index addr in
  c ← get_cpu env;
  let tlb_addr := (c.(tlb_table) mmu_idx index).(addr_write) in
  let retaddr := u64 (retaddr - GETPC_ADJ) in
  cwhen (negb (Z.land addr TARGET_PAGE_MASK =? Z.land tlb_addr (Z.lor TARGET_PAGE_MASK TLB_INVALID_MASK)))
    (tlb_fill env addr 1 mmu_idx) ;;
  c ← get_cpu env;
  let e := c.(tlb_table) mmu_idx index in
  if testb e.(addr_write) (Z.lnot TARGET_PAGE_MASK) then
    if testb addr (size - 1) then unaligned
    else io_write env (c.(iotlb) mmu_idx index) val addr retaddr size
  else if (1 <? size) && (TARGET_PAGE_SIZE <=? page_offset addr + size - 1) then unaligned
  else store_host (u64 (addr + e.(addend))) size val.

(** One byte is always aligned. *)
Definition helper_ret_stb : nat -> Z -> Z -> Z -> Z -> cm unit := helper_st (mret tt) 1.

Definition unaligned_bytes (size : Z) (env : nat) (addr val mmu_idx retaddr : Z) : cm unit :=
  ceach (fun i => helper_ret_stb env (u64 (addr + i)) (byte_of val i) mmu_idx retaddr)
    (Z.of_nat <$> rev (seq 0 (Z.to_nat size))).
Definition helper_le_st (size : Z) (env : nat) (addr val mmu_idx retaddr : Z) : cm unit :=
  helper_st (unaligned_bytes size env addr val mmu_idx retaddr) size env addr val mmu_idx retaddr.
End Store.

(** ** Writes of devices

    The case of RAM in [address_space_rw], which writes within one page, and
    [address_space_unmap], which invalidates blocks after a device has written to memory
    that was mapped for it.  Calls into Xen are left out. *)

Section Dma.
Context {machine : Machine} {translator : Translator} (G : code_gen).

Definition invalidate_and_set_dirty (addr length : Z) : cm unit :=
  dirty ← cpu_physical_memory_is_dirty addr;
  cwhen (negb dirty)
    (tb_invalidate_phys_page_range G addr (addr + length) false ;;
     cpu_physical_memory_set_dirty_flags addr (Z.land 0xff (Z.lnot CODE_DIRTY_FLAG))).

(** The branch of [address_space_rw] for RAM; [addr1] is an address of RAM, and
    [address_space_translate] has cut the access at the end of the page. *)
Definition write_ram (addr1 : Z) (buf : list Z) : cm unit :=
  ptr ← qemu_get_ram_ptr addr1;
  modify (fun s => set_memory s.(phys_dirty) (write_code ptr buf s.(host_mem)) s) ;;
  invalidate_and_set_dirty addr1 (Z.of_nat (length buf)).

(** The loop of [address_space_unmap], and its branch for memory that is not the bounce
    buffer. *)
Fixpoint unmap_pages (fuel : nat) (addr1 access_len : Z) : cm unit :=
  if access_len =? 0 then mret tt
  else
    match fuel with
    | O => fail OutOfFuel
    | S fuel =>
        let l := if access_len <? TARGET_PAGE_SIZE then access_len else TARGET_PAGE_SIZE in
        invalidate_and_set_dirty addr1 l ;;
        unmap_pages fuel (addr1 + l) (access_len - l)
    end.
Definition address_space_unmap (buffer : Z) (is_write : bool) (access_len : Z) : cm unit :=
  match qemu_ram_addr_from_host buffer with
  | None => fail AssertFailed
  | Some addr1 => cwhen is_write (unmap_pages (S (Z.to_nat (access_len / TARGET_PAGE_SIZE))) addr1 access_len)
  end.
End Dma.
