(* ===== verification/TbWrite.v ===== *)
(** * Writes to RAM that is watched

    [notdirty_mem_write]: blocks that were translated from the bytes written are gone
    when they change, and the invariant of the cache and of the TLBs is kept. *)

From S2P Require Import Prelude QtraceDefs TlbLoad IContext TbState TbPages Tlb TbCache TbLogic TbLinks TbInv TbJumps TbInvalidate TlbInv TbGen TbLinkPage TbGenCode TbBitmap TbRange TbPhys TbStore.

(** ** Bytes *)

Lemma in_store p size q : in_u 64 q -> 0 <= p -> p + size <= 2 ^ 64 -> (u64 (q - p) <? size) = true <-> p <= q < p + size.
Proof. intros. by apply in_range_u64. Qed.
Lemma st_p_in p size val m q : in_u 64 p -> in_u 64 q -> p <= q < p + size -> st_p p size val m q = byte_of val (q - p).
Proof.
  unfold st_p, in_u. intros Hp Hq Hr. rewrite wrap_id by (unfold in_u; lia). by rewrite (proj2 (Z.ltb_lt _ _)) by lia.
Qed.
Lemma st_p_out p size val m q : in_u 64 q -> 0 <= p -> p + size <= 2 ^ 64 -> ~ p <= q < p + size -> st_p p size val m q = m q.
Proof.
  intros Hq Hp Hs Hr. unfold st_p. destruct (u64 (q - p) <? size) eqn:E; [|done]. by apply in_store in E.
Qed.

Section Write.
Context {machine : Machine} {mapping : Mapping} {translator : Translator} (G : code_gen).
Context (HM : machine_ok) (HG : gen_ok G) (HT : translator_ok) (HR : restored_ok).

(** ** What a write keeps *)

(** A block is the same and so is the guest code in memory that it was translated from. *)
Definition unwritten (s s' : cache) (u : nat) : Prop :=
  same_block s s' u /\ forall a p, code_addr (tb_at s u) a -> ram_host a p -> s'.(host_mem) p = s.(host_mem) p.
(** Blocks that are still live were live and are unwritten. *)
Definition kept (L L' : nat -> Prop) (s s' : cache) : Prop := forall u, L' u -> L u /\ unwritten s s' u.

Lemma code_addr_same tb tb' a : core tb' = core tb -> code_addr tb' a <-> code_addr tb a.
Proof.
  intros E. assert (forall A (f : TranslationBlock -> A), (forall b, f (core b) = f b) -> f tb' = f tb) as H
    by (intros A f Hf; by rewrite <- Hf, E, Hf).
  unfold code_addr, uses_page, part_addr. split; intros (n & H1 & H2); exists n; revert H1 H2;
    rewrite (H _ (fun tb => code_in_page tb n)), (H _ page_addr) by done; done.
Qed.

Lemma unwritten_mem s s' u : same_block s s' u -> s'.(host_mem) = s.(host_mem) -> unwritten s s' u.
Proof. intros B Em. split; [done|]. by rewrite Em. Qed.
Lemma unwritten_trans s1 s2 s3 u : unwritten s1 s2 u -> unwritten s2 s3 u -> unwritten s1 s3 u.
Proof.
  intros [B1 M1] [B2 M2]. split; [by eapply same_block_trans|]. intros a p Ha Hp. rewrite M2 with a p; [by apply M1 with a| |done].
  by apply (code_addr_same (tb_at s1 u)), Ha; apply B1.
Qed.

Lemma kept_refl L s s' : (forall u, core (tb_at s' u) = core (tb_at s u)) -> s'.(host_code) = s.(host_code) -> s'.(host_mem) = s.(host_mem) -> kept L L s s'.
Proof. intros E Eh Em u Hu. split; [done|]. apply unwritten_mem; [by apply same_block_eq|done]. Qed.
Lemma kept_trans L1 L2 L3 s1 s2 s3 : kept L1 L2 s1 s2 -> kept L2 L3 s2 s3 -> kept L1 L3 s1 s3.
Proof. intros K1 K2 u Hu. destruct (K2 u Hu) as [Hu2 U2]. destruct (K1 u Hu2) as [Hu1 U1]. split; [done|by eapply unwritten_trans]. Qed.

(** The bytes [a] to [a + size] of RAM, which are at [p] in the host. *)
Definition ram_bytes (a p size : Z) : Prop := forall i, 0 <= i < size -> ram_host (a + i) (p + i).

Lemma ram_bytes_bound a p size : 0 < size -> ram_bytes a p size -> in_u 64 p /\ p + size <= 2 ^ 64 /\ in_u 52 a /\ a + size <= 2 ^ 52.
Proof.
  intros Hs H. destruct (ram_host_bound HM _ _ (H 0 ltac:(lia))) as (H1 & H2 & _).
  destruct (ram_host_bound HM _ _ (H (size - 1) ltac:(lia))) as (H3 & H4 & _). rewrite !Z.add_0_r in *. unfold in_u in *. lia.
Qed.

Lemma kept_store L s a p size val d : 0 < size -> ram_bytes a p size ->
  (forall u x, L u -> a <= x < a + size -> ~ code_addr (tb_at s u) x) ->
  kept L L s (set_memory d (st_p p size val s.(host_mem)) s).
Proof.
  intros Hs Hb Hno u Hu. split; [done|]. split; [by apply same_block_eq|]. intros x q Hx Hq. destruct (ram_bytes_bound a p size Hs Hb) as (B1 & B2 & _ & _).
  destruct (ram_host_bound HM _ _ Hq) as (_ & Bq & _). unfold in_u in B1. cbn [host_mem set_memory]. apply st_p_out; [done|lia|lia|].
  intros Hr. pose proof (Hb (q - p) ltac:(lia)) as H. replace (p + (q - p)) with q in H by lia.
  rewrite (ram_host_inj HM _ _ _ Hq H) in Hx. apply (Hno u (a + (q - p))); [done|lia|done].
Qed.

(** ** Flags and entries *)

Lemma full_inv_memory s d m L J :
  full_inv G s L J -> (forall q, code_dirty d q <-> code_dirty s.(phys_dirty) q) -> full_inv G (set_memory d m s) L J.
Proof.
  intros [I T C F] Hd. split; [| | |exact F].
  - apply (cache_inv_frame G s); [|done]. intros k _ _ Hk. destruct k; first [done|intros q Hq; exact Hq|apply (unch_refl _ s)].
  - intros k c Hc mo i Hi. apply (entry_ok_mono _ _ s.(phys_dirty)); [intros q; apply Hd|by apply T].
  - intros x p Hx. cbn [phys_dirty set_memory]. rewrite Hd. by apply (C x).
Qed.

Lemma set_dirty_code a f d (m : Z := Z.lor f (Z.land 0xff (Z.lnot CODE_DIRTY_FLAG))) q :
  d (page_number a) = f -> code_dirty (set_dirty_entry (page_number a) (Z.lor f m) d) q <-> code_dirty d q.
Proof.
  intros <-. unfold code_dirty, set_dirty_entry. destruct (Z.eqb_spec q (page_number a)) as [->|_]; [|done].
  unfold m. rewrite !Z.lor_spec. change (Z.testbit (Z.land 0xff _) 1) with false. rewrite orb_false_r, orb_diag. done.
Qed.

Lemma set_dirty1_ok n wps d v i e io :
  aligned v -> (forall r, ram_host r (host_map n v) -> code_dirty d (page_number r)) ->
  entry_ok n wps d i e io -> entry_ok n wps d i (tlb_set_dirty1 v e) io.
Proof.
  intros Av Hd E. unfold tlb_set_dirty1. destruct (Z.eqb_spec e.(addr_write) (Z.lor v TLB_NOTDIRTY)) as [Ew|_]; [|done].
  destruct E as [E1 E2 E3 E4 E5]. assert (write_tag e = v) as Et by (unfold write_tag; rewrite Ew, tag_notdirty; by apply mask_aligned).
  assert (ram_entry (set_addr_write v e) = true) as Er.
  { unfold ram_entry. cbn [addr_write set_addr_write]. rewrite <- (mask_aligned v Av), <- Z.land_assoc.
    change (Z.land TARGET_PAGE_MASK _) with 0. by rewrite Z.land_0_r. }
  assert (ram_entry e = true) as Er'.
  { rewrite <- Er, <- (ram_entry_notdirty (set_addr_write v e)). unfold ram_entry. cbn [addr_write set_addr_write]. by rewrite Ew. }
  assert (write_tag (set_addr_write v e) = v) as Et' by by apply mask_aligned.
  assert (host_page (set_addr_write v e) = host_page e) as Eh by (unfold host_page; by rewrite Et, Et').
  destruct (E3 Er') as (H1 & H2 & H3). rewrite Et in *.
  split; [exact (code_entry_kept _ _ _ _ _ E1)| | |congruence|]; rewrite ?Eh; [|by rewrite Et'|].
  - intros _ r Hr. apply Hd. by rewrite <- H1.
  - intros _. rewrite Et'. apply E5. by apply ram_entry_valid.
Qed.

Lemma wpc_tlb_set_dirty X s L J n v (Q : unit -> cache -> Prop) :
  full_inv G s L J -> has_env s n -> (forall r, ram_host r (host_map n (Z.land v TARGET_PAGE_MASK)) -> code_dirty s.(phys_dirty) (page_number r)) ->
  (forall s', full_inv G s' L J -> tlb_changed s s' -> Q tt s') -> wpc (tlb_set_dirty n v) Q X s.
Proof.
  intros I [c Hc] Hd HQ. eapply wpc_upd_cpu; [done|].
  assert (forall s', tlb_changed s s' -> tlbs_ok s' -> Q tt s') as HQ' by (intros s' T O; apply HQ; [by apply (full_inv_tlb G s)|done]).
  apply HQ'; [by apply upd_cpu_changed|]. apply upd_cpu_tlbs_ok; [done|apply I|]. intros m i Hi. cbn [tlb_table set_tlb iotlb]. unfold map_tlb.
  pose proof (fi_tlbs _ _ _ _ I n c Hc m i Hi) as E. case_match; [|done]. apply set_dirty1_ok; [apply aligned_mask|done|done].
Qed.

(** ** The write *)

Record stored (L L' : nat -> Prop) (s s' : cache) : Prop := {
  sd_inv : exists J', full_inv G s' L' J';
  sd_kept : kept L L' s s';
  sd_core : unch Core s s';
  sd_io : cpu_io <$> s'.(cpus) = cpu_io <$> s.(cpus);
  sd_watch : watchpoints <$> s'.(cpus) = watchpoints <$> s.(cpus);
  sd_writer : forall t, runs s s.(current_cpu) t -> L t -> restarts s t -> L' t
}.

(** Left by siglongjmp: live blocks are unwritten or have just been translated. *)
Definition interrupted (L : nat -> Prop) (s s' : cache) : Prop :=
  exists L' J', full_inv G s' L' J' /\ forall u, L' u -> L u /\ unwritten s s' u \/ fresh u s'.

Lemma runs_io s s' t : unch Core s s' -> cpu_io <$> s'.(cpus) = cpu_io <$> s.(cpus) -> runs s s.(current_cpu) t -> runs s' s'.(current_cpu) t.
Proof.
  intros Hc E (n & c & Hn & Hcc & Hr). pose proof Hc as (_ & _ & _ & _ & Ecur).
  assert ((cpu_io <$> s'.(cpus)) !! n = Some (cpu_io c)) as H by by rewrite E, list_lookup_fmap, Hcc.
  rewrite list_lookup_fmap in H. destruct (s'.(cpus) !! n) as [c'|] eqn:Ec'; [|done]. exists n, c'. rewrite Ecur.
  assert (cpu_io c' = cpu_io c) as Eio by (change (Some (cpu_io c') = Some (cpu_io c)) in H; congruence).
  rewrite (f_equal fst Eio : c'.(mem_io_pc) = c.(mem_io_pc)).
  refine (conj Hn (conj Ec' _)). core_rewrite Hc. exact Hr.
Qed.
Lemma restarts_core s s' t : unch Core s s' -> restarts s t <-> restarts s' t.
Proof. intros Hc. unfold restarts. by core_rewrite Hc. Qed.

Lemma stored_trans L1 L2 L3 s1 s2 s3 : stored L1 L2 s1 s2 -> stored L2 L3 s2 s3 -> stored L1 L3 s1 s3.
Proof.
  intros [A1 A2 A3 A4 A5 A6] [B1 B2 B3 B4 B5 B6]. split; [done|by eapply kept_trans|by eapply unch_trans|congruence|congruence|].
  intros t Hr Ht Hs. apply B6; [by eapply runs_io|by apply A6|by apply (restarts_core s1 s2)].
Qed.
Lemma kept_interrupted L1 L2 s1 s2 s3 : kept L1 L2 s1 s2 -> interrupted L2 s2 s3 -> interrupted L1 s1 s3.
Proof.
  intros A (L3 & J3 & I3 & K3). exists L3, J3. split; [done|]. intros u Hu. destruct (K3 u Hu) as [[Hu2 U2]|?]; [left|by right].
  destruct (A u Hu2) as [? ?]. split; [done|by eapply unwritten_trans].
Qed.
Lemma stored_interrupted L1 L2 s1 s2 s3 : stored L1 L2 s1 s2 -> interrupted L2 s2 s3 -> interrupted L1 s1 s3.
Proof. intros [A1 A2 A3 A4 A5 A6]. by apply kept_interrupted. Qed.

(** No block has code in a page that may be written unnoticed. *)
Lemma dirty_no_code s L J u x : full_inv G s L J -> L u -> code_dirty s.(phys_dirty) (page_number x) -> ~ code_addr (tb_at s u) x.
Proof.
  intros I Hu Hd (n & Hn & Hpa). pose proof (ly_block G s L (ci_layout _ _ _ _ (fi_cache _ _ _ _ I)) u Hu) as Hb.
  apply (fi_clean _ _ _ _ I (u, n) (page_number x)); [|done]. rewrite (part_page _ n x Hb Hn Hpa). by split_and!.
Qed.

Lemma access_size a size : access_ok a size -> 0 < size.
Proof. intros (_ & _ & [-> | [-> | [-> | ->]]] & _); lia. Qed.

Lemma restarted_interrupted a size L J s s' : full_inv G s L J -> access_ok a size -> restarted G a (a + size) L s s' -> interrupted L s s'.
Proof.
  intros I Hok [(L' & J' & I' & H) Em]. exists L', J'. split; [done|]. intros u Hu.
  destruct (H u Hu) as [(HL & B & _)|?]; [left|by right]. split; [done|by apply unwritten_mem].
Qed.

(** Before the write blocks with code in these bytes are invalidated. *)
Lemma wpc_make_writable X s L J a size (Q : Z -> cache -> Prop) :
  full_inv G s L J -> pages_apart s L -> access_ok a size -> is_Some s.(current_cpu) -> walks s.(host_mem) ->
  (resumes_outside s s.(current_cpu) -> X.(on_error) TcgAbort) ->
  (forall s', interrupted L s s' -> X.(on_longjmp) s') ->
  (forall s' L' J', may_write G a size L L' J J' s s' -> Q (s'.(phys_dirty) (page_number a)) s') ->
  wpc (let f := s.(phys_dirty) (page_number a) in
       if testb f CODE_DIRTY_FLAG then mret f
       else tb_invalidate_phys_page_fast G a size ;; cpu_physical_memory_get_dirty_flags a) Q X s.
Proof.
  intros I Hap Hok Hcpu Hwk HE HX HQ. cbn zeta. destruct (testb _ _) eqn:E.
  - apply wpc_ret. eapply (HQ s L J). assert (code_dirty s.(phys_dirty) (page_number a)) as Hd.
    { unfold code_dirty. change CODE_DIRTY_FLAG with (2 ^ 1) in E. by rewrite testb_pow2 in E. }
    assert (forall u x, L u -> a <= x < a + size -> ~ code_addr (tb_at s u) x) as Hno.
    { intros u x Hu Hx. eapply dirty_no_code; [done|done|]. by destruct (access_byte a size x Hok Hx) as (_ & _ & -> & _). }
    split; [split; [done| |apply (restricted_refl s), I|apply unch_refl|done|done|done]|by eauto]. intros u. split; [by eauto|by intros [? _]].
  - apply wpc_bind. apply (wpc_page_fast G HM HG HT HR X s L J); [done|done|done|done|done|done| |].
    + intros s' R. apply HX. by eapply restarted_interrupted.
    + intros s' L' J' W. apply wpc_gets. by eapply HQ.
Qed.

Lemma wpc_qemu_get_ram_ptr X a p s (Q : Z -> cache -> Prop) : ram_host a p -> Q p s -> wpc (qemu_get_ram_ptr a) Q X s.
Proof.
  intros Hp HQ. destruct (ram_host_bound HM _ _ Hp) as (H1 & H2 & _). destruct Hp as (b & Hb & Hh & Ep). unfold in_u in *.
  apply wpc_bind. apply (wpc_qemu_get_ram_block HM X a b); [done|unfold in_u; lia|done|]. apply wpc_ret.
  rewrite <- Ep, wrap_id by done. done.
Qed.

(** The write is to the bytes [a] of RAM, at [p] in the host, through the page of the
    current processor [n] at [v]. *)
Record write_ok (s : cache) (n : nat) (a p size : Z) : Prop := {
  wo_cpu : s.(current_cpu) = Some n;
  wo_access : access_ok a size;
  wo_bytes : ram_bytes a p size;
  wo_page : forall c, s.(cpus) !! n = Some c -> ram_host (Z.land a TARGET_PAGE_MASK) (host_map n (Z.land c.(mem_io_vaddr) TARGET_PAGE_MASK))
}.

Lemma stored_of L L1 J1 s s1 s2 s3 a p size val :
  0 < size -> ram_bytes a p size -> (forall u, L1 u <-> L u /\ forall x, a <= x < a + size -> ~ code_addr (tb_at s u) x) ->
  (forall u, L u -> same_block s s1 u) -> unch Core s s1 -> s1.(host_mem) = s.(host_mem) -> cpu_view <$> s1.(cpus) = cpu_view <$> s.(cpus) ->
  (forall t, runs s s.(current_cpu) t -> L t -> restarts s t -> forall x, a <= x < a + size -> ~ code_addr (tb_at s t) x) ->
  (exists d, s2 = set_memory d (st_p p size val s1.(host_mem)) s1) -> full_inv G s3 L1 J1 -> tlb_changed s2 s3 -> stored L L1 s s3.
Proof.
  intros Hs Hb HL Hsb Hc Em Ev Hw [d ->] I3 T3. pose proof (tl_eq _ _ T3) as E3. split.
  - by exists J1.
  - apply (kept_trans L L1 L1 s s1); [|apply (kept_trans L1 L1 L1 s1 (set_memory d (st_p p size val s1.(host_mem)) s1))].
    + intros u Hu. apply HL in Hu as [Hu _]. split; [done|]. apply unwritten_mem; [by apply Hsb|done].
    + apply (kept_store L1 s1 a p); [done|done|]. intros u x Hu Hx. rewrite (code_addr_core s s1) by done. by apply HL.
    + apply kept_refl; [intros u|..]; by rewrite E3.
  - apply (unch_trans Core s s1); [done|]. by apply (tlb_changed_unch Core _ s3) in T3.
  - transitivity (cpu_io <$> s1.(cpus)).
    + exact (fmap_factor cpu_rest (fun x => (x.1.1.2, x.1.2)) s1.(cpus) s3.(cpus) (tl_rest _ _ T3)).
    + exact (fmap_factor cpu_view (fun x => (x.1.2, x.2)) s.(cpus) s1.(cpus) Ev).
  - transitivity (watchpoints <$> s1.(cpus)).
    + exact (fmap_factor cpu_rest (fun x => x.2) s1.(cpus) s3.(cpus) (tl_rest _ _ T3)).
    + exact (fmap_factor cpu_view (fun x => x.1.1.1.1.2) s.(cpus) s1.(cpus) Ev).
  - intros t Hr Ht Hre. apply HL. split; [done|]. by apply Hw.
Qed.

Lemma wpc_notdirty_mem_write X s L J n a p size val (Q : unit -> cache -> Prop) :
  full_inv G s L J -> pages_apart s L -> write_ok s n a p size -> size <= 4 -> walks s.(host_mem) ->
  (resumes_outside s (Some n) -> X.(on_error) TcgAbort) ->
  (forall s', interrupted L s s' -> X.(on_longjmp) s') ->
  (forall s' L', stored L L' s s' -> s'.(host_mem) = st_p p size val s.(host_mem) -> Q tt s') ->
  wpc (notdirty_mem_write G a val size) Q X s.
Proof.
  intros I Hap [Ecur Hok Hby Hpg] Hsz Hwk HE HX HQ. pose proof (access_size a size Hok) as Hpos.
  apply wpc_bind, wpc_gets, wpc_bind. apply (wpc_make_writable X s L J); [done|done|done|by rewrite Ecur|done|by rewrite Ecur|done|].
  intros s1 L1 J1 [[R1 R2 R3 R4 R5 R6 R7] W].
  assert (forall u, L u -> same_block s s1 u) as Hsb by (intros u Hu; apply (code_kept_same G s s1 L); [apply I|done|done|done]). set (f := s1.(phys_dirty) (page_number a)).
  assert ((size =? 1) || (size =? 2) || (size =? 4) = true) as -> by (destruct Hok as (_ & _ & [-> | [-> | [-> | ->]]] & _); done || lia).
  apply wpc_bind, wpc_bind. apply (wpc_qemu_get_ram_ptr X a p); [by rewrite <- (Z.add_0_r a), <- (Z.add_0_r p); apply Hby|].
  apply wpc_modify. cbn zeta. apply wpc_bind, wpc_modify.
  match goal with |- wpc _ _ _ ?x => set (s2 := x) end.
  assert (full_inv G s2 L1 J1) as I2.
  { apply (full_inv_memory s1); [done|]. intros q. by apply set_dirty_code. }
  assert (forall s3, full_inv G s3 L1 J1 -> tlb_changed s2 s3 -> Q tt s3) as HQ'.
  { intros s3 I3 T3. eapply HQ; [eapply (stored_of L L1 J1 s s1 s2 s3 a p size val); try done; by eauto|]. by rewrite (tl_eq _ _ T3), <- R5. }
  apply wpc_when; intros Ef; [|apply HQ'; [done|apply tlb_changed_refl]].
  assert (s2.(current_cpu) = Some n) as Ecur2 by (destruct R4 as (_ & _ & _ & _ & E); unfold s2; cbn [current_cpu set_memory]; congruence).
  pose proof (env_current G s2 L1 J1 n I2 Ecur2) as Henv. pose proof Henv as [c2 Hc2].
  apply wpc_bind, wpc_gets, wpc_bind. rewrite Ecur2. apply wpc_not_null, wpc_bind. eapply wpc_get_cpu; [done|].
  apply (wpc_tlb_set_dirty X s2 L1 J1); [done|done| |done]. intros r Hr.
  destruct (view_lookup s1 s n c2 (eq_sym R6) Hc2) as (c & Hc & Ev). rewrite <- (f_equal snd Ev : c.(mem_io_vaddr) = c2.(mem_io_vaddr)) in Hr.
  rewrite (ram_host_inj HM _ _ _ Hr (Hpg c Hc)). pose proof (page_number_masked a 0 eq_refl) as Ep. rewrite !Z.add_0_r in Ep.
  unfold code_dirty, s2. cbn [phys_dirty set_memory]. rewrite Ep. unfold set_dirty_entry. rewrite Z.eqb_refl. apply Z.eqb_eq in Ef.
  rewrite Ef, Z.lor_spec. apply orb_true_r.
Qed.
End Write.
