(* ===== verification/TbStoreInv.v ===== *)
(** * Stores keep the cache coherent

    After a store of the guest every block that is still live was live before, and the
    memory that it was translated from is unchanged; the block that executes the store
    is one of them unless it consists of one instruction; memory changes at the bytes of
    the store only.  Writes of devices to RAM do the same. *)

From S2P Require Import Prelude QtraceDefs TlbLoad IContext TbState TbPages Tlb TbCache TbLogic TbLinks TbInv TbJumps TbInvalidate TlbInv TbGen TbLinkPage TbGenCode TbFind TbBitmap TbRange TbPhys TbStore TbWrite.

(** ** Bytes of a value *)

Lemma byte_of_part val i sz j : 0 <= i -> 0 <= j < sz ->
  byte_of (Z.land (Z.shiftr val (i * 8)) (Z.ones (sz * 8))) j = byte_of val (i + j).
Proof.
  intros Hi Hj. unfold byte_of, wrap. apply Z.bits_inj'. intros k Hk. rewrite <- !Z.land_ones, !Z.land_spec by done.
  destruct (decide (k < 8)) as [Hlt|Hge]; [|rewrite Z.ones_spec_high by lia; by rewrite !andb_false_r].
  rewrite Z.ones_spec_low, !andb_true_r, Z.shiftr_spec, Z.land_spec, Z.shiftr_spec, Z.ones_spec_low, andb_true_r, Z.shiftr_spec by lia.
  f_equal. lia.
Qed.

Lemma st_p_part p size val i sz m q : in_u 64 p -> p + size <= 2 ^ 64 -> 0 <= i -> 0 <= sz -> i + sz <= size -> in_u 64 q ->
  st_p (p + i) sz (Z.land (Z.shiftr val (i * 8)) (Z.ones (sz * 8))) m q =
  if decide (p + i <= q < p + i + sz) then byte_of val (q - p) else m q.
Proof.
  unfold in_u. intros Hp Hs Hi Hz Hle Hq. case_decide as E.
  - rewrite st_p_in by (unfold in_u; lia). rewrite byte_of_part by lia. f_equal. lia.
  - rewrite st_p_out by (unfold in_u; lia). done.
Qed.
Lemma st_p_decide p size val m q : in_u 64 p -> 0 <= size -> p + size <= 2 ^ 64 -> in_u 64 q ->
  st_p p size val m q = if decide (p <= q < p + size) then byte_of val (q - p) else m q.
Proof. unfold in_u. intros Hp Hz Hs Hq. case_decide; [by rewrite st_p_in by (unfold in_u; lia)|by rewrite st_p_out by (unfold in_u; lia)]. Qed.

Definition access_size_ok (size : Z) : Prop := size = 1 \/ size = 2 \/ size = 4 \/ size = 8.
Lemma size_mask a size : access_size_ok size -> Z.land a (size - 1) = a mod size.
Proof.
  intros [-> | [-> | [-> | ->]]].
  - exact (Z.land_ones a 0 ltac:(done)).
  - exact (Z.land_ones a 1 ltac:(done)).
  - exact (Z.land_ones a 2 ltac:(done)).
  - exact (Z.land_ones a 3 ltac:(done)).
Qed.

Section StoreInv.
Context {machine : Machine} {mapping : Mapping} {translator : Translator} {devices : Devices} (G : code_gen).
Context (HM : machine_ok) (HG : gen_ok G) (HT : translator_ok) (HR : restored_ok).

(** ** Parts of a write *)

Lemma io_lookup s s' n c' : cpu_io <$> s'.(cpus) = cpu_io <$> s.(cpus) -> s'.(cpus) !! n = Some c' ->
  exists c, s.(cpus) !! n = Some c /\ cpu_io c' = cpu_io c.
Proof.
  intros E Hc. assert ((cpu_io <$> s.(cpus)) !! n = Some (cpu_io c')) as H by by rewrite <- E, list_lookup_fmap, Hc.
  rewrite list_lookup_fmap in H. destruct (s.(cpus) !! n) as [c|]; [|done]. exists c. split; [done|].
  change (Some (cpu_io c) = Some (cpu_io c')) in H. congruence.
Qed.

Lemma write_ok_part s s1 n a p size i sz : write_ok s n a p size -> unch Core s s1 -> cpu_io <$> s1.(cpus) = cpu_io <$> s.(cpus) ->
  0 <= i -> i + sz <= size -> access_ok (a + i) sz -> write_ok s1 n (a + i) (p + i) sz.
Proof.
  intros [W1 W2 W3 W4] (_ & _ & _ & _ & Ecur) Eio Hi Hle Hok. pose proof (access_size _ _ Hok) as Hpos. split; [congruence|done| |].
  - intros j Hj. rewrite <- !Z.add_assoc. apply W3. lia.
  - intros c1 Hc1. destruct (io_lookup s s1 n c1 Eio Hc1) as (c & Hc & Ec).
    rewrite (f_equal snd Ec : c1.(mem_io_vaddr) = c.(mem_io_vaddr)). replace (Z.land (a + i) TARGET_PAGE_MASK) with (Z.land a TARGET_PAGE_MASK); [by apply W4|].
    destruct (access_byte a size (a + i) W2) as (_ & _ & _ & Em & _); [lia|]. rewrite !page_mask_eq, Em. lia.
Qed.

Lemma pages_apart_stored L L' s s' : stored G L L' s s' -> pages_apart s L -> pages_apart s' L'.
Proof. intros [S1 S2 S3 S4 S5 S6] Hap t Ht. core_rewrite S3. apply Hap. by apply S2. Qed.

(** The page tables are not at the host addresses [D]: walks go on as they do after
    other bytes were written there. *)
Definition walks_apart (D : Z -> Prop) (m : Z -> Z) : Prop :=
  forall m', (forall q, in_u 64 q -> ~ D q -> m' q = m q) -> walks m'.

Lemma walks_now D m : walks_apart D m -> walks m.
Proof. intros H. by apply H. Qed.
Lemma walks_after D m m' : walks_apart D m -> (forall q, in_u 64 q -> ~ D q -> m' q = m q) -> walks_apart D m'.
Proof. intros H E m2 E2. apply H. intros q Hq Hn. by rewrite E2, E. Qed.
Lemma walks_apart_sub (D D' : Z -> Prop) m : (forall q, in_u 64 q -> D' q -> D q) -> walks_apart D m -> walks_apart D' m.
Proof. intros Hs H m' E. apply H. intros q Hq Hn. apply E; [done|]. intros Hq'. by apply Hn, Hs. Qed.

Lemma resumes_outside_io s s' cpu : unch Core s s' -> cpu_io <$> s'.(cpus) = cpu_io <$> s.(cpus) -> resumes_outside s' cpu -> resumes_outside s cpu.
Proof. intros C E (n & pc & H1 & H2 & H3). exists n, pc. split_and!; [done| |done]. by apply (resumes_io s s'). Qed.

Lemma wpc_io_mem_write X s L J n a p size val (Q : unit -> cache -> Prop) :
  full_inv G s L J -> pages_apart s L -> write_ok s n a p size -> walks_apart (fun q => p <= q < p + size) s.(host_mem) ->
  (resumes_outside s (Some n) -> X.(on_error) TcgAbort) ->
  (forall s', interrupted G L s s' -> X.(on_longjmp) s') ->
  (forall s' L', stored G L L' s s' -> (forall q, in_u 64 q -> s'.(host_mem) q = st_p p size val s.(host_mem) q) -> Q tt s') ->
  wpc (io_mem_write G a val size) Q X s.
Proof.
  intros I Hap W Hwk HE HX HQ. pose proof W as [W1 W2 W3 W4]. pose proof (access_size _ _ W2) as Hpos.
  destruct (ram_bytes_bound HM a p size Hpos W3) as (B1 & B2 & B3 & B4). unfold in_u in B3.
  assert (memory_region_access_valid a size = true) as Hv.
  { unfold memory_region_access_valid. apply Z.eqb_eq. destruct W2 as (_ & _ & Hz & A3). by rewrite size_mask. }
  apply wpc_when; [intros _|congruence].
  assert (size <= 4 -> wpc (notdirty_mem_write G a (Z.land (Z.shiftr val (0 * 8)) (Z.ones (size * 8))) size ;; mret tt) Q X s) as Hone.
  { intros Hle. apply wpc_bind. apply (wpc_notdirty_mem_write G HM HG HT HR X s L J n a p); try done; [by eapply walks_now|]. intros s' L' Hst Em.
    apply wpc_ret. eapply HQ; [done|]. intros q Hq. rewrite Em. rewrite <- (Z.add_0_r p) at 1. rewrite (st_p_part p size val 0 size), st_p_decide by (done || lia).
    by rewrite !Z.add_0_r. }
  unfold access_with_adjusted_size. destruct W2 as (A1 & A2 & [-> | [-> | [-> | ->]]] & A3).
  1-3: match goal with |- context [seq 0 ?n] => let m := eval vm_compute in n in change n with m end;
       cbn [seq fmap list_fmap ceach]; rewrite (wrap_id 64 (a + _)) by (unfold in_u; lia);
       pose proof (Hone ltac:(lia)) as H1; rewrite <- (Z.add_0_r a) in H1; exact H1.
  match goal with |- context [seq 0 ?n] => change n with 2%nat end. cbn [seq fmap list_fmap ceach].
  rewrite !(wrap_id 64 (a + _)) by (unfold in_u; lia). change (Z.max (Z.min 8 4) 1) with 4.
  change (Z.shiftr (u64 (-1)) (64 - 4 * 8)) with (Z.ones (4 * 8)). change (Z.of_nat 0 * 4) with 0. change (Z.of_nat 1 * 4) with 4.
  assert (access_ok (a + 0) 4 /\ access_ok (a + 4) 4) as [O1 O2].
  { unfold access_ok. pose proof (Z.div_mod a 8 ltac:(done)). split; (split_and!; [lia|lia|by auto|]); Z.to_euclidean_division_equations; lia. }
  apply wpc_bind. eapply (wpc_notdirty_mem_write G HM HG HT HR X s L J n (a + 0) (p + 0)); [done|done| |done|by eapply walks_now|done|done|].
  { by apply (write_ok_part s s n a p 8); [|apply unch_refl|..]. }
  intros s1 L1 S1 M1. destruct (sd_inv _ _ _ _ _ S1) as [J1 I1]. apply wpc_bind.
  eapply (wpc_notdirty_mem_write G HM HG HT HR X s1 L1 J1 n (a + 4) (p + 4)); [done|by eapply pages_apart_stored| |done| | | |].
  { apply (write_ok_part s s1 n a p 8); [done|apply S1|apply S1|lia|lia|done]. }
  { eapply walks_now, (walks_after _ s.(host_mem)); [exact Hwk|]. intros q Hq Hnot. rewrite M1, (st_p_part p 8 val 0 4) by (done || lia).
    cbn in Hnot; case_decide; [lia|done]. }
  { intros Hro. apply HE. by apply (resumes_outside_io s s1); [apply S1|apply S1|]. }
  { intros s' Hi. apply HX. by eapply stored_interrupted. }
  intros s2 L2 S2 M2. apply wpc_ret. eapply HQ; [by eapply stored_trans|]. intros q Hq. rewrite M2.
  rewrite (st_p_part p 8 val 4 4), M1, (st_p_part p 8 val 0 4), st_p_decide by (done || lia). repeat case_decide; try done; lia.
Qed.

(** ** Where a store goes *)

Lemma writes_tag addr e : writes_to addr e -> write_tag e = Z.land addr TARGET_PAGE_MASK.
Proof.
  unfold writes_to, write_tag. intros E. apply (f_equal (fun z => Z.land z TARGET_PAGE_MASK)) in E. rewrite <- !Z.land_assoc in E.
  change (Z.land (Z.lor TARGET_PAGE_MASK TLB_INVALID_MASK) TARGET_PAGE_MASK) with TARGET_PAGE_MASK in E. by rewrite Z.land_diag in E.
Qed.
Lemma writes_valid addr e : writes_to addr e -> valid_write e = true.
Proof.
  unfold writes_to, valid_write, testb. intros E. rewrite negb_involutive. apply Z.eqb_eq. apply (f_equal (fun z => Z.land z TLB_INVALID_MASK)) in E. rewrite <- !Z.land_assoc in E.
  change (Z.land TARGET_PAGE_MASK TLB_INVALID_MASK) with 0 in E.
  change (Z.land (Z.lor TARGET_PAGE_MASK TLB_INVALID_MASK) TLB_INVALID_MASK) with TLB_INVALID_MASK in E.
  by rewrite <- E, Z.land_0_r.
Qed.

(** The bytes of a store that goes to RAM, in one page. *)
Lemma entry_bytes n wps d x e io addr size (a := u64 (Z.land io TARGET_PAGE_MASK + addr)) :
  entry_ok n wps d x e io -> writes_to addr e -> ram_entry e = true -> page_offset addr + size <= TARGET_PAGE_SIZE ->
  ram_bytes a (host_of n addr) size /\ ram_host (Z.land a TARGET_PAGE_MASK) (host_map n (Z.land addr TARGET_PAGE_MASK)) /\
  page_offset a = page_offset addr /\ u64 (addr + e.(addend)) = host_of n addr /\ host_page e = host_map n (Z.land addr TARGET_PAGE_MASK).
Proof.
  intros E Hw Hr Hs. destruct (eo_ram _ _ _ _ _ _ E Hr) as (H1 & H2 & H3). pose proof (writes_tag addr e Hw) as Et. rewrite Et in *.
  destruct (page_split addr) as [Es Hb]. set (r := u64 (Z.land io TARGET_PAGE_MASK + Z.land addr TARGET_PAGE_MASK)) in *.
  assert (aligned r) as Ar by (apply aligned_u64, aligned_add; apply aligned_mask).
  assert (forall i, 0 <= i < TARGET_PAGE_SIZE -> ram_host (r + i) (host_page e + i)) as Hpage.
  { intros i Hi. apply (ram_host_step HM); [done|]. rewrite !page_number_eq. unfold aligned in Ar. change TARGET_PAGE_SIZE with 4096 in *.
    pose proof (Z.div_mod r 4096 ltac:(done)). symmetry. apply (Z.div_unique _ _ _ i); lia. }
  destruct (ram_host_bound HM _ _ (Hpage _ Hb)) as (B1 & B2 & _). unfold in_u in B1.
  assert (a = r + page_offset addr) as Ea.
  { unfold a. rewrite <- Es at 1. rewrite Z.add_assoc, <- wrap_add_l by done. fold r. rewrite wrap_id; [done|]. unfold in_u. lia. }
  rewrite <- H1. split_and!; [| | | |done].
  - intros i Hi. unfold host_of. rewrite <- H1, Ea, <- !Z.add_assoc. apply Hpage. lia.
  - replace (Z.land a TARGET_PAGE_MASK) with r; [done|]. rewrite Ea, Z.add_comm. rewrite page_mask_eq, <- page_offset_eq, page_offset_add by done.
    rewrite (page_offset_eq (page_offset addr)), Z.mod_small by done. lia.
  - rewrite Ea, Z.add_comm, page_offset_add by done. rewrite (page_offset_eq (page_offset addr)). by rewrite Z.mod_small.
  - unfold host_of. rewrite <- H1. rewrite <- Es at 1. unfold host_page. rewrite Et.
    replace (Z.land addr TARGET_PAGE_MASK + page_offset addr + e.(addend)) with (Z.land addr TARGET_PAGE_MASK + e.(addend) + page_offset addr) by lia.
    rewrite <- wrap_add_l by done. unfold host_page in B2. rewrite Et in B2. by rewrite wrap_id.
Qed.

(** ** One access *)

Definition executes (s : cache) (ra : Z) (t : nat) : Prop := (tb_at s t).(tc_ptr) < ra < (tb_at s t).(tc_end_ptr).

(** A store out of the code at [ra] is done. *)
Record completed (ra : Z) (L L' : nat -> Prop) (s s' : cache) : Prop := {
  cp_inv : exists J', full_inv G s' L' J';
  cp_kept : kept L L' s s';
  cp_core : unch Core s s';
  cp_watch : watchpoints <$> s'.(cpus) = watchpoints <$> s.(cpus);
  cp_writer : forall t, executes s ra t -> L t -> restarts s t -> L' t
}.

Lemma completed_same ra L J s s' :
  full_inv G s' L J -> unch Core s s' -> s'.(host_code) = s.(host_code) -> s'.(host_mem) = s.(host_mem) ->
  watchpoints <$> s'.(cpus) = watchpoints <$> s.(cpus) -> completed ra L L s s'.
Proof. intros I C H M W. split; [by exists J|apply kept_refl; [apply C|done|done]|done|done|done]. Qed.
Lemma completed_trans ra L1 L2 L3 s1 s2 s3 : completed ra L1 L2 s1 s2 -> completed ra L2 L3 s2 s3 -> completed ra L1 L3 s1 s3.
Proof.
  intros [A1 A2 A3 A4 A5] [B1 B2 B3 B4 B5]. split; [done|by eapply kept_trans|by eapply unch_trans|congruence|].
  intros t He Ht Hr. apply B5; [|by apply A5|by apply (restarts_core s1 s2)]. unfold executes. core_rewrite A3. exact He.
Qed.
Lemma completed_interrupted ra L1 L2 s1 s2 s3 : completed ra L1 L2 s1 s2 -> interrupted G L2 s2 s3 -> interrupted G L1 s1 s3.
Proof. intros [A1 A2 A3 A4 A5]. by apply kept_interrupted. Qed.
Lemma completed_apart ra L L' s s' : completed ra L L' s s' -> pages_apart s L -> pages_apart s' L'.
Proof. intros [S1 S2 S3 S4 S5] Hap t Ht. core_rewrite S3. apply Hap. by apply S2. Qed.

(** The program cannot be translated where it would go on after a store out of the code at
    [ra]. *)
Definition stops_outside (s : cache) (n : nat) (ra : Z) : Prop :=
  exists t o, last_block s t ra /\ 0 <= o < (tb_at s t).(tb_size) /\ unfetchable n (u64 ((tb_at s t).(tb_pc) + o)).

Lemma resumes_stops s n c ra : s.(cpus) !! n = Some c -> c.(mem_io_pc) = ra -> resumes_outside s (Some n) -> stops_outside s n ra.
Proof.
  intros Hc <- (k & pc & [= <-] & (t & o & (n' & c' & [= <-] & Hc' & Hl) & Ho & ->) & Hu). assert (c' = c) as -> by congruence.
  by exists t, o.
Qed.
Lemma stops_core s s' n ra : unch Core s s' -> stops_outside s' n ra -> stops_outside s n ra.
Proof.
  intros Hc (t & o & Hl & H). exists t, o. split; [by apply (last_block_core s s')|]. revert H. by core_rewrite Hc.
Qed.

(** The page of [addr] is RAM that can be written, without watchpoints. *)
Definition to_ram (s : cache) (n : nat) (addr : Z) : Prop := forall c, s.(cpus) !! n = Some c ->
  let v := Z.land addr TARGET_PAGE_MASK in plain_ram (phys_map n v) = true /\ watched c.(watchpoints) v = false.

Lemma to_ram_watch s s' n addr : watchpoints <$> s'.(cpus) = watchpoints <$> s.(cpus) -> to_ram s n addr -> to_ram s' n addr.
Proof. intros E H c' Hc'. destruct (cpus_lookup watchpoints s' s n c' (eq_sym E) Hc') as (c & Hc & <-). by apply H. Qed.

Lemma interrupted_same L J s s' : full_inv G s' L J -> (forall u, core (tb_at s' u) = core (tb_at s u)) -> s'.(host_code) = s.(host_code) ->
  s'.(host_mem) = s.(host_mem) -> interrupted G L s s'.
Proof. intros I C H M. exists L, J. split; [done|]. intros u Hu. left. by apply (kept_refl L s s'). Qed.

Lemma wpc_direct X s L J n c m addr size val (e := c.(tlb_table) m (tlb_index addr)) ra (Q : unit -> cache -> Prop) :
  full_inv G s L J -> s.(cpus) !! n = Some c -> in_modes m = true -> writes_to addr e -> testb e.(addr_write) (Z.lnot TARGET_PAGE_MASK) = false ->
  0 < size -> page_offset addr + size <= TARGET_PAGE_SIZE ->
  (forall s', completed ra L L s s' -> s'.(host_mem) = st_p (host_of n addr) size val s.(host_mem) -> Q tt s') ->
  wpc (store_host (u64 (addr + e.(addend))) size val) Q X s.
Proof.
  intros I Hc Hm Hw Hl Hpos Hs HQ. pose proof (fi_tlbs _ _ _ _ I n c Hc m _ (tlb_index_in m addr Hm)) as E. fold e in E.
  apply negb_false_iff, Z.eqb_eq in Hl.
  assert (forall f, Z.land (Z.lnot TARGET_PAGE_MASK) f = f -> Z.land e.(addr_write) f = 0) as Hz by (intros f Hf; by rewrite <- Hf, Z.land_assoc, Hl).
  assert (ram_entry e = true) as Hr by (apply Z.eqb_eq; by apply Hz). assert (tlb_is_dirty_ram e = true) as Hd by (apply Z.eqb_eq; by apply Hz).
  destruct (entry_bytes n _ _ _ e _ addr size E Hw Hr Hs) as (Hb & Hp & Ho & -> & Eh). set (a := u64 _) in *.
  pose proof (eo_write _ _ _ _ _ _ E Hd (Z.land a TARGET_PAGE_MASK)) as Hcd. rewrite Eh in Hcd. specialize (Hcd Hp).
  apply wpc_modify, HQ; [|done]. assert (full_inv G (set_memory s.(phys_dirty) (st_p (host_of n addr) size val s.(host_mem)) s) L J) as I'
    by by apply full_inv_memory.
  split; [by exists J| |apply (unch_refl Core s)|done|done]. apply (kept_store HM L s a); [done|done|]. intros u x Hu Hx.
  apply (dirty_no_code G s L J); [done|done|]. replace (page_number x) with (page_number (Z.land a TARGET_PAGE_MASK)); [done|].
  destruct (page_split a) as [Ea Hoa]. rewrite !page_number_eq. pose proof (aligned_mask a) as Al. unfold aligned in Al. change TARGET_PAGE_SIZE with 4096 in *.
  set (b := Z.land a TARGET_PAGE_MASK) in *. rewrite Ho in *. pose proof (Z.div_mod b 4096 ltac:(done)). apply (Z.div_unique _ _ _ (x - b)); lia.
Qed.

Lemma stored_completed n c ra L L' s s' :
  stored G L L' s s' -> s.(current_cpu) = Some n -> s.(cpus) !! n = Some c -> c.(mem_io_pc) = ra -> completed ra L L' s s'.
Proof.
  intros [S1 S2 S3 S4 S5 S6] Hn Hc Hra. split; [done|done|done|done|]. intros t He. apply S6. exists n, c. by rewrite Hra.
Qed.

Lemma offset_mod addr size : access_size_ok size -> page_offset addr mod size = addr mod size.
Proof.
  rewrite page_offset_eq. change TARGET_PAGE_SIZE with 4096. intros Hs. apply Z.mod_mod_divide.
  destruct Hs as [-> | [-> | [-> | ->]]]; [by exists 4096|by exists 2048|by exists 1024|by exists 512].
Qed.
Lemma aligned_access addr size : access_size_ok size -> addr mod size = 0 -> page_offset addr + size <= TARGET_PAGE_SIZE.
Proof.
  intros Hs Hm. rewrite <- offset_mod in Hm by done. destruct (page_split addr) as [_ Hb]. change TARGET_PAGE_SIZE with 4096 in *.
  destruct Hs as [-> | [-> | [-> | ->]]]; Z.to_euclidean_division_equations; lia.
Qed.

(** An entry for writes to such a page leads to RAM. *)
Lemma to_ram_entry s L J n c m addr (e := c.(tlb_table) m (tlb_index addr)) :
  full_inv G s L J -> s.(cpus) !! n = Some c -> in_modes m = true -> writes_to addr e -> to_ram s n addr -> ram_entry e = true.
Proof.
  intros I Hc Hm Hw Hr. destruct (ram_entry e) eqn:Er; [done|]. pose proof (fi_tlbs _ _ _ _ I n c Hc m _ (tlb_index_in m addr Hm)) as E. fold e in E.
  destruct (eo_io _ _ _ _ _ _ E Er (writes_valid _ _ Hw)) as [_ H]. rewrite (writes_tag addr e Hw) in H. destruct (Hr c Hc) as [H1 H2].
  destruct H; congruence.
Qed.

(** The bytes of a store in one page. *)
Definition span (n : nat) (addr size q : Z) : Prop := host_of n addr <= q < host_of n addr + size.

Lemma wpc_io_write X s L J n c m addr size val ra (i := tlb_index addr) (e := c.(tlb_table) m i) (Q : unit -> cache -> Prop) :
  full_inv G s L J -> pages_apart s L -> s.(current_cpu) = Some n -> s.(cpus) !! n = Some c -> in_modes m = true -> writes_to addr e ->
  to_ram s n addr -> access_size_ok size -> addr mod size = 0 -> walks_apart (span n addr size) s.(host_mem) ->
  (stops_outside s n ra -> X.(on_error) TcgAbort) -> (forall s', interrupted G L s s' -> X.(on_longjmp) s') ->
  (forall s' L', completed ra L L' s s' -> (forall q, in_u 64 q -> s'.(host_mem) q = st_p (host_of n addr) size val s.(host_mem) q) -> Q tt s') ->
  wpc (io_write G n (c.(iotlb) m i) val addr ra size) Q X s.
Proof.
  intros I Hap Hn Hc Hm Hw Hram Hz Ha Hwk HE HX HQ. pose proof (fi_tlbs _ _ _ _ I n c Hc m _ (tlb_index_in m addr Hm)) as E. fold i e in E.
  pose proof (to_ram_entry s L J n c m addr I Hc Hm Hw Hram : ram_entry e = true) as Er.
  apply wpc_bind. eapply wpc_upd_cpu; [done|]. set (c1 := set_mem_io ra addr c). set (s1 := set_cpus _ s).
  assert (full_inv G s1 L J) as I1 by by apply full_inv_cpu.
  assert (watchpoints <$> s1.(cpus) = watchpoints <$> s.(cpus)) as Ew.
  { cbn [cpus s1 set_cpus]. rewrite list_fmap_insert. apply list_insert_id. by rewrite list_lookup_fmap, Hc. }
  assert (completed ra L L s s1) as C1 by (by apply (completed_same ra L J)).
  assert (s1.(cpus) !! n = Some c1) as Hc1 by (cbn [cpus s1 set_cpus]; apply list_lookup_insert_eq; by eapply lookup_lt_Some).
  pose proof (aligned_access addr size Hz Ha) as Hs. assert (0 < size) as Hpos by (destruct Hz as [-> | [-> | [-> | ->]]]; done).
  fold (page_offset (c.(iotlb) m i)). destruct (eo_ram _ _ _ _ _ _ E Er) as (_ & -> & _). rewrite Z.eqb_refl.
  destruct (entry_bytes n _ _ _ e _ addr size E Hw Er Hs) as (Hb & Hp & Hoa & _ & _). set (a := u64 _) in *.
  destruct (ram_bytes_bound HM a _ size Hpos Hb) as (_ & _ & B3 & B4). unfold in_u in B3.
  apply (wpc_io_mem_write X s1 L J n a (host_of n addr)); [done|done| |done| | |].
  - split; [done| |done|].
    + split_and!; [lia|lia|exact Hz|]. by rewrite <- offset_mod, Hoa, offset_mod.
    + intros c' Hc'. assert (c' = c1) as -> by congruence. done.
  - intros Hro. apply HE, (stops_core s s1); [apply C1|]. by apply (resumes_stops s1 n c1).
  - intros s' Hi. apply HX. by eapply completed_interrupted.
  - intros s' L' S M. eapply HQ; [|done]. eapply completed_trans; [exact C1|]. by eapply stored_completed.
Qed.

(** ** The slow path *)

Lemma wpc_store_lookup X s L J n c m addr ra (e := c.(tlb_table) m (tlb_index addr)) (Q : unit -> cache -> Prop) :
  full_inv G s L J -> s.(current_cpu) = Some n -> s.(cpus) !! n = Some c -> in_u 64 addr -> in_modes m = true -> walks s.(host_mem) ->
  (forall s', interrupted G L s s' -> X.(on_longjmp) s') ->
  (forall s1 c1, full_inv G s1 L J -> completed ra L L s s1 -> s1.(host_mem) = s.(host_mem) -> s1.(current_cpu) = Some n ->
     s1.(cpus) !! n = Some c1 -> writes_to addr (c1.(tlb_table) m (tlb_index addr)) -> Q tt s1) ->
  wpc (cwhen (negb (Z.land addr TARGET_PAGE_MASK =? Z.land e.(addr_write) (Z.lor TARGET_PAGE_MASK TLB_INVALID_MASK))) (tlb_fill n addr 1 m)) Q X s.
Proof.
  intros I Hn Hc Ha Hm Hwk HX HQ. apply wpc_when; intros E.
  - apply (wpc_tlb_fill HM); [apply I|by eexists|done|done|apply HX; by apply (interrupted_same L J)|].
    intros s1 e1 T1 O1 He1 _ Hw _. pose proof (tl_eq _ _ T1) as E1. apply entry_at_cpu in He1 as (c1 & Hc1 & <-).
    assert (full_inv G s1 L J) as I1 by by apply (full_inv_tlb G s).
    apply (HQ s1 c1); [done| |by rewrite E1|by rewrite E1|done|by apply Hw].
    apply (completed_same ra L J); [done|by apply (tlb_changed_unch Core _ s1) in T1|by rewrite E1|by rewrite E1|].
    exact (fmap_factor cpu_rest (fun x => x.2) s.(cpus) s1.(cpus) (tl_rest _ _ T1)).
  - apply negb_false_iff, Z.eqb_eq in E. apply (HQ s c); try done. by apply (completed_same ra L J); [|apply unch_refl|..].
Qed.

Lemma wpc_helper_st X s L J n m addr val ra0 size unaligned (ra := u64 (ra0 - GETPC_ADJ)) (Q : unit -> cache -> Prop) :
  full_inv G s L J -> pages_apart s L -> s.(current_cpu) = Some n -> in_u 64 addr -> in_modes m = true -> access_size_ok size ->
  to_ram s n addr -> walks s.(host_mem) -> (page_offset addr + size <= TARGET_PAGE_SIZE -> walks_apart (span n addr size) s.(host_mem)) ->
  (stops_outside s n ra -> X.(on_error) TcgAbort) -> (forall s', interrupted G L s s' -> X.(on_longjmp) s') ->
  (forall s1, addr mod size <> 0 -> full_inv G s1 L J -> completed ra L L s s1 -> s1.(host_mem) = s.(host_mem) -> wpc unaligned Q X s1) ->
  (forall s' L', completed ra L L' s s' -> page_offset addr + size <= TARGET_PAGE_SIZE ->
     (forall q, in_u 64 q -> s'.(host_mem) q = st_p (host_of n addr) size val s.(host_mem) q) -> Q tt s') ->
  wpc (helper_st G unaligned size n addr val m ra0) Q X s.
Proof.
  intros I Hap Hn Ha Hm Hz Hram Hwk Hwa HE HX HU HQ. destruct (env_current G s L J n I Hn) as [c Hc]. unfold helper_st. apply wpc_bind.
  eapply wpc_get_cpu; [done|]. fold ra. apply wpc_bind. apply (wpc_store_lookup X s L J n c m addr ra); try done.
  intros s1 c1 I1 C1 M1 Hn1 Hc1 Hw. apply wpc_bind. eapply wpc_get_cpu; [done|].
  assert (0 < size) as Hpos by (destruct Hz as [-> | [-> | [-> | ->]]]; done).
  pose proof (to_ram_watch s s1 n addr (cp_watch _ _ _ _ _ C1) Hram) as Hram1.
  assert (forall s' L', completed ra L L' s1 s' -> page_offset addr + size <= TARGET_PAGE_SIZE ->
    (forall q, in_u 64 q -> s'.(host_mem) q = st_p (host_of n addr) size val s1.(host_mem) q) -> Q tt s') as HQ'.
  { intros s' L' C' Hp' M'. eapply HQ; [eapply completed_trans; [exact C1|exact C']|done|by rewrite <- M1]. }
  destruct (testb (addr_write _) _) eqn:El; [destruct (testb addr (size - 1)) eqn:Ea|].
  - apply HU; try done. rewrite <- size_mask by done. unfold testb in Ea. by apply negb_true_iff, Z.eqb_neq in Ea.
  - apply negb_false_iff, Z.eqb_eq in Ea. rewrite size_mask in Ea by done. apply (wpc_io_write X s1 L J); try done.
    + by eapply completed_apart.
    + rewrite M1. by apply Hwa, aligned_access.
    + intros Hst. apply HE. by apply (stops_core s s1); [apply C1|].
    + intros s' Hi. apply HX. by eapply completed_interrupted.
    + intros s' L' C' M'. eapply HQ'; [done|by apply aligned_access|done].
  - destruct ((1 <? size) && _) eqn:Es.
    + apply andb_true_iff in Es as [_ Es%Z.leb_le]. apply HU; try done. intros Hal. pose proof (aligned_access addr size Hz Hal). lia.
    + assert (page_offset addr + size <= TARGET_PAGE_SIZE) as Hp.
      { apply andb_false_iff in Es as [Es%Z.ltb_ge|Es%Z.leb_gt]; [|lia]. destruct (page_split addr) as [_ Hb]. lia. }
      apply (wpc_direct X s1 L J n c1 m addr size val ra); try done.
      intros s' C' M'. eapply HQ'; [exact C'|done|]. intros q _. by rewrite M'.
Qed.

(** ** Stores of all sizes *)

Lemma host_of_step n addr i : in_u 64 addr -> 0 <= i -> page_offset addr + i < TARGET_PAGE_SIZE -> host_of n (u64 (addr + i)) = host_of n addr + i.
Proof.
  intros Ha Hi Hp. destruct (page_split addr) as [Es Hb]. set (b := Z.land addr TARGET_PAGE_MASK) in *. set (o := page_offset addr) in *.
  assert (aligned b) as Ab by apply aligned_mask. assert (in_u 64 b) as Bb by by apply masked_in_u.
  assert (u64 (addr + i) = o + i + b) as ->.
  { rewrite wrap_id; [lia|]. unfold in_u, aligned in *. change TARGET_PAGE_SIZE with 4096 in *. pose proof (Z.div_mod b 4096 ltac:(done)).
    change (2 ^ 64) with (4096 * 2 ^ 52) in *. lia. }
  assert (page_offset (o + i + b) = o + i) as E by (rewrite page_offset_add, page_offset_eq by done; apply Z.mod_small; lia).
  unfold host_of. rewrite E, page_mask_eq, <- page_offset_eq, E. fold b o. replace (o + i + b - (o + i)) with b by lia. lia.
Qed.

(** The host address of byte [i] of a store. *)
Definition byte_at (n : nat) (addr i : Z) : Z := host_of n (u64 (addr + i)).
(** The bytes [P] of the store are in memory, and everything else is as it was. *)
Definition bytes_stored (n : nat) (addr val : Z) (P : Z -> Prop) (m m' : Z -> Z) : Prop := forall q, in_u 64 q ->
  (forall i, P i -> q = byte_at n addr i -> m' q = byte_of val i) /\ ((forall i, P i -> q <> byte_at n addr i) -> m' q = m q).

Lemma host_map_aligned n v : aligned (host_map n v).
Proof.
  destruct (phys_ram (phys_map n v)) as [r|] eqn:E; [|rewrite out_of_memory; [done|unfold in_memory; rewrite E; by intros [? ?]]].
  pose proof (host_map_ram HM n v r E) as H. apply (phys_ram_aligned HM) in E. unfold aligned in *. by destruct (ram_host_bound HM _ _ H) as (_ & _ & ->).
Qed.
Lemma byte_at_mod n addr i : byte_at n addr i mod TARGET_PAGE_SIZE = (addr + i) mod TARGET_PAGE_SIZE.
Proof.
  unfold byte_at, host_of. rewrite Z.add_comm. rewrite <- page_offset_eq, page_offset_add by apply host_map_aligned.
  rewrite !page_offset_eq, Z.mod_mod by done. apply mod_u64.
Qed.
(** Bytes that are less than a page apart are in different places. *)
Lemma byte_at_inj n addr i j : - TARGET_PAGE_SIZE < i - j < TARGET_PAGE_SIZE -> byte_at n addr i = byte_at n addr j -> i = j.
Proof.
  intros Hd E. apply (f_equal (fun z => z mod TARGET_PAGE_SIZE)) in E. rewrite !byte_at_mod in E. change TARGET_PAGE_SIZE with 4096 in *.
  pose proof (Z.div_mod (addr + i) 4096 ltac:(done)). pose proof (Z.div_mod (addr + j) 4096 ltac:(done)). nia.
Qed.

Lemma to_ram_host s n c addr size : s.(cpus) !! n = Some c -> to_ram s n addr -> 0 < size -> page_offset addr + size <= TARGET_PAGE_SIZE ->
  in_u 64 (host_of n addr) /\ host_of n addr + size <= 2 ^ 64.
Proof.
  intros Hc Hr Hs Hp. destruct (Hr c Hc) as [H _]. set (v := Z.land addr TARGET_PAGE_MASK) in *.
  assert (exists r, phys_ram (phys_map n v) = Some r) as [r Er].
  { unfold plain_ram, phys_ram in *. destruct (section_for_iotlb _) as [[sec xlat] sz]. apply andb_true_iff in H as [-> _]. by eexists. }
  pose proof (page_offset_bound addr) as Hb. assert (forall k, 0 <= k < TARGET_PAGE_SIZE -> ram_host (r + k) (host_map n v + k)) as Hk.
  { intros k Hk. apply (ram_host_step HM); [by apply host_map_ram|]. apply page_number_step; [by apply (phys_ram_aligned HM (phys_map n v))|done]. }
  destruct (ram_host_bound HM _ _ (Hk (page_offset addr) Hb)) as (_ & B1 & _).
  destruct (ram_host_bound HM _ _ (Hk (page_offset addr + size - 1) ltac:(lia))) as (_ & B2 & _). unfold host_of. fold v. unfold in_u in *. lia.
Qed.

(** A store within a page. *)
Lemma page_stored s n c addr size val m m' : s.(cpus) !! n = Some c -> to_ram s n addr -> in_u 64 addr -> 0 < size -> page_offset addr + size <= TARGET_PAGE_SIZE ->
  (forall q, in_u 64 q -> m' q = st_p (host_of n addr) size val m q) -> bytes_stored n addr val (fun i => 0 <= i < size) m m'.
Proof.
  intros Hc Hr Ha Hs Hp H q Hq. destruct (to_ram_host s n c addr size Hc Hr Hs Hp) as [B1 B2]. rewrite H, st_p_decide by (done || lia). split.
  - intros i Hi ->. unfold byte_at. rewrite host_of_step by (done || lia). rewrite decide_True by lia. f_equal. lia.
  - intros Hn. case_decide as E; [|done]. exfalso. apply (Hn (q - host_of n addr)); [lia|]. unfold byte_at. rewrite host_of_step by (done || lia). lia.
Qed.
Lemma span_bytes n addr size q : in_u 64 addr -> page_offset addr + size <= TARGET_PAGE_SIZE -> span n addr size q ->
  exists i, 0 <= i < size /\ q = byte_at n addr i.
Proof. intros Ha Hp Hq. unfold span in Hq. exists (q - host_of n addr). split; [lia|]. unfold byte_at. rewrite host_of_step by (done || lia). lia. Qed.

Lemma bytes_stored_cons n addr val i l m m1 m' : (forall j, j ∈ l -> j <> i -> - TARGET_PAGE_SIZE < i - j < TARGET_PAGE_SIZE) ->
  bytes_stored n (u64 (addr + i)) (byte_of val i) (fun k => 0 <= k < 1) m m1 -> bytes_stored n addr val (fun j => j ∈ l) m1 m' ->
  bytes_stored n addr val (fun j => j ∈ i :: l) m m'.
Proof.
  intros Hl H1 H2 q Hq. destruct (H1 q Hq) as [A1 A2], (H2 q Hq) as [B1 B2].
  assert (byte_at n (u64 (addr + i)) 0 = byte_at n addr i) as E0 by (unfold byte_at; rewrite Z.add_0_r; f_equal; by rewrite wrap_id by by apply wrap_range).
  assert (byte_of (byte_of val i) 0 = byte_of val i) as Eb.
  { unfold byte_of. rewrite Z.mul_0_r, Z.shiftr_0_r. apply wrap_id. by apply wrap_range. }
  split.
  - intros j Hj Eq. destruct (decide (j ∈ l)) as [Hjl|Hjl]; [by apply B1|]. apply elem_of_cons in Hj as [->|Hj]; [|done].
    rewrite B2; [rewrite (A1 0 ltac:(lia)), Eb; congruence|]. intros j Hj ->. destruct (decide (j = i)) as [->|Hne]; [done|].
    by apply Hne, (byte_at_inj n addr); [specialize (Hl j Hj Hne); lia|].
  - intros Hn. rewrite B2 by (intros j Hj; apply Hn, list_elem_of_further, Hj). apply A2. intros k Hk. assert (k = 0) as -> by lia.
    rewrite E0. apply Hn, list_elem_of_here.
Qed.

Definition touches (n : nat) (addr size q : Z) : Prop := exists i, 0 <= i < size /\ q = byte_at n addr i.
Definition all_to_ram (s : cache) (n : nat) (addr size : Z) : Prop := forall i, 0 <= i < size -> to_ram s n (u64 (addr + i)).

Lemma wpc_bytes X n m addr val ra0 size (ra := u64 (ra0 - GETPC_ADJ)) l : in_modes m = true -> size <= TARGET_PAGE_SIZE ->
  (forall i, i ∈ l -> Z.of_nat i < size) -> forall s L J (Q : unit -> cache -> Prop),
  full_inv G s L J -> pages_apart s L -> s.(current_cpu) = Some n -> all_to_ram s n addr size -> walks_apart (touches n addr size) s.(host_mem) ->
  (stops_outside s n ra -> X.(on_error) TcgAbort) -> (forall s', interrupted G L s s' -> X.(on_longjmp) s') ->
  (forall s' L', completed ra L L' s s' -> bytes_stored n addr val (fun i => i ∈ Z.of_nat <$> l) s.(host_mem) s'.(host_mem) -> Q tt s') ->
  wpc (ceach (fun i => helper_ret_stb G n (u64 (addr + i)) (byte_of val i) m ra0) (Z.of_nat <$> l)) Q X s.
Proof.
  intros Hm Hsz. induction l as [|i l IH]; intros Hl s L J Q I Hap Hn Hram Hwk HE HX HQ; rewrite ?fmap_cons; cbn [ceach].
  - apply wpc_ret. eapply HQ; [by apply (completed_same ra L J); [|apply unch_refl|..]|]. intros q _. split; [by intros i ?%not_elem_of_nil|done].
  - assert (0 <= Z.of_nat i < size) as Hi by (split; [lia|apply Hl, list_elem_of_here]). pose proof (Hram _ Hi) as Hr1.
    assert (in_u 64 (u64 (addr + Z.of_nat i))) as Ba by by apply wrap_range.
    assert (page_offset (u64 (addr + Z.of_nat i)) + 1 <= TARGET_PAGE_SIZE) as Hpo by (destruct (page_split (u64 (addr + Z.of_nat i))); lia).
    assert (forall q, span n (u64 (addr + Z.of_nat i)) 1 q -> touches n addr size q) as Hst.
    { intros q Hq. exists (Z.of_nat i). split; [done|]. unfold span, byte_at in *. lia. }
    apply wpc_bind. apply (wpc_helper_st X s L J); try done; [by left|by eapply walks_now|intros _; eapply walks_apart_sub; [|done]; by auto| |].
    { intros s1 H1. by rewrite Z.mod_1_r in H1. }
    intros s1 L1 C1 _ M1. destruct (cp_inv _ _ _ _ _ C1) as [J1 I1]. pose proof (cp_core _ _ _ _ _ C1) as (_ & _ & _ & _ & Ecur).
    destruct (env_current G s L J n I Hn) as [c Hc]. pose proof (page_stored s n c _ 1 _ _ _ Hc Hr1 Ba ltac:(done) Hpo M1) as B1.
    apply (IH ltac:(intros k Hk; by apply Hl, list_elem_of_further) s1 L1 J1); [done|by eapply completed_apart|congruence| | | | |].
    + intros k Hk. apply (to_ram_watch s s1); [apply C1|by apply Hram].
    + eapply walks_after; [done|]. intros q Hq Hn'. destruct (B1 q Hq) as [_ B]. apply B. intros k Hk ->. apply Hn'.
      exists (Z.of_nat i). split; [done|]. assert (k = 0) as -> by lia. unfold byte_at. rewrite Z.add_0_r. f_equal. by apply wrap_id.
    + intros Hso. apply HE. by apply (stops_core s s1); [apply C1|].
    + intros s' Hs'. apply HX. by eapply completed_interrupted.
    + intros s' L' C' M'. eapply HQ; [by eapply completed_trans|]. apply (bytes_stored_cons n addr val _ _ _ s1.(host_mem)); [|done|done].
      intros j (k & -> & Hk)%list_elem_of_fmap _. specialize (Hl k ltac:(by apply list_elem_of_further)). lia.
Qed.

(** The store is completed: all its bytes are in memory, and nothing else changes. *)
Lemma wpc_helper_le_st X s L J n m addr val ra0 size (ra := u64 (ra0 - GETPC_ADJ)) (Q : unit -> cache -> Prop) :
  full_inv G s L J -> pages_apart s L -> s.(current_cpu) = Some n -> in_u 64 addr -> in_modes m = true -> access_size_ok size ->
  all_to_ram s n addr size -> walks_apart (touches n addr size) s.(host_mem) ->
  (stops_outside s n ra -> X.(on_error) TcgAbort) -> (forall s', interrupted G L s s' -> X.(on_longjmp) s') ->
  (forall s' L', completed ra L L' s s' -> bytes_stored n addr val (fun i => 0 <= i < size) s.(host_mem) s'.(host_mem) -> Q tt s') ->
  wpc (helper_le_st G size n addr val m ra0) Q X s.
Proof.
  intros I Hap Hn Ha Hm Hz Hram Hwk HE HX HQ. destruct (env_current G s L J n I Hn) as [c Hc].
  assert (0 < size <= 8) as Hpos by (destruct Hz as [-> | [-> | [-> | ->]]]; lia).
  assert (to_ram s n addr) as Hr0 by (pose proof (Hram 0 ltac:(lia)) as H; by rewrite Z.add_0_r, wrap_id in H).
  apply (wpc_helper_st X s L J); try done; [by eapply walks_now|..].
  - intros Hp. eapply walks_apart_sub; [|done]. intros q _ Hq. by apply span_bytes.
  - intros s1 Hna I1 C1 M1. pose proof (cp_core _ _ _ _ _ C1) as (_ & _ & _ & _ & Ecur).
    eapply (wpc_bytes X n m addr val ra0 size); [done|change TARGET_PAGE_SIZE with 4096; lia| |exact I1|by eapply completed_apart|congruence| |by rewrite M1| | |].
    + intros i Hi%list_elem_of_In%in_rev%in_seq. lia.
    + intros k Hk. apply (to_ram_watch s s1); [apply C1|by apply Hram].
    + intros Hso. apply HE. by apply (stops_core s s1); [apply C1|].
    + intros s' Hs'. apply HX. by eapply completed_interrupted.
    + intros s' L' C' M'. eapply HQ; [by eapply completed_trans|]. rewrite M1 in M'. intros q Hq. destruct (M' q Hq) as [B1 B2].
      assert (forall i, 0 <= i < size -> i ∈ Z.of_nat <$> rev (seq 0 (Z.to_nat size))) as Hin.
      { intros i Hi. apply list_elem_of_fmap. exists (Z.to_nat i). split; [lia|]. apply list_elem_of_In. rewrite <- in_rev. apply in_seq. lia. }
      split; [by intros i Hi; apply B1, Hin|]. intros H. apply B2. intros i (k & -> & Hk%list_elem_of_In%in_rev%in_seq)%list_elem_of_fmap. apply H. lia.
  - intros s' L' C' Hp M'. eapply HQ; [done|]. apply (page_stored s n c addr size); [done..|lia|done|done].
Qed.

End StoreInv.

(** ** Writes of devices *)

Section DmaInv.
Context {machine : Machine} {mapping : Mapping} {translator : Translator} (G : code_gen).
Context (HM : machine_ok) (HG : gen_ok G) (HT : translator_ok) (HR : restored_ok).

(** Flags other than that of code. *)
Lemma set_other_flags a d q :
  code_dirty (set_dirty_entry (page_number a) (Z.lor (d (page_number a)) (Z.land 0xff (Z.lnot CODE_DIRTY_FLAG))) d) q <-> code_dirty d q.
Proof.
  unfold code_dirty, set_dirty_entry. destruct (Z.eqb_spec q (page_number a)) as [->|_]; [|done].
  rewrite Z.lor_spec. change (Z.testbit (Z.land 0xff _) 1) with false. by rewrite orb_false_r.
Qed.

(** A range in one page: afterwards no live block has code in it. *)
Record unmarked (a len : Z) (L L' : nat -> Prop) (s s' : cache) : Prop := {
  uk_inv : exists J', full_inv G s' L' J';
  uk_live : forall u, L' u <-> L u /\ forall x, a <= x < a + len -> ~ code_addr (tb_at s u) x;
  uk_core : unch Core s s';
  uk_mem : s'.(host_mem) = s.(host_mem);
  uk_code : code_kept L s s'
}.

Lemma unmarked_kept a len L L' J s s' : full_inv G s L J -> unmarked a len L L' s s' -> kept L L' s s'.
Proof.
  intros I [U1 U2 U3 U4 U5] u [Hu _]%U2. split; [done|]. apply unwritten_mem; [|done]. by apply (code_kept_same G s s' L); [apply I|..].
Qed.

Lemma wpc_invalidate_and_set_dirty X s L J a len (Q : unit -> cache -> Prop) :
  full_inv G s L J -> pages_apart s L -> 0 <= a < 2 ^ 52 -> 0 < len -> (forall x, a <= x < a + len -> page_number x = page_number a) ->
  (forall s' L', unmarked a len L L' s s' -> Q tt s') -> wpc (invalidate_and_set_dirty G a len) Q X s.
Proof.
  intros I Hap Ha Hlen Hpg HQ. pose proof (ci_layout _ _ _ _ (fi_cache _ _ _ _ I)) as Y.
  apply wpc_bind, wpc_bind, wpc_gets, wpc_ret. apply wpc_when; intros E.
  - apply wpc_bind. eapply (wpc_page_range G HM HG HT HR); [exact I|exact Hap|by apply page_number_index|done|done|done|].
    intros s1 L1 J1 [V1 V2 V3 V4 V5 V6 V8 _]. apply wpc_modify. apply (HQ _ L1). split; [exists J1| |exact V4|exact V5|exact V8].
    + apply full_inv_memory; [done|]. intros q. apply set_other_flags.
    + intros u. rewrite V2. split; intros [HL H]; (split; [done|]).
      * intros x Hx. apply (outside_iff G s L a (a + len) u); [lia|done|done|done|done|by apply Hpg].
      * apply (outside_iff G s L a (a + len) u); [lia|done|done|]. intros x Hx _. by apply H.
  - apply negb_false_iff, Z.eqb_eq in E. apply (HQ s L). split; [by exists J| |apply unch_refl|done|done].
    intros u. split; [|by intros [? _]]. intros Hu. split; [done|]. intros x Hx. apply (dirty_no_code G s L J); [done|done|].
    rewrite Hpg by done. unfold code_dirty. by rewrite E.
Qed.

Lemma write_bytes_out p bs m q : in_u 64 q -> ~ p <= q < p + Z.of_nat (length bs) -> write_code p bs m q = m q.
Proof.
  intros Hq Ho. unfold write_code. case_match eqn:E; [|done]. apply Z.leb_le in E. rewrite lookup_ge_None_2 by lia. done.
Qed.

(** Bytes are written first, then the blocks with code in them go. *)
Lemma written_kept a p buf L L' J s s' (len := Z.of_nat (length buf)) (s1 := set_memory s.(phys_dirty) (write_code p buf s.(host_mem)) s) :
  full_inv G s1 L J -> ram_bytes a p len -> unmarked a len L L' s1 s' -> kept L L' s s'.
Proof.
  intros I1 Hb [U1 U2 U3 U4 U5] u [Hu Hno]%U2. split; [done|]. split; [by apply (code_kept_same G s1 s' L); [apply I1|..]|].
  intros x q Hx Hq. rewrite U4. cbn [host_mem s1 set_memory]. destruct (ram_host_bound HM _ _ Hq) as (_ & Bq & _).
  apply write_bytes_out; [done|]. fold len. intros Hr. pose proof (Hb (q - p) ltac:(lia)) as H. replace (p + (q - p)) with q in H by lia.
  rewrite (ram_host_inj HM _ _ _ Hq H) in Hx. apply (Hno (a + (q - p))); [lia|done].
Qed.

Lemma wpc_write_ram X s L J a p buf (len := Z.of_nat (length buf)) (Q : unit -> cache -> Prop) :
  full_inv G s L J -> pages_apart s L -> 0 < len -> ram_bytes a p len -> (forall x, a <= x < a + len -> page_number x = page_number a) ->
  (forall s' L' J', full_inv G s' L' J' -> kept L L' s s' -> s'.(host_mem) = write_code p buf s.(host_mem) ->
     (forall u, L' u <-> L u /\ forall x, a <= x < a + len -> ~ code_addr (tb_at s u) x) -> Q tt s') ->
  wpc (write_ram G a buf) Q X s.
Proof.
  intros I Hap Hlen Hb Hpg HQ. destruct (ram_bytes_bound HM a p len Hlen Hb) as (B1 & B2 & B3 & B4). unfold in_u in B1.
  apply wpc_bind. apply (wpc_qemu_get_ram_ptr HM X a p); [rewrite <- (Z.add_0_r a), <- (Z.add_0_r p); apply Hb; lia|].
  apply wpc_bind, wpc_modify. set (s1 := set_memory _ _ s). assert (full_inv G s1 L J) as I1 by by apply full_inv_memory.
  apply (wpc_invalidate_and_set_dirty X s1 L J a len); [done|done|done|done|done|].
  intros s' L' U. pose proof U as [[J' I'] U2 U3 U4 U5]. by apply (HQ s' L' J'); [|eapply written_kept|..].
Qed.

(** A buffer that starts at a page: all its blocks go. *)
Lemma wpc_unmap_pages X fuel : forall s L J a len (Q : unit -> cache -> Prop),
  full_inv G s L J -> pages_apart s L -> 0 <= a -> a + len <= 2 ^ 52 -> aligned a -> 0 <= len < Z.of_nat fuel * TARGET_PAGE_SIZE ->
  (forall s' L', unmarked a len L L' s s' -> Q tt s') -> wpc (unmap_pages G fuel a len) Q X s.
Proof.
  assert (TARGET_PAGE_SIZE = 4096) as E4 by done.
  induction fuel as [|fuel IH]; intros s L J a len Q I Hap Ha Hl Al Hf HQ; cbn [unmap_pages]; [lia|].
  destruct (Z.eqb_spec len 0) as [->|Hne].
  { apply wpc_ret, (HQ s L). split; [by exists J| |apply unch_refl|done|done]. intros u. split; [intros Hu; split; [done|lia]|by intros [? _]]. }
  set (l := if len <? TARGET_PAGE_SIZE then len else TARGET_PAGE_SIZE).
  assert (0 < l <= len /\ l <= TARGET_PAGE_SIZE /\ (l = len \/ l = TARGET_PAGE_SIZE)) as (Hl1 & Hl2 & Hl3)
    by (unfold l; destruct (Z.ltb_spec len TARGET_PAGE_SIZE); lia).
  apply wpc_bind. apply (wpc_invalidate_and_set_dirty X s L J a l); [done|done|lia|lia| |].
  { intros x Hx. rewrite !page_number_eq. unfold aligned in Al. rewrite E4 in *. pose proof (Z.div_mod a 4096 ltac:(done)).
    symmetry. apply (Z.div_unique _ _ _ (x - a)); lia. }
  intros s1 L1 [[J1 I1] U2 U3 U4 U5]. assert (aligned (a + l) /\ l = TARGET_PAGE_SIZE \/ len - l = 0) as Hnext.
  { destruct Hl3 as [-> | ->]; [right; lia|left; split; [by apply aligned_add|done]]. }
  assert (pages_apart s1 L1) as Hap1 by (intros t Ht; core_rewrite U3; apply Hap; by apply U2).
  assert (forall s' L', unmarked (a + l) (len - l) L1 L' s1 s' -> Q tt s') as HQ1.
  { intros s' L' [V1 V2 V3 V4 V5]. apply (HQ s' L'). split; [done| |by eapply unch_trans|congruence|by eapply (code_kept_trans L L1); [..|by intros u [? _]%U2| |]]. intros u. rewrite V2, U2. split.
    - intros [[HL H1] H2]. split; [done|]. intros x Hx. destruct (decide (x < a + l)); [apply H1; lia|]. rewrite <- (code_addr_core s s1) by done. apply H2. lia.
    - intros [HL H]. split; [split; [done|]; intros x Hx; apply H; lia|]. intros x Hx. rewrite (code_addr_core s s1) by done. apply H. lia. }
  destruct Hnext as [[Al' El]|E]; [apply (IH s1 L1 J1); try done; lia|]. rewrite E in *.
  destruct fuel; apply wpc_ret; apply (HQ1 s1 L1); (split; [by exists J1| |apply unch_refl|done|done]);
    (intros u; split; [intros Hu; split; [done|lia]|by intros [? _]]).
Qed.

Lemma wpc_address_space_unmap X s L J a p len (Q : unit -> cache -> Prop) :
  full_inv G s L J -> pages_apart s L -> ram_host a p -> aligned a -> 0 <= len -> a + len <= 2 ^ 52 ->
  (forall s' L', unmarked a len L L' s s' -> Q tt s') -> wpc (address_space_unmap G p true len) Q X s.
Proof.
  intros I Hap Hp Al Hl Hb HQ. destruct (ram_host_bound HM _ _ Hp) as (B1 & B2 & _). unfold address_space_unmap.
  rewrite (proj2 (ram_from_host HM p a B2) Hp). apply (wpc_unmap_pages X _ s L J); try done; [by destruct B1|].
  pose proof (Z.div_mod len TARGET_PAGE_SIZE ltac:(done)). pose proof (Z.mod_pos_bound len TARGET_PAGE_SIZE ltac:(done)).
  assert (0 <= len / TARGET_PAGE_SIZE) by (apply Z.div_pos; done). rewrite Nat2Z.inj_succ, Z2Nat.id by done. change TARGET_PAGE_SIZE with 4096 in *. lia.
Qed.
End DmaInv.
