(* ===== verification/TbExample.v ===== *)
(** * A small machine

    One processor, sixteen pages of RAM, a page table in the last of them, and a
    translator that gives every block sixteen bytes of guest code and two exits, and puts
    the first byte of the guest code in front of the host code: an instance of the
    parameters of the translation cache on which its operations can be evaluated.  The
    page table has a byte for each page, which is the distance to its physical page; in
    the states below all are 0. *)

From S2P Require Import Prelude QtraceDefs TlbLoad IContext TbState TbPages Tlb TbCache TbStore TbLogic TbLinks TbInv TbJumps TbInvalidate TlbInv TbGen TbLinkPage TbGenCode TbFind TbFlush TbBitmap TbRange TbPhys TbWrite TbStoreInv.

Definition small_ram : RAMBlock := mkBlock 0x100000 0 0x10000.
Definition in_small_ram (a : Z) : bool := (0 <=? a) && (a <? 0x10000).

Definition small_machine : Machine := {|
  ram_blocks := [small_ram];
  section_for_iotlb paddr :=
    if in_small_ram paddr then (mkSection true false false 0 4, Z.land paddr TARGET_PAGE_MASK, TARGET_PAGE_SIZE)
    else (mkSection false false false 0 0, 0, TARGET_PAGE_SIZE);
  rom_device _ := false;
  cpu_mmu_index _ _ := 0;
  page_walk env a _ _ s :=
    if in_small_ram a && (env =? 0)%nat
    then Some (Z.land (u16 (a + TARGET_PAGE_SIZE * s.(host_mem) (0x10f000 + page_number a))) TARGET_PAGE_MASK, 7, TARGET_PAGE_SIZE)
    else None
|}.
Definition small_mapping : Mapping := {| phys_map _ v := v |}.
(** Page 2 is mapped to page 1, as page 1 is. *)
Definition alias_mapping : Mapping := {| phys_map n v := if (n =? 0)%nat && (v =? 0x2000) then 0x1000 else v |}.
Definition small_translator : Translator := {|
  generate _ tb s :=
    Some (mkGenerated 16 (u8 (s.(host_mem) (0x100000 + tb.(tb_pc))) :: replicate 23 0x90) (Some (4, 8), Some (12, 16)) [] 4);
  restored _ tb _ _ := (u64 tb.(tb_pc), tb.(tb_cs_base), tb.(tb_flags))
|}.
Definition small_devices : Devices := {| device_write _ _ _ _ _ := mret tt |}.
Definition small_gen : code_gen := mkGen 0x40000000 (TCG_MAX_OP_SIZE * OPC_BUF_SIZE + 4096) 4096 4.

Definition small_cpu : CPUState :=
  mkCpu ∅ None 0 false 0 0 (fun _ _ => s_cputlb_empty_entry) (fun _ _ => 0) (u64 (-1)) 0 [].
Definition start_with (m : Z -> Z) : cache :=
  mkCache (replicate 4 dummy_tb) 0 ∅ 0 0 false 0x40000000 (empty_table L1_LEVEL) (fun _ => 0) [small_cpu] (Some 0%nat)
    (fun _ => 0xff) m.
Definition small_start : cache := start_with (fun _ => 0).

#[local] Existing Instances small_machine small_translator small_devices.

Lemma small_ram_host r p : ram_host r p <-> 0 <= r < 0x10000 /\ p = 0x100000 + r.
Proof.
  unfold ram_host, block_has. cbn [ram_blocks small_machine]. split.
  - intros (b & Hb & H & ->). apply list_elem_of_singleton in Hb as ->. cbn [small_ram block_offset block_length block_host] in *. lia.
  - intros [H ->]. exists small_ram. split; [by left|]. cbn [small_ram block_offset block_length block_host]. lia.
Qed.

Lemma small_page a : in_small_ram a = true -> 0 <= Z.land a TARGET_PAGE_MASK /\ Z.land a TARGET_PAGE_MASK + 4096 <= 0x10000.
Proof.
  unfold in_small_ram. intros [H1 H2]%andb_prop. rewrite page_mask_eq. change TARGET_PAGE_SIZE with 4096.
  apply Z.leb_le in H1. apply Z.ltb_lt in H2. pose proof (Z.div_mod a 4096). pose proof (Z.mod_pos_bound a 4096). lia.
Qed.

Lemma small_machine_ok : machine_ok.
Proof.
  split.
  - intros b Hb. apply list_elem_of_singleton in Hb as ->. unfold aligned. cbn [small_ram block_host block_offset block_length]. by repeat split.
  - intros b b' a Hb Hb' _ _. apply list_elem_of_singleton in Hb as ->. by apply list_elem_of_singleton in Hb' as ->.
  - intros b b' a Hb Hb' _ _. apply list_elem_of_singleton in Hb as ->. by apply list_elem_of_singleton in Hb' as ->.
  - intros env a acc m s paddr prot size E. cbn [page_walk small_machine] in E.
    destruct (in_small_ram a && _); [|done]. simplify_eq. repeat split; try done. apply aligned_mask.
  - intros paddr sec xlat sz E. cbn [section_for_iotlb small_machine] in E. destruct (in_small_ram paddr) eqn:Ep; simplify_eq.
    + pose proof (small_page paddr Ep). repeat split; try done; [apply aligned_mask|lia|].
      exists small_ram. split; [by left|]. cbn [is_ram mr_ram_addr small_ram block_offset block_length].
      change (Z.land 0 TARGET_PAGE_MASK) with 0. change TARGET_PAGE_SIZE with 4096. lia.
    + split; [done|]. split; [done|]. split; [done|]. split; [done|]. split; [done|]. by intros [?|?].
  - done.
Qed.

Lemma small_gen_ok : gen_ok small_gen.
Proof. by split. Qed.

Lemma small_translator_ok : translator_ok.
Proof.
  intros env tb s g E. cbn [generate small_translator] in E. simplify_eq. split; cbn [gen_size gen_exits fst snd]; try done.
  - intros e E. by simplify_eq.
  - intros e E. by simplify_eq.
  - intros e1 e2 E. simplify_eq. by left.
Qed.

Lemma small_restored_ok : restored_ok.
Proof.
  intros n tb a s pc cs fl E Hs. cbn [restored small_translator] in E. simplify_eq. exists 0. split; [lia|]. by rewrite Z.add_0_r.
Qed.

Lemma small_walks m : (forall k, 0 <= k < 16 -> m (0x10f000 + k) = 0) -> walks (mapping := small_mapping) m.
Proof.
  intros H n a acc mode s paddr prot size <- E. cbn [page_walk small_machine] in E. destruct (in_small_ram a && _) eqn:Ea; [|done].
  apply andb_prop in Ea as [Ea _].
  unfold in_small_ram in Ea. apply andb_prop in Ea as [H1%Z.leb_le H2%Z.ltb_lt].
  rewrite H in E by (rewrite page_number_eq; change TARGET_PAGE_SIZE with 4096; split; [apply Z.div_pos; lia|apply Z.div_lt_upper_bound; lia]).
  rewrite Z.mul_0_r, Z.add_0_r, wrap_id in E by (unfold in_u; lia). by simplify_eq.
Qed.

Lemma alias_walks m : m 0x10f002 = 15 -> (forall k, 0 <= k < 16 -> k <> 2 -> m (0x10f000 + k) = 0) -> walks (mapping := alias_mapping) m.
Proof.
  intros H2 H n a acc mode s paddr prot size <- E. cbn [page_walk small_machine] in E. destruct (in_small_ram a && _) eqn:Ea; [|done].
  apply andb_prop in Ea as [Ea ->%Nat.eqb_eq].
  unfold in_small_ram in Ea. apply andb_prop in Ea as [H1%Z.leb_le H3%Z.ltb_lt]. cbn [phys_map alias_mapping Nat.eqb andb].
  assert (Z.land a TARGET_PAGE_MASK = page_number a * 4096) as Ep.
  { rewrite page_mask_eq, page_number_eq. change TARGET_PAGE_SIZE with 4096. pose proof (Z.div_mod a 4096). lia. }
  assert (0 <= page_number a < 16) as Hb by (rewrite page_number_eq; change TARGET_PAGE_SIZE with 4096; split; [apply Z.div_pos; lia|apply Z.div_lt_upper_bound; lia]).
  destruct (Z.eqb_spec (Z.land a TARGET_PAGE_MASK) 0x2000) as [E2|E2].
  - assert (page_number a = 2) as Ea by lia. rewrite Ea in E. change (0x10f000 + 2) with 0x10f002 in E. rewrite H2 in E. rewrite page_mask_eq in E2.
    change TARGET_PAGE_SIZE with 4096 in *. pose proof (Z.mod_pos_bound a 4096 ltac:(done)) as Hm.
    assert (u16 (a + 4096 * 15) = 0x1000 + a mod 4096) as Eu by (symmetry; apply (Z.mod_unique _ _ 1); [change (2 ^ 16) with 65536; lia|change (2 ^ 16) with 65536; lia]).
    rewrite Eu, page_mask_eq in E. change TARGET_PAGE_SIZE with 4096 in E. rewrite Z.add_mod, Z.mod_mod in E by done.
    change (0x1000 mod 4096) with 0 in E. rewrite Z.add_0_l, Z.mod_mod in E by done. replace (0x1000 + a mod 4096 - a mod 4096) with 0x1000 in E by lia. by simplify_eq.
  - rewrite H in E by lia. rewrite Z.mul_0_r, Z.add_0_r, wrap_id in E by (unfold in_u; lia). by simplify_eq.
Qed.

Section Start.
Context {mapping : Mapping}.

Lemma start_full_inv m : full_inv small_gen (start_with m) (fun _ => False) (fun _ => None).
Proof.
  apply (empty_inv small_gen small_gen_ok); try done.
  - intros c Hc. by apply list_elem_of_singleton in Hc as ->.
  - intros c Hc. cbn in Hc. simplify_eq. cbn. lia.
  - intros n c Hc. destruct n as [|n]; [|done]. cbn in Hc. simplify_eq. intros mo i _. apply empty_entry_ok.
Qed.
End Start.

(** ** States with blocks *)

Definition after {A} (m : cm A) (s : cache) : cache := match m s with Ok (_, s') => s' | Err _ => s end.

Definition outcome {A} (m : cm A) (s : cache) : res (option A) := match m s with Ok (o, _) => Ok o | Err e => Err e end.

Lemma after_returns {A} (m : cm A) s a : outcome m s = Ok (Some a) -> m s = Ok (Some a, after m s).
Proof. unfold outcome, after. destruct (m s) as [[o s']|e]; congruence. Qed.

(** Two blocks, the first of which spans two pages. *)
Definition small_one : cache := after (tb_find_fast small_gen 0 0x1ff8 0 0) small_start.
Definition small_two : cache := after (tb_find_fast small_gen 0 0x3000 0 0) small_one.

Section Find.
Context {mapping : Mapping}.

Lemma small_find_inv s pc :
  (exists L J, full_inv small_gen s L J) -> has_env s 0 -> walks s.(host_mem) -> in_u 64 pc ->
  exists L J, full_inv small_gen (after (tb_find_fast small_gen 0 pc 0 0) s) L J.
Proof.
  intros (L & J & I) He Hw Hpc. set (P := fun s' => exists L J, full_inv small_gen s' L J).
  pose proof (wpc_tb_find_fast small_gen small_machine_ok small_gen_ok small_translator_ok (mkExits P (fun _ => True)) s L J 0 pc 0 0
    (fun _ => P) I He Hw Hpc (fun _ => Logic.I)) as W.
  unfold wpc in W. unfold after. destruct (tb_find_fast _ _ _ _ _ s) as [[[t|] s']|e]; [apply W| apply W|by exists L, J]; by intros; exists L', J'.
Qed.
End Find.

(** A block in a hash list is live. *)
Lemma hash_head_live G s L J h t : cache_inv G s L J -> s.(tb_phys_hash) !! h = Some t -> L t.
Proof.
  intros I E. destruct (li_lists _ _ _ (ci_hash _ _ _ _ I) h Logic.I) as (l & Hc & Hm). cbn [ls_head hash_lists] in Hc.
  rewrite E in Hc. destruct l as [|u l]; [done|]. destruct Hc as [Hu _]. injection Hu as ->. apply (Hm u). by left.
Qed.

#[local] Existing Instance small_mapping.

Lemma small_two_inv : exists L J, full_inv small_gen small_two L J /\ pages_apart small_two L /\ forall t, L t <-> (t < 2)%nat.
Proof.
  destruct (small_find_inv small_one 0x3000) as (L & J & I); [|by apply lookup_lt_is_Some_2; vm_compute; lia|by apply small_walks; vm_compute|done|].
  { apply small_find_inv; [|by eexists|by apply small_walks|done]. eexists _, _. apply start_full_inv. }
  fold small_two in I. exists L, J. pose proof (fi_cache _ _ _ _ I) as C. split; [done|].
  assert (forall t, L t <-> (t < 2)%nat) as HL.
  { intros t. split.
    - intros Ht. pose proof (ly_live _ _ _ (ci_layout _ _ _ _ C) t Ht) as H. by replace (nb_tbs small_two) with 2%nat in H by by vm_compute.
    - intros Ht. destruct t as [|[|t]]; [| |lia].
      + apply (hash_head_live _ _ _ _ 2046 0 C). by vm_compute.
      + apply (hash_head_live _ _ _ _ 3072 1 C). by vm_compute. }
  split; [|done]. intros t Ht%HL. destruct t as [|[|t]]; [by vm_compute|by vm_compute|lia].
Qed.

(** ** A block that is in the list of a page twice *)

Definition alias_one : cache := after (tb_find_fast small_gen 0 0x1ff8 0 0) (start_with (fun p => if p =? 0x10f002 then 15 else 0)).

Lemma alias_one_inv : exists L J, full_inv (mapping := alias_mapping) small_gen alias_one L J /\ L 0%nat.
Proof.
  destruct (small_find_inv (mapping := alias_mapping) (start_with (fun p => if p =? 0x10f002 then 15 else 0)) 0x1ff8) as (L & J & I).
  - eexists _, _. apply start_full_inv.
  - by eexists.
  - apply alias_walks; [done|]. intros k Hk Hne. cbn [host_mem start_with]. case_match eqn:E; [|done]. apply Z.eqb_eq in E. lia.
  - done.
  - exists L, J. split; [done|]. apply (hash_head_live _ _ _ _ 2046 0 (fi_cache _ _ _ _ I)). by vm_compute.
Qed.
