(* ===== verification/TbTheorems.v ===== *)
(** * Correctness of the translation cache, the TLB and of writes to memory

    Each theorem is stated for any machine, translator and devices that behave as
    [machine_ok], [translator_ok] and [restored_ok] say, and for any state with the
    invariant [full_inv].  [wpc m Q X s] says that [m] run in [s] does not get stuck: it
    returns in a state with [Q], or it leaves as [X] allows.

    The invariant is one for a mapping of virtual to physical pages.  Operations that walk
    through the page tables need that these agree with the mapping ([walks]); when they
    are changed and flushed, the invariant holds for the new mapping.  The witnesses use
    the machine of [TbExample]. *)

From S2P Require Import Prelude QtraceDefs TlbLoad IContext TbState TbPages Tlb TbCache TbStore TbLogic TbLinks TbInv TbJumps TbInvalidate TlbInv TbGen TbLinkPage TbGenCode TbFind TbFlush TbBitmap TbRange TbPhys TbTwice TbWrite TbStoreInv TbExample.

(** An operation may leave with siglongjmp in a state with [P], or be aborted if [A]. *)
Definition leaves (P : cache -> Prop) (A : Prop) : exits := mkExits P (fun e => e = TcgAbort /\ A).

Section Theorems.
Context {machine : Machine} {mapping : Mapping} {translator : Translator} {devices : Devices} (G : code_gen).
Context (HM : machine_ok) (HG : gen_ok G) (HT : translator_ok) (HR : restored_ok).

(** C9: A store of the guest, aligned or not, to RAM that can be written and has no
    watchpoints, with or without code, when the page tables agree with the mapping and are
    not among the bytes stored, and no block has one physical page twice: afterwards
    memory holds exactly the bytes of the store, the invariant holds, no live block has a
    byte of code that the store changed, and the block that executes the store is still
    live unless it is a single instruction.  The store may leave for a page fault or to
    restart the instruction with a new block, again with the invariant; it is aborted only
    if the instruction of the block at [retaddr] where the program would go on is not in
    memory. *)
Theorem guest_store_coherent s L J n m addr val retaddr size :
  full_inv G s L J -> pages_apart s L -> s.(current_cpu) = Some n -> in_u 64 addr -> in_modes m = true -> access_size_ok size ->
  all_to_ram s n addr size -> walks_apart (touches n addr size) s.(host_mem) ->
  wpc (helper_le_st G size n addr val m retaddr)
    (fun _ s' => exists L', completed G (u64 (retaddr - GETPC_ADJ)) L L' s s' /\
       bytes_stored n addr val (fun i => 0 <= i < size) s.(host_mem) s'.(host_mem) /\ pages_apart s' L')
    (leaves (interrupted G L s) (stops_outside s n (u64 (retaddr - GETPC_ADJ)))) s.
Proof.
  intros I Ha Hn Hb Hm Hs Hr Hw. apply (wpc_helper_le_st G HM HG HT HR _ s L J); try done.
  intros s' L' H1 H2. exists L'. split_and!; [done|done|by eapply completed_apart].
Qed.

(** C10: The lookup of a block, when the page tables agree with the mapping, returns a live
    block with the program counter, code segment base and flags asked for, whose physical
    pages are those that the processor executes from there.  If there was such a block,
    nothing is translated and all blocks stay; a new block is translated only if there was
    none, from memory as it is, and the other blocks stay unless the cache was full.  The
    lookup may leave for a page fault, with the invariant and the blocks that remain
    unchanged, and is aborted only if the code is not in memory. *)
Theorem lookup_finds_block s L J env pc cs fl :
  full_inv G s L J -> has_env s env -> walks s.(host_mem) -> in_u 64 pc ->
  wpc (tb_find_fast G env pc cs fl)
    (fun t s' => exists L' J', full_inv G s' L' J' /\ found G env pc cs fl t L L' s s' /\
       ((exists u, L u /\ matches env pc cs fl (tb_at s u)) -> L t /\ forall u, L' u <-> L u) /\
       (distinct_pages env pc -> pages_apart s L -> pages_apart s' L'))
    (leaves (fun s' => exists L' J', full_inv G s' L' J' /\ s'.(host_mem) = s.(host_mem) /\
       forall u, L' u -> L u /\ same_block s s' u) (unfetchable env pc)) s.
Proof.
  intros I He Hw Hp. apply (wpc_tb_find_fast G HM HG HT _ s L J); try done.
  - intros s' L' J' I' H1 H2. by exists L', J'.
  - intros t s' L' J' I' H. exists L', J'. pose proof H as [F1 F2 F3 F4 F5]. split_and!; [done|done|..].
    + intros (u & Hu & Hm). destruct F4 as [(? & ? & _)|(_ & Hno & _)]; [done|by destruct (Hno u)].
    + intros Hd. apply (pages_apart_new HM s s' L L' env t); [done|apply F2|]. by rewrite (mt_pc _ _ _ _ _ F2).
Qed.

(** C12: Generation of code, when the page tables agree with the mapping, allocates a block
    and enters it into the hash table and the lists of its pages, which are protected
    against writes.  If there is no room for another block or for its code, all other
    blocks are flushed first, otherwise all stay.  It may leave for a fault when the code
    is read, with the invariant and the blocks that remain unchanged, and is aborted only
    if the code is not in memory. *)
Theorem generation_links_block s L J env pc cs fl cf :
  full_inv G s L J -> has_env s env -> walks s.(host_mem) -> in_u 64 pc ->
  wpc (tb_gen_code G env pc cs fl cf)
    (fun t s' => exists L' J', full_inv G s' L' J' /\ new_block G L L' J J' env t pc cs fl cf s s' /\
       (distinct_pages env pc -> pages_apart s L -> pages_apart s' L'))
    (leaves (fun s' => exists L' J', full_inv G s' L' J' /\ s'.(host_mem) = s.(host_mem) /\
       forall u, L' u -> L u /\ same_block s s' u) (unfetchable env pc)) s.
Proof.
  intros I He Hw Hp. apply (wpc_tb_gen_code G HM HG HT _ s L J); try done.
  - intros s' L' J' I' H1 H2. by exists L', J'.
  - intros t s' L' J' I' H. exists L', J'. split_and!; [done|done|]. intros Hd.
    apply (pages_apart_new HM s s' L L' env t); [|apply H|by rewrite (nw_pc _ _ _ _ _ _ _ _ _ _ _ _ _ H)].
    intros u Hu Hne. split; [|by apply H]. destruct (nw_live _ _ _ _ _ _ _ _ _ _ _ _ _ H) as [_ [(_ & HL & _)|(_ & HL & _)]]; apply HL in Hu; by destruct Hu.
Qed.

(** C11: Invalidation of a live block takes it out of the hash table, of the lists of its
    pages, of the lists of jumps and of the jump caches of all processors, and resets
    the jumps to it; nothing else of the cache changes. *)
Theorem invalidation_retires_block s L J t :
  cache_inv G s L J -> L t -> exists s', tb_phys_invalidate t no_page s = Ok (Some tt, s') /\ retired G L J t s s'.
Proof.
  intros I Ht. assert (wpc (tb_phys_invalidate t no_page) (fun _ s' => retired G L J t s s') no_exits s) as W
    by by eapply wpc_tb_phys_invalidate.
  unfold wpc in W. destruct (tb_phys_invalidate t no_page s) as [[[[]|] s']|e]; [by exists s'|done|done].
Qed.

(** C13: Invalidation of a range of physical addresses, when no block has one physical page
    twice, makes exactly the blocks with code in it dead. *)
Theorem range_invalidation_exact s L J start last :
  full_inv G s L J -> pages_apart s L -> 0 <= start -> last <= 2 ^ 52 ->
  exists s' L' J', tb_invalidate_phys_range G start last false s = Ok (Some tt, s') /\ range_gone G start last L L' J J' s s'.
Proof.
  intros I Ha H1 H2.
  assert (wpc (tb_invalidate_phys_range G start last false) (fun _ s' => exists L' J', range_gone G start last L L' J J' s s') no_exits s) as W.
  { apply (wpc_tb_invalidate_phys_range G HM HG HT HR _ s L J); try done. intros s' L' J' H. by exists L', J'. }
  unfold wpc in W. destruct (tb_invalidate_phys_range _ _ _ _ s) as [[[[]|] s']|e]; [|done|done]. destruct W as (L' & J' & W). by exists s', L', J'.
Qed.

(** C14: The invalidation for a write of the guest, which looks at the bitmap of code in the
    page first, when no block has one physical page twice and the page tables agree with
    the mapping, makes exactly the blocks dead that have code at the bytes written; it
    returns only if the block that executes the write, unless it is a single
    instruction, has no code there.  Otherwise it leaves after that block was translated
    again; it is aborted only if the instruction where the program would go on is not in
    memory. *)
Theorem bitmap_check_exact s L J start len :
  full_inv G s L J -> pages_apart s L -> access_ok start len -> is_Some s.(current_cpu) -> walks s.(host_mem) ->
  wpc (tb_invalidate_phys_page_fast G start len) (fun _ s' => exists L' J', may_write G start len L L' J J' s s')
    (leaves (restarted G start (start + len) L s) (resumes_outside s s.(current_cpu))) s.
Proof.
  intros I Ha H1 H2 Hw. apply (wpc_page_fast G HM HG HT HR _ s L J); try done. intros s' L' J' H. by exists L', J'.
Qed.

(** C20: The search by an address in the host code of a live block finds that block. *)
Theorem host_address_finds_block s L J tc t :
  cache_inv G s L J -> L t -> (tb_at s t).(tc_ptr) < tc < (tb_at s t).(tc_end_ptr) ->
  tb_find_pc G tc s = Ok (Some (Some t), s).
Proof.
  intros I Ht Hc. assert (wpc (tb_find_pc G tc) (fun o s' => o = Some t /\ s' = s) no_exits s) as W.
  { apply (wpc_tb_find_pc G _ s L); [apply (ci_layout _ _ _ _ I)|]. intros o _ H. by rewrite (H t Ht Hc). }
  unfold wpc in W. destruct (tb_find_pc G tc s) as [[[o|] s']|e]; [|done|done]. by destruct W as [-> ->].
Qed.

(** C17: The flush of a virtual page leaves no entry of the TLB for it in any mode and no block
    with code in it in the jump cache, even if the page is part of a large one. *)
Theorem page_flush_unmaps s L J n addr :
  full_inv G s L J -> has_env s n ->
  exists s' c', tlb_flush_page n addr s = Ok (Some tt, s') /\ full_inv G s' L J /\ s'.(cpus) !! n = Some c' /\
    unmapped s' (Z.land addr TARGET_PAGE_MASK) c'.
Proof.
  intros I He. assert (wpc (tlb_flush_page n addr) (fun _ s' => exists c', full_inv G s' L J /\ s'.(cpus) !! n = Some c' /\
    unmapped s' (Z.land addr TARGET_PAGE_MASK) c') no_exits s) as W.
  { apply (wpc_tlb_flush_page G _ s L J); try done. intros s' c' H1 H2 _ H3. by exists c'. }
  unfold wpc in W. destruct (tlb_flush_page n addr s) as [[[[]|] s']|e]; [|done|done]. destruct W as (c' & W). by exists s', c'.
Qed.

(** C19: Chaining an exit of a live block to a live block keeps the invariant, in which the jump
    of the exit goes to the code of the other block; an exit that is chained already
    stays as it is. *)
Theorem chaining_links_jump s L J t n u :
  full_inv G s L J -> L t -> L u -> has_exit s (t, n) ->
  exists s', tb_add_jump t n u s = Ok (Some tt, s') /\ full_inv G s' L (if decide (J (t, n) = None) then chained J (t, n) u else J) /\
    jump_dest s' (t, n) = (tb_at s' (default u (J (t, n)))).(tc_ptr).
Proof.
  intros I Ht Hu Hx. set (P s' := full_inv G s' L (if decide (J (t, n) = None) then chained J (t, n) u else J) /\
    jump_dest s' (t, n) = (tb_at s' (default u (J (t, n)))).(tc_ptr)).
  assert (wpc (tb_add_jump t n u) (fun _ => P) no_exits s) as W.
  { apply (wpc_tb_add_jump G _ s L J); try done. intros s' I' Hc _. split; [done|].
    assert (has_exit s' (t, n)) as Hx' by by apply (core_has_exit s s').
    rewrite (ci_code _ _ _ _ (fi_cache _ _ _ _ I') (t, n) Ht Hx'). unfold chained.
    destruct (J (t, n)) as [v|] eqn:Ej; cbn [default]; [by rewrite decide_False, Ej by done|by rewrite !decide_True by done]. }
  unfold wpc in W. destruct (tb_add_jump t n u s) as [[[[]|] s']|e]; [by exists s'|done|done].
Qed.

(** C15: A write of a device to RAM, within one page, when no block has one physical page
    twice: memory holds the bytes, exactly the blocks with code there are dead and the
    code of the others is unchanged. *)
Theorem device_write_coherent s L J a p buf :
  full_inv G s L J -> pages_apart s L -> 0 < Z.of_nat (length buf) -> ram_bytes a p (Z.of_nat (length buf)) ->
  (forall x, a <= x < a + Z.of_nat (length buf) -> page_number x = page_number a) ->
  exists s' L' J', write_ram G a buf s = Ok (Some tt, s') /\ full_inv G s' L' J' /\ kept L L' s s' /\
    s'.(host_mem) = write_code p buf s.(host_mem) /\
    forall u, L' u <-> L u /\ forall x, a <= x < a + Z.of_nat (length buf) -> ~ code_addr (tb_at s u) x.
Proof.
  intros I Ha H0 Hb Hp. set (P s' := exists L' J', full_inv G s' L' J' /\ kept L L' s s' /\ s'.(host_mem) = write_code p buf s.(host_mem) /\
    forall u, L' u <-> L u /\ forall x, a <= x < a + Z.of_nat (length buf) -> ~ code_addr (tb_at s u) x).
  assert (wpc (write_ram G a buf) (fun _ => P) no_exits s) as W.
  { apply (wpc_write_ram G HM HG HT HR _ s L J a p buf); try done. intros s' L' J' H1 H2 H3 H4. by exists L', J'. }
  unfold wpc in W. destruct (write_ram G a buf s) as [[[[]|] s']|e]; [|done|done]. destruct W as (L' & J' & W). by exists s', L', J'.
Qed.

(** C16: Unmapping a buffer that a device has written, from the start of a page on, when no
    block has one physical page twice, makes exactly the blocks with code in it dead. *)
Theorem unmap_invalidates s L J a p len :
  full_inv G s L J -> pages_apart s L -> ram_host a p -> aligned a -> 0 <= len -> a + len <= 2 ^ 52 ->
  exists s' L', address_space_unmap G p true len s = Ok (Some tt, s') /\ unmarked G a len L L' s s'.
Proof.
  intros I Ha Hr Al H0 Hl. assert (wpc (address_space_unmap G p true len) (fun _ s' => exists L', unmarked G a len L L' s s') no_exits s) as W.
  { apply (wpc_address_space_unmap G HM HG HT HR _ s L J a); try done. intros s' L' H. by exists L'. }
  unfold wpc in W. destruct (address_space_unmap _ _ _ _ s) as [[[[]|] s']|e]; [|done|done]. destruct W as (L' & W). by exists s', L'.
Qed.

(** C37: A block that the list of a page has twice, because both its pages are this one,
    with code of both in the range: the invalidation of the range dereferences NULL. *)
Theorem range_twice_crashes s L J start last t :
  full_inv G s L J -> page_index (page_number start) -> twice s L start last t ->
  tb_invalidate_phys_page_range G start last false s = Err NullDeref.
Proof. intros I Hp Ht. apply wpc_null_deref. by eapply (wpc_range_twice G). Qed.
End Theorems.

(** C18: After the flush of a page the invariant holds for any page tables that differ from
    those before in the mapping of this page by this processor only, and after the flush
    of its TLB for any that differ in the mapping by this processor only. *)
Theorem flush_adopts_mapping {machine : Machine} G (M M' : Mapping) s L J n addr (v := Z.land addr TARGET_PAGE_MASK) :
  full_inv (mapping := M) G s L J -> has_env s n ->
  (forall k w, aligned w -> k <> n -> phys_map (Mapping := M') k w = phys_map (Mapping := M) k w) ->
  (exists s', tlb_flush n s = Ok (Some tt, s') /\ full_inv (mapping := M') G s' L J) /\
  ((forall w, aligned w -> w <> v -> phys_map (Mapping := M') n w = phys_map (Mapping := M) n w) ->
   exists s', tlb_flush_page n addr s = Ok (Some tt, s') /\ full_inv (mapping := M') G s' L J).
Proof.
  intros I Hn Hk. split; [|intros Hw].
  - assert (wpc (tlb_flush n) (fun _ s' => full_inv (mapping := M') G s' L J) no_exits s) as W.
    { apply (wpc_tlb_flush (mapping := M) G _ s L J); try done. intros s' c' I' Hc' _ Hu.
      apply (remapped_inv G M M' n (fun _ => True) ltac:(intros k w Aw [?|[]]; by auto) s' L J c'); auto. }
    unfold wpc in W. destruct (tlb_flush n s) as [[[[]|] s']|e]; [by exists s'|done|done].
  - assert (wpc (tlb_flush_page n addr) (fun _ s' => full_inv (mapping := M') G s' L J) no_exits s) as W.
    { apply (wpc_tlb_flush_page (mapping := M) G _ s L J); try done. intros s' c' I' Hc' _ Hu.
      apply (remapped_inv G M M' n (eq v)) with c'; [|done|done|by intros w _ <-]. intros k w Aw Hne.
      destruct (decide (k = n)) as [->|]; [|by apply Hk]. apply Hw; [done|]. by destruct Hne as [?|?]; [|intros ->]. }
    unfold wpc in W. destruct (tlb_flush_page n addr s) as [[[[]|] s']|e]; [by exists s'|done|done].
Qed.

(** ** Instances of the theorems *)

#[local] Existing Instances small_machine small_mapping small_translator small_devices.

Lemma small_two_env : has_env small_two 0.
Proof. apply lookup_lt_is_Some_2. vm_compute. lia. Qed.

Lemma small_two_current : small_two.(current_cpu) = Some 0%nat.
Proof. by vm_compute. Qed.

Lemma small_two_walks : walks small_two.(host_mem).
Proof. apply small_walks. by vm_compute. Qed.

Lemma small_two_to_ram a : in_small_ram a = true -> to_ram small_two 0 a.
Proof.
  intros Ha c Hc. destruct (small_page a Ha) as [H1 H2]. assert (in_small_ram (Z.land a TARGET_PAGE_MASK) = true) as Hp.
  { unfold in_small_ram. apply andb_true_iff. rewrite Z.leb_le, Z.ltb_lt. lia. }
  split; [unfold plain_ram; cbn [section_for_iotlb small_machine phys_map small_mapping]; by rewrite Hp|].
  assert (watchpoints <$> small_two.(cpus) = [[]]) as Ew by by vm_compute.
  apply (f_equal (fun l => l !! 0%nat)) in Ew. rewrite list_lookup_fmap, Hc in Ew. by injection Ew as ->.
Qed.

(** A store into the first block, which spans two pages. *)
Lemma guest_store_coherent_witness : exists L,
  wpc (helper_le_st small_gen 4 0 0x1ffe 77 0 0)
    (fun _ s' => exists L', completed small_gen (u64 (0 - GETPC_ADJ)) L L' small_two s' /\
       bytes_stored 0 0x1ffe 77 (fun i => 0 <= i < 4) small_two.(host_mem) s'.(host_mem) /\ pages_apart s' L')
    (leaves (interrupted small_gen L small_two) (stops_outside small_two 0 (u64 (0 - GETPC_ADJ)))) small_two.
Proof.
  destruct small_two_inv as (L & J & I & Ha & HL). exists L.
  apply (guest_store_coherent small_gen small_machine_ok small_gen_ok small_translator_ok small_restored_ok small_two L J); [exact I|exact Ha|apply small_two_current|done|done|..].
  - by right; right; left.
  - intros i Hi. apply small_two_to_ram. by assert (i = 0 \/ i = 1 \/ i = 2 \/ i = 3) as [-> | [-> | [-> | ->]]] by lia.
  - intros m' Hm'. apply small_walks. intros k Hk. rewrite Hm'; [by vm_compute|unfold in_u; lia|]. intros (i & Hi & E).
    assert (byte_at 0 0x1ffe i = 0x101ffe + i) as Eb by (assert (i = 0 \/ i = 1 \/ i = 2 \/ i = 3) as [-> | [-> | [-> | ->]]] by lia; by vm_compute).
    rewrite Eb in E. lia.
Defined.

Lemma lookup_finds_block_witness : exists L,
  wpc (tb_find_fast small_gen 0 0x3000 0 0)
    (fun t s' => exists L' J', full_inv small_gen s' L' J' /\ found small_gen 0 0x3000 0 0 t L L' small_two s' /\
       ((exists u, L u /\ matches 0 0x3000 0 0 (tb_at small_two u)) -> L t /\ forall u, L' u <-> L u) /\
       (distinct_pages 0 0x3000 -> pages_apart small_two L -> pages_apart s' L'))
    (leaves (fun s' => exists L' J', full_inv small_gen s' L' J' /\ s'.(host_mem) = small_two.(host_mem) /\
       forall u, L' u -> L u /\ same_block small_two s' u) (unfetchable 0 0x3000)) small_two.
Proof.
  destruct small_two_inv as (L & J & I & Ha & HL). exists L.
  apply (lookup_finds_block small_gen small_machine_ok small_gen_ok small_translator_ok small_two L J); [exact I|apply small_two_env|apply small_two_walks|done].
Defined.

Lemma generation_links_block_witness : exists L J,
  wpc (tb_gen_code small_gen 0 0x3000 0 0 1)
    (fun t s' => exists L' J', full_inv small_gen s' L' J' /\ new_block small_gen L L' J J' 0 t 0x3000 0 0 1 small_two s' /\
       (distinct_pages 0 0x3000 -> pages_apart small_two L -> pages_apart s' L'))
    (leaves (fun s' => exists L' J', full_inv small_gen s' L' J' /\ s'.(host_mem) = small_two.(host_mem) /\
       forall u, L' u -> L u /\ same_block small_two s' u) (unfetchable 0 0x3000)) small_two.
Proof.
  destruct small_two_inv as (L & J & I & Ha & HL). exists L, J.
  apply (generation_links_block small_gen small_machine_ok small_gen_ok small_translator_ok small_two L J); [exact I|apply small_two_env|apply small_two_walks|done].
Defined.

Lemma invalidation_retires_block_witness :
  exists L J s', tb_phys_invalidate 0 no_page small_two = Ok (Some tt, s') /\ retired small_gen L J 0 small_two s'.
Proof.
  destruct small_two_inv as (L & J & I & Ha & HL). exists L, J.
  apply (invalidation_retires_block small_gen small_two L J 0); [apply (fi_cache _ _ _ _ I)|apply HL; lia].
Defined.

Lemma range_invalidation_exact_witness : exists L J s' L' J',
  tb_invalidate_phys_range small_gen 0x2004 0x3001 false small_two = Ok (Some tt, s') /\
  range_gone small_gen 0x2004 0x3001 L L' J J' small_two s'.
Proof.
  destruct small_two_inv as (L & J & I & Ha & HL). exists L, J.
  apply (range_invalidation_exact small_gen small_machine_ok small_gen_ok small_translator_ok small_restored_ok small_two L J); done.
Defined.

Lemma bitmap_check_exact_witness : exists L J,
  wpc (tb_invalidate_phys_page_fast small_gen 0x2004 4) (fun _ s' => exists L' J', may_write small_gen 0x2004 4 L L' J J' small_two s')
    (leaves (restarted small_gen 0x2004 0x2008 L small_two) (resumes_outside small_two small_two.(current_cpu))) small_two.
Proof.
  destruct small_two_inv as (L & J & I & Ha & HL). exists L, J.
  apply (bitmap_check_exact small_gen small_machine_ok small_gen_ok small_translator_ok small_restored_ok small_two L J); [done|done| | |apply small_two_walks].
  - split; [done|]. split; [done|]. split; [by right; right; left|done].
  - rewrite small_two_current. by eexists.
Defined.

Lemma host_address_finds_block_witness : tb_find_pc small_gen 0x40000028 small_two = Ok (Some (Some 1%nat), small_two).
Proof.
  destruct small_two_inv as (L & J & I & Ha & HL).
  apply (host_address_finds_block small_gen small_two L J); [apply (fi_cache _ _ _ _ I)|apply HL; lia|by vm_compute].
Defined.

Lemma page_flush_unmaps_witness : exists L J s' c', tlb_flush_page 0 0x2123 small_two = Ok (Some tt, s') /\
  full_inv small_gen s' L J /\ s'.(cpus) !! 0%nat = Some c' /\ unmapped s' 0x2000 c'.
Proof.
  destruct small_two_inv as (L & J & I & Ha & HL). exists L, J.
  apply (page_flush_unmaps small_gen small_two L J 0 0x2123); [done|apply small_two_env].
Defined.

Lemma chaining_links_jump_witness : exists L J s', tb_add_jump 0 1 1 small_two = Ok (Some tt, s') /\
  full_inv small_gen s' L (if decide (J (0, 1)%nat = None) then chained J (0, 1)%nat 1 else J) /\
  jump_dest s' (0, 1)%nat = (tb_at s' (default 1%nat (J (0, 1)%nat))).(tc_ptr).
Proof.
  destruct small_two_inv as (L & J & I & Ha & HL). exists L, J.
  apply (chaining_links_jump small_gen small_two L J 0 1 1); [done|apply HL; lia|apply HL; lia|]. split; [cbn; lia|by vm_compute].
Defined.

Lemma small_bytes a len : 0 <= a -> a + len <= 0x10000 -> ram_bytes a (0x100000 + a) len.
Proof. intros H1 H2 i Hi. apply small_ram_host. lia. Qed.

Lemma device_write_coherent_witness : exists L s' L' J', write_ram small_gen 0x2004 [1; 2] small_two = Ok (Some tt, s') /\
  full_inv small_gen s' L' J' /\ kept L L' small_two s' /\ s'.(host_mem) = write_code 0x102004 [1; 2] small_two.(host_mem) /\
  forall u, L' u <-> L u /\ forall x, 0x2004 <= x < 0x2004 + 2 -> ~ code_addr (tb_at small_two u) x.
Proof.
  destruct small_two_inv as (L & J & I & Ha & HL). exists L.
  apply (device_write_coherent small_gen small_machine_ok small_gen_ok small_translator_ok small_restored_ok small_two L J); try done.
  - by apply small_bytes.
  - intros x Hx. cbn [length Z.of_nat Pos.of_succ_nat Pos.succ] in Hx. by assert (x = 0x2004 \/ x = 0x2005) as [-> | ->] by lia.
Defined.

Lemma unmap_invalidates_witness : exists L s' L', address_space_unmap small_gen 0x102000 true 0x1800 small_two = Ok (Some tt, s') /\
  unmarked small_gen 0x2000 0x1800 L L' small_two s'.
Proof.
  destruct small_two_inv as (L & J & I & Ha & HL). exists L.
  apply (unmap_invalidates small_gen small_machine_ok small_gen_ok small_translator_ok small_restored_ok small_two L J); try done.
  by apply small_ram_host.
Defined.

(** Code from page 1 on into page 2, which is page 1 again: a write of a device to page 1. *)
Lemma range_twice_crashes_witness : tb_invalidate_phys_page_range small_gen 0x1000 0x2000 false alias_one = Err NullDeref.
Proof.
  destruct alias_one_inv as (L & J & I & HL).
  apply (range_twice_crashes (mapping := alias_mapping) small_gen alias_one L J 0x1000 0x2000 0); [exact I|done|].
  split; [done|by vm_compute|by vm_compute|]. intros [|[|n]] Hn; [by vm_compute|by vm_compute|lia].
Defined.

(** Page 2 is mapped to page 1. *)
Lemma flush_adopts_mapping_witness : exists L J,
  (exists s', tlb_flush 0 small_two = Ok (Some tt, s') /\ full_inv (mapping := alias_mapping) small_gen s' L J) /\
  ((forall w, aligned w -> w <> 0x2000 -> phys_map (Mapping := alias_mapping) 0 w = phys_map (Mapping := small_mapping) 0 w) ->
   exists s', tlb_flush_page 0 0x2123 small_two = Ok (Some tt, s') /\ full_inv (mapping := alias_mapping) small_gen s' L J).
Proof.
  destruct small_two_inv as (L & J & I & Ha & HL). exists L, J.
  apply (flush_adopts_mapping small_gen small_mapping alias_mapping small_two L J 0 0x2123); [exact I|apply small_two_env|].
  intros [|k] w _ Hk; [done|reflexivity].
Defined.

(** A buffer that does not start at the start of a page: after the unmapping of a buffer of
    a page's length from the middle of page 2 on, the block with code at the start of
    page 3, in the middle of the buffer, is still found, and page 3 is not marked. *)
Lemma unmap_leaves_code : exists s' s'',
  address_space_unmap small_gen 0x102800 true 0x1000 small_two = Ok (Some tt, s') /\
  tb_find_fast small_gen 0 0x3000 0 0 s' = Ok (Some 1%nat, s'') /\
  code_addr (tb_at s'' 1) 0x3000 /\ core (tb_at s'' 1) = core (tb_at small_two 1) /\ s'.(phys_dirty) 3 = small_two.(phys_dirty) 3.
Proof.
  exists (after (address_space_unmap small_gen 0x102800 true 0x1000) small_two).
  exists (after (tb_find_fast small_gen 0 0x3000 0 0) (after (address_space_unmap small_gen 0x102800 true 0x1000) small_two)).
  split; [by apply after_returns; vm_compute|]. split; [by apply after_returns; vm_compute|]. split; [|split; by vm_compute].
  exists 0%nat. split; [by left|]. split; by vm_compute.
Qed.
